(* ===== verification/_CoqProject ===== *)
-Q . S2P
Prelude.v
Bytes.v
KLib.v
PidMap.v
Task.v
RunQueue.v
Eevdf.v
Wake.v
Signals.v
ExitLog.v
Cred.v
Xattr.v
Acl.v
Port.v
Capability.v
PageSites.v
Buddy.v
BuddyInit.v
BuddyTracked.v
PageVec.v
PageRef.v
Vmm.v
VmmView.v
VmmMap.v
VmmOps.v
VmmBrk.v
VmmDiscard.v
VmmResize.v
BTree.v
PageCache.v
PageCacheInv.v
PageCacheOps.v
PageCacheWrite.v
PageCacheReclaim.v
PageCacheSteps.v
PageCacheFill.v
VmmFault.v
VmmCache.v
VmmTouch.v
VmmPlan.v
VmmAccess.v
VmmInstall.v
VmmFork.v
SyncObj.v
Ofd.v
HrTimer.v
FutexTable.v
Futex.v
FutexProto.v
Elf.v
Kva.v
PartScan.v
JobCtl.v
