(* ===== verification/Prelude.v ===== *)
(** * LeandrOS: a verification development of the kernel's core

    LeandrOS is a microkernel in Rust.  Its scheduler crate ([src/sched]) owns
    the task table, the run queue, signals, exit records and credentials; the
    IPC crate ([src/ipc]) owns ports, on which tasks park and are woken through
    the run queue; the memory crate ([src/mm]) hands out physical pages and
    keeps the frames of each mapping, into which the ELF crate ([src/elf]) loads
    programs; servers ([src/servers]) implement
    file systems, whose metadata, ACL and open-file logic is shared code; drivers
    ([src/drivers]) add GPU sync objects and partition tables.  The development models this core as
    state-passing functions, one definition per operation of the source and with
    its name, and proves what makes each component correct.

    ** Conventions

    A [w]-bit integer is a [Z] with its wrap-around written out ([wrap32] and
    [wrap64] below) or its saturation wherever the code can reach it;
    an array index is a [nat]; a byte is a [Z] in [0, 256).  [Result] is
    [result], a panic or halt is [None].  A [Mutex] or spin lock around a static
    is the state argument of the operations that take it, and an operation is
    what runs between lock and release; where the lock is released before the call
    is done and others may come in between, the sections are definitions of their
    own.  Code outside the modelled files
    (direct IPC handlers, timer callbacks, the fence oracle, the answer of a
    [try_reserve], a file's bytes) is an argument or a
    class with the laws relied upon.  Console reports, tracing counters and
    inter-processor kicks do not touch the modelled state and are left out.

    ** Files

    - [Prelude] (this file): results, word arithmetic, bit sets, counting, and the
      lemmas on lists and options that the components share; the hint database
      [kernel].
    - [Bytes]: little-endian fields, read and written; what the parsers share.
    - [KLib]: [src/lib] (alignment, [Bitmap], [RingBuffer]).
    - [PidMap]: the two open-addressed pid tables of [src/sched], one instance
      each of one interface: a finite map.
    - [Task]: [src/sched/src/task.rs], task fields and virtual time arithmetic.
    - [RunQueue], [Eevdf], [Wake]: [src/sched/src/runqueue.rs].  [RunQueue] has the
      operations, the invariant and its preservation (slots, occupancy, hint and
      parked bitmaps, counters and both pid indexes agree); [Eevdf] proves that
      selection over hinted slots is selection over the whole table; [Wake] that
      every wake scan is a map over the whole table, so no wake-up is lost.
    - [Signals]: generation, posting, acceptance, stop and continue, admission
      ([src/sched/src/lib.rs], [src/sched/src/signal.rs]).
    - [JobCtl]: [src/servers/tty/src/jobctl.rs], the terminals' job-control rule, with
      the calls of [src/sched/src/signal.rs] it is built from.
    - [ExitLog]: the pool of exit records and the ring behind it
      ([src/sched/src/lib.rs]).
    - [Cred]: the checked operations of [src/sched/src/cred.rs].
    - [Xattr], [Acl]: [src/servers/xattr/src/lib.rs], the attribute arena, and ACLs
      with the permission gates.
    - [Port]: [src/ipc/src/port.rs], [message.rs] and [channel.rs] over the run
      queue.
    - [Capability]: [src/capability/src/lib.rs].
    - [PageSites], [Buddy], [BuddyInit], [BuddyTracked]: [src/mm/src/buddy.rs], in
      order the call-site accounts, the free lists, their construction from the
      boot memory map, and the accounted calls.
    - [PageVec], [PageRef]: [src/mm/src/pagevec.rs], the frames of a mapping, and
      [src/mm/src/pageref.rs], the owners of each frame.
    - [Vmm]: [src/mm/src/vmm.rs], the regions of an address space and the operations
      on them, over a page table that is an interface ([PageTable]).  [VmmView]
      abstracts an address space to its view (the frame and attributes behind every
      address) and states the invariant; [VmmMap], [VmmOps], [VmmBrk], [VmmDiscard]
      and [VmmResize] prove each group of operations against it.
    - [VmmFault]: the fault path of [vmm.rs] and the kernel's accesses to user memory,
      over a page cache that is an interface ([FrameCache]), which [VmmCache]
      instantiates.  [VmmTouch] and [VmmPlan] prove the first half of a fault,
      [VmmInstall] the half after the file read, [VmmAccess] two defects.
    - [VmmFork]: [src/mm/src/cow.rs], the fork of an address space.
    - [BTree]: ordered maps as sorted association lists.
    - [PageCache]: [src/mm/src/pagecache.rs]; [PageCacheInv] its invariant (counters,
      owners of frames), [PageCacheOps], [PageCacheWrite] and [PageCacheReclaim] the
      single operations, [PageCacheSteps] the states they reach, [PageCacheFill] the
      life of a page that is read in.
    - [SyncObj]: [src/drivers/src/syncobj_core.rs] and [sync_file_core.rs].
    - [Ofd]: [src/servers/vfs/src/ofd.rs], open file descriptions.
    - [HrTimer]: [src/sched/src/hrtimer.rs].
    - [FutexTable], [Futex], [FutexProto]: [src/sched/src/futex.rs], in order the
      table of linked waiters, its refinement of a list in arrival order, wake and
      requeue over the run queue, and the phases of a wait as a step relation of
      concurrent tasks.
    - [Elf]: [src/elf/src/lib.rs], the header parser and both loaders, over the
      mappings of [Vmm] and the faults of [VmmFault].
    - [Kva]: [src/mm/src/kva.rs], the window of kernel addresses for device
      mappings, over the same page-table interface.
    - [PartScan]: [src/drivers/src/partscan.rs], MBR and GPT partition tables.

    ** What the theorems show

    Scheduling: [pick_next] is EEVDF over all tasks without a sum wrapping;
    [enqueue] and [remove] keep the invariant; a parked task leaves its port
    exactly by a wake that meets its mask, and a deadline tick releases exactly
    the due waiters and returns the exact next deadline.  Signals: a posted
    signal is accepted once; SIGKILL cannot be held back by masks, sleep or stops; stop
    and continue are inverse; admission is exact; a terminal stops exactly the
    background callers it should, and none that is being killed.  Exit records are reported once.  Credentials:
    each check is its POSIX rule and a refusal changes nothing.  Attributes: the
    arena refines a list of attributes, and ACL evaluation, validation, chmod and
    inheritance are the POSIX ones.  IPC: sends are FIFO and wake the receivers,
    an exiting owner's ports are all closed.  Memory: the free lists always tile
    the free pages, allocation and freeing move exactly one block between free
    and used, freeing undoes allocation, boot-time construction frees exactly the
    usable pages, and the page counts per call site are exact; the chunked frame
    table is the dense vector.  Address spaces: every operation keeps the invariant
    that regions are disjoint and no page-table entry is stale or writable where a
    store must fault, changes exactly the pages its range says, and rolls back when
    it fails; a fault gives a page the frame it should have (zeroed, cached, its own
    or a private copy) and nothing else, and after the file was read only if the page
    still maps the same bytes; after a fork both sides show the same frames and neither
    can write a private one.  Page cache: in every reachable state the owners
    of frames are counted and the counters are exact, [CACHED] up to what unfinished
    fills have yet to add (and so modulo 2^64), reclaim never takes a dirty, pinned or mapped page, a page
    made stale while it was read is not published.  Sync objects: an answer to a wait is the
    timeline's, collection changes no answer, a buffer's exported fence waits for
    exactly the conflicting users.  Descriptions: the id table is a map from ids
    to reference counts, and a stale id does nothing to anyone.  Timers: the published
    expiry is exact and a service pass runs the due timers once each.  Futexes:
    the chains refine one list in arrival order, a wake claims exactly the first
    waiters of its key, and in every interleaving no claimed waiter sleeps and no
    wake-up is lost.  ELF: parsing inverts the ELF64
    layout, and demand-paged loading maps exactly the segments, each byte backed by
    its file position, none writable and executable, the break above them.
    Device mappings: in every history entries are exactly the pages of live
    mappings, guard pages keep these apart, and unmapping undoes mapping.
    Partition tables: a scan reports only
    partitions that are on the disk, a written GPT is read back exactly, from the
    backup when a byte of the primary header is damaged, CRC-32 detects every
    changed byte, and a PARTUUID names one partition.
    Eight theorems state defects: [create_reuses_live_id] (a wrapped port id collides
    with a port still open), [binary_start_never_collected] (a timeline over
    a binary payload is never pruned), [brk_below_heap] (a break below the heap
    strands the heap's pages), [readonly_cow_write_loops] (a store to a read-only
    page of a forked process faults for ever), [write_user_buf_oom] (the kernel
    stores into the page cache when memory is short), [clone_missing_entry_loops] (a
    page the fork could not map faults for ever),
    [requeue_takes_unparked_waiter] (a requeue moves a futex waiter that has not
    parked, which then misses the wakes of its own address) and
    [sigkill_on_exiting_thread] (SIGKILL can be left to a thread that is already
    exiting).  A ninth, [install_into_prot_none], shows that a protection taken away
    while a page is read is not noticed.

    ** Loops and fuel

    Loops that are not structural take fuel, and the theorems give results, not
    conditional answers.  Probing loops have the table size; bit loops 64 steps a
    word; closing an owner's ports nine batches of 64, one more than 512 ports
    fill; the port id search the 65536 ids; nested sends the nesting depth; the
    attribute iterator the arena's length, since an entry is at least four
    bytes; coalescing one round per order up to [MAX_ORDER]; a walk along a free
    list one step more than the blocks in memory; bumping the bitmap past reserved
    ranges one pass more than there are ranges; the fill of a region its number of
    pages; the description scan the number of slots; a timer pass the length of the
    array; a block order 64 doublings; the blocks of a tail its length; the scan of
    a range one step more than there are regions; a fault's window 15 pages after the
    first; a buffer copy its bytes, since a step moves at least one; the cache's
    clock twice its files and three ([scan_files_fuel] proves that enough), a
    reclaim pass its budget; a walk of a futex bucket the number of waiter slots;
    the eager copy of a segment two steps more than the pages of its file part
    ([copy_fuel_enough]).

    ** Not modelled

    The rest of [src/mm] (the slab and small pools), the kernel locks and the
    terminals' line discipline would come next.  The walk of the hardware page
    tables stays an interface, and so do the contents of memory: copies, stores and
    zeroing are calls in a log.  Left out for good: assembly and device registers
    ([src/arch], most of [src/drivers]), the system-call layer's copies to and from
    user memory, the file systems' and network server's I/O loops around third-party
    stacks, and user programs.  Memory ordering of the lock-free readers is not
    modelled: each section under a lock, and each atomic operation, is one step. *)
From stdpp Require Export base tactics numbers list gmap.
From Stdlib Require Export ZArith Lia.

Open Scope Z_scope.

(** The development's hint database: well-formedness and preservation lemmas. *)
Create HintDb kernel.

(** ** Results

    Rust's [Result<A, E>]; [?] is the notation [let? x := e in k]. *)
Inductive result (A E : Type) : Type :=
  | Ok (a : A)
  | Err (e : E).
Arguments Ok {A E} _.
Arguments Err {A E} _.

Definition is_ok {A E} (r : result A E) : bool :=
  match r with Ok _ => true | Err _ => false end.

Declare Scope rust_scope.
Delimit Scope rust_scope with rust.
Open Scope rust_scope.

Notation "'let?' x := e 'in' k" :=
  (match e with Ok x => k | Err err => Err err end)
  (at level 10, x pattern, e at level 100, k at level 200) : rust_scope.

(** [opt.ok_or(err)] *)
Definition ok_or {A E} (o : option A) (err : E) : result A E :=
  match o with Some a => Ok a | None => Err err end.

(** ** Machine integers

    A [w]-bit unsigned integer is a [Z]; the wrap-around is written out where
    the source wraps. *)
Definition U64_MAX : Z := 2 ^ 64 - 1.
Definition U32_MAX : Z := 2 ^ 32 - 1.
Definition wrap64 (x : Z) : Z := x mod 2 ^ 64.
Definition wrap32 (x : Z) : Z := x mod 2 ^ 32.
(** [!x] on a [u64]. *)
Definition not64 (x : Z) : Z := Z.lxor x U64_MAX.

Definition is_u64 (x : Z) : Prop := 0 <= x < 2 ^ 64.
Definition is_u32 (x : Z) : Prop := 0 <= x < 2 ^ 32.

(** [u64::trailing_zeros]; 64 on zero. *)
Fixpoint ctz_pos (p : positive) : nat :=
  match p with xO q => S (ctz_pos q) | _ => O end.
Definition trailing_zeros (x : Z) : nat :=
  match x with Zpos p => ctz_pos p | _ => 64%nat end.

(** [bits &= bits - 1] *)
Definition clear_lowest (x : Z) : Z := Z.land x (x - 1).

(** The slots visited by
    [while bits != 0 { let b = bits.trailing_zeros(); bits &= bits - 1; .. }]:
    one iteration per set bit, so 64 iterations are enough for a [u64]
    ([bit_slots_spec]). *)
Fixpoint bit_slots_fuel (fuel : nat) (bits : Z) : list nat :=
  match fuel with
  | O => []
  | S f => if bits =? 0 then [] else trailing_zeros bits :: bit_slots_fuel f (clear_lowest bits)
  end.
Definition bit_slots (bits : Z) : list nat := bit_slots_fuel 64 bits.

(** ** Record setters

    [setter eta p] builds the functional update of projection [p], given the
    eta-expansion [eta] of the record. *)
Ltac setter eta p :=
  refine (fun v r =>
    ltac:(let e := eval cbv beta delta [eta] in (eta r) in
          let t := eval pattern (p r) in e in
          match t with ?f _ => let b := eval cbv beta in (f v) in exact b end)).

(** ** Boolean reflection of comparisons, as one tactic. *)
Ltac bool_to_prop :=
  repeat match goal with
  | H : (_ && _) = true |- _ => apply andb_true_iff in H; destruct H
  | H : (_ || _) = false |- _ => apply orb_false_iff in H; destruct H
  | H : negb _ = true |- _ => apply negb_true_iff in H
  | H : negb _ = false |- _ => apply negb_false_iff in H
  | H : (_ =? _) = true |- _ => apply Z.eqb_eq in H
  | H : (_ =? _) = false |- _ => apply Z.eqb_neq in H
  | H : (_ <? _) = true |- _ => apply Z.ltb_lt in H
  | H : (_ <? _) = false |- _ => apply Z.ltb_ge in H
  | H : (_ <=? _) = true |- _ => apply Z.leb_le in H
  | H : (_ <=? _) = false |- _ => apply Z.leb_gt in H
  end.

(** ** Bits of a word *)
Lemma land_pow2_testbit (x n : Z) :
  0 <= n -> (Z.land x (Z.shiftl 1 n) =? 0) = negb (Z.testbit x n).
Proof.
  intros Hn. destruct (Z.testbit x n) eqn:E; simpl.
  - apply Z.eqb_neq. intros H.
    assert (Z.testbit (Z.land x (Z.shiftl 1 n)) n = true) as Hb.
    { rewrite Z.land_spec, E, Z.shiftl_spec, Z.sub_diag by lia. done. }
    rewrite H, Z.bits_0 in Hb. done.
  - apply Z.eqb_eq. apply Z.bits_inj'. intros m Hm.
    rewrite Z.land_spec, Z.bits_0, Z.shiftl_1_l, Z.pow2_bits_eqb by lia.
    destruct (Z.eqb_spec n m); subst; [by rewrite E|]. apply andb_false_r.
Qed.

Lemma testbit_shiftl1 (n m : Z) :
  0 <= n -> Z.testbit (Z.shiftl 1 n) m = (n =? m).
Proof. intros. rewrite Z.shiftl_1_l. by apply Z.pow2_bits_eqb. Qed.

Lemma u64_max_ones : U64_MAX = Z.ones 64.
Proof. reflexivity. Qed.

Lemma testbit_u64_max (n : Z) : Z.testbit U64_MAX n = (0 <=? n) && (n <? 64).
Proof.
  rewrite u64_max_ones. destruct (Z.leb_spec 0 n); simpl.
  - rewrite Z.testbit_ones_nonneg by lia. done.
  - by rewrite Z.testbit_neg_r by lia.
Qed.

Lemma testbit_not64 (x n : Z) :
  0 <= n < 64 -> Z.testbit (not64 x) n = negb (Z.testbit x n).
Proof.
  intros. unfold not64. rewrite Z.lxor_spec, testbit_u64_max.
  replace (0 <=? n) with true by (symmetry; apply Z.leb_le; lia).
  replace (n <? 64) with true by (symmetry; apply Z.ltb_lt; lia).
  simpl. apply xorb_true_r.
Qed.

Lemma u64_of_testbit (x : Z) :
  0 <= x -> (forall n, 64 <= n -> Z.testbit x n = false) -> is_u64 x.
Proof.
  intros Hx Hb. split; [done|].
  destruct (Z.eq_dec x 0) as [->|Hne]; [done|].
  destruct (Z.lt_ge_cases x (2 ^ 64)) as [|Hge]; [done|].
  assert (64 <= Z.log2 x) by (apply Z.log2_le_pow2; lia).
  specialize (Hb (Z.log2 x)). rewrite Z.bit_log2 in Hb by lia.
  exfalso. by assert (true = false) by auto.
Qed.

Lemma u64_testbit_high (x n : Z) : is_u64 x -> 64 <= n -> Z.testbit x n = false.
Proof.
  intros [H0 H1] Hn. destruct (Z.eq_dec x 0) as [->|]; [apply Z.bits_0|].
  apply Z.bits_above_log2; [done|].
  apply Z.lt_le_trans with 64; [|done]. apply Z.log2_lt_pow2; lia.
Qed.

Lemma u64_lor x y : is_u64 x -> is_u64 y -> is_u64 (Z.lor x y).
Proof.
  intros Hx Hy. apply u64_of_testbit.
  - apply Z.lor_nonneg. unfold is_u64 in *. lia.
  - intros n Hn. by rewrite Z.lor_spec, !u64_testbit_high.
Qed.

Lemma u64_land_l x y : is_u64 x -> is_u64 (Z.land x y).
Proof.
  intros Hx. apply u64_of_testbit.
  - apply Z.land_nonneg. left. apply Hx.
  - intros n Hn. by rewrite Z.land_spec, (u64_testbit_high x).
Qed.

Lemma u64_bit n : 0 <= n < 64 -> is_u64 (Z.shiftl 1 n).
Proof.
  intros. rewrite Z.shiftl_1_l. split.
  - apply Z.pow_nonneg; lia.
  - apply Z.pow_lt_mono_r; lia.
Qed.

(** ** [trailing_zeros] and [clear_lowest] *)
Lemma clear_lowest_even p : clear_lowest (Zpos p~0) = 2 * clear_lowest (Zpos p).
Proof.
  unfold clear_lowest. apply Z.bits_inj'. intros m Hm.
  replace (Zpos p~0 - 1) with (2 * (Zpos p - 1) + 1) by lia.
  replace (Zpos p~0) with (2 * Zpos p) by lia.
  destruct (Z.eq_dec m 0) as [->|].
  - by rewrite Z.land_spec, !Z.testbit_even_0.
  - replace m with (Z.succ (m - 1)) by lia.
    rewrite Z.land_spec, !Z.testbit_even_succ, Z.testbit_odd_succ, Z.land_spec by lia. done.
Qed.

Lemma clear_lowest_odd p : clear_lowest (Zpos p~1) = 2 * Zpos p.
Proof.
  unfold clear_lowest. replace (Zpos p~1 - 1) with (2 * Zpos p) by lia.
  replace (Zpos p~1) with (2 * Zpos p + 1) by lia.
  apply Z.bits_inj'. intros m Hm. destruct (Z.eq_dec m 0) as [->|].
  - by rewrite Z.land_spec, !Z.testbit_even_0, andb_false_r.
  - replace m with (Z.succ (m - 1)) by lia.
    rewrite Z.land_spec, Z.testbit_odd_succ, !Z.testbit_even_succ by lia. apply andb_diag.
Qed.

Lemma clear_lowest_nonneg x : 0 <= x -> 0 <= clear_lowest x.
Proof. intros. apply Z.land_nonneg. by left. Qed.

(** [trailing_zeros] names a set bit, [clear_lowest] clears exactly that bit,
    and no lower bit is set. *)
Lemma lowest_bit_spec x :
  0 < x ->
  Z.testbit x (Z.of_nat (trailing_zeros x)) = true
  /\ (forall m, 0 <= m < Z.of_nat (trailing_zeros x) -> Z.testbit x m = false)
  /\ (forall m, 0 <= m ->
        Z.testbit (clear_lowest x) m
        = Z.testbit x m && negb (m =? Z.of_nat (trailing_zeros x))).
Proof.
  destruct x as [|p|p]; [lia| |lia]. intros _. simpl trailing_zeros.
  induction p as [p IH|p IH|]; simpl ctz_pos.
  - split; [done|]. split; [lia|]. intros m Hm.
    rewrite clear_lowest_odd. replace (Zpos p~1) with (2 * Zpos p + 1) by lia.
    change (Z.of_nat 0) with 0. destruct (Z.eqb_spec m 0) as [->|]; simpl negb.
    + by rewrite Z.testbit_even_0, andb_false_r.
    + replace m with (Z.succ (m - 1)) by lia.
      by rewrite Z.testbit_even_succ, Z.testbit_odd_succ, andb_true_r by lia.
  - destruct IH as (IH1 & IH2 & IH3). rewrite Nat2Z.inj_succ.
    replace (Zpos p~0) with (2 * Zpos p) by lia.
    split; [by rewrite Z.testbit_even_succ by lia|]. split.
    + intros m Hm. destruct (Z.eq_dec m 0) as [->|]; [apply Z.testbit_even_0|].
      replace m with (Z.succ (m - 1)) by lia.
      rewrite Z.testbit_even_succ by lia. apply IH2. lia.
    + intros m Hm. change (2 * Zpos p) with (Zpos p~0) at 1. rewrite clear_lowest_even.
      destruct (Z.eq_dec m 0) as [->|].
      * by rewrite !Z.testbit_even_0.
      * replace m with (Z.succ (m - 1)) by lia.
        rewrite !Z.testbit_even_succ, IH3 by lia. f_equal. f_equal.
        destruct (Z.eqb_spec (m - 1) (Z.of_nat (ctz_pos p)));
        destruct (Z.eqb_spec (Z.succ (m - 1)) (Z.succ (Z.of_nat (ctz_pos p)))); lia.
  - split; [done|]. split; [lia|]. intros m Hm. unfold clear_lowest. simpl.
    rewrite Z.bits_0. change (Z.of_nat 0) with 0. destruct (Z.eqb_spec m 0) as [->|]; [done|].
    destruct m as [|m|m]; [lia|done|lia].
Qed.

(** Two words that agree on bits [lo..63] agree on a filtered range. *)
Lemma filter_bits_ext (f g : nat -> bool) (l : list nat) :
  (forall i, i ∈ l -> f i = g i) -> List.filter f l = List.filter g l.
Proof.
  induction l as [|i l IH]; intros H; [done|]. simpl.
  rewrite (H i), IH by set_solver. done.
Qed.

Lemma filter_none (f : nat -> bool) (l : list nat) :
  (forall i, i ∈ l -> f i = false) -> List.filter f l = [].
Proof.
  induction l as [|i l IH]; intros H; [done|]. simpl.
  rewrite (H i), IH by set_solver. done.
Qed.

Lemma bit_slots_fuel_spec fuel (w : Z) (lo : nat) :
  is_u64 w -> (lo <= 64)%nat -> (64 - lo <= fuel)%nat ->
  (forall m, 0 <= m < Z.of_nat lo -> Z.testbit w m = false) ->
  bit_slots_fuel fuel w
  = List.filter (fun i => Z.testbit w (Z.of_nat i)) (seq lo (64 - lo)).
Proof.
  revert w lo. induction fuel as [|fuel IH]; intros w lo Hw Hlo Hf Hz.
  { replace (64 - lo)%nat with O by lia. done. }
  simpl. destruct (Z.eqb_spec w 0) as [->|Hne].
  { symmetry. apply filter_none. intros. apply Z.bits_0. }
  destruct (lowest_bit_spec w) as (H1 & H2 & H3); [unfold is_u64 in Hw; lia|].
  set (t := trailing_zeros w) in *.
  assert (t < 64)%nat as Ht.
  { destruct (decide (t < 64)%nat); [done|]. rewrite u64_testbit_high in H1 by (done || lia). done. }
  assert (lo <= t)%nat as Hlt.
  { destruct (decide (lo <= t)%nat); [done|]. rewrite Hz in H1 by lia. done. }
  replace (64 - lo)%nat with ((t - lo) + S (64 - S t))%nat by lia.
  rewrite seq_app, List.filter_app. replace (lo + (t - lo))%nat with t by lia.
  rewrite filter_none; [|intros i Hi; apply H2; rewrite elem_of_seq in Hi; lia].
  simpl. rewrite H1. f_equal. rewrite (IH _ (S t)).
  - apply filter_bits_ext. intros i Hi. rewrite elem_of_seq in Hi.
    rewrite H3 by lia. destruct (Z.eqb_spec (Z.of_nat i) (Z.of_nat t)); [lia|]. apply andb_true_r.
  - by apply u64_land_l.
  - lia.
  - lia.
  - intros m Hm. rewrite H3 by lia.
    destruct (Z.eqb_spec m (Z.of_nat t)); [apply andb_false_r|]. rewrite H2 by lia. done.
Qed.

(** The bit loop visits exactly the set bits, in increasing order, and 64
    iterations are enough. *)
Lemma bit_slots_spec w :
  is_u64 w -> bit_slots w = List.filter (fun i => Z.testbit w (Z.of_nat i)) (seq 0 64).
Proof. intros. apply (bit_slots_fuel_spec 64 w 0); [done|lia|lia|lia]. Qed.

Lemma filter_map_comm {A B} (f : A -> B) (p : B -> bool) (l : list A) :
  List.filter p (map f l) = map f (List.filter (fun a => p (f a)) l).
Proof.
  induction l as [|a l IH]; [done|]. cbn [map List.filter]. rewrite IH.
  by destruct (p (f a)).
Qed.

Lemma omap_ext_in {A B} (f g : A -> option B) (l : list A) :
  (forall x, x ∈ l -> f x = g x) -> omap f l = omap g l.
Proof.
  induction l as [|x l IH]; intros H; [done|]. csimpl.
  rewrite (H x), IH by set_solver. done.
Qed.

Lemma omap_fmap {A B C} (f : B -> option C) (g : A -> B) (l : list A) :
  omap f (g <$> l) = omap (fun x => f (g x)) l.
Proof. induction l as [|x l IH]; [done|]. csimpl. by rewrite IH. Qed.

(** ** Arrays of words: [ws[i]], read as 0 out of range (where Rust panics) *)
Definition word_at (ws : list Z) (i : nat) : Z := default 0 (ws !! i).

Lemma word_at_insert_eq ws i x : (i < length ws)%nat -> word_at (<[i := x]> ws) i = x.
Proof. intros. unfold word_at. by rewrite list_lookup_insert_eq. Qed.

Lemma word_at_insert_ne ws i j x : i <> j -> word_at (<[i := x]> ws) j = word_at ws j.
Proof. intros. unfold word_at. by rewrite list_lookup_insert_ne. Qed.

Lemma word_at_ge ws i : (length ws <= i)%nat -> word_at ws i = 0.
Proof. intros. unfold word_at. by rewrite lookup_ge_None_2. Qed.

(** ** Scans of a bitmap of [n] words

    The shape [for w in 0..n { let mut bits = <bits of word w>; while bits != 0
    { .. } }]: [bits] is read from the current state when word [w] is entered. *)
Definition word_slots (w : nat) (bits : Z) : list nat :=
  map (fun b => w * 64 + b)%nat (bit_slots bits).
Definition scan_words {S : Type} (bits : S -> nat -> Z) (body : S -> nat -> S)
    (n : nat) (s : S) : S :=
  foldl (fun s w => foldl body s (word_slots w (bits s w))) s (seq 0 n).
Definition words_slots (bits : nat -> Z) (n : nat) : list nat :=
  concat (map (fun w => word_slots w (bits w)) (seq 0 n)).

Lemma word_slots_spec w bits :
  is_u64 bits ->
  word_slots w bits
  = List.filter (fun i => Z.testbit bits (Z.of_nat (i mod 64))) (seq (w * 64) 64).
Proof.
  intros Hb. unfold word_slots. rewrite bit_slots_spec by done.
  replace (seq (w * 64) 64) with (map (fun b => w * 64 + b)%nat (seq 0 64)).
  - rewrite (filter_bits_ext _ (fun b => Z.testbit bits (Z.of_nat ((w * 64 + b) mod 64)))).
    + symmetry. apply (filter_map_comm _ (fun i => Z.testbit bits (Z.of_nat (i mod 64)))).
    + intros b Hbb. rewrite elem_of_seq in Hbb. f_equal. f_equal.
      rewrite Nat.add_comm, Nat.Div0.mod_add, Nat.mod_small by lia. done.
  - etrans; [apply (fmap_add_seq (w * 64) 0 64)|]. by rewrite Nat.add_0_r.
Qed.

Lemma words_slots_spec (bits : nat -> Z) n :
  (forall w, (w < n)%nat -> is_u64 (bits w)) ->
  words_slots bits n
  = List.filter (fun i => Z.testbit (bits (i / 64)%nat) (Z.of_nat (i mod 64))) (seq 0 (n * 64)).
Proof.
  induction n as [|n IH]; intros Hb; [done|].
  unfold words_slots. rewrite seq_S, map_app, concat_app.
  cbn [map concat Nat.add]. rewrite app_nil_r.
  fold (words_slots bits n). rewrite IH by (intros; apply Hb; lia).
  replace (S n * 64)%nat with (n * 64 + 64)%nat by lia.
  rewrite seq_app, List.filter_app. f_equal. rewrite word_slots_spec by (apply Hb; lia).
  apply filter_bits_ext. intros i Hi. rewrite elem_of_seq in Hi. cbn in Hi.
  f_equal. f_equal. apply (Nat.div_unique _ _ _ (i - n * 64)%nat); lia.
Qed.

(** A body that touches only the word of the slot it visits may be run over the
    snapshot taken at the start of the scan. *)
Lemma scan_words_snapshot {S : Type} (I : S -> Prop)
    (bits : S -> nat -> Z) (body : S -> nat -> S) n s :
  (forall s i w, w <> (i / 64)%nat -> bits (body s i) w = bits s w) ->
  (forall s i, I s -> I (body s i)) ->
  (forall s w, I s -> (w < n)%nat -> is_u64 (bits s w)) ->
  I s ->
  scan_words bits body n s = foldl body s (words_slots (bits s) n).
Proof.
  intros Hfr HI Hu Hs. unfold scan_words, words_slots.
  assert (forall (l : list nat) (s0 : S), I s0 -> I (foldl body s0 l)) as HIf.
  { induction l as [|i l IH]; intros s0 H0; [done|]. simpl. auto. }
  assert (forall (l : list nat) (s0 : S) w, w ∉ ((fun i => i / 64)%nat <$> l) ->
            bits (foldl body s0 l) w = bits s0 w) as Hfold.
  { induction l as [|i l IH]; intros s0 w Hw; [done|].
    rewrite fmap_cons, not_elem_of_cons in Hw. destruct Hw as [Hw1 Hw2].
    cbn [foldl]. rewrite IH by done. by apply Hfr. }
  assert (forall ws, NoDup ws -> (forall w, w ∈ ws -> (w < n)%nat) -> forall s0, I s0 ->
            foldl (fun s1 w => foldl body s1 (word_slots w (bits s1 w))) s0 ws
            = foldl body s0 (concat (map (fun w => word_slots w (bits s0 w)) ws))) as H.
  { induction ws as [|w ws IH]; intros Hnd Hlt s0 Hs0; [done|].
    apply NoDup_cons in Hnd as [Hnin Hnd]. cbn [foldl map concat].
    assert (forall w', w' ∈ ws -> (w' < n)%nat) as Hlt' by (intros; apply Hlt; by right).
    rewrite IH by auto. rewrite foldl_app.
    rewrite (map_ext_in _ (fun w' => word_slots w' (bits s0 w'))); [done|].
    intros w' Hw'%list_elem_of_In. rewrite Hfold; [done|].
    intros (i & -> & Hi)%list_elem_of_fmap.
    rewrite word_slots_spec in Hi by (apply Hu; [done|apply Hlt; by left]).
    apply list_elem_of_In, List.filter_In in Hi as [Hi _].
    apply list_elem_of_In, elem_of_seq in Hi.
    rewrite <- (Nat.div_unique i 64 w (i - w * 64)) in Hw' by lia. done. }
  apply H; [apply NoDup_seq| |done]. intros w ?%elem_of_seq. lia.
Qed.

(** ** Counting the elements of a list that satisfy a test *)
Fixpoint countb {A} (f : A -> bool) (l : list A) : Z :=
  match l with [] => 0 | x :: l => (if f x then 1 else 0) + countb f l end.

Lemma countb_app {A} (f : A -> bool) l1 l2 : countb f (l1 ++ l2) = countb f l1 + countb f l2.
Proof. induction l1 as [|x l1 IH]; [done|]. cbn. rewrite IH. lia. Qed.

Lemma countb_bounds {A} (f : A -> bool) l : 0 <= countb f l <= Z.of_nat (length l).
Proof. induction l as [|x l IH]; cbn [countb length]; [lia|]. destruct (f x); lia. Qed.

Lemma countb_insert {A} (f : A -> bool) l i x y :
  l !! i = Some y -> countb f (<[i := x]> l) = countb f l + (if f x then 1 else 0) - (if f y then 1 else 0).
Proof.
  revert i. induction l as [|z l IH]; intros [|i] H; try done.
  - injection H as ->. change (<[0%nat := x]> (y :: l)) with (x :: l). cbn [countb]. lia.
  - change (<[S i := x]> (z :: l)) with (z :: <[i := x]> l). cbn [countb]. rewrite (IH i H). lia.
Qed.

Lemma countb_all {A} (f : A -> bool) l : countb f l = Z.of_nat (length l) <-> Forall (fun x => f x = true) l.
Proof.
  induction l as [|x l IH]; [done|]. cbn [countb length]. rewrite Forall_cons, <- IH.
  pose proof (countb_bounds f l). destruct (f x); [|split; [lia|naive_solver]]. split; [intros; split; [done|lia]|intros []; lia].
Qed.

Lemma countb_replicate {A} (f : A -> bool) n x : f x = false -> countb f (replicate n x) = 0.
Proof. intros H. induction n as [|n IH]; [done|]. cbn. by rewrite H, IH. Qed.
