(* ===== verification/Bytes.v ===== *)
(** * Bytes and little-endian fields

    What the parsers of [Elf] and [PartScan] share: a byte is a [Z] below 256, a
    number is read from its bytes in little-endian order ([from_le_bytes]), and a
    written structure is a list of fields, each a width in bytes and a value.
    [field_at] and [read_back] say that reading a field at its offset gives the
    value it was written with. *)
From S2P Require Import Prelude.
#[local] Open Scope Z_scope.

(** [u16::from_le_bytes], [u32::from_le_bytes] and [u64::from_le_bytes] *)
Fixpoint from_le (bs : list Z) : Z := match bs with [] => 0 | x :: bs => x + 256 * from_le bs end.
(** [b[off..off + n]], for a range inside [b] *)
Definition slice (off n : nat) (b : list Z) : list Z := take n (drop off b).

Definition bytes_ok (b : list Z) : Prop := Forall (fun x => 0 <= x < 256) b.

Lemma from_le_bound bs : bytes_ok bs -> 0 <= from_le bs < 256 ^ Z.of_nat (length bs).
Proof.
  induction 1 as [|x bs Hx _ IH]; [cbn; lia|]. cbn [from_le length].
  rewrite Nat2Z.inj_succ, Z.pow_succ_r by lia. lia.
Qed.

Lemma slice_bytes off n b : bytes_ok b -> bytes_ok (slice off n b).
Proof. intros Hb. by apply Forall_take, Forall_drop. Qed.

Lemma slice_bound off n b : bytes_ok b -> 0 <= from_le (slice off n b) < 256 ^ Z.of_nat n.
Proof.
  intros Hb. pose proof (from_le_bound _ (slice_bytes off n b Hb)) as [H1 H2]. split; [done|]. eapply Z.lt_le_trans; [exact H2|].
  apply Z.pow_le_mono_r; [lia|]. unfold slice. rewrite length_take. lia.
Qed.

(** ** Writing *)
Fixpoint to_le (n : nat) (v : Z) : list Z := match n with O => [] | S n => v mod 256 :: to_le n (v / 256) end.

Lemma to_le_bytes n : forall v, bytes_ok (to_le n v) /\ length (to_le n v) = n.
Proof.
  induction n as [|n IH]; intros v; [split; [constructor|done]|]. destruct (IH (v / 256)) as [G1 G2]. split; [|cbn; by rewrite G2].
  constructor; [apply Z.mod_pos_bound; lia|done].
Qed.

Lemma from_to_le n : forall v, 0 <= v < 256 ^ Z.of_nat n -> from_le (to_le n v) = v.
Proof.
  induction n as [|n IH]; intros v Hv; [cbn in *; lia|]. rewrite Nat2Z.inj_succ, Z.pow_succ_r in Hv by lia. cbn [to_le from_le].
  rewrite IH; [pose proof (Z.div_mod v 256); lia|]. split; [apply Z.div_pos; lia|]. apply Z.div_lt_upper_bound; lia.
Qed.

Lemma to_from_le bs : bytes_ok bs -> to_le (length bs) (from_le bs) = bs.
Proof.
  induction 1 as [|x bs Hx _ IH]; [done|]. cbn [length to_le from_le].
  assert ((x + 256 * from_le bs) mod 256 = x) as -> by (rewrite Z.mul_comm, Z_mod_plus_full; by apply Z.mod_small).
  assert ((x + 256 * from_le bs) / 256 = from_le bs) as -> by (rewrite Z.mul_comm, Z.div_add by lia; rewrite Z.div_small by lia; lia).
  by rewrite IH.
Qed.

Lemma from_le_inj a b : bytes_ok a -> bytes_ok b -> length a = length b -> from_le a = from_le b -> a = b.
Proof. intros Ha Hb Hl E. by rewrite <- (to_from_le a Ha), <- (to_from_le b Hb), Hl, E. Qed.

(** Fields one after the other. *)
Definition encode (fs : list (nat * Z)) : list Z := flat_map (fun f => to_le f.1 f.2) fs.
Definition width (fs : list (nat * Z)) : nat := sum_list_with fst fs.
Definition in_range (f : nat * Z) : Prop := 0 <= f.2 < 256 ^ Z.of_nat f.1.

Lemma encode_app fs gs : encode (fs ++ gs) = encode fs ++ encode gs.
Proof. apply flat_map_app. Qed.

Lemma encode_length fs : length (encode fs) = width fs.
Proof.
  induction fs as [|f fs IH]; [done|]. change (encode (f :: fs)) with (to_le f.1 f.2 ++ encode fs).
  by rewrite length_app, IH, (proj2 (to_le_bytes f.1 f.2)).
Qed.

Lemma encode_bytes fs : bytes_ok (encode fs).
Proof. induction fs as [|f fs IH]; [constructor|]. change (encode (f :: fs)) with (to_le f.1 f.2 ++ encode fs). apply Forall_app. split; [apply to_le_bytes|done]. Qed.

Lemma width_split fs i n v : fs !! i = Some (n, v) -> (width (take i fs) + n + width (drop (S i) fs) = width fs)%nat.
Proof.
  intros Hi. rewrite <- (take_drop_middle fs i _ Hi) at 3. unfold width. rewrite sum_list_with_app. cbn. lia.
Qed.

Lemma field_at fs i n v rest : fs !! i = Some (n, v) -> slice (width (take i fs)) n (encode fs ++ rest) = to_le n v.
Proof.
  intros Hi. unfold slice. rewrite <- (take_drop_middle fs i _ Hi) at 2. rewrite encode_app. cbn [encode flat_map fst snd].
  rewrite <- encode_length, <- !app_assoc, drop_app_length. rewrite take_app_length' by (symmetry; apply to_le_bytes). done.
Qed.

Lemma read_back fs i n v rest off : fs !! i = Some (n, v) -> in_range (n, v) -> off = width (take i fs) -> from_le (slice off n (encode fs ++ rest)) = v.
Proof. intros Hi Hr ->. rewrite (field_at fs i n v) by done. by apply from_to_le. Qed.
