(* ===== verification/KLib.v ===== *)
(** * The shared kernel library: alignment, bitmaps and ring buffers

    Models [src/lib/src/lib.rs], [src/lib/src/bitmap.rs] and
    [src/lib/src/ring_buffer.rs].  The bitmap lemmas are also what the run
    queue's occupancy words and the exit log's slot words rest on, the ring
    lemmas what the IPC port queues rest on. *)
From S2P Require Import Prelude.

(** ** Alignment ([usize] is 64 bits on both targets) *)
Module Align.

(** [value + align - 1] wraps in the release profile. *)
Definition align_up (value align : Z) : Z :=
  Z.land (wrap64 (value + align - 1)) (not64 (align - 1)).

Definition align_down (value align : Z) : Z :=
  Z.land value (not64 (align - 1)).

Lemma not64_mask x k :
  0 <= k <= 64 -> is_u64 x -> Z.land x (not64 (2 ^ k - 1)) = x - x mod 2 ^ k.
Proof.
  intros Hk Hx. replace (2 ^ k - 1) with (Z.ones k) by (rewrite Z.ones_equiv; lia).
  replace (x - x mod 2 ^ k) with (Z.shiftl (Z.shiftr x k) k).
  2: { rewrite Z.shiftl_mul_pow2, Z.shiftr_div_pow2 by lia.
       pose proof (Z.div_mod x (2 ^ k)). assert (2 ^ k > 0) by (apply Z.lt_gt, Z.pow_pos_nonneg; lia). lia. }
  apply Z.bits_inj'. intros m Hm. rewrite Z.land_spec, Z.shiftl_spec by lia.
  unfold not64. rewrite Z.lxor_spec, testbit_u64_max.
  destruct (Z.lt_ge_cases m k) as [Hlt|Hge].
  - rewrite Z.ones_spec_low, (Z.testbit_neg_r _ (m - k)) by lia.
    replace (0 <=? m) with true by (symmetry; apply Z.leb_le; lia).
    replace (m <? 64) with true by (symmetry; apply Z.ltb_lt; lia). apply andb_false_r.
  - rewrite Z.ones_spec_high, Z.shiftr_spec by lia. replace (m - k + k) with m by lia.
    destruct (Z.lt_ge_cases m 64).
    + replace (0 <=? m) with true by (symmetry; apply Z.leb_le; lia).
      replace (m <? 64) with true by (symmetry; apply Z.ltb_lt; lia). apply andb_true_r.
    + by rewrite u64_testbit_high.
Qed.

Lemma align_down_spec x k :
  0 <= k <= 64 -> is_u64 x ->
  align_down x (2 ^ k) <= x < align_down x (2 ^ k) + 2 ^ k
  /\ (2 ^ k | align_down x (2 ^ k)).
Proof.
  intros Hk Hx. unfold align_down. rewrite not64_mask by done.
  assert (0 < 2 ^ k) by (apply Z.pow_pos_nonneg; lia).
  pose proof (Z.mod_pos_bound x (2 ^ k)). split; [lia|].
  exists (x / 2 ^ k). pose proof (Z.div_mod x (2 ^ k)). lia.
Qed.

(** Without wrap-around, [align_up] is the least multiple not below [x]. *)
Lemma align_up_spec x k :
  0 <= k <= 63 -> 0 <= x -> x + 2 ^ k <= 2 ^ 64 ->
  x <= align_up x (2 ^ k) < x + 2 ^ k /\ (2 ^ k | align_up x (2 ^ k)).
Proof.
  intros Hk Hx Hov. unfold align_up.
  assert (0 < 2 ^ k) by (apply Z.pow_pos_nonneg; lia).
  unfold wrap64. rewrite Z.mod_small by lia.
  rewrite not64_mask by (unfold is_u64; lia).
  pose proof (Z.mod_pos_bound (x + 2 ^ k - 1) (2 ^ k)). split; [lia|].
  exists ((x + 2 ^ k - 1) / 2 ^ k). pose proof (Z.div_mod (x + 2 ^ k - 1) (2 ^ k)). lia.
Qed.

End Align.

(** ** [Bitmap<N>]: a list of [N] words of 64 bits

    Rust panics on a bit out of range; every lemma asks for a bit in range. *)
Module Bitmap.

Definition new (N : nat) : list Z := replicate N 0.

Definition set (words : list Z) (bit : nat) : list Z :=
  <[(bit / 64)%nat := Z.lor (word_at words (bit / 64)) (Z.shiftl 1 (Z.of_nat (bit mod 64)))]> words.

Definition clear (words : list Z) (bit : nat) : list Z :=
  <[(bit / 64)%nat :=
      Z.land (word_at words (bit / 64)) (not64 (Z.shiftl 1 (Z.of_nat (bit mod 64))))]> words.

Definition get (words : list Z) (bit : nat) : bool :=
  negb (Z.land (Z.shiftr (word_at words (bit / 64)) (Z.of_nat (bit mod 64))) 1 =? 0).

(** [w.trailing_ones()] is [trailing_zeros] of the complement. *)
Fixpoint first_clear_from (i : nat) (words : list Z) : option nat :=
  match words with
  | [] => None
  | w :: ws =>
      if negb (w =? U64_MAX) then Some (i * 64 + trailing_zeros (not64 w))%nat
      else first_clear_from (S i) ws
  end.
Definition first_clear (words : list Z) : option nat := first_clear_from 0 words.

Definition capacity (words : list Z) : nat := (length words * 64)%nat.

(** Every word is a [u64]. *)
Definition wf (N : nat) (words : list Z) : Prop :=
  length words = N /\ Forall is_u64 words.

Lemma div_lt_words bit N : (bit < N * 64)%nat -> (bit / 64 < N)%nat.
Proof. intros. apply Nat.Div0.div_lt_upper_bound. lia. Qed.

Lemma wf_word N words w : wf N words -> (w < N)%nat -> is_u64 (word_at words w).
Proof.
  intros [Hl Hf] Hw. destruct (lookup_lt_is_Some_2 words w) as [x Hx]; [lia|].
  unfold word_at. rewrite Hx. by eapply Forall_lookup_1.
Qed.

Lemma wf_word_any N words w : wf N words -> is_u64 (word_at words w).
Proof.
  intros Hwf. destruct (decide (w < N)%nat) as [|Hge]; [by eapply wf_word|].
  rewrite word_at_ge by (destruct Hwf; lia). unfold is_u64. lia.
Qed.

Lemma mod64_bound bit : 0 <= Z.of_nat (bit mod 64) < 64.
Proof. pose proof (Nat.mod_upper_bound bit 64). lia. Qed.

Lemma wf_new N : wf N (new N).
Proof.
  split; [apply length_replicate|]. apply Forall_replicate. unfold is_u64. lia.
Qed.

Lemma wf_insert N words w x : wf N words -> is_u64 x -> wf N (<[w := x]> words).
Proof.
  intros [Hl Hf] Hx. split; [by rewrite length_insert|]. by apply Forall_insert.
Qed.

Lemma wf_set N words bit : wf N words -> wf N (set words bit).
Proof.
  intros Hwf. apply wf_insert; [done|].
  apply u64_lor; [by eapply wf_word_any|]. apply u64_bit, mod64_bound.
Qed.

Lemma wf_clear N words bit : wf N words -> wf N (clear words bit).
Proof.
  intros Hwf. apply wf_insert; [done|]. apply u64_land_l. by eapply wf_word_any.
Qed.

Lemma get_testbit words bit :
  get words bit = Z.testbit (word_at words (bit / 64)) (Z.of_nat (bit mod 64)).
Proof.
  unfold get. change 1 with (Z.shiftl 1 0). rewrite land_pow2_testbit by lia.
  rewrite negb_involutive, Z.shiftr_spec by lia. f_equal.
Qed.

Lemma same_word i j :
  (i / 64 = j / 64)%nat -> Z.of_nat (i mod 64) = Z.of_nat (j mod 64) -> i = j.
Proof. intros H1 H2. rewrite (Nat.div_mod_eq i 64), (Nat.div_mod_eq j 64). lia. Qed.

Lemma get_set N words i j :
  wf N words -> (i < N * 64)%nat ->
  get (set words i) j = bool_decide (i = j) || get words j.
Proof.
  intros [Hl Hf] Hi. rewrite !get_testbit. unfold set.
  destruct (decide (i / 64 = j / 64)%nat) as [E|E].
  - rewrite E, word_at_insert_eq by (rewrite <- E, Hl; by apply div_lt_words).
    pose proof (mod64_bound i). rewrite Z.lor_spec, testbit_shiftl1 by lia.
    rewrite orb_comm. f_equal. case_bool_decide as Hij; [subst; by rewrite Z.eqb_refl|].
    apply Z.eqb_neq. intros H'. by apply Hij, same_word.
  - rewrite word_at_insert_ne by done.
    rewrite bool_decide_eq_false_2 by congruence. done.
Qed.

Lemma get_clear N words i j :
  wf N words -> (i < N * 64)%nat ->
  get (clear words i) j = negb (bool_decide (i = j)) && get words j.
Proof.
  intros [Hl Hf] Hi. rewrite !get_testbit. unfold clear.
  destruct (decide (i / 64 = j / 64)%nat) as [E|E].
  - rewrite E, word_at_insert_eq by (rewrite <- E, Hl; by apply div_lt_words).
    pose proof (mod64_bound i). pose proof (mod64_bound j).
    rewrite Z.land_spec, testbit_not64, testbit_shiftl1 by lia.
    rewrite andb_comm. f_equal. f_equal.
    case_bool_decide as Hij; [subst; by rewrite Z.eqb_refl|].
    apply Z.eqb_neq. intros H'. by apply Hij, same_word.
  - rewrite word_at_insert_ne by done.
    rewrite bool_decide_eq_false_2 by congruence. done.
Qed.

Lemma get_new N i : get (new N) i = false.
Proof.
  rewrite get_testbit. unfold new.
  destruct (decide (i / 64 < N)%nat).
  - unfold word_at. rewrite lookup_replicate_2 by done. apply Z.bits_0.
  - rewrite word_at_ge by (rewrite length_replicate; lia). apply Z.bits_0.
Qed.

Lemma get_beyond N words i : wf N words -> (N * 64 <= i)%nat -> get words i = false.
Proof.
  intros [Hl _] Hi. rewrite get_testbit, word_at_ge.
  - apply Z.bits_0.
  - rewrite Hl. apply Nat.div_le_lower_bound; lia.
Qed.

(** The slots a scan of the bitmap visits, in order. *)
Definition slots (words : list Z) : list nat :=
  words_slots (fun w => word_at words w) (length words).

Lemma slots_spec N words :
  wf N words -> slots words = List.filter (get words) (seq 0 (N * 64)).
Proof.
  intros Hwf. unfold slots. rewrite words_slots_spec by (intros; by eapply wf_word_any).
  rewrite (proj1 Hwf). apply filter_bits_ext. intros. by rewrite get_testbit.
Qed.

Lemma elem_of_slots N words i : wf N words -> i ∈ slots words <-> get words i = true.
Proof.
  intros Hwf. rewrite (slots_spec N) by done.
  rewrite list_elem_of_In, List.filter_In, <- list_elem_of_In, elem_of_seq. split; [tauto|].
  intros H. split; [|done]. split; [lia|].
  destruct (decide (i < N * 64)%nat); [lia|]. rewrite (get_beyond N) in H by (done || lia). done.
Qed.

Lemma get_cons_shift w ws i :
  get (w :: ws) (64 + i) = get ws i.
Proof.
  rewrite !get_testbit. f_equal.
  - replace (64 + i)%nat with (i + 1 * 64)%nat by lia. rewrite Nat.div_add by lia.
    by rewrite Nat.add_1_r.
  - f_equal. replace (64 + i)%nat with (i + 1 * 64)%nat by lia. by rewrite Nat.Div0.mod_add.
Qed.

Lemma get_cons_low w ws i : (i < 64)%nat -> get (w :: ws) i = Z.testbit w (Z.of_nat i).
Proof. intros. rewrite get_testbit, Nat.div_small, Nat.mod_small by done. done. Qed.

Lemma not64_pos w : is_u64 w -> w <> U64_MAX -> 0 < not64 w /\ is_u64 (not64 w).
Proof.
  intros Hw Hne.
  assert (not64 w = U64_MAX - w) as ->.
  { unfold not64. rewrite u64_max_ones. apply Z.bits_inj'. intros n Hn.
    rewrite Z.lxor_spec. replace (Z.ones 64 - w) with (Z.ldiff (Z.ones 64) w).
    - rewrite Z.ldiff_spec. destruct (Z.lt_ge_cases n 64).
      + rewrite Z.ones_spec_low by lia. by destruct (Z.testbit w n).
      + rewrite Z.ones_spec_high, (u64_testbit_high w) by (done || lia). done.
    - rewrite Z.sub_nocarry_ldiff; [done|].
      rewrite Z.ldiff_ones_r_low; [done|apply Hw|].
      destruct (Z.eq_dec w 0) as [->|]; [done|]. apply Z.log2_lt_pow2; unfold is_u64 in Hw; lia. }
  unfold is_u64, U64_MAX in *. lia.
Qed.

Lemma first_clear_from_shift k ws :
  first_clear_from k ws = (fun i => (k * 64 + i)%nat) <$> first_clear ws.
Proof.
  unfold first_clear. revert k. induction ws as [|w ws IH]; intros k; [done|].
  cbn [first_clear_from]. destruct (negb _); [done|].
  rewrite (IH (S k)), (IH 1%nat). destruct (first_clear_from 0 ws); simpl; [f_equal; lia|done].
Qed.

(** [first_clear] finds the lowest clear bit, and fails only on a full map. *)
Lemma first_clear_spec N words :
  wf N words ->
  match first_clear words with
  | Some i => (i < N * 64)%nat /\ get words i = false
              /\ (forall j, (j < i)%nat -> get words j = true)
  | None => forall j, (j < N * 64)%nat -> get words j = true
  end.
Proof.
  revert N. induction words as [|w ws IH]; intros N [Hl Hf].
  { simpl in *. lia. }
  inversion Hf as [|? ? Hw Hws]; subst. unfold first_clear. cbn [first_clear_from].
  destruct (Z.eqb_spec w U64_MAX) as [->|Hne]; cbn [negb].
  - rewrite first_clear_from_shift.
    specialize (IH (length ws) (conj eq_refl Hws)).
    assert (forall j, (j < 64)%nat -> get (U64_MAX :: ws) j = true) as Hlow.
    { intros j Hj. rewrite get_cons_low by done. rewrite testbit_u64_max.
      apply andb_true_intro. split; [apply Z.leb_le|apply Z.ltb_lt]; lia. }
    destruct (first_clear ws) as [i|]; cbn [fmap option_fmap option_map length].
    + destruct IH as (IH1 & IH2 & IH3). split; [lia|]. rewrite Nat.mul_1_l. split.
      * by rewrite get_cons_shift.
      * intros j Hj. destruct (decide (j < 64)%nat); [auto|].
        replace j with (64 + (j - 64))%nat by lia. rewrite get_cons_shift. apply IH3. lia.
    + intros j Hj. destruct (decide (j < 64)%nat); [auto|].
      replace j with (64 + (j - 64))%nat by lia. rewrite get_cons_shift. apply IH. lia.
  - destruct (not64_pos w Hw Hne) as [Hp Hu].
    destruct (lowest_bit_spec _ Hp) as (H1 & H2 & _).
    set (t := trailing_zeros (not64 w)) in *.
    assert (t < 64)%nat.
    { destruct (decide (t < 64)%nat); [done|]. rewrite u64_testbit_high in H1 by (done || lia). done. }
    change (0 * 64 + t)%nat with t. split; [simpl; lia|].
    rewrite testbit_not64 in H1 by lia. split.
    + rewrite get_cons_low by done. by apply negb_true_iff in H1.
    + intros j Hj. rewrite get_cons_low by lia. specialize (H2 (Z.of_nat j)).
      rewrite testbit_not64 in H2 by lia. apply negb_false_iff, H2. lia.
Qed.

End Bitmap.

(** ** [RingBuffer<T, N>] *)
Module Ring.
Section ring.
Context {T : Type} (N : nat).

Record t := mk { buf : list (option T); head : nat; tail : nat }.

Definition new : t := mk (replicate N None) 0 0.

Definition push (r : t) (val : T) : bool * t :=
  let next := ((tail r + 1) mod N)%nat in
  if (next =? head r)%nat then (false, r)
  else (true, mk (<[tail r := Some val]> (buf r)) (head r) next).

Definition pop (r : t) : option T * t :=
  if (head r =? tail r)%nat then (None, r)
  else (mjoin (buf r !! head r),
        mk (<[head r := None]> (buf r)) ((head r + 1) mod N)%nat (tail r)).

Definition is_empty (r : t) : bool := (head r =? tail r)%nat.

(** Number of queued elements, and the queue they form, oldest first. *)
Definition len (r : t) : nat := ((tail r + N - head r) mod N)%nat.
Definition view (r : t) : list T :=
  omap (fun k => mjoin (buf r !! ((head r + k) mod N)%nat)) (seq 0 (len r)).

Definition wf (r : t) : Prop :=
  length (buf r) = N /\ (head r < N)%nat /\ (tail r < N)%nat
  /\ forall k, (k < len r)%nat -> exists x, buf r !! ((head r + k) mod N)%nat = Some (Some x).

Lemma mod_cases a : (a < 2 * N)%nat -> (a mod N = if decide (a < N)%nat then a else a - N)%nat.
Proof.
  intros Ha. case_decide; [by apply Nat.mod_small|].
  symmetry. apply (Nat.mod_unique _ _ 1); lia.
Qed.

Lemma len_cases r :
  (head r < N)%nat -> (tail r < N)%nat ->
  len r = (if decide (head r <= tail r)%nat then tail r - head r else tail r + N - head r)%nat.
Proof.
  intros. unfold len. rewrite mod_cases by lia. repeat case_decide; lia.
Qed.

Lemma wf_empty : (0 < N)%nat -> wf new.
Proof.
  intros HN. unfold wf, new. simpl. rewrite length_replicate.
  split; [done|]. split; [done|]. split; [done|].
  intros k Hk. rewrite len_cases in Hk by (simpl; lia). simpl in Hk. lia.
Qed.

Lemma view_length r : wf r -> length (view r) = len r.
Proof.
  intros (_ & _ & _ & Hq). unfold view. generalize (len r) Hq. clear Hq.
  induction n as [|n IH]; intros Hq; [done|].
  rewrite seq_S, omap_app, length_app, IH by (intros; apply Hq; lia).
  destruct (Hq n) as [x Hx]; [lia|]. simpl. rewrite Hx. simpl. lia.
Qed.

Lemma push_full r val : wf r -> (push r val).1 = false <-> len r = (N - 1)%nat.
Proof.
  intros (Hl & Hh & Ht & _). rewrite len_cases by done. unfold push.
  rewrite mod_cases by lia.
  destruct (Nat.eqb_spec (if decide (tail r + 1 < N)%nat then tail r + 1 else tail r + 1 - N)%nat (head r))
    as [E|E]; simpl; split; intros; repeat case_decide; try done; try lia.
Qed.

(** [push] appends at the end of the queue, or refuses when [N - 1] are queued. *)
Lemma push_spec r val r' :
  wf r -> push r val = (true, r') -> wf r' /\ view r' = view r ++ [val].
Proof.
  intros (Hl & Hh & Ht & Hq). unfold push. rewrite mod_cases by lia.
  set (nx := (if decide (tail r + 1 < N)%nat then tail r + 1 else tail r + 1 - N)%nat).
  destruct (Nat.eqb_spec nx (head r)) as [|Hne]; [done|]. intros [= <-].
  assert (nx < N)%nat by (unfold nx; case_decide; lia).
  assert (len (mk (<[tail r:=Some val]> (buf r)) (head r) nx) = S (len r)) as Hlen.
  { rewrite !len_cases by done. simpl. unfold nx in *. repeat case_decide; lia. }
  assert (forall k, (k < len r)%nat -> ((head r + k) mod N <> tail r)%nat) as Hk1.
  { intros k Hk. rewrite len_cases in Hk by done. rewrite mod_cases by (repeat case_decide; lia).
    repeat case_decide; lia. }
  assert ((head r + len r) mod N = tail r)%nat as Hk2.
  { rewrite len_cases by done. rewrite mod_cases by (repeat case_decide; lia). repeat case_decide; lia. }
  split.
  - split; [simpl; by rewrite length_insert|]. do 2 (split; [done|]).
    intros k Hk. rewrite Hlen in Hk. simpl.
    destruct (decide (k = len r)) as [->|].
    + rewrite Hk2, list_lookup_insert_eq by lia. eauto.
    + rewrite list_lookup_insert_ne by (apply not_eq_sym, Hk1; lia). apply Hq. lia.
  - unfold view. rewrite Hlen, seq_S, omap_app. f_equal.
    + apply omap_ext_in. intros k Hk%elem_of_seq. simpl.
      rewrite list_lookup_insert_ne; [done|]. apply not_eq_sym, Hk1. lia.
    + simpl. rewrite Hk2, list_lookup_insert_eq by lia. done.
Qed.

(** [pop] takes the oldest element, and [None] exactly on an empty queue. *)
Lemma pop_spec r :
  wf r ->
  match pop r with
  | (Some x, r') => wf r' /\ view r = x :: view r'
  | (None, r') => r' = r /\ view r = []
  end.
Proof.
  intros (Hl & Hh & Ht & Hq). unfold pop.
  destruct (Nat.eqb_spec (head r) (tail r)) as [E|Hne].
  { split; [done|]. unfold view. rewrite len_cases, E, decide_True, Nat.sub_diag by lia. done. }
  assert (exists n, len r = S n) as [n Hn].
  { rewrite len_cases by done. case_decide; [exists (tail r - head r - 1)%nat|exists (tail r + N - head r - 1)%nat]; lia. }
  destruct (Hq 0%nat) as [x Hx]; [lia|]. rewrite Nat.add_0_r, Nat.mod_small in Hx by done.
  rewrite Hx. simpl.
  set (hd := ((head r + 1) mod N)%nat).
  assert (hd = if decide (head r + 1 < N)%nat then head r + 1 else head r + 1 - N)%nat as Hhd
    by (apply mod_cases; lia).
  assert (hd < N)%nat by (rewrite Hhd; case_decide; lia).
  assert (len (mk (<[head r:=None]> (buf r)) hd (tail r)) = n) as Hlen.
  { rewrite len_cases in Hn |- * by done. simpl. rewrite Hhd. repeat case_decide; lia. }
  assert (n < N)%nat as Hn' by (rewrite len_cases in Hn by done; repeat case_decide; lia).
  assert (forall k, (k < n)%nat -> ((hd + k) mod N = (head r + S k) mod N)%nat
                                /\ ((hd + k) mod N <> head r)%nat) as Hk.
  { intros k Hk. rewrite len_cases in Hn by done. rewrite Hhd.
    rewrite !mod_cases by (repeat case_decide; lia). repeat case_decide; lia. }
  split.
  - split; [simpl; by rewrite length_insert|]. do 2 (split; [done|]). rewrite Hlen. intros k Hkn.
    destruct (Hk k) as [E1 E2]; [done|]. simpl.
    rewrite list_lookup_insert_ne by done. rewrite E1. apply Hq. lia.
  - unfold view. rewrite Hlen, Hn, <- cons_seq. simpl.
    rewrite Nat.add_0_r, Nat.mod_small, Hx by done. simpl. f_equal.
    rewrite <- fmap_S_seq, omap_fmap. apply omap_ext_in. intros k Hk'%elem_of_seq.
    destruct (Hk k) as [E1 E2]; [lia|]. by rewrite list_lookup_insert_ne, E1 by done.
Qed.

End ring.
Arguments t T : clear implicits.
End Ring.
