(* ===== verification/PidMap.v ===== *)
(** * Open-addressed pid tables with backward-shift deletion

    Two tables of the scheduler share one shape: [RunQueue::pid_index]
    (pid -> run-queue slot, [src/sched/src/runqueue.rs]) and [PID_TGID]
    (pid -> tgid, [src/sched/src/lib.rs]).  Each is an array of [4 * MAX_TASKS]
    words [(pid << 32) | value], 0 for an empty slot, probed linearly from
    [pid & MASK]; a removal closes the hole by shifting later entries back.

    The file gives both sets of operations as they are written, the invariant
    of the table, and the theorem that each operation refines the matching
    operation of a finite map. *)
From S2P Require Import Prelude.

(** [4 * MAX_TASKS] *)
Definition PID_INDEX_SLOTS : Z := 16384.
Definition PID_INDEX_MASK : Z := PID_INDEX_SLOTS - 1.

(** [table[s]] and [table[s] = v] *)
Definition tget (t : list Z) (s : Z) : Z := word_at t (Z.to_nat s).
Definition tset (t : list Z) (s v : Z) : list Z := <[Z.to_nat s := v]> t.

(** [((pid as u64) << 32) | v as u64], [(e >> 32) as u32], [e & 0xFFFF_FFFF] *)
Definition pack (pid v : Z) : Z := Z.lor (Z.shiftl pid 32) v.
Definition entry_pid (e : Z) : Z := wrap32 (Z.shiftr e 32).
Definition entry_val (e : Z) : Z := Z.land e 0xFFFFFFFF.

(** ** [RunQueue]'s index *)
Definition index_home (pid : Z) : Z := Z.land pid PID_INDEX_MASK.

Fixpoint index_insert_loop (fuel : nat) (t : list Z) (s pid want : Z) : list Z :=
  match fuel with
  | O => t
  | S f =>
      let e := tget t s in
      if (e =? 0) || (entry_pid e =? pid) then tset t s want
      else index_insert_loop f t (Z.land (s + 1) PID_INDEX_MASK) pid want
  end.

Definition index_insert (t : list Z) (pid idx : Z) : list Z :=
  if pid =? 0 then t
  else index_insert_loop (Z.to_nat PID_INDEX_SLOTS) t (index_home pid) pid (pack pid idx).

(** The search of [index_remove]: the slot of [pid]'s entry. *)
Fixpoint index_find_loop (fuel : nat) (t : list Z) (s pid : Z) : option Z :=
  match fuel with
  | O => None
  | S f =>
      let e := tget t s in
      if e =? 0 then None
      else if entry_pid e =? pid then Some s
      else index_find_loop f t (Z.land (s + 1) PID_INDEX_MASK) pid
  end.

(** The [loop] that closes the hole.  The table always has an empty slot, so
    the loop stops within [PID_INDEX_SLOTS] steps ([index_shift_loop_spec]). *)
Fixpoint index_shift_loop (fuel : nat) (t : list Z) (hole j : Z) : list Z * Z :=
  match fuel with
  | O => (t, hole)
  | S f =>
      let j := Z.land (j + 1) PID_INDEX_MASK in
      let e := tget t j in
      if e =? 0 then (t, hole)
      else
        let home := index_home (entry_pid e) in
        if Z.land (wrap64 (j - hole)) PID_INDEX_MASK <=? Z.land (wrap64 (j - home)) PID_INDEX_MASK
        then index_shift_loop f (tset t hole e) j j
        else index_shift_loop f t hole j
  end.

Definition index_remove (t : list Z) (pid : Z) : list Z :=
  if pid =? 0 then t
  else match index_find_loop (Z.to_nat PID_INDEX_SLOTS) t (index_home pid) pid with
       | None => t
       | Some hole =>
           let '(t', hole') := index_shift_loop (Z.to_nat PID_INDEX_SLOTS) t hole hole in
           tset t' hole' 0
       end.

Fixpoint index_lookup_loop (fuel : nat) (t : list Z) (s pid : Z) : option Z :=
  match fuel with
  | O => None
  | S f =>
      let e := tget t s in
      if e =? 0 then None
      else if entry_pid e =? pid then Some (entry_val e)
      else index_lookup_loop f t (Z.land (s + 1) PID_INDEX_MASK) pid
  end.

Definition index_lookup (t : list Z) (pid : Z) : option Z :=
  index_lookup_loop (Z.to_nat PID_INDEX_SLOTS) t (index_home pid) pid.

(** ** The pid -> tgid side table

    The same table, with the probe position written [(start + i) & MASK]. *)
Definition pid_tgid_slot (pid : Z) : Z := Z.land pid (PID_INDEX_SLOTS - 1).

Fixpoint pid_tgid_insert_loop (fuel : nat) (t : list Z) (start i pid want : Z) : list Z :=
  match fuel with
  | O => t
  | S f =>
      let s := Z.land (start + i) (PID_INDEX_SLOTS - 1) in
      let cur := tget t s in
      if (cur =? 0) || (entry_pid cur =? pid) then tset t s want
      else pid_tgid_insert_loop f t start (i + 1) pid want
  end.

Definition pid_tgid_insert (t : list Z) (pid tgid : Z) : list Z :=
  if pid =? 0 then t
  else pid_tgid_insert_loop (Z.to_nat PID_INDEX_SLOTS) t (pid_tgid_slot pid) 0 pid (pack pid tgid).

Fixpoint pid_tgid_find_loop (fuel : nat) (t : list Z) (start i pid : Z) : option Z :=
  match fuel with
  | O => None
  | S f =>
      let s := Z.land (start + i) (PID_INDEX_SLOTS - 1) in
      let cur := tget t s in
      if cur =? 0 then None
      else if entry_pid cur =? pid then Some s
      else pid_tgid_find_loop f t start (i + 1) pid
  end.

Definition pid_tgid_remove (t : list Z) (pid : Z) : list Z :=
  if pid =? 0 then t
  else match pid_tgid_find_loop (Z.to_nat PID_INDEX_SLOTS) t (pid_tgid_slot pid) 0 pid with
       | None => t
       | Some hole =>
           let '(t', hole') := index_shift_loop (Z.to_nat PID_INDEX_SLOTS) t hole hole in
           tset t' hole' 0
       end.

Fixpoint pid_tgid_get_loop (fuel : nat) (t : list Z) (start i pid : Z) : option Z :=
  match fuel with
  | O => None
  | S f =>
      let s := Z.land (start + i) (PID_INDEX_SLOTS - 1) in
      let cur := tget t s in
      if cur =? 0 then None
      else if entry_pid cur =? pid then Some (wrap32 cur)
      else pid_tgid_get_loop f t start (i + 1) pid
  end.

Definition pid_tgid_get (t : list Z) (pid : Z) : option Z :=
  pid_tgid_get_loop (Z.to_nat PID_INDEX_SLOTS) t (pid_tgid_slot pid) 0 pid.

(** ** Words *)
#[local] Notation N := 16384 (only parsing).

Lemma land_mask x : Z.land x PID_INDEX_MASK = x mod N.
Proof. apply (Z.land_ones x 14). lia. Qed.

Lemma land_mask_wrap x : Z.land (wrap64 x) PID_INDEX_MASK = x mod N.
Proof.
  rewrite land_mask. unfold wrap64. apply Z.mod_mod_divide.
  exists (2 ^ 50). reflexivity.
Qed.

Lemma home_range pid : 0 <= index_home pid < N.
Proof. unfold index_home. rewrite land_mask. apply Z.mod_pos_bound. lia. Qed.

Lemma pack_add p v : is_u32 p -> is_u32 v -> pack p v = p * 2 ^ 32 + v.
Proof.
  intros Hp Hv. unfold pack. rewrite Z.shiftl_mul_pow2 by lia.
  assert (Z.land (p * 2 ^ 32) v = 0) as Hd.
  { apply Z.bits_inj'. intros n Hn. rewrite Z.land_spec, Z.bits_0.
    destruct (Z.lt_ge_cases n 32).
    - rewrite Z.mul_pow2_bits_low by lia. done.
    - destruct (Z.eq_dec v 0) as [->|]; [by rewrite Z.bits_0, andb_false_r|].
      rewrite (Z.bits_above_log2 v); [apply andb_false_r|unfold is_u32 in Hv; lia|].
      apply Z.lt_le_trans with 32; [|done]. apply Z.log2_lt_pow2; unfold is_u32 in Hv; lia. }
  pose proof (Z.add_lor_land (p * 2 ^ 32) v). lia.
Qed.

Lemma pack_fields p v :
  is_u32 p -> is_u32 v ->
  entry_pid (pack p v) = p /\ entry_val (pack p v) = v /\ wrap32 (pack p v) = v.
Proof.
  intros Hp Hv. rewrite pack_add by done. unfold entry_pid, entry_val, wrap32.
  change 0xFFFFFFFF with (Z.ones 32). rewrite Z.land_ones, Z.shiftr_div_pow2 by lia.
  unfold is_u32 in *. rewrite Z.div_add_l, (Z.div_small v), Z.add_0_r by lia.
  rewrite Z.mod_small by lia. rewrite (Z.add_comm _ v), Z.mod_add, Z.mod_small by lia. done.
Qed.

Lemma pack_nonzero p v : is_u32 p -> is_u32 v -> p <> 0 -> pack p v <> 0.
Proof. intros Hp Hv Hne. rewrite pack_add by done. unfold is_u32 in *. lia. Qed.

Lemma tget_tset_eq t s v : length t = Z.to_nat N -> 0 <= s < N -> tget (tset t s v) s = v.
Proof. intros Hl Hs. unfold tget, tset. apply word_at_insert_eq. lia. Qed.

Lemma tget_tset_ne t s s' v : 0 <= s -> 0 <= s' -> s <> s' -> tget (tset t s v) s' = tget t s'.
Proof. intros. unfold tget, tset. apply word_at_insert_ne. lia. Qed.

(** Number of occupied slots. *)
Definition occ (t : list Z) : nat := length (List.filter (fun e => negb (e =? 0)) t).

Lemma occ_insert t i x :
  (i < length t)%nat ->
  (occ (<[i := x]> t) + (if Z.eqb (word_at t i) 0 then 0 else 1)
   = occ t + (if Z.eqb x 0 then 0 else 1))%nat.
Proof.
  unfold occ, word_at. revert i. induction t as [|e t IH]; intros i Hi; [simpl in Hi; lia|].
  destruct i as [|i].
  - simpl. destruct (Z.eqb_spec e 0), (Z.eqb_spec x 0); simpl; lia.
  - specialize (IH i). simpl in *. destruct (Z.eqb_spec e 0); simpl; lia.
Qed.

Lemma occ_full t : (forall i, (i < length t)%nat -> word_at t i <> 0) -> occ t = length t.
Proof.
  unfold occ. induction t as [|e t IH]; intros H; [done|]. cbn.
  pose proof (H 0%nat) as H0. cbn in H0.
  destruct (Z.eqb_spec e 0); [exfalso; apply H0; [lia|done]|]. cbn. f_equal. apply IH.
  intros i Hi. apply (H (S i)). cbn. lia.
Qed.

Lemma occ_has_zero t :
  length t = Z.to_nat N -> (occ t < Z.to_nat N)%nat -> exists z, 0 <= z < N /\ tget t z = 0.
Proof.
  intros Hl Ho.
  destruct (List.existsb (fun i => tget t (Z.of_nat i) =? 0) (seq 0 (Z.to_nat N))) eqn:E.
  - apply List.existsb_exists in E as (i & Hi & E).
    apply list_elem_of_In, elem_of_seq in Hi. apply Z.eqb_eq in E.
    exists (Z.of_nat i). split; [lia|done].
  - exfalso. rewrite occ_full in Ho; [lia|]. intros i Hi H0.
    assert (List.existsb (fun i => tget t (Z.of_nat i) =? 0) (seq 0 (Z.to_nat N)) = true); [|congruence].
    apply List.existsb_exists. exists i. split.
    + apply list_elem_of_In, elem_of_seq. lia.
    + unfold tget. rewrite Nat2Z.id. by apply Z.eqb_eq.
Qed.

(** ** The table invariant *)
Definition entry_home (t : list Z) (s : Z) : Z := index_home (entry_pid (tget t s)).

Record table_ok (t : list Z) (m : gmap Z Z) : Prop := {
  ok_len : length t = Z.to_nat N;
  ok_occ : occ t = size m;
  ok_sound : forall s, 0 <= s < N -> tget t s <> 0 ->
    exists v, tget t s = pack (entry_pid (tget t s)) v /\ m !! entry_pid (tget t s) = Some v;
  ok_dom : forall p v, m !! p = Some v ->
    is_u32 p /\ p <> 0 /\ is_u32 v /\ exists s, 0 <= s < N /\ tget t s = pack p v;
  ok_uniq : forall s1 s2, 0 <= s1 < N -> 0 <= s2 < N -> tget t s1 <> 0 -> tget t s2 <> 0 ->
    entry_pid (tget t s1) = entry_pid (tget t s2) -> s1 = s2;
  ok_chain : forall s k, 0 <= s < N -> tget t s <> 0 ->
    0 <= k < (s - entry_home t s) mod N -> tget t ((entry_home t s + k) mod N) <> 0;
}.

(** ** Probing

    Every loop walks to the first slot that is empty or holds [pid]. *)
Fixpoint probe (fuel : nat) (t : list Z) (s pid : Z) : option Z :=
  match fuel with
  | O => None
  | S f =>
      if (tget t s =? 0) || (entry_pid (tget t s) =? pid) then Some s
      else probe f t ((s + 1) mod N) pid
  end.

Lemma insert_loop_probe fuel t s pid want :
  index_insert_loop fuel t s pid want
  = match probe fuel t s pid with Some r => tset t r want | None => t end.
Proof.
  revert s. induction fuel as [|f IH]; intros s; [done|]. cbn [index_insert_loop probe].
  destruct (_ || _); [done|]. by rewrite land_mask.
Qed.

Lemma find_loop_probe fuel t s pid :
  index_find_loop fuel t s pid
  = match probe fuel t s pid with
    | Some r => if tget t r =? 0 then None else Some r
    | None => None
    end.
Proof.
  revert s. induction fuel as [|f IH]; intros s; [done|]. cbn [index_find_loop probe].
  destruct (tget t s =? 0) eqn:E; cbn [orb]; [by rewrite E|].
  destruct (entry_pid _ =? pid); [by rewrite E|]. by rewrite land_mask.
Qed.

Lemma lookup_loop_probe fuel t s pid :
  index_lookup_loop fuel t s pid
  = match probe fuel t s pid with
    | Some r => if tget t r =? 0 then None else Some (entry_val (tget t r))
    | None => None
    end.
Proof.
  revert s. induction fuel as [|f IH]; intros s; [done|]. cbn [index_lookup_loop probe].
  destruct (tget t s =? 0) eqn:E; cbn [orb]; [by rewrite E|].
  destruct (entry_pid _ =? pid); [by rewrite E|]. by rewrite land_mask.
Qed.

Lemma probe_spec fuel t s pid d :
  0 <= s < N -> 0 <= d < Z.of_nat fuel ->
  (tget t ((s + d) mod N) = 0 \/ entry_pid (tget t ((s + d) mod N)) = pid) ->
  (forall k, 0 <= k < d ->
     tget t ((s + k) mod N) <> 0 /\ entry_pid (tget t ((s + k) mod N)) <> pid) ->
  probe fuel t s pid = Some ((s + d) mod N).
Proof.
  revert s d. induction fuel as [|f IH]; intros s d Hs Hd Hstop Hbefore; [lia|].
  cbn [probe]. destruct (Z.eq_dec d 0) as [->|Hd0].
  - rewrite Z.add_0_r, (Z.mod_small s) in Hstop |- * by done.
    replace (_ || _) with true; [done|]. symmetry. apply orb_true_iff.
    destruct Hstop; [left|right]; by apply Z.eqb_eq.
  - destruct (Hbefore 0) as [H1 H2]; [lia|]. rewrite Z.add_0_r, Z.mod_small in H1, H2 by done.
    replace (_ || _) with false.
    2: { symmetry. apply orb_false_iff. split; by apply Z.eqb_neq. }
    assert (forall k, ((s + 1) mod N + k) mod N = (s + (k + 1)) mod N) as Hk.
    { intros k. rewrite Zplus_mod_idemp_l. f_equal. lia. }
    rewrite (IH _ (d - 1)).
    + f_equal. rewrite Hk. f_equal. lia.
    + apply Z.mod_pos_bound. lia.
    + lia.
    + rewrite Hk. by replace (d - 1 + 1) with d by lia.
    + intros k Hkd. rewrite Hk. apply Hbefore. lia.
Qed.

(** The least distance at which a decidable property holds. *)
Lemma least_dist (P : Z -> bool) n :
  (exists k, 0 <= k < Z.of_nat n /\ P k = true) ->
  exists d, 0 <= d < Z.of_nat n /\ P d = true /\ forall k, 0 <= k < d -> P k = false.
Proof.
  induction n as [|n IH]; intros (k & Hk & HP); [lia|].
  destruct (List.existsb (fun i => P (Z.of_nat i)) (seq 0 n)) eqn:E.
  - apply List.existsb_exists in E as (i & Hi & E). apply list_elem_of_In, elem_of_seq in Hi.
    destruct IH as (d & Hd & HPd & Hl); [exists (Z.of_nat i); split; [lia|done]|].
    exists d. split; [lia|done].
  - assert (forall i, 0 <= i < Z.of_nat n -> P i = false) as Hno.
    { intros i Hi. destruct (P i) eqn:Ei; [|done].
      assert (List.existsb (fun i => P (Z.of_nat i)) (seq 0 n) = true); [|congruence].
      apply List.existsb_exists. exists (Z.to_nat i). rewrite Z2Nat.id by lia. split; [|done].
      apply list_elem_of_In, elem_of_seq. lia. }
    exists k. destruct (Z.eq_dec k (Z.of_nat n)) as [->|].
    + split; [lia|done].
    + rewrite Hno in HP by lia. done.
Qed.

(** ** Where a probe ends in a well-formed table *)
Lemma dist_slot h s : 0 <= s < N -> (h + (s - h) mod N) mod N = s.
Proof. intros. rewrite Zplus_mod_idemp_r. replace (h + (s - h)) with s by lia. by apply Z.mod_small. Qed.

Lemma slot_dist h k : 0 <= k < N -> ((h + k) mod N - h) mod N = k.
Proof.
  intros. rewrite Zminus_mod_idemp_l. replace (h + k - h) with k by lia. by apply Z.mod_small.
Qed.

Lemma slot_range x : 0 <= x mod N < N.
Proof. apply Z.mod_pos_bound. lia. Qed.

#[local] Hint Resolve slot_range home_range : core.

(** Distances along the ring subtract while they do not go round. *)
Lemma dist_sub a b c :
  (c - b) mod N <= (c - a) mod N -> (b - a) mod N = (c - a) mod N - (c - b) mod N.
Proof.
  intros H. replace (b - a) with ((c - a) - (c - b)) by lia.
  rewrite Zminus_mod. apply Z.mod_small.
  pose proof (slot_range (c - a)). pose proof (slot_range (c - b)). lia.
Qed.

Lemma dist_sub_round a b c :
  (c - a) mod N < (c - b) mod N -> (b - a) mod N = (c - a) mod N - (c - b) mod N + N.
Proof.
  intros H. replace (b - a) with ((c - a) - (c - b)) by lia.
  rewrite Zminus_mod. rewrite <- (Z.mod_add _ 1) by lia. rewrite Z.mul_1_l. apply Z.mod_small.
  pose proof (slot_range (c - a)). pose proof (slot_range (c - b)). lia.
Qed.

Lemma probe_present t m pid v :
  table_ok t m -> m !! pid = Some v ->
  exists s, 0 <= s < N /\ tget t s = pack pid v /\ tget t s <> 0
    /\ entry_pid (tget t s) = pid
    /\ probe (Z.to_nat N) t (index_home pid) pid = Some s.
Proof.
  intros Hok Hm. destruct (ok_dom _ _ Hok _ _ Hm) as (Hp & Hp0 & Hv & s & Hs & Hts).
  destruct (pack_fields pid v) as (Hep & _); [done..|].
  assert (tget t s <> 0) as Hnz by (rewrite Hts; by apply pack_nonzero).
  rewrite <- Hts in Hep. exists s. split_and!; [done || lia..|].
  assert (entry_home t s = index_home pid) as Hh by (unfold entry_home; by rewrite Hep).
  replace s with ((index_home pid + (s - index_home pid) mod N) mod N) at 1
    by (by apply dist_slot).
  pose proof (slot_range (s - index_home pid)) as Hr.
  apply probe_spec; [auto|lia|right; by rewrite dist_slot|].
  intros k Hk. pose proof (ok_chain _ _ Hok s k Hs Hnz) as Hc. rewrite Hh in Hc.
  specialize (Hc Hk). split; [done|]. intros Hek.
  assert ((index_home pid + k) mod N = s) as E by (eapply ok_uniq; eauto; congruence).
  pose proof (slot_dist (index_home pid) k) as Hsd. rewrite E in Hsd. lia.
Qed.

Lemma probe_absent t m pid :
  table_ok t m -> m !! pid = None -> (size m < Z.to_nat N)%nat ->
  exists s, 0 <= s < N /\ tget t s = 0
    /\ probe (Z.to_nat N) t (index_home pid) pid = Some s
    /\ forall k, 0 <= k < (s - index_home pid) mod N -> tget t ((index_home pid + k) mod N) <> 0.
Proof.
  intros Hok Hm Hsz.
  destruct (occ_has_zero t) as (z & Hz & Htz); [apply Hok|by rewrite (ok_occ _ _ Hok)|].
  destruct (least_dist (fun k => tget t ((index_home pid + k) mod N) =? 0) (Z.to_nat N))
    as (d & Hd & Hd0 & Hl).
  { exists ((z - index_home pid) mod N). split; [pose proof (slot_range (z - index_home pid)); lia|].
    rewrite dist_slot by done. by apply Z.eqb_eq. }
  apply Z.eqb_eq in Hd0. exists ((index_home pid + d) mod N). split_and!; [apply slot_range..|done| |].
  - apply probe_spec; [auto|done|by left|]. intros k Hk. specialize (Hl k Hk).
    apply Z.eqb_neq in Hl. split; [done|]. intros He.
    destruct (ok_sound _ _ Hok _ (slot_range (index_home pid + k)) Hl) as (v & _ & Hmv).
    congruence.
  - rewrite slot_dist by lia. intros k Hk. by apply Z.eqb_neq, Hl.
Qed.

(** [index_lookup] answers what the map holds. *)
Lemma index_lookup_ok t m pid :
  table_ok t m -> (size m < Z.to_nat N)%nat -> index_lookup t pid = m !! pid.
Proof.
  intros Hok Hsz. unfold index_lookup. rewrite lookup_loop_probe.
  change PID_INDEX_SLOTS with N. destruct (m !! pid) as [v|] eqn:Hm.
  - destruct (probe_present t m pid v) as (s & Hs & Hts & Hnz & _ & ->); [done..|].
    apply Z.eqb_neq in Hnz. rewrite Hnz, Hts.
    destruct (ok_dom _ _ Hok _ _ Hm) as (Hp & _ & Hv & _).
    destruct (pack_fields pid v) as (_ & -> & _); done.
  - destruct (probe_absent t m pid) as (s & _ & Ht0 & -> & _); [done..|]. by rewrite Ht0.
Qed.

Lemma tset_table t m s pid v :
  table_ok t m -> 0 <= s < N -> is_u32 pid -> pid <> 0 -> is_u32 v ->
  (tget t s <> 0 /\ entry_pid (tget t s) = pid \/ tget t s = 0 /\ m !! pid = None) ->
  (forall k, 0 <= k < (s - index_home pid) mod N -> tget t ((index_home pid + k) mod N) <> 0) ->
  table_ok (tset t s (pack pid v)) (<[pid := v]> m).
Proof.
  intros Hok Hs Hp Hp0 Hv Hcase Hch.
  pose proof (ok_len _ _ Hok) as Hlen.
  destruct (pack_fields pid v) as (Hep & _); [done..|].
  pose proof (pack_nonzero pid v Hp Hv Hp0) as Hpk.
  assert (forall s', 0 <= s' < N -> s' <> s -> tget (tset t s (pack pid v)) s' = tget t s') as Hne.
  { intros. apply tget_tset_ne; lia. }
  pose proof (tget_tset_eq t s (pack pid v) Hlen Hs) as Heq.
  assert (forall s', 0 <= s' < N -> s' <> s -> tget t s' <> 0 -> entry_pid (tget t s') <> pid) as Hother.
  { intros s' Hs' Hns Hnz He. destruct Hcase as [[H1 H2]|[H1 H2]].
    - apply Hns. eapply ok_uniq; eauto. congruence.
    - destruct (ok_sound _ _ Hok s' Hs' Hnz) as (w & _ & Hw). congruence. }
  split.
  - unfold tset. by rewrite length_insert.
  - pose proof (occ_insert t (Z.to_nat s) (pack pid v)) as Ho. fold (tset t s (pack pid v)) in Ho.
    fold (tget t s) in Ho. replace (pack pid v =? 0) with false in Ho by (symmetry; by apply Z.eqb_neq).
    rewrite (ok_occ _ _ Hok) in Ho. destruct Hcase as [[H1 H2]|[H1 H2]].
    + destruct (ok_sound _ _ Hok s Hs H1) as (w & _ & Hw). rewrite H2 in Hw.
      rewrite map_size_insert_Some by (by exists w).
      replace (tget t s =? 0) with false in Ho by (symmetry; by apply Z.eqb_neq). lia.
    + rewrite map_size_insert_None by done. rewrite H1 in Ho. simpl in Ho. lia.
  - intros s' Hs' Hnz. destruct (Z.eq_dec s' s) as [->|Hns].
    + rewrite Heq, Hep. exists v. by rewrite lookup_insert_eq.
    + rewrite Hne in * by done. destruct (ok_sound _ _ Hok s' Hs' Hnz) as (w & H1 & H2).
      exists w. split; [done|]. rewrite lookup_insert_ne; [done|]. apply not_eq_sym. auto.
  - intros p w Hpw. destruct (decide (p = pid)) as [->|Hpn].
    + rewrite lookup_insert_eq in Hpw. injection Hpw as <-. split_and!; [done || lia..|]. eauto.
    + rewrite lookup_insert_ne in Hpw by done.
      destruct (ok_dom _ _ Hok _ _ Hpw) as (A & B & C & s' & Hs' & Hts').
      split_and!; [done || lia..|]. exists s'. split; [done|]. rewrite Hne; [done..|].
      intros ->. destruct (pack_fields p w) as (Hpe & _); [done..|].
      pose proof (pack_nonzero p w A C B). destruct Hcase as [[H1 H2]|[H1 H2]]; congruence.
  - intros s1 s2 H1 H2 Hz1 Hz2 He.
    destruct (Z.eq_dec s1 s) as [->|Hn1], (Z.eq_dec s2 s) as [->|Hn2]; [done| | |].
    + rewrite Heq, Hne in He by done. rewrite Hne in Hz2 by done. rewrite Hep in He.
      exfalso. by apply (Hother s2).
    + rewrite Heq, Hne in He by done. rewrite Hne in Hz1 by done. rewrite Hep in He.
      exfalso. by apply (Hother s1).
    + rewrite !Hne in * by done. eapply ok_uniq; eauto.
  - assert (forall x, 0 <= x < N -> tget t x <> 0 -> tget (tset t s (pack pid v)) x <> 0) as Hmono.
    { intros x Hx Hxz. destruct (Z.eq_dec x s) as [->|]; [by rewrite Heq|by rewrite Hne]. }
    intros s' k Hs' Hnz. unfold entry_home. destruct (Z.eq_dec s' s) as [->|Hns].
    + rewrite Heq, Hep. intros Hk. apply Hmono; auto.
    + rewrite Hne in * by done. intros Hk. apply Hmono; [auto|]. by apply (ok_chain _ _ Hok).
Qed.

(** [index_insert] stores the pair: the table has room because its entries are
    the live tasks, a quarter of its slots. *)
Lemma index_insert_ok t m pid v :
  table_ok t m -> is_u32 pid -> pid <> 0 -> is_u32 v -> (size m < Z.to_nat N)%nat ->
  table_ok (index_insert t pid v) (<[pid := v]> m).
Proof.
  intros Hok Hp Hp0 Hv Hsz. unfold index_insert. rewrite (proj2 (Z.eqb_neq _ _) Hp0).
  rewrite insert_loop_probe. change PID_INDEX_SLOTS with N.
  destruct (m !! pid) as [w|] eqn:Hm.
  - destruct (probe_present t m pid w) as (s & Hs & _ & Hnz & He & ->); [done..|].
    apply tset_table; auto. intros k Hk.
    pose proof (ok_chain _ _ Hok s k Hs Hnz) as Hc. unfold entry_home in Hc.
    rewrite He in Hc. auto.
  - destruct (probe_absent t m pid) as (s & Hs & Ht0 & -> & Hch); [done..|].
    apply tset_table; auto.
Qed.

(** ** Backward-shift deletion

    During the shift the slot [hole] still holds a stale word; every other slot
    is the table of the remaining entries. *)
Record holed (t : list Z) (hole : Z) (m : gmap Z Z) : Prop := {
  h_len : length t = Z.to_nat N;
  h_hole : 0 <= hole < N;
  h_stale : tget t hole <> 0;
  h_occ : occ t = S (size m);
  h_sound : forall s, 0 <= s < N -> s <> hole -> tget t s <> 0 ->
    exists v, tget t s = pack (entry_pid (tget t s)) v /\ m !! entry_pid (tget t s) = Some v;
  h_dom : forall p v, m !! p = Some v ->
    is_u32 p /\ p <> 0 /\ is_u32 v /\ exists s, 0 <= s < N /\ s <> hole /\ tget t s = pack p v;
  h_uniq : forall s1 s2, 0 <= s1 < N -> 0 <= s2 < N -> s1 <> hole -> s2 <> hole ->
    tget t s1 <> 0 -> tget t s2 <> 0 ->
    entry_pid (tget t s1) = entry_pid (tget t s2) -> s1 = s2;
  h_chain : forall s k, 0 <= s < N -> s <> hole -> tget t s <> 0 ->
    0 <= k < (s - entry_home t s) mod N -> tget t ((entry_home t s + k) mod N) <> 0;
}.

(** The chain of the entry in [q] does not run over the hole. *)
Definition clear_of (t : list Z) (hole q : Z) : Prop :=
  (q - entry_home t q) mod N <= (hole - entry_home t q) mod N.

Lemma table_holed t m pid v s :
  table_ok t m -> m !! pid = Some v -> 0 <= s < N -> tget t s <> 0 ->
  entry_pid (tget t s) = pid -> holed t s (delete pid m).
Proof.
  intros Hok Hm Hs Hnz He. split; try (by apply Hok || done).
  - rewrite (ok_occ _ _ Hok), map_size_delete_Some by (by exists v).
    assert (size m <> 0%nat); [|lia]. intros H0. apply map_size_empty_inv in H0. subst.
    by rewrite lookup_empty in Hm.
  - intros s' Hs' Hns Hz'. destruct (ok_sound _ _ Hok s' Hs' Hz') as (w & H1 & H2).
    exists w. split; [done|]. rewrite lookup_delete_ne; [done|].
    intros E. apply Hns. eapply ok_uniq; eauto. congruence.
  - intros p w Hpw. destruct (decide (p = pid)) as [->|Hpn]; [by rewrite lookup_delete_eq in Hpw|].
    rewrite lookup_delete_ne in Hpw by done.
    destruct (ok_dom _ _ Hok _ _ Hpw) as (A & B & C & s' & Hs' & Ht').
    split_and!; [done || lia..|]. exists s'. split_and!; [done || lia..| |done].
    intros ->. destruct (pack_fields p w) as (Hpe & _); [done..|]. congruence.
  - intros. by eapply ok_uniq.
  - intros. by apply (ok_chain _ _ Hok).
Qed.

(** Moving the entry in [j] into the hole makes [j] the hole. *)
Lemma holed_move t hole m j :
  holed t hole m -> 0 <= j < N -> j <> hole -> tget t j <> 0 ->
  (j - hole) mod N <= (j - entry_home t j) mod N ->
  holed (tset t hole (tget t j)) j m.
Proof.
  intros Hh Hj Hjh Hnz Hd.
  pose proof (h_hole _ _ _ Hh) as Hhr. pose proof (h_len _ _ _ Hh) as Hlen.
  set (t1 := tset t hole (tget t j)).
  pose proof (tget_tset_eq t hole (tget t j) Hlen Hhr) as Heq. fold t1 in Heq.
  assert (forall s, 0 <= s < N -> s <> hole -> tget t1 s = tget t s) as Hne.
  { intros. apply tget_tset_ne; lia. }
  assert (forall x, 0 <= x < N -> tget t x <> 0 -> tget t1 x <> 0) as Hmono.
  { intros x Hx Hxz. destruct (Z.eq_dec x hole) as [->|]; [by rewrite Heq|by rewrite Hne]. }
  split; [unfold t1, tset; by rewrite length_insert|done|by rewrite Hne| | | | |].
  - pose proof (occ_insert t (Z.to_nat hole) (tget t j)) as Ho. fold t1 in Ho.
    fold (tget t hole) in Ho. unfold t1, tset. rewrite <- (h_occ _ _ _ Hh).
    rewrite !(proj2 (Z.eqb_neq _ _)) in Ho by (done || apply (h_stale _ _ _ Hh)). lia.
  - intros s Hs Hsj. destruct (Z.eq_dec s hole) as [->|Hsh].
    + rewrite Heq. intros _. by apply (h_sound _ _ _ Hh).
    + rewrite Hne by done. by apply (h_sound _ _ _ Hh).
  - intros p v Hp. destruct (h_dom _ _ _ Hh _ _ Hp) as (A & B & C & s & Hs & Hsh & Hts).
    split_and!; [done || lia..|]. destruct (Z.eq_dec s j) as [->|Hsj].
    + exists hole. rewrite Heq. split_and!; [lia|lia|congruence|done].
    + exists s. rewrite Hne by done. done.
  - intros s1 s2 H1 H2 N1 N2.
    destruct (Z.eq_dec s1 hole) as [->|M1], (Z.eq_dec s2 hole) as [->|M2]; [done| | |].
    + rewrite Heq, Hne by done. intros Z1 Z2 E. exfalso. apply N2.
      symmetry. by eapply (h_uniq _ _ _ Hh).
    + rewrite Heq, Hne by done. intros Z1 Z2 E. exfalso. apply N1.
      by eapply (h_uniq _ _ _ Hh).
    + rewrite !Hne by done. by eapply (h_uniq _ _ _ Hh).
  - intros s k Hs Hsj. unfold entry_home. destruct (Z.eq_dec s hole) as [->|Hsh].
    + rewrite Heq. intros _ Hk. apply Hmono; [auto|]. apply (h_chain _ _ _ Hh); [done..|].
      unfold entry_home in *. set (h := index_home (entry_pid (tget t j))) in *.
      pose proof (slot_range (j - hole)). rewrite (dist_sub h hole j Hd) in Hk. lia.
    + rewrite Hne by done. intros Hz Hk. apply Hmono; [auto|]. by apply (h_chain _ _ _ Hh).
Qed.

(** Zeroing a hole no chain runs over gives back a well-formed table. *)
Lemma holed_close t hole m :
  holed t hole m ->
  (forall q, 0 <= q < N -> q <> hole -> tget t q <> 0 -> clear_of t hole q) ->
  table_ok (tset t hole 0) m.
Proof.
  intros Hh Hcl.
  pose proof (h_hole _ _ _ Hh) as Hhr. pose proof (h_len _ _ _ Hh) as Hlen.
  set (t1 := tset t hole 0).
  pose proof (tget_tset_eq t hole 0 Hlen Hhr) as Heq. fold t1 in Heq.
  assert (forall s, 0 <= s < N -> s <> hole -> tget t1 s = tget t s) as Hne.
  { intros. apply tget_tset_ne; lia. }
  assert (forall s, 0 <= s < N -> tget t1 s <> 0 -> s <> hole /\ tget t s <> 0) as Hinv.
  { intros s Hs Hz. assert (s <> hole) by (intros ->; by rewrite Heq in Hz).
    split; [done|]. by rewrite Hne in Hz. }
  split; [unfold t1, tset; by rewrite length_insert| | | | |].
  - pose proof (occ_insert t (Z.to_nat hole) 0) as Ho. fold (tset t hole 0) t1 in Ho.
    fold (tget t hole) in Ho. rewrite (proj2 (Z.eqb_neq _ _) (h_stale _ _ _ Hh)) in Ho.
    rewrite (h_occ _ _ _ Hh) in Ho. simpl in Ho. lia.
  - intros s Hs Hz. destruct (Hinv s Hs Hz) as [H1 H2]. rewrite Hne by done.
    by apply (h_sound _ _ _ Hh).
  - intros p v Hp. destruct (h_dom _ _ _ Hh _ _ Hp) as (A & B & C & s & Hs & Hsh & Hts).
    split_and!; [done || lia..|]. exists s. by rewrite Hne.
  - intros s1 s2 H1 H2 Z1 Z2. destruct (Hinv s1 H1 Z1), (Hinv s2 H2 Z2).
    rewrite !Hne by done. by eapply (h_uniq _ _ _ Hh).
  - intros s k Hs Hz. destruct (Hinv s Hs Hz) as [Hsh Hz'].
    unfold entry_home. rewrite (Hne s) by done. fold (entry_home t s). intros Hk.
    pose proof (h_chain _ _ _ Hh s k Hs Hsh Hz' Hk).
    rewrite Hne; [done|auto|]. intros E. pose proof (Hcl s Hs Hsh Hz') as Hq.
    unfold clear_of in Hq. pose proof (slot_range (s - entry_home t s)).
    rewrite <- E, slot_dist in Hq by lia. lia.
Qed.

(** The shift loop ends with a hole no chain runs over.  [d] slots after the
    hole have been scanned; [z] is an empty slot, which bounds the loop. *)
Lemma index_shift_loop_spec fuel t hole m z d :
  holed t hole m -> 0 <= z < N -> tget t z = 0 ->
  0 <= d < (z - hole) mod N -> (z - hole) mod N - d <= Z.of_nat fuel ->
  (forall k, 1 <= k <= d ->
     tget t ((hole + k) mod N) <> 0 /\ clear_of t hole ((hole + k) mod N)) ->
  let '(t', hole') := index_shift_loop fuel t hole ((hole + d) mod N) in
  table_ok (tset t' hole' 0) m.
Proof.
  revert t hole d. induction fuel as [|f IH]; intros t hole d Hh Hz Htz Hd Hf Hscan; [lia|].
  cbn [index_shift_loop]. pose proof (slot_range (z - hole)) as Hzr.
  pose proof (h_hole _ _ _ Hh) as Hhr. rewrite land_mask, Zplus_mod_idemp_l.
  replace (hole + d + 1) with (hole + (d + 1)) by lia.
  set (j := (hole + (d + 1)) mod N).
  assert ((j - hole) mod N = d + 1) as Hjd by (apply slot_dist; lia).
  assert (0 <= j < N) as Hj by apply slot_range.
  assert (j <> hole) as Hjh.
  { intros E. rewrite E, Z.sub_diag, Z.mod_0_l in Hjd by lia. lia. }
  destruct (Z.eqb_spec (tget t j) 0) as [Hj0|Hjnz].
  { apply holed_close; [done|]. intros q Hq Hqh Hqz.
    destruct (Z.le_gt_cases ((q - hole) mod N) d) as [Hle|Hgt].
    - rewrite <- (dist_slot hole q Hq). apply Hscan. split; [|done].
      pose proof (slot_range (q - hole)).
      destruct (Z.eq_dec ((q - hole) mod N) 0) as [E|]; [|lia].
      exfalso. apply Hqh. pose proof (dist_slot hole q Hq) as Hds.
      rewrite E, Z.add_0_r, Z.mod_small in Hds by done. done.
    - unfold clear_of. destruct (Z.le_gt_cases ((q - entry_home t q) mod N) ((hole - entry_home t q) mod N))
        as [|Hlt]; [done|]. exfalso.
      set (h := entry_home t q) in *.
      assert ((q - hole) mod N = (q - h) mod N - (hole - h) mod N) as Hqd.
      { replace (q - hole) with ((q - h) - (hole - h)) by lia. rewrite Zminus_mod.
        apply Z.mod_small. pose proof (slot_range (q - h)). pose proof (slot_range (hole - h)). lia. }
      assert ((q - hole) mod N <> d + 1) as Hneq.
      { intros E. apply Hqz. rewrite <- (dist_slot hole q Hq), E. done. }
      apply (h_chain _ _ _ Hh q ((hole - h) mod N + (d + 1)) Hq Hqh Hqz).
      + fold h. pose proof (slot_range (hole - h)). lia.
      + fold h. rewrite Z.add_assoc, <- Zplus_mod_idemp_l, (dist_slot h hole) by done. done. }
  rewrite !land_mask_wrap, Hjd. fold (entry_home t j).
  assert ((z - j) mod N = (z - hole) mod N - (d + 1)) as Hzj.
  { replace (z - j) with ((z - hole) - (j - hole)) by lia.
    rewrite Zminus_mod, Hjd. apply Z.mod_small. lia. }
  assert (d + 1 < (z - hole) mod N) as Hd1.
  { destruct (Z.eq_dec (d + 1) ((z - hole) mod N)) as [E|]; [|lia].
    exfalso. apply Hjnz. unfold j. rewrite E, dist_slot by done. done. }
  destruct (Z.leb_spec (d + 1) ((j - entry_home t j) mod N)) as [Hmv|Hst].
  - assert (hole <> z) as Hhz by (intros ->; by apply (h_stale _ _ _ Hh)).
    specialize (IH (tset t hole (tget t j)) j 0). rewrite Z.add_0_r, (Z.mod_small j) in IH by done.
    apply IH; [|done| |lia|lia|lia].
    + apply holed_move; [done..|]. by rewrite Hjd.
    + rewrite tget_tset_ne by lia. done.
  - apply (IH t hole (d + 1)); [done..|lia|lia|]. intros k Hk.
    destruct (Z.eq_dec k (d + 1)) as [->|]; [|apply Hscan; lia].
    fold j. split; [done|]. unfold clear_of.
    rewrite (dist_sub_round (entry_home t j) hole j) by lia. lia.
Qed.

(** [index_remove] deletes the pid and leaves no tombstone. *)
Lemma index_remove_ok t m pid :
  table_ok t m -> (size m < Z.to_nat N)%nat -> pid <> 0 ->
  table_ok (index_remove t pid) (delete pid m).
Proof.
  intros Hok Hsz Hp0. unfold index_remove. rewrite (proj2 (Z.eqb_neq _ _) Hp0), find_loop_probe.
  change PID_INDEX_SLOTS with N. destruct (m !! pid) as [v|] eqn:Hm.
  - destruct (probe_present t m pid v) as (s & Hs & _ & Hnz & He & ->); [done..|].
    rewrite (proj2 (Z.eqb_neq _ _) Hnz).
    destruct (occ_has_zero t) as (z & Hz & Htz); [apply Hok|by rewrite (ok_occ _ _ Hok)|].
    pose proof (index_shift_loop_spec (Z.to_nat N) t s (delete pid m) z 0) as H.
    rewrite Z.add_0_r, (Z.mod_small s) in H by done.
    pose proof (slot_range (z - s)) as Hr.
    destruct (index_shift_loop _ t s s) as [t' hole']. apply H; [|done|done| |lia|lia].
    + by eapply table_holed.
    + split; [lia|]. destruct (Z.eq_dec ((z - s) mod N) 0) as [E|]; [|lia].
      pose proof (dist_slot s z Hz) as Hds. rewrite E, Z.add_0_r, Z.mod_small in Hds by done.
      congruence.
  - destruct (probe_absent t m pid) as (s & _ & Ht0 & -> & _); [done..|].
    rewrite Ht0. simpl. by rewrite delete_id.
Qed.

Lemma occ_replicate_0 n : occ (replicate n 0) = 0%nat.
Proof. unfold occ. induction n as [|n IH]; [done|]. simpl. done. Qed.

(** The empty table. *)
Lemma empty_table_ok : table_ok (replicate (Z.to_nat PID_INDEX_SLOTS) 0) ∅.
Proof.
  assert (forall s, tget (replicate (Z.to_nat PID_INDEX_SLOTS) 0) s = 0) as H0.
  { intros s. unfold tget, word_at.
    destruct (replicate (Z.to_nat PID_INDEX_SLOTS) 0 !! Z.to_nat s) eqn:E; [|done].
    apply lookup_replicate in E as [-> _]. done. }
  split.
  - by rewrite length_replicate.
  - by rewrite occ_replicate_0.
  - intros s _ Hnz. by rewrite H0 in Hnz.
  - intros p v Hp. by rewrite lookup_empty in Hp.
  - intros s1 s2 _ _ Hnz. by rewrite H0 in Hnz.
  - intros s k _ Hnz. by rewrite H0 in Hnz.
Qed.

(** ** The side table is the same machine *)
Lemma pid_tgid_insert_loop_eq fuel t start i pid want :
  pid_tgid_insert_loop fuel t start i pid want
  = index_insert_loop fuel t ((start + i) mod N) pid want.
Proof.
  revert i. induction fuel as [|f IH]; intros i; [done|].
  cbn [pid_tgid_insert_loop index_insert_loop]. fold PID_INDEX_MASK. rewrite !land_mask, IH.
  rewrite Zplus_mod_idemp_l. by rewrite Z.add_assoc.
Qed.

Lemma pid_tgid_find_loop_eq fuel t start i pid :
  pid_tgid_find_loop fuel t start i pid = index_find_loop fuel t ((start + i) mod N) pid.
Proof.
  revert i. induction fuel as [|f IH]; intros i; [done|].
  cbn [pid_tgid_find_loop index_find_loop]. fold PID_INDEX_MASK. rewrite !land_mask, IH.
  rewrite Zplus_mod_idemp_l. by rewrite Z.add_assoc.
Qed.

Lemma pid_tgid_insert_eq t pid tgid : pid_tgid_insert t pid tgid = index_insert t pid tgid.
Proof.
  unfold pid_tgid_insert, index_insert. destruct (pid =? 0); [done|].
  rewrite pid_tgid_insert_loop_eq, Z.add_0_r. change (pid_tgid_slot pid) with (index_home pid).
  by rewrite Z.mod_small by apply home_range.
Qed.

Lemma pid_tgid_remove_eq t pid : pid_tgid_remove t pid = index_remove t pid.
Proof.
  unfold pid_tgid_remove, index_remove. destruct (pid =? 0); [done|].
  rewrite pid_tgid_find_loop_eq, Z.add_0_r. change (pid_tgid_slot pid) with (index_home pid).
  by rewrite Z.mod_small by apply home_range.
Qed.

Lemma pid_tgid_get_loop_eq fuel t start i pid :
  pid_tgid_get_loop fuel t start i pid
  = match probe fuel t ((start + i) mod N) pid with
    | Some r => if tget t r =? 0 then None else Some (wrap32 (tget t r))
    | None => None
    end.
Proof.
  revert i. induction fuel as [|f IH]; intros i; [done|].
  cbn [pid_tgid_get_loop probe]. fold PID_INDEX_MASK. rewrite !land_mask.
  destruct (tget t _ =? 0) eqn:E; cbn [orb]; [by rewrite E|].
  destruct (entry_pid _ =? pid); [by rewrite E|].
  rewrite IH, Zplus_mod_idemp_l. by rewrite Z.add_assoc.
Qed.

Lemma pid_tgid_get_ok t m pid :
  table_ok t m -> (size m < Z.to_nat N)%nat -> pid_tgid_get t pid = m !! pid.
Proof.
  intros Hok Hsz. unfold pid_tgid_get. rewrite pid_tgid_get_loop_eq, Z.add_0_r.
  change (pid_tgid_slot pid) with (index_home pid).
  rewrite Z.mod_small by apply home_range. change PID_INDEX_SLOTS with N. destruct (m !! pid) as [v|] eqn:Hm.
  - destruct (probe_present t m pid v) as (s & Hs & Hts & Hnz & _ & ->); [done..|].
    rewrite (proj2 (Z.eqb_neq _ _) Hnz), Hts.
    destruct (ok_dom _ _ Hok _ _ Hm) as (Hp & _ & Hv & _).
    destruct (pack_fields pid v) as (_ & _ & ->); done.
  - destruct (probe_absent t m pid) as (s & _ & Ht0 & -> & _); [done..|]. by rewrite Ht0.
Qed.

(** ** The interface the scheduler relies on

    A pid table behaves as a finite map as long as it has a free slot. *)
Record pid_table_ops : Type := {
  op_insert : list Z -> Z -> Z -> list Z;
  op_remove : list Z -> Z -> list Z;
  op_lookup : list Z -> Z -> option Z;
}.

Class PidTable (o : pid_table_ops) : Prop := {
  pt_insert t m pid v :
    table_ok t m -> is_u32 pid -> pid <> 0 -> is_u32 v -> (size m < Z.to_nat PID_INDEX_SLOTS)%nat ->
    table_ok (op_insert o t pid v) (<[pid := v]> m);
  pt_remove t m pid :
    table_ok t m -> (size m < Z.to_nat PID_INDEX_SLOTS)%nat -> pid <> 0 ->
    table_ok (op_remove o t pid) (delete pid m);
  pt_lookup t m pid :
    table_ok t m -> (size m < Z.to_nat PID_INDEX_SLOTS)%nat -> op_lookup o t pid = m !! pid;
}.

Definition index_ops : pid_table_ops := {|
  op_insert := index_insert; op_remove := index_remove; op_lookup := index_lookup |}.
Definition pid_tgid_ops : pid_table_ops := {|
  op_insert := pid_tgid_insert; op_remove := pid_tgid_remove; op_lookup := pid_tgid_get |}.

(** Conversion must not run the probing loops: their fuel is the table size. *)
#[global] Strategy 1000 [index_insert index_remove index_lookup
  pid_tgid_insert pid_tgid_remove pid_tgid_get].
#[global] Typeclasses Opaque index_ops pid_tgid_ops.

#[export] Instance index_table : PidTable index_ops.
Proof.
  split; simpl; intros; [by apply index_insert_ok|by apply index_remove_ok|by apply index_lookup_ok].
Qed.

#[export] Instance pid_tgid_table : PidTable pid_tgid_ops.
Proof.
  split; simpl; intros.
  - rewrite pid_tgid_insert_eq. by apply index_insert_ok.
  - rewrite pid_tgid_remove_eq. by apply index_remove_ok.
  - by apply pid_tgid_get_ok.
Qed.
