(* ===== verification/Task.v ===== *)
(** * Task descriptors and EEVDF parameters

    Models [src/sched/src/task.rs]: the task states, the fields of [Task] that
    the modelled code reads or writes, the nice-to-weight table and the virtual
    time arithmetic ([slice_vt], [charge_vruntime], [place]); and
    [ExitStatus] of [src/sched/src/lib.rs]. *)
From S2P Require Import Prelude.

Inductive TaskState : Set := Ready | Running | Blocked | Stopped | Zombie.

#[global] Instance TaskState_eq_dec : EqDecision TaskState.
Proof. solve_decision. Defined.

Definition state_eqb (a b : TaskState) : bool := bool_decide (a = b).

(** ** EEVDF constants *)
Definition NICE0_WEIGHT : Z := 1024.
Definition BASE_SLICE_TICKS : Z := 4.
Definition VT_PER_TICK : Z := 1024.

Definition NICE_TO_WEIGHT : list Z :=
  [ 88761; 71755; 56483; 46273; 36291;
    29154; 23254; 18705; 14949; 11916;
     9548;  7620;  6100;  4904;  3906;
     3121;  2501;  1991;  1586;  1277;
     1024;   820;   655;   526;   423;
      335;   272;   215;   172;   137;
      110;    87;    70;    56;    45;
       36;    29;    23;    18;    15 ].

(** [nice.clamp(-20, 19)] *)
Definition clamp_nice (nice : Z) : Z := Z.max (-20) (Z.min nice 19).

Definition nice_to_weight (nice : Z) : Z :=
  word_at NICE_TO_WEIGHT (Z.to_nat (clamp_nice nice + 20)).

(** ** Signals: dispositions and payloads *)
Record SigAction := mkSigAction {
  handler : Z; flags : Z; restorer : Z; mask : Z }.
Definition DEFAULT_SIGACTION : SigAction := mkSigAction 0 0 0 0.

Record SigInfo := mkSigInfo {
  si_code : Z; si_pid : Z; si_uid : Z; si_status : Z; si_addr : Z; si_value : Z }.

Definition SI_USER : Z := 0.
Definition SI_KERNEL : Z := 0x80.
Definition SI_TIMER : Z := -2.
Definition SI_TKILL : Z := -6.
Definition CLD_EXITED : Z := 1.
Definition CLD_KILLED : Z := 2.
Definition CLD_STOPPED : Z := 5.
Definition CLD_CONTINUED : Z := 6.

(** [pid as i32] *)
Definition as_i32 (x : Z) : Z := let y := wrap32 x in if y <? 2 ^ 31 then y else y - 2 ^ 32.

Definition SigInfo_NONE : SigInfo := mkSigInfo SI_USER 0 0 0 0 0.
Definition SigInfo_user (pid uid : Z) : SigInfo := mkSigInfo SI_USER (as_i32 pid) uid 0 0 0.
Definition SigInfo_tkill (pid uid : Z) : SigInfo := mkSigInfo SI_TKILL (as_i32 pid) uid 0 0 0.
Definition SigInfo_fault (code addr : Z) : SigInfo := mkSigInfo code 0 0 0 addr 0.
Definition SigInfo_child_state (code pid uid sig : Z) : SigInfo :=
  mkSigInfo code (as_i32 pid) uid (as_i32 sig) 0 0.

(** ** Resource limits *)
Definition RLIM_NLIMITS : nat := 16.
Definition RLIM_INFINITY : Z := U64_MAX.
Definition RLIMIT_NPROC : nat := 6.
Definition RLIMIT_NOFILE : nat := 7.
Definition RLIMIT_NICE : nat := 13.
Definition RLIMIT_RTPRIO : nat := 14.
Definition NR_OPEN : Z := Z.shiftl 1 20.
Definition NOFILE_DEFAULT_CUR : Z := 1024.
Definition NOFILE_DEFAULT_MAX : Z := 524288.

Definition MAX_TASKS : nat := 4096.
Definition MAX_PROCESSES : nat := 2048.

Definition RLIMIT_DEFAULTS : list (Z * Z) :=
  let l := replicate RLIM_NLIMITS (RLIM_INFINITY, RLIM_INFINITY) in
  let l := <[RLIMIT_NPROC := (Z.of_nat MAX_PROCESSES, Z.of_nat MAX_PROCESSES)]> l in
  let l := <[RLIMIT_NICE := (0, 0)]> l in
  let l := <[RLIMIT_RTPRIO := (0, 0)]> l in
  <[RLIMIT_NOFILE := (NOFILE_DEFAULT_CUR, NOFILE_DEFAULT_MAX)]> l.

(** Broadcast poll tag ([sched::POLL_TAG_ALL]). *)
Definition POLL_TAG_ALL : Z := U64_MAX.

(** ** The task descriptor

    The fields the scheduler, signal and credential code of this development
    uses; register context, address-space contents, filesystem and TLS fields
    of the source struct are left out ([has_as] is [address_space.is_some()]). *)
Record Task := mkTask {
  pid : Z; state : TaskState; priority : Z; on_cpu : option Z;
  weight : Z; vruntime : Z; vdeadline : Z;
  blocked_on : option Z; poll_deadline : Z; poll_mask : Z; blocked_futex : Z;
  has_as : bool;
  ppid : Z; tgid : Z; pgid : Z; sid : Z;
  uid : Z; gid : Z; euid : Z; egid : Z; suid : Z; sgid : Z;
  rlimits : list (Z * Z);
  signal_pending : Z; signal_mask : Z; shared_signal_pending : Z;
  signal_actions : list SigAction; signal_info : list SigInfo;
  wait_reported : bool; stop_pending : bool; stop_signal : Z;
  stop_reported : bool; cont_pending : bool; group_exit_owner : Z }.

Definition Task_eta (t : Task) : Task :=
  mkTask (pid t) (state t) (priority t) (on_cpu t) (weight t) (vruntime t) (vdeadline t)
    (blocked_on t) (poll_deadline t) (poll_mask t) (blocked_futex t) (has_as t)
    (ppid t) (tgid t) (pgid t) (sid t) (uid t) (gid t) (euid t) (egid t) (suid t) (sgid t)
    (rlimits t) (signal_pending t) (signal_mask t) (shared_signal_pending t)
    (signal_actions t) (signal_info t) (wait_reported t) (stop_pending t) (stop_signal t)
    (stop_reported t) (cont_pending t) (group_exit_owner t).

Definition set_state : TaskState -> Task -> Task := ltac:(setter Task_eta state).
Definition set_priority : Z -> Task -> Task := ltac:(setter Task_eta priority).
Definition set_on_cpu : option Z -> Task -> Task := ltac:(setter Task_eta on_cpu).
Definition set_weight : Z -> Task -> Task := ltac:(setter Task_eta weight).
Definition set_vruntime : Z -> Task -> Task := ltac:(setter Task_eta vruntime).
Definition set_vdeadline : Z -> Task -> Task := ltac:(setter Task_eta vdeadline).
Definition set_blocked_on : option Z -> Task -> Task := ltac:(setter Task_eta blocked_on).
Definition set_poll_deadline : Z -> Task -> Task := ltac:(setter Task_eta poll_deadline).
Definition set_poll_mask : Z -> Task -> Task := ltac:(setter Task_eta poll_mask).
Definition set_blocked_futex : Z -> Task -> Task := ltac:(setter Task_eta blocked_futex).
Definition set_pgid : Z -> Task -> Task := ltac:(setter Task_eta pgid).
Definition set_uid : Z -> Task -> Task := ltac:(setter Task_eta uid).
Definition set_gid : Z -> Task -> Task := ltac:(setter Task_eta gid).
Definition set_euid : Z -> Task -> Task := ltac:(setter Task_eta euid).
Definition set_egid : Z -> Task -> Task := ltac:(setter Task_eta egid).
Definition set_suid : Z -> Task -> Task := ltac:(setter Task_eta suid).
Definition set_sgid : Z -> Task -> Task := ltac:(setter Task_eta sgid).
Definition set_rlimits : list (Z * Z) -> Task -> Task := ltac:(setter Task_eta rlimits).
Definition set_signal_pending : Z -> Task -> Task := ltac:(setter Task_eta signal_pending).
Definition set_signal_mask : Z -> Task -> Task := ltac:(setter Task_eta signal_mask).
Definition set_shared_signal_pending : Z -> Task -> Task := ltac:(setter Task_eta shared_signal_pending).
Definition set_signal_info : list SigInfo -> Task -> Task := ltac:(setter Task_eta signal_info).
Definition set_stop_pending : bool -> Task -> Task := ltac:(setter Task_eta stop_pending).
Definition set_stop_signal : Z -> Task -> Task := ltac:(setter Task_eta stop_signal).
Definition set_stop_reported : bool -> Task -> Task := ltac:(setter Task_eta stop_reported).
Definition set_cont_pending : bool -> Task -> Task := ltac:(setter Task_eta cont_pending).

(** [Task::new_kernel], on the modelled fields. *)
Definition new_kernel (p : Z) : Task :=
  mkTask p Ready 0 None (nice_to_weight 0) 0 0
    None U64_MAX POLL_TAG_ALL 0 false
    0 p p p 0 0 0 0 0 0 RLIMIT_DEFAULTS 0 0 0
    (replicate 64 DEFAULT_SIGACTION) (replicate 64 SigInfo_NONE)
    false false 0 false false 0.

(** ** Virtual time *)
Definition slice_vt (w : Z) : Z :=
  Z.max (BASE_SLICE_TICKS * VT_PER_TICK * NICE0_WEIGHT / w) 1.

Definition charge_vruntime (delta_ticks : Z) (t : Task) : Task :=
  let charged :=
    Z.max (wrap64 (wrap64 (delta_ticks * VT_PER_TICK) * NICE0_WEIGHT) / weight t) 1 in
  let t := set_vruntime (wrap64 (vruntime t + charged)) t in
  if vdeadline t <=? vruntime t
  then set_vdeadline (wrap64 (vruntime t + slice_vt (weight t))) t
  else t.

Definition place (min_vruntime : Z) (t : Task) : Task :=
  let t := if vruntime t <? min_vruntime then set_vruntime min_vruntime t else t in
  set_vdeadline (wrap64 (vruntime t + slice_vt (weight t))) t.

(** ** Exit statuses ([src/sched/src/lib.rs]) *)
Record ExitStatus := mkExitStatus { code : Z; term_signal : Z }.

(** [self.code & 0xff] on an [i32] keeps the low byte of the two's complement. *)
Definition wait_status (s : ExitStatus) : Z :=
  if negb (term_signal s =? 0) then Z.land (term_signal s) 0x7f
  else Z.shiftl (Z.land (code s) 0xff) 8.
Definition exit_si_code (s : ExitStatus) : Z := if negb (term_signal s =? 0) then 2 else 1.
Definition exit_si_status (s : ExitStatus) : Z :=
  if negb (term_signal s =? 0) then term_signal s else Z.land (code s) 0xff.
Definition SigInfo_child (pid uid : Z) (s : ExitStatus) : SigInfo :=
  mkSigInfo (exit_si_code s) (as_i32 pid) uid (exit_si_status s) 0 0.

(** ** Properties *)
Lemma word_at_in ws i : (i < length ws)%nat -> word_at ws i ∈ ws.
Proof.
  intros Hi. destruct (lookup_lt_is_Some_2 ws i Hi) as [x Hx]. unfold word_at. rewrite Hx.
  by eapply list_elem_of_lookup_2.
Qed.

Lemma clamp_range n : (Z.to_nat (clamp_nice n + 20) < 40)%nat.
Proof. unfold clamp_nice. lia. Qed.

Lemma sorted_pairs (l : list Z) i j :
  forallb (fun k => word_at l (S k) <=? word_at l k) (seq 0 (length l)) = true ->
  (i <= j < length l)%nat -> word_at l j <= word_at l i.
Proof.
  intros H [Hij Hj]. rewrite forallb_forall in H. induction Hij as [|j Hij IH]; [lia|].
  etrans; [|apply IH; lia]. apply Z.leb_le, H, in_seq. lia.
Qed.

(** [nice_to_weight] is defined for every nice value (out-of-range values
    are clamped), its weights stay within [15, 88761] so the scheduler never
    divides by zero, nice 0 has the reference weight, and a higher nice value
    never gets more weight. *)
Theorem nice_to_weight_spec n :
  15 <= nice_to_weight n <= 88761
  /\ nice_to_weight 0 = NICE0_WEIGHT
  /\ (forall m, n <= m -> nice_to_weight m <= nice_to_weight n).
Proof.
  split; [|split; [done|]].
  - assert (nice_to_weight n ∈ NICE_TO_WEIGHT) as H by apply word_at_in, clamp_range.
    assert (Forall (fun w => 15 <= w <= 88761) NICE_TO_WEIGHT) as HF
      by (apply (bool_decide_unpack _); vm_compute; exact I).
    rewrite Forall_forall in HF. by apply HF.
  - intros m Hm. apply sorted_pairs; [reflexivity|]. split; [unfold clamp_nice; lia|apply clamp_range].
Qed.

(** Charging [delta] ticks advances the virtual runtime by
    [max(1, delta * 2^20 / weight)], always at least one unit and less for a
    heavier task, and leaves the deadline strictly after the virtual runtime,
    renewed by a full slice when it had been reached; without wrap-around as
    long as the clock stays below [2^63]. *)
Theorem charge_vruntime_spec delta t :
  0 <= delta < 2 ^ 40 -> 0 < weight t -> 0 <= vruntime t < 2 ^ 63 -> 0 <= vdeadline t < 2 ^ 64 ->
  let t' := charge_vruntime delta t in
  vruntime t' = vruntime t + Z.max 1 (delta * 2 ^ 20 / weight t)
  /\ vruntime t' < vdeadline t'
  /\ (vruntime t' < vdeadline t -> vdeadline t' = vdeadline t)
  /\ (vdeadline t <= vruntime t' -> vdeadline t' = vruntime t' + slice_vt (weight t))
  /\ (forall w, weight t <= w -> delta * 2 ^ 20 / w <= delta * 2 ^ 20 / weight t).
Proof.
  intros Hd Hw Hv Hdl. cbv zeta. unfold charge_vruntime.
  set (c := Z.max _ 1). assert (c = Z.max 1 (delta * 2 ^ 20 / weight t)) as Hc.
  { unfold c, wrap64, VT_PER_TICK, NICE0_WEIGHT. rewrite Z.max_comm.
    rewrite (Z.mod_small (delta * 1024)) by lia. rewrite (Z.mod_small (delta * 1024 * 1024)) by lia.
    by replace (delta * 1024 * 1024) with (delta * 2 ^ 20) by lia. }
  assert (1 <= c < 2 ^ 61) as Hcb.
  { rewrite Hc. pose proof (Z.div_le_upper_bound (delta * 2 ^ 20) (weight t) (delta * 2 ^ 20)). nia. }
  assert (1 <= slice_vt (weight t) <= 2 ^ 22) as Hs.
  { unfold slice_vt, BASE_SLICE_TICKS, VT_PER_TICK, NICE0_WEIGHT.
    pose proof (Z.div_le_upper_bound (4 * 1024 * 1024) (weight t) (2 ^ 22)). nia. }
  clearbody c. subst c. set (c := Z.max 1 _) in *.
  set (t1 := set_vruntime _ t). assert (vruntime t1 = vruntime t + c) as E1.
  { cbn. unfold wrap64. apply Z.mod_small. lia. }
  assert (forall w, weight t <= w -> delta * 2 ^ 20 / w <= delta * 2 ^ 20 / weight t) as Hmono.
  { intros w Hle. apply Z.div_le_compat_l; lia. }
  change (vdeadline t1) with (vdeadline t). change (weight t1) with (weight t).
  rewrite E1. destruct (Z.leb_spec (vdeadline t) (vruntime t + c)); cbn [vruntime vdeadline set_vdeadline].
  - rewrite E1. unfold wrap64. rewrite (Z.mod_small (_ + slice_vt _)) by lia.
    split; [done|]. split; [lia|]. split; [lia|]. split; [done|exact Hmono].
  - rewrite E1. change (vdeadline t1) with (vdeadline t).
    split; [done|]. split; [lia|]. split; [done|]. split; [lia|exact Hmono].
Qed.

Lemma charge_vruntime_spec_witness :
  vruntime (charge_vruntime 3 (new_kernel 5)) = 0 + Z.max 1 (3 * 2 ^ 20 / 1024).
Proof.
  apply (charge_vruntime_spec 3 (new_kernel 5)); vm_compute; split || idtac; congruence.
Defined.

(** The three encodings of an exit agree: a signal death [1..64] gives a
    wait status with the signal in the low seven bits (WIFSIGNALED), si_code
    CLD_KILLED and the signal as si_status; a normal exit gives low byte zero
    (WIFEXITED), CLD_EXITED, and the same exit byte in both the wait status and
    si_status. *)
Theorem exit_status_encodings s :
  0 <= term_signal s <= 64 ->
  (term_signal s <> 0 ->
     Z.land (wait_status s) 0x7f = exit_si_status s /\ exit_si_status s = term_signal s
     /\ exit_si_code s = CLD_KILLED)
  /\ (term_signal s = 0 ->
     Z.land (wait_status s) 0x7f = 0 /\ Z.land (Z.shiftr (wait_status s) 8) 0xff = exit_si_status s
     /\ exit_si_status s = code s mod 256 /\ exit_si_code s = CLD_EXITED).
Proof.
  intros Hs. unfold wait_status, exit_si_status, exit_si_code.
  split; intros H; rewrite ?(proj2 (Z.eqb_neq _ _) H), ?(proj2 (Z.eqb_eq _ _) H); cbn [negb].
  - change 0x7f with (Z.ones 7). rewrite !Z.land_ones, Z.mod_mod, Z.mod_small by lia. done.
  - change 0x7f with (Z.ones 7). change 0xff with (Z.ones 8).
    rewrite Z.shiftr_shiftl_l, Z.shiftl_0_r by lia. rewrite !Z.land_ones, Z.mod_mod, Z.shiftl_mul_pow2 by lia.
    split; [|done]. change (2 ^ 8) with (2 * 2 ^ 7). rewrite Z.mul_assoc. apply Z.mod_mul. lia.
Qed.

Lemma exit_status_encodings_witness :
  Z.land (wait_status (mkExitStatus 0 9)) 0x7f = exit_si_status (mkExitStatus 0 9).
Proof.
  apply (exit_status_encodings (mkExitStatus 0 9)); vm_compute; split || idtac; congruence.
Defined.
