(* ===== verification/RunQueue.v ===== *)
(** * The run queue: slots, hint bitmaps, EEVDF selection, blocking and waking

    Models [src/sched/src/runqueue.rs].  The queue is one record; the static
    pid-to-tgid side table that [enqueue] and [remove] maintain
    ([PID_TGID] of [src/sched/src/lib.rs]) is its last field.  The candidate
    buffer [cand] of [pick_next] is scratch space and is the accumulator of the
    first pass.  Counters and tracing ([lockwatch], [gdwake], [idlestat]) do not
    influence the queue and are left out.  [ticks()] and the quiesce statics
    are arguments. *)
From S2P Require Import Prelude KLib PidMap Task.

Definition OCC_WORDS : nat := 64.
Definition POLL_WAIT_CHANNEL : Z := 0xFFFFFF01.
Definition VFORK_WAIT_CHANNEL : Z := 0xFFFFFF02.
Definition KWAIT_CHANNEL : Z := 0xFFFFFF03.

(** ** State *)
Record RunQueue := mkRunQueue {
  tasks : list (option Task);
  len : nat;
  nproc : nat;
  occupied : list Z;
  maybe_ready : list Z;
  parked : list Z;
  last_full_scan : Z;
  pid_index : list Z;
  pid_tgid : list Z }.

Definition RunQueue_eta (q : RunQueue) : RunQueue :=
  mkRunQueue (tasks q) (len q) (nproc q) (occupied q) (maybe_ready q) (parked q)
    (last_full_scan q) (pid_index q) (pid_tgid q).

Definition set_tasks : list (option Task) -> RunQueue -> RunQueue := ltac:(setter RunQueue_eta tasks).
Definition set_len : nat -> RunQueue -> RunQueue := ltac:(setter RunQueue_eta len).
Definition set_nproc : nat -> RunQueue -> RunQueue := ltac:(setter RunQueue_eta nproc).
Definition set_occupied : list Z -> RunQueue -> RunQueue := ltac:(setter RunQueue_eta occupied).
Definition set_maybe_ready : list Z -> RunQueue -> RunQueue := ltac:(setter RunQueue_eta maybe_ready).
Definition set_parked : list Z -> RunQueue -> RunQueue := ltac:(setter RunQueue_eta parked).
Definition set_last_full_scan : Z -> RunQueue -> RunQueue := ltac:(setter RunQueue_eta last_full_scan).
Definition set_pid_index : list Z -> RunQueue -> RunQueue := ltac:(setter RunQueue_eta pid_index).
Definition set_pid_tgid : list Z -> RunQueue -> RunQueue := ltac:(setter RunQueue_eta pid_tgid).

Definition new : RunQueue :=
  mkRunQueue (replicate MAX_TASKS None) 0 0 (replicate OCC_WORDS 0) (replicate OCC_WORDS 0)
    (replicate OCC_WORDS 0) 0 (replicate (Z.to_nat PID_INDEX_SLOTS) 0)
    (replicate (Z.to_nat PID_INDEX_SLOTS) 0).

(** [self.tasks[i]]: [None] for an empty slot (and out of range, where the
    source panics). *)
Definition slot (q : RunQueue) (i : nat) : option Task := mjoin (tasks q !! i).

(** [self.<bitmap>[i / 64] |= 1u64 << (i % 64)], [&= !(..)]. *)
Definition touch (i : nat) (q : RunQueue) : RunQueue :=
  set_maybe_ready (Bitmap.set (maybe_ready q) i) q.
Definition untouch (i : nat) (q : RunQueue) : RunQueue :=
  set_maybe_ready (Bitmap.clear (maybe_ready q) i) q.
Definition park (i : nat) (q : RunQueue) : RunQueue :=
  set_parked (Bitmap.set (parked q) i) q.
Definition unpark (i : nat) (q : RunQueue) : RunQueue :=
  set_parked (Bitmap.clear (parked q) i) q.
Definition write_task (i : nat) (t : Task) (q : RunQueue) : RunQueue :=
  set_tasks (<[i := Some t]> (tasks q)) q.

(** ** Scans *)
Definition is_blocked_on (t : Task) (port : Z) : bool := bool_decide (blocked_on t = Some port).

Definition wake_scannable (t : Task) : bool :=
  state_eqb (state t) Blocked
  && (bool_decide (is_Some (blocked_on t))
      || (negb (blocked_futex t =? 0) && negb (poll_deadline t =? U64_MAX))).

Definition runnable (t : Task) : bool :=
  state_eqb (state t) Ready || state_eqb (state t) Running.

Definition live_slots (q : RunQueue) : list nat :=
  words_slots (word_at (occupied q)) OCC_WORDS.

Definition ready_bits (q : RunQueue) (w : nat) : Z :=
  Z.land (word_at (maybe_ready q) w) (word_at (occupied q) w).
Definition parked_bits (q : RunQueue) (w : nat) : Z :=
  Z.land (word_at (parked q) w) (word_at (occupied q) w).
Definition parked_slots (q : RunQueue) : list nat := words_slots (parked_bits q) OCC_WORDS.

(** ** Lookup *)
Definition slot_has_pid (q : RunQueue) (p : Z) (i : nat) : bool :=
  match slot q i with Some t => pid t =? p | None => false end.
Definition scan_pid (q : RunQueue) (p : Z) : option nat :=
  head (List.filter (slot_has_pid q p) (live_slots q)).
Definition find_pid_idx (q : RunQueue) (p : Z) : option nat :=
  if p =? 0 then scan_pid q p
  else match index_lookup (pid_index q) p with
       | Some i => if slot_has_pid q p (Z.to_nat i) then Some (Z.to_nat i) else scan_pid q p
       | None => None
       end.
Definition find_pid (q : RunQueue) (p : Z) : option Task := find_pid_idx q p ≫= slot q.

(** [get_mut(idx)] (or [find_pid_mut]) followed by the writes [f]. *)
Definition modify (idx : nat) (f : Task -> Task) (q : RunQueue) : RunQueue :=
  let q := touch idx q in
  match slot q idx with Some t => write_task idx (f t) q | None => q end.

Definition reindex (idx : nat) (q : RunQueue) : RunQueue :=
  match slot q idx with
  | Some t => set_pid_index (index_insert (pid_index q) (pid t) (Z.of_nat idx)) q
  | None => q
  end.

(** ** Minimum virtual runtime *)
Definition min_vr_step (q : RunQueue) (min : Z) (i : nat) : Z :=
  match slot q i with
  | Some t => if runnable t && (vruntime t <? min) then vruntime t else min
  | None => min
  end.
Definition min_vruntime (q : RunQueue) : Z :=
  let min := scan_words (fun _ => ready_bits q) (min_vr_step q) OCC_WORDS U64_MAX in
  if min =? U64_MAX then 0 else min.

(** ** Enqueue and remove *)
Fixpoint free_slot_from (w : nat) (ws : list Z) : option nat :=
  match ws with
  | [] => None
  | x :: ws =>
      let free := not64 x in
      if negb (free =? 0) then Some (w * 64 + trailing_zeros free)%nat
      else free_slot_from (S w) ws
  end.
Definition free_slot (q : RunQueue) : option nat := free_slot_from 0 (occupied q).

Definition enqueue (task : Task) (q : RunQueue) : bool * RunQueue :=
  match free_slot q with
  | None => (false, q)
  | Some i =>
      let task := place (min_vruntime q) task in
      let q := set_pid_tgid (pid_tgid_insert (pid_tgid q) (pid task) (tgid task)) q in
      let p := pid task in
      let q := if pid task =? tgid task then set_nproc (S (nproc q)) q else q in
      let q := write_task i task q in
      let q := set_occupied (Bitmap.set (occupied q) i) q in
      let q := touch i q in
      let q := set_pid_index (index_insert (pid_index q) p (Z.of_nat i)) q in
      (true, set_len (S (len q)) q)
  end.

Definition process_count (q : RunQueue) : nat := nproc q.
Definition note_leader_promoted (q : RunQueue) : RunQueue := set_nproc (S (nproc q)) q.

(** [saturating_sub(1)] is [Nat.pred]. *)
Definition remove (idx : nat) (q : RunQueue) : option Task * RunQueue :=
  match slot q idx with
  | None => (None, q)
  | Some task =>
      let q := set_tasks (<[idx := None]> (tasks q)) q in
      let q := set_len (Nat.pred (len q)) q in
      let q := if pid task =? tgid task then set_nproc (Nat.pred (nproc q)) q else q in
      let q := set_occupied (Bitmap.clear (occupied q) idx) q in
      let q := untouch idx q in
      let q := unpark idx q in
      let q := set_pid_index (index_remove (pid_index q) (pid task)) q in
      let q := set_pid_tgid (pid_tgid_remove (pid_tgid q) (pid task)) q in
      (Some task, q)
  end.

Definition mark_zombie (p : Z) (q : RunQueue) : RunQueue :=
  match find_pid_idx q p with
  | Some idx => modify idx (set_state Zombie) q
  | None => q
  end.

(** ** EEVDF pick *)
(** The statics [QUIESCE_TGID] and [QUIESCE_EXCEPT]. *)
Record Quiesce := mkQuiesce { quiesce_tgid : Z; quiesce_except : Z }.
Definition quiesce_filtered (z : Quiesce) (tgid pid : Z) : bool :=
  negb (quiesce_tgid z =? 0) && (tgid =? quiesce_tgid z) && negb (pid =? quiesce_except z).

Definition wrap128 (x : Z) : Z := x mod 2 ^ 128.

Record PickState := mkPick { pq : RunQueue; sum_w : Z; sum_wv : Z; cand : list nat }.

(** First pass, one visited slot. *)
Definition pick_visit (full : bool) (z : Quiesce) (s : PickState) (i : nat) : PickState :=
  let q := pq s in
  match slot q i with
  | None => s
  | Some t =>
      let q := if full && negb (Bitmap.get (parked q) i) && wake_scannable t then park i q else q in
      if negb (state_eqb (state t) Ready) then
        let q :=
          if negb (state_eqb (state t) Running) then untouch i q
          else if full && negb (Bitmap.get (maybe_ready q) i) then touch i q
          else q in
        mkPick q (sum_w s) (sum_wv s) (cand s)
      else
        let q := if full && negb (Bitmap.get (maybe_ready q) i) then touch i q else q in
        if bool_decide (is_Some (on_cpu t)) || quiesce_filtered z (tgid t) (pid t)
        then mkPick q (sum_w s) (sum_wv s) (cand s)
        else mkPick q (wrap64 (sum_w s + weight t))
               (wrap128 (sum_wv s + wrap128 (weight t * vruntime t)))
               (cand s ++ [i])
  end.

Definition pick_bits (full : bool) (s : PickState) (w : nat) : Z :=
  if full then word_at (occupied (pq s)) w else ready_bits (pq s) w.

(** Second pass: [best] and [fallback]. *)
Definition pick_best (q : RunQueue) (sw swv : Z)
    (acc : option (nat * Z) * option (nat * Z)) (i : nat) : option (nat * Z) * option (nat * Z) :=
  match slot q i with
  | None => acc
  | Some t =>
      let '(best, fallback) := acc in
      let eligible := wrap128 (vruntime t * sw) <=? swv in
      let best :=
        if eligible && match best with None => true | Some (_, d) => vdeadline t <? d end
        then Some (i, vdeadline t) else best in
      let fallback :=
        if match fallback with None => true | Some (_, v) => vruntime t <? v end
        then Some (i, vruntime t) else fallback in
      (best, fallback)
  end.

Definition pick_next (now : Z) (z : Quiesce) (q : RunQueue) : option nat * RunQueue :=
  if (len q =? 0)%nat then (None, q)
  else
    let full := negb (now =? last_full_scan q) in
    let q := if full then set_last_full_scan now q else q in
    let s := scan_words (pick_bits full) (pick_visit full z) OCC_WORDS (mkPick q 0 0 []) in
    if sum_w s =? 0 then (None, pq s)
    else
      let '(best, fallback) := foldl (pick_best (pq s) (sum_w s) (sum_wv s)) (None, None) (cand s) in
      (fst <$> (match best with Some b => Some b | None => fallback end), pq s).

(** ** Blocking and waking *)
Definition block_task (port deadline mask : Z) (t : Task) : Task :=
  set_poll_mask mask (set_poll_deadline deadline (set_blocked_on (Some port) (set_state Blocked t))).

Definition block_on_port_until (p port deadline mask : Z) (q : RunQueue) : RunQueue :=
  match find_pid_idx q p with
  | None => q
  | Some idx => modify idx (block_task port deadline mask) (park idx q)
  end.
Definition block_on_port (p port : Z) (q : RunQueue) : RunQueue :=
  block_on_port_until p port U64_MAX POLL_TAG_ALL q.

Definition note_timed_wait (p : Z) (q : RunQueue) : RunQueue :=
  match find_pid_idx q p with Some idx => park idx q | None => q end.

(** The five writes of a wake-up from a port or wait channel. *)
Definition wake_task (min_vr : Z) (t : Task) : Task :=
  place min_vr
    (set_poll_mask POLL_TAG_ALL (set_poll_deadline U64_MAX (set_blocked_on None (set_state Ready t)))).

Definition unblock_visit (port tag min_vr : Z) (s : RunQueue * nat) (i : nat) : RunQueue * nat :=
  let '(q, woken) := s in
  match slot q i with
  | None => s
  | Some t =>
      if negb (wake_scannable t) then (unpark i q, woken)
      else if is_blocked_on t port && state_eqb (state t) Blocked
              && (negb (Z.land (poll_mask t) tag =? 0) || (tag =? POLL_TAG_ALL))
      then (write_task i (wake_task min_vr t) (touch i q), S woken)
      else s
  end.
Definition unblock_port_tagged (port tag : Z) (q : RunQueue) : RunQueue * nat :=
  scan_words (fun s => parked_bits s.1) (unblock_visit port tag (min_vruntime q)) OCC_WORDS (q, O).
Definition unblock_port (port : Z) (q : RunQueue) : RunQueue * nat :=
  unblock_port_tagged port POLL_TAG_ALL q.

Definition wake_kwaiter (p : Z) (q : RunQueue) : bool * RunQueue :=
  let min_vr := min_vruntime q in
  match find_pid_idx q p with
  | None => (false, q)
  | Some idx =>
      let q := touch idx q in
      match slot q idx with
      | Some t =>
          if state_eqb (state t) Blocked && is_blocked_on t KWAIT_CHANNEL
          then (true, write_task idx (wake_task min_vr t) q)
          else (false, q)
      | None => (false, q)
      end
  end.

Definition wake_kwaiters_visit (min_vr : Z) (s : RunQueue * nat) (i : nat) : RunQueue * nat :=
  let '(q, woken) := s in
  match slot q i with
  | Some t =>
      if state_eqb (state t) Blocked && is_blocked_on t KWAIT_CHANNEL
      then (write_task i (wake_task min_vr t) (touch i q), S woken)
      else s
  | None => s
  end.
Definition wake_all_kwaiters (q : RunQueue) : RunQueue * nat :=
  foldl (wake_kwaiters_visit (min_vruntime q)) (q, O) (parked_slots q).

Definition widen_visit (port match_tag add : Z) (q : RunQueue) (i : nat) : RunQueue :=
  match slot q i with
  | Some t =>
      if is_blocked_on t port && state_eqb (state t) Blocked
         && negb (Z.land (poll_mask t) match_tag =? 0)
      then write_task i (set_poll_mask (Z.lor (poll_mask t) add) t) q
      else q
  | None => q
  end.
Definition widen_port_masks (port match_tag add : Z) (q : RunQueue) : RunQueue :=
  foldl (widen_visit port match_tag add) q (parked_slots q).

(** ** The deadline tick *)
Definition is_poll_waiter (port : Z) (t : Task) : bool :=
  is_blocked_on t port || is_blocked_on t KWAIT_CHANNEL.
Definition is_futex_waiter (t : Task) : bool := negb (blocked_futex t =? 0).
Definition wake_due_task (port min_vr : Z) (t : Task) : Task :=
  let is_poll := is_poll_waiter port t in
  let is_futex := is_futex_waiter t in
  let t := set_state Ready t in
  let t := if is_poll then set_poll_mask POLL_TAG_ALL (set_blocked_on None t) else t in
  let t := if is_futex then set_blocked_futex 0 t else t in
  place min_vr (set_poll_deadline U64_MAX t).

Definition due_visit (port now tags min_vr : Z) (s : RunQueue * (Z * nat)) (i : nat)
    : RunQueue * (Z * nat) :=
  let '(q, (new_min, woken)) := s in
  match slot q i with
  | None => s
  | Some t =>
      if negb (wake_scannable t) then (unpark i q, (new_min, woken))
      else if negb (is_poll_waiter port t) && negb (is_futex_waiter t) then s
      else if (is_poll_waiter port t && negb (Z.land (poll_mask t) tags =? 0))
              || (poll_deadline t <=? now)
      then (write_task i (wake_due_task port min_vr t) (touch i q), (new_min, S woken))
      else if poll_deadline t <? new_min then (q, (poll_deadline t, woken))
      else s
  end.
Definition wake_due_poll_deadlines (port now tags : Z) (q : RunQueue) : RunQueue * (Z * nat) :=
  scan_words (fun s => parked_bits s.1) (due_visit port now tags (min_vruntime q)) OCC_WORDS
    (q, (U64_MAX, O)).

(** Projections of updated queues. *)
Ltac rq_fields :=
  cbn [fst snd tasks len nproc occupied maybe_ready parked last_full_scan pid_index pid_tgid
       set_tasks set_len set_nproc set_occupied set_maybe_ready set_parked set_last_full_scan
       set_pid_index set_pid_tgid touch untouch park unpark write_task].

(** ** Invariant *)
Definition live (q : RunQueue) : list Task := omap id (tasks q).
Definition leader (t : Task) : bool := pid t =? tgid t.

Record task_ok (t : Task) : Prop := {
  task_pid : is_u32 (pid t);
  task_tgid : is_u32 (tgid t);
  task_weight : 0 < weight t <= 88761;
  task_vruntime : is_u64 (vruntime t);
  task_vdeadline : is_u64 (vdeadline t) }.

(** [m] maps every non-zero pid in the table to its slot. *)
Definition index_of (q : RunQueue) (m : gmap Z Z) : Prop :=
  forall p v, m !! p = Some v <->
    p <> 0 /\ exists i t, v = Z.of_nat i /\ slot q i = Some t /\ pid t = p.
(** [m] maps every non-zero pid in the table to its thread group. *)
Definition tgids_of (q : RunQueue) (m : gmap Z Z) : Prop :=
  forall p g, m !! p = Some g <->
    p <> 0 /\ exists i t, slot q i = Some t /\ pid t = p /\ tgid t = g.

(** Everything but the two hint sets. *)
Record rq_base (q : RunQueue) : Prop := {
  rq_slots : length (tasks q) = MAX_TASKS;
  rq_occ_wf : Bitmap.wf OCC_WORDS (occupied q);
  rq_ready_wf : Bitmap.wf OCC_WORDS (maybe_ready q);
  rq_parked_wf : Bitmap.wf OCC_WORDS (parked q);
  rq_occ : forall i, Bitmap.get (occupied q) i = bool_decide (is_Some (slot q i));
  rq_len : len q = length (live q);
  rq_nproc : nproc q = length (List.filter leader (live q));
  rq_index : exists m, table_ok (pid_index q) m /\ index_of q m;
  rq_tgids : exists m, table_ok (pid_tgid q) m /\ tgids_of q m;
  rq_task : forall i t, slot q i = Some t -> task_ok t }.

Definition ready_hint (q : RunQueue) (i : nat) : Prop :=
  forall t, slot q i = Some t -> runnable t = true -> Bitmap.get (maybe_ready q) i = true.
Definition parked_hint (q : RunQueue) (i : nat) : Prop :=
  forall t, slot q i = Some t -> wake_scannable t = true -> Bitmap.get (parked q) i = true.

(** The superset contracts of [maybe_ready] and [parked]. *)
Definition hints_ok (q : RunQueue) : Prop := forall i, ready_hint q i /\ parked_hint q i.
Definition rq_ok (q : RunQueue) : Prop := rq_base q /\ hints_ok q.

(** ** Slots *)
Lemma slot_lt q i t : length (tasks q) = MAX_TASKS -> slot q i = Some t -> (i < MAX_TASKS)%nat.
Proof.
  unfold slot. intros Hl H. destruct (tasks q !! i) eqn:E; [|done].
  rewrite <- Hl. by eapply lookup_lt_Some.
Qed.

Lemma slot_tasks q i t : slot q i = Some t <-> tasks q !! i = Some (Some t).
Proof. unfold slot. destruct (tasks q !! i) as [[?|]|]; simpl; naive_solver. Qed.

Lemma live_slot q t : t ∈ live q <-> exists i, slot q i = Some t.
Proof.
  unfold live. rewrite list_elem_of_omap. split.
  - intros (o & Ho & He). unfold id in He. subst o.
    apply list_elem_of_lookup in Ho as [i Hi]. exists i. by apply slot_tasks.
  - intros [i Hi%slot_tasks]. exists (Some t). split; [|done]. by eapply list_elem_of_lookup_2.
Qed.

Lemma live_length q : (length (live q) <= length (tasks q))%nat.
Proof.
  unfold live. induction (tasks q) as [|[t|] l IH]; csimpl; lia.
Qed.

Lemma slot_insert q i o j :
  length (tasks q) = MAX_TASKS -> (i < MAX_TASKS)%nat ->
  slot (set_tasks (<[i := o]> (tasks q)) q) j = if decide (i = j) then o else slot q j.
Proof.
  intros Hl Hi. unfold slot. cbn. destruct (decide (i = j)) as [->|].
  - by rewrite list_lookup_insert_eq by lia.
  - by rewrite list_lookup_insert_ne.
Qed.

Lemma slot_write q i t t' j :
  slot q i = Some t -> slot (write_task i t' q) j = if decide (i = j) then Some t' else slot q j.
Proof.
  intros H. unfold slot, write_task in *. cbn. destruct (decide (i = j)) as [->|].
  - rewrite list_lookup_insert_eq; [done|]. apply slot_tasks in H. by eapply lookup_lt_Some.
  - by rewrite list_lookup_insert_ne.
Qed.

Lemma live_split q i o :
  tasks q !! i = Some o ->
  exists l1 l2,
    (forall o', omap id (<[i := o']> (tasks q)) = l1 ++ option_list o' ++ l2)
    /\ live q = l1 ++ option_list o ++ l2.
Proof.
  intros Hi. pose proof (lookup_lt_Some _ _ _ Hi) as Hlt.
  exists (omap id (take i (tasks q))), (omap id (drop (S i) (tasks q))). split.
  - intros o'. rewrite insert_take_drop, omap_app by done. destruct o'; done.
  - unfold live. rewrite <- (take_drop_middle (tasks q) i o) at 1 by done.
    rewrite omap_app. destruct o; done.
Qed.

(** A finite map whose keys are pids of live tasks leaves room in its table. *)
Lemma pid_map_size q (m : gmap Z Z) :
  length (tasks q) = MAX_TASKS ->
  (forall p v, m !! p = Some v -> exists i t, slot q i = Some t /\ pid t = p) ->
  (size m <= length (live q))%nat.
Proof.
  intros Hl Hm. replace (size m) with (length (map_to_list m).*1).
  2:{ rewrite length_fmap. apply length_map_to_list. }
  rewrite <- (length_map pid (live q)). apply NoDup_incl_length.
  - apply NoDup_ListNoDup, NoDup_fst_map_to_list.
  - intros p Hp%list_elem_of_In. apply list_elem_of_fmap in Hp as ([p' v] & -> & Hin).
    apply elem_of_map_to_list in Hin. destruct (Hm _ _ Hin) as (i & t & Hs & <-).
    cbn [fst]. apply in_map, list_elem_of_In, live_slot. by exists i.
Qed.

Lemma pid_map_room q (m : gmap Z Z) :
  length (tasks q) = MAX_TASKS ->
  (forall p v, m !! p = Some v -> exists i t, slot q i = Some t /\ pid t = p) ->
  (size m < Z.to_nat PID_INDEX_SLOTS)%nat.
Proof.
  intros Hl Hm. pose proof (pid_map_size q m Hl Hm). pose proof (live_length q) as Hll.
  rewrite Hl in Hll. unfold MAX_TASKS in Hll. unfold PID_INDEX_SLOTS. lia.
Qed.

Lemma index_room q m :
  length (tasks q) = MAX_TASKS -> index_of q m -> (size m < Z.to_nat PID_INDEX_SLOTS)%nat.
Proof.
  intros Hl Hm. eapply pid_map_room; [done|]. intros p v H.
  apply Hm in H as (_ & i & t & _ & ? & ?). eauto.
Qed.

Lemma tgids_room q m :
  length (tasks q) = MAX_TASKS -> tgids_of q m -> (size m < Z.to_nat PID_INDEX_SLOTS)%nat.
Proof.
  intros Hl Hm. eapply pid_map_room; [done|]. intros p v H.
  apply Hm in H as (_ & i & t & ? & ? & _). eauto.
Qed.

(** Non-zero pids are distinct. *)
Lemma pids_distinct q i j t u :
  rq_base q -> slot q i = Some t -> slot q j = Some u -> pid t = pid u -> pid t <> 0 -> i = j.
Proof.
  intros Hq Hi Hj He Hn. destruct (rq_index _ Hq) as (m & _ & Hm).
  assert (m !! pid t = Some (Z.of_nat i)) as H1 by (apply Hm; split; [done|]; by exists i, t).
  assert (m !! pid t = Some (Z.of_nat j)) as H2 by (apply Hm; split; [done|]; by exists j, u).
  rewrite H1 in H2. injection H2. lia.
Qed.

(** ** Preservation, one field group at a time *)
(** Equality of all fields but the hint sets and the scan stamp. *)
Record same_core (q q' : RunQueue) : Prop := {
  core_tasks : tasks q' = tasks q;
  core_len : len q' = len q;
  core_nproc : nproc q' = nproc q;
  core_occ : occupied q' = occupied q;
  core_index : pid_index q' = pid_index q;
  core_tgid : pid_tgid q' = pid_tgid q }.

#[export] Instance same_core_preorder : PreOrder same_core.
Proof.
  split; [by intros q; split|]. intros q1 q2 q3 [] []. split; congruence.
Qed.

Lemma same_core_slot q q' i : same_core q q' -> slot q' i = slot q i.
Proof. intros H. unfold slot. by rewrite (core_tasks _ _ H). Qed.

Lemma rq_base_core q q' :
  rq_base q -> same_core q q' ->
  Bitmap.wf OCC_WORDS (maybe_ready q') -> Bitmap.wf OCC_WORDS (parked q') -> rq_base q'.
Proof.
  intros Hq Hc Hr Hp. pose proof (fun i => same_core_slot _ _ i Hc) as Hs.
  assert (live q' = live q) as Hl by (unfold live; by rewrite (core_tasks _ _ Hc)).
  destruct Hc as [Ht Hln Hn Ho Hi Hg], Hq. split; rewrite ?Ht, ?Hln, ?Hn, ?Ho, ?Hi, ?Hg, ?Hl; try done.
  - intros i. by rewrite Hs.
  - destruct rq_index0 as (m & ? & Hm). exists m. split; [done|]. intros p v. rewrite (Hm p v). by setoid_rewrite Hs.
  - destruct rq_tgids0 as (m & ? & Hm). exists m. split; [done|]. intros p v. rewrite (Hm p v). by setoid_rewrite Hs.
  - intros i t. rewrite Hs. apply rq_task0.
Qed.

Lemma core_touch i q : same_core q (touch i q).
Proof. by split. Qed.
Lemma core_untouch i q : same_core q (untouch i q).
Proof. by split. Qed.
Lemma core_park i q : same_core q (park i q).
Proof. by split. Qed.
Lemma core_unpark i q : same_core q (unpark i q).
Proof. by split. Qed.

#[export] Hint Resolve core_touch core_untouch core_park core_unpark : kernel.
#[export] Hint Resolve rq_slots rq_occ_wf rq_ready_wf rq_parked_wf : kernel.
#[export] Hint Resolve Bitmap.wf_set Bitmap.wf_clear : kernel.

Lemma base_touch i q : rq_base q -> rq_base (touch i q).
Proof. intros. eapply rq_base_core; eauto with kernel; rq_fields; auto with kernel. Qed.
Lemma base_untouch i q : rq_base q -> rq_base (untouch i q).
Proof. intros. eapply rq_base_core; eauto with kernel; rq_fields; auto with kernel. Qed.
Lemma base_park i q : rq_base q -> rq_base (park i q).
Proof. intros. eapply rq_base_core; eauto with kernel; rq_fields; auto with kernel. Qed.
Lemma base_unpark i q : rq_base q -> rq_base (unpark i q).
Proof. intros. eapply rq_base_core; eauto with kernel; rq_fields; auto with kernel. Qed.

#[export] Hint Resolve base_touch base_untouch base_park base_unpark : kernel.

(** Writing a task that keeps its pid and thread group. *)
Lemma base_write i t t' q :
  rq_base q -> slot q i = Some t -> pid t' = pid t -> tgid t' = tgid t -> task_ok t' ->
  rq_base (write_task i t' q).
Proof.
  intros Hq Hi Hp Hg Ht'. pose proof (fun j => slot_write q i t t' j Hi) as Hs.
  destruct (live_split q i (Some t)) as (l1 & l2 & Hl' & Hl); [by apply slot_tasks|].
  destruct Hq. split; try done.
  - cbn. by rewrite length_insert.
  - intros j. rewrite Hs. cbn [occupied write_task set_tasks]. rewrite rq_occ0.
    destruct (decide (i = j)) as [->|]; [|done]. rewrite Hi. by apply bool_decide_ext.
  - cbn. rewrite rq_len0, Hl. unfold live. cbn. rewrite Hl'. cbn. by rewrite !length_app.
  - cbn. rewrite rq_nproc0, Hl. unfold live. cbn. rewrite Hl'. cbn.
    assert (leader t' = leader t) as He by (unfold leader; by rewrite Hp, Hg).
    rewrite !List.filter_app. cbn. rewrite He. by destruct (leader t); rewrite !length_app.
  - destruct rq_index0 as (m & ? & Hm). exists m. split; [done|]. intros p v. rewrite (Hm p v).
    f_equiv. setoid_rewrite Hs. split.
    + intros (j & u & -> & Hj & <-). exists j. destruct (decide (i = j)) as [->|]; [|eauto].
      exists t'. rewrite Hj in Hi. by simplify_eq.
    + intros (j & u & -> & Hj & <-). exists j. destruct (decide (i = j)) as [->|]; [|eauto].
      exists t. by simplify_eq.
  - destruct rq_tgids0 as (m & ? & Hm). exists m. split; [done|]. intros p v. rewrite (Hm p v).
    f_equiv. setoid_rewrite Hs. split.
    + intros (j & u & Hj & <- & <-). exists j. destruct (decide (i = j)) as [->|]; [|eauto].
      exists t'. rewrite Hj in Hi. by simplify_eq.
    + intros (j & u & Hj & <- & <-). exists j. destruct (decide (i = j)) as [->|]; [|eauto].
      exists t. by simplify_eq.
  - intros j u. rewrite Hs. destruct (decide (i = j)); [by intros [= <-]|apply rq_task0].
Qed.

(** ** Hints *)
Lemma get_touch q i j :
  rq_base q -> (i < MAX_TASKS)%nat ->
  Bitmap.get (maybe_ready (touch i q)) j = bool_decide (i = j) || Bitmap.get (maybe_ready q) j.
Proof. intros Hq Hi. apply (Bitmap.get_set OCC_WORDS); [apply Hq|done]. Qed.
Lemma get_untouch q i j :
  rq_base q -> (i < MAX_TASKS)%nat ->
  Bitmap.get (maybe_ready (untouch i q)) j = negb (bool_decide (i = j)) && Bitmap.get (maybe_ready q) j.
Proof. intros Hq Hi. apply (Bitmap.get_clear OCC_WORDS); [apply Hq|done]. Qed.
Lemma get_park q i j :
  rq_base q -> (i < MAX_TASKS)%nat ->
  Bitmap.get (parked (park i q)) j = bool_decide (i = j) || Bitmap.get (parked q) j.
Proof. intros Hq Hi. apply (Bitmap.get_set OCC_WORDS); [apply Hq|done]. Qed.
Lemma get_unpark q i j :
  rq_base q -> (i < MAX_TASKS)%nat ->
  Bitmap.get (parked (unpark i q)) j = negb (bool_decide (i = j)) && Bitmap.get (parked q) j.
Proof. intros Hq Hi. apply (Bitmap.get_clear OCC_WORDS); [apply Hq|done]. Qed.

(** Dropping a hint is sound at a slot whose task is not in the hinted class. *)
Lemma hints_unpark q i t :
  rq_ok q -> slot q i = Some t -> wake_scannable t = false -> rq_ok (unpark i q).
Proof.
  intros [Hq Hh] Hi Hw. assert (i < MAX_TASKS)%nat by (eapply slot_lt; eauto with kernel).
  split; [auto with kernel|]. intros j. split; [apply Hh|].
  intros u Hu Hwu. change (slot q j = Some u) in Hu. rewrite get_unpark by done.
  rewrite bool_decide_eq_false_2 by (intros ->; congruence). by eapply Hh.
Qed.

(** [get_mut] followed by a write that keeps the identity of the task keeps the
    invariant, provided a task that becomes wake-scannable is flagged. *)
Lemma ok_write i t t' q :
  rq_ok q -> slot q i = Some t -> pid t' = pid t -> tgid t' = tgid t -> task_ok t' ->
  (wake_scannable t' = true -> Bitmap.get (parked q) i = true) ->
  rq_ok (write_task i t' (touch i q)).
Proof.
  intros [Hq Hh] Hi Hp Hg Ht' Hw. assert (i < MAX_TASKS)%nat by (eapply slot_lt; eauto with kernel).
  split; [eapply base_write; eauto with kernel|]. intros j.
  pose proof (slot_write (touch i q) i t t' j Hi) as Hs. split; intros u; rewrite Hs.
  - change (maybe_ready (write_task i t' (touch i q))) with (maybe_ready (touch i q)).
    rewrite get_touch by done. destruct (decide (i = j)).
    + by rewrite bool_decide_eq_true_2.
    + intros Hu Hr. rewrite bool_decide_eq_false_2 by done. by eapply Hh.
  - change (parked (write_task i t' (touch i q))) with (parked q).
    destruct (decide (i = j)) as [->|]; [intros [= <-]; apply Hw|apply Hh].
Qed.

Lemma ok_touch i q : rq_ok q -> (i < MAX_TASKS)%nat -> rq_ok (touch i q).
Proof.
  intros [Hq Hh] Hi. split; [auto with kernel|]. intros j. split; [|apply Hh].
  intros u Hu Hr. rewrite get_touch by done. rewrite (proj1 (Hh j) u Hu Hr). apply orb_true_r.
Qed.

Lemma ok_park i q : rq_ok q -> (i < MAX_TASKS)%nat -> rq_ok (park i q).
Proof.
  intros [Hq Hh] Hi. split; [auto with kernel|]. intros j. split; [apply Hh|].
  intros u Hu Hr. rewrite get_park by done. rewrite (proj2 (Hh j) u Hu Hr). apply orb_true_r.
Qed.

(** ** The slots a scan visits *)
Lemma land_slots a b :
  Bitmap.wf OCC_WORDS a -> Bitmap.wf OCC_WORDS b ->
  words_slots (fun w => Z.land (word_at a w) (word_at b w)) OCC_WORDS
  = List.filter (fun i => Bitmap.get a i && Bitmap.get b i) (seq 0 MAX_TASKS).
Proof.
  intros Ha Hb. rewrite words_slots_spec.
  - apply filter_bits_ext. intros. by rewrite !Bitmap.get_testbit, Z.land_spec.
  - intros. apply u64_land_l. by eapply Bitmap.wf_word_any.
Qed.

Lemma live_slots_spec q :
  rq_base q -> live_slots q = List.filter (Bitmap.get (occupied q)) (seq 0 MAX_TASKS).
Proof.
  intros Hq. unfold live_slots. rewrite words_slots_spec.
  - apply filter_bits_ext. intros. by rewrite Bitmap.get_testbit.
  - intros. eapply Bitmap.wf_word_any, Hq.
Qed.

Lemma elem_filter_seq (f : nat -> bool) n i : i ∈ List.filter f (seq 0 n) <-> (i < n)%nat /\ f i = true.
Proof.
  rewrite list_elem_of_In, List.filter_In, <- list_elem_of_In, elem_of_seq. intuition lia.
Qed.

Lemma elem_live_slots q i : rq_base q -> i ∈ live_slots q <-> is_Some (slot q i).
Proof.
  intros Hq. rewrite live_slots_spec, elem_filter_seq, (rq_occ q Hq), bool_decide_eq_true by done.
  split; [tauto|]. intros [t Ht]. split; [|by exists t]. eapply slot_lt; eauto with kernel.
Qed.

(** ** Lookup *)
Lemma scan_pid_lookup q p :
  rq_base q ->
  match scan_pid q p with
  | Some i => slot_has_pid q p i = true
  | None => forall i, slot_has_pid q p i = false
  end.
Proof.
  intros Hq. unfold scan_pid. destruct (List.filter _ _) as [|i l] eqn:E; cbn [head].
  - intros i. destruct (slot_has_pid q p i) eqn:Hi; [|done]. exfalso.
    assert (i ∈ List.filter (slot_has_pid q p) (live_slots q)) as Hin.
    { apply list_elem_of_In, List.filter_In. split; [|done]. apply list_elem_of_In, elem_live_slots; [done|].
      unfold slot_has_pid in Hi. by destruct (slot q i). }
    rewrite E in Hin. by apply elem_of_nil in Hin.
  - assert (In i (i :: l)) as Hin by by left. rewrite <- E in Hin.
    by apply List.filter_In in Hin as [_ ?].
Qed.

Lemma slot_has_pid_true q p i : slot_has_pid q p i = true <-> exists t, slot q i = Some t /\ pid t = p.
Proof.
  unfold slot_has_pid. destruct (slot q i) as [t|]; [rewrite Z.eqb_eq|]; naive_solver.
Qed.

Lemma pid_index_lookup q m p :
  rq_base q -> table_ok (pid_index q) m -> index_of q m -> index_lookup (pid_index q) p = m !! p.
Proof.
  intros Hq Hok Hm. pose proof (index_room q m (rq_slots q Hq) Hm) as Hr.
  pose proof (pt_lookup (o := index_ops) (pid_index q) m p Hok Hr) as H.
  exact H.
Qed.

Lemma pid_tgid_table_lookup q m p :
  rq_base q -> table_ok (pid_tgid q) m -> tgids_of q m -> pid_tgid_get (pid_tgid q) p = m !! p.
Proof.
  intros Hq Hok Hm. pose proof (tgids_room q m (rq_slots q Hq) Hm) as Hr.
  pose proof (pt_lookup (o := pid_tgid_ops) (pid_tgid q) m p Hok Hr) as H.
  exact H.
Qed.

Lemma find_pid_idx_lookup q p :
  rq_base q ->
  match find_pid_idx q p with
  | Some i => exists t, slot q i = Some t /\ pid t = p
  | None => forall i t, slot q i = Some t -> pid t <> p
  end.
Proof.
  intros Hq. assert (match scan_pid q p with
    | Some i => exists t, slot q i = Some t /\ pid t = p
    | None => forall i t, slot q i = Some t -> pid t <> p end) as Hscan.
  { pose proof (scan_pid_lookup q p Hq) as H. destruct (scan_pid q p) as [i|]; [by apply slot_has_pid_true|].
    intros i t Hi Hp. specialize (H i). assert (slot_has_pid q p i = true) by (apply slot_has_pid_true; eauto).
    congruence. }
  unfold find_pid_idx. destruct (Z.eqb_spec p 0) as [->|Hp]; [done|].
  destruct (rq_index _ Hq) as (m & Hok & Hm).
  rewrite (pid_index_lookup q m p) by done. destruct (m !! p) as [v|] eqn:Hv.
  - destruct (slot_has_pid q p (Z.to_nat v)) eqn:E; [by apply slot_has_pid_true|done].
  - intros i t Hi <-. assert (m !! pid t = Some (Z.of_nat i)); [|congruence].
    apply Hm. split; [done|]. eauto.
Qed.

Lemma find_pid_idx_slot q i t :
  rq_base q -> slot q i = Some t -> pid t <> 0 -> find_pid_idx q (pid t) = Some i.
Proof.
  intros Hq Hi Hp. pose proof (find_pid_idx_lookup q (pid t) Hq) as H.
  destruct (find_pid_idx q (pid t)) as [j|]; [|by destruct (H i t)].
  destruct H as (u & Hj & Hu). f_equal. eapply pids_distinct; [done..|congruence].
Qed.

Lemma pid_tgid_lookup q p :
  rq_base q -> p <> 0 -> pid_tgid_get (pid_tgid q) p = tgid <$> find_pid q p.
Proof.
  intros Hq Hp. destruct (rq_tgids _ Hq) as (m & Hok & Hm).
  rewrite (pid_tgid_table_lookup q m p) by done. unfold find_pid.
  pose proof (find_pid_idx_lookup q p Hq) as H. destruct (find_pid_idx q p) as [i|]; simpl.
  - destruct H as (t & Hi & <-). rewrite Hi. simpl. apply Hm. split; [done|]. eauto.
  - destruct (m !! p) as [g|] eqn:E; [|done]. apply Hm in E as (_ & i & t & Hi & He & _).
    by destruct (H i t).
Qed.

(** ** Minimum virtual runtime *)
Lemma min_vr_fold q l x :
  let r := foldl (min_vr_step q) x l in
  r <= x
  /\ (forall i t, i ∈ l -> slot q i = Some t -> runnable t = true -> r <= vruntime t)
  /\ (r = x \/ exists i t, i ∈ l /\ slot q i = Some t /\ runnable t = true /\ vruntime t = r).
Proof.
  cbv zeta. revert x. induction l as [|i l IH]; intros x; cbn [foldl].
  { split; [lia|]. split; [by intros ? ? ?%elem_of_nil|]. by left. }
  destruct (IH (min_vr_step q x i)) as (H1 & H2 & H3).
  assert (min_vr_step q x i <= x) as Hx.
  { unfold min_vr_step. repeat case_match; bool_to_prop; lia. }
  split; [lia|]. split.
  - intros j t [->|Hj]%elem_of_cons Hs Hr; [|eauto]. etrans; [exact H1|].
    unfold min_vr_step. rewrite Hs, Hr. cbn [andb]. destruct (Z.ltb_spec (vruntime t) x); lia.
  - destruct H3 as [H3|(j & t & Hj & ?)]; [|right; exists j, t; by rewrite elem_of_cons; auto].
    rewrite H3. unfold min_vr_step. destruct (slot q i) as [t|] eqn:Hs; [|by left].
    destruct (runnable t && (vruntime t <? x)) eqn:E; [|by left]. bool_to_prop.
    right. exists i, t. split; [by left|done].
Qed.

(** [min_vruntime] is a lower bound of the runnable tasks, attained when some
    runnable task is below [u64::MAX], and 0 otherwise. *)
Lemma min_vruntime_bound q :
  rq_ok q ->
  is_u64 (min_vruntime q)
  /\ (forall i t, slot q i = Some t -> runnable t = true -> min_vruntime q <= vruntime t)
  /\ (min_vruntime q = 0
      \/ exists i t, slot q i = Some t /\ runnable t = true /\ vruntime t = min_vruntime q).
Proof.
  intros [Hq Hh]. unfold min_vruntime.
  rewrite (scan_words_snapshot (fun _ => True)); [|by intros|by intros| |exact I].
  2:{ intros. apply u64_land_l. eapply Bitmap.wf_word_any, Hq. }
  unfold ready_bits. rewrite land_slots by apply Hq.
  set (L := List.filter _ _). destruct (min_vr_fold q L U64_MAX) as (H1 & H2 & H3).
  set (r := foldl _ _ _) in *.
  assert (forall i t, slot q i = Some t -> runnable t = true -> r <= vruntime t) as Hle.
  { intros i t Hi Hr. apply (H2 i); [|done..]. apply elem_filter_seq. split; [eapply slot_lt; eauto with kernel|].
    rewrite (proj1 (Hh i) t Hi Hr). rewrite (rq_occ q Hq), Hi. done. }
  assert (is_u64 r) as Hu.
  { destruct H3 as [->|(i & t & _ & Hi & _ & <-)]; [done|]. eapply task_vruntime, rq_task; eauto. }
  destruct (Z.eqb_spec r U64_MAX) as [E|E].
  - split; [done|]. split; [|by left]. intros i t Hi _. eapply task_vruntime, rq_task; eauto.
  - split; [done|]. split; [done|]. right. destruct H3 as [|(i & t & _ & ?)]; [done|]. eauto.
Qed.

(** ** Free slots and the tables under enqueue and remove *)
Lemma free_slot_from_first_clear w ws : free_slot_from w ws = Bitmap.first_clear_from w ws.
Proof.
  revert w. induction ws as [|x ws IH]; intros w; [done|]. cbn [free_slot_from Bitmap.first_clear_from].
  rewrite IH. replace (not64 x =? 0) with (x =? U64_MAX); [done|].
  apply eq_true_iff_eq. rewrite !Z.eqb_eq. unfold not64. symmetry. apply Z.lxor_eq_0_iff.
Qed.

(** The first free slot, or none when every slot holds a task. *)
Lemma free_slot_lookup q :
  rq_base q ->
  match free_slot q with
  | Some i => (i < MAX_TASKS)%nat /\ slot q i = None /\ forall j, (j < i)%nat -> is_Some (slot q j)
  | None => forall j, (j < MAX_TASKS)%nat -> is_Some (slot q j)
  end.
Proof.
  intros Hq. unfold free_slot. rewrite free_slot_from_first_clear.
  pose proof (Bitmap.first_clear_spec _ _ (rq_occ_wf _ Hq)) as H. unfold Bitmap.first_clear in H.
  destruct (Bitmap.first_clear_from 0 (occupied q)) as [i|].
  - destruct H as (H1 & H2 & H3). split; [done|]. split.
    + rewrite rq_occ in H2 by done. apply bool_decide_eq_false in H2. by apply eq_None_not_Some.
    + intros j Hj. specialize (H3 j Hj). rewrite rq_occ in H3 by done. by apply bool_decide_eq_true in H3.
  - intros j Hj. specialize (H j Hj). rewrite rq_occ in H by done. by apply bool_decide_eq_true in H.
Qed.

Lemma slice_vt_bound w : 0 < w -> 1 <= slice_vt w <= 4 * 1024 * 1024.
Proof.
  intros Hw. unfold slice_vt, BASE_SLICE_TICKS, VT_PER_TICK, NICE0_WEIGHT.
  pose proof (Z.div_le_upper_bound (4 * 1024 * 1024) w (4 * 1024 * 1024) Hw). nia.
Qed.

Lemma wrap64_u64 x : is_u64 (wrap64 x).
Proof. apply Z.mod_pos_bound. lia. Qed.

(** [place] changes only the virtual times. *)
Lemma place_frame mv t :
  exists vr vd, place mv t = set_vdeadline vd (set_vruntime vr t)
    /\ vr = Z.max (vruntime t) mv /\ vd = wrap64 (vr + slice_vt (weight t)).
Proof.
  unfold place. destruct (Z.ltb_spec (vruntime t) mv).
  - exists mv, (wrap64 (mv + slice_vt (weight t))). rewrite Z.max_r by lia. done.
  - exists (vruntime t), (wrap64 (vruntime t + slice_vt (weight t))). rewrite Z.max_l by lia.
    split; [|done]. by destruct t.
Qed.

Lemma place_ok mv t : is_u64 mv -> task_ok t -> task_ok (place mv t).
Proof.
  intros Hm [Hp Hg Hw Hr Hd]. destruct (place_frame mv t) as (vr & vd & -> & -> & ->).
  split; cbn; [done..| |apply wrap64_u64]. unfold is_u64 in *. lia.
Qed.

Lemma place_fields mv t :
  pid (place mv t) = pid t /\ tgid (place mv t) = tgid t /\ state (place mv t) = state t
  /\ wake_scannable (place mv t) = wake_scannable t.
Proof. by destruct (place_frame mv t) as (vr & vd & -> & _). Qed.

(** The empty slot [i] receives [task]. *)
Record slot_filled (q q' : RunQueue) (i : nat) (task : Task) : Prop := {
  fill_lt : (i < MAX_TASKS)%nat;
  fill_free : slot q i = None;
  fill_slot : forall j, slot q' j = if decide (i = j) then Some task else slot q j;
  fill_fresh : pid task <> 0 -> forall j t, slot q j = Some t -> pid t <> pid task }.

Lemma index_fill q q' i task :
  rq_base q -> slot_filled q q' i task -> task_ok task ->
  exists m, table_ok (index_insert (pid_index q) (pid task) (Z.of_nat i)) m /\ index_of q' m.
Proof.
  intros Hq [Hi Hf Hs Hfr] Ht. destruct (rq_index _ Hq) as (m & Hok & Hm).
  destruct (Z.eq_dec (pid task) 0) as [Hz|Hz].
  - exists m. split; [unfold index_insert; by rewrite Hz|]. intros p v. rewrite (Hm p v).
    setoid_rewrite Hs. split; intros (Hp & j & t & -> & Hj & <-); (split; [done|]); exists j, t.
    + by destruct (decide (i = j)) as [->|]; [congruence|].
    + by destruct (decide (i = j)) as [->|]; [simplify_eq|].
  - exists (<[pid task := Z.of_nat i]> m). split.
    + pose proof (index_room q m (rq_slots q Hq) Hm) as Hr.
      apply (pt_insert (o := index_ops)); [done|apply Ht|done| |done].
      unfold MAX_TASKS in Hi. unfold is_u32. lia.
    + intros p v. setoid_rewrite Hs. destruct (Z.eq_dec (pid task) p) as [<-|Hne].
      * rewrite lookup_insert_eq. split.
        -- intros [= <-]. split; [done|]. exists i, task. by rewrite decide_True.
        -- intros (_ & j & t & -> & Hj & He). destruct (decide (i = j)) as [->|]; [done|].
           by destruct (Hfr Hz j t).
      * rewrite lookup_insert_ne, (Hm p v) by done.
        split; intros (Hp & j & t & -> & Hj & <-); (split; [done|]); exists j, t.
        -- by destruct (decide (i = j)) as [->|]; [congruence|].
        -- by destruct (decide (i = j)) as [->|]; [simplify_eq|].
Qed.

Lemma tgids_fill q q' i task :
  rq_base q -> slot_filled q q' i task -> task_ok task ->
  exists m, table_ok (pid_tgid_insert (pid_tgid q) (pid task) (tgid task)) m /\ tgids_of q' m.
Proof.
  intros Hq [Hi Hf Hs Hfr] Ht. destruct (rq_tgids _ Hq) as (m & Hok & Hm).
  destruct (Z.eq_dec (pid task) 0) as [Hz|Hz].
  - exists m. split; [unfold pid_tgid_insert; by rewrite Hz|]. intros p v. rewrite (Hm p v).
    setoid_rewrite Hs. split; intros (Hp & j & t & Hj & <- & <-); (split; [done|]); exists j, t.
    + by destruct (decide (i = j)) as [->|]; [congruence|].
    + by destruct (decide (i = j)) as [->|]; [simplify_eq|].
  - exists (<[pid task := tgid task]> m). split.
    + pose proof (tgids_room q m (rq_slots q Hq) Hm) as Hr.
      apply (pt_insert (o := pid_tgid_ops)); [done|apply Ht|done|apply Ht|done].
    + intros p v. setoid_rewrite Hs. destruct (Z.eq_dec (pid task) p) as [<-|Hne].
      * rewrite lookup_insert_eq. split.
        -- intros [= <-]. split; [done|]. exists i, task. by rewrite decide_True.
        -- intros (_ & j & t & Hj & He & <-). destruct (decide (i = j)) as [->|]; [by simplify_eq|].
           by destruct (Hfr Hz j t).
      * rewrite lookup_insert_ne, (Hm p v) by done.
        split; intros (Hp & j & t & Hj & <- & <-); (split; [done|]); exists j, t.
        -- by destruct (decide (i = j)) as [->|]; [congruence|].
        -- by destruct (decide (i = j)) as [->|]; [simplify_eq|].
Qed.

(** ** [enqueue] *)
Lemma enqueue_fields q i task :
  free_slot q = Some i ->
  let task' := place (min_vruntime q) task in
  let q' := (enqueue task q).2 in
  tasks q' = <[i := Some task']> (tasks q)
  /\ len q' = S (len q)
  /\ nproc q' = (if leader task' then S (nproc q) else nproc q)
  /\ occupied q' = Bitmap.set (occupied q) i
  /\ maybe_ready q' = Bitmap.set (maybe_ready q) i
  /\ parked q' = parked q
  /\ pid_index q' = index_insert (pid_index q) (pid task') (Z.of_nat i)
  /\ pid_tgid q' = pid_tgid_insert (pid_tgid q) (pid task') (tgid task').
Proof.
  intros Hf. cbv zeta. unfold enqueue, leader. rewrite Hf.
  destruct (pid _ =? tgid _); repeat split.
Qed.

Lemma enqueue_fill q i task :
  rq_ok q -> free_slot q = Some i ->
  (pid task <> 0 -> forall j t, slot q j = Some t -> pid t <> pid task) ->
  slot_filled q (enqueue task q).2 i (place (min_vruntime q) task).
Proof.
  intros [Hq Hh] Hf Hfr. pose proof (free_slot_lookup q Hq) as Hs. rewrite Hf in Hs.
  destruct Hs as (Hi & Hn & _). pose proof (place_fields (min_vruntime q) task) as (Hp & _).
  split; [done..| |by rewrite Hp]. intros j. destruct (enqueue_fields q i task Hf) as (Ht & _).
  rewrite <- (slot_insert q i (Some _) j (rq_slots q Hq) Hi). unfold slot at 1. by rewrite Ht.
Qed.

Lemma enqueue_base q i task :
  rq_ok q -> free_slot q = Some i -> task_ok task ->
  (pid task <> 0 -> forall j t, slot q j = Some t -> pid t <> pid task) ->
  rq_base (enqueue task q).2.
Proof.
  intros Hok Hf Ht Hfr. pose proof (enqueue_fill q i task Hok Hf Hfr) as Hfill.
  assert (task_ok (place (min_vruntime q) task)) as Ht'.
  { apply place_ok; [by apply min_vruntime_bound|done]. }
  pose proof (index_fill _ _ _ _ (proj1 Hok) Hfill Ht') as Hm.
  pose proof (tgids_fill _ _ _ _ (proj1 Hok) Hfill Ht') as Hg.
  destruct Hok as [Hq Hh]. destruct (live_split q i None) as (l1 & l2 & Hl' & Hl).
  { pose proof (fill_free _ _ _ _ Hfill) as Hn. unfold slot in Hn.
    destruct (lookup_lt_is_Some_2 (tasks q) i) as [o Ho]; [rewrite rq_slots by done; apply Hfill|].
    rewrite Ho in *. by destruct o. }
  destruct Hfill as [Hi Hn Hs _].
  destruct (enqueue_fields q i task Hf) as (E1 & E2 & E3 & E4 & E5 & E6 & E7 & E8).
  set (task' := place _ _) in *. set (q' := (enqueue task q).2) in *.
  split; rewrite ?E2, ?E3, ?E4, ?E5, ?E6, ?E7, ?E8; auto with kernel.
  - by rewrite E1, length_insert, rq_slots.
  - intros j. rewrite Hs, (Bitmap.get_set OCC_WORDS), rq_occ by (done || apply Hq || exact Hi).
    destruct (decide (i = j)); [by rewrite (bool_decide_eq_true_2 (i = j))|].
    by rewrite (bool_decide_eq_false_2 (i = j)).
  - rewrite (rq_len _ Hq), Hl. unfold live. rewrite E1, Hl'. cbn. rewrite !length_app. cbn. lia.
  - rewrite (rq_nproc _ Hq), Hl. unfold live. rewrite E1, Hl'. cbn. rewrite !List.filter_app. cbn.
    destruct (leader task'); rewrite !length_app; cbn; lia.
  - intros j t. rewrite Hs. destruct (decide (i = j)); [by intros [= <-]|by eapply rq_task].
Qed.

(** [enqueue] keeps the invariant. *)
Lemma enqueue_preserves q task :
  rq_ok q -> task_ok task -> wake_scannable task = false ->
  (pid task <> 0 -> forall j t, slot q j = Some t -> pid t <> pid task) ->
  rq_ok (enqueue task q).2.
Proof.
  intros Hok Ht Hw Hfr. destruct (free_slot q) as [i|] eqn:Hf; [|unfold enqueue; by rewrite Hf].
  split; [by eapply enqueue_base|]. destruct (enqueue_fill q i task Hok Hf Hfr) as [Hi Hn Hs _].
  destruct Hok as [Hq Hh].
  destruct (enqueue_fields q i task Hf) as (_ & _ & _ & _ & Hr & Hp & _).
  intros j. split; intros t; rewrite Hs.
  - rewrite Hr, (Bitmap.get_set OCC_WORDS) by (apply Hq || exact Hi).
    destruct (decide (i = j)); [by rewrite bool_decide_eq_true_2|].
    rewrite bool_decide_eq_false_2 by done. apply Hh.
  - rewrite Hp. destruct (decide (i = j)); [|apply Hh].
    intros [= <-]. destruct (place_fields (min_vruntime q) task) as (_ & _ & _ & ->). congruence.
Qed.

(** ** [remove] *)
Lemma remove_fields q i task :
  slot q i = Some task ->
  let q' := (remove i q).2 in
  tasks q' = <[i := None]> (tasks q)
  /\ len q' = Nat.pred (len q)
  /\ nproc q' = (if leader task then Nat.pred (nproc q) else nproc q)
  /\ occupied q' = Bitmap.clear (occupied q) i
  /\ maybe_ready q' = Bitmap.clear (maybe_ready q) i
  /\ parked q' = Bitmap.clear (parked q) i
  /\ pid_index q' = index_remove (pid_index q) (pid task)
  /\ pid_tgid q' = pid_tgid_remove (pid_tgid q) (pid task).
Proof.
  intros Hf. cbv zeta. unfold remove, leader. rewrite Hf.
  destruct (pid _ =? tgid _); repeat split.
Qed.

Lemma remove_slot q i task j :
  rq_base q -> slot q i = Some task ->
  slot (remove i q).2 j = if decide (i = j) then None else slot q j.
Proof.
  intros Hq Hi. destruct (remove_fields q i task Hi) as (Ht & _).
  rewrite <- (slot_insert q i None j (rq_slots q Hq)).
  - unfold slot at 1. by rewrite Ht.
  - eapply slot_lt; eauto with kernel.
Qed.

Lemma index_unfill q q' i task :
  rq_base q -> slot q i = Some task ->
  (forall j, slot q' j = if decide (i = j) then None else slot q j) ->
  exists m, table_ok (index_remove (pid_index q) (pid task)) m /\ index_of q' m.
Proof.
  intros Hq Hi Hs. destruct (rq_index _ Hq) as (m & Hok & Hm).
  assert (forall p v, p <> pid task \/ p = 0 -> m !! p = Some v <->
    p <> 0 /\ exists j t, v = Z.of_nat j /\ slot q' j = Some t /\ pid t = p) as Hne.
  { intros p v Hp. rewrite (Hm p v). setoid_rewrite Hs.
    split; intros (Hp0 & j & t & -> & Hj & <-); (split; [done|]); exists j, t.
    - destruct (decide (i = j)) as [->|]; [|done]. rewrite Hi in Hj. simplify_eq. tauto.
    - by destruct (decide (i = j)). }
  destruct (Z.eq_dec (pid task) 0) as [Hz|Hz].
  - exists m. split; [unfold index_remove; by rewrite Hz|]. intros p v. apply Hne.
    destruct (Z.eq_dec p 0); [by right|left; congruence].
  - exists (delete (pid task) m). split.
    + pose proof (index_room q m (rq_slots q Hq) Hm) as Hr. by apply (pt_remove (o := index_ops)).
    + intros p v. destruct (Z.eq_dec (pid task) p) as [<-|Hp].
      * rewrite lookup_delete_eq. split; [done|]. intros (_ & j & t & -> & Hj & He). rewrite Hs in Hj.
        destruct (decide (i = j)); [done|]. exfalso. by assert (i = j) by (by eapply (pids_distinct q)).
      * rewrite lookup_delete_ne by done. apply Hne. by left.
Qed.

Lemma tgids_unfill q q' i task :
  rq_base q -> slot q i = Some task ->
  (forall j, slot q' j = if decide (i = j) then None else slot q j) ->
  exists m, table_ok (pid_tgid_remove (pid_tgid q) (pid task)) m /\ tgids_of q' m.
Proof.
  intros Hq Hi Hs. destruct (rq_tgids _ Hq) as (m & Hok & Hm).
  assert (forall p v, p <> pid task \/ p = 0 -> m !! p = Some v <->
    p <> 0 /\ exists j t, slot q' j = Some t /\ pid t = p /\ tgid t = v) as Hne.
  { intros p v Hp. rewrite (Hm p v). setoid_rewrite Hs.
    split; intros (Hp0 & j & t & Hj & <- & <-); (split; [done|]); exists j, t.
    - destruct (decide (i = j)) as [->|]; [|done]. rewrite Hi in Hj. simplify_eq. tauto.
    - by destruct (decide (i = j)). }
  destruct (Z.eq_dec (pid task) 0) as [Hz|Hz].
  - exists m. split; [unfold pid_tgid_remove; by rewrite Hz|]. intros p v. apply Hne.
    destruct (Z.eq_dec p 0); [by right|left; congruence].
  - exists (delete (pid task) m). split.
    + pose proof (tgids_room q m (rq_slots q Hq) Hm) as Hr. by apply (pt_remove (o := pid_tgid_ops)).
    + intros p v. destruct (Z.eq_dec (pid task) p) as [<-|Hp].
      * rewrite lookup_delete_eq. split; [done|]. intros (_ & j & t & Hj & He & _). rewrite Hs in Hj.
        destruct (decide (i = j)); [done|]. exfalso. by assert (i = j) by (by eapply (pids_distinct q)).
      * rewrite lookup_delete_ne by done. apply Hne. by left.
Qed.

Lemma remove_preserves q i : rq_ok q -> rq_ok (remove i q).2.
Proof.
  intros [Hq Hh]. destruct (slot q i) as [task|] eqn:Hi; [|unfold remove; by rewrite Hi].
  pose proof (fun j => remove_slot q i task j Hq Hi) as Hs.
  assert (i < MAX_TASKS)%nat as Hlt by (eapply slot_lt; eauto with kernel).
  pose proof (index_unfill _ _ _ _ Hq Hi Hs) as Hm. pose proof (tgids_unfill _ _ _ _ Hq Hi Hs) as Hg.
  destruct (live_split q i (Some task)) as (l1 & l2 & Hl' & Hl); [by apply slot_tasks|].
  destruct (remove_fields q i task Hi) as (E1 & E2 & E3 & E4 & E5 & E6 & E7 & E8).
  set (q' := (remove i q).2) in *. split.
  - split; rewrite ?E2, ?E3, ?E4, ?E5, ?E6, ?E7, ?E8; auto with kernel.
    + by rewrite E1, length_insert, rq_slots.
    + intros j. rewrite Hs, (Bitmap.get_clear OCC_WORDS), rq_occ by (done || apply Hq || exact Hlt).
      destruct (decide (i = j)); [by rewrite bool_decide_eq_true_2|by rewrite (bool_decide_eq_false_2 (i = j))].
    + rewrite (rq_len _ Hq), Hl. unfold live. rewrite E1, Hl'. cbn. rewrite !length_app. cbn. lia.
    + rewrite (rq_nproc _ Hq), Hl. unfold live. rewrite E1, Hl'. cbn. rewrite !List.filter_app. cbn.
      destruct (leader task); rewrite !length_app; cbn; lia.
    + intros j t. rewrite Hs. destruct (decide (i = j)); [done|by eapply rq_task].
  - intros j. split; intros t; rewrite Hs; (destruct (decide (i = j)); [done|]); intros Ht Hr.
    + rewrite E5, (Bitmap.get_clear OCC_WORDS) by (apply Hq || exact Hlt).
      rewrite bool_decide_eq_false_2 by done. by eapply Hh.
    + rewrite E6, (Bitmap.get_clear OCC_WORDS) by (apply Hq || exact Hlt).
      rewrite bool_decide_eq_false_2 by done. by eapply Hh.
Qed.

(** ** The empty queue *)
Lemma slot_new i : slot new i = None.
Proof.
  unfold slot, new. cbn [tasks]. destruct (replicate MAX_TASKS None !! i) as [o|] eqn:E; [|done].
  by apply lookup_replicate in E as [-> _].
Qed.

Lemma live_new : live new = [].
Proof.
  unfold live, new. cbn [tasks]. generalize MAX_TASKS. intros n.
  induction n as [|n IH]; [done|]. cbn. apply IH.
Qed.

Lemma empty_index q : (forall i, slot q i = None) -> index_of q ∅.
Proof.
  intros H p v. rewrite lookup_empty. split; [done|]. intros (_ & i & t & _ & Hi & _). by rewrite H in Hi.
Qed.
Lemma empty_tgids q : (forall i, slot q i = None) -> tgids_of q ∅.
Proof.
  intros H p v. rewrite lookup_empty. split; [done|]. intros (_ & i & t & Hi & _). by rewrite H in Hi.
Qed.

Lemma new_ok : rq_ok new.
Proof.
  split; [split|].
  - apply length_replicate.
  - apply Bitmap.wf_new.
  - apply Bitmap.wf_new.
  - apply Bitmap.wf_new.
  - intros i. rewrite slot_new. apply Bitmap.get_new.
  - by rewrite live_new.
  - by rewrite live_new.
  - exists ∅. split; [apply empty_table_ok|apply empty_index, slot_new].
  - exists ∅. split; [apply empty_table_ok|apply empty_tgids, slot_new].
  - intros i t. by rewrite slot_new.
  - intros i. split; intros t; by rewrite slot_new.
Qed.

(** ** A concrete queue

    Two kernel tasks, pids 7 and 9, admitted to the empty queue. *)
Definition demo_a : Task := new_kernel 7.
Definition demo_b : Task := set_weight (nice_to_weight 5) (new_kernel 9).
Definition demo1 : RunQueue := (enqueue demo_a new).2.
Definition demo : RunQueue := (enqueue demo_b demo1).2.

Lemma demo_tasks_ok : task_ok demo_a /\ task_ok demo_b.
Proof. split; split; vm_compute; split; congruence. Qed.

Lemma demo1_ok : rq_ok demo1.
Proof.
  apply enqueue_preserves; [apply new_ok|apply demo_tasks_ok|reflexivity|].
  intros _ j t. by rewrite slot_new.
Qed.

Lemma demo1_slot j t : slot demo1 j = Some t -> pid t = 7.
Proof.
  destruct (enqueue_fill new 0 demo_a new_ok) as [_ _ Hs _]; [by vm_compute|by intros; rewrite slot_new in *|].
  unfold demo1. rewrite Hs. destruct (decide (0%nat = j)); [|by rewrite slot_new].
  intros [= <-]. by destruct (place_fields (min_vruntime new) demo_a) as (-> & _).
Qed.

Lemma demo_ok : rq_ok demo.
Proof.
  apply enqueue_preserves; [apply demo1_ok|apply demo_tasks_ok|reflexivity|].
  intros _ j t Hj%demo1_slot. cbn. lia.
Qed.

Lemma omap_id_full {A} (l : list (option A)) :
  (length (omap id l) < length l)%nat <-> exists i, l !! i = Some None.
Proof.
  induction l as [|[a|] l IH]; csimpl.
  - split; [lia|]. by intros [i Hi].
  - transitivity (length (omap id l) < length l)%nat; [lia|]. rewrite IH. split; intros [i Hi].
    + by exists (S i).
    + destruct i; [done|]. by exists i.
  - split; [intros _; by exists O|]. intros _.
    enough (length (omap id l) <= length l)%nat by lia. clear.
    induction l as [|[a|] l IH]; csimpl; lia.
Qed.

Lemma free_slot_len q : rq_base q -> is_Some (free_slot q) <-> (len q < MAX_TASKS)%nat.
Proof.
  intros Hq. rewrite (rq_len _ Hq), <- (rq_slots _ Hq). unfold live. rewrite omap_id_full.
  pose proof (free_slot_lookup q Hq) as H. destruct (free_slot q) as [i|]; split.
  - intros _. exists i. destruct H as (Hi & Hn & _). unfold slot in Hn.
    destruct (lookup_lt_is_Some_2 (tasks q) i) as [o Ho]; [by rewrite rq_slots|].
    rewrite Ho in *. by destruct o.
  - done.
  - by intros [].
  - intros [i Hi]. pose proof (lookup_lt_Some _ _ _ Hi) as Hlt. rewrite rq_slots in Hlt by done.
    destruct (H i Hlt) as [t Ht]. unfold slot in Ht. by rewrite Hi in Ht.
Qed.

(** ** Properties *)

(** [enqueue] succeeds exactly when the table has fewer than [MAX_TASKS]
    tasks.  On success the task, placed against the current minimum virtual
    runtime, sits in the lowest free slot, every other slot is unchanged, the
    task is found by its pid, and the queue invariant (occupancy bits, hint
    supersets, counters, pid index and pid-to-tgid table) holds again; on
    failure the queue is unchanged. *)
Theorem enqueue_spec q task :
  rq_ok q -> task_ok task -> wake_scannable task = false -> pid task <> 0 ->
  (forall j t, slot q j = Some t -> pid t <> pid task) ->
  let r := enqueue task q in
  let placed := place (min_vruntime q) task in
  rq_ok r.2
  /\ (r.1 = true <-> (len q < MAX_TASKS)%nat)
  /\ (r.1 = false -> r.2 = q)
  /\ (r.1 = true -> exists i,
        slot q i = None /\ (forall j, (j < i)%nat -> is_Some (slot q j))
        /\ (forall j, slot r.2 j = if decide (i = j) then Some placed else slot q j)
        /\ find_pid r.2 (pid task) = Some placed /\ len r.2 = S (len q)).
Proof.
  intros Hok Ht Hw Hp Hfr. cbv zeta.
  pose proof (enqueue_preserves q task Hok Ht Hw (fun _ => Hfr)) as Hok'. split; [done|].
  rewrite <- (free_slot_len q) by apply Hok.
  destruct (free_slot q) as [i|] eqn:Hf; [|unfold enqueue; rewrite Hf; cbn; repeat split; try done; by intros []].
  pose proof (enqueue_fill q i task Hok Hf (fun _ => Hfr)) as [Hi Hn Hs _].
  assert ((enqueue task q).1 = true) as Htrue by (unfold enqueue; by rewrite Hf).
  rewrite Htrue. split; [done|]. split; [done|]. intros _. exists i.
  pose proof (free_slot_lookup q (proj1 Hok)) as Hlow. rewrite Hf in Hlow.
  destruct (enqueue_fields q i task Hf) as (_ & Hlen & _).
  pose proof (place_fields (min_vruntime q) task) as (Hpp & _).
  repeat split; [done|apply Hlow|done| |done].
  unfold find_pid. rewrite <- Hpp, (find_pid_idx_slot _ i (place (min_vruntime q) task)).
  - cbn. rewrite Hs. by rewrite decide_True.
  - apply Hok'.
  - rewrite Hs. by rewrite decide_True.
  - by rewrite Hpp.
Qed.

Lemma enqueue_spec_witness :
  rq_ok (enqueue demo_b demo1).2 /\ (enqueue demo_b demo1).1 = true.
Proof.
  destruct (enqueue_spec demo1 demo_b demo1_ok (proj2 demo_tasks_ok)) as (H1 & H2 & _).
  - reflexivity.
  - vm_compute. congruence.
  - intros j t Hj%demo1_slot. cbn. lia.
  - split; [exact H1|]. apply H2. apply Nat.ltb_lt. vm_compute. reflexivity.
Defined.

(** [remove] hands out the task of the slot and empties exactly that slot; a
    non-zero pid removed is no longer found, neither in the pid index nor in
    the pid-to-tgid side table, every other task is still found under its pid,
    and the queue invariant holds, in particular the task and process counters
    equal the number of tasks and of thread-group leaders left. *)
Theorem remove_spec q i task :
  rq_ok q -> slot q i = Some task -> pid task <> 0 ->
  let r := remove i q in
  r.1 = Some task /\ rq_ok r.2
  /\ (forall j, slot r.2 j = if decide (i = j) then None else slot q j)
  /\ find_pid r.2 (pid task) = None /\ pid_tgid_get (pid_tgid r.2) (pid task) = None
  /\ (forall p, p <> 0 -> p <> pid task -> find_pid r.2 p = find_pid q p)
  /\ process_count r.2 = length (List.filter leader (live r.2)).
Proof.
  intros Hok Hi Hp. cbv zeta. pose proof (remove_preserves q i Hok) as Hok'.
  pose proof (fun j => remove_slot q i task j (proj1 Hok) Hi) as Hs.
  assert (find_pid (remove i q).2 (pid task) = None) as Hnone.
  { unfold find_pid. pose proof (find_pid_idx_lookup _ (pid task) (proj1 Hok')) as H.
    destruct (find_pid_idx _ (pid task)) as [j|]; [|done]. destruct H as (u & Hj & Hu).
    rewrite Hs in Hj. destruct (decide (i = j)) as [|Hne]; [done|]. destruct Hne.
    eapply (pids_distinct q); [apply Hok|done..]. }
  split; [unfold remove; by rewrite Hi|]. split; [done|]. split; [done|]. split; [done|]. split.
  { rewrite pid_tgid_lookup by (done || apply Hok'). by rewrite Hnone. }
  split; [|by apply (rq_nproc _ (proj1 Hok'))]. intros p Hp0 Hpt. unfold find_pid.
  pose proof (find_pid_idx_lookup q p (proj1 Hok)) as H.
  destruct (find_pid_idx q p) as [j|] eqn:Ej.
  - destruct H as (u & Hj & <-). assert (slot (remove i q).2 j = Some u) as Hj'.
    { rewrite Hs. destruct (decide (i = j)) as [->|]; [|done]. rewrite Hi in Hj. by simplify_eq. }
    rewrite (find_pid_idx_slot _ j u) by (done || apply Hok'). cbn. by rewrite Hj, Hj'.
  - pose proof (find_pid_idx_lookup (remove i q).2 p (proj1 Hok')) as H'.
    destruct (find_pid_idx (remove i q).2 p) as [j|]; [|done].
    destruct H' as (u & Hj & Hu). rewrite Hs in Hj. destruct (decide (i = j)); [done|].
    by destruct (H j u).
Qed.

Lemma remove_spec_witness :
  rq_ok (remove 0 demo).2 /\ find_pid (remove 0 demo).2 7 = None.
Proof.
  destruct (remove_spec demo 0 (place 0 demo_a) demo_ok) as (_ & H1 & _ & H2 & _).
  - vm_compute. reflexivity.
  - vm_compute. congruence.
  - split; [exact H1|exact H2].
Defined.

(** The pid index is authoritative: [find_pid] returns a task iff one with
    that pid is in the table, that task is unique for a non-zero pid, and the
    lock-free [pid_tgid_get] gives the thread group that lookup would. *)
Theorem find_pid_spec q p :
  rq_ok q -> p <> 0 ->
  (forall t, find_pid q p = Some t <-> exists i, slot q i = Some t /\ pid t = p)
  /\ pid_tgid_get (pid_tgid q) p = tgid <$> find_pid q p.
Proof.
  intros [Hq _] Hp. split; [|by apply pid_tgid_lookup]. intros t. unfold find_pid. split.
  - pose proof (find_pid_idx_lookup q p Hq) as H. destruct (find_pid_idx q p) as [i|]; [|done].
    destruct H as (u & Hi & Hu). cbn. rewrite Hi. intros [= ->]. eauto.
  - intros (i & Hi & <-). rewrite (find_pid_idx_slot q i t) by done. done.
Qed.

Lemma find_pid_spec_witness : exists i t, slot demo i = Some t /\ pid t = 9.
Proof.
  assert (exists t, find_pid demo 9 = Some t) as [t Ht] by (vm_compute; eexists; reflexivity).
  destruct (find_pid_spec demo 9 demo_ok) as [H _]; [lia|].
  destruct (proj1 (H t) Ht) as (i & Hi & Hp). exists i, t. split; [exact Hi|exact Hp].
Defined.

(** [min_vruntime], which walks only the slots flagged in [maybe_ready], is
    the minimum virtual runtime over all runnable tasks of the table: no
    runnable task is below it, and a non-zero value is attained by one. *)
Theorem min_vruntime_spec q :
  rq_ok q ->
  (forall i t, slot q i = Some t -> runnable t = true -> min_vruntime q <= vruntime t)
  /\ (min_vruntime q <> 0 ->
      exists i t, slot q i = Some t /\ runnable t = true /\ vruntime t = min_vruntime q).
Proof. intros Hok. destruct (min_vruntime_bound q Hok) as (_ & H1 & H2). split; [done|]. by destruct H2. Qed.

Lemma min_vruntime_spec_witness :
  exists t, slot demo 1 = Some t /\ min_vruntime demo <= vruntime t.
Proof.
  assert (exists t, slot demo 1 = Some t /\ runnable t = true) as (t & Ht & Hr).
  { vm_compute. eexists. split; reflexivity. }
  exists t. split; [exact Ht|]. exact (proj1 (min_vruntime_spec demo demo_ok) 1%nat t Ht Hr).
Defined.
