(* ===== verification/Eevdf.v ===== *)
(** * EEVDF selection: [RunQueue::pick_next] against its specification

    The specification ranges over all slots of the table: among the pickable
    tasks, the eligible one with the earliest virtual deadline, the lowest slot
    on a tie.  [pick_next] visits only hinted slots (or, once per tick, all
    occupied ones, repairing the hints) and works with wrapping 64- and 128-bit
    sums; the theorems show it makes the same choice. *)
From stdpp Require Import sorting.
From S2P Require Import Prelude KLib PidMap Task RunQueue.
Open Scope Z_scope.

(** ** Specification *)
Definition pickable (z : Quiesce) (t : Task) : bool :=
  state_eqb (state t) Ready && negb (bool_decide (is_Some (on_cpu t)))
  && negb (quiesce_filtered z (tgid t) (pid t)).

Definition slot_pickable (z : Quiesce) (q : RunQueue) (i : nat) : bool :=
  match slot q i with Some t => pickable z t | None => false end.
Definition candidates (z : Quiesce) (q : RunQueue) : list nat :=
  List.filter (slot_pickable z q) (seq 0 MAX_TASKS).

Definition sumZ (f : nat -> Z) (l : list nat) : Z := foldr (fun i acc => f i + acc) 0 l.
Definition field (f : Task -> Z) (q : RunQueue) (i : nat) : Z :=
  match slot q i with Some t => f t | None => 0 end.
Definition weighted (t : Task) : Z := weight t * vruntime t.

(** [vruntime_i <= sum (w_j v_j) / sum w_j], over the given slots. *)
Definition eligible (q : RunQueue) (l : list nat) (i : nat) : Prop :=
  field vruntime q i * sumZ (field weight q) l <= sumZ (field weighted q) l.

Record eevdf_choice (z : Quiesce) (q : RunQueue) (i : nat) : Prop := {
  choice_cand : i ∈ candidates z q;
  choice_eligible : eligible q (candidates z q) i;
  choice_earliest : forall j, j ∈ candidates z q -> eligible q (candidates z q) j ->
    field vdeadline q i <= field vdeadline q j;
  choice_first : forall j, j ∈ candidates z q -> eligible q (candidates z q) j -> (j < i)%nat ->
    field vdeadline q i < field vdeadline q j }.

(** ** Sums *)
Lemma sumZ_cons f i l : sumZ f (i :: l) = f i + sumZ f l.
Proof. done. Qed.

Lemma sumZ_app f l1 l2 : sumZ f (l1 ++ l2) = sumZ f l1 + sumZ f l2.
Proof. induction l1 as [|i l1 IH]; cbn; [done|]. unfold sumZ in *. cbn. lia. Qed.

Lemma sumZ_le f g l : (forall i, i ∈ l -> f i <= g i) -> sumZ f l <= sumZ g l.
Proof.
  induction l as [|i l IH]; intros H; [done|]. cbn. unfold sumZ in IH.
  pose proof (H i (list_elem_of_here _ _)). specialize (IH (fun j Hj => H j (list_elem_of_further _ _ _ Hj))). lia.
Qed.

Lemma sumZ_const c l : sumZ (fun _ => c) l = c * Z.of_nat (length l).
Proof. induction l as [|i l IH]; cbn; [lia|]. unfold sumZ in IH. lia. Qed.

Lemma sumZ_mul c f l : sumZ (fun i => f i * c) l = sumZ f l * c.
Proof. induction l as [|i l IH]; cbn; [lia|]. unfold sumZ in *. lia. Qed.

Lemma sumZ_pos f l : (forall i, i ∈ l -> 0 < f i) -> l <> [] -> 0 < sumZ f l.
Proof.
  intros H Hl. destruct l as [|i l]; [done|]. cbn. fold (sumZ f l).
  assert (sumZ (fun _ => 0) l <= sumZ f l).
  { apply sumZ_le. intros j Hj. specialize (H j (list_elem_of_further _ _ _ Hj)). lia. }
  rewrite sumZ_const in *. specialize (H i (list_elem_of_here _ _)). lia.
Qed.

Lemma filter_filter_sub (f g : nat -> bool) l :
  (forall i, i ∈ l -> f i = true -> g i = true) -> List.filter f (List.filter g l) = List.filter f l.
Proof.
  induction l as [|i l IH]; intros H; [done|]. cbn.
  assert (forall j, j ∈ l -> f j = true -> g j = true) as H' by (intros; apply H; [by right|done]).
  specialize (H i (list_elem_of_here _ _)). destruct (g i); cbn; rewrite IH by done; [done|].
  destruct (f i); [|done]. by specialize (H eq_refl).
Qed.

(** ** First minimum of a fold

    The shape of the second pass: keep the first element with the smallest key
    among those satisfying [p]. *)
Section first_min.
Context (p : nat -> bool) (key : nat -> Z).

Definition best_step (best : option (nat * Z)) (i : nat) : option (nat * Z) :=
  if p i && match best with None => true | Some (_, d) => key i <? d end
  then Some (i, key i) else best.

Definition is_first_min (l : list nat) (r : option (nat * Z)) : Prop :=
  match r with
  | None => forall i, i ∈ l -> p i = false
  | Some (i, d) => d = key i /\ p i = true /\ exists l1 l2, l = l1 ++ i :: l2
      /\ (forall j, j ∈ l1 -> p j = true -> key i < key j)
      /\ (forall j, j ∈ l2 -> p j = true -> key i <= key j)
  end.

Lemma first_min_snoc l r i : is_first_min l r -> is_first_min (l ++ [i]) (best_step r i).
Proof.
  unfold best_step. destruct r as [[b d]|]; cbn.
  - intros (-> & Hb & l1 & l2 & -> & H1 & H2). destruct (p i && (key i <? key b)) eqn:E.
    + bool_to_prop. split; [done|]. split; [done|]. exists (l1 ++ b :: l2), [].
      split; [done|]. split; [|by intros ? ?%elem_of_nil].
      intros j Hj Hpj. rewrite elem_of_app, elem_of_cons in Hj.
      destruct Hj as [Hj|[->|Hj]]; [specialize (H1 j Hj Hpj); lia|lia|specialize (H2 j Hj Hpj); lia].
    + split; [done|]. split; [done|]. exists l1, (l2 ++ [i]). split; [by rewrite <- app_assoc|].
      split; [done|]. intros j Hj Hpj. rewrite elem_of_app, list_elem_of_singleton in Hj.
      destruct Hj as [Hj| ->]; [auto|]. rewrite Hpj in E. cbn in E. bool_to_prop. lia.
  - intros H. rewrite andb_true_r. destruct (p i) eqn:E.
    + split; [done|]. split; [done|]. exists l, []. split; [done|]. split; [|by intros ? ?%elem_of_nil].
      intros j Hj Hpj. by rewrite (H j Hj) in Hpj.
    + intros j Hj. rewrite elem_of_app, list_elem_of_singleton in Hj. destruct Hj as [Hj| ->]; auto.
Qed.

Lemma first_min_fold l : is_first_min l (foldl best_step None l).
Proof.
  induction l as [|i l IH] using rev_ind; [by intros ? ?%elem_of_nil|].
  rewrite foldl_app. cbn. by apply first_min_snoc.
Qed.
End first_min.

(** ** First pass *)
Lemma pick_visit_core full z s i : same_core (pq s) (pq (pick_visit full z s i)).
Proof. unfold pick_visit. repeat case_match; by split. Qed.

Lemma pick_visit_base full z s i : rq_base (pq s) -> rq_base (pq (pick_visit full z s i)).
Proof.
  intros H. unfold pick_visit. destruct (slot (pq s) i) as [t|]; [|done].
  repeat case_match; cbn [pq]; auto 10 with kernel.
Qed.

(** One visit keeps the hints of every slot, and a visit of a full scan
    establishes those of the visited slot. *)
Lemma pick_visit_ready full z s i j :
  rq_base (pq s) -> ready_hint (pq s) j \/ (full = true /\ i = j) ->
  ready_hint (pq (pick_visit full z s i)) j.
Proof.
  intros Hq Hj u. rewrite (same_core_slot _ _ j (pick_visit_core full z s i)). intros Hu Hr.
  unfold pick_visit. destruct (slot (pq s) i) as [t|] eqn:Hi.
  2:{ destruct Hj as [Hj|[_ ->]]; [by apply (Hj u)|congruence]. }
  assert (i < MAX_TASKS)%nat as Hlt by (eapply slot_lt; eauto with kernel).
  set (q1 := if full && _ && _ then park i (pq s) else pq s).
  assert (rq_base q1) as Hq1 by (unfold q1; case_match; auto with kernel).
  assert (maybe_ready q1 = maybe_ready (pq s)) as E1 by (unfold q1; by case_match).
  assert (i <> j -> Bitmap.get (maybe_ready (pq s)) j = true) as Hne.
  { intros Hij. destruct Hj as [Hj|[_ ?]]; [by apply (Hj u)|done]. }
  assert (i = j -> full = false -> Bitmap.get (maybe_ready q1) j = true) as Hold.
  { intros -> ->. rewrite E1. destruct Hj as [Hj|[? _]]; [by apply (Hj u)|done]. }
  assert (forall q2, (q2 = if full && negb (Bitmap.get (maybe_ready q1) i) then touch i q1 else q1) ->
            Bitmap.get (maybe_ready q2) j = true) as Htouch.
  { intros q2 ->. destruct (decide (i = j)) as [->|Hij].
    - destruct full; cbn [andb]; [|auto]. destruct (Bitmap.get (maybe_ready q1) j) eqn:E; cbn [negb]; [done|].
      rewrite get_touch, bool_decide_eq_true_2 by done. done.
    - case_match; [rewrite get_touch by done|]; rewrite E1, Hne by done; auto using orb_true_r. }
  assert (runnable t = false -> Bitmap.get (maybe_ready (untouch i q1)) j = true) as Huntouch.
  { intros Hnr. rewrite get_untouch, E1 by done. destruct (decide (i = j)) as [->|Hij].
    - rewrite Hi in Hu. simplify_eq. congruence.
    - rewrite bool_decide_eq_false_2 by done. cbn. auto. }
  unfold runnable in Huntouch. destruct (state_eqb (state t) Ready); cbn [negb orb] in *.
  - destruct (bool_decide _ || _); cbn [pq]; by apply Htouch.
  - destruct (state_eqb (state t) Running); cbn [negb pq]; [by apply Htouch|by apply Huntouch].
Qed.

Lemma pick_visit_parked full z s i j :
  rq_base (pq s) -> parked_hint (pq s) j \/ (full = true /\ i = j) ->
  parked_hint (pq (pick_visit full z s i)) j.
Proof.
  intros Hq Hj u. rewrite (same_core_slot _ _ j (pick_visit_core full z s i)). intros Hu Hw.
  unfold pick_visit. destruct (slot (pq s) i) as [t|] eqn:Hi.
  2:{ destruct Hj as [Hj|[_ ->]]; [by apply (Hj u)|congruence]. }
  assert (i < MAX_TASKS)%nat as Hlt by (eapply slot_lt; eauto with kernel).
  set (q1 := if full && _ && _ then park i (pq s) else pq s).
  enough (Bitmap.get (parked q1) j = true) by (repeat case_match; done).
  unfold q1. destruct (decide (i = j)) as [->|Hij].
  - rewrite Hi in Hu. simplify_eq. rewrite Hw, andb_true_r. destruct full; cbn [andb].
    + destruct (Bitmap.get (parked (pq s)) j) eqn:E; cbn [negb]; [done|].
      by rewrite get_park, bool_decide_eq_true_2.
    + destruct Hj as [Hj|[? _]]; [by apply (Hj u)|done].
  - destruct Hj as [Hj|[_ ?]]; [|done].
    case_match; [rewrite get_park by done|]; rewrite (Hj u) by done; auto using orb_true_r.
Qed.

Lemma pick_fold_hints full z L s :
  rq_base (pq s) ->
  let s' := foldl (pick_visit full z) s L in
  same_core (pq s) (pq s') /\ rq_base (pq s')
  /\ (forall j, ready_hint (pq s) j \/ (full = true /\ j ∈ L) -> ready_hint (pq s') j)
  /\ (forall j, parked_hint (pq s) j \/ (full = true /\ j ∈ L) -> parked_hint (pq s') j).
Proof.
  cbv zeta. revert s. induction L as [|i L IH]; intros s Hq; cbn [foldl].
  { split; [by split|]. split; [done|].
    split; (intros j [H|[_ H]]; [done|by apply elem_of_nil in H]). }
  destruct (IH _ (pick_visit_base full z s i Hq)) as (H1 & H2 & H3 & H4).
  split; [etrans; [apply pick_visit_core|exact H1]|]. split; [done|].
  split; intros j [Hj|[Hf [->|Hj]%elem_of_cons]].
  - apply H3. left. apply pick_visit_ready; auto.
  - apply H3. left. apply pick_visit_ready; auto.
  - apply H3. auto.
  - apply H4. left. apply pick_visit_parked; auto.
  - apply H4. left. apply pick_visit_parked; auto.
  - apply H4. auto.
Qed.

(** What a visit adds to the accumulators. *)
Lemma pick_visit_acc full z s i :
  let s' := pick_visit full z s i in
  match slot (pq s) i with
  | Some t =>
      if pickable z t
      then sum_w s' = wrap64 (sum_w s + weight t)
           /\ sum_wv s' = wrap128 (sum_wv s + wrap128 (weight t * vruntime t))
           /\ cand s' = cand s ++ [i]
      else sum_w s' = sum_w s /\ sum_wv s' = sum_wv s /\ cand s' = cand s
  | None => s' = s
  end.
Proof.
  cbv zeta. unfold pick_visit, pickable. destruct (slot (pq s) i) as [t|]; [|done].
  destruct (state_eqb (state t) Ready); cbn [negb andb]; [|done].
  destruct (bool_decide (is_Some (on_cpu t))), (quiesce_filtered z (tgid t) (pid t)); done.
Qed.

Lemma wrap_small n x : 0 <= x < 2 ^ n -> x mod 2 ^ n = x.
Proof. apply Z.mod_small. Qed.

Lemma pick_fold_acc full z q L s :
  rq_base (pq s) -> (forall i, slot (pq s) i = slot q i) ->
  (forall i t, slot q i = Some t -> task_ok t) ->
  0 <= sum_w s -> 0 <= sum_wv s ->
  let P := List.filter (slot_pickable z q) L in
  sum_w s + sumZ (field weight q) P < 2 ^ 64 ->
  sum_wv s + sumZ (field weighted q) P < 2 ^ 128 ->
  let s' := foldl (pick_visit full z) s L in
  sum_w s' = sum_w s + sumZ (field weight q) P
  /\ sum_wv s' = sum_wv s + sumZ (field weighted q) P
  /\ cand s' = cand s ++ P.
Proof.
  cbv zeta. intros Hb Hs Hok. revert s Hb Hs.
  assert (forall l, 0 <= sumZ (field weight q) l /\ 0 <= sumZ (field weighted q) l) as Hnn.
  { intros l. split; (etrans; [|apply (sumZ_le (fun _ => 0))]; [rewrite sumZ_const; lia|]); intros i _; unfold field;
      destruct (slot q i) as [t|] eqn:E; try lia; destruct (Hok i t E) as [_ _ Hw [Hv _] _];
      unfold weighted; nia. }
  induction L as [|i L IH]; intros s Hb Hs Hw Hwv; cbn [List.filter foldl].
  { intros _ _. cbn. rewrite app_nil_r. split; [lia|]. split; [lia|done]. }
  pose proof (pick_visit_acc full z s i) as Ha. cbv zeta in Ha.
  assert (forall j, slot (pq (pick_visit full z s i)) j = slot q j) as Hs'.
  { intros j. rewrite (same_core_slot _ _ j (pick_visit_core full z s i)). apply Hs. }
  specialize (IH _ (pick_visit_base full z s i Hb) Hs'). rewrite Hs in Ha.
  assert (slot_pickable z q i = match slot q i with Some t => pickable z t | None => false end)
    as -> by done. destruct (slot q i) as [t|] eqn:Hi; [|rewrite Ha in *; by apply IH].
  destruct (pickable z t); [|destruct Ha as (E1 & E2 & E3); rewrite E1, E2, E3 in IH; by apply IH].
  destruct Ha as (E1 & E2 & E3). rewrite !sumZ_cons.
  set (P := List.filter _ _) in *. destruct (Hnn P) as [HP1 HP2].
  replace (field weight q i) with (weight t) by (unfold field; by rewrite Hi).
  replace (field weighted q i) with (weight t * vruntime t) by (unfold field; by rewrite Hi).
  destruct (Hok i t Hi) as [_ _ Hwt [Hv _] _]. intros B1 B2.
  rewrite E1, E2, E3 in IH. unfold wrap64, wrap128 in IH.
  rewrite (wrap_small 64) in IH by lia.
  rewrite (wrap_small 128 (weight t * vruntime t)) in IH by nia.
  rewrite (wrap_small 128) in IH by nia.
  destruct IH as (-> & -> & ->); [lia|nia|lia|lia|]. rewrite <- app_assoc. split; [lia|]. split; [lia|done].
Qed.

(** ** Second pass *)
Definition eligible_w (q : RunQueue) (sw swv : Z) (i : nat) : bool :=
  wrap128 (field vruntime q i * sw) <=? swv.

Lemma pick_best_fold q sw swv l b f :
  (forall i, i ∈ l -> is_Some (slot q i)) ->
  (foldl (pick_best q sw swv) (b, f) l).1
  = foldl (best_step (eligible_w q sw swv) (field vdeadline q)) b l.
Proof.
  revert b f. induction l as [|i l IH]; intros b f H; [done|]. cbn [foldl].
  destruct (H i (list_elem_of_here _ _)) as [t Ht].
  unfold pick_best at 2, best_step at 2, eligible_w at 2, field at 2 3 4. rewrite Ht.
  apply IH. intros j Hj. apply H. by right.
Qed.

Lemma filter_seq_sorted (f : nat -> bool) a n : StronglySorted lt (List.filter f (seq a n)).
Proof.
  revert a. induction n as [|n IH]; intros a; cbn; [constructor|].
  destruct (f a); [|apply IH]. constructor; [apply IH|]. apply Forall_forall.
  intros j Hj. apply list_elem_of_In, List.filter_In in Hj as [Hj _]. apply in_seq in Hj. lia.
Qed.

Lemma candidates_sorted z q : StronglySorted lt (candidates z q).
Proof. unfold candidates. apply filter_seq_sorted. Qed.

Lemma candidates_spec z q i :
  rq_base q -> i ∈ candidates z q <-> exists t, slot q i = Some t /\ pickable z t = true.
Proof.
  intros Hq. unfold candidates. rewrite elem_filter_seq. unfold slot_pickable. split.
  - intros [_ H]. destruct (slot q i); [eauto|done].
  - intros (t & Ht & Hp). rewrite Ht. split; [eapply slot_lt; eauto with kernel|done].
Qed.

Lemma candidates_length z q : (length (candidates z q) <= MAX_TASKS)%nat.
Proof.
  unfold candidates. rewrite <- (length_seq MAX_TASKS 0) at 2. apply List.filter_length_le.
Qed.

(** The sums over the candidates fit their machine types. *)
Lemma candidate_sums z q :
  rq_base q ->
  0 <= sumZ (field weight q) (candidates z q) <= 88761 * 4096
  /\ 0 <= sumZ (field weighted q) (candidates z q) <= 88761 * 4096 * 2 ^ 64.
Proof.
  intros Hq. set (l := candidates z q).
  assert (Z.of_nat (length l) <= 4096) as Hl.
  { pose proof (candidates_length z q) as H. unfold MAX_TASKS in H. fold l in H. lia. }
  assert (forall i, 0 <= field weight q i <= 88761 /\ 0 <= field weighted q i <= 88761 * 2 ^ 64) as Hb.
  { intros i. unfold field, weighted. destruct (slot q i) as [t|] eqn:E; [|lia].
    destruct (rq_task q Hq i t E) as [_ _ Hw [Hv1 Hv2] _]. nia. }
  assert (forall f c, (forall i, 0 <= f i <= c) -> 0 <= sumZ f l <= c * 4096) as Hs.
  { intros f c Hf. pose proof (sumZ_le f (fun _ => c) l (fun i _ => proj2 (Hf i))) as H1.
    pose proof (sumZ_le (fun _ => 0) f l (fun i _ => proj1 (Hf i))) as H0.
    rewrite sumZ_const in H1, H0. specialize (Hf O). nia. }
  split; [apply Hs; intros; apply Hb|].
  pose proof (Hs (field weighted q) (88761 * 2 ^ 64) (fun i => proj2 (Hb i))). lia.
Qed.

(** The wrapping comparison of the code decides eligibility. *)
Lemma eligible_w_spec z q i :
  rq_base q ->
  eligible_w q (sumZ (field weight q) (candidates z q)) (sumZ (field weighted q) (candidates z q)) i = true
  <-> eligible q (candidates z q) i.
Proof.
  intros Hq. unfold eligible_w, eligible. rewrite Z.leb_le.
  destruct (candidate_sums z q Hq) as [Hw _]. unfold wrap128. rewrite wrap_small; [done|].
  unfold field at 1 3. destruct (slot q i) as [t|] eqn:E; [|lia].
  destruct (rq_task q Hq i t E) as [_ _ _ [Hv1 Hv2] _]. nia.
Qed.

(** A candidate of minimum virtual runtime is eligible. *)
Lemma some_eligible q l :
  (forall i, i ∈ l -> 0 <= field weight q i /\ field weighted q i = field weight q i * field vruntime q i) ->
  l <> [] -> exists i, i ∈ l /\ eligible q l i.
Proof.
  intros Hw Hl. pose proof (first_min_fold (fun _ => true) (field vruntime q) l) as H.
  destruct (foldl _ None l) as [[i d]|].
  - destruct H as (_ & _ & l1 & l2 & -> & H1 & H2). exists i.
    split; [apply elem_of_app; right; left|]. unfold eligible. rewrite Z.mul_comm, <- sumZ_mul.
    apply sumZ_le. intros j Hj. destruct (Hw j Hj) as [Hwj ->].
    assert (field vruntime q i <= field vruntime q j); [|nia].
    rewrite elem_of_app, elem_of_cons in Hj. destruct Hj as [Hj|[->|Hj]]; [|lia|by apply H2].
    specialize (H1 j Hj eq_refl). lia.
  - destruct l as [|i l]; [done|]. by specialize (H i (list_elem_of_here _ _)).
Qed.

Lemma field_weight_candidate z q i :
  rq_base q -> i ∈ candidates z q ->
  0 < field weight q i /\ field weighted q i = field weight q i * field vruntime q i.
Proof.
  intros Hq (t & Ht & _)%candidates_spec; [|done]. unfold field. rewrite Ht. split; [|done].
  apply (rq_task q Hq i t Ht).
Qed.

(** The second pass over the candidates yields the EEVDF choice. *)
Lemma second_pass z q :
  rq_base q -> candidates z q <> [] ->
  let l := candidates z q in
  let '(best, fallback) :=
    foldl (pick_best q (sumZ (field weight q) l) (sumZ (field weighted q) l)) (None, None) l in
  exists i d, best = Some (i, d) /\ eevdf_choice z q i.
Proof.
  intros Hq Hne. cbv zeta. set (l := candidates z q) in *.
  pose proof (pick_best_fold q (sumZ (field weight q) l) (sumZ (field weighted q) l) l None None) as Hf.
  destruct (foldl (pick_best _ _ _) _ _) as [best fallback]. cbn [fst] in Hf. rewrite Hf; clear Hf.
  2:{ intros i (t & Ht & _)%candidates_spec; [by exists t|done]. }
  pose proof (first_min_fold (eligible_w q (sumZ (field weight q) l) (sumZ (field weighted q) l))
    (field vdeadline q) l) as Hm. destruct (foldl (best_step _ _) None l) as [[i d]|].
  - destruct Hm as (_ & He & l1 & l2 & Hl & H1 & H2). exists i, d. split; [done|].
    assert (forall j, j ∈ l -> eligible q l j -> j ∈ l1 -> field vdeadline q i < field vdeadline q j) as H1'.
    { intros j _ Hj Hin. apply H1; [done|]. by apply eligible_w_spec. }
    split.
    + fold l. rewrite Hl, elem_of_app. right. left.
    + by apply eligible_w_spec.
    + fold l. intros j Hj Hje. pose proof Hj as Hj'. rewrite Hl, elem_of_app, elem_of_cons in Hj'.
      destruct Hj' as [Hj'|[->|Hj']]; [|lia|].
      * specialize (H1' j Hj Hje Hj'). lia.
      * apply H2; [done|]. by apply eligible_w_spec.
    + fold l. intros j Hj Hje Hlt. apply H1'; [done..|]. pose proof Hj as Hj'.
      rewrite Hl, elem_of_app, elem_of_cons in Hj'. destruct Hj' as [Hj'|[->|Hj']]; [done|lia|].
      pose proof (candidates_sorted z q) as Hs. fold l in Hs. rewrite Hl in Hs.
      apply StronglySorted_app_1_r in Hs. apply StronglySorted_inv in Hs as [_ Hs].
      rewrite Forall_forall in Hs. specialize (Hs j Hj'). lia.
  - destruct (some_eligible q l) as (i & Hi & He); [|done|].
    { intros i Hi. destruct (field_weight_candidate z q i Hq Hi). split; [lia|done]. }
    apply eligible_w_spec in He; [|done]. fold l in He. by rewrite (Hm i Hi) in He.
Qed.

(** ** The whole pick *)
Lemma field_core q q' f i : same_core q q' -> field f q' i = field f q i.
Proof. intros H. unfold field. by rewrite (same_core_slot _ _ i H). Qed.

Lemma sumZ_core q q' f l : same_core q q' -> sumZ (field f q') l = sumZ (field f q) l.
Proof.
  intros H. induction l as [|i l IH]; [done|]. by rewrite !sumZ_cons, IH, (field_core q q').
Qed.

Lemma candidates_core z q q' : same_core q q' -> candidates z q' = candidates z q.
Proof.
  intros H. unfold candidates. apply filter_bits_ext. intros i _. unfold slot_pickable.
  by rewrite (same_core_slot _ _ i H).
Qed.

Lemma choice_core z q q' i : same_core q q' -> eevdf_choice z q' i -> eevdf_choice z q i.
Proof.
  intros Hc [H1 H2 H3 H4]. unfold eligible in *. rewrite (candidates_core z q q' Hc) in *.
  rewrite !(sumZ_core q q') in * by done.
  split; unfold eligible; [done| |intros j|intros j].
  - by rewrite <- (field_core q q').
  - rewrite <- !(field_core q q') by done. apply H3.
  - rewrite <- !(field_core q q') by done. apply H4.
Qed.

Lemma pick_bits_frame full z s i w :
  w <> (i / 64)%nat -> pick_bits full (pick_visit full z s i) w = pick_bits full s w.
Proof.
  intros Hw. unfold pick_bits, ready_bits. rewrite (core_occ _ _ (pick_visit_core full z s i)).
  assert (word_at (maybe_ready (pq (pick_visit full z s i))) w = word_at (maybe_ready (pq s)) w) as ->; [|done].
  unfold pick_visit. repeat case_match; cbn [pq]; try done;
    rq_fields; unfold Bitmap.set, Bitmap.clear; by rewrite word_at_insert_ne.
Qed.

(** The slots visited by the first pass, and the pickable ones among them. *)
Definition visited (full : bool) (q : RunQueue) : list nat :=
  words_slots (fun w => pick_bits full (mkPick q 0 0 []) w) OCC_WORDS.

Lemma first_pass_visits full z q :
  rq_base q ->
  scan_words (pick_bits full) (pick_visit full z) OCC_WORDS (mkPick q 0 0 [])
  = foldl (pick_visit full z) (mkPick q 0 0 []) (visited full q).
Proof.
  intros Hq. apply (scan_words_snapshot (fun s => rq_base (pq s))); [apply pick_bits_frame| | |done].
  - intros s i. apply pick_visit_base.
  - intros s w Hs _. unfold pick_bits, ready_bits. destruct full.
    + eapply Bitmap.wf_word_any, Hs.
    + apply u64_land_l. eapply Bitmap.wf_word_any, Hs.
Qed.

Lemma visited_pickable full z q :
  rq_base q -> full = true \/ hints_ok q ->
  List.filter (slot_pickable z q) (visited full q) = candidates z q.
Proof.
  intros Hq Hf. unfold visited, pick_bits, candidates. cbn [pq].
  assert (forall i, slot_pickable z q i = true -> exists t, slot q i = Some t /\ runnable t = true) as Hp.
  { intros i. unfold slot_pickable, pickable, runnable. destruct (slot q i) as [t|]; [|done].
    intros H. bool_to_prop. exists t. split; [done|]. rewrite H. done. }
  destruct full.
  - change (fun w => word_at (occupied q) w) with (word_at (occupied q)).
    change (words_slots (word_at (occupied q)) OCC_WORDS) with (live_slots q).
    rewrite live_slots_spec by done. apply filter_filter_sub. intros i _ (t & Ht & _)%Hp.
    by rewrite rq_occ, Ht.
  - destruct Hf as [|Hh]; [done|]. unfold ready_bits. rewrite land_slots by apply Hq.
    apply filter_filter_sub. intros i _ (t & Ht & Hr)%Hp.
    by rewrite rq_occ, Ht, (proj1 (Hh i) t Ht Hr).
Qed.

Lemma stamp_core (c : bool) now q : same_core q (if c then set_last_full_scan now q else q).
Proof. destruct c; by split. Qed.

Lemma stamp_base (c : bool) now q : rq_base q -> rq_base (if c then set_last_full_scan now q else q).
Proof.
  intros Hq. eapply rq_base_core; [done|apply stamp_core| |]; destruct c; rq_fields; auto with kernel.
Qed.

Lemma elem_visited_full q i : rq_base q -> is_Some (slot q i) -> i ∈ visited true q.
Proof. intros Hq Hi. by apply elem_live_slots in Hi. Qed.

Lemma first_pass full z q :
  rq_base q -> full = true \/ hints_ok q ->
  exists s, scan_words (pick_bits full) (pick_visit full z) OCC_WORDS (mkPick q 0 0 []) = s
    /\ same_core q (pq s) /\ rq_ok (pq s)
    /\ sum_w s = sumZ (field weight (pq s)) (candidates z (pq s))
    /\ sum_wv s = sumZ (field weighted (pq s)) (candidates z (pq s))
    /\ cand s = candidates z (pq s).
Proof.
  intros Hq Hf. eexists. split; [by apply first_pass_visits|].
  destruct (pick_fold_hints full z (visited full q) (mkPick q 0 0 []) Hq) as (Hc & Hq1 & Hr & Hp).
  destruct (candidate_sums z q Hq) as [B1 B2].
  destruct (pick_fold_acc full z q (visited full q) (mkPick q 0 0 [])) as (E1 & E2 & E3);
    cbn [pq sum_w sum_wv cand];
    [done|done|by apply rq_task|done|done|rewrite visited_pickable by done; lia..|].
  cbn [pq sum_w sum_wv cand app] in *. set (s := foldl _ _ _) in *. clearbody s.
  rewrite visited_pickable in E1, E2, E3 by done. rewrite Z.add_0_l in E1, E2.
  rewrite (candidates_core z _ _ Hc), !(sumZ_core _ _ _ _ Hc).
  split; [done|]. split; [|done]. split; [done|].
  intros i. split; intros t; rewrite (same_core_slot _ _ i Hc); intros Ht Hx.
  - eapply Hr; [|by rewrite (same_core_slot _ _ i Hc)|done].
    destruct Hf as [->|Hh]; [right; split; [done|]; by apply elem_visited_full|left; apply Hh].
  - eapply Hp; [|by rewrite (same_core_slot _ _ i Hc)|done].
    destruct Hf as [->|Hh]; [right; split; [done|]; by apply elem_visited_full|left; apply Hh].
Qed.

Lemma empty_queue q : rq_base q -> len q = O -> forall i t, slot q i <> Some t.
Proof.
  intros Hq H0 i t Hi. rewrite (rq_len q Hq) in H0. apply nil_length_inv in H0.
  assert (t ∈ live q) as Hin by (apply live_slot; eauto). rewrite H0 in Hin. by apply elem_of_nil in Hin.
Qed.

Lemma no_candidates z q : rq_base q -> (forall i t, slot q i <> Some t) -> candidates z q = [].
Proof.
  intros Hq Hn. destruct (candidates z q) as [|i l] eqn:E; [done|].
  assert (i ∈ candidates z q) as Hi by (rewrite E; left).
  apply candidates_spec in Hi as (t & Ht & _); [|done]. by apply Hn in Ht.
Qed.

Lemma zero_weight z q :
  rq_base q -> sumZ (field weight q) (candidates z q) = 0 -> candidates z q = [].
Proof.
  intros Hq H0. pose proof (fun i Hi => proj1 (field_weight_candidate z q i Hq Hi)) as Hpos.
  pose proof (sumZ_pos (field weight q) (candidates z q) Hpos) as Hs.
  destruct (candidates z q); [done|]. specialize (Hs ltac:(done)). lia.
Qed.

Lemma pick_next_main now z q :
  rq_base q -> hints_ok q \/ now <> last_full_scan q ->
  let r := pick_next now z q in
  rq_ok r.2 /\ same_core q r.2
  /\ match r.1 with None => candidates z q = [] | Some i => eevdf_choice z q i end.
Proof.
  intros Hq Hf. cbv zeta. unfold pick_next. destruct (Nat.eqb_spec (len q) 0) as [H0|H0].
  { pose proof (empty_queue q Hq H0) as Hn. cbn [fst snd].
    split; [split; [done|]; intros i; split; intros t Ht; by apply Hn in Ht|].
    split; [by split|]. by apply no_candidates. }
  set (full := negb (now =? last_full_scan q)). set (q0 := if full then _ else _).
  pose proof (stamp_core full now q : same_core q q0) as Hc0.
  pose proof (stamp_base full now q Hq : rq_base q0) as Hq0.
  assert (full = true \/ hints_ok q0) as Hf0.
  { unfold full, q0. destruct (Z.eqb_spec now (last_full_scan q)); [|by left].
    destruct Hf as [Hh|]; [|done]. right. exact Hh. }
  clearbody full q0. destruct (first_pass full z q0 Hq0 Hf0) as (s & -> & Hc1 & Hok & E1 & E2 & E3).
  assert (same_core q (pq s)) as Hc by (by etrans).
  destruct (Z.eqb_spec (sum_w s) 0) as [Hz|Hz].
  - cbn [fst snd]. split; [done|]. split; [done|]. rewrite <- (candidates_core z _ _ Hc).
    apply zero_weight; [apply Hok|congruence].
  - pose proof (second_pass z (pq s) (proj1 Hok)) as H2. cbv zeta in H2. rewrite E1, E2, E3.
    destruct (foldl (pick_best _ _ _) _ _) as [best fallback]. destruct H2 as (i & d & -> & Hi).
    { intros E. rewrite E1, E in Hz. done. }
    cbn [fst snd fmap option_fmap option_map]. split; [done|]. split; [done|]. by eapply choice_core.
Qed.

Lemma choice_unique z q i j : eevdf_choice z q i -> eevdf_choice z q j -> i = j.
Proof.
  intros [Hi1 Hi2 Hi3 Hi4] [Hj1 Hj2 Hj3 Hj4].
  destruct (Nat.lt_trichotomy i j) as [H|[H|H]]; [|done|].
  - pose proof (Hj4 i Hi1 Hi2 H). pose proof (Hi3 j Hj1 Hj2). lia.
  - pose proof (Hi4 j Hj1 Hj2 H). pose proof (Hj3 i Hi1 Hi2). lia.
Qed.

Lemma choice_iff z q (r : option nat) :
  rq_base q -> match r with None => candidates z q = [] | Some i => eevdf_choice z q i end ->
  (forall i, r = Some i <-> eevdf_choice z q i) /\ (r = None <-> candidates z q = []).
Proof.
  intros Hq H. destruct r as [i|]; split.
  - intros j. split; [by intros [= <-]|]. intros Hj. f_equal. by eapply choice_unique.
  - split; [done|]. intros E. destruct H as [H _ _ _]. rewrite E in H. by apply elem_of_nil in H.
  - intros j. split; [done|]. intros [Hj _ _ _]. rewrite H in Hj. by apply elem_of_nil in Hj.
  - done.
Qed.

(** ** Properties *)

(** C1: Under the queue invariant [pick_next] is exactly EEVDF over the whole
    table, although it visits only hinted slots: it returns slot [i] iff [i]
    holds a pickable task (Ready, not on a CPU, not quiesced) whose virtual
    runtime is at most the weighted average, with the earliest virtual deadline
    among those and the lowest slot on a tie; it returns [None] iff no task is
    pickable (so [fallback] is never used); no machine sum or product wraps;
    no task is changed and the invariant is kept. *)
Theorem pick_next_eevdf now z q :
  rq_ok q ->
  let r := pick_next now z q in
  (forall i, r.1 = Some i <-> eevdf_choice z q i)
  /\ (r.1 = None <-> candidates z q = [])
  /\ tasks r.2 = tasks q /\ rq_ok r.2.
Proof.
  intros [Hq Hh]. destruct (pick_next_main now z q Hq (or_introl Hh)) as (Hok & Hc & Hr). cbv zeta.
  destruct (choice_iff z q _ Hq Hr) as [H1 H2].
  split; [done|]. split; [done|]. split; [apply Hc|done].
Qed.

Definition no_quiesce : Quiesce := mkQuiesce 0 0.

Lemma pick_next_eevdf_witness : eevdf_choice no_quiesce demo 0.
Proof.
  apply (pick_next_eevdf 0 no_quiesce demo demo_ok). vm_compute. reflexivity.
Defined.

(** The once-per-tick full scan repairs the hint sets: started from a queue
    whose [maybe_ready] and [parked] bits may have lost tasks, a pick on a new
    tick makes the EEVDF choice over the whole table and leaves both hint sets
    supersets of the tasks they must contain, so a missed hint costs at most
    one tick. *)
Theorem pick_next_repairs now z q :
  rq_base q -> now <> last_full_scan q ->
  let r := pick_next now z q in
  (forall i, r.1 = Some i <-> eevdf_choice z q i)
  /\ (r.1 = None <-> candidates z q = []) /\ hints_ok r.2 /\ rq_base r.2.
Proof.
  intros Hq Hn. destruct (pick_next_main now z q Hq (or_intror Hn)) as ([Hok Hh] & Hc & Hr). cbv zeta.
  destruct (choice_iff z q _ Hq Hr) as [H1 H2].
  split; [done|]. split; [done|]. split; [exact Hh|exact Hok].
Qed.

(** A queue that lost the hint of its task in slot 0. *)
Definition demo_broken : RunQueue := untouch 0 demo.

Lemma pick_next_repairs_witness :
  hints_ok (pick_next 1 no_quiesce demo_broken).2 /\ Bitmap.get (maybe_ready demo_broken) 0 = false.
Proof.
  destruct (pick_next_repairs 1 no_quiesce demo_broken) as (_ & _ & H & _).
  - apply base_untouch, demo_ok.
  - vm_compute. congruence.
  - split; [exact H|]. vm_compute. reflexivity.
Defined.
