(* ===== verification/Wake.v ===== *)
(** * Blocking and waking: no wake-up is lost

    The wake scans of [src/sched/src/runqueue.rs] visit only the slots flagged
    in [parked].  Under the queue invariant each of them is equal to a map over
    all tasks of the table; the theorems at the end state this for every scan
    and compose parking with waking. *)
From S2P Require Import Prelude KLib PidMap Task RunQueue.

(** ** A scan as a map over the tasks *)
Lemma foldl_filter_skip {A} (F : A -> nat -> A) (f : nat -> bool) l a :
  (forall i, i ∈ l -> f i = false -> forall a, F a i = a) ->
  foldl F a (List.filter f l) = foldl F a l.
Proof.
  revert a. induction l as [|i l IH]; intros a H; [done|]. cbn [List.filter foldl].
  assert (forall j, j ∈ l -> f j = false -> forall a, F a j = a) as H' by (intros j Hj; apply H; by right).
  destruct (f i) eqn:E; cbn [foldl]; rewrite IH by done; [done|].
  by rewrite (H i (list_elem_of_here _ _) E).
Qed.

Lemma foldl_omap {A B C} (h : A -> C -> A) (s : B -> option C) l a :
  foldl h a (omap s l) = foldl (fun a i => match s i with Some t => h a t | None => a end) a l.
Proof.
  revert a. induction l as [|i l IH]; intros a; [done|]. csimpl. destruct (s i); cbn [foldl]; apply IH.
Qed.

Lemma omap_id_seq {A} (l : list (option A)) :
  omap id l = omap (fun i => mjoin (l !! i)) (seq 0 (length l)).
Proof.
  induction l as [|o l IH]; [done|]. cbn [length seq]. rewrite <- fmap_S_seq. csimpl.
  rewrite omap_fmap, IH. by destruct o.
Qed.

Lemma live_seq q : rq_base q -> live q = omap (slot q) (seq 0 MAX_TASKS).
Proof. intros Hq. unfold live. rewrite omap_id_seq, rq_slots by done. done. Qed.

Lemma count_foldl {A} (p : A -> bool) (l : list A) n :
  foldl (fun n t => if p t then S n else n) n l = (n + length (List.filter p l))%nat.
Proof.
  revert n. induction l as [|t l IH]; intros n; cbn; [lia|]. destruct (p t); cbn; rewrite IH; lia.
Qed.

Lemma parked_slots_spec q :
  rq_base q ->
  parked_slots q
  = List.filter (fun i => Bitmap.get (parked q) i && Bitmap.get (occupied q) i) (seq 0 MAX_TASKS).
Proof. intros Hq. unfold parked_slots, parked_bits. apply land_slots; apply Hq. Qed.

Section scan.
Context {A : Type} (body : RunQueue * A -> nat -> RunQueue * A)
  (g : Task -> Task) (h : A -> Task -> A).
Hypothesis body_slot : forall q a i j,
  slot (body (q, a) i).1 j = if decide (i = j) then g <$> slot q i else slot q j.
Hypothesis body_acc : forall q a i,
  (body (q, a) i).2 = match slot q i with Some t => h a t | None => a end.
Hypothesis body_ok : forall q a i, rq_ok q -> rq_ok (body (q, a) i).1.

Lemma fold_slots L q a :
  NoDup L ->
  let r := foldl body (q, a) L in
  (forall j, slot r.1 j = if decide (j ∈ L) then g <$> slot q j else slot q j)
  /\ r.2 = foldl (fun a i => match slot q i with Some t => h a t | None => a end) a L
  /\ (rq_ok q -> rq_ok r.1).
Proof.
  cbv zeta. revert q a. induction L as [|i L IH]; intros q a Hnd; cbn [foldl].
  { split; [|done]. intros j. destruct (decide (j ∈ [])) as [H|]; [by apply elem_of_nil in H|done]. }
  apply NoDup_cons in Hnd as [Hi Hnd]. pose proof (body_slot q a i) as Hs. pose proof (body_acc q a i) as Ha.
  pose proof (body_ok q a i) as Ho. destruct (body (q, a) i) as [q1 a1]. cbn [fst snd] in *.
  destruct (IH q1 a1 Hnd) as (H1 & H2 & H3). split; [|split; [|auto]].
  - intros j. rewrite H1, Hs. destruct (decide (j ∈ i :: L)) as [Hin|Hin].
    + apply elem_of_cons in Hin as [->|Hin].
      * rewrite (decide_False (P := i ∈ L)) by done. by rewrite decide_True.
      * rewrite (decide_True (P := j ∈ L)) by done. rewrite decide_False; [done|]. by intros ->.
    + rewrite elem_of_cons in Hin. rewrite !decide_False by naive_solver. done.
  - rewrite H2, Ha. clear -Hi Hs. generalize (match slot q i with Some t => h a t | None => a end).
    induction L as [|k L IHL]; intros b; [done|]. cbn [foldl].
    rewrite Hs, decide_False by (intros ->; apply Hi; left). apply IHL. intros ?. apply Hi. by right.
Qed.

Hypothesis skip : forall t, wake_scannable t = false -> g t = t /\ forall a, h a t = a.

Lemma fold_parked q a :
  rq_ok q ->
  let r := foldl body (q, a) (parked_slots q) in
  (forall j, slot r.1 j = g <$> slot q j) /\ r.2 = foldl h a (live q) /\ rq_ok r.1.
Proof.
  cbv zeta. intros Hok. pose proof Hok as [Hq Hh].
  assert (forall i t, slot q i = Some t -> Bitmap.get (parked q) i && Bitmap.get (occupied q) i = false ->
    wake_scannable t = false) as Hout.
  { intros i t Hi Hb. rewrite (rq_occ q Hq), Hi, bool_decide_eq_true_2, andb_true_r in Hb by eauto.
    destruct (wake_scannable t) eqn:E; [|done]. by rewrite (proj2 (Hh i) t Hi E) in Hb. }
  rewrite parked_slots_spec by done. set (L := List.filter _ _).
  destruct (fold_slots L q a) as (H1 & H2 & H3); [apply NoDup_ListNoDup, List.NoDup_filter, List.seq_NoDup|].
  split; [|split; [|auto]].
  - intros j. rewrite H1. destruct (decide (j ∈ L)) as [|Hj]; [done|].
    destruct (slot q j) as [t|] eqn:E; [|done]. cbn. f_equal. symmetry. apply skip. apply (Hout j); [done|].
    apply not_true_is_false. intros Hb. apply Hj, elem_filter_seq. split; [|done].
    eapply slot_lt; eauto with kernel.
  - rewrite H2, live_seq, foldl_omap by done. apply foldl_filter_skip. intros i _ Hb b.
    destruct (slot q i) as [t|] eqn:E; [|done]. by apply skip, (Hout i t).
Qed.
End scan.

(** A scan that re-reads [parked] at each word visits the same slots. *)
Lemma scan_parked {A} (body : RunQueue * A -> nat -> RunQueue * A) q a :
  (forall s i, occupied (body s i).1 = occupied s.1) ->
  (forall s i w, w <> (i / 64)%nat -> word_at (parked (body s i).1) w = word_at (parked s.1) w) ->
  (forall q a i, rq_ok q -> rq_ok (body (q, a) i).1) ->
  rq_ok q ->
  scan_words (fun s => parked_bits s.1) body OCC_WORDS (q, a) = foldl body (q, a) (parked_slots q).
Proof.
  intros Ho Hp Hok Hq. apply (scan_words_snapshot (fun s => rq_ok s.1)); [| | |done].
  - intros s i w Hw. unfold parked_bits. by rewrite Ho, Hp.
  - intros [q1 a1] i. apply Hok.
  - intros s w [Hs _] _. apply u64_land_l. eapply Bitmap.wf_word_any, Hs.
Qed.

Lemma word_unpark q i w : w <> (i / 64)%nat -> word_at (parked (unpark i q)) w = word_at (parked q) w.
Proof. intros. unfold unpark. rq_fields. unfold Bitmap.clear. by rewrite word_at_insert_ne. Qed.

(** ** Task-level effects *)
Lemma not_scannable_state t : state t <> Blocked -> wake_scannable t = false.
Proof. intros H. unfold wake_scannable, state_eqb. by rewrite bool_decide_eq_false_2. Qed.

Lemma blocked_on_scannable t port :
  is_blocked_on t port = true -> state_eqb (state t) Blocked = true -> wake_scannable t = true.
Proof.
  unfold is_blocked_on, wake_scannable. intros H%bool_decide_eq_true ->. rewrite H.
  by rewrite bool_decide_eq_true_2.
Qed.

(** What waking writes keeps identity and well-formedness, and unparks. *)
Definition wakes (t t' : Task) : Prop :=
  pid t' = pid t /\ tgid t' = tgid t /\ task_ok t' /\ state t' = Ready.

Lemma wakes_place mv t t0 :
  is_u64 mv -> pid t0 = pid t -> tgid t0 = tgid t -> state t0 = Ready -> task_ok t0 ->
  wakes t (place mv t0).
Proof.
  intros Hm Hp Hg Hs Ht. destruct (place_fields mv t0) as (E1 & E2 & E3 & _).
  split; [congruence|]. split; [congruence|]. split; [by apply place_ok|congruence].
Qed.

Lemma wake_task_wakes mv t : is_u64 mv -> task_ok t -> wakes t (wake_task mv t).
Proof. intros Hm [H1 H2 H3 H4 H5]. apply wakes_place; done || by split. Qed.

Lemma wake_due_task_wakes port mv t : is_u64 mv -> task_ok t -> wakes t (wake_due_task port mv t).
Proof.
  intros Hm [H1 H2 H3 H4 H5]. unfold wake_due_task.
  apply wakes_place; [done|..|split]; destruct (is_poll_waiter port t), (is_futex_waiter t); done.
Qed.

Lemma ok_wake q i t t' : rq_ok q -> slot q i = Some t -> wakes t t' -> rq_ok (write_task i t' (touch i q)).
Proof.
  intros Hq Hi (Hp & Hg & Ht & Hs). eapply ok_write; [done..|].
  rewrite not_scannable_state; [done|]. by rewrite Hs.
Qed.

Lemma slot_wake q i t t' j :
  slot q i = Some t ->
  slot (write_task i t' (touch i q)) j = if decide (i = j) then Some t' else slot q j.
Proof. intros Hi. exact (slot_write (touch i q) i t t' j Hi). Qed.

Lemma slot_same q i (o : option Task) j :
  slot q i = o -> slot q j = if decide (i = j) then o else slot q j.
Proof. intros <-. by destruct (decide (i = j)) as [->|]. Qed.

(** ** [unblock_port_tagged] *)
Definition unblocks (port tag : Z) (t : Task) : bool :=
  is_blocked_on t port && state_eqb (state t) Blocked
  && (negb (Z.land (poll_mask t) tag =? 0) || (tag =? POLL_TAG_ALL)).
Definition unblock_map (port tag mv : Z) (t : Task) : Task :=
  if unblocks port tag t then wake_task mv t else t.

Lemma unblocks_scannable port tag t : wake_scannable t = false -> unblocks port tag t = false.
Proof.
  intros H. unfold unblocks. destruct (is_blocked_on t port) eqn:E1, (state_eqb (state t) Blocked) eqn:E2; try done.
  by rewrite (blocked_on_scannable t port) in H.
Qed.

Lemma unblock_visit_cases port tag mv q n i :
  unblock_visit port tag mv (q, n) i
  = match slot q i with
    | None => (q, n)
    | Some t => if negb (wake_scannable t) then (unpark i q, n)
                else if unblocks port tag t then (write_task i (wake_task mv t) (touch i q), S n)
                else (q, n)
    end.
Proof. done. Qed.

Lemma unblock_visit_ok port tag mv q n i :
  is_u64 mv -> rq_ok q -> rq_ok (unblock_visit port tag mv (q, n) i).1.
Proof.
  intros Hm Hq. rewrite unblock_visit_cases. destruct (slot q i) as [t|] eqn:Hi; [|done].
  destruct (wake_scannable t) eqn:Hw; cbn [negb]; [|by eapply hints_unpark].
  destruct (unblocks port tag t); [|done]. eapply ok_wake; [done..|].
  apply wake_task_wakes; [done|]. by eapply rq_task; [apply Hq|].
Qed.

Lemma unblock_scan port tag q :
  rq_ok q ->
  let r := unblock_port_tagged port tag q in
  (forall j, slot r.1 j = unblock_map port tag (min_vruntime q) <$> slot q j)
  /\ r.2 = length (List.filter (unblocks port tag) (live q)) /\ rq_ok r.1.
Proof.
  intros Hq. pose proof (min_vruntime_bound q Hq) as [Hm _]. unfold unblock_port_tagged.
  rewrite scan_parked; [| | |by intros; apply unblock_visit_ok|done].
  - destruct (fold_parked (unblock_visit port tag (min_vruntime q)) (unblock_map port tag (min_vruntime q))
      (fun n t => if unblocks port tag t then S n else n)) with (q := q) (a := O) as (H1 & H2 & H3);
      [| |by intros; apply unblock_visit_ok| |done|].
    + intros q1 n i j. rewrite unblock_visit_cases. destruct (slot q1 i) as [t|] eqn:Hi; cbn;
        [|by apply slot_same]. unfold unblock_map. destruct (wake_scannable t) eqn:Hw; cbn [negb].
      * destruct (unblocks port tag t); [by apply (slot_wake _ _ t)|by apply slot_same].
      * rewrite unblocks_scannable by done. exact (slot_same q1 i (Some t) j Hi).
    + intros q1 n i. rewrite unblock_visit_cases. destruct (slot q1 i) as [t|]; [|done].
      destruct (wake_scannable t) eqn:Hw; cbn [negb]; [by destruct (unblocks port tag t)|].
      by rewrite unblocks_scannable.
    + intros t Hw. unfold unblock_map. by rewrite unblocks_scannable.
    + cbv zeta. rewrite H2, count_foldl. done.
  - intros [q1 n] i. rewrite unblock_visit_cases. by repeat case_match.
  - intros [q1 n] i w Hw. rewrite unblock_visit_cases. repeat case_match; try done. by apply word_unpark.
Qed.

(** ** [wake_all_kwaiters] and [widen_port_masks] *)
Definition is_kwaiter (t : Task) : bool := state_eqb (state t) Blocked && is_blocked_on t KWAIT_CHANNEL.
Definition kwake_map (mv : Z) (t : Task) : Task := if is_kwaiter t then wake_task mv t else t.

Lemma kwaiter_scannable t : wake_scannable t = false -> is_kwaiter t = false.
Proof.
  intros H. unfold is_kwaiter. destruct (state_eqb (state t) Blocked) eqn:E1, (is_blocked_on t KWAIT_CHANNEL) eqn:E2; try done.
  by rewrite (blocked_on_scannable t KWAIT_CHANNEL) in H.
Qed.

Lemma kwake_scan q :
  rq_ok q ->
  let r := wake_all_kwaiters q in
  (forall j, slot r.1 j = kwake_map (min_vruntime q) <$> slot q j)
  /\ r.2 = length (List.filter is_kwaiter (live q)) /\ rq_ok r.1.
Proof.
  intros Hq. pose proof (min_vruntime_bound q Hq) as [Hm _]. unfold wake_all_kwaiters.
  destruct (fold_parked (wake_kwaiters_visit (min_vruntime q)) (kwake_map (min_vruntime q))
    (fun n t => if is_kwaiter t then S n else n)) with (q := q) (a := O) as (H1 & H2 & H3); [..|done|].
  - intros q1 n i j. unfold wake_kwaiters_visit, kwake_map. destruct (slot q1 i) as [t|] eqn:Hi; [|by apply slot_same].
    fold (is_kwaiter t). cbn. destruct (is_kwaiter t); [by apply (slot_wake _ _ t)|by apply slot_same].
  - intros q1 n i. unfold wake_kwaiters_visit. destruct (slot q1 i) as [t|]; [|done].
    fold (is_kwaiter t). by destruct (is_kwaiter t).
  - intros q1 n i Hq1. unfold wake_kwaiters_visit. destruct (slot q1 i) as [t|] eqn:Hi; [|done].
    fold (is_kwaiter t). destruct (is_kwaiter t); [|done]. eapply ok_wake; [done..|].
    apply wake_task_wakes; [done|]. by eapply rq_task; [apply Hq1|].
  - intros t Hw. unfold kwake_map. by rewrite kwaiter_scannable.
  - cbv zeta. rewrite H2, count_foldl. done.
Qed.

Definition widens (port match_tag : Z) (t : Task) : bool :=
  is_blocked_on t port && state_eqb (state t) Blocked && negb (Z.land (poll_mask t) match_tag =? 0).
Definition widen_map (port match_tag add : Z) (t : Task) : Task :=
  if widens port match_tag t then set_poll_mask (Z.lor (poll_mask t) add) t else t.

Lemma ok_set_mask q i t m : rq_ok q -> slot q i = Some t -> rq_ok (write_task i (set_poll_mask m t) q).
Proof.
  intros [Hq Hh] Hi. split.
  - eapply base_write; [done..|]. destruct (rq_task q Hq i t Hi). by split.
  - intros j. split; intros u; rewrite (slot_write q i t) by done; change (maybe_ready (write_task _ _ q)) with (maybe_ready q);
      change (parked (write_task _ _ q)) with (parked q);
      (destruct (decide (i = j)) as [->|]; [intros [= <-]|apply Hh]).
    + exact (proj1 (Hh j) t Hi).
    + exact (proj2 (Hh j) t Hi).
Qed.

Lemma widen_scan port match_tag add q :
  rq_ok q ->
  let r := widen_port_masks port match_tag add q in
  (forall j, slot r j = widen_map port match_tag add <$> slot q j) /\ rq_ok r.
Proof.
  intros Hq. unfold widen_port_masks.
  set (body := fun (s : RunQueue * unit) i => (widen_visit port match_tag add s.1 i, tt)).
  assert (forall L q0, foldl (widen_visit port match_tag add) q0 L = (foldl body (q0, tt) L).1) as ->.
  { induction L as [|i L IH]; intros q0; [done|]. cbn [foldl]. apply IH. }
  destruct (fold_parked body (widen_map port match_tag add) (fun n _ => n)) with (q := q) (a := tt)
    as (H1 & _ & H3); [..|done|done].
  - intros q1 n i j. unfold body, widen_visit, widen_map. cbn [fst].
    destruct (slot q1 i) as [t|] eqn:Hi; [|by apply slot_same].
    fold (widens port match_tag t). cbn. destruct (widens port match_tag t); [by apply (slot_write _ _ t)|by apply slot_same].
  - intros q1 [] i. by destruct (slot q1 i).
  - intros q1 n i Hq1. unfold body, widen_visit. cbn [fst]. destruct (slot q1 i) as [t|] eqn:Hi; [|done].
    case_match; [by apply ok_set_mask|done].
  - intros t Hw. split; [|done]. unfold widen_map, widens.
    destruct (is_blocked_on t port) eqn:E1, (state_eqb (state t) Blocked) eqn:E2; try done.
    by rewrite (blocked_on_scannable t port) in Hw.
Qed.

(** ** The deadline tick *)
(** Tasks the tick is responsible for, and those it releases. *)
Definition deadline_waiter (port : Z) (t : Task) : bool :=
  wake_scannable t && (is_poll_waiter port t || is_futex_waiter t).
Definition tick_wakes (port now tags : Z) (t : Task) : bool :=
  deadline_waiter port t
  && ((is_poll_waiter port t && negb (Z.land (poll_mask t) tags =? 0)) || (poll_deadline t <=? now)).
Definition tick_map (port now tags mv : Z) (t : Task) : Task :=
  if tick_wakes port now tags t then wake_due_task port mv t else t.
Definition tick_acc (port now tags : Z) (a : Z * nat) (t : Task) : Z * nat :=
  if deadline_waiter port t then
    if tick_wakes port now tags t then (a.1, S a.2) else (Z.min (poll_deadline t) a.1, a.2)
  else a.

Lemma due_visit_cases port now tags mv q a i :
  due_visit port now tags mv (q, a) i
  = match slot q i with
    | None => (q, a)
    | Some t =>
        (if negb (wake_scannable t) then unpark i q
         else if tick_wakes port now tags t then write_task i (wake_due_task port mv t) (touch i q)
         else q, tick_acc port now tags a t)
    end.
Proof.
  destruct a as [m n]. unfold due_visit. destruct (slot q i) as [t|]; [|done].
  unfold tick_acc, tick_wakes, deadline_waiter. destruct (wake_scannable t); cbn [negb andb]; [|done].
  destruct (is_poll_waiter port t), (is_futex_waiter t); cbn [negb andb orb fst snd]; try done.
  all: case_match; try done.
  all: destruct (Z.ltb_spec (poll_deadline t) m); f_equal; f_equal; lia.
Qed.

Lemma due_visit_ok port now tags mv q a i :
  is_u64 mv -> rq_ok q -> rq_ok (due_visit port now tags mv (q, a) i).1.
Proof.
  intros Hm Hq. rewrite due_visit_cases. destruct (slot q i) as [t|] eqn:Hi; [|done]. cbn [fst].
  destruct (wake_scannable t) eqn:Hw; cbn [negb]; [|by eapply hints_unpark].
  destruct (tick_wakes port now tags t); [|done]. eapply ok_wake; [done..|].
  apply wake_due_task_wakes; [done|]. by eapply rq_task; [apply Hq|].
Qed.

Lemma due_scan port now tags q :
  rq_ok q ->
  let r := wake_due_poll_deadlines port now tags q in
  (forall j, slot r.1 j = tick_map port now tags (min_vruntime q) <$> slot q j)
  /\ r.2 = foldl (tick_acc port now tags) (U64_MAX, O) (live q) /\ rq_ok r.1.
Proof.
  intros Hq. pose proof (min_vruntime_bound q Hq) as [Hm _]. unfold wake_due_poll_deadlines.
  rewrite scan_parked; [| | |by intros; apply due_visit_ok|done].
  - apply (fold_parked (due_visit port now tags (min_vruntime q)) (tick_map port now tags (min_vruntime q))
      (tick_acc port now tags)); [| |by intros; apply due_visit_ok| |done].
    + intros q1 n i j. rewrite due_visit_cases. destruct (slot q1 i) as [t|] eqn:Hi; cbn;
        [|by apply slot_same]. unfold tick_map. destruct (wake_scannable t) eqn:Hw; cbn [negb].
      * destruct (tick_wakes port now tags t); [by apply (slot_wake _ _ t)|by apply slot_same].
      * unfold tick_wakes, deadline_waiter. rewrite Hw. exact (slot_same q1 i (Some t) j Hi).
    + intros q1 n i. rewrite due_visit_cases. by destruct (slot q1 i).
    + intros t Hw. unfold tick_map, tick_acc, tick_wakes, deadline_waiter. by rewrite Hw.
  - intros [q1 n] i. rewrite due_visit_cases. by repeat case_match.
  - intros [q1 n] i w Hw. rewrite due_visit_cases. repeat case_match; try done. by apply word_unpark.
Qed.

Lemma tick_acc_fold port now tags l m n :
  let r := foldl (tick_acc port now tags) (m, n) l in
  r.2 = (n + length (List.filter (tick_wakes port now tags) l))%nat
  /\ r.1 <= m
  /\ (forall t, t ∈ l -> deadline_waiter port t = true -> tick_wakes port now tags t = false ->
        r.1 <= poll_deadline t)
  /\ (r.1 = m \/ exists t, t ∈ l /\ deadline_waiter port t = true
        /\ tick_wakes port now tags t = false /\ poll_deadline t = r.1).
Proof.
  cbv zeta. revert m n. induction l as [|t l IH]; intros m n; cbn [foldl List.filter].
  { cbn. split; [lia|]. split; [lia|]. split; [by intros ? ?%elem_of_nil|]. by left. }
  assert (tick_wakes port now tags t = true -> deadline_waiter port t = true) as Hdw
    by (unfold tick_wakes; by intros [??]%andb_true_iff).
  unfold tick_acc at 2 4 6 8 10. cbn [fst snd].
  destruct (deadline_waiter port t) eqn:Hd; [destruct (tick_wakes port now tags t) eqn:Hw|
    destruct (tick_wakes port now tags t) eqn:Hw; [by specialize (Hdw eq_refl)|]].
  - destruct (IH m (S n)) as (H1 & H2 & H3 & H4). cbn [length]. split; [lia|]. split; [done|].
    split; [|destruct H4 as [|(u & ? & ?)]; [by left|right; exists u; split; [by right|done]]].
    intros u [->|Hu]%elem_of_cons; [congruence|auto].
  - destruct (IH (Z.min (poll_deadline t) m) n) as (H1 & H2 & H3 & H4). split; [done|]. split; [lia|]. split.
    + intros u [->|Hu]%elem_of_cons; [lia|auto].
    + destruct H4 as [->|(u & ? & ?)]; [|right; exists u; split; [by right|done]].
      destruct (Z.min_spec (poll_deadline t) m) as [[? ->]|[? ->]]; [|by left].
      right. exists t. split; [left|done].
  - destruct (IH m n) as (H1 & H2 & H3 & H4). split; [done|]. split; [done|].
    split; [|destruct H4 as [|(u & ? & ?)]; [by left|right; exists u; split; [by right|done]]].
    intros u [->|Hu]%elem_of_cons; [congruence|auto].
Qed.

(** ** Parking *)
Lemma block_ok q p port dl mask i t :
  rq_ok q -> p <> 0 -> slot q i = Some t -> pid t = p ->
  let q' := block_on_port_until p port dl mask q in
  rq_ok q' /\ forall j, slot q' j = if decide (i = j) then Some (block_task port dl mask t) else slot q j.
Proof.
  intros Hok Hp Hi <-. cbv zeta. unfold block_on_port_until.
  rewrite (find_pid_idx_slot q i t) by (done || apply Hok). unfold modify.
  change (slot (touch i (park i q)) i) with (slot q i). rewrite Hi.
  assert (i < MAX_TASKS)%nat as Hlt by (eapply slot_lt; [apply Hok|done]). split.
  - eapply ok_write; [by apply ok_park|exact Hi|done|done| |].
    + destruct (rq_task q (proj1 Hok) i t Hi). by split.
    + intros _. rewrite get_park by (done || apply Hok). by rewrite bool_decide_eq_true_2.
  - intros j. exact (slot_write (touch i (park i q)) i t _ j Hi).
Qed.

Lemma find_pid_slot q p t : rq_base q -> find_pid q p = Some t -> exists i, slot q i = Some t /\ pid t = p.
Proof.
  intros Hq. unfold find_pid. pose proof (find_pid_idx_lookup q p Hq) as H.
  destruct (find_pid_idx q p) as [i|]; [|done]. destruct H as (u & Hi & <-). cbn. rewrite Hi.
  intros [= ->]. eauto.
Qed.

Lemma slot_find_pid q i t : rq_base q -> slot q i = Some t -> pid t <> 0 -> find_pid q (pid t) = Some t.
Proof. intros Hq Hi Hp. unfold find_pid. by rewrite (find_pid_idx_slot q i t). Qed.

Lemma wake_task_fields mv t :
  pid (wake_task mv t) = pid t /\ state (wake_task mv t) = Ready /\ blocked_on (wake_task mv t) = None
  /\ poll_deadline (wake_task mv t) = U64_MAX.
Proof. unfold wake_task. by destruct (place_frame mv (set_poll_mask POLL_TAG_ALL
  (set_poll_deadline U64_MAX (set_blocked_on None (set_state Ready t))))) as (vr & vd & -> & _). Qed.

(** ** Properties *)

(** [unblock_port_tagged] loses no waiter: although it walks only the slots
    flagged in [parked], its effect is the map over the whole table that wakes
    (and places) exactly the tasks Blocked on the port whose mask meets the tag,
    it returns their number, and it keeps the queue invariant. *)
Theorem unblock_port_tagged_spec port tag q :
  rq_ok q ->
  let r := unblock_port_tagged port tag q in
  (forall j, slot r.1 j = unblock_map port tag (min_vruntime q) <$> slot q j)
  /\ r.2 = length (List.filter (unblocks port tag) (live q)) /\ rq_ok r.1.
Proof. intros Hq. exact (unblock_scan port tag q Hq). Qed.

(** The task of pid 9 parked on port 5 with interest tag 4. *)
Definition demo_parked : RunQueue := block_on_port_until 9 5 1000 4 demo.
Definition demo_9 : Task := place 0 demo_b.

Lemma demo_slot1 : slot demo 1 = Some demo_9.
Proof. vm_compute. reflexivity. Qed.

Lemma demo_parked_ok : rq_ok demo_parked.
Proof. apply (block_ok demo 9 5 1000 4 1 demo_9); [apply demo_ok|done|apply demo_slot1|done]. Qed.

Lemma unblock_port_tagged_spec_witness :
  rq_ok (unblock_port_tagged 5 4 demo_parked).1 /\ (unblock_port_tagged 5 4 demo_parked).2 = 1%nat.
Proof.
  destruct (unblock_port_tagged_spec 5 4 demo_parked demo_parked_ok) as (_ & H2 & H3).
  split; [exact H3|]. rewrite H2. vm_compute. reflexivity.
Defined.

(** C2: Parking composes with waking: a task that blocks on a port with an
    interest mask is Blocked there until a wake on that port whose tag meets
    the mask (or a broadcast), which makes it Ready, detached from the port and
    without a deadline; a tagged wake that misses the mask leaves it parked. *)
Theorem block_then_unblock q p port dl mask tag t :
  rq_ok q -> p <> 0 -> find_pid q p = Some t ->
  let q1 := block_on_port_until p port dl mask q in
  let q2 := (unblock_port_tagged port tag q1).1 in
  rq_ok q1 /\ rq_ok q2
  /\ find_pid q1 p = Some (block_task port dl mask t)
  /\ (Z.land mask tag <> 0 \/ tag = POLL_TAG_ALL ->
      exists t', find_pid q2 p = Some t' /\ state t' = Ready /\ blocked_on t' = None
                 /\ poll_deadline t' = U64_MAX)
  /\ (Z.land mask tag = 0 -> tag <> POLL_TAG_ALL ->
      find_pid q2 p = Some (block_task port dl mask t)).
Proof.
  intros Hok Hp Hf. cbv zeta. apply find_pid_slot in Hf as (i & Hi & Ht); [|apply Hok].
  destruct (block_ok q p port dl mask i t Hok Hp Hi Ht) as [Hok1 Hs1].
  set (q1 := block_on_port_until p port dl mask q) in *.
  destruct (unblock_scan port tag q1 Hok1) as (Hs2 & _ & Hok2).
  set (q2 := (unblock_port_tagged port tag q1).1) in *. set (b := block_task port dl mask t) in *.
  assert (slot q1 i = Some b) as Hi1 by (rewrite Hs1; by rewrite decide_True).
  specialize (Hs2 i). rewrite Hi1 in Hs2. cbn in Hs2. clearbody q1 q2.
  assert (unblocks port tag b = negb (Z.land mask tag =? 0) || (tag =? POLL_TAG_ALL)) as Hb.
  { unfold unblocks, is_blocked_on. cbn. by rewrite bool_decide_eq_true_2. }
  assert (forall t', slot q2 i = Some t' -> pid t' = p -> find_pid q2 p = Some t') as Hfind.
  { intros t' H1 <-. by apply (slot_find_pid q2 i); [apply Hok2|..]. }
  split; [done|]. split; [done|]. split; [subst p; by apply (slot_find_pid q1 i b (proj1 Hok1))|].
  unfold unblock_map in Hs2. rewrite Hb in Hs2. split.
  - intros Hm. replace (negb _ || _) with true in Hs2.
    + pose proof (wake_task_fields (min_vruntime q1) b) as (E1 & E2 & E3 & E4).
      eexists. split; [apply Hfind; [exact Hs2|by rewrite E1]|done].
    + symmetry. destruct Hm as [Hm|Hm]; [by rewrite (proj2 (Z.eqb_neq _ _) Hm)|].
      rewrite (proj2 (Z.eqb_eq _ _) Hm). apply orb_true_r.
  - intros Hm Hne. rewrite (proj2 (Z.eqb_eq _ _) Hm), (proj2 (Z.eqb_neq _ _) Hne) in Hs2. by apply Hfind.
Qed.

Lemma block_then_unblock_witness :
  exists t', find_pid (unblock_port_tagged 5 4 demo_parked).1 9 = Some t' /\ state t' = Ready.
Proof.
  destruct (block_then_unblock demo 9 5 1000 4 4 demo_9 demo_ok) as (_ & _ & _ & H & _).
  - lia.
  - vm_compute. reflexivity.
  - destruct H as (t' & H1 & H2 & _); [left; vm_compute; congruence|]. exists t'. split; [exact H1|exact H2].
Defined.

(** C35: One deadline tick releases exactly the parked poll, kernel and futex
    waiters whose deadline has passed or whose interest meets an expired
    timerfd; afterwards no task of the table is a waiter with a due deadline,
    the returned instant is the exact minimum of the remaining deadlines
    ([u64::MAX] when none remains), the returned count is the number released,
    all other tasks are unchanged and the queue invariant holds. *)
Theorem wake_due_poll_deadlines_spec port now tags q :
  rq_ok q ->
  let r := wake_due_poll_deadlines port now tags q in
  (forall j, slot r.1 j = tick_map port now tags (min_vruntime q) <$> slot q j)
  /\ (forall j t, slot r.1 j = Some t -> deadline_waiter port t = true ->
        now < poll_deadline t /\ r.2.1 <= poll_deadline t)
  /\ (r.2.1 = U64_MAX \/ exists j t, slot r.1 j = Some t /\ deadline_waiter port t = true
                                     /\ poll_deadline t = r.2.1)
  /\ r.2.2 = length (List.filter (tick_wakes port now tags) (live q))
  /\ rq_ok r.1.
Proof.
  intros Hq. cbv zeta. destruct (due_scan port now tags q Hq) as (H1 & H2 & H3).
  destruct (tick_acc_fold port now tags (live q) U64_MAX O) as (A1 & A2 & A3 & A4).
  rewrite <- H2 in A1, A2, A3, A4. pose proof (min_vruntime_bound q Hq) as [Hm _].
  set (r := wake_due_poll_deadlines port now tags q) in *. clearbody r.
  assert (forall j t, slot r.1 j = Some t -> deadline_waiter port t = true ->
            slot q j = Some t /\ tick_wakes port now tags t = false) as Hrest.
  { intros j t Hj Hd. rewrite H1 in Hj. destruct (slot q j) as [u|] eqn:Hu; [|done]. cbn in Hj.
    injection Hj as Hj. unfold tick_map in Hj. destruct (tick_wakes port now tags u) eqn:E; [|by subst].
    exfalso. destruct (wake_due_task_wakes port (min_vruntime q) u Hm) as (_ & _ & _ & Hst).
    { by apply (rq_task q (proj1 Hq) j). }
    unfold deadline_waiter in Hd. rewrite <- Hj, not_scannable_state in Hd; [done|]. by rewrite Hst. }
  split; [done|]. split; [|split; [|split; [done|done]]].
  - intros j t Hj Hd. destruct (Hrest j t Hj Hd) as [Hu Hw]. split; [|apply A3; [|done..]; apply live_slot; eauto].
    unfold tick_wakes in Hw. rewrite Hd in Hw. cbn in Hw. bool_to_prop. lia.
  - destruct A4 as [->|(t & Ht & Hd & Hw & <-)]; [by left|]. right.
    apply live_slot in Ht as [j Hj]. exists j, t. split; [|done]. rewrite H1, Hj. cbn. unfold tick_map. by rewrite Hw.
Qed.

Definition demo_poll : RunQueue := block_on_port_until 9 POLL_WAIT_CHANNEL 1000 4 demo.

Lemma demo_poll_ok : rq_ok demo_poll.
Proof. apply (block_ok demo 9 POLL_WAIT_CHANNEL 1000 4 1 demo_9); [apply demo_ok|done|apply demo_slot1|done]. Qed.

Lemma wake_due_poll_deadlines_spec_witness :
  (wake_due_poll_deadlines POLL_WAIT_CHANNEL 1000 0 demo_poll).2.2 = 1%nat.
Proof.
  destruct (wake_due_poll_deadlines_spec POLL_WAIT_CHANNEL 1000 0 demo_poll demo_poll_ok) as (_ & _ & _ & H & _).
  rewrite H. vm_compute. reflexivity.
Defined.

(** Widening the masks of parked pollers makes a later wake with the added
    tag reach them: every task Blocked on the port whose mask met [match_tag]
    is woken by a wake on that port tagged with a bit of [add]; the
    invariant is kept and all other tasks are untouched. *)
Theorem widen_port_masks_spec port match_tag add tag q j t :
  rq_ok q -> slot q j = Some t -> 0 <= tag -> Z.land add tag <> 0 ->
  let q1 := widen_port_masks port match_tag add q in
  rq_ok q1
  /\ (widens port match_tag t = false -> slot q1 j = Some t)
  /\ (widens port match_tag t = true ->
      exists t', slot (unblock_port_tagged port tag q1).1 j = Some t' /\ state t' = Ready).
Proof.
  intros Hq Hj Ht Hadd. cbv zeta. destruct (widen_scan port match_tag add q Hq) as [H1 H2].
  set (q1 := widen_port_masks port match_tag add q) in *. clearbody q1.
  split; [done|]. specialize (H1 j). rewrite Hj in H1. cbn in H1. unfold widen_map in H1.
  split; intros E; rewrite E in H1; [done|].
  destruct (unblock_scan port tag _ H2) as (H3 & _). rewrite H3, H1. cbn. eexists. split; [done|].
  unfold unblock_map. set (t1 := set_poll_mask _ t).
  assert (unblocks port tag t1 = true) as ->; [|apply wake_task_fields].
  unfold widens in E. apply andb_true_iff in E as [E1 E2]. unfold unblocks.
  change (is_blocked_on t1 port) with (is_blocked_on t port). change (state t1) with (state t).
  rewrite E1. cbn [andb]. replace (Z.land (poll_mask t1) tag =? 0) with false; [done|].
  symmetry. apply Z.eqb_neq. cbn. rewrite Z.land_lor_distr_l. intros H0. by apply Z.lor_eq_0_iff in H0 as [_ ?].
Qed.

Lemma widen_port_masks_spec_witness :
  exists t', slot (unblock_port_tagged 5 2 (widen_port_masks 5 4 2 demo_parked)).1 1 = Some t' /\ state t' = Ready.
Proof.
  apply (widen_port_masks_spec 5 4 2 2 demo_parked 1 (block_task 5 1000 4 demo_9)).
  - exact demo_parked_ok.
  - vm_compute. reflexivity.
  - lia.
  - vm_compute. congruence.
  - vm_compute. reflexivity.
Defined.

(** The kernel wait channel: the broadcast fallback [wake_all_kwaiters]
    wakes exactly the tasks [wake_kwaiter] could wake one by one, that is,
    those Blocked on the channel, and both keep the invariant; [wake_kwaiter]
    answers whether it woke its task and changes no other task. *)
Theorem kwaiter_spec q p :
  rq_ok q -> p <> 0 ->
  (let r := wake_all_kwaiters q in
   rq_ok r.1 /\ r.2 = length (List.filter is_kwaiter (live q))
   /\ forall j, slot r.1 j = kwake_map (min_vruntime q) <$> slot q j)
  /\ (let r := wake_kwaiter p q in
      rq_ok r.2
      /\ (r.1 = true <-> exists t, find_pid q p = Some t /\ is_kwaiter t = true)
      /\ forall j, slot r.2 j
           = (fun t => if pid t =? p then kwake_map (min_vruntime q) t else t) <$> slot q j).
Proof.
  intros Hok Hp. split; [destruct (kwake_scan q Hok) as (? & ? & ?); done|]. cbv zeta.
  pose proof (min_vruntime_bound q Hok) as [Hm _]. unfold wake_kwaiter, find_pid.
  pose proof (find_pid_idx_lookup q p (proj1 Hok)) as H. destruct (find_pid_idx q p) as [i|] eqn:Ei.
  - destruct H as (t & Hi & Ht). change (slot (touch i q) i) with (slot q i). rewrite Hi. fold (is_kwaiter t).
    cbn [mbind option_bind]. rewrite Hi.
    assert (forall j u, slot q j = Some u -> pid u = p -> i = j) as Huniq.
    { intros j u Hj Hu. eapply (pids_distinct q); [apply Hok|done..|congruence|congruence]. }
    assert (i < MAX_TASKS)%nat as Hlt by (eapply slot_lt; [apply Hok|done]).
    destruct (is_kwaiter t) eqn:Ek; cbn [fst snd].
    + split; [eapply ok_wake; [done..|]; apply wake_task_wakes; [done|]; by eapply rq_task; [apply Hok|]|].
      split; [split; [by eauto|done]|]. intros j. rewrite (slot_wake q i t) by done.
      destruct (decide (i = j)) as [<-|Hne].
      * rewrite Hi. cbn. rewrite Ht, Z.eqb_refl. unfold kwake_map. by rewrite Ek.
      * destruct (slot q j) as [u|] eqn:Hj; [|done]. cbn.
        destruct (Z.eqb_spec (pid u) p) as [Hu|]; [|done]. by destruct Hne, (Huniq j u).
    + split; [by apply ok_touch|]. split; [split; [done|]; intros (u & [= <-] & ?); congruence|].
      intros j. change (slot (touch i q) j) with (slot q j). destruct (slot q j) as [u|] eqn:Hj; [|done]. cbn.
      destruct (Z.eqb_spec (pid u) p) as [Hu|]; [|done]. assert (i = j) as <- by by eapply Huniq.
      rewrite Hi in Hj. simplify_eq. unfold kwake_map. by rewrite Ek.
  - cbn. split; [done|]. split; [split; [done|by intros (? & ? & ?)]|]. intros j.
    destruct (slot q j) as [u|] eqn:Hj; [|done]. cbn. destruct (Z.eqb_spec (pid u) p) as [Hu|]; [|done].
    by destruct (H j u).
Qed.

Definition demo_kwait : RunQueue := block_on_port 9 KWAIT_CHANNEL demo.

Lemma kwaiter_spec_witness : (wake_kwaiter 9 demo_kwait).1 = true.
Proof.
  destruct (kwaiter_spec demo_kwait 9) as (_ & _ & H & _).
  - apply (block_ok demo 9 KWAIT_CHANNEL U64_MAX POLL_TAG_ALL 1 demo_9);
      [apply demo_ok|done|apply demo_slot1|done].
  - lia.
  - apply H. eexists. split; vm_compute; reflexivity.
Defined.
