(* ===== verification/Signals.v ===== *)
(** * Generating, posting and accepting signals; job control

    Models the signal half of [src/sched/src/lib.rs] and the job-control part
    of [src/sched/src/signal.rs] on the run queue.  Each function is the code
    between one lock and its release, state passing over [RunQueue]; the
    inter-processor kicks ([wake_up_an_idle_cpu], [trigger_preempt]) and
    [yield_now] do not touch the queue and are left out.  [current_pid()] is
    the argument [me]. *)
From S2P Require Import Prelude KLib PidMap Task RunQueue Wake.

Definition SIGHUP : Z := 1.
Definition SIGKILL : Z := 9.
Definition SIGCHLD : Z := 17.
Definition SIGCONT : Z := 18.
Definition SIGSTOP : Z := 19.
Definition SIGDFL_STOP : Z :=
  Z.lor (Z.lor (Z.lor (Z.shiftl 1 18) (Z.shiftl 1 19)) (Z.shiftl 1 20)) (Z.shiftl 1 21).
Definition UNBLOCKABLE : Z := Z.lor (Z.shiftl 1 (SIGKILL - 1)) (Z.shiftl 1 (SIGSTOP - 1)).
Definition SA_NOCLDSTOP : Z := 1.
Definition EAGAIN : Z := -11.
Definition ENOMEM : Z := -12.

Definition sig_bit (signo : Z) : Z := Z.shiftl 1 (signo - 1).
(** [x & m != 0], [x &= !m] on [u64] words. *)
Definition has_bits (x m : Z) : bool := negb (Z.land x m =? 0).
Definition drop_bits (x m : Z) : Z := Z.land x (not64 m).

(** ** Walks of the table *)
(** [for i in rq.live_slots() { if let Some(t) = rq.get_mut(i) { .. } }] *)
Definition for_live (f : Task -> Task) (q : RunQueue) : RunQueue :=
  foldl (fun q i => modify i f q) q (live_slots q).
(** [if let Some(t) = rq.find_pid_mut(p) { .. }] *)
Definition modify_pid (p : Z) (f : Task -> Task) (q : RunQueue) : RunQueue :=
  match find_pid_idx q p with Some i => modify i f q | None => q end.
(** [rq.live_slots().any(|i| rq.get(i).map_or(false, p))] *)
Definition any_live (p : Task -> bool) (q : RunQueue) : bool :=
  existsb (fun i => match slot q i with Some t => p t | None => false end) (live_slots q).

(** ** Effects of generating a signal *)
Definition clear_block_fields (t : Task) : Task :=
  set_blocked_futex 0 (set_poll_mask POLL_TAG_ALL (set_poll_deadline U64_MAX (set_blocked_on None t))).

Definition resume_thread (tg signo min_vr : Z) (t : Task) : Task :=
  if negb (tgid t =? tg) then t
  else
    let t := set_stop_pending false t in
    let t := if signo =? SIGCONT
             then set_signal_pending (drop_bits (signal_pending t) SIGDFL_STOP) t else t in
    if state_eqb (state t) Stopped
    then place min_vr (clear_block_fields (set_state Ready t)) else t.

Definition resume_leader (signo : Z) (l : Task) : Task :=
  let l := if signo =? SIGCONT
           then set_shared_signal_pending (drop_bits (shared_signal_pending l) SIGDFL_STOP) l else l in
  if negb (stop_signal l =? 0)
  then let l := set_stop_reported false (set_stop_signal 0 l) in
       if signo =? SIGCONT then set_cont_pending true l else l
  else l.

(** [(made_ready, resumed)] and the new queue. *)
Definition on_signal_generated (tg signo : Z) (q : RunQueue)
    : bool * option (Z * Z * Z) * RunQueue :=
  let bit := sig_bit signo in
  if (signo =? SIGCONT) || (signo =? SIGKILL) then
    let min_vr := min_vruntime q in
    let made_ready := any_live (fun t => (tgid t =? tg) && state_eqb (state t) Stopped) q in
    let q := for_live (resume_thread tg signo min_vr) q in
    let resumed :=
      match find_pid q tg with
      | Some l => if negb (stop_signal l =? 0) && (signo =? SIGCONT)
                  then Some (tg, ppid l, uid l) else None
      | None => None
      end in
    (made_ready, resumed, modify_pid tg (resume_leader signo) q)
  else if has_bits SIGDFL_STOP bit then
    let cont := sig_bit SIGCONT in
    let q := for_live (fun t => if tgid t =? tg
                                then set_signal_pending (drop_bits (signal_pending t) cont) t else t) q in
    (false, None,
     modify_pid tg (fun l => set_shared_signal_pending (drop_bits (shared_signal_pending l) cont) l) q)
  else (false, None, q).

(** ** Posting *)
Definition valid_signo (signo : Z) : bool := (0 <? signo) && (signo <=? 64).

(** The writes that queue [signo] on a thread: first writer wins the payload. *)
Definition queue_on_thread (signo : Z) (info : SigInfo) (min_vr : Z) (t : Task) : Task :=
  let bit := sig_bit signo in
  let t := if negb (has_bits (signal_pending t) bit)
           then set_signal_info (<[Z.to_nat (signo - 1) := info]> (signal_info t)) t else t in
  let t := set_signal_pending (Z.lor (signal_pending t) bit) t in
  if state_eqb (state t) Blocked then place min_vr (set_state Ready t) else t.

Definition post_signal_thread (p signo : Z) (info : SigInfo) (q : RunQueue)
    : Z * bool * option (Z * Z * Z) * RunQueue :=
  let '(woke, resumed, q) :=
    if valid_signo signo then
      match find_pid q p with
      | Some t => on_signal_generated (tgid t) signo q
      | None => (false, None, q)
      end
    else (false, None, q) in
  let min_vr := min_vruntime q in
  match find_pid_idx q p with
  | Some i =>
      let q := touch i q in
      match slot q i with
      | Some t =>
          if valid_signo signo
          then (0, woke || state_eqb (state t) Blocked, resumed,
                write_task i (queue_on_thread signo info min_vr t) q)
          else (-22, woke, resumed, q)
      | None => (-3, woke, resumed, q)
      end
  | None => (-3, woke, resumed, q)
  end.

(** The search for a thread that can take the signal: the first unmasked
    Blocked one, else the first unmasked one. *)
Fixpoint choose_thread (tg : Z) (unblockable : bool) (bit : Z) (q : RunQueue)
    (chosen : option nat) (l : list nat) : option nat :=
  match l with
  | [] => chosen
  | i :: l =>
      match slot q i with
      | Some t =>
          if (tgid t =? tg) && (unblockable || negb (has_bits (signal_mask t) bit)) then
            if state_eqb (state t) Blocked then Some i
            else choose_thread tg unblockable bit q
                   (match chosen with None => Some i | Some _ => chosen end) l
          else choose_thread tg unblockable bit q chosen l
      | None => choose_thread tg unblockable bit q chosen l
      end
  end.

(** The writes that park [signo] on the leader's process-level set. *)
Definition park_on_leader (signo : Z) (info : SigInfo) (l : Task) : Task :=
  let bit := sig_bit signo in
  let l := if negb (has_bits (Z.lor (signal_pending l) (shared_signal_pending l)) bit)
           then set_signal_info (<[Z.to_nat (signo - 1) := info]> (signal_info l)) l else l in
  set_shared_signal_pending (Z.lor (shared_signal_pending l) bit) l.

Definition post_signal_process (tg signo : Z) (info : SigInfo) (q : RunQueue)
    : Z * bool * option (Z * Z * Z) * RunQueue :=
  let bit := sig_bit signo in
  let unblockable := has_bits UNBLOCKABLE bit in
  let '(made_ready, resumed, q) := on_signal_generated tg signo q in
  let min_vr := min_vruntime q in
  match choose_thread tg unblockable bit q None (live_slots q) with
  | Some i =>
      let q := touch i q in
      match slot q i with
      | Some t => (0, made_ready || state_eqb (state t) Blocked, resumed,
                   write_task i (queue_on_thread signo info min_vr t) q)
      | None => (-3, made_ready, resumed, q)
      end
  | None =>
      match find_pid_idx q tg with
      | Some li => (0, made_ready, resumed, modify li (park_on_leader signo info) q)
      | None => (-3, made_ready, resumed, q)
      end
  end.

(** ** Delivery with parent notification *)
Definition wake_poll_tagged (tag : Z) (q : RunQueue) : RunQueue :=
  (unblock_port_tagged POLL_WAIT_CHANNEL tag q).1.
Definition wake_poll (q : RunQueue) : RunQueue := wake_poll_tagged POLL_TAG_ALL q.

Definition tgid_of (p : Z) (q : RunQueue) : Z :=
  match pid_tgid_get (pid_tgid q) p with
  | Some g => g
  | None => match find_pid q p with Some t => tgid t | None => p end
  end.

Definition notify_parent_state_change (deliver : Z -> Z -> SigInfo -> RunQueue -> Z * RunQueue)
    (tg pp : Z) (info : SigInfo) (q : RunQueue) : RunQueue :=
  if (tg =? 0) || (pp =? 0) then q
  else
    let parent_tgid := tgid_of pp q in
    let suppressed :=
      match find_pid q parent_tgid with
      | Some p => has_bits (flags (nth (Z.to_nat (SIGCHLD - 1)) (signal_actions p) DEFAULT_SIGACTION)) SA_NOCLDSTOP
      | None => true
      end in
    if suppressed then wake_poll q else (deliver parent_tgid SIGCHLD info q).2.

Definition notify_continued (deliver : Z -> Z -> SigInfo -> RunQueue -> Z * RunQueue)
    (r : Z * Z * Z) (q : RunQueue) : RunQueue :=
  let '(tg, pp, u) := r in
  notify_parent_state_change deliver tg pp (SigInfo_child_state CLD_CONTINUED tg u SIGCONT) q.

(** [deliver_signal_process] and [notify_continued] are mutually recursive; the
    recursion is one level deep, because only SIGCONT notifies and the
    notification is SIGCHLD ([deliver_fuel]). *)
Fixpoint deliver_signal_process_fuel (fuel : nat) (tg signo : Z) (info : SigInfo) (q : RunQueue)
    : Z * RunQueue :=
  if (signo =? 0) || (64 <? signo) then (-22, q)
  else
    let '(ret, _, resumed, q) := post_signal_process tg signo info q in
    let q :=
      match resumed, fuel with
      | Some r, S f => notify_continued (deliver_signal_process_fuel f) r q
      | _, _ => q
      end in
    (ret, wake_poll q).
Definition deliver_signal_process (tg signo : Z) (info : SigInfo) (q : RunQueue) : Z * RunQueue :=
  deliver_signal_process_fuel 1 tg signo info q.

Definition deliver_signal (p signo : Z) (info : SigInfo) (q : RunQueue) : Z * RunQueue :=
  let '(ret, _, resumed, q) := post_signal_thread p signo info q in
  let q := match resumed with Some r => notify_continued deliver_signal_process r q | None => q end in
  (ret, wake_poll q).

(** Interrupt context: [lock] is the outcome of the bounded try-lock. *)
Definition try_deliver_signal (lock : bool) (p signo : Z) (info : SigInfo) (q : RunQueue)
    : option Z * RunQueue :=
  if (signo =? 0) || (64 <? signo) then (Some (-22), q)
  else if signo =? SIGCONT then (None, q)
  else if negb lock then (None, q)
  else
    let already := match find_pid q p with
                   | Some t => has_bits (signal_pending t) (sig_bit signo) | None => false end in
    let '(ret, _, _, q) := post_signal_thread p signo info q in
    let ret := if (ret =? 0) && already then 1 else ret in
    (Some ret, (unblock_port_tagged POLL_WAIT_CHANNEL POLL_TAG_ALL q).1).

Definition try_deliver_signal_process (lock : bool) (tg signo : Z) (info : SigInfo) (q : RunQueue)
    : option Z * RunQueue :=
  if (signo =? 0) || (64 <? signo) then (Some (-22), q)
  else if signo =? SIGCONT then (None, q)
  else if negb lock then (None, q)
  else
    let already := any_live (fun t => (tgid t =? tg)
      && has_bits (Z.lor (signal_pending t) (shared_signal_pending t)) (sig_bit signo)) q in
    let '(ret, _, _, q) := post_signal_process tg signo info q in
    let ret := if (ret =? 0) && already then 1 else ret in
    (Some ret, (unblock_port_tagged POLL_WAIT_CHANNEL POLL_TAG_ALL q).1).

(** ** Stopping a group *)
(** What [do_signal_stop] does to one task of the table; the caller is [me]. *)
Definition stop_thread (me tg : Z) (t : Task) : Task :=
  if negb (tgid t =? tg) || state_eqb (state t) Zombie then t
  else
    let t := set_signal_pending (drop_bits (signal_pending t) (sig_bit SIGCONT)) t in
    let t := set_stop_pending true t in
    if pid t =? me then clear_block_fields (set_state Stopped t)
    else if bool_decide (is_Some (on_cpu t)) then t
    else if state_eqb (state t) Ready || state_eqb (state t) Blocked
    then clear_block_fields (set_state Stopped t) else t.

Definition stop_leader (sig : Z) (l : Task) : Task :=
  let l := if stop_signal l =? 0 then set_stop_reported false (set_stop_signal (sig mod 256) l) else l in
  set_cont_pending false l.

Definition do_signal_stop (me sig : Z) (q : RunQueue) : RunQueue :=
  match find_pid q me with
  | None => q
  | Some t =>
      let tg := tgid t in
      let q := modify_pid tg (stop_leader sig) q in
      let q := for_live (stop_thread me tg) q in
      notify_parent_state_change deliver_signal_process tg (ppid t)
        (SigInfo_child_state CLD_STOPPED tg (uid t) sig) q
  end.

(** ** Accepting *)
Definition info_at (t : Task) (i : nat) : SigInfo := nth i (signal_info t) SigInfo_NONE.

Definition accept_pending_signal (me signo : Z) (q : RunQueue) : SigInfo * RunQueue :=
  if (signo =? 0) || (64 <? signo) then (SigInfo_NONE, q)
  else
    let bit := sig_bit signo in
    let idx := Z.to_nat (signo - 1) in
    match find_pid q me with
    | None => (SigInfo_NONE, q)
    | Some t =>
        let tg := tgid t in
        let info :=
          if has_bits (signal_pending t) bit then info_at t idx
          else match find_pid q tg with Some l => info_at l idx | None => SigInfo_NONE end in
        let q := modify_pid me (fun t => set_signal_pending (drop_bits (signal_pending t) bit) t) q in
        let q := modify_pid tg
          (fun l => set_shared_signal_pending (drop_bits (shared_signal_pending l) bit) l) q in
        (info, q)
    end.

Definition pending_signals (me : Z) (q : RunQueue) : Z :=
  match find_pid q me with Some t => signal_pending t | None => 0 end.
Definition shared_pending_signals (me : Z) (q : RunQueue) : Z :=
  match find_pid q me with
  | None => 0
  | Some t => match find_pid q (tgid t) with Some l => shared_signal_pending l | None => 0 end
  end.
Definition replace_signal_mask (me new_mask : Z) (q : RunQueue) : Z * RunQueue :=
  match find_pid q me with
  | Some t => (signal_mask t, modify_pid me (set_signal_mask new_mask) q)
  | None => (0, q)
  end.

(** ** Process groups *)
(** [alloc] is the outcome of [try_reserve_exact]. *)
Definition pgrp_leaders (pg : Z) (q : RunQueue) : list Z :=
  omap (fun i => match slot q i with
                 | Some t => if (pgid t =? pg) && (pid t =? tgid t) then Some (pid t) else None
                 | None => None end) (live_slots q).
Definition kill_pgrp (alloc : bool) (pg signo : Z) (info : SigInfo) (q : RunQueue) : Z * RunQueue :=
  if negb alloc then (ENOMEM, q)
  else
    let targets := pgrp_leaders pg q in
    match targets with
    | [] => (-3, q)
    | _ => if signo =? 0 then (0, q)
           else (0, foldl (fun q p => (deliver_signal_process p signo info q).2) q targets)
    end.

Definition pgrp_orphaned_locked (pg : Z) (q : RunQueue) : bool :=
  negb (any_live (fun t =>
    negb (negb (pgid t =? pg) || negb (pid t =? tgid t) || state_eqb (state t) Zombie)
    && match find_pid q (ppid t) with
       | Some p =>
           match (if pid p =? tgid p then Some p else find_pid q (tgid p)) with
           | Some p => negb (state_eqb (state p) Zombie) && negb (pgid p =? pg) && (sid p =? sid t)
           | None => false
           end
       | None => false
       end) q).
Definition pgrp_is_orphaned (pg : Z) (q : RunQueue) : bool :=
  if pg =? 0 then true else pgrp_orphaned_locked pg q.

(** ** Admission of new tasks

    [zombies] is [zombie_records()]. *)
Definition admit_locked (zombies : nat) (new_process : bool) (q : RunQueue) : Z :=
  if (MAX_TASKS <=? len q)%nat then EAGAIN
  else if new_process && (MAX_PROCESSES <=? process_count q + zombies)%nat then EAGAIN
  else 0.

Definition fork_admission (zombies : nat) (me : Z) (new_process : bool) (q : RunQueue) : Z :=
  if negb (admit_locked zombies new_process q =? 0) then EAGAIN
  else
    match find_pid q me with
    | None => 0
    | Some t =>
        if (uid t =? 0) || (euid t =? 0) then 0
        else
          let limit := match find_pid q (tgid t) with
                       | Some l => (nth RLIMIT_NPROC (rlimits l) (RLIM_INFINITY, RLIM_INFINITY)).1
                       | None => RLIM_INFINITY end in
          if limit =? RLIM_INFINITY then 0
          else
            let n := length (List.filter
              (fun i => match slot q i with
                        | Some x => (uid x =? uid t) && negb (state_eqb (state x) Zombie)
                        | None => false end) (live_slots q)) in
            if limit <=? Z.of_nat n then EAGAIN else 0
    end.

(** ** Poll tags *)
Definition xor_shift (x : Z) : Z := Z.lxor x (Z.shiftr x 33).
Definition poll_tag (class index : Z) : Z :=
  let x := Z.lor (Z.shiftl class 32) index in
  let x := xor_shift x in
  let x := wrap64 (x * 0xff51afd7ed558ccd) in
  let x := xor_shift x in
  let x := wrap64 (x * 0xc4ceb9fe1a85ec53) in
  let x := xor_shift x in
  Z.shiftl 1 (Z.land x 63).

(** ** Updates that keep a task's identity *)
Definition keeps (f : Task -> Task) : Prop :=
  forall t, task_ok t -> pid (f t) = pid t /\ tgid (f t) = tgid t /\ task_ok (f t)
    /\ (wake_scannable (f t) = true -> wake_scannable t = true).

Lemma modify_ok i f q :
  rq_ok q -> keeps f -> (i < MAX_TASKS)%nat ->
  rq_ok (modify i f q)
  /\ forall j, slot (modify i f q) j = if decide (i = j) then f <$> slot q j else slot q j.
Proof.
  intros Hq Hf Hi. unfold modify. change (slot (touch i q) i) with (slot q i).
  destruct (slot q i) as [t|] eqn:Ht.
  - destruct (Hf t) as (H1 & H2 & H3 & H4); [by apply (rq_task q (proj1 Hq) i)|]. split.
    + eapply ok_write; [done..|]. intros Hw. by apply (proj2 (proj2 Hq i) t Ht), H4.
    + intros j. rewrite (slot_wake q i t) by done. destruct (decide (i = j)) as [<-|]; [by rewrite Ht|done].
  - split; [by apply ok_touch|]. intros j. change (slot (touch i q) j) with (slot q j).
    destruct (decide (i = j)) as [<-|]; [by rewrite Ht|done].
Qed.

Lemma for_live_fold f L q :
  rq_ok q -> keeps f -> NoDup L -> (forall i, i ∈ L -> (i < MAX_TASKS)%nat) ->
  let q' := foldl (fun q i => modify i f q) q L in
  rq_ok q' /\ forall j, slot q' j = if decide (j ∈ L) then f <$> slot q j else slot q j.
Proof.
  cbv zeta. intros Hq Hf. revert q Hq. induction L as [|i L IH]; intros q Hq Hnd Hlt; cbn [foldl].
  { split; [done|]. intros j. destruct (decide (j ∈ [])) as [H|]; [by apply elem_of_nil in H|done]. }
  apply NoDup_cons in Hnd as [Hi Hnd].
  destruct (modify_ok i f q Hq Hf) as [H1 H2]; [apply Hlt; by left|].
  destruct (IH _ H1 Hnd) as [H3 H4]; [intros; apply Hlt; by right|]. split; [done|].
  intros j. rewrite H4, H2. destruct (decide (j ∈ L)) as [Hj|Hj], (decide (i = j)) as [->|Hij].
  - done.
  - rewrite decide_True by (by right). done.
  - rewrite decide_True by (by left). done.
  - rewrite decide_False; [done|]. intros [?|?]%elem_of_cons; congruence.
Qed.

Lemma for_live_ok f q :
  rq_ok q -> keeps f ->
  rq_ok (for_live f q) /\ forall j, slot (for_live f q) j = f <$> slot q j.
Proof.
  intros Hq Hf. unfold for_live. destruct (for_live_fold f (live_slots q) q Hq Hf) as [H1 H2].
  - rewrite live_slots_spec by apply Hq. apply NoDup_ListNoDup, List.NoDup_filter, List.seq_NoDup.
  - intros i Hi. apply elem_live_slots in Hi as [t Ht]; [|apply Hq]. eapply slot_lt; [apply Hq|done].
  - split; [done|]. intros j. rewrite H2. destruct (decide (j ∈ live_slots q)) as [|Hj]; [done|].
    rewrite elem_live_slots in Hj by apply Hq. destruct (slot q j); [|done]. by destruct Hj.
Qed.

(** Updating a pid is a map over the table that changes only that task. *)
Lemma modify_pid_ok p f q :
  rq_ok q -> keeps f -> p <> 0 ->
  rq_ok (modify_pid p f q)
  /\ forall j, slot (modify_pid p f q) j = (fun t => if pid t =? p then f t else t) <$> slot q j.
Proof.
  intros Hq Hf Hp. unfold modify_pid. pose proof (find_pid_idx_lookup q p (proj1 Hq)) as H.
  destruct (find_pid_idx q p) as [i|] eqn:Ei.
  - destruct H as (t & Hi & Ht). destruct (modify_ok i f q Hq Hf) as [H1 H2]; [eapply slot_lt; [apply Hq|done]|].
    split; [done|]. intros j. rewrite H2. destruct (decide (i = j)) as [<-|Hne].
    + rewrite Hi. cbn. rewrite Ht, Z.eqb_refl. done.
    + destruct (slot q j) as [u|] eqn:Hj; [|done]. cbn. destruct (Z.eqb_spec (pid u) p) as [Hu|]; [|done].
      destruct Hne. eapply (pids_distinct q); [apply Hq|done..|congruence|congruence].
  - split; [done|]. intros j. destruct (slot q j) as [u|] eqn:Hj; [|done]. cbn.
    destruct (Z.eqb_spec (pid u) p) as [Hu|]; [|done]. by destruct (H j u).
Qed.

Lemma any_live_spec p q : rq_base q -> any_live p q = true <-> exists j t, slot q j = Some t /\ p t = true.
Proof.
  intros Hq. unfold any_live. rewrite existsb_exists. split.
  - intros (i & _ & Hi). destruct (slot q i) as [t|] eqn:E; [eauto|done].
  - intros (j & t & Hj & Ht). exists j. rewrite Hj. split; [|done].
    apply list_elem_of_In, elem_live_slots; [done|]. by exists t.
Qed.

(** ** The updates of this file keep identity *)
Lemma task_ok_intro t t' :
  task_ok t -> pid t' = pid t -> tgid t' = tgid t -> weight t' = weight t ->
  vruntime t' = vruntime t -> vdeadline t' = vdeadline t -> task_ok t'.
Proof. intros [? ? ? ? ?] ? ? ? ? ?. split; congruence. Qed.

(** An update of fields outside identity, virtual time and blocking state. *)
Ltac keeps_fields t Ht :=
  split; [done|]; split; [done|]; split; [by apply (task_ok_intro t _ Ht)|done].

Lemma keeps_pending f : keeps (fun t => set_signal_pending (f t) t).
Proof. intros t Ht. keeps_fields t Ht. Qed.
Lemma keeps_shared f : keeps (fun t => set_shared_signal_pending (f t) t).
Proof. intros t Ht. keeps_fields t Ht. Qed.
Lemma keeps_mask m : keeps (set_signal_mask m).
Proof. intros t Ht. keeps_fields t Ht. Qed.

Lemma keeps_unblock f g :
  (forall t, task_ok t -> pid (f t) = pid t /\ tgid (f t) = tgid t /\ task_ok (f t) /\ state (f t) <> Blocked) ->
  keeps g -> forall c : Task -> bool, keeps (fun t => if c (g t) then f (g t) else g t).
Proof.
  intros Hf Hg c t Ht. destruct (Hg t Ht) as (G1 & G2 & G3 & G4). destruct (c (g t)); [|done].
  destruct (Hf (g t) G3) as (F1 & F2 & F3 & F4).
  split; [congruence|]. split; [congruence|]. split; [done|]. by rewrite not_scannable_state.
Qed.

Lemma keeps_resume_thread tg signo mv : is_u64 mv -> keeps (resume_thread tg signo mv).
Proof.
  intros Hm t Ht. unfold resume_thread. destruct (tgid t =? tg); cbn [negb]; [|done].
  set (t1 := if signo =? SIGCONT then _ else _).
  assert (task_ok t1 /\ pid t1 = pid t /\ tgid t1 = tgid t /\ wake_scannable t1 = wake_scannable t)
    as (H1 & H2 & H3 & H4).
  { unfold t1. destruct (signo =? SIGCONT); (split; [by eapply (task_ok_intro t)|done]). }
  clearbody t1. destruct (state_eqb (state t1) Stopped).
  - destruct (place_fields mv (clear_block_fields (set_state Ready t1))) as (E1 & E2 & E3 & _).
    split; [by rewrite E1|]. split; [by rewrite E2|]. split; [apply place_ok; [done|by eapply (task_ok_intro t1)]|].
    rewrite not_scannable_state; [done|]. by rewrite E3.
  - split; [done|]. split; [done|]. split; [done|]. by rewrite H4.
Qed.

Lemma keeps_resume_leader signo : keeps (resume_leader signo).
Proof.
  intros t Ht. unfold resume_leader. destruct (signo =? SIGCONT); cbn;
    (destruct (stop_signal t =? 0); cbn; keeps_fields t Ht).
Qed.

Lemma queue_on_thread_fields signo info mv t :
  pid (queue_on_thread signo info mv t) = pid t /\ tgid (queue_on_thread signo info mv t) = tgid t
  /\ signal_pending (queue_on_thread signo info mv t) = Z.lor (signal_pending t) (sig_bit signo)
  /\ signal_mask (queue_on_thread signo info mv t) = signal_mask t
  /\ shared_signal_pending (queue_on_thread signo info mv t) = shared_signal_pending t
  /\ signal_info (queue_on_thread signo info mv t)
     = (if has_bits (signal_pending t) (sig_bit signo) then signal_info t
        else <[Z.to_nat (signo - 1) := info]> (signal_info t))
  /\ state (queue_on_thread signo info mv t) = (if state_eqb (state t) Blocked then Ready else state t).
Proof.
  unfold queue_on_thread. destruct (has_bits (signal_pending t) (sig_bit signo)) eqn:E; cbn [negb];
    match goal with |- context [place mv ?x] => destruct (place_frame mv x) as (vr & vd & Hx & _) end;
    rewrite Hx; cbn; destruct (state_eqb (state t) Blocked); cbn; repeat split.
Qed.

Lemma keeps_queue signo info mv : is_u64 mv -> keeps (queue_on_thread signo info mv).
Proof.
  intros Hm t Ht. destruct (queue_on_thread_fields signo info mv t) as (E1 & E2 & _ & _ & _ & _ & E7).
  split; [done|]. split; [done|].
  unfold queue_on_thread in *. set (t1 := set_signal_pending _ _) in *.
  assert (task_ok t1) as Ht1 by (unfold t1; destruct (negb _); by eapply (task_ok_intro t)).
  assert (wake_scannable t1 = wake_scannable t) as Hw1 by (unfold t1; by destruct (negb _)).
  assert (state t1 = state t) as Hs1 by (unfold t1; by destruct (negb _)).
  destruct (state_eqb (state t1) Blocked).
  - split; [apply place_ok; [done|by eapply (task_ok_intro t1)]|].
    rewrite not_scannable_state; [done|]. rewrite E7. destruct (state_eqb (state t) Blocked) eqn:E; [done|].
    intros Hb. by rewrite Hb in E.
  - by rewrite Hw1.
Qed.

Lemma keeps_park signo info : keeps (park_on_leader signo info).
Proof.
  intros t Ht. unfold park_on_leader. destruct (negb _); keeps_fields t Ht.
Qed.

Lemma keeps_cond (c : Task -> bool) f : keeps f -> keeps (fun t => if c t then f t else t).
Proof. intros Hf t Ht. destruct (c t); [by apply Hf|done]. Qed.

#[export] Hint Resolve keeps_pending keeps_shared keeps_mask keeps_resume_leader keeps_queue
  keeps_resume_thread keeps_park keeps_cond : kernel.

(** ** [on_signal_generated] as a map over the table *)
Definition is_resume (signo : Z) : bool := (signo =? SIGCONT) || (signo =? SIGKILL).
Definition is_stop (signo : Z) : bool := negb (is_resume signo) && has_bits SIGDFL_STOP (sig_bit signo).

Definition gen_map (tg signo mv : Z) (t : Task) : Task :=
  if is_resume signo then
    let t := resume_thread tg signo mv t in
    if pid t =? tg then resume_leader signo t else t
  else if has_bits SIGDFL_STOP (sig_bit signo) then
    let t := if tgid t =? tg
             then set_signal_pending (drop_bits (signal_pending t) (sig_bit SIGCONT)) t else t in
    if pid t =? tg
    then set_shared_signal_pending (drop_bits (shared_signal_pending t) (sig_bit SIGCONT)) t else t
  else t.

Lemma fmap_fmap_option {A B C} (f : B -> C) (g : A -> B) (o : option A) :
  f <$> (g <$> o) = (fun x => f (g x)) <$> o.
Proof. by destruct o. Qed.

Lemma generated_scan tg signo q :
  rq_ok q -> tg <> 0 ->
  let q' := (on_signal_generated tg signo q).2 in
  rq_ok q' /\ forall j, slot q' j = gen_map tg signo (min_vruntime q) <$> slot q j.
Proof.
  intros Hq Htg. cbv zeta. pose proof (min_vruntime_bound q Hq) as [Hm _].
  unfold on_signal_generated, gen_map. fold (is_resume signo). destruct (is_resume signo).
  - destruct (for_live_ok (resume_thread tg signo (min_vruntime q)) q Hq) as [H1 H2]; [auto with kernel|].
    set (q1 := for_live _ q) in *. clearbody q1. cbn [snd].
    destruct (modify_pid_ok tg (resume_leader signo) q1 H1) as [H3 H4]; [auto with kernel|done|].
    split; [done|]. intros j. by rewrite H4, H2, fmap_fmap_option.
  - destruct (has_bits SIGDFL_STOP (sig_bit signo)).
    + set (f1 := fun t => if tgid t =? tg then _ else t).
      assert (keeps f1) as K1 by (apply (keeps_cond (fun t => tgid t =? tg)); auto with kernel).
      destruct (for_live_ok f1 q Hq K1) as [H1 H2]. set (q1 := for_live f1 q) in *. clearbody q1. cbn [snd].
      destruct (modify_pid_ok tg (fun l => set_shared_signal_pending
        (drop_bits (shared_signal_pending l) (sig_bit SIGCONT)) l) q1 H1) as [H3 H4]; [auto with kernel|done|].
      split; [done|]. intros j. by rewrite H4, H2, fmap_fmap_option.
    + cbn [snd]. split; [done|]. intros j. by destruct (slot q j).
Qed.

Lemma resume_leader_fields signo l :
  pid (resume_leader signo l) = pid l /\ tgid (resume_leader signo l) = tgid l
  /\ state (resume_leader signo l) = state l /\ signal_pending (resume_leader signo l) = signal_pending l
  /\ signal_mask (resume_leader signo l) = signal_mask l
  /\ stop_pending (resume_leader signo l) = stop_pending l
  /\ stop_signal (resume_leader signo l) = 0
  /\ shared_signal_pending (resume_leader signo l)
     = (if signo =? SIGCONT then drop_bits (shared_signal_pending l) SIGDFL_STOP else shared_signal_pending l).
Proof.
  unfold resume_leader. destruct (signo =? SIGCONT); cbn; destruct (Z.eqb_spec (stop_signal l) 0); cbn; done.
Qed.

Lemma resume_thread_fields tg signo mv t :
  pid (resume_thread tg signo mv t) = pid t /\ tgid (resume_thread tg signo mv t) = tgid t
  /\ signal_mask (resume_thread tg signo mv t) = signal_mask t
  /\ shared_signal_pending (resume_thread tg signo mv t) = shared_signal_pending t
  /\ (tgid t = tg ->
      stop_pending (resume_thread tg signo mv t) = false
      /\ signal_pending (resume_thread tg signo mv t)
         = (if signo =? SIGCONT then drop_bits (signal_pending t) SIGDFL_STOP else signal_pending t)
      /\ state (resume_thread tg signo mv t) = (if state_eqb (state t) Stopped then Ready else state t)).
Proof.
  unfold resume_thread. destruct (Z.eqb_spec (tgid t) tg) as [E|E]; cbn [negb]; [|repeat split; congruence].
  destruct (signo =? SIGCONT); cbn;
    match goal with |- context [place mv ?x] => destruct (place_frame mv x) as (vr & vd & Hx & _) end;
    rewrite Hx; cbn; destruct (state_eqb (state t) Stopped); cbn; repeat split.
Qed.

Lemma drop_bits_none x m : is_u64 m -> Z.land (drop_bits x m) m = 0.
Proof.
  intros Hm. unfold drop_bits. apply Z.bits_inj'. intros n Hn. rewrite !Z.land_spec, Z.bits_0.
  destruct (Z.lt_ge_cases n 64) as [Hlt|Hge].
  - rewrite testbit_not64 by lia. destruct (Z.testbit m n); by rewrite ?andb_false_r.
  - rewrite (u64_testbit_high m) by done. apply andb_false_r.
Qed.

Lemma land_lor_bit x signo : 1 <= signo <= 64 -> Z.land (Z.lor x (sig_bit signo)) (sig_bit signo) <> 0.
Proof.
  intros Hs H. assert (Z.testbit (Z.land (Z.lor x (sig_bit signo)) (sig_bit signo)) (signo - 1) = true) as Hb.
  { unfold sig_bit. rewrite Z.land_spec, Z.lor_spec, !testbit_shiftl1, Z.eqb_refl by lia.
    by rewrite orb_true_r. }
  rewrite H, Z.bits_0 in Hb. done.
Qed.

Lemma state_eqb_true a b : state_eqb a b = true <-> a = b.
Proof. apply bool_decide_eq_true. Qed.

Lemma gen_map_fields tg signo mv t :
  pid (gen_map tg signo mv t) = pid t /\ tgid (gen_map tg signo mv t) = tgid t
  /\ signal_mask (gen_map tg signo mv t) = signal_mask t
  /\ (tgid t <> tg -> pid t <> tg -> gen_map tg signo mv t = t)
  /\ (is_resume signo = true -> tgid t = tg -> state (gen_map tg signo mv t) <> Stopped)
  /\ (state (gen_map tg signo mv t) = Blocked <-> state t = Blocked).
Proof.
  unfold gen_map. destruct (is_resume signo) eqn:Hr.
  - destruct (resume_thread_fields tg signo mv t) as (R1 & R2 & R3 & R4 & R5).
    assert (tgid t <> tg -> resume_thread tg signo mv t = t) as Rn.
    { intros Hn. unfold resume_thread. by rewrite (proj2 (Z.eqb_neq _ _) Hn). }
    assert (state (resume_thread tg signo mv t) = Blocked <-> state t = Blocked) as Rb.
    { destruct (Z.eq_dec (tgid t) tg) as [E|E]; [|by rewrite Rn]. destruct (R5 E) as (_ & _ & ->).
      destruct (state_eqb (state t) Stopped) eqn:Es; [|done]. apply state_eqb_true in Es. by rewrite Es. }
    assert (tgid t = tg -> state (resume_thread tg signo mv t) <> Stopped) as Rs.
    { intros E. destruct (R5 E) as (_ & _ & ->). destruct (state_eqb (state t) Stopped) eqn:Es; [done|].
      intros H. by rewrite H in Es. }
    cbv zeta. set (t1 := resume_thread tg signo mv t) in *. clearbody t1.
    destruct (resume_leader_fields signo t1) as (L1 & L2 & L3 & _ & L5 & _).
    destruct (Z.eqb_spec (pid t1) tg) as [Ep|Ep].
    + rewrite L1, L2, L3, L5. repeat split; try done; try tauto. intros _ Hn. congruence.
    + repeat split; try done; tauto.
  - destruct (has_bits SIGDFL_STOP (sig_bit signo)); [|done].
    destruct (tgid t =? tg) eqn:E1; cbn; destruct (pid t =? tg) eqn:E2; bool_to_prop; repeat split; try done; cbn; congruence.
Qed.

(** ** The search for a target thread *)
Definition can_take (tg signo : Z) (t : Task) : bool :=
  (tgid t =? tg) && (has_bits UNBLOCKABLE (sig_bit signo) || negb (has_bits (signal_mask t) (sig_bit signo))).

Lemma choose_thread_spec tg signo q l c :
  (match c with Some i => exists t, slot q i = Some t /\ can_take tg signo t = true | None => True end) ->
  match choose_thread tg (has_bits UNBLOCKABLE (sig_bit signo)) (sig_bit signo) q c l with
  | Some i => exists t, slot q i = Some t /\ can_take tg signo t = true
      /\ (state t = Blocked \/ forall j u, j ∈ l -> slot q j = Some u -> can_take tg signo u = true ->
                                         state u <> Blocked)
  | None => c = None /\ forall j u, j ∈ l -> slot q j = Some u -> can_take tg signo u = false
  end.
Proof.
  revert c. induction l as [|i l IH]; intros c Hc; cbn [choose_thread].
  { destruct c as [i|]; [|split; [done|by intros ? ? ?%elem_of_nil]].
    destruct Hc as (t & H1 & H2). exists t. split; [done|]. split; [done|]. right. by intros ? ? ?%elem_of_nil. }
  assert (forall c', (match c' with Some i => exists t, slot q i = Some t /\ can_take tg signo t = true | None => True end) ->
    (forall u, slot q i = Some u -> can_take tg signo u = true -> state u <> Blocked /\ c' <> None) ->
    (c' = None -> c = None) ->
    match choose_thread tg (has_bits UNBLOCKABLE (sig_bit signo)) (sig_bit signo) q c' l with
    | Some i0 => exists t, slot q i0 = Some t /\ can_take tg signo t = true
      /\ (state t = Blocked \/ forall j u, j ∈ i :: l -> slot q j = Some u -> can_take tg signo u = true ->
                                         state u <> Blocked)
    | None => c = None /\ forall j u, j ∈ i :: l -> slot q j = Some u -> can_take tg signo u = false
    end) as Hstep.
  { intros c' Hc' Hi Hn. specialize (IH c' Hc'). destruct (choose_thread _ _ _ _ c' l) as [k|].
    - destruct IH as (t & H1 & H2 & H3). exists t. split; [done|]. split; [done|].
      destruct H3 as [|H3]; [by left|right]. intros j u [->|Hj]%elem_of_cons Hu Hcu; [by apply Hi|eauto].
    - destruct IH as [-> H3]. split; [auto|]. intros j u [->|Hj]%elem_of_cons Hu; [|eauto].
      destruct (can_take tg signo u) eqn:E; [|done]. by destruct (Hi u Hu E). }
  destruct (slot q i) as [t|] eqn:Hi; [|apply Hstep; [done|congruence|done]].
  fold (can_take tg signo t). destruct (can_take tg signo t) eqn:Ht.
  - destruct (state_eqb (state t) Blocked) eqn:Hb.
    + apply state_eqb_true in Hb. exists t. auto.
    + assert (state t <> Blocked) by (intros E; by rewrite E in Hb).
      apply Hstep; [destruct c; [done|eauto]| |by destruct c].
      intros u [= <-] _. split; [done|]. by destruct c.
  - apply Hstep; [done| |done]. intros u [= <-] ?. congruence.
Qed.

(** The choice exactly: the first Blocked taker in slot order, else the first
    taker. *)
Definition takes (tg signo : Z) (q : RunQueue) (i : nat) : bool :=
  match slot q i with Some t => can_take tg signo t | None => false end.
Definition takes_blocked (tg signo : Z) (q : RunQueue) (i : nat) : bool :=
  match slot q i with Some t => can_take tg signo t && state_eqb (state t) Blocked | None => false end.

Lemma choose_thread_first tg signo q l c :
  choose_thread tg (has_bits UNBLOCKABLE (sig_bit signo)) (sig_bit signo) q c l
  = match List.find (takes_blocked tg signo q) l with
    | Some i => Some i
    | None => match c with Some i => Some i | None => List.find (takes tg signo q) l end
    end.
Proof.
  revert c. induction l as [|i l IH]; intros c; [by destruct c|]. cbn [choose_thread List.find].
  unfold takes_blocked at 1, takes at 1. destruct (slot q i) as [t|]; [|apply IH]. fold (can_take tg signo t).
  destruct (can_take tg signo t); cbn [andb]; [|apply IH]. destruct (state_eqb (state t) Blocked); [done|].
  rewrite IH. by destruct c.
Qed.

(** A search of the occupied slots finds the lowest one that qualifies. *)
Lemma find_lowest (f : nat -> bool) n i : List.find f (seq 0 n) = Some i -> f i = true /\ forall j, (j < i)%nat -> f j = false.
Proof.
  enough (forall m, List.find f (seq m n) = Some i -> f i = true /\ forall j, (m <= j < i)%nat -> f j = false) as H.
  { intros E. destruct (H 0%nat E) as [H1 H2]. split; [done|]. intros j Hj. apply H2. lia. }
  induction n as [|n IH]; intros m; [done|]. cbn. destruct (f m) eqn:E.
  - intros [= <-]. split; [done|]. lia.
  - intros [H1 H2]%IH. split; [done|]. intros j Hj. destruct (decide (j = m)) as [->|]; [done|]. apply H2. lia.
Qed.

Lemma find_filter_same (f g : nat -> bool) l : (forall i, f i = true -> g i = true) -> List.find f (List.filter g l) = List.find f l.
Proof.
  intros H. induction l as [|i l IH]; [done|]. cbn. destruct (g i) eqn:E; cbn; [by rewrite IH|].
  destruct (f i) eqn:Ef; [|done]. by rewrite H in E.
Qed.

Lemma find_live q (f : nat -> bool) i :
  rq_ok q -> (forall j, f j = true -> is_Some (slot q j)) -> List.find f (live_slots q) = Some i ->
  f i = true /\ forall j, (j < i)%nat -> f j = false.
Proof.
  intros Hq Hf. rewrite live_slots_spec by apply Hq. rewrite find_filter_same; [apply find_lowest|].
  intros j Hj. rewrite (rq_occ q (proj1 Hq)). by apply bool_decide_eq_true_2, Hf.
Qed.

(** ** Posting to a process *)
(** A write through [touch] that keeps identity. *)
Lemma write_keeps i t f q :
  rq_ok q -> slot q i = Some t -> keeps f ->
  rq_ok (write_task i (f t) (touch i q))
  /\ forall j, slot (write_task i (f t) (touch i q)) j = if decide (i = j) then Some (f t) else slot q j.
Proof.
  intros Hq Hi Hf. destruct (modify_ok i f q Hq Hf) as [H1 H2]; [eapply slot_lt; [apply Hq|done]|].
  unfold modify in *. change (slot (touch i q) i) with (slot q i) in *. rewrite Hi in *. split; [done|].
  intros j. rewrite H2. destruct (decide (i = j)) as [<-|]; [by rewrite Hi|done].
Qed.

Lemma gen_preserves tg signo q : rq_ok q -> tg <> 0 -> rq_ok (on_signal_generated tg signo q).2.
Proof. intros Hq Ht. by apply generated_scan. Qed.

(** The chosen slot is the lowest of the Blocked takers, or of all takers. *)
Lemma choose_order tg signo q i t :
  rq_ok q -> choose_thread tg (has_bits UNBLOCKABLE (sig_bit signo)) (sig_bit signo) q None (live_slots q) = Some i -> slot q i = Some t ->
  (forall j u, slot q j = Some u -> can_take tg signo u = true -> state t = Blocked -> state u = Blocked -> (i <= j)%nat)
  /\ (forall j u, slot q j = Some u -> can_take tg signo u = true -> state t <> Blocked -> (i <= j)%nat).
Proof.
  intros Hq Hc Hi. rewrite choose_thread_first in Hc.
  assert (forall j, takes tg signo q j = true -> is_Some (slot q j)) as Ht by (intros j; unfold takes; by destruct (slot q j)).
  assert (forall j, takes_blocked tg signo q j = true -> is_Some (slot q j)) as Hb by (intros j; unfold takes_blocked; by destruct (slot q j)).
  destruct (List.find (takes_blocked tg signo q) (live_slots q)) as [k|] eqn:Ek.
  - injection Hc as ->. apply (find_live q _ i Hq Hb) in Ek as [Ef Eo]. unfold takes_blocked in Ef. rewrite Hi in Ef.
    apply andb_true_iff in Ef as [_ Ef]. apply state_eqb_true in Ef. split; [|done]. intros j u Hj Hu _ Hbl. apply Nat.nlt_ge. intros Hlt%Eo.
    unfold takes_blocked in Hlt. by rewrite Hj, Hu, Hbl in Hlt.
  - apply (find_live q _ i Hq Ht) in Hc as [Ef Eo]. unfold takes in Ef. rewrite Hi in Ef. split.
    + intros j u Hj Hu Hbt. exfalso. assert (takes_blocked tg signo q i = false) as Hf.
      { apply (find_none _ _ Ek). apply list_elem_of_In, elem_live_slots; [apply Hq|by exists t]. }
      unfold takes_blocked in Hf. by rewrite Hi, Ef, Hbt in Hf.
    + intros j u Hj Hu _. apply Nat.nlt_ge. intros Hlt%Eo. unfold takes in Hlt. by rewrite Hj, Hu in Hlt.
Qed.

(** Outcome of [post_signal_process], on every path. *)
Lemma post_process_cases tg signo info q :
  rq_ok q -> tg <> 0 ->
  let '(ret, woke, resumed, q') := post_signal_process tg signo info q in
  let q1 := (on_signal_generated tg signo q).2 in
  rq_ok q' /\
  ((ret = 0 /\ exists i t mv, slot q1 i = Some t /\ can_take tg signo t = true /\ is_u64 mv
      /\ (forall j, slot q' j = if decide (i = j) then Some (queue_on_thread signo info mv t) else slot q1 j)
      /\ (state t = Blocked -> woke = true)
      /\ (state t = Blocked \/ forall j u, slot q1 j = Some u -> can_take tg signo u = true -> state u <> Blocked)
      /\ (forall j u, slot q1 j = Some u -> can_take tg signo u = true -> state t = Blocked -> state u = Blocked -> (i <= j)%nat)
      /\ (forall j u, slot q1 j = Some u -> can_take tg signo u = true -> state t <> Blocked -> (i <= j)%nat))
   \/ (ret = 0 /\ (forall j u, slot q1 j = Some u -> can_take tg signo u = false)
       /\ exists i t, slot q1 i = Some t /\ pid t = tg
       /\ forall j, slot q' j = if decide (i = j) then Some (park_on_leader signo info t) else slot q1 j)
   \/ (ret = -3 /\ q' = q1 /\ (forall j u, slot q1 j = Some u -> can_take tg signo u = false)
       /\ forall j u, slot q1 j = Some u -> pid u <> tg)).
Proof.
  intros Hq Htg. unfold post_signal_process.
  pose proof (gen_preserves tg signo q Hq Htg) as Hq1.
  destruct (on_signal_generated tg signo q) as [[mr rs] q1]. cbn [snd] in *.
  pose proof (min_vruntime_bound q1 Hq1) as [Hm _].
  pose proof (choose_thread_spec tg signo q1 (live_slots q1) None I) as Hch.
  pose proof (choose_order tg signo q1) as Hord.
  destruct (choose_thread _ _ _ _ _ _) as [i|].
  - destruct Hch as (t & Hi & Ht & Hb). destruct (Hord i t Hq1 eq_refl Hi) as [Ho1 Ho2]. clear Hord. change (slot (touch i q1) i) with (slot q1 i). rewrite Hi.
    destruct (write_keeps i t (queue_on_thread signo info (min_vruntime q1)) q1 Hq1 Hi) as [W1 W2]; [auto with kernel|].
    split; [done|]. left. split; [done|]. exists i, t, (min_vruntime q1).
    split; [done|]. split; [done|]. split; [done|]. split; [done|]. split.
    + intros ->. apply orb_true_r.
    + split; [|done]. destruct Hb as [|Hb]; [by left|right]. intros j u Hj. apply (Hb j); [|done].
      apply elem_live_slots; [apply Hq1|by exists u].
  - destruct Hch as [_ Hno]. assert (forall j u, slot q1 j = Some u -> can_take tg signo u = false) as Hno'.
    { intros j u Hj. apply (Hno j); [|done]. apply elem_live_slots; [apply Hq1|by exists u]. }
    pose proof (find_pid_idx_lookup q1 tg (proj1 Hq1)) as Hl.
    destruct (find_pid_idx q1 tg) as [li|].
    + destruct Hl as (t & Hi & Ht).
      destruct (modify_ok li (park_on_leader signo info) q1 Hq1) as [W1 W2];
        [auto with kernel|eapply slot_lt; [apply Hq1|done]|].
      split; [done|]. right. left. split; [done|]. split; [done|]. exists li, t. split; [done|]. split; [done|].
      intros j. rewrite W2. destruct (decide (li = j)) as [<-|]; [by rewrite Hi|done].
    + split; [done|]. right. right. split; [done|]. split; [done|]. done.
Qed.

(** ** Properties *)

(** Generating a signal applies the POSIX job-control rules to the target
    group and to nothing else: SIGCONT and SIGKILL leave no Stopped thread and
    no stop request; SIGCONT discards every pending stop signal, on the threads
    and on the leader's process-level set; a stop signal discards every pending
    SIGCONT; tasks outside the group are unchanged; the parent is to be told
    exactly when SIGCONT resumes a group whose leader recorded a stop. *)
Theorem on_signal_generated_spec tg signo q :
  rq_ok q -> tg <> 0 -> 1 <= signo <= 64 ->
  let '(made_ready, resumed, q') := on_signal_generated tg signo q in
  rq_ok q'
  /\ (forall j t, slot q j = Some t -> tgid t <> tg -> pid t <> tg -> slot q' j = Some t)
  /\ (forall j t, slot q' j = Some t -> tgid t = tg ->
        (signo = SIGCONT \/ signo = SIGKILL -> state t <> Stopped /\ stop_pending t = false)
        /\ (signo = SIGCONT -> Z.land (signal_pending t) SIGDFL_STOP = 0)
        /\ (is_stop signo = true -> Z.land (signal_pending t) (sig_bit SIGCONT) = 0))
  /\ (forall l, find_pid q' tg = Some l ->
        (signo = SIGCONT -> Z.land (shared_signal_pending l) SIGDFL_STOP = 0 /\ stop_signal l = 0)
        /\ (is_stop signo = true -> Z.land (shared_signal_pending l) (sig_bit SIGCONT) = 0))
  /\ (made_ready = true <-> is_resume signo = true
        /\ exists j t, slot q j = Some t /\ tgid t = tg /\ state t = Stopped).
Proof.
  intros Hq Htg Hs. pose proof (generated_scan tg signo q Hq Htg) as [Hok Hslot].
  assert ((on_signal_generated tg signo q).1.1 = true <-> is_resume signo = true
        /\ exists j t, slot q j = Some t /\ tgid t = tg /\ state t = Stopped) as Hmr.
  { unfold on_signal_generated. fold (is_resume signo). destruct (is_resume signo); cbn [fst].
    - rewrite any_live_spec by apply Hq. split.
      + intros (j & t & Hj & Ht). split; [done|]. exists j, t. bool_to_prop. by apply state_eqb_true in H0.
      + intros (_ & j & t & Hj & <- & Ht). exists j, t. split; [done|]. rewrite Ht. by rewrite Z.eqb_refl.
    - split; [by case_match|]. by intros [? _]. }
  destruct (on_signal_generated tg signo q) as [[mr rs] q'] eqn:Eg. cbn [fst snd] in *. clear Eg rs.
  set (mv := min_vruntime q) in *. clearbody mv.
  assert (is_u64 SIGDFL_STOP) as Hu1 by (vm_compute; split; congruence).
  assert (is_u64 (sig_bit SIGCONT)) as Hu2 by (vm_compute; split; congruence).
  split; [done|]. split; [|split; [|split; [|done]]].
  - intros j t Hj Hn Hp. rewrite Hslot, Hj. cbn. f_equal. by apply gen_map_fields.
  - intros j t' Hj. rewrite Hslot in Hj. destruct (slot q j) as [t|]; [|done]. injection Hj as <-.
    destruct (gen_map_fields tg signo mv t) as (_ & -> & _ & _ & Hst & _). intros Ht.
    unfold gen_map, is_stop in *. destruct (is_resume signo) eqn:Hr; cbn [negb andb].
    + destruct (resume_thread_fields tg signo mv t) as (_ & _ & _ & _ & R5). destruct (R5 Ht) as (R6 & R7 & _).
      set (t1 := resume_thread tg signo mv t) in *. cbv zeta in *.
      destruct (resume_leader_fields signo t1) as (_ & _ & _ & L4 & _ & L6 & _).
      split; [|split; [|done]].
      * intros _. split; [by apply Hst|]. destruct (pid t1 =? tg); [by rewrite L6|done].
      * intros E. transitivity (Z.land (signal_pending t1) SIGDFL_STOP); [by destruct (pid t1 =? tg); rewrite ?L4|].
        rewrite R7, E. by apply drop_bits_none.
    + split; [unfold is_resume in Hr; bool_to_prop; lia|]. split; [unfold is_resume in Hr; bool_to_prop; lia|].
      intros ->. rewrite (proj2 (Z.eqb_eq _ _) Ht). cbn.
      destruct (pid t =? tg); cbn; by apply drop_bits_none.
  - intros l (j & Hj & Hp)%find_pid_slot; [|apply Hok]. rewrite Hslot in Hj.
    destruct (slot q j) as [t|]; [|done]. injection Hj as <-.
    destruct (gen_map_fields tg signo mv t) as (E & _). rewrite E in Hp. clear E.
    unfold gen_map, is_stop. destruct (is_resume signo) eqn:Hr; cbn [negb andb].
    + split; [|done]. intros Ec. cbv zeta.
      destruct (resume_thread_fields tg signo mv t) as (-> & _). rewrite (proj2 (Z.eqb_eq _ _) Hp).
      destruct (resume_leader_fields signo (resume_thread tg signo mv t)) as (_ & _ & _ & _ & _ & _ & -> & ->).
      rewrite Ec, Z.eqb_refl. split; [by apply drop_bits_none|done].
    + split; [unfold is_resume in Hr; bool_to_prop; lia|]. intros ->. cbv zeta.
      assert (pid (if tgid t =? tg then set_signal_pending (drop_bits (signal_pending t) (sig_bit SIGCONT)) t else t) = tg)
        as E by (by destruct (tgid t =? tg)).
      rewrite (proj2 (Z.eqb_eq _ _) E). cbn. by apply drop_bits_none.
Qed.

(** A stopped two-task queue: pid 7 stopped by SIGSTOP. *)
Definition demo_stop_task (t : Task) : Task :=
  set_stop_signal 19 (set_stop_pending true (set_state Stopped t)).

Lemma keeps_demo_stop : keeps demo_stop_task.
Proof.
  intros t Ht. split; [done|]. split; [done|]. split; [by apply (task_ok_intro t _ Ht)|].
  rewrite not_scannable_state; done.
Qed.

Definition demo_stopped : RunQueue := modify 0 demo_stop_task demo.

Lemma demo_stopped_ok : rq_ok demo_stopped.
Proof. apply modify_ok; [apply demo_ok|apply keeps_demo_stop|unfold MAX_TASKS; lia]. Qed.

Lemma on_signal_generated_spec_witness :
  rq_ok (on_signal_generated 7 SIGCONT demo_stopped).2
  /\ (on_signal_generated 7 SIGCONT demo_stopped).1.1 = true.
Proof.
  pose proof (on_signal_generated_spec 7 SIGCONT demo_stopped demo_stopped_ok ltac:(lia) ltac:(vm_compute; split; congruence)) as H.
  destruct (on_signal_generated 7 SIGCONT demo_stopped) as [[mr rs] q']. destruct H as (H1 & _ & _ & _ & H2).
  split; [exact H1|]. apply H2. split; [reflexivity|].
  exists 0%nat, (demo_stop_task (place 0 demo_a)). split; [vm_compute; reflexivity|split; reflexivity].
Defined.

(** A pending bit of the group after a post. *)
Definition pending_in_group (tg signo : Z) (q : RunQueue) (j : nat) (t : Task) : Prop :=
  slot q j = Some t /\ tgid t = tg /\ Z.land (signal_pending t) (sig_bit signo) <> 0.

Lemma can_take_fields tg signo t u :
  tgid u = tgid t -> signal_mask u = signal_mask t -> can_take tg signo u = can_take tg signo t.
Proof. intros E1 E2. unfold can_take. by rewrite E1, E2. Qed.

(** A process-directed signal is never lost and is routed as POSIX asks.
    On success either one thread of the group that does not block it has it
    pending (and if any unblocking thread was Blocked, a Blocked one was chosen,
    is now Ready and the caller is told to kick a CPU), or every thread blocks
    it and it is pending on the leader's process-level set.  The call fails
    with ESRCH only if no thread can take it and the group has no leader.
    The invariant is kept. *)
Theorem post_signal_process_spec tg signo info q :
  rq_ok q -> tg <> 0 -> 1 <= signo <= 64 ->
  let '(ret, woke, resumed, q') := post_signal_process tg signo info q in
  rq_ok q' /\
  ((ret = 0 /\ exists i t, pending_in_group tg signo q' i t /\ can_take tg signo t = true
      /\ state t <> Blocked
      /\ ((exists j u, slot q j = Some u /\ can_take tg signo u = true /\ state u = Blocked) ->
          woke = true /\ state t = Ready))
   \/ (ret = 0 /\ (forall j u, slot q' j = Some u -> can_take tg signo u = false)
       /\ exists l, find_pid q' tg = Some l /\ Z.land (shared_signal_pending l) (sig_bit signo) <> 0)
   \/ (ret = -3 /\ find_pid q' tg = None /\ forall j u, slot q' j = Some u -> can_take tg signo u = false)).
Proof.
  intros Hq Htg Hs. pose proof (post_process_cases tg signo info q Hq Htg) as H.
  pose proof (generated_scan tg signo q Hq Htg) as [Hq1 Hg].
  destruct (post_signal_process tg signo info q) as [[[ret woke] rs] q']. cbv zeta in *.
  set (q1 := (on_signal_generated tg signo q).2) in *. clearbody q1. destruct H as [Hq' H]. split; [done|].
  destruct H as [(-> & i & t & mv & Hi & Ht & Hmv & Hsl & Hw & Hb & _)|[(-> & Hno & i & t & Hi & Hp & Hsl)|(-> & -> & Hno & Hp)]].
  - left. split; [done|]. destruct (queue_on_thread_fields signo info mv t) as (E1 & E2 & E3 & E4 & _ & _ & E7).
    exists i, (queue_on_thread signo info mv t). split; [split; [rewrite Hsl; by rewrite decide_True|]|].
    { split; [|rewrite E3; by apply land_lor_bit]. rewrite E2. unfold can_take in Ht. bool_to_prop. done. }
    split; [by rewrite (can_take_fields _ _ t)|]. rewrite E7.
    split; [destruct (state_eqb (state t) Blocked) eqn:E; [done|intros Hx; by rewrite Hx in E]|].
    intros (j & u & Hj & Hu & Hbl). destruct Hb as [Hb|Hb].
    + split; [auto|]. by rewrite Hb.
    + exfalso. destruct (gen_map_fields tg signo (min_vruntime q) u) as (_ & G2 & G3 & _ & _ & G6).
      apply (Hb j (gen_map tg signo (min_vruntime q) u)).
      * rewrite Hg, Hj. done.
      * by rewrite (can_take_fields _ _ u).
      * by apply G6.
  - right. left. split; [done|]. unfold park_on_leader in Hsl.
    set (t' := set_shared_signal_pending _ _) in Hsl.
    assert (pid t' = pid t /\ tgid t' = tgid t /\ signal_mask t' = signal_mask t
            /\ shared_signal_pending t' = Z.lor (shared_signal_pending t) (sig_bit signo)) as (E1 & E2 & E3 & E4)
      by (unfold t'; by destruct (negb _)).
    clearbody t'. split.
    + intros j u. rewrite Hsl. destruct (decide (i = j)); [|apply Hno].
      intros [= <-]. rewrite (can_take_fields _ _ t) by done. by apply (Hno i).
    + exists t'. split; [|rewrite E4; by apply land_lor_bit]. rewrite <- Hp, <- E1.
      apply (slot_find_pid q' i); [apply Hq'|rewrite Hsl; by rewrite decide_True|congruence].
  - right. right. split; [done|]. split; [|done]. destruct (find_pid q1 tg) as [l|] eqn:E; [|done].
    apply find_pid_slot in E as (j & Hj & He); [|apply Hq']. by destruct (Hp j l).
Qed.

Lemma post_signal_process_spec_witness :
  exists i t, pending_in_group 9 15 (post_signal_process 9 15 SigInfo_NONE demo).2 i t.
Proof.
  pose proof (post_signal_process_spec 9 15 SigInfo_NONE demo demo_ok ltac:(lia) ltac:(lia)) as H.
  assert ((post_signal_process 9 15 SigInfo_NONE demo).1.1.2 = false) as _ by (vm_compute; reflexivity).
  assert (can_take 9 15 demo_9 = true) as Hc by (vm_compute; reflexivity).
  assert (exists u, slot (post_signal_process 9 15 SigInfo_NONE demo).2 1 = Some u /\ can_take 9 15 u = true)
    as (u & Hu & Hcu) by (vm_compute; eexists; split; reflexivity).
  destruct (post_signal_process 9 15 SigInfo_NONE demo) as [[[ret woke] rs] q']. cbn [snd] in *.
  destruct H as [_ [(_ & i & t & H1 & _)|[(_ & Hn & _)|(_ & _ & Hn)]]].
  - exists i, t. exact H1.
  - rewrite (Hn 1%nat u Hu) in Hcu. discriminate.
  - rewrite (Hn 1%nat u Hu) in Hcu. discriminate.
Defined.

(** What generating SIGKILL does to a thread of the group. *)
Lemma gen_map_kill tg mv t :
  tgid t = tg ->
  state (gen_map tg SIGKILL mv t) = (if state_eqb (state t) Stopped then Ready else state t)
  /\ signal_pending (gen_map tg SIGKILL mv t) = signal_pending t
  /\ shared_signal_pending (gen_map tg SIGKILL mv t) = shared_signal_pending t.
Proof.
  intros E. unfold gen_map. change (is_resume SIGKILL) with true. cbv zeta iota.
  destruct (resume_thread_fields tg SIGKILL mv t) as (_ & _ & _ & R4 & R5). destruct (R5 E) as (_ & R6 & R7). change (SIGKILL =? SIGCONT) with false in R6.
  destruct (resume_leader_fields SIGKILL (resume_thread tg SIGKILL mv t)) as (_ & _ & L3 & L4 & _ & _ & _ & L8). change (SIGKILL =? SIGCONT) with false in L8.
  destruct (_ =? tg); rewrite ?L3, ?L4, ?L8, R4, R6, R7; done.
Qed.

Lemma can_take_kill tg t : can_take tg SIGKILL t = (tgid t =? tg).
Proof. unfold can_take. change (has_bits UNBLOCKABLE (sig_bit SIGKILL)) with true. apply andb_true_r. Qed.

(** The thread of group [tg] that SIGKILL goes to: the first Blocked one in slot
    order, else the first. *)
Definition kill_target (tg : Z) (q : RunQueue) (i : nat) (t : Task) : Prop :=
  slot q i = Some t /\ tgid t = tg
  /\ forall j u, slot q j = Some u -> tgid u = tg ->
     (state t = Blocked -> state u = Blocked -> (i <= j)%nat) /\ (state t <> Blocked -> state u <> Blocked /\ (i <= j)%nat).

(** The target's state afterwards. *)
Definition kill_state (s : TaskState) : TaskState := match s with Blocked | Stopped => Ready | s => s end.

(** A kill in full: the target has it pending and is no longer Blocked or
    Stopped, and no other task of the group changes its pending signals. *)
Lemma post_kill tg info q :
  rq_ok q -> tg <> 0 -> (exists j t, slot q j = Some t /\ tgid t = tg) ->
  let '(ret, woke, _, q') := post_signal_process tg SIGKILL info q in
  ret = 0 /\ exists i t, kill_target tg q i t /\ (state t = Blocked -> woke = true)
  /\ (exists t', slot q' i = Some t' /\ tgid t' = tg /\ state t' = kill_state (state t)
       /\ signal_pending t' = Z.lor (signal_pending t) (sig_bit SIGKILL))
  /\ (forall j u, slot q j = Some u -> tgid u = tg -> j <> i ->
     exists u', slot q' j = Some u' /\ tgid u' = tg /\ state u' = (if state_eqb (state u) Stopped then Ready else state u)
                /\ signal_pending u' = signal_pending u /\ shared_signal_pending u' = shared_signal_pending u)
  /\ forall j u', slot q' j = Some u' -> exists u, slot q j = Some u /\ tgid u = tgid u'.
Proof.
  intros Hq Htg (k & v & Hk & Hv). pose proof (post_process_cases tg SIGKILL info q Hq Htg) as H.
  pose proof (generated_scan tg SIGKILL q Hq Htg) as [Hq1 Hg].
  destruct (post_signal_process tg SIGKILL info q) as [[[ret woke] rs] q']. cbv zeta in *.
  set (q1 := (on_signal_generated tg SIGKILL q).2) in *. clearbody q1. destruct H as [_ H].
  assert (forall j u, slot q j = Some u -> tgid u = tg -> exists u1, slot q1 j = Some u1 /\ can_take tg SIGKILL u1 = true /\ tgid u1 = tg
    /\ (state u1 = Blocked <-> state u = Blocked) /\ state u1 = (if state_eqb (state u) Stopped then Ready else state u)
    /\ signal_pending u1 = signal_pending u /\ shared_signal_pending u1 = shared_signal_pending u) as Hfw.
  { intros j u Hj Hu. rewrite Hg, Hj. eexists. split; [done|]. destruct (gen_map_fields tg SIGKILL (min_vruntime q) u) as (_ & E & _ & _ & _ & Eb).
    rewrite can_take_kill, E, Hu, Z.eqb_refl. destruct (gen_map_kill tg (min_vruntime q) u Hu) as (? & ? & ?). done. }
  destruct (Hfw k v Hk Hv) as (v1 & Hv1 & Hcv & _).
  destruct H as [(-> & i & t1 & mv & Hi & Ht & _ & Hsl & Hw & Hb & Ho1 & Ho2)|[(_ & Hno & _)|(_ & _ & Hno & _)]];
    [|by rewrite (Hno k v1 Hv1) in Hcv..].
  split; [done|]. pose proof Hi as Hi0. rewrite Hg in Hi. apply fmap_Some in Hi as (t & Et & Eg).
  assert (tgid t = tg) as Htt.
  { destruct (gen_map_fields tg SIGKILL (min_vruntime q) t) as (_ & E & _). rewrite can_take_kill, Eg, E in Ht. by apply Z.eqb_eq. }
  destruct (Hfw i t Et Htt) as (t2 & Hi1 & _ & Htg1 & Hbl & Hst & Hpe & _). rewrite Hi0 in Hi1. injection Hi1 as <-. clear Eg.
  exists i, t. split; [|split; [|split; [|split]]].
  - split; [done|]. split; [done|]. intros j u Hj Hu. destruct (Hfw j u Hj Hu) as (u1 & Hu1 & Hcu & _ & Hbu & _). split.
    + intros E1 E2. apply (Ho1 j u1); tauto.
    + intros E. split; [|apply (Ho2 j u1); tauto]. destruct Hb as [Hb|Hb]; [tauto|]. intros E2. apply (Hb j u1); tauto.
  - tauto.
  - exists (queue_on_thread SIGKILL info mv t1). destruct (queue_on_thread_fields SIGKILL info mv t1) as (_ & E2 & E3 & _ & _ & _ & E7).
    rewrite Hsl, decide_True by done. rewrite E2, E3, E7, Hst, Hpe. split; [done|]. split; [done|]. split; [by destruct (state t)|done].
  - intros j u Hj Hu Hne. destruct (Hfw j u Hj Hu) as (u1 & Hu1 & _ & ? & _ & ? & ? & ?). exists u1. rewrite Hsl, decide_False by done. done.
  - intros j u'. rewrite Hsl. destruct (decide (i = j)) as [<-|].
    + intros [= <-]. exists t. split; [done|]. destruct (queue_on_thread_fields SIGKILL info mv t1) as (_ & -> & _). congruence.
    + rewrite Hg. intros (u & Hu & ->)%fmap_Some. exists u. split; [done|]. by destruct (gen_map_fields tg SIGKILL (min_vruntime q) u) as (_ & -> & _).
Qed.

(** C3: SIGKILL cannot be blocked, parked or stopped against.  If the group has a
    thread, posting SIGKILL succeeds whatever the signal masks are and leaves no
    thread of the group Stopped.  It is made pending on the first Blocked thread
    in slot order, which becomes Ready (and the caller is told to kick a CPU),
    or, if none is Blocked, on the first thread of the group; if no thread of the
    group has begun to exit, the one that has it pending is Ready or Running.
    Threads already exiting are not passed over: that the target can be one, while
    live threads remain, is [sigkill_on_exiting_thread]. *)
Theorem sigkill_undeniable tg info q :
  rq_ok q -> tg <> 0 -> (exists j t, slot q j = Some t /\ tgid t = tg) ->
  let '(ret, woke, _, q') := post_signal_process tg SIGKILL info q in
  ret = 0
  /\ (forall j u, slot q' j = Some u -> tgid u = tg -> state u <> Stopped)
  /\ exists i t t', kill_target tg q i t /\ slot q' i = Some t'
     /\ pending_in_group tg SIGKILL q' i t' /\ state t' = kill_state (state t)
     /\ ((exists j u, slot q j = Some u /\ tgid u = tg /\ state u = Blocked) -> state t' = Ready /\ woke = true)
     /\ ((forall j u, slot q j = Some u -> tgid u = tg -> state u <> Zombie) -> state t' = Ready \/ state t' = Running).
Proof.
  intros Hq Htg Hex. pose proof (post_kill tg info q Hq Htg Hex) as H.
  destruct (post_signal_process tg SIGKILL info q) as [[[ret woke] rs] q'].
  destruct H as (-> & i & t & (Et & Htt & Hlow) & Hw & (t' & Ht' & Htg' & Hst & Hpe) & Hothers & Hback). split; [done|]. split.
  - intros j u' Hj' Hu'. destruct (Hback j u' Hj') as (u & Hj & Hu). rewrite Hu' in Hu. destruct (decide (j = i)) as [->|Hne].
    + rewrite Ht' in Hj'. injection Hj' as <-. rewrite Hst. by destruct (state t).
    + destruct (Hothers j u Hj Hu Hne) as (x & Hx & _ & Hs & _). rewrite Hj' in Hx. injection Hx as <-. rewrite Hs. by destruct (state u).
  - exists i, t, t'. split; [done|]. split; [done|]. split; [split; [done|]; split; [done|]; rewrite Hpe; apply land_lor_bit; vm_compute; split; congruence|].
    split; [done|]. split.
    + intros (j & u & Hj & Hu & Hb). destruct (Hlow j u Hj Hu) as [_ Hnb].
      destruct (decide (state t = Blocked)) as [E|E]; [|by destruct (Hnb E)]. rewrite Hst, E. by split; [|apply Hw].
    + intros Hnz. specialize (Hnz i t Et Htt). rewrite Hst. destruct (state t); cbn; auto. done.
Qed.

(** A group of two threads of process 7, the leader in slot 0. *)
Definition of_group : Z -> Task -> Task := ltac:(setter Task_eta tgid).
Definition demo_thread : Task := of_group 7 demo_b.
Definition demo_group : RunQueue := (enqueue demo_thread demo1).2.

Lemma demo_group_ok : rq_ok demo_group.
Proof.
  apply enqueue_preserves; [apply demo1_ok|split; vm_compute; split; congruence|reflexivity|].
  intros _ j t Hj%demo1_slot. cbn. lia.
Qed.

Lemma demo_group_slots j t :
  slot demo_group j = Some t -> tgid t = 7 /\ state t = Ready /\ signal_pending t = 0 /\ shared_signal_pending t = 0.
Proof.
  intros Hj. destruct (enqueue_fill demo1 1 demo_thread demo1_ok) as [_ _ Hs _]; [by vm_compute|intros _ k u Hk%demo1_slot; cbn; lia|].
  unfold demo_group in Hj. rewrite Hs in Hj. destruct (decide (1%nat = j)).
  - injection Hj as <-. by destruct (place_frame (min_vruntime demo1) demo_thread) as (vr & vd & -> & _).
  - destruct (enqueue_fill new 0 demo_a new_ok) as [_ _ Hs0 _]; [by vm_compute|by intros; rewrite slot_new in *|].
    unfold demo1 in Hj. rewrite Hs0 in Hj. destruct (decide (0%nat = j)); [|by rewrite slot_new in Hj].
    injection Hj as <-. by destruct (place_frame (min_vruntime new) demo_a) as (vr & vd & -> & _).
Qed.

(** Its leader stopped, with every signal blocked. *)
Definition demo_masked : RunQueue := modify 0 (fun t => demo_stop_task (set_signal_mask U64_MAX t)) demo_group.

Lemma demo_masked_ok :
  rq_ok demo_masked /\ forall j, slot demo_masked j = if decide (0%nat = j) then (fun t => demo_stop_task (set_signal_mask U64_MAX t)) <$> slot demo_group j else slot demo_group j.
Proof.
  apply modify_ok; [apply demo_group_ok| |unfold MAX_TASKS; lia]. intros t Ht. destruct (keeps_mask U64_MAX t Ht) as (K1 & K2 & K3 & _).
  destruct (keeps_demo_stop _ K3) as (L1 & L2 & L3 & _). split; [by rewrite L1|]. split; [by rewrite L2|]. split; [done|]. by rewrite not_scannable_state.
Qed.

Lemma sigkill_undeniable_witness :
  (forall j u, slot demo_masked j = Some u -> tgid u = 7 -> state u <> Zombie)
  /\ exists i t', pending_in_group 7 SIGKILL (post_signal_process 7 SIGKILL SigInfo_NONE demo_masked).2 i t' /\ (state t' = Ready \/ state t' = Running).
Proof.
  destruct demo_masked_ok as [Hok Hslots].
  assert (forall j u, slot demo_masked j = Some u -> tgid u = 7 -> state u <> Zombie) as Hnz.
  { intros j u Hj _. rewrite Hslots in Hj. destruct (decide (0%nat = j)).
    - apply fmap_Some in Hj as (x & _ & ->). discriminate.
    - destruct (demo_group_slots j u Hj) as (_ & -> & _). discriminate. }
  split; [exact Hnz|]. assert (exists j t, slot demo_masked j = Some t /\ tgid t = 7) as Hex.
  { exists 0%nat. vm_compute. eexists. split; reflexivity. }
  pose proof (sigkill_undeniable 7 SigInfo_NONE demo_masked Hok ltac:(lia) Hex) as H.
  destruct (post_signal_process 7 SIGKILL SigInfo_NONE demo_masked) as [[[ret woke] rs] q'].
  destruct H as (_ & _ & i & t & t' & _ & _ & Hp & _ & _ & Hz). exists i, t'. split; [exact Hp|exact (Hz Hnz)].
Defined.

(** C38: A thread that is already exiting can swallow SIGKILL.  The search for a
    target does not pass over Zombie threads: when none of the group's threads is
    Blocked and the one in the lowest slot has become a Zombie but has not been
    reaped yet, the call reports success, the signal is pending on the Zombie
    alone, and no live thread of the group has it pending, neither of its own nor
    process-wide, although the group may have any number of live threads. *)
Theorem sigkill_on_exiting_thread tg info q i t :
  rq_ok q -> tg <> 0 -> slot q i = Some t -> tgid t = tg -> state t = Zombie ->
  (forall j u, slot q j = Some u -> tgid u = tg ->
     (i <= j)%nat /\ state u <> Blocked /\ Z.land (Z.lor (signal_pending u) (shared_signal_pending u)) (sig_bit SIGKILL) = 0) ->
  let '(ret, _, _, q') := post_signal_process tg SIGKILL info q in
  ret = 0
  /\ (exists t', pending_in_group tg SIGKILL q' i t' /\ state t' = Zombie)
  /\ forall j u, slot q j = Some u -> tgid u = tg -> state u <> Zombie ->
     exists u', slot q' j = Some u' /\ state u' <> Zombie
                /\ Z.land (Z.lor (signal_pending u') (shared_signal_pending u')) (sig_bit SIGKILL) = 0.
Proof.
  intros Hq Htg Hi Ht Hz Hall. pose proof (post_kill tg info q Hq Htg (ex_intro _ i (ex_intro _ t (conj Hi Ht)))) as H.
  destruct (post_signal_process tg SIGKILL info q) as [[[ret woke] rs] q'].
  destruct H as (-> & k & x & (Hk & Hx & Hlow) & _ & (x' & Hx' & Htg' & Hst & Hpe) & Hothers & _). split; [done|].
  assert (k = i) as ->.
  { destruct (Hall k x Hk Hx) as (Hle & Hnb & _). destruct (Hlow i t Hi Ht) as [_ Hl]. destruct (Hl Hnb). lia. }
  rewrite Hi in Hk. injection Hk as <-. split.
  - exists x'. split; [|by rewrite Hst, Hz]. split; [done|]. split; [done|]. rewrite Hpe. apply land_lor_bit. vm_compute. split; congruence.
  - intros j u Hj Hu Hnz. assert (j <> i) as Hne by (intros ->; congruence). destruct (Hothers j u Hj Hu Hne) as (u' & Hu' & _ & Hs & Hp & Hsp).
    exists u'. split; [done|]. split; [rewrite Hs; by destruct (state u)|]. rewrite Hp, Hsp. by apply (Hall j u).
Qed.

(** The leader has exited, its thread runs on. *)
Definition demo_exiting : RunQueue := modify 0 (set_state Zombie) demo_group.

Lemma keeps_zombie : keeps (set_state Zombie).
Proof. intros t Ht. split; [done|]. split; [done|]. split; [by apply (task_ok_intro t _ Ht)|]. rewrite not_scannable_state; done. Qed.

Lemma sigkill_on_exiting_thread_witness :
  (post_signal_process 7 SIGKILL SigInfo_NONE demo_exiting).1.1.1 = 0
  /\ exists u', slot (post_signal_process 7 SIGKILL SigInfo_NONE demo_exiting).2 1 = Some u' /\ state u' <> Zombie
     /\ Z.land (Z.lor (signal_pending u') (shared_signal_pending u')) (sig_bit SIGKILL) = 0.
Proof.
  destruct (modify_ok 0 (set_state Zombie) demo_group demo_group_ok keeps_zombie ltac:(unfold MAX_TASKS; lia)) as [Hok Hslots].
  fold demo_exiting in Hok, Hslots.
  destruct (slot demo_exiting 0) as [z|] eqn:E0; [|vm_compute in E0; discriminate].
  destruct (slot demo_exiting 1) as [u|] eqn:E1; [|vm_compute in E1; discriminate].
  assert (forall j x, slot demo_exiting j = Some x -> tgid x = 7 /\ state x = (if decide (0%nat = j) then Zombie else Ready)
    /\ signal_pending x = 0 /\ shared_signal_pending x = 0) as Hx.
  { intros j x Hj. rewrite Hslots in Hj. destruct (decide (0%nat = j)).
    - apply fmap_Some in Hj as (y & Hy & ->). destruct (demo_group_slots j y Hy) as (? & _ & ? & ?). repeat split; assumption.
    - exact (demo_group_slots j x Hj). }
  pose proof (sigkill_on_exiting_thread 7 SigInfo_NONE demo_exiting 0 z Hok ltac:(lia) E0 (proj1 (Hx _ _ E0)) (proj1 (proj2 (Hx _ _ E0)))) as H.
  destruct (post_signal_process 7 SIGKILL SigInfo_NONE demo_exiting) as [[[ret woke] rs] q'].
  destruct H as (H1 & _ & H2).
  { intros j x Hj _. destruct (Hx j x Hj) as (_ & -> & -> & ->). split; [lia|]. split; [destruct (decide _); discriminate|reflexivity]. }
  split; [exact H1|]. destruct (Hx _ _ E1) as (G1 & G2 & _). apply (H2 1%nat u E1 G1). rewrite G2. discriminate.
Defined.

(** ** Termination of the notification recursion *)
Lemma not_cont_resumed tg signo info q :
  signo <> SIGCONT -> (post_signal_process tg signo info q).1.2 = None.
Proof.
  intros Hs. unfold post_signal_process.
  assert ((on_signal_generated tg signo q).1.2 = None) as Hr.
  { unfold on_signal_generated. rewrite (proj2 (Z.eqb_neq _ _) Hs). cbn [orb].
    destruct (signo =? SIGKILL); [|by case_match]. cbn. destruct (find_pid _ tg); [|done].
    by rewrite andb_false_r. }
  destruct (on_signal_generated tg signo q) as [[mr rs] q1]. cbn [fst snd] in Hr. subst rs.
  by repeat case_match.
Qed.

Lemma deliver_not_cont f g tg signo info q :
  signo <> SIGCONT -> deliver_signal_process_fuel f tg signo info q = deliver_signal_process_fuel g tg signo info q.
Proof.
  intros Hs. pose proof (not_cont_resumed tg signo info q Hs) as Hr.
  destruct f, g; cbn [deliver_signal_process_fuel]; (case_match; [done|]);
    destruct (post_signal_process tg signo info q) as [[[ret woke] rs] q1]; cbn [fst snd] in Hr; by subst rs.
Qed.

Lemma notify_deliver_ext f g r q :
  (forall tg info q, f tg SIGCHLD info q = g tg SIGCHLD info q) ->
  notify_continued f r q = notify_continued g r q.
Proof.
  intros H. destruct r as [[tg pp] u]. unfold notify_continued, notify_parent_state_change. by rewrite H.
Qed.

(** The mutual recursion between process-directed delivery and the parent
    notification terminates after one level: any further fuel gives the same
    result, because only SIGCONT notifies the parent and the notification is
    SIGCHLD. *)
Theorem deliver_fuel n tg signo info q :
  deliver_signal_process_fuel (S n) tg signo info q = deliver_signal_process tg signo info q.
Proof.
  unfold deliver_signal_process. cbn [deliver_signal_process_fuel]. case_match; [done|].
  destruct (post_signal_process tg signo info q) as [[[ret woke] rs] q1].
  destruct rs as [[[g pp] u]|]; [|done]. rewrite (notify_deliver_ext _ (deliver_signal_process_fuel 0)); [done|].
  intros. by apply deliver_not_cont.
Qed.

(** ** Accepting what was posted *)
Lemma find_pid_map q q' (f : Task -> Task) p :
  rq_base q -> rq_base q' -> p <> 0 -> (forall t, pid (f t) = pid t) ->
  (forall j, slot q' j = f <$> slot q j) -> find_pid q' p = f <$> find_pid q p.
Proof.
  intros Hq Hq' Hp Hf Hs. destruct (find_pid q p) as [t|] eqn:E.
  - apply find_pid_slot in E as (i & Hi & <-); [|done]. cbn. rewrite <- Hf.
    apply (slot_find_pid q' i); [done|by rewrite Hs, Hi|by rewrite Hf].
  - destruct (find_pid q' p) as [u|] eqn:E'; [|done]. apply find_pid_slot in E' as (i & Hi & <-); [|done].
    rewrite Hs in Hi. destruct (slot q i) as [t|] eqn:Ht; [|done]. injection Hi as <-.
    rewrite Hf in E, Hp. by rewrite (slot_find_pid q i t) in E.
Qed.

(** [accept_pending_signal] as a map over the table. *)
Lemma accept_scan me signo q t :
  rq_ok q -> me <> 0 -> 1 <= signo <= 64 -> find_pid q me = Some t -> tgid t <> 0 ->
  let r := accept_pending_signal me signo q in
  let bit := sig_bit signo in
  r.1 = (if has_bits (signal_pending t) bit then info_at t (Z.to_nat (signo - 1))
         else match find_pid q (tgid t) with
              | Some l => info_at l (Z.to_nat (signo - 1)) | None => SigInfo_NONE end)
  /\ rq_ok r.2
  /\ forall j, slot r.2 j = (fun u =>
       let u := if pid u =? me then set_signal_pending (drop_bits (signal_pending u) bit) u else u in
       if pid u =? tgid t then set_shared_signal_pending (drop_bits (shared_signal_pending u) bit) u else u)
     <$> slot q j.
Proof.
  intros Hq Hme Hs Hf Ht. cbv zeta. unfold accept_pending_signal.
  rewrite (proj2 (Z.eqb_neq signo 0)), (proj2 (Z.ltb_ge 64 signo)) by lia. cbn [orb]. rewrite Hf. cbn [fst snd].
  destruct (modify_pid_ok me (fun t => set_signal_pending (drop_bits (signal_pending t) (sig_bit signo)) t) q Hq)
    as [H1 H2]; [auto with kernel|done|]. set (q1 := modify_pid me _ q) in *. clearbody q1.
  destruct (modify_pid_ok (tgid t) (fun l => set_shared_signal_pending
    (drop_bits (shared_signal_pending l) (sig_bit signo)) l) q1 H1) as [H3 H4]; [auto with kernel|done|].
  split; [done|]. split; [done|]. intros j. by rewrite H4, H2, fmap_fmap_option.
Qed.

(** Posting a signal to a thread and accepting it are inverse: a signal that
    was not pending on the thread is accepted with the payload it was posted
    with; a second arrival while one is pending does not repaint that payload;
    after the accept the signal is pending neither on the thread nor on its
    leader's process-level set. *)
Theorem post_accept_roundtrip me signo info info2 q t :
  rq_ok q -> me <> 0 -> 1 <= signo <= 64 -> signo <> SIGCONT -> signo <> SIGKILL -> is_stop signo = false ->
  find_pid q me = Some t -> tgid t <> 0 -> length (signal_info t) = 64%nat ->
  Z.land (signal_pending t) (sig_bit signo) = 0 ->
  let q1 := (post_signal_thread me signo info q).2 in
  let q2 := (post_signal_thread me signo info2 q1).2 in
  let r := accept_pending_signal me signo q2 in
  (post_signal_thread me signo info q).1.1.1 = 0
  /\ r.1 = info
  /\ Z.land (pending_signals me r.2) (sig_bit signo) = 0
  /\ Z.land (shared_pending_signals me r.2) (sig_bit signo) = 0.
Proof.
  intros Hq Hme Hs Hnc Hnk Hst Hf Hg Hlen Hp. cbv zeta.
  assert (forall q0 tg, on_signal_generated tg signo q0 = (false, None, q0)) as Hgen.
  { intros q0 tg. unfold on_signal_generated. unfold is_stop, is_resume in Hst.
    rewrite (proj2 (Z.eqb_neq _ _) Hnc), (proj2 (Z.eqb_neq _ _) Hnk) in *. cbn [orb negb andb] in *. by rewrite Hst. }
  assert (valid_signo signo = true) as Hv.
  { unfold valid_signo. apply andb_true_iff. split; [apply Z.ltb_lt|apply Z.leb_le]; lia. }
  assert (forall q0 u inf, rq_ok q0 -> find_pid q0 me = Some u -> exists mv w,
    post_signal_thread me signo inf q0 = (0, w, None, (post_signal_thread me signo inf q0).2)
    /\ rq_ok (post_signal_thread me signo inf q0).2
    /\ find_pid (post_signal_thread me signo inf q0).2 me = Some (queue_on_thread signo inf mv u)) as Hpost.
  { intros q0 u inf Hq0 Hu. pose proof (find_pid_slot q0 me u (proj1 Hq0) Hu) as (i & Hi & Hpi).
    assert (find_pid_idx q0 me = Some i) as Hidx.
    { rewrite <- Hpi. apply find_pid_idx_slot; [apply Hq0|done|congruence]. }
    unfold post_signal_thread. rewrite Hv, Hu, Hgen, Hidx.
    change (slot (touch i q0) i) with (slot q0 i). rewrite Hi.
    pose proof (min_vruntime_bound q0 Hq0) as [Hm _]. exists (min_vruntime q0). eexists. split; [done|]. cbn [snd].
    destruct (write_keeps i u (queue_on_thread signo inf (min_vruntime q0)) q0 Hq0 Hi) as [W1 W2]; [auto with kernel|].
    split; [done|]. destruct (queue_on_thread_fields signo inf (min_vruntime q0) u) as (E1 & _).
    rewrite <- Hpi, <- E1. apply (slot_find_pid _ i); [apply W1|rewrite W2; by rewrite decide_True|congruence]. }
  destruct (Hpost q t info Hq Hf) as (mv & w & P1 & P2 & P3). rewrite P1. cbn [fst snd].
  set (q1 := (post_signal_thread me signo info q).2) in *. clearbody q1.
  destruct (Hpost q1 _ info2 P2 P3) as (mv2 & w2 & _ & Q2 & Q3).
  set (q2 := (post_signal_thread me signo info2 q1).2) in *. clearbody q2. clear P1 Hpost.
  set (t1 := queue_on_thread signo info mv t) in *. set (t2 := queue_on_thread signo info2 mv2 t1) in *.
  destruct (queue_on_thread_fields signo info mv t) as (A1 & A2 & A3 & _ & _ & A6 & _). fold t1 in A1, A2, A3, A6.
  destruct (queue_on_thread_fields signo info2 mv2 t1) as (B1 & B2 & B3 & _ & _ & B6 & _). fold t2 in B1, B2, B3, B6.
  clearbody t1 t2.
  assert (has_bits (signal_pending t1) (sig_bit signo) = true) as Hb1.
  { unfold has_bits. rewrite A3. apply negb_true_iff, Z.eqb_neq. by apply land_lor_bit. }
  assert (has_bits (signal_pending t2) (sig_bit signo) = true) as Hb2.
  { unfold has_bits. rewrite B3. apply negb_true_iff, Z.eqb_neq. by apply land_lor_bit. }
  assert (tgid t2 <> 0) as Hg2 by congruence.
  destruct (accept_scan me signo q2 t2 Q2 Hme Hs Q3 Hg2) as (R1 & R2 & R3).
  set (r := accept_pending_signal me signo q2) in *. clearbody r.
  assert (is_u64 (sig_bit signo)) as Hu by (apply u64_bit; lia).
  split; [done|]. split; [|split].
  - rewrite R1, Hb2. unfold info_at. rewrite B6, Hb1, A6. unfold has_bits. rewrite Hp. cbn [Z.eqb negb].
    rewrite nth_lookup, list_lookup_insert_eq by lia. done.
  - unfold pending_signals. set (g := fun u => _) in R3.
    assert (forall u, pid (g u) = pid u) as Hgp by (intros u; unfold g; cbn; by repeat case_match).
    rewrite (find_pid_map q2 r.2 g me), Q3 by (done || apply Q2 || apply R2).
    cbn [fmap option_fmap option_map].
    assert (pid t2 = me) as Hpm by (apply find_pid_slot in Q3 as (? & _ & ?); [done|apply Q2]).
    unfold g. cbv zeta. rewrite (proj2 (Z.eqb_eq _ _) Hpm).
    transitivity (Z.land (drop_bits (signal_pending t2) (sig_bit signo)) (sig_bit signo));
      [by destruct (pid (set_signal_pending _ t2) =? tgid t2)|].
    by apply drop_bits_none.
  - unfold shared_pending_signals. set (g := fun u => _) in R3.
    assert (forall u, pid (g u) = pid u /\ tgid (g u) = tgid u) as Hgp by (intros u; unfold g; cbn; by repeat case_match).
    rewrite (find_pid_map q2 r.2 g me), Q3 by (done || apply Q2 || apply R2 || apply Hgp).
    cbn [fmap option_fmap option_map]. rewrite (proj2 (Hgp t2)). rewrite (find_pid_map q2 r.2 g (tgid t2)) by (done || apply Q2 || apply R2 || apply Hgp).
    destruct (find_pid q2 (tgid t2)) as [l|] eqn:El; [|done]. cbn [fmap option_fmap option_map].
    apply find_pid_slot in El as (? & _ & El); [|apply Q2]. unfold g. cbv zeta.
    replace (pid (if pid l =? me then _ else l)) with (pid l) by (by destruct (pid l =? me)).
    rewrite (proj2 (Z.eqb_eq _ _) El). by apply drop_bits_none.
Qed.

Lemma post_accept_roundtrip_witness :
  (accept_pending_signal 9 10
     (post_signal_thread 9 10 (SigInfo_tkill 3 0) (post_signal_thread 9 10 (SigInfo_user 2 5) demo).2).2).1
  = SigInfo_user 2 5.
Proof.
  apply (post_accept_roundtrip 9 10 (SigInfo_user 2 5) (SigInfo_tkill 3 0) demo demo_9 demo_ok);
    vm_compute; try reflexivity; try congruence; try (split; congruence).
Defined.

(** ** Stop and continue *)
(** The part of a task's state that neither a wake nor SIGCHLD changes. *)
Definition unless_blocked (q q' : RunQueue) : Prop :=
  forall j t, slot q j = Some t -> exists t', slot q' j = Some t'
    /\ pid t' = pid t /\ tgid t' = tgid t /\ (state t <> Blocked -> state t' = state t).

#[export] Instance unless_blocked_preorder : PreOrder unless_blocked.
Proof.
  split; [by intros q j t Ht; exists t|]. intros q1 q2 q3 H1 H2 j t Ht.
  destruct (H1 j t Ht) as (t2 & Ht2 & E1 & E2 & E3). destruct (H2 j t2 Ht2) as (t3 & Ht3 & F1 & F2 & F3).
  exists t3. split; [done|]. split; [congruence|]. split; [congruence|].
  intros Hb. rewrite F3; [by apply E3|]. by rewrite E3.
Qed.

Lemma wake_poll_frame q : rq_ok q -> rq_ok (wake_poll q) /\ unless_blocked q (wake_poll q).
Proof.
  intros Hq. unfold wake_poll, wake_poll_tagged.
  destruct (unblock_scan POLL_WAIT_CHANNEL POLL_TAG_ALL q Hq) as (H1 & _ & H3). split; [done|].
  intros j t Hj. rewrite H1, Hj. cbn [fmap option_fmap option_map]. eexists. split; [done|].
  unfold unblock_map. destruct (unblocks POLL_WAIT_CHANNEL POLL_TAG_ALL t) eqn:E; [|done].
  pose proof (min_vruntime_bound q Hq) as [Hm _].
  destruct (wake_task_wakes (min_vruntime q) t Hm) as (W1 & W2 & _); [by apply (rq_task q (proj1 Hq) j)|].
  split; [done|]. split; [done|]. intros Hb. exfalso. unfold unblocks in E. bool_to_prop.
  by apply Hb, state_eqb_true.
Qed.

Lemma slot_update_frame q q' i t t' :
  slot q i = Some t -> (forall j, slot q' j = if decide (i = j) then Some t' else slot q j) ->
  pid t' = pid t -> tgid t' = tgid t -> (state t <> Blocked -> state t' = state t) -> unless_blocked q q'.
Proof.
  intros Hi Hs H1 H2 H3 j u Hj. rewrite Hs. destruct (decide (i = j)) as [<-|]; [|by exists u].
  rewrite Hi in Hj. simplify_eq. by exists t'.
Qed.

(** Posting SIGCHLD writes at most one task. *)
Lemma post_sigchld_cases tg info q :
  rq_ok q ->
  let q' := (post_signal_process tg SIGCHLD info q).2 in
  rq_ok q' /\ (q' = q \/ exists i t f, slot q i = Some t
    /\ (f = queue_on_thread SIGCHLD info (min_vruntime q) \/ f = park_on_leader SIGCHLD info)
    /\ forall j, slot q' j = if decide (i = j) then Some (f t) else slot q j).
Proof.
  intros Hq. cbv zeta. unfold post_signal_process. change (on_signal_generated tg SIGCHLD q) with (false, @None (Z * Z * Z), q).
  cbv iota. pose proof (min_vruntime_bound q Hq) as [Hm _].
  pose proof (choose_thread_spec tg SIGCHLD q (live_slots q) None I) as Hch.
  destruct (choose_thread _ _ _ _ _ _) as [i|].
  - destruct Hch as (t & Hi & _). change (slot (touch i q) i) with (slot q i). rewrite Hi. cbn [snd].
    destruct (write_keeps i t (queue_on_thread SIGCHLD info (min_vruntime q)) q Hq Hi) as [W1 W2]; [auto with kernel|].
    split; [done|]. right. exists i, t. eauto.
  - pose proof (find_pid_idx_lookup q tg (proj1 Hq)) as Hl. destruct (find_pid_idx q tg) as [li|]; [|by split; [|left]].
    destruct Hl as (t & Hi & _). cbn [snd].
    destruct (modify_ok li (park_on_leader SIGCHLD info) q Hq) as [W1 W2];
      [auto with kernel|eapply slot_lt; [apply Hq|done]|].
    split; [done|]. right. exists li, t, (park_on_leader SIGCHLD info). split; [done|]. split; [by right|].
    intros j. rewrite W2. destruct (decide (li = j)) as [<-|]; [by rewrite Hi|done].
Qed.

Lemma post_sigchld_frame tg info q :
  rq_ok q ->
  let q' := (post_signal_process tg SIGCHLD info q).2 in rq_ok q' /\ unless_blocked q q'.
Proof.
  intros Hq. cbv zeta. destruct (post_sigchld_cases tg info q Hq) as [H1 H2]. split; [done|].
  destruct H2 as [->|(i & t & f & Hi & Hf & Hs)]; [done|]. apply (slot_update_frame q _ i t (f t)); [done|done|..]; destruct Hf as [->| ->].
  1,3,5: destruct (queue_on_thread_fields SIGCHLD info (min_vruntime q) t) as (E1 & E2 & _ & _ & _ & _ & E7); try done.
  { intros Hb. rewrite E7. destruct (state_eqb (state t) Blocked) eqn:E; [by apply state_eqb_true in E|done]. }
  all: unfold park_on_leader; by destruct (negb _).
Qed.

Lemma deliver_sigchld_frame tg info q :
  rq_ok q ->
  let q' := (deliver_signal_process tg SIGCHLD info q).2 in rq_ok q' /\ unless_blocked q q'.
Proof.
  intros Hq. cbv zeta. unfold deliver_signal_process. rewrite (deliver_not_cont 1 0) by done.
  unfold deliver_signal_process_fuel. change ((SIGCHLD =? 0) || (64 <? SIGCHLD)) with false. cbv iota.
  pose proof (post_sigchld_frame tg info q Hq) as [H1 H2].
  destruct (post_signal_process tg SIGCHLD info q) as [[[ret woke] rs] q1]. cbn [snd] in *.
  assert (match rs with Some _ => q1 | None => q1 end = q1) as -> by (by destruct rs).
  destruct (wake_poll_frame q1 H1) as [H3 H4]. split; [done|]. by etrans.
Qed.

Lemma notify_frame tg pp info q :
  rq_ok q ->
  let q' := notify_parent_state_change deliver_signal_process tg pp info q in rq_ok q' /\ unless_blocked q q'.
Proof.
  intros Hq. cbv zeta. unfold notify_parent_state_change. destruct ((tg =? 0) || (pp =? 0)); [done|].
  set (sup := match find_pid q _ with Some _ => _ | None => _ end). destruct sup; [by apply wake_poll_frame|].
  by apply deliver_sigchld_frame.
Qed.

Lemma keeps_stop_leader sig : keeps (stop_leader sig).
Proof. intros t Ht. unfold stop_leader. destruct (stop_signal t =? 0); keeps_fields t Ht. Qed.

Lemma keeps_stop_thread me tg : keeps (stop_thread me tg).
Proof.
  intros t Ht. unfold stop_thread. destruct (negb (tgid t =? tg) || state_eqb (state t) Zombie); [done|].
  set (t1 := set_stop_pending true _). cbv zeta.
  assert (keeps (fun t => clear_block_fields (set_state Stopped t))) as K.
  { intros u Hu. split; [done|]. split; [done|]. split; [by apply (task_ok_intro u _ Hu)|].
    by rewrite not_scannable_state. }
  assert (task_ok t1) as Ht1 by (by apply (task_ok_intro t)).
  destruct (K t1 Ht1) as (K1 & K2 & K3 & K4).
  assert (pid t1 = pid t /\ tgid t1 = tgid t /\ wake_scannable t1 = wake_scannable t) as (E1 & E2 & E3) by done.
  clearbody t1. rewrite <- E1, <- E2, <- E3. repeat case_match; done.
Qed.

Lemma stop_thread_stopped me tg t :
  tgid t = tg -> state t <> Zombie -> pid t = me \/ (on_cpu t = None /\ state t <> Running) ->
  state (stop_thread me tg t) = Stopped.
Proof.
  intros Hg Hz Hc. unfold stop_thread. rewrite (proj2 (Z.eqb_eq _ _) Hg). cbn [negb orb].
  destruct (state_eqb (state t) Zombie) eqn:E; [by apply state_eqb_true in E|]. cbv zeta.
  cbn [pid on_cpu state set_stop_pending set_signal_pending]. destruct (Z.eqb_spec (pid t) me) as [|Hne]; [done|].
  destruct Hc as [|[Ho Hr]]; [done|]. rewrite Ho. cbn. destruct (state t) eqn:Es; done.
Qed.

Lemma stop_fields me tg sig t :
  pid (stop_thread me tg t) = pid t /\ tgid (stop_thread me tg t) = tgid t
  /\ pid (stop_leader sig t) = pid t /\ tgid (stop_leader sig t) = tgid t
  /\ state (stop_leader sig t) = state t /\ on_cpu (stop_leader sig t) = on_cpu t.
Proof.
  unfold stop_leader, stop_thread. destruct (stop_signal t =? 0); repeat split; repeat case_match; done.
Qed.

(** What the default stop action does to each task. *)
Lemma do_stop_slots me sig q t :
  rq_ok q -> find_pid q me = Some t -> tgid t <> 0 ->
  let q1 := do_signal_stop me sig q in
  rq_ok q1 /\ forall j u, slot q j = Some u -> exists u1, slot q1 j = Some u1 /\ pid u1 = pid u /\ tgid u1 = tgid u
    /\ (tgid u = tgid t -> state u <> Zombie -> pid u = me \/ (on_cpu u = None /\ state u <> Running) -> state u1 = Stopped).
Proof.
  intros Hq Hf Hg. cbv zeta. unfold do_signal_stop. rewrite Hf. cbv zeta.
  destruct (modify_pid_ok (tgid t) (stop_leader sig) q Hq (keeps_stop_leader sig) Hg) as [A1 A2].
  set (qa := modify_pid (tgid t) (stop_leader sig) q) in *. clearbody qa.
  destruct (for_live_ok (stop_thread me (tgid t)) qa A1 (keeps_stop_thread me (tgid t))) as [B1 B2].
  set (qb := for_live (stop_thread me (tgid t)) qa) in *. clearbody qb.
  destruct (notify_frame (tgid t) (ppid t) (SigInfo_child_state CLD_STOPPED (tgid t) (uid t) sig) qb B1) as [C1 C2].
  set (q1 := notify_parent_state_change _ _ _ _ qb) in *. clearbody q1. split; [done|].
  intros j u Hj. set (u' := if pid u =? tgid t then stop_leader sig u else u).
  assert (slot qa j = Some u') as Ha by (rewrite A2, Hj; done).
  assert (pid u' = pid u /\ tgid u' = tgid u /\ state u' = state u /\ on_cpu u' = on_cpu u) as (E1 & E2 & E3 & E4).
  { unfold u'. destruct (pid u =? tgid t); [|done].
    destruct (stop_fields me (tgid t) sig u) as (_ & _ & ? & ? & ? & ?). done. }
  clearbody u'. assert (slot qb j = Some (stop_thread me (tgid t) u')) as Hb by (rewrite B2, Ha; done).
  destruct (stop_fields me (tgid t) sig u') as (F1 & F2 & _).
  destruct (C2 j _ Hb) as (u1 & Hu1 & G1 & G2 & G3). exists u1. split; [done|]. split; [congruence|]. split; [congruence|].
  intros Hug Hz Hc. assert (state (stop_thread me (tgid t) u') = Stopped) as Hs
    by (apply stop_thread_stopped; rewrite ?E1, ?E2, ?E3, ?E4; done).
  rewrite G3; [done|by rewrite Hs].
Qed.

(** C37: Job control round trip: after the default stop action every thread of
    the caller's group that is off-CPU (and the caller itself) is Stopped,
    whatever it was blocked on, and notifying the parent does not disturb that;
    a later SIGCONT leaves none of them Stopped and makes each Ready again. *)
Theorem stop_continue me sig q t :
  rq_ok q -> me <> 0 -> find_pid q me = Some t -> tgid t <> 0 ->
  let q1 := do_signal_stop me sig q in
  let q2 := (on_signal_generated (tgid t) SIGCONT q1).2 in
  rq_ok q1 /\ rq_ok q2
  /\ (forall j u, slot q j = Some u -> tgid u = tgid t -> state u <> Zombie ->
        pid u = me \/ (on_cpu u = None /\ state u <> Running) ->
        (exists u1, slot q1 j = Some u1 /\ state u1 = Stopped)
        /\ (exists u2, slot q2 j = Some u2 /\ state u2 = Ready))
  /\ (forall j u, slot q2 j = Some u -> tgid u = tgid t -> state u <> Stopped).
Proof.
  intros Hq Hme Hf Hg. cbv zeta. destruct (do_stop_slots me sig q t Hq Hf Hg) as [C1 C2].
  set (q1 := do_signal_stop me sig q) in *. clearbody q1.
  destruct (generated_scan (tgid t) SIGCONT q1 C1 Hg) as [D1 D2].
  set (q2 := (on_signal_generated (tgid t) SIGCONT q1).2) in *. clearbody q2.
  split; [done|]. split; [done|]. split.
  - intros j u Hj Hug Hz Hc. destruct (C2 j u Hj) as (u1 & Hu1 & G1 & G2 & G3). specialize (G3 Hug Hz Hc).
    split; [by exists u1|]. exists (gen_map (tgid t) SIGCONT (min_vruntime q1) u1).
    split; [by rewrite D2, Hu1|]. assert (tgid u1 = tgid t) as Hgt by congruence.
    unfold gen_map. change (is_resume SIGCONT) with true. cbv zeta iota.
    destruct (resume_thread_fields (tgid t) SIGCONT (min_vruntime q1) u1) as (_ & _ & _ & _ & R5).
    destruct (R5 Hgt) as (_ & _ & R6). rewrite G3 in R6. cbn in R6.
    set (v := resume_thread _ _ _ u1) in *. clearbody v.
    destruct (resume_leader_fields SIGCONT v) as (_ & _ & L3 & _). by destruct (pid v =? tgid t); rewrite ?L3.
  - intros j u Hj Hu. rewrite D2 in Hj. destruct (slot q1 j) as [v|]; [|done]. injection Hj as <-.
    destruct (gen_map_fields (tgid t) SIGCONT (min_vruntime q1) v) as (_ & E & _ & _ & Hst & _).
    apply Hst; [done|]. by rewrite <- E.
Qed.

Lemma stop_continue_witness :
  exists u1, slot (do_signal_stop 9 SIGSTOP demo_parked) 1 = Some u1 /\ state u1 = Stopped.
Proof.
  destruct (stop_continue 9 SIGSTOP demo_parked (block_task 5 1000 4 demo_9) demo_parked_ok) as (_ & _ & H & _).
  - lia.
  - vm_compute. reflexivity.
  - vm_compute. congruence.
  - apply (H 1%nat (block_task 5 1000 4 demo_9)).
    + vm_compute. reflexivity.
    + reflexivity.
    + vm_compute. congruence.
    + left. reflexivity.
Defined.

(** ** Admission and poll tags *)

(** The fork limits are exact: [admit_locked] answers EAGAIN iff the task
    table is full or a new process would exceed [MAX_PROCESSES] counting the
    thread-group leaders in the table and the unwaited zombie records; and an
    admitted task always finds a slot, so the enqueue that follows under the
    same lock cannot fail. *)
Theorem admission_exact zombies new_process task q :
  rq_ok q ->
  (admit_locked zombies new_process q = 0 \/ admit_locked zombies new_process q = EAGAIN)
  /\ (admit_locked zombies new_process q = 0 <->
      (length (live q) < MAX_TASKS)%nat
      /\ (new_process = true -> (length (List.filter leader (live q)) + zombies < MAX_PROCESSES)%nat))
  /\ (admit_locked zombies new_process q = 0 -> (enqueue task q).1 = true).
Proof.
  intros [Hq _]. unfold admit_locked, process_count. rewrite (rq_nproc q Hq).
  pose proof (free_slot_len q Hq) as Hfree. rewrite <- (rq_len q Hq).
  destruct (Nat.leb_spec MAX_TASKS (len q)) as [H1|H1].
  { split; [by right|]. split; [|done]. split; [done|]. intros [? _]. lia. }
  assert ((enqueue task q).1 = true) as He.
  { unfold enqueue. destruct (free_slot q); [done|]. by destruct (proj2 Hfree H1). }
  destruct new_process; cbn [andb]; [|split; [by left|]; split; [|done]; by split].
  destruct (Nat.leb_spec MAX_PROCESSES (length (List.filter leader (live q)) + zombies)) as [H2|H2].
  - split; [by right|]. split; [|done]. split; [done|]. intros [_ H]. specialize (H eq_refl). lia.
  - split; [by left|]. split; [|done]. split; [|done]. intros _. split; [done|]. intros _. done.
Qed.

Lemma admission_exact_witness : (enqueue demo_b demo1).1 = true.
Proof.
  apply (admission_exact 3 true demo_b demo1 demo1_ok). vm_compute. reflexivity.
Defined.

(** A poll tag is a single bit of the 64, so it is never the empty mask nor
    the broadcast, and a waiter whose interest mask contains the tag of an
    object is woken by every wake that names this object, whatever else hashes
    to the same bit. *)
Theorem poll_tag_reaches class index q j t :
  rq_ok q -> slot q j = Some t -> state t = Blocked -> blocked_on t = Some POLL_WAIT_CHANNEL ->
  Z.land (poll_mask t) (poll_tag class index) = poll_tag class index ->
  (exists k, 0 <= k < 64 /\ poll_tag class index = 2 ^ k)
  /\ poll_tag class index <> POLL_TAG_ALL
  /\ exists t', slot (wake_poll_tagged (poll_tag class index) q) j = Some t' /\ state t' = Ready.
Proof.
  intros Hq Hj Hb Hp Hm.
  assert (exists k, 0 <= k < 64 /\ poll_tag class index = 2 ^ k) as (k & Hk & Ek).
  { unfold poll_tag. cbv zeta. set (x := xor_shift _). exists (Z.land x 63). split; [|apply Z.shiftl_1_l].
    change 63 with (Z.ones 6). rewrite Z.land_ones by lia. by apply Z.mod_pos_bound. }
  split; [by exists k|]. set (tag := poll_tag class index) in *. clearbody tag. split.
  - intros E. rewrite E in Ek. assert (Z.testbit (2 ^ k) 0 = true /\ Z.testbit (2 ^ k) 1 = true) as [T0 T1].
    { rewrite <- Ek. by vm_compute. }
    rewrite Z.pow2_bits_eqb in T0, T1 by lia. apply Z.eqb_eq in T0, T1. lia.
  - destruct (unblock_scan POLL_WAIT_CHANNEL tag q Hq) as (H1 & _). unfold wake_poll_tagged. rewrite H1, Hj.
    cbn [fmap option_fmap option_map]. eexists. split; [done|]. unfold unblock_map.
    assert (unblocks POLL_WAIT_CHANNEL tag t = true) as ->; [|apply wake_task_fields].
    unfold unblocks, is_blocked_on. rewrite Hb, Hp, Hm. rewrite bool_decide_eq_true_2 by done. cbn [andb state_eqb].
    assert (tag <> 0) as Hnz by (rewrite Ek; assert (0 < 2 ^ k) by (apply Z.pow_pos_nonneg; lia); lia).
    unfold state_eqb. rewrite bool_decide_eq_true_2 by done. cbn [andb]. by rewrite (proj2 (Z.eqb_neq _ _) Hnz).
Qed.

Lemma poll_tag_reaches_witness :
  exists t', slot (wake_poll_tagged (poll_tag 1 3)
                     (block_on_port_until 9 POLL_WAIT_CHANNEL 1000 (poll_tag 1 3) demo)) 1 = Some t'
             /\ state t' = Ready.
Proof.
  apply (poll_tag_reaches 1 3 _ 1 (block_task POLL_WAIT_CHANNEL 1000 (poll_tag 1 3) demo_9)).
  - apply (block_ok demo 9 POLL_WAIT_CHANNEL 1000 (poll_tag 1 3) 1 demo_9);
      [apply demo_ok|lia|apply demo_slot1|reflexivity].
  - vm_compute. reflexivity.
  - reflexivity.
  - reflexivity.
  - vm_compute. reflexivity.
Defined.
