(* ===== verification/ExitLog.v ===== *)
(** * The exit log: where exit statuses wait for the parent

    Models [ExitLog] of [src/sched/src/lib.rs] and the queries on it.  The
    lock-free population counter [ZOMBIE_RECORDS] is the field [records].  The
    one-time console line of a full pool is left out; [log_exit] returns the
    poll tags it requests to be woken. *)
From S2P Require Import Prelude KLib PidMap Task RunQueue Signals.

Definition EXIT_RECENT_LEN : nat := 256.
Definition MAX_ZOMBIE_RECORDS : nat := MAX_PROCESSES.
Definition ZUSED_WORDS : nat := 32.

Record ExitRecord := mkExitRecord {
  rec_pid : Z; rec_status : ExitStatus; rec_parent_tgid : Z; rec_pgid : Z;
  is_process : bool; consumed : bool }.

Record ExitLog := mkExitLog {
  zombies : list (option ExitRecord);
  zused : list Z;
  recent : list (option ExitRecord);
  ridx : nat;
  spilled : bool;
  records : nat }.

Definition new_log : ExitLog :=
  mkExitLog (replicate MAX_ZOMBIE_RECORDS None) (replicate ZUSED_WORDS 0)
    (replicate EXIT_RECENT_LEN None) 0 false 0.

Definition zombie (g : ExitLog) (i : nat) : option ExitRecord := mjoin (zombies g !! i).

Definition push_recent (r : ExitRecord) (g : ExitLog) : ExitLog :=
  mkExitLog (zombies g) (zused g) (<[ridx g := Some r]> (recent g))
    ((ridx g + 1) mod EXIT_RECENT_LEN) (spilled g) (records g).

(** The scan of [zused] for a word with a clear bit is [Bitmap.first_clear]. *)
Definition insert_rec (r : ExitRecord) (g : ExitLog) : ExitLog :=
  if is_process r && negb (consumed r) then
    match Bitmap.first_clear (zused g) with
    | Some i => mkExitLog (<[i := Some r]> (zombies g)) (Bitmap.set (zused g) i) (recent g) (ridx g)
                  (spilled g) (S (records g))
    | None => push_recent r (mkExitLog (zombies g) (zused g) (recent g) (ridx g) true (records g))
    end
  else push_recent r g.

Definition zombie_slots (g : ExitLog) : list nat := words_slots (word_at (zused g)) ZUSED_WORDS.

Definition set_consumed (r : ExitRecord) : ExitRecord :=
  mkExitRecord (rec_pid r) (rec_status r) (rec_parent_tgid r) (rec_pgid r) (is_process r) true.
Definition set_rec_pgid (pg : Z) (r : ExitRecord) : ExitRecord :=
  mkExitRecord (rec_pid r) (rec_status r) (rec_parent_tgid r) pg (is_process r) (consumed r).

(** [fetch_sub(1)] on a positive counter is [Nat.pred]. *)
Definition consume_zombie (i : nat) (g : ExitLog) : ExitLog :=
  match zombie g i with
  | Some r => push_recent (set_consumed r)
                (mkExitLog (<[i := None]> (zombies g)) (Bitmap.clear (zused g) i) (recent g) (ridx g)
                   (spilled g) (Nat.pred (records g)))
  | None => g
  end.

Definition unconsumed (r : ExitRecord) : bool := is_process r && negb (consumed r).

Definition any_pending (p : ExitRecord -> bool) (g : ExitLog) : bool :=
  existsb (fun i => match zombie g i with Some r => p r | None => false end) (zombie_slots g)
  || (spilled g && existsb (fun r => unconsumed r && p r) (omap id (recent g))).

Definition for_each_pending (f : ExitRecord -> ExitRecord) (g : ExitLog) : ExitLog :=
  let zs := foldl (fun (zs : list (option ExitRecord)) i =>
                     match zs !! i with
                     | Some (Some r) => <[i := Some (f r)]> zs | _ => zs end)
              (zombies g) (zombie_slots g) in
  let rs := if spilled g
            then map (option_map (fun r => if unconsumed r then f r else r)) (recent g)
            else recent g in
  mkExitLog zs (zused g) rs (ridx g) (spilled g) (records g).

Definition zombie_records (g : ExitLog) : nat := records g.

(** ** Queries and updates used by wait, pidfd and setpgid *)
Definition exit_logged_unconsumed (tg : Z) (g : ExitLog) : bool := any_pending (fun r => rec_pid r =? tg) g.
Definition exit_logged_pgid (pg : Z) (g : ExitLog) : bool := any_pending (fun r => rec_pgid r =? pg) g.

Definition get_exit_code (p : Z) (g : ExitLog) : option Z :=
  match head (List.filter (fun r => rec_pid r =? p) (omap (zombie g) (zombie_slots g))) with
  | Some r => Some (code (rec_status r))
  | None => code ∘ rec_status <$> head (List.filter (fun r => rec_pid r =? p) (omap id (recent g)))
  end.

Definition matches_child (p parent : Z) (r : ExitRecord) : bool :=
  (rec_pid r =? p) && (rec_parent_tgid r =? parent).
Definition set_pgid_exited_child (p pg parent : Z) (g : ExitLog) : bool * ExitLog :=
  (any_pending (matches_child p parent) g,
   for_each_pending (fun r => if matches_child p parent r then set_rec_pgid pg r else r) g).

Definition parent_autoreaps (parent : Z) (q : RunQueue) : bool :=
  match find_pid q parent with
  | Some l => let a := nth (Z.to_nat (SIGCHLD - 1)) (signal_actions l) DEFAULT_SIGACTION in
              (handler a =? 1) || has_bits (flags a) 2
  | None => false
  end.

Definition log_exit (q : RunQueue) (p : Z) (status : ExitStatus) (parent pg : Z)
    (is_proc cons : bool) (g : ExitLog) : ExitLog * Z :=
  let cons := cons || (is_proc && parent_autoreaps parent q) in
  let g := insert_rec (mkExitRecord p status parent pg is_proc cons) g in
  (g, Z.lor (poll_tag 11 parent) (if is_proc then poll_tag 16 p else 0)).

Definition process_exit_state (tg : Z) (q : RunQueue) (g : ExitLog) : bool * bool :=
  match find_pid q tg with
  | None => (true, negb (exit_logged_unconsumed tg g))
  | Some t =>
      if state_eqb (state t) Zombie && wait_reported t then (true, true)
      else if negb (state_eqb (state t) Zombie) then (false, false)
      else if any_live (fun u => (tgid u =? tg) && negb (state_eqb (state u) Zombie)) q
      then (false, false) else (true, false)
  end.

Definition pidfd_target_check (p : Z) (q : RunQueue) (g : ExitLog) : result unit Z :=
  match find_pid q p with
  | None => if exit_logged_unconsumed p g then Ok tt else Err (-3)
  | Some t => if negb (tgid t =? p) then Err (-22)
              else if state_eqb (state t) Zombie && wait_reported t then Err (-3)
              else Ok tt
  end.

(** ** Invariant *)
Record log_ok (g : ExitLog) : Prop := {
  log_zlen : length (zombies g) = MAX_ZOMBIE_RECORDS;
  log_zwf : Bitmap.wf ZUSED_WORDS (zused g);
  log_zbits : forall i, Bitmap.get (zused g) i = bool_decide (is_Some (zombie g i));
  log_zrec : forall i r, zombie g i = Some r -> unconsumed r = true;
  log_count : records g = length (omap id (zombies g));
  log_rlen : length (recent g) = EXIT_RECENT_LEN;
  log_ridx : (ridx g < EXIT_RECENT_LEN)%nat;
  log_ring : spilled g = false -> forall r, r ∈ omap id (recent g) -> unconsumed r = false }.

(** The abstract contents: the unconsumed process records. *)
Definition pending (g : ExitLog) (r : ExitRecord) : Prop :=
  (exists i, zombie g i = Some r) \/ (spilled g = true /\ r ∈ omap id (recent g) /\ unconsumed r = true).

Lemma elem_zombie_slots g i : log_ok g -> i ∈ zombie_slots g <-> is_Some (zombie g i).
Proof.
  intros Hg. unfold zombie_slots. rewrite words_slots_spec by (intros; eapply Bitmap.wf_word_any, Hg).
  rewrite elem_filter_seq, <- Bitmap.get_testbit, (log_zbits g Hg), bool_decide_eq_true.
  split; [tauto|]. intros [r Hr]. split; [|by exists r].
  unfold zombie in Hr. destruct (zombies g !! i) eqn:E; [|done]. apply lookup_lt_Some in E.
  rewrite (log_zlen g Hg) in E. exact E.
Qed.

Lemma any_pending_pool p g :
  log_ok g -> any_pending p g = true <-> exists r, pending g r /\ p r = true.
Proof.
  intros Hg. unfold any_pending, pending. rewrite orb_true_iff, existsb_exists, andb_true_iff, existsb_exists. split.
  - intros [(i & _ & Hi)|(Hs & r & Hr & Hp)].
    + destruct (zombie g i) as [r|] eqn:E; [|done]. exists r. split; [left; by exists i|done].
    + bool_to_prop. exists r. split; [|done]. right. split; [done|]. split; [by apply list_elem_of_In|done].
  - intros (r & [[i Hi]|(Hs & Hr & Hu)] & Hp).
    + left. exists i. rewrite Hi. split; [|done]. apply list_elem_of_In, elem_zombie_slots; [done|by exists r].
    + right. split; [done|]. exists r. split; [by apply list_elem_of_In|]. by rewrite Hu.
Qed.

Lemma zombie_insert g i (o : option ExitRecord) j :
  log_ok g -> (i < MAX_ZOMBIE_RECORDS)%nat ->
  mjoin (M := option) (<[i := o]> (zombies g) !! j) = if decide (i = j) then o else zombie g j.
Proof.
  intros Hg Hi. destruct (decide (i = j)) as [->|].
  - rewrite list_lookup_insert_eq by (by rewrite log_zlen). done.
  - by rewrite list_lookup_insert_ne.
Qed.

Lemma ridx_next i : (i < EXIT_RECENT_LEN)%nat -> ((i + 1) mod EXIT_RECENT_LEN < EXIT_RECENT_LEN)%nat.
Proof. intros _. apply Nat.mod_upper_bound. unfold EXIT_RECENT_LEN. lia. Qed.

Lemma elem_omap_insert {A} (l : list (option A)) i a x :
  (i < length l)%nat -> x ∈ omap id (<[i := Some a]> l) -> x = a \/ x ∈ omap id l.
Proof.
  intros Hi Hx. apply list_elem_of_omap in Hx as (o & Ho & He). unfold id in He. subst o.
  apply list_elem_of_lookup in Ho as [j Hj]. destruct (decide (i = j)) as [<-|].
  - rewrite list_lookup_insert_eq in Hj by done. left. congruence.
  - rewrite list_lookup_insert_ne in Hj by done. right. apply list_elem_of_omap.
    exists (Some x). split; [by eapply list_elem_of_lookup_2|done].
Qed.

Lemma push_recent_ok r g :
  log_ok g -> (unconsumed r = false \/ spilled g = true) -> log_ok (push_recent r g).
Proof.
  intros [] Hr. split; cbn; try done.
  - by rewrite length_insert.
  - by apply ridx_next.
  - intros Hs x Hx. apply elem_omap_insert in Hx as [->|Hx]; [|by apply log_ring0|by rewrite log_rlen0].
    destruct Hr as [|Hr]; [done|congruence].
Qed.

Lemma omap_insert_length {A} (l : list (option A)) i (o o' : option A) :
  l !! i = Some o ->
  (length (omap id (<[i := o']> l)) + (if o is Some _ then 1 else 0) = length (omap id l) + (if o' is Some _ then 1 else 0))%nat.
Proof.
  intros Hi. pose proof (lookup_lt_Some _ _ _ Hi) as Hlt.
  rewrite insert_take_drop by done. rewrite <- (take_drop_middle l i o) at 3 by done.
  rewrite !omap_app, !length_app. destruct o, o'; csimpl; lia.
Qed.

Lemma zombie_none_lookup g i : log_ok g -> (i < MAX_ZOMBIE_RECORDS)%nat -> zombie g i = None -> zombies g !! i = Some None.
Proof.
  intros Hg Hi Hn. destruct (lookup_lt_is_Some_2 (zombies g) i) as [o Ho]; [by rewrite log_zlen|].
  unfold zombie in Hn. rewrite Ho in *. by destruct o.
Qed.

Lemma insert_pool_ok r g i :
  log_ok g -> unconsumed r = true -> Bitmap.first_clear (zused g) = Some i ->
  log_ok (insert_rec r g) /\ zombie g i = None /\ (i < MAX_ZOMBIE_RECORDS)%nat
  /\ recent (insert_rec r g) = recent g /\ spilled (insert_rec r g) = spilled g
  /\ records (insert_rec r g) = S (records g)
  /\ forall j, zombie (insert_rec r g) j = if decide (i = j) then Some r else zombie g j.
Proof.
  intros Hg Hr Hf. pose proof (Bitmap.first_clear_spec _ _ (log_zwf g Hg)) as Hs. rewrite Hf in Hs.
  destruct Hs as (Hi & Hb & _). change (i < MAX_ZOMBIE_RECORDS)%nat in Hi.
  assert (zombie g i = None) as Hn.
  { rewrite (log_zbits g Hg) in Hb. apply bool_decide_eq_false in Hb. by apply eq_None_not_Some. }
  unfold insert_rec. fold (unconsumed r). rewrite Hr, Hf.
  assert (forall j, zombie (mkExitLog (<[i:=Some r]> (zombies g)) (Bitmap.set (zused g) i) (recent g) (ridx g)
            (spilled g) (S (records g))) j = if decide (i = j) then Some r else zombie g j) as Hz
    by (intros j; by apply zombie_insert).
  split; [|done]. split; cbn [zombies zused recent ridx spilled records].
  - by rewrite length_insert, log_zlen.
  - apply Bitmap.wf_set, Hg.
  - intros j. rewrite Hz, (Bitmap.get_set ZUSED_WORDS), (log_zbits g Hg) by (apply Hg || exact Hi).
    destruct (decide (i = j)); [by rewrite (bool_decide_eq_true_2 (i = j))|by rewrite (bool_decide_eq_false_2 (i = j))].
  - intros j x. rewrite Hz. destruct (decide (i = j)); [by intros [= <-]|by apply log_zrec].
  - pose proof (omap_insert_length (zombies g) i None (Some r) (zombie_none_lookup g i Hg Hi Hn)) as H.
    rewrite (log_count g Hg). cbn in H. lia.
  - apply Hg.
  - apply Hg.
  - apply Hg.
Qed.

Lemma insert_rec_ok r g : log_ok g -> log_ok (insert_rec r g).
Proof.
  intros Hg. destruct (unconsumed r) eqn:Hr.
  - destruct (Bitmap.first_clear (zused g)) as [i|] eqn:Hf; [by eapply insert_pool_ok|].
    unfold insert_rec. fold (unconsumed r). rewrite Hr, Hf. apply push_recent_ok; [|by right].
    destruct Hg. by split.
  - unfold insert_rec. fold (unconsumed r). rewrite Hr. apply push_recent_ok; [done|by left].
Qed.

Lemma consume_zombie_ok i g r :
  log_ok g -> zombie g i = Some r ->
  log_ok (consume_zombie i g)
  /\ (forall j, zombie (consume_zombie i g) j = if decide (i = j) then None else zombie g j)
  /\ records (consume_zombie i g) = Nat.pred (records g)
  /\ spilled (consume_zombie i g) = spilled g
  /\ recent (consume_zombie i g) = <[ridx g := Some (set_consumed r)]> (recent g).
Proof.
  intros Hg Hi. unfold consume_zombie. rewrite Hi.
  assert (zombies g !! i = Some (Some r)) as Hl.
  { unfold zombie in Hi. destruct (zombies g !! i) as [[x|]|]; [by injection Hi as ->|done|done]. }
  assert (i < MAX_ZOMBIE_RECORDS)%nat as Hlt by (rewrite <- (log_zlen g Hg); by eapply lookup_lt_Some).
  set (g1 := mkExitLog _ _ _ _ _ _).
  assert (forall j, zombie g1 j = if decide (i = j) then None else zombie g j) as Hz by (intros j; by apply zombie_insert).
  split; [|done]. apply push_recent_ok; [|by left; unfold unconsumed; rewrite andb_false_r].
  split; change (zombies g1) with (<[i := None]> (zombies g)); change (zused g1) with (Bitmap.clear (zused g) i);
    change (records g1) with (Nat.pred (records g)).
  - by rewrite length_insert, log_zlen.
  - apply Bitmap.wf_clear, Hg.
  - intros j. rewrite Hz, (Bitmap.get_clear ZUSED_WORDS), (log_zbits g Hg) by (apply Hg || exact Hlt).
    destruct (decide (i = j)); [by rewrite (bool_decide_eq_true_2 (i = j))|by rewrite (bool_decide_eq_false_2 (i = j))].
  - intros j x. rewrite Hz. destruct (decide (i = j)); [done|by apply log_zrec].
  - pose proof (omap_insert_length (zombies g) i (Some r) None Hl) as H.
    rewrite (log_count g Hg). cbn in H. lia.
  - apply Hg.
  - apply Hg.
  - apply Hg.
Qed.

Lemma new_log_ok : log_ok new_log.
Proof.
  assert (forall n, omap id (replicate n (@None ExitRecord)) = []) as Hn by (induction n as [|n IH]; [done|exact IH]).
  assert (forall i, zombie new_log i = None) as Hz.
  { intros i. unfold zombie, new_log. cbn [zombies].
    destruct (replicate MAX_ZOMBIE_RECORDS None !! i) as [o|] eqn:E; [|done]. by apply lookup_replicate in E as [-> _]. }
  split.
  - apply length_replicate.
  - apply Bitmap.wf_new.
  - intros i. rewrite Hz. apply Bitmap.get_new.
  - intros i r. by rewrite Hz.
  - unfold new_log. cbn [records zombies]. by rewrite Hn.
  - apply length_replicate.
  - cbn. unfold EXIT_RECENT_LEN. lia.
  - intros _ r. unfold new_log. cbn [recent]. rewrite Hn. by intros ?%elem_of_nil.
Qed.

(** ** Properties *)

(** An unwaited exit status is never lost while the pool has room: logging
    a process exit keeps every record that was pending, adds the new one if and
    only if it is an unconsumed process exit (thread exits and auto-reaped
    children are never pending), counts it in [zombie_records], and does not
    spill; any burst of other exits goes to the ring and leaves the pending
    records alone. *)
Theorem insert_rec_pending r g :
  log_ok g -> spilled g = false -> (zombie_records g < MAX_ZOMBIE_RECORDS)%nat ->
  let g' := insert_rec r g in
  log_ok g' /\ spilled g' = false
  /\ (forall x, pending g' x <-> pending g x \/ (x = r /\ unconsumed r = true))
  /\ zombie_records g' = (if unconsumed r then S (zombie_records g) else zombie_records g).
Proof.
  intros Hg Hs Hc. cbv zeta. destruct (unconsumed r) eqn:Hr.
  - destruct (Bitmap.first_clear (zused g)) as [i|] eqn:Hf.
    + destruct (insert_pool_ok r g i Hg Hr Hf) as (H1 & H2 & H3 & H4 & H5 & H6 & H7).
      split; [done|]. split; [by rewrite H5|]. split; [|done]. intros x. unfold pending. rewrite H5, Hs. split.
      * intros [[j Hj]|[? _]]; [|done]. rewrite H7 in Hj. destruct (decide (i = j)); [|left; left; eauto].
        right. split; [congruence|done].
      * intros [[[j Hj]|[? _]]|[-> _]]; [|done|left; exists i; rewrite H7; by rewrite decide_True].
        left. exists j. rewrite H7. rewrite decide_False; [done|]. intros ->. congruence.
    + exfalso. pose proof (Bitmap.first_clear_spec _ _ (log_zwf g Hg)) as Hall. rewrite Hf in Hall.
      unfold zombie_records in Hc. rewrite (log_count g Hg), <- (log_zlen g Hg) in Hc.
      apply omap_id_full in Hc as [i Hi]. pose proof (lookup_lt_Some _ _ _ Hi) as Hlt.
      rewrite (log_zlen g Hg) in Hlt. specialize (Hall i Hlt). rewrite (log_zbits g Hg) in Hall.
      apply bool_decide_eq_true in Hall as [x Hx]. unfold zombie in Hx. by rewrite Hi in Hx.
  - unfold insert_rec. fold (unconsumed r). rewrite Hr.
    assert (log_ok (push_recent r g)) as Hp by (apply push_recent_ok; [done|by left]).
    split; [done|]. split; [done|]. split; [|done]. intros x. unfold pending. cbn [spilled push_recent]. rewrite Hs.
    split; [intros [[j Hj]|[? _]]; [left; left; by exists j|done]|].
    intros [[[j Hj]|[? _]]|[_ ?]]; [left; by exists j|done|done].
Qed.

Definition demo_exit : ExitRecord := mkExitRecord 42 (mkExitStatus 3 0) 7 42 true false.

Lemma insert_rec_pending_witness : pending (insert_rec demo_exit new_log) demo_exit.
Proof.
  destruct (insert_rec_pending demo_exit new_log new_log_ok) as (_ & _ & H & _).
  - reflexivity.
  - apply Nat.ltb_lt. vm_compute. reflexivity.
  - apply H. right. split; reflexivity.
Defined.

(** Handing a record to a waiter reports it exactly once: after
    [consume_zombie] the record is no longer pending (records of other slots
    are), the population drops by one, and the exit code can still be read from
    the ring. *)
Theorem consume_zombie_once i r g :
  log_ok g -> spilled g = false -> zombie g i = Some r ->
  (forall j x, zombie g j = Some x -> rec_pid x = rec_pid r -> i = j) ->
  let g' := consume_zombie i g in
  log_ok g'
  /\ exit_logged_unconsumed (rec_pid r) g' = false
  /\ (forall x, x <> r -> pending g' x <-> pending g x)
  /\ zombie_records g' = Nat.pred (zombie_records g)
  /\ is_Some (get_exit_code (rec_pid r) g').
Proof.
  intros Hg Hs Hi Hu. cbv zeta. destruct (consume_zombie_ok i g r Hg Hi) as (H1 & H2 & H3 & H4 & H5).
  split; [done|]. split; [|split; [|split; [done|]]].
  - destruct (exit_logged_unconsumed (rec_pid r) (consume_zombie i g)) eqn:E; [|done].
    apply any_pending_pool in E as (x & [[j Hj]|[Hx _]] & Hp); [|rewrite H4 in Hx; congruence|done].
    rewrite H2 in Hj. destruct (decide (i = j)) as [|Hne]; [done|]. bool_to_prop. by destruct Hne, (Hu j x).
  - intros x Hx. unfold pending. rewrite H4, Hs. split.
    + intros [[j Hj]|[? _]]; [|done]. rewrite H2 in Hj. destruct (decide (i = j)); [done|]. left. by exists j.
    + intros [[j Hj]|[? _]]; [|done]. left. exists j. rewrite H2.
      destruct (decide (i = j)) as [->|]; [|done]. rewrite Hi in Hj. congruence.
  - unfold get_exit_code. destruct (head _) as [y|]; [by eexists|].
    assert (set_consumed r ∈ List.filter (fun x => rec_pid x =? rec_pid r) (omap id (recent (consume_zombie i g)))) as Hin.
    { apply list_elem_of_In, List.filter_In. split; [|apply Z.eqb_refl]. apply list_elem_of_In, list_elem_of_omap.
      exists (Some (set_consumed r)). split; [|done]. rewrite H5. apply (list_elem_of_lookup_2 _ (ridx g)).
      apply list_lookup_insert_eq. rewrite (log_rlen g Hg). apply Hg. }
    destruct (List.filter _ (omap id (recent (consume_zombie i g)))) as [|y l]; [by apply elem_of_nil in Hin|].
    cbn. by eexists.
Qed.

Lemma consume_zombie_once_witness :
  exit_logged_unconsumed 42 (consume_zombie 0 (insert_rec demo_exit new_log)) = false.
Proof.
  assert (log_ok (insert_rec demo_exit new_log)) as Hok by apply insert_rec_ok, new_log_ok.
  apply (consume_zombie_once 0 demo_exit (insert_rec demo_exit new_log) Hok).
  - reflexivity.
  - vm_compute. reflexivity.
  - intros j x Hj Hp. destruct (insert_pool_ok demo_exit new_log 0 new_log_ok) as (_ & _ & _ & _ & _ & _ & H7);
      [reflexivity|vm_compute; reflexivity|]. rewrite H7 in Hj.
    destruct (decide (0%nat = j)) as [E|_]; [exact E|]. exfalso. unfold zombie, new_log in Hj. cbn [zombies] in Hj.
    destruct (replicate MAX_ZOMBIE_RECORDS None !! j) as [o|] eqn:E; [|discriminate].
    apply lookup_replicate in E as [-> _]. discriminate.
Defined.
