(* ===== verification/Cred.v ===== *)
(** * Credential checks

    Models [src/sched/src/cred.rs]: the permission rules of kill, setpgid,
    setreuid, setpriority, sched_setscheduler and prlimit, each with the whole
    operation it guards, on the run queue [q] and the exit log [g] of the two
    locks it takes.  [current_pid()] is the argument [me], [init_pid()] is
    [init]; [alloc] is the outcome of the vector reservation. *)
From S2P Require Import Prelude KLib PidMap Task RunQueue Wake Signals ExitLog.

Definition EPERM : Z := -1.
Definition ESRCH : Z := -3.
Definition EACCES : Z := -13.
Definition EINVAL : Z := -22.

Record Caller := mkCaller { c_tgid : Z; c_sid : Z; c_uid : Z; c_euid : Z; c_gid : Z }.

Definition caller (me : Z) (q : RunQueue) : option Caller :=
  (fun t => mkCaller (tgid t) (sid t) (uid t) (euid t) (gid t)) <$> find_pid q me.

Definition may_signal (c : Caller) (t : Task) (sig : Z) : bool :=
  if tgid t =? c_tgid c then true
  else if c_euid c =? 0 then true
  else if (c_euid c =? suid t) || (c_euid c =? uid t) || (c_uid c =? suid t) || (c_uid c =? uid t) then true
  else (sig =? SIGCONT) && (sid t =? c_sid c).

(** ** kill *)
Definition kill_check (me tg sig : Z) (q : RunQueue) : Z :=
  match caller me q with
  | None => ESRCH
  | Some c =>
      match find_pid q tg with
      | Some t => if pid t =? tgid t then if may_signal c t sig then 0 else EPERM else ESRCH
      | None => ESRCH
      end
  end.

Definition kill_process (me tg sig : Z) (info : SigInfo) (q : RunQueue) : Z * RunQueue :=
  let r := kill_check me tg sig q in
  if negb (r =? 0) || (sig =? 0) then (r, q) else deliver_signal_process tg sig info q.

Definition kill_thread (me : Z) (tg : option Z) (tid sig : Z) (info : SigInfo) (q : RunQueue) : Z * RunQueue :=
  match caller me q with
  | None => (ESRCH, q)
  | Some c =>
      match find_pid q tid with
      | None => (ESRCH, q)
      | Some t =>
          if match tg with Some g => negb (tgid t =? g) | None => false end then (ESRCH, q)
          else
            let owner := default t (find_pid q (tgid t)) in
            if negb (may_signal c owner sig) then (EPERM, q)
            else if sig =? 0 then (0, q)
            else deliver_signal tid sig info q
      end
  end.

Definition deliver_all (targets : list Z) (sig : Z) (info : SigInfo) (q : RunQueue) : RunQueue :=
  if sig =? 0 then q else foldl (fun q p => (deliver_signal_process p sig info q).2) q targets.

(** The tasks of the table selected by [p], in slot order. *)
Definition select_live (p : Task -> bool) (q : RunQueue) : list Task :=
  omap (fun i => match slot q i with Some t => if p t then Some t else None | None => None end) (live_slots q).

(** At most [MAX_TASKS] targets are pushed, so the capacity test never binds. *)
Definition kill_pgrp_checked (alloc : bool) (me pg sig : Z) (info : SigInfo) (q : RunQueue) : Z * RunQueue :=
  if negb alloc then (ENOMEM, q)
  else match caller me q with
  | None => (ESRCH, q)
  | Some c =>
      let members := select_live (fun t => negb (negb (pgid t =? pg) || negb (pid t =? tgid t))) q in
      let targets := pid <$> List.filter (fun t => may_signal c t sig) members in
      match members, targets with
      | [], _ => (ESRCH, q)
      | _, [] => (EPERM, q)
      | _, _ => (0, deliver_all targets sig info q)
      end
  end.

Definition kill_all_checked (alloc : bool) (me init sig : Z) (info : SigInfo) (q : RunQueue) : Z * RunQueue :=
  if negb alloc then (ENOMEM, q)
  else match caller me q with
  | None => (ESRCH, q)
  | Some c =>
      let others := select_live (fun t =>
        negb (negb (pid t =? tgid t) || (tgid t =? init) || (tgid t =? c_tgid c))
        && negb (negb (has_as t) || state_eqb (state t) Zombie)) q in
      let targets := pid <$> List.filter (fun t => may_signal c t sig) others in
      match others with
      | [] => (ESRCH, q)
      | _ => (0, deliver_all targets sig info q)
      end
  end.

(** ** Sessions and process groups *)
Definition sid_of (me p : Z) (q : RunQueue) : Z :=
  let p := if p =? 0 then me else p in
  match find_pid q p with Some t => sid t | None => ESRCH end.

Definition set_pgid_checked (me pid_raw pgid_raw : Z) (q : RunQueue) (g : ExitLog) : Z * RunQueue * ExitLog :=
  if (pid_raw <? 0) || (pgid_raw <? 0) then (EINVAL, q, g)
  else match caller me q with
  | None => (ESRCH, q, g)
  | Some c =>
      let p := if pid_raw =? 0 then c_tgid c else pid_raw in
      let pg := if pgid_raw =? 0 then p else pgid_raw in
      match find_pid q p with
      | None => let '(found, g') := set_pgid_exited_child p pg (c_tgid c) g in
                ((if found then 0 else ESRCH), q, g')
      | Some t =>
          if negb (pid t =? tgid t) then (EINVAL, q, g)
          else
            let parent := match find_pid q (ppid t) with Some pt => tgid pt | None => ppid t end in
            let deny :=
              if (parent =? c_tgid c) && negb (tgid t =? c_tgid c)
              then if negb (sid t =? c_sid c) then Some EPERM else None
              else if negb (tgid t =? c_tgid c) then Some ESRCH else None in
            match deny with
            | Some e => (e, q, g)
            | None =>
                if sid t =? tgid t then (EPERM, q, g)
                else if negb (pg =? p)
                        && negb (any_live (fun u => (pgid u =? pg) && (sid u =? c_sid c)) q
                                 || exit_logged_pgid pg g)
                then (EPERM, q, g)
                else (0, for_live (fun u => if tgid u =? tgid t then set_pgid pg u else u) q, g)
            end
      end
  end.

(** ** User and group ids *)
(** The new (real, effective, saved) ids, or [None] for EPERM. *)
Definition re_ids (privileged : bool) (r e or_ oe os : Z) : option (Z * Z * Z) :=
  if negb (r =? U32_MAX) && negb privileged && negb (r =? or_) && negb (r =? oe) then None
  else
    let nr := if negb (r =? U32_MAX) then r else or_ in
    if negb (e =? U32_MAX) && negb privileged && negb (e =? or_) && negb (e =? oe) && negb (e =? os) then None
    else
      let ne := if negb (e =? U32_MAX) then e else oe in
      let ns := if negb (r =? U32_MAX) || (negb (e =? U32_MAX) && negb (e =? or_)) then ne else os in
      Some (nr, ne, ns).

Definition set_re_ids (me r e : Z) (gid_ : bool) (q : RunQueue) : Z * RunQueue :=
  match find_pid_idx q me with
  | None => (ESRCH, q)
  | Some i =>
      let q := touch i q in
      match slot q i with
      | None => (ESRCH, q)
      | Some t =>
          let privileged := euid t =? 0 in
          let '(or_, oe, os) := if gid_ then (gid t, egid t, sgid t) else (uid t, euid t, suid t) in
          match re_ids privileged r e or_ oe os with
          | None => (EPERM, q)
          | Some (nr, ne, ns) =>
              (0, write_task i (if gid_ then set_sgid ns (set_egid ne (set_gid nr t))
                                else set_suid ns (set_euid ne (set_uid nr t))) q)
          end
      end
  end.

(** ** Priorities and limits *)
Definition same_owner (c : Caller) (t : Task) : bool :=
  (c_euid c =? 0) || (c_euid c =? uid t) || (c_euid c =? euid t).

Definition rlimit_at (t : Task) (res : nat) : Z * Z := nth res (rlimits t) (RLIM_INFINITY, RLIM_INFINITY).
Definition leader_rlimit (q : RunQueue) (tg : Z) (res : nat) : Z :=
  match find_pid q tg with Some l => (rlimit_at l res).1 | None => RLIM_INFINITY end.

Definition renice (nice min_vr : Z) (t : Task) : Task :=
  place min_vr (set_weight (nice_to_weight nice) (set_priority nice t)).

Definition nice_visit (matches : Task -> bool) (c : Caller) (nice min_vr : Z) (can_nice : bool)
    (s : RunQueue * Z) (i : nat) : RunQueue * Z :=
  let '(q, err) := s in
  match slot q i with
  | Some t =>
      if negb (matches t) then s
      else
        let err := if err =? ESRCH then 0 else err in
        if negb (same_owner c t) then (q, EPERM)
        else if (nice <? priority t) && negb can_nice then (q, EACCES)
        else (modify i (renice nice min_vr) q, err)
  | None => s
  end.

Definition set_nice_checked (me : Z) (matches : Task -> bool) (nice : Z) (q : RunQueue) : RunQueue * Z :=
  let nice := clamp_nice nice in
  match caller me q with
  | None => (q, ESRCH)
  | Some c =>
      let rlim_nice := leader_rlimit q (c_tgid c) RLIMIT_NICE in
      let can_nice := (c_euid c =? 0) || (20 - nice <=? rlim_nice) in
      foldl (nice_visit matches c nice (min_vruntime q) can_nice) (q, ESRCH) (live_slots q)
  end.

Definition sched_policy_check (me p : Z) (policy : option Z) (prio : Z) (q : RunQueue) : Z :=
  let rt := match policy with
            | Some 1 | Some 2 => Some true
            | Some 0 | Some 3 | Some 5 | None => Some false
            | Some _ => None
            end in
  match rt with
  | None => EINVAL
  | Some rt =>
      if rt && negb ((1 <=? prio) && (prio <=? 99)) then EINVAL
      else if negb rt && negb (prio =? 0) then EINVAL
      else match caller me q with
      | None => ESRCH
      | Some c =>
          match find_pid q (if p =? 0 then me else p) with
          | None => ESRCH
          | Some t =>
              if c_euid c =? 0 then 0
              else if negb (same_owner c t) then EPERM
              else if rt && (leader_rlimit q (tgid t) RLIMIT_RTPRIO <? prio) then EPERM
              else 0
          end
      end
  end.

Definition sched_affinity_check (me p : Z) (q : RunQueue) : Z :=
  match caller me q with
  | None => ESRCH
  | Some c =>
      match find_pid q (if p =? 0 then me else p) with
      | Some t => if same_owner c t then 0 else EPERM
      | None => ESRCH
      end
  end.

Definition set_rlimit (res : nat) (nl : Z * Z) (t : Task) : Task :=
  set_rlimits (<[res := nl]> (rlimits t)) t.

Definition prlimit (me p : Z) (res : nat) (new : option (Z * Z)) (q : RunQueue) : result (Z * Z) Z * RunQueue :=
  if (RLIM_NLIMITS <=? res)%nat then (Err EINVAL, q)
  else if match new with Some (cur, max) => max <? cur | None => false end then (Err EINVAL, q)
  else if match new with Some (_, max) => (res =? RLIMIT_NOFILE)%nat && (NR_OPEN <? max) | None => false end
  then (Err EPERM, q)
  else match caller me q with
  | None => (Err ESRCH, q)
  | Some c =>
      let target :=
        if p =? 0 then Ok (c_tgid c)
        else match find_pid q p with
             | Some t =>
                 if negb (tgid t =? c_tgid c) && negb (c_euid c =? 0)
                    && negb ((c_uid c =? uid t) && (c_uid c =? euid t) && (c_uid c =? suid t)
                             && (c_gid c =? gid t) && (c_gid c =? egid t) && (c_gid c =? sgid t))
                 then Err EPERM else Ok (tgid t)
             | None => Err ESRCH
             end in
      match target with
      | Err e => (Err e, q)
      | Ok tg =>
          match find_pid_idx q tg with
          | None => (Err ESRCH, q)
          | Some i =>
              let q := touch i q in
              match slot q i with
              | None => (Err ESRCH, q)
              | Some l =>
                  let old := rlimit_at l res in
                  match new with
                  | None => (Ok old, q)
                  | Some nl =>
                      if (old.2 <? nl.2) && negb (c_euid c =? 0) then (Err EPERM, q)
                      else (Ok old, write_task i (set_rlimit res nl l) q)
                  end
              end
          end
      end
  end.

Definition ids_of (p : Z) (q : RunQueue) : option ((Z * Z * Z) * (Z * Z * Z)) :=
  (fun t => ((uid t, euid t, suid t), (gid t, egid t, sgid t))) <$> find_pid q p.

(** ** Identity-keeping updates of this file *)
Lemma keeps_set_pgid pg : keeps (set_pgid pg).
Proof. intros t Ht. keeps_fields t Ht. Qed.
Lemma keeps_uids a b c : keeps (fun t => set_suid a (set_euid b (set_uid c t))).
Proof. intros t Ht. keeps_fields t Ht. Qed.
Lemma keeps_gids a b c : keeps (fun t => set_sgid a (set_egid b (set_gid c t))).
Proof. intros t Ht. keeps_fields t Ht. Qed.
Lemma keeps_rlimit res nl : keeps (set_rlimit res nl).
Proof. intros t Ht. keeps_fields t Ht. Qed.
Lemma nice_weight_range n : 0 < nice_to_weight n <= 88761.
Proof.
  assert (nice_to_weight n ∈ NICE_TO_WEIGHT) as H by apply word_at_in, clamp_range.
  assert (Forall (fun w => 0 < w <= 88761) NICE_TO_WEIGHT) as HF
    by (apply (bool_decide_unpack _); vm_compute; exact I).
  rewrite Forall_forall in HF. by apply HF.
Qed.
Lemma keeps_renice n mv : is_u64 mv -> keeps (renice n mv).
Proof.
  intros Hm t [H1 H2 H3 H4 H5]. unfold renice. set (t1 := set_weight _ _).
  destruct (place_fields mv t1) as (E1 & E2 & E3 & E4). split; [done|]. split; [done|]. split; [|by rewrite E4].
  apply place_ok; [done|]. split; [done|done|apply nice_weight_range|done|done].
Qed.

#[export] Hint Resolve keeps_set_pgid keeps_uids keeps_gids keeps_rlimit keeps_renice : kernel.

Lemma caller_find me q c : caller me q = Some c <-> exists t, find_pid q me = Some t
  /\ c = mkCaller (tgid t) (sid t) (uid t) (euid t) (gid t).
Proof. unfold caller. destruct (find_pid q me); cbn; naive_solver. Qed.

Lemma may_signal_root c t sig : c_euid c = 0 -> may_signal c t sig = true.
Proof. intros E. unfold may_signal. rewrite E. by destruct (tgid t =? c_tgid c). Qed.

(** Delivery succeeds whenever the group's leader is in the table. *)
Lemma deliver_process_ret tg signo info q :
  1 <= signo <= 64 ->
  (deliver_signal_process tg signo info q).1 = (post_signal_process tg signo info q).1.1.1.
Proof.
  intros Hs. unfold deliver_signal_process. cbn [deliver_signal_process_fuel].
  rewrite (proj2 (Z.eqb_neq signo 0)), (proj2 (Z.ltb_ge 64 signo)) by lia. cbn [orb].
  by destruct (post_signal_process tg signo info q) as [[[ret woke] rs] q1].
Qed.

Lemma deliver_process_ok tg signo info q l :
  rq_ok q -> tg <> 0 -> 1 <= signo <= 64 -> find_pid q tg = Some l ->
  (deliver_signal_process tg signo info q).1 = 0.
Proof.
  intros Hq Ht Hs Hl. rewrite deliver_process_ret by done.
  pose proof (post_process_cases tg signo info q Hq Ht) as H.
  destruct (generated_scan tg signo q Hq Ht) as [Hq1 Hg].
  destruct (post_signal_process tg signo info q) as [[[ret woke] rs] q']. cbv zeta in H. cbn [fst].
  destruct H as [_ [(-> & _)|[(-> & _)|(_ & _ & _ & Hn)]]]; [done|done|].
  apply find_pid_slot in Hl as (i & Hi & Hp); [|apply Hq].
  destruct (Hn i (gen_map tg signo (min_vruntime q) l)); [by rewrite Hg, Hi|].
  destruct (gen_map_fields tg signo (min_vruntime q) l) as (-> & _). done.
Qed.

(** ** Properties *)

(** kill(2) enforces its permission rule before any effect: it reports
    EPERM iff caller and target process exist and the caller is neither in the
    target's group, nor root, nor matched by real/effective against
    real/saved user id, nor sending SIGCONT within its session; an error or the
    null signal leaves the queue unchanged; and an allowed valid signal is
    accepted. *)
Theorem kill_process_spec me tg sig info q :
  rq_ok q -> tg <> 0 -> 0 <= sig <= 64 ->
  let r := kill_process me tg sig info q in
  (r.1 = EPERM <-> exists c t, caller me q = Some c /\ find_pid q tg = Some t /\ tgid t = tg
     /\ tgid t <> c_tgid c /\ c_euid c <> 0
     /\ c_euid c <> suid t /\ c_euid c <> uid t /\ c_uid c <> suid t /\ c_uid c <> uid t
     /\ ~ (sig = SIGCONT /\ sid t = c_sid c))
  /\ (r.1 <> 0 \/ sig = 0 -> r.2 = q)
  /\ (forall c t, caller me q = Some c -> find_pid q tg = Some t -> tgid t = tg ->
        c_euid c = 0 -> r.1 = 0).
Proof.
  intros Hq Ht Hs. cbv zeta. unfold kill_process, kill_check.
  destruct (caller me q) as [c|] eqn:Hc.
  2:{ cbn. split; [split; [done|by intros (? & ? & ? & _)]|]. split; [done|]. by intros ? ? ?. }
  destruct (find_pid q tg) as [t|] eqn:Hf.
  2:{ cbn. split; [split; [done|by intros (? & ? & _ & ? & _)]|]. split; [done|]. by intros ? ? _ ?. }
  assert (pid t = tg) as Hp by (by apply find_pid_slot in Hf as (? & _ & ?); [|apply Hq]).
  rewrite Hp. destruct (Z.eqb_spec tg (tgid t)) as [E|E]; cbn [negb orb].
  2:{ change (ESRCH =? 0) with false. cbn. split; [split; [done|]; intros (? & ? & _ & [= <-] & ? & _); congruence|].
      split; [done|]. intros ? ? _ [= <-]. congruence. }
  assert (may_signal c t sig = false <-> tgid t <> c_tgid c /\ c_euid c <> 0
     /\ c_euid c <> suid t /\ c_euid c <> uid t /\ c_uid c <> suid t /\ c_uid c <> uid t
     /\ ~ (sig = SIGCONT /\ sid t = c_sid c)) as Hm.
  { unfold may_signal. split.
    - destruct (Z.eqb_spec (tgid t) (c_tgid c)); [done|]. destruct (Z.eqb_spec (c_euid c) 0); [done|].
      case_match; [done|]. intros H'. bool_to_prop. apply andb_false_iff in H'. repeat split; try done.
      intros [-> Hx]. destruct H' as [H'|H']; bool_to_prop; done.
    - intros (H1 & H2 & H3 & H4 & H5 & H6 & H7). rewrite !(proj2 (Z.eqb_neq _ _)) by done. cbn [orb].
      apply andb_false_iff. destruct (Z.eqb_spec sig SIGCONT); [|by left]. right. apply Z.eqb_neq. tauto. }
  destruct (may_signal c t sig) eqn:Em.
  - change (0 =? 0) with true. cbn [negb orb]. destruct (Z.eqb_spec sig 0) as [->|Hn].
    + cbn [fst snd]. split; [split; [done|]|done]. intros (c' & t' & [= <-] & [= <-] & _ & H). by apply Hm in H.
    + assert ((deliver_signal_process tg sig info q).1 = 0) as Hd by (eapply deliver_process_ok; [done..|lia|done]).
      rewrite Hd. split; [split; [done|]|split; [by intros [|]|done]].
      intros (c' & t' & [= <-] & [= <-] & _ & H). by apply Hm in H.
  - change (EPERM =? 0) with false. cbn [negb orb fst snd]. split; [|split; [done|]].
    + split; [|done]. intros _. exists c, t. split; [done|]. split; [done|]. split; [done|]. by apply Hm.
    + intros ? ? [= <-] [= <-] _ He. by rewrite may_signal_root in Em.
Qed.

(** Unprivileged tasks of two different users. *)
Definition demo_u7 : Task -> Task := fun t => set_suid 1000 (set_euid 1000 (set_uid 1000 t)).
Definition demo_u9 : Task -> Task := fun t => set_suid 1001 (set_euid 1001 (set_uid 1001 t)).
Definition demo_users : RunQueue := modify 1 demo_u9 (modify 0 demo_u7 demo).

Lemma demo_users_ok : rq_ok demo_users.
Proof.
  apply modify_ok; [apply modify_ok; [apply demo_ok|apply keeps_uids|]|apply keeps_uids|]; unfold MAX_TASKS; lia.
Qed.

Lemma kill_process_spec_witness :
  (kill_process 7 9 15 SigInfo_NONE demo_users).2 = demo_users.
Proof.
  apply (kill_process_spec 7 9 15 SigInfo_NONE demo_users demo_users_ok).
  - lia.
  - lia.
  - left. vm_compute. congruence.
Defined.

(** Setreuid/setregid cannot forge an identity: on success without
    privilege the new real id is one of the old real and effective ids and the
    new effective and saved ids are among the three old ids; EPERM changes no
    task; and when a privileged caller sets both ids to a non-root user, all
    three ids are that user, so a later attempt to return to id 0 fails. *)
Theorem set_re_ids_spec me r e q t :
  rq_ok q -> me <> 0 -> find_pid q me = Some t ->
  let x := set_re_ids me r e false q in
  rq_ok x.2 /\ (x.1 = 0 \/ x.1 = EPERM)
  /\ (x.1 = EPERM -> tasks x.2 = tasks q)
  /\ (x.1 = 0 -> exists t', find_pid x.2 me = Some t'
        /\ (euid t <> 0 ->
            (uid t' = uid t \/ uid t' = euid t)
            /\ (euid t' = uid t \/ euid t' = euid t \/ euid t' = suid t)
            /\ (suid t' = uid t \/ suid t' = euid t \/ suid t' = suid t))
        /\ (euid t = 0 -> r = e -> r <> 0 -> r <> U32_MAX ->
            uid t' = r /\ euid t' = r /\ suid t' = r
            /\ forall r2, (set_re_ids me r2 0 false x.2).1 = EPERM)).
Proof.
  intros Hq Hme Hf. cbv zeta. pose proof (find_pid_slot q me t (proj1 Hq) Hf) as (i & Hi & Hp).
  assert (find_pid_idx q me = Some i) as Hidx by (rewrite <- Hp; apply find_pid_idx_slot; [apply Hq|done|congruence]).
  assert (i < MAX_TASKS)%nat as Hlt by (eapply slot_lt; [apply Hq|done]).
  assert (set_re_ids me r e false q = match re_ids (euid t =? 0) r e (uid t) (euid t) (suid t) with
    | None => (EPERM, touch i q)
    | Some (nr, ne, ns) => (0, write_task i (set_suid ns (set_euid ne (set_uid nr t))) (touch i q)) end) as ->.
  { unfold set_re_ids. rewrite Hidx. change (slot (touch i q) i) with (slot q i). by rewrite Hi. }
  destruct (re_ids (euid t =? 0) r e (uid t) (euid t) (suid t)) as [[[nr ne] ns]|] eqn:Er; cbn [fst snd].
  2:{ split; [by apply ok_touch|]. split; [by right|]. split; [done|]. intros H. exfalso. unfold EPERM in H. lia. }
  destruct (write_keeps i t (fun t => set_suid ns (set_euid ne (set_uid nr t))) q Hq Hi) as [W1 W2]; [auto with kernel|].
  set (q' := write_task i _ (touch i q)) in *. set (t' := set_suid ns (set_euid ne (set_uid nr t))) in *.
  split; [done|]. split; [by left|]. split; [done|]. intros _. exists t'.
  assert (slot q' i = Some t') as Hi' by (rewrite W2; by rewrite decide_True).
  assert (find_pid q' me = Some t') as Hf' by (rewrite <- Hp; apply (slot_find_pid q' i t'); [apply W1|done|cbn; congruence]).
  split; [done|]. unfold re_ids in Er.
  split.
  - intros Hne. rewrite (proj2 (Z.eqb_neq _ _) Hne) in Er. cbn [negb andb] in Er.
    change (uid t') with nr. change (euid t') with ne. change (suid t') with ns.
    destruct (Z.eqb_spec r U32_MAX); destruct (Z.eqb_spec e U32_MAX); cbn [negb andb orb] in Er;
      repeat match type of Er with context [?a =? ?b] => destruct (Z.eqb_spec a b) end;
      cbn [negb andb orb] in Er; simplify_eq; tauto.
  - intros H0 <- Hr Hm. rewrite (proj2 (Z.eqb_eq _ _) H0), !(proj2 (Z.eqb_neq r U32_MAX) Hm) in Er.
    cbn [negb andb orb] in Er. injection Er as <- <- <-. split; [done|]. split; [done|]. split; [done|].
    intros r2. unfold set_re_ids.
    assert (find_pid_idx q' me = Some i) as -> by (rewrite <- Hp; apply (find_pid_idx_slot q' i t'); [apply W1|done|cbn; congruence]).
    change (slot (touch i q') i) with (slot q' i). rewrite Hi'.
    change (euid t') with r. change (uid t') with r. change (suid t') with r.
    assert (re_ids (r =? 0) r2 0 r r r = None) as ->; [|done].
    unfold re_ids. rewrite (proj2 (Z.eqb_neq _ _) Hr). change (0 =? U32_MAX) with false.
    rewrite (proj2 (Z.eqb_neq 0 r)) by congruence. cbn [negb andb]. by destruct (_ && _).
Qed.

Lemma set_re_ids_spec_witness :
  (set_re_ids 9 0 0 false (set_re_ids 9 1000 1000 false demo).2).1 = EPERM.
Proof.
  destruct (set_re_ids_spec 9 1000 1000 demo demo_9 demo_ok) as (_ & _ & _ & H).
  - lia.
  - vm_compute. reflexivity.
  - destruct H as (t' & _ & _ & H); [vm_compute; reflexivity|]. apply H; vm_compute; congruence.
Defined.

(** setpgid(2): an error leaves the run queue unchanged; success on a live
    target moves every thread of the target's group, and no other task, to the
    new process group, and happens only for the caller itself or one of its
    children in the caller's session, never for a session leader, and only into
    the target's own new group or a group that exists in the caller's session
    or is kept alive by an unwaited exit. *)
Theorem set_pgid_checked_spec me pid_raw pgid_raw q g c t :
  rq_ok q -> caller me q = Some c ->
  let p := if pid_raw =? 0 then c_tgid c else pid_raw in
  let pg := if pgid_raw =? 0 then p else pgid_raw in
  find_pid q p = Some t ->
  let '(ret, q', g') := set_pgid_checked me pid_raw pgid_raw q g in
  rq_ok q' /\ g' = g
  /\ (ret <> 0 -> q' = q)
  /\ (ret = 0 ->
      (forall j, slot q' j = (fun u => if tgid u =? tgid t then set_pgid pg u else u) <$> slot q j)
      /\ tgid t = p /\ sid t <> tgid t
      /\ (tgid t = c_tgid c
          \/ (sid t = c_sid c
              /\ c_tgid c = match find_pid q (ppid t) with Some pt => tgid pt | None => ppid t end))
      /\ (pg = p \/ (exists j u, slot q j = Some u /\ pgid u = pg /\ sid u = c_sid c)
          \/ exit_logged_pgid pg g = true)).
Proof.
  intros Hq Hc. cbv zeta. set (p := if pid_raw =? 0 then _ else _). set (pg := if pgid_raw =? 0 then p else _).
  intros Hf. unfold set_pgid_checked. fold p pg. destruct ((pid_raw <? 0) || (pgid_raw <? 0)); [done|].
  rewrite Hc. cbv zeta. fold p. fold pg. rewrite Hf. clearbody p pg.
  assert (pid t = p) as Hp by (by apply find_pid_slot in Hf as (? & _ & ?); [|apply Hq]).
  destruct (Z.eqb_spec (pid t) (tgid t)) as [Et|]; cbn [negb]; [|done].
  set (parent := match find_pid q (ppid t) with Some pt => tgid pt | None => ppid t end).
  destruct (if (parent =? c_tgid c) && negb (tgid t =? c_tgid c) then _ else _) as [er|] eqn:Ed.
  { split; [done|]. split; [done|]. split; [done|]. intros ->. exfalso.
    repeat case_match; simplify_eq; unfold EPERM, ESRCH in *; discriminate. }
  destruct (Z.eqb_spec (sid t) (tgid t)) as [|Hsid]; [done|].
  destruct (negb (pg =? p) && negb _) eqn:Eg; [done|].
  destruct (for_live_ok (fun u => if tgid u =? tgid t then set_pgid pg u else u) q Hq) as [F1 F2].
  { apply (keeps_cond (fun u => tgid u =? tgid t)). auto with kernel. }
  split; [done|]. split; [done|]. split; [done|]. intros _. split; [done|]. split; [congruence|]. split; [done|]. split.
  - destruct (Z.eqb_spec (tgid t) (c_tgid c)); [by left|]. right. cbn [negb] in Ed. rewrite andb_true_r in Ed.
    destruct (Z.eqb_spec parent (c_tgid c)) as [Epar|]; [|done].
    destruct (Z.eqb_spec (sid t) (c_sid c)); [done|done].
  - destruct (Z.eqb_spec pg p); [by left|]. right. cbn [negb andb] in Eg. apply negb_false_iff, orb_true_iff in Eg.
    destruct Eg as [Eg|Eg]; [left|by right]. apply any_live_spec in Eg as (j & u & Hj & Hu); [|apply Hq].
    bool_to_prop. by exists j, u.
Qed.

(** Pid 9 made a member of session 7. *)
Definition demo_sess (t : Task) : Task :=
  mkTask (pid t) (state t) (priority t) (on_cpu t) (weight t) (vruntime t) (vdeadline t) (blocked_on t)
    (poll_deadline t) (poll_mask t) (blocked_futex t) (has_as t) 7 (tgid t) 7 7 (uid t) (gid t) (euid t)
    (egid t) (suid t) (sgid t) (rlimits t) (signal_pending t) (signal_mask t) (shared_signal_pending t)
    (signal_actions t) (signal_info t) (wait_reported t) (stop_pending t) (stop_signal t) (stop_reported t)
    (cont_pending t) (group_exit_owner t).
Definition demo_session : RunQueue := modify 1 demo_sess demo.

Lemma demo_session_ok : rq_ok demo_session.
Proof.
  apply modify_ok; [apply demo_ok| |unfold MAX_TASKS; lia]. intros t Ht.
  split; [done|]. split; [done|]. split; [by apply (task_ok_intro t _ Ht)|done].
Qed.

Lemma set_pgid_checked_spec_witness :
  rq_ok (set_pgid_checked 7 9 0 demo_session new_log).1.2 /\ (set_pgid_checked 7 9 0 demo_session new_log).1.1 = 0.
Proof.
  assert (exists c, caller 7 demo_session = Some c) as [c Hc] by (vm_compute; eexists; reflexivity).
  pose proof (set_pgid_checked_spec 7 9 0 demo_session new_log c (demo_sess demo_9) demo_session_ok Hc) as H.
  cbv zeta in H. specialize (H ltac:(vm_compute; reflexivity)).
  assert ((set_pgid_checked 7 9 0 demo_session new_log).1.1 = 0) as Hr by (vm_compute; reflexivity).
  destruct (set_pgid_checked 7 9 0 demo_session new_log) as [[ret q'] g']. split; [exact (proj1 H)|exact Hr].
Defined.

(** ** setpriority *)
Definition nice_allowed (c : Caller) (nice : Z) (can_nice : bool) (t : Task) : bool :=
  same_owner c t && negb ((nice <? priority t) && negb can_nice).
Definition nice_map (matches : Task -> bool) (c : Caller) (nice mv : Z) (can_nice : bool) (t : Task) : Task :=
  if matches t && nice_allowed c nice can_nice t then renice nice mv t else t.
Definition nice_acc (matches : Task -> bool) (c : Caller) (nice : Z) (can_nice : bool) (err : Z) (t : Task) : Z :=
  if negb (matches t) then err
  else if negb (same_owner c t) then EPERM
  else if (nice <? priority t) && negb can_nice then EACCES
  else if err =? ESRCH then 0 else err.

Lemma nice_acc_fold matches c nice can l err :
  let r := foldl (nice_acc matches c nice can) err l in
  (r = ESRCH <-> err = ESRCH /\ forall t, t ∈ l -> matches t = false)
  /\ (r = 0 <-> (err = 0 \/ (err = ESRCH /\ exists t, t ∈ l /\ matches t = true))
                /\ forall t, t ∈ l -> matches t = true -> nice_allowed c nice can t = true).
Proof.
  cbv zeta. revert err. induction l as [|t l IH]; intros err; cbn [foldl].
  { split; [split; [intros ->; split; [done|by intros ? ?%elem_of_nil]|by intros [? _]]|].
    split; [intros ->; split; [by left|by intros ? ?%elem_of_nil]|].
    intros [[?|(_ & ? & ?%elem_of_nil & _)] _]; done. }
  destruct (IH (nice_acc matches c nice can err t)) as [H1 H2]. setoid_rewrite elem_of_cons.
  assert (nice_acc matches c nice can err t = ESRCH <-> err = ESRCH /\ matches t = false) as E1.
  { unfold nice_acc. destruct (matches t); cbn [negb]; [|tauto].
    destruct (same_owner c t); cbn [negb]; [|split; [done|by intros [_ ?]]].
    destruct (_ && _); [split; [done|by intros [_ ?]]|].
    destruct (Z.eqb_spec err ESRCH); (split; [done|by intros [_ ?]]). }
  assert (nice_acc matches c nice can err t = 0 <->
    (matches t = false /\ err = 0) \/ (matches t = true /\ nice_allowed c nice can t = true /\ (err = 0 \/ err = ESRCH))) as E0.
  { unfold nice_acc, nice_allowed. destruct (matches t); cbn [negb]; [|intuition congruence].
    destruct (same_owner c t); cbn [negb andb]; [|intuition (done || congruence)].
    destruct (_ && _); cbn [negb]; [intuition (done || congruence)|].
    destruct (Z.eqb_spec err ESRCH) as [->|]; intuition (done || congruence). }
  split.
  - rewrite H1, E1. split; [intros [[Ha Hb] Hr]; split; [done|]; intros u [->|Hu]; auto|].
    intros [Ha Hr]. split; [split; [done|apply Hr; by left]|]. intros u Hu. apply Hr. by right.
  - rewrite H2, E1, E0. split.
    + intros [Ha Hb]. split.
      * destruct Ha as [[[? ?]|(? & ? & [?|?])]|([? ?] & u & ? & ?)]; [by left|by left|right|right]; split; eauto.
      * intros u [->|Hu] Hm; [|eauto]. destruct Ha as [[[? ?]|(? & ? & _)]|([? ?] & _)]; congruence.
    + intros [Ha Hb]. split; [|intros u Hu; apply Hb; by right].
      destruct (matches t) eqn:Hm.
      * left. right. split; [done|]. split; [apply Hb; [by left|done]|]. destruct Ha as [|[? _]]; auto.
      * destruct Ha as [|(? & u & [->|Hu] & Hmu)]; [left; by left|congruence|right]. split; [done|]. by exists u.
Qed.

(** setpriority(2) over the matching tasks: a task is reniced (priority,
    table weight, re-placed) exactly when it matches, has the caller as owner
    and is not lowered below what RLIMIT_NICE allows the caller; no other
    task changes; ESRCH means nothing matched and 0 means every match was
    changed; the queue invariant is kept. *)
Theorem set_nice_checked_spec me matches nice q c :
  rq_ok q -> caller me q = Some c ->
  let n := clamp_nice nice in
  let can := (c_euid c =? 0) || (20 - n <=? leader_rlimit q (c_tgid c) RLIMIT_NICE) in
  let r := set_nice_checked me matches nice q in
  rq_ok r.1
  /\ (forall j, slot r.1 j = nice_map matches c n (min_vruntime q) can <$> slot q j)
  /\ (r.2 = ESRCH <-> forall j t, slot q j = Some t -> matches t = false)
  /\ (r.2 = 0 -> forall j t, slot q j = Some t -> matches t = true ->
        slot r.1 j = Some (renice n (min_vruntime q) t)).
Proof.
  intros Hq Hc. cbv zeta. unfold set_nice_checked. rewrite Hc. cbv zeta.
  set (n := clamp_nice nice). set (can := (c_euid c =? 0) || _). clearbody n can.
  pose proof (min_vruntime_bound q Hq) as [Hm _]. set (mv := min_vruntime q) in *. clearbody mv.
  destruct (fold_slots (nice_visit matches c n mv can) (nice_map matches c n mv can) (nice_acc matches c n can))
    with (L := live_slots q) (q := q) (a := ESRCH) as (H1 & H2 & H3).
  - intros q1 err i j. unfold nice_visit, nice_map, nice_allowed.
    destruct (slot q1 i) as [t|] eqn:Hi; [|by apply slot_same].
    cbn [fmap option_fmap option_map]. destruct (matches t); cbn [negb andb]; [|by apply slot_same].
    destruct (same_owner c t); cbn [negb andb]; [|by apply slot_same].
    destruct (_ && _); cbn [negb fst]; [by apply slot_same|]. unfold modify.
    change (slot (touch i q1) i) with (slot q1 i). rewrite Hi. by apply (slot_wake q1 i t).
  - intros q1 err i. unfold nice_visit, nice_acc. destruct (slot q1 i) as [t|]; [|done].
    destruct (matches t); cbn [negb]; [|done]. destruct (same_owner c t); cbn [negb]; [|done]. by destruct (_ && _).
  - intros q1 err i Hq1. unfold nice_visit. destruct (slot q1 i) as [t|] eqn:Hi; [|done].
    destruct (matches t); cbn [negb]; [|done]. destruct (same_owner c t); cbn [negb]; [|done].
    destruct (_ && _); [done|]. apply modify_ok; [done|auto with kernel|]. eapply slot_lt; [apply Hq1|done].
  - rewrite live_slots_spec by apply Hq. apply NoDup_ListNoDup, List.NoDup_filter, List.seq_NoDup.
  - set (r := foldl _ _ _) in *. clearbody r.
    assert (forall j, slot r.1 j = nice_map matches c n mv can <$> slot q j) as Hs.
    { intros j. rewrite H1. destruct (decide (j ∈ live_slots q)) as [|Hj]; [done|].
      rewrite elem_live_slots in Hj by apply Hq. destruct (slot q j); [|done]. by destruct Hj. }
    rewrite <- foldl_omap in H2.
    destruct (nice_acc_fold matches c n can (omap (slot q) (live_slots q)) ESRCH) as [A1 A2]. rewrite <- H2 in A1, A2.
    assert (forall t, t ∈ omap (slot q) (live_slots q) <-> exists j, slot q j = Some t) as Hel.
    { intros t. rewrite list_elem_of_omap. split; [intros (j & _ & ?); by exists j|].
      intros [j Hj]. exists j. split; [|done]. apply elem_live_slots; [apply Hq|by exists t]. }
    split; [auto|]. split; [done|]. split.
    + rewrite A1. split; [intros [_ H] j t Hj; apply H, Hel; by exists j|].
      intros H. split; [done|]. intros t [j Hj]%Hel. by eapply H.
    + intros [_ H]%A2 j t Hj Hmt. rewrite Hs, Hj. cbn [fmap option_fmap option_map]. unfold nice_map.
      rewrite Hmt, (H t) by (done || (apply Hel; by exists j)). done.
Qed.

Lemma set_nice_checked_spec_witness :
  slot (set_nice_checked 7 (fun t => pid t =? 9) 10 demo).1 1 = Some (renice 10 0 demo_9).
Proof.
  assert (exists c, caller 7 demo = Some c) as [c Hc] by (vm_compute; eexists; reflexivity).
  destruct (set_nice_checked_spec 7 (fun t => pid t =? 9) 10 demo c demo_ok Hc) as (_ & _ & _ & H).
  apply (H ltac:(vm_compute; reflexivity) 1%nat demo_9 demo_slot1). reflexivity.
Defined.

(** ** prlimit *)
Definition limits_ok (t : Task) : Prop :=
  length (rlimits t) = RLIM_NLIMITS /\ Forall (fun l : Z * Z => l.1 <= l.2) (rlimits t).

(** prlimit64: an error changes no task; a successful set replaces exactly
    that limit of the target's leader and returns the old one; without root the
    hard limit never rises; and every task keeps a full table of limits with
    soft <= hard. *)
Theorem prlimit_spec me p res new q c :
  rq_ok q -> caller me q = Some c -> c_tgid c <> 0 ->
  (forall j t, slot q j = Some t -> limits_ok t /\ tgid t <> 0) ->
  let r := prlimit me p res new q in
  rq_ok r.2
  /\ (forall j t, slot r.2 j = Some t -> limits_ok t)
  /\ (forall e, r.1 = Err e -> tasks r.2 = tasks q)
  /\ (forall old nl, r.1 = Ok old -> new = Some nl ->
        exists i l, slot q i = Some l /\ rlimit_at l res = old
          /\ (forall j, slot r.2 j = if decide (i = j) then Some (set_rlimit res nl l) else slot q j)
          /\ (c_euid c <> 0 -> nl.2 <= old.2)).
Proof.
  intros Hq Hc Hcg Hlim. cbv zeta.
  assert (forall e (q0 : RunQueue), q0 = q ->
    rq_ok q0 /\ (forall j t, slot q0 j = Some t -> limits_ok t)
    /\ (forall e', @Err (Z * Z) Z e = Err e' -> tasks q0 = tasks q)
    /\ (forall old nl, @Err (Z * Z) Z e = Ok old -> new = Some nl ->
        exists i l, slot q i = Some l /\ rlimit_at l res = old
          /\ (forall j, slot q0 j = if decide (i = j) then Some (set_rlimit res nl l) else slot q j)
          /\ (c_euid c <> 0 -> nl.2 <= old.2))) as Herr.
  { intros e q0 ->. split; [done|]. split; [intros j t Hj; by apply (Hlim j)|]. done. }
  unfold prlimit. destruct (Nat.leb_spec RLIM_NLIMITS res) as [|Hres]; [by apply Herr|].
  destruct (match new with Some (cur, max) => max <? cur | None => false end) eqn:En; [by apply Herr|].
  destruct (match new with Some (_, max) => (res =? RLIMIT_NOFILE)%nat && (NR_OPEN <? max) | None => false end);
    [by apply Herr|].
  rewrite Hc. cbv zeta. destruct (if p =? 0 then _ else _) as [tg|e] eqn:Etg; [|by apply Herr].
  pose proof (find_pid_idx_lookup q tg (proj1 Hq)) as Hl. destruct (find_pid_idx q tg) as [i|]; [|by apply Herr].
  destruct Hl as (l & Hi & _). change (slot (touch i q) i) with (slot q i). rewrite Hi.
  assert (i < MAX_TASKS)%nat as Hlt by (eapply slot_lt; [apply Hq|done]).
  assert (rq_ok (touch i q)) as Hto by (by apply ok_touch).
  destruct new as [nl|]; [|cbn [fst snd]; split; [done|]; split; [intros j t Hj; by apply (Hlim j)|done]].
  destruct (((rlimit_at l res).2 <? nl.2) && negb (c_euid c =? 0)) eqn:Eh; cbn [fst snd].
  { split; [done|]. split; [intros j t Hj; by apply (Hlim j)|]. done. }
  destruct (write_keeps i l (set_rlimit res nl) q Hq Hi) as [W1 W2]; [auto with kernel|].
  split; [done|]. split; [|split; [done|]].
  - intros j t. rewrite W2. destruct (decide (i = j)); [|intros Hj; by apply (Hlim j)].
    intros [= <-]. destruct (Hlim i l Hi) as [[L1 L2] _]. destruct nl as [cur max]. bool_to_prop.
    split; cbn; [by rewrite length_insert|]. apply Forall_insert; [done|]. cbn. lia.
  - intros old nl' [= <-] [= <-]. exists i, l. split; [done|]. split; [done|]. split; [done|].
    intros Hne. rewrite (proj2 (Z.eqb_neq _ _) Hne), andb_true_r in Eh. bool_to_prop. lia.
Qed.

Lemma demo_limits j t : slot demo j = Some t -> limits_ok t /\ tgid t <> 0.
Proof.
  intros Hj. pose proof (enqueue_fill demo1 1 demo_b demo1_ok) as Hfill.
  destruct Hfill as [_ _ Hs _]; [by vm_compute|intros _ k u Hk%demo1_slot; cbn; lia|].
  assert (forall u, rlimits u = RLIMIT_DEFAULTS -> limits_ok u) as Hd.
  { intros u Hu. unfold limits_ok. rewrite Hu. split; [reflexivity|].
    apply (bool_decide_unpack _). vm_compute. exact I. }
  unfold demo in Hj. rewrite Hs in Hj. destruct (decide (1%nat = j)).
  - injection Hj as <-. destruct (place_frame (min_vruntime demo1) demo_b) as (vr & vd & -> & _).
    split; [by apply Hd|]. cbn. lia.
  - destruct (enqueue_fill new 0 demo_a new_ok) as [_ _ Hs0 _]; [by vm_compute|by intros; rewrite slot_new in *|].
    unfold demo1 in Hj. rewrite Hs0 in Hj. destruct (decide (0%nat = j)); [|by rewrite slot_new in Hj].
    injection Hj as <-. destruct (place_frame (min_vruntime new) demo_a) as (vr & vd & -> & _).
    split; [by apply Hd|]. cbn. lia.
Qed.

Lemma prlimit_spec_witness : rq_ok (prlimit 7 9 7 (Some (100, 200)) demo).2.
Proof.
  assert (exists c, caller 7 demo = Some c /\ c_tgid c = 7) as (c & Hc & Hg)
    by (vm_compute; eexists; split; reflexivity).
  apply (prlimit_spec 7 9 7 (Some (100, 200)) demo c demo_ok Hc); [rewrite Hg; lia|exact demo_limits].
Defined.
