(* ===== verification/Xattr.v ===== *)
(** * Extended attributes: names and the arena codec

    Models the first half of [src/servers/xattr/src/lib.rs]: attribute names,
    the packed entry list both filesystems store ("arena"), and its
    operations.  A byte is a [Z] in [0, 256), a slice a list; positions are
    [nat].  Writes through [&mut [u8]] return the new arena. *)
From S2P Require Import Prelude.

Definition byte (b : Z) : Prop := 0 <= b < 256.
Definition bytes (l : list Z) : Prop := Forall byte l.

Definition EPERM : Z := 1.
Definition E2BIG : Z := 7.
Definition EACCES : Z := 13.
Definition EEXIST : Z := 17.
Definition EINVAL : Z := 22.
Definition ENOSPC : Z := 28.
Definition ERANGE : Z := 34.
Definition ENODATA : Z := 61.
Definition EOPNOTSUPP : Z := 95.

Definition XATTR_NAME_MAX : nat := 255.
Definition XATTR_CREATE : Z := 1.
Definition XATTR_REPLACE : Z := 2.
Definition IDX_USER : Z := 1.
Definition IDX_ACL_ACCESS : Z := 2.
Definition IDX_ACL_DEFAULT : Z := 3.
Definition IDX_TRUSTED : Z := 4.

(** [b"user."], [b"trusted."], the two ACL names. *)
Definition USER_PREFIX : list Z := [117; 115; 101; 114; 46].
Definition TRUSTED_PREFIX : list Z := [116; 114; 117; 115; 116; 101; 100; 46].
Definition ACL_PREFIX : list Z :=
  [115; 121; 115; 116; 101; 109; 46; 112; 111; 115; 105; 120; 95; 97; 99; 108; 95].
Definition ACL_ACCESS_NAME : list Z := ACL_PREFIX ++ [97; 99; 99; 101; 115; 115].
Definition ACL_DEFAULT_NAME : list Z := ACL_PREFIX ++ [100; 101; 102; 97; 117; 108; 116].

(** ** Names *)
Fixpoint strip_prefix (p s : list Z) : option (list Z) :=
  match p, s with
  | [], _ => Some s
  | x :: p, y :: s => if x =? y then strip_prefix p s else None
  | _, [] => None
  end.

Definition split_name (full : list Z) : option (Z * list Z) :=
  match strip_prefix USER_PREFIX full with
  | Some suf => Some (IDX_USER, suf)
  | None =>
      if bool_decide (full = ACL_ACCESS_NAME) then Some (IDX_ACL_ACCESS, [])
      else if bool_decide (full = ACL_DEFAULT_NAME) then Some (IDX_ACL_DEFAULT, [])
      else match strip_prefix TRUSTED_PREFIX full with
           | Some suf => Some (IDX_TRUSTED, suf)
           | None => None
           end
  end.

(** The name written to an [out] buffer of [cap] bytes. *)
Definition join_name (idx : Z) (suf : list Z) (cap : nat) : option (list Z) :=
  let prefix :=
    if idx =? IDX_USER then Some USER_PREFIX
    else if idx =? IDX_ACL_ACCESS then Some ACL_ACCESS_NAME
    else if idx =? IDX_ACL_DEFAULT then Some ACL_DEFAULT_NAME
    else if idx =? IDX_TRUSTED then Some TRUSTED_PREFIX
    else None in
  match prefix with
  | None => None
  | Some p => if (cap <? length p + length suf)%nat then None else Some (p ++ suf)
  end.

(** ** Arena primitives *)
(** [(n + 3) & !3]: the two low bits cleared. *)
Definition align4 (n : nat) : nat := ((n + 3) / 4 * 4)%nat.
Definition at_ (a : list Z) (i : nat) : Z := nth i a 0.
(** [&a[i..i + n]] *)
Definition slice (a : list Z) (i n : nat) : list Z := take n (drop i a).
(** [a[i..i + x.len()].copy_from_slice(x)] *)
Definition splice (a : list Z) (i : nat) (x : list Z) : list Z :=
  take i a ++ x ++ drop (i + length x) a.
(** [a.copy_within(from..to, dst)] *)
Definition copy_within (a : list Z) (from to dst : nat) : list Z :=
  splice a dst (slice a from (to - from)).
(** [a[from..].fill(0)] *)
Definition zero_from (a : list Z) (from : nat) : list Z :=
  splice a from (replicate (length a - from) 0).

Definition le16 (x : Z) : list Z := [x mod 256; x / 256].
Definition of_le16 (lo hi : Z) : Z := lo + 256 * hi.

Definition is_empty (a : list Z) : bool :=
  match a with [] => true | x :: _ => x =? 0 end.

(** ** Iteration *)
Record Entry := mkEntry { off : nat; idx : Z; name : list Z; value : list Z }.

Definition entry_len (nl vs : nat) : nat := align4 (4 + nl + vs).

(** The entries from [pos], and the final [pos].  Every step advances, so the
    arena length is enough fuel. *)
Fixpoint iter (fuel : nat) (a : list Z) (pos : nat) : list Entry * nat :=
  match fuel with
  | O => ([], pos)
  | S f =>
      if (length a <? pos + 4)%nat || (at_ a pos =? 0) then ([], pos)
      else
        let nl := Z.to_nat (at_ a (pos + 1)) in
        let vs := Z.to_nat (of_le16 (at_ a (pos + 2)) (at_ a (pos + 3))) in
        let body := (pos + 4)%nat in
        if (length a <? body + nl + vs)%nat then ([], pos)
        else
          let e := mkEntry pos (at_ a pos) (slice a body nl) (slice a (body + nl) vs) in
          let '(es, p) := iter f a (pos + entry_len nl vs) in
          (e :: es, p)
  end.
Definition entries (a : list Z) : list Entry := (iter (length a) a 0).1.
Definition used_len (a : list Z) : nat := (iter (length a) a 0).2.

Definition is_key (i : Z) (suf : list Z) (e : Entry) : bool :=
  (idx e =? i) && bool_decide (name e = suf).

Definition lookup_entry (a : list Z) (i : Z) (suf : list Z) : option Entry :=
  head (List.filter (is_key i suf) (entries a)).

Definition find (a : list Z) (i : Z) (suf : list Z) : option (list Z) :=
  value <$> lookup_entry a i suf.

(** ** Listing *)
Definition listed_name (include_trusted : bool) (e : Entry) : option (list Z) :=
  if (idx e =? IDX_TRUSTED) && negb include_trusted then None
  else join_name (idx e) (name e) XATTR_NAME_MAX.
(** The result and the contents of an [out] buffer of [cap] bytes (as far as it
    is written). *)
Definition list_names (a : list Z) (cap : nat) (include_trusted : bool) : result nat Z * list Z :=
  let names := omap (listed_name include_trusted) (entries a) in
  let total := foldl (fun n (s : list Z) => n + (length s + 1))%nat O names in
  if (cap =? 0)%nat then (Ok total, [])
  else if (cap <? total)%nat then (Err ERANGE, [])
  else (Ok total, concat (map (fun s => s ++ [0]) names)).

(** ** Update *)
Definition set (a : list Z) (i : Z) (suf val : list Z) (flags : Z) : result nat Z * list Z :=
  if (255 <? length suf)%nat || (65535 <? Z.of_nat (length val)) then (Err EINVAL, a)
  else
    let existing := lookup_entry a i suf in
    if bool_decide (is_Some existing) && negb (Z.land flags XATTR_CREATE =? 0) then (Err EEXIST, a)
    else if negb (bool_decide (is_Some existing)) && negb (Z.land flags XATTR_REPLACE =? 0)
    then (Err ENODATA, a)
    else
      let old_entry_len :=
        match existing with Some e => entry_len (length (name e)) (length (value e)) | None => O end in
      let old_off := off <$> existing in
      let new_entry_len := entry_len (length suf) (length val) in
      let used := used_len a in
      if (length a <? used - old_entry_len + new_entry_len + 4)%nat then (Err ENOSPC, a)
      else
        let '(a, end_) :=
          match old_off with
          | Some o => (copy_within a (o + old_entry_len) used o, (used - old_entry_len)%nat)
          | None => (a, used)
          end in
        let a := splice a end_ [i] in
        let a := splice a (end_ + 1) [Z.of_nat (length suf)] in
        let a := splice a (end_ + 2) (le16 (Z.of_nat (length val))) in
        let a := splice a (end_ + 4) suf in
        let a := splice a (end_ + 4 + length suf) val in
        let new_end := (end_ + new_entry_len)%nat in
        let body_end := (end_ + 4 + length suf + length val)%nat in
        let a := splice a body_end (replicate (new_end - body_end) 0) in
        let a := zero_from a new_end in
        (Ok new_end, a).

Definition remove (a : list Z) (i : Z) (suf : list Z) : result nat Z * list Z :=
  match lookup_entry a i suf with
  | None => (Err ENODATA, a)
  | Some e =>
      let len := entry_len (length (name e)) (length (value e)) in
      let used := used_len a in
      let a := copy_within a (off e + len) used (off e) in
      let a := zero_from a (used - len) in
      (Ok (used - len)%nat, a)
  end.

(** ** Abstract contents *)
Definition attr : Type := (Z * list Z) * list Z.

Definition attr_ok (x : attr) : Prop :=
  0 < x.1.1 < 256 /\ bytes x.1.2 /\ bytes x.2 /\ (length x.1.2 <= 255)%nat /\ Z.of_nat (length x.2) <= 65535.

Definition enc (x : attr) : list Z :=
  let '(i, n, v) := x in
  [i; Z.of_nat (length n)] ++ le16 (Z.of_nat (length v)) ++ n ++ v
  ++ replicate (entry_len (length n) (length v) - (4 + length n + length v)) 0.
Definition enc_all (l : list attr) : list Z := concat (map enc l).

(** The arena [a] holds exactly the attributes [l], in order, each key once. *)
Record holds (a : list Z) (l : list attr) : Prop := {
  holds_bytes : exists tail, a = enc_all l ++ tail /\ ((length tail < 4)%nat \/ at_ tail 0 = 0);
  holds_attrs : Forall attr_ok l;
  holds_keys : NoDup l.*1 }.

Fixpoint with_offsets (pos : nat) (l : list attr) : list Entry :=
  match l with
  | [] => []
  | x :: l => mkEntry pos x.1.1 x.1.2 x.2 :: with_offsets (pos + length (enc x)) l
  end.

Definition attr_get (k : Z * list Z) (l : list attr) : option (list Z) :=
  snd <$> head (List.filter (fun x => bool_decide (x.1 = k)) l).
Definition attr_del (k : Z * list Z) (l : list attr) : list attr :=
  List.filter (fun x => negb (bool_decide (x.1 = k))) l.

(** ** Lemmas on the primitives *)
Lemma align4_spec n : (n <= align4 n < n + 4)%nat.
Proof.
  unfold align4. pose proof (Nat.div_mod_eq (n + 3) 4). pose proof (Nat.mod_upper_bound (n + 3) 4). lia.
Qed.

Lemma align4_pos n : (4 <= align4 (4 + n))%nat.
Proof. pose proof (align4_spec (4 + n)). lia. Qed.

Lemma splice_app (P R x : list Z) i :
  i = length P -> splice (P ++ R) i x = P ++ x ++ drop (length x) R.
Proof.
  intros ->. unfold splice. rewrite take_app_length, drop_app_ge by lia.
  by replace (length P + length x - length P)%nat with (length x) by lia.
Qed.

Lemma of_le16_le16 x : 0 <= x < 65536 -> of_le16 (x mod 256) (x / 256) = x.
Proof. intros. unfold of_le16. pose proof (Z.div_mod x 256). lia. Qed.

Lemma enc_length x : length (enc x) = entry_len (length x.1.2) (length x.2).
Proof.
  destruct x as [[i n] v]. unfold enc. cbn [fst snd]. rewrite !length_app, length_replicate.
  cbn [length le16]. pose proof (align4_spec (4 + length n + length v)). unfold entry_len. lia.
Qed.

Lemma enc_at x R :
  attr_ok x ->
  at_ (enc x ++ R) 0 = x.1.1 /\ at_ (enc x ++ R) 1 = Z.of_nat (length x.1.2)
  /\ of_le16 (at_ (enc x ++ R) 2) (at_ (enc x ++ R) 3) = Z.of_nat (length x.2)
  /\ slice (enc x ++ R) 4 (length x.1.2) = x.1.2
  /\ slice (enc x ++ R) (4 + length x.1.2) (length x.2) = x.2.
Proof.
  destruct x as [[i n] v]. intros (_ & _ & _ & Hn & Hv). cbn [fst snd] in *. unfold enc, at_, slice.
  rewrite <- !app_assoc. cbn [app nth le16].
  split; [done|]. split; [done|]. split; [apply of_le16_le16; lia|].
  cbn [drop Nat.add]. split; [by rewrite drop_0, take_app_length|].
  rewrite drop_app_length. by rewrite take_app_length.
Qed.

Lemma at_app (P R : list Z) i : at_ (P ++ R) (length P + i) = at_ R i.
Proof. unfold at_. rewrite app_nth2 by lia. by replace (length P + i - length P)%nat with i by lia. Qed.

Lemma slice_app (P R : list Z) i n : slice (P ++ R) (length P + i) n = slice R i n.
Proof. unfold slice. rewrite drop_app_ge by lia.
  by replace (length P + i - length P)%nat with i by lia. Qed.

(** ** Iteration reads back the encoding *)
Lemma enc_all_cons x l : enc_all (x :: l) = enc x ++ enc_all l.
Proof. done. Qed.
Lemma enc_all_app l1 l2 : enc_all (l1 ++ l2) = enc_all l1 ++ enc_all l2.
Proof. unfold enc_all. by rewrite map_app, concat_app. Qed.

Lemma iter_spec l : forall fuel P tail,
  Forall attr_ok l -> (length l <= fuel)%nat -> (length tail < 4)%nat \/ at_ tail 0 = 0 ->
  iter fuel (P ++ enc_all l ++ tail) (length P)
  = (with_offsets (length P) l, length P + length (enc_all l))%nat.
Proof.
  induction l as [|x l IH]; intros fuel P tail Hok Hf Ht.
  - cbn [enc_all map concat app with_offsets length]. rewrite Nat.add_0_r.
    destruct fuel as [|f]; [done|]. cbn [iter].
    replace ((length (P ++ tail) <? length P + 4)%nat || (at_ (P ++ tail) (length P) =? 0)) with true; [done|].
    symmetry. apply orb_true_iff. rewrite length_app. destruct Ht as [Ht|Ht].
    + left. apply Nat.ltb_lt. lia.
    + right. apply Z.eqb_eq. rewrite <- Ht, <- (at_app P tail 0), Nat.add_0_r. done.
  - apply Forall_cons in Hok as [Hx Hl]. destruct fuel as [|f]; [cbn in Hf; lia|].
    rewrite enc_all_cons, <- app_assoc. set (R := enc_all l ++ tail). cbn [iter].
    destruct (enc_at x R Hx) as (A0 & A1 & A2 & S1 & S2). pose proof (enc_length x) as He.
    pose proof (align4_spec (4 + length x.1.2 + length x.2)) as Hal.
    pose proof Hx as (Hi & _ & _ & Hn & Hv).
    assert (at_ (P ++ enc x ++ R) (length P) = x.1.1) as E0 by (rewrite <- A0, <- (at_app P _ 0), Nat.add_0_r; done).
    rewrite E0, !at_app, A1, A2, !Nat2Z.id.
    rewrite (proj2 (Nat.ltb_ge _ _)) by (rewrite !length_app, He; unfold entry_len; lia).
    rewrite (proj2 (Z.eqb_neq _ _)) by lia. cbn [orb].
    rewrite (proj2 (Nat.ltb_ge _ _)) by (rewrite !length_app, He; unfold entry_len; lia).
    rewrite <- (Nat.add_assoc (length P) 4 (length x.1.2)), !slice_app, S1, S2.
    specialize (IH f (P ++ enc x) tail Hl ltac:(cbn in Hf; lia) Ht).
    rewrite <- app_assoc, length_app, He in IH. fold R in IH. rewrite IH.
    cbn [with_offsets]. rewrite length_app, He. f_equal. lia.
Qed.

Lemma enc_all_length_ge l : (length l <= length (enc_all l))%nat.
Proof.
  induction l as [|x l IH]; [done|]. rewrite enc_all_cons, length_app, enc_length. cbn [length].
  pose proof (align4_spec (4 + length x.1.2 + length x.2)). unfold entry_len. lia.
Qed.

Lemma holds_iter a l :
  holds a l -> iter (length a) a 0 = (with_offsets 0 l, length (enc_all l)).
Proof.
  intros [(tail & -> & Ht) Hok _]. apply (iter_spec l _ [] tail Hok); [|done].
  rewrite length_app. pose proof (enc_all_length_ge l). lia.
Qed.

Lemma holds_entries a l : holds a l -> entries a = with_offsets 0 l.
Proof. intros H. unfold entries. by rewrite (holds_iter a l). Qed.
Lemma holds_used a l : holds a l -> used_len a = length (enc_all l).
Proof. intros H. unfold used_len. by rewrite (holds_iter a l). Qed.

(** The first entry with a key, and its position in the encoding. *)
Lemma lookup_offsets i suf l p :
  match head (List.filter (is_key i suf) (with_offsets p l)) with
  | Some e => exists (l1 : list attr) v (l2 : list attr), l = l1 ++ @cons attr ((i, suf), v) l2 /\ ((i, suf) ∉ l1.*1)
      /\ e = mkEntry (p + length (enc_all l1)) i suf v
  | None => (i, suf) ∉ l.*1
  end.
Proof.
  revert p. induction l as [|[[j n] v] l IH]; intros p; cbn [with_offsets List.filter head].
  { apply not_elem_of_nil. }
  unfold is_key at 1. cbn [idx name fst snd].
  destruct (Z.eqb_spec j i) as [->|Hj]; [destruct (decide (n = suf)) as [->|Hn]|]; cbn [andb].
  - rewrite bool_decide_eq_true_2 by done. cbn [head]. exists [], v, l.
    split; [done|]. split; [apply not_elem_of_nil|]. cbn. f_equal. lia.
  - rewrite bool_decide_eq_false_2 by done. specialize (IH (p + length (enc ((i, n), v)))%nat).
    destruct (head _) as [e|].
    + destruct IH as (l1 & w & l2 & -> & Hni & ->). exists (((i, n), v) :: l1), w, l2.
      split; [done|]. split; [rewrite fmap_cons, not_elem_of_cons; split; [cbn; congruence|done]|].
      rewrite enc_all_cons, length_app. f_equal. lia.
    + rewrite fmap_cons, not_elem_of_cons. split; [cbn; congruence|done].
  - specialize (IH (p + length (enc ((j, n), v)))%nat). destruct (head _) as [e|].
    + destruct IH as (l1 & w & l2 & -> & Hni & ->). exists (((j, n), v) :: l1), w, l2.
      split; [done|]. split; [rewrite fmap_cons, not_elem_of_cons; split; [cbn; congruence|done]|].
      rewrite enc_all_cons, length_app. f_equal. lia.
    + rewrite fmap_cons, not_elem_of_cons. split; [cbn; congruence|done].
Qed.

Lemma attr_del_notin k l : k ∉ l.*1 -> attr_del k l = l.
Proof.
  induction l as [|x l IH]; intros Hk; [done|]. rewrite fmap_cons, not_elem_of_cons in Hk. destruct Hk as [H1 H2].
  unfold attr_del in *. cbn [List.filter]. rewrite bool_decide_eq_false_2 by congruence. cbn [negb]. by rewrite IH.
Qed.
Lemma attr_get_notin k l : k ∉ l.*1 -> attr_get k l = None.
Proof.
  induction l as [|x l IH]; intros Hk; [done|]. rewrite fmap_cons, not_elem_of_cons in Hk. destruct Hk as [H1 H2].
  unfold attr_get in *. cbn [List.filter]. rewrite bool_decide_eq_false_2 by congruence. auto.
Qed.
Lemma attr_del_split k v (l1 l2 : list attr) :
  k ∉ l1.*1 -> k ∉ l2.*1 -> attr_del k (l1 ++ @cons attr (k, v) l2) = l1 ++ l2.
Proof.
  intros H1 H2. unfold attr_del. rewrite List.filter_app. cbn [List.filter fst].
  rewrite bool_decide_eq_true_2 by done. cbn [negb]. f_equal; by apply attr_del_notin.
Qed.
Lemma attr_get_split k v (l1 l2 : list attr) :
  k ∉ l1.*1 -> attr_get k (l1 ++ @cons attr (k, v) l2) = Some v.
Proof.
  induction l1 as [|x l1 IH]; intros Hk; unfold attr_get in *; cbn [app List.filter fst].
  - by rewrite bool_decide_eq_true_2.
  - rewrite fmap_cons, not_elem_of_cons in Hk. destruct Hk as [H1 H2].
    rewrite bool_decide_eq_false_2 by congruence. auto.
Qed.

(** Lookup of a key in an arena that holds [l]: absent, or split around it. *)
Lemma holds_lookup a l i suf :
  holds a l ->
  (lookup_entry a i suf = None /\ (i, suf) ∉ l.*1)
  \/ exists (l1 : list attr) v (l2 : list attr), l = l1 ++ @cons attr ((i, suf), v) l2 /\ ((i, suf) ∉ l1.*1) /\ ((i, suf) ∉ l2.*1)
       /\ lookup_entry a i suf = Some (mkEntry (length (enc_all l1)) i suf v).
Proof.
  intros Ha. unfold lookup_entry. rewrite (holds_entries a l Ha). pose proof (lookup_offsets i suf l 0) as H.
  destruct (head _) as [e|]; [right|by left]. destruct H as (l1 & v & l2 & -> & Hni & ->).
  exists l1, v, l2. split; [done|]. split; [done|]. split; [|done].
  pose proof (holds_keys _ _ Ha) as Hk. rewrite fmap_app, fmap_cons in Hk. apply NoDup_app in Hk as (_ & _ & Hk).
  by apply NoDup_cons in Hk as [? _].
Qed.

(** ** Effects of the writes *)
Lemma copy_down P X Y T : 
  copy_within (P ++ X ++ Y ++ T) (length P + length X) (length P + length X + length Y) (length P)
  = P ++ Y ++ drop (length Y) (X ++ Y ++ T).
Proof.
  unfold copy_within. replace (slice _ _ _) with Y; [by apply splice_app|].
  unfold slice. rewrite (app_assoc P X), <- (length_app P X), drop_app_length.
  replace (_ - _)%nat with (length Y) by lia. by rewrite take_app_length.
Qed.

Lemma zero_tail P T : zero_from (P ++ T) (length P) = P ++ replicate (length T) 0.
Proof.
  unfold zero_from. rewrite splice_app by done. rewrite length_app, length_replicate.
  replace (length P + length T - length P)%nat with (length T) by lia.
  rewrite drop_ge by lia. by rewrite app_nil_r.
Qed.

Lemma zeros_end n : (length (replicate n 0%Z) < 4)%nat \/ at_ (replicate n 0) 0 = 0.
Proof. right. by destruct n. Qed.

(** Appending an entry after [P] and clearing the rest. *)
Lemma append_entry P R i suf val :
  (length (enc ((i, suf), val)) <= length R)%nat ->
  let e := length P in
  let a := splice (P ++ R) e [i] in
  let a := splice a (e + 1) [Z.of_nat (length suf)] in
  let a := splice a (e + 2) (le16 (Z.of_nat (length val))) in
  let a := splice a (e + 4) suf in
  let a := splice a (e + 4 + length suf) val in
  let new_end := (e + entry_len (length suf) (length val))%nat in
  let body_end := (e + 4 + length suf + length val)%nat in
  let a := splice a body_end (replicate (new_end - body_end) 0) in
  zero_from a new_end
  = P ++ enc ((i, suf), val) ++ replicate (length R - length (enc ((i, suf), val))) 0.
Proof.
  intros HR. cbv zeta. rewrite enc_length in *. cbn [fst snd] in *.
  set (el := entry_len (length suf) (length val)) in *.
  pose proof (align4_spec (4 + length suf + length val)) as Hal. fold (entry_len (length suf) (length val)) in Hal. fold el in Hal.
  rewrite (splice_app P R) by done. rewrite (app_assoc P [i]).
  rewrite (splice_app (P ++ [i])) by (rewrite length_app; cbn; lia). rewrite (app_assoc (P ++ [i])).
  rewrite (splice_app ((P ++ [i]) ++ _)) by (rewrite !length_app; cbn; lia). rewrite (app_assoc ((P ++ [i]) ++ _)).
  rewrite (splice_app (((P ++ [i]) ++ _) ++ _)) by (rewrite !length_app; cbn; lia).
  rewrite (app_assoc (((P ++ [i]) ++ _) ++ _)).
  rewrite (splice_app ((((P ++ [i]) ++ _) ++ _) ++ _)) by (rewrite !length_app; cbn; lia).
  rewrite (app_assoc ((((P ++ [i]) ++ _) ++ _) ++ _)).
  set (Q := ((((P ++ [i]) ++ _) ++ _) ++ _) ++ _).
  assert (length Q = length P + 4 + length suf + length val)%nat as HQ by (unfold Q; rewrite !length_app; cbn; lia).
  rewrite (splice_app Q) by lia. rewrite (app_assoc Q).
  set (pad := replicate (_ - (_ + length val)) 0). assert (pad = replicate (el - (4 + length suf + length val)) 0) as Hpad.
  { unfold pad. f_equal. lia. }
  assert (length pad = el - (4 + length suf + length val))%nat as Hpl by (rewrite Hpad; apply length_replicate).
  clearbody pad. rewrite !drop_drop. set (T := drop _ R).
  assert (length T = length R - el)%nat as HT by (unfold T; rewrite length_drop; cbn [length le16]; lia).
  assert (length P + el = length (Q ++ pad))%nat as -> by (rewrite length_app; lia).
  rewrite zero_tail, HT, Hpad. unfold Q, enc. fold el. rewrite <- !app_assoc. reflexivity.
Qed.

(** ** Operations against the abstract contents *)
Lemma find_holds a l i suf : holds a l -> find a i suf = attr_get (i, suf) l.
Proof.
  intros Ha. unfold find. destruct (holds_lookup a l i suf Ha) as [[-> Hn]|(l1 & v & l2 & -> & H1 & _ & ->)].
  - by rewrite attr_get_notin.
  - by rewrite attr_get_split.
Qed.

Lemma attr_get_iff k l : is_Some (attr_get k l) <-> k ∈ l.*1.
Proof.
  induction l as [|x l IH]; unfold attr_get in *; cbn [List.filter].
  - split; [by intros []|by intros ?%elem_of_nil].
  - rewrite fmap_cons, elem_of_cons. destruct (decide (x.1 = k)) as [<-|Hne].
    + rewrite bool_decide_eq_true_2 by done. cbn. split; [by left|by eexists].
    + rewrite bool_decide_eq_false_2 by done. rewrite IH. split; [by right|]. intros [?|?]; [congruence|done].
Qed.

Lemma attr_get_app k l1 l2 :
  attr_get k (l1 ++ l2) = match attr_get k l1 with Some v => Some v | None => attr_get k l2 end.
Proof.
  induction l1 as [|x l1 IH]; [done|]. unfold attr_get in *. cbn [app List.filter].
  destruct (bool_decide (x.1 = k)); [done|exact IH].
Qed.

Lemma attr_get_del k k' l : attr_get k' (attr_del k l) = if decide (k' = k) then None else attr_get k' l.
Proof.
  induction l as [|x l IH]; [by destruct (decide (k' = k))|]. unfold attr_get, attr_del in *. cbn [List.filter].
  destruct (decide (x.1 = k)) as [E|E].
  - rewrite (bool_decide_eq_true_2 (x.1 = k)) by done. cbn [negb]. rewrite IH.
    destruct (decide (k' = k)) as [|Hne]; [done|]. rewrite (bool_decide_eq_false_2 (x.1 = k')) by congruence. done.
  - rewrite (bool_decide_eq_false_2 (x.1 = k)) by done. cbn [negb List.filter].
    destruct (decide (x.1 = k')) as [E'|E'].
    + rewrite (bool_decide_eq_true_2 (x.1 = k')) by done. rewrite decide_False by congruence. done.
    + rewrite (bool_decide_eq_false_2 (x.1 = k')) by done. exact IH.
Qed.

Lemma attr_del_keys k l : (attr_del k l).*1 = List.filter (fun k' => negb (bool_decide (k' = k))) l.*1.
Proof.
  induction l as [|x l IH]; [done|]. unfold attr_del in *. cbn [List.filter fmap list_fmap].
  destruct (bool_decide (x.1 = k)); cbn; by rewrite IH.
Qed.

Lemma holds_del l k : Forall attr_ok l -> NoDup l.*1 -> Forall attr_ok (attr_del k l) /\ NoDup (attr_del k l).*1 /\ k ∉ (attr_del k l).*1.
Proof.
  intros Hok Hnd. split; [|split].
  - unfold attr_del. apply Forall_forall. intros x Hx. apply list_elem_of_In, List.filter_In in Hx as [Hx _].
    rewrite Forall_forall in Hok. apply Hok. by apply list_elem_of_In.
  - rewrite attr_del_keys. apply NoDup_ListNoDup, List.NoDup_filter. by apply NoDup_ListNoDup.
  - rewrite attr_del_keys. intros Hx. apply list_elem_of_In, List.filter_In in Hx as [_ Hx].
    by rewrite bool_decide_eq_true_2 in Hx.
Qed.

Lemma enc_split_length l1 x l2 :
  length (enc_all (l1 ++ x :: l2)) = (length (enc_all (l1 ++ l2)) + entry_len (length x.1.2) (length x.2))%nat.
Proof. rewrite !enc_all_app, enc_all_cons, !length_app, enc_length. lia. Qed.

Lemma holds_intro l n :
  Forall attr_ok l -> NoDup l.*1 -> holds (enc_all l ++ replicate n 0) l.
Proof. intros H1 H2. split; [|done|done]. exists (replicate n 0). split; [done|apply zeros_end]. Qed.

(** The arena after the old entry has been slid out of the way: the remaining
    entries, then as many free bytes as the length leaves. *)
Lemma set_prefix a l i suf :
  holds a l ->
  let existing := lookup_entry a i suf in
  let old_len := match existing with Some e => entry_len (length (name e)) (length (value e)) | None => O end in
  (used_len a - old_len = length (enc_all (attr_del (i, suf) l)))%nat
  /\ exists R, match off <$> existing with
     | Some o => (copy_within a (o + old_len) (used_len a) o, (used_len a - old_len)%nat)
     | None => (a, used_len a)
     end = (enc_all (attr_del (i, suf) l) ++ R, length (enc_all (attr_del (i, suf) l)))
     /\ length (enc_all (attr_del (i, suf) l) ++ R) = length a.
Proof.
  intros Ha. cbv zeta. rewrite (holds_used a l Ha). pose proof (holds_bytes _ _ Ha) as (tail & Ea & _).
  destruct (holds_lookup a l i suf Ha) as [[-> Hn]|(l1 & v & l2 & El & H1 & H2 & ->)]; cbn [fmap option_fmap option_map off name value].
  - rewrite (attr_del_notin _ _ Hn), Nat.sub_0_r. split; [done|]. exists tail. by rewrite <- Ea.
  - rewrite El, attr_del_split by done. pose proof (enc_split_length l1 ((i, suf), v) l2) as Hlen. cbn [fst snd] in Hlen.
    set (el := entry_len (length suf) (length v)) in *. rewrite Hlen, Nat.add_sub. split; [done|].
    rewrite El, enc_all_app, enc_all_cons, <- !app_assoc in Ea.
    assert (length (enc ((i, suf), v)) = el) as He by apply enc_length.
    exists (drop (length (enc_all l2)) (enc ((i, suf), v) ++ enc_all l2 ++ tail)).
    rewrite Ea at 1. rewrite enc_all_app, length_app, <- He.
    replace (length (enc_all l1) + length (enc_all l2) + length (enc ((i, suf), v)))%nat
      with (length (enc_all l1) + length (enc ((i, suf), v)) + length (enc_all l2))%nat by lia.
    rewrite copy_down, <- app_assoc. split; [done|]. rewrite Ea, !length_app, length_drop, !length_app. lia.
Qed.

(** ** Properties *)

(** C4: [set] implements insertion in the attribute list: on an arena that holds
    [l] it refuses with EEXIST (create, present), ENODATA (replace, absent) or
    ENOSPC (the new list and a terminator do not fit) leaving the arena
    unchanged, and otherwise yields an arena of the same length that holds [l]
    without the old binding followed by the new one, returning its used
    length; looking up the key then gives the new value and every other key
    gives what it gave before. *)
Theorem xattr_set_spec a l i suf val flags :
  holds a l -> attr_ok ((i, suf), val) ->
  let r := set a i suf val flags in
  let l' := attr_del (i, suf) l ++ [((i, suf), val)] in
  let create := negb (Z.land flags XATTR_CREATE =? 0) in
  let replace := negb (Z.land flags XATTR_REPLACE =? 0) in
  if bool_decide (is_Some (find a i suf)) && create then r = (Err EEXIST, a)
  else if negb (bool_decide (is_Some (find a i suf))) && replace then r = (Err ENODATA, a)
  else if (length a <? length (enc_all l') + 4)%nat then r = (Err ENOSPC, a)
  else r.1 = Ok (length (enc_all l')) /\ holds r.2 l' /\ length r.2 = length a
       /\ find r.2 i suf = Some val
       /\ forall j n, (j, n) <> (i, suf) -> find r.2 j n = find a j n.
Proof.
  intros Ha Hx. cbv zeta. unfold set. pose proof Hx as (_ & _ & _ & Hl1 & Hl2). cbn [fst snd] in Hl1, Hl2.
  rewrite (proj2 (Nat.ltb_ge 255 (length suf))), (proj2 (Z.ltb_ge 65535 _)) by lia. cbn [orb].
  replace (bool_decide (is_Some (lookup_entry a i suf))) with (bool_decide (is_Some (find a i suf))).
  2:{ apply bool_decide_ext. unfold find. by rewrite fmap_is_Some. }
  destruct (bool_decide (is_Some (find a i suf)) && _); [done|].
  destruct (negb (bool_decide (is_Some (find a i suf))) && _); [done|].
  destruct (set_prefix a l i suf Ha) as (Hused & R & Hmv & HR).
  set (ol := match lookup_entry a i suf with Some e => _ | None => _ end) in *. rewrite Hmv, Hused.
  destruct (holds_del l (i, suf) (holds_attrs _ _ Ha) (holds_keys _ _ Ha)) as (D1 & D2 & D3).
  set (d := attr_del (i, suf) l) in *.
  assert (length (enc_all (d ++ [((i, suf), val)])) = length (enc_all d) + entry_len (length suf) (length val))%nat as Hlen.
  { rewrite enc_all_app, length_app. unfold enc_all at 2. cbn [map concat]. by rewrite app_nil_r, enc_length. }
  rewrite Hlen. destruct (Nat.ltb_spec (length a) (length (enc_all d) + entry_len (length suf) (length val) + 4)) as [|Hfit]; [done|].
  rewrite length_app in HR.
  pose proof (append_entry (enc_all d) R i suf val) as Happ. cbv zeta in Happ. rewrite enc_length in Happ. cbn [fst snd] in Happ.
  rewrite Happ by lia. cbn [fst snd]. clear Happ.
  set (n := (length R - _)%nat).
  assert (enc_all d ++ enc ((i, suf), val) ++ replicate n 0 = enc_all (d ++ [((i, suf), val)]) ++ replicate n 0) as ->.
  { rewrite enc_all_app, <- app_assoc. unfold enc_all at 3. cbn [map concat]. by rewrite app_nil_r. }
  assert (holds (enc_all (d ++ [((i, suf), val)]) ++ replicate n 0) (d ++ [((i, suf), val)])) as Hh.
  { apply holds_intro.
    - apply Forall_app. split; [done|]. by apply Forall_singleton.
    - rewrite fmap_app. apply NoDup_app. split; [done|]. split; [|apply NoDup_singleton].
      intros k Hk ->%list_elem_of_singleton. done. }
  split; [done|]. split; [done|]. split; [rewrite length_app, length_replicate; unfold n; lia|].
  rewrite (find_holds _ _ _ _ Hh), attr_get_app, (attr_get_notin _ d D3). split.
  - apply (attr_get_split (i, suf) val [] []). apply not_elem_of_nil.
  - intros j m Hne. rewrite (find_holds _ _ _ _ Hh), (find_holds a l) by done. rewrite attr_get_app.
    unfold d. rewrite attr_get_del, decide_False by done. destruct (attr_get (j, m) l); [done|].
    apply attr_get_notin. cbn. rewrite list_elem_of_singleton. done.
Qed.

(** An empty 64-byte arena. *)
Lemma empty_arena_holds : holds (replicate 64 0) [].
Proof. apply (holds_intro [] 64); [constructor|constructor]. Qed.

Lemma xattr_set_spec_witness :
  find (set (replicate 64 0) IDX_USER [97] [1; 2] 0).2 IDX_USER [97] = Some [1; 2].
Proof.
  assert (attr_ok ((IDX_USER, [97]), [1; 2])) as Hx.
  { repeat split; try (vm_compute; congruence); try (cbn; lia); repeat constructor; vm_compute; congruence. }
  exact (proj1 (proj2 (proj2 (proj2 (xattr_set_spec (replicate 64 0) [] IDX_USER [97] [1; 2] 0 empty_arena_holds Hx))))).
Defined.

(** [remove] deletes exactly the named attribute: absent it answers ENODATA
    and changes nothing; present it yields an arena of the same length that
    holds the list without the binding, returns its used length, and every
    other attribute keeps its value. *)
Theorem xattr_remove_spec a l i suf :
  holds a l ->
  let r := remove a i suf in
  let l' := attr_del (i, suf) l in
  (find a i suf = None -> r = (Err ENODATA, a))
  /\ (is_Some (find a i suf) ->
      r.1 = Ok (length (enc_all l')) /\ holds r.2 l' /\ length r.2 = length a
      /\ find r.2 i suf = None
      /\ forall j n, (j, n) <> (i, suf) -> find r.2 j n = find a j n).
Proof.
  intros Ha. cbv zeta. destruct (set_prefix a l i suf Ha) as (Hused & R & Hmv & HR).
  destruct (holds_del l (i, suf) (holds_attrs _ _ Ha) (holds_keys _ _ Ha)) as (D1 & D2 & D3).
  unfold remove. unfold find at 1 2. destruct (lookup_entry a i suf) as [e|] eqn:El; cbn [fmap option_fmap option_map].
  2:{ split; [done|]. by intros []. }
  split; [done|]. intros _. cbn [fmap option_fmap option_map] in Hmv. injection Hmv as -> Hend.
  rewrite Hused. rewrite zero_tail. cbn [fst snd]. rewrite length_app in HR.
  assert (holds (enc_all (attr_del (i, suf) l) ++ replicate (length R) 0) (attr_del (i, suf) l)) as Hh by (by apply holds_intro).
  split; [done|]. split; [done|]. split; [rewrite length_app, length_replicate; lia|].
  rewrite (find_holds _ _ _ _ Hh). split; [by apply attr_get_notin|].
  intros j n Hne. rewrite (find_holds _ _ _ _ Hh), (find_holds a l) by done.
  by rewrite attr_get_del, decide_False.
Qed.

Lemma xattr_remove_spec_witness :
  remove (replicate 64 0) IDX_USER [97] = (Err ENODATA, replicate 64 0).
Proof.
  apply (xattr_remove_spec (replicate 64 0) [] IDX_USER [97] empty_arena_holds). vm_compute. reflexivity.
Defined.

(** ** Names *)
Lemma strip_prefix_spec p s suf : strip_prefix p s = Some suf <-> s = p ++ suf.
Proof.
  revert s. induction p as [|x p IH]; intros s; cbn; [naive_solver|].
  destruct s as [|y s]; [naive_solver|]. destruct (Z.eqb_spec x y) as [->|]; [rewrite IH|]; naive_solver.
Qed.

Lemma room_ok (p suf : list Z) cap :
  (length (p ++ suf) <= cap)%nat ->
  (if (cap <? length p + length suf)%nat then None else Some (p ++ suf)) = Some (p ++ suf).
Proof. rewrite length_app. intros H. by rewrite (proj2 (Nat.ltb_ge _ _)). Qed.

(** Attribute names round-trip: a name that [split_name] accepts is rebuilt
    exactly by [join_name] (given room), and every suffix joined under
    [user.] or [trusted.] splits back into the same namespace and suffix; the
    two ACL names split into their own index with an empty suffix. *)
Theorem name_roundtrip :
  (forall full i suf cap, split_name full = Some (i, suf) -> (length full <= cap)%nat ->
     join_name i suf cap = Some full)
  /\ (forall i suf cap full, i = IDX_USER \/ i = IDX_TRUSTED -> join_name i suf cap = Some full ->
     split_name full = Some (i, suf))
  /\ split_name ACL_ACCESS_NAME = Some (IDX_ACL_ACCESS, [])
  /\ split_name ACL_DEFAULT_NAME = Some (IDX_ACL_DEFAULT, []).
Proof.
  split; [|split; [|split; reflexivity]].
  - intros full i suf cap. unfold split_name. destruct (strip_prefix USER_PREFIX full) as [s|] eqn:E1.
    { intros [= <- <-] Hc. apply strip_prefix_spec in E1. subst full. by apply (room_ok USER_PREFIX). }
    case_bool_decide as E2.
    { intros [= <- <-] Hc. subst full. rewrite <- (app_nil_r ACL_ACCESS_NAME) in Hc |- *. by apply (room_ok ACL_ACCESS_NAME []). }
    case_bool_decide as E3.
    { intros [= <- <-] Hc. subst full. rewrite <- (app_nil_r ACL_DEFAULT_NAME) in Hc |- *. by apply (room_ok ACL_DEFAULT_NAME []). }
    destruct (strip_prefix TRUSTED_PREFIX full) as [s|] eqn:E4; [|done].
    intros [= <- <-] Hc. apply strip_prefix_spec in E4. subst full. by apply (room_ok TRUSTED_PREFIX).
  - intros i suf cap full Hi Hj. unfold join_name in Hj. destruct Hi as [->| ->]; cbn [Z.eqb IDX_USER IDX_TRUSTED IDX_ACL_ACCESS IDX_ACL_DEFAULT Pos.eqb] in Hj.
    + case_match; [done|]. injection Hj as <-. unfold split_name.
      rewrite (proj2 (strip_prefix_spec USER_PREFIX _ suf)) by done. done.
    + case_match; [done|]. injection Hj as <-. unfold split_name. cbn [strip_prefix USER_PREFIX TRUSTED_PREFIX app Z.eqb Pos.eqb].
      rewrite !bool_decide_eq_false_2 by (vm_compute; congruence). done.
Qed.
