(* ===== verification/Acl.v ===== *)
(** * POSIX ACLs and the permission gates

    Models the second half of [src/servers/xattr/src/lib.rs]: file metadata and
    caller credentials, the namespace gates of [getxattr]/[setxattr], the ACL
    wire format with its validator, evaluator, chmod rewrite and creation-time
    inheritance, and the mode-bit gates ([access_check], [sticky_denies],
    [hardlink_denied]).  ACL values stay byte lists; the abstract ACL ([Acl])
    and its POSIX evaluation ([posix_check]) are the specification. *)
From Stdlib Require Import Sorted.
From S2P Require Import Prelude Xattr.

(** ** File metadata and credentials *)
Definition S_IFMT : Z := 61440.   (* 0o170000 *)
Definition S_IFDIR : Z := 16384.  (* 0o040000 *)
Definition S_IFREG : Z := 32768.  (* 0o100000 *)
Definition S_IFLNK : Z := 40960.  (* 0o120000 *)
Definition S_ISVTX : Z := 512.    (* 0o001000 *)

Definition is_dir (mode : Z) : bool := Z.land mode S_IFMT =? S_IFDIR.
Definition is_reg (mode : Z) : bool := Z.land mode S_IFMT =? S_IFREG.
Definition is_lnk (mode : Z) : bool := Z.land mode S_IFMT =? S_IFLNK.

Record FileMeta := mkMeta { m_mode : Z; m_uid : Z; m_gid : Z }.

Definition NGROUPS_MAX : nat := 32.
Record Cred := mkCred { euid : Z; egid : Z; ngroups : nat; groups : list Z }.

Definition cred_new (euid egid : Z) : Cred := mkCred euid egid 0 (replicate NGROUPS_MAX 0).
Definition ROOT : Cred := cred_new 0 0.

(** [Cred::groups()]: the live prefix of the array. *)
Definition groups_of (c : Cred) : list Z := take (Nat.min (ngroups c) NGROUPS_MAX) (groups c).
Definition in_group (c : Cred) (gid : Z) : bool :=
  if egid c =? gid then true else existsb (fun g => g =? gid) (groups_of c).

(** ** The wire format *)
Definition ACL_USER_OBJ : Z := 1.
Definition ACL_USER : Z := 2.
Definition ACL_GROUP_OBJ : Z := 4.
Definition ACL_GROUP : Z := 8.
Definition ACL_MASK : Z := 16.
Definition ACL_OTHER : Z := 32.
Definition ACL_HDR : nat := 4.
Definition ACL_ENT : nat := 8.

Record AclEntry := mkEnt { tag : Z; perm : Z; id : Z }.

Definition of_le32 (b0 b1 b2 b3 : Z) : Z := of_le16 b0 b1 + 65536 * of_le16 b2 b3.

Definition acl_entry (v : list Z) (i : nat) : AclEntry :=
  let o := (ACL_HDR + i * ACL_ENT)%nat in
  mkEnt (of_le16 (at_ v o) (at_ v (o + 1)))
        (Z.land (of_le16 (at_ v (o + 2)) (at_ v (o + 3))) 7)
        (of_le32 (at_ v (o + 4)) (at_ v (o + 5)) (at_ v (o + 6)) (at_ v (o + 7))).

Definition acl_entry_count (v : list Z) : nat := ((length v - ACL_HDR) / ACL_ENT)%nat.

(** The entries read by [for i in 0..acl_entry_count(value)]. *)
Definition acl_entries (v : list Z) : list AclEntry :=
  map (acl_entry v) (seq 0 (acl_entry_count v)).

(** ** Validation *)
Record AclSummary := mkSum {
  user_obj : Z; group_obj : Z; other : Z; mask : option Z; has_named : bool }.

Record vstate := mkV { st : Z; sm : AclSummary; last_id : option Z }.

(** A named entry: ids strictly increase inside a run. *)
Definition validate_named (s : vstate) (e : AclEntry) : result vstate Z :=
  let next := mkV (st s) (mkSum (user_obj (sm s)) (group_obj (sm s)) (other (sm s)) (mask (sm s)) true)
                (Some (id e)) in
  match last_id s with
  | Some prev => if id e <=? prev then Err EINVAL else Ok next
  | None => Ok next
  end.

Definition validate_step (s : vstate) (e : AclEntry) : result vstate Z :=
  let m := sm s in
  if (tag e =? ACL_USER_OBJ) && (st s =? 0) then
    Ok (mkV 1 (mkSum (perm e) (group_obj m) (other m) (mask m) (has_named m)) (last_id s))
  else if (tag e =? ACL_USER) && (st s =? 1) then validate_named s e
  else if (tag e =? ACL_GROUP_OBJ) && (st s =? 1) then
    Ok (mkV 2 (mkSum (user_obj m) (perm e) (other m) (mask m) (has_named m)) None)
  else if (tag e =? ACL_GROUP) && (st s =? 2) then validate_named s e
  else if (tag e =? ACL_MASK) && (st s =? 2) then
    Ok (mkV 3 (mkSum (user_obj m) (group_obj m) (other m) (Some (perm e)) (has_named m)) (last_id s))
  else if (tag e =? ACL_OTHER) && ((st s =? 2) || (st s =? 3)) then
    Ok (mkV 4 (mkSum (user_obj m) (group_obj m) (perm e) (mask m) (has_named m)) (last_id s))
  else Err EINVAL.

Fixpoint validate_loop (es : list AclEntry) (s : vstate) : result vstate Z :=
  match es with
  | [] => Ok s
  | e :: es => let? s' := validate_step s e in validate_loop es s'
  end.

(** The guards before the loop. *)
Definition header_ok (v : list Z) : bool :=
  negb ((length v <? ACL_HDR)%nat
        || negb ((length v - ACL_HDR) mod ACL_ENT =? 0)%nat
        || negb (of_le32 (at_ v 0) (at_ v 1) (at_ v 2) (at_ v 3) =? 2)).

Definition acl_validate (v : list Z) : result AclSummary Z :=
  if negb (header_ok v) then Err EINVAL
  else
    let? s := validate_loop (acl_entries v) (mkV 0 (mkSum 0 0 0 None false) None) in
    if negb (st s =? 4) then Err EINVAL
    else if has_named (sm s) && negb (bool_decide (is_Some (mask (sm s)))) then Err EINVAL
    else Ok (sm s).

Definition acl_is_trivial (s : AclSummary) : bool :=
  negb (has_named s) && negb (bool_decide (is_Some (mask s))).

Definition acl_mode_bits (s : AclSummary) : Z :=
  Z.lor (Z.lor (Z.shiftl (user_obj s) 6) (Z.shiftl (default (group_obj s) (mask s)) 3)) (other s).

(** [value[o + 2..o + 4].copy_from_slice(&p.to_le_bytes())] for entry [i]. *)
Definition set_perm (v : list Z) (i : nat) (p : Z) : list Z :=
  splice v (ACL_HDR + i * ACL_ENT + 2) (le16 p).

Definition chmod_perm (has_mask : bool) (mode tag : Z) : option Z :=
  if tag =? ACL_USER_OBJ then Some (Z.land (Z.shiftr mode 6) 7)
  else if tag =? ACL_OTHER then Some (Z.land mode 7)
  else if tag =? ACL_MASK then Some (Z.land (Z.shiftr mode 3) 7)
  else if (tag =? ACL_GROUP_OBJ) && negb has_mask then Some (Z.land (Z.shiftr mode 3) 7)
  else None.

Definition acl_chmod_rewrite (v : list Z) (mode : Z) : list Z :=
  let n := acl_entry_count v in
  let has_mask := existsb (fun i => tag (acl_entry v i) =? ACL_MASK) (seq 0 n) in
  foldl (fun v i =>
    let o := (ACL_HDR + i * ACL_ENT)%nat in
    match chmod_perm has_mask mode (of_le16 (at_ v o) (at_ v (o + 1))) with
    | Some p => set_perm v i p
    | None => v
    end) v (seq 0 n).

(** ** Access evaluation *)
Definition MAY_EXEC : Z := 1.
Definition MAY_WRITE : Z := 2.
Definition MAY_READ : Z := 4.

Definition allows (p want : Z) : bool := Z.land p want =? want.

Fixpoint walk_loop (es : list AclEntry) (m : option Z) (meta : FileMeta) (c : Cred) (want : Z)
    (group_found : bool) : bool :=
  match es with
  | [] => false
  | e :: es =>
      let masked p := Z.land p (default 7 m) in
      let next := walk_loop es m meta c want in
      if tag e =? ACL_USER_OBJ then
        if euid c =? m_uid meta then allows (perm e) want else next group_found
      else if tag e =? ACL_USER then
        if euid c =? id e then allows (masked (perm e)) want else next group_found
      else if tag e =? ACL_GROUP_OBJ then
        if in_group c (m_gid meta) then
          if allows (masked (perm e)) want then true else next true
        else next group_found
      else if tag e =? ACL_GROUP then
        if in_group c (id e) then
          if allows (masked (perm e)) want then true else next true
        else next group_found
      else if tag e =? ACL_MASK then next group_found
      else if tag e =? ACL_OTHER then
        if group_found then false else allows (perm e) want
      else next group_found
  end.

Definition acl_walk (v : list Z) (meta : FileMeta) (c : Cred) (want : Z) : bool :=
  let m := perm <$> List.find (fun e => tag e =? ACL_MASK) (acl_entries v) in
  walk_loop (acl_entries v) m meta c want false.

Definition want_bits (r w x : bool) : Z :=
  Z.lor (Z.lor (Z.shiftl (Z.b2z r) 2) (Z.shiftl (Z.b2z w) 1)) (Z.b2z x).

Definition mode_class (meta : FileMeta) (c : Cred) : Z :=
  if euid c =? m_uid meta then Z.land (Z.shiftr (m_mode meta) 6) 7
  else if in_group c (m_gid meta) then Z.land (Z.shiftr (m_mode meta) 3) 7
  else Z.land (m_mode meta) 7.

Definition access_check (meta : FileMeta) (c : Cred) (acl : option (list Z)) (r w x : bool) : bool :=
  let want := want_bits r w x in
  if euid c =? 0 then
    if x && negb (is_dir (m_mode meta)) then negb (Z.land (m_mode meta) 73 =? 0) (* 0o111 *)
    else true
  else
    match acl with
    | Some v =>
        if is_ok (acl_validate v) then acl_walk v meta c want
        else allows (mode_class meta c) want
    | None => allows (mode_class meta c) want
    end.

Definition may_access (meta : FileMeta) (c : Cred) (acl : option (list Z)) (msk : Z) : bool :=
  access_check meta c acl (negb (Z.land msk MAY_READ =? 0)) (negb (Z.land msk MAY_WRITE =? 0))
    (negb (Z.land msk MAY_EXEC =? 0)).

Definition sticky_denies (dir : FileMeta) (victim_uid euid : Z) : bool :=
  negb (Z.land (m_mode dir) S_ISVTX =? 0) && negb (euid =? 0) && negb (euid =? victim_uid)
  && negb (euid =? m_uid dir).

Definition S_ISUID : Z := 2048.     (* 0o4000 *)
Definition S_ISGID : Z := 1024.     (* 0o2000 *)
Definition S_IXGRP : Z := 8.        (* 0o0010 *)

Definition hardlink_denied (src : FileMeta) (euid : Z) (may_rw : bool) : bool :=
  if (euid =? 0) || (euid =? m_uid src) then false
  else if negb (Z.land (m_mode src) S_IFMT =? S_IFREG) then true
  else if negb (Z.land (m_mode src) S_ISUID =? 0) then true
  else if Z.land (m_mode src) (Z.lor S_ISGID S_IXGRP) =? Z.lor S_ISGID S_IXGRP then true
  else negb may_rw.

(** ** Namespace gates *)
Definition may_read_xattr (idx : Z) (meta : FileMeta) (c : Cred) (acl : option (list Z)) : result unit Z :=
  if idx =? IDX_USER then
    if negb (is_reg (m_mode meta)) && negb (is_dir (m_mode meta)) then Err ENODATA
    else if access_check meta c acl true false false then Ok tt else Err EACCES
  else if (idx =? IDX_ACL_ACCESS) || (idx =? IDX_ACL_DEFAULT) then Ok tt
  else if idx =? IDX_TRUSTED then
    if euid c =? 0 then Ok tt else Err ENODATA
  else Err EOPNOTSUPP.

Definition may_write_xattr (idx : Z) (meta : FileMeta) (c : Cred) (acl : option (list Z)) : result unit Z :=
  if is_lnk (m_mode meta) then Err EPERM
  else if idx =? IDX_USER then
    if negb (is_reg (m_mode meta)) && negb (is_dir (m_mode meta)) then Err EPERM
    else if is_dir (m_mode meta) && negb (Z.land (m_mode meta) S_ISVTX =? 0)
            && negb (euid c =? m_uid meta) && negb (euid c =? 0) then Err EPERM
    else if access_check meta c acl false true false then Ok tt else Err EACCES
  else if (idx =? IDX_ACL_ACCESS) || (idx =? IDX_ACL_DEFAULT) then
    if negb (euid c =? m_uid meta) && negb (euid c =? 0) then Err EPERM
    else if (idx =? IDX_ACL_DEFAULT) && negb (is_dir (m_mode meta)) then Err EACCES
    else Ok tt
  else if idx =? IDX_TRUSTED then
    if euid c =? 0 then Ok tt else Err EPERM
  else Err EOPNOTSUPP.

(** ** Creation *)
Definition MODE_UMASK_SHIFT : Z := 16.
Definition pack_create_mode (mode umask : Z) : Z :=
  Z.lor (Z.land mode 4095) (Z.shiftl (Z.land umask 511) MODE_UMASK_SHIFT).
Definition unpack_create_mode (arg : Z) : Z * Z :=
  (Z.land arg 4095, Z.land (Z.shiftr arg MODE_UMASK_SHIFT) 511).

Definition ACL_INHERIT_MAX : nat := (ACL_HDR + 32 * ACL_ENT)%nat.

Record Created := mkCreated {
  c_mode : Z; access_len : nat; access : list Z; inherit_default : bool }.

(** The locals of the masquerade loop of [acl_create]. *)
Record masq := mkMasq {
  clone : list Z; user_perm : Z; other_perm : Z; not_equiv : bool;
  mask_idx : option nat; group_obj_idx : option nat }.

Definition masq_step (i : nat) (e : AclEntry) (s : masq) : masq :=
  if tag e =? ACL_USER_OBJ then
    let p := Z.land (perm e) (user_perm s) in
    mkMasq (set_perm (clone s) i p) p (other_perm s) (not_equiv s) (mask_idx s) (group_obj_idx s)
  else if tag e =? ACL_OTHER then
    let p := Z.land (perm e) (other_perm s) in
    mkMasq (set_perm (clone s) i p) (user_perm s) p (not_equiv s) (mask_idx s) (group_obj_idx s)
  else if tag e =? ACL_MASK then
    mkMasq (clone s) (user_perm s) (other_perm s) (not_equiv s) (Some i) (group_obj_idx s)
  else if tag e =? ACL_GROUP_OBJ then
    mkMasq (clone s) (user_perm s) (other_perm s) (not_equiv s) (mask_idx s) (Some i)
  else if (tag e =? ACL_USER) || (tag e =? ACL_GROUP) then
    mkMasq (clone s) (user_perm s) (other_perm s) true (mask_idx s) (group_obj_idx s)
  else s.
Fixpoint masq_loop (i : nat) (es : list AclEntry) (s : masq) : masq :=
  match es with
  | [] => s
  | e :: es => masq_loop (S i) es (masq_step i e s)
  end.

(** [!x] on a [u16]. *)
Definition not16 (x : Z) : Z := Z.lxor x 65535.

Definition acl_create (default_acl : option (list Z)) (mode umask : Z) (is_dir : bool) : Created :=
  let out := mkCreated (Z.land (Z.land mode 4095) (not16 (Z.land umask 511))) 0
               (replicate ACL_INHERIT_MAX 0) false in
  match default_acl with
  | None => out
  | Some dacl =>
      if (length dacl <=? ACL_INHERIT_MAX)%nat && is_ok (acl_validate dacl) then
        let s := masq_loop 0 (acl_entries dacl)
                   (mkMasq (splice (replicate ACL_INHERIT_MAX 0) 0 dacl)
                      (Z.land (Z.shiftr mode 6) 7) (Z.land mode 7) false None None) in
        match (match mask_idx s with Some i => Some i | None => group_obj_idx s end) with
        | None => out
        | Some gi =>
            let p := Z.land (perm (acl_entry dacl gi)) (Z.land (Z.shiftr mode 3) 7) in
            let clone := set_perm (clone s) gi p in
            let not_equiv := if bool_decide (is_Some (mask_idx s)) then true else not_equiv s in
            let m := Z.lor (Z.lor (Z.lor (Z.land mode 3584) (Z.shiftl (user_perm s) 6)) (Z.shiftl p 3))
                       (other_perm s) in
            mkCreated m (if not_equiv then length dacl else O)
              (if not_equiv then splice (access out) 0 (take (length dacl) clone) else access out)
              is_dir
        end
      else out
  end.

(** ** The abstract ACL *)
Record Acl := mkAcl {
  a_user : Z; a_users : list (Z * Z); a_group : Z; a_groups : list (Z * Z);
  a_mask : option Z; a_other : Z }.

Definition a_named (a : Acl) : bool := negb (bool_decide (a_users a = [] /\ a_groups a = [])).

Definition summary_of (a : Acl) : AclSummary :=
  mkSum (a_user a) (a_group a) (a_other a) (a_mask a) (a_named a).

Definition named (e : AclEntry) : Z * Z := (id e, perm e).

(** [es] is the canonical sequence USER_OBJ USER* GROUP_OBJ GROUP* MASK? OTHER,
    with the contents of [a]. *)
Record represents (es : list AclEntry) (a : Acl) (u : AclEntry) (us : list AclEntry) (g : AclEntry)
    (gs : list AclEntry) (m : option AclEntry) (o : AclEntry) : Prop := {
  rep_shape : es = u :: us ++ g :: gs ++ option_list m ++ [o];
  rep_u : tag u = ACL_USER_OBJ;
  rep_us : Forall (fun e => tag e = ACL_USER) us;
  rep_g : tag g = ACL_GROUP_OBJ;
  rep_gs : Forall (fun e => tag e = ACL_GROUP) gs;
  rep_m : Forall (fun e => tag e = ACL_MASK) (option_list m);
  rep_o : tag o = ACL_OTHER;
  rep_a : a = mkAcl (perm u) (map named us) (perm g) (map named gs) (perm <$> m) (perm o) }.

Definition is_acl (es : list AclEntry) (a : Acl) : Prop :=
  exists u us g gs m o, represents es a u us g gs m o.

(** Ids strictly increase in each named run, and named entries come with a
    mask. *)
Definition acl_wf (a : Acl) : Prop :=
  Sorted Z.lt (a_users a).*1 /\ Sorted Z.lt (a_groups a).*1
  /\ (a_named a = true -> is_Some (a_mask a)).

(** Reference evaluation, POSIX 1003.1e: the owner entry unmasked; else the
    named user, masked; else, if any group entry matches, whether one of the
    matching entries allows it, masked; else the other entry. *)
Definition posix_check (a : Acl) (meta : FileMeta) (c : Cred) (want : Z) : bool :=
  let masked p := Z.land p (default 7 (a_mask a)) in
  if euid c =? m_uid meta then allows (a_user a) want
  else match List.find (fun x => euid c =? x.1) (a_users a) with
       | Some x => allows (masked x.2) want
       | None =>
           let matching := (if in_group c (m_gid meta) then [a_group a] else [])
                           ++ map snd (List.filter (fun x => in_group c x.1) (a_groups a)) in
           if bool_decide (matching = []) then allows (a_other a) want
           else existsb (fun p => allows (masked p) want) matching
       end.

(** ** The validator accepts exactly the canonical grammar *)
Definition accepts (s : vstate) (es : list AclEntry) (m : AclSummary) : Prop :=
  exists l, validate_loop es s = Ok (mkV 4 m l).

Lemma option_list_Some {A} (x : A) : option_list (Some x) = [x].
Proof. reflexivity. Qed.
Lemma option_list_None {A} : option_list (@None A) = [].
Proof. reflexivity. Qed.

Ltac step_at := unfold validate_step; cbn [st sm last_id Z.eqb Pos.eqb];
  rewrite ?andb_false_r, ?andb_true_r; cbn [orb].

Lemma accepts_nil s m : accepts s [] m <-> st s = 4 /\ m = sm s.
Proof.
  unfold accepts. cbn. split.
  - intros (l & [= ->]). done.
  - intros [H ->]. exists (last_id s). destruct s; cbn in *. by subst.
Qed.

Lemma accepts_cons s e es m :
  accepts s (e :: es) m <-> exists s', validate_step s e = Ok s' /\ accepts s' es m.
Proof.
  unfold accepts. cbn. destruct (validate_step s e) as [s'|x]; [|naive_solver].
  split; [naive_solver|]. by intros (? & [= ->] & ?).
Qed.

Lemma accepts_4 s l es m : accepts (mkV 4 s l) es m <-> es = [] /\ m = s.
Proof.
  destruct es as [|e es]; [rewrite accepts_nil; naive_solver|]. rewrite accepts_cons.
  step_at. naive_solver.
Qed.

Lemma accepts_3 s l es m :
  accepts (mkV 3 s l) es m <->
  exists o, es = [o] /\ tag o = ACL_OTHER
    /\ m = mkSum (user_obj s) (group_obj s) (perm o) (mask s) (has_named s).
Proof.
  destruct es as [|e es]; [rewrite accepts_nil; naive_solver|]. rewrite accepts_cons. step_at.
  destruct (Z.eqb_spec (tag e) ACL_OTHER) as [He|He].
  - split.
    + intros (s' & [= <-] & H). apply accepts_4 in H as [-> ->]. eauto.
    + intros (o & [= -> ->] & _ & ->). eexists. split; [done|]. by apply accepts_4.
  - naive_solver.
Qed.

Definition above (l : option Z) (x : Z) : Prop := match l with Some p => p < x | None => True end.

Lemma sorted_above l x xs :
  Sorted Z.lt (option_list l ++ x :: xs) <-> above l x /\ Sorted Z.lt (x :: xs).
Proof.
  destruct l as [p|]; cbn [option_list app above]; [|naive_solver]. split.
  - intros H. apply Sorted_inv in H as [H1 H2]. apply HdRel_inv in H2. done.
  - intros [H1 H2]. constructor; [done|]. by constructor.
Qed.

Lemma sorted_single l : Sorted Z.lt (option_list l ++ []).
Proof. destruct l; cbn; repeat constructor. Qed.

Lemma named_step s e s' :
  validate_named s e = Ok s' <->
  above (last_id s) (id e)
  /\ s' = mkV (st s) (mkSum (user_obj (sm s)) (group_obj (sm s)) (other (sm s)) (mask (sm s)) true) (Some (id e)).
Proof.
  unfold validate_named, above. destruct (last_id s) as [p|]; [|naive_solver].
  destruct (Z.leb_spec (id e) p); [|naive_solver lia]. split; [done|]. lia.
Qed.

Lemma accepts_2 es : forall s l m,
  accepts (mkV 2 s l) es m <->
  exists gs mo o, es = gs ++ option_list mo ++ [o]
    /\ Forall (fun e => tag e = ACL_GROUP) gs /\ Forall (fun e => tag e = ACL_MASK) (option_list mo)
    /\ tag o = ACL_OTHER /\ Sorted Z.lt (option_list l ++ map id gs)
    /\ m = mkSum (user_obj s) (group_obj s) (perm o)
             (match mo with Some e => Some (perm e) | None => mask s end)
             (has_named s || negb (bool_decide (gs = []))).
Proof.
  induction es as [|e es IH]; intros s l m.
  { rewrite accepts_nil. cbn. split; [naive_solver|]. by intros ([|] & [|] & ? & ? & _). }
  rewrite accepts_cons. step_at. split.
  - intros (s' & Hs & H).
    destruct (Z.eqb_spec (tag e) ACL_GROUP) as [Hg|Hg].
    { apply named_step in Hs as [Hab ->]. apply IH in H as (gs & mo & o & -> & H1 & H2 & H3 & H4 & ->).
      cbn [last_id st sm user_obj group_obj other mask has_named orb option_list] in *.
      exists (e :: gs), mo, o. repeat split; try done; [by constructor|by apply sorted_above|].
      by rewrite orb_true_r. }
    destruct (Z.eqb_spec (tag e) ACL_MASK) as [Hm|Hm].
    { injection Hs as <-. apply accepts_3 in H as (o & -> & Ho & ->). exists [], (Some e), o.
      repeat split; try done; [by repeat constructor|apply sorted_single|]. cbn. by rewrite orb_false_r. }
    destruct (Z.eqb_spec (tag e) ACL_OTHER) as [Ho|Ho]; [|done].
    injection Hs as <-. apply accepts_4 in H as [-> ->]. exists [], None, e.
    repeat split; try done; [apply sorted_single|]. cbn. by rewrite orb_false_r.
  - intros ([|g gs] & mo & o & He & H1 & H2 & H3 & H4 & ->); cbn [app] in He.
    + destruct mo as [x|]; cbn [option_list app] in He; injection He as -> ->.
      * pose proof (List.Forall_inv H2 : tag x = ACL_MASK) as Hx. rewrite Hx. cbn. eexists. split; [done|]. apply accepts_3.
        exists o. cbn. by rewrite orb_false_r.
      * rewrite H3. cbn. eexists. split; [done|]. apply accepts_4. by rewrite orb_false_r.
    + injection He as -> ->. apply Forall_cons in H1 as [Hg H1]. cbv beta in Hg. rewrite Hg. cbn [ACL_GROUP Z.eqb Pos.eqb].
      cbn [map] in H4. apply sorted_above in H4 as [H4 H5].
      eexists. split; [apply named_step; done|]. apply IH.
      exists gs, mo, o. repeat split; try done. cbn. by rewrite orb_true_r.
Qed.

Lemma accepts_1 es : forall s l m,
  accepts (mkV 1 s l) es m <->
  exists us g rest, es = us ++ g :: rest
    /\ Forall (fun e => tag e = ACL_USER) us /\ tag g = ACL_GROUP_OBJ
    /\ Sorted Z.lt (option_list l ++ map id us)
    /\ accepts (mkV 2 (mkSum (user_obj s) (perm g) (other s) (mask s) (has_named s || negb (bool_decide (us = [])))) None)
         rest m.
Proof.
  induction es as [|e es IH]; intros s l m.
  { rewrite accepts_nil. cbn. split; [naive_solver|]. by intros ([|] & ? & ? & ? & _). }
  rewrite accepts_cons. step_at. split.
  - intros (s' & Hs & H).
    destruct (Z.eqb_spec (tag e) ACL_USER) as [Hu|Hu].
    { apply named_step in Hs as [Hab ->]. apply IH in H as (us & g & rest & -> & H1 & H2 & H3 & H4).
      cbn [last_id st sm user_obj group_obj other mask has_named orb option_list] in *.
      exists (e :: us), g, rest. repeat split; try done; [by constructor|by apply sorted_above|].
      by rewrite orb_true_r. }
    destruct (Z.eqb_spec (tag e) ACL_GROUP_OBJ) as [Hg|Hg]; [|done].
    injection Hs as <-. exists [], e, es. repeat split; try done; [apply sorted_single|].
    cbn. by rewrite orb_false_r.
  - intros ([|u us] & g & rest & He & H1 & H2 & H3 & H4); cbn [app] in He; injection He as -> ->.
    + rewrite H2. cbn. eexists. split; [done|]. cbn in H4. by rewrite orb_false_r in H4.
    + apply Forall_cons in H1 as [Hu H1]. cbv beta in Hu. rewrite Hu. cbn [ACL_USER Z.eqb Pos.eqb].
      cbn [map] in H3. apply sorted_above in H3 as [H3 H5].
      eexists. split; [apply named_step; done|]. apply IH.
      exists us, g, rest. repeat split; try done. cbn. cbn in H4. by rewrite orb_true_r in H4.
Qed.

Lemma named_ids l : (map named l).*1 = map id l.
Proof. induction l as [|e l IH]; [done|]. cbn. by rewrite <- IH. Qed.

Lemma a_named_lists u us g gs m o :
  a_named (mkAcl u (map named us) g (map named gs) m o)
  = negb (bool_decide (us = [])) || negb (bool_decide (gs = [])).
Proof. unfold a_named. cbn [a_users a_groups]. by destruct us, gs. Qed.

Lemma accepts_0 es m :
  accepts (mkV 0 (mkSum 0 0 0 None false) None) es m <->
  exists a, is_acl es a /\ Sorted Z.lt (a_users a).*1 /\ Sorted Z.lt (a_groups a).*1 /\ m = summary_of a.
Proof.
  split.
  - destruct es as [|u es]; [by intros [? _]%accepts_nil|].
    intros (s' & Hs & H)%accepts_cons. revert Hs. step_at.
    destruct (Z.eqb_spec (tag u) ACL_USER_OBJ) as [Hu|]; [|done]. intros [= <-].
    apply accepts_1 in H as (us & g & rest & -> & H1 & H2 & H3 & H4).
    apply accepts_2 in H4 as (gs & mo & o & -> & G1 & G2 & G3 & G4 & ->).
    cbn [option_list app user_obj group_obj other mask has_named orb] in *.
    exists (mkAcl (perm u) (map named us) (perm g) (map named gs) (perm <$> mo) (perm o)).
    split; [by exists u, us, g, gs, mo, o|]. cbn [a_users a_groups]. rewrite !named_ids.
    repeat split; try done. unfold summary_of. rewrite a_named_lists. by destruct mo.
  - intros (a & (u & us & g & gs & mo & o & [-> Hu Hus Hg Hgs Hm Ho ->]) & S1 & S2 & ->).
    cbn [a_users a_groups] in *. rewrite named_ids in S1, S2. unfold summary_of. rewrite a_named_lists.
    apply accepts_cons. unfold validate_step. rewrite Hu. cbn. eexists. split; [done|].
    apply accepts_1. exists us, g, (gs ++ option_list mo ++ [o]). repeat split; try done.
    apply accepts_2. exists gs, mo, o. repeat split; try done; cbn; by destruct mo.
Qed.

(** What the validator decides, on the decoded entries. *)
Lemma validate_iff v s :
  acl_validate v = Ok s <->
  header_ok v = true /\ exists a, is_acl (acl_entries v) a /\ acl_wf a /\ s = summary_of a.
Proof.
  unfold acl_validate, acl_wf. destruct (header_ok v); cbn [negb]; [|naive_solver].
  set (s0 := mkV 0 _ None). pose proof (accepts_0 (acl_entries v)) as H. fold s0 in H. split.
  - destruct (validate_loop _ s0) as [[k m l]|] eqn:E; [|done]. cbn [st sm].
    destruct (Z.eqb_spec k 4) as [->|]; cbn [negb]; [|done].
    destruct (H m) as [(a & Ha & S1 & S2 & ->) _]; [by exists l|]. cbn [has_named mask summary_of].
    destruct (a_named a && negb (bool_decide (is_Some (a_mask a)))) eqn:En; [done|]. intros [= <-].
    split; [done|]. exists a. repeat split; try done. intros Hn. rewrite Hn in En. cbn in En.
    by apply negb_false_iff, bool_decide_eq_true in En.
  - intros (_ & a & Ha & (S1 & S2 & Hm) & ->). destruct (H (summary_of a)) as [_ (l & ->)]; [by exists a|].
    cbn. destruct (a_named a); [|done]. rewrite bool_decide_eq_true_2 by auto. done.
Qed.

Lemma validate_err v e : acl_validate v = Err e -> e = EINVAL.
Proof.
  assert (forall es s e, validate_loop es s = Err e -> e = EINVAL) as Hloop.
  { induction es as [|x es IH]; intros s e0; [done|]. cbn. destruct (validate_step s x) eqn:E; [apply IH|].
    intros [= <-]. revert E. unfold validate_step, validate_named. repeat case_match; congruence. }
  unfold acl_validate. destruct (header_ok v); cbn; [|congruence].
  destruct (validate_loop _ _) eqn:E; [|intros [= <-]; by eapply Hloop].
  repeat case_match; congruence.
Qed.

(** [acl_validate] accepts exactly the well-formed ACLs: it returns a summary
    when the header is right and the entries are USER_OBJ USER* GROUP_OBJ
    GROUP* MASK? OTHER with strictly increasing ids in each named run and a
    mask whenever there is a named entry, the summary then being the one of
    that ACL, and EINVAL for everything else. *)
Theorem acl_validate_spec v :
  match acl_validate v with
  | Ok s => header_ok v = true /\ exists a, is_acl (acl_entries v) a /\ acl_wf a /\ s = summary_of a
  | Err e => e = EINVAL /\ ~ (header_ok v = true /\ exists a, is_acl (acl_entries v) a /\ acl_wf a)
  end.
Proof.
  destruct (acl_validate v) as [s|e] eqn:E; [by apply validate_iff|].
  split; [by apply validate_err in E|]. intros (Hh & a & Ha & Hw).
  assert (acl_validate v = Ok (summary_of a)) as E' by (apply validate_iff; eauto). congruence.
Qed.

(** ** The walk computes the POSIX evaluation *)
Section walk.
Context (m : option Z) (meta : FileMeta) (c : Cred) (want : Z).
Let masked (p : Z) : Z := Z.land p (default 7 m).

Lemma walk_users us rest gf :
  Forall (fun e => tag e = ACL_USER) us ->
  walk_loop (us ++ rest) m meta c want gf
  = match List.find (fun x => euid c =? x.1) (map named us) with
    | Some x => allows (masked x.2) want
    | None => walk_loop rest m meta c want gf
    end.
Proof.
  induction us as [|e us IH]; intros H; [done|]. apply Forall_cons in H as [He H]. cbv beta in He.
  cbn [app walk_loop]. rewrite He. cbn [ACL_USER ACL_USER_OBJ Z.eqb Pos.eqb map List.find named fst snd].
  destruct (euid c =? id e); [done|]. by apply IH.
Qed.

Lemma walk_groups gs rest : forall gf,
  Forall (fun e => tag e = ACL_GROUP) gs ->
  let matching := map snd (List.filter (fun x => in_group c x.1) (map named gs)) in
  walk_loop (gs ++ rest) m meta c want gf
  = if existsb (fun p => allows (masked p) want) matching then true
    else walk_loop rest m meta c want (gf || negb (bool_decide (matching = []))).
Proof.
  induction gs as [|e gs IH]; intros gf H; cbv zeta; [cbn; by rewrite orb_false_r|].
  apply Forall_cons in H as [He H]. cbv beta in He. cbn [app walk_loop]. rewrite He.
  cbn [ACL_USER ACL_USER_OBJ ACL_GROUP ACL_GROUP_OBJ Z.eqb Pos.eqb map List.filter named fst snd].
  destruct (in_group c (id e)).
  - cbn [map existsb snd]. unfold masked.
    change (named e).2 with (perm e). destruct (allows (Z.land (perm e) (default 7 m)) want); [done|]. cbn [orb].
    rewrite IH by done. cbv zeta. unfold masked. rewrite (bool_decide_eq_false_2 (perm e :: _ = [])) by done.
    cbn [orb negb]. by rewrite orb_true_r.
  - by rewrite IH.
Qed.

Lemma walk_tail (mo : option AclEntry) o gf :
  Forall (fun e => tag e = ACL_MASK) (option_list mo) -> tag o = ACL_OTHER ->
  walk_loop (option_list mo ++ [o]) m meta c want gf = if gf then false else allows (perm o) want.
Proof.
  intros Hm Ho. destruct mo as [e|]; rewrite ?option_list_Some, ?option_list_None; cbn [app walk_loop].
  - rewrite (List.Forall_inv Hm : tag e = ACL_MASK), Ho. done.
  - rewrite Ho. done.
Qed.
End walk.

Lemma find_mask es a u us g gs m o :
  represents es a u us g gs m o -> List.find (fun e => tag e =? ACL_MASK) es = m.
Proof.
  intros [-> Hu Hus Hg Hgs Hm Ho _].
  assert (forall t (l r : list AclEntry), t <> ACL_MASK -> Forall (fun e => tag e = t) l ->
            List.find (fun e => tag e =? ACL_MASK) (l ++ r) = List.find (fun e => tag e =? ACL_MASK) r) as Hskip.
  { intros t l r Ht. induction l as [|e l IH]; intros Hl; [done|]. apply Forall_cons in Hl as [He Hl].
    cbn. rewrite (proj2 (Z.eqb_neq _ _)) by congruence. auto. }
  cbn [List.find]. rewrite Hu. cbn [ACL_MASK ACL_USER_OBJ Z.eqb Pos.eqb].
  rewrite (Hskip ACL_USER) by done. cbn [List.find]. rewrite Hg. cbn [ACL_MASK ACL_GROUP_OBJ Z.eqb Pos.eqb].
  rewrite (Hskip ACL_GROUP) by done. destruct m as [e|]; rewrite ?option_list_Some, ?option_list_None; cbn [app List.find].
  - by rewrite (List.Forall_inv Hm : tag e = ACL_MASK).
  - by rewrite Ho.
Qed.

Lemma walk_posix es a meta c want :
  is_acl es a ->
  walk_loop es (perm <$> List.find (fun e => tag e =? ACL_MASK) es) meta c want false
  = posix_check a meta c want.
Proof.
  intros (u & us & g & gs & m & o & R). rewrite (find_mask _ _ _ _ _ _ _ _ R).
  destruct R as [-> Hu Hus Hg Hgs Hm Ho ->]. unfold posix_check. cbn [a_user a_users a_group a_groups a_mask a_other].
  cbn [walk_loop]. rewrite Hu. cbn [ACL_USER_OBJ Z.eqb Pos.eqb].
  destruct (euid c =? m_uid meta); [done|]. rewrite walk_users by done.
  destruct (List.find _ _) as [x|]; [done|]. cbn [walk_loop]. rewrite Hg.
  cbn [ACL_USER ACL_USER_OBJ ACL_GROUP_OBJ Z.eqb Pos.eqb].
  set (mt := map snd _). destruct (in_group c (m_gid meta)).
  - cbn [app existsb]. rewrite (bool_decide_eq_false_2 (perm g :: mt = [])) by done.
    destruct (allows (Z.land (perm g) _) want); [done|]. cbn [orb].
    rewrite walk_groups, walk_tail by done. fold mt. by destruct (existsb _ mt).
  - cbn [app]. rewrite walk_groups, walk_tail by done. fold mt. cbn [orb].
    destruct (decide (mt = [])) as [->|Hne]; [done|]. rewrite (bool_decide_eq_false_2 _ Hne). cbn [negb].
    by destruct (existsb _ mt).
Qed.

(** C5: [access_check] is POSIX 1003.1e access evaluation: the superuser is
    refused only execution of a non-directory with no x bit; another caller is
    judged by [posix_check] of the stored ACL when it is valid, and by the
    owner, group or other bits of the mode when there is no valid ACL. *)
Theorem access_check_spec meta c acl r w x :
  let want := want_bits r w x in
  let res := access_check meta c acl r w x in
  (euid c = 0 -> res = negb (x && negb (is_dir (m_mode meta)) && (Z.land (m_mode meta) 73 =? 0)))
  /\ (euid c <> 0 -> forall v a, acl = Some v -> header_ok v = true -> is_acl (acl_entries v) a -> acl_wf a ->
        res = posix_check a meta c want)
  /\ (euid c <> 0 -> (forall v s, acl = Some v -> acl_validate v <> Ok s) -> res = allows (mode_class meta c) want).
Proof.
  cbv zeta. unfold access_check. split; [|split].
  - intros ->. cbn [Z.eqb]. destruct x, (is_dir _), (_ =? 0); done.
  - intros Hne v a -> Hh Ha Hw. rewrite (proj2 (Z.eqb_neq _ _) Hne).
    rewrite (proj2 (validate_iff v (summary_of a))) by eauto. cbn [is_ok]. by apply walk_posix.
  - intros Hne Hinv. rewrite (proj2 (Z.eqb_neq _ _) Hne). destruct acl as [v|]; [|done].
    destruct (acl_validate v) as [s|] eqn:E; [|done]. by destruct (Hinv v s).
Qed.

(** ** Permission fields *)
Definition perm3 (p : Z) : Prop := 0 <= p < 8.

Lemma land7 x : perm3 (Z.land x 7).
Proof. unfold perm3. change 7 with (Z.ones 3). rewrite Z.land_ones by lia. apply Z.mod_pos_bound. lia. Qed.

Lemma land7_id p : perm3 p -> Z.land p 7 = p.
Proof. intros. change 7 with (Z.ones 3). rewrite Z.land_ones by lia. by apply Z.mod_small. Qed.

Lemma perm3_land p q : perm3 p -> perm3 (Z.land p q).
Proof.
  intros H. rewrite <- (land7_id p H), <- Z.land_assoc, (Z.land_comm 7), Z.land_assoc. apply land7.
Qed.

Lemma entries_perm v : Forall (fun e => perm3 (perm e)) (acl_entries v).
Proof. unfold acl_entries. apply Forall_forall. intros e (i & -> & _)%list_elem_of_fmap. apply land7. Qed.

Lemma is_acl_perms es a :
  Forall (fun e => perm3 (perm e)) es -> is_acl es a ->
  perm3 (a_user a) /\ perm3 (a_group a) /\ perm3 (a_other a) /\ (forall p, a_mask a = Some p -> perm3 p).
Proof.
  intros Hp (u & us & g & gs & m & o & [-> _ _ _ _ _ _ ->]). cbn [a_user a_group a_other a_mask].
  apply Forall_cons in Hp as [Hu Hp]. apply Forall_app in Hp as [_ Hp]. apply Forall_cons in Hp as [Hg Hp].
  apply Forall_app in Hp as [_ Hp]. apply Forall_app in Hp as [Hm Ho]. apply List.Forall_inv in Ho.
  split; [exact Hu|]. split; [exact Hg|]. split; [exact Ho|]. intros p Hq. destruct m as [e|]; [|done].
  injection Hq as <-. exact (List.Forall_inv Hm).
Qed.

(** The three fields of a mode assembled from three permissions. *)
Lemma mode_fields u g o :
  perm3 u -> perm3 g -> perm3 o ->
  let m := Z.lor (Z.lor (Z.shiftl u 6) (Z.shiftl g 3)) o in
  Z.land (Z.shiftr m 6) 7 = u /\ Z.land (Z.shiftr m 3) 7 = g /\ Z.land m 7 = o.
Proof.
  intros Hu Hg Ho. set (L := map Z.of_nat (seq 0 8)).
  assert (forall x, perm3 x -> In x L) as HL.
  { intros x [H1 H2]. apply in_map_iff. exists (Z.to_nat x). split; [lia|]. apply in_seq. lia. }
  assert (forallb (fun u => forallb (fun g => forallb (fun o =>
            let m := Z.lor (Z.lor (Z.shiftl u 6) (Z.shiftl g 3)) o in
            (Z.land (Z.shiftr m 6) 7 =? u) && (Z.land (Z.shiftr m 3) 7 =? g) && (Z.land m 7 =? o)) L) L) L = true) as H
    by (vm_compute; reflexivity).
  rewrite forallb_forall in H. specialize (H u (HL u Hu)). rewrite forallb_forall in H.
  specialize (H g (HL g Hg)). rewrite forallb_forall in H. specialize (H o (HL o Ho)). cbv zeta in *.
  bool_to_prop. done.
Qed.

(** ... and the mode reassembled from its three fields. *)
Lemma mode_reassemble m :
  Z.lor (Z.lor (Z.shiftl (Z.land (Z.shiftr m 6) 7) 6) (Z.shiftl (Z.land (Z.shiftr m 3) 7) 3)) (Z.land m 7)
  = Z.land m 511.
Proof.
  apply Z.bits_inj'. intros n Hn. change 7 with (Z.ones 3). change 511 with (Z.ones 9).
  rewrite !Z.lor_spec, !Z.land_spec, !Z.shiftl_spec, !Z.land_spec by done.
  rewrite (Z.testbit_ones_nonneg 9), (Z.testbit_ones_nonneg 3 n) by lia.
  destruct (Z.ltb_spec n 3).
  - rewrite (Z.testbit_neg_r _ (n - 6)), (Z.testbit_neg_r _ (n - 3)) by lia. cbn [andb orb].
    destruct (Z.ltb_spec n 9); [done|lia].
  - rewrite andb_false_r, orb_false_r, (Z.shiftr_spec m 3), (Z.testbit_ones_nonneg 3 (n - 3)) by lia.
    replace (n - 3 + 3) with n by lia. destruct (Z.ltb_spec (n - 3) 3).
    + rewrite (Z.testbit_neg_r _ (n - 6)) by lia. cbn [andb orb]. destruct (Z.ltb_spec n 9); [done|lia].
    + rewrite andb_false_r, orb_false_r, (Z.shiftr_spec m 6), (Z.testbit_ones_nonneg 3 (n - 6)) by lia.
      replace (n - 6 + 6) with n by lia. destruct (Z.ltb_spec (n - 6) 3), (Z.ltb_spec n 9); lia || done.
Qed.

Lemma mode_field_511 m k : k = 0 \/ k = 3 \/ k = 6 ->
  Z.land (Z.shiftr (Z.land m 511) k) 7 = Z.land (Z.shiftr m k) 7.
Proof. intros [->|[->| ->]]; rewrite Z.shiftr_land, <- Z.land_assoc; done. Qed.

Lemma agreeing_fields m s :
  perm3 (user_obj s) -> perm3 (default (group_obj s) (mask s)) -> perm3 (other s) ->
  Z.land m 511 = acl_mode_bits s ->
  Z.land (Z.shiftr m 6) 7 = user_obj s /\ Z.land (Z.shiftr m 3) 7 = default (group_obj s) (mask s)
  /\ Z.land m 7 = other s.
Proof.
  intros Hu Hg Ho Hm. destruct (mode_fields _ _ _ Hu Hg Ho) as (H1 & H2 & H3). fold (acl_mode_bits s) in *.
  rewrite <- Hm in *. rewrite mode_field_511 in H1, H2 by auto.
  rewrite <- Z.land_assoc in H3. done.
Qed.

Lemma allows_land p q want : allows (Z.land p q) want = true -> allows q want = true.
Proof.
  unfold allows. rewrite !Z.eqb_eq. intros H. rewrite <- H at 1.
  rewrite <- H at 2. rewrite (Z.land_comm p q), <- !Z.land_assoc, Z.land_assoc, Z.land_diag. done.
Qed.

(** Mode bits that agree with the stored ACL are a safe summary of it, for a
    caller other than the superuser: the owner is judged by the owner bits, a
    trivial ACL decides exactly as the mode alone does, and whatever an ACL
    with a mask grants to someone else lies within the group bits or within the
    other bits of the mode. *)
Theorem acl_mode_agreement meta c v s r w x :
  acl_validate v = Ok s -> Z.land (m_mode meta) 511 = acl_mode_bits s -> euid c <> 0 ->
  let want := want_bits r w x in
  let res := access_check meta c (Some v) r w x in
  (euid c = m_uid meta -> res = access_check meta c None r w x)
  /\ (acl_is_trivial s = true -> res = access_check meta c None r w x)
  /\ (is_Some (mask s) -> euid c <> m_uid meta -> res = true ->
        allows (Z.land (Z.shiftr (m_mode meta) 3) 7) want = true
        \/ allows (Z.land (m_mode meta) 7) want = true).
Proof.
  intros Hv Hm Hne. cbv zeta. unfold access_check. rewrite (proj2 (Z.eqb_neq _ _) Hne), Hv. cbn [is_ok].
  apply validate_iff in Hv as (_ & a & Ha & _ & ->). unfold acl_walk. rewrite (walk_posix _ a) by done.
  destruct (is_acl_perms _ _ (entries_perm v) Ha) as (Pu & Pg & Po & Pm).
  assert (perm3 (default (a_group a) (a_mask a))) as Pd.
  { destruct (a_mask a) eqn:E; [by apply Pm|done]. }
  destruct (agreeing_fields (m_mode meta) (summary_of a) Pu Pd Po Hm) as (Fu & Fg & Fo).
  cbn [user_obj group_obj other mask summary_of] in *. unfold mode_class, posix_check. rewrite Fu, Fg, Fo.
  split; [|split].
  - intros E. by rewrite (proj2 (Z.eqb_eq _ _) E).
  - unfold acl_is_trivial. cbn [has_named mask summary_of]. unfold a_named.
    intros [Hn Hk]%andb_true_iff. rewrite negb_involutive, bool_decide_eq_true in Hn. destruct Hn as [-> ->].
    destruct (a_mask a); [done|]. cbn [map List.filter List.find app default].
    destruct (euid c =? m_uid meta); [done|]. destruct (in_group c (m_gid meta)); [|done].
    cbn. rewrite orb_false_r. by rewrite land7_id.
  - intros [q Hq] E. rewrite (proj2 (Z.eqb_neq _ _) E), Hq. cbn [default from_option].
    destruct (List.find _ _) as [y|]; [intros H; left; by eapply allows_land|].
    case_bool_decide as Hnil; [by right|]. intros H. left. apply existsb_exists in H as (p & _ & H).
    by eapply allows_land.
Qed.

(** A five-entry ACL: rwx for the owner, rw for user 1000, r-x for the group,
    mask r--, nothing for others. *)
Definition demo_ent (t p i : Z) : list Z := [t; 0; p; 0; i mod 256; i / 256; 0; 0].
Definition demo_acl : list Z :=
  [2; 0; 0; 0] ++ demo_ent 1 7 0 ++ demo_ent 2 6 1000 ++ demo_ent 4 5 0 ++ demo_ent 16 4 0 ++ demo_ent 32 0 0.
Definition demo_meta : FileMeta := mkMeta 33248 1 1. (* 0o100740 *)

Lemma acl_mode_agreement_witness :
  access_check demo_meta (cred_new 1 5) (Some demo_acl) true true false
  = access_check demo_meta (cred_new 1 5) None true true false.
Proof.
  refine (proj1 (acl_mode_agreement demo_meta (cred_new 1 5) demo_acl (mkSum 7 5 0 (Some 4) true)
            true true false _ _ _) _); [vm_compute; reflexivity|vm_compute; reflexivity|done|done].
Defined.

(** ** Writing a permission field *)
Lemma at_splice a i x j :
  (i + length x <= length a)%nat ->
  at_ (splice a i x) j = if ((i <=? j) && (j <? i + length x))%nat then at_ x (j - i) else at_ a j.
Proof.
  intros H. unfold splice, at_. destruct (Nat.leb_spec i j); cbn [andb].
  - rewrite app_nth2, length_take, Nat.min_l by (rewrite ?length_take; lia).
    destruct (Nat.ltb_spec j (i + length x)); [by rewrite app_nth1 by lia|].
    rewrite app_nth2 by lia. rewrite !nth_lookup, lookup_drop. f_equal. f_equal. lia.
  - rewrite app_nth1 by (rewrite length_take; lia). by rewrite !nth_lookup, lookup_take_lt.
Qed.

Lemma splice_length a i x : (i + length x <= length a)%nat -> length (splice a i x) = length a.
Proof. intros. unfold splice. rewrite !length_app, length_take, length_drop. lia. Qed.

Definition with_perm (p : Z) (e : AclEntry) : AclEntry := mkEnt (tag e) p (id e).

Lemma count_room v i : (i < acl_entry_count v)%nat -> (ACL_HDR + i * ACL_ENT + 8 <= length v)%nat.
Proof.
  unfold acl_entry_count. intros H. pose proof (Nat.div_mod_eq (length v - ACL_HDR) ACL_ENT) as E.
  unfold ACL_HDR, ACL_ENT in *. lia.
Qed.

Lemma set_perm_length v i p : (i < acl_entry_count v)%nat -> length (set_perm v i p) = length v.
Proof. intros H%count_room. apply splice_length. cbn [length le16]. lia. Qed.

Lemma set_perm_at v i p j :
  (i < acl_entry_count v)%nat ->
  at_ (set_perm v i p) j
  = if decide (j = ACL_HDR + i * ACL_ENT + 2)%nat then p mod 256
    else if decide (j = ACL_HDR + i * ACL_ENT + 3)%nat then p / 256 else at_ v j.
Proof.
  intros H%count_room. unfold set_perm. rewrite at_splice by (cbn [length le16]; lia). cbn [length le16].
  set (o := (ACL_HDR + i * ACL_ENT)%nat) in *. repeat case_decide; subst.
  - rewrite (proj2 (Nat.leb_le _ _)), (proj2 (Nat.ltb_lt _ _)) by lia. cbn [andb]. by rewrite Nat.sub_diag.
  - rewrite (proj2 (Nat.leb_le _ _)), (proj2 (Nat.ltb_lt _ _)) by lia. cbn [andb].
    by replace (o + 3 - (o + 2))%nat with 1%nat by lia.
  - destruct (Nat.leb_spec (o + 2) j), (Nat.ltb_spec j (o + 2 + 2)); cbn [andb]; done || lia.
Qed.

Lemma set_perm_entry v i j p :
  (i < acl_entry_count v)%nat -> perm3 p ->
  acl_entry (set_perm v i p) j = if decide (j = i) then with_perm p (acl_entry v i) else acl_entry v j.
Proof.
  intros Hi Hp. unfold acl_entry. rewrite !set_perm_at by done. unfold ACL_HDR, ACL_ENT.
  destruct (decide (j = i)) as [->|Hne]; repeat (case_decide; try (exfalso; lia)); [|done].
  unfold with_perm. cbn [tag id]. f_equal.
  rewrite of_le16_le16 by (unfold perm3 in Hp; lia). by apply land7_id.
Qed.

Lemma entries_lookup v i :
  acl_entries v !! i = if decide (i < acl_entry_count v)%nat then Some (acl_entry v i) else None.
Proof.
  unfold acl_entries. rewrite list_lookup_fmap. case_decide.
  - by rewrite lookup_seq_lt.
  - by rewrite lookup_seq_ge by lia.
Qed.

Lemma entries_length v : length (acl_entries v) = acl_entry_count v.
Proof. unfold acl_entries. by rewrite length_map, length_seq. Qed.

Lemma count_eq v v' : length v = length v' -> acl_entry_count v = acl_entry_count v'.
Proof. unfold acl_entry_count. by intros ->. Qed.

Lemma set_perm_entries v i p :
  (i < acl_entry_count v)%nat -> perm3 p ->
  acl_entries (set_perm v i p) = alter (with_perm p) i (acl_entries v).
Proof.
  intros Hi Hp. apply list_eq. intros j. rewrite list_lookup_alter, !entries_lookup.
  rewrite (count_eq (set_perm v i p) v) by (by apply set_perm_length).
  destruct (decide (i = j)) as [->|Hne].
  - rewrite decide_True by done. rewrite set_perm_entry, decide_True by done. by rewrite decide_True.
  - case_decide; [|done]. rewrite set_perm_entry, decide_False by done. done.
Qed.

Lemma set_perm_header v i p :
  (i < acl_entry_count v)%nat -> header_ok (set_perm v i p) = header_ok v.
Proof.
  intros Hi. unfold header_ok. rewrite set_perm_length, !set_perm_at by done. unfold ACL_HDR, ACL_ENT.
  repeat (case_decide; try (exfalso; lia)). done.
Qed.

(** ** chmod *)
Definition chmod_entry (hm : bool) (mode : Z) (e : AclEntry) : AclEntry :=
  match chmod_perm hm mode (tag e) with Some p => with_perm p e | None => e end.

Lemma chmod_perm3 hm mode t p : chmod_perm hm mode t = Some p -> perm3 p.
Proof. unfold chmod_perm. repeat case_match; intros [= <-]; apply land7. Qed.

Lemma chmod_loop hm mode v k :
  (k <= acl_entry_count v)%nat ->
  let v' := foldl (fun v i =>
    let o := (ACL_HDR + i * ACL_ENT)%nat in
    match chmod_perm hm mode (of_le16 (at_ v o) (at_ v (o + 1))) with
    | Some p => set_perm v i p
    | None => v
    end) v (seq 0 k) in
  length v' = length v /\ header_ok v' = header_ok v
  /\ acl_entries v' = map (chmod_entry hm mode) (take k (acl_entries v)) ++ drop k (acl_entries v).
Proof.
  induction k as [|k IH]; intros Hk; [done|]. cbv zeta. rewrite seq_S, foldl_app. cbn [foldl Nat.add].
  destruct IH as (L & H & E); [lia|]. set (v1 := foldl _ v _) in *. clearbody v1.
  assert (acl_entries v !! k = Some (acl_entry v k)) as Ek by (rewrite entries_lookup, decide_True by lia; done).
  assert (k < acl_entry_count v1)%nat as Hk1 by (rewrite (count_eq v1 v) by done; lia).
  assert (acl_entry v1 k = acl_entry v k) as Ev.
  { assert (acl_entries v1 !! k = Some (acl_entry v1 k)) as H1 by (rewrite entries_lookup, decide_True by lia; done).
    rewrite E, lookup_app_r in H1 by (rewrite length_map, length_take, entries_length; lia).
    rewrite length_map, length_take, entries_length, lookup_drop, Nat.min_l, Nat.sub_diag, Nat.add_0_r, Ek in H1 by lia.
    congruence. }
  rewrite (take_S_r _ _ _ Ek), map_app. cbn [map]. rewrite <- app_assoc. cbn [app].
  assert (drop k (acl_entries v) = acl_entry v k :: drop (S k) (acl_entries v)) as Ed by (by apply drop_S).
  change (of_le16 _ _) with (tag (acl_entry v1 k)). rewrite Ev. unfold chmod_entry at 2.
  destruct (chmod_perm hm mode (tag (acl_entry v k))) as [p|] eqn:Ep.
  - apply chmod_perm3 in Ep as Hp. rewrite set_perm_length, set_perm_header, set_perm_entries by done.
    split; [done|]. split; [done|]. rewrite E, Ed.
    assert (k = length (map (chmod_entry hm mode) (take k (acl_entries v))) + 0)%nat as Hl
      by (rewrite length_map, length_take, entries_length; lia).
    rewrite Hl at 1. rewrite alter_app_r. done.
  - split; [done|]. split; [done|]. by rewrite E, Ed.
Qed.

Lemma existsb_find {A} (f : A -> bool) l : existsb f l = bool_decide (is_Some (List.find f l)).
Proof. induction l as [|x l IH]; [done|]. cbn. by destruct (f x). Qed.

Lemma existsb_map {A B} (f : B -> bool) (g : A -> B) l : existsb (fun x => f (g x)) l = existsb f (map g l).
Proof. induction l as [|x l IH]; [done|]. cbn. by rewrite IH. Qed.

(** chmod of an abstract ACL: owner and other bits from the mode, the group
    bits into the mask when there is one and into the group entry otherwise. *)
Definition chmod_acl (a : Acl) (mode : Z) : Acl :=
  let gb := Z.land (Z.shiftr mode 3) 7 in
  mkAcl (Z.land (Z.shiftr mode 6) 7) (a_users a)
    (if bool_decide (is_Some (a_mask a)) then a_group a else gb) (a_groups a)
    (const gb <$> a_mask a) (Z.land mode 7).

Lemma map_same {A} (f : A -> A) l (P : A -> Prop) : (forall x, P x -> f x = x) -> Forall P l -> map f l = l.
Proof. intros Hf. induction 1 as [|x l Hx _ IH]; [done|]. cbn. by rewrite Hf, IH. Qed.

Lemma chmod_is_acl es a mode :
  is_acl es a ->
  is_acl (map (chmod_entry (existsb (fun e => tag e =? ACL_MASK) es) mode) es) (chmod_acl a mode).
Proof.
  intros (u & us & g & gs & m & o & R). rewrite existsb_find, (find_mask _ _ _ _ _ _ _ _ R).
  destruct R as [-> Hu Hus Hg Hgs Hm Ho ->]. set (hm := bool_decide (is_Some m)).
  set (f := chmod_entry hm mode). exists (f u), us, (f g), gs, (f <$> m), (f o).
  assert (map f us = us) as Eus.
  { apply (map_same _ _ (fun e => tag e = ACL_USER)); [|done]. intros e He. unfold f, chmod_entry. by rewrite He. }
  assert (map f gs = gs) as Egs.
  { apply (map_same _ _ (fun e => tag e = ACL_GROUP)); [|done]. intros e He. unfold f, chmod_entry. by rewrite He. }
  assert (forall e, tag (f e) = tag e) as Ht by (intros e; unfold f, chmod_entry; by destruct (chmod_perm _ _ _)).
  split; rewrite ?Ht; try done.
  - cbn [map]. rewrite map_app, Eus. cbn [map]. rewrite map_app, Egs, map_app. by destruct m.
  - destruct m as [e|]; [|done]. apply Forall_singleton. rewrite Ht. exact (List.Forall_inv Hm).
  - unfold chmod_acl. cbn [a_users a_group a_groups a_mask]. f_equal.
    + unfold f, chmod_entry. by rewrite Hu.
    + unfold f, chmod_entry. rewrite Hg. unfold hm. by destruct m.
    + destruct m as [e|]; [|done]. cbn. unfold f, chmod_entry. by rewrite (List.Forall_inv Hm : tag e = ACL_MASK).
    + unfold f, chmod_entry. by rewrite Ho.
Qed.

(** chmod keeps a stored ACL valid and in step with the mode: rewriting a
    valid ACL changes neither its length nor its named entries, the result is
    valid and is [chmod_acl] of the ACL before, and the mode bits it implies
    are exactly the nine bits of the new mode. *)
Theorem acl_chmod_spec v s mode :
  acl_validate v = Ok s ->
  let v' := acl_chmod_rewrite v mode in
  exists a, is_acl (acl_entries v) a /\ s = summary_of a /\ length v' = length v
    /\ is_acl (acl_entries v') (chmod_acl a mode)
    /\ acl_validate v' = Ok (summary_of (chmod_acl a mode))
    /\ acl_mode_bits (summary_of (chmod_acl a mode)) = Z.land mode 511.
Proof.
  intros Hv. cbv zeta. apply validate_iff in Hv as (Hh & a & Ha & Hw & ->). exists a.
  unfold acl_chmod_rewrite. rewrite (existsb_map (fun e => tag e =? ACL_MASK) (acl_entry v)).
  fold (acl_entries v). set (hm := existsb _ _).
  destruct (chmod_loop hm mode v (acl_entry_count v)) as (L & H & E); [done|]. set (v' := foldl _ _ _) in *.
  rewrite take_ge, drop_ge, app_nil_r in E by (rewrite entries_length; lia).
  assert (is_acl (acl_entries v') (chmod_acl a mode)) as Ha' by (rewrite E; by apply chmod_is_acl).
  repeat split; try done.
  - apply validate_iff. split; [congruence|]. exists (chmod_acl a mode). repeat split; try done; try apply Hw.
    intros Hn. destruct Hw as (_ & _ & Hw). destruct (Hw Hn) as [q Hq]. unfold chmod_acl. cbn. rewrite Hq. by eexists.
  - unfold acl_mode_bits, summary_of, chmod_acl. cbn [user_obj group_obj mask other a_user a_group a_mask a_other].
    rewrite <- mode_reassemble. by destruct (a_mask a).
Qed.

Lemma acl_chmod_spec_witness :
  exists a, is_acl (acl_entries (acl_chmod_rewrite demo_acl 420)) (chmod_acl a 420).
Proof.
  destruct (acl_chmod_spec demo_acl (mkSum 7 5 0 (Some 4) true) 420) as (a & _ & _ & _ & H & _).
  - vm_compute. reflexivity.
  - exists a. exact H.
Defined.

(** ** Creation *)
Lemma alter_middle {A} (f : A -> A) l1 x l2 : alter f (length l1) (l1 ++ x :: l2) = l1 ++ f x :: l2.
Proof. rewrite <- (Nat.add_0_r (length l1)), alter_app_r. done. Qed.

Lemma set_perm_app d z i p : (i < acl_entry_count d)%nat -> set_perm (d ++ z) i p = set_perm d i p ++ z.
Proof.
  intros H%count_room. unfold set_perm, splice. rewrite take_app_le, drop_app_le by (cbn [length le16]; lia).
  by rewrite <- !app_assoc.
Qed.

Lemma masq_app l1 : forall i l2 s,
  masq_loop i (l1 ++ l2) s = masq_loop (i + length l1) l2 (masq_loop i l1 s).
Proof.
  induction l1 as [|e l1 IH]; intros i l2 s; cbn [app masq_loop length]; [by rewrite Nat.add_0_r|].
  rewrite IH. f_equal. lia.
Qed.

Lemma masq_named t l : t = ACL_USER \/ t = ACL_GROUP -> forall i s,
  Forall (fun e => tag e = t) l ->
  masq_loop i l s = mkMasq (clone s) (user_perm s) (other_perm s)
    (not_equiv s || negb (bool_decide (l = []))) (mask_idx s) (group_obj_idx s).
Proof.
  intros Ht. induction l as [|e l IH]; intros i s H; cbn [masq_loop].
  { cbn. rewrite orb_false_r. by destruct s. }
  apply Forall_cons in H as [He H]. rewrite IH by done.
  assert (masq_step i e s = mkMasq (clone s) (user_perm s) (other_perm s) true (mask_idx s) (group_obj_idx s)) as ->.
  { unfold masq_step. cbv beta in He. rewrite He. by destruct Ht as [->| ->]. }
  cbn. by rewrite orb_true_r.
Qed.

Lemma masq_result es a u us g gs m o C up op :
  represents es a u us g gs m o ->
  masq_loop 0 es (mkMasq C up op false None None)
  = mkMasq (set_perm (set_perm C 0 (Z.land (perm u) up)) (length es - 1) (Z.land (perm o) op))
      (Z.land (perm u) up) (Z.land (perm o) op) (a_named a)
      ((fun _ => S (length us) + S (length gs))%nat <$> m) (Some (S (length us))).
Proof.
  intros [-> Hu Hus Hg Hgs Hm Ho ->]. rewrite a_named_lists.
  cbn [masq_loop]. unfold masq_step at 1. rewrite Hu. cbn [ACL_USER_OBJ Z.eqb Pos.eqb clone user_perm other_perm not_equiv mask_idx group_obj_idx].
  rewrite masq_app, (masq_named ACL_USER us) by (done || by left).
  cbn [clone user_perm other_perm not_equiv mask_idx group_obj_idx masq_loop].
  unfold masq_step at 1. rewrite Hg. cbn [ACL_USER_OBJ ACL_OTHER ACL_MASK ACL_GROUP_OBJ Z.eqb Pos.eqb clone user_perm other_perm not_equiv mask_idx group_obj_idx].
  rewrite masq_app, (masq_named ACL_GROUP gs) by (done || by right).
  cbn [clone user_perm other_perm not_equiv mask_idx group_obj_idx orb].
  cbn [length]. rewrite !length_app. cbn [length]. rewrite !length_app. cbn [length].
  destruct m as [e|]; rewrite ?option_list_Some, ?option_list_None in *; cbn [app masq_loop length].
  - unfold masq_step at 2. rewrite (List.Forall_inv Hm : tag e = ACL_MASK).
    cbn [ACL_USER_OBJ ACL_OTHER ACL_MASK Z.eqb Pos.eqb clone user_perm other_perm not_equiv mask_idx group_obj_idx].
    unfold masq_step. rewrite Ho. cbn [ACL_USER_OBJ ACL_OTHER Z.eqb Pos.eqb clone user_perm other_perm not_equiv mask_idx group_obj_idx].
    f_equal; cbn [fmap option_fmap option_map]; f_equal; lia.
  - unfold masq_step. rewrite Ho. cbn [ACL_USER_OBJ ACL_OTHER Z.eqb Pos.eqb clone user_perm other_perm not_equiv mask_idx group_obj_idx].
    f_equal; cbn [fmap option_fmap option_map]; f_equal; lia.
Qed.

(** The ACL a child inherits: owner, other, and mask (or else group) reduced by
    the requested mode. *)
Definition masq_acl (a : Acl) (mode : Z) : Acl :=
  let gb := Z.land (Z.shiftr mode 3) 7 in
  mkAcl (Z.land (a_user a) (Z.land (Z.shiftr mode 6) 7)) (a_users a)
    (if bool_decide (is_Some (a_mask a)) then a_group a else Z.land (a_group a) gb) (a_groups a)
    ((fun q => Z.land q gb) <$> a_mask a) (Z.land (a_other a) (Z.land mode 7)).

(** Position of the entry the group bits go to, and the rest around it. *)
Lemma group_slot es a u us g gs m o :
  represents es a u us g gs m o ->
  exists l1 x l2,
    es = (u :: l1) ++ x :: l2 ++ [o]
    /\ length (u :: l1) = match (fun _ => S (length us) + S (length gs))%nat <$> m with Some i => i | None => S (length us) end
    /\ perm x = default (perm g) (perm <$> m)
    /\ forall pu px po,
         is_acl ((with_perm pu u :: l1) ++ with_perm px x :: l2 ++ [with_perm po o])
           (mkAcl pu (a_users a) (if bool_decide (is_Some m) then a_group a else px) (a_groups a) (const px <$> m) po).
Proof.
  intros [-> Hu Hus Hg Hgs Hm Ho ->]. destruct m as [e|]; rewrite ?option_list_Some, ?option_list_None in *.
  - exists (us ++ g :: gs), e, []. split; [cbn [app]; by rewrite <- app_assoc|]. split; [cbn; rewrite length_app; cbn; lia|].
    split; [done|]. intros pu px po. exists (with_perm pu u), us, g, gs, (Some (with_perm px e)), (with_perm po o).
    split; try done; [cbn [app]; by rewrite <- app_assoc|]. constructor; [|done]. exact (List.Forall_inv Hm : tag e = ACL_MASK).
  - exists us, g, gs. split; [done|]. split; [done|]. split; [done|]. intros pu px po.
    by exists (with_perm pu u), us, (with_perm px g), gs, None, (with_perm po o).
Qed.

Lemma masq_bound x y : perm3 (Z.land x (Z.land y 7)).
Proof. rewrite Z.land_assoc. apply land7. Qed.

Lemma masq_entries d a u us g gs m o mode :
  represents (acl_entries d) a u us g gs m o ->
  let gi := match (fun _ => S (length us) + S (length gs))%nat <$> m with Some i => i | None => S (length us) end in
  let gp := Z.land (perm (acl_entry d gi)) (Z.land (Z.shiftr mode 3) 7) in
  let d' := set_perm (set_perm (set_perm d 0 (Z.land (perm u) (Z.land (Z.shiftr mode 6) 7)))
              (length (acl_entries d) - 1) (Z.land (perm o) (Z.land mode 7))) gi gp in
  length d' = length d /\ header_ok d' = header_ok d /\ is_acl (acl_entries d') (masq_acl a mode)
  /\ gp = default (Z.land (perm g) (Z.land (Z.shiftr mode 3) 7)) (a_mask (masq_acl a mode))
  /\ (gi < acl_entry_count d)%nat /\ (length (acl_entries d) - 1 < acl_entry_count d)%nat.
Proof.
  intros R. cbv zeta. destruct (group_slot _ _ _ _ _ _ _ _ R) as (l1 & x & l2 & Es & <- & Ex & Hacl).
  pose proof (entries_length d) as Hn. rewrite Es in Hn. cbn [app length] in Hn. rewrite length_app in Hn.
  cbn [length] in *. rewrite length_app in Hn. cbn [length] in Hn.
  assert (length (acl_entries d) - 1 = length ((u :: l1) ++ x :: l2))%nat as Hlast.
  { rewrite Es. cbn [app length]. rewrite !length_app. cbn [length]. rewrite length_app. cbn. lia. }
  assert (acl_entry d (S (length l1)) = x) as Eg.
  { assert (acl_entries d !! S (length l1) = Some (acl_entry d (S (length l1)))) as H
      by (rewrite entries_lookup, decide_True by lia; done).
    rewrite Es in H. change (S (length l1)) with (length (u :: l1)) in H at 1. rewrite list_lookup_middle in H by done.
    congruence. }
  rewrite Eg, Ex. set (pu := Z.land (perm u) _). set (po := Z.land (perm o) _). set (px := Z.land _ _).
  assert (perm3 pu /\ perm3 po /\ perm3 px) as (Pu & Po & Px).
  { split; [apply masq_bound|]. split; [|apply masq_bound]. unfold po. rewrite Z.land_assoc. apply land7. }
  set (j := (length (acl_entries d) - 1)%nat) in *.
  assert (j < acl_entry_count d)%nat as Hj by (unfold j; rewrite entries_length; lia).
  set (d1 := set_perm d 0 pu). assert (length d1 = length d) as L1 by (apply set_perm_length; lia).
  pose proof (count_eq d1 d L1) as C1.
  set (d2 := set_perm d1 j po). assert (length d2 = length d1) as L2 by (apply set_perm_length; lia).
  pose proof (count_eq d2 d1 L2) as C2.
  split; [rewrite set_perm_length by lia; congruence|].
  split; [unfold d2, d1; rewrite !set_perm_header by (fold d1; fold d2; lia); done|].
  split; [|split; [by destruct R as [_ _ _ _ _ _ _ ->], m|split; [lia|done]]].
  rewrite set_perm_entries by (done || lia). unfold d2. rewrite set_perm_entries by (done || lia).
  unfold d1. rewrite set_perm_entries by (done || lia). rewrite Hlast, Es. cbn [app alter list_alter].
  change (length (u :: l1 ++ x :: l2)) with (length (with_perm pu u :: l1 ++ x :: l2)).
  assert (with_perm pu u :: l1 ++ x :: l2 ++ [o] = (with_perm pu u :: l1 ++ x :: l2) ++ o :: []) as ->
    by (cbn; by rewrite <- app_assoc).
  rewrite alter_middle. cbn [app]. rewrite <- app_assoc. cbn [app].
  change (S (length l1)) with (length (with_perm pu u :: l1)). rewrite app_comm_cons, alter_middle.
  assert (masq_acl a mode = mkAcl pu (a_users a) (if bool_decide (is_Some m) then a_group a else px) (a_groups a) (const px <$> m) po)
    as -> by (destruct R as [_ _ _ _ _ _ _ ->]; by destruct m).
  apply Hacl.
Qed.

Lemma masq_wf a mode : acl_wf a -> acl_wf (masq_acl a mode).
Proof.
  intros (S1 & S2 & Hm). repeat split; try done. intros Hn. destruct (Hm Hn) as [q Hq].
  unfold masq_acl. cbn [a_mask]. rewrite Hq. by eexists.
Qed.

(** A reduced field stays within the mode. *)
Lemma field_within x m k :
  0 <= k -> Z.land (Z.shiftl (Z.land x (Z.land (Z.shiftr m k) 7)) k) m = Z.shiftl (Z.land x (Z.land (Z.shiftr m k) 7)) k.
Proof.
  intros Hk. apply Z.bits_inj'. intros n Hn. rewrite Z.land_spec, !Z.shiftl_spec, !Z.land_spec by done.
  destruct (Z.lt_ge_cases n k).
  - rewrite !(Z.testbit_neg_r _ (n - k)) by lia. done.
  - rewrite Z.shiftr_spec by lia. replace (n - k + k) with n by lia.
    destruct (Z.testbit x (n - k)), (Z.testbit m n), (Z.testbit 7 (n - k)); done.
Qed.

Lemma masq_mode_within x y z mode :
  let m := Z.lor (Z.lor (Z.lor (Z.land mode 3584) (Z.shiftl (Z.land x (Z.land (Z.shiftr mode 6) 7)) 6))
                 (Z.shiftl (Z.land y (Z.land (Z.shiftr mode 3) 7)) 3)) (Z.land z (Z.land mode 7)) in
  Z.land m mode = m.
Proof.
  cbv zeta. rewrite !Z.land_lor_distr_l, !field_within by lia.
  pose proof (field_within z mode 0 ltac:(lia)) as H0. rewrite Z.shiftr_0_r, !Z.shiftl_0_r in H0. rewrite H0.
  by rewrite <- (Z.land_assoc mode), (Z.land_comm 3584), Z.land_assoc, Z.land_diag.
Qed.

Lemma umask_bits mode umask n :
  0 <= n ->
  Z.testbit (Z.land (Z.land mode 4095) (not16 (Z.land umask 511))) n
  = Z.testbit mode n && (n <? 12) && negb (Z.testbit umask n && (n <? 9)).
Proof.
  intros Hn. unfold not16. change 4095 with (Z.ones 12). change 511 with (Z.ones 9). change 65535 with (Z.ones 16).
  rewrite !Z.land_spec, Z.lxor_spec, Z.land_spec, !Z.testbit_ones_nonneg by lia.
  destruct (Z.ltb_spec n 12); [|by rewrite !andb_false_r]. rewrite (proj2 (Z.ltb_lt n 16)) by lia.
  by rewrite xorb_true_r.
Qed.

Lemma trivial_summary a : acl_is_trivial (summary_of a) = negb (if bool_decide (is_Some (a_mask a)) then true else a_named a).
Proof. unfold acl_is_trivial. cbn [has_named mask summary_of]. destruct (a_named a), (bool_decide _); done. Qed.

Lemma create_inherits v a mode umask dir :
  (length v <= ACL_INHERIT_MAX)%nat -> header_ok v = true -> is_acl (acl_entries v) a -> acl_wf a ->
  let r := acl_create (Some v) mode umask dir in
  Z.land (c_mode r) mode = c_mode r
  /\ inherit_default r = dir
  /\ c_mode r = Z.lor (Z.land mode 3584) (acl_mode_bits (summary_of (masq_acl a mode)))
  /\ if acl_is_trivial (summary_of a) then access_len r = O
     else access_len r = length v
          /\ is_acl (acl_entries (take (access_len r) (access r))) (masq_acl a mode)
          /\ header_ok (take (access_len r) (access r)) = true.
Proof.
  intros Hl Hh Ha Hw. cbv zeta. unfold acl_create. rewrite (proj2 (Nat.leb_le _ _) Hl).
  rewrite (proj2 (validate_iff v (summary_of a))) by eauto. cbn [andb is_ok].
  destruct Ha as (u & us & g & gs & m & o & R). rewrite (masq_result _ _ _ _ _ _ _ _ _ _ _ R).
  destruct (masq_entries v a u us g gs m o mode R) as (L & Hd & Hacl & Hgp & Hgi & Hj).
  cbn [mask_idx group_obj_idx clone user_perm other_perm not_equiv].
  set (gi := match _ <$> m with Some i => i | None => _ end) in *.
  replace (match _ <$> m with Some i => Some i | None => Some (S (length us)) end) with (Some gi) by (by destruct m).
  set (gp := Z.land (perm (acl_entry v gi)) _) in *. cbn [c_mode access_len access inherit_default].
  split; [apply masq_mode_within|]. split; [done|]. split.
  { rewrite Hgp. destruct R as [_ _ _ _ _ _ _ ->]. unfold acl_mode_bits, masq_acl. cbn. rewrite <- !Z.lor_assoc. by destruct m. }
  rewrite trivial_summary.
  replace (bool_decide (is_Some (_ <$> m))) with (bool_decide (is_Some (a_mask a)))
    by (destruct R as [_ _ _ _ _ _ _ ->]; by destruct m).
  destruct (if bool_decide _ then true else a_named a); cbn [negb]; [|done].
  split; [done|].
  assert (forall (z d : list Z), (length d <= length z)%nat -> take (length d) (splice z 0 d) = d) as Hsp.
  { intros z d Hzd. unfold splice. exact (take_app_length d (drop (0 + length d) z)). }
  assert (splice (replicate ACL_INHERIT_MAX 0) 0 v = v ++ drop (length v) (replicate ACL_INHERIT_MAX 0)) as -> by done.
  set (z := drop _ _). rewrite (set_perm_app v) by lia.
  set (d1 := set_perm v 0 _) in *. assert (length d1 = length v) as L1 by (apply set_perm_length; lia).
  pose proof (count_eq d1 v L1). rewrite (set_perm_app d1) by lia.
  set (d2 := set_perm d1 _ _) in *. assert (length d2 = length d1) as L2 by (apply set_perm_length; lia).
  pose proof (count_eq d2 d1 L2). rewrite (set_perm_app d2) by lia.
  set (d3 := set_perm d2 gi gp) in *. rewrite <- L, take_app_length, Hsp by (rewrite length_replicate; lia).
  split; [done|]. by rewrite Hd.
Qed.

(** [acl_create] computes what a new inode gets.  The mode never has a bit
    the caller did not ask for.  Without a usable default ACL it is the
    requested mode without the umask bits, and no ACL is stored.  With one, the
    umask plays no part: the mode is the setid bits and the nine bits of the
    inherited ACL ([masq_acl], owner/group-class/other reduced by the request),
    that ACL is stored exactly when it is not trivial, is valid, and a child
    directory inherits the default. *)
Theorem acl_create_spec default_acl mode umask dir :
  let r := acl_create default_acl mode umask dir in
  Z.land (c_mode r) mode = c_mode r
  /\ ((forall v s, default_acl = Some v -> (length v <= ACL_INHERIT_MAX)%nat -> acl_validate v <> Ok s) ->
        access_len r = O /\ inherit_default r = false
        /\ forall n, 0 <= n -> Z.testbit (c_mode r) n
             = Z.testbit mode n && (n <? 12) && negb (Z.testbit umask n && (n <? 9)))
  /\ (forall v s, default_acl = Some v -> (length v <= ACL_INHERIT_MAX)%nat -> acl_validate v = Ok s ->
        exists a, is_acl (acl_entries v) a /\ s = summary_of a /\ inherit_default r = dir
          /\ c_mode r = Z.lor (Z.land mode 3584) (acl_mode_bits (summary_of (masq_acl a mode)))
          /\ if acl_is_trivial s then access_len r = O
             else access_len r = length v
                  /\ acl_validate (take (access_len r) (access r)) = Ok (summary_of (masq_acl a mode))).
Proof.
  cbv zeta.
  set (out := mkCreated (Z.land (Z.land mode 4095) (not16 (Z.land umask 511))) 0 (replicate ACL_INHERIT_MAX 0) false).
  assert (Z.land (c_mode out) mode = c_mode out) as Hout.
  { cbn [c_mode out]. rewrite <- (Z.land_assoc mode), (Z.land_comm _ mode), Z.land_assoc, Z.land_diag. done. }
  destruct default_acl as [v|]; [destruct (decide (length v <= ACL_INHERIT_MAX)%nat) as [Hl|Hl];
    [destruct (acl_validate v) as [s|e] eqn:Hv|]|].
  - pose proof Hv as (Hh & a & Ha & Hw & ->)%validate_iff.
    destruct (create_inherits v a mode umask dir Hl Hh Ha Hw) as (H1 & H2 & H3 & H4).
    split; [done|]. split; [intros Hno; by destruct (Hno v _ eq_refl Hl Hv)|].
    intros v' s' [= <-] _ E. rewrite Hv in E. injection E as <-. exists a. repeat split; try done.
    destruct (acl_is_trivial _); [done|]. destruct H4 as (H4 & H5 & H6). split; [done|].
    apply validate_iff. split; [done|]. exists (masq_acl a mode). repeat split; try done; by apply masq_wf.
  - unfold acl_create. rewrite Hv, andb_false_r. split; [done|].
    split; [intros _; split; [done|]; split; [done|]; intros; by apply umask_bits|].
    intros v' s' [= <-] _ E. congruence.
  - unfold acl_create. rewrite (proj2 (Nat.leb_gt _ _)) by lia. cbn [andb]. split; [done|].
    split; [intros _; split; [done|]; split; [done|]; intros; by apply umask_bits|].
    intros v' s' [= <-]. done.
  - split; [done|]. split; [intros _; split; [done|]; split; [done|]; intros; by apply umask_bits|]. done.
Qed.

(** The mode and the umask survive the packed wire argument. *)
Lemma pack_roundtrip mode umask :
  unpack_create_mode (pack_create_mode mode umask) = (Z.land mode 4095, Z.land umask 511).
Proof.
  unfold unpack_create_mode, pack_create_mode, MODE_UMASK_SHIFT.
  change 4095 with (Z.ones 12). change 511 with (Z.ones 9).
  f_equal; apply Z.bits_inj'; intros n Hn.
  - rewrite !Z.land_spec, Z.lor_spec, Z.land_spec, Z.shiftl_spec by done.
    rewrite !(Z.testbit_ones_nonneg 12) by lia. destruct (Z.ltb_spec n 12); [|by rewrite !andb_false_r].
    by rewrite (Z.testbit_neg_r _ (n - 16)), orb_false_r, !andb_true_r by lia.
  - rewrite !Z.land_spec, Z.shiftr_spec, Z.lor_spec, Z.land_spec, Z.shiftl_spec by lia.
    rewrite (Z.testbit_ones_nonneg 12) by lia. replace (n + 16 - 16) with n by lia.
    rewrite (proj2 (Z.ltb_ge (n + 16) 12)), andb_false_r by lia. cbn [orb].
    rewrite Z.land_spec. destruct (Z.testbit umask n), (Z.testbit (Z.ones 9) n); done.
Qed.

(** The write gate for extended attributes grants nothing it should not: a
    granted write is never on a symbolic link; [user.*] needs a regular file or
    directory, write permission by [access_check], and ownership or root in a
    sticky directory; ACLs need owner or root, default ACLs a directory;
    [trusted.*] needs root; no other namespace is writable.  Conversely each of
    these conditions suffices. *)
Theorem may_write_xattr_spec idx meta c acl :
  let own := euid c = m_uid meta \/ euid c = 0 in
  may_write_xattr idx meta c acl = Ok tt <->
  is_lnk (m_mode meta) = false
  /\ ((idx = IDX_USER /\ (is_reg (m_mode meta) = true \/ is_dir (m_mode meta) = true)
       /\ (is_dir (m_mode meta) = true -> Z.land (m_mode meta) S_ISVTX <> 0 -> own)
       /\ access_check meta c acl false true false = true)
      \/ (idx = IDX_ACL_ACCESS /\ own)
      \/ (idx = IDX_ACL_DEFAULT /\ own /\ is_dir (m_mode meta) = true)
      \/ (idx = IDX_TRUSTED /\ euid c = 0)).
Proof.
  cbv zeta. unfold may_write_xattr. unfold IDX_USER, IDX_ACL_ACCESS, IDX_ACL_DEFAULT, IDX_TRUSTED.
  destruct (is_lnk (m_mode meta)); [naive_solver|].
  destruct (Z.eqb_spec idx 1) as [->|H1].
  { destruct (Z.eqb_spec (euid c) (m_uid meta)), (Z.eqb_spec (euid c) 0), (Z.eqb_spec (Z.land (m_mode meta) S_ISVTX) 0),
      (is_reg (m_mode meta)), (is_dir (m_mode meta)), (access_check meta c acl false true false); cbn; naive_solver. }
  destruct (Z.eqb_spec idx 2) as [->|H2];
    [|destruct (Z.eqb_spec idx 3) as [->|H3]; [|destruct (Z.eqb_spec idx 4) as [->|H4]]];
    destruct (Z.eqb_spec (euid c) (m_uid meta)), (Z.eqb_spec (euid c) 0), (is_dir (m_mode meta)); cbn; naive_solver.
Qed.
