(* ===== verification/Port.v ===== *)
(** * IPC ports: the hash table, the queues and their wake-ups

    Models [src/ipc/src/message.rs], [src/ipc/src/port.rs] and
    [src/ipc/src/channel.rs].  The kernel state is the port table together with
    the run queue, because [send] and [release_by_owner] wake tasks.  Direct
    handlers are function pointers of other crates: a parameter ([Handler],
    [run]) that may itself change the kernel state. *)
From S2P Require Import Prelude KLib PidMap Task RunQueue Wake.

(** ** Messages and entries *)
Record Message := mkMsg {
  mtag : Z; reply_port : Z; data : list Z; has_cap : Z; cap : Z }.
Definition MESSAGE_INLINE_BYTES : nat := 440.
Definition msg_empty : Message := mkMsg 0 U32_MAX (replicate MESSAGE_INLINE_BYTES 0) 0 0.

Definition MAX_PORTS : Z := 65536.
Definition QUEUE_DEPTH : nat := 16.
Definition EMPTY_ID : Z := 0.
Definition TOMBSTONE_ID : Z := U32_MAX.
Definition LIVE_BUCKETS : nat := 512.
Definition PROBE_LIMIT : nat := 16.
Definition BATCH : nat := 64.

Inductive SendError := PortNotFound | QueueFull.

Section ports.
Context {Handler : Type}.

Record PortEntry := mkEntry {
  p_id : Z; owner_pid : Z; queue : list (option Message); head : nat; tail : nat;
  handler : option Handler }.

Definition entry_empty : PortEntry := mkEntry EMPTY_ID 0 (replicate QUEUE_DEPTH None) 0 0 None.
Definition tombstone : PortEntry := mkEntry TOMBSTONE_ID 0 (replicate QUEUE_DEPTH None) 0 0 None.

Definition is_free (e : PortEntry) : bool := p_id e =? EMPTY_ID.
Definition is_tombstone (e : PortEntry) : bool := p_id e =? TOMBSTONE_ID.
Definition is_available (e : PortEntry) : bool := is_free e || is_tombstone e.

Definition enqueue (e : PortEntry) (msg : Message) : bool * PortEntry :=
  let next := ((tail e + 1) mod QUEUE_DEPTH)%nat in
  if (next =? head e)%nat then (false, e)
  else (true, mkEntry (p_id e) (owner_pid e) (<[tail e := Some msg]> (queue e)) (head e) next (handler e)).

Definition dequeue (e : PortEntry) : option Message * PortEntry :=
  if (head e =? tail e)%nat then (None, e)
  else (mjoin (queue e !! head e),
        mkEntry (p_id e) (owner_pid e) (<[head e := None]> (queue e))
          ((head e + 1) mod QUEUE_DEPTH)%nat (tail e) (handler e)).

(** ** The table *)
Record PortTable := mkTable { buckets : list PortEntry; next_id : Z }.

Definition table_new : PortTable := mkTable (replicate LIVE_BUCKETS entry_empty) 0.

Definition bucket (t : PortTable) (idx : nat) : PortEntry := nth idx (buckets t) entry_empty.
Definition set_bucket (idx : nat) (e : PortEntry) (t : PortTable) : PortTable :=
  mkTable (<[idx := e]> (buckets t)) (next_id t).

(** The [i]-th probe of an id. *)
Definition slot_of (id : Z) (i : nat) : nat :=
  ((Z.to_nat id mod LIVE_BUCKETS + i) mod LIVE_BUCKETS)%nat.

Fixpoint probe (t : PortTable) (port_id : Z) (ps : list nat) : option nat :=
  match ps with
  | [] => None
  | i :: ps =>
      let idx := slot_of port_id i in
      if is_free (bucket t idx) then None
      else if is_tombstone (bucket t idx) then probe t port_id ps
      else if p_id (bucket t idx) =? port_id then Some idx
      else probe t port_id ps
  end.
Definition find (t : PortTable) (port_id : Z) : option nat := probe t port_id (seq 0 PROBE_LIMIT).
Definition find_mut (t : PortTable) (port_id : Z) : option nat := probe t port_id (seq 0 PROBE_LIMIT).

Definition occupancy (t : PortTable) : nat :=
  length (List.filter (fun b => negb (is_available b)) (buckets t)).

(** The first available bucket of an id's probe window. *)
Fixpoint probe_free (t : PortTable) (id : Z) (ps : list nat) : option nat :=
  match ps with
  | [] => None
  | i :: ps => if is_available (bucket t (slot_of id i)) then Some (slot_of id i) else probe_free t id ps
  end.

Definition id_of_raw (id_raw : Z) : Z := id_raw mod (MAX_PORTS - 1) + 1.

Fixpoint alloc_loop (fuel : nat) (t : PortTable) (owner : Z) : option (Z * nat) * PortTable :=
  match fuel with
  | O => (None, t)
  | S f =>
      let id := id_of_raw (next_id t) in
      let t := mkTable (buckets t) (wrap64 (next_id t + 1)) in
      match probe_free t id (seq 0 PROBE_LIMIT) with
      | Some idx =>
          (Some (id, idx),
           set_bucket idx (mkEntry id owner (map (fun _ => None) (queue (bucket t idx))) 0 0 None) t)
      | None => alloc_loop f t owner
      end
  end.
Definition alloc (t : PortTable) (owner : Z) : option (Z * nat) * PortTable :=
  alloc_loop (Z.to_nat MAX_PORTS) t owner.

Definition create (pid : Z) (t : PortTable) : option Z * PortTable :=
  let '(r, t) := alloc t pid in (fst <$> r, t).

Definition close (port : Z) (t : PortTable) : PortTable :=
  match find_mut t port with
  | Some idx => set_bucket idx tombstone t
  | None => t
  end.

Definition census (t : PortTable) : nat * nat := (occupancy t, LIVE_BUCKETS).

Definition register_handler (port : Z) (h : Handler) (t : PortTable) : bool * PortTable :=
  match find_mut t port with
  | Some idx =>
      let b := bucket t idx in
      (true, set_bucket idx (mkEntry (p_id b) (owner_pid b) (queue b) (head b) (tail b) (Some h)) t)
  | None => (false, t)
  end.

Definition port_stats (port : Z) (t : PortTable) : option (nat * nat) :=
  match find t port with
  | Some idx =>
      let b := bucket t idx in
      Some (((tail b + QUEUE_DEPTH - head b) mod QUEUE_DEPTH)%nat, (QUEUE_DEPTH - 1)%nat)
  | None => None
  end.

Definition recv (port : Z) (t : PortTable) : option Message * PortTable :=
  match find_mut t port with
  | Some idx => let '(m, b) := dequeue (bucket t idx) in (m, set_bucket idx b t)
  | None => (None, t)
  end.

Definition recv_as (port caller_pid : Z) (t : PortTable) : option Message * PortTable :=
  match find_mut t port with
  | Some idx =>
      if negb (owner_pid (bucket t idx) =? caller_pid) then (None, t)
      else let '(m, b) := dequeue (bucket t idx) in (m, set_bucket idx b t)
  | None => (None, t)
  end.

Definition is_owner (port pid : Z) (t : PortTable) : bool :=
  default false ((fun idx => owner_pid (bucket t idx) =? pid) <$> find t port).

(** A channel: two ports, or none. *)
Definition channel_new (pid : Z) (t : PortTable) : option (Z * Z) * PortTable :=
  match create pid t with
  | (None, t) => (None, t)
  | (Some client, t) =>
      match create pid t with
      | (Some server, t) => (Some (client, server), t)
      | (None, t) => (None, close client t)
      end
  end.

(** ** Operations that wake tasks *)
Record kernel := mkKernel { ports : PortTable; rq : RunQueue }.

(** [sched::unblock_port]; kicking an idle CPU has no state here. *)
Definition wake_port (port : Z) (q : RunQueue) : RunQueue := (unblock_port port q).1.

Section send.
Context (run : Handler -> Message -> Z -> Z -> kernel -> Message * kernel) (current_pid : Z).

(** [send] calls itself for the reply of a handler, whose port may have a
    handler too: [None] when the calls nest deeper than [fuel]. *)
Fixpoint send (fuel : nat) (port : Z) (msg : Message) (k : kernel) : option (result unit SendError * kernel) :=
  match fuel with
  | O => None
  | S f =>
      match find_mut (ports k) port with
      | None => Some (Err PortNotFound, k)
      | Some idx =>
          match handler (bucket (ports k) idx) with
          | Some h =>
              let target_port := p_id (bucket (ports k) idx) in
              let '(reply, k) := run h msg current_pid target_port k in
              if negb (reply_port msg =? U32_MAX) then
                match send f (reply_port msg) reply k with
                | Some (_, k) => Some (Ok tt, k)
                | None => None
                end
              else Some (Ok tt, k)
          | None =>
              match enqueue (bucket (ports k) idx) msg with
              | (true, b) =>
                  let t := set_bucket idx b (ports k) in
                  if negb (owner_pid b =? current_pid) then Some (Ok tt, mkKernel t (wake_port port (rq k)))
                  else Some (Ok tt, mkKernel t (rq k))
              | (false, _) => Some (Err QueueFull, k)
              end
          end
      end
  end.
End send.

(** One pass under the table lock: at most [BATCH] buckets are closed. *)
Fixpoint release_pass (pid : Z) (bs : list PortEntry) (n_closed : nat) : list PortEntry * list Z :=
  match bs with
  | [] => ([], [])
  | b :: bs =>
      if (n_closed =? BATCH)%nat then (b :: bs, [])
      else if negb (is_free b) && negb (is_tombstone b) && (owner_pid b =? pid) then
        let '(bs, closed) := release_pass pid bs (S n_closed) in (tombstone :: bs, p_id b :: closed)
      else let '(bs, closed) := release_pass pid bs n_closed in (b :: bs, closed)
  end.

(** [None] when the batches are more than [fuel]. *)
Fixpoint release_loop (fuel : nat) (pid : Z) (k : kernel) : option kernel :=
  match fuel with
  | O => None
  | S f =>
      let '(bs, closed) := release_pass pid (buckets (ports k)) 0 in
      let k := mkKernel (mkTable bs (next_id (ports k))) (foldl (fun q port => wake_port port q) (rq k) closed) in
      if (length closed <? BATCH)%nat then Some k else release_loop f pid k
  end.
Definition release_by_owner (pid : Z) (k : kernel) : option kernel := release_loop 9 pid k.

(** ** Invariant and lookups *)
Definition ring (e : PortEntry) : Ring.t Message := Ring.mk (queue e) (head e) (tail e).
Definition live (e : PortEntry) : bool := negb (is_available e).

Record ports_ok (t : PortTable) : Prop := {
  po_len : length (buckets t) = LIVE_BUCKETS;
  po_ring : forall idx e, buckets t !! idx = Some e -> Ring.wf QUEUE_DEPTH (ring e);
  po_chain : forall idx e, buckets t !! idx = Some e -> live e = true ->
    0 < p_id e < MAX_PORTS
    /\ exists i, (i < PROBE_LIMIT)%nat /\ idx = slot_of (p_id e) i
                 /\ forall j, (j < i)%nat -> is_free (bucket t (slot_of (p_id e) j)) = false;
  po_uniq : forall i j e e', buckets t !! i = Some e -> buckets t !! j = Some e' ->
    live e = true -> live e' = true -> p_id e = p_id e' -> i = j }.

(** The live entry of a port. *)
Definition port_entry (t : PortTable) (p : Z) : option PortEntry := find t p ≫= fun idx => buckets t !! idx.
(** The messages queued on a port, oldest first. *)
Definition queued (e : PortEntry) : list Message := Ring.view QUEUE_DEPTH (ring e).

End ports.
Arguments PortEntry : clear implicits.
Arguments PortTable : clear implicits.
Arguments kernel : clear implicits.

Section lemmas.
Context {Handler : Type}.
Implicit Types (t : PortTable Handler) (e : PortEntry Handler).

(** ** Probing *)
Lemma find_mut_eq t p : find_mut t p = find t p.
Proof. reflexivity. Qed.

Lemma probe_next t n p ps : probe (mkTable (buckets t) n) p ps = probe t p ps.
Proof. induction ps as [|i ps IH]; [done|]. cbn [probe]. rewrite IH. done. Qed.

Lemma port_entry_next t n p : port_entry (mkTable (buckets t) n) p = port_entry t p.
Proof. unfold port_entry, find. by rewrite probe_next. Qed.

Lemma slot_of_lt id i : (slot_of id i < LIVE_BUCKETS)%nat.
Proof. apply Nat.mod_upper_bound. done. Qed.

Lemma slot_of_inj id i j : (i < PROBE_LIMIT)%nat -> (j < PROBE_LIMIT)%nat -> slot_of id i = slot_of id j -> i = j.
Proof.
  unfold slot_of. set (s := (Z.to_nat id mod LIVE_BUCKETS)%nat).
  assert (s < LIVE_BUCKETS)%nat as Hs by (apply Nat.mod_upper_bound; done).
  intros Hi Hj. unfold PROBE_LIMIT in *.
  rewrite !(Ring.mod_cases LIVE_BUCKETS) by (unfold LIVE_BUCKETS in *; lia).
  unfold LIVE_BUCKETS in *. repeat case_decide; lia.
Qed.

Lemma bucket_lookup t idx e : buckets t !! idx = Some e -> bucket t idx = e.
Proof. intros H. unfold bucket. by rewrite nth_lookup, H. Qed.

Lemma lookup_bucket t idx :
  ports_ok t -> (idx < LIVE_BUCKETS)%nat -> buckets t !! idx = Some (bucket t idx).
Proof.
  intros Hok Hi. rewrite <- (po_len t Hok) in Hi. apply lookup_lt_is_Some in Hi as [e He].
  by rewrite (bucket_lookup t idx e).
Qed.

Lemma live_cases e : live e = true <-> is_free e = false /\ is_tombstone e = false.
Proof. unfold live, is_available. destruct (is_free e), (is_tombstone e); naive_solver. Qed.

Lemma probe_found t p ps idx :
  probe t p ps = Some idx -> (exists i, i ∈ ps /\ idx = slot_of p i) /\ live (bucket t idx) = true /\ p_id (bucket t idx) = p.
Proof.
  induction ps as [|i ps IH]; [done|]. cbn [probe]. intros H.
  destruct (is_free (bucket t (slot_of p i))) eqn:E1; [done|].
  destruct (is_tombstone (bucket t (slot_of p i))) eqn:E2;
    [|destruct (Z.eqb_spec (p_id (bucket t (slot_of p i))) p) as [E3|E3]].
  2:{ injection H as <-. split; [exists i; split; [left|done]|]. split; [by apply live_cases|done]. }
  all: destruct (IH H) as ((j & Hj & ->) & H2); (split; [exists j; split; [by right|done]|done]).
Qed.

(** Probing passes every non-free bucket that does not hold the port. *)
Lemma probe_reaches t p l1 i l2 :
  (forall j, j ∈ l1 -> is_free (bucket t (slot_of p j)) = false
                       /\ (live (bucket t (slot_of p j)) = true -> p_id (bucket t (slot_of p j)) <> p)) ->
  live (bucket t (slot_of p i)) = true -> p_id (bucket t (slot_of p i)) = p ->
  probe t p (l1 ++ i :: l2) = Some (slot_of p i).
Proof.
  intros H1 Hl Hp. induction l1 as [|j l1 IH]; cbn [app probe].
  - apply live_cases in Hl as [-> ->]. by rewrite (proj2 (Z.eqb_eq _ _) Hp).
  - destruct (H1 j (list_elem_of_here _ _)) as [Hf Hne]. rewrite Hf.
    assert (probe t p (l1 ++ i :: l2) = Some (slot_of p i)) as IH' by (apply IH; intros k Hk; apply H1; by right).
    destruct (is_tombstone (bucket t (slot_of p j))) eqn:E; [done|].
    rewrite (proj2 (Z.eqb_neq _ _)); [done|]. apply Hne. by apply live_cases.
Qed.

(** Lookup finds exactly the live bucket of a port. *)
Lemma find_iff t p idx :
  ports_ok t ->
  find t p = Some idx <-> exists e, buckets t !! idx = Some e /\ live e = true /\ p_id e = p.
Proof.
  intros Hok. split.
  - intros ((i & _ & ->) & Hl & Hp)%probe_found. eexists.
    split; [apply lookup_bucket; [done|apply slot_of_lt]|done].
  - intros (e & He & Hl & <-). destruct (po_chain t Hok idx e He Hl) as (_ & i & Hi & -> & Hf).
    unfold find. replace (seq 0 PROBE_LIMIT) with (seq 0 i ++ i :: seq (S i) (PROBE_LIMIT - S i)).
    + pose proof (bucket_lookup t _ e He) as Eb. apply probe_reaches; [|by rewrite Eb|by rewrite Eb].
      intros j Hj%elem_of_seq. split; [apply Hf; lia|]. intros Hl' Hp.
      assert (slot_of (p_id e) j = slot_of (p_id e) i) as E%slot_of_inj.
      { eapply (po_uniq t Hok); [apply lookup_bucket; [done|apply slot_of_lt]|exact He|done..]. }
      all: lia.
    + rewrite cons_seq, <- seq_app. f_equal. lia.
Qed.

Lemma port_entry_iff t p e :
  ports_ok t ->
  port_entry t p = Some e <-> exists idx, buckets t !! idx = Some e /\ live e = true /\ p_id e = p.
Proof.
  intros Hok. unfold port_entry. rewrite bind_Some. split.
  - intros (idx & Hf & He). exists idx. apply find_iff in Hf as (e' & He' & ? & ?); [|done]. naive_solver.
  - intros (idx & He & Hl & Hp). exists idx. split; [|done]. apply find_iff; eauto.
Qed.

(** The bucket an operation works on. *)
Lemma port_entry_find t p e :
  ports_ok t -> port_entry t p = Some e ->
  exists idx, find t p = Some idx /\ buckets t !! idx = Some e /\ bucket t idx = e /\ live e = true /\ p_id e = p.
Proof.
  intros Hok (idx & He & Hl & Hp)%port_entry_iff; [|done]. exists idx. split; [apply find_iff; eauto|].
  split; [done|]. split; [by apply bucket_lookup|done].
Qed.

Lemma port_entry_none t p : ports_ok t -> port_entry t p = None -> find t p = None.
Proof.
  intros Hok H. destruct (find t p) as [idx|] eqn:E; [|done].
  pose proof E as (e & He & _)%find_iff; [|done]. unfold port_entry in H. rewrite E in H. cbn in H. congruence.
Qed.

(** ** Writing one bucket *)
Lemma bucket_set t idx e j :
  (idx < length (buckets t))%nat ->
  bucket (set_bucket idx e t) j = if decide (idx = j) then e else bucket t j.
Proof.
  intros Hi. unfold bucket, set_bucket. cbn [buckets]. rewrite !nth_lookup. case_decide as E.
  - subst. by rewrite list_lookup_insert_eq.
  - by rewrite list_lookup_insert_ne.
Qed.

Lemma set_lookup t idx e j e' :
  buckets (set_bucket idx e t) !! j = Some e' -> (j = idx /\ e' = e) \/ (j <> idx /\ buckets t !! j = Some e').
Proof.
  unfold set_bucket. cbn [buckets]. intros H. destruct (decide (idx = j)) as [->|Hne].
  - apply list_lookup_insert_Some in H. naive_solver.
  - rewrite list_lookup_insert_ne in H by done. right. split; congruence.
Qed.

(** A bucket that lies on the probe chain of [id]. *)
Definition on_chain t (idx : nat) (id : Z) : Prop :=
  0 < id < MAX_PORTS
  /\ exists i, (i < PROBE_LIMIT)%nat /\ idx = slot_of id i
               /\ forall j, (j < i)%nat -> is_free (bucket t (slot_of id j)) = false.

(** A write that does not free the bucket, and leaves it dead or live for a port
    that is on its chain and nowhere else, keeps the invariant. *)
Lemma ports_write t idx e' :
  ports_ok t -> (idx < LIVE_BUCKETS)%nat -> is_free e' = false -> Ring.wf QUEUE_DEPTH (ring e') ->
  (live e' = true -> on_chain t idx (p_id e')
     /\ forall j x, j <> idx -> buckets t !! j = Some x -> live x = true -> p_id x <> p_id e') ->
  ports_ok (set_bucket idx e' t).
Proof.
  intros Hok Hlt Hf Hr Hid. pose proof (po_len t Hok) as Hlen. split.
  - unfold set_bucket. cbn [buckets]. by rewrite length_insert.
  - intros j x [[-> ->]|[_ Hx]]%set_lookup; [done|by eapply (po_ring t Hok)].
  - intros j x Hx Hlx. assert (on_chain t j (p_id x)) as (H1 & i & H2 & H3 & H4).
    { apply set_lookup in Hx as [[-> ->]|[_ Hx]]; [by apply Hid|by apply (po_chain t Hok)]. }
    split; [done|]. exists i. split; [done|]. split; [done|]. intros k Hk.
    rewrite bucket_set by lia. case_decide; [done|auto].
  - intros i j x y Hx Hy Lx Ly Exy.
    apply set_lookup in Hx as [[-> ->]|[Ni Hx]], Hy as [[-> ->]|[Nj Hy]]; [done| | |by eapply (po_uniq t Hok)].
    + by destruct (proj2 (Hid Lx) j y Nj Hy Ly).
    + by destruct (proj2 (Hid Ly) i x Ni Hx Lx).
Qed.

(** An update in place never changes the port the bucket is live for. *)
Lemma ok_update t idx e e' :
  ports_ok t -> buckets t !! idx = Some e -> live e = true ->
  is_free e' = false -> Ring.wf QUEUE_DEPTH (ring e') -> (live e' = true -> p_id e' = p_id e) ->
  ports_ok (set_bucket idx e' t).
Proof.
  intros Hok He Hl Hf Hr Hid. pose proof (lookup_lt_Some _ _ _ He) as Hlt. rewrite (po_len t Hok) in Hlt.
  apply ports_write; try done. intros Hl'. rewrite Hid by done. split; [by apply (po_chain t Hok)|].
  intros j x Hj Hx Lx E. by destruct Hj, (po_uniq t Hok j idx x e).
Qed.

Lemma entry_update t idx e e' p' :
  ports_ok t -> ports_ok (set_bucket idx e' t) -> buckets t !! idx = Some e -> live e = true -> live e' = true ->
  p_id e' = p_id e ->
  port_entry (set_bucket idx e' t) p' = if decide (p' = p_id e) then Some e' else port_entry t p'.
Proof.
  intros Hok Hok' He Hl Hl' Hid. pose proof (lookup_lt_Some _ _ _ He) as Hlt. case_decide as E.
  - subst. apply port_entry_iff; [done|]. exists idx. unfold set_bucket. cbn [buckets].
    by rewrite list_lookup_insert_eq.
  - apply option_eq. intros x. rewrite !port_entry_iff by done. split.
    + intros (j & [[-> ->]|[Hj Hx]]%set_lookup & Lx & Px); [congruence|eauto].
    + intros (j & Hx & Lx & Px). exists j. split; [|done]. unfold set_bucket. cbn [buckets].
      rewrite list_lookup_insert_ne; [done|]. intros ->. congruence.
Qed.

Lemma entry_bury t idx e e' p' :
  ports_ok t -> ports_ok (set_bucket idx e' t) -> buckets t !! idx = Some e -> live e = true -> live e' = false ->
  port_entry (set_bucket idx e' t) p' = if decide (p' = p_id e) then None else port_entry t p'.
Proof.
  intros Hok Hok' He Hl Hl'. pose proof (lookup_lt_Some _ _ _ He) as Hlt. apply option_eq. intros x.
  rewrite port_entry_iff by done. case_decide as E.
  - split; [|done]. intros (j & [[-> ->]|[Hj Hx]]%set_lookup & Lx & Px); [congruence|].
    destruct Hj. eapply (po_uniq t Hok); [done..|congruence].
  - rewrite port_entry_iff by done. split.
    + intros (j & [[-> ->]|[Hj Hx]]%set_lookup & Lx & Px); [congruence|eauto].
    + intros (j & Hx & Lx & Px). exists j. split; [|done]. unfold set_bucket. cbn [buckets].
      rewrite list_lookup_insert_ne; [done|]. intros ->. congruence.
Qed.

(** ** Allocation *)
Lemma probe_free_spec t id : forall n k,
  match probe_free t id (seq k n) with
  | Some idx => exists i, (k <= i < k + n)%nat /\ idx = slot_of id i /\ is_available (bucket t idx) = true
      /\ forall j, (k <= j < i)%nat -> is_available (bucket t (slot_of id j)) = false
  | None => forall i, (k <= i < k + n)%nat -> is_available (bucket t (slot_of id i)) = false
  end.
Proof.
  induction n as [|n IH]; intros k; cbn [seq probe_free]; [intros; lia|].
  destruct (is_available (bucket t (slot_of id k))) eqn:E.
  - exists k. split; [lia|]. split; [done|]. split; [done|]. intros; lia.
  - specialize (IH (S k)). destruct (probe_free t id (seq (S k) n)) as [idx|].
    + destruct IH as (i & Hi & -> & Ha & Hj). exists i. split; [lia|]. split; [done|]. split; [done|].
      intros j Hk. destruct (decide (j = k)) as [->|]; [done|apply Hj; lia].
    + intros i Hi. destruct (decide (i = k)) as [->|]; [done|apply IH; lia].
Qed.

Lemma id_of_raw_range r : 0 < id_of_raw r < MAX_PORTS.
Proof. unfold id_of_raw, MAX_PORTS. pose proof (Z.mod_pos_bound r (65536 - 1)). lia. Qed.

Lemma ok_next t n : ports_ok t -> ports_ok (mkTable (buckets t) n).
Proof. intros [H1 H2 H3 H4]. by split. Qed.

Definition new_entry (id owner : Z) (q : list (option Message)) : PortEntry Handler :=
  mkEntry id owner (map (fun _ => None) q) 0 0 None.

Lemma alloc_some fuel : forall t owner id idx t',
  alloc_loop fuel t owner = (Some (id, idx), t') ->
  exists n, let t1 := mkTable (buckets t) n in
    probe_free t1 id (seq 0 PROBE_LIMIT) = Some idx /\ 0 < id < MAX_PORTS
    /\ t' = set_bucket idx (new_entry id owner (queue (bucket t1 idx))) t1.
Proof.
  induction fuel as [|f IH]; intros t owner id idx t'; cbn [alloc_loop]; [done|].
  set (t1 := mkTable (buckets t) _). destruct (probe_free t1 (id_of_raw (next_id t)) _) as [i|] eqn:E.
  - intros [= <- <- <-]. exists (wrap64 (next_id t + 1)). split; [done|]. split; [apply id_of_raw_range|done].
  - intros (n & H)%IH. by exists n.
Qed.

Lemma cleared_ring (q : list (option Message)) (h : option Handler) id owner :
  length q = QUEUE_DEPTH -> Ring.wf QUEUE_DEPTH (ring (mkEntry id owner (map (fun _ => None) q) 0 0 h))
                            /\ queued (mkEntry id owner (map (fun _ => None) q) 0 0 h) = [].
Proof.
  intros Hq. replace (map (fun _ => None) q) with (replicate QUEUE_DEPTH (@None Message)).
  - split; [apply Ring.wf_empty; unfold QUEUE_DEPTH; lia|reflexivity].
  - rewrite <- Hq. clear. induction q as [|x q IH]; [done|]. cbn. by rewrite <- IH.
Qed.

Lemma new_entry_live id owner q : 0 < id < MAX_PORTS -> live (new_entry id owner q) = true.
Proof.
  intros H. apply live_cases. unfold is_free, is_tombstone, new_entry, EMPTY_ID, TOMBSTONE_ID, U32_MAX, MAX_PORTS in *.
  cbn [p_id]. rewrite !Z.eqb_neq. lia.
Qed.

(** Creating a port whose id is not in use. *)
Lemma alloc_loop_ok fuel t owner id idx t' :
  ports_ok t -> alloc_loop fuel t owner = (Some (id, idx), t') -> port_entry t id = None ->
  ports_ok t'
  /\ (exists e, port_entry t' id = Some e /\ owner_pid e = owner /\ queued e = [] /\ handler e = None)
  /\ forall p, p <> id -> port_entry t' p = port_entry t p.
Proof.
  intros Hok Ha Hfresh. apply alloc_some in Ha as (n & Hp & Hid & ->).
  set (t1 := mkTable (buckets t) n) in *. assert (ports_ok t1) as Hok1 by by apply ok_next.
  pose proof (probe_free_spec t1 id PROBE_LIMIT 0) as Hs. rewrite Hp in Hs. destruct Hs as (i & Hi & -> & Hav & Hj).
  set (e := new_entry _ _ _). pose proof (slot_of_lt id i) as Hlt.
  pose proof (lookup_bucket t1 _ Hok1 Hlt) as Hb.
  destruct (cleared_ring (queue (bucket t1 (slot_of id i))) None id owner) as [Hw Hq];
    [apply (po_ring t1 Hok1 _ _ Hb)|].
  assert (live e = true) as Le by by apply new_entry_live.
  assert (forall j x, buckets t1 !! j = Some x -> live x = true -> p_id x <> id) as Hno.
  { intros j x Hx Lx Ex. assert (port_entry t id = Some x) as H by (apply port_entry_iff; [done|]; eauto). congruence. }
  assert (ports_ok (set_bucket (slot_of id i) e t1)) as Hok'.
  { apply ports_write; try done; [by apply live_cases in Le as [? _]|]. intros _. split; [|by eauto].
    split; [done|]. exists i. split; [lia|]. split; [done|]. intros j Hj'. specialize (Hj j ltac:(lia)).
    unfold is_available in Hj. by apply orb_false_iff in Hj as [? _]. }
  split; [done|]. split.
  - exists e. split; [|done]. apply port_entry_iff; [done|]. exists (slot_of id i). split; [|done].
    unfold set_bucket. cbn [buckets]. rewrite list_lookup_insert_eq; [done|]. by rewrite (po_len t1 Hok1).
  - intros p Hne. rewrite <- (port_entry_next t n p). fold t1. apply option_eq. intros x.
    rewrite !port_entry_iff by done. split.
    + intros (j & [[-> ->]|[Hj' Hx]]%set_lookup & Lx & Px); [by destruct Hne; rewrite <- Px|eauto].
    + intros (j & Hx & Lx & Px). exists j. split; [|done]. unfold set_bucket. cbn [buckets].
      rewrite list_lookup_insert_ne; [done|]. intros <-. rewrite Hb in Hx. injection Hx as <-.
      unfold live in Lx. by rewrite Hav in Lx.
Qed.
End lemmas.

(** ** Waking a set of ports *)
Definition waits_on (t : Task) (p : Z) : bool := is_blocked_on t p && state_eqb (state t) Blocked.

Lemma unblocks_all p t : unblocks p POLL_TAG_ALL t = waits_on t p.
Proof. unfold unblocks, waits_on. by rewrite Z.eqb_refl, orb_true_r, andb_true_r. Qed.

Lemma wake_port_spec p q :
  rq_ok q ->
  rq_ok (wake_port p q)
  /\ forall j, slot (wake_port p q) j
       = (fun t => if waits_on t p then wake_task (min_vruntime q) t else t) <$> slot q j.
Proof.
  intros Hq. destruct (unblock_scan p POLL_TAG_ALL q Hq) as (H1 & _ & H3). split; [done|].
  intros j. etrans; [apply H1|]. destruct (slot q j) as [t|]; [|done]. cbn. unfold unblock_map.
  by rewrite unblocks_all.
Qed.

Lemma wake_all_ports L : forall q,
  rq_ok q ->
  let q' := foldl (fun q port => wake_port port q) q L in
  rq_ok q'
  /\ forall j t, slot q j = Some t ->
       ((exists p, p ∈ L /\ waits_on t p = true) -> exists t', slot q' j = Some t' /\ state t' = Ready)
       /\ ((forall p, p ∈ L -> waits_on t p = false) -> slot q' j = Some t).
Proof.
  induction L as [|p L IH]; intros q Hq; cbv zeta; cbn [foldl].
  { split; [done|]. intros j t Hj. split; [|done]. by intros (? & ?%elem_of_nil & _). }
  destruct (wake_port_spec p q Hq) as [Hq1 Hs]. destruct (IH _ Hq1) as [Hq2 H]. split; [done|].
  intros j t Hj. specialize (Hs j). rewrite Hj in Hs. cbn in Hs. destruct (waits_on t p) eqn:E.
  - destruct (H j _ Hs) as [_ Hun]. set (t1 := wake_task _ t) in *.
    assert (state t1 = Ready) as Hr by apply wake_task_fields.
    split; [|intros Hno; rewrite Hno in E by left; done]. intros _. exists t1. split; [|done]. apply Hun.
    intros p' _. unfold waits_on. rewrite Hr. apply andb_false_r.
  - destruct (H j t Hs) as [H1 H2]. split.
    + intros (p' & [->|Hp']%elem_of_cons & Hw); [congruence|]. apply H1. eauto.
    + intros Hno. apply H2. intros p' Hp'. apply Hno. by right.
Qed.

Section ops.
Context {Handler : Type}.
Implicit Types (t : PortTable Handler) (e : PortEntry Handler) (k : kernel Handler).

(** ** Queues *)
Lemma enqueue_ring e msg :
  enqueue e msg
  = let '(b, r) := Ring.push QUEUE_DEPTH (ring e) msg in
    (b, if b then mkEntry (p_id e) (owner_pid e) (Ring.buf r) (Ring.head r) (Ring.tail r) (handler e) else e).
Proof. unfold enqueue, Ring.push, ring. cbn [Ring.head Ring.tail Ring.buf]. by case_match. Qed.

Lemma enqueue_spec' e msg :
  Ring.wf QUEUE_DEPTH (ring e) ->
  match enqueue e msg with
  | (true, e') => Ring.wf QUEUE_DEPTH (ring e') /\ queued e' = queued e ++ [msg] /\ p_id e' = p_id e
      /\ owner_pid e' = owner_pid e /\ handler e' = handler e /\ length (queued e) <> (QUEUE_DEPTH - 1)%nat
  | (false, e') => e' = e /\ length (queued e) = (QUEUE_DEPTH - 1)%nat
  end.
Proof.
  intros Hw. rewrite enqueue_ring. pose proof (Ring.push_full QUEUE_DEPTH (ring e) msg Hw) as Hf.
  pose proof (Ring.push_spec QUEUE_DEPTH (ring e) msg) as Hs. unfold queued at 3 4. rewrite Ring.view_length by done.
  destruct (Ring.push QUEUE_DEPTH (ring e) msg) as [[] r]; cbn [fst] in Hf.
  - destruct (Hs r Hw eq_refl) as [H1 H2]. destruct r as [bf hd tl]. cbn [Ring.buf Ring.head Ring.tail].
    repeat split; try done; try apply H1. intros E. by apply Hf in E.
  - split; [done|]. by apply Hf.
Qed.

Lemma dequeue_spec e :
  Ring.wf QUEUE_DEPTH (ring e) ->
  match dequeue e with
  | (Some m, e') => Ring.wf QUEUE_DEPTH (ring e') /\ queued e = m :: queued e' /\ p_id e' = p_id e
      /\ owner_pid e' = owner_pid e /\ handler e' = handler e
  | (None, e') => e' = e /\ queued e = []
  end.
Proof.
  intros Hw. pose proof (Ring.pop_spec QUEUE_DEPTH (ring e) Hw) as H. unfold dequeue. unfold Ring.pop, ring in H.
  cbn [Ring.head Ring.tail Ring.buf] in H. destruct (Nat.eqb (head e) (tail e)).
  - destruct H as [_ H]. done.
  - destruct (mjoin (queue e !! head e)) as [m|].
    + destruct H as [H1 H2]. done.
    + destruct H as [H _]. exfalso. apply (f_equal Ring.head) in H. cbn [Ring.head] in H.
      destruct Hw as (_ & Hh & _). unfold ring, QUEUE_DEPTH in *. cbn [Ring.head] in Hh.
      rewrite (Ring.mod_cases 16) in H by lia. case_decide; lia.
Qed.

(** ** Closing *)
Lemma tombstone_dead : live (@tombstone Handler) = false.
Proof. reflexivity. Qed.

Lemma ok_bury t idx e : ports_ok t -> buckets t !! idx = Some e -> live e = true -> ports_ok (set_bucket idx tombstone t).
Proof.
  intros Hok He Hl. apply (ok_update t idx e); try done. apply Ring.wf_empty. unfold QUEUE_DEPTH. lia.
Qed.

Lemma close_ok t p :
  ports_ok t ->
  ports_ok (close p t) /\ forall p', port_entry (close p t) p' = if decide (p' = p) then None else port_entry t p'.
Proof.
  intros Hok. unfold close. rewrite find_mut_eq. destruct (find t p) as [idx|] eqn:E.
  - pose proof E as (e & He & Hl & <-)%find_iff; [|done]. pose proof (ok_bury t idx e Hok He Hl) as Hok'.
    split; [done|]. intros p'. by apply entry_bury.
  - split; [done|]. intros p'. case_decide as Ep; [|done]. subst. unfold port_entry. by rewrite E.
Qed.

(** ** Releasing the ports of a task *)
Definition owned (pid : Z) e : bool := live e && (owner_pid e =? pid).
Definition bury (pid : Z) e : PortEntry Handler := if owned pid e then tombstone else e.

Lemma owned_cond pid e :
  negb (is_free e) && negb (is_tombstone e) && (owner_pid e =? pid) = owned pid e.
Proof. unfold owned, live, is_available. by rewrite negb_orb. Qed.

Lemma bury_tomb pid : bury pid tombstone = tombstone.
Proof. unfold bury, owned. by rewrite tombstone_dead. Qed.

Lemma bury_none pid bs : List.filter (owned pid) bs = [] -> map (bury pid) bs = bs.
Proof.
  induction bs as [|b bs IH]; [done|]. cbn [List.filter map]. unfold bury at 1. destruct (owned pid b); [done|].
  intros H. by rewrite IH.
Qed.

Lemma release_pass_spec pid bs : forall n,
  (n <= BATCH)%nat ->
  let r := release_pass pid bs n in
  map (bury pid) r.1 = map (bury pid) bs
  /\ r.2 ++ map p_id (List.filter (owned pid) r.1) = map p_id (List.filter (owned pid) bs)
  /\ (n + length r.2 <= BATCH)%nat
  /\ ((n + length r.2 < BATCH)%nat -> List.filter (owned pid) r.1 = []).
Proof.
  induction bs as [|b bs IH]; intros n Hn; cbv zeta; cbn [release_pass].
  { cbn. split; [done|]. split; [done|]. split; [lia|done]. }
  destruct (Nat.eqb_spec n BATCH) as [->|Hne]; [cbn [fst snd length app]; split; [done|]; split; [done|]; split; [lia|intros; lia]|].
  rewrite owned_cond. cbn [List.filter map]. destruct (owned pid b) eqn:E.
  - destruct (IH (S n)) as (H1 & H2 & H3 & H4); [lia|]. destruct (release_pass pid bs (S n)) as [bs' c].
    cbn [fst snd map List.filter length app] in *. unfold owned at 1 3. rewrite tombstone_dead. cbn [andb].
    rewrite H1, <- H2, bury_tomb. unfold bury at 2. rewrite E.
    split; [done|]. split; [done|]. split; [lia|]. intros; apply H4; lia.
  - destruct (IH n) as (H1 & H2 & H3 & H4); [lia|]. destruct (release_pass pid bs n) as [bs' c].
    cbn [fst snd map List.filter length app] in *. rewrite E, H1. done.
Qed.

Lemma release_loop_spec pid : forall fuel k,
  (length (List.filter (owned pid) (buckets (ports k))) < fuel * BATCH)%nat ->
  release_loop fuel pid k
  = Some (mkKernel (mkTable (map (bury pid) (buckets (ports k))) (next_id (ports k)))
            (foldl (fun q port => wake_port port q) (rq k) (map p_id (List.filter (owned pid) (buckets (ports k)))))).
Proof.
  induction fuel as [|f IH]; intros k Hf; [lia|]. cbn [release_loop].
  destruct (release_pass_spec pid (buckets (ports k)) 0) as (H1 & H2 & H3 & H4); [unfold BATCH; lia|].
  destruct (release_pass pid (buckets (ports k)) 0) as [bs c]. cbn [fst snd Nat.add] in *.
  rewrite <- H2, <- H1, foldl_app. destruct (Nat.ltb_spec (length c) BATCH) as [Hlt|Hge].
  - rewrite H4, bury_none by auto. done.
  - assert (length (List.filter (owned pid) (buckets (ports k))) = length c + length (List.filter (owned pid) bs))%nat as Hl.
    { rewrite <- (length_map p_id), <- H2, length_app, length_map. done. }
    rewrite IH; [done|]. cbn [ports buckets]. lia.
Qed.

Lemma bury_ok pid t :
  ports_ok t ->
  let t' := mkTable (map (bury pid) (buckets t)) (next_id t) in
  ports_ok t'
  /\ forall p, port_entry t' p = port_entry t p ≫= fun e => if owner_pid e =? pid then None else Some e.
Proof.
  intros Hok. cbv zeta. set (t' := mkTable _ _).
  assert (forall i x, buckets t' !! i = Some x -> exists e, buckets t !! i = Some e /\ x = bury pid e) as Hl.
  { intros i x. unfold t'. cbn [buckets]. rewrite list_lookup_fmap. destruct (buckets t !! i); [|done].
    intros [= <-]. eauto. }
  assert (forall e, live (bury pid e) = true -> live e = true /\ bury pid e = e /\ owner_pid e <> pid) as Hlive.
  { intros e. unfold bury. destruct (owned pid e) eqn:E; [by rewrite tombstone_dead|]. intros L. split; [done|].
    split; [done|]. unfold owned in E. rewrite L in E. cbn in E. by apply Z.eqb_neq. }
  assert (ports_ok t') as Hok'.
  { split.
    - unfold t'. cbn [buckets]. rewrite length_map. apply Hok.
    - intros i x (e & He & ->)%Hl. unfold bury. case_match; [apply Ring.wf_empty; unfold QUEUE_DEPTH; lia|].
      by eapply (po_ring t Hok).
    - intros i x (e & He & ->)%Hl (Le & -> & _)%Hlive. destruct (po_chain t Hok i e He Le) as (H1 & n & H2 & H3 & H4).
      split; [done|]. exists n. split; [done|]. split; [done|]. intros j Hj. specialize (H4 j Hj). revert H4.
      pose proof (lookup_bucket t _ Hok (slot_of_lt (p_id e) j)) as Hb.
      rewrite (bucket_lookup t' (slot_of (p_id e) j) (bury pid (bucket t (slot_of (p_id e) j)))).
      + unfold bury. by case_match.
      + unfold t'. cbn [buckets]. by rewrite list_lookup_fmap, Hb.
    - intros i j x y (e & He & ->)%Hl (e' & He' & ->)%Hl (Le & -> & _)%Hlive (Le' & -> & _)%Hlive.
      by apply (po_uniq t Hok). }
  split; [done|]. intros p. apply option_eq. intros x. rewrite port_entry_iff, bind_Some by done. split.
  - intros (i & (e & He & ->)%Hl & (Le & -> & Ho)%Hlive & Hp). exists e.
    split; [apply port_entry_iff; eauto|]. by rewrite (proj2 (Z.eqb_neq _ _) Ho).
  - intros (e & He & Hx). destruct (Z.eqb_spec (owner_pid e) pid) as [|Ho]; [done|]. injection Hx as <-.
    apply port_entry_iff in He as (i & He & Le & Hp); [|done]. exists i. split; [|done]. unfold t'. cbn [buckets].
    rewrite list_lookup_fmap, He. cbn. unfold bury, owned. by rewrite (proj2 (Z.eqb_neq _ _) Ho), andb_false_r.
Qed.
End ops.

Section full.
Context {Handler : Type}.
Implicit Types (t : PortTable Handler).

Lemma alloc_none fuel : forall t owner t',
  alloc_loop fuel t owner = (None, t') -> 0 <= next_id t -> next_id t + Z.of_nat fuel < 2 ^ 64 ->
  buckets t' = buckets t
  /\ forall k, 0 <= k < Z.of_nat fuel -> forall i, (i < PROBE_LIMIT)%nat ->
       is_available (bucket t (slot_of (id_of_raw (next_id t + k)) i)) = false.
Proof.
  induction fuel as [|f IH]; intros t owner t'; cbn [alloc_loop]; [intros [= <-]; split; [done|lia]|].
  intros H H0 H1. set (t1 := mkTable (buckets t) _) in H.
  assert (next_id t1 = next_id t + 1) as Hn by (unfold t1, wrap64; cbn [next_id]; apply Z.mod_small; lia).
  pose proof (probe_free_spec t1 (id_of_raw (next_id t)) PROBE_LIMIT 0) as Hp.
  destruct (probe_free t1 _ _) as [idx|]; [done|]. destruct (IH t1 owner t' H) as [Hb Hk]; [lia|lia|].
  split; [done|]. intros k Hkr i Hi. destruct (decide (k = 0)) as [->|].
  - rewrite Z.add_0_r. apply (Hp i). lia.
  - specialize (Hk (k - 1) ltac:(lia) i Hi). rewrite Hn in Hk.
    replace (next_id t + 1 + (k - 1)) with (next_id t + k) in Hk by lia. exact Hk.
Qed.

(** 65536 consecutive raw ids start a probe at every bucket. *)
Lemma raw_covers (n : Z) (idx : nat) :
  0 <= n -> (idx < LIVE_BUCKETS)%nat -> exists k, 0 <= k < MAX_PORTS /\ slot_of (id_of_raw (n + k)) 0 = idx.
Proof.
  intros Hn Hi. set (id := if decide (idx = O) then 512 else Z.of_nat idx).
  assert (0 < id < 513) as Hid by (unfold id, LIVE_BUCKETS in *; case_decide; lia).
  pose proof (Z.mod_pos_bound (id - 1 - n) (MAX_PORTS - 1)) as Hk. set (k := (id - 1 - n) mod (MAX_PORTS - 1)) in *.
  unfold MAX_PORTS in *. exists k. split; [lia|].
  assert (id_of_raw (n + k) = id) as ->.
  { unfold id_of_raw, k, MAX_PORTS. rewrite Zplus_mod_idemp_r. replace (n + (id - 1 - n)) with (id - 1) by lia.
    rewrite Z.mod_small; lia. }
  unfold slot_of. rewrite Nat.add_0_r, Nat.Div0.mod_mod. unfold id. case_decide; [by subst|].
  rewrite Nat2Z.id. by apply Nat.mod_small.
Qed.

Lemma all_live_occupancy t : ports_ok t -> (forall idx, (idx < LIVE_BUCKETS)%nat -> is_available (bucket t idx) = false) ->
  occupancy t = LIVE_BUCKETS.
Proof.
  intros Hok H. rewrite <- (po_len t Hok). unfold occupancy. f_equal.
  assert (forall b, b ∈ buckets t -> is_available b = false) as Hb.
  { intros b (i & Hi)%list_elem_of_lookup. rewrite <- (bucket_lookup t i b Hi). apply H.
    rewrite <- (po_len t Hok). by eapply lookup_lt_Some. }
  revert Hb. generalize (buckets t). induction l as [|b l IH]; intros Hb; [done|]. cbn [List.filter].
  rewrite Hb by left. cbn [negb]. rewrite IH; [done|]. intros b' Hb'. apply Hb. by right.
Qed.

Lemma create_loop_spec fuel pid t :
  ports_ok t -> 0 <= next_id t -> next_id t + MAX_PORTS < 2 ^ 64 -> Z.of_nat fuel = MAX_PORTS ->
  match alloc_loop fuel t pid with
  | (Some (p, _), t') =>
      0 < p < MAX_PORTS
      /\ (port_entry t p = None ->
          ports_ok t'
          /\ (exists e, port_entry t' p = Some e /\ owner_pid e = pid /\ queued e = [] /\ handler e = None)
          /\ forall p', p' <> p -> port_entry t' p' = port_entry t p')
  | (None, t') => buckets t' = buckets t /\ occupancy t = LIVE_BUCKETS
  end.
Proof.
  intros Hok H0 H1 Hf. destruct (alloc_loop fuel t pid) as [[[p idx]|] t'] eqn:E.
  - split; [by apply alloc_some in E as (n & _ & H & _)|]. intros Hfresh.
    exact (alloc_loop_ok fuel t pid p idx t' Hok E Hfresh).
  - destruct (alloc_none fuel t pid t' E) as [Hb Hk]; [done|lia|]. split; [done|].
    apply all_live_occupancy; [done|]. intros idx Hi. destruct (raw_covers (next_id t) idx H0 Hi) as (k & Hkr & <-).
    apply Hk; [lia|]. unfold PROBE_LIMIT. lia.
Qed.

Lemma create_ok pid t :
  ports_ok t -> 0 <= next_id t -> next_id t + MAX_PORTS < 2 ^ 64 ->
  match create pid t with
  | (Some p, t') =>
      0 < p < MAX_PORTS
      /\ (port_entry t p = None ->
          ports_ok t'
          /\ (exists e, port_entry t' p = Some e /\ owner_pid e = pid /\ queued e = [] /\ handler e = None)
          /\ forall p', p' <> p -> port_entry t' p' = port_entry t p')
  | (None, t') => buckets t' = buckets t /\ occupancy t = LIVE_BUCKETS
  end.
Proof.
  intros Hok H0 H1. unfold create, alloc. assert (Z.of_nat (Z.to_nat MAX_PORTS) = MAX_PORTS) as Hf by reflexivity.
  revert Hf. generalize (Z.to_nat MAX_PORTS). intros fuel Hf.
  pose proof (create_loop_spec fuel pid t Hok H0 H1 Hf) as H.
  by destruct (alloc_loop fuel t pid) as [[[p idx]|] t'].
Qed.

(** ** The empty table *)
Lemma new_bucket idx e : buckets (@table_new Handler) !! idx = Some e -> e = entry_empty.
Proof. unfold table_new. cbn [buckets]. by intros [-> _]%lookup_replicate. Qed.

Lemma table_ok : ports_ok (@table_new Handler).
Proof.
  split.
  - unfold table_new. cbn [buckets]. apply length_replicate.
  - intros idx e ->%new_bucket. apply Ring.wf_empty. unfold QUEUE_DEPTH. lia.
  - intros idx e ->%new_bucket. done.
  - intros i j e e' ->%new_bucket _. done.
Qed.
End full.

(** ** Properties *)
Section claims.
Context {Handler : Type}.
Implicit Types (t : PortTable Handler) (e : PortEntry Handler) (k : kernel Handler).

(** [create] either gives the caller an id in 1..65535, and when that id was
    not in use the table is extended by exactly one port, owned by the caller,
    with an empty queue and no handler, every other port keeping its owner,
    queue and handler; or it fails, changing no bucket, which happens only when
    all 512 buckets hold live ports. *)
Theorem port_create_spec pid t :
  ports_ok t -> 0 <= next_id t -> next_id t + MAX_PORTS < 2 ^ 64 ->
  match create pid t with
  | (Some p, t') =>
      0 < p < MAX_PORTS
      /\ (port_entry t p = None ->
          ports_ok t'
          /\ (exists e, port_entry t' p = Some e /\ owner_pid e = pid /\ queued e = [] /\ handler e = None)
          /\ forall p', p' <> p -> port_entry t' p' = port_entry t p')
  | (None, t') => buckets t' = buckets t /\ occupancy t = LIVE_BUCKETS
  end.
Proof.
  intros Hok H0 H1. exact (create_ok pid t Hok H0 H1).
Qed.

(** C34: [send] to a port without a handler is a FIFO append with back-pressure:
    an unknown port is refused, a queue of fifteen messages is full and
    nothing changes, and otherwise the message becomes the last one of exactly
    that port, the table invariant is kept, and every task parked on the port
    is made Ready unless the caller is the port's owner. *)
Theorem send_spec run cur fuel p msg k :
  ports_ok (ports k) -> rq_ok (rq k) ->
  let r := send run cur (S fuel) p msg k in
  match port_entry (ports k) p with
  | None => r = Some (Err PortNotFound, k)
  | Some e =>
      handler e = None ->
      if decide (length (queued e) = 15)%nat then r = Some (Err QueueFull, k)
      else exists k' e', r = Some (Ok tt, k') /\ ports_ok (ports k') /\ rq_ok (rq k')
             /\ port_entry (ports k') p = Some e' /\ queued e' = queued e ++ [msg] /\ owner_pid e' = owner_pid e
             /\ (forall p', p' <> p -> port_entry (ports k') p' = port_entry (ports k) p')
             /\ (owner_pid e = cur -> rq k' = rq k)
             /\ (owner_pid e <> cur -> forall j tk, slot (rq k) j = Some tk ->
                   if waits_on tk p then exists tk', slot (rq k') j = Some tk' /\ state tk' = Ready
                   else slot (rq k') j = Some tk)
  end.
Proof.
  intros Hok Hq. cbv zeta. cbn [send]. rewrite find_mut_eq.
  destruct (port_entry (ports k) p) as [e|] eqn:Ee; [|by rewrite (port_entry_none _ _ Hok Ee)].
  intros Hh. destruct (port_entry_find _ _ _ Hok Ee) as (idx & -> & He & Hb & Hl & Hp). rewrite Hb, Hh.
  pose proof (enqueue_spec' e msg (po_ring _ Hok idx e He)) as Hen. destruct (enqueue e msg) as [[] e'].
  2:{ destruct Hen as [_ Hen]. by rewrite decide_True. }
  destruct Hen as (W & Q & I & O & H & L). rewrite decide_False by done.
  assert (live e' = true) as Hl' by (unfold live, is_available, is_free, is_tombstone in *; by rewrite I).
  assert (ports_ok (set_bucket idx e' (ports k))) as Hok'.
  { eapply ok_update; try done. by apply live_cases in Hl' as [? _]. }
  assert (forall p', port_entry (set_bucket idx e' (ports k)) p' = if decide (p' = p) then Some e' else port_entry (ports k) p') as Hpe.
  { intros p'. rewrite <- Hp. by apply entry_update. }
  destruct (wake_port_spec p (rq k) Hq) as [Hq' Hs].
  eexists (mkKernel (set_bucket idx e' (ports k)) (if owner_pid e' =? cur then rq k else wake_port p (rq k))), e'.
  split; [by destruct (owner_pid e' =? cur)|]. cbn [ports rq]. split; [done|].
  split; [by destruct (owner_pid e' =? cur)|]. rewrite !Hpe, decide_True by done. split; [done|]. split; [done|].
  split; [done|]. split; [intros p' Hne; by rewrite Hpe, decide_False|]. rewrite O. split.
  - intros E. by rewrite (proj2 (Z.eqb_eq _ _) E).
  - intros E j t Hj. rewrite (proj2 (Z.eqb_neq _ _) E). specialize (Hs j). rewrite Hj in Hs. cbn in Hs.
    destruct (waits_on t p); [|done]. eexists. split; [done|]. apply wake_task_fields.
Qed.

(** [recv_as] is the matching FIFO removal, and only for the owner: an unknown
    port or a caller that is not the owner gets nothing and changes nothing; the
    owner gets [None] exactly when the queue is empty, and otherwise the oldest
    message, which is removed from exactly that port. *)
Theorem recv_as_spec p caller t :
  ports_ok t ->
  let r := recv_as p caller t in
  match port_entry t p with
  | None => r = (None, t)
  | Some e =>
      if owner_pid e =? caller then
        match queued e with
        | [] => r.1 = None /\ ports_ok r.2 /\ forall p', port_entry r.2 p' = port_entry t p'
        | m :: l => r.1 = Some m /\ ports_ok r.2
            /\ (exists e', port_entry r.2 p = Some e' /\ queued e' = l /\ owner_pid e' = caller /\ handler e' = handler e)
            /\ forall p', p' <> p -> port_entry r.2 p' = port_entry t p'
        end
      else r = (None, t)
  end.
Proof.
  intros Hok. cbv zeta. unfold recv_as. rewrite find_mut_eq.
  destruct (port_entry t p) as [e|] eqn:Ee; [|by rewrite (port_entry_none _ _ Hok Ee)].
  destruct (port_entry_find _ _ _ Hok Ee) as (idx & -> & He & Hb & Hl & Hp). rewrite Hb.
  destruct (Z.eqb_spec (owner_pid e) caller) as [Ho|Ho]; cbn [negb]; [|done].
  pose proof (dequeue_spec e (po_ring _ Hok idx e He)) as Hd. destruct (dequeue e) as [[m|] e'].
  - destruct Hd as (W & -> & I & O & H). cbn [fst snd].
    assert (live e' = true) as Hl' by (unfold live, is_available, is_free, is_tombstone in *; by rewrite I).
    assert (ports_ok (set_bucket idx e' t)) as Hok'.
    { eapply ok_update; try done. by apply live_cases in Hl' as [? _]. }
    split; [done|]. split; [done|]. split.
    + exists e'. rewrite (entry_update t idx e) by done. rewrite Hp, decide_True by done. split; [done|]. split; [done|].
      split; [congruence|done].
    + intros p' Hne. rewrite (entry_update t idx e) by done. by rewrite Hp, decide_False.
  - destruct Hd as [-> ->]. cbn [fst snd].
    assert (set_bucket idx e t = t) as -> by (unfold set_bucket; rewrite list_insert_id by done; by destruct t).
    done.
Qed.

(** C36: When a task exits, [release_by_owner] always terminates having closed
    every port it owned, however many batches that takes; ports of other owners
    keep their entry and their queued messages, every task parked on a closed
    port is made Ready, and no other task is touched. *)
Theorem release_by_owner_spec pid k :
  ports_ok (ports k) -> rq_ok (rq k) ->
  exists k', release_by_owner pid k = Some k' /\ ports_ok (ports k') /\ rq_ok (rq k')
    /\ (forall p, port_entry (ports k') p
          = port_entry (ports k) p ≫= fun e => if owner_pid e =? pid then None else Some e)
    /\ forall j tk, slot (rq k) j = Some tk ->
         ((exists p e, port_entry (ports k) p = Some e /\ owner_pid e = pid /\ waits_on tk p = true) ->
            exists tk', slot (rq k') j = Some tk' /\ state tk' = Ready)
         /\ ((forall p e, port_entry (ports k) p = Some e -> owner_pid e = pid -> waits_on tk p = false) ->
            slot (rq k') j = Some tk).
Proof.
  intros Hok Hq. unfold release_by_owner. rewrite release_loop_spec.
  2:{ pose proof (List.filter_length_le (owned pid) (buckets (ports k))) as H. rewrite (po_len _ Hok) in H.
      unfold LIVE_BUCKETS, BATCH in *. lia. }
  eexists. split; [done|]. cbn [ports rq]. destruct (bury_ok pid (ports k) Hok) as [Hok' Hpe].
  set (L := map p_id _). destruct (wake_all_ports L (rq k) Hq) as [Hq' Hs]. split; [done|]. split; [done|].
  split; [done|].
  assert (forall p, p ∈ L <-> exists e, port_entry (ports k) p = Some e /\ owner_pid e = pid) as HL.
  { intros p. unfold L. rewrite list_elem_of_In, in_map_iff. split.
    - intros (e & <- & [He Ho]%List.filter_In). unfold owned in Ho. apply andb_true_iff in Ho as [Ho1 Ho2%Z.eqb_eq].
      exists e. split; [|done]. apply list_elem_of_In, list_elem_of_lookup in He as [i Hi].
      apply port_entry_iff; eauto.
    - intros (e & (i & He & Le & Hp)%port_entry_iff & Ho); [|done]. exists e. split; [done|]. apply List.filter_In.
      split; [apply list_elem_of_In, list_elem_of_lookup; eauto|]. unfold owned. rewrite Le. by apply Z.eqb_eq. }
  intros j t Hj. destruct (Hs j t Hj) as [H1 H2]. split.
  - intros (p & e & He & Ho & Hw). apply H1. exists p. split; [|done]. apply HL. eauto.
  - intros Hno. apply H2. intros p (e & He & Ho)%HL. eauto.
Qed.
End claims.

(** ** A table with one port, and the task parked on it *)
Definition demo_table : PortTable unit := (create 9 table_new).2.
Definition demo_rq : RunQueue := block_on_port 9 1 demo.
Definition demo_kernel : kernel unit := mkKernel demo_table demo_rq.
Definition demo_run (h : unit) (m : Message) (cur target : Z) (k : kernel unit) : Message * kernel unit := (m, k).

Lemma demo_create : create 9 (@table_new unit) = (Some 1, demo_table).
Proof. vm_compute. reflexivity. Qed.

Lemma demo_table_ok : ports_ok demo_table.
Proof.
  pose proof (create_ok 9 (@table_new unit) table_ok) as H. rewrite demo_create in H.
  apply H; vm_compute; congruence.
Qed.

Lemma demo_rq_ok : rq_ok demo_rq.
Proof. apply (block_ok demo 9 1 U64_MAX POLL_TAG_ALL 1 demo_9); [apply demo_ok|done|apply demo_slot1|done]. Qed.

Lemma port_create_spec_witness :
  exists e, port_entry demo_table 1 = Some e /\ owner_pid e = 9 /\ queued e = [].
Proof.
  pose proof (port_create_spec 9 (@table_new unit) table_ok) as H. rewrite demo_create in H.
  destruct H as (_ & H); [vm_compute; congruence|vm_compute; congruence|].
  destruct H as (_ & (e & H1 & H2 & H3 & _) & _); [vm_compute; reflexivity|]. exists e. done.
Defined.

Lemma send_spec_witness :
  exists k' tk, send demo_run 7 1 1 msg_empty demo_kernel = Some (Ok tt, k')
    /\ slot (rq k') 1 = Some tk /\ state tk = Ready.
Proof.
  pose proof (send_spec demo_run 7 0 1 msg_empty demo_kernel demo_table_ok demo_rq_ok) as H. cbv zeta in H.
  assert (exists e, port_entry (ports demo_kernel) 1 = Some e /\ handler e = None /\ length (queued e) <> 15%nat
            /\ owner_pid e = 9) as (e & He & Hh & Hq & Ho).
  { eexists. split; [vm_compute; reflexivity|]. vm_compute. split; [done|]. split; done. }
  rewrite He in H. specialize (H Hh). rewrite decide_False in H by done.
  destruct H as (k' & e' & H1 & _ & _ & _ & _ & _ & _ & _ & H2). exists k'.
  specialize (H2 ltac:(rewrite Ho; lia) 1%nat _ ltac:(vm_compute; reflexivity)).
  match type of H2 with if ?b then _ else _ => replace b with true in H2 by (vm_compute; reflexivity) end.
  destruct H2 as (tk & H2 & H3). exists tk. done.
Defined.

Lemma recv_as_spec_witness : (recv_as 1 9 demo_table).1 = None.
Proof.
  pose proof (recv_as_spec 1 9 demo_table demo_table_ok) as H. cbv zeta in H.
  assert (exists e, port_entry demo_table 1 = Some e /\ (owner_pid e =? 9) = true /\ queued e = []) as (e & He & Ho & Hq).
  { eexists. split; [vm_compute; reflexivity|]. vm_compute. done. }
  rewrite He, Ho, Hq in H. apply H.
Defined.

Lemma release_by_owner_spec_witness :
  exists k', release_by_owner 9 demo_kernel = Some k' /\ port_entry (ports k') 1 = None.
Proof.
  destruct (release_by_owner_spec 9 demo_kernel demo_table_ok demo_rq_ok) as (k' & H1 & _ & _ & H2 & _).
  exists k'. split; [exact H1|]. rewrite H2. vm_compute. reflexivity.
Defined.

(** ** Ids are recycled while live

    [alloc] never asks whether the id it is about to hand out is still in use.
    After the id space has wrapped, a port that stayed open shares its id with
    a new one. *)
Definition churn (pid : Z) (t : PortTable unit) : PortTable unit :=
  match create pid t with
  | (Some p, t) => close p t
  | (None, t) => t
  end.

(** Only port 1 of task 7, in bucket 1, is live. *)
Record solo (t : PortTable unit) (n : Z) : Prop := {
  solo_len : length (buckets t) = LIVE_BUCKETS;
  solo_next : next_id t = n;
  solo_one : p_id (bucket t 1) = 1 /\ owner_pid (bucket t 1) = 7;
  solo_rest : forall i, i <> 1%nat -> is_available (bucket t i) = true }.

Lemma solo_probe t n id :
  solo t n -> slot_of id 0 <> 1%nat \/ slot_of id 1 <> 1%nat ->
  exists idx, probe_free t id (seq 0 PROBE_LIMIT) = Some idx /\ idx <> 1%nat /\ (idx < LIVE_BUCKETS)%nat
    /\ forall e, live e = true -> p_id e = id -> id <> 1 ->
         find (set_bucket idx e t) id = Some idx.
Proof.
  intros Hs Hslot. change (seq 0 PROBE_LIMIT) with (0%nat :: 1%nat :: seq 2 14). unfold find.
  change (seq 0 PROBE_LIMIT) with (0%nat :: 1%nat :: seq 2 14). cbn [probe_free probe].
  assert (is_available (bucket t 1) = false) as H1.
  { unfold is_available, is_free, is_tombstone. by rewrite (proj1 (solo_one t n Hs)). }
  pose proof (slot_of_lt id 0). pose proof (slot_of_lt id 1).
  destruct (decide (slot_of id 0 = 1%nat)) as [E|E].
  - destruct Hslot as [|Hslot]; [done|]. rewrite E, H1, (solo_rest t n Hs) by done. exists (slot_of id 1).
    split; [done|]. split; [done|]. split; [done|]. intros e Le Pe Hid.
    rewrite !bucket_set by (rewrite (solo_len t n Hs); done). rewrite decide_False, decide_True by done.
    unfold is_available in H1. apply orb_false_iff in H1 as [-> ->]. rewrite (proj1 (solo_one t n Hs)).
    rewrite (proj2 (Z.eqb_neq 1 id)) by lia. apply live_cases in Le as [-> ->]. by rewrite (proj2 (Z.eqb_eq _ _) Pe).
  - rewrite (solo_rest t n Hs) by done. exists (slot_of id 0). split; [done|]. split; [done|]. split; [done|].
    intros e Le Pe _. rewrite bucket_set by (by rewrite (solo_len t n Hs)). rewrite decide_True by done.
    apply live_cases in Le as [-> ->]. by rewrite (proj2 (Z.eqb_eq _ _) Pe).
Qed.

Lemma slots_differ id : slot_of id 0 <> 1%nat \/ slot_of id 1 <> 1%nat.
Proof.
  destruct (decide (slot_of id 0 = 1%nat)) as [E|]; [|by left]. right. intros E'.
  assert (0%nat = 1%nat) by (apply (slot_of_inj id); [unfold PROBE_LIMIT; lia..|congruence]). done.
Qed.

Lemma solo_set t n idx e : solo t n -> idx <> 1%nat -> (idx < LIVE_BUCKETS)%nat -> is_available e = true -> solo (set_bucket idx e t) n.
Proof.
  intros Hs Hi Hlt Ha. assert (idx < length (buckets t))%nat by (by rewrite (solo_len t n Hs)). split.
  - unfold set_bucket. cbn [buckets]. rewrite length_insert. apply Hs.
  - apply Hs.
  - rewrite bucket_set, decide_False by done. apply Hs.
  - intros i Hne. rewrite bucket_set by done. case_decide; [done|by apply (solo_rest t n Hs)].
Qed.

Lemma solo_create fuel t n pid :
  solo t n -> 0 <= n < MAX_PORTS ->
  exists idx e, alloc_loop (S fuel) t pid = (Some (id_of_raw n, idx), set_bucket idx e (mkTable (buckets t) (n + 1)))
    /\ idx <> 1%nat /\ (idx < LIVE_BUCKETS)%nat /\ solo (mkTable (buckets t) (n + 1)) (n + 1)
    /\ (id_of_raw n <> 1 -> find (set_bucket idx e (mkTable (buckets t) (n + 1))) (id_of_raw n) = Some idx).
Proof.
  intros Hs Hn. cbn [alloc_loop]. rewrite (solo_next t n Hs).
  replace (wrap64 (n + 1)) with (n + 1) by (unfold wrap64, MAX_PORTS in *; rewrite Z.mod_small; lia).
  assert (solo (mkTable (buckets t) (n + 1)) (n + 1)) as Hs1 by (by destruct Hs as [H1 H2 H3 H4]; split).
  destruct (solo_probe _ _ (id_of_raw n) Hs1 (slots_differ _)) as (idx & -> & Hi & Hlt & Hf).
  eexists idx, _. split; [reflexivity|]. split; [done|]. split; [done|]. split; [done|]. intros Hne.
  apply Hf; [apply (new_entry_live (Handler := unit)), id_of_raw_range|done|done].
Qed.

Lemma create_fuel pid t (P : option Z * PortTable unit -> Prop) :
  (forall fuel, P (let '(r, t') := alloc_loop (S fuel) t pid in (fst <$> r, t'))) -> P (create pid t).
Proof.
  intros H. unfold create, alloc. replace (Z.to_nat MAX_PORTS) with (S (Z.to_nat (MAX_PORTS - 1)))
    by (rewrite <- Z2Nat.inj_succ; [done|done]). apply H.
Qed.

Lemma solo_churn t n : solo t n -> 1 <= n < MAX_PORTS - 1 -> solo (churn 9 t) (n + 1).
Proof.
  intros Hs Hn. unfold churn. apply (create_fuel 9 t (fun r => solo (match r with (Some p, t') => close p t' | (None, t') => t' end) (n + 1))).
  intros fuel. destruct (solo_create fuel t n 9 Hs) as (idx & e & -> & Hi & Hlt & Hs1 & Hf); [lia|].
  cbn [fmap option_fmap option_map fst]. unfold close. rewrite find_mut_eq, Hf.
  - unfold set_bucket at 1 2. cbn [buckets next_id]. rewrite list_insert_insert_eq.
    exact (solo_set _ _ idx tombstone Hs1 Hi Hlt eq_refl).
  - unfold id_of_raw, MAX_PORTS in *. rewrite Z.mod_small by lia. lia.
Qed.

Lemma solo_start : solo (create 7 table_new).2 1.
Proof.
  assert (forall i, bucket (create 7 (@table_new unit)).2 i = if decide (i = 1%nat) then bucket (create 7 table_new).2 1 else entry_empty) as H.
  { intros i. unfold bucket at 1. replace (buckets (create 7 (@table_new unit)).2) with
      (<[1%nat := bucket (create 7 table_new).2 1]> (replicate LIVE_BUCKETS (@entry_empty unit))) by (vm_compute; reflexivity).
    rewrite nth_lookup. case_decide as E.
    - subst. by rewrite list_lookup_insert_eq by (rewrite length_replicate; unfold LIVE_BUCKETS; lia).
    - rewrite list_lookup_insert_ne by done. destruct (replicate _ _ !! i) as [x|] eqn:Ex; [|done].
      by apply lookup_replicate in Ex as [-> _]. }
  split.
  - vm_compute. reflexivity.
  - vm_compute. reflexivity.
  - vm_compute. done.
  - intros i Hi. rewrite H, decide_False by done. reflexivity.
Qed.

Lemma solo_after m :
  Z.of_nat m <= 65534 -> solo (Nat.iter m (churn 9) (create 7 table_new).2) (1 + Z.of_nat m).
Proof.
  generalize solo_start. generalize (create 7 (@table_new unit)).2. intros t0 H0.
  induction m as [|m IH]; intros Hm; [exact H0|].
  change (Nat.iter (S m) (churn 9) t0) with (churn 9 (Nat.iter m (churn 9) t0)).
  replace (1 + Z.of_nat (S m)) with (1 + Z.of_nat m + 1) by lia. apply solo_churn; [apply IH; lia|].
  unfold MAX_PORTS. lia.
Qed.

Lemma solo_owner t n : solo t n -> is_owner 1 7 t = true.
Proof.
  intros H. destruct (solo_one t n H) as [H1 H2]. unfold is_owner, find.
  change (seq 0 PROBE_LIMIT) with (0%nat :: seq 1 15). cbn [probe]. change (slot_of 1 0) with 1%nat.
  unfold is_free, is_tombstone. rewrite H1. cbv match.
  change (default false (Some (owner_pid (bucket t 1) =? 7)) = true). by rewrite H2.
Qed.

Lemma solo_wrapped t n : solo t n -> n = 65535 -> (create 9 t).1 = Some 1.
Proof.
  intros H ->. apply (create_fuel 9 t (fun r => r.1 = Some 1)). intros fuel.
  destruct (solo_create fuel t 65535 9 H) as (idx & e & -> & _); [unfold MAX_PORTS; lia|]. reflexivity.
Qed.

(** C39: Port ids are recycled without asking whether they are still in use: from
    an empty table, when task 7 has opened the first port and keeps it while
    task 9 opens and closes others, a state is reached in which task 7 still
    owns port 1 and the next [create] of task 9 returns 1 as well. *)
Theorem create_reuses_live_id :
  exists m, let t := Nat.iter m (churn 9) (create 7 table_new).2 in
    is_owner 1 7 t = true /\ (create 9 t).1 = Some 1.
Proof.
  assert (exists m, Z.of_nat m = 65534) as [m Hm] by (exists (Z.to_nat 65534); apply Z2Nat.id; lia).
  exists m. cbv zeta. pose proof (solo_after m ltac:(lia)) as H. split; [by eapply solo_owner|].
  eapply solo_wrapped; [exact H|lia].
Qed.
