(* ===== verification/Capability.v ===== *)
(** * The capability table

    Models [src/capability/src/lib.rs]: tokens handed to user space, resolved
    to kernel objects by a linear table of 1024 slots.  A slot is free when its
    token is [u32::MAX]; tokens are drawn from a counter that skips it. *)
From S2P Require Import Prelude.

Definition MAX_CAPS : nat := 1024.

Inductive CapKind :=
  | Port (id : Z)
  | Vmo (addr : Z)
  | FileDesc (fd : Z).

Record CapSlot := mkSlot { token : Z; kind : CapKind }.

Definition slot_free : CapSlot := mkSlot U32_MAX (Port 0).
Definition is_free (s : CapSlot) : bool := token s =? U32_MAX.

Record CapTable := mkCaps { slots : list CapSlot; next_tok : Z }.

Definition new : CapTable := mkCaps (replicate MAX_CAPS slot_free) 0.

(** [iter().position(p)] *)
Fixpoint position (p : CapSlot -> bool) (l : list CapSlot) : option nat :=
  match l with
  | [] => None
  | s :: l => if p s then Some O else S <$> position p l
  end.

Definition alloc_cap (k : CapKind) (t : CapTable) : option Z * CapTable :=
  match position is_free (slots t) with
  | None => (None, t)
  | Some i =>
      let tok := next_tok t in
      let nx := wrap32 (next_tok t + 1) in
      let nx := if nx =? U32_MAX then 0 else nx in
      (Some tok, mkCaps (<[i := mkSlot tok k]> (slots t)) nx)
  end.

Definition holds_token (tok : Z) (s : CapSlot) : bool := negb (is_free s) && (token s =? tok).

Definition lookup_cap (tok : Z) (t : CapTable) : option CapKind :=
  kind <$> List.find (holds_token tok) (slots t).

Definition free_cap (tok : Z) (t : CapTable) : CapTable :=
  match position (holds_token tok) (slots t) with
  | Some i => mkCaps (<[i := slot_free]> (slots t)) (next_tok t)
  | None => t
  end.

(** ** Invariant: live tokens are distinct *)
Record caps_ok (t : CapTable) : Prop := {
  caps_len : length (slots t) = MAX_CAPS;
  caps_next : 0 <= next_tok t < U32_MAX;
  caps_uniq : forall i j s s', slots t !! i = Some s -> slots t !! j = Some s' ->
    is_free s = false -> is_free s' = false -> token s = token s' -> i = j }.

Lemma position_spec p l :
  match position p l with
  | Some i => exists s, l !! i = Some s /\ p s = true /\ forall j s', (j < i)%nat -> l !! j = Some s' -> p s' = false
  | None => forall s, s ∈ l -> p s = false
  end.
Proof.
  induction l as [|x l IH]; cbn [position]; [by intros s ?%elem_of_nil|].
  destruct (p x) eqn:E; [exists x; split; [done|]; split; [done|lia]|].
  destruct (position p l) as [i|]; cbn.
  - destruct IH as (s & H1 & H2 & H3). exists s. split; [done|]. split; [done|].
    intros [|j] s' Hj Hs; cbn in Hs; [congruence|]. eapply H3; [|done]. lia.
  - intros s [->|Hs]%elem_of_cons; auto.
Qed.

Lemma find_elem (p : CapSlot -> bool) l s : List.find p l = Some s -> s ∈ l /\ p s = true.
Proof. intros H. apply List.find_some in H as [H1 H2]. by rewrite list_elem_of_In. Qed.

(** Lookup by token, as a statement about the slots. *)
Lemma lookup_iff tok t k :
  caps_ok t -> lookup_cap tok t = Some k <->
  exists i s, slots t !! i = Some s /\ is_free s = false /\ token s = tok /\ kind s = k.
Proof.
  intros Hok. unfold lookup_cap. rewrite fmap_Some. split.
  - intros (s & [[i Hi]%list_elem_of_lookup Hs]%find_elem & ->). exists i, s.
    unfold holds_token in Hs. bool_to_prop. done.
  - intros (i & s & Hi & Hf & Ht & <-). exists s. split; [|done].
    assert (holds_token tok s = true) as Hs by (unfold holds_token; by rewrite Hf, (proj2 (Z.eqb_eq _ _) Ht)).
    destruct (List.find (holds_token tok) (slots t)) as [s'|] eqn:E.
    + apply find_elem in E as [[j Hj]%list_elem_of_lookup Hs']. unfold holds_token in Hs'. bool_to_prop.
      assert (i = j) as -> by (eapply (caps_uniq t Hok); [done..|congruence]). congruence.
    + apply List.find_none with (x := s) in E; [congruence|]. apply list_elem_of_In, list_elem_of_lookup. eauto.
Qed.

Lemma write_ok t i s n :
  caps_ok t -> 0 <= n < U32_MAX ->
  (is_free s = false -> forall j s', slots t !! j = Some s' -> is_free s' = false -> token s' <> token s) ->
  caps_ok (mkCaps (<[i := s]> (slots t)) n).
Proof.
  intros Hok Hn Hs. split; cbn [slots next_tok]; [rewrite length_insert; apply Hok|done|].
  intros a b x y Hx Hy Fx Fy E. apply list_lookup_insert_Some in Hx, Hy.
  destruct Hx as [(-> & -> & _)|(Hne & Hx)], Hy as [(-> & -> & _)|(Hne' & Hy)]; [done|..].
  - by destruct (Hs Fx _ _ Hy Fy).
  - by destruct (Hs Fy _ _ Hx Fx).
  - by eapply (caps_uniq t Hok).
Qed.

Lemma next_ok n : 0 <= n < U32_MAX -> 0 <= (if wrap32 (n + 1) =? U32_MAX then 0 else wrap32 (n + 1)) < U32_MAX.
Proof.
  unfold wrap32, U32_MAX. intros H. pose proof (Z.mod_pos_bound (n + 1) (2 ^ 32)).
  destruct (Z.eqb_spec ((n + 1) mod 2 ^ 32) (2 ^ 32 - 1)); lia.
Qed.

Lemma is_free_ext s s' : token s = token s' -> is_free s = is_free s'.
Proof. unfold is_free. by intros ->. Qed.

Lemma caps_new_ok : caps_ok new.
Proof.
  split; [apply length_replicate|vm_compute; split; congruence|].
  intros i j s s' [-> _]%lookup_replicate _ Hf. done.
Qed.

(** The capability table is a finite map from tokens to kernel objects.
    Allocation fails exactly when no slot is free, leaving the table as it was;
    a token it returns that is not in use resolves afterwards to the new object
    and every other token resolves as before; freeing a token makes it
    unresolvable and leaves every other token alone; both keep the table
    well-formed, and no token is ever the free-slot sentinel. *)
Theorem cap_table_spec k tok t :
  caps_ok t ->
  match alloc_cap k t with
  | (None, t') => t' = t /\ forall s, s ∈ slots t -> is_free s = false
  | (Some n, t') =>
      n <> U32_MAX
      /\ (lookup_cap n t = None ->
          caps_ok t' /\ lookup_cap n t' = Some k /\ forall m, m <> n -> lookup_cap m t' = lookup_cap m t)
  end
  /\ caps_ok (free_cap tok t)
  /\ forall m, lookup_cap m (free_cap tok t) = if decide (m = tok) then None else lookup_cap m t.
Proof.
  intros Hok. split.
  - unfold alloc_cap. pose proof (position_spec is_free (slots t)) as Hp.
    destruct (position is_free (slots t)) as [i|]; [|done]. destruct Hp as (s0 & Hi & Hf & _).
    pose proof (caps_next t Hok) as Hn. split; [lia|]. intros Hno. set (s := mkSlot (next_tok t) k).
    assert (is_free s = false) as Fs by (apply Z.eqb_neq; cbn; lia).
    assert (forall j s', slots t !! j = Some s' -> is_free s' = false -> token s' <> token s) as Hfresh.
    { intros j s' Hj Fj E. assert (lookup_cap (next_tok t) t = Some (kind s')) as H by (apply lookup_iff; eauto 8). congruence. }
    pose proof (write_ok t i s _ Hok (next_ok _ Hn) (fun _ => Hfresh)) as Hok'.
    split; [done|]. split.
    + apply lookup_iff; [done|]. exists i, s. cbn [slots].
      rewrite list_lookup_insert_eq by (by eapply lookup_lt_Some). done.
    + intros m Hm. apply option_eq. intros x. rewrite !lookup_iff by done. cbn [slots]. split.
      * intros (j & y & [(-> & <- & _)|(Hne & Hj)]%list_lookup_insert_Some & Fy & Ty & Ky); [by destruct Hm; rewrite <- Ty|].
        exists j, y. done.
      * intros (j & y & Hj & Fy & Ty & Ky). exists j, y. rewrite list_lookup_insert_ne; [done|]. intros ->. congruence.
  - unfold free_cap. pose proof (position_spec (holds_token tok) (slots t)) as Hp.
    destruct (position (holds_token tok) (slots t)) as [i|].
    + destruct Hp as (s & Hi & Hs & _). unfold holds_token in Hs. apply andb_true_iff in Hs as [Fs Ts]. bool_to_prop.
      assert (caps_ok (mkCaps (<[i := slot_free]> (slots t)) (next_tok t))) as Hok' by (apply write_ok; [done|apply Hok|done]).
      split; [done|]. intros m. apply option_eq. intros x. rewrite lookup_iff by done. cbn [slots].
      case_decide as E; [subst m; split; [|done]|rewrite lookup_iff by done; split].
      * intros (j & y & [(-> & <- & _)|(Hne & Hj)]%list_lookup_insert_Some & Fy & Ty & Ky); [done|].
        destruct Hne. eapply (caps_uniq t Hok); [done..|congruence].
      * intros (j & y & [(-> & <- & _)|(Hne & Hj)]%list_lookup_insert_Some & Fy & Ty & Ky); [done|]. exists j, y. done.
      * intros (j & y & Hj & Fy & Ty & Ky). exists j, y. rewrite list_lookup_insert_ne; [done|]. intros ->. congruence.
    + split; [done|]. intros m. case_decide as E; [|done]. subst m. destruct (lookup_cap tok t) as [x|] eqn:El; [|done].
      apply lookup_iff in El as (i & s & Hi & Fs & Ts & _); [|done].
      assert (holds_token tok s = false) as H by (apply Hp, list_elem_of_lookup; eauto).
      unfold holds_token in H. by rewrite Fs, (proj2 (Z.eqb_eq _ _) Ts) in H.
Qed.

Lemma cap_table_spec_witness : lookup_cap 0 (free_cap 0 (alloc_cap (Vmo 4096) new).2) = None.
Proof.
  pose proof (cap_table_spec (Vmo 4096) 0 new caps_new_ok) as [H _].
  assert (alloc_cap (Vmo 4096) new = (Some 0, (alloc_cap (Vmo 4096) new).2)) as E by (vm_compute; reflexivity).
  rewrite E in H. destruct H as (_ & H). destruct H as (H & _); [vm_compute; reflexivity|].
  destruct (cap_table_spec (Vmo 4096) 0 _ H) as (_ & _ & H2). apply (H2 0).
Defined.
