(* ===== verification/PageSites.v ===== *)
(** * Per-call-site accounting of physical pages

    Models the site table and the page tags of [src/mm/src/buddy.rs]: every
    block handed out by the tracked allocation calls is charged to the source
    location that asked for it, and a one-byte tag per physical page remembers
    the slot to credit when the page comes back.  The atomics are modelled as the
    sequential operations they are under the allocator's lock; the counters are
    numbers of pages and stay far below the width of [isize].

    The theorems show that the hashed site table hands every location one slot
    of its own, that the run-length loop of [untag_block] credits every page
    once, and that charging and crediting keep the counters equal to the number
    of pages that carry the slot's tag. *)
From S2P Require Import Prelude KLib.

Definition PAGE_SIZE : Z := 4096.
Definition SITE_SLOTS : nat := 256.

Record sites := mkSites {
  site_key : list Z;
  site_pages : list Z;
  site_peak : list Z;
  tags : option (list Z);
  tag_pages : Z }.

Definition sites_eta (s : sites) : sites := mkSites (site_key s) (site_pages s) (site_peak s) (tags s) (tag_pages s).
Definition set_site_key : list Z -> sites -> sites := ltac:(setter sites_eta site_key).
Definition set_site_pages : list Z -> sites -> sites := ltac:(setter sites_eta site_pages).
Definition set_site_peak : list Z -> sites -> sites := ltac:(setter sites_eta site_peak).
Definition set_tags : option (list Z) -> sites -> sites := ltac:(setter sites_eta tags).
Definition set_tag_pages : Z -> sites -> sites := ltac:(setter sites_eta tag_pages).

Definition sites_new : sites :=
  mkSites (replicate SITE_SLOTS 0) (replicate SITE_SLOTS 0) (replicate SITE_SLOTS 0) None 0.

(** ** The site table *)
(** [key] is the address of a static location, never 0. *)
Definition site_hash (key : Z) : nat :=
  Z.to_nat (Z.shiftr (wrap64 (Z.shiftr key 3 * 11400714819323198485)) 56).

Fixpoint site_probe (n : nat) (i : nat) (key : Z) (s : sites) : nat * sites :=
  match n with
  | O => (O, s)
  | S n =>
      let i := if (i =? 0)%nat then 1%nat else i in
      let k := word_at (site_key s) i in
      if k =? key then (i, s)
      else if k =? 0 then (i, set_site_key (<[i := key]> (site_key s)) s)
      else site_probe n ((i + 1) mod SITE_SLOTS) key s
  end.
Definition site_slot (key : Z) (s : sites) : nat * sites := site_probe SITE_SLOTS (site_hash key) key s.

Strategy expand [site_slot].
Strategy 1000 [site_probe].

Definition charge (slot : nat) (pages : Z) (s : sites) : sites :=
  let now := word_at (site_pages s) slot + pages in
  let s := set_site_pages (<[slot := now]> (site_pages s)) s in
  if (0 <? pages) && (word_at (site_peak s) slot <? now)
  then set_site_peak (<[slot := now]> (site_peak s)) s else s.

(** ** Page tags *)
(** [for pfn in first..last { tags[pfn] = slot }] *)
Definition write_tags (first last : nat) (slot : Z) (ts : list Z) : list Z :=
  foldl (fun ts pfn => <[pfn := slot]> ts) ts (seq first (last - first)).

Definition block_first (addr : Z) : nat := Z.to_nat (addr / PAGE_SIZE).
Definition block_last (addr : Z) (order : nat) (s : sites) : nat :=
  Nat.min (block_first addr + 2 ^ order) (Z.to_nat (tag_pages s)).

Definition tag_block (addr : Z) (order : nat) (slot : Z) (s : sites) : sites :=
  match tags s with
  | None => s
  | Some ts => set_tags (Some (write_tags (block_first addr) (block_last addr order s) slot ts)) s
  end.

(** The loop of [untag_block]; [(run_tag, run_len)] is the run being counted. *)
Record run := mkRun { run_tag : Z; run_len : Z; run_tags : list Z; run_sites : sites }.
Definition untag_step (r : run) (pfn : nat) : run :=
  let t := word_at (run_tags r) pfn in
  let ts := <[pfn := 0]> (run_tags r) in
  if negb (t =? run_tag r) && negb (run_len r =? 0)
  then mkRun t 1 ts (charge (Z.to_nat (run_tag r)) (- run_len r) (run_sites r))
  else mkRun t (run_len r + 1) ts (run_sites r).

Definition untag_block (addr : Z) (order : nat) (s : sites) : sites :=
  match tags s with
  | None => s
  | Some ts =>
      let first := block_first addr in
      let last := block_last addr order s in
      let r := foldl untag_step (mkRun 0 0 ts s) (seq first (last - first)) in
      let s := if negb (run_len r =? 0) then charge (Z.to_nat (run_tag r)) (- run_len r) (run_sites r) else run_sites r in
      set_tags (Some (run_tags r)) s
  end.

(** The charge made by the tracked allocation calls. *)
Definition charge_block (key addr : Z) (order : nat) (s : sites) : sites :=
  match tags s with
  | None => s
  | Some _ =>
      let '(slot, s) := site_slot key s in
      tag_block addr order (Z.of_nat slot) (charge slot (Z.shiftl 1 (Z.of_nat order)) s)
  end.

(** ** Accounting *)
(** Pages of [ts] that carry the tag [t]. *)
Definition tagged (t : Z) (ts : list Z) : Z := countb (fun x => x =? t) ts.

(** The counter of every slot but the untagged one is the number of pages that
    carry its tag. *)
Record accounted (s : sites) : Prop := {
  ac_keys : length (site_key s) = SITE_SLOTS;
  ac_pages : length (site_pages s) = SITE_SLOTS;
  ac_peak : length (site_peak s) = SITE_SLOTS;
  ac_len : forall ts, tags s = Some ts -> length ts = Z.to_nat (tag_pages s);
  ac_byte : forall ts, tags s = Some ts -> Forall (fun t => 0 <= t < 256) ts;
  ac_count : forall ts i, tags s = Some ts -> (1 <= i < SITE_SLOTS)%nat ->
    word_at (site_pages s) i = tagged (Z.of_nat i) ts }.

Lemma tagged_insert t ts i x y :
  ts !! i = Some y ->
  tagged t (<[i := x]> ts) = tagged t ts + (if decide (x = t) then 1 else 0) - (if decide (y = t) then 1 else 0).
Proof.
  intros H. unfold tagged. rewrite (countb_insert _ _ _ _ y H).
  destruct (Z.eqb_spec x t), (Z.eqb_spec y t); repeat case_decide; done.
Qed.

(** ** Charging *)
Lemma charge_pages slot n s i :
  (slot < length (site_pages s))%nat ->
  word_at (site_pages (charge slot n s)) i = word_at (site_pages s) i + (if decide (slot = i) then n else 0).
Proof.
  intros Hs. assert (site_pages (charge slot n s) = <[slot := word_at (site_pages s) slot + n]> (site_pages s)) as ->.
  { unfold charge. by destruct (_ && _). }
  case_decide as E; [subst; by rewrite word_at_insert_eq|]. rewrite word_at_insert_ne by done. lia.
Qed.

Record same_tags (s s' : sites) : Prop := {
  st_keys : length (site_key s') = length (site_key s);
  st_pages : length (site_pages s') = length (site_pages s);
  st_peak : length (site_peak s') = length (site_peak s);
  st_tags : tags s' = tags s;
  st_n : tag_pages s' = tag_pages s }.

#[export] Instance same_tags_preorder : PreOrder same_tags.
Proof. split; [by intros s|]. intros s1 s2 s3 [A1 A2 A3 A4 A5] [B1 B2 B3 B4 B5]. split; congruence. Qed.

Lemma charge_same slot n s : same_tags s (charge slot n s).
Proof. unfold charge. destruct (_ && _); split; cbn; by rewrite ?length_insert. Qed.

(** ** Crediting a block *)
(** The counter of slot [i] with the pending run already credited. *)
Definition credited (r : run) (i : nat) : Z :=
  word_at (site_pages (run_sites r)) i - (if decide (Z.of_nat i = run_tag r) then run_len r else 0).

Record run_ok (s0 : sites) (r : run) : Prop := {
  ro_same : same_tags s0 (run_sites r);
  ro_len : length (run_tags r) = Z.to_nat (tag_pages s0);
  ro_byte : Forall (fun t => 0 <= t < 256) (run_tags r);
  ro_tag : 0 <= run_tag r < 256;
  ro_pages : length (site_pages (run_sites r)) = SITE_SLOTS }.

Lemma untag_step_ok s0 r pfn :
  run_ok s0 r -> (pfn < length (run_tags r))%nat ->
  let r' := untag_step r pfn in
  run_ok s0 r' /\ run_tags r' = <[pfn := 0]> (run_tags r)
  /\ forall i, (1 <= i < SITE_SLOTS)%nat ->
       credited r' i - tagged (Z.of_nat i) (run_tags r') = credited r i - tagged (Z.of_nat i) (run_tags r).
Proof.
  intros [R1 R2 R3 R4 R5] Hp r'. destruct (lookup_lt_is_Some_2 _ _ Hp) as [t Ht].
  assert (word_at (run_tags r) pfn = t) as Hw by (unfold word_at; by rewrite Ht).
  assert (0 <= t < 256) as Hb by (by apply (proj1 (Forall_lookup _ _) R3 pfn)).
  assert (Forall (fun t => 0 <= t < 256) (<[pfn := 0]> (run_tags r))) as HF by (apply Forall_insert; [done|lia]).
  assert (Z.to_nat (run_tag r) < length (site_pages (run_sites r)))%nat as Hlt.
  { rewrite R5. unfold SITE_SLOTS. lia. }
  assert (run_ok s0 r' /\ run_tags r' = <[pfn := 0]> (run_tags r) /\ run_tag r' = t
    /\ forall i, credited r' i = credited r i - if decide (Z.of_nat i = t) then 1 else 0) as (H1 & H2 & _ & H3).
  { unfold r', untag_step, credited. rewrite Hw. destruct (Z.eqb_spec t (run_tag r)) as [Et|Et]; cbn [negb andb].
    - split; [split; cbn; rewrite ?length_insert; done|]. split; [done|]. split; [done|]. intros i. cbn.
      repeat case_decide; lia.
    - destruct (Z.eqb_spec (run_len r) 0) as [El|El]; cbn [negb].
      + split; [split; cbn; rewrite ?length_insert; done|]. split; [done|]. split; [done|]. intros i. cbn.
        repeat case_decide; lia.
      + pose proof (charge_same (Z.to_nat (run_tag r)) (- run_len r) (run_sites r)) as Hs.
        split; [split; cbn; rewrite ?length_insert; try done; [by etrans|by rewrite (st_pages _ _ Hs)]|].
        split; [done|]. split; [done|]. intros i. cbn. rewrite charge_pages by done. repeat case_decide; lia. }
  split; [done|]. split; [done|]. intros i Hi. rewrite H2, H3, (tagged_insert _ _ _ _ t Ht).
  rewrite (decide_False (P := 0 = Z.of_nat i)) by lia.
  destruct (decide (Z.of_nat i = t)), (decide (t = Z.of_nat i)); lia.
Qed.

Lemma untag_loop_ok s0 l r :
  run_ok s0 r -> Forall (fun pfn => (pfn < Z.to_nat (tag_pages s0))%nat) l ->
  let r' := foldl untag_step r l in
  run_ok s0 r' /\ run_tags r' = foldl (fun ts pfn => <[pfn := 0]> ts) (run_tags r) l
  /\ forall i, (1 <= i < SITE_SLOTS)%nat ->
       credited r' i - tagged (Z.of_nat i) (run_tags r') = credited r i - tagged (Z.of_nat i) (run_tags r).
Proof.
  intros Hr Hl. revert r Hr. induction Hl as [|pfn l Hp Hl IH]; intros r Hr; [done|]. cbn [foldl].
  destruct (untag_step_ok s0 r pfn Hr) as (H1 & H2 & H3); [by rewrite (ro_len s0 r Hr)|].
  destruct (IH _ H1) as (G1 & G2 & G3). split; [done|]. split; [by rewrite G2, H2|].
  intros i Hi. by rewrite G3, H3.
Qed.

(** A write to a range of tags, seen page by page. *)
Lemma write_tags_lookup first n (slot : Z) (ts : list Z) k :
  foldl (fun ts pfn => <[pfn := slot]> ts) ts (seq first n) !! k
  = if decide (first <= k < first + n /\ k < length ts)%nat then Some slot else ts !! k.
Proof.
  revert first ts. induction n as [|n IH]; intros first ts; cbn [seq foldl].
  { rewrite decide_False by lia. done. }
  rewrite IH, length_insert. destruct (decide (first = k)) as [->|Hne].
  - rewrite decide_False by lia. destruct (decide (k < length ts)%nat).
    + rewrite decide_True by lia. by apply list_lookup_insert_eq.
    + rewrite decide_False by lia. rewrite list_insert_ge by lia. done.
  - rewrite list_lookup_insert_ne by done.
    destruct (decide (S first <= k < S first + n /\ k < length ts)%nat); [by rewrite decide_True by lia|by rewrite decide_False by lia].
Qed.

Lemma block_seq addr order s :
  Forall (fun pfn => (pfn < Z.to_nat (tag_pages s))%nat)
    (seq (block_first addr) (block_last addr order s - block_first addr)).
Proof. apply Forall_forall. intros k Hk%elem_of_seq. unfold block_last in Hk. lia. Qed.

Definition tag_at (s : sites) (k : nat) : Z := match tags s with Some ts => word_at ts k | None => 0 end.
Definition in_pages (addr : Z) (order : nat) (k : nat) : Prop := (block_first addr <= k < block_first addr + 2 ^ order)%nat.

Lemma word_at_write first n (slot : Z) (ts : list Z) k :
  word_at (foldl (fun ts pfn => <[pfn := slot]> ts) ts (seq first n)) k
  = if decide (first <= k < first + n /\ k < length ts)%nat then slot else word_at ts k.
Proof. unfold word_at. rewrite write_tags_lookup. by case_decide. Qed.

Lemma length_write (x : Z) l ts : length (foldl (fun ts pfn => <[pfn := x]> ts) ts l) = length ts.
Proof. revert ts. induction l as [|p l IH]; intros ts; [done|]. cbn [foldl]. by rewrite IH, length_insert. Qed.

(** The final state of the run-length loop with its last run credited. *)
Lemma untag_flush s0 r :
  run_ok s0 r ->
  let s := if negb (run_len r =? 0) then charge (Z.to_nat (run_tag r)) (- run_len r) (run_sites r) else run_sites r in
  same_tags s0 s /\ forall i, word_at (site_pages s) i = credited r i.
Proof.
  intros [R1 R2 R3 R4 R5] s. unfold s, credited. destruct (Z.eqb_spec (run_len r) 0) as [El|El]; cbn [negb].
  - split; [done|]. intros i. case_decide; lia.
  - split; [etrans; [exact R1|apply charge_same]|]. intros i. rewrite charge_pages.
    + repeat case_decide; lia.
    + rewrite R5. unfold SITE_SLOTS. lia.
Qed.

(** Crediting a block keeps the accounts, clears the tags of its pages and
    leaves every other tag. *)
Lemma untag_block_spec addr order s :
  accounted s -> let s' := untag_block addr order s in
  accounted s' /\ tag_pages s' = tag_pages s /\ (tags s' = None <-> tags s = None)
  /\ forall k, tag_at s' k = if decide (in_pages addr order k) then 0 else tag_at s k.
Proof.
  intros A s'. pose proof A as [A1 A2 A3 A4 A5 A6]. unfold s', untag_block, tag_at. destruct (tags s) as [ts|] eqn:Et.
  2: { rewrite Et. split; [exact A|]. split; [done|]. split; [done|]. intros k. by case_decide. }
  set (l := seq _ _). assert (run_ok s (mkRun 0 0 ts s)) as H0 by (split; cbn; [done|by apply A4|by apply A5|lia|done]).
  destruct (untag_loop_ok s l _ H0 (block_seq addr order s)) as (H1 & H2 & H3). set (r := foldl _ _ _) in *.
  destruct (untag_flush s r H1) as [[F1 F2 F3 F4 F5] F]. set (s1 := if negb _ then _ else _) in *. cbn [run_tags] in H2.
  split; [split; cbn; try congruence|split; [done|split; [done|]]].
  - intros ts' [= <-]. rewrite (ro_len _ _ H1). by rewrite F5.
  - intros ts' [= <-]. apply H1.
  - intros ts' i [= <-] Hi. rewrite F. specialize (H3 i Hi). unfold credited at 2 in H3. cbn [run_sites run_tags run_tag run_len] in H3.
    rewrite (A6 ts i eq_refl Hi) in H3. destruct (decide _) in H3; lia.
  - intros k. cbn. rewrite H2. unfold l. rewrite word_at_write. unfold in_pages, block_last. rewrite (A4 ts eq_refl) in *.
    case_decide as E1; case_decide as E2; try done; [lia|]. unfold word_at. rewrite lookup_ge_None_2; [done|].
    rewrite (A4 ts eq_refl). lia.
Qed.

(** ** The site table *)
Lemma site_probe_spec n i key s i' s' :
  site_probe n i key s = (i', s') -> length (site_key s) = SITE_SLOTS -> (i < SITE_SLOTS)%nat ->
  (i' < SITE_SLOTS)%nat /\ length (site_key s') = SITE_SLOTS
  /\ site_pages s' = site_pages s /\ site_peak s' = site_peak s /\ tags s' = tags s /\ tag_pages s' = tag_pages s
  /\ (i' <> 0%nat -> word_at (site_key s') i' = key)
  /\ forall j, word_at (site_key s) j <> 0 -> word_at (site_key s') j = word_at (site_key s) j.
Proof.
  revert i. induction n as [|n IH]; intros i; cbn [site_probe].
  { intros [= <- <-] Hl Hi. repeat split; try done. unfold SITE_SLOTS. lia. }
  set (j := if (i =? 0)%nat then 1%nat else i). intros H Hl Hi.
  assert (j < SITE_SLOTS)%nat as Hj by (unfold j; destruct (Nat.eqb_spec i 0); unfold SITE_SLOTS in *; lia).
  destruct (Z.eqb_spec (word_at (site_key s) j) key) as [Ek|Ek]; [injection H as <- <-; done|].
  destruct (Z.eqb_spec (word_at (site_key s) j) 0) as [E0|E0].
  - injection H as <- <-. cbn. rewrite length_insert. repeat split; try done.
    + intros _. apply word_at_insert_eq. by rewrite Hl.
    + intros k Hk. rewrite word_at_insert_ne; [done|]. by intros ->.
  - apply (IH ((j + 1) mod SITE_SLOTS)%nat H Hl). by apply Nat.mod_upper_bound.
Qed.

Lemma site_hash_lt key : (site_hash key < SITE_SLOTS)%nat.
Proof.
  unfold site_hash. rewrite Z.shiftr_div_pow2 by lia. set (x := wrap64 _).
  assert (0 <= x < 2 ^ 64) as Hx by (unfold x, wrap64; apply Z.mod_pos_bound; lia).
  assert (0 <= x / 2 ^ 56 < 256) as Hd.
  { split; [apply Z.div_pos; lia|]. apply Z.div_lt_upper_bound; [lia|]. change (2 ^ 56 * 256) with (2 ^ 64). lia. }
  unfold SITE_SLOTS. lia.
Qed.

Lemma site_slot_spec key s i s' :
  site_slot key s = (i, s') -> length (site_key s) = SITE_SLOTS ->
  (i < SITE_SLOTS)%nat /\ length (site_key s') = SITE_SLOTS
  /\ site_pages s' = site_pages s /\ site_peak s' = site_peak s /\ tags s' = tags s /\ tag_pages s' = tag_pages s.
Proof.
  intros H Hl. destruct (site_probe_spec SITE_SLOTS (site_hash key) key s i s' H Hl (site_hash_lt key)) as (B1 & B2 & B3 & B4 & B5 & B6 & _).
  done.
Qed.

(** A location keeps its slot: entries are never removed, so a later probe walks
    the same occupied slots to the same place. *)
Theorem site_slot_stable key s i s' s2 :
  key <> 0 -> site_slot key s = (i, s') -> i <> 0%nat ->
  (forall j, word_at (site_key s') j <> 0 -> word_at (site_key s2) j = word_at (site_key s') j) ->
  length (site_key s) = SITE_SLOTS -> site_slot key s2 = (i, s2).
Proof.
  intros Hk. unfold site_slot. pose proof (site_hash_lt key) as Hh. revert Hh. generalize (site_hash key).
  generalize SITE_SLOTS at 2 4. intros n. induction n as [|n IH]; intros h Hh; cbn [site_probe]; [intros [= <- <-]; done|].
  set (j := if (h =? 0)%nat then 1%nat else h). intros H Hi Hext Hl.
  assert (j < SITE_SLOTS)%nat as Hj by (unfold j; destruct (Nat.eqb_spec h 0); unfold SITE_SLOTS in *; lia).
  destruct (Z.eqb_spec (word_at (site_key s) j) key) as [Ek|Ek].
  { injection H as <- <-. rewrite Hext by congruence. rewrite Ek, Z.eqb_refl. done. }
  destruct (Z.eqb_spec (word_at (site_key s) j) 0) as [E0|E0].
  - injection H as <- <-. cbn in Hext. specialize (Hext j). rewrite word_at_insert_eq in Hext by by rewrite Hl.
    rewrite (Hext Hk), Z.eqb_refl. done.
  - assert ((j + 1) mod SITE_SLOTS < SITE_SLOTS)%nat as Hm by by apply Nat.mod_upper_bound.
    destruct (site_probe_spec n _ key s i s' H Hl Hm) as (_ & _ & _ & _ & _ & _ & _ & Hkeep).
    rewrite (Hext j) by (by rewrite Hkeep). rewrite (Hkeep j E0).
    rewrite (proj2 (Z.eqb_neq _ _) Ek), (proj2 (Z.eqb_neq _ _) E0). by apply (IH _ Hm H Hi Hext Hl).
Qed.

(** ** Charging a block *)
Lemma tagged_write i (slot : Z) first n ts :
  (first + n <= length ts)%nat -> (forall k, (first <= k < first + n)%nat -> word_at ts k = 0) -> 1 <= i ->
  tagged i (foldl (fun ts pfn => <[pfn := slot]> ts) ts (seq first n)) = tagged i ts + (if decide (slot = i) then Z.of_nat n else 0).
Proof.
  revert first ts. induction n as [|n IH]; intros first ts Hn Hz Hi; cbn [seq foldl]; [case_decide; lia|].
  destruct (lookup_lt_is_Some_2 ts first) as [y Hy]; [lia|].
  assert (y = 0) as -> by (specialize (Hz first ltac:(lia)); unfold word_at in Hz; by rewrite Hy in Hz).
  rewrite IH; [|rewrite length_insert; lia| |done].
  - rewrite (tagged_insert i ts first slot 0 Hy), (decide_False (P := 0 = i)) by lia. repeat case_decide; lia.
  - intros k Hk. rewrite word_at_insert_ne by lia. apply Hz. lia.
Qed.

(** Charging an untagged block keeps the accounts and tags its pages. *)
Lemma charge_block_spec key addr order s :
  accounted s -> Z.of_nat (block_first addr + 2 ^ order) <= tag_pages s \/ tags s = None ->
  (forall k, in_pages addr order k -> tag_at s k = 0) ->
  let s' := charge_block key addr order s in
  accounted s' /\ tag_pages s' = tag_pages s /\ (tags s' = None <-> tags s = None)
  /\ forall k, ~ in_pages addr order k -> tag_at s' k = tag_at s k.
Proof.
  intros A Hfit Hz s'. pose proof A as [A1 A2 A3 A4 A5 A6]. unfold s', charge_block, tag_at in *. destruct (tags s) as [ts|] eqn:Et.
  2: { rewrite Et. done. }
  destruct Hfit as [Hfit|]; [|done]. destruct (site_slot key s) as [slot s1] eqn:Es.
  destruct (site_slot_spec _ _ _ _ Es A1) as (B1 & B2 & B3 & B4 & B5 & B6). clear Es.
  set (c := charge slot _ s1). destruct (charge_same slot (Z.shiftl 1 (Z.of_nat order)) s1) as [C1 C2 C3 C4 C5]. fold c in C1, C2, C3, C4, C5.
  unfold tag_block. rewrite C4, B5, Et. unfold block_last. rewrite C5, B6.
  rewrite (Nat.min_l (block_first addr + 2 ^ order)) by lia. unfold write_tags. replace (block_first addr + 2 ^ order - block_first addr)%nat with (2 ^ order)%nat by lia.
  assert (length ts = Z.to_nat (tag_pages s)) as Hlen by by apply A4. unfold in_pages in *.
  split; [split; cbn; try congruence|split; [cbn; congruence|split; [done|]]].
  - intros ts' [= <-]. rewrite length_write, C5, B6. done.
  - intros ts' [= <-]. apply Forall_lookup. intros k x Hk. rewrite write_tags_lookup in Hk. case_decide.
    + injection Hk as <-. unfold SITE_SLOTS in B1. lia.
    + by apply (proj1 (Forall_lookup _ _) (A5 ts eq_refl) k).
  - intros ts' i [= <-] Hi. rewrite tagged_write; [|lia|exact Hz|lia]. unfold c. rewrite charge_pages by (rewrite B3; lia).
    rewrite B3, (A6 ts i eq_refl Hi), Z.shiftl_mul_pow2, Z.mul_1_l by lia.
    destruct (decide (slot = i)), (decide (Z.of_nat slot = Z.of_nat i)); rewrite ?Nat2Z.inj_pow; lia.
  - intros k Hk. cbn. rewrite word_at_write, decide_False by lia. done.
Qed.
