(* ===== verification/Buddy.v ===== *)
(** * The buddy allocator of physical pages

    Models [src/mm/src/buddy.rs].  The free lists are intrusive: the three words
    a free block keeps at offsets 0, 8 and 16 of its first page are the [node]
    of its address in [mem]; writes through [phys_to_virt] are updates of that
    map.  [None] is the halt on a corrupt link ([report_bad_link]).  The page
    tags of the call-site accounting are the component [acct] (see [PageSites]);
    the console reports are left out. *)
From S2P Require Import Prelude KLib PageSites.

Definition MAX_ORDER : nat := 19.
Definition MAX_RESERVED : nat := 8.
Definition LOW_RESERVED_END : Z := Z.shiftl 1 20.

Record node := mkNode { n_next : Z; n_prev : Z; n_order : Z }.

Record buddy := mkBuddy {
  heads : list (option Z);
  mem : gmap Z node;
  bitmap : list Z;
  cover_end : Z;
  phys_end : Z;
  bitmap_phys : Z;
  bitmap_phys_end : Z;
  reserved : list (Z * Z);
  free_pages : Z;
  total_pages : Z;
  bad_frees : Z;
  acct : sites }.

Definition buddy_eta (s : buddy) : buddy :=
  mkBuddy (heads s) (mem s) (bitmap s) (cover_end s) (phys_end s) (bitmap_phys s) (bitmap_phys_end s)
    (reserved s) (free_pages s) (total_pages s) (bad_frees s) (acct s).
Definition set_heads : list (option Z) -> buddy -> buddy := ltac:(setter buddy_eta heads).
Definition set_mem : gmap Z node -> buddy -> buddy := ltac:(setter buddy_eta mem).
Definition set_bitmap : list Z -> buddy -> buddy := ltac:(setter buddy_eta bitmap).
Definition set_phys_end : Z -> buddy -> buddy := ltac:(setter buddy_eta phys_end).
Definition set_reserved : list (Z * Z) -> buddy -> buddy := ltac:(setter buddy_eta reserved).
Definition set_free_pages : Z -> buddy -> buddy := ltac:(setter buddy_eta free_pages).
Definition set_total_pages : Z -> buddy -> buddy := ltac:(setter buddy_eta total_pages).
Definition set_bad_frees : Z -> buddy -> buddy := ltac:(setter buddy_eta bad_frees).
Definition set_acct : sites -> buddy -> buddy := ltac:(setter buddy_eta acct).

(** The allocator before [init_from_map]: only [reserve_range] has run. *)
Definition empty (rs : list (Z * Z)) : buddy :=
  mkBuddy (replicate MAX_ORDER None) ∅ [] 0 0 0 0 rs 0 0 0 sites_new.

(** ** Links *)
(** Memory that was never written reads as zero. *)
Definition node_at (s : buddy) (addr : Z) : node := default (mkNode 0 0 0) (mem s !! addr).
Definition write_node (addr : Z) (n : node) (s : buddy) : buddy := set_mem (<[addr := n]> (mem s)) s.

Definition node_next (s : buddy) (addr : Z) : Z := n_next (node_at s addr).
Definition node_prev (s : buddy) (addr : Z) : Z := n_prev (node_at s addr).
Definition node_order (s : buddy) (addr : Z) : Z := n_order (node_at s addr).
Definition node_set_next (addr v : Z) (s : buddy) : buddy :=
  write_node addr (mkNode v (node_prev s addr) (node_order s addr)) s.
Definition node_set_prev (addr v : Z) (s : buddy) : buddy :=
  write_node addr (mkNode (node_next s addr) v (node_order s addr)) s.
Definition node_set_order (addr v : Z) (s : buddy) : buddy :=
  write_node addr (mkNode (node_next s addr) (node_prev s addr) v) s.

Definition link_ok (s : buddy) (v : Z) : bool :=
  (v =? 0) || ((Z.land v (PAGE_SIZE - 1) =? 0) && (v <? phys_end s)).
Definition check_links (s : buddy) (next prev : Z) : option unit :=
  if negb (link_ok s next) then None else if negb (link_ok s prev) then None else Some tt.

(** ** The bitmap of free-block heads *)
Definition covered (s : buddy) (addr : Z) : bool := addr <? cover_end s.
Definition page_of (addr : Z) : nat := Z.to_nat (addr / PAGE_SIZE).
Definition head_bit_set (addr : Z) (v : bool) (s : buddy) : buddy :=
  if negb (covered s addr) then s
  else set_bitmap (if v then Bitmap.set (bitmap s) (page_of addr) else Bitmap.clear (bitmap s) (page_of addr)) s.
Definition head_bit (s : buddy) (addr : Z) : bool := Bitmap.get (bitmap s) (page_of addr).

(** ** List operations *)
Definition head_of (s : buddy) (order : nat) : option Z := mjoin (heads s !! order).
Definition set_head (order : nat) (h : option Z) (s : buddy) : buddy := set_heads (<[order := h]> (heads s)) s.
(** A link word as a head: [if next == 0 { None } else { Some(next) }]. *)
Definition link (v : Z) : option Z := if v =? 0 then None else Some v.

Definition push_front (order : nat) (addr : Z) (s : buddy) : buddy :=
  let old_head := head_of s order in
  let s := node_set_next addr (default 0 old_head) s in
  let s := node_set_prev addr 0 s in
  let s := node_set_order addr (Z.of_nat order) s in
  let s := match old_head with Some h => node_set_prev h addr s | None => s end in
  let s := head_bit_set addr true s in
  set_head order (Some addr) s.

Definition unlink (order : nat) (addr : Z) (s : buddy) : option buddy :=
  let next := node_next s addr in
  let prev := node_prev s addr in
  _ ← check_links s next prev;
  let s := if negb (prev =? 0) then node_set_next prev next s else set_head order (link next) s in
  let s := if negb (next =? 0) then node_set_prev next prev s else s in
  Some (head_bit_set addr false s).

(** The walk of [lists[order]]; a list without a cycle is not longer than the
    number of nodes ever written. *)
Fixpoint walk_remove (fuel : nat) (order : nat) (target : Z) (cur : option Z) (s : buddy) : option (bool * buddy) :=
  match fuel, cur with
  | O, _ => None
  | S f, None => Some (false, s)
  | S f, Some addr =>
      let next := node_next s addr in
      _ ← check_links s next 0;
      if addr =? target then s ← unlink order addr s; Some (true, s)
      else walk_remove f order target (link next) s
  end.

Definition try_remove (order : nat) (target : Z) (s : buddy) : option (bool * buddy) :=
  if covered s target then
    if negb (head_bit s target) || negb (node_order s target =? Z.of_nat order) then Some (false, s)
    else s ← unlink order target s; Some (true, s)
  else walk_remove (S (size (mem s))) order target (head_of s order) s.

(** ** Reserved ranges *)
Definition empty_range (r : Z * Z) : bool := r.1 =? r.2.
Fixpoint reserve_slot (start end_ : Z) (rs : list (Z * Z)) : list (Z * Z) :=
  match rs with
  | [] => []
  | r :: rs =>
      if empty_range r then (Align.align_down start PAGE_SIZE, Align.align_up end_ PAGE_SIZE) :: rs
      else r :: reserve_slot start end_ rs
  end.
Definition reserve_range (start end_ : Z) (s : buddy) : buddy :=
  if end_ <=? start then s else set_reserved (reserve_slot start end_ (reserved s)) s.

Definition touches (addr size : Z) (r : Z * Z) : bool :=
  negb (empty_range r) && ((addr <? r.2) && (r.1 <? addr + size)).
Definition overlaps_reserved (s : buddy) (addr size : Z) : bool :=
  touches addr size (bitmap_phys s, bitmap_phys_end s) || existsb (touches addr size) (reserved s).

(** ** Allocation *)
Definition block_size (order : nat) : Z := Z.shiftl PAGE_SIZE (Z.of_nat order).

(** [for split in (order..o).rev() { push_front(split, addr + (PAGE_SIZE << split)) }] *)
Definition split_down (order o : nat) (addr : Z) (s : buddy) : buddy :=
  foldl (fun s split => push_front split (addr + block_size split) s) s (rev (seq order (o - order))).

Definition take_pages (order : nat) (s : buddy) : buddy :=
  set_free_pages (wrap64 (free_pages s - Z.shiftl 1 (Z.of_nat order))) s.

(** Popping the head of [lists[o]]. *)
Definition pop_head (o : nat) (addr : Z) (s : buddy) : option buddy :=
  let s := set_head o None s in
  let next := node_next s addr in
  _ ← check_links s next 0;
  let s := if negb (next =? 0) then set_head o (Some next) (node_set_prev next 0 s) else set_head o None s in
  Some (head_bit_set addr false s).

Fixpoint alloc_scan (order : nat) (os : list nat) (s : buddy) : option (option Z * buddy) :=
  match os with
  | [] => Some (None, s)
  | o :: os =>
      match head_of s o with
      | Some addr =>
          s ← pop_head o addr s;
          Some (Some addr, take_pages order (split_down order o addr s))
      | None => alloc_scan order os s
      end
  end.
Definition alloc_untracked (order : nat) (s : buddy) : option (option Z * buddy) :=
  if (MAX_ORDER <=? order)%nat then Some (None, s)
  else alloc_scan order (seq order (MAX_ORDER - order)) s.

(** One list of [alloc_below_untracked]: the first block that fits. *)
Fixpoint below_walk (fuel : nat) (order o : nat) (limit : Z) (cur : option Z) (s : buddy) : option (option Z * buddy) :=
  match fuel, cur with
  | O, _ => None
  | S f, None => Some (None, s)
  | S f, Some addr =>
      let next := node_next s addr in
      _ ← check_links s next 0;
      if addr + block_size order <=? limit then
        s ← unlink o addr s;
        Some (Some addr, take_pages order (split_down order o addr s))
      else below_walk f order o limit (link next) s
  end.
Fixpoint below_scan (order : nat) (limit : Z) (os : list nat) (s : buddy) : option (option Z * buddy) :=
  match os with
  | [] => Some (None, s)
  | o :: os =>
      r ← below_walk (S (size (mem s))) order o limit (head_of s o) s;
      match r with
      | (Some addr, s) => Some (Some addr, s)
      | (None, s) => below_scan order limit os s
      end
  end.
Definition alloc_below_untracked (order : nat) (limit : Z) (s : buddy) : option (option Z * buddy) :=
  if (MAX_ORDER <=? order)%nat then Some (None, s)
  else below_scan order limit (seq order (MAX_ORDER - order)) s.

(** ** Freeing *)
Definition report_bad_free (s : buddy) : buddy := set_bad_frees (wrap64 (bad_frees s + 1)) s.

(** The checks of [free] that do not take the lock. *)
Definition refuse (s : buddy) (addr : Z) (order : nat) : bool :=
  (addr =? 0)
  || negb (Z.land addr (block_size order - 1) =? 0)
  || (negb (phys_end s =? 0) && ((2 ^ 64 <=? addr + block_size order) || (phys_end s <? addr + block_size order)))
  || overlaps_reserved s addr (block_size order).

(** The coalescing loop; each round raises the order, so [MAX_ORDER] rounds are
    enough. *)
Fixpoint coalesce (fuel : nat) (addr : Z) (order : nat) (s : buddy) : option (Z * nat * buddy) :=
  match fuel with
  | O => Some (addr, order, s)
  | S f =>
      if negb (order + 1 <? MAX_ORDER)%nat then Some (addr, order, s)
      else
        let b := Z.lxor addr (block_size order) in
        if overlaps_reserved s b (block_size order) then Some (addr, order, s)
        else
          r ← try_remove order b s;
          match r with
          | (false, s) => Some (addr, order, s)
          | (true, s) => coalesce f (Z.min addr b) (order + 1)%nat s
          end
  end.

Definition free (addr : Z) (order : nat) (s : buddy) : option buddy :=
  if (MAX_ORDER <=? order)%nat then Some (report_bad_free s)
  else if refuse s addr order then Some (report_bad_free s)
  else if covered s addr && head_bit s addr then Some (report_bad_free s)
  else
    let s := set_acct (untag_block addr order (acct s)) s in
    let s := set_free_pages (wrap64 (free_pages s + Z.shiftl 1 (Z.of_nat order))) s in
    r ← coalesce MAX_ORDER addr order s;
    let '(addr, order, s) := r in
    Some (push_front order addr s).

(** ** What the allocator holds

    [L o] is the free list of order [o], in list order. *)
Definition in_block (a : Z) (o : nat) (x : Z) : Prop := a <= x < a + block_size o.
Definition free_in (L : nat -> list Z) (x : Z) : Prop := exists o a, a ∈ L o /\ in_block a o x.

(** A block that may be on a list: not at address 0, naturally aligned, inside
    RAM and clear of every reserved range. *)
Record usable (s : buddy) (a : Z) (o : nat) : Prop := {
  us_pos : 0 < a;
  us_align : (block_size o | a);
  us_end : a + block_size o <= phys_end s;
  us_res : overlaps_reserved s a (block_size o) = false }.

Definition clear_of (L : nat -> list Z) (a : Z) (o : nat) : Prop :=
  forall o' a' x, a' ∈ L o' -> in_block a' o' x -> in_block a o x -> False.

(** The state that the operations only read. *)
Record frame_ok (s : buddy) : Prop := {
  fr_heads : length (heads s) = MAX_ORDER;
  fr_bitmap : Bitmap.wf (length (bitmap s)) (bitmap s);
  fr_cover : cover_end s <= PAGE_SIZE * 64 * Z.of_nat (length (bitmap s));
  fr_phys : phys_end s < 2 ^ 64;
  fr_ranges : Forall (fun r => r.1 <= r.2) ((bitmap_phys s, bitmap_phys_end s) :: reserved s) }.

Record rep (s : buddy) (L : nat -> list Z) : Prop := {
  r_frame : frame_ok s;
  r_heads : forall o, head_of s o = List.head (L o);
  r_out : forall o, (MAX_ORDER <= o)%nat -> L o = [];
  r_links : forall o l1 a l2, L o = l1 ++ a :: l2 ->
    mem s !! a = Some (mkNode (List.hd 0 l2) (List.last l1 0) (Z.of_nat o));
  r_block : forall o a, a ∈ L o -> usable s a o;
  r_disj : forall o a o' a' x, a ∈ L o -> a' ∈ L o' -> in_block a o x -> in_block a' o' x -> o = o' /\ a = a';
  r_nodup : forall o, NoDup (L o);
  r_bits : forall a, 0 <= a < cover_end s -> (PAGE_SIZE | a) ->
    head_bit s a = true <-> exists o, a ∈ L o }.

Definition upd (o : nat) (l : list Z) (L : nat -> list Z) (o' : nat) : list Z :=
  if decide (o = o') then l else L o'.

(** Free pages of a set of lists. *)
Definition total (L : nat -> list Z) : Z :=
  foldr (fun o n => Z.of_nat (length (L o)) * 2 ^ Z.of_nat o + n) 0 (seq 0 MAX_ORDER).

(** No two buddies of one order are both free: they would be one block. *)
Definition merged (L : nat -> list Z) : Prop :=
  forall o a, (o + 1 < MAX_ORDER)%nat -> a ∈ L o -> Z.lxor a (block_size o) ∉ L o.

(** The allocator's invariant: the lists are represented, the free-page counter
    counts them, and everything that can be merged is. *)
Record buddy_ok (s : buddy) (L : nat -> list Z) : Prop := {
  ok_rep : rep s L;
  ok_pages : free_pages s = wrap64 (total L);
  ok_merged : merged L }.

(** ** Sizes *)
Lemma block_size_eq o : block_size o = 4096 * 2 ^ Z.of_nat o.
Proof. unfold block_size, PAGE_SIZE. rewrite Z.shiftl_mul_pow2 by lia. done. Qed.

Lemma block_size_pow o : block_size o = 2 ^ (12 + Z.of_nat o).
Proof. rewrite block_size_eq, Z.pow_add_r by lia. done. Qed.

Lemma block_size_pos o : 0 < block_size o.
Proof. rewrite block_size_pow. apply Z.pow_pos_nonneg; lia. Qed.

Lemma block_size_S o : block_size (S o) = 2 * block_size o.
Proof. rewrite !block_size_eq, Nat2Z.inj_succ, Z.pow_succ_r by lia. lia. Qed.

Lemma page_divides o : (PAGE_SIZE | block_size o).
Proof. rewrite block_size_eq. exists (2 ^ Z.of_nat o). unfold PAGE_SIZE. lia. Qed.

Lemma block_page o : PAGE_SIZE <= block_size o.
Proof. rewrite block_size_eq. unfold PAGE_SIZE. pose proof (Z.pow_pos_nonneg 2 (Z.of_nat o)). lia. Qed.

Lemma in_block_base a o : in_block a o a.
Proof. unfold in_block. pose proof (block_size_pos o). lia. Qed.

Lemma page_of_inj a b : 0 <= a -> 0 <= b -> (PAGE_SIZE | a) -> (PAGE_SIZE | b) -> page_of a = page_of b -> a = b.
Proof.
  intros Ha Hb [x ->] [y ->]. unfold page_of, PAGE_SIZE in *. rewrite !Z.div_mul by lia. lia.
Qed.

Lemma list_last_split (l : list Z) : l <> [] -> exists l' x, l = l' ++ [x] /\ List.last l 0 = x.
Proof. intros H. destruct (List.exists_last H) as (l' & x & ->). exists l', x. split; [done|]. by rewrite List.last_last. Qed.

(** ** Facts of a represented state *)
Section facts.
Context (s : buddy) (L : nat -> list Z) (R : rep s L).

Lemma rep_order o a : a ∈ L o -> (o < MAX_ORDER)%nat.
Proof.
  intros Ha. destruct (decide (o < MAX_ORDER)%nat); [done|]. rewrite (r_out s L R) in Ha by lia.
  by apply elem_of_nil in Ha.
Qed.

Lemma rep_same o o' a : a ∈ L o -> a ∈ L o' -> o = o'.
Proof. intros H H'. by destruct (r_disj s L R o a o' a a H H' (in_block_base a o) (in_block_base a o')). Qed.

Lemma rep_link_ok o a : a = 0 \/ a ∈ L o -> link_ok s a = true.
Proof.
  intros [->|Ha]; [done|]. destruct (r_block s L R o a Ha) as [Hp [k Hk] He _].
  unfold link_ok. apply orb_true_iff. right. apply andb_true_iff. split.
  - apply Z.eqb_eq. change (PAGE_SIZE - 1) with (Z.ones 12). rewrite Z.land_ones by lia.
    destruct (page_divides o) as [c Hc]. rewrite Hk, Hc. unfold PAGE_SIZE.
    replace (k * (c * 4096)) with (k * c * 2 ^ 12) by lia. apply Z.mod_mul. lia.
  - apply Z.ltb_lt. pose proof (block_size_pos o). lia.
Qed.

Lemma rep_split o a : a ∈ L o -> exists l1 l2, L o = l1 ++ a :: l2.
Proof. apply list_elem_of_split. Qed.

Lemma rep_node o l1 a l2 : L o = l1 ++ a :: l2 -> node_at s a = mkNode (List.hd 0 l2) (List.last l1 0) (Z.of_nat o).
Proof. intros H. unfold node_at. by rewrite (r_links s L R o l1 a l2 H). Qed.

Lemma rep_pos o a : a ∈ L o -> 0 < a.
Proof. intros H. apply (r_block s L R o a H). Qed.

Lemma rep_hd o l1 l2 : L o = l1 ++ l2 -> List.hd 0 l2 = 0 \/ List.hd 0 l2 ∈ L o.
Proof. intros ->. destruct l2 as [|x l2]; [by left|right]. cbn. apply elem_of_app. right. left. Qed.

Lemma rep_last o l1 l2 : L o = l1 ++ l2 -> List.last l1 0 = 0 \/ List.last l1 0 ∈ L o.
Proof.
  intros ->. destruct (decide (l1 = [])) as [->|Hne]; [by left|right].
  destruct (list_last_split l1 Hne) as (l' & x & -> & ->). set_solver.
Qed.

Lemma rep_link o l1 l2 : L o = l1 ++ l2 -> link (List.hd 0 l2) = List.head l2.
Proof.
  intros H. destruct l2 as [|x l2]; [done|]. cbn. unfold link.
  assert (0 < x) by (apply (rep_pos o); rewrite H; set_solver). by rewrite (proj2 (Z.eqb_neq _ _)) by lia.
Qed.

Lemma rep_check o l1 a l2 : L o = l1 ++ a :: l2 -> check_links s (List.hd 0 l2) (List.last l1 0) = Some tt.
Proof.
  intros H. unfold check_links. rewrite (rep_link_ok o), (rep_link_ok o); [done| |].
  - by apply (rep_last o l1 (a :: l2)).
  - apply (rep_hd o (l1 ++ [a])). by rewrite <- app_assoc.
Qed.

Lemma rep_next_ok o l1 l2 : L o = l1 ++ l2 -> check_links s (List.hd 0 l2) 0 = Some tt.
Proof.
  intros H. unfold check_links. rewrite (rep_link_ok o) by by apply (rep_hd o l1).
  by rewrite (rep_link_ok o) by by left.
Qed.
End facts.

(** ** Effects, field by field *)
Record same_frame (s s' : buddy) : Prop := {
  sf_cover : cover_end s' = cover_end s;
  sf_phys : phys_end s' = phys_end s;
  sf_bs : bitmap_phys s' = bitmap_phys s;
  sf_be : bitmap_phys_end s' = bitmap_phys_end s;
  sf_res : reserved s' = reserved s;
  sf_heads : length (heads s') = length (heads s);
  sf_bits : length (bitmap s') = length (bitmap s);
  sf_acct : acct s' = acct s }.

#[export] Instance same_frame_preorder : PreOrder same_frame.
Proof.
  split; [by intros s|]. intros s1 s2 s3 [A1 A2 A3 A4 A5 A6 A7 A8] [B1 B2 B3 B4 B5 B6 B7 B8]. split; congruence.
Qed.

Lemma frame_head_bit a v s : same_frame s (head_bit_set a v s).
Proof.
  unfold head_bit_set. destruct (covered s a); [|by split]. split; try done. cbn.
  unfold Bitmap.set, Bitmap.clear. destruct v; by rewrite length_insert.
Qed.
Lemma frame_set_head o h s : same_frame s (set_head o h s).
Proof. split; try done. cbn. by rewrite length_insert. Qed.
Lemma frame_node a n s : same_frame s (write_node a n s).
Proof. by split. Qed.
#[export] Hint Resolve frame_head_bit frame_set_head frame_node : kernel.

Lemma frame_push o a s : same_frame s (push_front o a s).
Proof.
  unfold push_front. etrans; [|apply frame_set_head]. etrans; [|apply frame_head_bit].
  destruct (head_of s o); by split.
Qed.

Lemma overlaps_frame s s' a n : same_frame s s' -> overlaps_reserved s' a n = overlaps_reserved s a n.
Proof. intros [_ _ E1 E2 E3 _ _ _]. unfold overlaps_reserved. by rewrite E1, E2, E3. Qed.

Lemma usable_frame s s' a o : same_frame s s' -> usable s a o -> usable s' a o.
Proof.
  intros F [H1 H2 H3 H4]. split; [done|done| |].
  - by rewrite (sf_phys s s' F).
  - by rewrite (overlaps_frame s s').
Qed.

Lemma frame_frame_ok s s' : same_frame s s' -> Bitmap.wf (length (bitmap s')) (bitmap s') -> frame_ok s -> frame_ok s'.
Proof.
  intros [E1 E2 E3 E4 E5 E6 E7 _] Hw [H1 H2 H3 Hp H4]. split; [congruence|done| |by rewrite E2|].
  - by rewrite E1, E7.
  - by rewrite E3, E4, E5.
Qed.

Lemma covered_page s a : frame_ok s -> 0 <= a < cover_end s -> (page_of a < length (bitmap s) * 64)%nat.
Proof.
  intros [_ _ H _ _] Ha. unfold page_of. assert (a / PAGE_SIZE < 64 * Z.of_nat (length (bitmap s))).
  { apply Z.div_lt_upper_bound; unfold PAGE_SIZE in *; lia. }
  assert (0 <= a / PAGE_SIZE) by (apply Z.div_pos; unfold PAGE_SIZE; lia). lia.
Qed.

(** The bit of one block head, written. *)
Lemma head_bit_write s a v b :
  frame_ok s -> 0 <= a -> (PAGE_SIZE | a) -> 0 <= b < cover_end s -> (PAGE_SIZE | b) ->
  Bitmap.wf (length (bitmap (head_bit_set a v s))) (bitmap (head_bit_set a v s))
  /\ head_bit (head_bit_set a v s) b = if decide (a = b) then v else head_bit s b.
Proof.
  intros Hf Ha0 Ha Hb Hbd. unfold head_bit_set, covered, head_bit.
  destruct (Z.ltb_spec a (cover_end s)) as [Hc|Hc]; cbn [negb].
  - pose proof (fr_bitmap s Hf) as Hw. pose proof (covered_page s a Hf (conj Ha0 Hc)) as Hp. split.
    + cbn [bitmap set_bitmap]. unfold Bitmap.set, Bitmap.clear.
      destruct v; rewrite length_insert; [by apply (Bitmap.wf_set _ _ (page_of a))|by apply (Bitmap.wf_clear _ _ (page_of a))].
    + cbn [bitmap set_bitmap]. assert (bool_decide (page_of a = page_of b) = bool_decide (a = b)) as E.
      { apply bool_decide_ext. split; [|by intros ->]. apply page_of_inj; done || lia. }
      destruct v; [rewrite (Bitmap.get_set _ _ _ _ Hw Hp)|rewrite (Bitmap.get_clear _ _ _ _ Hw Hp)]; rewrite E; clear E;
        (case_decide; [by rewrite bool_decide_eq_true_2|by rewrite bool_decide_eq_false_2]).
  - split; [apply Hf|]. rewrite decide_False by lia. done.
Qed.

Lemma head_bit_wf s a v :
  frame_ok s -> 0 <= a -> Bitmap.wf (length (bitmap (head_bit_set a v s))) (bitmap (head_bit_set a v s)).
Proof.
  intros Hf Ha. unfold head_bit_set, covered. destruct (Z.ltb_spec a (cover_end s)); cbn [negb]; [|apply Hf].
  pose proof (fr_bitmap s Hf) as Hw. cbn. unfold Bitmap.set, Bitmap.clear.
  destruct v; rewrite length_insert; [by apply (Bitmap.wf_set _ _ (page_of a))|by apply (Bitmap.wf_clear _ _ (page_of a))].
Qed.

(** Reading one field of the state after a bit write or a list-head write. *)
Lemma mem_head_bit a v s : mem (head_bit_set a v s) = mem s.
Proof. unfold head_bit_set. by destruct (covered s a). Qed.
Lemma heads_head_bit a v s : heads (head_bit_set a v s) = heads s.
Proof. unfold head_bit_set. by destruct (covered s a). Qed.
Lemma free_pages_head_bit a v s : free_pages (head_bit_set a v s) = free_pages s.
Proof. unfold head_bit_set. by destruct (covered s a). Qed.

Lemma node_at_write s a n b : node_at (write_node a n s) b = if decide (a = b) then n else node_at s b.
Proof.
  unfold node_at, write_node. cbn [mem set_mem]. case_decide as E.
  - subst. by rewrite lookup_insert_eq.
  - by rewrite lookup_insert_ne.
Qed.

Lemma mem_write s a n b : mem (write_node a n s) !! b = if decide (a = b) then Some n else mem s !! b.
Proof.
  unfold write_node. cbn [mem set_mem]. case_decide as E; [subst; by rewrite lookup_insert_eq|by rewrite lookup_insert_ne].
Qed.

Lemma push_mem o a s b :
  head_of s o <> Some a ->
  mem (push_front o a s) !! b
  = if decide (a = b) then Some (mkNode (default 0 (head_of s o)) 0 (Z.of_nat o))
    else if decide (head_of s o = Some b) then Some (mkNode (node_next s b) a (node_order s b))
    else mem s !! b.
Proof.
  intros Hne. unfold push_front.
  cbn [mem set_head set_heads]. rewrite mem_head_bit.
  unfold node_set_next, node_set_prev, node_set_order, node_next, node_prev, node_order.
  destruct (head_of s o) as [h|] eqn:Eh.
  - rewrite mem_write. destruct (decide (h = b)) as [->|Hb].
    + rewrite decide_False by congruence. rewrite decide_True by done.
      rewrite !node_at_write. rewrite !(decide_False (P := a = b)) by congruence. done.
    + rewrite !mem_write, !node_at_write. rewrite !(decide_True (P := a = a)) by done.
      destruct (decide (a = b)); [done|]. rewrite decide_False by congruence. done.
  - rewrite !mem_write, !node_at_write. rewrite !(decide_True (P := a = a)) by done.
    destruct (decide (a = b)); [done|]. rewrite decide_False by congruence. done.
Qed.

Lemma push_bits o a s : bitmap (push_front o a s) = bitmap (head_bit_set a true s).
Proof.
  unfold push_front, head_bit_set. cbn. destruct (head_of s o); unfold covered; cbn; by destruct (a <? cover_end s).
Qed.

Lemma head_of_set o h s o' :
  (o < length (heads s))%nat -> head_of (set_head o h s) o' = if decide (o = o') then h else head_of s o'.
Proof.
  intros Ho. unfold head_of, set_head. cbn [heads set_heads]. case_decide as E.
  - subst. by rewrite list_lookup_insert_eq.
  - by rewrite list_lookup_insert_ne.
Qed.

Lemma push_heads o a s o' :
  (o < length (heads s))%nat -> head_of (push_front o a s) o' = if decide (o = o') then Some a else head_of s o'.
Proof.
  intros Ho. unfold push_front. rewrite head_of_set.
  - case_decide; [done|]. unfold head_of. rewrite heads_head_bit. by destruct (mjoin (heads s !! o)).
  - rewrite heads_head_bit. by destruct (head_of s o).
Qed.

(** ** Pushing a block *)
Lemma upd_eq o l L : upd o l L o = l.
Proof. unfold upd. by rewrite decide_True. Qed.
Lemma upd_ne o l L o' : o <> o' -> upd o l L o' = L o'.
Proof. intros. unfold upd. by rewrite decide_False. Qed.

Lemma usable_page s a o : usable s a o -> 0 <= a /\ (PAGE_SIZE | a).
Proof.
  intros [H1 H2 _ _]. split; [lia|]. etrans; [apply (page_divides o)|done].
Qed.

(** The new list is linked: the node of every element of [a :: L o]. *)
Lemma links_push s L o a :
  rep s L -> (forall o', a ∉ L o') -> forall o' l1 b l2, upd o (a :: L o) L o' = l1 ++ b :: l2 ->
  mem (push_front o a s) !! b = Some (mkNode (List.hd 0 l2) (List.last l1 0) (Z.of_nat o')).
Proof.
  intros R Hna o' l1 b l2 E.
  assert (head_of s o = List.head (L o)) as Hh by apply R.
  assert (head_of s o <> Some a) as Hne.
  { rewrite Hh. destruct (L o) as [|x l] eqn:El; [done|]. intros [= ->]. apply (Hna o). rewrite El. left. }
  rewrite (push_mem o a s b Hne). destruct (decide (o = o')) as [<-|Ho].
  - rewrite upd_eq in E. destruct l1 as [|x l1]; cbn [app] in E; injection E as <- E.
    + rewrite decide_True by done. rewrite Hh, E. by destruct l2.
    + assert (a <> b) as Hab by (intros ->; apply (Hna o); rewrite E; set_solver). rewrite decide_False by done.
      pose proof (r_links s L R o l1 b l2 E) as Hb. destruct l1 as [|y l1].
      * rewrite Hh, E. cbn [app List.head]. rewrite decide_True by done.
        unfold node_next, node_order, node_at. rewrite Hb. done.
      * rewrite decide_False; [exact Hb|]. rewrite Hh, E. cbn. intros [= ->].
        pose proof (r_nodup s L R o) as Hnd. rewrite E in Hnd. cbn in Hnd. apply NoDup_cons in Hnd as [Hnd _]. set_solver.
  - rewrite upd_ne in E by done. assert (b ∈ L o') as Hb by (rewrite E; set_solver).
    rewrite decide_False by (intros ->; by apply (Hna o')). rewrite decide_False; [by apply (r_links s L R)|].
    rewrite Hh. destruct (L o) as [|x l] eqn:El; [done|]. intros [= ->]. apply Ho.
    apply (rep_same s L R o o' b); [rewrite El; left|done].
Qed.

Lemma clear_notin L a o : clear_of L a o -> forall o', a ∉ L o'.
Proof. intros H o' Ha. exact (H o' a a Ha (in_block_base a o') (in_block_base a o)). Qed.

Lemma rep_push s L a o :
  rep s L -> (o < MAX_ORDER)%nat -> usable s a o -> clear_of L a o ->
  rep (push_front o a s) (upd o (a :: L o) L).
Proof.
  intros R Ho Hu Hc. pose proof (clear_notin L a o Hc) as Hna. pose proof (frame_push o a s) as F.
  pose proof (r_frame s L R) as Hf. destruct (usable_page s a o Hu) as [Ha0 Had].
  assert (forall o' b, b ∈ upd o (a :: L o) L o' <-> (o' = o /\ b = a) \/ b ∈ L o') as Hin.
  { intros o' b. unfold upd. case_decide as E; [subst; rewrite elem_of_cons; naive_solver|naive_solver]. }
  split.
  - apply (frame_frame_ok s); [done| |done]. rewrite push_bits. by apply head_bit_wf.
  - intros o'. rewrite push_heads by (by rewrite (fr_heads s Hf)). unfold upd. case_decide; [done|apply R].
  - intros o' Ho'. rewrite upd_ne by lia. by apply R.
  - by apply links_push.
  - intros o' b [[-> ->]|Hb]%Hin; [by apply (usable_frame s)|]. apply (usable_frame s); [done|by apply R].
  - intros o1 b1 o2 b2 x [[-> ->]|H1]%Hin [[-> ->]|H2]%Hin X1 X2; [done| | |by eapply (r_disj s L R)].
    + by destruct (Hc o2 b2 x).
    + by destruct (Hc o1 b1 x).
  - intros o'. unfold upd. case_decide as E; [subst; constructor; [apply Hna|apply R]|apply R].
  - intros b Hb Hbd. rewrite (sf_cover s _ F) in Hb. unfold head_bit. rewrite push_bits.
    destruct (head_bit_write s a true b Hf Ha0 Had Hb Hbd) as [_ E]. unfold head_bit in E. rewrite E. clear E.
    setoid_rewrite Hin. case_decide as E.
    + subst. split; [intros _; exists o; naive_solver|done].
    + etrans; [apply (r_bits s L R b Hb Hbd)|]. split; intros [o' H]; exists o'; naive_solver.
Qed.

(** ** Unlinking a block *)
Section unlinking.
Context (s : buddy) (L : nat -> list Z) (R : rep s L).
Context (o : nat) (a : Z) (k1 k2 : list Z) (E : L o = k1 ++ a :: k2).
Let pv := List.last k1 0.
Let nx := List.hd 0 k2.

Lemma unl_order : (o < MAX_ORDER)%nat.
Proof. apply (rep_order s L R o a). rewrite E. set_solver. Qed.

Lemma pv_pos : k1 <> [] -> pv <> 0 /\ pv ∈ k1.
Proof.
  intros H. destruct (list_last_split k1 H) as (l & x & Hl & Hx). unfold pv. rewrite Hx.
  assert (x ∈ k1) as Hin by (rewrite Hl; set_solver). split; [|done].
  assert (0 < x) by (apply (rep_pos s L R o); rewrite E; set_solver). lia.
Qed.
Lemma nx_pos : k2 <> [] -> nx <> 0 /\ nx ∈ k2.
Proof.
  intros H. unfold nx. destruct k2 as [|x l]; [done|]. cbn. split; [|left].
  assert (0 < x) by (apply (rep_pos s L R o); rewrite E; set_solver). lia.
Qed.
Lemma pv_zero : (pv =? 0) = bool_decide (k1 = []).
Proof.
  case_bool_decide as H; [unfold pv; by rewrite H|]. apply Z.eqb_neq. by apply pv_pos.
Qed.
Lemma nx_zero : (nx =? 0) = bool_decide (k2 = []).
Proof.
  case_bool_decide as H; [unfold nx; by rewrite H|]. apply Z.eqb_neq. by apply nx_pos.
Qed.

Let s1 := if bool_decide (k1 = []) then set_head o (link nx) s else node_set_next pv nx s.
Let s2 := if bool_decide (k2 = []) then s1 else node_set_prev nx pv s1.
Let s3 := head_bit_set a false s2.

Lemma unlink_eq : unlink o a s = Some s3.
Proof.
  pose proof (rep_node s L R o k1 a k2 E) as Hn.
  assert (check_links s nx pv = Some tt) as Hc by exact (rep_check s L R o k1 a k2 E).
  assert (node_next s a = nx) as Hx by (unfold node_next; by rewrite Hn).
  assert (node_prev s a = pv) as Hp by (unfold node_prev; by rewrite Hn).
  unfold unlink. rewrite Hx, Hp, Hc, pv_zero, nx_zero. cbn [mbind option_bind].
  unfold s3, s2, s1. by destruct (bool_decide (k1 = [])), (bool_decide (k2 = [])).
Qed.

Lemma unl_frame : same_frame s s3.
Proof.
  unfold s3. etrans; [|apply frame_head_bit]. unfold s2, s1.
  destruct (bool_decide (k1 = [])), (bool_decide (k2 = [])); eauto with kernel; (etrans; [|apply frame_node]); eauto with kernel.
Qed.

Lemma unl_pages : free_pages s3 = free_pages s.
Proof. unfold s3. rewrite free_pages_head_bit. unfold s2, s1. by destruct (bool_decide (k1 = [])), (bool_decide (k2 = [])). Qed.

Lemma unl_bits : bitmap s3 = bitmap (head_bit_set a false s).
Proof.
  unfold s3, head_bit_set, covered, s2, s1.
  destruct (bool_decide (k1 = [])), (bool_decide (k2 = [])); cbn; by destruct (a <? cover_end s).
Qed.

Lemma unl_heads o' : head_of s3 o' = if decide (o = o') then List.head (k1 ++ k2) else head_of s o'.
Proof.
  pose proof (r_frame s L R) as Hf. pose proof unl_order as Ho.
  assert (head_of s3 o' = head_of s1 o') as ->.
  { unfold s3, head_of. rewrite heads_head_bit. unfold s2. by destruct (bool_decide (k2 = [])). }
  unfold s1. case_bool_decide as H1.
  - rewrite head_of_set by (rewrite (fr_heads s Hf); lia). unfold nx. rewrite (rep_link s L R o (k1 ++ [a]) k2).
    + by rewrite H1.
    + by rewrite <- app_assoc.
  - change (head_of (node_set_next pv nx s) o') with (head_of s o'). case_decide as Eo; [subst o'|done].
    rewrite (r_heads s L R), E. by destruct k1.
Qed.

Lemma pv_nx : k1 <> [] -> k2 <> [] -> pv <> nx.
Proof.
  intros H1 H2 Heq. pose proof (r_nodup s L R o) as Hnd. rewrite E in Hnd. apply NoDup_app in Hnd as (_ & Hd & _).
  apply (Hd pv); [by apply pv_pos|]. rewrite Heq. right. by apply nx_pos.
Qed.

Lemma unl_mem b :
  mem s3 !! b
  = if decide (k1 <> [] /\ b = pv) then Some (mkNode nx (node_prev s b) (node_order s b))
    else if decide (k2 <> [] /\ b = nx) then Some (mkNode (node_next s b) pv (node_order s b))
    else mem s !! b.
Proof.
  pose proof pv_nx as Hpn. unfold s3. rewrite mem_head_bit. unfold s2, s1.
  destruct (bool_decide_reflect (k1 = [])), (bool_decide_reflect (k2 = [])).
  - by rewrite !decide_False by naive_solver.
  - unfold node_set_prev. rewrite mem_write. rewrite (decide_False (P := k1 <> [] /\ _)) by naive_solver.
    destruct (decide (nx = b)) as [<-|Hb]; [by rewrite decide_True|]. by rewrite decide_False by naive_solver.
  - unfold node_set_next. rewrite mem_write. destruct (decide (pv = b)) as [<-|Hb]; [by rewrite decide_True|].
    by rewrite !decide_False by naive_solver.
  - unfold node_set_prev. rewrite mem_write. destruct (decide (nx = b)) as [<-|Hb].
    + rewrite decide_False by naive_solver. rewrite decide_True by done. unfold node_next, node_order, node_set_next.
      rewrite !node_at_write, !decide_False by naive_solver. done.
    + unfold node_set_next. rewrite mem_write.
      destruct (decide (pv = b)) as [<-|Hb']; [by rewrite decide_True|]. by rewrite !decide_False by naive_solver.
Qed.

Lemma unl_nodup : NoDup k1 /\ NoDup k2 /\ a ∉ k1 /\ a ∉ k2 /\ forall x, x ∈ k1 -> x ∈ k2 -> False.
Proof.
  pose proof (r_nodup s L R o) as Hnd. rewrite E in Hnd. apply NoDup_app in Hnd as (N1 & Hd & N2).
  apply NoDup_cons in N2 as [Ha N2]. repeat split; try done; set_solver.
Qed.

(** The remaining elements are linked to each other: an element before the
    removed block, an element after it, an element of another list. *)
Lemma links_before l1 b k : k1 = l1 ++ b :: k -> mem s3 !! b = Some (mkNode (List.hd 0 (k ++ k2)) (List.last l1 0) (Z.of_nat o)).
Proof.
  intros E1. destruct unl_nodup as (N1 & _ & _ & _ & Hd).
  assert (L o = l1 ++ b :: (k ++ a :: k2)) as El by (rewrite E, E1, <- app_assoc; done).
  pose proof (r_links s L R _ _ _ _ El) as Hb. pose proof (rep_node s L R _ _ _ _ El) as Hn.
  assert (k1 <> []) as Hk1 by (rewrite E1; by destruct l1). rewrite unl_mem. destruct k as [|y k].
  - assert (pv = b) as -> by (unfold pv; rewrite E1; apply List.last_last). rewrite decide_True by done.
    unfold node_prev, node_order. by rewrite Hn.
  - assert (pv ∈ y :: k) as Hpv.
    { assert (y :: k <> []) as Hne by done. destruct (list_last_split _ Hne) as (l & x & Hl & _).
      unfold pv. rewrite E1, Hl, app_comm_cons, app_assoc, List.last_last. set_solver. }
    rewrite E1 in N1. apply NoDup_app in N1 as (_ & _ & N1). apply NoDup_cons in N1 as [Hbk _].
    assert (b <> pv) by (intros ->; done).
    assert (b ∈ k1) as Hb1 by (rewrite E1; set_solver).
    rewrite !decide_False; [done| |naive_solver]. intros [H2 ->]. apply (Hd nx); [done|by apply nx_pos].
Qed.

Lemma links_after k b l2 : k2 = k ++ b :: l2 -> mem s3 !! b = Some (mkNode (List.hd 0 l2) (List.last (k1 ++ k) 0) (Z.of_nat o)).
Proof.
  intros E2. destruct unl_nodup as (_ & N2 & _ & _ & Hd).
  assert (L o = (k1 ++ a :: k) ++ b :: l2) as El by (rewrite E, E2, <- app_assoc; done).
  pose proof (r_links s L R _ _ _ _ El) as Hb. pose proof (rep_node s L R _ _ _ _ El) as Hn.
  assert (k2 <> []) as Hk2 by (rewrite E2; by destruct k).
  assert (b ∈ k2) as Hb2 by (rewrite E2; set_solver).
  assert (~ (k1 <> [] /\ b = pv)) as Hnp by (intros [H1 ->]; apply (Hd pv); [by apply pv_pos|done]).
  rewrite unl_mem, decide_False by done. destruct k as [|y k].
  - assert (nx = b) as -> by (unfold nx; by rewrite E2). rewrite decide_True by done.
    unfold node_next, node_order. rewrite Hn, app_nil_r. done.
  - assert (y :: k <> []) as Hne by done. destruct (list_last_split _ Hne) as (l & x & Hl & _).
    rewrite decide_False.
    + rewrite Hb, Hl, app_comm_cons, !app_assoc, !List.last_last. done.
    + intros [_ Hbn]. unfold nx in Hbn. rewrite E2 in Hbn, N2. cbn in Hbn, N2. apply NoDup_cons in N2 as [N2 _].
      apply N2. rewrite <- Hbn. set_solver.
Qed.

Lemma links_unlink o' l1 b l2 :
  upd o (k1 ++ k2) L o' = l1 ++ b :: l2 ->
  mem s3 !! b = Some (mkNode (List.hd 0 l2) (List.last l1 0) (Z.of_nat o')).
Proof.
  destruct (decide (o = o')) as [<-|Ho].
  - rewrite upd_eq. intros E'. apply app_eq_inv in E' as [(k & Hk & Ek)|(k & Hk & Ek)].
    + destruct k as [|y k].
      * rewrite app_nil_r in Hk. rewrite <- Hk, <- (app_nil_r k1). by apply links_after.
      * injection Ek as <- ->. by apply links_before.
    + rewrite Hk. by apply links_after.
  - rewrite upd_ne by done. intros E'. rewrite unl_mem. assert (b ∈ L o') as Hb by (rewrite E'; set_solver).
    assert (b ∉ L o) as Hno by (intros H; apply Ho; by apply (rep_same s L R o o' b)). rewrite E in Hno.
    rewrite !decide_False; [by apply (r_links s L R)| |].
    + intros [H ->]. apply Hno. apply nx_pos in H as [_ H]. set_solver.
    + intros [H ->]. apply Hno. apply pv_pos in H as [_ H]. set_solver.
Qed.

Lemma upd_unl o' b : b ∈ upd o (k1 ++ k2) L o' <-> b ∈ L o' /\ b <> a.
Proof.
  destruct unl_nodup as (_ & _ & N1 & N2 & _). unfold upd. case_decide as Eo.
  - subst. rewrite E. set_solver.
  - split; [|tauto]. intros H. split; [done|]. intros ->. apply Eo. apply (rep_same s L R o o' a); [|done].
    rewrite E. set_solver.
Qed.

Lemma rep_unlink : rep s3 (upd o (k1 ++ k2) L).
Proof.
  pose proof unl_frame as F. pose proof (r_frame s L R) as Hf. pose proof unl_order as Ho.
  assert (a ∈ L o) as Ha by (rewrite E; set_solver).
  destruct (usable_page s a o (r_block s L R o a Ha)) as [Ha0 Had]. split.
  - apply (frame_frame_ok s); [done| |done]. rewrite unl_bits. by apply head_bit_wf.
  - intros o'. rewrite unl_heads. unfold upd. case_decide; [done|apply R].
  - intros o' Ho'. rewrite upd_ne by lia. by apply R.
  - apply links_unlink.
  - intros o' b [Hb _]%upd_unl. apply (usable_frame s); [done|by apply R].
  - intros o1 b1 o2 b2 x [H1 _]%upd_unl [H2 _]%upd_unl. by apply (r_disj s L R).
  - intros o'. destruct unl_nodup as (N1 & N2 & _ & _ & Hd). unfold upd. case_decide; [|apply R].
    apply NoDup_app. naive_solver.
  - intros b Hb Hbd. rewrite (sf_cover s _ F) in Hb. unfold head_bit. rewrite unl_bits.
    destruct (head_bit_write s a false b Hf Ha0 Had Hb Hbd) as [_ Eb]. unfold head_bit in Eb. rewrite Eb. clear Eb.
    setoid_rewrite upd_unl. case_decide as Eab.
    + subst. split; [done|]. by intros (? & _ & ?).
    + etrans; [apply (r_bits s L R b Hb Hbd)|]. split; intros [o' H]; exists o'; naive_solver.
Qed.

(** [unlink], packaged. *)
Lemma unlink_spec :
  exists s', unlink o a s = Some s' /\ rep s' (upd o (k1 ++ k2) L) /\ same_frame s s' /\ free_pages s' = free_pages s.
Proof. exists s3. split; [apply unlink_eq|]. split; [apply rep_unlink|]. split; [apply unl_frame|apply unl_pages]. Qed.
End unlinking.

(** ** Removing a block by address *)
Lemma pop_head_unlink o a s : node_prev s a = 0 -> pop_head o a s = unlink o a s.
Proof.
  intros Hp. unfold pop_head, unlink. rewrite Hp.
  change (node_next (set_head o None s) a) with (node_next s a).
  change (check_links (set_head o None s) (node_next s a) 0) with (check_links s (node_next s a) 0).
  destruct (check_links s (node_next s a) 0); [|done]. cbn [mbind option_bind negb Z.eqb].
  unfold link. destruct (node_next s a =? 0); cbn [negb]; do 2 f_equal; unfold set_head, node_set_prev, write_node;
    cbn; unfold set_heads, set_mem; cbn; by rewrite list_insert_insert_eq.
Qed.

Lemma rep_length s L o : rep s L -> (length (L o) <= size (mem s))%nat.
Proof.
  intros R. rewrite <- (size_list_to_set (C := gset Z) (L o)) by apply R. rewrite <- size_dom.
  apply subseteq_size. intros a Ha. rewrite elem_of_list_to_set in Ha.
  destruct (rep_split L o a Ha) as (l1 & l2 & E). apply elem_of_dom. by rewrite (r_links s L R o l1 a l2 E).
Qed.

(** Removal of [b] from [lists[o]], and its refusal. *)
Definition removed (s : buddy) (L : nat -> list Z) (o : nat) (b : Z) (r : option (bool * buddy)) : Prop :=
  exists s' k1 k2, L o = k1 ++ b :: k2 /\ r = Some (true, s') /\ rep s' (upd o (k1 ++ k2) L)
    /\ same_frame s s' /\ free_pages s' = free_pages s.

Lemma removed_unlink s L o b : rep s L -> b ∈ L o -> removed s L o b (s' ← unlink o b s; Some (true, s')).
Proof.
  intros R Hb. destruct (rep_split L o b Hb) as (k1 & k2 & E).
  destruct (unlink_spec s L R o b k1 k2 E) as (s' & Eu & Rest). exists s', k1, k2. by rewrite Eu.
Qed.

Lemma walk_remove_spec s L o b fuel l1 l2 :
  rep s L -> L o = l1 ++ l2 -> (length l2 < fuel)%nat ->
  if decide (b ∈ l2) then removed s L o b (walk_remove fuel o b (List.head l2) s)
  else walk_remove fuel o b (List.head l2) s = Some (false, s).
Proof.
  intros R. revert fuel l1. induction l2 as [|a l2 IH]; intros [|fuel] l1 E Hf; cbn [length] in Hf; try lia; [done|].
  cbn [List.head walk_remove]. assert (node_next s a = List.hd 0 l2) as ->.
  { unfold node_next. by rewrite (rep_node s L R o l1 a l2 E). }
  assert (L o = (l1 ++ [a]) ++ l2) as E' by (by rewrite E, <- app_assoc).
  rewrite (rep_next_ok s L R o (l1 ++ [a]) l2 E'). cbn [mbind option_bind]. rewrite (rep_link s L R o (l1 ++ [a]) l2 E').
  destruct (Z.eqb_spec a b) as [->|Hab].
  - rewrite decide_True by set_solver. apply removed_unlink; [done|]. rewrite E. set_solver.
  - specialize (IH fuel (l1 ++ [a]) E' ltac:(lia)). destruct (decide (b ∈ l2)).
    + by rewrite decide_True by set_solver.
    + by rewrite decide_False by set_solver.
Qed.

Lemma try_remove_spec s L o b :
  rep s L -> 0 <= b -> (PAGE_SIZE | b) ->
  if decide (b ∈ L o) then removed s L o b (try_remove o b s) else try_remove o b s = Some (false, s).
Proof.
  intros R Hb0 Hbd. unfold try_remove, covered. destruct (Z.ltb_spec b (cover_end s)) as [Hc|Hc].
  - pose proof (r_bits s L R b (conj Hb0 Hc) Hbd) as Hbit. case_decide as Hin.
    + destruct (rep_split L o b Hin) as (k1 & k2 & E). unfold node_order.
      rewrite (proj2 Hbit) by eauto. rewrite (rep_node s L R o k1 b k2 E). cbn [n_order negb orb].
      rewrite Z.eqb_refl. cbn [negb]. by apply removed_unlink.
    + destruct (head_bit s b) eqn:Eb; [|done]. destruct (proj1 Hbit eq_refl) as [o' Ho'].
      destruct (rep_split L o' b Ho') as (k1 & k2 & E). unfold node_order.
      rewrite (rep_node s L R o' k1 b k2 E). cbn [n_order negb orb].
      rewrite (proj2 (Z.eqb_neq _ _)); [done|]. intros ?%Nat2Z.inj. by subst.
  - rewrite (r_heads s L R). apply (walk_remove_spec s L o b _ []); [done|done|].
    pose proof (rep_length s L o R). lia.
Qed.

(** ** Buddies *)
Lemma lxor_even m : Z.lxor (2 * m) 1 = 2 * m + 1.
Proof.
  symmetry. apply Z.add_nocarry_lxor. change 1 with (Z.ones 1). rewrite Z.land_ones by lia.
  change (2 ^ 1) with 2. rewrite Z.mul_comm. by apply Z.mod_mul.
Qed.

Lemma lxor_odd m : Z.lxor (2 * m + 1) 1 = 2 * m.
Proof. by rewrite <- lxor_even, Z.lxor_assoc, Z.lxor_nilpotent, Z.lxor_0_r. Qed.

(** The buddy of a block. *)
Definition mate (a : Z) (o : nat) : Z := Z.lxor a (block_size o).

Lemma mate_scale q o : mate (q * block_size o) o = Z.lxor q 1 * block_size o.
Proof.
  unfold mate. rewrite block_size_pow. rewrite <- !Z.shiftl_mul_pow2 by lia.
  rewrite Z.shiftl_lxor. f_equal. by rewrite Z.shiftl_mul_pow2, Z.mul_1_l by lia.
Qed.

Lemma mate_lower a o : (block_size (S o) | a) -> mate a o = a + block_size o.
Proof.
  intros [m ->]. rewrite block_size_S. replace (m * (2 * block_size o)) with (2 * m * block_size o) by lia.
  rewrite mate_scale, lxor_even. lia.
Qed.

Lemma mate_upper a o : (block_size (S o) | a) -> mate (a + block_size o) o = a.
Proof.
  intros [m ->]. rewrite block_size_S. replace (m * (2 * block_size o) + block_size o) with ((2 * m + 1) * block_size o) by lia.
  rewrite mate_scale, lxor_odd. lia.
Qed.

Lemma mate_mate a o : mate (mate a o) o = a.
Proof. unfold mate. by rewrite Z.lxor_assoc, Z.lxor_nilpotent, Z.lxor_0_r. Qed.

(** A block is the lower or the upper half of an aligned block of the next
    order; the other half is its buddy. *)
Lemma mate_cases a o :
  (block_size o | a) -> exists c, (block_size (S o) | c)
    /\ ((a = c /\ mate a o = c + block_size o) \/ (a = c + block_size o /\ mate a o = c)) /\ Z.min a (mate a o) = c.
Proof.
  intros [q Hq]. pose proof (block_size_pos o) as Hp.
  destruct (Z.Even_or_Odd q) as [[m ->]|[m ->]]; exists (m * block_size (S o)); pose proof (Z.divide_factor_r (block_size (S o)) m) as Hd;
    rewrite block_size_S in *.
  - assert (a = m * (2 * block_size o)) as -> by lia. split; [done|].
    rewrite mate_lower by by rewrite block_size_S. split; [by left|lia].
  - assert (a = m * (2 * block_size o) + block_size o) as -> by lia. split; [done|].
    rewrite mate_upper by by rewrite block_size_S. split; [by right|lia].
Qed.

Lemma mate_aligned a o : (block_size o | a) -> (block_size o | mate a o).
Proof.
  intros [q ->]. rewrite mate_scale. apply Z.divide_factor_r.
Qed.

Lemma half_divides a o : (block_size (S o) | a) -> (block_size o | a).
Proof. intros H. etrans; [|exact H]. rewrite block_size_S. exists 2. lia. Qed.

Lemma in_block_halves a o x : in_block a (S o) x <-> in_block a o x \/ in_block (a + block_size o) o x.
Proof. unfold in_block. rewrite block_size_S. pose proof (block_size_pos o). lia. Qed.

Lemma overlaps_halves s a o :
  frame_ok s -> overlaps_reserved s a (block_size (S o)) = false
  <-> overlaps_reserved s a (block_size o) = false /\ overlaps_reserved s (a + block_size o) (block_size o) = false.
Proof.
  intros Hf. pose proof (fr_ranges s Hf) as Hr. pose proof (block_size_pos o) as Hp. rewrite block_size_S.
  assert (forall r : Z * Z, r.1 <= r.2 -> touches a (2 * block_size o) r = false
    <-> touches a (block_size o) r = false /\ touches (a + block_size o) (block_size o) r = false) as Ht.
  { intros [u v] Huv. unfold touches, empty_range. cbn in *. destruct (Z.eqb_spec u v); [done|]. cbn. lia. }
  unfold overlaps_reserved. rewrite !orb_false_iff. apply Forall_cons in Hr as [H1 Hr]. rewrite (Ht _ H1).
  assert (forall n b, existsb (touches b n) (reserved s) = false <-> Forall (fun r => touches b n r = false) (reserved s)) as He.
  { intros n b. clear. induction (reserved s) as [|r rs IH]; [done|]. cbn. by rewrite orb_false_iff, Forall_cons, IH. }
  rewrite !He. clear He H1. induction Hr as [|r rs Hr1 Hr IH]; [rewrite !Forall_nil; tauto|].
  rewrite !Forall_cons, (Ht r Hr1). tauto.
Qed.

Lemma usable_halves s a o :
  frame_ok s -> (block_size (S o) | a) -> usable s a (S o) <-> usable s a o /\ usable s (a + block_size o) o.
Proof.
  intros Hf Hd. pose proof (overlaps_halves s a o Hf) as Hov. pose proof (block_size_pos o) as Hp.
  pose proof (half_divides a o Hd) as Hd'. split.
  - intros [H1 H2 H3 H4]. apply Hov in H4 as [H4 H5]. rewrite block_size_S in H3.
    split; (split; [lia| |lia|done]); [done|]. apply Z.divide_add_r; [done|reflexivity].
  - intros [[H1 H2 H3 H4] [H1' H2' H3' H4']]. split; [done|done|rewrite block_size_S; lia|by apply Hov].
Qed.

(** ** Counting *)
Definition weigh (L : nat -> list Z) (os : list nat) : Z :=
  foldr (fun o n => Z.of_nat (length (L o)) * 2 ^ Z.of_nat o + n) 0 os.

Lemma weigh_upd o l L os :
  NoDup os -> weigh (upd o l L) os
  = weigh L os + if decide (o ∈ os) then (Z.of_nat (length l) - Z.of_nat (length (L o))) * 2 ^ Z.of_nat o else 0.
Proof.
  induction 1 as [|o' os Hni Hnd IH]; [done|]. cbn [weigh foldr]. fold (weigh (upd o l L) os) (weigh L os). rewrite IH.
  destruct (decide (o = o')) as [->|Hne].
  - rewrite upd_eq, decide_False, decide_True by set_solver. lia.
  - rewrite upd_ne by done. destruct (decide (o ∈ os)).
    + rewrite decide_True by set_solver. lia.
    + rewrite decide_False by set_solver. lia.
Qed.

Lemma total_upd o l L :
  (o < MAX_ORDER)%nat ->
  total (upd o l L) = total L + (Z.of_nat (length l) - Z.of_nat (length (L o))) * 2 ^ Z.of_nat o.
Proof.
  intros Ho. change (total ?M) with (weigh M (seq 0 MAX_ORDER)). rewrite weigh_upd by apply NoDup_seq.
  rewrite decide_True by (apply elem_of_seq; lia). done.
Qed.

Lemma total_push o a L : (o < MAX_ORDER)%nat -> total (upd o (a :: L o) L) = total L + 2 ^ Z.of_nat o.
Proof. intros Ho. rewrite total_upd by done. cbn [length]. lia. Qed.

Lemma total_unlink o k1 a k2 L :
  (o < MAX_ORDER)%nat -> L o = k1 ++ a :: k2 -> total (upd o (k1 ++ k2) L) = total L - 2 ^ Z.of_nat o.
Proof. intros Ho E. rewrite total_upd, E by done. rewrite !length_app. cbn [length]. lia. Qed.

(** ** The free set *)
Lemma free_in_push L o a x : free_in (upd o (a :: L o) L) x <-> free_in L x \/ in_block a o x.
Proof.
  unfold free_in, upd. split.
  - intros (o' & b & Hb & Hx). case_decide as Eo; [subst|eauto]. apply elem_of_cons in Hb as [->|Hb]; eauto.
  - intros [(o' & b & Hb & Hx)|Hx].
    + exists o', b. split; [|done]. case_decide; [subst|done]. by right.
    + exists o, a. rewrite decide_True by done. split; [left|done].
Qed.

Section unlinked.
Context (s : buddy) (L : nat -> list Z) (R : rep s L).
Context (o : nat) (a : Z) (k1 k2 : list Z) (E : L o = k1 ++ a :: k2).
Let L' := upd o (k1 ++ k2) L.

Lemma unl_in : a ∈ L o.
Proof. rewrite E. set_solver. Qed.

Lemma clear_unlink : clear_of L' a o.
Proof.
  intros o' b x Hb Hx Hax. unfold L' in Hb. apply (upd_unl s L R o a k1 k2 E) in Hb as [Hb Hne].
  by destruct (r_disj s L R o' b o a x Hb unl_in Hx Hax).
Qed.

Lemma free_in_unlink x : free_in L x <-> free_in L' x \/ in_block a o x.
Proof.
  unfold free_in, L'. split.
  - intros (o' & b & Hb & Hx). destruct (decide (b = a)) as [->|Hne].
    + right. by rewrite (rep_same s L R o o' a unl_in Hb).
    + left. exists o', b. split; [|done]. by apply (upd_unl s L R o a k1 k2 E).
  - intros [(o' & b & Hb & Hx)|Hx]; [|exists o, a; split; [apply unl_in|done]].
    apply (upd_unl s L R o a k1 k2 E) in Hb as [Hb _]. by exists o', b.
Qed.

Lemma merged_unlink : merged L -> merged L'.
Proof.
  intros HM o' b Ho' Hb Hb'. unfold L' in *. apply (upd_unl s L R o a k1 k2 E) in Hb as [Hb _].
  apply (upd_unl s L R o a k1 k2 E) in Hb' as [Hb' _]. by apply (HM o' b).
Qed.
End unlinked.

Lemma merged_push L o a : merged L -> ((o + 1 < MAX_ORDER)%nat -> mate a o ∉ L o) -> merged (upd o (a :: L o) L).
Proof.
  intros HM Ha o' b Ho' Hb. unfold upd in *. case_decide as Eo; [subst o'|by apply HM].
  fold (mate b o). apply elem_of_cons in Hb as [->|Hb].
  - intros [Heq|Hin]%elem_of_cons; [|by apply Ha].
    apply (f_equal (Z.lxor a)) in Heq. unfold mate in Heq.
    rewrite <- Z.lxor_assoc, Z.lxor_nilpotent, Z.lxor_0_l in Heq. pose proof (block_size_pos o). lia.
  - intros [Heq|Hin]%elem_of_cons; [|by apply (HM o b)]. apply Ha; [done|]. by rewrite <- Heq, mate_mate.
Qed.

Lemma mate_not_free s L a o : rep s L -> overlaps_reserved s (mate a o) (block_size o) = true -> mate a o ∉ L o.
Proof. intros R H Hin. pose proof (us_res s _ _ (r_block s L R o _ Hin)). congruence. Qed.

(** A block that is not on a list, in a state that is otherwise fine. *)
Record held (s : buddy) (L : nat -> list Z) (a : Z) (o : nat) : Prop := {
  h_rep : rep s L;
  h_merged : merged L;
  h_order : (o < MAX_ORDER)%nat;
  h_block : usable s a o;
  h_clear : clear_of L a o }.

Lemma clear_push L a o c k :
  clear_of L a o -> (forall x, in_block c k x -> in_block a o x -> False) -> clear_of (upd k (c :: L k) L) a o.
Proof.
  intros Hc Hd o' b x Hb Hx Ha. unfold upd in Hb. case_decide as Eo; [subst o'|by eapply Hc].
  apply elem_of_cons in Hb as [->|Hb]; [by apply (Hd x)|by eapply Hc].
Qed.

(** ** Splitting *)
Lemma split_down_S order n a s :
  split_down order (order + S n) a s
  = split_down order (order + n) a (push_front (order + n) (a + block_size (order + n)) s).
Proof.
  unfold split_down. replace (order + S n - order)%nat with (S n) by lia. replace (order + n - order)%nat with n by lia.
  rewrite seq_S, rev_app_distr. done.
Qed.

Lemma free_pages_push o a s : free_pages (push_front o a s) = free_pages s.
Proof. unfold push_front. cbn [free_pages set_head set_heads]. rewrite free_pages_head_bit. by destruct (head_of s o). Qed.

(** Halving a held block: the lower half stays held, the upper half is free. *)
Lemma halve s L a o :
  held s L a (S o) ->
  held (push_front o (a + block_size o) s) (upd o ((a + block_size o) :: L o) L) a o.
Proof.
  intros [R HM Ho Hu Hc]. pose proof (us_align s a (S o) Hu) as Hd.
  apply (usable_halves s a o (r_frame s L R) Hd) in Hu as [Hu1 Hu2].
  assert (clear_of L (a + block_size o) o) as Hc2.
  { intros o' b x Hb Hx Ha. apply (Hc o' b x Hb Hx). apply in_block_halves. by right. }
  assert (clear_of L a o) as Hc1.
  { intros o' b x Hb Hx Ha. apply (Hc o' b x Hb Hx). apply in_block_halves. by left. }
  split; [apply rep_push; [done|lia|done|done]| |lia| |].
  - apply merged_push; [done|]. intros _. rewrite mate_upper by done. by apply (clear_notin L a o).
  - apply (usable_frame s); [apply frame_push|done].
  - apply clear_push; [done|]. unfold in_block. pose proof (block_size_pos o). lia.
Qed.

Lemma in_block_mono a o o' x : (o <= o')%nat -> in_block a o x -> in_block a o' x.
Proof.
  intros Ho. unfold in_block. rewrite !block_size_pow. pose proof (Z.pow_le_mono_r 2 (12 + Z.of_nat o) (12 + Z.of_nat o')). lia.
Qed.

(** Splitting from order [order + n] down to [order]. *)
Lemma split_down_spec order a n s L :
  held s L a (order + n) ->
  let s' := split_down order (order + n) a s in
  exists L', held s' L' a order /\ same_frame s s' /\ free_pages s' = free_pages s
    /\ (forall x, free_in L' x <-> free_in L x \/ (in_block a (order + n) x /\ ~ in_block a order x))
    /\ total L' + 2 ^ Z.of_nat order = total L + 2 ^ Z.of_nat (order + n).
Proof.
  revert s L. induction n as [|n IH]; intros s L H s'; subst s'.
  - rewrite Nat.add_0_r in *. unfold split_down. rewrite Nat.sub_diag. cbn [seq rev foldl]. exists L.
    split; [done|]. split; [done|]. split; [done|]. split; [|done]. intros x. tauto.
  - rewrite split_down_S. replace (order + S n)%nat with (S (order + n)) in * by lia.
    pose proof (halve s L a _ H) as Hh. pose proof (h_order s L a _ H) as Ho.
    destruct (IH _ _ Hh) as (L' & Hh' & F & Hp & Hx & Ht). exists L'. split; [done|].
    split; [etrans; [apply frame_push|exact F]|]. split; [rewrite Hp; apply free_pages_push|]. split.
    + intros x. rewrite Hx, free_in_push, in_block_halves.
      assert (in_block (a + block_size (order + n)) (order + n) x -> ~ in_block a order x) as Hd.
      { intros H1 H2. apply (in_block_mono a order (order + n) x) in H2; [|lia]. unfold in_block in *. lia. }
      tauto.
    + rewrite Ht, total_push by lia. rewrite !Nat2Z.inj_succ, Z.pow_succ_r by lia. lia.
Qed.

(** ** Taking a block off its list and splitting it *)
Record carved (s : buddy) (L : nat -> list Z) (order : nat) (a : Z) (s' : buddy) (L' : nat -> list Z) : Prop := {
  cv_ok : buddy_ok s' L';
  cv_block : usable s a order;
  cv_clear : clear_of L' a order;
  cv_frame : same_frame s s';
  cv_total : total L' + 2 ^ Z.of_nat order = total L;
  cv_set : forall x, free_in L x <-> free_in L' x \/ in_block a order x }.

Lemma carved_set s L order a s' L' x :
  carved s L order a s' L' -> free_in L' x <-> free_in L x /\ ~ in_block a order x.
Proof.
  intros [C1 C2 C3 C4 _ C5]. rewrite C5. split; [|tauto]. intros Hx. split; [tauto|].
  intros Hb. destruct Hx as (o' & b & Hin & Hx). by apply (C3 o' b x).
Qed.

Lemma wrap_sub x y : wrap64 (wrap64 x - y) = wrap64 (x - y).
Proof. unfold wrap64. by rewrite Zminus_mod_idemp_l. Qed.
Lemma wrap_add x y : wrap64 (wrap64 x + y) = wrap64 (x + y).
Proof. unfold wrap64. by rewrite Zplus_mod_idemp_l. Qed.

(** The representation does not read the page counter. *)
Lemma rep_pages s L n : rep s L -> rep (set_free_pages n s) L.
Proof. intros [H1 H2 H3 H4 H5 H6 H7 H8]. split; try done; [by destruct H1|]. intros o a Ha. by destruct (H5 o a Ha). Qed.

Lemma rep_acct s L t : rep s L -> rep (set_acct t s) L.
Proof. intros [H1 H2 H3 H4 H5 H6 H7 H8]. split; try done; [by destruct H1|]. intros o a Ha. by destruct (H5 o a Ha). Qed.

Lemma carve s L order o a k1 k2 :
  buddy_ok s L -> L o = k1 ++ a :: k2 -> (order <= o)%nat ->
  exists s' L', (s1 ← unlink o a s; Some (Some a, take_pages order (split_down order o a s1))) = Some (Some a, s')
    /\ carved s L order a s' L'.
Proof.
  intros [R Hp HM] E Hle. destruct (unlink_spec s L R o a k1 k2 E) as (s1 & -> & R1 & F1 & P1). cbn [mbind option_bind].
  pose proof (unl_order s L R o a k1 k2 E) as Ho. assert (a ∈ L o) as Hin by (rewrite E; set_solver).
  pose proof (r_block s L R o a Hin) as Hu.
  assert (held s1 (upd o (k1 ++ k2) L) a o) as Hh.
  { split; [done|by apply (merged_unlink s L R o a k1 k2 E)|done|by apply (usable_frame s)|by apply (clear_unlink s L R)]. }
  assert (o = order + (o - order))%nat as Eo by lia. rewrite Eo in Hh.
  destruct (split_down_spec order a (o - order) _ _ Hh) as (L' & [R' M' O' U' C'] & F & P & X & T). rewrite <- Eo in *.
  exists (take_pages order (split_down order o a s1)), L'. split; [done|]. split.
  - split; [by apply rep_pages| |done]. unfold take_pages. cbn [free_pages set_free_pages].
    rewrite P, P1, Hp, wrap_sub, Z.shiftl_mul_pow2, Z.mul_1_l by lia. f_equal.
    rewrite (total_unlink o k1 a k2 L Ho E) in T. lia.
  - destruct U' as [U1 U2 U3 U4]. rewrite (sf_phys _ _ F), (sf_phys _ _ F1) in U3.
    rewrite (overlaps_frame _ _ _ _ F), (overlaps_frame _ _ _ _ F1) in U4. by split.
  - done.
  - etrans; [exact F1|]. destruct F. by split.
  - rewrite (total_unlink o k1 a k2 L Ho E) in T. lia.
  - intros x. rewrite X, (free_in_unlink s L R o a k1 k2 E).
    assert (in_block a order x -> in_block a o x) as Hm by by apply in_block_mono.
    assert (in_block a order x \/ ~ in_block a order x) as Hdec by (unfold in_block; lia). tauto.
Qed.

(** ** The empty lists *)
Definition no_lists (o : nat) : list Z := [].

Lemma rep_empty s :
  frame_ok s -> heads s = replicate MAX_ORDER None -> bitmap s = replicate (length (bitmap s)) 0 -> rep s no_lists.
Proof.
  intros Hf Hh Hb. split; try done.
  - intros o. unfold head_of. rewrite Hh. destruct (replicate MAX_ORDER None !! o) as [h|] eqn:E; [|done].
    apply lookup_replicate in E as [-> _]. done.
  - intros o [|] a l2 E; discriminate.
  - intros o a Ha. by apply elem_of_nil in Ha.
  - intros o a o' a' x Ha. by apply elem_of_nil in Ha.
  - intros o. apply NoDup_nil_2.
  - intros a Ha Hd. split; [|intros [o Ho]; by apply elem_of_nil in Ho]. unfold head_bit, Bitmap.get. intros H. exfalso.
    revert H. rewrite Hb. unfold word_at. destruct (replicate _ _ !! _) as [w|] eqn:E.
    + apply lookup_replicate in E as [-> _]. by rewrite Z.shiftr_0_l.
    + by rewrite Z.shiftr_0_l.
Qed.

Lemma ok_empty s :
  frame_ok s -> heads s = replicate MAX_ORDER None -> bitmap s = replicate (length (bitmap s)) 0 -> free_pages s = 0 ->
  buddy_ok s no_lists.
Proof.
  intros Hf Hh Hb Hp. split; [by apply rep_empty|by rewrite Hp|]. intros o a _ Ha. by apply elem_of_nil in Ha.
Qed.

(** A small allocator: 64 pages, all covered by the bitmap, with one free block
    of eight pages at page 24. *)
Definition demo : buddy :=
  set_free_pages 8 (push_front 3 98304 (mkBuddy (replicate MAX_ORDER None) ∅ [0] 262144 262144 0 0 [(4096, 8192)] 0 64 0 sites_new)).
Definition demo_lists : nat -> list Z := upd 3 [98304] no_lists.

Lemma small_ok : buddy_ok demo demo_lists.
Proof.
  assert (buddy_ok (mkBuddy (replicate MAX_ORDER None) ∅ [0] 262144 262144 0 0 [(4096, 8192)] 0 64 0 sites_new) no_lists) as [R _ M].
  { apply ok_empty; [|done..]. split; try done; [split; [done|by repeat constructor]|]. repeat constructor; cbn; lia. }
  split; [apply rep_pages| |].
  - apply (rep_push _ no_lists); [done|unfold MAX_ORDER; lia| |].
    + split; try done. by exists 3.
    + intros o a x Ha. by apply elem_of_nil in Ha.
  - reflexivity.
  - apply (merged_push no_lists); [done|]. intros _ H. by apply elem_of_nil in H.
Qed.

(** ** [alloc_untracked] *)
Lemma alloc_scan_spec s L order os :
  buddy_ok s L -> Forall (fun o => (order <= o)%nat) os ->
  (Forall (fun o => L o = []) os /\ alloc_scan order os s = Some (None, s))
  \/ exists os1 o os2 a s' L', os = os1 ++ o :: os2 /\ Forall (fun o => L o = []) os1 /\ List.head (L o) = Some a
       /\ alloc_scan order os s = Some (Some a, s') /\ carved s L order a s' L'.
Proof.
  intros Hok. pose proof (ok_rep s L Hok) as R. induction 1 as [|o os Ho Hos IH]; [by left|]. cbn [alloc_scan].
  rewrite (r_heads s L R). destruct (L o) as [|a l] eqn:E; cbn [List.head].
  - destruct IH as [[H1 H2]|(os1 & o1 & os2 & a & s' & L' & -> & H2 & Rest)]; [left; by split; [constructor|]|right].
    exists (o :: os1), o1, os2, a, s', L'. split; [done|]. split; [by constructor|done].
  - right. destruct (carve s L order o a [] l Hok E Ho) as (s' & L' & Eq & Hc).
    exists [], o, os, a, s', L'. split; [done|]. split; [constructor|]. split; [by rewrite E|]. split; [|done].
    rewrite pop_head_unlink; [done|]. unfold node_prev. by rewrite (rep_node s L R o [] a l E).
Qed.

Lemma seq_split_at order n os1 o os2 : seq order n = os1 ++ o :: os2 ->
  (order <= o < order + n)%nat /\ forall k, (order <= k < o)%nat -> k ∈ os1.
Proof.
  revert order os1. induction n as [|n IH]; intros order os1 E; [by destruct os1|]. cbn [seq] in E.
  destruct os1 as [|x os1]; cbn in E; injection E as -> E; [split; lia|]. apply IH in E as [H1 H2]. split; [lia|].
  intros k Hk. destruct (decide (k = x)) as [->|]; [left|right]. apply H2. lia.
Qed.

(** C19: [alloc_untracked] never follows a corrupt link and keeps the
    allocator's invariant.  It fails, changing nothing, exactly when every list
    of the requested order and above is empty (or the order is out of range);
    otherwise it returns a naturally aligned, non-null block inside RAM and
    clear of every reserved range, taken from the head of the smallest
    non-empty order, and the free set loses exactly the pages of that block:
    the halves split off on the way down stay free. *)
Theorem buddy_alloc_spec s L order :
  buddy_ok s L ->
  ((forall o, (order <= o < MAX_ORDER)%nat -> L o = []) /\ alloc_untracked order s = Some (None, s))
  \/ exists o a s' L', (order <= o < MAX_ORDER)%nat /\ (forall k, (order <= k < o)%nat -> L k = [])
       /\ List.head (L o) = Some a /\ alloc_untracked order s = Some (Some a, s')
       /\ buddy_ok s' L' /\ usable s a order
       /\ forall x, free_in L' x <-> free_in L x /\ ~ in_block a order x.
Proof.
  intros Hok. unfold alloc_untracked. destruct (Nat.leb_spec MAX_ORDER order) as [Hge|Hlt]; [left; split; [lia|done]|].
  assert (Forall (fun o => (order <= o)%nat) (seq order (MAX_ORDER - order))) as Hf.
  { apply Forall_forall. intros o Ho%elem_of_seq. lia. }
  destruct (alloc_scan_spec s L order _ Hok Hf) as [[H1 H2]|(os1 & o & os2 & a & s' & L' & E & H1 & H2 & H3 & C)].
  - left. split; [|done]. intros o Ho. rewrite Forall_forall in H1. apply H1, elem_of_seq. lia.
  - right. apply seq_split_at in E as [Ho Hk]. exists o, a, s', L'. split; [lia|]. split.
    { intros k Hk'. rewrite Forall_forall in H1. by apply H1, Hk. }
    split; [done|]. split; [done|]. split; [apply C|]. split; [apply C|]. intros x. by apply (carved_set s L order a s' L').
Qed.

Lemma buddy_alloc_spec_witness :
  ((forall o, (1 <= o < MAX_ORDER)%nat -> demo_lists o = []) /\ alloc_untracked 1 demo = Some (None, demo))
  \/ exists o a s' L', (1 <= o < MAX_ORDER)%nat /\ (forall k, (1 <= k < o)%nat -> demo_lists k = [])
       /\ List.head (demo_lists o) = Some a /\ alloc_untracked 1 demo = Some (Some a, s')
       /\ buddy_ok s' L' /\ usable demo a 1
       /\ forall x, free_in L' x <-> free_in demo_lists x /\ ~ in_block a 1 x.
Proof. apply (buddy_alloc_spec demo demo_lists 1 small_ok). Defined.

Example demo_alloc_splits :
  option_map (fun r : option Z * buddy => (r.1, free_pages r.2, heads r.2)) (alloc_untracked 1 demo)
  = Some (Some 98304, 6, [None; Some 106496; Some 114688] ++ replicate 16 None).
Proof. vm_compute. reflexivity. Qed.

(** ** [alloc_below_untracked] *)
Lemma below_walk_spec s L order o limit fuel l1 l2 :
  buddy_ok s L -> (order <= o)%nat -> L o = l1 ++ l2 -> (length l2 < fuel)%nat ->
  (Forall (fun a => limit < a + block_size order) l2
   /\ below_walk fuel order o limit (List.head l2) s = Some (None, s))
  \/ exists a s' L', a ∈ l2 /\ a + block_size order <= limit
       /\ below_walk fuel order o limit (List.head l2) s = Some (Some a, s') /\ carved s L order a s' L'.
Proof.
  intros Hok Hle. pose proof (ok_rep s L Hok) as R. revert fuel l1.
  induction l2 as [|a l2 IH]; intros [|fuel] l1 E Hf; cbn [length] in Hf; try lia; [by left|].
  cbn [List.head below_walk]. assert (node_next s a = List.hd 0 l2) as ->.
  { unfold node_next. by rewrite (rep_node s L R o l1 a l2 E). }
  assert (L o = (l1 ++ [a]) ++ l2) as E' by (by rewrite E, <- app_assoc).
  rewrite (rep_next_ok s L R o (l1 ++ [a]) l2 E'). cbn [mbind option_bind].
  rewrite (rep_link s L R o (l1 ++ [a]) l2 E'). destruct (Z.leb_spec (a + block_size order) limit) as [Hl|Hl].
  - right. destruct (carve s L order o a l1 l2 Hok E Hle) as (s' & L' & Eq & Hc).
    exists a, s', L'. split; [left|]. done.
  - destruct (IH fuel (l1 ++ [a]) E' ltac:(lia)) as [[H1 H2]|(b & s' & L' & Hb & Rest)].
    + left. split; [by constructor|done].
    + right. exists b, s', L'. split; [by right|done].
Qed.

Lemma below_scan_spec s L order limit os :
  buddy_ok s L -> Forall (fun o => (order <= o)%nat) os ->
  (Forall (fun o => Forall (fun a => limit < a + block_size order) (L o)) os /\ below_scan order limit os s = Some (None, s))
  \/ exists a s' L', a + block_size order <= limit
       /\ below_scan order limit os s = Some (Some a, s') /\ carved s L order a s' L'.
Proof.
  intros Hok. pose proof (ok_rep s L Hok) as R. induction 1 as [|o os Ho Hos IH]; [by left|]. cbn [below_scan].
  rewrite (r_heads s L R).
  destruct (below_walk_spec s L order o limit (S (size (mem s))) [] (L o) Hok Ho eq_refl) as [[H1 ->]|(a & s' & L' & _ & H2 & -> & H3)].
  - pose proof (rep_length s L o R). lia.
  - cbn [mbind option_bind]. destruct IH as [[H2 H3]|IH]; [left; by split; [constructor|]|by right].
  - right. by exists a, s', L'.
Qed.

(** [alloc_below_untracked] keeps the invariant and returns a usable block
    that ends at or below the limit, removing exactly its pages from the free
    set; it fails, changing nothing, only when no block of the requested order
    or above has its lowest pages under the limit. *)
Theorem buddy_alloc_below_spec s L order limit :
  buddy_ok s L ->
  ((forall o a, (order <= o < MAX_ORDER)%nat -> a ∈ L o -> limit < a + block_size order)
   /\ alloc_below_untracked order limit s = Some (None, s))
  \/ exists a s' L', a + block_size order <= limit /\ alloc_below_untracked order limit s = Some (Some a, s')
       /\ buddy_ok s' L' /\ usable s a order
       /\ forall x, free_in L' x <-> free_in L x /\ ~ in_block a order x.
Proof.
  intros Hok. unfold alloc_below_untracked. destruct (Nat.leb_spec MAX_ORDER order) as [Hge|Hlt]; [left; split; [lia|done]|].
  destruct (below_scan_spec s L order limit (seq order (MAX_ORDER - order)) Hok) as [[H1 H2]|(a & s' & L' & H1 & H2 & C)].
  - apply Forall_forall. intros o Ho%elem_of_seq. lia.
  - left. split; [|done]. intros o a Ho Ha. rewrite Forall_forall in H1.
    assert (o ∈ seq order (MAX_ORDER - order)) as Hin by (apply elem_of_seq; lia).
    specialize (H1 o Hin). rewrite Forall_forall in H1. by apply H1.
  - right. exists a, s', L'. split; [done|]. split; [done|]. split; [apply C|]. split; [apply C|].
    intros x. by apply (carved_set s L order a s' L').
Qed.

Lemma buddy_alloc_below_spec_witness :
  ((forall o a, (0 <= o < MAX_ORDER)%nat -> a ∈ demo_lists o -> 102400 < a + block_size 0)
   /\ alloc_below_untracked 0 102400 demo = Some (None, demo))
  \/ exists a s' L', a + block_size 0 <= 102400 /\ alloc_below_untracked 0 102400 demo = Some (Some a, s')
       /\ buddy_ok s' L' /\ usable demo a 0
       /\ forall x, free_in L' x <-> free_in demo_lists x /\ ~ in_block a 0 x.
Proof. apply (buddy_alloc_below_spec demo demo_lists 0 102400 small_ok). Defined.

(** ** Coalescing *)
Lemma mate_page s a o : usable s a o -> 0 <= mate a o /\ (PAGE_SIZE | mate a o).
Proof.
  intros [H1 H2 _ _]. split.
  - unfold mate. apply Z.lxor_nonneg. pose proof (block_size_pos o). lia.
  - etrans; [apply (page_divides o)|]. by apply mate_aligned.
Qed.

(** A held block and its buddy, taken off its list, are one held block of the
    next order. *)
Lemma join s L a o s1 k1 k2 :
  held s L a o -> (o + 1 < MAX_ORDER)%nat -> L o = k1 ++ mate a o :: k2 -> same_frame s s1 ->
  rep s1 (upd o (k1 ++ k2) L) ->
  held s1 (upd o (k1 ++ k2) L) (Z.min a (mate a o)) (S o)
  /\ (forall x, in_block (Z.min a (mate a o)) (S o) x <-> in_block a o x \/ in_block (mate a o) o x).
Proof.
  intros [R HM Ho Hu Hc] Ho1 E F R1.
  assert (usable s (mate a o) o) as Hub by (apply (r_block s L R); rewrite E; set_solver).
  destruct (mate_cases a o (us_align s a o Hu)) as (c & Hd & Hcase & ->).
  assert (usable s c (S o)) as Huc.
  { apply usable_halves; [apply R|done|]. destruct Hcase as [[Ha Hm]|[Ha Hm]]; rewrite Hm in Hub; rewrite Ha in Hu; done. }
  assert (forall x, in_block c (S o) x <-> in_block a o x \/ in_block (mate a o) o x) as Hx.
  { intros x. rewrite in_block_halves. destruct Hcase as [[Ha Hm]|[Ha Hm]]; rewrite Hm; rewrite Ha; tauto. }
  split; [|done]. split; [done|by apply (merged_unlink s L R o (mate a o))|lia|by apply (usable_frame s)|].
  intros o' b x Hb Hbx [H|H]%Hx; [|by apply (clear_unlink s L R o (mate a o) k1 k2 E o' b x)].
  apply (upd_unl s L R o (mate a o) k1 k2 E) in Hb as [Hb _]. by apply (Hc o' b x).
Qed.

Lemma coalesce_spec fuel s L a o :
  held s L a o -> (MAX_ORDER <= fuel + o)%nat ->
  exists a' o' s' L', coalesce fuel a o s = Some (a', o', s') /\ held s' L' a' o'
    /\ ((o' + 1 < MAX_ORDER)%nat -> mate a' o' ∉ L' o') /\ same_frame s s' /\ free_pages s' = free_pages s
    /\ (forall x, free_in L' x \/ in_block a' o' x <-> free_in L x \/ in_block a o x)
    /\ total L' + 2 ^ Z.of_nat o' = total L + 2 ^ Z.of_nat o.
Proof.
  revert s L a o. induction fuel as [|fuel IH]; intros s L a o H Hf; [destruct H; lia|]. cbn [coalesce].
  destruct (Nat.ltb_spec (o + 1) MAX_ORDER) as [Ho|Ho]; cbn [negb].
  2: { exists a, o, s, L. repeat (split; [done || lia|]). done. }
  fold (mate a o). destruct (overlaps_reserved s (mate a o) (block_size o)) eqn:Eov.
  { exists a, o, s, L. split; [done|]. split; [done|]. split; [intros _; by apply (mate_not_free s), Eov; apply H|]. done. }
  pose proof (h_rep s L a o H) as R. destruct (mate_page s a o (h_block s L a o H)) as [Hm0 Hmd].
  pose proof (try_remove_spec s L o (mate a o) R Hm0 Hmd) as Ht. case_decide as Hin.
  - destruct Ht as (s1 & k1 & k2 & E & -> & R1 & F1 & P1). cbn [mbind option_bind].
    destruct (join s L a o s1 k1 k2 H Ho E F1 R1) as [H1 Hx1]. rewrite Nat.add_1_r.
    destruct (IH _ _ _ _ H1 ltac:(lia)) as (a' & o' & s' & L' & -> & H' & Hm & F & P & X & T).
    exists a', o', s', L'. split; [done|]. split; [done|]. split; [done|]. split; [by etrans|]. split; [congruence|]. split.
    + intros x. rewrite X, Hx1, (free_in_unlink s L R o _ k1 k2 E). tauto.
    + rewrite T, (total_unlink o k1 _ k2 L) by (lia || done). rewrite Nat2Z.inj_succ, Z.pow_succ_r by lia. lia.
  - rewrite Ht. cbn [mbind option_bind]. exists a, o, s, L. done.
Qed.

(** ** [free] *)
Lemma land_aligned a o : Z.land a (block_size o - 1) = 0 <-> (block_size o | a).
Proof.
  rewrite block_size_pow. replace (2 ^ (12 + Z.of_nat o) - 1) with (Z.ones (12 + Z.of_nat o)) by (rewrite Z.ones_equiv; lia).
  rewrite Z.land_ones by lia. apply Z.mod_divide. pose proof (Z.pow_pos_nonneg 2 (12 + Z.of_nat o)). lia.
Qed.

(** The checks of [free] let exactly the usable blocks through. *)
Lemma refuse_usable s a o :
  frame_ok s -> 0 <= a -> phys_end s <> 0 -> refuse s a o = false <-> usable s a o.
Proof.
  intros Hf Ha Hp. pose proof (fr_phys s Hf). unfold refuse. rewrite !orb_false_iff, negb_false_iff, Z.eqb_neq, Z.eqb_eq, land_aligned.
  rewrite (proj2 (Z.eqb_neq (phys_end s) 0)) by done. cbn [negb andb]. rewrite orb_false_iff, Z.leb_gt, Z.ltb_ge. split.
  - intros [[[H1 H2] [H3 H4]] H5]. split; done || lia.
  - intros [H1 H2 H3 H4]. repeat split; done || lia.
Qed.

Lemma free_block s L a o :
  buddy_ok s L -> (o < MAX_ORDER)%nat -> phys_end s <> 0 -> usable s a o -> clear_of L a o ->
  exists s' L', free a o s = Some s' /\ buddy_ok s' L' /\ same_frame (set_acct (untag_block a o (acct s)) s) s'
    /\ (forall x, free_in L' x <-> free_in L x \/ in_block a o x) /\ total L' = total L + 2 ^ Z.of_nat o.
Proof.
  intros [R HP HM] Ho Hp Hu Hc. destruct (usable_page s a o Hu) as [Ha0 Had]. unfold free.
  destruct (Nat.leb_spec MAX_ORDER o); [lia|]. rewrite (proj2 (refuse_usable s a o (r_frame s L R) Ha0 Hp) Hu).
  assert (covered s a && head_bit s a = false) as ->.
  { unfold covered. destruct (Z.ltb_spec a (cover_end s)) as [Hc1|]; [|done]. cbn.
    destruct (head_bit s a) eqn:Eb; [|done]. apply (r_bits s L R a (conj Ha0 Hc1) Had) in Eb as [o' Hin].
    by apply (clear_notin L a o Hc) in Hin. }
  set (s0 := set_free_pages _ _). assert (held s0 L a o) as Hh.
  { split; [by apply rep_pages, rep_acct|done|done|by destruct Hu|done]. }
  destruct (coalesce_spec MAX_ORDER s0 L a o Hh ltac:(lia)) as (a' & o' & s' & L' & -> & [R' M' O' U' C'] & Hm & F & P & X & T).
  cbn [mbind option_bind]. exists (push_front o' a' s'), (upd o' (a' :: L' o') L'). split; [done|]. split; [split|split; [|split]].
  - by apply rep_push.
  - rewrite free_pages_push, P. unfold s0. cbn [free_pages set_free_pages set_acct].
    rewrite HP, wrap_add, Z.shiftl_mul_pow2, Z.mul_1_l, total_push by (lia || done). f_equal. lia.
  - by apply merged_push.
  - etrans; [|apply frame_push]. destruct F. by split.
  - intros x. rewrite free_in_push, X. done.
  - rewrite total_push by done. lia.
Qed.

(** C20: [free] of a usable block none of whose pages is free keeps the
    invariant (in particular it leaves no two free buddies of one order
    unmerged) and adds exactly the block's pages to the free set, whatever it
    coalesced with; the checks refuse exactly the blocks that are not usable,
    and a second free of a block that heads a free list inside the bitmap's
    cover; a refusal only counts itself. *)
Theorem buddy_free_spec s L a o :
  buddy_ok s L -> 0 <= a -> phys_end s <> 0 ->
  ((MAX_ORDER <= o)%nat \/ ~ usable s a o \/ (a < cover_end s /\ exists o', a ∈ L o') -> free a o s = Some (report_bad_free s))
  /\ ((o < MAX_ORDER)%nat -> usable s a o -> clear_of L a o ->
      exists s' L', free a o s = Some s' /\ buddy_ok s' L' /\ forall x, free_in L' x <-> free_in L x \/ in_block a o x).
Proof.
  intros Hok Ha Hp. pose proof (ok_rep s L Hok) as R. pose proof (refuse_usable s a o (r_frame s L R) Ha Hp) as Hr. split.
  - intros H. unfold free. destruct (Nat.leb_spec MAX_ORDER o); [done|]. destruct (refuse s a o) eqn:Er; [done|].
    destruct H as [H|[H|[H1 [o' H2]]]]; [lia|by destruct (H (proj1 Hr eq_refl))|].
    assert (head_bit s a = true) as ->.
    { apply (r_bits s L R a); [lia| |eauto]. by destruct (usable_page s a o' (r_block s L R o' a H2)). }
    unfold covered. rewrite (proj2 (Z.ltb_lt _ _) H1). done.
  - intros Ho Hu Hc. destruct (free_block s L a o Hok Ho Hp Hu Hc) as (s' & L' & H1 & H2 & _ & H3 & _). by exists s', L'.
Qed.

Lemma buddy_free_spec_witness :
  free 98304 3 demo = Some (report_bad_free demo)
  /\ exists s' L', free 65536 3 demo = Some s' /\ buddy_ok s' L' /\ forall x, free_in L' x <-> free_in demo_lists x \/ in_block 65536 3 x.
Proof.
  split.
  - apply (buddy_free_spec demo demo_lists 98304 3 small_ok); [done|done|]. right. right. split; [done|].
    exists 3%nat. left.
  - apply (buddy_free_spec demo demo_lists 65536 3 small_ok); [done|done|unfold MAX_ORDER; lia| |].
    + split; try done. by exists 2.
    + intros o a x Ha Hx Hx'. unfold demo_lists, upd in Ha. case_decide as Eo; [subst|by apply elem_of_nil in Ha].
      apply list_elem_of_singleton in Ha as ->. unfold in_block in *. change (block_size 3) with 32768 in *. lia.
Defined.

Example demo_free_merges :
  option_map (fun s => (free_pages s, heads s)) (free 65536 3 demo) = Some (16, replicate 4 None ++ Some 65536 :: replicate 14 None).
Proof. vm_compute. reflexivity. Qed.

(** An allocated block given back leaves the allocator where it was: the
    free does not halt, the free set and the free-page counter are those before
    the allocation, and the invariant holds. *)
Theorem alloc_free_roundtrip s L order a s' :
  buddy_ok s L -> alloc_untracked order s = Some (Some a, s') ->
  exists s'' L'', free a order s' = Some s'' /\ buddy_ok s'' L'' /\ free_pages s'' = free_pages s
    /\ forall x, free_in L'' x <-> free_in L x.
Proof.
  intros Hok. unfold alloc_untracked. destruct (Nat.leb_spec MAX_ORDER order) as [Hge|Hlt]; [done|]. intros Ha.
  destruct (alloc_scan_spec s L order (seq order (MAX_ORDER - order)) Hok) as [[H1 H2]|(os1 & o & os2 & b & s1 & L' & E & H1 & H2 & H3 & [C1 C2 C3 C4 C6 C5])].
  { apply Forall_forall. intros o Ho%elem_of_seq. lia. }
  { congruence. }
  rewrite H3 in Ha. injection Ha as -> ->.
  assert (usable s' a order) as Hu by by apply (usable_frame s).
  assert (phys_end s' <> 0) as Hp by (destruct Hu; pose proof (block_size_pos order); lia).
  destruct (free_block s' L' a order C1 Hlt Hp Hu C3) as (s'' & L'' & F1 & F2 & F3 & F4 & F5).
  exists s'', L''. split; [done|]. split; [done|]. split; [|intros x; by rewrite F4, C5].
  rewrite (ok_pages _ _ F2), (ok_pages _ _ Hok), F5. f_equal. lia.
Qed.

Definition demo_after : buddy := match alloc_untracked 1 demo with Some (_, s) => s | None => demo end.

Lemma alloc_free_roundtrip_witness :
  alloc_untracked 1 demo = Some (Some 98304, demo_after)
  /\ exists s'' L'', free 98304 1 demo_after = Some s'' /\ buddy_ok s'' L'' /\ free_pages s'' = free_pages demo
    /\ forall x, free_in L'' x <-> free_in demo_lists x.
Proof.
  assert (alloc_untracked 1 demo = Some (Some 98304, demo_after)) as E by (vm_compute; reflexivity).
  split; [exact E|]. exact (alloc_free_roundtrip demo demo_lists 1 98304 demo_after small_ok E).
Defined.
