(* ===== verification/BuddyInit.v ===== *)
(** * The buddy allocator: building the free lists from the boot memory map

    Models the placement of the free-head bitmap and [init_from_map] of
    [src/mm/src/buddy.rs], with the memory-map entries of [src/boot/src/lib.rs].
    The theorem shows that initialisation establishes the invariant
    [buddy_ok] that every later operation keeps, and says exactly which
    addresses start out free.  Address sums are not wrapped: the theorem asks for
    regions and reserved ranges below 2^63. *)
From S2P Require Import Prelude KLib PageSites Buddy.

Inductive MemoryType := Available | Reserved | AcpiReclaimable | AcpiNvs | BadMemory.
#[export] Instance MemoryType_eq_dec : EqDecision MemoryType.
Proof. solve_decision. Defined.

Record MemoryRegion := mkRegion { base : Z; length_ : Z; kind : MemoryType }.

(** ** The free-head bitmap *)
Definition region_end (r : MemoryRegion) : Z := Align.align_down (base r + length_ r) PAGE_SIZE.
Definition region_start (r : MemoryRegion) : Z := Z.max (Align.align_up (base r) PAGE_SIZE) LOW_RESERVED_END.

Definition top_of (regions : list MemoryRegion) : Z :=
  foldl (fun top r => if negb (bool_decide (kind r = Available)) then top
                      else if top <? region_end r then region_end r else top) 0 regions.

Definition div_ceil (x y : Z) : Z := (x + y - 1) / y.
Definition bitmap_bytes (top : Z) : Z := Align.align_up (div_ceil (top / PAGE_SIZE) 64 * 8) PAGE_SIZE.

(** One pass over [RESERVED], and the loop around it.  Every round but the last
    moves past the end of a range it will not meet again, so one round more
    than there are ranges is enough. *)
Definition bump_pass (rs : list (Z * Z)) (bytes cand : Z) : Z * bool :=
  foldl (fun '(cand, bumped) r => if touches cand bytes r then (r.2, true) else (cand, bumped)) (cand, false) rs.
Fixpoint bump (fuel : nat) (rs : list (Z * Z)) (bytes cand : Z) : Z :=
  match fuel with
  | O => cand
  | S f => let '(cand, bumped) := bump_pass rs bytes cand in if negb bumped then cand else bump f rs bytes cand
  end.

Definition place_bitmap (cand bytes top : Z) (s : buddy) : buddy :=
  mkBuddy (heads s) (mem s) (replicate (Z.to_nat (bytes / 8)) 0) top (phys_end s) cand (cand + bytes)
    (reserved s) (free_pages s) (total_pages s) (bad_frees s) (acct s).

Fixpoint carve_bitmap (bytes top : Z) (regions : list MemoryRegion) (s : buddy) : buddy :=
  match regions with
  | [] => s
  | r :: regions =>
      if negb (bool_decide (kind r = Available)) then carve_bitmap bytes top regions s
      else
        let cand := bump (S (length (reserved s))) (reserved s) bytes (region_start r) in
        if region_end r <? cand + bytes then carve_bitmap bytes top regions s
        else place_bitmap cand bytes top s
  end.

Definition setup_free_head_bitmap (regions : list MemoryRegion) (s : buddy) : buddy :=
  let top := top_of regions in
  let bytes := bitmap_bytes top in
  if bytes =? 0 then s else carve_bitmap bytes top regions s.

(** ** [init_from_map] *)
(** [while order > 0 && overlaps_reserved(addr, PAGE_SIZE << order) { order -= 1; }] *)
Fixpoint shrink (s : buddy) (addr : Z) (order : nat) : nat :=
  match order with
  | O => O
  | S o => if overlaps_reserved s addr (block_size order) then shrink s addr o else order
  end.

(** [usize::BITS - 1 - remaining_pages.leading_zeros()] is [log2] of a positive
    count. *)
Definition pick_order (s : buddy) (addr end_ : Z) : nat :=
  let remaining_pages := (end_ - addr) / PAGE_SIZE in
  let max_order := Nat.min (MAX_ORDER - 1) (Z.to_nat (Z.log2 remaining_pages)) in
  let align_order := trailing_zeros (addr / PAGE_SIZE) in
  shrink s addr (Nat.min max_order (Nat.min align_order (MAX_ORDER - 1))).

(** The walk of one region; every round covers at least one page. *)
Fixpoint release (fuel : nat) (addr end_ : Z) (s : buddy) : option buddy :=
  if negb (addr <? end_) then Some s
  else
    match fuel with
    | O => None
    | S f =>
        if overlaps_reserved s addr PAGE_SIZE then release f (addr + PAGE_SIZE) end_ s
        else
          let order := pick_order s addr end_ in
          s ← free addr order s;
          release f (addr + block_size order) end_ s
    end.

Definition init_region (region : MemoryRegion) (s : buddy) : option buddy :=
  if negb (bool_decide (kind region = Available)) then Some s
  else
    let start := region_start region in
    let end_ := region_end region in
    if end_ <=? start then Some s
    else
      let s := if phys_end s <? end_ then set_phys_end end_ s else s in
      release (Z.to_nat ((end_ - start) / PAGE_SIZE)) start end_ s.

Fixpoint init_regions (regions : list MemoryRegion) (s : buddy) : option buddy :=
  match regions with
  | [] => Some s
  | r :: regions => s ← init_region r s; init_regions regions s
  end.

Definition init_from_map (regions : list MemoryRegion) (s : buddy) : option buddy :=
  s ← init_regions regions (setup_free_head_bitmap regions s);
  Some (set_total_pages (free_pages s) s).

(** ** Placing the bitmap *)
Definition ahead (rs : list (Z * Z)) (cand : Z) : nat := length (filter (fun r => cand < r.2) rs).

Lemma bump_pass_spec rs bytes cand b cand' b' :
  foldl (fun '(cand, bumped) r => if touches cand bytes r then (r.2, true) else (cand, bumped)) (cand, b) rs = (cand', b') ->
  (cand' = cand /\ b' = b /\ Forall (fun r => touches cand bytes r = false) rs)
  \/ (b' = true /\ cand < cand' /\ exists r, r ∈ rs /\ cand < r.2 <= cand').
Proof.
  revert cand b. induction rs as [|r rs IH]; intros cand b; cbn [foldl].
  { intros [= <- <-]. by left. }
  destruct (touches cand bytes r) eqn:Et; intros H; apply IH in H as [(-> & -> & Hf)|(-> & Hlt & q & Hq & Hr)].
  - assert (cand < r.2) by (unfold touches in Et; bool_to_prop; lia). right. split; [done|]. split; [done|].
    exists r. split; [left|lia].
  - assert (cand < r.2) by (unfold touches in Et; bool_to_prop; lia). right. split; [done|]. split; [lia|].
    exists r. split; [left|lia].
  - left. split; [done|]. split; [done|]. by constructor.
  - right. split; [done|]. split; [done|]. exists q. split; [by right|done].
Qed.

Lemma ahead_lt rs cand cand' r : r ∈ rs -> cand < r.2 <= cand' -> (ahead rs cand' < ahead rs cand)%nat.
Proof.
  intros Hr Hlt. induction rs as [|q rs IH]; [by apply elem_of_nil in Hr|].
  assert (ahead rs cand' <= ahead rs cand)%nat as Hle.
  { clear IH Hr. unfold ahead. induction rs as [|p rs IH]; [done|]. rewrite !filter_cons. repeat case_decide; cbn; lia. }
  unfold ahead in *. rewrite !filter_cons. apply elem_of_cons in Hr as [<-|Hr].
  - rewrite decide_False, decide_True by lia. cbn. lia.
  - specialize (IH Hr). repeat case_decide; cbn; lia.
Qed.

(** The loop ends with a place that no reserved range touches. *)
Lemma bump_spec fuel rs bytes cand :
  (ahead rs cand < fuel)%nat ->
  cand <= bump fuel rs bytes cand /\ Forall (fun r => touches (bump fuel rs bytes cand) bytes r = false) rs.
Proof.
  revert cand. induction fuel as [|fuel IH]; intros cand Hf; [lia|]. cbn [bump].
  destruct (bump_pass rs bytes cand) as [c b] eqn:E. unfold bump_pass in E.
  apply bump_pass_spec in E as [(-> & -> & H)|(-> & Hlt & r & Hr & Hc)]; cbn [negb]; [done|].
  pose proof (ahead_lt rs cand c r Hr Hc). destruct (IH c) as [H1 H2]; [lia|]. split; [lia|done].
Qed.

Lemma ahead_le rs cand : (ahead rs cand <= length rs)%nat.
Proof. apply length_filter. Qed.

(** ** Well-formed inputs *)
Record region_wf (r : MemoryRegion) : Prop := {
  rw_base : 0 <= base r;
  rw_length : 0 <= length_ r;
  rw_end : base r + length_ r <= 2 ^ 63 }.

Definition ranges_wf (rs : list (Z * Z)) : Prop := Forall (fun r => 0 <= r.1 <= r.2 /\ r.2 <= 2 ^ 63) rs.

Definition in_region (r : MemoryRegion) (x : Z) : Prop := kind r = Available /\ region_start r <= x < region_end r.

(** The memory map lists no address of usable RAM twice. *)
Definition no_overlap (regions : list MemoryRegion) : Prop :=
  forall i j r q x, regions !! i = Some r -> regions !! j = Some q -> in_region r x -> in_region q x -> i = j.

(** The page of [x] is clear of the reserved ranges and of the bitmap. *)
Definition page_clear (s : buddy) (x : Z) : Prop := overlaps_reserved s (x - x mod PAGE_SIZE) PAGE_SIZE = false.

Lemma region_spans r :
  region_wf r -> (PAGE_SIZE | region_start r) /\ (PAGE_SIZE | region_end r) /\ 0 < region_start r
    /\ base r <= region_start r /\ 0 <= region_end r <= base r + length_ r.
Proof.
  intros [H1 H2 H3]. unfold region_start, region_end.
  destruct (Align.align_up_spec (base r) 12) as [U1 U2]; [lia|done|lia|].
  destruct (Align.align_down_spec (base r + length_ r) 12) as [D1 D2]; [lia|split; lia|].
  change (2 ^ 12) with PAGE_SIZE in *. unfold LOW_RESERVED_END. change (Z.shiftl 1 20) with (256 * PAGE_SIZE).
  split; [|split; [done|]].
  - destruct (Z.max_spec (Align.align_up (base r) PAGE_SIZE) (256 * PAGE_SIZE)) as [[_ ->]|[_ ->]]; [apply Z.divide_factor_r|done].
  - unfold PAGE_SIZE in *. destruct D2 as [k Hk]. lia.
Qed.

Lemma top_of_spec regions :
  Forall region_wf regions -> (PAGE_SIZE | top_of regions) /\ 0 <= top_of regions <= 2 ^ 63.
Proof.
  intros Hwf. unfold top_of. set (P := fun t => (PAGE_SIZE | t) /\ 0 <= t <= 2 ^ 63). set (f := fun (top : Z) r => _).
  enough (forall t, P t -> P (foldl f t regions)) as H by (apply H; split; [apply Z.divide_0_r|lia]).
  induction Hwf as [|r rs Hr Hrs IH]; intros t Ht; [done|]. cbn [foldl]. apply IH. unfold f.
  destruct (negb _); [done|]. destruct (t <? region_end r); [|done].
  destruct (region_spans r Hr) as (_ & H1 & _ & _ & H2). destruct Hr. split; [done|lia].
Qed.

(** The bitmap has a bit for every page below [top]. *)
Lemma bitmap_bytes_spec top :
  (PAGE_SIZE | top) -> 0 <= top <= 2 ^ 63 ->
  0 <= bitmap_bytes top <= 2 ^ 63 /\ top <= PAGE_SIZE * 64 * (bitmap_bytes top / 8).
Proof.
  intros [k ->] Ht. unfold bitmap_bytes, div_ceil, PAGE_SIZE in *. rewrite Z.div_mul by lia.
  assert (0 <= k <= 2 ^ 51) as Hk by (change (2 ^ 63) with (2 ^ 51 * 4096) in Ht; lia).
  set (n := (k + 64 - 1) / 64). assert (k <= 64 * n <= k + 63) as Hn.
  { unfold n. pose proof (Z.div_mod (k + 64 - 1) 64). pose proof (Z.mod_pos_bound (k + 64 - 1) 64). lia. }
  destruct (Align.align_up_spec (n * 8) 12) as [U [c Hc]]; [lia|lia|change (2 ^ 51) with 2251799813685248 in Hk; change (2 ^ 12) with 4096; lia|].
  change (2 ^ 12) with 4096 in *. rewrite Hc in *. split.
  - change (2 ^ 51) with 2251799813685248 in Hk. change (2 ^ 63) with 9223372036854775808. lia.
  - replace (c * 4096) with (c * 512 * 8) by lia. rewrite Z.div_mul by lia. lia.
Qed.

(** Where the bitmap is: nowhere, or inside one usable region and clear of every
    reserved range. *)
Definition bitmap_placed (regions : list MemoryRegion) (s : buddy) : Prop :=
  bitmap_phys s = bitmap_phys_end s
  \/ exists r, r ∈ regions /\ kind r = Available /\ region_start r <= bitmap_phys s /\ bitmap_phys_end s <= region_end r
       /\ Forall (fun q => touches (bitmap_phys s) (bitmap_phys_end s - bitmap_phys s) q = false) (reserved s).

Record set_up (regions : list MemoryRegion) (rs : list (Z * Z)) (s : buddy) : Prop := {
  su_ok : buddy_ok s no_lists;
  su_phys : phys_end s = 0;
  su_res : reserved s = rs;
  su_placed : bitmap_placed regions s }.

Lemma frame_empty rs : ranges_wf rs -> frame_ok (empty rs).
Proof.
  intros Hrs. split; cbn; [done|by split|lia|lia|]. constructor; [done|]. eapply Forall_impl; [exact Hrs|]. cbn. lia.
Qed.

Lemma carve_bitmap_spec all regions rs bytes top :
  ranges_wf rs -> 0 <= bytes -> top <= PAGE_SIZE * 64 * (bytes / 8) -> regions ⊆ all ->
  set_up all rs (carve_bitmap bytes top regions (empty rs)).
Proof.
  intros Hrs Hb Ht. induction regions as [|r regions IH]; intros Hsub; cbn [carve_bitmap].
  - split; [|done|done|by left]. apply ok_empty; [by apply frame_empty|done..].
  - destruct (bool_decide_reflect (kind r = Available)) as [Hk|Hk]; cbn [negb]; [|apply IH; set_solver].
    set (cand := bump _ _ _ _). destruct (Z.ltb_spec (region_end r) (cand + bytes)) as [Hl|Hl]; [apply IH; set_solver|].
    destruct (bump_spec (S (length rs)) rs bytes (region_start r)) as [H1 H2].
    { pose proof (ahead_le rs (region_start r)). lia. }
    change (bump _ rs bytes (region_start r)) with cand in H1, H2. clearbody cand. split; [|done|done|].
    + apply ok_empty; [|done|cbn; by rewrite length_replicate|done]. split; cbn; [done| | |lia|].
      * rewrite length_replicate. apply Bitmap.wf_new.
      * rewrite length_replicate. rewrite Z2Nat.id; [done|]. apply Z.div_pos; lia.
      * constructor; [cbn; lia|]. eapply Forall_impl; [exact Hrs|]. cbn. lia.
    + right. exists r. split; [set_solver|]. split; [done|]. cbn. split; [exact H1|]. split; [lia|].
      replace (cand + bytes - cand) with bytes by lia. exact H2.
Qed.

Lemma setup_spec regions rs :
  Forall region_wf regions -> ranges_wf rs -> set_up regions rs (setup_free_head_bitmap regions (empty rs)).
Proof.
  intros Hwf Hrs. unfold setup_free_head_bitmap. destruct (top_of_spec regions Hwf) as [Ht1 Ht2].
  destruct (bitmap_bytes_spec _ Ht1 Ht2) as [Hb1 Hb2]. destruct (_ =? 0).
  - apply (carve_bitmap_spec regions [] rs 0 0); [done|done|done|set_solver].
  - apply carve_bitmap_spec; [done|lia|done|done].
Qed.

(** ** Choosing a block *)
Lemma touches_sub a n b m r : touches a n r = false -> a <= b -> b + m <= a + n -> touches b m r = false.
Proof. unfold touches. destruct (empty_range r); [done|]. cbn. lia. Qed.

Lemma overlaps_sub s a n b m :
  overlaps_reserved s a n = false -> a <= b -> b + m <= a + n -> overlaps_reserved s b m = false.
Proof.
  unfold overlaps_reserved. rewrite !orb_false_iff. intros [H1 H2] Hab Hm. split; [by eapply touches_sub|].
  revert H2. induction (reserved s) as [|r rs IH]; [done|]. cbn. rewrite !orb_false_iff. intros [H2 H3].
  split; [by eapply touches_sub|by apply IH].
Qed.

Lemma ctz_divides p : (2 ^ Z.of_nat (ctz_pos p) | Zpos p).
Proof.
  induction p as [p IH|p [k IH]|]; cbn [ctz_pos]; [apply Z.divide_1_l| |apply Z.divide_1_l].
  exists k. rewrite Nat2Z.inj_succ, Z.pow_succ_r by lia. rewrite Pos2Z.inj_xO, IH. lia.
Qed.

Lemma shrink_spec s addr o :
  overlaps_reserved s addr (block_size 0) = false ->
  (shrink s addr o <= o)%nat /\ overlaps_reserved s addr (block_size (shrink s addr o)) = false.
Proof.
  intros H0. induction o as [|o IH]; [done|]. cbn [shrink].
  destruct (overlaps_reserved s addr (block_size (S o))) eqn:E; [split; [lia|apply IH]|done].
Qed.

Lemma block_size_mono o o' : (o <= o')%nat -> block_size o <= block_size o' /\ (block_size o | block_size o').
Proof.
  intros Ho. rewrite !block_size_pow. split; [apply Z.pow_le_mono_r; lia|].
  exists (2 ^ (Z.of_nat o' - Z.of_nat o)). rewrite <- Z.pow_add_r by lia. f_equal. lia.
Qed.

Lemma pick_order_spec s addr end_ :
  0 < addr -> (PAGE_SIZE | addr) -> (PAGE_SIZE | end_) -> addr < end_ -> end_ <= phys_end s ->
  overlaps_reserved s addr PAGE_SIZE = false ->
  let o := pick_order s addr end_ in (o < MAX_ORDER)%nat /\ usable s addr o /\ addr + block_size o <= end_.
Proof.
  intros Ha [k Hk] [e He] Hlt Hp Hov. unfold pick_order. set (o0 := Nat.min _ (Nat.min _ _)).
  destruct (shrink_spec s addr o0 Hov) as [Hle Hcl]. set (o := shrink s addr o0) in *.
  assert (block_size o0 <= end_ - addr) as Hfit.
  { assert (Z.of_nat o0 <= Z.log2 (e - k)) as Hl.
    { unfold o0. replace ((end_ - addr) / PAGE_SIZE) with (e - k) by (rewrite He, Hk, <- Z.mul_sub_distr_r, Z.div_mul; [done|done]).
      pose proof (Z.log2_nonneg (e - k)). lia. }
    rewrite block_size_eq. assert (0 < e - k) as Hpos by (unfold PAGE_SIZE in *; lia).
    destruct (Z.log2_spec (e - k) Hpos) as [H1 _]. pose proof (Z.pow_le_mono_r 2 (Z.of_nat o0) (Z.log2 (e - k))).
    unfold PAGE_SIZE in *. lia. }
  assert (block_size o0 | addr) as Hdiv.
  { assert (0 < k) as Hk0 by (unfold PAGE_SIZE in *; lia).
    assert (o0 <= trailing_zeros k)%nat as Ht.
    { unfold o0. rewrite Hk, Z.div_mul by done. lia. }
    destruct k as [|p|p]; [lia| |lia]. cbn [trailing_zeros] in Ht. rewrite Hk.
    destruct (ctz_divides p) as [c Hc]. rewrite Hc, block_size_eq. unfold PAGE_SIZE. rewrite (Z.mul_comm 4096).
    apply Z.mul_divide_mono_r. apply Z.divide_mul_r. exists (2 ^ (Z.of_nat (ctz_pos p) - Z.of_nat o0)).
    rewrite <- Z.pow_add_r by lia. f_equal. lia. }
  destruct (block_size_mono o o0 Hle) as [Hm1 Hm2]. split; [|split; [split|lia]].
  - assert (o0 < MAX_ORDER)%nat by (unfold o0, MAX_ORDER; lia). lia.
  - done.
  - by etrans.
  - lia.
  - done.
Qed.

(** ** Walking a region *)
Lemma page_base addr x : (PAGE_SIZE | addr) -> addr <= x < addr + PAGE_SIZE -> x - x mod PAGE_SIZE = addr.
Proof.
  intros [k ->] Hx. unfold PAGE_SIZE in *. assert (x mod 4096 = x - k * 4096) as ->; [|lia].
  symmetry. apply (Z.mod_unique_pos _ _ k); lia.
Qed.

Lemma block_clear s addr o x :
  usable s addr o -> in_block addr o x -> page_clear s x.
Proof.
  intros [H1 H2 H3 H4] Hx. unfold page_clear, in_block in *.
  assert (PAGE_SIZE | addr) as [k Hk] by (etrans; [apply page_divides|done]).
  destruct (page_divides o) as [c Hc]. unfold PAGE_SIZE in *.
  pose proof (Z.mod_pos_bound x 4096). pose proof (Z.div_mod x 4096).
  apply (overlaps_sub s addr (block_size o)); [done|lia|lia].
Qed.

(** [free] also moves the page accounts, which the walk does not read. *)
Definition same_map (s s' : buddy) : Prop := same_frame (set_acct (acct s') s) s'.

#[export] Instance same_map_preorder : PreOrder same_map.
Proof.
  split; [by intros s; split|]. intros s1 s2 s3 [A1 A2 A3 A4 A5 A6 A7 A8] [B1 B2 B3 B4 B5 B6 B7 B8]. cbn in *. split; cbn; congruence.
Qed.

Lemma same_map_acct t s s' : same_frame (set_acct t s) s' -> same_map s s'.
Proof. intros [A1 A2 A3 A4 A5 A6 A7 A8]. by split. Qed.

Lemma page_clear_frame s s' x : same_map s s' -> page_clear s' x <-> page_clear s x.
Proof. intros F. unfold page_clear. by rewrite (overlaps_frame _ s' _ _ F). Qed.

(** One region: everything between [addr] and [end_] that is clear becomes
    free. *)
Lemma release_spec fuel addr end_ s L :
  buddy_ok s L -> 0 < addr -> (PAGE_SIZE | addr) -> (PAGE_SIZE | end_) -> end_ <= phys_end s ->
  end_ - addr <= PAGE_SIZE * Z.of_nat fuel -> (forall x, free_in L x -> ~ addr <= x < end_) ->
  exists s' L', release fuel addr end_ s = Some s' /\ buddy_ok s' L' /\ same_map s s'
    /\ forall x, free_in L' x <-> free_in L x \/ (addr <= x < end_ /\ page_clear s x).
Proof.
  revert addr s L. induction fuel as [|fuel IH]; intros addr s L Hok Ha Had Hed Hp Hf Hc; cbn [release].
  { destruct (Z.ltb_spec addr end_); [lia|]. cbn [negb]. exists s, L. split; [done|]. split; [done|]. split; [done|].
    intros x. split; [tauto|]. intros [?|[? _]]; [done|lia]. }
  destruct (Z.ltb_spec addr end_) as [Hlt|Hge]; cbn [negb].
  2: { exists s, L. split; [done|]. split; [done|]. split; [done|].
       intros x. split; [tauto|]. intros [?|[? _]]; [done|lia]. }
  destruct (overlaps_reserved s addr PAGE_SIZE) eqn:Eov.
  - destruct (IH (addr + PAGE_SIZE) s L) as (s' & L' & E & Ok' & F & X); [done|unfold PAGE_SIZE; lia| |done|done|lia| |].
    { apply Z.divide_add_r; [done|reflexivity]. }
    { intros x Hx Hr. apply (Hc x Hx). unfold PAGE_SIZE in *. lia. }
    exists s', L'. split; [done|]. split; [done|]. split; [done|]. intros x. rewrite X.
    assert (addr <= x < addr + PAGE_SIZE -> ~ page_clear s x) as Hn.
    { intros Hx. unfold page_clear. rewrite (page_base addr x Had Hx). congruence. }
    assert (end_ >= addr + PAGE_SIZE) as He by (destruct Had as [k ->], Hed as [e ->]; unfold PAGE_SIZE in *; lia).
    split; [intros [?|[? ?]]; [by left|right; unfold PAGE_SIZE in *; split; [lia|done]]|].
    intros [?|[Hx Hpc]]; [by left|right]. split; [|done].
    destruct (Z.lt_ge_cases x (addr + PAGE_SIZE)); [|lia]. destruct Hn; [lia|done].
  - destruct (pick_order_spec s addr end_ Ha Had Hed Hlt Hp Eov) as (Ho & Hu & Hfit).
    set (o := pick_order s addr end_) in *. pose proof (block_page o) as Hpg. pose proof (block_size_pos o) as Hpos.
    assert (clear_of L addr o) as Hcl.
    { intros o' b x Hb Hx Hax. apply (Hc x); [by exists o', b|]. unfold in_block in Hax. lia. }
    destruct (free_block s L addr o Hok Ho ltac:(lia) Hu Hcl) as (s1 & L1 & -> & Ok1 & F1%same_map_acct & X1 & _). cbn [mbind option_bind].
    destruct (IH (addr + block_size o) s1 L1) as (s' & L' & E & Ok' & F & X); [done|lia| |done|by rewrite (sf_phys _ _ F1)|lia| |].
    { apply Z.divide_add_r; [done|apply page_divides]. }
    { intros x [Hx|Hx]%X1 Hr; [apply (Hc x Hx)|unfold in_block in Hx]; lia. }
    exists s', L'. split; [done|]. split; [done|]. split; [by etrans|]. intros x.
    rewrite X, X1, (page_clear_frame s s1) by done. pose proof (block_clear s addr o x Hu) as Hbc. unfold in_block in *.
    split; [intros [[?|?]|[? ?]]; [by left|right; split; [lia|by apply Hbc]|right; split; [lia|done]]|].
    intros [?|[Hx Hpc]]; [by left; left|]. destruct (Z.lt_ge_cases x (addr + block_size o)); [left; right; lia|right; split; [lia|done]].
Qed.

(** Raising [PHYS_END] keeps everything. *)
Lemma rep_phys s L e : rep s L -> phys_end s <= e < 2 ^ 64 -> rep (set_phys_end e s) L.
Proof.
  intros [H1 H2 H3 H4 H5 H6 H7 H8] He. split; try done.
  - destruct H1. split; try done. cbn. lia.
  - intros o a Ha. destruct (H5 o a Ha). split; try done. cbn. lia.
Qed.

Lemma init_region_spec r s L :
  region_wf r -> buddy_ok s L -> (forall x, free_in L x -> ~ in_region r x) ->
  exists s' L', init_region r s = Some s' /\ buddy_ok s' L' /\ reserved s' = reserved s
    /\ bitmap_phys s' = bitmap_phys s /\ bitmap_phys_end s' = bitmap_phys_end s
    /\ forall x, free_in L' x <-> free_in L x \/ (in_region r x /\ page_clear s x).
Proof.
  intros Hwf Hok Hd. unfold init_region, in_region in *.
  assert (forall P : Z -> Prop, (forall x, ~ P x) -> forall x, free_in L x <-> free_in L x \/ (P x /\ page_clear s x)) as Hskip.
  { intros P HP x. specialize (HP x). tauto. }
  destruct (bool_decide_reflect (kind r = Available)) as [Hk|Hk]; cbn [negb].
  2: { exists s, L. repeat (split; [done|]). apply Hskip. tauto. }
  destruct (Z.leb_spec (region_end r) (region_start r)) as [He|He].
  { exists s, L. repeat (split; [done|]). apply Hskip. lia. }
  destruct (region_spans r Hwf) as (A1 & A2 & A3 & A4 & A5). destruct Hwf as [_ _ W].
  set (s1 := if phys_end s <? region_end r then _ else s).
  assert (buddy_ok s1 L /\ region_end r <= phys_end s1 /\ reserved s1 = reserved s /\ bitmap_phys s1 = bitmap_phys s
    /\ bitmap_phys_end s1 = bitmap_phys_end s) as (Ok1 & P1 & E1 & E2 & E3).
  { unfold s1. destruct (Z.ltb_spec (phys_end s) (region_end r)); [|done]. destruct Hok. split; [|done].
    split; [apply rep_phys; [done|lia]|done|done]. }
  destruct (release_spec (Z.to_nat ((region_end r - region_start r) / PAGE_SIZE)) (region_start r) (region_end r) s1 L)
    as (s' & L' & E & Ok' & F & X); [done|done|done|done|done| | |].
  { destruct A1 as [a ->], A2 as [b ->]. rewrite <- Z.mul_sub_distr_r, Z.div_mul by done. unfold PAGE_SIZE in *. lia. }
  { intros x Hx Hr. by apply (Hd x Hx). }
  exists s', L'. split; [done|]. split; [done|]. split; [by rewrite (sf_res _ _ F)|]. split; [by rewrite (sf_bs _ _ F)|].
  split; [by rewrite (sf_be _ _ F)|]. intros x. rewrite X. unfold page_clear, overlaps_reserved. rewrite E1, E2, E3. tauto.
Qed.

Lemma no_overlap_tail r regions : no_overlap (r :: regions) -> no_overlap regions
  /\ forall q x, q ∈ regions -> in_region q x -> ~ in_region r x.
Proof.
  intros H. split.
  - intros i j a b x Hi Hj Ha Hb. assert (S i = S j) as [=] by by apply (H (S i) (S j) a b x). done.
  - intros q x Hq Hqx Hrx. apply list_elem_of_lookup in Hq as [i Hi]. by specialize (H (S i) 0%nat q r x Hi eq_refl Hqx Hrx).
Qed.

Lemma init_regions_spec regions s L :
  Forall region_wf regions -> no_overlap regions -> buddy_ok s L ->
  (forall x r, free_in L x -> r ∈ regions -> ~ in_region r x) ->
  exists s' L', init_regions regions s = Some s' /\ buddy_ok s' L' /\ reserved s' = reserved s
    /\ bitmap_phys s' = bitmap_phys s /\ bitmap_phys_end s' = bitmap_phys_end s
    /\ forall x, free_in L' x <-> free_in L x \/ ((exists r, r ∈ regions /\ in_region r x) /\ page_clear s x).
Proof.
  intros Hwf. revert s L. induction Hwf as [|r regions Hr Hwf IH]; intros s L Hno Hok Hd; cbn [init_regions].
  - exists s, L. repeat (split; [done|]). intros x. split; [tauto|]. intros [?|[(r & Hr & _) _]]; [done|by apply elem_of_nil in Hr].
  - apply no_overlap_tail in Hno as [Hno Hrq].
    destruct (init_region_spec r s L Hr Hok) as (s1 & L1 & -> & Ok1 & E1 & E2 & E3 & X1); [intros x Hx; apply Hd; [done|left]|].
    cbn [mbind option_bind]. destruct (IH s1 L1 Hno Ok1) as (s' & L' & -> & Ok' & F1 & F2 & F3 & X).
    { intros x q [Hx|[Hx _]]%X1 Hq Hqx; [apply (Hd x q Hx); [by right|done]|by apply (Hrq q x)]. }
    exists s', L'. split; [done|]. split; [done|]. split; [congruence|]. split; [congruence|]. split; [congruence|].
    intros x. rewrite X, X1. unfold page_clear, overlaps_reserved. rewrite E1, E2, E3.
    setoid_rewrite elem_of_cons. split; [naive_solver|]. intros [?|[(q & [->|Hq] & Hqx) Hpc]]; [tauto|tauto|]. right. eauto.
Qed.

(** [init_from_map], run on a memory map without overlapping usable regions
    after any [reserve_range] calls, never halts and establishes the
    allocator's invariant; the free-head bitmap, if it found a place, lies
    inside a usable region and clear of every reserved range; and an address
    starts out free exactly when it belongs to an available region at or above
    the first megabyte and its page is clear of the reserved ranges and of the
    bitmap.  [TOTAL_PAGES] is the free-page count at that moment. *)
Theorem init_from_map_spec regions rs :
  Forall region_wf regions -> no_overlap regions -> ranges_wf rs ->
  exists s L, init_from_map regions (empty rs) = Some s /\ buddy_ok s L
    /\ reserved s = rs /\ bitmap_placed regions s /\ total_pages s = free_pages s
    /\ forall x, free_in L x <-> (exists r, r ∈ regions /\ in_region r x) /\ page_clear s x.
Proof.
  intros Hwf Hno Hrs. unfold init_from_map. destruct (setup_spec regions rs Hwf Hrs) as [Ok0 _ E0 Hpl].
  set (s0 := setup_free_head_bitmap _ _) in *. assert (forall x, ~ free_in no_lists x) as Hn.
  { intros x (o & a & Ha & _). by apply elem_of_nil in Ha. }
  destruct (init_regions_spec regions s0 no_lists Hwf Hno Ok0) as (s & L & -> & [R P M] & F1 & F2 & F3 & X).
  { intros x r Hx. by destruct (Hn x). }
  cbn [mbind option_bind]. exists (set_total_pages (free_pages s) s), L. split; [done|]. split; [|split; [|split; [|split]]].
  - split; [|done|done]. destruct R as [H1 H2 H3 H4 H5 H6 H7 H8]. split; try done; [by destruct H1|].
    intros o a Ha. by destruct (H5 o a Ha).
  - cbn. congruence.
  - unfold bitmap_placed in *. cbn. by rewrite F1, F2, F3.
  - done.
  - intros x. rewrite X. unfold page_clear, overlaps_reserved. cbn. rewrite F1, F2, F3. specialize (Hn x). tauto.
Qed.

(** Two megabytes of RAM after the first, with a page of it reserved. *)
Definition demo_map : list MemoryRegion := [mkRegion 0 654336 Available; mkRegion 1048576 2097152 Available; mkRegion 3145728 65536 Reserved].

Lemma demo_no_overlap : no_overlap demo_map.
Proof.
  assert (forall r x, r ∈ demo_map -> in_region r x -> r = mkRegion 1048576 2097152 Available) as H.
  { intros r x Hr [Hk Hx]. unfold demo_map in Hr. rewrite !elem_of_cons, elem_of_nil in Hr.
    destruct Hr as [->|[->|[->|[]]]]; [|done|done]. assert (1048576 <= x < 651264) by exact Hx. lia. }
  intros i j r q x Hi Hj Hr Hq. pose proof (list_elem_of_lookup_2 _ _ _ Hi) as Hir. pose proof (list_elem_of_lookup_2 _ _ _ Hj) as Hjq.
  rewrite (H r x Hir Hr) in Hi. rewrite (H q x Hjq Hq) in Hj.
  assert (forall i, demo_map !! i = Some (mkRegion 1048576 2097152 Available) -> i = 1%nat) as Hone by (intros [|[|[|]]]; done).
  by rewrite (Hone i Hi), (Hone j Hj).
Qed.

Lemma init_from_map_spec_witness :
  exists s L, init_from_map demo_map (empty [(1052672, 1056768)]) = Some s /\ buddy_ok s L
    /\ reserved s = [(1052672, 1056768)] /\ bitmap_placed demo_map s /\ total_pages s = free_pages s
    /\ forall x, free_in L x <-> (exists r, r ∈ demo_map /\ in_region r x) /\ page_clear s x.
Proof.
  apply (init_from_map_spec demo_map [(1052672, 1056768)]).
  - repeat constructor; done.
  - exact demo_no_overlap.
  - repeat constructor; done.
Defined.

Example demo_free : option_map (fun s => (free_pages s, bitmap_phys s, bitmap_phys_end s, phys_end s))
  (init_from_map demo_map (empty [(1052672, 1056768)])) = Some (510, 1048576, 1052672, 3145728).
Proof. vm_compute. reflexivity. Qed.
