(* ===== verification/BuddyTracked.v ===== *)
(** * The tracked allocation calls

    Models [alloc], [try_alloc], [alloc_below] and [init_site_tags] of
    [src/mm/src/buddy.rs]: the untracked operations of [Buddy] with the charge
    of [PageSites] on top.  [alloc] asks the page cache for frames when the
    lists are empty; the page cache ([src/mm/src/pagecache.rs]) is the interface
    [Reclaimer], whose law says that giving frames back keeps the invariant.

    The invariant [tracked] adds to [buddy_ok] that the accounts are exact
    and that a free page carries no tag; the theorem shows that every call
    keeps it, so the live pages reported per call site are the pages that site
    holds. *)
From S2P Require Import Prelude KLib PageSites Buddy.

(** [key] is the address of the caller's location. *)
Definition charge_result (key : Z) (order : nat) (r : option Z * buddy) : option Z * buddy :=
  match r with
  | (Some addr, s) => (Some addr, set_acct (charge_block key addr order (acct s)) s)
  | (None, s) => (None, s)
  end.

Definition try_alloc (key : Z) (order : nat) (s : buddy) : option (option Z * buddy) :=
  r ← alloc_untracked order s; Some (charge_result key order r).

Definition alloc_below (key : Z) (order : nat) (limit : Z) (s : buddy) : option (option Z * buddy) :=
  r ← alloc_below_untracked order limit s; Some (charge_result key order r).

(** [while (1usize << order) < pages { order += 1; }]; 64 rounds are enough for
    a [usize]. *)
Fixpoint order_for (fuel order : nat) (pages : Z) : nat :=
  match fuel with
  | O => order
  | S f => if Z.shiftl 1 (Z.of_nat order) <? pages then order_for f (S order) pages else order
  end.

Definition init_site_tags (s : buddy) : option buddy :=
  let n := phys_end s / PAGE_SIZE in
  if n =? 0 then Some s
  else
    let pages := (n + PAGE_SIZE - 1) / PAGE_SIZE in
    r ← alloc_untracked (order_for 64 0 pages) s;
    match r with
    | (None, s) => Some s
    | (Some _, s) => Some (set_acct (set_tags (Some (replicate (Z.to_nat n) 0)) (set_tag_pages n (acct s))) s)
    end.

(** ** The invariant *)
Record tracked (s : buddy) (L : nat -> list Z) : Prop := {
  tk_ok : buddy_ok s L;
  tk_acct : accounted (acct s);
  tk_cover : tags (acct s) = None \/ phys_end s / PAGE_SIZE <= tag_pages (acct s);
  tk_free : forall x, free_in L x -> tag_at (acct s) (block_first x) = 0 }.

(** What the page cache promises: the frames it gives back are freed like any
    other block.  The answer is the number of frames. *)
Class Reclaimer (emergency_reclaim : Z -> buddy -> option (Z * buddy)) := {
  reclaim_tracked : forall k s L, tracked s L ->
    exists n s' L', emergency_reclaim k s = Some (n, s') /\ tracked s' L'
      /\ phys_end s' = phys_end s /\ reserved s' = reserved s }.

Section alloc.
Context (emergency_reclaim : Z -> buddy -> option (Z * buddy)).

Definition alloc (key : Z) (order : nat) (s : buddy) : option (option Z * buddy) :=
  r ← alloc_untracked order s;
  match r with
  | (Some _, _) => Some (charge_result key order r)
  | (None, s) =>
      c ← emergency_reclaim (Z.max (Z.shiftl 4 (Z.of_nat order)) 64) s;
      let '(n, s) := c in
      if n =? 0 then Some (None, s)
      else
        r ← alloc_untracked order s;
        Some (charge_result key order r)
  end.
End alloc.

(** ** Pages of a block *)
Lemma in_pages_block a o k : 0 <= a -> (PAGE_SIZE | a) -> in_pages a o k <-> in_block a o (PAGE_SIZE * Z.of_nat k).
Proof.
  intros Ha [q ->]. unfold in_pages, in_block, block_first. rewrite Z.div_mul by done.
  rewrite block_size_eq. unfold PAGE_SIZE in *.
  assert (Z.of_nat (2 ^ o) = 2 ^ Z.of_nat o) as Hp by by rewrite Nat2Z.inj_pow. lia.
Qed.

Lemma page_of_block a o x : 0 <= a -> (PAGE_SIZE | a) -> in_pages a o (block_first x) <-> in_block a o x \/ (x < 0 /\ a = 0).
Proof.
  intros Ha [q ->]. unfold in_pages, in_block, block_first. rewrite Z.div_mul by done.
  rewrite block_size_eq. unfold PAGE_SIZE in *.
  assert (Z.of_nat (2 ^ o) = 2 ^ Z.of_nat o) as Hp by by rewrite Nat2Z.inj_pow.
  pose proof (Z.div_mod x 4096 ltac:(lia)). pose proof (Z.mod_pos_bound x 4096 ltac:(lia)).
  assert (0 < 2 ^ o)%nat by (apply Nat.neq_0_lt_0, Nat.pow_nonzero; lia). lia.
Qed.

Lemma block_in_cover s a o : usable s a o -> Z.of_nat (block_first a + 2 ^ o) <= phys_end s / PAGE_SIZE.
Proof.
  intros [H1 H2 H3 _]. assert (PAGE_SIZE | a) as [q Hq] by (etrans; [apply (page_divides o)|done]).
  apply Z.div_le_lower_bound; [done|]. unfold block_first. rewrite Hq, Z.div_mul by done. rewrite block_size_eq in H3.
  rewrite Nat2Z.inj_add, Z2Nat.id, Nat2Z.inj_pow by (unfold PAGE_SIZE in *; lia). unfold PAGE_SIZE in *. lia.
Qed.

Lemma tracked_rebase s L t : buddy_ok s L -> buddy_ok (set_acct t s) L.
Proof. intros [R P M]. split; [by apply rep_acct|done|done]. Qed.

(** Charging a block that was just carved. *)
Lemma charge_tracked key s L order a s' L' :
  tracked s L -> carved s L order a s' L' -> tracked (set_acct (charge_block key a order (acct s')) s') L'.
Proof.
  intros [T1 T2 T3 T4] [C1 C2 C3 C4 _ C6]. destruct (usable_page s a order C2) as [Ha Hd].
  rewrite (sf_acct s s' C4). destruct (charge_block_spec key a order (acct s) T2) as (A1 & A2 & A3 & A4).
  - destruct T3 as [T3|T3]; [by right|left]. pose proof (block_in_cover s a order C2). lia.
  - intros k Hk. assert (block_first (PAGE_SIZE * Z.of_nat k) = k) as <-.
    { unfold block_first. rewrite Z.mul_comm, Z.div_mul by done. lia. }
    apply T4, C6. right. by apply in_pages_block.
  - split; cbn [acct set_acct phys_end].
    + by apply tracked_rebase.
    + done.
    + destruct T3 as [T3|T3]; [left; by apply A3|right]. rewrite A2. change (phys_end (set_acct _ s')) with (phys_end s').
      by rewrite (sf_phys s s' C4).
    + intros x Hx. rewrite A4; [apply T4, C6; by left|]. rewrite page_of_block by done.
      destruct Hx as (o & b & Hb & Hx). intros [H|[H _]]; [by apply (C3 o b x)|].
      pose proof (rep_pos s' L' (ok_rep _ _ C1) o b Hb). unfold in_block in Hx. lia.
Qed.

(** ** The calls, one by one *)
Lemma seq_ge order n : Forall (fun o => (order <= o)%nat) (seq order n).
Proof. apply Forall_forall. intros o Ho%elem_of_seq. lia. Qed.

Lemma alloc_carved s L order :
  buddy_ok s L -> alloc_untracked order s = Some (None, s)
  \/ exists a s' L', alloc_untracked order s = Some (Some a, s') /\ carved s L order a s' L'.
Proof.
  intros Hok. unfold alloc_untracked. destruct (MAX_ORDER <=? order)%nat; [by left|].
  destruct (alloc_scan_spec s L order _ Hok (seq_ge order (MAX_ORDER - order))) as [[_ H]|(_ & _ & _ & a & s' & L' & _ & _ & _ & H)]; [by left|right].
  by exists a, s', L'.
Qed.

Lemma below_carved s L order limit :
  buddy_ok s L -> alloc_below_untracked order limit s = Some (None, s)
  \/ exists a s' L', alloc_below_untracked order limit s = Some (Some a, s') /\ carved s L order a s' L'.
Proof.
  intros Hok. unfold alloc_below_untracked. destruct (MAX_ORDER <=? order)%nat; [by left|].
  destruct (below_scan_spec s L order limit _ Hok (seq_ge order (MAX_ORDER - order))) as [[_ H]|(a & s' & L' & _ & H)]; [by left|right].
  by exists a, s', L'.
Qed.

(** The outcome of a tracked call: no block, or a usable block. *)
Definition outcome (s : buddy) (order : nat) (r : option (option Z * buddy)) : Prop :=
  exists s' L', tracked s' L' /\ phys_end s' = phys_end s /\ reserved s' = reserved s
    /\ (r = Some (None, s') \/ exists a, r = Some (Some a, s') /\ usable s' a order /\ clear_of L' a order).

Lemma charge_outcome key s L order r :
  tracked s L ->
  r = Some (None, s) \/ (exists a s' L', r = Some (Some a, s') /\ carved s L order a s' L') ->
  outcome s order (x ← r; Some (charge_result key order x)).
Proof.
  intros T [->|(a & s' & L' & -> & C)]; cbn [mbind option_bind charge_result].
  - exists s, L. split; [done|]. split; [done|]. split; [done|by left].
  - exists (set_acct (charge_block key a order (acct s')) s'), L'. split; [by apply (charge_tracked key s L)|].
    destruct C as [_ C2 C3 C4 _ _]. split; [apply C4|]. split; [apply C4|]. right. exists a. split; [done|].
    split; [|done]. destruct (usable_frame s s' a order C4 C2). by split.
Qed.

Lemma alloc_tracked reclaim `{!Reclaimer reclaim} key s L order :
  tracked s L -> outcome s order (alloc reclaim key order s).
Proof.
  intros T. unfold alloc. destruct (alloc_carved s L order (tk_ok s L T)) as [E|(a & s' & L' & E & C)].
  - rewrite E. cbn [mbind option_bind].
    destruct (reclaim_tracked (Z.max (Z.shiftl 4 (Z.of_nat order)) 64) s L T) as (n & s1 & L1 & -> & T1 & P1 & P2). cbn [mbind option_bind].
    destruct (n =? 0); [exists s1, L1; split; [done|]; split; [done|]; split; [done|by left]|].
    destruct (charge_outcome key s1 L1 order (alloc_untracked order s1) T1) as (s2 & L2 & H1 & H2 & H3 & H4); [by apply alloc_carved, T1|].
    exists s2, L2. split; [done|]. split; [congruence|]. split; [congruence|done].
  - pose proof (charge_outcome key s L order (alloc_untracked order s) T) as H.
    rewrite E in H |- *. cbn [mbind option_bind] in *. apply H. right. by exists a, s', L'.
Qed.

Lemma free_tracked s L a o :
  tracked s L -> (o < MAX_ORDER)%nat -> usable s a o -> clear_of L a o ->
  exists s' L', free a o s = Some s' /\ tracked s' L'.
Proof.
  intros [T1 T2 T3 T4] Ho Hu Hc. destruct (usable_page s a o Hu) as [Ha Hd].
  assert (phys_end s <> 0) as Hp by (destruct Hu; pose proof (block_size_pos o); lia).
  destruct (free_block s L a o T1 Ho Hp Hu Hc) as (s' & L' & E & Ok & F & X & _). exists s', L'. split; [done|].
  destruct (untag_block_spec a o (acct s) T2) as (A1 & A2 & A3 & A4). pose proof (sf_acct _ _ F) as Ea. cbn in Ea.
  split; [done| | |].
  - by rewrite Ea.
  - rewrite Ea, A2, A3. rewrite (sf_phys _ _ F). exact T3.
  - intros x Hx. rewrite Ea, A4. case_decide as Hin; [done|]. apply X in Hx as [Hx|Hx]; [by apply T4|].
    destruct Hin. apply page_of_block; [done|done|by left].
Qed.

(** With the call-site accounting on, the counters stay exact: whatever
    [alloc] (also when it has to ask the page cache for frames), [try_alloc],
    [alloc_below] and [free] do, every slot's live-page counter is the number of
    pages that carry its tag, free pages carry none, no call halts on a corrupt
    link, and every block handed out is usable and no longer free. *)
Theorem site_accounting reclaim `{!Reclaimer reclaim} key order limit a s L :
  tracked s L ->
  outcome s order (try_alloc key order s)
  /\ outcome s order (alloc_below key order limit s)
  /\ outcome s order (alloc reclaim key order s)
  /\ ((order < MAX_ORDER)%nat -> usable s a order -> clear_of L a order ->
      exists s' L', free a order s = Some s' /\ tracked s' L').
Proof.
  intros T. split; [by apply (charge_outcome key s L), alloc_carved, T|].
  split; [by apply (charge_outcome key s L), below_carved, T|]. split; [by apply alloc_tracked with L|].
  intros Ho Hu Hc. by apply (free_tracked s L a order).
Qed.

(** A page cache with nothing to give. *)
Definition no_cache (k : Z) (s : buddy) : option (Z * buddy) := Some (0, s).
#[export] Instance no_cache_reclaimer : Reclaimer no_cache.
Proof. split. intros k s L T. by exists 0, s, L. Qed.

(** The small allocator of [Buddy], with a tag per page. *)
Definition tagged_demo : buddy := set_acct (set_tags (Some (replicate 64 0)) (set_tag_pages 64 sites_new)) demo.

Lemma zero_tags n i : 1 <= i -> tagged i (replicate n 0) = 0.
Proof. intros Hi. apply countb_replicate. lia. Qed.

Lemma accounted_zero n t : 0 <= n -> t = set_tags (Some (replicate (Z.to_nat n) 0)) (set_tag_pages n sites_new) -> accounted t.
Proof.
  intros Hn ->. split; cbn [site_key site_pages site_peak tags tag_pages set_tags set_tag_pages sites_new].
  1-3: apply length_replicate.
  - intros ts [= <-]. by rewrite length_replicate.
  - intros ts [= <-]. apply Forall_replicate. lia.
  - intros ts i [= <-] Hi. rewrite zero_tags by lia. unfold word_at. destruct (_ !! i) as [x|] eqn:E; [|done].
    apply lookup_replicate in E as [-> _]. done.
Qed.

Lemma tagged_demo_ok : tracked tagged_demo demo_lists.
Proof.
  split.
  - apply tracked_rebase, small_ok.
  - by apply (accounted_zero 64).
  - right. vm_compute. done.
  - intros x _. unfold tag_at, tagged_demo. cbn [acct set_acct tags set_tags]. unfold word_at.
    destruct (_ !! block_first x) as [y|] eqn:E; [|done]. by apply lookup_replicate in E as [-> _].
Qed.

Lemma site_accounting_witness :
  outcome tagged_demo 1 (try_alloc 4660 1 tagged_demo)
  /\ outcome tagged_demo 1 (alloc_below 4660 1 200000 tagged_demo)
  /\ outcome tagged_demo 1 (alloc no_cache 4660 1 tagged_demo)
  /\ ((1 < MAX_ORDER)%nat -> usable tagged_demo 65536 1 -> clear_of demo_lists 65536 1 ->
      exists s' L', free 65536 1 tagged_demo = Some s' /\ tracked s' L').
Proof. apply (site_accounting no_cache 4660 1 200000 65536 tagged_demo demo_lists tagged_demo_ok). Defined.

(** Two pages allocated at one site, then given back. *)
Example charge_two :
  option_map (fun r : option Z * buddy => (r.1, filter (fun n => n <> 0) (site_pages (acct r.2)))) (try_alloc 4660 1 tagged_demo)
  = Some (Some 98304, [2]).
Proof. vm_compute. reflexivity. Qed.

(** ** Setting the tags up *)
Lemma order_for_spec fuel order pages :
  pages <= 2 ^ Z.of_nat (order + fuel) -> pages <= 2 ^ Z.of_nat (order_for fuel order pages).
Proof.
  revert order. induction fuel as [|fuel IH]; intros order H; cbn [order_for]; [by rewrite Nat.add_0_r in H|].
  rewrite Z.shiftl_mul_pow2, Z.mul_1_l by lia. destruct (Z.ltb_spec (2 ^ Z.of_nat order) pages) as [Hl|Hl]; [|done].
  apply IH. by replace (S order + fuel)%nat with (order + S fuel)%nat by lia.
Qed.

(** [init_site_tags], run while nothing has been charged, turns the accounting on
    with every page untagged: the array it zeroes fits the block it allocated. *)
Theorem init_site_tags_spec s L :
  buddy_ok s L -> acct s = sites_new -> 0 <= phys_end s ->
  exists s' L', init_site_tags s = Some s' /\ tracked s' L'
    /\ phys_end s / PAGE_SIZE <= block_size (order_for 64 0 ((phys_end s / PAGE_SIZE + PAGE_SIZE - 1) / PAGE_SIZE)).
Proof.
  intros Hok Ea Hp. set (n := phys_end s / PAGE_SIZE). set (pages := (n + PAGE_SIZE - 1) / PAGE_SIZE).
  assert (0 <= n < 2 ^ 64) as Hn.
  { pose proof (fr_phys s (r_frame _ _ (ok_rep _ _ Hok))). unfold n. split; [by apply Z.div_pos|].
    apply Z.div_lt_upper_bound; [done|]. unfold PAGE_SIZE. lia. }
  assert (n <= block_size (order_for 64 0 pages)) as Hfit.
  { assert (n <= 4096 * pages <= n + 4095) as Hpg.
    { unfold pages, PAGE_SIZE. pose proof (Z.div_mod (n + 4096 - 1) 4096). pose proof (Z.mod_pos_bound (n + 4096 - 1) 4096). lia. }
    pose proof (order_for_spec 64 0 pages) as Ho. change (2 ^ Z.of_nat (0 + 64)) with (2 ^ 64) in Ho. rewrite block_size_eq. lia. }
  unfold init_site_tags. fold n. fold pages. assert (tracked s L) as T.
  { split; [done| |left; by rewrite Ea|intros x _; by rewrite Ea]. rewrite Ea. split; try done. }
  destruct (Z.eqb_spec n 0) as [E0|E0]; [by exists s, L|].
  destruct (alloc_carved s L (order_for 64 0 pages) Hok) as [E|(a & s' & L' & E & C)]; rewrite E; cbn [mbind option_bind]; [by exists s, L|].
  eexists _, L'. split; [done|]. split; [|done]. destruct C as [C1 C2 C3 C4 _ _]. rewrite (sf_acct s s' C4), Ea.
  split; [by apply tracked_rebase|by apply (accounted_zero n); [lia|]|right; cbn; by rewrite (sf_phys s s' C4)|].
  intros x _. unfold tag_at. cbn [acct set_acct tags set_tags]. unfold word_at.
  destruct (_ !! block_first x) as [y|] eqn:Ey; [|done]. by apply lookup_replicate in Ey as [-> _].
Qed.
