(* ===== verification/PageVec.v ===== *)
(** * The table of demand-faulted frames

    Models [src/mm/src/pagevec.rs], the whole file: a vector of frame addresses
    kept as a directory of 512-slot chunks that grow only as far as they were
    written.  The reference is the dense vector it replaced, here the list
    [to_list]; the theorem shows that every operation is the vector operation
    of the same name.  [None] is Rust's panic on an index out of range; for
    [get] it is also the [None] of the source, and the theorem shows that the
    directory lookup inside it never panics. *)
From stdpp Require Import sorting.
From S2P Require Import Prelude.
#[local] Open Scope Z_scope.

Definition CHUNK : nat := 512.

Record PageVec := mkPV { len : nat; chunks : list (list Z) }.

Definition new : PageVec := mkPV 0 [].
Definition is_empty (v : PageVec) : bool := (len v =? 0)%nat.

(** Slots past a chunk's length read as 0. *)
Definition get (v : PageVec) (i : nat) : option Z :=
  if (len v <=? i)%nat then None
  else match chunks v !! (i / CHUNK)%nat with
       | None => None
       | Some c => Some (default 0 (c !! (i mod CHUNK)%nat))
       end.

(** [resize_with(m, Vec::new)] *)
Definition resize_chunks (m : nat) (cs : list (list Z)) : list (list Z) := take m cs ++ replicate (m - length cs) [].

Definition resize (n : nat) (v : PageVec) : PageVec :=
  let cs := if (n <? len v)%nat && negb (n mod CHUNK =? 0)%nat
            then alter (take (n mod CHUNK)%nat) (n / CHUNK)%nat (chunks v) else chunks v in
  mkPV n (resize_chunks ((n + CHUNK - 1) / CHUNK)%nat cs).

(** [v[i]] and [v[i] = p] *)
Definition index (v : PageVec) (i : nat) : option Z := get v i.
Definition index_mut (i : nat) (p : Z) (v : PageVec) : option PageVec :=
  if (len v <=? i)%nat then None
  else
    c ← chunks v !! (i / CHUNK)%nat;
    let j := (i mod CHUNK)%nat in
    let c := if (length c <=? j)%nat then c ++ replicate (j + 1 - length c) 0 else c in
    Some (mkPV (len v) (<[(i / CHUNK)%nat := <[j := p]> c]> (chunks v))).

Definition iter (v : PageVec) : list Z := map (fun i => default 0 (get v i)) (seq 0 (len v)).

Definition present (v : PageVec) : list (nat * Z) :=
  List.filter (fun '(_, p) => negb (p =? 0))
    (concat (imap (fun ci c => imap (fun j p => ((ci * CHUNK + j)%nat, p)) c) (chunks v))).
Definition count_present (v : PageVec) : nat := length (present v).

Definition split_off (at_ : nat) (v : PageVec) : option (PageVec * PageVec) :=
  if (len v <=? at_)%nat then Some (new, v)
  else
    let tail := resize (len v - at_) new in
    if (at_ mod CHUNK =? 0)%nat then
      let moved := drop (at_ / CHUNK)%nat (chunks v) in
      let v := mkPV (len v) (take (at_ / CHUNK)%nat (chunks v)) in
      if (length (chunks tail) <? length moved)%nat then None
      else
        let tail := mkPV (len tail) (moved ++ drop (length moved) (chunks tail)) in
        Some (tail, resize at_ v)
    else
      let moving := List.filter (fun '(i, _) => (at_ <=? i)%nat) (present v) in
      tail ← foldl (fun t '(i, p) => t ← t; index_mut (i - at_)%nat p t) (Some tail) moving;
      Some (tail, resize at_ v).

(** [PageVec::from(Vec<usize>)] *)
Definition from (l : list Z) : option PageVec :=
  foldl (fun v '(i, p) => v ← v; if negb (p =? 0) then index_mut i p v else Some v)
    (Some (resize (length l) new)) (imap (fun i p => (i, p)) l).

(** ** The vector it stands for *)
Definition slot (v : PageVec) (i : nat) : Z :=
  match chunks v !! (i / CHUNK)%nat with Some c => default 0 (c !! (i mod CHUNK)%nat) | None => 0 end.
Definition to_list (v : PageVec) : list Z := map (slot v) (seq 0 (len v)).

Record wf (v : PageVec) : Prop := {
  wf_dir : length (chunks v) = ((len v + CHUNK - 1) / CHUNK)%nat;
  wf_chunk : forall c l, chunks v !! c = Some l -> (length l <= CHUNK)%nat /\ (l <> [] -> c * CHUNK + length l <= len v)%nat }.

(** *** Chunk arithmetic *)
Lemma chunk_pos : (0 < CHUNK)%nat.
Proof. unfold CHUNK. lia. Qed.
#[local] Opaque CHUNK.

Lemma split_index i : i = (i / CHUNK * CHUNK + i mod CHUNK)%nat /\ (i mod CHUNK < CHUNK)%nat.
Proof.
  pose proof chunk_pos. pose proof (Nat.div_mod_eq i CHUNK). pose proof (Nat.mod_upper_bound i CHUNK). lia.
Qed.

Lemma index_split c j : (j < CHUNK)%nat -> ((c * CHUNK + j) / CHUNK = c /\ (c * CHUNK + j) mod CHUNK = j)%nat.
Proof.
  intros Hj. pose proof chunk_pos. rewrite (Nat.add_comm (c * CHUNK) j). split.
  - rewrite Nat.div_add, Nat.div_small by lia. lia.
  - rewrite Nat.Div0.mod_add. by apply Nat.mod_small.
Qed.

Lemma dir_covers i n : (i < n)%nat -> (i / CHUNK < (n + CHUNK - 1) / CHUNK)%nat.
Proof.
  intros Hi. pose proof chunk_pos. apply Nat.div_lt_upper_bound; [lia|]. destruct (split_index (n + CHUNK - 1)) as [H1 H2].
  rewrite Nat.mul_comm. lia.
Qed.

Lemma dir_bound c n : (c < (n + CHUNK - 1) / CHUNK)%nat -> (c * CHUNK < n)%nat.
Proof.
  intros Hc. pose proof chunk_pos. destruct (split_index (n + CHUNK - 1)) as [H1 H2].
  assert (c * CHUNK + CHUNK <= (n + CHUNK - 1) / CHUNK * CHUNK)%nat; [|lia].
  replace (c * CHUNK + CHUNK)%nat with (S c * CHUNK)%nat by lia. apply Nat.mul_le_mono_r. lia.
Qed.

Lemma to_list_lookup v i : to_list v !! i = if (i <? len v)%nat then Some (slot v i) else None.
Proof.
  unfold to_list. rewrite list_lookup_fmap. destruct (Nat.ltb_spec i (len v)) as [H|H].
  - by rewrite lookup_seq_lt.
  - by rewrite lookup_seq_ge.
Qed.

Lemma length_to_list v : length (to_list v) = len v.
Proof. unfold to_list. by rewrite length_map, length_seq. Qed.

(** Slots past the end read as 0. *)
Lemma slot_past v i : wf v -> (len v <= i)%nat -> slot v i = 0.
Proof.
  intros W Hi. unfold slot. destruct (chunks v !! (i / CHUNK)%nat) as [c|] eqn:E; [|done].
  destruct (wf_chunk v W _ c E) as [_ H]. destruct (c !! (i mod CHUNK)%nat) as [p|] eqn:Ep; [|done].
  apply lookup_lt_Some in Ep. destruct (split_index i). assert (c <> []) as Hne by (intros ->; cbn in Ep; lia). specialize (H Hne). lia.
Qed.

Lemma slot_get v i : wf v -> get v i = to_list v !! i.
Proof.
  intros W. rewrite to_list_lookup. unfold get, slot. destruct (Nat.leb_spec (len v) i) as [H|H].
  - by rewrite (proj2 (Nat.ltb_ge _ _) H).
  - rewrite (proj2 (Nat.ltb_lt _ _) H). destruct (chunks v !! (i / CHUNK)%nat) eqn:E; [done|].
    apply lookup_ge_None in E. rewrite (wf_dir v W) in E. pose proof (dir_covers i (len v) H). lia.
Qed.

Lemma pv_iter_spec v : wf v -> iter v = to_list v.
Proof.
  intros W. apply list_eq. intros i. unfold iter. rewrite list_lookup_fmap, to_list_lookup.
  destruct (Nat.ltb_spec i (len v)) as [H|H].
  - rewrite lookup_seq_lt by done. cbn. by rewrite (slot_get v i W), to_list_lookup, (proj2 (Nat.ltb_lt _ _) H).
  - by rewrite lookup_seq_ge.
Qed.

(** *** Writing a slot *)
Lemma index_mut_spec i p v :
  wf v -> (i < len v)%nat ->
  exists v', index_mut i p v = Some v' /\ wf v' /\ len v' = len v /\ forall k, slot v' k = if decide (k = i) then p else slot v k.
Proof.
  intros W Hi. unfold index_mut. rewrite (proj2 (Nat.leb_gt _ _) Hi). pose proof (dir_covers i (len v) Hi) as Hd.
  destruct (lookup_lt_is_Some_2 (chunks v) (i / CHUNK)%nat) as [c Hc]; [rewrite (wf_dir v W); done|]. rewrite Hc. cbn [mbind option_bind].
  destruct (wf_chunk v W _ c Hc) as [Hlc Hbc]. destruct (split_index i) as [Hsi Hj]. set (j := (i mod CHUNK)%nat) in *.
  set (c' := if (length c <=? j)%nat then _ else c).
  assert ((j < length c')%nat /\ (length c' <= CHUNK)%nat /\ (i / CHUNK * CHUNK + length c' <= len v)%nat) as (L1 & L2 & L3).
  { unfold c'. destruct (Nat.leb_spec (length c) j) as [H|H]; [rewrite length_app, length_replicate; lia|].
    assert (c <> []) as Hne by (intros ->; cbn in H; lia). specialize (Hbc Hne). lia. }
  assert (forall k, default 0 (c' !! k) = default 0 (c !! k)) as Hk.
  { intros k. unfold c'. destruct (length c <=? j)%nat; [|done]. rewrite lookup_app. destruct (c !! k) as [x|] eqn:E; [done|]. cbn.
    destruct (replicate _ 0 !! _) as [x|] eqn:Er; [|done]. by apply lookup_replicate in Er as [-> _]. }
  eexists. split; [done|]. split; [split; cbn|split; [done|]].
  - rewrite length_insert. apply W.
  - intros k l Hl. destruct (decide (k = i / CHUNK)%nat) as [->|Hne].
    + rewrite list_lookup_insert_eq in Hl by by apply lookup_lt_Some in Hc. injection Hl as <-. rewrite length_insert. lia.
    + rewrite list_lookup_insert_ne in Hl by done. by apply (wf_chunk v W).
  - intros k. unfold slot. cbn. destruct (decide (k / CHUNK = i / CHUNK)%nat) as [Ek|Ek].
    + rewrite Ek, Hc, list_lookup_insert_eq by by apply lookup_lt_Some in Hc. destruct (split_index k) as [Hsk _]. case_decide as Eki.
      * subst k. fold j. by rewrite list_lookup_insert_eq.
      * rewrite list_lookup_insert_ne; [apply Hk|]. unfold j. intros Em. apply Eki. rewrite Hsk, Hsi, Ek. unfold j. by rewrite Em.
    + rewrite list_lookup_insert_ne by done. rewrite decide_False; [done|]. by intros ->.
Qed.

(** *** Resizing *)
Lemma resize_lookup m cs k :
  resize_chunks m cs !! k = if (k <? m)%nat then Some (default [] (cs !! k)) else None.
Proof.
  unfold resize_chunks. destruct (Nat.ltb_spec k m) as [H|H].
  - destruct (decide (k < length cs)%nat) as [Hl|Hl].
    + rewrite lookup_app_l by (rewrite length_take; lia). rewrite lookup_take_lt by done.
      destruct (lookup_lt_is_Some_2 cs k Hl) as [c ->]. done.
    + rewrite lookup_app_r by (rewrite length_take; lia). rewrite (lookup_ge_None_2 cs k) by lia.
      rewrite length_take. apply lookup_replicate. split; [done|lia].
  - apply lookup_ge_None_2. rewrite length_app, length_take, length_replicate. lia.
Qed.

Lemma resize_spec n v :
  wf v -> wf (resize n v) /\ len (resize n v) = n /\ forall i, (i < n)%nat -> slot (resize n v) i = slot v i.
Proof.
  intros W. pose proof chunk_pos as HC. unfold resize. set (cut := (n <? len v)%nat && negb (n mod CHUNK =? 0)%nat).
  set (cs := if cut then _ else chunks v).
  assert (forall k, default [] (cs !! k) = if cut && (k =? n / CHUNK)%nat then take (n mod CHUNK)%nat (default [] (chunks v !! k)) else default [] (chunks v !! k)) as Hcs.
  { intros k. unfold cs. destruct cut; cbn [andb]; [|done]. destruct (Nat.eqb_spec k (n / CHUNK)) as [->|Hne].
    - rewrite list_lookup_alter_eq. destruct (chunks v !! (n / CHUNK)%nat); [done|]. cbn. by rewrite take_nil.
    - by rewrite list_lookup_alter_ne. }
  destruct (split_index n) as [Hn Hm]. split; [split; cbn [len chunks]|split; [done|]].
  - unfold resize_chunks. rewrite length_app, length_take, length_replicate. lia.
  - intros c l Hl. rewrite resize_lookup in Hl. destruct (Nat.ltb_spec c ((n + CHUNK - 1) / CHUNK)) as [Hc|]; [|done]. injection Hl as <-.
    pose proof (dir_bound c n Hc) as Hcn. rewrite Hcs. destruct (chunks v !! c) as [l|] eqn:El; cbn [default from_option id].
    2: { rewrite take_nil. match goal with |- context [if ?b then _ else _] => replace (if b then [] else []) with (@nil Z) by by destruct b end.
         split; [cbn [length]; lia|done]. }
    destruct (wf_chunk v W c l El) as [H1 H2]. destruct (Nat.eqb_spec c (n / CHUNK)) as [->|Hne].
    + destruct cut eqn:Ecut; cbn [andb]; [rewrite length_take; split; [lia|]; intros _; lia|]. split; [done|]. intros Hl0. specialize (H2 Hl0).
      unfold cut in Ecut. destruct (Nat.ltb_spec n (len v)); cbn [andb] in Ecut; [|lia].
      destruct (Nat.eqb_spec (n mod CHUNK) 0) as [E0|]; [|done]. rewrite E0 in *. lia.
    + rewrite andb_false_r. split; [done|]. intros Hl0. assert (c < n / CHUNK)%nat as Hlt.
      { destruct (decide (c < n / CHUNK)%nat); [done|].
        assert (S (n / CHUNK) * CHUNK <= c * CHUNK)%nat by (apply Nat.mul_le_mono_r; lia). lia. }
      assert (S c * CHUNK <= n / CHUNK * CHUNK)%nat by (apply Nat.mul_le_mono_r; lia). lia.
  - intros i Hi. unfold slot. cbn [chunks]. rewrite resize_lookup, (proj2 (Nat.ltb_lt _ _) (dir_covers i n Hi)), Hcs.
    destruct (split_index i) as [Hsi Hmi].
    destruct (chunks v !! (i / CHUNK)%nat) as [l|] eqn:El; cbn [default from_option id]; [|rewrite take_nil; match goal with |- context [if ?b then _ else _] => destruct b end; done].
    destruct (Nat.eqb_spec (i / CHUNK) (n / CHUNK)) as [E|E]; [|by rewrite andb_false_r]. destruct cut; cbn [andb]; [|done].
    rewrite E in Hsi. rewrite lookup_take_lt by lia. done.
Qed.

Lemma resize_list n v : wf v -> to_list (resize n v) = take n (to_list v) ++ replicate (n - len v) 0.
Proof.
  intros W. destruct (resize_spec n v W) as (_ & Hl & Hs). apply list_eq. intros i. rewrite to_list_lookup, Hl.
  destruct (Nat.ltb_spec i n) as [H|H].
  - rewrite Hs by done. destruct (decide (i < len v)%nat) as [Hi|Hi].
    + rewrite lookup_app_l by (rewrite length_take, length_to_list; lia). rewrite lookup_take_lt, to_list_lookup by done.
      by rewrite (proj2 (Nat.ltb_lt _ _) Hi).
    + rewrite lookup_app_r by (rewrite length_take, length_to_list; lia). rewrite (slot_past v i W) by lia. symmetry.
      apply lookup_replicate. rewrite length_take, length_to_list. split; [done|lia].
  - symmetry. apply lookup_ge_None_2. rewrite length_app, length_take, length_replicate, length_to_list. lia.
Qed.

Lemma new_wf : wf new.
Proof. pose proof chunk_pos. split; [|done]. cbn. symmetry. apply Nat.div_small. lia. Qed.

Lemma pv_slot_new i : slot new i = 0.
Proof. done. Qed.

(** *** The faulted frames *)
Definition pair_at (b ci j : nat) (p : Z) : nat * Z := (((b + ci) * CHUNK + j)%nat, p).
Definition laid_out (b : nat) (cs : list (list Z)) : list (nat * Z) := concat (imap (fun ci c => imap (pair_at b ci) c) cs).

Lemma laid_out_cons b c cs : laid_out b (c :: cs) = imap (pair_at b 0) c ++ laid_out (S b) cs.
Proof.
  unfold laid_out. rewrite imap_cons. cbn [concat]. f_equal. f_equal. apply imap_ext. intros ci l _. apply imap_ext. intros j p _.
  unfold pair_at. cbn. f_equal. lia.
Qed.

Lemma present_laid_out v : present v = List.filter (fun '(_, p) => negb (p =? 0)) (laid_out 0 (chunks v)).
Proof. done. Qed.

Lemma elem_of_concat {A} (x : A) ls : x ∈ concat ls <-> exists l, x ∈ l /\ l ∈ ls.
Proof. rewrite list_elem_of_In, in_concat. by setoid_rewrite list_elem_of_In; naive_solver. Qed.

Definition idx_lt (x y : nat * Z) : Prop := (x.1 < y.1)%nat.

Lemma imap_sorted b c : StronglySorted idx_lt (imap (pair_at b 0) c).
Proof.
  assert (forall k l, StronglySorted idx_lt (imap (fun j => pair_at b 0 (k + j)) l)) as H.
  { intros k l. revert k. induction l as [|p l IH]; intros k; [constructor|]. rewrite imap_cons. apply StronglySorted_cons. split.
    - apply Forall_forall. intros x Hx. apply elem_of_lookup_imap in Hx as (j & q & -> & _). unfold idx_lt, pair_at. cbn. lia.
    - specialize (IH (S k)). erewrite imap_ext; [exact IH|]. intros j q _. cbn. f_equal. lia. }
  exact (H 0%nat c).
Qed.

Lemma laid_out_sorted b cs :
  Forall (fun c => (length c <= CHUNK)%nat) cs ->
  StronglySorted idx_lt (laid_out b cs) /\ Forall (fun x => (b * CHUNK <= x.1)%nat) (laid_out b cs).
Proof.
  intros H. revert b. induction H as [|c cs Hc Hcs IH]; intros b; [split; constructor|]. rewrite laid_out_cons.
  destruct (IH (S b)) as [I1 I2]. rewrite Forall_forall in I2. split.
  - apply StronglySorted_app. split; [|split; [apply imap_sorted|done]]. intros x y Hx Hy. specialize (I2 y Hy).
    apply elem_of_lookup_imap in Hx as (j & q & -> & Hj). apply lookup_lt_Some in Hj. unfold idx_lt, pair_at. cbn. lia.
  - apply Forall_forall. intros x [Hx|Hx]%elem_of_app; [|specialize (I2 x Hx); lia].
    apply elem_of_lookup_imap in Hx as (j & q & -> & _). cbn. lia.
Qed.

Lemma present_In v i p : wf v -> (i, p) ∈ present v <-> (i < len v)%nat /\ slot v i = p /\ p <> 0.
Proof.
  intros W. rewrite present_laid_out, list_elem_of_In, filter_In, <- list_elem_of_In, negb_true_iff, Z.eqb_neq.
  unfold laid_out. rewrite elem_of_concat. unfold slot. destruct (split_index i) as [Hi Hm]. split.
  - intros [(l & Hl & Hc) Hp]. apply elem_of_lookup_imap in Hc as (c & x & -> & Hc). apply elem_of_lookup_imap in Hl as (j & q & Eq & Hj).
    unfold pair_at in Eq. cbn in Eq. injection Eq as E1 ->. destruct (wf_chunk v W c x Hc) as [W1 W2].
    pose proof (lookup_lt_Some _ _ _ Hj) as Hjl. assert (x <> []) as Hne by (intros ->; done). specialize (W2 Hne).
    destruct (index_split c j ltac:(lia)) as [D1 D2]. rewrite <- E1 in D1, D2. rewrite D1, D2, Hc, Hj. split; [lia|done].
  - intros (Hlt & Hs & Hp). split; [|done]. destruct (chunks v !! (i / CHUNK)%nat) as [c|] eqn:Ec; [|by subst].
    destruct (c !! (i mod CHUNK)%nat) as [q|] eqn:Eq; cbn in Hs; [|by subst]. subst q. exists (imap (pair_at 0 (i / CHUNK)) c).
    split; [|by apply (elem_of_lookup_imap_2 (fun ci c => imap (pair_at 0 ci) c))].
    replace (i, p) with (pair_at 0 (i / CHUNK) (i mod CHUNK) p) by (unfold pair_at; f_equal; cbn; lia). by apply elem_of_lookup_imap_2.
Qed.

Lemma present_sorted v : wf v -> StronglySorted idx_lt (present v).
Proof.
  intros W. rewrite present_laid_out. assert (Forall (fun c => (length c <= CHUNK)%nat) (chunks v)) as HF.
  { apply Forall_lookup. intros c l Hl. by apply (wf_chunk v W c). }
  destruct (laid_out_sorted 0 (chunks v) HF) as [H _]. induction H as [|x l Hx IH Hl]; [constructor|]. cbn.
  destruct x as [i p]. destruct (negb (p =? 0)); [|done]. constructor; [done|]. rewrite Forall_forall in Hl |- *. intros y Hy.
  apply Hl. rewrite list_elem_of_In, filter_In in Hy. apply list_elem_of_In, Hy.
Qed.

Lemma sorted_nodup l : StronglySorted idx_lt l -> NoDup l.
Proof.
  induction 1 as [|x l Hs IH Hx]; constructor; [|done]. rewrite Forall_forall in Hx. intros Hin. specialize (Hx x Hin).
  unfold idx_lt in Hx. lia.
Qed.

(** The frames of a vector, with their indices, in order. *)
Definition frames (l : list Z) : list (nat * Z) := List.filter (fun '(_, p) => negb (p =? 0)) (imap (fun i p => (i, p)) l).

Lemma frames_In l i p : (i, p) ∈ frames l <-> l !! i = Some p /\ p <> 0.
Proof.
  unfold frames. rewrite list_elem_of_In, filter_In, <- list_elem_of_In, negb_true_iff, Z.eqb_neq, elem_of_lookup_imap.
  split; [intros [(j & q & [= -> ->] & H) Hp]; done|]. intros [H Hp]. split; [by exists i, p|done].
Qed.

Lemma frames_sorted l : StronglySorted idx_lt (frames l).
Proof.
  assert (forall k, StronglySorted idx_lt (imap (fun i p => ((k + i)%nat, p)) l)) as H.
  { induction l as [|q l IH]; intros k; [constructor|]. rewrite imap_cons. apply StronglySorted_cons. split.
    - apply Forall_forall. intros x Hx. apply elem_of_lookup_imap in Hx as (j & r & -> & _). unfold idx_lt. cbn. lia.
    - specialize (IH (S k)). erewrite imap_ext; [exact IH|]. intros j r _. cbn. f_equal. lia. }
  specialize (H 0%nat). unfold frames. cbn in H. induction H as [|x m Hm IH Hx]; [constructor|]. cbn. destruct x as [i p].
  destruct (negb (p =? 0)); [|done]. constructor; [done|]. rewrite Forall_forall in Hx |- *. intros y Hy. apply Hx.
  rewrite list_elem_of_In, filter_In in Hy. apply list_elem_of_In, Hy.
Qed.

Lemma present_frames v : wf v -> present v = frames (to_list v).
Proof.
  intros W. apply (StronglySorted_unique_strong idx_lt).
  - intros x y _ _ H1 H2. unfold idx_lt in *. lia.
  - by apply present_sorted.
  - apply frames_sorted.
  - apply NoDup_Permutation; [by apply sorted_nodup, present_sorted|apply sorted_nodup, frames_sorted|].
    intros [i p]. rewrite present_In, frames_In, to_list_lookup by done. destruct (Nat.ltb_spec i (len v)); naive_solver lia.
Qed.

(** *** Writing several slots *)
Definition write_all (ws : list (nat * Z)) (v : option PageVec) : option PageVec :=
  foldl (fun t '(i, p) => t ← t; index_mut i p t) v ws.

Lemma write_all_spec ws v :
  wf v -> Forall (fun w => (w.1 < len v)%nat) ws -> NoDup ws.*1 ->
  exists v', write_all ws (Some v) = Some v' /\ wf v' /\ len v' = len v /\
    (forall k p, (k, p) ∈ ws -> slot v' k = p) /\ (forall k, k ∉ ws.*1 -> slot v' k = slot v k).
Proof.
  revert v. induction ws as [|[i p] ws IH]; intros v W HF HN.
  - exists v. split_and!; try done. intros k p H. by apply not_elem_of_nil in H.
  - apply Forall_cons in HF as [Hi HF]. cbn in HN, Hi. apply NoDup_cons in HN as [Hni HN].
    destruct (index_mut_spec i p v W Hi) as (v1 & E1 & W1 & L1 & S1). unfold write_all. cbn [foldl mbind option_bind]. rewrite E1.
    destruct (IH v1 W1) as (v' & E & W' & L' & Hin & Hout); [by rewrite L1|done|]. exists v'. split_and!; try done; [by rewrite L'|..].
    + intros k q [[= -> ->]|H]%elem_of_cons; [|by apply Hin]. rewrite Hout, S1 by done. by rewrite decide_True.
    + intros k [Hk1 Hk]%not_elem_of_cons. rewrite Hout, S1 by done. by rewrite decide_False.
Qed.

Lemma sorted_keys l : StronglySorted idx_lt l -> NoDup l.*1.
Proof.
  induction 1 as [|x l Hs IH Hx]; cbn; constructor; [|done]. rewrite Forall_forall in Hx. intros (y & E & Hy)%list_elem_of_fmap.
  specialize (Hx y Hy). unfold idx_lt in Hx. lia.
Qed.

Lemma fresh_spec n : wf (resize n new) /\ len (resize n new) = n /\ forall i, slot (resize n new) i = 0.
Proof.
  destruct (resize_spec n new new_wf) as (W & L & S). split_and!; [done..|]. intros i.
  destruct (decide (i < n)%nat); [by rewrite S|]. apply slot_past; [done|]. rewrite L. lia.
Qed.

(** A fresh table written with the frames of a vector is that vector. *)
Lemma write_fresh l ws :
  (forall i p, (i, p) ∈ ws <-> l !! i = Some p /\ p <> 0) -> NoDup ws.*1 ->
  exists v', write_all ws (Some (resize (length l) new)) = Some v' /\ wf v' /\ to_list v' = l.
Proof.
  intros Hws HN. destruct (fresh_spec (length l)) as (W & L & S0).
  destruct (write_all_spec ws _ W) as (v' & E & W' & L' & Hin & Hout); [|done|].
  { apply Forall_forall. intros [i p] H. apply Hws in H as [H _]. rewrite L. by apply lookup_lt_Some in H. }
  exists v'. split_and!; [done..|]. apply list_eq. intros i. rewrite to_list_lookup, L', L.
  destruct (Nat.ltb_spec i (length l)) as [H|H]; [|symmetry; by apply lookup_ge_None_2].
  destruct (lookup_lt_is_Some_2 l i H) as [p Hp]. rewrite Hp. f_equal. destruct (decide (p = 0)) as [->|Hp0].
  - rewrite Hout, S0; [done|]. intros ([j q] & E1 & Hq)%list_elem_of_fmap. cbn in E1. subst j. apply Hws in Hq as [Hq H0]. congruence.
  - apply Hin, Hws. done.
Qed.

Lemma skip_zeros l v :
  foldl (fun v '(i, p) => v ← v; if negb (p =? 0) then index_mut i p v else Some v) v l =
  write_all (List.filter (fun '(_, p) => negb (p =? 0)) l) v.
Proof.
  revert v. induction l as [|[i p] l IH]; intros v; [done|]. cbn [foldl List.filter]. destruct (negb (p =? 0)).
  - cbn [write_all foldl]. by rewrite IH.
  - rewrite IH. by destruct v.
Qed.

Lemma from_spec l : exists v, from l = Some v /\ wf v /\ to_list v = l.
Proof.
  unfold from. rewrite skip_zeros. apply (write_fresh l (frames l)); [intros i p; apply frames_In|apply sorted_keys, frames_sorted].
Qed.

(** *** Splitting *)
Lemma aligned_dir n a : (a * CHUNK <= n)%nat -> ((n + CHUNK - 1) / CHUNK - a = (n - a * CHUNK + CHUNK - 1) / CHUNK)%nat.
Proof.
  intros H. pose proof chunk_pos. replace (n + CHUNK - 1)%nat with (n - a * CHUNK + CHUNK - 1 + a * CHUNK)%nat by lia.
  rewrite Nat.div_add by lia. lia.
Qed.

Lemma resize_dropped n v : (n < len v)%nat -> (n mod CHUNK = 0)%nat ->
  resize n (mkPV (len v) (take (n / CHUNK)%nat (chunks v))) = resize n v.
Proof.
  intros H1 H2. unfold resize. cbn [len chunks]. rewrite (proj2 (Nat.ltb_lt _ _) H1), H2. cbn [Nat.eqb negb andb]. f_equal.
  unfold resize_chunks. destruct (split_index n) as [Hn _]. rewrite H2 in Hn. pose proof chunk_pos.
  assert ((n + CHUNK - 1) / CHUNK = n / CHUNK)%nat as ->.
  { rewrite Hn at 1. rewrite Nat.add_0_r. replace (n / CHUNK * CHUNK + CHUNK - 1)%nat with (CHUNK - 1 + n / CHUNK * CHUNK)%nat by lia.
    rewrite Nat.div_add, (Nat.div_small (CHUNK - 1)) by lia. lia. }
  rewrite take_take, Nat.min_id, length_take. f_equal. f_equal. lia.
Qed.

(** Whole chunks moved off the end are the tail of the vector. *)
Lemma moved_spec n v : wf v -> (n < len v)%nat -> (n mod CHUNK = 0)%nat ->
  let t := mkPV (len v - n) (drop (n / CHUNK)%nat (chunks v)) in wf t /\ to_list t = drop n (to_list v).
Proof.
  intros W H1 H2 t. destruct (split_index n) as [Hn _]. rewrite H2, Nat.add_0_r in Hn. set (a := (n / CHUNK)%nat) in *. split; [split|].
  - unfold t. cbn. rewrite length_drop, (wf_dir v W), aligned_dir by lia. by rewrite Hn.
  - unfold t. cbn. intros c l Hl. rewrite lookup_drop in Hl. destruct (wf_chunk v W _ l Hl) as [G1 G2]. split; [done|].
    intros Hne. specialize (G2 Hne). lia.
  - apply list_eq. intros i. rewrite lookup_drop, !to_list_lookup. unfold t. cbn [len].
    destruct (Nat.ltb_spec i (len v - n)), (Nat.ltb_spec (n + i) (len v)); try lia; [|done]. f_equal. unfold slot. cbn [chunks].
    rewrite lookup_drop. destruct (split_index i) as [Hi Hm]. destruct (index_split (a + i / CHUNK) (i mod CHUNK) Hm) as [D1 D2].
    replace ((a + i / CHUNK) * CHUNK + i mod CHUNK)%nat with (n + i)%nat in D1, D2 by lia. by rewrite D1, D2.
Qed.

Lemma rebased_sorted n l : StronglySorted idx_lt l ->
  StronglySorted idx_lt (map (fun '(i, p) => ((i - n)%nat, p)) (List.filter (fun '(i, _) => (n <=? i)%nat) l)).
Proof.
  induction 1 as [|[i p] l Hs IH Hx]; [constructor|]. cbn. destruct (Nat.leb_spec n i) as [Hi|Hi]; [|done]. cbn. constructor; [done|].
  rewrite Forall_forall in Hx |- *. intros y ([j q] & -> & Hj)%list_elem_of_fmap. rewrite list_elem_of_In, filter_In, <- list_elem_of_In, Nat.leb_le in Hj.
  destruct Hj as [Hj Hn]. specialize (Hx _ Hj). unfold idx_lt in *. cbn in *. lia.
Qed.

Lemma split_off_spec n v : wf v ->
  exists t v', split_off n v = Some (t, v') /\ wf t /\ wf v' /\ to_list t = drop n (to_list v) /\ to_list v' = take n (to_list v).
Proof.
  intros W. unfold split_off. destruct (Nat.leb_spec (len v) n) as [H|H].
  { exists new, v. split_and!; [done|apply new_wf|done|..].
    - rewrite drop_ge; [done|]. by rewrite length_to_list.
    - rewrite take_ge; [done|]. by rewrite length_to_list. }
  destruct (resize_spec n v W) as (Wr & _ & _). pose proof (resize_list n v W) as Er.
  replace (n - len v)%nat with 0%nat in Er by lia. rewrite app_nil_r in Er.
  destruct (fresh_spec (len v - n)) as (Wf & Lf & _). destruct (Nat.eqb_spec (n mod CHUNK) 0) as [H0|H0].
  - destruct (moved_spec n v W H H0) as [Wt Et]. set (moved := drop _ (chunks v)) in *.
    assert (length (chunks (resize (len v - n) new)) = length moved) as El.
    { rewrite (wf_dir _ Wf), Lf. symmetry. exact (wf_dir _ Wt). }
    rewrite El, Nat.ltb_irrefl, drop_ge, app_nil_r, Lf by lia. rewrite resize_dropped by done. eexists _, _. done.
  - set (moving := List.filter _ (present v)).
    assert (forall t, foldl (fun t '(i, p) => t ← t; index_mut (i - n)%nat p t) t moving =
                      write_all (map (fun '(i, p) => ((i - n)%nat, p)) moving) t) as ->.
    { intros t. unfold write_all. revert t. induction moving as [|[i p] m IH]; intros t; [done|]. cbn. apply IH. }
    assert (forall i p, (i, p) ∈ moving <-> (n <= i)%nat /\ to_list v !! i = Some p /\ p <> 0) as Hm.
    { intros i p. unfold moving. rewrite list_elem_of_In, filter_In, <- list_elem_of_In, (present_frames v W), frames_In, Nat.leb_le. tauto. }
    destruct (write_fresh (drop n (to_list v)) (map (fun '(i, p) => ((i - n)%nat, p)) moving)) as (t & E & Wt & Et).
    + intros i p. rewrite list_elem_of_fmap, lookup_drop. split.
      * intros ([j q] & [= -> ->] & Hj). apply Hm in Hj as (Hle & Hj). by replace (n + (j - n))%nat with j by lia.
      * intros Hp. exists ((n + i)%nat, p). split; [f_equal; lia|]. apply Hm. split; [lia|done].
    + apply sorted_keys, rebased_sorted, present_sorted, W.
    + rewrite length_drop, length_to_list in E. rewrite E. cbn [mbind option_bind]. eexists _, _. done.
Qed.

Lemma is_empty_spec v : is_empty v = bool_decide (to_list v = []).
Proof.
  unfold is_empty. destruct (Nat.eqb_spec (len v) 0) as [E|E].
  - symmetry. apply bool_decide_eq_true_2, nil_length_inv. by rewrite length_to_list.
  - symmetry. apply bool_decide_eq_false_2. intros H. apply E. by rewrite <- length_to_list, H.
Qed.

Lemma frames_count k l :
  Z.of_nat (length (List.filter (fun '(_, p) => negb (p =? 0)) (imap (fun i p => ((k + i)%nat, p)) l))) = countb (fun p => negb (p =? 0)) l.
Proof.
  revert k. induction l as [|p l IH]; intros k; [done|]. rewrite imap_cons. cbn [List.filter].
  assert (Z.of_nat (length (List.filter (fun '(_, p) => negb (p =? 0)) (imap ((fun i p => ((k + i)%nat, p)) ∘ S) l))) = countb (fun p => negb (p =? 0)) l) as E.
  { rewrite <- (IH (S k)). f_equal. f_equal. f_equal. apply imap_ext. intros j q _. cbn. f_equal. lia. }
  cbn [countb]. destruct (negb (p =? 0)); cbn [length]; lia.
Qed.

Lemma count_present_spec v : wf v -> Z.of_nat (count_present v) = countb (fun p => negb (p =? 0)) (to_list v).
Proof. intros W. unfold count_present. rewrite (present_frames v W). apply (frames_count 0). Qed.

Lemma index_mut_list i p v : wf v ->
  if decide (i < len v)%nat then exists w, index_mut i p v = Some w /\ wf w /\ to_list w = <[i := p]> (to_list v)
  else index_mut i p v = None.
Proof.
  intros W. case_decide as Hi; [|unfold index_mut; by rewrite (proj2 (Nat.leb_le _ _)) by lia].
  destruct (index_mut_spec i p v W Hi) as (w & E & Ww & Lw & Sw). exists w. split_and!; [done..|]. apply list_eq. intros k.
  rewrite to_list_lookup, Lw. destruct (decide (k = i)) as [->|Hk].
  - rewrite list_lookup_insert_eq by by rewrite length_to_list. by rewrite (proj2 (Nat.ltb_lt _ _) Hi), Sw, decide_True.
  - rewrite list_lookup_insert_ne, to_list_lookup, Sw, decide_False by done. done.
Qed.

(** *** The vector interface *)

(** every table of frames built by [new] or [from] is well formed, every
    operation keeps it so, and each is the operation of the same name on the
    dense vector it replaced: [get], [iter] and [present] read it (frames in
    index order, zeros left out), [resize] truncates or pads with zeros,
    a write in range changes that slot only and one out of range panics, and
    [split_off] keeps the first [at] slots and returns the rest. *)
Theorem pagevec_refines v :
  wf v ->
  (wf new /\ to_list new = []) /\
  (forall l, exists w, from l = Some w /\ wf w /\ to_list w = l) /\
  (is_empty v = bool_decide (to_list v = [])) /\
  (forall i, get v i = to_list v !! i /\ index v i = to_list v !! i) /\
  iter v = to_list v /\
  present v = frames (to_list v) /\ Z.of_nat (count_present v) = countb (fun p => negb (p =? 0)) (to_list v) /\
  (forall n, wf (resize n v) /\ to_list (resize n v) = take n (to_list v) ++ replicate (n - len v) 0) /\
  (forall i p, if decide (i < len v)%nat then exists w, index_mut i p v = Some w /\ wf w /\ to_list w = <[i := p]> (to_list v)
               else index_mut i p v = None) /\
  (forall n, exists t w, split_off n v = Some (t, w) /\ wf t /\ wf w /\ to_list t = drop n (to_list v) /\ to_list w = take n (to_list v)).
Proof.
  intros W. split; [split; [apply new_wf|done]|]. split; [apply from_spec|]. split; [apply is_empty_spec|].
  split; [intros i; split; by apply slot_get|]. split; [by apply pv_iter_spec|]. split; [by apply present_frames|].
  split; [by apply count_present_spec|]. split; [intros n; split; [by apply resize_spec|by apply resize_list]|].
  split; [intros i p; by apply index_mut_list|]. intros n. by apply split_off_spec.
Qed.

Definition sample : PageVec := default new (v ← from [7; 0; 9]; index_mut 600 5 (resize 700 v)).

Lemma pagevec_refines_witness :
  wf sample /\ present sample = [(0%nat, 7); (2%nat, 9); (600%nat, 5)] /\ count_present sample = 3%nat /\
  exists t w, split_off 1 sample = Some (t, w) /\ present t = [(1%nat, 9); (599%nat, 5)] /\ to_list w = [7].
Proof.
  assert (wf sample) as W.
  { split; [reflexivity|]. intros c l H. do 2 (destruct c as [|c]; [injection H as <-; split; [|intros _]; apply Nat.leb_le; vm_compute; reflexivity|]). done. }
  split; [done|]. destruct (pagevec_refines sample W) as (_ & _ & _ & _ & _ & Hp & Hc & _ & _ & Hs).
  split; [rewrite Hp; vm_compute; reflexivity|]. split; [apply Nat2Z.inj; rewrite Hc; vm_compute; reflexivity|].
  destruct (Hs 1%nat) as (t & w & E & Wt & _ & Et & Ew). exists t, w. split; [done|]. split; [|rewrite Ew; vm_compute; reflexivity].
  destruct (pagevec_refines t Wt) as (_ & _ & _ & _ & _ & Hpt & _). rewrite Hpt, Et. vm_compute. reflexivity.
Defined.
