(* ===== verification/PageRef.v ===== *)
(** * Reference counts of physical pages

    Models [src/mm/src/pageref.rs], the whole file.  The table holds only pages
    that were ever shared; an absent page has one owner.  [unref_or_free] calls
    the buddy allocator when the last owner lets go: the model returns whether
    it does.  [try_get] differs from [get] only in giving up on a held lock.

    The abstraction is the number of owners of every page; the lemmas say what
    each operation does to it, and [shared_only], that the table stays free of
    entries for sole owners. *)
From S2P Require Import Prelude.

Notation refs := (gmap Z Z).

Definition get (phys : Z) (r : refs) : Z := default 1 (r !! phys).

(** [*refs.entry(phys).or_insert(1) += 1] *)
Definition inc (phys : Z) (r : refs) : refs := <[phys := wrap32 (default 1 (r !! phys) + 1)]> r.
Definition inc_many (frames : list Z) (r : refs) : refs := foldl (fun r p => inc p r) r frames.

Definition dec (phys : Z) (r : refs) : refs :=
  match r !! phys with
  | None => r
  | Some count =>
      let count := if 1 <? count then count - 1 else count in
      if count <=? 1 then delete phys r else <[phys := count]> r
  end.

(** The first component says that the page goes back to the buddy allocator. *)
Definition unref_or_free (phys : Z) (r : refs) : bool * refs :=
  match r !! phys with
  | Some count =>
      if 1 <? count then (false, if count - 1 <=? 1 then delete phys r else <[phys := count - 1]> r)
      else (true, delete phys r)
  | None => (true, delete phys r)
  end.

(** ** Owners *)
Definition shared_only (r : refs) : Prop := map_Forall (fun _ n => 2 <= n <= U32_MAX) r.

Lemma get_pos r p : shared_only r -> 1 <= get p r.
Proof. intros H. unfold get. destruct (r !! p) eqn:E; cbn; [|lia]. specialize (H p z E). cbn in H. lia. Qed.

Lemma get_insert r p q n : get p (<[q := n]> r) = if decide (p = q) then n else get p r.
Proof. unfold get. case_decide; [subst; by rewrite lookup_insert_eq|by rewrite lookup_insert_ne]. Qed.

Lemma get_delete r p q : get p (delete q r) = if decide (p = q) then 1 else get p r.
Proof. unfold get. case_decide; [subst; by rewrite lookup_delete_eq|by rewrite lookup_delete_ne]. Qed.

(** One more owner; the counter holds 2^32 - 1 of them. *)
Lemma inc_spec p r : shared_only r -> get p r < U32_MAX ->
  shared_only (inc p r) /\ forall q, get q (inc p r) = get q r + (if decide (q = p) then 1 else 0).
Proof.
  intros H Hm. pose proof (get_pos r p H) as Hp. unfold get in Hm, Hp.
  assert (wrap32 (default 1 (r !! p) + 1) = default 1 (r !! p) + 1) as E.
  { unfold wrap32. apply Z.mod_small. unfold U32_MAX in Hm. lia. }
  unfold inc. rewrite E. split; [apply map_Forall_insert_2; [lia|done]|]. intros q. rewrite get_insert.
  case_decide; [subst; unfold get|]; lia.
Qed.

(** One owner less: the page is freed exactly when it had only one. *)
Lemma unref_spec p r : shared_only r ->
  (unref_or_free p r).1 = (get p r =? 1) /\ shared_only (unref_or_free p r).2 /\
  forall q, get q (unref_or_free p r).2 = if decide (q = p) then Z.max 1 (get p r - 1) else get q r.
Proof.
  intros H. unfold unref_or_free, get at 1. destruct (r !! p) as [n|] eqn:E; cbn [default from_option id].
  - pose proof (H p n E) as Hn. cbn in Hn. rewrite (proj2 (Z.ltb_lt 1 n)) by lia. rewrite (proj2 (Z.eqb_neq n 1)) by lia.
    split; [done|]. assert (get p r = n) as -> by (unfold get; by rewrite E). destruct (Z.leb_spec (n - 1) 1); cbn.
    + split; [by apply map_Forall_delete|]. intros q. rewrite get_delete. case_decide; lia.
    + split; [apply map_Forall_insert_2; [lia|done]|]. intros q. rewrite get_insert. case_decide; lia.
  - split; [done|]. cbn. split; [by apply map_Forall_delete|]. intros q. rewrite get_delete.
    assert (get p r = 1) as -> by (unfold get; by rewrite E). case_decide; lia.
Qed.

(** [dec] is [unref_or_free] without the free. *)
Lemma dec_spec p r : shared_only r -> dec p r = (unref_or_free p r).2.
Proof.
  intros H. unfold dec, unref_or_free. destruct (r !! p) as [n|] eqn:E; [|by rewrite delete_id].
  pose proof (H p n E) as Hn. cbn in Hn. by rewrite (proj2 (Z.ltb_lt 1 n)) by lia.
Qed.
