(* ===== verification/Vmm.v ===== *)
(** * Address spaces: the mapping operations

    Models [src/mm/src/vmm.rs] without its fault paths: the regions of an address
    space and every operation that adds, splits, removes, re-protects or resizes
    them, with the page-table and frame bookkeeping each performs.

    The page table is reached through the architecture's [map_page] and
    [unmap_page]: the interface [PageTable], with the contract
    [src/mm/src/paging.rs] documents.  What an operation does outside the
    address space is part of its result: the page-reference table, and a log of
    the calls it makes, in order (TLB flushes, blocks returned to the buddy
    allocator, file references taken and dropped, memory zeroed).  The answer
    of [buddy_alloc] is an argument.  [None] is a panic.  [usize] is 64 bits and
    its arithmetic wraps, as in the release profile. *)
From S2P Require Import Prelude KLib PageSites PageRef PageVec.
#[local] Open Scope Z_scope.

(** ** The page table

    [map_page] fails only when a table node on the way to the entry cannot be
    allocated, so it does not fail where an entry exists. *)
Class PageTable (T : Type) := {
  map_page : Z -> Z -> Z -> T -> bool * T;
  unmap_page : Z -> T -> T;
  pte : T -> Z -> option (Z * Z);
  pte_map v p f t t' : map_page v p f t = (true, t') -> forall a, pte t' a = if decide (a = v) then Some (p, f) else pte t a;
  pte_map_fail v p f t t' : map_page v p f t = (false, t') -> forall a, pte t' a = pte t a;
  pte_remap v p f t : is_Some (pte t v) -> (map_page v p f t).1 = true;
  pte_unmap v t a : pte (unmap_page v t) a = if decide (a = v) then None else pte t a }.

(** ** Constants *)
Definition PROT_READ : Z := Z.shiftl 1 0.
Definition PROT_WRITE : Z := Z.shiftl 1 1.
Definition PROT_EXEC : Z := Z.shiftl 1 2.
Definition PROT_ACCESS : Z := Z.lor (Z.lor PROT_READ PROT_WRITE) PROT_EXEC.
Definition MAP_SHARED : Z := Z.shiftl 1 0.
Definition MAP_PRIVATE : Z := Z.shiftl 1 1.
Definition MAP_ANONYMOUS : Z := Z.shiftl 1 5.
Definition MAP_EOF_SIGBUS : Z := Z.shiftl 1 30.
Definition MAP_FILE_COPY : Z := Z.shiftl 1 29.

Definition PRESENT : Z := Z.shiftl 1 0.
Definition WRITABLE : Z := Z.shiftl 1 1.
Definition USER : Z := Z.shiftl 1 2.
Definition EXECUTE : Z := Z.shiftl 1 3.

(** [flags.contains(bit)] and [x & bit != 0] *)
Definition contains (fl bit : Z) : bool := Z.land fl bit =? bit.
Definition has (x bit : Z) : bool := negb (Z.land x bit =? 0).

Definition FAIL_ZERO_SIZE : Z := 1.
Definition FAIL_VMA_OVERLAP : Z := 2.
Definition FAIL_VA_OVERFLOW : Z := 3.
Definition FAIL_BUDDY : Z := 4.
Definition FAIL_PTE_INSTALL : Z := 5.
Definition FAIL_NO_HEAP : Z := 6.
Definition FAIL_BAD_FILECAP : Z := 7.

Definition is_file_backed (cap : Z) : bool := negb (cap =? 0) && negb (cap =? U64_MAX).

(** [x & !(PAGE_SIZE - 1)] and the rounding up to a page *)
Definition page_down (x : Z) : Z := Align.align_down x PAGE_SIZE.
Definition page_up (x : Z) : Z := Align.align_up x PAGE_SIZE.
Definition pages_of (size : Z) : Z := wrap64 (size + PAGE_SIZE - 1) / PAGE_SIZE.
Definition checked_add (x y : Z) : option Z := if x + y <? 2 ^ 64 then Some (x + y) else None.

(** ** Data *)
Record VmaRegion := mkVma {
  start : Z; end_ : Z; phys : Z; flags : Z; lazy : bool; lazy_pages : PageVec; lazy_count : Z;
  prot : Z; map_flags : Z; file_cap : Z; file_off : Z; file_len : Z; cow : bool; written : list Z }.

Definition vma_eta (r : VmaRegion) : VmaRegion :=
  mkVma (start r) (end_ r) (phys r) (flags r) (lazy r) (lazy_pages r) (lazy_count r)
    (prot r) (map_flags r) (file_cap r) (file_off r) (file_len r) (cow r) (written r).
Definition set_end : Z -> VmaRegion -> VmaRegion := ltac:(setter vma_eta end_).
Definition set_flags : Z -> VmaRegion -> VmaRegion := ltac:(setter vma_eta flags).
Definition set_prot_of : Z -> VmaRegion -> VmaRegion := ltac:(setter vma_eta prot).
Definition set_map_flags : Z -> VmaRegion -> VmaRegion := ltac:(setter vma_eta map_flags).
Definition set_lazy_pages : PageVec -> VmaRegion -> VmaRegion := ltac:(setter vma_eta lazy_pages).
Definition set_lazy_count : Z -> VmaRegion -> VmaRegion := ltac:(setter vma_eta lazy_count).
Definition set_words : list Z -> VmaRegion -> VmaRegion := ltac:(setter vma_eta written).

Record AddressSpace := mkAs {
  regions : list (option VmaRegion); heap_start : Z; heap_end : Z; stack_top : Z; hiwater_rss : Z; hiwater_vm : Z }.

Definition as_eta (a : AddressSpace) : AddressSpace :=
  mkAs (regions a) (heap_start a) (heap_end a) (stack_top a) (hiwater_rss a) (hiwater_vm a).
Definition set_regions : list (option VmaRegion) -> AddressSpace -> AddressSpace := ltac:(setter as_eta regions).
Definition set_heap_end : Z -> AddressSpace -> AddressSpace := ltac:(setter as_eta heap_end).

Definition new : AddressSpace := mkAs (replicate 128 None) 0 0 0 0 0.

(** Calls made outside the address space, oldest first. *)
Inductive call :=
  | TlbFlush (va pages : Z)
  | TlbFlushAll
  | BuddyFree (block : Z) (order : nat)
  | FileRetain (cap : Z)
  | FileRelease (cap : Z)
  | Zero (block len : Z)
  | FreeTables
  | TlbFlushLocal (va : Z)
  | CopyPage (src dst : Z)
  | Store (addr : Z) (bytes : list Z).

Record world (T : Type) := mkWorld { pt : T; page_refs : refs; last_fail : Z; log : list call }.
Arguments mkWorld {T} _ _ _ _.
Arguments pt {T} _.
Arguments page_refs {T} _.
Arguments last_fail {T} _.
Arguments log {T} _.

(** *** Region helpers *)
Definition pages (r : VmaRegion) : Z := wrap64 (end_ r - start r) / PAGE_SIZE.
Definition file_pages (r : VmaRegion) : Z := wrap64 (file_len r + PAGE_SIZE - 1) / PAGE_SIZE.
Definition tracks_written (r : VmaRegion) : bool := lazy r && is_file_backed (file_cap r).

Definition word_bit (w : Z) (i : nat) : bool := negb (Z.land (Z.shiftr w (Z.of_nat i)) 1 =? 0).
Definition is_written (r : VmaRegion) (idx : nat) : bool :=
  match written r !! (idx / 64)%nat with Some w => word_bit w (idx mod 64) | None => false end.

(** [if w.len() <= k/64 { w.resize(k/64 + 1, 0) }; w[k/64] |= 1 << (k % 64)] *)
Definition set_bit (k : nat) (w : list Z) : list Z :=
  let w := if (length w <=? k / 64)%nat then w ++ replicate (k / 64 + 1 - length w) 0 else w in
  alter (fun x => Z.lor x (Z.shiftl 1 (Z.of_nat (k mod 64)))) (k / 64)%nat w.

Definition set_written (idx : nat) (on : bool) (r : VmaRegion) : VmaRegion :=
  if on then
    if negb (tracks_written r) || (file_pages r <=? Z.of_nat idx) then r
    else set_words (set_bit idx (written r)) r
  else set_words (alter (fun w => Z.land w (not64 (Z.shiftl 1 (Z.of_nat (idx mod 64))))) (idx / 64)%nat (written r)) r.

Definition clean_file_page (r : VmaRegion) (idx : nat) : bool :=
  tracks_written r && (Z.of_nat idx <? file_pages r) && negb (is_written r idx).

Definition install_flags (r : VmaRegion) (idx : nat) (fl : Z) : Z :=
  if contains fl WRITABLE && clean_file_page r idx then Z.land fl (not64 WRITABLE) else fl.

Definition resident_pages (r : VmaRegion) : Z :=
  if file_cap r =? U64_MAX then 0 else if lazy r then lazy_count r else if negb (phys r =? 0) then pages r else 0.

(** *** Block orders *)
Fixpoint order_loop (fuel : nat) (pages cap : Z) (order : nat) : nat :=
  match fuel with
  | O => order
  | S f => if cap <? pages then order_loop f pages (Z.shiftl cap 1) (S order) else order
  end.
Definition pages_to_order (pages : Z) : nat := order_loop 64 pages 1 0.

(** The largest aligned sub-block at [i] that fits below [total]. *)
Fixpoint fit_order (k : nat) (i total : Z) : nat :=
  match k with
  | O => O
  | S k' => if total <? i + Z.shiftl 1 (Z.of_nat k) then fit_order k' i total else k
  end.
Fixpoint tail_blocks (fuel : nat) (base i total : Z) : list (Z * nat) :=
  match fuel with
  | O => []
  | S f =>
      if i <? total then
        let k := fit_order (trailing_zeros i) i total in
        (wrap64 (base + i * PAGE_SIZE), k) :: tail_blocks f base (i + Z.shiftl 1 (Z.of_nat k)) total
      else []
  end.
Definition eager_tail (base : Z) (n : Z) : list (Z * nat) :=
  if (base =? 0) || (n =? 0) then []
  else let total := Z.shiftl 1 (Z.of_nat (pages_to_order n)) in tail_blocks (Z.to_nat (total - n)) base n total.

(** *** The region table *)
Definition is_none {A} (o : option A) : bool := match o with None => true | Some _ => false end.

Fixpoint position {A} (f : A -> bool) (l : list A) : option nat :=
  match l with
  | [] => None
  | x :: l => if f x then Some 0%nat else S <$> position f l
  end.

Definition slot_for (rs : list (option VmaRegion)) : nat * list (option VmaRegion) :=
  match position is_none rs with
  | Some i => (i, rs)
  | None => (length rs, rs ++ [None])
  end.

(** [regions.iter().filter_map(|r| r.as_ref())] *)
Definition live (rs : list (option VmaRegion)) : list VmaRegion := omap id rs.

Definition overlaps (v e : Z) (r : VmaRegion) : bool := (v <? end_ r) && (start r <? e).
Definition covers (va : Z) (r : VmaRegion) : bool := (start r <=? va) && (va <? end_ r).

(** The [for slot in regions.iter_mut()] loops. *)
Fixpoint for_slots {X} (f : VmaRegion -> X -> option VmaRegion * X) (rs : list (option VmaRegion)) (x : X)
  : list (option VmaRegion) * X :=
  match rs with
  | [] => ([], x)
  | None :: rs => let '(rs, x) := for_slots f rs x in (None :: rs, x)
  | Some r :: rs => let '(o, x) := f r x in let '(rs, x) := for_slots f rs x in (o :: rs, x)
  end.

Definition find (a : AddressSpace) (va : Z) : option VmaRegion := List.find (covers va) (live (regions a)).

(** Frame of page [idx] of a demand-paged region, 0 when absent. *)
Definition frame_at (r : VmaRegion) (idx : nat) : Z := default 0 (PageVec.get (lazy_pages r) idx).

Definition virt_to_phys (a : AddressSpace) (va : Z) : option Z :=
  vma ← find a va;
  if lazy vma then
    let offset := va - start vma in
    let phys_page := frame_at vma (Z.to_nat (offset / PAGE_SIZE)) in
    if phys_page =? 0 then None else Some (wrap64 (phys_page + offset mod PAGE_SIZE))
  else Some (wrap64 (phys vma + (va - start vma))).

(** *** Peaks *)
Definition totals (a : AddressSpace) : Z * Z :=
  foldl (fun '(rss, size) r => (wrap64 (rss + resident_pages r), wrap64 (size + pages r))) (0, 0) (live (regions a)).
Definition update_hiwater (a : AddressSpace) : AddressSpace :=
  let '(rss, size) := totals a in
  mkAs (regions a) (heap_start a) (heap_end a) (stack_top a)
    (if hiwater_rss a <? rss then rss else hiwater_rss a) (if hiwater_vm a <? size then size else hiwater_vm a).

(** ** Operations *)
Section ops.
Context {T : Type} `{PageTable T}.
Notation world := (world T).

Definition emit (es : list call) (w : world) : world := mkWorld (pt w) (page_refs w) (last_fail w) (log w ++ es).
Definition set_pt (t : T) (w : world) : world := mkWorld t (page_refs w) (last_fail w) (log w).
Definition note_fail (code : Z) (w : world) : world := mkWorld (pt w) (page_refs w) code (log w).

Definition free_frame (p : Z) (w : world) : world :=
  let '(last, r) := unref_or_free p (page_refs w) in
  mkWorld (pt w) r (last_fail w) (log w ++ if last then [BuddyFree p 0] else []).
Definition free_frames (ps : list Z) (w : world) : world := foldl (fun w p => free_frame p w) w ps.

Definition va_of (virt : Z) (i : nat) : Z := virt + Z.of_nat i * PAGE_SIZE.

(** [for i in 0..n { if !map_page(..) { .. } }]: the page that failed, if any. *)
Fixpoint map_pages (frame : nat -> Z) (virt fl : Z) (ks : list nat) (t : T) : option nat * T :=
  match ks with
  | [] => (None, t)
  | i :: ks =>
      let '(ok, t) := map_page (va_of virt i) (frame i) fl t in
      if ok then map_pages frame virt fl ks t else (Some i, t)
  end.
Definition unmap_pages (virt : Z) (ks : list nat) (t : T) : T := foldl (fun t i => unmap_page (va_of virt i) t) t ks.

(** Install [n] pages; on a failure remove those already there. *)
Definition install (frame : nat -> Z) (virt fl : Z) (n : nat) (w : world) : bool * world :=
  match map_pages frame virt fl (seq 0 n) (pt w) with
  | (None, t) => (true, set_pt t w)
  | (Some i, t) => (false, set_pt (unmap_pages virt (seq 0 i) t) w)
  end.

Definition fresh_vma (virt e ph fl : Z) (lz : bool) (pv : PageVec) (n pr mf cap off len : Z) : VmaRegion :=
  mkVma virt e ph fl lz pv n pr mf cap off len false [].

(** The checks every mapping call starts with: a slot, the rounded range, no overlap. *)
Definition place (virt n : Z) (rs : list (option VmaRegion)) : result (Z * Z) Z :=
  match checked_add virt (n * PAGE_SIZE) with
  | None => Err FAIL_VA_OVERFLOW
  | Some e => if existsb (overlaps virt e) (live rs) then Err FAIL_VMA_OVERLAP else Ok (virt, e)
  end.

Definition map (block : option Z) (virt size fl : Z) (a : AddressSpace) (w : world) : bool * AddressSpace * world :=
  if size =? 0 then (false, a, note_fail FAIL_ZERO_SIZE w)
  else
    let '(slot, rs) := slot_for (regions a) in
    let a := set_regions rs a in
    let virt := page_down virt in
    let n := pages_of size in
    match place virt n rs with
    | Err c => (false, a, note_fail c w)
    | Ok _ =>
        let order := pages_to_order n in
        match block with
        | None => (false, a, note_fail FAIL_BUDDY w)
        | Some ph =>
            let w := emit [Zero ph (n * PAGE_SIZE)] w in
            match install (fun i => wrap64 (va_of ph i)) virt fl (Z.to_nat n) w with
            | (false, w) => (false, a, note_fail FAIL_PTE_INSTALL (emit [BuddyFree ph order] w))
            | (true, w) =>
                let r := fresh_vma virt (virt + n * PAGE_SIZE) ph fl false PageVec.new 0
                           (Z.lor PROT_READ PROT_WRITE) (Z.lor MAP_ANONYMOUS MAP_PRIVATE) 0 0 0 in
                (true, set_regions (<[slot := Some r]> rs) a, w)
            end
        end
    end.

Definition map_device (virt ph size fl : Z) (a : AddressSpace) (w : world) : bool * AddressSpace * world :=
  if size =? 0 then (false, a, note_fail FAIL_ZERO_SIZE w)
  else
    let '(slot, rs) := slot_for (regions a) in
    let a := set_regions rs a in
    let virt := page_down virt in
    let ph := page_down ph in
    let n := pages_of size in
    match place virt n rs with
    | Err c => (false, a, note_fail c w)
    | Ok (_, e) =>
        match install (fun i => wrap64 (va_of ph i)) virt fl (Z.to_nat n) w with
        | (false, w) => (false, a, note_fail FAIL_PTE_INSTALL w)
        | (true, w) =>
            let r := fresh_vma virt e ph fl false PageVec.new 0 (Z.lor PROT_READ PROT_WRITE) MAP_SHARED U64_MAX 0 0 in
            (true, set_regions (<[slot := Some r]> rs) a, w)
        end
    end.

Definition map_lazy (virt size fl : Z) (is_shared : bool) (a : AddressSpace) (w : world) : bool * AddressSpace * world :=
  if size =? 0 then (false, a, note_fail FAIL_ZERO_SIZE w)
  else
    let '(slot, rs) := slot_for (regions a) in
    let a := set_regions rs a in
    let virt := page_down virt in
    match place virt (pages_of size) rs with
    | Err c => (false, a, note_fail c w)
    | Ok (_, e) =>
        let r := fresh_vma virt e 0 fl true PageVec.new 0 (Z.lor PROT_READ PROT_WRITE)
                   (Z.lor MAP_ANONYMOUS (if is_shared then MAP_SHARED else MAP_PRIVATE)) 0 0 0 in
        (true, set_regions (<[slot := Some r]> rs) a, w)
    end.

(** The protection a mapping derives from its page flags. *)
Definition prot_of (fl : Z) : Z :=
  let p := PROT_READ in
  let p := if contains fl WRITABLE then Z.lor p PROT_WRITE else p in
  if contains fl EXECUTE then Z.lor p PROT_EXEC else p.

Definition map_shared_frames (virt : Z) (frames : list Z) (fl : Z) (a : AddressSpace) (w : world)
  : option (bool * AddressSpace * world) :=
  if (length frames =? 0)%nat then Some (false, a, note_fail FAIL_ZERO_SIZE w)
  else
    let release_all := free_frames (List.filter (fun p => negb (p =? 0)) frames) in
    let '(slot, rs) := slot_for (regions a) in
    let a := set_regions rs a in
    let virt := page_down virt in
    let n := length frames in
    match place virt (Z.of_nat n) rs with
    | Err c => Some (false, a, note_fail c (release_all w))
    | Ok (_, e) =>
        match install (fun i => default 0 (frames !! i)) virt fl n w with
        | (false, w) => Some (false, a, note_fail FAIL_PTE_INSTALL (release_all w))
        | (true, w) =>
            pv ← PageVec.from frames;
            let r := fresh_vma virt e 0 fl true pv (Z.of_nat n) (prot_of fl) MAP_SHARED 0 0 0 in
            Some (true, set_regions (<[slot := Some r]> rs) a, w)
        end
    end.

Definition map_lazy_file_with (virt size fl cap off len mf : Z) (a : AddressSpace) (w : world)
  : bool * AddressSpace * world :=
  if size =? 0 then (false, a, note_fail FAIL_ZERO_SIZE w)
  else if negb (is_file_backed cap) then (false, a, note_fail FAIL_BAD_FILECAP w)
  else
    let '(slot, rs) := slot_for (regions a) in
    let a := set_regions rs a in
    let virt := page_down virt in
    match place virt (pages_of size) rs with
    | Err c => (false, a, note_fail c w)
    | Ok (_, e) =>
        let r := fresh_vma virt e 0 fl true PageVec.new 0 (prot_of fl) mf cap off len in
        (true, set_regions (<[slot := Some r]> rs) a, emit [FileRetain cap] w)
    end.

Definition map_lazy_file (virt size fl cap off len : Z) := map_lazy_file_with virt size fl cap off len MAP_PRIVATE.
Definition map_private_file (virt size fl cap off : Z) :=
  map_lazy_file_with virt size fl cap off (page_up size) (Z.lor MAP_PRIVATE MAP_EOF_SIGBUS).
Definition map_shared_file (virt size fl cap off : Z) :=
  map_lazy_file_with virt size fl cap off (page_up size) (Z.lor MAP_SHARED MAP_EOF_SIGBUS).

(** *** Splitting a region *)
(** The page-by-page form of an eager region. *)
Definition to_lazy (r : VmaRegion) : option VmaRegion :=
  if lazy r then Some r
  else
    let n := Z.to_nat (pages r) in
    pv ← PageVec.from (List.map (fun i => wrap64 (va_of (phys r) i)) (seq 0 n));
    Some (mkVma (start r) (end_ r) 0 (flags r) true pv (Z.of_nat n)
            (prot r) (map_flags r) (file_cap r) (file_off r) (file_len r) (cow r) (written r)).

Definition tail_written (r : VmaRegion) (split_idx : nat) : list Z :=
  foldl (fun tw i => if is_written r i then set_bit (i - split_idx)%nat tw else tw) []
    (seq split_idx (length (written r) * 64 - split_idx)).

Definition head_written (w : list Z) (split_idx : nat) : list Z :=
  if (split_idx / 64 <? length w)%nat then
    let w := take (split_idx / 64 + 1)%nat w in
    if (split_idx mod 64 =? 0)%nat then take (split_idx / 64)%nat w
    else alter (fun x => Z.land x (Z.shiftl 1 (Z.of_nat (split_idx mod 64)) - 1)) (split_idx / 64)%nat w
  else w.

(** The two halves of a demand-paged region. *)
Definition halves (boundary : Z) (r : VmaRegion) : option (VmaRegion * VmaRegion) :=
  let split_idx := Z.to_nat ((boundary - start r) / PAGE_SIZE) in
  let split_bytes := Z.of_nat split_idx * PAGE_SIZE in
  '(tail, pv) ← (if (split_idx <? PageVec.len (lazy_pages r))%nat then PageVec.split_off split_idx (lazy_pages r)
                 else Some (PageVec.new, lazy_pages r));
  let left_len := if is_file_backed (file_cap r) && (split_bytes <? file_len r) then split_bytes else file_len r in
  let lhalf := mkVma (start r) boundary (phys r) (flags r) (lazy r) pv (Z.of_nat (PageVec.count_present pv))
                (prot r) (map_flags r) (file_cap r) (file_off r) left_len (cow r) (head_written (written r) split_idx) in
  let rhalf := mkVma boundary (end_ r) 0 (flags r) true tail (Z.of_nat (PageVec.count_present tail))
                 (prot r) (map_flags r) (file_cap r) (wrap64 (file_off r + split_bytes)) (Z.max 0 (file_len r - split_bytes))
                 (cow r) (tail_written r split_idx) in
  Some (lhalf, rhalf).

Definition straddles (boundary : Z) (o : option VmaRegion) : bool :=
  match o with Some r => (start r <? boundary) && (boundary <? end_ r) | None => false end.

Definition block_calls (bs : list (Z * nat)) : list call := List.map (fun '(b, k) => BuddyFree b k) bs.

Definition split_at (boundary : Z) (a : AddressSpace) (w : world) : option (bool * AddressSpace * world) :=
  let boundary := page_down boundary in
  match position (straddles boundary) (regions a) with
  | None => Some (false, a, w)
  | Some idx =>
      r ← mjoin (regions a !! idx);
      if file_cap r =? U64_MAX then Some (false, a, w)
      else
        let w := if lazy r then w else emit (block_calls (eager_tail (phys r) (pages r))) w in
        r ← to_lazy r;
        '(lhalf, rhalf) ← halves boundary r;
        let w := if is_file_backed (file_cap r) then emit [FileRetain (file_cap r)] w else w in
        let rs := <[idx := Some lhalf]> (regions a) in
        let '(slot, rs) := slot_for rs in
        Some (true, set_regions (<[slot := Some rhalf]> rs) a, w)
  end.

(** *** Unmapping *)
Record unmapping := mkU { u_w : world; released : list Z; released_blocks : list (Z * nat); did_unmap : bool }.

Definition contained (v e : Z) (r : VmaRegion) : bool := (v <=? start r) && (end_ r <=? e) && (start r <? end_ r).

Definition unmap_region (v e : Z) (r : VmaRegion) (x : unmapping) : option VmaRegion * unmapping :=
  if negb (contained v e r) then (Some r, x)
  else
    let n := Z.to_nat (pages r) in
    let x :=
      if lazy r then
        let ps := PageVec.present (lazy_pages r) in
        mkU (set_pt (unmap_pages (start r) (ps.*1) (pt (u_w x))) (u_w x)) (released x ++ ps.*2) (released_blocks x)
          (did_unmap x || negb (length ps =? 0)%nat)
      else
        mkU (set_pt (unmap_pages (start r) (seq 0 n) (pt (u_w x))) (u_w x)) (released x)
          (released_blocks x ++
             (if (file_cap r =? U64_MAX) || (phys r =? 0) then [] else [(phys r, pages_to_order (pages r))])) true in
    (None, mkU (if is_file_backed (file_cap r) then emit [FileRelease (file_cap r)] (u_w x) else u_w x)
             (released x) (released_blocks x) (did_unmap x)).

Definition unmap_range (virt len : Z) (a : AddressSpace) (w : world) : option (AddressSpace * world) :=
  if len =? 0 then Some (a, w)
  else
    let virt := page_down virt in
    let len := page_up len in
    match checked_add virt len with
    | None => Some (a, w)
    | Some e =>
        let a := update_hiwater a in
        '(_, a, w) ← split_at virt a w;
        '(_, a, w) ← split_at e a w;
        let '(rs, x) := for_slots (unmap_region virt e) (regions a) (mkU w [] [] false) in
        let w := u_w x in
        let w := if did_unmap x && negb (len / PAGE_SIZE =? 0) then emit [TlbFlush virt (len / PAGE_SIZE)] w else w in
        let w := free_frames (released x) w in
        Some (set_regions rs a, emit (block_calls (released_blocks x)) w)
    end.

(** *** Dropping resident pages *)
Fixpoint clear_pages (ks : list nat) (r : VmaRegion) (t : T) (rel : list Z) : option (VmaRegion * T * list Z) :=
  match ks with
  | [] => Some (r, t, rel)
  | i :: ks =>
      p ← PageVec.index (lazy_pages r) i;
      if p =? 0 then clear_pages ks r t rel
      else
        pv ← PageVec.index_mut i 0 (lazy_pages r);
        let r := set_lazy_pages pv r in
        let r := set_written i false r in
        clear_pages ks (set_lazy_count (Z.max 0 (lazy_count r - 1)) r) (unmap_page (va_of (start r) i) t) (rel ++ [p])
  end.

Record discarding := mkD { d_w : world; d_covered : Z; d_released : list Z }.

Definition discard_region (v e : Z) (r : VmaRegion) (x : option discarding) : option VmaRegion * option discarding :=
  match x with
  | None => (Some r, None)
  | Some x =>
      if (end_ r <=? v) || (e <=? start r) then (Some r, Some x)
      else
        let lo := Z.max (start r) v in
        let hi := Z.min (end_ r) e in
        let cov := wrap64 (d_covered x + (hi - lo)) in
        if has (map_flags r) MAP_SHARED || (file_cap r =? U64_MAX) then (Some r, Some (mkD (d_w x) cov (d_released x)))
        else if lazy r then
          let first := Z.to_nat ((lo - start r) / PAGE_SIZE) in
          let last := Nat.min (Z.to_nat ((hi - start r) / PAGE_SIZE)) (PageVec.len (lazy_pages r)) in
          match clear_pages (seq first (last - first)) r (pt (d_w x)) (d_released x) with
          | None => (Some r, None)
          | Some (r, t, rel) => (Some r, Some (mkD (set_pt t (d_w x)) cov rel))
          end
        else if negb (phys r =? 0) && negb (is_file_backed (file_cap r)) then
          (Some r, Some (mkD (emit [Zero (wrap64 (phys r + (lo - start r))) (hi - lo)] (d_w x)) cov (d_released x)))
        else (Some r, Some (mkD (d_w x) cov (d_released x)))
  end.

Definition discard_range (virt len : Z) (a : AddressSpace) (w : world) : option (bool * AddressSpace * world) :=
  let virt := page_down virt in
  let len := page_up len in
  match checked_add virt len with
  | None => Some (false, a, w)
  | Some e =>
      if len =? 0 then Some (true, a, w)
      else
        let a := update_hiwater a in
        let '(rs, x) := for_slots (discard_region virt e) (regions a) (Some (mkD w 0 [])) in
        x ← x;
        let w := if (length (d_released x) =? 0)%nat then d_w x
                 else free_frames (d_released x) (emit [TlbFlush virt (len / PAGE_SIZE)] (d_w x)) in
        Some (d_covered x =? len, set_regions rs a, w)
  end.

(** *** Protection *)
Definition flags_of_prot (pr : Z) : Z :=
  let f := Z.lor PRESENT USER in
  let f := if has pr PROT_WRITE then Z.lor f WRITABLE else f in
  if has pr PROT_EXEC then Z.lor f EXECUTE else f.

(** [map_page] whose answer is not looked at *)
Definition remap (va p fl : Z) (t : T) : T := (map_page va p fl t).2.

Definition protect_pages (pr fl : Z) (r : VmaRegion) (w : world) : world :=
  let n := Z.to_nat (pages r) in
  if Z.land pr PROT_ACCESS =? 0 then
    if lazy r then set_pt (unmap_pages (start r) (PageVec.present (lazy_pages r)).*1 (pt w)) w
    else if negb (phys r =? 0) then set_pt (unmap_pages (start r) (seq 0 n) (pt w)) w else w
  else if lazy r then
    set_pt (foldl (fun t '(i, p) =>
              let fl := if cow r && (1 <? PageRef.get p (page_refs w)) then Z.land fl (not64 WRITABLE) else install_flags r i fl in
              remap (va_of (start r) i) p fl t) (pt w) (PageVec.present (lazy_pages r))) w
  else if negb (phys r =? 0) then
    set_pt (foldl (fun t i => remap (va_of (start r) i) (wrap64 (va_of (phys r) i)) fl t) (pt w) (seq 0 n)) w
  else w.

Definition protect_region (v e pr fl : Z) (r : VmaRegion) (x : world * bool) : option VmaRegion * (world * bool) :=
  if negb (contained v e r) then (Some r, x)
  else let r := set_flags fl (set_prot_of pr r) in (Some r, (protect_pages pr fl r x.1, true)).

Definition mprotect (addr len pr : Z) (a : AddressSpace) (w : world) : option (bool * AddressSpace * world) :=
  if has pr PROT_WRITE && has pr PROT_EXEC then Some (false, a, w)
  else
    let addr := page_down addr in
    match checked_add addr (page_up len) with
    | None => Some (false, a, w)
    | Some e =>
        '(_, a, w) ← split_at addr a w;
        '(_, a, w) ← split_at e a w;
        let '(rs, (w, changed)) := for_slots (protect_region addr e pr (flags_of_prot pr)) (regions a) (w, false) in
        let w := if changed && negb ((e - addr) / PAGE_SIZE =? 0) then emit [TlbFlush addr ((e - addr) / PAGE_SIZE)] w else w in
        Some (changed, set_regions rs a, w)
    end.

(** [find(|r| r.start == virt)] over the slots, and an update there *)
Definition starts_at (v : Z) (o : option VmaRegion) : bool := match o with Some r => start r =? v | None => false end.
Definition update_start (v : Z) (f : VmaRegion -> VmaRegion) (a : AddressSpace) : AddressSpace :=
  match position (starts_at v) (regions a) with
  | Some i => set_regions (alter (fmap f) i (regions a)) a
  | None => a
  end.
Definition set_prot (virt pr : Z) (a : AddressSpace) : AddressSpace := update_start (page_down virt) (set_prot_of pr) a.
Definition mark_file_copy (virt : Z) (a : AddressSpace) : AddressSpace :=
  update_start (page_down virt) (fun r => set_map_flags (Z.lor (Z.land (map_flags r) (not64 MAP_ANONYMOUS)) MAP_FILE_COPY) r) a.

(** The loop of [range_writable] enters each region at most once. *)
Fixpoint writable_loop (fuel : nat) (l : list VmaRegion) (va e : Z) : bool :=
  match fuel with
  | O => true
  | S f =>
      if va <? e then
        match List.find (covers va) l with
        | None => false
        | Some r => if (Z.land (prot r) PROT_WRITE =? 0) && negb (contains (flags r) WRITABLE) then false
                    else writable_loop f l (end_ r) e
        end
      else true
  end.
Definition range_writable (a : AddressSpace) (addr len : Z) : bool :=
  if len =? 0 then true
  else match checked_add addr len with
       | None => false
       | Some e => writable_loop (S (length (live (regions a)))) (live (regions a)) addr e
       end.

(** *** Resizing *)
Definition USER_END : Z := Z.shiftl 1 47.

Definition grow_in_place (addr old_len new_len : Z) (a : AddressSpace) : Z * AddressSpace :=
  if negb (Z.land addr (PAGE_SIZE - 1) =? 0) then (-22, a)
  else match checked_add addr old_len with
  | None => (-14, a)
  | Some old_end =>
      match checked_add addr new_len with
      | None => (-12, a)
      | Some new_end =>
          match position (fun o => match o with Some r => covers addr r | None => false end) (regions a) with
          | None => (-14, a)
          | Some idx =>
              match mjoin (regions a !! idx) with
              | None => (-14, a)
              | Some r =>
                  let growable := lazy r && (file_cap r =? 0) && negb (has (map_flags r) MAP_SHARED) in
                  if end_ r <? old_end then (-14, a)
                  else if negb (old_end =? end_ r) || negb growable || (USER_END <? new_end) then (-12, a)
                  else if existsb (fun q => (start q <? new_end) && (end_ r <? end_ q)) (live (regions a)) then (-12, a)
                  else (addr, set_regions (<[idx := Some (set_end new_end r)]> (regions a)) a)
              end
          end
      end
  end.

(** [first..stop] as page numbers *)
Definition range (first stop : Z) : list nat :=
  if first <? stop then seq (Z.to_nat first) (Z.to_nat (stop - first)) else [].

Definition current_break (a : AddressSpace) : Z := if heap_end a =? 0 then heap_start a else heap_end a.

(** The lowering of the break to [new_end], in the heap region [r] at [idx]. *)
Definition brk_shrink (idx : nat) (r : VmaRegion) (new_end : Z) (a : AddressSpace) (w : world)
  : option (AddressSpace * world) :=
  let a := update_hiwater a in
  let old_end := end_ r in
  let r := set_end new_end r in
  let first := wrap64 (new_end - start r) / PAGE_SIZE in
  let last := wrap64 (wrap64 (old_end - start r) + PAGE_SIZE - 1) / PAGE_SIZE in
  let stop := Z.min last (Z.of_nat (PageVec.len (lazy_pages r))) in
  '(r, t, rel) ← clear_pages (range first stop) r (pt w) [];
  let n := Z.max 0 (last - first) in
  let w := set_pt t w in
  let w := if n =? 0 then w else emit [TlbFlush (wrap64 (start r + wrap64 (first * PAGE_SIZE))) n] w in
  Some (set_regions (<[idx := Some r]> (regions a)) a, free_frames rel w).

Definition brk (new_end : Z) (a : AddressSpace) (w : world) : option (Z * AddressSpace * world) :=
  let cur := current_break a in
  if new_end =? 0 then Some (cur, a, w)
  else if heap_start a =? 0 then Some (cur, a, note_fail FAIL_NO_HEAP w)
  else
    let new_end := page_up new_end in
    match position (starts_at (heap_start a)) (regions a) with
    | None =>
        if new_end <=? heap_start a then Some (cur, a, w)
        else
          match map_lazy (heap_start a) (new_end - heap_start a) (Z.lor (Z.lor PRESENT USER) WRITABLE) false a w with
          | (true, a, w) => Some (new_end, set_heap_end new_end a, w)
          | (false, a, w) => Some (cur, a, w)
          end
    | Some idx =>
        r ← mjoin (regions a !! idx);
        if new_end =? end_ r then Some (new_end, a, w)
        else if end_ r <? new_end then
          if existsb (fun q => (start q <? new_end) && (end_ r <? end_ q)) (live (<[idx := None]> (regions a)))
          then Some (cur, a, note_fail FAIL_VMA_OVERLAP w)
          else Some (new_end, set_heap_end new_end (set_regions (<[idx := Some (set_end new_end r)]> (regions a)) a), w)
        else
          '(a, w) ← brk_shrink idx r new_end a w;
          Some (new_end, set_heap_end new_end a, w)
    end.

(** *** Destroying the address space *)
Definition drop_region (r : VmaRegion) (w : world) : option VmaRegion * world :=
  let w := if lazy r then free_frames (PageVec.present (lazy_pages r)).*2 w
           else if negb (phys r =? 0) && negb (file_cap r =? U64_MAX)
                then emit [BuddyFree (phys r) (pages_to_order (pages r))] w else w in
  (None, if is_file_backed (file_cap r) then emit [FileRelease (file_cap r)] w else w).
Definition drop_space (root : Z) (a : AddressSpace) (w : world) : world :=
  let '(_, w) := for_slots drop_region (regions a) w in
  if root =? 0 then w else emit [TlbFlushAll; FreeTables; BuddyFree root 0] w.

End ops.
