(* ===== verification/VmmView.v ===== *)
(** * Address spaces: what a program sees, and splitting

    The abstraction of an address space is its view: for every address, the
    frame behind its page and the attributes the page has.  [space_ok] says that
    regions are page-aligned, disjoint and internally consistent; [no_stale], that
    every page-table entry leads to the frame the view gives, and is writable only
    where a store needs no fault: a writable region, no other owner of a
    copy-on-write frame, no clean file page.

    The theorem shows that [split_at] changes no page of the view: it is pure
    bookkeeping, whatever the region's frames, file extent and written bits. *)
From S2P Require Import Prelude KLib PageSites PageRef PageVec Vmm.
#[local] Open Scope Z_scope.

Record page := mkPage {
  p_frame : option Z; p_flags : Z; p_prot : Z; p_map : Z; p_cap : Z; p_pos : Z; p_bytes : Z; p_cow : bool; p_written : bool }.

Definition idx_of (r : VmaRegion) (va : Z) : nat := Z.to_nat ((va - start r) / PAGE_SIZE).

Definition frame_of (r : VmaRegion) (i : nat) : option Z :=
  if lazy r then (if frame_at r i =? 0 then None else Some (frame_at r i)) else Some (wrap64 (va_of (phys r) i)).

(** Bytes of page [i] that come from the file. *)
Definition bytes_of (r : VmaRegion) (i : nat) : Z := Z.max 0 (Z.min PAGE_SIZE (file_len r - Z.of_nat i * PAGE_SIZE)).

Definition page_no (r : VmaRegion) (i : nat) : page :=
  let file := is_file_backed (file_cap r) in
  mkPage (frame_of r i) (flags r) (prot r) (map_flags r) (file_cap r)
    (if file then wrap64 (file_off r + Z.of_nat i * PAGE_SIZE) else 0) (if file then bytes_of r i else 0)
    (cow r) (is_written r i).

Definition view (l : list VmaRegion) (va : Z) : option page := (fun r => page_no r (idx_of r va)) <$> List.find (covers va) l.

(** A page that still shows the file, and whose first store must be seen. *)
Definition clean (p : page) : bool := is_file_backed (p_cap p) && (0 <? p_bytes p) && negb (p_written p).
Definition may_write (rf : refs) (p : page) (frame : Z) : bool :=
  contains (p_flags p) WRITABLE && negb (p_cow p && (1 <? PageRef.get frame rf)) && negb (clean p).

Record region_ok (r : VmaRegion) : Prop := {
  ro_start : (PAGE_SIZE | start r);
  ro_end : (PAGE_SIZE | end_ r);
  ro_range : 0 <= start r < end_ r;
  ro_top : end_ r < 2 ^ 64;
  ro_pv : PageVec.wf (lazy_pages r);
  ro_len : lazy r = true -> forall i, (end_ r - start r) / PAGE_SIZE <= Z.of_nat i -> frame_at r i = 0;
  ro_count : lazy r = true -> lazy_count r = Z.of_nat (PageVec.count_present (lazy_pages r));
  ro_file : 0 <= file_len r /\ file_len r + PAGE_SIZE <= 2 ^ 64;
  ro_eager : lazy r = false -> phys r <> 0 /\ is_file_backed (file_cap r) = false /\ cow r = false;
  ro_block : lazy r = false -> file_cap r <> U64_MAX -> 0 < phys r /\ phys r + (end_ r - start r) <= 2 ^ 64 }.

Definition apart (r q : VmaRegion) : Prop := end_ r <= start q \/ end_ q <= start r.
Fixpoint pairwise (l : list VmaRegion) : Prop :=
  match l with [] => True | r :: l => Forall (apart r) l /\ pairwise l end.

Definition space_ok (l : list VmaRegion) : Prop := Forall region_ok l /\ pairwise l.

Section stale.
Context {T : Type} `{PageTable T}.
Definition no_stale (l : list VmaRegion) (t : T) (rf : refs) : Prop :=
  forall va p f, pte t va = Some (p, f) ->
    (PAGE_SIZE | va) /\ exists pg, view l va = Some pg /\ p_frame pg = Some p /\ (contains f WRITABLE = true -> may_write rf pg p = true).

Definition vm_ok (a : AddressSpace) (w : world T) : Prop :=
  space_ok (live (regions a)) /\ no_stale (live (regions a)) (pt w) (page_refs w) /\ shared_only (page_refs w).
End stale.

(** ** Regions as a set *)
Lemma apart_sym r q : apart r q -> apart q r.
Proof. unfold apart. tauto. Qed.

Lemma pairwise_perm l l' : l ≡ₚ l' -> pairwise l -> pairwise l'.
Proof.
  induction 1 as [|x l l' HP IH|x y l|l l' l'' _ IH1 _ IH2]; cbn; [done| | |tauto].
  - intros [H1 H2]. split; [by rewrite <- HP|auto].
  - rewrite !Forall_cons. intros ((H1 & H2) & H3 & H4). split_and!; try done; by apply apart_sym.
Qed.

Lemma space_ok_perm l l' : l ≡ₚ l' -> space_ok l -> space_ok l'.
Proof. intros HP [H1 H2]. split; [by rewrite <- HP|by eapply pairwise_perm]. Qed.

Lemma space_ok_cons r l : space_ok (r :: l) <-> region_ok r /\ Forall (apart r) l /\ space_ok l.
Proof. unfold space_ok. cbn. rewrite Forall_cons. tauto. Qed.

Lemma covers_spec va r : covers va r = true <-> start r <= va < end_ r.
Proof. unfold covers. rewrite andb_true_iff, Z.leb_le, Z.ltb_lt. done. Qed.

Lemma apart_covers r q va : apart r q -> covers va r = true -> covers va q = false.
Proof. intros Ha Hr%covers_spec. apply not_true_iff_false. rewrite covers_spec. unfold apart in Ha. lia. Qed.

Lemma find_perm l l' va : l ≡ₚ l' -> pairwise l -> List.find (covers va) l = List.find (covers va) l'.
Proof.
  induction 1 as [|x l l' HP IH|x y l|l l' l'' H1 IH1 H2 IH2]; intros Hp; [done| | |].
  - cbn. destruct (covers va x); [done|]. apply IH, Hp.
  - cbn. destruct Hp as [[Hxy _]%Forall_cons _]. destruct (covers va y) eqn:Ey, (covers va x) eqn:Ex; try done.
    rewrite (apart_covers _ _ va Hxy) in Ex by done. done.
  - rewrite IH1 by done. apply IH2. by eapply pairwise_perm.
Qed.

Lemma view_perm l l' va : l ≡ₚ l' -> pairwise l -> view l va = view l' va.
Proof. intros H1 H2. unfold view. by rewrite (find_perm l l'). Qed.

Lemma view_cons r l va : view (r :: l) va = if covers va r then Some (page_no r (idx_of r va)) else view l va.
Proof. unfold view. cbn. by destruct (covers va r). Qed.

Lemma find_apart r l va : Forall (apart r) l -> covers va r = true -> List.find (covers va) l = None.
Proof.
  intros Hl Hr. induction Hl as [|q l Hq Hl IH]; [done|]. cbn. by rewrite (apart_covers r q va).
Qed.

Lemma view_apart r l va : Forall (apart r) l -> covers va r = true -> view l va = None.
Proof. intros H1 H2. unfold view. by rewrite (find_apart r). Qed.

(** ** Slots *)
Lemma live_app l1 l2 : live (l1 ++ l2) = live l1 ++ live l2.
Proof. apply omap_app. Qed.

Lemma live_at rs i o : rs !! i = Some o ->
  exists rest, live rs ≡ₚ option_list o ++ rest /\ forall o', live (<[i := o']> rs) ≡ₚ option_list o' ++ rest.
Proof.
  revert i. induction rs as [|x rs IH]; intros [|i] Hi; try done.
  - injection Hi as ->. exists (live rs). split; [by destruct o|]. intros o'. by destruct o'.
  - destruct (IH i Hi) as (rest & H1 & H2). exists (option_list x ++ rest). split.
    + destruct x as [r|]; cbn; [|done]. rewrite H1. destruct o; cbn; [apply Permutation_swap|done].
    + intros o'. change (<[S i := o']> (x :: rs)) with (x :: <[i := o']> rs). specialize (H2 o').
      destruct x as [r|]; cbn; [|done]. rewrite H2. destruct o'; cbn; [apply Permutation_swap|done].
Qed.

Lemma position_Some {A} (f : A -> bool) l i : position f l = Some i -> exists x, l !! i = Some x /\ f x = true.
Proof.
  revert i. induction l as [|x l IH]; intros i; [done|]. cbn. destruct (f x) eqn:E.
  - intros [= <-]. by exists x.
  - destruct (position f l) as [j|]; [|done]. intros [= <-]. by apply IH.
Qed.

Lemma position_None {A} (f : A -> bool) l : position f l = None -> Forall (fun x => f x = false) l.
Proof.
  induction l as [|x l IH]; [constructor|]. cbn. destruct (f x) eqn:E; [done|]. destruct (position f l); [done|].
  constructor; auto.
Qed.

Lemma slot_for_spec rs i rs' : slot_for rs = (i, rs') ->
  live rs' = live rs /\ forall r, live (<[i := Some r]> rs') ≡ₚ r :: live rs.
Proof.
  unfold slot_for. destruct (position is_none rs) as [j|] eqn:E; intros [= <- <-].
  - split; [done|]. intros r. apply position_Some in E as (o & Ho & Hn). destruct o; [done|].
    destruct (live_at rs j None Ho) as (rest & H1 & H2). rewrite (H2 (Some r)), H1. done.
  - rewrite live_app. cbn. rewrite app_nil_r. split; [done|]. intros r. rewrite insert_app_r_alt, Nat.sub_diag by done.
    rewrite live_app. cbn. by rewrite Permutation_app_comm.
Qed.

(** ** Pages of a region *)
Lemma page_pos : 0 < PAGE_SIZE.
Proof. done. Qed.

Lemma pages_ok r : region_ok r -> pages r = (end_ r - start r) / PAGE_SIZE /\ end_ r - start r = pages r * PAGE_SIZE.
Proof.
  intros R. destruct (ro_range r R), (ro_start r R) as [s Hs], (ro_end r R) as [e He]. pose proof (ro_top r R).
  unfold pages, wrap64. rewrite Z.mod_small by lia. split; [done|]. rewrite He, Hs, <- Z.mul_sub_distr_r, Z.div_mul; [done|].
  unfold PAGE_SIZE. lia.
Qed.

Lemma idx_va r va : region_ok r -> (PAGE_SIZE | va) -> start r <= va -> va = va_of (start r) (idx_of r va).
Proof.
  intros R [v Hv] Hle. destruct (ro_start r R) as [s Hs]. unfold va_of, idx_of. rewrite Hv, Hs, <- Z.mul_sub_distr_r.
  rewrite Z.div_mul by done. unfold PAGE_SIZE in *. lia.
Qed.

Lemma va_idx r i : idx_of r (va_of (start r) i) = i.
Proof.
  unfold idx_of, va_of. replace (start r + Z.of_nat i * PAGE_SIZE - start r) with (Z.of_nat i * PAGE_SIZE) by lia.
  rewrite Z.div_mul by done. lia.
Qed.

Lemma covers_va r i : region_ok r -> covers (va_of (start r) i) r = true <-> Z.of_nat i < pages r.
Proof.
  intros R. rewrite covers_spec. destruct (pages_ok r R) as [_ H]. unfold va_of. unfold PAGE_SIZE in *. lia.
Qed.

Lemma va_aligned r i : region_ok r -> (PAGE_SIZE | va_of (start r) i).
Proof. intros R. unfold va_of. apply Z.divide_add_r; [apply R|]. by exists (Z.of_nat i). Qed.

Lemma idx_bound r va : region_ok r -> covers va r = true -> Z.of_nat (idx_of r va) < pages r.
Proof.
  intros R Hc%covers_spec. destruct (pages_ok r R) as [_ H]. unfold idx_of.
  rewrite Z2Nat.id by (apply Z.div_pos; [lia|done]). apply Z.div_lt_upper_bound; [done|]. unfold PAGE_SIZE in *. lia.
Qed.

(** The frames of a demand-paged region as a list. *)
Lemma frame_at_list r i : PageVec.wf (lazy_pages r) -> frame_at r i = default 0 (to_list (lazy_pages r) !! i).
Proof. intros W. unfold frame_at. by rewrite slot_get. Qed.

Lemma present_frame r i p : PageVec.wf (lazy_pages r) -> (i, p) ∈ present (lazy_pages r) <-> frame_at r i = p /\ p <> 0.
Proof.
  intros W. rewrite present_frames, frames_In, frame_at_list by done. destruct (to_list _ !! i) as [q|] eqn:E; cbn; [naive_solver|].
  split; [naive_solver|]. intros [<- H]. done.
Qed.

Lemma present_idx r i p : region_ok r -> lazy r = true -> (i, p) ∈ present (lazy_pages r) -> Z.of_nat i < pages r.
Proof.
  intros R Hl [Hf Hp]%present_frame; [|apply R]. rewrite (proj1 (pages_ok r R)). destruct (Z.lt_ge_cases (Z.of_nat i) ((end_ r - start r) / PAGE_SIZE)) as [|Hge]; [done|].
  destruct Hp. rewrite <- Hf. by apply ro_len.
Qed.

(** ** Written bits *)
Definition getbit (w : list Z) (k : nat) : bool := match w !! (k / 64)%nat with Some x => word_bit x (k mod 64) | None => false end.

Lemma word_bit_testbit x i : word_bit x i = Z.testbit x (Z.of_nat i).
Proof.
  unfold word_bit. change 1 with (Z.ones 1). rewrite Z.land_ones by lia.
  replace (Z.testbit x (Z.of_nat i)) with (Z.testbit (Z.shiftr x (Z.of_nat i)) 0) by (rewrite Z.shiftr_spec; [done|lia]).
  rewrite Z.bit0_odd. change (2 ^ 1) with 2. rewrite Zmod_odd. by destruct (Z.odd _).
Qed.

Lemma getbit_testbit w k : getbit w k = Z.testbit (word_at w (k / 64)) (Z.of_nat (k mod 64)).
Proof. unfold getbit, word_at. destruct (w !! (k / 64)%nat) as [x|]; cbn [default from_option id]; [apply word_bit_testbit|by rewrite Z.bits_0]. Qed.

Lemma nat_word k : k = (k / 64 * 64 + k mod 64)%nat /\ (k mod 64 < 64)%nat.
Proof. pose proof (Nat.div_mod_eq k 64). pose proof (Nat.mod_upper_bound k 64). lia. Qed.

Lemma same_bit j k : (j / 64 = k / 64)%nat -> (j mod 64 = k mod 64)%nat -> j = k.
Proof. destruct (nat_word j), (nat_word k). lia. Qed.

Lemma word_at_alter f i w j : (i < length w)%nat -> word_at (alter f i w) j = if decide (j = i) then f (word_at w i) else word_at w j.
Proof.
  intros Hi. unfold word_at. case_decide as E; [subst|].
  - rewrite list_lookup_alter_eq. by destruct (lookup_lt_is_Some_2 w i Hi) as [x ->].
  - by rewrite list_lookup_alter_ne.
Qed.

Lemma set_bit_spec k w j : getbit (set_bit k w) j = (j =? k)%nat || getbit w j.
Proof.
  unfold set_bit. set (w' := if (length w <=? k / 64)%nat then _ else w).
  assert (k / 64 < length w')%nat as Hl.
  { unfold w'. destruct (Nat.leb_spec (length w) (k / 64)); [rewrite length_app, length_replicate|]; lia. }
  assert (forall i, word_at w' i = word_at w i) as Hw.
  { intros i. unfold w', word_at. destruct (length w <=? k / 64)%nat; [|done]. rewrite lookup_app.
    destruct (w !! i) as [x|]; [done|]. cbn. destruct (replicate _ 0 !! _) as [x|] eqn:Er; [|done]. by apply lookup_replicate in Er as [-> _]. }
  rewrite !getbit_testbit, word_at_alter, !Hw by done. case_decide as E.
  - rewrite Z.lor_spec, testbit_shiftl1, E by lia. destruct (Nat.eqb_spec j k) as [->|Hne].
    + by rewrite Z.eqb_refl, orb_true_r.
    + destruct (Z.eqb_spec (Z.of_nat (k mod 64)) (Z.of_nat (j mod 64))); [|by rewrite orb_false_r].
      destruct Hne. apply same_bit; [done|lia].
  - destruct (Nat.eqb_spec j k) as [->|]; [done|]. done.
Qed.

Lemma tail_written_spec r s k : getbit (tail_written r s) k = is_written r (s + k).
Proof.
  unfold tail_written. assert (forall ks acc, getbit (foldl (fun tw i => if is_written r i then set_bit (i - s)%nat tw else tw) acc ks) k
      = getbit acc k || existsb (fun i => is_written r i && (k =? i - s)%nat) ks) as E.
  { induction ks as [|i ks IH]; intros acc; cbn [foldl existsb]; [by rewrite orb_false_r|]. rewrite IH. destruct (is_written r i); [|done].
    rewrite set_bit_spec. cbn. destruct (k =? i - s)%nat, (getbit acc k); done. }
  rewrite E. cbn [getbit]. unfold getbit. rewrite lookup_nil. cbn [orb]. destruct (is_written r (s + k)) eqn:Ew.
  - apply existsb_exists. exists (s + k)%nat. split; [|rewrite Ew; cbn; apply Nat.eqb_eq; lia]. apply in_seq.
    assert ((s + k) / 64 < length (written r))%nat as Hl.
    { unfold is_written in Ew. destruct (written r !! ((s + k) / 64)%nat) eqn:El; [|done]. by apply lookup_lt_Some in El. }
    destruct (nat_word (s + k)). lia.
  - apply not_true_iff_false. intros (i & Hi & Hb)%existsb_exists. apply in_seq in Hi. apply andb_true_iff in Hb as [Hb1 Hb2%Nat.eqb_eq].
    replace i with (s + k)%nat in Hb1 by lia. congruence.
Qed.

Lemma head_written_spec w s k : (k < s)%nat -> getbit (head_written w s) k = getbit w k.
Proof.
  intros Hk. unfold head_written. destruct (Nat.ltb_spec (s / 64) (length w)) as [Hs|]; [|done]. destruct (nat_word s) as [E1 E2], (nat_word k) as [E3 E4].
  assert (k / 64 <= s / 64)%nat as Hle by lia. destruct (Nat.eqb_spec (s mod 64) 0) as [E0|E0].
  - unfold getbit. rewrite !lookup_take_lt by lia. done.
  - rewrite !getbit_testbit, word_at_alter by (rewrite length_take; lia).
    assert (forall i, (i <= s / 64)%nat -> word_at (take (s / 64 + 1) w) i = word_at w i) as Ht.
    { intros i Hi. unfold word_at. by rewrite lookup_take_lt by lia. }
    case_decide as E; [|by rewrite Ht]. rewrite Ht by lia. rewrite Z.shiftl_mul_pow2, Z.mul_1_l by lia.
    replace (2 ^ Z.of_nat (s mod 64) - 1) with (Z.ones (Z.of_nat (s mod 64))) by (rewrite Z.ones_equiv; lia).
    rewrite Z.land_spec, Z.ones_spec_low by lia. rewrite E. apply andb_true_r.
Qed.

(** ** Splitting a region *)
Lemma eager_frame r i : region_ok r -> lazy r = false -> file_cap r <> U64_MAX -> Z.of_nat i < pages r -> wrap64 (va_of (phys r) i) <> 0.
Proof.
  intros R Hl Hc Hi. destruct (ro_block r R Hl Hc), (pages_ok r R) as [_ Hp]. unfold va_of, wrap64, PAGE_SIZE in *.
  rewrite Z.mod_small; lia.
Qed.

Lemma page_no_ext r r' i j :
  frame_of r i = frame_of r' j -> flags r = flags r' -> prot r = prot r' -> map_flags r = map_flags r' -> file_cap r = file_cap r' ->
  cow r = cow r' -> is_written r i = is_written r' j ->
  (is_file_backed (file_cap r) = true -> wrap64 (file_off r + Z.of_nat i * PAGE_SIZE) = wrap64 (file_off r' + Z.of_nat j * PAGE_SIZE) /\ bytes_of r i = bytes_of r' j) ->
  page_no r i = page_no r' j.
Proof.
  intros H1 H2 H3 H4 H5 H6 H7 H8. unfold page_no. rewrite H1, H2, H3, H4, H5, H6, H7. rewrite H5 in H8.
  destruct (is_file_backed (file_cap r')); [|done]. by destruct (H8 eq_refl) as [-> ->].
Qed.

Lemma to_lazy_spec r : region_ok r -> file_cap r <> U64_MAX ->
  exists r', to_lazy r = Some r' /\ region_ok r' /\ lazy r' = true /\ start r' = start r /\ end_ r' = end_ r /\ file_cap r' = file_cap r
    /\ forall i, Z.of_nat i < pages r -> page_no r' i = page_no r i.
Proof.
  intros R Hc. unfold to_lazy. destruct (lazy r) eqn:El; [by exists r|]. destruct (pages_ok r R) as [Hp Hs].
  assert (0 <= pages r) as Hp0 by (pose proof (ro_range r R); unfold PAGE_SIZE in *; lia).
  set (l := List.map _ _). destruct (from_spec l) as (pv & Epv & W & Hl). rewrite Epv. cbn [mbind option_bind].
  assert (length l = Z.to_nat (pages r)) as Hlen by (unfold l; by rewrite length_map, length_seq).
  assert (forall i, l !! i = if decide (Z.of_nat i < pages r) then Some (wrap64 (va_of (phys r) i)) else None) as Hi.
  { intros i. unfold l. rewrite list_lookup_fmap. case_decide; [by rewrite lookup_seq_lt by lia|by rewrite lookup_seq_ge by lia]. }
  assert (PageVec.len pv = Z.to_nat (pages r)) as Hlv by (rewrite <- length_to_list; by rewrite Hl).
  eexists. split; [done|]. split; [|split_and!; try done].
  - split; cbn; try (apply R || done).
    + intros _ i Hge. rewrite frame_at_list by done. cbn [lazy_pages]. rewrite Hl, Hi, decide_False by lia. done.
    + intros _. rewrite count_present_spec, Hl by done. rewrite <- Hlen. symmetry. apply countb_all, Forall_lookup. intros i x Hx.
      rewrite Hi in Hx. case_decide; [|done]. injection Hx as <-. apply negb_true_iff, Z.eqb_neq. by apply eager_frame.
  - intros i Hlt. apply page_no_ext; try done. unfold frame_of. cbn [lazy lazy_pages]. rewrite El, frame_at_list by done.
    cbn [lazy_pages]. rewrite Hl, Hi, decide_True by done. cbn [default from_option id].
    by rewrite (proj2 (Z.eqb_neq _ _)) by by apply eager_frame.
Qed.

Lemma boundary_idx r b : region_ok r -> (PAGE_SIZE | b) -> start r <= b ->
  b - start r = Z.of_nat (idx_of r b) * PAGE_SIZE /\ forall va, b <= va -> idx_of r va = (idx_of r b + Z.to_nat ((va - b) / PAGE_SIZE))%nat.
Proof.
  intros R Hb Hle. pose proof (idx_va r b R Hb Hle) as E. unfold va_of in E. split; [lia|]. intros va Hva. unfold idx_of at 1.
  replace (va - start r) with (Z.of_nat (idx_of r b) * PAGE_SIZE + (va - b)) by lia. rewrite Z.div_add_l by done.
  assert (0 <= (va - b) / PAGE_SIZE) by (apply Z.div_pos; [lia|done]). lia.
Qed.

Lemma cut_pages s v : PageVec.wf v ->
  exists tl pv, (if (s <? PageVec.len v)%nat then split_off s v else Some (PageVec.new, v)) = Some (tl, pv)
     /\ PageVec.wf tl /\ PageVec.wf pv /\ to_list tl = drop s (to_list v) /\ to_list pv = take s (to_list v).
Proof.
  intros W. destruct (Nat.ltb_spec s (PageVec.len v)) as [Hs|Hs]; [by apply split_off_spec|].
  exists PageVec.new, v. split_and!; [done|apply new_wf|done|..].
  - rewrite drop_ge; [done|]. by rewrite length_to_list.
  - rewrite take_ge; [done|]. by rewrite length_to_list.
Qed.

Lemma idx_start r r' va : start r = start r' -> idx_of r va = idx_of r' va.
Proof. unfold idx_of. by intros ->. Qed.

Lemma halves_spec b r : region_ok r -> lazy r = true -> (PAGE_SIZE | b) -> start r < b < end_ r ->
  exists lo hi, halves b r = Some (lo, hi) /\ region_ok lo /\ region_ok hi /\
    start lo = start r /\ end_ lo = b /\ start hi = b /\ end_ hi = end_ r /\ file_cap lo = file_cap r /\ file_cap hi = file_cap r /\
    lazy lo = true /\ lazy hi = true /\
    (forall va, start r <= va < b -> page_no lo (idx_of lo va) = page_no r (idx_of r va)) /\
    (forall va, b <= va < end_ r -> page_no hi (idx_of hi va) = page_no r (idx_of r va)).
Proof.
  intros R El Hb Hin. destruct (boundary_idx r b R Hb ltac:(lia)) as [Eb Hidx]. set (s := idx_of r b) in *.
  unfold halves. change (Z.to_nat ((b - start r) / PAGE_SIZE)) with s.
  destruct (cut_pages s (lazy_pages r) (ro_pv r R)) as (tl & pv & E & Wt & Wp & Lt & Lp).
  rewrite E. cbn [mbind option_bind]. eexists _, _. split; [done|].
  pose proof (ro_len r R El) as Hlen. pose proof (ro_file r R) as [F1 F2]. pose proof (ro_top r R). pose proof (ro_range r R).
  assert (0 <= Z.of_nat s * PAGE_SIZE) as Hs0 by (unfold PAGE_SIZE; lia).
  assert ((end_ r - start r) / PAGE_SIZE = Z.of_nat s + (end_ r - b) / PAGE_SIZE) as Ediv.
  { replace (end_ r - start r) with (Z.of_nat s * PAGE_SIZE + (end_ r - b)) by lia. by rewrite Z.div_add_l by done. }
  assert (0 <= (end_ r - b) / PAGE_SIZE) by (apply Z.div_pos; [lia|done]).
  split; [|split; [|split_and!; try done]].
  - split; cbn; try (apply R || done || lia).
    + intros _ i Hge. rewrite frame_at_list by done. cbn [lazy_pages]. rewrite Eb, Z.div_mul in Hge by done. rewrite Lp, lookup_take_ge by lia. done.
    + destruct (_ && _) eqn:Ef; [|done]. bool_to_prop. lia.
    + rewrite El. done.
  - split; cbn; try (apply R || done || lia). intros _ i Hge. rewrite frame_at_list by done. cbn [lazy_pages]. rewrite Lt, lookup_drop, <- frame_at_list by apply R.
    apply Hlen. lia.
  - intros va Hva. rewrite (idx_start _ r) by done.
    assert (idx_of r va < s)%nat as Hi.
    { unfold idx_of. apply Nat2Z.inj_lt. rewrite Z2Nat.id by (apply Z.div_pos; [lia|done]). apply Z.div_lt_upper_bound; [done|].
      rewrite Z.mul_comm, <- Eb. lia. }
    apply page_no_ext; try done.
    + unfold frame_of. cbn [lazy]. rewrite El, !frame_at_list by (apply R || done). cbn [lazy_pages]. by rewrite Lp, lookup_take_lt.
    + apply head_written_spec. done.
    + intros Ef. split; [done|]. unfold bytes_of. cbn [file_len file_cap] in *. rewrite Ef. cbn [andb].
      destruct (Z.ltb_spec (Z.of_nat s * PAGE_SIZE) (file_len r)); [|done]. unfold PAGE_SIZE in *. lia.
  - intros va Hva. cbn [start]. rewrite (Hidx va) by lia. set (k := Z.to_nat ((va - b) / PAGE_SIZE)).
    match goal with |- page_no ?q _ = _ => change (idx_of q va) with k end.
    apply page_no_ext; try done.
    + unfold frame_of. cbn [lazy]. rewrite El, !frame_at_list by (apply R || done). cbn [lazy_pages]. by rewrite Lt, lookup_drop.
    + apply tail_written_spec.
    + intros _. cbn [file_off]. split.
      * unfold wrap64. rewrite Zplus_mod_idemp_l. f_equal. lia.
      * unfold bytes_of. cbn [file_len]. unfold PAGE_SIZE in *. lia.
Qed.

(** ** Rounding *)
Lemma page_size_pow : PAGE_SIZE = 2 ^ 12.
Proof. done. Qed.

Lemma page_down_spec x : is_u64 x -> (PAGE_SIZE | page_down x) /\ 0 <= page_down x <= x /\ x < page_down x + PAGE_SIZE.
Proof.
  intros Hx. unfold page_down. rewrite page_size_pow. destruct (Align.align_down_spec x 12 ltac:(lia) Hx) as [H1 H2].
  split; [done|]. split; [|lia]. split; [|lia]. destruct H2 as [q Hq]. unfold is_u64 in Hx. lia.
Qed.

Lemma page_down_aligned x : is_u64 x -> (PAGE_SIZE | x) -> page_down x = x.
Proof.
  intros Hx [q Hq]. destruct (page_down_spec x Hx) as ([d Hd] & H1 & H2). unfold PAGE_SIZE in *. lia.
Qed.

(** ** [split_at] *)

(** The calls a split makes: the unused tail of an eager block goes back, a
    file gets a second reference. *)
Definition split_calls (b : Z) (rs : list (option VmaRegion)) : list call :=
  match position (straddles b) rs with
  | Some idx =>
      match mjoin (rs !! idx) with
      | Some r =>
          if file_cap r =? U64_MAX then []
          else (if lazy r then [] else block_calls (eager_tail (phys r) (pages r))) ++
               (if is_file_backed (file_cap r) then [FileRetain (file_cap r)] else [])
      | None => []
      end
  | None => []
  end.

(** [r'] is [r] or a part of it. *)
Definition part_of (r' r : VmaRegion) : Prop := start r <= start r' /\ end_ r' <= end_ r /\ file_cap r' = file_cap r.

Definition splits (b : Z) (r : VmaRegion) : bool := (start r <? b) && (b <? end_ r) && negb (file_cap r =? U64_MAX).

Lemma live_elem r rs : r ∈ live rs <-> Some r ∈ rs.
Proof. unfold live. rewrite list_elem_of_omap. split; [intros (o & H & E); cbn in E; by subst|intros H; by exists (Some r)]. Qed.

Lemma position_straddles b rs : pairwise (live rs) ->
  match position (straddles b) rs with
  | Some idx => exists r rest, rs !! idx = Some (Some r) /\ start r < b < end_ r /\ live rs ≡ₚ r :: rest
                  /\ (forall o, live (<[idx := o]> rs) ≡ₚ option_list o ++ rest) /\ Forall (fun q => ~ start q < b < end_ q) rest
  | None => Forall (fun q => ~ start q < b < end_ q) (live rs)
  end.
Proof.
  intros HP. destruct (position (straddles b) rs) as [idx|] eqn:E.
  - apply position_Some in E as (o & Ho & Hs). destruct o as [r|]; [|done]. cbn in Hs. bool_to_prop.
    destruct (live_at rs idx _ Ho) as (rest & H1 & H2). exists r, rest. split_and!; try done; try lia. cbn in H1.
    pose proof (pairwise_perm _ _ H1 HP) as [H3 _]. eapply Forall_impl; [exact H3|]. unfold apart. cbn. lia.
  - apply position_None in E. apply Forall_forall. intros r Hr%live_elem. rewrite Forall_forall in E. specialize (E _ Hr). cbn in E.
    apply andb_false_iff in E. rewrite !Z.ltb_ge in E. lia.
Qed.

Lemma apart_part r r' q : part_of r' r -> apart r q -> apart r' q.
Proof. unfold part_of, apart. lia. Qed.

Lemma split_region b r : region_ok r -> file_cap r <> U64_MAX -> (PAGE_SIZE | b) -> start r < b < end_ r ->
  exists r1 lo hi, to_lazy r = Some r1 /\ halves b r1 = Some (lo, hi) /\ file_cap r1 = file_cap r /\ region_ok lo /\ region_ok hi /\
    start lo = start r /\ end_ lo = b /\ start hi = b /\ end_ hi = end_ r /\ file_cap lo = file_cap r /\ file_cap hi = file_cap r /\
    forall va, covers va r = true -> (if va <? b then page_no lo (idx_of lo va) else page_no hi (idx_of hi va)) = page_no r (idx_of r va).
Proof.
  intros R Ec Hd Hin. destruct (to_lazy_spec r R Ec) as (r1 & E1 & R1 & L1 & S1 & N1 & C1 & P1).
  destruct (halves_spec b r1 R1 L1 Hd ltac:(lia)) as (lo & hi & E2 & Rlo & Rhi & A1 & A2 & A3 & A4 & A5 & A6 & _ & _ & A7 & A8).
  exists r1, lo, hi. split_and!; try done; try congruence. intros va Hc. rewrite <- P1 by by apply idx_bound.
  rewrite <- (idx_start r1 r va S1). apply covers_spec in Hc. destruct (Z.ltb_spec va b); [apply A7|apply A8]; lia.
Qed.

(** Replacing a region by two adjacent parts with the same pages. *)
Lemma view_split b r lo hi rest va :
  start lo = start r -> end_ lo = b -> start hi = b -> end_ hi = end_ r -> start r < b < end_ r ->
  (covers va r = true -> (if va <? b then page_no lo (idx_of lo va) else page_no hi (idx_of hi va)) = page_no r (idx_of r va)) ->
  view (lo :: hi :: rest) va = view (r :: rest) va.
Proof.
  intros A1 A2 A3 A4 Hin HP. rewrite !view_cons. unfold covers in *. rewrite A1, A2, A3, A4.
  destruct (Z.leb_spec (start r) va), (Z.ltb_spec va b), (Z.leb_spec b va), (Z.ltb_spec va (end_ r)); cbn in *; try lia; rewrite ?HP; done.
Qed.

Section split.
Context {T : Type} `{PageTable T}.
Implicit Types (w : world T).

Record split_result (b : Z) (a : AddressSpace) (w : world T) (a' : AddressSpace) (w' : world T) : Prop := {
  sr_ok : space_ok (live (regions a'));
  sr_view : forall va, view (live (regions a')) va = view (live (regions a)) va;
  sr_as : a' = set_regions (regions a') a;
  sr_world : w' = emit (split_calls b (regions a)) w;
  sr_cut : Forall (fun q => file_cap q = U64_MAX \/ ~ start q < b < end_ q) (live (regions a'));
  sr_part : Forall (fun q => exists r, r ∈ live (regions a) /\ part_of q r) (live (regions a')) }.

Lemma emit_nil w : emit [] w = w.
Proof. unfold emit. rewrite app_nil_r. by destruct w. Qed.

Lemma emit_app es es' w : emit (es ++ es') w = emit es' (emit es w).
Proof. unfold emit. cbn. by rewrite app_assoc. Qed.

Lemma part_refl l : Forall (fun q => exists r, r ∈ l /\ part_of q r) l.
Proof. apply Forall_forall. intros q Hq. exists q. split; [done|]. by split_and!. Qed.

Lemma split_at_spec b a w : space_ok (live (regions a)) -> is_u64 b -> (PAGE_SIZE | b) ->
  exists a' w', split_at b a w = Some (existsb (splits b) (live (regions a)), a', w') /\ split_result b a w a' w'.
Proof.
  intros [HR HP] Hb Hd. unfold split_at. rewrite (page_down_aligned b Hb Hd). pose proof (position_straddles b (regions a) HP) as Hpos.
  assert (forall l, Forall (fun q => file_cap q = U64_MAX \/ ~ start q < b < end_ q) l -> existsb (splits b) l = false) as Hno.
  { intros l Hl. apply not_true_iff_false. intros (q & Hq & E)%existsb_exists. unfold splits in E. bool_to_prop.
    rewrite Forall_forall in Hl. apply list_elem_of_In, Hl in Hq. lia. }
  assert (Forall (fun q => file_cap q = U64_MAX \/ ~ start q < b < end_ q) (live (regions a)) -> split_calls b (regions a) = [] ->
          exists a' w', Some (false, a, w) = Some (existsb (splits b) (live (regions a)), a', w') /\ split_result b a w a' w') as Hid.
  { intros Hl Hc. exists a, w. rewrite (Hno _ Hl). split; [done|]. split; [done|done|by destruct a|by rewrite Hc, emit_nil|done|apply part_refl]. }
  unfold split_calls in Hid. destruct (position (straddles b) (regions a)) as [idx|] eqn:Epos.
  2: { apply Hid; [|done]. eapply Forall_impl; [exact Hpos|]. cbn. tauto. }
  destruct Hpos as (r & rest & Hr & Hin & Hl & Hins & Hrest). rewrite Hr in Hid |- *.
  cbn [mjoin option_join mbind option_bind] in Hid |- *.
  rewrite Hl in HR. apply Forall_cons in HR as [Rr HR]. pose proof (pairwise_perm _ _ Hl HP) as [Hap HPr].
  destruct (Z.eqb_spec (file_cap r) U64_MAX) as [Ec|Ec].
  { apply Hid; [|done]. rewrite Hl. constructor; [by left|]. eapply Forall_impl; [exact Hrest|]. cbn. tauto. }
  destruct (split_region b r Rr Ec Hd Hin) as (r1 & lo & hi & -> & E2 & C1 & Rlo & Rhi & A1 & A2 & A3 & A4 & A5 & A6 & A7).
  cbn [mbind option_bind]. rewrite E2. cbn [mbind option_bind].
  destruct (slot_for (<[idx := Some lo]> (regions a))) as [slot rs'] eqn:Es. apply slot_for_spec in Es as [_ Es].
  assert (live (<[slot := Some hi]> rs') ≡ₚ lo :: hi :: rest) as Hl'.
  { rewrite Es, Hins. cbn. apply Permutation_swap. }
  eexists _, _. split; [f_equal; f_equal; f_equal; symmetry; apply existsb_exists|].
  { exists r. split; [|unfold splits; rewrite !andb_true_iff, negb_true_iff, Z.eqb_neq, !Z.ltb_lt; lia].
    apply list_elem_of_In. rewrite Hl. left. }
  assert (part_of lo r) as Plo by (unfold part_of; rewrite A1, A2, A5; split_and!; lia || congruence).
  assert (part_of hi r) as Phi by (unfold part_of; rewrite A3, A4, A6; split_and!; lia || congruence).
  assert (pairwise (lo :: hi :: rest)) as HP'.
  { cbn. rewrite Forall_cons. split; [split|split; [|done]]; [unfold apart; lia|..]; (eapply Forall_impl; [exact Hap|intros q; by apply apart_part]). }
  assert (space_ok (lo :: hi :: rest)) as HS by (split; [by apply Forall_cons; split; [|apply Forall_cons]|done]).
  split; cbn [regions set_regions].
  - eapply space_ok_perm; [symmetry; exact Hl'|done].
  - intros va. rewrite (view_perm _ _ va Hl') by (eapply pairwise_perm; [symmetry; exact Hl'|done]).
    rewrite (view_perm _ _ va Hl HP). apply (view_split b); try done. apply A7.
  - done.
  - unfold split_calls. rewrite Epos, Hr. cbn [mjoin option_join]. rewrite (proj2 (Z.eqb_neq _ _) Ec), C1, emit_app. destruct (lazy r), (is_file_backed (file_cap r)); cbn [app]; by rewrite ?emit_nil.
  - rewrite Hl', !Forall_cons. split; [right; lia|]. split; [right; lia|]. eapply Forall_impl; [exact Hrest|]. cbn. tauto.
  - rewrite Hl', !Forall_cons. split_and!.
    + exists r. rewrite Hl. split; [left|done].
    + exists r. rewrite Hl. split; [left|done].
    + apply Forall_forall. intros q Hq. exists q. rewrite Hl. split; [by right|]. by split_and!.
Qed.

End split.

Lemma page_down_idem b : is_u64 b -> page_down (page_down b) = page_down b.
Proof.
  intros Hb. destruct (page_down_spec b Hb) as (H1 & H2 & _). apply page_down_aligned; [|done]. unfold is_u64 in *. lia.
Qed.

Lemma no_stale_view {T} `{PageTable T} l l' (t : T) rf : (forall va, view l' va = view l va) -> no_stale l t rf -> no_stale l' t rf.
Proof. intros Hv Hs va p f Hp. rewrite Hv. by apply Hs. Qed.

(** [split_at] changes nothing a program can see.  It never panics; every
    address keeps its frame, protection, file position and extent, copy-on-write
    state and written bit, and no page-table entry or reference count is touched.
    It reports a split exactly when a region that is not a device mapping
    contains the boundary strictly, after which none does; the only calls are the
    return of the unused tail of an eager block and one more reference on the
    file. *)
Theorem split_at_view {T} `{PageTable T} b a (w : world T) :
  vm_ok a w -> is_u64 b ->
  exists a' w', split_at b a w = Some (existsb (splits (page_down b)) (live (regions a)), a', w') /\ vm_ok a' w'
    /\ (forall va, view (live (regions a')) va = view (live (regions a)) va)
    /\ existsb (splits (page_down b)) (live (regions a')) = false
    /\ pt w' = pt w /\ page_refs w' = page_refs w /\ log w' = log w ++ split_calls (page_down b) (regions a)
    /\ a' = set_regions (regions a') a.
Proof.
  intros (HS & HN & HR) Hb. destruct (page_down_spec b Hb) as (Hd & H1 & _).
  assert (is_u64 (page_down b)) as Hb' by (unfold is_u64 in *; lia).
  destruct (split_at_spec (page_down b) a w HS Hb' Hd) as (a' & w' & E & [S1 S2 S3 S4 S5 S6]).
  assert (split_at b a w = split_at (page_down b) a w) as -> by (unfold split_at; by rewrite page_down_idem).
  exists a', w'. split; [done|]. rewrite S4. split; [split; [done|split; [by eapply no_stale_view|done]]|]. split; [done|]. split; [|done].
  apply not_true_iff_false. intros (q & Hq & Eq)%existsb_exists. unfold splits in Eq. bool_to_prop.
  rewrite Forall_forall in S5. apply list_elem_of_In, S5 in Hq. lia.
Qed.

(** A page table that never runs out of memory, and a small address space. *)
#[export, program] Instance gmap_page_table : PageTable (gmap Z (Z * Z)) := {|
  map_page v p f t := (true, <[v := (p, f)]> t);
  unmap_page v t := delete v t;
  pte t v := t !! v |}.
Next Obligation.
  intros v p f t t' [= <-] a. case_decide as E; [subst; by rewrite lookup_insert_eq|by rewrite lookup_insert_ne].
Qed.
Next Obligation. done. Qed.
Next Obligation. done. Qed.
Next Obligation. intros v t a. case_decide as E; [subst; by rewrite lookup_delete_eq|by rewrite lookup_delete_ne]. Qed.

Definition demo_pages : PageVec := default PageVec.new (PageVec.from [20480; 0; 28672]).
Definition demo_region : VmaRegion := mkVma 65536 81920 0 7 true demo_pages 2 3 2 9 8192 10240 false [4].
Definition demo_space : AddressSpace := mkAs [None; Some demo_region] 0 0 0 0 0.
Definition demo_world : world (gmap Z (Z * Z)) := mkWorld (<[65536 := (20480, 5)]> (<[73728 := (28672, 7)]> ∅)) ∅ 0 [].

Lemma demo_space_ok : vm_ok demo_space demo_world.
Proof.
  assert (PageVec.wf demo_pages /\ to_list demo_pages = [20480; 0; 28672]) as [W L].
  { unfold demo_pages. destruct (from_spec [20480; 0; 28672]) as (v & -> & W & L). done. }
  split; [|split].
  - split; [|done]. constructor; [|done]. split; cbn [demo_region start end_ lazy_pages lazy lazy_count file_len file_cap phys]; try done.
    + by exists 16.
    + by exists 20.
    + intros _ i Hge. change ((81920 - 65536) / PAGE_SIZE) with 4 in Hge. rewrite frame_at_list by done. cbn [demo_region lazy_pages].
      rewrite L, lookup_ge_None_2; [done|]. cbn. lia.
  - intros va p f Hp. cbn in Hp. apply lookup_insert_Some in Hp as [[<- [= <- <-]]|[_ Hp]]; [split; [by exists 16|by eexists]|].
    apply lookup_insert_Some in Hp as [[<- [= <- <-]]|[_ Hp]]; [split; [by exists 18|by eexists]|]. by rewrite lookup_empty in Hp.
  - apply map_Forall_empty.
Qed.

Lemma split_at_view_witness :
  exists a' w', split_at 74000 demo_space demo_world = Some (true, a', w') /\ log w' = [FileRetain 9]
    /\ view (live (regions a')) 73728 = Some (mkPage (Some 28672) 7 3 2 9 16384 2048 false true) /\ length (live (regions a')) = 2%nat.
Proof.
  destruct (split_at_view 74000 demo_space demo_world demo_space_ok ltac:(unfold is_u64; lia)) as (a' & w' & E & _ & V & _ & _ & _ & L & _).
  exists a', w'. split; [exact E|]. split; [rewrite L; vm_compute; reflexivity|]. split; [rewrite V; vm_compute; reflexivity|].
  assert (option_map (fun '(_, a, _) => length (live (regions a))) (split_at 74000 demo_space demo_world) = Some 2%nat) as Hn
    by (vm_compute; reflexivity).
  rewrite E in Hn. by injection Hn.
Defined.
