(* ===== verification/VmmMap.v ===== *)
(** * Address spaces: the mapping calls

    Proofs about [map], [map_device], [map_lazy], [map_shared_frames] and the
    file mappings of [Vmm]: each adds exactly the requested pages to the view or
    changes nothing, a half-installed range is rolled back, and the invariant of
    [VmmView] is kept. *)
From S2P Require Import Prelude KLib PageSites PageRef PageVec Vmm VmmView.
#[local] Open Scope Z_scope.

(** ** Sizes *)
Definition fits (size : Z) : Prop := 0 < size /\ size + PAGE_SIZE <= 2 ^ 64.

Lemma pages_of_spec size : fits size -> 0 < pages_of size /\ size <= pages_of size * PAGE_SIZE < size + PAGE_SIZE.
Proof.
  intros [H1 H2]. unfold pages_of, wrap64. rewrite Z.mod_small by (unfold PAGE_SIZE in *; lia).
  pose proof (Z.div_mod (size + PAGE_SIZE - 1) PAGE_SIZE). pose proof (Z.mod_pos_bound (size + PAGE_SIZE - 1) PAGE_SIZE).
  unfold PAGE_SIZE in *. lia.
Qed.

Lemma page_up_spec size : fits size -> page_up size = pages_of size * PAGE_SIZE.
Proof.
  intros Hf. pose proof (pages_of_spec size Hf) as [_ Hp]. destruct Hf as [H1 H2]. unfold page_up. rewrite page_size_pow in *.
  destruct (Align.align_up_spec size 12 ltac:(lia) ltac:(lia) H2) as [H3 [q Hq]]. lia.
Qed.

(** ** The page table *)
Section table.
Context {T : Type} `{PageTable T}.
Implicit Types (t : T) (w : world T).

Lemma va_of_inj v i j : va_of v i = va_of v j -> i = j.
Proof. unfold va_of, PAGE_SIZE. lia. Qed.

Lemma unmap_pages_pte v ks t a :
  pte (unmap_pages v ks t) a = if decide (a ∈ va_of v <$> ks) then None else pte t a.
Proof.
  unfold unmap_pages. revert t. induction ks as [|i ks IH]; intros t; [done|]. cbn [foldl]. rewrite IH, pte_unmap.
  cbn [fmap list_fmap]. destruct (decide (a ∈ va_of v <$> ks)); destruct (decide (a = va_of v i)); case_decide as D; set_solver.
Qed.

Lemma map_pages_pte frame v fl ks t : NoDup ks ->
  let '(fail, t') := map_pages frame v fl ks t in
  exists done_, (forall a, pte t' a = if decide (a ∈ va_of v <$> done_) then (fun i => (frame i, fl)) <$> List.find (fun i => va_of v i =? a) done_ else pte t a)
    /\ match fail with None => done_ = ks | Some i => exists rest, ks = done_ ++ i :: rest end.
Proof.
  revert t. induction ks as [|i ks IH]; intros t HN; cbn [map_pages]; [exists []; done|].
  destruct (map_page (va_of v i) (frame i) fl t) as [ok t1] eqn:E. apply NoDup_cons in HN as [Hni HN]. destruct ok.
  - specialize (IH t1 HN). destruct (map_pages frame v fl ks t1) as [fail t']. destruct IH as (d & Hd & Hf).
    assert (i ∉ d) as Hid. { destruct fail as [k|]; [destruct Hf as [rest ->]; set_solver|by subst]. }
    exists (i :: d). split; [|destruct fail as [k|]; [destruct Hf as [rest ->]; by exists rest|by subst]].
    intros a. rewrite Hd, (pte_map _ _ _ _ _ E). cbn [fmap list_fmap List.find].
    destruct (Z.eqb_spec (va_of v i) a) as [<-|Hne].
    + rewrite (decide_True (P := va_of v i ∈ _ :: _)) by left. rewrite decide_False; [by rewrite decide_True|].
      intros (j & Hj & Hin)%list_elem_of_fmap. apply va_of_inj in Hj as ->. done.
    + destruct (decide (a ∈ va_of v <$> d)) as [D|D]; [by rewrite decide_True by by right|].
      rewrite (decide_False (P := a = va_of v i)) by done. rewrite decide_False; [done|]. intros [->|]%elem_of_cons; done.
  - exists []. split; [|by exists ks]. intros a. by rewrite (pte_map_fail _ _ _ _ _ E).
Qed.

(** Installing a range that has no entry yet maps all of it or changes nothing. *)
Lemma install_spec frame v fl n w :
  (forall i, (i < n)%nat -> pte (pt w) (va_of v i) = None) ->
  exists ok t', install frame v fl n w = (ok, set_pt t' w) /\
    forall a, pte t' a = if ok then (if decide (a ∈ va_of v <$> seq 0 n) then (fun i => (frame i, fl)) <$> List.find (fun i => va_of v i =? a) (seq 0 n) else pte (pt w) a)
                         else pte (pt w) a.
Proof.
  intros Hnone. unfold install. pose proof (map_pages_pte frame v fl (seq 0 n) (pt w) (NoDup_seq 0 n)) as HM.
  destruct (map_pages frame v fl (seq 0 n) (pt w)) as [[i|] t]; destruct HM as (d & Hd & Hf).
  - exists false. eexists. split; [done|]. intros a. rewrite unmap_pages_pte. destruct Hf as [rest Hf].
    assert (d = seq 0 i) as ->.
    { pose proof (f_equal (fun l => l !! length d) Hf) as Hi. cbn in Hi. rewrite lookup_app_r, Nat.sub_diag in Hi by done.
      apply lookup_seq in Hi as [Hi Hlt]. cbn in Hi. replace n with (length d + (n - length d))%nat in Hf by lia.
      rewrite seq_app in Hf. apply app_inj_1 in Hf as [Hf _]; [|by rewrite length_seq]. subst i. done. }
    case_decide as D; [|by rewrite Hd, decide_False]. symmetry. apply list_elem_of_fmap in D as (j & -> & Hj%elem_of_seq).
    apply Hnone. assert (i ∈ seq 0 n) as Hi by (rewrite Hf; set_solver). apply elem_of_seq in Hi. lia.
  - exists true, t. split; [done|]. subst d. done.
Qed.

End table.

(** ** Adding a region *)
Definition range_free (l : list VmaRegion) (v e : Z) : bool := negb (existsb (overlaps v e) l).

Lemma range_free_spec l v e : range_free l v e = true <-> Forall (fun q => end_ q <= v \/ e <= start q) l.
Proof.
  unfold range_free. rewrite negb_true_iff, <- not_true_iff_false, existsb_exists, Forall_forall. setoid_rewrite list_elem_of_In. split.
  - intros Hn q Hq. destruct (overlaps v e q) eqn:E; [destruct Hn; by exists q|]. unfold overlaps in E. apply andb_false_iff in E. rewrite !Z.ltb_ge in E. lia.
  - intros Hl (q & Hq & E). specialize (Hl q Hq). unfold overlaps in E. bool_to_prop. rewrite ?Z.ltb_lt in *. lia.
Qed.

Lemma free_view l v e va : range_free l v e = true -> v <= va < e -> view l va = None.
Proof.
  intros Hf%range_free_spec Hva. unfold view. destruct (List.find (covers va) l) as [q|] eqn:E; [|done].
  apply find_some in E as [Hq Hc%covers_spec]. rewrite Forall_forall in Hf. apply list_elem_of_In, Hf in Hq. lia.
Qed.

Section add.
Context {T : Type} `{PageTable T}.
Implicit Types (t : T) (w : world T).

Lemma free_pte a w v e va : vm_ok a w -> range_free (live (regions a)) v e = true -> v <= va < e -> pte (pt w) va = None.
Proof.
  intros (_ & HN & _) Hf Hva. destruct (pte (pt w) va) as [[p f]|] eqn:E; [|done]. destruct (HN _ _ _ E) as (_ & pg & Hv & _).
  by rewrite (free_view _ v e) in Hv.
Qed.

Lemma add_region a w slot rs r t' w' :
  vm_ok a w -> slot_for (regions a) = (slot, rs) -> region_ok r -> range_free (live (regions a)) (start r) (end_ r) = true ->
  pt w' = t' -> page_refs w' = page_refs w ->
  (forall va p f, pte t' va = Some (p, f) -> pte (pt w) va = Some (p, f) \/
     (PAGE_SIZE | va) /\ covers va r = true /\ frame_of r (idx_of r va) = Some p /\
     (contains f WRITABLE = true -> may_write (page_refs w) (page_no r (idx_of r va)) p = true)) ->
  let a' := set_regions (<[slot := Some r]> rs) (set_regions rs a) in
  vm_ok a' w' /\ forall va, view (live (regions a')) va = if covers va r then Some (page_no r (idx_of r va)) else view (live (regions a)) va.
Proof.
  intros (HS & HN & HR) Hslot Rr Hf Ht Hrf Hpte a'. apply slot_for_spec in Hslot as [_ Hl]. specialize (Hl r).
  assert (Forall (apart r) (live (regions a))) as Hap.
  { apply range_free_spec in Hf. eapply Forall_impl; [exact Hf|]. unfold apart. cbn. lia. }
  assert (space_ok (r :: live (regions a))) as HS' by by apply space_ok_cons.
  assert (forall va, view (live (regions a')) va = if covers va r then Some (page_no r (idx_of r va)) else view (live (regions a)) va) as Hv.
  { intros va. rewrite <- view_cons. apply view_perm; [done|]. eapply pairwise_perm; [symmetry; exact Hl|apply HS']. }
  split; [|done]. split; [eapply space_ok_perm; [symmetry; exact Hl|done]|]. rewrite Ht, Hrf. split; [|done].
  intros va p f Hp. rewrite Hv. apply Hpte in Hp as [Hp|(Hd & Hc & Hfr & Hw)].
  - apply HN in Hp as (Hd & pg & Hpg & Hx). split; [done|]. exists pg. destruct (covers va r) eqn:Ec; [|done].
    by rewrite (view_apart r _ va Hap Ec) in Hpg.
  - split; [done|]. exists (page_no r (idx_of r va)). by rewrite Hc.
Qed.

Lemma vm_ok_grown a w slot rs w' : vm_ok a w -> slot_for (regions a) = (slot, rs) ->
  (forall va, pte (pt w') va = pte (pt w) va) -> page_refs w' = page_refs w ->
  vm_ok (set_regions rs a) w' /\ live (regions (set_regions rs a)) = live (regions a).
Proof.
  intros (HS & HN & HR) Hslot Ht Hrf. apply slot_for_spec in Hslot as [Hl _].
  unfold vm_ok. cbn [regions set_regions]. rewrite Hl. split; [|done]. split; [done|]. rewrite Hrf. split; [|done]. intros va p f Hp. rewrite Ht in Hp. by apply HN.
Qed.

(** What [place] decides. *)
Lemma place_spec virt n rs : 
  place virt n rs = if virt + n * PAGE_SIZE <? 2 ^ 64
                    then if range_free (live rs) virt (virt + n * PAGE_SIZE) then Ok (virt, virt + n * PAGE_SIZE) else Err FAIL_VMA_OVERLAP
                    else Err FAIL_VA_OVERFLOW.
Proof. unfold place, checked_add, range_free. destruct (_ <? _); [|done]. by destruct (existsb _ _). Qed.

Lemma slot_live a slot rs : slot_for (regions a) = (slot, rs) -> live rs = live (regions a).
Proof. intros E%slot_for_spec. apply E. Qed.

(** A fresh demand-paged region without frames. *)
Lemma fresh_lazy_ok v e fl pr mf cap off len :
  (PAGE_SIZE | v) -> (PAGE_SIZE | e) -> 0 <= v < e -> e < 2 ^ 64 -> 0 <= len /\ len + PAGE_SIZE <= 2 ^ 64 ->
  region_ok (fresh_vma v e 0 fl true PageVec.new 0 pr mf cap off len).
Proof.
  intros. split; cbn; try done; first [apply new_wf|intros _; apply Z.div_pos; [lia|done]].
Qed.

(** Bounds of a rounded request. *)
Lemma request_bounds virt size : is_u64 virt -> fits size -> page_down virt + pages_of size * PAGE_SIZE < 2 ^ 64 ->
  (PAGE_SIZE | page_down virt) /\ (PAGE_SIZE | page_down virt + pages_of size * PAGE_SIZE) /\
  0 <= page_down virt < page_down virt + pages_of size * PAGE_SIZE.
Proof.
  intros Hv Hs He. destruct (page_down_spec virt Hv) as (Hd & H1 & _). destruct (pages_of_spec size Hs) as [H2 _].
  split; [done|]. split; [apply Z.divide_add_r; [done|by exists (pages_of size)]|]. unfold PAGE_SIZE in *. lia.
Qed.

(** The outcome of a call that records region [r] without touching the page table. *)
Definition recorded (r : VmaRegion) (a a' : AddressSpace) (ok : bool) : Prop :=
  ok = (end_ r <? 2 ^ 64) && range_free (live (regions a)) (start r) (end_ r) /\
  forall va, view (live (regions a')) va = if ok && covers va r then Some (page_no r (idx_of r va)) else view (live (regions a)) va.

Lemma record_lazy virt size fl pr mf cap off len a w es :
  vm_ok a w -> is_u64 virt -> fits size -> 0 <= len /\ len + PAGE_SIZE <= 2 ^ 64 ->
  let e := page_down virt + pages_of size * PAGE_SIZE in
  let r := fresh_vma (page_down virt) e 0 fl true PageVec.new 0 pr mf cap off len in
  exists ok a' w', (let '(slot, rs) := slot_for (regions a) in
      match place (page_down virt) (pages_of size) rs with
      | Err c => (false, set_regions rs a, note_fail c w)
      | Ok (_, e) => (true, set_regions (<[slot := Some (fresh_vma (page_down virt) e 0 fl true PageVec.new 0 pr mf cap off len)]> rs) (set_regions rs a), emit es w)
      end) = (ok, a', w') /\ vm_ok a' w' /\ recorded r a a' ok
    /\ pt w' = pt w /\ page_refs w' = page_refs w /\ log w' = log w ++ if ok then es else [].
Proof.
  intros HV Hvirt Hs Hlen e r. destruct (slot_for (regions a)) as [slot rs] eqn:Es. rewrite place_spec, (slot_live _ _ _ Es). fold e.
  unfold recorded. cbn [r fresh_vma end_ start]. destruct (Z.ltb_spec e (2 ^ 64)) as [He|He]; cbn [andb].
  1: destruct (range_free (live (regions a)) (page_down virt) e) eqn:Ef.
  - destruct (request_bounds virt size Hvirt Hs He) as (B1 & B2 & B3).
    assert (region_ok r) as Rr by by apply fresh_lazy_ok.
    destruct (add_region a w slot rs r (pt w) (emit es w) HV Es Rr Ef) as [G1 G2]; [done|done|by left|].
    eexists true, _, _. split; [done|]. split; [exact G1|]. split; [|done]. split; [done|]. intros va. rewrite G2. done.
  - destruct (vm_ok_grown a w slot rs (note_fail FAIL_VMA_OVERLAP w) HV Es) as [G1 G2]; [done|done|].
    eexists false, _, _. split; [done|]. split; [exact G1|]. split; [|by rewrite app_nil_r]. split; [done|]. intros va. by rewrite G2.
  - destruct (vm_ok_grown a w slot rs (note_fail FAIL_VA_OVERFLOW w) HV Es) as [G1 G2]; [done|done|].
    eexists false, _, _. split; [done|]. split; [exact G1|]. split; [|by rewrite app_nil_r]. split; [done|]. intros va. by rewrite G2.
Qed.

Lemma fits_nonzero size : fits size -> (size =? 0) = false.
Proof. intros [H1 _]. apply Z.eqb_neq. lia. Qed.

(** [map_lazy] and the file mappings reserve a range: the call succeeds
    exactly when the rounded range lies below 2^64 and meets no region, and then
    the view gains exactly its pages, absent and with the requested attributes
    (a file page knows its file position and how many of its bytes are the
    file's); otherwise the view is unchanged.  No page-table entry or reference
    count changes, the invariant is kept, and a file is retained exactly on
    success. *)
Theorem map_lazy_spec virt size fl is_shared cap off len mf a w :
  vm_ok a w -> is_u64 virt -> fits size -> is_file_backed cap = true -> 0 <= len /\ len + PAGE_SIZE <= 2 ^ 64 ->
  let v := page_down virt in
  let e := v + pages_of size * PAGE_SIZE in
  (exists ok a' w', map_lazy virt size fl is_shared a w = (ok, a', w') /\ vm_ok a' w'
     /\ recorded (fresh_vma v e 0 fl true PageVec.new 0 (Z.lor PROT_READ PROT_WRITE)
                    (Z.lor MAP_ANONYMOUS (if is_shared then MAP_SHARED else MAP_PRIVATE)) 0 0 0) a a' ok
     /\ pt w' = pt w /\ page_refs w' = page_refs w /\ log w' = log w)
  /\ exists ok a' w', map_lazy_file_with virt size fl cap off len mf a w = (ok, a', w') /\ vm_ok a' w'
     /\ recorded (fresh_vma v e 0 fl true PageVec.new 0 (prot_of fl) mf cap off len) a a' ok
     /\ pt w' = pt w /\ page_refs w' = page_refs w /\ log w' = log w ++ if ok then [FileRetain cap] else [].
Proof.
  intros HV Hvirt Hs Hcap Hlen v e. split.
  - destruct (record_lazy virt size fl (Z.lor PROT_READ PROT_WRITE) (Z.lor MAP_ANONYMOUS (if is_shared then MAP_SHARED else MAP_PRIVATE)) 0 0 0 a w []
       HV Hvirt Hs ltac:(unfold PAGE_SIZE; lia)) as (ok & a' & w' & E & G1 & G2 & G3 & G4 & G5).
    exists ok, a', w'. split; [|split_and!; try done; by destruct ok; rewrite G5, app_nil_r]. unfold map_lazy. rewrite (fits_nonzero size Hs).
    rewrite <- E. destruct (slot_for (regions a)) as [slot rs]. destruct (place _ _ rs) as [[? ?]|c]; [|done]. by rewrite emit_nil.
  - destruct (record_lazy virt size fl (prot_of fl) mf cap off len a w [FileRetain cap] HV Hvirt Hs Hlen) as (ok & a' & w' & E & G).
    exists ok, a', w'. split; [|done]. unfold map_lazy_file_with. by rewrite (fits_nonzero size Hs), Hcap.
Qed.

(** ** Eager mappings *)
Lemma install_region a w slot rs r frame n :
  vm_ok a w -> slot_for (regions a) = (slot, rs) -> region_ok r -> range_free (live (regions a)) (start r) (end_ r) = true ->
  Z.of_nat n = pages r -> (forall i, (i < n)%nat -> frame_of r i = Some (frame i)) -> cow r = false -> is_file_backed (file_cap r) = false ->
  exists ok t', install frame (start r) (flags r) n w = (ok, set_pt t' w) /\
    if ok then
      (forall w', pt w' = t' -> page_refs w' = page_refs w ->
         let a' := set_regions (<[slot := Some r]> rs) (set_regions rs a) in
         vm_ok a' w' /\ forall va, view (live (regions a')) va = if covers va r then Some (page_no r (idx_of r va)) else view (live (regions a)) va)
      /\ forall i, (i < n)%nat -> pte t' (va_of (start r) i) = Some (frame i, flags r)
    else forall va, pte t' va = pte (pt w) va.
Proof.
  intros HV Hslot Rr Hf Hn Hfr Hcow Hcap.
  assert (forall i, (i < n)%nat -> start r <= va_of (start r) i < end_ r) as Hin.
  { intros i Hi. apply covers_spec, covers_va; [done|]. lia. }
  destruct (install_spec frame (start r) (flags r) n w) as (ok & t' & E & Hp).
  { intros i Hi. by apply (free_pte a w (start r) (end_ r)), Hin. }
  exists ok, t'. split; [done|]. destruct ok; [|done].
  assert (forall i, (i < n)%nat -> pte t' (va_of (start r) i) = Some (frame i, flags r)) as Hmapped.
  { intros i Hi. rewrite Hp. rewrite decide_True by (apply list_elem_of_fmap; exists i; split; [done|]; apply elem_of_seq; lia).
    destruct (List.find _ (seq 0 n)) as [j|] eqn:Ej; [by apply find_some in Ej as [_ ->%Z.eqb_eq%va_of_inj]|].
    eapply find_none in Ej; [|apply in_seq; split; [apply Nat.le_0_l|exact Hi]]. by rewrite Z.eqb_refl in Ej. }
  split; [|done]. intros w' Hw Hrf. apply (add_region a w slot rs r t' w'); try done. intros va p f Hva. rewrite Hp in Hva.
  case_decide as D; [|by left]. right. apply list_elem_of_fmap in D as (i & -> & Hi%elem_of_seq).
  assert (pte t' (va_of (start r) i) = Some (p, f)) as Hq by (rewrite Hp, decide_True by (apply list_elem_of_fmap; exists i; split; [done|]; apply elem_of_seq; lia); done).
  rewrite Hmapped in Hq by lia. injection Hq as <- <-. rewrite va_idx. split; [by apply va_aligned|]. split; [apply covers_spec, Hin; lia|].
  split; [apply Hfr; lia|]. intros Hw'. unfold may_write, clean. cbn [page_no p_flags p_cow p_cap]. by rewrite Hw', Hcow, Hcap.
Qed.

Lemma block_region_ok v e ph fl pr mf cap :
  (PAGE_SIZE | v) -> (PAGE_SIZE | e) -> 0 <= v < e -> e < 2 ^ 64 -> 0 < ph -> is_file_backed cap = false ->
  (cap <> U64_MAX -> ph + (e - v) <= 2 ^ 64) ->
  region_ok (fresh_vma v e ph fl false PageVec.new 0 pr mf cap 0 0).
Proof. intros. split; cbn; try done; first [apply new_wf|intros _; split_and!; [lia|done|done]|unfold PAGE_SIZE; lia|intros _ Hc; split; [lia|by apply Hc]|auto]. Qed.

Lemma count_pages v n : 0 <= n -> n * PAGE_SIZE < 2 ^ 64 -> forall ph fl lz pv k pr mf cap off len,
  pages (fresh_vma v (v + n * PAGE_SIZE) ph fl lz pv k pr mf cap off len) = n.
Proof.
  intros Hn Hlt ph fl lz pv k pr mf cap off len. unfold pages, wrap64. cbn [fresh_vma start end_].
  replace (v + n * PAGE_SIZE - v) with (n * PAGE_SIZE) by lia. rewrite Z.mod_small, Z.div_mul by (done || unfold PAGE_SIZE in *; lia). done.
Qed.

(** [map] backs a range with the block the allocator gave.  It can
    succeed only when the rounded range is free and below 2^64 and a block is
    there; then the view gains exactly its pages, page [i] in frame [i] of the
    block, all of them mapped, and the block was zeroed first.  On every failure the view and all page-table entries are
    as before, a half-installed range included, and a block that was taken is
    returned.  The invariant is kept throughout. *)
Theorem map_spec block virt size fl a w :
  vm_ok a w -> is_u64 virt -> fits size ->
  (forall ph, block = Some ph -> 0 < ph /\ ph + pages_of size * PAGE_SIZE <= 2 ^ 64) ->
  let v := page_down virt in
  let n := pages_of size in
  let free := (v + n * PAGE_SIZE <? 2 ^ 64) && range_free (live (regions a)) v (v + n * PAGE_SIZE) in
  exists ok a' w', map block virt size fl a w = (ok, a', w') /\ vm_ok a' w' /\ page_refs w' = page_refs w /\
  match block with
  | Some ph =>
      let r := fresh_vma v (v + n * PAGE_SIZE) ph fl false PageVec.new 0 (Z.lor PROT_READ PROT_WRITE) (Z.lor MAP_ANONYMOUS MAP_PRIVATE) 0 0 0 in
      (ok = true -> free = true
         /\ (forall va, view (live (regions a')) va = if covers va r then Some (page_no r (idx_of r va)) else view (live (regions a)) va)
         /\ (forall i, Z.of_nat i < n -> pte (pt w') (va_of v i) = Some (wrap64 (va_of ph i), fl))
         /\ log w' = log w ++ [Zero ph (n * PAGE_SIZE)])
      /\ (ok = false -> live (regions a') = live (regions a) /\ (forall va, pte (pt w') va = pte (pt w) va)
         /\ log w' = log w ++ if free then [Zero ph (n * PAGE_SIZE); BuddyFree ph (pages_to_order n)] else [])
  | None => ok = false /\ live (regions a') = live (regions a) /\ pt w' = pt w /\ log w' = log w
  end.
Proof.
  intros HV Hvirt Hs Hblock v n free. unfold map. rewrite (fits_nonzero size Hs). destruct (slot_for (regions a)) as [slot rs] eqn:Es.
  rewrite place_spec, (slot_live _ _ _ Es). fold v n.
  assert (forall c, vm_ok (set_regions rs a) (note_fail c w) /\ live (regions (set_regions rs a)) = live (regions a)) as Hfail.
  { intros c. by apply (vm_ok_grown a w slot rs). }
  unfold free. destruct (Z.ltb_spec (v + n * PAGE_SIZE) (2 ^ 64)) as [He|He]; cbn [andb].
  2: { eexists false, _, _. split; [done|]. split; [apply Hfail|]. split; [done|]. destruct (Hfail 0) as [_ Hl]. destruct block; [|done].
       split; [done|]. intros _. by rewrite app_nil_r. }
  destruct (range_free (live (regions a)) v (v + n * PAGE_SIZE)) eqn:Ef.
  2: { eexists false, _, _. split; [done|]. split; [apply Hfail|]. split; [done|]. destruct (Hfail 0) as [_ Hl]. destruct block; [|done].
       split; [done|]. intros _. by rewrite app_nil_r. }
  destruct block as [ph|]; [|eexists false, _, _; split; [done|]; split; [apply Hfail|]; destruct (Hfail 0) as [_ Hl]; done].
  destruct (Hblock ph eq_refl) as [B1 B2]. destruct (request_bounds virt size Hvirt Hs He) as (D1 & D2 & D3). fold v n in D1, D2, D3.
  assert (0 <= n) as Hn0 by (pose proof (pages_of_spec size Hs); lia).
  set (r := fresh_vma v (v + n * PAGE_SIZE) ph fl false PageVec.new 0 (Z.lor PROT_READ PROT_WRITE) (Z.lor MAP_ANONYMOUS MAP_PRIVATE) 0 0 0).
  assert (region_ok r) as Rr by (apply block_region_ok; try done; intros _; unfold n, v in *; lia).
  set (w1 := emit [Zero ph (n * PAGE_SIZE)] w).
  destruct (install_region a w1 slot rs r (fun i => wrap64 (va_of ph i)) (Z.to_nat n)) as (ok & t' & E & HE); try done.
  { unfold r. rewrite count_pages by lia. lia. }
  change (start r) with v in E. change (flags r) with fl in E. rewrite E. destruct ok.
  - destruct HE as [HE1 HE2]. destruct (HE1 (set_pt t' w1) eq_refl eq_refl) as [G1 G2]. eexists true, _, _. split; [done|].
    split; [exact G1|]. split; [done|]. split; [|done]. intros _. split_and!; try done. intros i Hi. apply HE2. lia.
  - eexists false, _, _. split; [done|]. destruct (vm_ok_grown a w slot rs (note_fail FAIL_PTE_INSTALL (emit [BuddyFree ph (pages_to_order n)] (set_pt t' w1))) HV Es) as [G1 G2]; [done|done|].
    split; [exact G1|]. split; [done|]. split; [done|]. intros _. split; [done|]. split; [done|]. cbn. by rewrite <- app_assoc.
Qed.

(** [map_device] publishes exactly the device's pages or changes nothing. *)
Theorem map_device_spec virt ph size fl a w :
  vm_ok a w -> is_u64 virt -> is_u64 ph -> fits size -> page_down ph <> 0 ->
  let v := page_down virt in
  let r := fresh_vma v (v + pages_of size * PAGE_SIZE) (page_down ph) fl false PageVec.new 0 (Z.lor PROT_READ PROT_WRITE) MAP_SHARED U64_MAX 0 0 in
  exists ok a' w', map_device virt ph size fl a w = (ok, a', w') /\ vm_ok a' w' /\ log w' = log w /\
    (forall va, view (live (regions a')) va = if ok && covers va r then Some (page_no r (idx_of r va)) else view (live (regions a)) va) /\
    (ok = false -> forall va, pte (pt w') va = pte (pt w) va).
Proof.
  intros HV Hvirt Hph Hs Hp0 v r. unfold map_device. rewrite (fits_nonzero size Hs). destruct (slot_for (regions a)) as [slot rs] eqn:Es.
  rewrite place_spec, (slot_live _ _ _ Es). fold v. set (n := pages_of size).
  assert (forall c t', (forall va, pte t' va = pte (pt w) va) -> vm_ok (set_regions rs a) (note_fail c (set_pt t' w)) /\ live (regions (set_regions rs a)) = live (regions a)) as Hfail.
  { intros c t' Ht. by apply (vm_ok_grown a w slot rs). }
  destruct (Z.ltb_spec (v + n * PAGE_SIZE) (2 ^ 64)) as [He|He].
  1: destruct (range_free (live (regions a)) v (v + n * PAGE_SIZE)) eqn:Ef.
  2-3: (destruct (Hfail 0 (pt w)) as [_ Hl]; [done|]; eexists false, _, _; split; [done|]; split; [by apply (vm_ok_grown a w slot rs)|];
        split; [done|]; split; [intros va; by rewrite Hl|done]).
  destruct (request_bounds virt size Hvirt Hs He) as (D1 & D2 & D3). destruct (page_down_spec ph Hph) as (_ & P1 & _).
  assert (0 <= n) as Hn0 by (pose proof (pages_of_spec size Hs); lia).
  assert (region_ok r) as Rr by (apply block_region_ok; try done; lia).
  destruct (install_region a w slot rs r (fun i => wrap64 (va_of (page_down ph) i)) (Z.to_nat n)) as (ok & t' & E & HE); try done.
  { unfold r, n. rewrite count_pages by (fold n; lia). fold n. lia. }
  change (start r) with v in E. change (flags r) with fl in E. rewrite E. destruct ok.
  - destruct HE as [HE1 _]. destruct (HE1 (set_pt t' w) eq_refl eq_refl) as [G1 G2]. eexists true, _, _. done.
  - destruct (Hfail FAIL_PTE_INSTALL t' HE) as [G1 G2]. eexists false, _, _. split; [done|]. split; [exact G1|]. split; [done|].
    split; [intros va; by rewrite G2|done].
Qed.

End add.

Lemma map_lazy_spec_witness :
  fits 5000 /\ exists a' w', map_lazy_file_with 90000 5000 5 9 4096 6000 MAP_PRIVATE demo_space demo_world = (true, a', w')
    /\ view (live (regions a')) 90112 = Some (mkPage None 5 1 2 9 8192 1904 false false) /\ view (live (regions a')) 94208 = None.
Proof.
  assert (fits 5000) as Hf by (unfold fits, PAGE_SIZE; lia). split; [done|].
  destruct (map_lazy_spec 90000 5000 5 false 9 4096 6000 MAP_PRIVATE demo_space demo_world demo_space_ok ltac:(unfold is_u64; lia) Hf
    ltac:(reflexivity) ltac:(unfold PAGE_SIZE; lia)) as (_ & ok & a' & w' & E & _ & [R1 R2] & _).
  exists a', w'. assert (ok = true) as -> by (rewrite R1; vm_compute; reflexivity). split; [exact E|].
  split; rewrite R2; vm_compute; reflexivity.
Defined.

Lemma map_spec_witness :
  exists a' w', map (Some 1048576) 131072 8192 7 demo_space demo_world = (true, a', w') /\ pte (pt w') 135168 = Some (1052672, 7)
    /\ log w' = [Zero 1048576 8192].
Proof.
  assert (fits 8192) as Hf by (unfold fits, PAGE_SIZE; lia).
  destruct (map_spec (Some 1048576) 131072 8192 7 demo_space demo_world demo_space_ok ltac:(unfold is_u64; lia) Hf) as (ok & a' & w' & E & _ & _ & G & _).
  { intros ph [= <-]. vm_compute. split; [reflexivity|discriminate]. }
  assert (ok = true) as -> by (change ok with (ok, a', w').1.1; rewrite <- E; vm_compute; reflexivity).
  exists a', w'. split; [exact E|]. destruct (G eq_refl) as (_ & _ & G1 & G2). split; [|rewrite G2; vm_compute; reflexivity].
  exact (G1 1%nat ltac:(vm_compute; reflexivity)).
Defined.
