(* ===== verification/VmmOps.v ===== *)
(** * Address spaces: unmapping and protection

    Proofs about [unmap_range] and [mprotect] of [Vmm] against the view of
    [VmmView].  Both first split the regions at the ends of the range, which
    changes no page, and then treat the regions inside it whole. *)
From S2P Require Import Prelude KLib PageSites PageRef PageVec Vmm VmmView VmmMap.
#[local] Open Scope Z_scope.

(** ** Loops over the slots *)
Lemma for_slots_spec {X} (f : VmaRegion -> X -> option VmaRegion * X) (g : VmaRegion -> option VmaRegion) rs x :
  (forall r x, (f r x).1 = g r) ->
  live (for_slots f rs x).1 = omap g (live rs) /\ (for_slots f rs x).2 = foldl (fun x r => (f r x).2) x (live rs).
Proof.
  intros Hg. revert x. induction rs as [|[r|] rs IH]; intros x; [done| |].
  - change (live (Some r :: rs)) with (r :: live rs). cbn [for_slots foldl]. specialize (Hg r x). destruct (f r x) as [o x1].
    cbn [fst snd] in *. subst o. destruct (IH x1) as [I1 I2]. destruct (for_slots f rs x1) as [rs' x']. cbn [fst snd] in *.
    split; [|done]. change (omap g (r :: live rs)) with (match g r with Some y => y :: omap g (live rs) | None => omap g (live rs) end).
    rewrite <- I1. by destruct (g r).
  - cbn [for_slots]. destruct (IH x) as [I1 I2]. destruct (for_slots f rs x) as [rs' x']. done.
Qed.

Lemma omap_filter (P : VmaRegion -> bool) l : omap (fun r => if P r then None else Some r) l = List.filter (fun r => negb (P r)) l.
Proof. induction l as [|r l IH]; [done|]. cbn. destruct (P r); cbn; by rewrite <- IH. Qed.

Lemma elem_of_filter_list (P : VmaRegion -> bool) l r : r ∈ List.filter P l <-> r ∈ l /\ P r = true.
Proof. by rewrite list_elem_of_In, filter_In, <- list_elem_of_In. Qed.

Lemma space_ok_filter P l : space_ok l -> space_ok (List.filter P l).
Proof.
  intros [H1 H2]. induction l as [|r l IH]; [done|]. apply Forall_cons in H1 as [Hr H1]. destruct H2 as [Ha H2]. specialize (IH H1 H2).
  cbn. destruct (P r); [|done]. apply space_ok_cons. split_and!; [done| |done]. apply Forall_forall. intros q [Hq _]%elem_of_filter_list.
  rewrite Forall_forall in Ha. by apply Ha.
Qed.

Lemma find_unique l va r : pairwise l -> r ∈ l -> covers va r = true -> List.find (covers va) l = Some r.
Proof.
  intros HP Hr Hc. destruct (list_elem_of_split l r Hr) as (l1 & l2 & ->). rewrite (find_perm _ (r :: l1 ++ l2)).
  - cbn. by rewrite Hc.
  - by rewrite Permutation_middle.
  - done.
Qed.

Lemma view_elem l va r : pairwise l -> r ∈ l -> covers va r = true -> view l va = Some (page_no r (idx_of r va)).
Proof. intros H1 H2 H3. unfold view. by rewrite (find_unique l va r). Qed.

Lemma view_inv l va pg : view l va = Some pg -> exists r, r ∈ l /\ covers va r = true /\ pg = page_no r (idx_of r va).
Proof.
  unfold view. destruct (List.find (covers va) l) as [r|] eqn:E; [|done]. intros [= <-]. apply find_some in E as [H1 H2].
  exists r. split; [by apply list_elem_of_In|done].
Qed.

Lemma view_none l va : (forall r, r ∈ l -> covers va r = false) -> view l va = None.
Proof. intros H. destruct (view l va) as [pg|] eqn:E; [|done]. apply view_inv in E as (r & H1 & H2 & _). by rewrite H in H2. Qed.

(** ** Releasing frames *)
Section frames.
Context {T : Type} `{PageTable T}.
Implicit Types (t : T) (w : world T).

Definition is_free (c : call) : bool := match c with BuddyFree _ _ => true | _ => false end.

Lemma free_frames_spec ps w : shared_only (page_refs w) ->
  shared_only (page_refs (free_frames ps w)) /\ pt (free_frames ps w) = pt w /\
  (forall q, PageRef.get q (page_refs (free_frames ps w)) <= PageRef.get q (page_refs w)) /\
  exists frees, log (free_frames ps w) = log w ++ frees /\ Forall (fun c => is_free c = true) frees /\ (ps = [] -> frees = []).
Proof.
  unfold free_frames. revert w. induction ps as [|p ps IH]; intros w HR; cbn [foldl].
  - split_and!; try done. exists []. by rewrite app_nil_r.
  - pose proof (unref_spec p (page_refs w) HR) as (U1 & U2 & U3).
    destruct (IH (free_frame p w)) as (I1 & I2 & I3 & frees & I4 & I5 & _); unfold free_frame in *;
      destruct (unref_or_free p (page_refs w)) as [lastp rf]; cbn [fst snd page_refs pt log] in *; [done|].
    split_and!; [done|done| |].
    + intros q. specialize (I3 q). rewrite U3 in I3. pose proof (get_pos _ p HR). destruct (decide (q = p)); subst; lia.
    + exists ((if lastp then [BuddyFree p 0] else []) ++ frees). split; [by rewrite I4, app_assoc|]. split; [|done].
      apply Forall_app. split; [by destruct lastp; repeat constructor|done].
Qed.

(** Fewer owners take no permission away. *)
Lemma no_stale_refs l t rf rf' : (forall q, PageRef.get q rf' <= PageRef.get q rf) -> no_stale l t rf -> no_stale l t rf'.
Proof.
  intros Hle HN va p f Hp. destruct (HN va p f Hp) as (Hd & pg & H1 & H2 & H3). split; [done|]. exists pg. split_and!; try done.
  intros Hw. specialize (H3 Hw). unfold may_write in *. specialize (Hle p). rewrite !andb_true_iff, !negb_true_iff in *.
  destruct H3 as [[W1 W2] W3]. split_and!; try done. destruct (p_cow pg); cbn in *; [|done]. rewrite Z.ltb_ge in *. lia.
Qed.

End frames.

(** ** Unmapping *)
(** Pages of a region that can have an entry, and what removing it releases. *)
Definition resident_idx (r : VmaRegion) : list nat := if lazy r then (present (lazy_pages r)).*1 else seq 0 (Z.to_nat (pages r)).
Definition resident_vas (r : VmaRegion) : list Z := va_of (start r) <$> resident_idx r.
Definition rel_frames (r : VmaRegion) : list Z := if lazy r then (present (lazy_pages r)).*2 else [].
Definition rel_blocks (r : VmaRegion) : list (Z * nat) :=
  if lazy r || (file_cap r =? U64_MAX) || (phys r =? 0) then [] else [(phys r, pages_to_order (pages r))].
Definition rel_files (r : VmaRegion) : list call := if is_file_backed (file_cap r) then [FileRelease (file_cap r)] else [].
Definition inside (v e : Z) (l : list VmaRegion) : list VmaRegion := List.filter (contained v e) l.
Definition outside (v e : Z) (l : list VmaRegion) : list VmaRegion := List.filter (fun r => negb (contained v e r)) l.

(** A page with an entry is resident. *)
Lemma resident_elem r va p : region_ok r -> (PAGE_SIZE | va) -> covers va r = true -> frame_of r (idx_of r va) = Some p -> va ∈ resident_vas r.
Proof.
  intros R Hd Hc Hf. pose proof (proj1 (covers_spec va r) Hc) as Hr. apply list_elem_of_fmap. exists (idx_of r va).
  split; [apply idx_va; lia || done|]. unfold resident_idx, frame_of in *. destruct (lazy r) eqn:El.
  - destruct (Z.eqb_spec (frame_at r (idx_of r va)) 0) as [|Hne]; [done|]. injection Hf as <-. apply list_elem_of_fmap.
    exists (idx_of r va, frame_at r (idx_of r va)). split; [done|]. apply present_frame; [apply R|done].
  - apply elem_of_seq. pose proof (idx_bound r va R Hc). lia.
Qed.

(** A page that can have an entry lies in its region. *)
Lemma resident_covers r va : region_ok r -> va ∈ resident_vas r -> covers va r = true /\ (PAGE_SIZE | va).
Proof.
  intros R (i & -> & Hi)%list_elem_of_fmap. split; [|by apply va_aligned]. apply covers_va; [done|]. unfold resident_idx in Hi. destruct (lazy r) eqn:El.
  - apply list_elem_of_fmap in Hi as ([j p] & -> & Hin). by eapply present_idx.
  - apply elem_of_seq in Hi. lia.
Qed.

Lemma inside_vas v e l va : space_ok l -> va ∈ concat (List.map resident_vas (inside v e l)) -> v <= va < e.
Proof.
  intros [HR _] (vs & Hvs & Hin)%elem_of_concat. rewrite Forall_forall in HR. apply list_elem_of_fmap in Hin as (r & -> & [Hr Hc]%elem_of_filter_list).
  apply (resident_covers r va (HR r Hr)) in Hvs as [Hcov%covers_spec _]. unfold contained in Hc. rewrite !andb_true_iff, !Z.leb_le in Hc. lia.
Qed.

Section unmap.
Context {T : Type} `{PageTable T}.
Implicit Types (t : T) (w : world T).

Record unmapped (l : list VmaRegion) (x x' : unmapping (T := T)) : Prop := {
  un_pte : forall a, pte (pt (u_w x')) a = if decide (a ∈ concat (List.map resident_vas l)) then None else pte (pt (u_w x)) a;
  un_refs : page_refs (u_w x') = page_refs (u_w x);
  un_rel : released x' = released x ++ concat (List.map rel_frames l);
  un_blocks : released_blocks x' = released_blocks x ++ concat (List.map rel_blocks l);
  un_log : log (u_w x') = log (u_w x) ++ concat (List.map rel_files l);
  un_did : did_unmap x' = did_unmap x || existsb (fun r => negb (length (resident_idx r) =? 0)%nat || negb (lazy r)) l }.

Lemma unmap_one v e r x : contained v e r = true -> unmapped [r] x (unmap_region v e r x).2.
Proof.
  intros Hc. unfold unmap_region. rewrite Hc. cbn [negb snd].
  assert (forall w, (if is_file_backed (file_cap r) then emit [FileRelease (file_cap r)] w else w) = emit (rel_files r) w) as ->.
  { intros w. unfold rel_files. destruct (is_file_backed _); [done|]. by rewrite emit_nil. }
  split; cbn [List.map concat existsb]; rewrite ?app_nil_r, ?orb_false_r; unfold rel_frames, rel_blocks, resident_vas, resident_idx;
    destruct (lazy r); cbn [u_w pt page_refs log released released_blocks did_unmap emit set_pt orb]; rewrite ?app_nil_r, ?orb_false_r; try done.
  - intros a. apply unmap_pages_pte.
  - intros a. apply unmap_pages_pte.
  - by rewrite length_fmap.
  - by rewrite orb_true_r, orb_true_r.
Qed.

Lemma unmap_fold v e l x : unmapped (inside v e l) x (foldl (fun x r => (unmap_region v e r x).2) x l).
Proof.
  revert x. induction l as [|r l IH]; intros x; cbn [foldl inside List.filter].
  - split; cbn; rewrite ?app_nil_r, ?orb_false_r; done.
  - destruct (contained v e r) eqn:Ec.
    + destruct (unmap_one v e r x Ec) as [A1 A2 A3 A4 A5 A6], (IH (unmap_region v e r x).2) as [B1 B2 B3 B4 B5 B6].
      cbn [List.map concat existsb] in *. rewrite ?app_nil_r, ?orb_false_r in *. split; cbn [List.map concat existsb].
      * intros a. rewrite B1, A1. destruct (decide (a ∈ concat (List.map resident_vas (inside v e l)))) as [D|D].
        { rewrite decide_True; [done|]. apply elem_of_app. by right. }
        destruct (decide (a ∈ resident_vas r)) as [D'|D'].
        { rewrite decide_True; [done|]. apply elem_of_app. by left. }
        rewrite decide_False; [done|]. intros [?|?]%elem_of_app; done.
      * by rewrite B2.
      * by rewrite B3, A3, app_assoc.
      * by rewrite B4, A4, app_assoc.
      * by rewrite B5, A5, app_assoc.
      * rewrite B6, A6. by rewrite <- !orb_assoc.
    + unfold unmap_region at 2. rewrite Ec. cbn [negb snd]. apply IH.
Qed.

(** *** Cutting at both ends *)
Record cut (v e : Z) (a a2 : AddressSpace) : Prop := {
  cut_ok : space_ok (live (regions a2));
  cut_view : forall va, view (live (regions a2)) va = view (live (regions a)) va;
  cut_as : a2 = set_regions (regions a2) a;
  cut_in : Forall (fun r => file_cap r = U64_MAX \/ contained v e r = true \/ end_ r <= v \/ e <= start r) (live (regions a2)) }.

Lemma cut_ends v e a w : space_ok (live (regions a)) -> is_u64 v -> is_u64 e -> (PAGE_SIZE | v) -> (PAGE_SIZE | e) -> v <= e ->
  exists b1 b2 a1 w1 a2, split_at v a w = Some (b1, a1, w1) /\
    split_at e a1 w1 = Some (b2, a2, emit (split_calls v (regions a) ++ split_calls e (regions a1)) w) /\ cut v e a a2.
Proof.
  intros HS Hv He Dv De Hle. destruct (split_at_spec v a w HS Hv Dv) as (a1 & w1 & E1 & [A1 A2 A3 A4 A5 A6]).
  destruct (split_at_spec e a1 w1 A1 He De) as (a2 & w2 & E2 & [B1 B2 B3 B4 B5 B6]).
  eexists _, _, a1, w1, a2. split; [exact E1|]. split; [rewrite E2, B4, A4, emit_app; done|]. split; [done| | |].
  - intros va. by rewrite B2.
  - rewrite B3, A3. done.
  - apply Forall_forall. intros r Hr. rewrite Forall_forall in B5, B6, A5. specialize (B5 r Hr). destruct (B6 r Hr) as (q & Hq & P1 & P2 & P3).
    specialize (A5 q Hq). pose proof (proj1 B1) as HR. rewrite Forall_forall in HR. pose proof (ro_range r (HR r Hr)) as Hrr.
    unfold contained. rewrite !andb_true_iff, !Z.leb_le, Z.ltb_lt, P3 in *. lia.
Qed.

(** The view after the inside regions are gone. *)
Lemma outside_view v e l va : space_ok l ->
  Forall (fun r => file_cap r = U64_MAX \/ contained v e r = true \/ end_ r <= v \/ e <= start r) l ->
  if decide (v <= va < e) then view (outside v e l) va = None \/ exists r, r ∈ l /\ covers va r = true /\ file_cap r = U64_MAX /\ view (outside v e l) va = view l va
  else view (outside v e l) va = view l va.
Proof.
  intros [HR HP] HF. destruct (view l va) as [pg|] eqn:E.
  - apply view_inv in E as (r & Hr & Hc & ->). rewrite Forall_forall in HF. specialize (HF r Hr).
    pose proof (proj1 (covers_spec va r) Hc) as Hcr. destruct (contained v e r) eqn:Ec.
    + assert (view (outside v e l) va = None) as Hn.
      { apply view_none. intros q [Hq Hn]%elem_of_filter_list. destruct (covers va q) eqn:Eq; [|done].
        pose proof (find_unique l va r HP Hr Hc) as F1. rewrite (find_unique l va q HP Hq Eq) in F1. injection F1 as ->. by rewrite Ec in Hn. }
      case_decide as Hd; [by left|]. unfold contained in Ec. rewrite !andb_true_iff, !Z.leb_le in Ec. lia.
    + assert (r ∈ outside v e l) as Ho by (apply elem_of_filter_list; by rewrite Ec).
      assert (view (outside v e l) va = Some (page_no r (idx_of r va))) as Hs by (apply view_elem; [by apply space_ok_filter|done|done]).
      case_decide; [|done]. right. exists r. split_and!; try done. destruct HF as [HF|[HF|HF]]; [done|done|lia].
  - assert (view (outside v e l) va = None) as Hn.
    { apply view_none. intros q [Hq _]%elem_of_filter_list. destruct (covers va q) eqn:Eq; [|done]. by rewrite (view_elem l va q HP Hq Eq) in E. }
    case_decide; [by left|done].
Qed.

(** Removing the entries of the inside regions leaves no stale one. *)
Lemma outside_stale v e l t t' rf : space_ok l -> no_stale l t rf ->
  (forall a, pte t' a = if decide (a ∈ concat (List.map resident_vas (inside v e l))) then None else pte t a) -> no_stale (outside v e l) t' rf.
Proof.
  intros HS HN Ht va p f Hp. rewrite Ht in Hp. case_decide as D; [done|]. destruct (HN va p f Hp) as (Hd & pg & Hpg & Hfr & Hw).
  split; [done|]. exists pg. split; [|done]. pose proof Hpg as Hpg'. apply view_inv in Hpg as (r & Hr & Hc & ->). pose proof (proj1 HS) as HR. rewrite Forall_forall in HR.
  destruct (contained v e r) eqn:Ec.
  - destruct D. apply elem_of_concat. exists (resident_vas r). split; [by eapply resident_elem; eauto|].
    apply list_elem_of_fmap. exists r. split; [done|]. by apply elem_of_filter_list.
  - apply view_elem; [by apply space_ok_filter| |done]. apply elem_of_filter_list. by rewrite Ec.
Qed.

Lemma free_frames_refs ps w w' : page_refs w = page_refs w' -> page_refs (free_frames ps w) = foldl (fun rf p => (unref_or_free p rf).2) (page_refs w') ps.
Proof.
  intros <-. unfold free_frames. revert w. induction ps as [|p ps IH]; intros w; [done|]. cbn [foldl]. rewrite IH. unfold free_frame.
  by destruct (unref_or_free p (page_refs w)).
Qed.

Lemma no_resident l : existsb (fun r => negb (length (resident_idx r) =? 0)%nat || negb (lazy r)) l = false ->
  concat (List.map rel_frames l) = [] /\ concat (List.map rel_blocks l) = [].
Proof.
  induction l as [|r l IH]; [done|]. cbn [existsb List.map concat]. intros [[H1 H2]%orb_false_iff H3]%orb_false_iff. destruct (IH H3) as [-> ->].
  rewrite negb_false_iff in *. apply Nat.eqb_eq in H1. unfold rel_frames, rel_blocks, resident_idx in *. rewrite H2 in *. cbn. split; [|done].
  rewrite length_fmap in H1. apply nil_length_inv in H1. by rewrite H1.
Qed.

(** C24: [unmap_range] never panics and keeps the invariant, so no entry of the
    page table leads to a frame the address space gave up.  Pages outside the
    rounded range keep everything, their page-table entries included; inside it
    nothing is left but device mappings that reach over an end of the range.
    Every frame of a removed page loses exactly one owner.  Memory goes back to
    the allocator only after the TLB flush of the whole range: before it are just
    the calls of the two splits and the dropped file references.  A range that
    reaches 2^64 is ignored. *)
Theorem unmap_range_spec virt len a w :
  vm_ok a w -> is_u64 virt -> fits len ->
  let v := page_down virt in
  let n := pages_of len in
  let e := v + n * PAGE_SIZE in
  if e <? 2 ^ 64 then
    exists rs1 a2 a' w' flush frees, unmap_range virt len a w = Some (a', w') /\ vm_ok a' w' /\ cut v e (update_hiwater a) a2
      /\ (forall va, ~ v <= va < e -> view (live (regions a')) va = view (live (regions a)) va /\ pte (pt w') va = pte (pt w) va)
      /\ (forall va, v <= va < e -> view (live (regions a')) va = None \/
            exists r, r ∈ live (regions a') /\ covers va r = true /\ file_cap r = U64_MAX /\ contained v e r = false)
      /\ page_refs w' = foldl (fun rf p => (unref_or_free p rf).2) (page_refs w) (concat (List.map rel_frames (inside v e (live (regions a2)))))
      /\ log w' = log w ++ (split_calls v (regions a) ++ split_calls e rs1) ++ concat (List.map rel_files (inside v e (live (regions a2)))) ++ flush ++ frees
      /\ Forall (fun c => is_free c = true) frees /\ (frees = [] \/ flush = [TlbFlush v n])
  else unmap_range virt len a w = Some (a, w).
Proof.
  intros HV Hvirt Hs v n e. unfold unmap_range. rewrite (fits_nonzero len Hs), (page_up_spec len Hs). fold v n. unfold checked_add. fold e.
  destruct (Z.ltb_spec e (2 ^ 64)) as [He|He]; [|done]. destruct (request_bounds virt len Hvirt Hs He) as (D1 & D2 & D3). fold v n e in D1, D2, D3.
  assert (regions (update_hiwater a) = regions a) as Hreg by (unfold update_hiwater; by destruct (totals a)).
  destruct HV as (HS & HN & HR). assert (is_u64 v /\ is_u64 e) as [Uv Ue] by (unfold is_u64; lia).
  destruct (cut_ends v e (update_hiwater a) w) as (b1 & b2 & a1 & w1 & a2 & -> & E2 & HC); [by rewrite Hreg|done|done|done|done|lia|].
  cbn [mbind option_bind]. rewrite E2. cbn [mbind option_bind]. rewrite Hreg. set (w2 := emit _ w).
  destruct (for_slots_spec (unmap_region v e) (fun r => if contained v e r then None else Some r) (regions a2) (mkU w2 [] [] false)) as [L1 L2].
  { intros r x. unfold unmap_region. by destruct (contained v e r). }
  destruct (for_slots (unmap_region v e) (regions a2) (mkU w2 [] [] false)) as [rs x]. cbn [fst snd] in L1, L2. rewrite omap_filter in L1. fold (outside v e (live (regions a2))) in L1.
  pose proof (unmap_fold v e (live (regions a2)) (mkU w2 [] [] false)) as [U1 U2 U3 U4 U5 U6]. rewrite <- L2 in U1, U2, U3, U4, U5, U6. cbn [u_w released released_blocks did_unmap] in *.
  set (l2 := live (regions a2)) in *. rewrite Z.div_mul by done. rewrite (proj2 (Z.eqb_neq n 0)) by (unfold PAGE_SIZE in *; lia). rewrite andb_true_r.
  set (w3 := if did_unmap x then _ else _).
  assert (pt w3 = pt (u_w x) /\ page_refs w3 = page_refs w /\ exists flush, log w3 = log w2 ++ concat (List.map rel_files (inside v e l2)) ++ flush
     /\ (did_unmap x = true -> flush = [TlbFlush v n])) as (W1 & W2 & flush & W3 & W4).
  { unfold w3. destruct (did_unmap x); split_and!; try done; [|by exists []; rewrite app_nil_r, U5].
    exists [TlbFlush v n]. cbn. by rewrite U5, <- app_assoc. }
  destruct (free_frames_spec (released x) w3) as (F1 & F2 & F3 & frees & F4 & F5 & F6); [by rewrite W2|].
  exists (regions a1), a2, (set_regions rs a2), (emit (block_calls (released_blocks x)) (free_frames (released x) w3)), flush, (frees ++ block_calls (released_blocks x)).
  split; [done|]. destruct HC as [C1 C2 C3 C4]. pose proof C2 as C2'. rewrite Hreg in C2'. fold l2 in C1, C2', C4.
  assert (no_stale l2 (pt w2) (page_refs w)) as HN2 by (by eapply no_stale_view).
  assert (live (regions (set_regions rs a2)) = outside v e l2) as HL by exact L1. rewrite HL.
  split; [|split; [done|split; [|split; [|split; [|split; [|split]]]]]].
  - unfold vm_ok. rewrite HL. cbn [pt page_refs emit]. rewrite F2, W1. split; [by apply space_ok_filter|]. split; [|done].
    eapply no_stale_refs; [exact F3|]. rewrite W2. eapply outside_stale; [done|exact HN2|exact U1].
  - intros va Hva. pose proof (outside_view v e l2 va C1 C4) as Ho. rewrite decide_False in Ho by done. split; [by rewrite Ho, C2'|].
    cbn [pt emit]. rewrite F2, W1, U1. rewrite decide_False; [done|]. intros Hin. by apply (inside_vas v e l2) in Hin.
  - intros va Hva. pose proof (outside_view v e l2 va C1 C4) as Ho. rewrite decide_True in Ho by done. destruct Ho as [Ho|(r & Hr & Hc & Hcap & Ho)]; [by left|right].
    rewrite (view_elem l2 va r (proj2 C1) Hr Hc) in Ho. apply view_inv in Ho as (q & [Hq Hqn]%elem_of_filter_list & Hqc & _).
    pose proof (find_unique l2 va r (proj2 C1) Hr Hc) as F. rewrite (find_unique l2 va q (proj2 C1) Hq Hqc) in F. injection F as ->.
    exists r. split; [by apply elem_of_filter_list|]. split_and!; try done. by apply negb_true_iff.
  - cbn [page_refs emit]. rewrite (free_frames_refs _ w3 w) by done. by rewrite U3.
  - cbn [log emit]. rewrite F4, W3. unfold w2. cbn [log emit]. by rewrite <- !app_assoc.
  - apply Forall_app. split; [done|]. unfold block_calls. apply Forall_map, Forall_forall. by intros [b k].
  - destruct (did_unmap x) eqn:Ed; [right; by apply W4|left]. symmetry in U6. cbn in U6. destruct (no_resident _ U6) as [N1 N2].
    rewrite U3, U4, N1, N2 in *. cbn. rewrite (F6 eq_refl). done.
Qed.

End unmap.

(** ** Protection *)
Lemma contains_cleared f : contains (Z.land f (not64 WRITABLE)) WRITABLE = false.
Proof.
  apply Z.eqb_neq. intros E. apply (f_equal (fun x => Z.testbit x 1)) in E.
  rewrite !Z.land_spec, testbit_not64 in E by lia. cbn in E. by rewrite andb_false_r in E.
Qed.

(** The region's and the page's idea of a clean file page agree. *)
Lemma clean_page r i : region_ok r -> clean_file_page r i = lazy r && clean (page_no r i).
Proof.
  intros R. destruct (ro_file r R) as [F1 F2]. unfold clean_file_page, clean, tracks_written, page_no. cbn [p_cap p_bytes p_written].
  destruct (lazy r), (is_file_backed (file_cap r)); try done. cbn [andb]. f_equal. unfold file_pages, bytes_of, wrap64.
  rewrite Z.mod_small by (unfold PAGE_SIZE in *; lia). apply eq_true_iff_eq. rewrite !Z.ltb_lt.
  pose proof (Z.div_mod (file_len r + PAGE_SIZE - 1) PAGE_SIZE). pose proof (Z.mod_pos_bound (file_len r + PAGE_SIZE - 1) PAGE_SIZE).
  unfold PAGE_SIZE in *. lia.
Qed.

Section protect.
Context {T : Type} `{PageTable T}.
Implicit Types (t : T) (w : world T).

Definition remap_all (ks : list (Z * Z * Z)) t : T := foldl (fun t '(va, p, f) => remap va p f t) t ks.

Lemma remap_other ks t va : va ∉ ks.*1.*1 -> pte (remap_all ks t) va = pte t va.
Proof.
  unfold remap_all. revert t. induction ks as [|[[v p] f] ks IH]; intros t Hn; [done|]. cbn in Hn. apply not_elem_of_cons in Hn as [Hne Hn].
  cbn [foldl]. rewrite IH by done. unfold remap. destruct (map_page v p f t) as [ok t1] eqn:E. cbn. destruct ok.
  - by rewrite (pte_map _ _ _ _ _ E), decide_False.
  - by rewrite (pte_map_fail _ _ _ _ _ E).
Qed.

(** An entry found where something was remapped is one of the new ones. *)
Lemma remap_entry ks t va q : va ∈ ks.*1.*1 -> pte (remap_all ks t) va = Some q -> (va, q.1, q.2) ∈ ks.
Proof.
  revert t. induction ks as [|[[v p] f] ks IH]; intros t Hin Hq; [by apply not_elem_of_nil in Hin|].
  change (remap_all ((v, p, f) :: ks) t) with (remap_all ks (remap v p f t)) in Hq. destruct (decide (va ∈ ks.*1.*1)) as [D|D]; [right; by eapply IH|].
  rewrite remap_other in Hq by done. cbn in Hin. apply elem_of_cons in Hin as [->|Hin]; [|done].
  unfold remap in Hq. destruct (map_page v p f t) as [ok t1] eqn:E. cbn in Hq. destruct ok.
  - rewrite (pte_map _ _ _ _ _ E), decide_True in Hq by done. injection Hq as <-. left.
  - rewrite (pte_map_fail _ _ _ _ _ E) in Hq. pose proof (pte_remap v p f t ltac:(eauto)) as Hok. by rewrite E in Hok.
Qed.

(** What one region's entries look like after [mprotect] set its flags. *)
Definition remap_list (fl : Z) (r : VmaRegion) (rf : refs) : list (Z * Z * Z) :=
  if lazy r then
    List.map (fun '(i, p) => (va_of (start r) i, p, if cow r && (1 <? PageRef.get p rf) then Z.land fl (not64 WRITABLE) else install_flags r i fl))
      (present (lazy_pages r))
  else List.map (fun i => (va_of (start r) i, wrap64 (va_of (phys r) i), fl)) (seq 0 (Z.to_nat (pages r))).

Lemma protect_pages_eq pr fl r w : region_ok r ->
  protect_pages pr fl r w =
    set_pt (if Z.land pr PROT_ACCESS =? 0 then unmap_pages (start r) (resident_idx r) (pt w) else remap_all (remap_list fl r (page_refs w)) (pt w)) w.
Proof.
  intros R. unfold protect_pages, resident_idx, remap_list, remap_all. destruct (Z.land pr PROT_ACCESS =? 0), (lazy r) eqn:El; try done.
  - destruct (ro_eager r R El) as [Hp _]. by rewrite (proj2 (Z.eqb_neq _ _) Hp).
  - f_equal. generalize (pt w). induction (present (lazy_pages r)) as [|[i p] ps IH]; intros t; [done|]. cbn. apply IH.
  - destruct (ro_eager r R El) as [Hp _]. rewrite (proj2 (Z.eqb_neq _ _) Hp). cbn [negb]. f_equal. generalize (pt w).
    induction (seq 0 (Z.to_nat (pages r))) as [|i ks IH]; intros t; [done|]. cbn. apply IH.
Qed.

Lemma remap_list_keys fl r rf : (remap_list fl r rf).*1.*1 = resident_vas r.
Proof.
  unfold remap_list, resident_vas, resident_idx. destruct (lazy r).
  - induction (present (lazy_pages r)) as [|[i p] ps IH]; [done|]. cbn. by f_equal.
  - induction (seq 0 (Z.to_nat (pages r))) as [|i ks IH]; [done|]. cbn. by f_equal.
Qed.

Lemma remap_list_ok fl r rf va p f : region_ok r -> flags r = fl -> (va, p, f) ∈ remap_list fl r rf ->
  frame_of r (idx_of r va) = Some p /\ (contains f WRITABLE = true -> may_write rf (page_no r (idx_of r va)) p = true).
Proof.
  intros R Efl Hin. unfold remap_list in Hin. destruct (lazy r) eqn:El; apply list_elem_of_fmap in Hin.
  - destruct Hin as ([i q] & E & Hin). injection E as -> -> Ef. rewrite va_idx. apply present_frame in Hin as [Hq Hq0]; [|apply R].
    split; [unfold frame_of; rewrite El, Hq; by rewrite (proj2 (Z.eqb_neq _ _) Hq0)|]. intros Hw. unfold may_write. cbn [page_no p_flags p_cow]. rewrite Efl.
    subst f. destruct (cow r && (1 <? PageRef.get q rf)) eqn:Ec; [by rewrite contains_cleared in Hw|]. unfold install_flags in Hw.
    rewrite (clean_page r i R), El in Hw. cbn [andb] in Hw. destruct (contains fl WRITABLE) eqn:Ew; cbn [andb] in Hw; [|congruence].
    destruct (clean (page_no r i)); [by rewrite contains_cleared in Hw|done].
  - destruct Hin as (i & E & Hin). injection E as -> -> Ef. rewrite va_idx. split; [unfold frame_of; by rewrite El|]. intros Hw. subst f.
    destruct (ro_eager r R El) as (_ & Hcap & Hcow). unfold may_write, clean. cbn [page_no p_flags p_cow p_cap]. by rewrite Efl, Hw, Hcow, Hcap.
Qed.

(** *** The pass over the regions *)
Definition protected (pr fl : Z) (r : VmaRegion) : VmaRegion := set_flags fl (set_prot_of pr r).
Definition upd (v e pr fl : Z) (r : VmaRegion) : VmaRegion := if contained v e r then protected pr fl r else r.
Definition reprotect (pr fl : Z) (p : page) : page :=
  mkPage (p_frame p) fl pr (p_map p) (p_cap p) (p_pos p) (p_bytes p) (p_cow p) (p_written p).

Lemma protected_ok pr fl r : region_ok r -> region_ok (protected pr fl r).
Proof. intros []. by split. Qed.

Lemma upd_ok v e pr fl r : region_ok r -> region_ok (upd v e pr fl r).
Proof. unfold upd. destruct (contained v e r); [apply protected_ok|done]. Qed.

Lemma upd_range v e pr fl r : start (upd v e pr fl r) = start r /\ end_ (upd v e pr fl r) = end_ r.
Proof. unfold upd. by destruct (contained v e r). Qed.

Lemma upd_space v e pr fl l : space_ok l -> space_ok (List.map (upd v e pr fl) l).
Proof.
  intros [HR HP]. induction l as [|r l IH]; [done|]. apply Forall_cons in HR as [Hr HR]. destruct HP as [Ha HP].
  apply space_ok_cons. split_and!; [by apply upd_ok| |by apply IH]. apply Forall_map. eapply Forall_impl; [exact Ha|]. intros q Hq. cbn.
  unfold apart in *. destruct (upd_range v e pr fl r) as [-> ->], (upd_range v e pr fl q) as [-> ->]. done.
Qed.

Lemma protect_step pr fl r rest w : space_ok (r :: rest) -> no_stale (r :: rest) (pt w) (page_refs w) ->
  no_stale (protected pr fl r :: rest) (pt (protect_pages pr fl (protected pr fl r) w)) (page_refs w)
  /\ forall va, covers va r = false -> pte (pt (protect_pages pr fl (protected pr fl r) w)) va = pte (pt w) va.
Proof.
  intros [Rr [Hap HS]]%space_ok_cons HN. pose proof (protected_ok pr fl r Rr) as Rr'. set (r' := protected pr fl r) in *.
  rewrite (protect_pages_eq pr fl r' w Rr'). cbn [pt set_pt].
  match goal with |- no_stale _ ?x _ /\ _ => set (t' := x) end.
  assert (forall va, va ∉ resident_vas r' -> pte t' va = pte (pt w) va) as Hother.
  { intros va Hn. unfold t'. destruct (_ =? 0); [by rewrite unmap_pages_pte, decide_False|]. apply remap_other. by rewrite remap_list_keys. }
  split; [|intros va Hc; apply Hother; intros [Hin _]%(resident_covers r' va Rr'); change (covers va r = true) in Hin; congruence].
  intros va p f Hp. destruct (decide (va ∈ resident_vas r')) as [D|D].
  - destruct (resident_covers r' va Rr' D) as [Hc Hd]. split; [done|]. exists (page_no r' (idx_of r' va)). rewrite view_cons, Hc. split; [done|].
    unfold t' in Hp. destruct (_ =? 0).
    + rewrite unmap_pages_pte, decide_True in Hp by exact D. done.
    + apply (remap_list_ok fl r' (page_refs w) va p f); [done|done|]. apply (remap_entry _ (pt w) va (p, f)); [by rewrite remap_list_keys|done].
  - rewrite Hother in Hp by done. destruct (HN va p f Hp) as (Hd & pg & Hv & Hf & Hw). split; [done|]. exists pg. rewrite view_cons in Hv |- *.
    change (covers va r') with (covers va r). destruct (covers va r) eqn:Ec; [|done]. destruct D. injection Hv as <-.
    by apply (resident_elem r' va p Rr' Hd Ec).
Qed.

Lemma protect_fold v e pr fl P l w b : space_ok (P ++ l) -> no_stale (P ++ l) (pt w) (page_refs w) ->
  let x := foldl (fun x r => (protect_region v e pr fl r x).2) (w, b) l in
  no_stale (P ++ List.map (upd v e pr fl) l) (pt x.1) (page_refs w) /\ page_refs x.1 = page_refs w /\ log x.1 = log w /\
  x.2 = b || existsb (contained v e) l /\ forall va, ~ v <= va < e -> pte (pt x.1) va = pte (pt w) va.
Proof.
  revert P w b. induction l as [|r l IH]; intros P w b HS HN; cbv zeta; cbn [foldl List.map existsb]; [by rewrite orb_false_r|].
  assert (space_ok (r :: P ++ l)) as HS1 by (eapply space_ok_perm; [|exact HS]; by rewrite Permutation_middle).
  assert (P ++ r :: l ≡ₚ r :: P ++ l) as HP1 by by rewrite Permutation_middle.
  assert ((protect_region v e pr fl r (w, b)).2 = if contained v e r then (protect_pages pr fl (protected pr fl r) w, true) else (w, b)) as Es
    by (unfold protect_region; by destruct (contained v e r)).
  rewrite Es. unfold upd at 1. destruct (contained v e r) eqn:Ec; cbn [orb].
  - set (r' := protected pr fl r) in *.
    assert (no_stale (r :: P ++ l) (pt w) (page_refs w)) as HN1.
    { eapply no_stale_view; [|exact HN]. intros va. apply view_perm; [done|apply HS1]. }
    destruct (protect_step pr fl r (P ++ l) w HS1 HN1) as [Hst Hpte]. fold r' in Hst, Hpte.
    assert (page_refs (protect_pages pr fl r' w) = page_refs w /\ log (protect_pages pr fl r' w) = log w) as [Er El].
    { rewrite protect_pages_eq; [done|]. apply protected_ok. by apply space_ok_cons in HS1 as [? _]. }
    assert (space_ok (r' :: P ++ l)) as HS2.
    { apply space_ok_cons in HS1 as (R1 & R2 & R3). apply space_ok_cons. split_and!; [by apply protected_ok|done|done]. }
    assert (P ++ r' :: l ≡ₚ r' :: P ++ l) as HP2 by by rewrite Permutation_middle.
    destruct (IH (P ++ [r']) (protect_pages pr fl r' w) true) as (I1 & I2 & I3 & I4 & I5).
    + rewrite <- app_assoc. cbn [app]. eapply space_ok_perm; [symmetry; exact HP2|done].
    + rewrite <- app_assoc, Er. cbn [app]. eapply no_stale_view; [|exact Hst]. intros va. apply view_perm; [done|]. eapply pairwise_perm; [symmetry; exact HP2|apply HS2].
    + rewrite <- app_assoc, Er in I1. cbn [app] in I1. split_and!; [exact I1|by rewrite I2|by rewrite I3|by rewrite I4, orb_true_r|].
      intros va Hva. rewrite (I5 va Hva). apply Hpte. apply not_true_iff_false. rewrite covers_spec. unfold contained in Ec.
      rewrite !andb_true_iff, !Z.leb_le in Ec. lia.
  - destruct (IH (P ++ [r]) w b) as (I1 & I2 & I3 & I4 & I5); [by rewrite <- app_assoc|by rewrite <- app_assoc|].
    rewrite <- app_assoc in I1. done.
Qed.

Lemma upd_view v e pr fl l va : space_ok l ->
  Forall (fun r => file_cap r = U64_MAX \/ contained v e r = true \/ end_ r <= v \/ e <= start r) l ->
  let l' := List.map (upd v e pr fl) l in
  if decide (v <= va < e) then view l' va = reprotect pr fl <$> view l va \/
       (view l' va = view l va /\ exists r, r ∈ l' /\ covers va r = true /\ file_cap r = U64_MAX /\ contained v e r = false)
  else view l' va = view l va.
Proof.
  intros HS HF l'. destruct (upd_space v e pr fl l HS) as [_ HP']. fold l' in HP'. destruct HS as [HR HP]. destruct (view l va) as [pg|] eqn:E.
  - apply view_inv in E as (r & Hr & Hc & ->). rewrite Forall_forall in HF. specialize (HF r Hr).
    pose proof (proj1 (covers_spec va r) Hc) as Hcr. destruct (upd_range v e pr fl r) as [U1 U2].
    assert (covers va (upd v e pr fl r) = true) as Hc' by (unfold covers; by rewrite U1, U2).
    assert (upd v e pr fl r ∈ l') as Hin by (apply list_elem_of_fmap; by exists r).
    pose proof (view_elem l' va _ HP' Hin Hc') as Hv. rewrite (idx_start _ r va U1) in Hv. rewrite Hv. unfold upd in *. destruct (contained v e r) eqn:Ec.
    + case_decide as Hd; [by left|]. unfold contained in Ec. rewrite !andb_true_iff, !Z.leb_le in Ec. lia.
    + case_decide; [|done]. right. split; [done|]. exists r. split_and!; try done. destruct HF as [HF|[HF|HF]]; [done|done|lia].
  - assert (view l' va = None) as ->.
    { apply view_none. intros q (r & -> & Hr)%list_elem_of_fmap. destruct (covers va _) eqn:Eq; [|done]. destruct (upd_range v e pr fl r) as [U1 U2].
      unfold covers in Eq. rewrite U1, U2 in Eq. by rewrite (view_elem l va r HP Hr Eq) in E. }
    case_decide; [by left|done].
Qed.

(** C25: [mprotect] refuses a range that would be writable and executable and
    otherwise never panics.  Every page of the rounded range takes the new
    protection and keeps its frame and everything else, except under a device
    mapping that reaches over an end of the range; pages outside it are
    untouched.  The invariant is kept, so afterwards no page of the range has a
    writable entry unless PROT_WRITE was asked for, and even then not while its
    frame has another copy-on-write owner or still shows the file.  It answers
    whether any region lay in the range, flushing the range's TLB entries
    exactly then. *)
Theorem mprotect_spec addr len pr a w :
  vm_ok a w -> is_u64 addr -> fits len ->
  let v := page_down addr in
  let n := pages_of len in
  let e := v + n * PAGE_SIZE in
  if (has pr PROT_WRITE && has pr PROT_EXEC) || (2 ^ 64 <=? e) then mprotect addr len pr a w = Some (false, a, w)
  else
    exists ok rs1 a' w', mprotect addr len pr a w = Some (ok, a', w') /\ vm_ok a' w' /\ page_refs w' = page_refs w
      /\ (forall va, ~ v <= va < e -> view (live (regions a')) va = view (live (regions a)) va /\ pte (pt w') va = pte (pt w) va)
      /\ (forall va, v <= va < e -> view (live (regions a')) va = reprotect pr (flags_of_prot pr) <$> view (live (regions a)) va \/
            (view (live (regions a')) va = view (live (regions a)) va /\
             exists r, r ∈ live (regions a') /\ covers va r = true /\ file_cap r = U64_MAX /\ contained v e r = false))
      /\ ok = existsb (contained v e) (live (regions a'))
      /\ log w' = log w ++ (split_calls v (regions a) ++ split_calls e rs1) ++ if ok then [TlbFlush v n] else [].
Proof.
  intros HV Haddr Hs v n e. unfold mprotect. destruct (has pr PROT_WRITE && has pr PROT_EXEC); [done|]. cbn [orb].
  rewrite (page_up_spec len Hs). fold v n. unfold checked_add. fold e. rewrite Z.leb_antisym. destruct (Z.ltb_spec e (2 ^ 64)) as [He|He]; cbn [negb]; [|done].
  destruct (request_bounds addr len Haddr Hs He) as (D1 & D2 & D3). fold v n e in D1, D2, D3. destruct HV as (HS & HN & HR).
  assert (is_u64 v /\ is_u64 e) as [Uv Ue] by (unfold is_u64; lia).
  destruct (cut_ends v e a w HS Uv Ue D1 D2 ltac:(lia)) as (b1 & b2 & a1 & w1 & a2 & -> & E2 & [C1 C2 C3 C4]). cbn [mbind option_bind]. rewrite E2.
  cbn [mbind option_bind]. set (w2 := emit _ w). set (fl := flags_of_prot pr). set (l2 := live (regions a2)) in *.
  destruct (for_slots_spec (protect_region v e pr fl) (fun r => Some (upd v e pr fl r)) (regions a2) (w2, false)) as [L1 L2].
  { intros r x. unfold protect_region, upd. by destruct (contained v e r). }
  destruct (for_slots (protect_region v e pr fl) (regions a2) (w2, false)) as [rs [w3 changed]]. cbn [fst snd] in L1, L2. fold l2 in L1, L2.
  assert (omap (fun r => Some (upd v e pr fl r)) l2 = List.map (upd v e pr fl) l2) as HM by (clear; induction l2 as [|r l IH]; [done|]; cbn; by f_equal).
  rewrite HM in L1. destruct (protect_fold v e pr fl [] l2 w2 false) as (G1 & G2 & G3 & G4 & G5); [done|by eapply no_stale_view|].
  rewrite <- L2 in G1, G2, G3, G4, G5. cbn [fst snd app orb] in *. replace (e - v) with (n * PAGE_SIZE) by lia. rewrite Z.div_mul by done.
  rewrite (proj2 (Z.eqb_neq n 0)) by (unfold PAGE_SIZE in *; lia). rewrite andb_true_r.
  assert (existsb (contained v e) (List.map (upd v e pr fl) l2) = existsb (contained v e) l2) as HE.
  { clear. induction l2 as [|r l IH]; [done|]. cbn. rewrite IH. f_equal. unfold contained. by destruct (upd_range v e pr fl r) as [-> ->]. }
  exists changed, (regions a1). eexists _, _. split; [done|]. assert (live (regions (set_regions rs a2)) = List.map (upd v e pr fl) l2) as HL by exact L1. rewrite HL.
  split; [|split; [|split; [|split; [|split]]]].
  - unfold vm_ok. rewrite HL. split; [by apply upd_space|]. destruct changed; cbn [pt page_refs emit]; by rewrite G2.
  - by destruct changed.
  - intros va Hva. pose proof (upd_view v e pr fl l2 va C1 C4) as Hu. cbv zeta in Hu. rewrite decide_False in Hu by done. rewrite Hu. split; [apply C2|].
    destruct changed; by apply G5.
  - intros va Hva. pose proof (upd_view v e pr fl l2 va C1 C4) as Hu. cbv zeta in Hu. rewrite decide_True in Hu by done. unfold l2 in Hu. rewrite C2 in Hu. done.
  - by rewrite HE.
  - destruct changed; cbn [log emit]; rewrite G3; unfold w2; cbn [log emit]; rewrite <- !app_assoc; by rewrite ?app_nil_r.
Qed.

End protect.

#[export] Instance page_eq_dec : EqDecision page.
Proof. solve_decision. Defined.

Lemma unmap_range_spec_witness :
  exists a' w', unmap_range 69632 8192 demo_space demo_world = Some (a', w') /\ view (live (regions a')) 73728 = None
    /\ view (live (regions a')) 65536 = view (live (regions demo_space)) 65536
    /\ log w' = [FileRetain 9; FileRetain 9; FileRelease 9; TlbFlush 69632 2; BuddyFree 28672 0].
Proof.
  assert (fits 8192) as Hf by (unfold fits, PAGE_SIZE; lia).
  pose proof (unmap_range_spec 69632 8192 demo_space demo_world demo_space_ok ltac:(unfold is_u64; lia) Hf) as Hs. cbv zeta in Hs.
  assert ((page_down 69632 + pages_of 8192 * PAGE_SIZE <? 2 ^ 64) = true) as Hb by (vm_compute; reflexivity). rewrite Hb in Hs.
  destruct Hs as (_ & _ & a' & w' & _ & _ & E & _ & _ & Hout & _). exists a', w'. split; [exact E|].
  assert (option_map (fun '(a, w) => (bool_decide (view (live (regions a)) 73728 = None), log w)) (unmap_range 69632 8192 demo_space demo_world)
    = Some (true, [FileRetain 9; FileRetain 9; FileRelease 9; TlbFlush 69632 2; BuddyFree 28672 0])) as Hv by (vm_compute; reflexivity).
  rewrite E in Hv. cbn [option_map] in Hv. injection Hv as H1 H2. apply bool_decide_eq_true in H1.
  split; [exact H1|]. split; [|exact H2]. apply Hout. change (page_down 69632) with 69632. lia.
Defined.

Lemma mprotect_spec_witness :
  exists a' w', mprotect 73728 100 PROT_READ demo_space demo_world = Some (true, a', w')
    /\ view (live (regions a')) 73728 = Some (mkPage (Some 28672) 5 1 2 9 16384 2048 false true) /\ pte (pt w') 73728 = Some (28672, 5)
    /\ pte (pt w') 65536 = Some (20480, 5).
Proof.
  assert (fits 100) as Hf by (unfold fits, PAGE_SIZE; lia).
  pose proof (mprotect_spec 73728 100 PROT_READ demo_space demo_world demo_space_ok ltac:(unfold is_u64; lia) Hf) as Hs. cbv zeta in Hs.
  assert ((has PROT_READ PROT_WRITE && has PROT_READ PROT_EXEC) || (2 ^ 64 <=? page_down 73728 + pages_of 100 * PAGE_SIZE) = false) as Hb
    by (vm_compute; reflexivity).
  rewrite Hb in Hs. destruct Hs as (ok & _ & a' & w' & E & _ & _ & Hout & _).
  assert (option_map (fun '(ok, a, w) => (ok, view (live (regions a)) 73728, pte (pt w) 73728)) (mprotect 73728 100 PROT_READ demo_space demo_world)
    = Some (true, Some (mkPage (Some 28672) 5 1 2 9 16384 2048 false true), Some (28672, 5))) as Hv by (vm_compute; reflexivity).
  rewrite E in Hv. cbn [option_map] in Hv. injection Hv as -> H1 H2. exists a', w'. split_and!; try done.
  destruct (Hout 65536) as [_ ->]; [change (page_down 73728) with 73728; lia|]. vm_compute. reflexivity.
Defined.
