(* ===== verification/VmmBrk.v ===== *)
(** * Address spaces: dropping pages and the heap break

    Proofs about [brk] and the clearing of pages it shares with [discard_range], of
    [Vmm] against the view of [VmmView]. *)
From S2P Require Import Prelude KLib PageSites PageRef PageVec Vmm VmmView VmmMap VmmOps.
#[local] Open Scope Z_scope.

(** A page whose frame was dropped: it reads as a page never touched. *)
Definition discarded (p : page) : page :=
  match p_frame p with
  | None => p
  | Some _ => mkPage None (p_flags p) (p_prot p) (p_map p) (p_cap p) (p_pos p) (p_bytes p) (p_cow p) false
  end.

Lemma clear_bit_spec i w j :
  getbit (alter (fun x => Z.land x (not64 (Z.shiftl 1 (Z.of_nat (i mod 64))))) (i / 64)%nat w) j = getbit w j && negb (j =? i)%nat.
Proof.
  destruct (Nat.ltb_spec (i / 64) (length w)) as [Hl|Hl].
  - destruct (nat_word j) as [_ Hj]. rewrite !getbit_testbit, word_at_alter by done. case_decide as E.
    + rewrite Z.land_spec, testbit_not64, testbit_shiftl1, E by lia. f_equal. f_equal. destruct (Nat.eqb_spec j i) as [->|Hne]; [by rewrite Z.eqb_refl|].
      apply Z.eqb_neq. intros Em. apply Hne, same_bit; [done|lia].
    + destruct (Nat.eqb_spec j i) as [->|]; [done|]. by rewrite andb_true_r.
  - assert (alter (fun x => Z.land x (not64 (Z.shiftl 1 (Z.of_nat (i mod 64))))) (i / 64)%nat w = w) as ->.
    { apply list_eq. intros k. destruct (decide (k = i / 64)%nat) as [->|]; [|by rewrite list_lookup_alter_ne].
      by rewrite list_lookup_alter_eq, lookup_ge_None_2. }
    destruct (Nat.eqb_spec j i) as [->|]; [|by rewrite andb_true_r]. unfold getbit. by rewrite lookup_ge_None_2.
Qed.

(** ** Clearing pages *)
Record cleared (ks : list nat) (r r' : VmaRegion) : Prop := {
  cl_same : start r' = start r /\ end_ r' = end_ r /\ phys r' = phys r /\ flags r' = flags r /\ lazy r' = lazy r /\ prot r' = prot r
    /\ map_flags r' = map_flags r /\ file_cap r' = file_cap r /\ file_off r' = file_off r /\ file_len r' = file_len r /\ cow r' = cow r;
  cl_wf : PageVec.wf (lazy_pages r');
  cl_len : PageVec.len (lazy_pages r') = PageVec.len (lazy_pages r);
  cl_frame : forall i, frame_at r' i = if bool_decide (i ∈ ks) then 0 else frame_at r i;
  cl_written : forall i, is_written r' i = is_written r i && negb (bool_decide (i ∈ ks) && negb (frame_at r i =? 0));
  cl_count : lazy_count r = Z.of_nat (PageVec.count_present (lazy_pages r)) -> lazy_count r' = Z.of_nat (PageVec.count_present (lazy_pages r')) }.

Definition frames_in (ks : list nat) (r : VmaRegion) : list Z := List.filter (fun p => negb (p =? 0)) (List.map (frame_at r) ks).

(** One page. *)
Lemma clear_one i r : PageVec.wf (lazy_pages r) -> (i < PageVec.len (lazy_pages r))%nat -> frame_at r i <> 0 ->
  exists pv, PageVec.index_mut i 0 (lazy_pages r) = Some pv /\
    cleared [i] r (set_lazy_count (Z.max 0 (lazy_count r - 1)) (set_written i false (set_lazy_pages pv r))).
Proof.
  intros W Hi Hf. pose proof (index_mut_list i 0 (lazy_pages r) W) as HI. rewrite decide_True in HI by done. destruct HI as (pv & E & Wp & Lp).
  exists pv. split; [done|]. rewrite frame_at_list in Hf by done. destruct (to_list (lazy_pages r) !! i) as [p|] eqn:Ep; [|done]. cbn in Hf. split; try done.
  - cbn. by rewrite <- !length_to_list, Lp, length_insert.
  - intros j. rewrite !frame_at_list by done. cbn [set_lazy_count set_written set_lazy_pages set_words lazy_pages]. rewrite Lp.
    destruct (decide (j = i)) as [->|Hne].
    + rewrite list_lookup_insert_eq by by apply lookup_lt_Some in Ep. by rewrite bool_decide_eq_true_2 by left.
    + rewrite list_lookup_insert_ne by done. rewrite bool_decide_eq_false_2; [done|]. by rewrite list_elem_of_singleton.
  - intros j. unfold is_written at 1. cbn [set_lazy_count set_written set_lazy_pages set_words written].
    fold (getbit (alter (fun x => Z.land x (not64 (Z.shiftl 1 (Z.of_nat (i mod 64))))) (i / 64)%nat (written r)) j). rewrite clear_bit_spec.
    change (is_written r j) with (getbit (written r) j). f_equal. f_equal. destruct (Nat.eqb_spec j i) as [->|Hne].
    + rewrite bool_decide_eq_true_2 by left. rewrite frame_at_list, Ep by done. cbn. symmetry. by apply negb_true_iff, Z.eqb_neq.
    + rewrite bool_decide_eq_false_2; [done|]. by rewrite list_elem_of_singleton.
  - intros Hc. cbn [set_lazy_count set_written set_lazy_pages set_words lazy_pages lazy_count]. rewrite count_present_spec, Lp by done.
    rewrite (countb_insert _ _ i 0 p Ep), <- count_present_spec, <- Hc by done. cbn. rewrite (proj2 (Z.eqb_neq p 0) Hf). cbn.
    assert (0 < lazy_count r); [|lia]. rewrite Hc, count_present_spec by done.
    pose proof (countb_bounds (fun p => negb (p =? 0)) (<[i := 0]> (to_list (lazy_pages r)))) as Hb. rewrite (countb_insert _ _ i 0 p Ep) in Hb. cbn in Hb.
    rewrite (proj2 (Z.eqb_neq p 0) Hf) in Hb. cbn in Hb. lia.
Qed.

Lemma cleared_nil r : PageVec.wf (lazy_pages r) -> cleared [] r r.
Proof. intros W. split; try done. intros i. by rewrite andb_true_r. Qed.

Lemma cleared_absent i ks r r' : frame_at r i = 0 -> cleared ks r r' -> cleared (i :: ks) r r'.
Proof.
  intros Hz [C1 C2 C3 C4 C5 C6]. split; try done; intros j; rewrite ?C4, ?C5; destruct (decide (j = i)) as [->|Hne].
  - rewrite (bool_decide_eq_true_2 (i ∈ i :: ks)) by left. rewrite Hz. by destruct (bool_decide _).
  - assert (bool_decide (j ∈ i :: ks) = bool_decide (j ∈ ks)) as -> by (apply bool_decide_ext; rewrite elem_of_cons; tauto). done.
  - rewrite Hz. cbn. by rewrite !andb_false_r.
  - assert (bool_decide (j ∈ i :: ks) = bool_decide (j ∈ ks)) as -> by (apply bool_decide_ext; rewrite elem_of_cons; tauto). done.
Qed.

Lemma cleared_trans i ks r r1 r' : cleared [i] r r1 -> cleared ks r1 r' -> cleared (i :: ks) r r'.
Proof.
  intros [A1 A2 A3 A4 A5 A6] [B1 B2 B3 B4 B5 B6]. split; [|done|congruence| | |auto].
  - destruct A1 as (? & ? & ? & ? & ? & ? & ? & ? & ? & ? & ?), B1 as (? & ? & ? & ? & ? & ? & ? & ? & ? & ? & ?). split_and!; congruence.
  - intros j. rewrite B4, A4. destruct (decide (j = i)) as [->|Hne].
    + rewrite (bool_decide_eq_true_2 (i ∈ [i])), (bool_decide_eq_true_2 (i ∈ i :: ks)) by left. by destruct (bool_decide _).
    + assert (bool_decide (j ∈ i :: ks) = bool_decide (j ∈ ks)) as -> by (apply bool_decide_ext; rewrite elem_of_cons; tauto).
      by rewrite (bool_decide_eq_false_2 (j ∈ [i])) by by rewrite list_elem_of_singleton.
  - intros j. rewrite B5, A5, A4. destruct (decide (j = i)) as [->|Hne].
    + rewrite (bool_decide_eq_true_2 (i ∈ [i])), (bool_decide_eq_true_2 (i ∈ i :: ks)) by left. cbn. by rewrite andb_false_r, andb_true_r.
    + assert (bool_decide (j ∈ i :: ks) = bool_decide (j ∈ ks)) as -> by (apply bool_decide_ext; rewrite elem_of_cons; tauto).
      rewrite (bool_decide_eq_false_2 (j ∈ [i])) by by rewrite list_elem_of_singleton. cbn. by rewrite andb_true_r.
Qed.

(** Pages of [ks] that have a frame. *)
Definition present_in (ks : list nat) (r : VmaRegion) : list nat := List.filter (fun i => negb (frame_at r i =? 0)) ks.

Lemma frames_in_ext ks r r' : (forall i, i ∈ ks -> frame_at r' i = frame_at r i) -> frames_in ks r' = frames_in ks r /\ present_in ks r' = present_in ks r.
Proof.
  unfold frames_in, present_in. induction ks as [|i ks IH]; intros Hf; [done|]. cbn. destruct IH as [I1 I2]; [intros j Hj; apply Hf; by right|].
  rewrite (Hf i) by left. destruct (negb (frame_at r i =? 0)); by rewrite I1, I2.
Qed.

Section clear.
Context {T : Type} `{PageTable T}.
Implicit Types (t : T) (w : world T).

Lemma clear_pages_spec ks r t rel :
  PageVec.wf (lazy_pages r) -> NoDup ks -> Forall (fun i => (i < PageVec.len (lazy_pages r))%nat) ks ->
  exists r' t', clear_pages ks r t rel = Some (r', t', rel ++ frames_in ks r) /\ cleared ks r r' /\
    forall a, pte t' a = if decide (a ∈ va_of (start r) <$> present_in ks r) then None else pte t a.
Proof.
  revert r t rel. induction ks as [|i ks IH]; intros r t rel W HN HF; cbn [clear_pages].
  - exists r, t. unfold frames_in. cbn. rewrite app_nil_r. split_and!; [done|by apply cleared_nil|done].
  - apply NoDup_cons in HN as [Hni HN]. apply Forall_cons in HF as [Hi HF].
    assert (PageVec.index (lazy_pages r) i = Some (frame_at r i)) as ->.
    { unfold PageVec.index. rewrite frame_at_list, slot_get by done. destruct (lookup_lt_is_Some_2 (to_list (lazy_pages r)) i) as [p Hp]; [by rewrite length_to_list|].
      by rewrite Hp. }
    cbn [mbind option_bind]. unfold frames_in, present_in. cbn [List.map List.filter]. destruct (Z.eqb_spec (frame_at r i) 0) as [Ez|Ez]; cbn [negb].
    + destruct (IH r t rel W HN HF) as (r' & t' & E & C & P). exists r', t'. split; [done|]. split; [by apply cleared_absent|done].
    + destruct (clear_one i r W Hi Ez) as (pv & -> & C1). cbn [mbind option_bind].
      set (r1 := set_lazy_count _ _) in *. pose proof C1 as [S1 W1 L1 F1 _ _].
      destruct (IH r1 (unmap_page (va_of (start r1) i) t) (rel ++ [frame_at r i]) W1 HN) as (r' & t' & E & C & P).
      { by rewrite L1. }
      destruct (frames_in_ext ks r r1) as [X1 X2].
      { intros j Hj. rewrite F1, bool_decide_eq_false_2; [done|]. rewrite list_elem_of_singleton. by intros ->. }
      exists r', t'. split; [|split; [by eapply cleared_trans|]].
      * change (start r1) with (start r) in E. cbn [set_written set_lazy_pages set_words start lazy_count]. rewrite E, X1, <- app_assoc. done.
      * change (start r1) with (start r) in P. intros a. rewrite P, X2, pte_unmap. cbn [fmap list_fmap]. unfold present_in.
        destruct (decide (a ∈ va_of (start r) <$> List.filter _ ks)); destruct (decide (a = va_of (start r) i)); case_decide as D; set_solver.
Qed.

(** Cleared pages read as never touched. *)
Lemma cleared_page ks r r' i : lazy r = true -> cleared ks r r' ->
  page_no r' i = if bool_decide (i ∈ ks) then discarded (page_no r i) else page_no r i.
Proof.
  intros El [(S1 & S2 & S3 & S4 & S5 & S6 & S7 & S8 & S9 & S10 & S11) W L F B C].
  unfold page_no, discarded, frame_of, bytes_of. cbn [p_frame p_flags p_prot p_map p_cap p_pos p_bytes p_cow p_written].
  rewrite S4, S5, S6, S7, S8, S9, S10, S11, F, B, El. destruct (bool_decide (i ∈ ks)); [|by rewrite andb_true_r].
  destruct (Z.eqb_spec (frame_at r i) 0); cbn; [by rewrite andb_true_r|by rewrite andb_false_r].
Qed.

(** Shortening a region to [e] and clearing every page from there on. *)
Lemma cleared_ok ks r r' e : region_ok r -> lazy r = true -> start r < e <= end_ r -> (PAGE_SIZE | e) -> cleared ks (set_end e r) r' ->
  (forall i, (e - start r) / PAGE_SIZE <= Z.of_nat i -> i ∈ ks \/ frame_at r i = 0) -> region_ok r'.
Proof.
  intros R El He Hd [(S1 & S2 & S3 & S4 & S5 & S6 & S7 & S8 & S9 & S10 & S11) W L F B C] Hks. cbn [set_end start end_ phys flags lazy file_cap file_len lazy_pages] in *.
  pose proof (ro_top r R). pose proof (ro_range r R).
  split; rewrite ?S1, ?S2, ?S3, ?S5, ?S8, ?S10, ?S11; try apply R; try done; try lia.
  - intros _ i Hi. rewrite F. destruct (bool_decide (i ∈ ks)) eqn:Eb; [done|]. apply bool_decide_eq_false in Eb. change (frame_at (set_end e r) i) with (frame_at r i).
    by destruct (Hks i Hi).
  - intros Hl. apply C. by apply (ro_count r R Hl).
  - intros Hl. rewrite El in Hl. done.
Qed.

End clear.

(** ** Replacing one region *)
Lemma others_apart rs idx r : pairwise (live rs) -> rs !! idx = Some (Some r) -> Forall (fun q => q = r \/ apart r q) (live rs).
Proof.
  intros HP Hr. destruct (live_at _ _ _ Hr) as (rest & Hl & _). pose proof (pairwise_perm _ _ Hl HP) as [Hap _]. rewrite Hl. apply Forall_cons.
  split; [by left|]. eapply Forall_impl; [exact Hap|]. cbn. tauto.
Qed.

Section replace.
Context {T : Type} `{PageTable T}.
Implicit Types (t : T) (w : world T).

Lemma replace_stale r r' rest t t' rf :
  no_stale (r :: rest) t rf -> Forall (apart r') rest ->
  (forall va p f, pte t' va = Some (p, f) -> pte t va = Some (p, f) /\
     (covers va r = true -> covers va r' = true /\ page_no r' (idx_of r' va) = page_no r (idx_of r va))) ->
  no_stale (r' :: rest) t' rf.
Proof.
  intros HN Hap Hp va p f Hva. destruct (Hp va p f Hva) as [Hold Hsame]. destruct (HN va p f Hold) as (Hd & pg & Hv & Hx). split; [done|].
  exists pg. split; [|done]. rewrite view_cons in Hv |- *. destruct (covers va r) eqn:Ec.
  - destruct (Hsame eq_refl) as [-> ->]. done.
  - destruct (covers va r') eqn:Ec'; [|done]. by rewrite (view_apart r' rest va Hap Ec') in Hv.
Qed.

(** Region [r] of slot [idx] becomes [r']. *)
Lemma replace_region a w idx r r' t' w' :
  vm_ok a w -> regions a !! idx = Some (Some r) -> region_ok r' ->
  Forall (fun q => q = r \/ apart r' q) (live (regions a)) ->
  (forall va p f, pte t' va = Some (p, f) -> pte (pt w) va = Some (p, f) /\
     (covers va r = true -> covers va r' = true /\ page_no r' (idx_of r' va) = page_no r (idx_of r va))) ->
  pt w' = t' -> page_refs w' = page_refs w ->
  let a' := set_regions (<[idx := Some r']> (regions a)) a in
  vm_ok a' w' /\ forall va, view (live (regions a')) va =
    if covers va r' then Some (page_no r' (idx_of r' va)) else if covers va r then None else view (live (regions a)) va.
Proof.
  intros (HS & HN & HR) Hr Rr' Hap Ht E1 E2 a'. destruct (live_at _ _ _ Hr) as (rest & Hl & Hins). specialize (Hins (Some r')).
  change (option_list (Some r) ++ rest) with (r :: rest) in Hl. change (option_list (Some r') ++ rest) with (r' :: rest) in Hins.
  pose proof (space_ok_perm _ _ Hl HS) as HS1. apply space_ok_cons in HS1 as (Rr & Hr1 & HS1).
  assert (Forall (apart r') rest) as Hap'.
  { rewrite Hl in Hap. apply Forall_cons in Hap as [_ Hap]. rewrite Forall_forall in Hap, Hr1 |- *. intros q Hq. destruct (Hap q Hq) as [->|]; [|done].
    specialize (Hr1 r Hq). unfold apart in Hr1. pose proof (ro_range r Rr). lia. }
  assert (space_ok (r' :: rest)) as HS2 by by apply space_ok_cons.
  assert (no_stale (r :: rest) (pt w) (page_refs w)) as HN1.
  { eapply no_stale_view; [|exact HN]. intros va. symmetry. apply view_perm; [done|apply HS]. }
  assert (pairwise (live (regions a'))) as HP by (eapply pairwise_perm; [symmetry; exact Hins|apply HS2]).
  assert (forall va, view (live (regions a')) va = view (r' :: rest) va) as Hv by (intros va; by apply view_perm).
  split; [split; [eapply space_ok_perm; [symmetry; exact Hins|done]|]|].
  - rewrite E1, E2. split; [|done]. eapply no_stale_view; [exact Hv|]. by eapply replace_stale.
  - intros va. rewrite Hv, (view_perm _ _ va Hl (proj2 HS)), !view_cons. destruct (covers va r'); [done|]. destruct (covers va r) eqn:Ec; [|done].
    by rewrite (view_apart r).
Qed.

End replace.

(** ** The heap break *)

(** The region at [heap_start] is anonymous and demand-paged, as [brk] makes it. *)
Definition heap_lazy (a : AddressSpace) : Prop :=
  forall r, r ∈ live (regions a) -> start r = heap_start a -> lazy r = true /\ is_file_backed (file_cap r) = false.

Definition heap_top (a : AddressSpace) : Z :=
  match List.find (fun r => start r =? heap_start a) (live (regions a)) with Some r => end_ r | None => heap_start a end.

Lemma heap_top_Some a r : space_ok (live (regions a)) -> r ∈ live (regions a) -> start r = heap_start a -> heap_top a = end_ r.
Proof.
  intros [HR HP] Hr Hs. unfold heap_top. destruct (List.find _ _) as [q|] eqn:E.
  - apply find_some in E as [Hq%list_elem_of_In Hqs%Z.eqb_eq]. rewrite Forall_forall in HR. pose proof (ro_range r (HR r Hr)). pose proof (ro_range q (HR q Hq)).
    pose proof (find_unique _ (start r) r HP Hr ltac:(apply covers_spec; lia)) as F1. rewrite (find_unique _ (start r) q HP Hq) in F1 by (apply covers_spec; lia). by injection F1 as ->.
  - eapply find_none in E; [|apply list_elem_of_In; exact Hr]. apply Z.eqb_neq in E. lia.
Qed.

Lemma heap_top_None a : position (starts_at (heap_start a)) (regions a) = None -> heap_top a = heap_start a.
Proof.
  intros Hp%position_None. unfold heap_top. destruct (List.find _ _) as [q|] eqn:E; [|done]. apply find_some in E as [Hq%list_elem_of_In%live_elem Hs].
  rewrite Forall_forall in Hp. specialize (Hp _ Hq). cbn in Hp. congruence.
Qed.

Lemma hiwater_regions a : regions (update_hiwater a) = regions a /\ heap_start (update_hiwater a) = heap_start a.
Proof. unfold update_hiwater. by destruct (totals a). Qed.

Section brk.
Context {T : Type} `{PageTable T}.
Implicit Types (t : T) (w : world T).

Lemma shrink_range r e : region_ok r -> (PAGE_SIZE | e) -> start r < e < end_ r ->
  wrap64 (e - start r) / PAGE_SIZE = (e - start r) / PAGE_SIZE /\
  wrap64 (wrap64 (end_ r - start r) + PAGE_SIZE - 1) / PAGE_SIZE = pages r /\ 0 < (e - start r) / PAGE_SIZE < pages r /\
  e - start r = (e - start r) / PAGE_SIZE * PAGE_SIZE.
Proof.
  intros R [k Hk] He. destruct (ro_start r R) as [s Hs], (ro_end r R) as [n Hn]. pose proof (ro_top r R). pose proof (ro_range r R).
  destruct (pages_ok r R) as [_ Hp]. unfold wrap64. rewrite !(Z.mod_small (_ - start r)) by lia.
  assert ((e - start r) / PAGE_SIZE = k - s) as -> by (rewrite Hk, Hs, <- Z.mul_sub_distr_r; by apply Z.div_mul).
  unfold PAGE_SIZE in *. rewrite Z.mod_small by lia. split_and!; try lia. replace (end_ r - start r + 4096 - 1) with (pages r * 4096 + 4095) by lia.
  rewrite Z.div_add_l by lia. change (4095 / 4096) with 0. lia.
Qed.

Lemma range_elem first stop i : 0 <= first -> i ∈ range first stop <-> first <= Z.of_nat i < stop.
Proof.
  intros Hf. unfold range. destruct (Z.ltb_spec first stop); [rewrite elem_of_seq; lia|]. split; [by intros ?%not_elem_of_nil|lia].
Qed.

Lemma range_nodup first stop : NoDup (range first stop).
Proof. unfold range. destruct (_ <? _); [apply NoDup_seq|constructor]. Qed.

(** Cutting a region's pages off at [e]. *)
Lemma shrink_region r e t : region_ok r -> lazy r = true -> (PAGE_SIZE | e) -> start r < e < end_ r ->
  let first := (e - start r) / PAGE_SIZE in
  let ks := range first (Z.min (pages r) (Z.of_nat (PageVec.len (lazy_pages r)))) in
  exists r' t', clear_pages ks (set_end e r) t [] = Some (r', t', frames_in ks (set_end e r)) /\ region_ok r' /\ start r' = start r /\ end_ r' = e
    /\ (forall va, start r <= va < e -> page_no r' (idx_of r' va) = page_no r (idx_of r va))
    /\ (forall va q, pte t' va = Some q -> pte t va = Some q)
    /\ (forall va p, (PAGE_SIZE | va) -> e <= va < end_ r -> frame_of r (idx_of r va) = Some p -> pte t' va = None).
Proof.
  intros Rr El Hd He first ks. destruct (shrink_range r e Rr Hd He) as (_ & _ & B3 & B4). fold first in B3, B4.
  assert (forall i, i ∈ ks <-> first <= Z.of_nat i < Z.min (pages r) (Z.of_nat (PageVec.len (lazy_pages r)))) as Hel by (intros i; apply range_elem; lia).
  destruct (clear_pages_spec ks (set_end e r) t []) as (r' & t' & E & C & P); [apply Rr|apply range_nodup| |].
  { apply Forall_forall. intros i Hi%Hel. change (lazy_pages (set_end e r)) with (lazy_pages r). lia. }
  exists r', t'. split; [exact E|]. pose proof (cl_same _ _ _ C) as (S1 & S2 & _). cbn [set_end start end_] in S1, S2.
  assert (forall i, first <= Z.of_nat i -> i ∈ ks \/ frame_at r i = 0) as Hks.
  { intros i Hi. rewrite Hel. destruct (decide (Z.of_nat i < Z.min (pages r) (Z.of_nat (PageVec.len (lazy_pages r))))); [left; lia|right].
    destruct (decide (Z.of_nat i < pages r)); [|apply (ro_len r Rr El); rewrite <- (proj1 (pages_ok r Rr)); lia].
    rewrite frame_at_list by apply Rr. rewrite lookup_ge_None_2; [done|]. rewrite length_to_list. lia. }
  split; [eapply (cleared_ok _ r r' e Rr El); [lia|done|exact C|exact Hks]|]. split_and!; try done.
  - intros va Hva. rewrite (idx_start r' r va S1), (cleared_page ks (set_end e r) r' _ El C), bool_decide_eq_false_2; [done|].
    rewrite Hel. assert (Z.of_nat (idx_of r va) < first); [|lia]. unfold idx_of. rewrite Z2Nat.id by (apply Z.div_pos; [lia|done]).
    apply Z.div_lt_upper_bound; [done|]. lia.
  - intros va q Hq. rewrite P in Hq. by case_decide.
  - intros va p Hdv Hva Hf. rewrite P, decide_True; [done|]. unfold frame_of in Hf. rewrite El in Hf. apply list_elem_of_fmap. exists (idx_of r va).
    split; [apply (idx_va r va Rr Hdv); lia|]. apply list_elem_of_In, filter_In. rewrite <- list_elem_of_In.
    change (frame_at (set_end e r) (idx_of r va)) with (frame_at r (idx_of r va)). destruct (Z.eqb_spec (frame_at r (idx_of r va)) 0) as [|Hnz]; [done|].
    split; [|done]. destruct (Hks (idx_of r va)) as [|]; [|done|done]. unfold idx_of. rewrite Z2Nat.id by (apply Z.div_pos; [lia|done]). apply Z.div_le_mono; [done|lia].
Qed.

(** Lowering the break inside the heap region. *)
Lemma heap_shrink_spec idx r e a w :
  vm_ok a w -> regions a !! idx = Some (Some r) -> lazy r = true -> (PAGE_SIZE | e) -> start r < e < end_ r ->
  exists a' w' frees, brk_shrink idx r e a w = Some (a', w') /\ vm_ok a' w' /\ heap_start a' = heap_start a
    /\ (forall va, view (live (regions a')) va = if decide (e <= va < end_ r) then None else view (live (regions a)) va)
    /\ log w' = log w ++ [TlbFlush e ((end_ r - e) / PAGE_SIZE)] ++ frees /\ Forall (fun c => is_free c = true) frees.
Proof.
  intros HV Hr El Hd He. pose proof HV as (HS & HN & HR). pose proof HS as [HF HP].
  assert (r ∈ live (regions a)) as Hin by (apply live_elem; by eapply list_elem_of_lookup_2). rewrite Forall_forall in HF. pose proof (HF r Hin) as Rr.
  destruct (shrink_range r e Rr Hd He) as (B1 & B2 & B3 & B4). unfold brk_shrink. cbn [set_end start lazy_pages]. rewrite B1, B2.
  destruct (shrink_region r e (pt w) Rr El Hd He) as (r' & t' & E & Rr' & S1 & S2 & Hpg & Hsub & Hgone). set (first := (e - start r) / PAGE_SIZE) in *. rewrite E.
  cbn [mbind option_bind]. rewrite (proj2 (Z.eqb_neq _ 0)) by lia. rewrite S1. destruct (hiwater_regions a) as [Hh1 Hh2]. rewrite Hh1.
  assert (wrap64 (start r + wrap64 (first * PAGE_SIZE)) = e) as ->.
  { rewrite <- B4. pose proof (ro_range r Rr). pose proof (ro_top r Rr). unfold wrap64. rewrite !Z.mod_small by (rewrite ?Z.mod_small; lia). lia. }
  assert (Z.max 0 (pages r - first) = (end_ r - e) / PAGE_SIZE) as ->.
  { destruct (pages_ok r Rr) as [_ Hp]. replace (end_ r - e) with ((pages r - first) * PAGE_SIZE) by lia. rewrite Z.div_mul by done. lia. }
  set (w1 := emit [TlbFlush e _] (set_pt t' w)). set (rel := frames_in _ _). destruct (free_frames_spec rel w1 HR) as (F1 & F2 & F3 & frees & F4 & F5 & _).
  assert (forall va, covers va r' = true <-> start r <= va < e) as Hc' by (intros va; by rewrite covers_spec, S1, S2).
  destruct (replace_region a w idx r r' t' (set_pt t' w) HV Hr Rr') as [G1 G2]; [| |done|done|].
  { eapply Forall_impl; [exact (others_apart _ _ _ HP Hr)|]. intros q [->|Hq]; [by left|right]. unfold apart in *. lia. }
  { intros va p f Hp. pose proof (Hsub _ _ Hp) as Hold. split; [done|]. intros Hc. destruct (HN va p f Hold) as (Hdv & pg & Hv & Hfr & _).
    rewrite (view_elem _ va r HP Hin Hc) in Hv. injection Hv as <-. apply covers_spec in Hc. destruct (decide (va < e)) as [Hlt|Hge].
    - split; [apply Hc'; lia|apply Hpg; lia].
    - rewrite (Hgone va p Hdv ltac:(lia) Hfr) in Hp. done. }
  eexists _, _, frees. split; [done|]. split; [|split; [done|split; [|split]]].
  - destruct G1 as (G1a & G1b & G1c). split; [done|]. split; [|done]. rewrite F2. by eapply no_stale_refs.
  - intros va. cbn [regions set_regions]. cbn [regions set_regions] in G2. rewrite G2. destruct (covers va r') eqn:Ec.
    + apply Hc' in Ec. rewrite Hpg by done. rewrite decide_False by lia. symmetry. apply view_elem; [done|done|]. apply covers_spec. lia.
    + destruct (covers va r) eqn:Ec'.
      * apply covers_spec in Ec'. assert (~ (start r <= va < e)) by (intros Hx%Hc'; congruence). by rewrite decide_True by lia.
      * rewrite decide_False; [done|]. intros Hx. cut (covers va r = true); [congruence|]. apply covers_spec. lia.
  - rewrite F4. unfold w1. cbn [log emit set_pt]. by rewrite <- app_assoc.
  - done.
Qed.

(** Raising the end of an anonymous demand-paged region to [e]; also what
    [grow_in_place] does. *)
Lemma heap_grow_spec idx r e a w :
  vm_ok a w -> regions a !! idx = Some (Some r) -> lazy r = true -> is_file_backed (file_cap r) = false ->
  (PAGE_SIZE | e) -> end_ r < e < 2 ^ 64 -> Forall (fun q => q = r \/ ~ (start q < e /\ end_ r < end_ q)) (live (regions a)) ->
  let a' := set_regions (<[idx := Some (set_end e r)]> (regions a)) a in
  vm_ok a' w /\ (forall va, end_ r <= va < e -> view (live (regions a)) va = None /\ p_frame <$> view (live (regions a')) va = Some None)
  /\ forall va, ~ end_ r <= va < e -> view (live (regions a')) va = view (live (regions a)) va.
Proof.
  intros HV Hr El Hcap Hd He Hfree a'. pose proof HV as (HS & HN & HR). pose proof HS as [HF HP].
  assert (r ∈ live (regions a)) as Hin by (apply live_elem; by eapply list_elem_of_lookup_2). rewrite Forall_forall in HF. pose proof (HF r Hin) as Rr.
  pose proof (ro_range r Rr) as Hrr. set (r' := set_end e r).
  assert (region_ok r') as Rr'.
  { split; try apply Rr; cbn; try done; try lia; [|by rewrite El].
    intros Hl i Hi. apply (ro_len r Rr Hl). etrans; [|exact Hi]. apply Z.div_le_mono; [done|lia]. }
  assert (Forall (fun q => q = r \/ apart r q /\ apart r' q) (live (regions a))) as Hap.
  { pose proof (others_apart _ _ _ HP Hr) as Ho. rewrite Forall_forall in Ho, Hfree |- *. intros q Hq. destruct (Ho q Hq) as [|Ha]; [by left|].
    destruct (Hfree q Hq) as [|Hx]; [by left|right]. split; [done|]. pose proof (ro_range q (HF q Hq)). unfold apart in *. cbn. lia. }
  destruct (replace_region a w idx r r' (pt w) w HV Hr Rr') as [G1 G2]; [|by intros va p f Hp; split; [done|]; intros Hc%covers_spec; split; [apply covers_spec; cbn; lia|done]|done|done|].
  { eapply Forall_impl; [exact Hap|]. cbn. tauto. }
  split; [exact G1|]. assert (forall va, covers va r' = true <-> start r <= va < e) as Hc' by (intros va; apply covers_spec). split.
  - intros va Hva. split.
    + apply view_none. intros q Hq. destruct (covers va q) eqn:Eq; [|done]. apply covers_spec in Eq. rewrite Forall_forall in Hap.
      destruct (Hap q Hq) as [->|[_ Hx]]; [lia|]. unfold apart in Hx. cbn in Hx. lia.
    + unfold a'. rewrite G2, (proj2 (Hc' va)) by lia. cbn. unfold frame_of. cbn [set_end lazy r']. rewrite El.
      change (frame_at r' (idx_of r' va)) with (frame_at r (idx_of r va)). rewrite (ro_len r Rr El); [done|].
      unfold idx_of. rewrite Z2Nat.id by (apply Z.div_pos; [lia|done]). apply Z.div_le_mono; [done|lia].
  - intros va Hva. unfold a'. rewrite G2. destruct (covers va r') eqn:Ec.
    + apply Hc' in Ec. change (page_no r' (idx_of r' va)) with (page_no r (idx_of r va)). symmetry. apply view_elem; [done|done|]. apply covers_spec. lia.
    + destruct (covers va r) eqn:Ec'; [|done]. apply covers_spec in Ec'. assert (start r <= va < e) as Hx by lia. apply Hc' in Hx. congruence.
Qed.

(** The break was not moved because another region is in the way. *)
Definition brk_refused (e : Z) (a a' : AddressSpace) (w w' : world T) : Prop :=
  heap_top a < e /\ (exists q, q ∈ live (regions a) /\ start q < e /\ heap_top a < end_ q)
  /\ (forall va, view (live (regions a')) va = view (live (regions a)) va) /\ pt w' = pt w /\ log w' = log w.

(** The break was moved from [heap_top] to [e]. *)
Record brk_moved (e : Z) (a a' : AddressSpace) (w w' : world T) : Prop := {
  bm_end : e = heap_top a \/ heap_end a' = e;
  bm_cut : forall va, e <= va < heap_top a -> view (live (regions a')) va = None;
  bm_new : forall va, heap_top a <= va < e -> view (live (regions a)) va = None /\ p_frame <$> view (live (regions a')) va = Some None;
  bm_same : forall va, ~ (e <= va < heap_top a \/ heap_top a <= va < e) -> view (live (regions a')) va = view (live (regions a)) va;
  bm_log : exists flush frees, log w' = log w ++ flush ++ frees /\ Forall (fun c => is_free c = true) frees /\
    (frees = [] \/ flush = [TlbFlush e ((heap_top a - e) / PAGE_SIZE)]) }.

Lemma page_up_fits x : fits x -> (PAGE_SIZE | page_up x) /\ x <= page_up x < x + PAGE_SIZE /\ page_up x < 2 ^ 64.
Proof.
  intros Hf. rewrite (page_up_spec x Hf). destruct (pages_of_spec x Hf) as [_ Hp]. destruct Hf. split; [by exists (pages_of x)|]. lia.
Qed.

(** The first call makes the heap region. *)
Lemma brk_create e a w : vm_ok a w -> (PAGE_SIZE | heap_start a) -> 0 < heap_start a < e -> e < 2 ^ 64 -> (PAGE_SIZE | e) ->
  position (starts_at (heap_start a)) (regions a) = None ->
  exists ok a' w', map_lazy (heap_start a) (e - heap_start a) (Z.lor (Z.lor PRESENT USER) WRITABLE) false a w = (ok, a', w') /\ vm_ok a' w' /\
    heap_start a' = heap_start a /\ if ok then brk_moved e a (set_heap_end e a') w w' else brk_refused e a a' w w'.
Proof.
  intros HV Hds Hs He Hde Hp. pose proof (heap_top_None a Hp) as Ht. assert (fits (e - heap_start a)) as Hf.
  { unfold fits. split; [lia|]. destruct Hds as [x Hx], Hde as [y Hy]. unfold PAGE_SIZE in *. lia. }
  assert (page_down (heap_start a) = heap_start a) as Ed by (apply page_down_aligned; [unfold is_u64; lia|done]).
  assert (heap_start a + pages_of (e - heap_start a) * PAGE_SIZE = e) as Ee.
  { destruct (pages_of_spec _ Hf) as [_ Hb]. destruct Hds as [x Hx], Hde as [y Hy]. unfold PAGE_SIZE in *. lia. }
  destruct (record_lazy (heap_start a) (e - heap_start a) (Z.lor (Z.lor PRESENT USER) WRITABLE) (Z.lor PROT_READ PROT_WRITE) (Z.lor MAP_ANONYMOUS MAP_PRIVATE) 0 0 0 a w [] HV
    ltac:(unfold is_u64; lia) Hf ltac:(unfold PAGE_SIZE; lia)) as (ok & a' & w' & E & G1 & [G2 G3] & G4 & G5 & G6).
  rewrite Ed, Ee in *. cbn [fresh_vma start end_] in G2. exists ok, a', w'. split; [|split; [done|split]].
  - unfold map_lazy. rewrite (fits_nonzero _ Hf), Ed, <- E. destruct (slot_for (regions a)) as [slot rs]. destruct (place _ _ rs) as [[? ?]|c]; [|done]. by rewrite emit_nil.
  - destruct (slot_for (regions a)) as [slot rs]. destruct (place _ _ rs) as [[? ?]|c]; by injection E as <- <- <-.
  - rewrite (proj2 (Z.ltb_lt e (2 ^ 64))) in G2 by lia. cbn [andb] in G2. subst ok.
    destruct (range_free (live (regions a)) (heap_start a) e) eqn:Ef; cbn [andb] in G3.
    + assert (forall va fl pv n pr mf, covers va (fresh_vma (heap_start a) e 0 fl true pv n pr mf 0 0 0) = true <-> heap_start a <= va < e) as Hc by (intros; apply covers_spec).
      split; rewrite ?Ht; [by right|lia| | |].
      * intros va Hva. split; [by apply (free_view _ (heap_start a) e)|]. change (regions (set_heap_end e a')) with (regions a'). rewrite G3, (proj2 (Hc _ _ _ _ _ _) Hva). done.
      * intros va Hva. change (regions (set_heap_end e a')) with (regions a'). rewrite G3. destruct (covers va _) eqn:Ec; [|done]. apply Hc in Ec. lia.
      * exists [], []. rewrite G6. split_and!; [done|done|by left].
    + split; [lia|]. rewrite Ht. split; [|split; [done|split; [done|by rewrite G6, app_nil_r]]].
      unfold range_free in Ef. apply negb_false_iff, existsb_exists in Ef as (q & Hq & Eo). exists q. unfold overlaps in Eo.
      rewrite andb_true_iff, !Z.ltb_lt in Eo. split; [by apply list_elem_of_In|lia].
Qed.

Lemma heap_slot a idx : position (starts_at (heap_start a)) (regions a) = Some idx ->
  exists r, regions a !! idx = Some (Some r) /\ start r = heap_start a /\ r ∈ live (regions a).
Proof.
  intros (o & Ho & Hs)%position_Some. destruct o as [r|]; [|done]. exists r. split; [done|]. split; [by apply Z.eqb_eq|].
  apply live_elem. by eapply list_elem_of_lookup_2.
Qed.

(** The overlap test of [brk] against the other regions. *)
Lemma brk_test rs idx r e : rs !! idx = Some (Some r) ->
  if existsb (fun q => (start q <? e) && (end_ r <? end_ q)) (live (<[idx := None]> rs)) then exists q, q ∈ live rs /\ start q < e /\ end_ r < end_ q
  else Forall (fun q => q = r \/ ~ (start q < e /\ end_ r < end_ q)) (live rs).
Proof.
  intros Hr. destruct (live_at _ _ _ Hr) as (rest & Hl & Hins). specialize (Hins None). change (option_list None ++ rest) with rest in Hins.
  change (option_list (Some r) ++ rest) with (r :: rest) in Hl. destruct (existsb _ _) eqn:E.
  - apply existsb_exists in E as (q & Hq & Eq). rewrite andb_true_iff, !Z.ltb_lt in Eq. exists q. split; [|done]. rewrite Hl. right. apply list_elem_of_In in Hq. by rewrite Hins in Hq.
  - rewrite Hl. apply Forall_cons. split; [by left|]. apply Forall_forall. intros q Hq. right. intros Hx. apply not_true_iff_false in E. apply E, existsb_exists.
    exists q. split; [apply list_elem_of_In; by rewrite Hins|]. by rewrite andb_true_iff, !Z.ltb_lt.
Qed.

(** [brk] to an address above the start of the heap never panics, keeps the
    invariant and moves the top of the heap region to the rounded address, or
    refuses, changing nothing, exactly when it must grow into another region.
    Moving the top up adds absent pages, moving it down removes the pages above
    it, and every other page of the address space stays as it was; frames go
    back only after the TLB flush of exactly the removed range.  The answer is
    the new break, or the current one on a refusal. *)
Theorem brk_spec new_end a w :
  vm_ok a w -> heap_lazy a -> (PAGE_SIZE | heap_start a) -> 0 < heap_start a -> fits new_end -> heap_start a < page_up new_end ->
  exists ret a' w', brk new_end a w = Some (ret, a', w') /\ vm_ok a' w' /\ heap_start a' = heap_start a /\
    (ret = current_break a /\ brk_refused (page_up new_end) a a' w w' \/ ret = page_up new_end /\ brk_moved (page_up new_end) a a' w w').
Proof.
  intros HV Hlz Hds Hs Hf Hlt. pose proof HV as (HS & _ & _). destruct (page_up_fits new_end Hf) as (Hde & _ & He). unfold brk.
  rewrite (fits_nonzero _ Hf), (proj2 (Z.eqb_neq (heap_start a) 0)) by lia. set (e := page_up new_end) in *.
  destruct (position (starts_at (heap_start a)) (regions a)) as [idx|] eqn:Ep.
  - destruct (heap_slot a idx Ep) as (r & Hr & Hrs & Hin). rewrite Hr. cbn [mjoin option_join mbind option_bind].
    destruct (Hlz r Hin Hrs) as [El Ecap]. pose proof (heap_top_Some a r HS Hin Hrs) as Ht. destruct (Z.eqb_spec e (end_ r)) as [Ee|Ee].
    + exists e, a, w. split; [done|]. split; [done|]. split; [done|]. right. split; [done|]. split; rewrite ?Ht; [left; lia|lia|lia|done|].
      exists [], []. by rewrite app_nil_r; split_and!; [done|done|left].
    + destruct (Z.ltb_spec (end_ r) e) as [Hgt|Hle].
      * pose proof (brk_test (regions a) idx r e Hr) as Hfree. destruct (existsb _ _).
        { eexists _, _, _. split; [done|]. split; [done|]. split; [done|]. left. split; [done|]. unfold brk_refused. rewrite Ht. done. }
        destruct (heap_grow_spec idx r e a w HV Hr El Ecap Hde ltac:(lia) Hfree) as (G1 & G2 & G3).
        eexists _, _, _. split; [done|]. split; [exact G1|]. split; [done|]. right. split; [done|]. split; rewrite ?Ht; [by right|lia|exact G2| |].
        { intros va Hva. apply G3. lia. }
        { exists [], []. by rewrite app_nil_r; split_and!; [done|done|left]. }
      * destruct (heap_shrink_spec idx r e a w HV Hr El Hde ltac:(lia)) as (a' & w' & frees & -> & G1 & G2 & G3 & G4 & G5). cbn [mbind option_bind].
        eexists _, _, _. split; [done|]. split; [exact G1|]. split; [done|]. right. split; [done|]. split; rewrite ?Ht; [by right| |lia| |].
        { intros va Hva. change (regions (set_heap_end e a')) with (regions a'). rewrite G3. by rewrite decide_True. }
        { intros va Hva. change (regions (set_heap_end e a')) with (regions a'). rewrite G3. by rewrite decide_False by lia. }
        { exists [TlbFlush e ((end_ r - e) / PAGE_SIZE)], frees. split_and!; [done|done|by right]. }
  - rewrite (proj2 (Z.leb_gt _ _)) by lia. destruct (brk_create e a w HV Hds ltac:(lia) He Hde Ep) as (ok & a' & w' & -> & G1 & G2 & G3).
    destruct ok; eexists _, _, _; (split; [done|]); (split; [exact G1|]); (split; [exact G2|]); [right|left]; done.
Qed.

(** C32: [brk] does not check its argument against the start of the heap.  Once
    the heap region exists, a break below it is accepted and answered as a success,
    and leaves a region that ends before its own start: the
    invariant is broken, and no page-table entry is removed and no frame is
    released although the program's heap is gone from the view. *)
Theorem brk_below_heap new_end r a w :
  vm_ok a w -> r ∈ live (regions a) -> start r = heap_start a -> 0 < heap_start a -> fits new_end -> page_up new_end < heap_start a ->
  exists a' w', brk new_end a w = Some (page_up new_end, a', w') /\ pt w' = pt w /\ log w' = log w /\ ~ vm_ok a' w' /\
    forall va, covers va r = true -> view (live (regions a')) va = None.
Proof.
  intros HV Hin Hrs Hs Hf Hle. pose proof HV as ([HF HP] & _ & _). pose proof HF as HF'. rewrite Forall_forall in HF'. pose proof (HF' r Hin) as Rr. pose proof (ro_range r Rr) as Hrr.
  pose proof (ro_top r Rr). destruct (page_up_fits new_end Hf) as (_ & Hup & _). unfold brk.
  rewrite (fits_nonzero _ Hf), (proj2 (Z.eqb_neq (heap_start a) 0)) by lia. set (e := page_up new_end) in *.
  destruct (position (starts_at (heap_start a)) (regions a)) as [idx|] eqn:Ep.
  2: { apply position_None in Ep. rewrite Forall_forall in Ep. specialize (Ep (Some r) (proj1 (live_elem _ _) Hin)). cbn in Ep. apply Z.eqb_neq in Ep. done. }
  destruct (heap_slot a idx Ep) as (q & Hr & Hqs & Hq). assert (q = r) as ->.
  { pose proof (ro_range q (HF' q Hq)). pose proof (find_unique _ (start r) r HP Hin ltac:(apply covers_spec; lia)) as F1.
    rewrite (find_unique _ (start r) q HP Hq) in F1 by (apply covers_spec; lia). by injection F1. }
  rewrite Hr. cbn [mjoin option_join mbind option_bind]. rewrite (proj2 (Z.eqb_neq e (end_ r))), (proj2 (Z.ltb_ge (end_ r) e)) by lia. unfold brk_shrink. cbn [set_end start lazy_pages].
  set (first := wrap64 (e - start r) / PAGE_SIZE). set (last := wrap64 (wrap64 (end_ r - start r) + PAGE_SIZE - 1) / PAGE_SIZE).
  assert (last <= first) as Hbig.
  { assert (end_ r + PAGE_SIZE <= 2 ^ 64) by (destruct (ro_end r Rr) as [n Hn]; unfold PAGE_SIZE in *; lia).
    assert (0 < e) by (destruct Hf; lia). unfold last, first. apply Z.div_le_mono; [done|]. unfold wrap64.
    rewrite (Z.mod_small (end_ r - start r)) by lia. replace (e - start r) with (e - start r + 2 ^ 64 + (-1) * 2 ^ 64) by lia.
    rewrite Z.mod_add, (Z.mod_small (e - start r + 2 ^ 64)) by lia. unfold PAGE_SIZE in *. rewrite Z.mod_small by lia. lia. }
  unfold range. rewrite (proj2 (Z.ltb_ge _ _)) by lia. cbn [clear_pages mbind option_bind]. rewrite Z.max_l, Z.eqb_refl by lia.
  destruct (hiwater_regions a) as [Hh1 Hh2]. rewrite Hh1. eexists _, _. split; [done|]. split; [done|]. split; [done|].
  destruct (live_at _ _ _ Hr) as (rest & Hl & Hins). specialize (Hins (Some (set_end e r))).
  change (option_list (Some r) ++ rest) with (r :: rest) in Hl. change (option_list (Some (set_end e r)) ++ rest) with (set_end e r :: rest) in Hins. split.
  - intros ([HR' _] & _). cbn [regions set_heap_end set_regions] in HR'. rewrite Hins in HR'. apply Forall_cons in HR' as [HR' _]. pose proof (ro_range _ HR') as Hx. cbn in Hx. lia.
  - intros va Hc. cbn [regions set_heap_end set_regions]. apply view_none. intros x Hx. rewrite Hins in Hx. apply elem_of_cons in Hx as [->|Hx].
    + apply not_true_iff_false. rewrite covers_spec. cbn. lia.
    + pose proof (pairwise_perm _ _ Hl HP) as [Hap _]. rewrite Forall_forall in Hap. by apply (apart_covers r), Hc; apply Hap.
Qed.

End brk.

(** A heap of two pages, one of them touched. *)
Definition heap_region : VmaRegion := mkVma 65536 73728 0 7 true (default PageVec.new (PageVec.from [20480])) 1 3 34 0 0 0 false [].
Definition heap_space : AddressSpace := mkAs [Some heap_region] 65536 73728 0 0 0.
Definition heap_world : world (gmap Z (Z * Z)) := mkWorld (<[65536 := (20480, 7)]> ∅) ∅ 0 [].

Lemma heap_space_ok : vm_ok heap_space heap_world.
Proof.
  assert (PageVec.wf (lazy_pages heap_region) /\ to_list (lazy_pages heap_region) = [20480]) as [W L].
  { cbn [heap_region lazy_pages]. destruct (from_spec [20480]) as (v & -> & W & L). done. }
  split; [|split].
  - split; [|done]. constructor; [|done]. split; try done.
    + by exists 16.
    + by exists 18.
    + intros _ i Hge. change ((end_ heap_region - start heap_region) / PAGE_SIZE) with 2 in Hge. rewrite frame_at_list, L, lookup_ge_None_2; [done| |done]. cbn. lia.
  - intros va p f Hp. cbn in Hp. apply lookup_insert_Some in Hp as [[<- [= <- <-]]|[_ Hp]]; [split; [by exists 16|by eexists]|]. by rewrite lookup_empty in Hp.
  - apply map_Forall_empty.
Qed.

Lemma brk_spec_witness :
  exists a' w', brk 90000 heap_space heap_world = Some (90112, a', w') /\ view (live (regions a')) 65536 = view (live (regions heap_space)) 65536
    /\ p_frame <$> view (live (regions a')) 86016 = Some None.
Proof.
  assert (fits 90000) as Hf by (unfold fits, PAGE_SIZE; lia).
  destruct (brk_spec 90000 heap_space heap_world heap_space_ok) as (ret & a' & w' & E & _ & _ & G).
  - intros r Hr _. apply list_elem_of_singleton in Hr as ->. done.
  - by exists 16.
  - done.
  - done.
  - vm_compute. reflexivity.
  - exists a', w'. change (page_up 90000) with 90112 in G. destruct G as [[-> [_ [(q & Hq & H1 & H2) _]]]|[-> [_ _ G1 G2 _]]].
    + apply list_elem_of_singleton in Hq as ->. cbn in H2. lia.
    + change (heap_top heap_space) with 73728 in *. split; [exact E|]. split; [apply G2; lia|apply G1; lia].
Defined.

Lemma brk_below_heap_witness :
  exists a' w', brk 4096 heap_space heap_world = Some (4096, a', w') /\ ~ vm_ok a' w' /\ view (live (regions a')) 65536 = None /\ pte (pt w') 65536 = Some (20480, 7).
Proof.
  assert (fits 4096) as Hf by (unfold fits, PAGE_SIZE; lia).
  destruct (brk_below_heap 4096 heap_region heap_space heap_world heap_space_ok) as (a' & w' & E & Hp & _ & Hn & Hv).
  - left.
  - done.
  - done.
  - done.
  - vm_compute. reflexivity.
  - exists a', w'. split; [exact E|]. split; [exact Hn|]. split; [apply Hv; reflexivity|]. rewrite Hp. vm_compute. reflexivity.
Defined.
