(* ===== verification/VmmDiscard.v ===== *)
(** * Address spaces: [madvise(MADV_DONTNEED)]

    Proofs about [discard_range] of [Vmm]: which pages it drops, that it does so
    safely, and that its answer says whether the whole range is mapped. *)
From S2P Require Import Prelude KLib PageSites PageRef PageVec Vmm VmmView VmmMap VmmOps VmmBrk.
#[local] Open Scope Z_scope.

(** Private demand-paged regions lose their frames; shared and device mappings
    are left alone and eager ones are zeroed in place. *)
Definition droppable (r : VmaRegion) : bool := lazy r && negb (has (map_flags r) MAP_SHARED) && negb (file_cap r =? U64_MAX).

(** ** How much of a range is mapped *)
Definition overlap (v e : Z) (r : VmaRegion) : Z := Z.max 0 (Z.min (end_ r) e - Z.max (start r) v).
Fixpoint sum_overlap (v e : Z) (l : list VmaRegion) : Z := match l with [] => 0 | r :: l => overlap v e r + sum_overlap v e l end.
Definition mapped_pages (v : Z) (n : nat) (l : list VmaRegion) : Z := countb (fun i => existsb (covers (va_of v i)) l) (seq 0 n).

Lemma countb_seq_S f n : countb f (seq 0 (S n)) = countb f (seq 0 n) + (if f n then 1 else 0).
Proof. rewrite seq_S, countb_app. cbn. destruct (f n); lia. Qed.

Lemma overlap_count r v n : region_ok r -> (PAGE_SIZE | v) ->
  overlap v (v + Z.of_nat n * PAGE_SIZE) r = PAGE_SIZE * countb (fun i => covers (va_of v i) r) (seq 0 n).
Proof.
  intros R [q Hq]. destruct (ro_start r R) as [s Hs], (ro_end r R) as [t Ht]. pose proof (ro_range r R). unfold overlap, PAGE_SIZE in *.
  induction n as [|n IH]; [cbn [seq countb]; lia|]. rewrite countb_seq_S. destruct (covers (va_of v n) r) eqn:E.
  - apply covers_spec in E. unfold va_of, PAGE_SIZE in E. lia.
  - apply not_true_iff_false in E. rewrite covers_spec in E. unfold va_of, PAGE_SIZE in E. lia.
Qed.

Lemma countb_ext {A} (f g : A -> bool) l : (forall x, f x = g x) -> countb f l = countb g l.
Proof. intros H. induction l as [|x l IH]; [done|]. cbn. by rewrite H, IH. Qed.

Lemma countb_disjoint {A} (f g : A -> bool) l : (forall x, f x = true -> g x = false) -> countb (fun x => f x || g x) l = countb f l + countb g l.
Proof. intros H. induction l as [|x l IH]; [done|]. cbn. rewrite IH. destruct (f x) eqn:E; [rewrite (H x E)|destruct (g x)]; cbn; lia. Qed.

Lemma sum_overlap_spec l v n : space_ok l -> (PAGE_SIZE | v) ->
  sum_overlap v (v + Z.of_nat n * PAGE_SIZE) l = PAGE_SIZE * mapped_pages v n l.
Proof.
  intros HS Hd. unfold mapped_pages. induction l as [|r l IH]; cbn [sum_overlap existsb].
  - assert (countb (fun _ : nat => false) (seq 0 n) = 0) as ->; [|lia]. induction (seq 0 n); cbn; lia.
  - apply space_ok_cons in HS as (R & Hap & HS). rewrite IH, overlap_count by done.
    rewrite (countb_disjoint (fun i => covers (va_of v i) r) (fun i => existsb (covers (va_of v i)) l)); [lia|].
    intros i Hc. apply not_true_iff_false. intros (q & Hq & Hcq)%existsb_exists. rewrite Forall_forall in Hap. apply list_elem_of_In, Hap in Hq.
    by rewrite (apart_covers r q) in Hcq.
Qed.

(** The sum is the whole range exactly when every page of it is mapped. *)
Lemma fully_mapped l v n : space_ok l -> (PAGE_SIZE | v) ->
  0 <= sum_overlap v (v + Z.of_nat n * PAGE_SIZE) l <= Z.of_nat n * PAGE_SIZE /\
  (sum_overlap v (v + Z.of_nat n * PAGE_SIZE) l = Z.of_nat n * PAGE_SIZE <-> forall i, (i < n)%nat -> view l (va_of v i) <> None).
Proof.
  intros HS Hd. rewrite (sum_overlap_spec l v n HS Hd). unfold mapped_pages. set (f := fun i => _).
  pose proof (countb_bounds f (seq 0 n)) as Hb. rewrite length_seq in Hb. split; [unfold PAGE_SIZE; lia|].
  assert (PAGE_SIZE * countb f (seq 0 n) = Z.of_nat n * PAGE_SIZE <-> countb f (seq 0 n) = Z.of_nat (length (seq 0 n))) as ->.
  { rewrite length_seq. unfold PAGE_SIZE. lia. }
  rewrite countb_all, Forall_forall. assert (forall i, f i = true <-> view l (va_of v i) <> None) as Hf.
  { intros i. unfold f. rewrite existsb_exists. split.
    - intros (q & Hq%list_elem_of_In & Hc). by rewrite (view_elem l _ q (proj2 HS) Hq Hc).
    - intros Hv. destruct (view l (va_of v i)) as [pg|] eqn:E; [|done]. apply view_inv in E as (q & Hq & Hc & _). exists q. split; [by apply list_elem_of_In|done]. }
  setoid_rewrite Hf. split; intros Hi i Hx; apply Hi; [apply elem_of_seq; lia|apply elem_of_seq in Hx; lia].
Qed.

Lemma idx_ge r b va : region_ok r -> (PAGE_SIZE | b) -> start r <= b -> start r <= va ->
  (b - start r) / PAGE_SIZE <= Z.of_nat (idx_of r va) <-> b <= va.
Proof.
  intros R [k Hk] Hb Hv. destruct (ro_start r R) as [s Hs]. unfold idx_of. rewrite Z2Nat.id by (apply Z.div_pos; [lia|done]).
  rewrite Hk, Hs, <- Z.mul_sub_distr_r, Z.div_mul by done. split; intros Hx.
  - pose proof (Z.mul_div_le (va - s * PAGE_SIZE) PAGE_SIZE page_pos). unfold PAGE_SIZE in *. lia.
  - apply Z.div_le_lower_bound; [done|]. unfold PAGE_SIZE in *. lia.
Qed.

Lemma discarded_absent r i : frame_of r i = None -> discarded (page_no r i) = page_no r i.
Proof. intros Hf. unfold discarded. cbn [page_no p_frame]. by rewrite Hf. Qed.

Definition is_zero (c : call) : bool := match c with Zero _ _ => true | _ => false end.

Section discard.
Context {T : Type} `{PageTable T}.
Implicit Types (t : T) (w : world T).

(** What the loop does to one region. *)
Record dropped (v e : Z) (r r' : VmaRegion) t t' : Prop := {
  dr_ok : region_ok r';
  dr_range : start r' = start r /\ end_ r' = end_ r;
  dr_page : forall va, covers va r = true ->
    page_no r' (idx_of r va) = if droppable r && bool_decide (v <= va < e) then discarded (page_no r (idx_of r va)) else page_no r (idx_of r va);
  dr_sub : forall va q, pte t' va = Some q -> pte t va = Some q;
  dr_gone : forall va p, (PAGE_SIZE | va) -> covers va r = true -> v <= va < e -> droppable r = true -> frame_of r (idx_of r va) = Some p -> pte t' va = None }.

Lemma dropped_same v e r t : region_ok r -> droppable r = false \/ end_ r <= v \/ e <= start r -> dropped v e r r t t.
Proof.
  intros R Hn. split; try done.
  - intros va Hc%covers_spec. destruct (droppable r); [|done]. cbn. rewrite bool_decide_eq_false_2; [done|]. destruct Hn; [done|lia].
  - intros va p _ Hc%covers_spec Hva Hd. rewrite Hd in Hn. destruct Hn; [done|lia].
Qed.

Lemma dropped_pages v e r t rel : region_ok r -> (PAGE_SIZE | v) -> (PAGE_SIZE | e) -> droppable r = true -> ~ (end_ r <= v \/ e <= start r) ->
  let lo := Z.max (start r) v in
  let hi := Z.min (end_ r) e in
  let first := Z.to_nat ((lo - start r) / PAGE_SIZE) in
  let last := Nat.min (Z.to_nat ((hi - start r) / PAGE_SIZE)) (PageVec.len (lazy_pages r)) in
  exists r' t' fs, clear_pages (seq first (last - first)) r t rel = Some (r', t', rel ++ fs) /\ dropped v e r r' t t'.
Proof.
  intros R Dv De Hdr Hov lo hi first last. assert (lazy r = true) as El by (unfold droppable in Hdr; by destruct (lazy r)). pose proof (ro_range r R) as Hrr.
  assert ((PAGE_SIZE | lo) /\ (PAGE_SIZE | hi)) as [Dlo Dhi].
  { unfold lo, hi. destruct (Z.max_spec (start r) v) as [[_ ->]|[_ ->]], (Z.min_spec (end_ r) e) as [[_ ->]|[_ ->]]; split; (apply R || done). }
  assert (0 <= (lo - start r) / PAGE_SIZE /\ 0 <= (hi - start r) / PAGE_SIZE) as [N1 N2] by (split; apply Z.div_pos; (lia || done)).
  destruct (clear_pages_spec (seq first (last - first)) r t rel) as (r' & t' & E & C & P); [apply R|apply NoDup_seq| |].
  { apply Forall_forall. intros i Hi%elem_of_seq. lia. }
  assert (forall va, covers va r = true -> (v <= va < e -> frame_at r (idx_of r va) = 0 \/ idx_of r va ∈ seq first (last - first)) /\ (idx_of r va ∈ seq first (last - first) -> v <= va < e)) as Hidx.
  { intros va Hc%covers_spec. pose proof (idx_ge r lo va R Dlo ltac:(lia) ltac:(lia)) as I1. pose proof (idx_ge r hi va R Dhi ltac:(lia) ltac:(lia)) as I2. rewrite elem_of_seq. split.
    - intros Hva. destruct (decide (idx_of r va < PageVec.len (lazy_pages r))%nat); [right; lia|left]. rewrite frame_at_list by apply R.
      rewrite lookup_ge_None_2; [done|]. rewrite length_to_list. lia.
    - lia. }
  exists r', t', (frames_in (seq first (last - first)) r). split; [exact E|]. pose proof (cl_same _ _ _ C) as (S1 & S2 & _). split.
  - apply (cleared_ok (seq first (last - first)) r r' (end_ r)); [done|done|lia|apply R|by destruct r|]. intros i Hi. right. by apply (ro_len r R El).
  - done.
  - intros va Hc. rewrite (cleared_page _ r r' _ El C), Hdr. cbn [andb]. destruct (Hidx va Hc) as [H1 H2]. destruct (bool_decide (idx_of r va ∈ _)) eqn:Eb.
    + apply bool_decide_eq_true in Eb. by rewrite bool_decide_eq_true_2 by auto.
    + apply bool_decide_eq_false in Eb. destruct (bool_decide (v <= va < e)) eqn:Ev; [|done]. apply bool_decide_eq_true in Ev. symmetry. apply discarded_absent.
      unfold frame_of. rewrite El. by destruct (H1 Ev) as [->|].
  - intros va q Hq. rewrite P in Hq. by case_decide.
  - intros va p Hd Hc Hva _ Hf. rewrite P, decide_True; [done|]. unfold frame_of in Hf. rewrite El in Hf. apply list_elem_of_fmap. exists (idx_of r va).
    pose proof (proj1 (covers_spec va r) Hc). split; [apply idx_va; lia || done|]. apply list_elem_of_In, filter_In. rewrite <- list_elem_of_In.
    destruct (Z.eqb_spec (frame_at r (idx_of r va)) 0); [done|]. split; [|done]. by destruct (proj1 (Hidx va Hc) Hva).
Qed.

Lemma discard_one v e r x : region_ok r -> (PAGE_SIZE | v) -> (PAGE_SIZE | e) -> v <= e ->
  exists r' x' zs, discard_region v e r (Some x) = (Some r', Some x') /\ dropped v e r r' (pt (d_w x)) (pt (d_w x')) /\ page_refs (d_w x') = page_refs (d_w x)
    /\ wrap64 (d_covered x') = wrap64 (d_covered x + overlap v e r) /\ (is_u64 (d_covered x) -> is_u64 (d_covered x'))
    /\ log (d_w x') = log (d_w x) ++ zs /\ Forall (fun c => is_zero c = true) zs.
Proof.
  intros R Dv De Hve. unfold discard_region. destruct ((end_ r <=? v) || (e <=? start r)) eqn:Eo.
  { rewrite orb_true_iff, !Z.leb_le in Eo. exists r, x, []. rewrite app_nil_r. split_and!; try done; [apply dropped_same; [done|by right]|].
    f_equal. unfold overlap. lia. }
  rewrite orb_false_iff, !Z.leb_gt in Eo.
  assert (forall c, wrap64 (wrap64 (c + (Z.min (end_ r) e - Z.max (start r) v))) = wrap64 (c + overlap v e r) /\ is_u64 (wrap64 (c + (Z.min (end_ r) e - Z.max (start r) v)))) as Hcov.
  { intros c. unfold wrap64, is_u64. rewrite Zmod_mod. split; [f_equal; unfold overlap; pose proof (ro_range r R); lia|]. by apply Z.mod_pos_bound. }
  destruct (Hcov (d_covered x)) as [Hc1 Hc2].
  destruct (has (map_flags r) MAP_SHARED || (file_cap r =? U64_MAX)) eqn:Es.
  { eexists r, _, []. split; [done|]. cbn. rewrite app_nil_r. split_and!; try done. apply dropped_same; [done|left]. unfold droppable.
    apply orb_true_iff in Es as [-> | ->]; cbn; by rewrite ?andb_false_r. }
  destruct (lazy r) eqn:El.
  - assert (droppable r = true) as Hdr.
    { unfold droppable. apply orb_false_iff in Es as [-> ->]. by rewrite El. }
    destruct (dropped_pages v e r (pt (d_w x)) (d_released x) R Dv De Hdr ltac:(lia)) as (r' & t' & fs & -> & HD).
    eexists r', _, []. split; [done|]. cbn. rewrite app_nil_r. split_and!; try done.
  - assert (dropped v e r r (pt (d_w x)) (pt (d_w x))) as HD by (apply dropped_same; [done|left]; unfold droppable; by rewrite El).
    destruct (negb (phys r =? 0) && negb (is_file_backed (file_cap r))); [eexists r, _, [_]|eexists r, _, []]; (split; [done|]); cbn; rewrite ?app_nil_r; split_and!; try done.
    by constructor.
Qed.

(** One region of the old table and its successor. *)
Definition succeeds (v e : Z) (r r' : VmaRegion) : Prop :=
  start r' = start r /\ end_ r' = end_ r /\
  forall va, covers va r = true ->
    page_no r' (idx_of r' va) = if droppable r && bool_decide (v <= va < e) then discarded (page_no r (idx_of r va)) else page_no r (idx_of r va).

Lemma dropped_step v e r r' rest t t' rf : space_ok (r :: rest) -> no_stale (r :: rest) t rf -> dropped v e r r' t t' ->
  space_ok (r' :: rest) /\ no_stale (r' :: rest) t' rf.
Proof.
  intros HS HN [D1 [D2 D3] D4 D5 D6]. pose proof HS as HS'. apply space_ok_cons in HS' as (R & Hap & HS'). assert (Forall (apart r') rest) as Hap'.
  { eapply Forall_impl; [exact Hap|]. intros q Hq. unfold apart in *. by rewrite D2, D3. }
  split; [by apply space_ok_cons|]. eapply replace_stale; [exact HN|done|]. intros va p f Hp. pose proof (D5 _ _ Hp) as Hold. split; [done|]. intros Hc.
  split; [apply covers_spec; rewrite D2, D3; by apply covers_spec|]. rewrite (idx_start r' r va D2), (D4 va Hc). destruct (droppable r) eqn:Ed; [|done].
  cbn [andb]. destruct (bool_decide (v <= va < e)) eqn:Ev; [|done]. apply bool_decide_eq_true in Ev. destruct (HN va p f Hold) as (Hd & pg & Hv & Hfr & _).
  rewrite view_cons, Hc in Hv. injection Hv as <-. by rewrite (D6 va p Hd Hc Ev eq_refl Hfr) in Hp.
Qed.

Lemma discard_fold v e P rs x : (PAGE_SIZE | v) -> (PAGE_SIZE | e) -> v <= e -> space_ok (P ++ live rs) -> no_stale (P ++ live rs) (pt (d_w x)) (page_refs (d_w x)) ->
  exists rs' x' zs, for_slots (discard_region v e) rs (Some x) = (rs', Some x') /\ Forall2 (succeeds v e) (live rs) (live rs')
    /\ space_ok (P ++ live rs') /\ no_stale (P ++ live rs') (pt (d_w x')) (page_refs (d_w x)) /\ page_refs (d_w x') = page_refs (d_w x)
    /\ wrap64 (d_covered x') = wrap64 (d_covered x + sum_overlap v e (live rs)) /\ (is_u64 (d_covered x) -> is_u64 (d_covered x'))
    /\ log (d_w x') = log (d_w x) ++ zs /\ Forall (fun c => is_zero c = true) zs.
Proof.
  intros Dv De Hve. revert P x. induction rs as [|[r|] rs IH]; intros P x HS HN.
  - exists [], x, []. change (sum_overlap v e (live [])) with 0. rewrite Z.add_0_r.
    split; [done|]. split; [constructor|]. split; [done|]. split; [done|]. split; [done|]. split; [done|]. split; [done|]. split; [|constructor].
    by rewrite app_nil_r.
  - change (live (Some r :: rs)) with (r :: live rs) in *. assert (P ++ r :: live rs ≡ₚ r :: P ++ live rs) as HP by by rewrite Permutation_middle.
    pose proof (space_ok_perm _ _ HP HS) as HS1. assert (no_stale (r :: P ++ live rs) (pt (d_w x)) (page_refs (d_w x))) as HN1.
    { eapply no_stale_view; [|exact HN]. intros va. symmetry. apply view_perm; [done|apply HS]. }
    destruct (discard_one v e r x (proj1 (proj1 (space_ok_cons _ _) HS1)) Dv De Hve) as (r' & x1 & zs1 & E1 & HD & A1 & A2 & A3 & A4 & A5).
    destruct (dropped_step v e r r' (P ++ live rs) _ _ _ HS1 HN1 HD) as [HS2 HN2].
    assert (P ++ r' :: live rs ≡ₚ r' :: P ++ live rs) as HP2 by by rewrite Permutation_middle.
    destruct (IH (P ++ [r']) x1) as (rs' & x' & zs2 & E2 & B1 & B2 & B3 & B4 & B5 & B6 & B7 & B8); rewrite <- ?app_assoc in *; cbn [app] in *.
    + eapply space_ok_perm; [symmetry; exact HP2|done].
    + rewrite A1. eapply no_stale_view; [|exact HN2]. intros va. apply view_perm; [done|]. eapply pairwise_perm; [symmetry; exact HP2|apply HS2].
    + exists (Some r' :: rs'), x', (zs1 ++ zs2). cbn [for_slots]. rewrite E1, E2. split; [done|]. change (live (Some r' :: rs')) with (r' :: live rs').
      split; [constructor; [|done]; destruct HD as [_ [D2 D3] D4 _ _]; split_and!; [done|done|]; intros va Hc; rewrite (idx_start r' r va D2); by apply D4|].
      split; [done|]. split; [by rewrite <- A1|]. split; [by rewrite B4|]. split.
      * rewrite B5. cbn [sum_overlap]. unfold wrap64 in *. rewrite <- Zplus_mod_idemp_l, A2, Zplus_mod_idemp_l. f_equal. lia.
      * split; [auto|]. split; [by rewrite B7, A4, app_assoc|by apply Forall_app].
  - change (live (None :: rs)) with (live rs) in *. destruct (IH P x HS HN) as (rs' & x' & zs & E & HX). exists (None :: rs'), x', zs. cbn [for_slots]. rewrite E. split; [done|]. exact HX.
Qed.

Lemma succeeds_view v e l l' va : Forall2 (succeeds v e) l l' ->
  view l' va = match List.find (covers va) l with
               | Some r => Some (if droppable r && bool_decide (v <= va < e) then discarded (page_no r (idx_of r va)) else page_no r (idx_of r va))
               | None => None
               end.
Proof.
  induction 1 as [|r r' l l' (S1 & S2 & S3) HF IH]; [done|]. rewrite view_cons. cbn [List.find].
  assert (covers va r' = covers va r) as -> by (unfold covers; by rewrite S1, S2). destruct (covers va r) eqn:Ec; [|done]. by rewrite S3.
Qed.

(** [discard_range] ([MADV_DONTNEED]) never panics and keeps the invariant.
    In the rounded range, every page of a private demand-paged region loses its
    frame and its written mark, so that it next reads as a page never touched;
    every other page of the address space is as before, eager regions being
    zeroed in place.  No frame goes back before the TLB flush of the range.  The
    answer is true exactly when every page of the range is mapped. *)
Theorem discard_range_spec virt len a w :
  vm_ok a w -> is_u64 virt -> fits len ->
  let v := page_down virt in
  let n := pages_of len in
  let e := v + n * PAGE_SIZE in
  if e <? 2 ^ 64 then
    exists ok a' w' zs flush frees, discard_range virt len a w = Some (ok, a', w') /\ vm_ok a' w'
      /\ (ok = true <-> forall i, Z.of_nat i < n -> view (live (regions a)) (va_of v i) <> None)
      /\ (forall va, view (live (regions a')) va =
            match find a va with
            | Some r => Some (if droppable r && bool_decide (v <= va < e) then discarded (page_no r (idx_of r va)) else page_no r (idx_of r va))
            | None => None
            end)
      /\ log w' = log w ++ zs ++ flush ++ frees /\ Forall (fun c => is_zero c = true) zs /\ Forall (fun c => is_free c = true) frees
      /\ (frees = [] \/ flush = [TlbFlush v n])
  else discard_range virt len a w = Some (false, a, w).
Proof.
  intros HV Hvirt Hs v n e. unfold discard_range. rewrite (page_up_spec len Hs). fold v n. unfold checked_add. fold e.
  destruct (Z.ltb_spec e (2 ^ 64)) as [He|He]; [|done]. destruct (request_bounds virt len Hvirt Hs He) as (D1 & D2 & D3). fold v n e in D1, D2, D3.
  rewrite (proj2 (Z.eqb_neq (n * PAGE_SIZE) 0)) by lia. destruct HV as (HS & HN & HR). destruct (hiwater_regions a) as [Hh _]. rewrite Hh.
  destruct (discard_fold v e [] (regions a) (mkD w 0 []) D1 D2 ltac:(lia) HS HN) as (rs' & x & zs & -> & G1 & G2 & G3 & G4 & G5 & G6 & G7 & G8).
  cbn [mbind option_bind app d_w d_covered] in *. specialize (G6 ltac:(unfold is_u64; lia)). rewrite Z.div_mul by done.
  assert (0 <= n) as Hn0 by (unfold PAGE_SIZE in *; lia).
  destruct (fully_mapped (live (regions a)) v (Z.to_nat n) HS D1) as [M1 M2]. rewrite Z2Nat.id in M1, M2 by done. fold e in M1, M2.
  assert (d_covered x = sum_overlap v e (live (regions a))) as Hcov.
  { unfold wrap64 in G5. rewrite (Z.mod_small (d_covered x)), (Z.mod_small (0 + _)) in G5 by (unfold is_u64, PAGE_SIZE in *; lia). lia. }
  destruct (free_frames_spec (d_released x) (emit [TlbFlush v n] (d_w x))) as (F1 & F2 & F3 & frees & F4 & F5 & _); [by cbn; rewrite G4|].
  assert ((d_covered x =? n * PAGE_SIZE) = true <-> forall i, Z.of_nat i < n -> view (live (regions a)) (va_of v i) <> None) as Hok.
  { rewrite Z.eqb_eq, Hcov, M2. split; intros Hi i Hx; apply Hi; lia. }
  assert (forall va, view (live rs') va = match find a va with Some r => Some (if droppable r && bool_decide (v <= va < e) then discarded (page_no r (idx_of r va)) else page_no r (idx_of r va)) | None => None end) as Hv
    by (intros va; apply (succeeds_view v e _ _ va G1)).
  destruct (length (d_released x) =? 0)%nat.
  - eexists _, _, _, zs, [], []. split; [done|]. split; [split; [exact G2|]; rewrite G4; done|]. split; [done|]. split; [exact Hv|].
    rewrite G7. cbn [app]. rewrite app_nil_r. split; [done|]. split; [done|]. split; [constructor|by left].
  - eexists _, _, _, zs, [TlbFlush v n], frees. split; [done|]. split; [split; [exact G2|]|].
    + rewrite F2. split; [|done]. eapply no_stale_refs; [exact F3|]. cbn [pt emit page_refs]. by rewrite G4.
    + split; [done|]. split; [exact Hv|]. split; [rewrite F4; cbn [log emit]; by rewrite G7, <- !app_assoc|]. split_and!; [done|done|by right].
Qed.

End discard.

Lemma discard_range_spec_witness :
  exists a' w', discard_range 65536 4096 heap_space heap_world = Some (true, a', w') /\ p_frame <$> view (live (regions a')) 65536 = Some None
    /\ pte (pt w') 65536 = None /\ log w' = [TlbFlush 65536 1; BuddyFree 20480 0].
Proof.
  assert (fits 4096) as Hf by (unfold fits, PAGE_SIZE; lia).
  pose proof (discard_range_spec 65536 4096 heap_space heap_world heap_space_ok ltac:(unfold is_u64; lia) Hf) as Hs. cbv zeta in Hs.
  assert ((page_down 65536 + pages_of 4096 * PAGE_SIZE <? 2 ^ 64) = true) as Hb by (vm_compute; reflexivity). rewrite Hb in Hs.
  destruct Hs as (ok & a' & w' & zs & flush & frees & E & _ & _ & Hv & _).
  assert (option_map (fun '(ok, a, w) => (ok, pte (pt w) 65536, log w)) (discard_range 65536 4096 heap_space heap_world)
    = Some (true, None, [TlbFlush 65536 1; BuddyFree 20480 0])) as Hc by (vm_compute; reflexivity).
  rewrite E in Hc. cbn [option_map] in Hc. injection Hc as -> H1 H2. exists a', w'. split; [exact E|]. split; [|done]. rewrite Hv. vm_compute. reflexivity.
Defined.
