(* ===== verification/VmmResize.v ===== *)
(** * Address spaces: growing in place, and the write-access check

    Proofs about [grow_in_place] (the [mremap] that does not move) and
    [range_writable] of [Vmm] against the view of [VmmView].  The loop of
    [range_writable] jumps from region to region; the reference definition it is
    compared with asks every address. *)
From S2P Require Import Prelude KLib PageSites PageRef PageVec Vmm VmmView VmmMap VmmOps VmmBrk.
#[local] Open Scope Z_scope.

(** ** Write access *)

(** A store by the program to this page is allowed, possibly after a fault. *)
Definition page_writable (p : page) : bool := has (p_prot p) PROT_WRITE || contains (p_flags p) WRITABLE.

Definition addr_writable (l : list VmaRegion) (va : Z) : Prop :=
  exists p, view l va = Some p /\ page_writable p = true.

(** Regions the loop can still enter. *)
Definition ahead_of (va : Z) (l : list VmaRegion) : nat := length (List.filter (fun r => va <? end_ r) l).

Lemma filter_shrinks {A} (f g : A -> bool) (l : list A) x :
  (forall y, f y = true -> g y = true) -> x ∈ l -> f x = false -> g x = true ->
  (length (List.filter f l) < length (List.filter g l))%nat.
Proof.
  intros Hfg. assert (forall k : list A, length (List.filter f k) <= length (List.filter g k))%nat as Hle.
  { induction k as [|y k IH]; [done|]. cbn. destruct (f y) eqn:Ef; [rewrite (Hfg _ Ef); cbn; lia|]. destruct (g y); cbn; lia. }
  induction l as [|y l IH]; intros Hx Hf Hg; [by apply not_elem_of_nil in Hx|]. apply elem_of_cons in Hx as [<-|Hx].
  - cbn. rewrite Hf, Hg. cbn. specialize (Hle l). lia.
  - cbn. specialize (IH Hx Hf Hg). destruct (f y) eqn:Ef; [rewrite (Hfg _ Ef); cbn; lia|]. destruct (g y); cbn; lia.
Qed.

Lemma ahead_decreases l va r : r ∈ l -> covers va r = true -> (ahead_of (end_ r) l < ahead_of va l)%nat.
Proof.
  intros Hr [Hc1 Hc2]%covers_spec. apply (filter_shrinks _ _ l r); [|done|by apply Z.ltb_irrefl|by apply Z.ltb_lt].
  intros q Hq%Z.ltb_lt. apply Z.ltb_lt. lia.
Qed.

Lemma page_writable_region r i : page_writable (page_no r i) = negb ((Z.land (prot r) PROT_WRITE =? 0) && negb (contains (flags r) WRITABLE)).
Proof. unfold page_writable, has. cbn [p_prot p_flags page_no]. by rewrite negb_andb, negb_involutive. Qed.

Lemma writable_loop_spec fuel l va e :
  pairwise l -> (ahead_of va l < fuel)%nat ->
  writable_loop fuel l va e = true <-> forall x, va <= x < e -> addr_writable l x.
Proof.
  intros HP. revert va. induction fuel as [|fuel IH]; intros va Hf; [lia|]. cbn [writable_loop].
  destruct (Z.ltb_spec va e) as [Hlt|Hge]; [|by split; [intros _ x Hx; lia|]].
  destruct (List.find (covers va) l) as [r|] eqn:Ef.
  2: { split; [done|]. intros Hall. destruct (Hall va ltac:(lia)) as (p & Hv & _). unfold view in Hv. by rewrite Ef in Hv. }
  apply find_some in Ef as [Hin%list_elem_of_In Hc]. pose proof (ahead_decreases l va r Hin Hc) as Hd.
  pose proof (proj1 (covers_spec _ _) Hc) as Hcv.
  assert (forall x, va <= x < end_ r -> view l x = Some (page_no r (idx_of r x))) as Hview by (intros; apply view_elem; [done|done|apply covers_spec; lia]).
  destruct ((Z.land (prot r) PROT_WRITE =? 0) && negb (contains (flags r) WRITABLE)) eqn:Ew.
  - split; [done|]. intros Hall. destruct (Hall va ltac:(lia)) as (p & Hv & Hp). rewrite Hview in Hv by lia. injection Hv as <-.
    by rewrite page_writable_region, Ew in Hp.
  - rewrite IH by lia. split; intros Hall x Hx; [|apply Hall; lia]. destruct (decide (x < end_ r)); [|apply Hall; lia].
    exists (page_no r (idx_of r x)). split; [apply Hview; lia|]. by rewrite page_writable_region, Ew.
Qed.

Lemma ahead_length va l : (ahead_of va l <= length l)%nat.
Proof. unfold ahead_of. apply List.filter_length_le. Qed.

(** [range_writable] visits each region of the range once, and answers what a
    test of every address would: true exactly when the range does not wrap and
    every address of it lies in a mapping the program may write. *)
Theorem range_writable_spec a addr len :
  space_ok (live (regions a)) -> 0 <= addr -> 0 < len ->
  range_writable a addr len = true <-> addr + len < 2 ^ 64 /\ forall va, addr <= va < addr + len -> addr_writable (live (regions a)) va.
Proof.
  intros [_ HP] Ha Hl. unfold range_writable, checked_add. rewrite (proj2 (Z.eqb_neq len 0)) by lia.
  destruct (Z.ltb_spec (addr + len) (2 ^ 64)); [|split; [done|lia]].
  rewrite writable_loop_spec; [by split; [|intros []]|done|]. pose proof (ahead_length addr (live (regions a))). lia.
Qed.

Lemma range_writable_spec_witness :
  range_writable demo_space 66000 8192 = true /\ addr_writable (live (regions demo_space)) 70000.
Proof.
  assert (range_writable demo_space 66000 8192 = true) as E by (vm_compute; reflexivity). split; [exact E|].
  apply (range_writable_spec demo_space 66000 8192) in E as [_ H]; [apply H; lia| |lia|lia]. apply demo_space_ok.
Defined.

(** ** Growing in place *)
Section grow.
Context {T : Type} `{PageTable T}.
Implicit Types (w : world T).

(** The condition under which the mapping that ends at the old end can take the
    new pages: it is anonymous, private and demand-paged, the new end is a user
    address, and nothing is mapped there. *)
Definition can_grow (a : AddressSpace) (addr old_end new_end : Z) : Prop :=
  exists r, r ∈ live (regions a) /\ covers addr r = true /\ end_ r = old_end /\ lazy r = true /\ file_cap r = 0
    /\ has (map_flags r) MAP_SHARED = false /\ new_end <= USER_END
    /\ forall va, old_end <= va < new_end -> view (live (regions a)) va = None.

(** No region in the way, as the code tests it and as the view shows it. *)
Lemma room_above l r e : space_ok l -> r ∈ l -> end_ r < e ->
  existsb (fun q => (start q <? e) && (end_ r <? end_ q)) l = false <-> forall va, end_ r <= va < e -> view l va = None.
Proof.
  intros [HF HP] Hr He. rewrite Forall_forall in HF. split.
  - intros E va Hva. apply view_none. intros q Hq. apply not_true_iff_false. intros Hc%covers_spec. apply not_true_iff_false in E. apply E.
    apply existsb_exists. exists q. split; [by apply list_elem_of_In|]. rewrite andb_true_iff, !Z.ltb_lt. lia.
  - intros Hall. apply not_true_iff_false. intros (q & Hq%list_elem_of_In & Eq)%existsb_exists. rewrite andb_true_iff, !Z.ltb_lt in Eq.
    pose proof (ro_range q (HF q Hq)). pose proof (ro_range r (HF r Hr)).
    assert (covers (Z.max (end_ r) (start q)) q = true) as Hc by (apply covers_spec; lia).
    specialize (Hall (Z.max (end_ r) (start q)) ltac:(lia)). by rewrite (view_elem l _ q) in Hall.
Qed.

Lemma position_covers a addr idx : position (fun o => match o with Some r => covers addr r | None => false end) (regions a) = Some idx ->
  exists r, regions a !! idx = Some (Some r) /\ covers addr r = true /\ r ∈ live (regions a).
Proof.
  intros (o & Ho & Hs)%position_Some. destruct o as [r|]; [|done]. exists r. split; [done|]. split; [done|].
  apply live_elem. by eapply list_elem_of_lookup_2.
Qed.

(** The outcome of [grow_in_place] from [old_end] to [new_end]. *)
Definition grown (a a' : AddressSpace) (w : world T) (old_end new_end : Z) : Prop :=
  vm_ok a' w
  /\ (forall va, old_end <= va < new_end -> p_frame <$> view (live (regions a')) va = Some None)
  /\ (forall va, ~ old_end <= va < new_end -> view (live (regions a')) va = view (live (regions a)) va).

Lemma low_bits_mod x : Z.land x (PAGE_SIZE - 1) = x mod PAGE_SIZE.
Proof. change (PAGE_SIZE - 1) with (Z.ones 12). by rewrite Z.land_ones. Qed.

(** The mapping that covers [addr] decides. *)
Lemma can_grow_iff a addr r old_end new_end :
  space_ok (live (regions a)) -> r ∈ live (regions a) -> covers addr r = true -> old_end < new_end ->
  can_grow a addr old_end new_end <->
  (end_ r <? old_end) = false
  /\ negb (old_end =? end_ r) || negb (lazy r && (file_cap r =? 0) && negb (has (map_flags r) MAP_SHARED)) || (USER_END <? new_end) = false
  /\ existsb (fun q => (start q <? new_end) && (end_ r <? end_ q)) (live (regions a)) = false.
Proof.
  intros HS Hr Hc Hlt. rewrite !orb_false_iff, !negb_false_iff, !andb_true_iff, negb_true_iff, !Z.eqb_eq, !Z.ltb_ge. split.
  - intros (q & Hq & Hcq & He & Hl & Hf & Hm & Hu & Hv). assert (q = r) as ->.
    { pose proof (find_unique _ addr q (proj2 HS) Hq Hcq) as E. rewrite (find_unique _ addr r (proj2 HS) Hr Hc) in E. by injection E. }
    rewrite room_above by (done || lia). rewrite He. split_and!; done || lia.
  - intros (H1 & ((H2 & (H3 & H4) & H5) & H6) & H7). rewrite room_above in H7 by (done || lia). exists r. rewrite <- H2 in H7. by split_and!.
Qed.

Definition is_errno (e : Z) : Prop := e = -22 \/ e = -14 \/ e = -12.

(** [grow_in_place] answers the address exactly when the range ends an
    anonymous private demand-paged mapping and the room above is free user
    space; then the mapping gains absent pages up to the new end, every other page
    stays, and the invariant holds.  Otherwise it answers EINVAL, EFAULT or ENOMEM,
    and the address space is untouched. *)
Theorem grow_in_place_spec addr old_len new_len a w :
  vm_ok a w -> is_u64 addr -> 0 <= old_len < new_len -> (PAGE_SIZE | new_len) ->
  let '(ret, a') := grow_in_place addr old_len new_len a in
  (ret = addr /\ (PAGE_SIZE | addr) /\ can_grow a addr (addr + old_len) (addr + new_len) /\ grown a a' w (addr + old_len) (addr + new_len))
  \/ (is_errno ret /\ a' = a /\ ~ ((PAGE_SIZE | addr) /\ can_grow a addr (addr + old_len) (addr + new_len))).
Proof.
  intros HV Ha Hl Hd. pose proof HV as (HS & _ & _). pose proof HS as [HF HP]. rewrite Forall_forall in HF. unfold grow_in_place. rewrite low_bits_mod.
  destruct (Z.eqb_spec (addr mod PAGE_SIZE) 0) as [Hm|Hm]; cbn [negb].
  2: { right. split; [by left|]. split; [done|]. intros [Hx _]. by apply Hm, Z.mod_divide. }
  apply Z.mod_divide in Hm; [|done]. unfold checked_add. destruct (Z.ltb_spec (addr + old_len) (2 ^ 64)) as [Ho|Ho].
  2: { right. split; [by right; left|]. split; [done|]. intros [_ (r & Hr & _ & He & _)]. pose proof (ro_top r (HF r Hr)). lia. }
  destruct (Z.ltb_spec (addr + new_len) (2 ^ 64)) as [Hn|Hn].
  2: { right. split; [by right; right|]. split; [done|]. intros [_ (r & _ & _ & _ & _ & _ & _ & He & _)]. unfold USER_END in He. rewrite Z.shiftl_1_l in He. lia. }
  destruct (position _ (regions a)) as [idx|] eqn:Ep.
  2: { right. split; [by right; left|]. split; [done|]. intros [_ (r & Hr & Hc & _)]. apply position_None in Ep. rewrite Forall_forall in Ep.
       specialize (Ep (Some r) (proj1 (live_elem _ _) Hr)). cbn in Ep. congruence. }
  destruct (position_covers a addr idx Ep) as (r & Hr & Hc & Hin). rewrite Hr. cbn [mjoin option_join].
  pose proof (can_grow_iff a addr r (addr + old_len) (addr + new_len) HS Hin Hc ltac:(lia)) as Hiff.
  destruct (end_ r <? addr + old_len). { right. split; [by right; left|]. split; [done|]. rewrite Hiff. by intros (_ & ? & _). }
  match type of Hiff with _ <-> _ /\ ?b = false /\ _ => destruct b eqn:Eb end. { right. split; [by right; right|]. split; [done|]. rewrite Hiff. by intros (_ & _ & ? & _). }
  destruct (existsb _ _) eqn:Ex. { right. split; [by right; right|]. split; [done|]. rewrite Hiff. by intros (_ & _ & _ & ?). }
  left. split; [done|]. split; [done|]. split; [by apply Hiff|]. rewrite !orb_false_iff, !negb_false_iff, !andb_true_iff, negb_true_iff, !Z.eqb_eq in Eb.
  destruct Eb as ((He & (Hlz & Hcap) & _) & _). rewrite He in *.
  destruct (heap_grow_spec idx r (addr + new_len) a w HV Hr Hlz) as (G1 & G2 & G3); [unfold is_file_backed; by rewrite Hcap|by apply Z.divide_add_r|lia| |].
  { apply Forall_forall. intros q Hq. right. intros Hx. apply not_true_iff_false in Ex. apply Ex, existsb_exists. exists q.
    split; [by apply list_elem_of_In|]. by rewrite andb_true_iff, !Z.ltb_lt. }
  split; [exact G1|]. split; [|exact G3]. intros va Hva. by apply G2.
Qed.
End grow.

Lemma grow_in_place_spec_witness :
  exists a', grow_in_place 65536 8192 16384 heap_space = (65536, a') /\ vm_ok a' heap_world
    /\ p_frame <$> view (live (regions a')) 77824 = Some None /\ view (live (regions heap_space)) 77824 = None.
Proof.
  pose proof (grow_in_place_spec 65536 8192 16384 heap_space heap_world heap_space_ok) as H.
  assert (exists a', grow_in_place 65536 8192 16384 heap_space = (65536, a')) as [a' E] by (eexists; vm_compute; reflexivity).
  rewrite E in H. destruct H as [(_ & _ & _ & G1 & G2 & _)|(He & _)]; [unfold is_u64; lia|lia|by exists 4| |].
  - exists a'. split; [exact E|]. split; [exact G1|]. split; [apply G2; lia|vm_compute; reflexivity].
  - unfold is_errno in He. lia.
Defined.
