(* ===== verification/BTree.v ===== *)
(** * Ordered maps

    The model of [alloc::collections::BTreeMap<u64, V>] used by the page cache: the
    entries in increasing order of their keys, which is the order every iterator
    of the map visits them in.  [bset] writes or removes one entry; [range] is the
    iterator [range(lo..)].  The laws are those of a finite map, and [tally], the
    sum of a weight over the entries, changes by the entry that changes. *)
From S2P Require Import Prelude.
#[local] Open Scope Z_scope.

Section btree.
Context {V : Type}.
Implicit Types (l : list (Z * V)) (k : Z) (o : option V).

Fixpoint bget k l : option V :=
  match l with
  | [] => None
  | (k', v) :: l => if k =? k' then Some v else if k <? k' then None else bget k l
  end.

(** [insert(k, v)] is [bset k (Some v)]; [remove(&k)] is [bset k None]. *)
Fixpoint bset k o l : list (Z * V) :=
  match l with
  | [] => match o with Some v => [(k, v)] | None => [] end
  | (k', v') :: l' =>
      if k =? k' then match o with Some v => (k, v) :: l' | None => l' end
      else if k <? k' then match o with Some v => (k, v) :: l | None => l end
      else (k', v') :: bset k o l'
  end.

Definition range (lo : Z) l : list (Z * V) := List.filter (fun e => lo <=? e.1) l.

(** Keys are strictly increasing. *)
Fixpoint sorted l : Prop :=
  match l with
  | [] => True
  | (k, _) :: l => Forall (fun e => k < e.1) l /\ sorted l
  end.

Fixpoint tally (f : V -> Z) l : Z :=
  match l with [] => 0 | (_, v) :: l => f v + tally f l end.

Definition opt (f : V -> Z) o : Z := match o with Some v => f v | None => 0 end.

Lemma bget_below k l : Forall (fun e => k < e.1) l -> bget k l = None.
Proof.
  destruct l as [|[k' v] l]; [done|]. intros [Hk _]%Forall_cons. cbn in *.
  by rewrite (proj2 (Z.eqb_neq k k')), (proj2 (Z.ltb_lt k k')) by lia.
Qed.

Lemma sorted_tail e l : sorted (e :: l) -> sorted l.
Proof. destruct e. by intros []. Qed.

Lemma bget_elem l k v : sorted l -> bget k l = Some v <-> (k, v) ∈ l.
Proof.
  induction l as [|[k' v'] l IH]; intros HS; [cbn; by rewrite elem_of_nil|]. destruct HS as [HF HS]. cbn. rewrite elem_of_cons, <- (IH HS).
  destruct (Z.eqb_spec k k') as [->|Hne]; [|destruct (Z.ltb_spec k k')].
  - rewrite (bget_below k' l HF). naive_solver.
  - rewrite bget_below; [naive_solver|]. eapply Forall_impl; [exact HF|]. cbn. lia.
  - naive_solver.
Qed.

Lemma bset_bound k o l m : m < k -> Forall (fun e => m < e.1) l -> Forall (fun e => m < e.1) (bset k o l).
Proof.
  intros Hm. induction l as [|[k' v'] l IH]; intros HF; cbn.
  - destruct o; [by constructor|done].
  - apply Forall_cons in HF as [H1 H2]. destruct (k =? k'), (k <? k'), o; rewrite ?Forall_cons; auto.
Qed.

Lemma bset_sorted k o l : sorted l -> sorted (bset k o l).
Proof.
  induction l as [|[k' v'] l IH]; intros HS; [by destruct o|]. destruct HS as [HF HS]. cbn.
  destruct (Z.eqb_spec k k') as [->|Hne]; [by destruct o|]. destruct (Z.ltb_spec k k').
  - destruct o; [|done]. split; [|done]. constructor; [done|]. eapply Forall_impl; [exact HF|]. cbn. lia.
  - split; [|auto]. apply bset_bound; [lia|done].
Qed.

Lemma bget_bset k o l k' : sorted l -> bget k' (bset k o l) = if decide (k' = k) then o else bget k' l.
Proof.
  induction l as [|[k1 v1] l IH]; intros HS.
  - cbn. destruct o as [v|]; cbn; [|by case_decide]. case_decide as E; [subst; by rewrite Z.eqb_refl|]. rewrite (proj2 (Z.eqb_neq k' k)) by done. by destruct (k' <? k).
  - destruct HS as [HF HS]. cbn [bset]. destruct (Z.eqb_spec k k1) as [->|Hne]; [|destruct (Z.ltb_spec k k1) as [Hlt|Hge]].
    + destruct o as [v|]; cbn [bget]; case_decide as E; [subst; by rewrite Z.eqb_refl|by rewrite (proj2 (Z.eqb_neq k' k1))| |].
      * subst. by apply bget_below.
      * rewrite (proj2 (Z.eqb_neq k' k1)) by done. destruct (Z.ltb_spec k' k1); [|done]. apply bget_below. eapply Forall_impl; [exact HF|]. cbn. lia.
    + destruct o as [v|]; cbn [bget].
      * case_decide as E; [subst; by rewrite Z.eqb_refl|]. rewrite (proj2 (Z.eqb_neq k' k)) by done.
        destruct (Z.ltb_spec k' k); [|done]. by rewrite (proj2 (Z.eqb_neq k' k1)), (proj2 (Z.ltb_lt k' k1)) by lia.
      * case_decide as E; [subst k'|done]. by rewrite (proj2 (Z.eqb_neq k k1)), (proj2 (Z.ltb_lt k k1)) by lia.
    + cbn [bget]. rewrite (IH HS). case_decide as E; [subst k'|done]. by rewrite (proj2 (Z.eqb_neq k k1)), (proj2 (Z.ltb_ge k k1)) by lia.
Qed.

Lemma tally_bset f k o l : sorted l -> tally f (bset k o l) = tally f l - opt f (bget k l) + opt f o.
Proof.
  induction l as [|[k1 v1] l IH]; intros HS; [destruct o; cbn; lia|]. destruct HS as [HF HS]. cbn.
  destruct (Z.eqb_spec k k1) as [->|Hne]; [destruct o; cbn; lia|]. destruct (Z.ltb_spec k k1); [destruct o; cbn; lia|].
  cbn. rewrite (IH HS). lia.
Qed.

Lemma tally_ge f l : (forall v, 0 <= f v) -> 0 <= tally f l.
Proof. intros Hf. induction l as [|[k v] l IH]; cbn; [lia|]. specialize (Hf v). lia. Qed.

Lemma tally_le_entry f l k v : (forall v, 0 <= f v) -> bget k l = Some v -> f v <= tally f l.
Proof.
  intros Hf. induction l as [|[k1 v1] l IH]; [done|]. cbn. pose proof (tally_ge f l Hf). pose proof (Hf v1).
  destruct (k =? k1); [intros [= ->]; lia|]. destruct (k <? k1); [done|]. intros Hg. specialize (IH Hg). lia.
Qed.

Lemma tally_zero f l : (forall v, 0 <= f v) -> sorted l -> tally f l = 0 <-> forall k v, bget k l = Some v -> f v = 0.
Proof.
  intros Hf HS. split.
  - intros H0 k v Hg. pose proof (tally_le_entry f l k v Hf Hg). specialize (Hf v). lia.
  - induction l as [|[k1 v1] l IH]; intros Hall; [done|]. cbn. rewrite IH; [|apply HS|].
    + rewrite (Hall k1 v1); [done|]. cbn. by rewrite Z.eqb_refl.
    + intros k v Hg. apply (Hall k). apply bget_elem; [done|]. right. apply bget_elem; [apply HS|done].
Qed.

Lemma range_entry lo l e : e ∈ range lo l <-> e ∈ l /\ lo <= e.1.
Proof. unfold range. rewrite list_elem_of_In, filter_In, <- list_elem_of_In, Z.leb_le. done. Qed.

Lemma sorted_filter (g : Z * V -> bool) l : sorted l -> sorted (List.filter g l).
Proof.
  induction l as [|[k v] l IH]; [done|]. intros [HF HS]. cbn. destruct (g (k, v)); [|auto]. split; [|auto].
  apply Forall_forall. intros e [He _]%list_elem_of_In%filter_In. rewrite Forall_forall in HF. by apply HF, list_elem_of_In.
Qed.

Lemma range_sorted lo l : sorted l -> sorted (range lo l).
Proof. apply sorted_filter. Qed.

Lemma sorted_keys_nodup l : sorted l -> NoDup l.*1.
Proof.
  induction l as [|[k v] l IH]; intros HS; [constructor|]. destruct HS as [HF HS]. cbn. constructor; [|auto].
  intros ((k' & v') & -> & He)%list_elem_of_fmap. rewrite Forall_forall in HF. specialize (HF _ He). cbn in HF. lia.
Qed.

End btree.

Lemma bset_bset {V} k (o o' : option V) l : sorted l -> bset k o (bset k o' l) = bset k o l.
Proof.
  induction l as [|[k1 v1] l IH]; intros HS.
  - destruct o'; cbn; [|done]. by rewrite Z.eqb_refl.
  - destruct HS as [HF HS]. cbn [bset]. destruct (Z.eqb_spec k k1) as [->|Hne].
    + destruct o' as [v'|]; cbn; [by rewrite Z.eqb_refl|]. destruct l as [|[k2 v2] l]; [done|]. apply Forall_cons in HF as [HF _]. cbn in *.
      by rewrite (proj2 (Z.eqb_neq k1 k2)), (proj2 (Z.ltb_lt k1 k2)) by lia.
    + destruct (Z.ltb_spec k k1).
      * destruct o' as [v'|]; cbn; [by rewrite Z.eqb_refl|]. by rewrite (proj2 (Z.eqb_neq k k1)), (proj2 (Z.ltb_lt k k1)) by lia.
      * cbn [bset]. rewrite (proj2 (Z.eqb_neq k k1)), (proj2 (Z.ltb_ge k k1)) by lia. f_equal. auto.
Qed.

(** Two maps with the same entries are the same list. *)
Lemma sorted_ext {V} (l l' : list (Z * V)) : sorted l -> sorted l' -> (forall k, bget k l = bget k l') -> l = l'.
Proof.
  revert l'. induction l as [|[k v] l IH]; intros l' HS HS' Heq.
  - destruct l' as [|[k' v'] l']; [done|]. specialize (Heq k'). cbn in Heq. by rewrite Z.eqb_refl in Heq.
  - destruct l' as [|[k' v'] l']; [specialize (Heq k); cbn in Heq; by rewrite Z.eqb_refl in Heq|]. destruct HS as [HF HS], HS' as [HF' HS'].
    assert (k = k') as <-.
    { pose proof (Heq k) as H1. pose proof (Heq k') as H2. cbn in H1, H2. rewrite Z.eqb_refl in H1, H2.
      destruct (Z.lt_trichotomy k k') as [Hl|[|Hl]]; [|done|].
      - by rewrite (proj2 (Z.eqb_neq k k')), (proj2 (Z.ltb_lt k k')) in H1 by lia.
      - by rewrite (proj2 (Z.eqb_neq k' k)), (proj2 (Z.ltb_lt k' k)) in H2 by lia. }
    assert (v = v') as <- by (specialize (Heq k); cbn in Heq; rewrite Z.eqb_refl in Heq; by injection Heq). f_equal. apply IH; [done|done|].
    intros j. specialize (Heq j). cbn in Heq. destruct (Z.eqb_spec j k) as [Ej|]; [rewrite Ej; by rewrite !bget_below|].
    destruct (Z.ltb_spec j k); [|done]. rewrite !bget_below; [done| |]; (eapply Forall_impl; [eassumption|]); cbn; lia.
Qed.

Lemma bset_id {V} k (o : option V) l : sorted l -> bget k l = o -> bset k o l = l.
Proof.
  intros HS Ho. apply sorted_ext; [by apply bset_sorted|done|]. intros j. rewrite bget_bset by done. case_decide; [by subst|done].
Qed.
