(* ===== verification/PageCache.v ===== *)
(** * The page cache

    Models [src/mm/src/pagecache.rs]: one frame per (file, page), shared by reads
    and mappings.  [Cache.t] is the [CACHE] static with the counters beside it;
    an operation is what runs under the lock, with what it does after releasing
    it.  The page-reference table is part of the state, since eviction decides by
    it; [released] logs the frames returned to the buddy allocator, whose number of
    free pages ([free_pages]) grows with each, and [zeroed] logs the ranges of
    frames the operations clear.  Filled frames come in as an argument, the copies
    in and out of frames are the caller's.

    [DIRTY], [FILLING] and [MAPPED] change only under the lock, together with the
    entries they count: they are plain integers, proved equal to the number of
    those entries.  [CACHED] is not: [end_fill] adds to it after it has released
    the lock, so another call can subtract first and the word wraps.  The field
    [CACHED] holds the sum of the additions and subtractions made so far and a load
    ([cached_pages]) is that sum modulo 2^64, as [fetch_add] and [fetch_sub] compute
    it.  [uncounted] is a ghost: the pages published by calls of [end_fill] that
    have released the lock and not added them yet.  Left out: the statistics, which
    nothing reads back, and the maintenance of the instruction cache. *)
From S2P Require Import Prelude BTree PageSites PageRef.
#[local] Open Scope Z_scope.

Module Cache.

Definition ST_FILLING : Z := 0.
Definition ST_UPTODATE : Z := 1.

(** Bits of a page's flags. *)
Definition F_REF : Z := 1.
Definition F_DIRTY : Z := 2.
Definition F_EXEC : Z := 4.
Definition F_STALE : Z := 8.
Definition F_MAPPED : Z := 16.

(** [x & bit != 0], [x | bit], [x & !bit] *)
Definition on (x bit : Z) : bool := negb (Z.land x bit =? 0).
Definition raise (bit x : Z) : Z := Z.lor x bit.
Definition clear (bit x : Z) : Z := Z.ldiff x bit.

Record Page := mkPage { phys : Z; token : Z; state : Z; flags : Z }.
Definition set_flags (f : Z) (p : Page) : Page := mkPage (phys p) (token p) (state p) f.

Record FileEnt := mkFile {
  pages : list (Z * Page); size : Z; size_known : bool; orphan : bool; users : Z; ra_next : Z; ra_win : Z; atime_ok : Z; ndirty : Z }.
Definition file_eta (f : FileEnt) : FileEnt :=
  mkFile (pages f) (size f) (size_known f) (orphan f) (users f) (ra_next f) (ra_win f) (atime_ok f) (ndirty f).
Definition set_pages : list (Z * Page) -> FileEnt -> FileEnt := ltac:(setter file_eta pages).
Definition set_file_size : Z -> FileEnt -> FileEnt := ltac:(setter file_eta size).
Definition set_known : bool -> FileEnt -> FileEnt := ltac:(setter file_eta size_known).
Definition set_orphaned : bool -> FileEnt -> FileEnt := ltac:(setter file_eta orphan).
Definition set_users : Z -> FileEnt -> FileEnt := ltac:(setter file_eta users).
Definition set_ra_next : Z -> FileEnt -> FileEnt := ltac:(setter file_eta ra_next).
Definition set_ra_win : Z -> FileEnt -> FileEnt := ltac:(setter file_eta ra_win).
Definition set_atime_ok : Z -> FileEnt -> FileEnt := ltac:(setter file_eta atime_ok).
Definition set_ndirty : Z -> FileEnt -> FileEnt := ltac:(setter file_eta ndirty).
Definition new_file : FileEnt := mkFile [] 0 false false 0 U64_MAX 0 0 0.

Record t := mkCache {
  files : list (Z * FileEnt); hand : Z * Z; next_token : Z;
  CACHED : Z; uncounted : Z; DIRTY : Z; FILLING : Z; MAPPED : Z; HOLES : Z; EMERGENCY_HAND : Z;
  READ_CACHE : bool; CAP_PAGES : Z; total_pages : Z;
  frame_refs : refs; free_pages : Z; released : list Z; zeroed : list (Z * Z * Z) }.
Definition eta (c : t) : t :=
  mkCache (files c) (hand c) (next_token c) (CACHED c) (uncounted c) (DIRTY c) (FILLING c) (MAPPED c) (HOLES c) (EMERGENCY_HAND c)
    (READ_CACHE c) (CAP_PAGES c) (total_pages c) (frame_refs c) (free_pages c) (released c) (zeroed c).
Definition set_files : list (Z * FileEnt) -> t -> t := ltac:(setter eta files).
Definition set_hand : Z * Z -> t -> t := ltac:(setter eta hand).
Definition set_next_token : Z -> t -> t := ltac:(setter eta next_token).
Definition set_CACHED : Z -> t -> t := ltac:(setter eta CACHED).
Definition set_uncounted : Z -> t -> t := ltac:(setter eta uncounted).
Definition set_DIRTY : Z -> t -> t := ltac:(setter eta DIRTY).
Definition set_FILLING : Z -> t -> t := ltac:(setter eta FILLING).
Definition set_MAPPED : Z -> t -> t := ltac:(setter eta MAPPED).
Definition set_HOLES : Z -> t -> t := ltac:(setter eta HOLES).
Definition set_EMERGENCY_HAND : Z -> t -> t := ltac:(setter eta EMERGENCY_HAND).
Definition set_READ_CACHE : bool -> t -> t := ltac:(setter eta READ_CACHE).
Definition set_CAP_PAGES : Z -> t -> t := ltac:(setter eta CAP_PAGES).
Definition set_refs : refs -> t -> t := ltac:(setter eta frame_refs).
Definition set_free_pages : Z -> t -> t := ltac:(setter eta free_pages).
Definition set_released : list Z -> t -> t := ltac:(setter eta released).
Definition set_zeroed : list (Z * Z * Z) -> t -> t := ltac:(setter eta zeroed).

(** ** Frames *)
Definition buddy_free (p : Z) (c : t) : t := set_released (released c ++ [p]) (set_free_pages (free_pages c + 1) c).
Definition unref (p : Z) (c : t) : t :=
  let '(last, r) := unref_or_free p (frame_refs c) in
  let c := set_refs r c in if last then buddy_free p c else c.
Definition unref_all (ps : list Z) (c : t) : t := foldl (fun c p => unref p c) c ps.
Definition pin (ps : list Z) (c : t) : t := set_refs (inc_many ps (frame_refs c)) c.

(** ** Configuration *)
Definition configure (read_cache : bool) (cap_mb : option Z) (c : t) : t :=
  let c := set_READ_CACHE read_cache c in
  match cap_mb with Some mb => set_CAP_PAGES (wrap64 (Z.shiftl mb 20) / PAGE_SIZE) c | None => c end.
Definition read_cache_enabled (c : t) : bool := READ_CACHE c.
Definition cap_pages (c : t) : Z := if CAP_PAGES c =? 0 then total_pages c / 2 else CAP_PAGES c.
Definition watermarks (c : t) : Z * Z := (total_pages c / 8, total_pages c / 6).
Definition hard_floor (c : t) : Z := total_pages c / 12.

(** A load of the counter. *)
Definition cached_pages (c : t) : Z := wrap64 (CACHED c).
(** Pages the cache could give back, with saturating subtractions. *)
Definition reclaimable_pages (c : t) : Z := Z.max 0 (Z.max 0 (cached_pages c - DIRTY c) - MAPPED c).

Definition pgoff_of (off : Z) : option Z := if off mod PAGE_SIZE =? 0 then Some (off / PAGE_SIZE) else None.

(** ** Entries *)
Definition published (p : Page) : bool := (state p =? ST_UPTODATE) && negb (phys p =? 0).
Definition filling (p : Page) : bool := state p =? ST_FILLING.
Definition dirty (p : Page) : bool := published p && on (flags p) F_DIRTY.
Definition mapped (p : Page) : bool := published p && on (flags p) F_MAPPED.

Definition file (key : Z) (c : t) : option FileEnt := bget key (files c).
Definition set_file (key : Z) (o : option FileEnt) (c : t) : t := set_files (bset key o (files c)) c.
Definition page_of (key pg : Z) (c : t) : option Page := fe ← file key c; bget pg (pages fe).
(** [fe.pages.insert(pg, p)] or [fe.pages.remove(&pg)] *)
Definition set_page (key pg : Z) (o : option Page) (c : t) : t :=
  match file key c with
  | Some fe => set_file key (Some (set_pages (bset pg o (pages fe)) fe)) c
  | None => c
  end.
(** [c.files.get_mut(&key)] and a change of the entry *)
Definition with_file (key : Z) (f : FileEnt -> FileEnt) (c : t) : t :=
  match file key c with Some fe => set_file key (Some (f fe)) c | None => c end.

(** [note_gone]: the counters of an entry that leaves [fe] *)
Definition note_gone (p : Page) (fe : FileEnt) (c : t) : FileEnt * t :=
  if published p then
    let c := set_CACHED (CACHED c - 1) c in
    let '(fe, c) := if on (flags p) F_DIRTY then (set_ndirty (Z.max 0 (ndirty fe - 1)) fe, set_DIRTY (DIRTY c - 1) c) else (fe, c) in
    (fe, if on (flags p) F_MAPPED then set_MAPPED (MAPPED c - 1) c else c)
  else if filling p then (fe, set_FILLING (FILLING c - 1) c)
  else (fe, c).

(** ** File-level state *)
Definition file_size (key : Z) (c : t) : option Z :=
  fe ← file key c; if size_known fe then Some (size fe) else None.
Definition set_size (key sz : Z) (c : t) : t :=
  if key =? 0 then c
  else set_file key (Some (set_known true (set_file_size sz (default new_file (file key c))))) c.
Definition note_size (key sz : Z) (c : t) : t :=
  with_file key (fun fe => set_atime_ok 0 (if size_known fe then set_file_size sz fe else fe)) c.
Definition note_ctime (key : Z) (c : t) : t := with_file key (set_atime_ok 0) c.
Definition atime_due (key now period : Z) (c : t) : bool :=
  match file key c with
  | Some fe => (atime_ok fe =? 0) || (period <=? Z.max 0 (now - atime_ok fe))
  | None => true
  end.
Definition atime_checked (key now : Z) (c : t) : t := with_file key (set_atime_ok (Z.max now 1)) c.
Definition set_orphan (key : Z) (c : t) : t := with_file key (set_orphaned true) c.
Definition is_orphan (key : Z) (c : t) : bool := match file key c with Some fe => orphan fe | None => false end.
Definition orphans (c : t) : list Z := (List.filter (fun e => orphan e.2) (files c)).*1.

(** The frames whose references are dropped once the lock is released. *)
Definition drop_file_locked (key : Z) (c : t) : list Z * t :=
  if key =? 0 then ([], c)
  else match file key c with
  | None => ([], c)
  | Some fe =>
      let c := set_file key None c in
      let '(_, c) := foldl (fun '(fe, c) e => note_gone e.2 fe c) (set_pages [] fe, c) (pages fe) in
      (phys <$> List.filter published ((pages fe).*2), c)
  end.
Definition drop_file (key : Z) (c : t) : t := let '(gone, c) := drop_file_locked key c in unref_all gone c.

Definition key_get (key : Z) (c : t) : t :=
  if key =? 0 then c
  else let fe := default new_file (file key c) in set_file key (Some (set_users (wrap32 (users fe + 1)) fe)) c.
(** Whether that was the last user. *)
Definition key_put_locked (key : Z) (c : t) : bool * t :=
  match file key c with
  | None => (false, c)
  | Some fe => let u := Z.max 0 (users fe - 1) in (u =? 0, set_file key (Some (set_users u fe)) c)
  end.
Definition key_put (key : Z) (c : t) : t :=
  if key =? 0 then c
  else let '(last, c) := key_put_locked key c in if last && negb (read_cache_enabled c) then drop_file key c else c.

(** ** Reads *)
Inductive Run := Hit (frames : list Z) | Miss | Busy.

(** The published pages at [pgoff], [pgoff + 1], ..., at most [len]. *)
Fixpoint run (pgoff : Z) (len : nat) (ps : list (Z * Page)) : list (Z * Page) :=
  match len, ps with
  | S len, (pg, p) :: ps => if (pg =? pgoff) && published p then (pg, p) :: run (pgoff + 1) len ps else []
  | _, _ => []
  end.

Definition pin_run (key pgoff : Z) (len : nat) (c : t) : Run * t :=
  match file key c with
  | None => (Miss, c)
  | Some fe =>
      match run pgoff len (range pgoff (pages fe)) with
      | [] => (match len, range pgoff (pages fe) with
               | S _, (pg, p) :: _ => if (pg =? pgoff) && filling p then Busy else Miss
               | _, _ => Miss
               end, c)
      | ps =>
          let c := foldl (fun c e => set_page key e.1 (Some (set_flags (raise F_REF (flags e.2)) e.2)) c) c ps in
          (Hit (phys <$> ps.*2), pin (phys <$> ps.*2) c)
      end
  end.
Definition unpin (frames : list Z) (c : t) : t := unref_all frames c.
Definition pin_page (key pgoff : Z) (c : t) : option Z * t :=
  match pin_run key pgoff 1 c with (Hit (p :: _), c) => (Some p, c) | (_, c) => (None, c) end.

Definition RA_INIT : Z := 16.
Definition ra_window (key pgoff req max : Z) (c : t) : Z * t :=
  match file key c with
  | None => (Z.max req 1, c)
  | Some fe =>
      let seq := pgoff =? ra_next fe in
      let win := if seq then Z.max (Z.min (ra_win fe * 2) U32_MAX) RA_INIT else RA_INIT in
      let win := Z.min win (Z.max max 1) in
      let n := Z.max (Z.min (Z.max req win) (Z.max max req)) 1 in
      (n, set_file key (Some (set_ra_next (wrap64 (pgoff + n)) (set_ra_win (wrap32 win) fe))) c)
  end.

(** ** Fills *)
Definition absent (o : option Page) : bool :=
  match o with None => true | Some p => (state p =? ST_UPTODATE) && (phys p =? 0) end.

(** Placeholders for up to [want] absent pages from [pg] on, and their number. *)
Fixpoint fill_loop (want : nat) (key pg last tok : Z) (c : t) : nat * t :=
  match want with
  | O => (0%nat, c)
  | S want =>
      if (pg <=? last) && absent (page_of key pg c)
      then let '(n, c) := fill_loop want key (pg + 1) last tok (set_page key pg (Some (mkPage 0 tok ST_FILLING 0)) c) in (S n, c)
      else (0%nat, c)
  end.
Definition begin_fill (key pgoff : Z) (want : nat) (c : t) : option (Z * nat) * t :=
  let tok := next_token c in
  let c := set_next_token (Z.max (wrap32 (next_token c + 1)) 1) c in
  match file key c with
  | None => (None, c)
  | Some fe =>
      if negb (size_known fe) || (size fe =? 0) then (None, c)
      else
        let '(n, c) := fill_loop want key pgoff ((size fe - 1) / PAGE_SIZE) tok c in
        if (n =? 0)%nat then (None, c) else (Some (tok, n), set_FILLING (FILLING c + Z.of_nat n) c)
  end.

Definition ours (tok : Z) (o : option Page) : bool :=
  match o with Some p => filling p && (token p =? tok) | None => false end.

(** One frame of [end_fill]: the frame the caller must free, if any. *)
Definition publish (key tok pg fr : Z) (past : bool) (c : t) : option Z * t :=
  match page_of key pg c with
  | Some p =>
      if filling p && (token p =? tok) then
        let c := set_FILLING (FILLING c - 1) c in
        if on (flags p) F_STALE || past then (Some fr, set_page key pg None c)
        else (None, set_page key pg (Some (mkPage fr (token p) ST_UPTODATE F_REF)) c)
      else (Some fr, c)
  | None => (Some fr, c)
  end.
Fixpoint publish_loop (key tok pgoff valid : Z) (i : nat) (frames : list Z) (c : t) : list Z * t :=
  match frames with
  | [] => ([], c)
  | fr :: frames =>
      let '(o, c) := publish key tok (pgoff + Z.of_nat i) fr (valid <=? Z.of_nat i * PAGE_SIZE) c in
      let '(gone, c) := publish_loop key tok pgoff valid (S i) frames c in
      (option_list o ++ gone, c)
  end.
(** The section of [end_fill] under the lock: the frames left to the caller. *)
Definition end_fill_locked (key tok pgoff : Z) (frames : list Z) (valid : Z) (c : t) : list Z * t :=
  let '(freed, c) := match file key c with
                     | None => (frames, c)
                     | Some _ => publish_loop key tok pgoff valid 0 frames c
                     end in
  (freed, set_uncounted (uncounted c + Z.of_nat (length frames - length freed)) c).
(** [CACHED.fetch_add(published)], with the lock released. *)
Definition count_published (n : Z) (c : t) : t := set_uncounted (uncounted c - n) (set_CACHED (CACHED c + n) c).
(** The call, when nobody runs in between. *)
Definition end_fill (key tok pgoff : Z) (frames : list Z) (valid : Z) (c : t) : nat * t :=
  let '(freed, c) := end_fill_locked key tok pgoff frames valid c in
  let n := (length frames - length freed)%nat in
  (n, foldl (fun c p => buddy_free p c) (count_published (Z.of_nat n) c) freed).

Definition abort_fill (key tok pgoff : Z) (n : nat) (c : t) : t :=
  foldl (fun c i =>
    if ours tok (page_of key (pgoff + Z.of_nat i) c)
    then set_FILLING (FILLING c - 1) (set_page key (pgoff + Z.of_nat i) None c) else c) c (seq 0 n).

(** ** Mappings *)
Definition lookup (key pgoff : Z) (exec : bool) (c : t) : option Z * t :=
  if key =? 0 then (None, c)
  else match page_of key pgoff c with
  | None => (None, c)
  | Some p =>
      if negb (published p) then (None, c)
      else
        let c := if on (flags p) F_MAPPED then c else set_MAPPED (MAPPED c + 1) c in
        let f := raise (if exec then F_EXEC else 0) (raise F_MAPPED (raise F_REF (flags p))) in
        (Some (phys p), pin [phys p] (set_page key pgoff (Some (set_flags f p)) c))
  end.

Definition mark_dirty (key pgoff ph : Z) (c : t) : bool * t :=
  match file key c, page_of key pgoff c with
  | Some fe, Some p =>
      if negb (state p =? ST_UPTODATE) || negb (phys p =? ph) then (false, c)
      else if on (flags p) F_DIRTY then (true, c)
      else
        let c := set_page key pgoff (Some (set_flags (raise F_DIRTY (flags p)) p)) c in
        (true, set_DIRTY (DIRTY c + 1) (with_file key (fun fe => set_ndirty (ndirty fe + 1) fe) c))
  | _, _ => (false, c)
  end.

(** ** Write-back *)
Record DirtyPage := mkDirtyPage { d_key : Z; d_pgoff : Z; d_phys : Z }.

Definition take_page (mapped_too : bool) (max : nat) (r : refs) (key : Z) (out : list DirtyPage) (e : Z * Page) : list DirtyPage :=
  if (max <=? length out)%nat then out
  else if negb (published e.2) || negb (on (flags e.2) F_DIRTY) then out
  else if negb mapped_too && (1 <? PageRef.get (phys e.2) r) then out
  else out ++ [mkDirtyPage key e.1 (phys e.2)].
Definition take_file (mapped_too : bool) (max : nat) (r : refs) (out : list DirtyPage) (e : Z * FileEnt) : list DirtyPage :=
  if (max <=? length out)%nat || (ndirty e.2 =? 0) then out
  else foldl (take_page mapped_too max r e.1) out (pages e.2).
Definition take_dirty (lo hi : Z) (mapped_too : bool) (max : nat) (out : list DirtyPage) (c : t) : list DirtyPage * t :=
  if DIRTY c =? 0 then (out, c)
  else
    let out' := foldl (take_file mapped_too max (frame_refs c)) out (List.filter (fun e => e.1 <=? hi) (range lo (files c))) in
    (out', pin (d_phys <$> drop (length out) out') c).

Definition still_dirty (key pgoff ph : Z) (c : t) : bool :=
  match page_of key pgoff c with
  | Some p => (state p =? ST_UPTODATE) && (phys p =? ph) && on (flags p) F_DIRTY
  | None => false
  end.
Definition writeback_locked (d : DirtyPage) (ok : bool) (c : t) : t :=
  match page_of (d_key d) (d_pgoff d) c with
  | Some p =>
      if ok && (phys p =? d_phys d) && on (flags p) F_DIRTY && (PageRef.get (d_phys d) (frame_refs c) <=? 2)
      then set_DIRTY (DIRTY c - 1)
             (with_file (d_key d) (fun fe => set_ndirty (Z.max 0 (ndirty fe - 1)) fe)
               (set_page (d_key d) (d_pgoff d) (Some (set_flags (clear F_DIRTY (flags p)) p)) c))
      else c
  | None => c
  end.
Definition writeback_done (d : DirtyPage) (ok : bool) (c : t) : t := unref (d_phys d) (writeback_locked d ok c).

(** ** Writes *)
Record Pinned := mkPinned { n_pgoff : Z; n_phys : Z; n_exec : bool }.

Definition between (lo hi : Z) (l : list (Z * Page)) : list (Z * Page) := List.filter (fun e => e.1 <=? hi) (range lo l).
(** [p.flags |= F_STALE] on a placeholder *)
Definition doom (key pg : Z) (p : Page) (c : t) : t := set_page key pg (Some (set_flags (raise F_STALE (flags p)) p)) c.
Definition doom_all (key : Z) (ps : list (Z * Page)) (c : t) : t :=
  foldl (fun c e => if filling e.2 then doom key e.1 e.2 c else c) c ps.
Definition pinned_of (ps : list (Z * Page)) : list Pinned :=
  (fun e => mkPinned e.1 (phys e.2) (on (flags e.2) F_EXEC)) <$> List.filter (fun e => negb (filling e.2) && negb (phys e.2 =? 0)) ps.

Definition wt_pin (key pos len : Z) (c : t) : list Pinned * t :=
  if len =? 0 then ([], c)
  else match file key c with
  | None => ([], c)
  | Some fe =>
      let ps := between (pos / PAGE_SIZE) (wrap64 (pos + len - 1) / PAGE_SIZE) (pages fe) in
      let c := doom_all key ps (with_file key (set_atime_ok 0) c) in
      (pinned_of ps, pin (n_phys <$> pinned_of ps) c)
  end.
Definition wt_done (pins : list Pinned) (c : t) : t := unref_all (n_phys <$> pins) c.

Definition zero_range (p off len : Z) (c : t) : t := set_zeroed (zeroed c ++ [(p, off, len)]) c.

Definition extend (key from upto : Z) (c : t) : t :=
  if upto <=? from then c
  else
    let pg := from / PAGE_SIZE in
    let off := from mod PAGE_SIZE in
    if off =? 0 then c
    else
      let e := Z.min (upto - pg * PAGE_SIZE) PAGE_SIZE in
      let c := with_file key (set_atime_ok 0) c in
      match page_of key pg c with
      | Some p =>
          if filling p then doom key pg p c
          else if (phys p =? 0) || (e <=? off) then c
          else zero_range (phys p) off (e - off) c
      | None => c
      end.

(** The pages [truncate] visits past the new end: placeholders are doomed, the
    others leave the index. *)
Definition truncate_page (key : Z) (c : t) (e : Z * Page) : t :=
  if filling e.2 then doom key e.1 e.2 c
  else
    let c := set_page key e.1 None c in
    match file key c with
    | Some fe => let '(fe, c) := note_gone e.2 fe c in set_file key (Some fe) c
    | None => c
    end.
(** The bytes of the new last page past the new end. *)
Definition trim_last (key sz : Z) (c : t) : t :=
  let off := sz mod PAGE_SIZE in
  if off =? 0 then c
  else match page_of key (sz / PAGE_SIZE) c with
       | Some p => if filling p then doom key (sz / PAGE_SIZE) p c
                   else if phys p =? 0 then c else zero_range (phys p) off (PAGE_SIZE - off) c
       | None => c
       end.
Definition truncate_locked (key sz : Z) (c : t) : list Z * t :=
  match file key c with
  | None => ([], c)
  | Some fe =>
      let c := with_file key (fun fe => set_atime_ok 0 (if size_known fe then set_file_size sz fe else fe)) c in
      let gone := range (wrap64 (sz + PAGE_SIZE - 1) / PAGE_SIZE) (pages fe) in
      let c := trim_last key sz (foldl (truncate_page key) c gone) in
      (phys <$> List.filter (fun p => negb (filling p) && negb (phys p =? 0)) (gone.*2), c)
  end.
Definition truncate (key sz : Z) (c : t) : t := let '(gone, c) := truncate_locked key sz c in unref_all gone c.

(** ** Reclaim *)
Definition BATCH : nat := 512.

(** One page under the clock hand: the entry as the scan leaves it, whether it
    is a victim, and the change of [MAPPED]. *)
Definition visit (r : refs) (orphaned : bool) (p : Page) : Page * bool * Z :=
  if negb (state p =? ST_UPTODATE) then (p, false, 0)
  else if phys p =? 0 then (p, true, 0)
  else if on (flags p) F_DIRTY then (p, false, 0)
  else if 1 <? PageRef.get (phys p) r then
    if on (flags p) F_MAPPED then (p, false, 0) else (set_flags (raise F_MAPPED (flags p)) p, false, 1)
  else
    let '(p, d) := if on (flags p) F_MAPPED then (set_flags (clear F_MAPPED (flags p)) p, -1) else (p, 0) in
    if on (flags p) F_REF && negb orphaned then (set_flags (clear F_REF (flags p)) p, false, d) else (p, true, d).

Record scan := mkScan { sc : t; scanned : nat; victims : list (Z * Z) }.

Fixpoint scan_pages (need : nat) (key : Z) (orphaned : bool) (ps : list (Z * Page)) (s : scan) : option Z * scan :=
  match ps with
  | [] => (None, s)
  | (pg, p) :: ps =>
      if (BATCH <=? scanned s)%nat || (need <=? length (victims s))%nat then (Some pg, s)
      else
        let '(p', v, d) := visit (frame_refs (sc s)) orphaned p in
        let c := set_page key pg (Some p') (set_MAPPED (MAPPED (sc s) + d) (sc s)) in
        scan_pages need key orphaned ps
          (mkScan c (S (scanned s)) (victims s ++ if v then [(key, pg)] else []))
  end.

(** The walk of the hand over the files; each file is entered at most once per
    wrap, and there is one wrap. *)
Fixpoint scan_files (fuel : nat) (need wraps : nat) (hk hp : Z) (s : scan) : Z * Z * scan :=
  match fuel with
  | O => (hk, hp, s)
  | S f =>
      match range hk (files (sc s)) with
      | [] => if (0 <? wraps)%nat then (hk, hp, s) else scan_files f need (S wraps) 0 0 s
      | (k, fe) :: _ =>
          let hp := if k =? hk then hp else 0 in
          match scan_pages need k (orphan fe) (range hp (pages fe)) s with
          | (Some pg, s) => (k, pg, s)
          | (None, s) =>
              let full := (BATCH <=? scanned s)%nat || (need <=? length (victims s))%nat in
              if k =? U64_MAX then
                if (0 <? wraps)%nat || full then (0, 0, s) else scan_files f need (S wraps) 0 0 s
              else if full then (k + 1, 0, s) else scan_files f need wraps (k + 1) 0 s
          end
      end
  end.

(** Remove a victim: the frame it held, if any, and then a file without pages. *)
Definition evict_page (key pg : Z) (frames : list Z) (c : t) : list Z * t :=
  match page_of key pg c with
  | Some p =>
      let c := set_page key pg None c in
      if phys p =? 0 then (frames, c) else (frames ++ [phys p], set_CACHED (CACHED c - 1) c)
  | None => (frames, c)
  end.
Definition evict (acc : list Z * t) (v : Z * Z) : list Z * t :=
  let '(frames, c) := acc in
  match file v.1 c with
  | None => (frames, c)
  | Some _ =>
      let '(frames, c) := evict_page v.1 v.2 frames c in
      match file v.1 c with
      | Some fe => (frames, if (match pages fe with [] => true | _ => false end) && (users fe =? 0) then set_file v.1 None c else c)
      | None => (frames, c)
      end
  end.

(** One round under the lock: the frames to free and how many entries were seen. *)
Definition reclaim_round (need : nat) (c : t) : list Z * nat * t :=
  let '(hk, hp, s) := scan_files (2 * length (files c) + 3) need 0 (hand c).1 (hand c).2 (mkScan c 0 []) in
  let '(frames, c) := foldl evict ([], set_hand (hk, hp) (sc s)) (victims s) in
  (frames, scanned s, c).

Fixpoint reclaim_loop (fuel : nat) (want freed : nat) (budget : Z) (c : t) : nat * t :=
  match fuel with
  | O => (freed, c)
  | S f =>
      if (freed <? want)%nat && (0 <? budget) then
        match files c with
        | [] => (freed, c)
        | _ =>
            let '(frames, n, c) := reclaim_round (Nat.min (want - freed) BATCH) c in
            let c := foldl (fun c p => buddy_free p c) c frames in
            if (n =? 0)%nat then (freed + length frames, c)%nat
            else reclaim_loop f want (freed + length frames) (Z.max 0 (budget - Z.max (Z.of_nat n) 1)) c
        end
      else (freed, c)
  end.
(** Every entry twice, by the counters. *)
Definition scan_budget (c : t) : Z := wrap64 (2 * (cached_pages c + FILLING c) + Z.of_nat BATCH).
Definition reclaim_pages (want : nat) (c : t) : nat * t :=
  reclaim_loop (Z.to_nat (scan_budget c)) want 0 (scan_budget c) c.

Definition make_room (n : Z) (over_cap_ok : bool) (c : t) : bool * t :=
  let cap := cap_pages c in
  let cached := wrap64 (cached_pages c + FILLING c) in
  let c := if cap <? wrap64 (cached + n) then (reclaim_pages (Z.to_nat (wrap64 (cached + n - cap + 64))) c).2 else c in
  let '(low, high) := watermarks c in
  let free := free_pages c in
  let c := if free <? low + n then (reclaim_pages (Z.to_nat (Z.max 0 (high + n - free))) c).2 else c in
  if over_cap_ok then (true, c)
  else if free_pages c <? hard_floor c + n then (false, c)
  else (wrap64 (cached_pages c + FILLING c + n) <=? cap, c).

Definition maybe_reclaim (c : t) : t :=
  let '(low, high) := watermarks c in
  if cached_pages c =? 0 then c
  else
    let want := if free_pages c <? low then high - free_pages c else 0 in
    let want := if cap_pages c <? cached_pages c then Z.max want (cached_pages c - cap_pages c) else want in
    if want =? 0 then c else (reclaim_pages (Z.to_nat want) c).2.

(** ** The emergency path

    [refs_free] says whether the table of references could be locked. *)
Record sweep := mkSweep { sw : t; sw_freed : nat; sw_scanned : nat }.

Definition sweep_page (refs_free : bool) (want : nat) (spare_ref : bool) (key : Z) (s : sweep) (e : Z * Page) : sweep :=
  if (want <=? sw_freed s)%nat || (2 ^ 18 <=? Z.of_nat (sw_scanned s)) then s
  else
    let c := sw s in let p := e.2 in
    let s := mkSweep c (sw_freed s) (S (sw_scanned s)) in
    if negb (published p) || on (flags p) F_DIRTY then s
    else if spare_ref && on (flags p) F_REF then s
    else if negb refs_free || negb (PageRef.get (phys p) (frame_refs c) =? 1) then s
    else
      let '(fl, c) := if on (flags p) F_MAPPED then (clear F_MAPPED (flags p), set_MAPPED (MAPPED c - 1) c) else (flags p, c) in
      let c := set_page key e.1 (Some (mkPage 0 (token p) (state p) fl)) c in
      mkSweep (buddy_free (phys p) (set_CACHED (CACHED c - 1) c)) (S (sw_freed s)) (sw_scanned s).
(** The entries are read when their file is reached. *)
Definition sweep_file (refs_free : bool) (want : nat) (spare_ref : bool) (s : sweep) (key : Z) : sweep :=
  if (want <=? sw_freed s)%nat then s
  else match file key (sw s) with
  | Some fe => foldl (sweep_page refs_free want spare_ref key) s (pages fe)
  | None => s
  end.
Definition sweep_pass (refs_free : bool) (want skip : nat) (s : sweep) (pass : nat) : sweep :=
  let keys := (files (sw s)).*1 in
  let chosen := if Nat.even pass then drop skip keys else take skip keys in
  if (want <=? sw_freed s)%nat then s
  else foldl (sweep_file refs_free want (pass <? 2)%nat) s chosen.

(** The sweeps, under the lock. *)
Definition emergency_locked (refs_free : bool) (want : nat) (c : t) : nat * t :=
  let skip := Z.to_nat (EMERGENCY_HAND c mod Z.max (Z.of_nat (length (files c))) 1) in
  let c := set_EMERGENCY_HAND (wrap32 (EMERGENCY_HAND c + 1)) c in
  let s := foldl (sweep_pass refs_free want skip) (mkSweep c 0 0) (seq 0 4) in
  (sw_freed s, sw s).

(** [cache_free]: whether the cache lock could be taken.  [IN_EMERGENCY] only
    refuses a nested call. *)
Definition emergency_reclaim (cache_free refs_free : bool) (want : nat) (c : t) : nat * t :=
  if cached_pages c =? 0 then (0%nat, c)
  else if negb cache_free then (0%nat, c)
  else let '(freed, c) := emergency_locked refs_free want c in (freed, set_HOLES (HOLES c + Z.of_nat freed) c).

Definition purge_locked (c : t) : t :=
  let keys := k ← files c; (fun e => (k.1, e.1)) <$> List.filter (fun e => (state e.2 =? ST_UPTODATE) && (phys e.2 =? 0)) (pages k.2) in
  foldl (fun c v => set_page v.1 v.2 None c) c keys.
Definition purge (c : t) : t := if HOLES c =? 0 then set_HOLES 0 c else purge_locked (set_HOLES 0 c).

End Cache.
