(* ===== verification/PageCacheInv.v ===== *)
(** * The page cache: invariant and ownership of frames

    [wf] says what the counters beside the index are: [DIRTY], [FILLING] and
    [MAPPED] the numbers of dirty, filling and mapped entries, [CACHED] the number
    of published ones less those an unfinished [end_fill] has yet to add, and
    [ndirty] of each file its dirty pages.  [owned] relates the index
    to the page-reference table: every frame has at least as many references as
    the cache and the others ([ext]: mappings and pins) hold on it.  Every operation
    preserves both, and gives a frame back to the buddy allocator only when
    nobody holds it. *)
From S2P Require Import Prelude BTree PageSites PageRef PageCache.
#[local] Open Scope Z_scope.
Import Cache.

(** ** Weights *)
Definition w_pub (p : Page) : Z := Z.b2z (published p).
Definition w_dirty (p : Page) : Z := Z.b2z (dirty p).
Definition w_fill (p : Page) : Z := Z.b2z (filling p).
Definition w_mapped (p : Page) : Z := Z.b2z (mapped p).
Definition w_holds (f : Z) (p : Page) : Z := Z.b2z (published p && (phys p =? f)).

(** Sum of a weight over all entries of the cache. *)
Definition total (w : Page -> Z) (c : t) : Z := tally (fun fe => tally w (pages fe)) (files c).

(** A placeholder or an emptied entry is neither dirty nor mapped and has no frame. *)
Definition page_ok (p : Page) : Prop :=
  state p = ST_FILLING /\ phys p = 0 /\ on (flags p) F_DIRTY = false /\ on (flags p) F_MAPPED = false
  \/ state p = ST_UPTODATE /\ (phys p = 0 -> on (flags p) F_DIRTY = false /\ on (flags p) F_MAPPED = false).

Record file_ok (fe : FileEnt) : Prop := {
  fo_sorted : sorted (pages fe);
  fo_pages : forall pg p, bget pg (pages fe) = Some p -> page_ok p;
  fo_ndirty : ndirty fe = tally w_dirty (pages fe) }.

Record wf (c : t) : Prop := {
  wf_sorted : sorted (files c);
  wf_files : forall k fe, file k c = Some fe -> file_ok fe;
  wf_CACHED : CACHED c + uncounted c = total w_pub c;
  wf_DIRTY : DIRTY c = total w_dirty c;
  wf_FILLING : FILLING c = total w_fill c;
  wf_MAPPED : MAPPED c = total w_mapped c }.

Definition holds (f : Z) (c : t) : Z := total (w_holds f) c.

(** ** Edits of the index *)

(** The entry [pg] of [key] becomes [o]; the rest of the index stays. *)
Record edited (key pg : Z) (old o : option Page) (c c' : t) : Prop := {
  ed_files : exists fe fe', file key c = Some fe /\ bget pg (pages fe) = old /\ files c' = bset key (Some fe') (files c)
    /\ pages fe' = bset pg o (pages fe) /\ ndirty fe' = ndirty fe - opt w_dirty old + opt w_dirty o;
  ed_uncounted : uncounted c' = uncounted c }.

Lemma file_set_file key o c k : sorted (files c) -> file k (set_file key o c) = if decide (k = key) then o else file k c.
Proof. intros HS. unfold file, set_file. cbn. by rewrite bget_bset. Qed.

Lemma total_bset w key o c c' :
  sorted (files c) -> files c' = bset key o (files c) ->
  total w c' = total w c - opt (fun fe => tally w (pages fe)) (file key c) + opt (fun fe => tally w (pages fe)) o.
Proof. intros HS Hf. unfold total. rewrite Hf. by apply tally_bset. Qed.

Lemma total_edit w key pg old o c c' : wf c -> edited key pg old o c c' -> total w c' = total w c - opt w old + opt w o.
Proof.
  intros HW [(fe & fe' & Hf & Ho & Hfs & Hps & _) _]. rewrite (total_bset w key (Some fe') c c') by (done || apply HW). rewrite Hf. cbn.
  rewrite Hps, tally_bset, Ho by apply (wf_files c HW key fe Hf). lia.
Qed.

Definition page_opt_ok (o : option Page) : Prop := match o with Some p => page_ok p | None => True end.

(** An edit with its counters. *)
Lemma wf_edit key pg old o c c' :
  wf c -> edited key pg old o c c' -> page_opt_ok o ->
  CACHED c' = CACHED c - opt w_pub old + opt w_pub o -> DIRTY c' = DIRTY c - opt w_dirty old + opt w_dirty o ->
  FILLING c' = FILLING c - opt w_fill old + opt w_fill o -> MAPPED c' = MAPPED c - opt w_mapped old + opt w_mapped o -> wf c'.
Proof.
  intros HW HE Hok H1 H2 H3 H4. pose proof HE as [(fe & fe' & Hf & Ho & Hfs & Hps & Hnd) Hu]. pose proof (wf_files c HW key fe Hf) as [F1 F2 F3].
  split; [rewrite Hfs; apply bset_sorted, HW| |..].
  - intros k g. unfold file. rewrite Hfs, bget_bset by apply HW. case_decide; [|apply HW]. intros [= <-]. split; rewrite ?Hps.
    + by apply bset_sorted.
    + intros j p. rewrite bget_bset by done. case_decide; [intros ->; exact Hok|apply F2].
    + rewrite tally_bset, Ho by done. lia.
  - rewrite H1, Hu, (total_edit w_pub _ _ _ _ _ _ HW HE), <- (wf_CACHED c HW). lia.
  - rewrite H2, (wf_DIRTY c HW). by rewrite (total_edit w_dirty _ _ _ _ _ _ HW HE).
  - rewrite H3, (wf_FILLING c HW). by rewrite (total_edit w_fill _ _ _ _ _ _ HW HE).
  - rewrite H4, (wf_MAPPED c HW). by rewrite (total_edit w_mapped _ _ _ _ _ _ HW HE).
Qed.

(** Same index, same counters. *)
Lemma wf_same c c' : wf c -> files c' = files c -> CACHED c' = CACHED c -> DIRTY c' = DIRTY c -> FILLING c' = FILLING c -> MAPPED c' = MAPPED c ->
  uncounted c' = uncounted c -> wf c'.
Proof. intros [] E1 E2 E3 E4 E5 E6. split; unfold total, file in *; rewrite ?E1, ?E2, ?E3, ?E4, ?E5, ?E6; done. Qed.

Lemma total_same w c c' : files c' = files c -> total w c' = total w c.
Proof. unfold total. by intros ->. Qed.

(** A change of a file entry that leaves its pages alone; also a new entry. *)
Definition pages_of_file (o : option FileEnt) : list (Z * Page) := match o with Some fe => pages fe | None => [] end.
Definition ndirty_of (o : option FileEnt) : Z := match o with Some fe => ndirty fe | None => 0 end.

Lemma total_meta w key fe' c c' : sorted (files c) -> files c' = bset key (Some fe') (files c) -> pages fe' = pages_of_file (file key c) -> total w c' = total w c.
Proof. intros HS Hf Hp. rewrite (total_bset w key (Some fe') c c' HS Hf). cbn. rewrite Hp. destruct (file key c); cbn; lia. Qed.

Lemma wf_meta key fe' c c' :
  wf c -> files c' = bset key (Some fe') (files c) -> pages fe' = pages_of_file (file key c) -> ndirty fe' = ndirty_of (file key c) ->
  CACHED c' = CACHED c -> DIRTY c' = DIRTY c -> FILLING c' = FILLING c -> MAPPED c' = MAPPED c -> uncounted c' = uncounted c -> wf c'.
Proof.
  intros HW Hf Hp Hn E2 E3 E4 E5 E6. pose proof (wf_sorted c HW) as HS.
  split; rewrite ?E2, ?E3, ?E4, ?E5, ?E6, ?(total_meta _ key fe' c c' HS Hf Hp); try apply HW.
  - rewrite Hf. by apply bset_sorted.
  - intros k g. unfold file. rewrite Hf, bget_bset by done. case_decide; [|apply HW]. intros [= <-]. subst k. destruct (file key c) as [fe|] eqn:E; cbn in *.
    + destruct (wf_files c HW key fe E) as [F1 F2 F3]. by split; rewrite ?Hp, ?Hn.
    + split; rewrite ?Hp, ?Hn; done.
Qed.

(** ** Ownership *)
Fixpoint occ (f : Z) (l : list Z) : Z := match l with [] => 0 | x :: l => Z.b2z (x =? f) + occ f l end.

(** One more, or one fewer, outside owner per frame of the list. *)
Definition plus (ext : Z -> Z) (l : list Z) (f : Z) : Z := ext f + occ f l.
Definition minus (ext : Z -> Z) (l : list Z) (f : Z) : Z := ext f - occ f l.

Definition owned (ext : Z -> Z) (c : t) : Prop :=
  shared_only (frame_refs c) /\ (forall f, 0 <= ext f) /\ forall f, f <> 0 -> holds f c + ext f <= PageRef.get f (frame_refs c).

Definition unowned (ext : Z -> Z) (c : t) (f : Z) : Prop := holds f c = 0 /\ ext f = 0.

(** What every operation does: the invariant holds after it, a frame nobody
    owned stays so, and the frames given back are owned by nobody. *)
Record moves (ext : Z -> Z) (c : t) (ext' : Z -> Z) (c' : t) : Prop := {
  mv_wf : wf c';
  mv_owned : owned ext' c';
  mv_uncounted : uncounted c' = uncounted c;
  mv_fresh : forall f, f <> 0 -> unowned ext c f -> unowned ext' c' f;
  mv_rel : exists rel, released c' = released c ++ rel /\ Forall (fun f => f <> 0 /\ unowned ext' c' f) rel }.

Lemma moves_trans e1 c1 e2 c2 e3 c3 : moves e1 c1 e2 c2 -> moves e2 c2 e3 c3 -> moves e1 c1 e3 c3.
Proof.
  intros [A1 A2 Au A3 (r1 & A4 & A5)] [B1 B2 Bu B3 (r2 & B4 & B5)]. split; [done|done|by rewrite Bu|auto|]. exists (r1 ++ r2).
  split; [by rewrite B4, A4, app_assoc|]. apply Forall_app. split; [|done]. eapply Forall_impl; [exact A5|]. cbn. intros f []. auto.
Qed.

Lemma moves_refl ext c : wf c -> owned ext c -> moves ext c ext c.
Proof. intros HW HO. split; [done|done|done|done|]. exists []. by rewrite app_nil_r. Qed.

Lemma owned_ext ext ext' c : (forall f, ext f = ext' f) -> owned ext c -> owned ext' c.
Proof. intros E (H1 & H2 & H3). split; [done|]. split; intros f; [rewrite <- E; apply H2|]. rewrite <- E. apply H3. Qed.

Lemma moves_ext ext c e e' c' : (forall f, e f = e' f) -> moves ext c e c' -> moves ext c e' c'.
Proof.
  intros E [A1 A2 Au A3 (r & A4 & A5)]. split; [done|by eapply owned_ext|done| |].
  - intros f Hn Hf. destruct (A3 f Hn Hf). split; [done|by rewrite <- E].
  - exists r. split; [done|]. eapply Forall_impl; [exact A5|]. cbn. intros f (? & ? & ?). unfold unowned. by rewrite <- E.
Qed.

Lemma b2z_range b : 0 <= Z.b2z b <= 1.
Proof. destruct b; cbn; lia. Qed.

Lemma occ_ge f l : 0 <= occ f l.
Proof. induction l as [|x l IH]; cbn; [lia|]. pose proof (b2z_range (x =? f)). lia. Qed.

Lemma occ_app f l1 l2 : occ f (l1 ++ l2) = occ f l1 + occ f l2.
Proof. induction l1 as [|x l IH]; cbn; lia. Qed.

Lemma occ_pos f l : 0 < occ f l <-> f ∈ l.
Proof.
  induction l as [|x l IH]; cbn; [rewrite elem_of_nil; lia|]. rewrite elem_of_cons, <- IH. pose proof (occ_ge f l).
  destruct (Z.eqb_spec x f); cbn; naive_solver lia.
Qed.

Lemma occ_zero f l : f ∉ l -> occ f l = 0.
Proof. rewrite <- occ_pos. pose proof (occ_ge f l). lia. Qed.

Lemma total_ge w c : (forall p, 0 <= w p) -> 0 <= total w c.
Proof. intros Hw. apply tally_ge. intros fe. by apply tally_ge. Qed.

Lemma holds_ge f c : 0 <= holds f c.
Proof. apply total_ge. intros p. apply b2z_range. Qed.

(** Frames move between the cache and their other owners. *)
Lemma moves_sum ext ext' c c' :
  owned ext c -> wf c' -> uncounted c' = uncounted c -> frame_refs c' = frame_refs c -> released c' = released c ->
  (forall f, 0 <= ext' f) -> (forall f, f <> 0 -> holds f c' + ext' f <= holds f c + ext f) -> moves ext c ext' c'.
Proof.
  intros (H1 & H2 & H3) HW' Hu Er El He Hsum. split; [done| |done| |].
  - split; [by rewrite Er|]. split; [done|]. intros f Hf. rewrite Er. specialize (Hsum f Hf). specialize (H3 f Hf). lia.
  - intros f Hf [Hh Hx]. specialize (Hsum f Hf). pose proof (holds_ge f c'). specialize (He f). split; lia.
  - exists []. by rewrite app_nil_r.
Qed.

Lemma moves_edit key pg old o ext ext' c c' :
  wf c -> owned ext c -> edited key pg old o c c' -> wf c' -> frame_refs c' = frame_refs c -> released c' = released c ->
  (forall f, 0 <= ext' f) -> (forall f, f <> 0 -> opt (w_holds f) o + ext' f <= opt (w_holds f) old + ext f) -> moves ext c ext' c'.
Proof.
  intros HW HO HE HW' Er El He Hle. apply moves_sum; [done|done|apply HE|done..|]. intros f Hf. unfold holds. rewrite (total_edit _ _ _ _ _ _ _ HW HE). specialize (Hle f Hf). lia.
Qed.

(** A change that touches neither the index nor the references. *)
Lemma moves_same ext c c' :
  wf c -> owned ext c -> wf c' -> (forall f, holds f c' = holds f c) -> frame_refs c' = frame_refs c -> released c' = released c ->
  uncounted c' = uncounted c -> moves ext c ext c'.
Proof.
  intros HW (H1 & H2 & H3) HW' Eh Er El Eu. split; [done| |done| |].
  - split; [by rewrite Er|]. split; [done|]. intros f Hf. rewrite Er, Eh. auto.
  - intros f _ [Hh Hx]. split; [by rewrite Eh|done].
  - exists []. by rewrite app_nil_r.
Qed.

(** References change, the index stays. *)
Lemma moves_refs ext ext' c c' rel :
  wf c -> owned ext c -> files c' = files c /\ uncounted c' = uncounted c -> wf c' -> shared_only (frame_refs c') -> (forall f, 0 <= ext' f) ->
  (forall f, f <> 0 -> holds f c + ext' f <= PageRef.get f (frame_refs c')) ->
  (forall f, f <> 0 -> unowned ext c f -> ext' f = 0) ->
  released c' = released c ++ rel -> Forall (fun f => f <> 0 /\ unowned ext' c f) rel -> moves ext c ext' c'.
Proof.
  intros HW HO [Ef Eu] HW' Hs He Hle Hun Er Hrel. assert (forall f, holds f c' = holds f c) as Eh by (intros f; by apply total_same).
  split; [done| |done| |].
  - split; [done|]. split; [done|]. intros f Hf. rewrite Eh. auto.
  - intros f Hf Hu. split; [rewrite Eh; apply Hu|auto].
  - exists rel. split; [done|]. eapply Forall_impl; [exact Hrel|]. cbn. intros f (Hn & Hh & Hx). split; [done|]. split; [by rewrite Eh|done].
Qed.

(** ** References *)
Lemma inc_many_spec l r : shared_only r -> (forall f, f ∈ l -> PageRef.get f r + Z.of_nat (length l) <= U32_MAX) ->
  shared_only (inc_many l r) /\ forall f, PageRef.get f (inc_many l r) = PageRef.get f r + occ f l.
Proof.
  revert r. induction l as [|p l IH]; intros r Hs Hb; [split; [done|cbn; lia]|]. unfold inc_many. cbn [foldl].
  destruct (inc_spec p r Hs) as [S1 S2]; [specialize (Hb p ltac:(left)); cbn in Hb; lia|].
  destruct (IH (inc p r) S1) as [I1 I2].
  { intros f Hf. rewrite S2. specialize (Hb f ltac:(by right)). cbn [length] in Hb. case_decide; lia. }
  split; [done|]. intros f. change (foldl (fun r p => inc p r) (inc p r) l) with (inc_many l (inc p r)). rewrite I2, S2. cbn [occ].
  destruct (Z.eqb_spec p f); case_decide; cbn; congruence || lia.
Qed.

(** Taking references to frames somebody owns. *)
Lemma moves_pin ext c l :
  wf c -> owned ext c -> Forall (fun f => f <> 0 /\ ~ unowned ext c f) l ->
  (forall f, f ∈ l -> PageRef.get f (frame_refs c) + Z.of_nat (length l) <= U32_MAX) -> moves ext c (plus ext l) (pin l c).
Proof.
  intros HW HO Hl Hb. pose proof HO as (H1 & H2 & H3). destruct (inc_many_spec l (frame_refs c) H1 Hb) as [I1 I2].
  apply (moves_refs _ _ _ _ []); [done|done|done|by eapply wf_same|done| | | |by rewrite app_nil_r|done].
  - intros f. unfold plus. pose proof (occ_ge f l). specialize (H2 f). lia.
  - intros f Hf. cbn [frame_refs pin set_refs]. rewrite I2. unfold plus. specialize (H3 f Hf). lia.
  - intros f Hf Hu. unfold plus. rewrite occ_zero; [destruct Hu; lia|]. intros Hin. rewrite Forall_forall in Hl. by apply (Hl f Hin).
Qed.

Lemma moves_unref ext c f : wf c -> owned ext c -> f <> 0 -> 0 < ext f -> moves ext c (minus ext [f]) (unref f c).
Proof.
  intros HW HO Hf Hx. pose proof HO as (H1 & H2 & H3). destruct (unref_spec f (frame_refs c) H1) as (U1 & U2 & U3). unfold unref.
  destruct (unref_or_free f (frame_refs c)) as [last r]. cbn in U1, U2, U3. pose proof (holds_ge f c). pose proof (H3 f Hf) as Hle.
  set (c1 := set_refs r c). set (c2 := if last then buddy_free f c1 else c1).
  assert ((files c2 = files c /\ uncounted c2 = uncounted c) /\ frame_refs c2 = r /\ wf c2) as (E1 & E2 & E3).
  { unfold c2. destruct last; (split; [done|split; [done|]]); by eapply wf_same. }
  assert (forall g, minus ext [f] g = ext g - Z.b2z (f =? g)) as Em by (intros g; unfold minus; cbn; lia).
  apply (moves_refs _ _ _ _ (if last then [f] else [])); [done|done|done|done|by rewrite E2| | | | |].
  - intros g. rewrite Em. specialize (H2 g). destruct (Z.eqb_spec f g) as [<-|]; cbn; lia.
  - intros g Hg. rewrite Em, E2, U3. specialize (H3 g Hg). destruct (Z.eqb_spec f g) as [<-|]; [rewrite decide_True by done|rewrite decide_False by congruence]; cbn; lia.
  - intros g Hg [_ Hu]. rewrite Em. destruct (Z.eqb_spec f g) as [<-|]; cbn; lia.
  - unfold c2. destruct last; [done|by rewrite app_nil_r].
  - destruct last; [|done]. constructor; [|done]. split; [done|]. symmetry in U1. apply Z.eqb_eq in U1. split; [lia|]. rewrite Em, Z.eqb_refl. cbn. lia.
Qed.

Lemma minus_cons ext f l g : minus (minus ext [f]) l g = minus ext (f :: l) g.
Proof. unfold minus. cbn. lia. Qed.

Lemma moves_unref_all ext c l : wf c -> owned ext c -> (forall f, occ f l <= ext f) -> Forall (fun f => f <> 0) l -> moves ext c (minus ext l) (unref_all l c).
Proof.
  revert ext c. induction l as [|f l IH]; intros ext c HW HO Hle Hnz.
  - eapply moves_ext; [|by apply moves_refl]. intros g. unfold minus. cbn. lia.
  - apply Forall_cons in Hnz as [Hf Hnz]. pose proof (Hle f) as Hlf. cbn in Hlf. rewrite Z.eqb_refl in Hlf. cbn in Hlf. pose proof (occ_ge f l).
    assert (moves ext c (minus ext [f]) (unref f c)) as M by (apply moves_unref; [done|done|done|lia]).
    eapply moves_ext; [exact (minus_cons ext f l)|]. eapply moves_trans; [exact M|]. apply IH; [apply M|apply M| |done].
    intros g. specialize (Hle g). unfold minus. cbn in *. lia.
Qed.

(** Giving a frame straight to the buddy allocator: its one owner does. *)
Lemma moves_free ext c f : wf c -> owned ext c -> f <> 0 -> 0 < ext f -> PageRef.get f (frame_refs c) = 1 -> moves ext c (minus ext [f]) (buddy_free f c).
Proof.
  intros HW HO Hf Hx H1. pose proof HO as (S1 & S2 & S3). pose proof (S3 f Hf). pose proof (holds_ge f c).
  assert (forall g, minus ext [f] g = ext g - Z.b2z (f =? g)) as Em by (intros g; unfold minus; cbn; lia).
  apply (moves_refs _ _ _ _ [f]); [done|done|done|by eapply wf_same|done| | | |done|].
  - intros g. rewrite Em. specialize (S2 g). destruct (Z.eqb_spec f g) as [<-|]; cbn; lia.
  - intros g Hg. rewrite Em. cbn [frame_refs buddy_free set_released set_free_pages]. specialize (S3 g Hg). destruct (Z.eqb_spec f g) as [<-|]; cbn; lia.
  - intros g Hg [_ Hu]. rewrite Em. destruct (Z.eqb_spec f g) as [<-|]; cbn; lia.
  - constructor; [|done]. split; [done|]. split; [lia|]. rewrite Em, Z.eqb_refl. cbn. lia.
Qed.
