(* ===== verification/PageCacheOps.v ===== *)
(** * The page cache: the single operations

    Every operation of [PageCache] outside reclaim preserves the invariant of
    [PageCacheInv] and moves ownership of frames as its result says. *)
From S2P Require Import Prelude BTree PageSites PageRef PageCache PageCacheInv.
#[local] Open Scope Z_scope.
Import Cache.

(** ** Flag bits *)
Lemma lor_eqb_0 x y : (Z.lor x y =? 0) = (x =? 0) && (y =? 0).
Proof. apply eq_true_iff_eq. rewrite andb_true_iff, !Z.eqb_eq. apply Z.lor_eq_0_iff. Qed.

Lemma on_raise b b' x : on (raise b x) b' = on x b' || on b b'.
Proof. unfold on, raise. by rewrite Z.land_lor_distr_l, lor_eqb_0, negb_andb. Qed.

Lemma on_clear b x : on (clear b x) b = false.
Proof. unfold on, clear. by rewrite Z.land_ldiff. Qed.

Lemma on_clear_other b b' x : Z.land b b' = 0 -> on (clear b x) b' = on x b'.
Proof.
  intros H0. unfold on, clear. do 2 f_equal. apply Z.bits_inj'. intros n Hn. rewrite !Z.land_spec, Z.ldiff_spec.
  assert (Z.testbit b n && Z.testbit b' n = false) as Hb by (by rewrite <- Z.land_spec, H0, Z.bits_0).
  destruct (Z.testbit x n), (Z.testbit b n), (Z.testbit b' n); done.
Qed.

(** ** Entries *)
Lemma page_of_Some key pg c p : page_of key pg c = Some p <-> exists fe, file key c = Some fe /\ bget pg (pages fe) = Some p.
Proof. unfold page_of. destruct (file key c) as [fe|]; cbn; naive_solver. Qed.

Lemma page_of_ok key pg c p : wf c -> page_of key pg c = Some p -> page_ok p.
Proof. intros HW (fe & Hf & Hb)%page_of_Some. by eapply (fo_pages fe (wf_files c HW key fe Hf)). Qed.

(** [set_page] as an edit, for a page whose dirty state stays. *)
Lemma set_page_edited key pg o c old :
  (exists fe, file key c = Some fe /\ bget pg (pages fe) = old) -> opt w_dirty o = opt w_dirty old -> edited key pg old o c (set_page key pg o c).
Proof.
  intros (fe & Hf & Ho) Hd. split; [|unfold set_page; by rewrite Hf]. exists fe, (set_pages (bset pg o (pages fe)) fe). unfold set_page. rewrite Hf. split_and!; try done. cbn. lia.
Qed.

(** ... with an adjustment of [ndirty] after it. *)
Lemma set_page_ndirty key pg o c old n g :
  sorted (files c) -> (exists fe, file key c = Some fe /\ bget pg (pages fe) = old /\ n = ndirty fe - opt w_dirty old + opt w_dirty o /\ g (set_pages (bset pg o (pages fe)) fe) = n) ->
  edited key pg old o c (with_file key (fun fe => set_ndirty (g fe) fe) (set_page key pg o c)).
Proof.
  intros HS (fe & Hf & Ho & Hn & Hg). unfold set_page. rewrite Hf. split; [|unfold with_file; by rewrite file_set_file, decide_True].
  exists fe, (set_ndirty n (set_pages (bset pg o (pages fe)) fe)).
  split; [done|]. split; [done|]. unfold with_file. rewrite file_set_file, decide_True by done. rewrite Hg. cbn [files set_files set_file].
  split; [by apply bset_bset|]. split; [done|exact Hn].
Qed.

Lemma file_set_page key pg o c k : sorted (files c) ->
  file k (set_page key pg o c) = if decide (k = key) then (fun fe => set_pages (bset pg o (pages fe)) fe) <$> file key c else file k c.
Proof.
  intros HS. unfold set_page. destruct (file key c) as [fe|] eqn:E; [rewrite file_set_file by done; by case_decide|]. case_decide; [by subst|done].
Qed.

(** The index is in order, whatever the counters. *)
Definition ordered (c : t) : Prop := sorted (files c) /\ forall k fe, file k c = Some fe -> sorted (pages fe).

Lemma wf_ordered c : wf c -> ordered c.
Proof. intros HW. split; [apply HW|]. intros k fe Hf. apply (wf_files c HW k fe Hf). Qed.

Lemma page_of_set_page key pg o c k g : ordered c -> is_Some (file key c) ->
  page_of k g (set_page key pg o c) = if decide (k = key /\ g = pg) then o else page_of k g c.
Proof.
  intros [HS HP] [fe Hf]. unfold page_of. rewrite file_set_page by done. destruct (decide (k = key)) as [->|].
  - rewrite Hf. cbn. rewrite bget_bset by apply (HP key fe Hf). destruct (decide (g = pg)); [rewrite decide_True by done|rewrite decide_False by tauto]; done.
  - by rewrite decide_False by tauto.
Qed.

(** ** Weights of an entry whose flags change *)
Lemma published_flags f p : published (Cache.set_flags f p) = published p.
Proof. done. Qed.
Lemma w_pub_flags f p : w_pub (Cache.set_flags f p) = w_pub p.
Proof. done. Qed.
Lemma w_fill_flags f p : w_fill (Cache.set_flags f p) = w_fill p.
Proof. done. Qed.
Lemma w_holds_flags g f p : w_holds g (Cache.set_flags f p) = w_holds g p.
Proof. done. Qed.
Lemma w_dirty_flags f p : on f F_DIRTY = on (flags p) F_DIRTY -> w_dirty (Cache.set_flags f p) = w_dirty p.
Proof. intros E. unfold w_dirty, dirty. rewrite published_flags. cbn. by rewrite E. Qed.
Lemma w_mapped_flags f p : on f F_MAPPED = on (flags p) F_MAPPED -> w_mapped (Cache.set_flags f p) = w_mapped p.
Proof. intros E. unfold w_mapped, mapped. rewrite published_flags. cbn. by rewrite E. Qed.

Lemma page_ok_flags f p : page_ok p -> (published p = true \/ on f F_DIRTY = on (flags p) F_DIRTY /\ on f F_MAPPED = on (flags p) F_MAPPED) -> page_ok (Cache.set_flags f p).
Proof.
  intros [(H1 & H2 & H3 & H4)|(H1 & H2)] Hf; [left|right]; cbn.
  - destruct Hf as [Hp|[-> ->]]; [|done]. unfold published in Hp. by rewrite H1 in Hp.
  - split; [done|]. intros H0. destruct Hf as [Hp|[-> ->]]; [|auto]. unfold published in Hp. by rewrite H0, andb_false_r in Hp.
Qed.

Lemma published_nonzero p : published p = true -> phys p <> 0.
Proof. unfold published. rewrite andb_true_iff, negb_true_iff, Z.eqb_neq. tauto. Qed.

(** The flags of an entry change, and [MAPPED] with them. *)
Lemma moves_flags ext key pg p f c c' :
  wf c -> owned ext c -> page_of key pg c = Some p -> published p = true \/ on f F_MAPPED = on (flags p) F_MAPPED ->
  on f F_DIRTY = on (flags p) F_DIRTY ->
  c' = set_page key pg (Some (Cache.set_flags f p)) (set_MAPPED (MAPPED c - w_mapped p + w_mapped (Cache.set_flags f p)) c) -> moves ext c ext c'.
Proof.
  intros HW HO Hp Hm Hd ->. pose proof Hp as (fe & Hf & Hb)%page_of_Some. set (c1 := set_MAPPED _ c). set (p' := Cache.set_flags f p).
  assert (edited key pg (Some p) (Some p') c (set_page key pg (Some p') c1)) as HE.
  { destruct (set_page_edited key pg (Some p') c1 (Some p)) as [HE HU]; [by exists fe|cbn; by apply w_dirty_flags|]. by split. }
  assert (CACHED (set_page key pg (Some p') c1) = CACHED c /\ DIRTY (set_page key pg (Some p') c1) = DIRTY c /\ FILLING (set_page key pg (Some p') c1) = FILLING c
    /\ MAPPED (set_page key pg (Some p') c1) = MAPPED c1 /\ frame_refs (set_page key pg (Some p') c1) = frame_refs c /\ released (set_page key pg (Some p') c1) = released c) as (E1 & E2 & E3 & E4 & E5 & E6).
  { unfold set_page. change (file key c1) with (file key c). by rewrite Hf. }
  assert (page_ok p') as Hok by (apply page_ok_flags; [by eapply page_of_ok|tauto]).
  eapply moves_edit; [done|done|exact HE| |done|done|apply HO|by intros].
  eapply wf_edit; [done|exact HE|done|..]; rewrite ?E1, ?E2, ?E3, ?E4; cbn; unfold p'; rewrite ?w_pub_flags, ?w_fill_flags, ?(w_dirty_flags f p Hd); lia.
Qed.

(** ** File-level state *)
Lemma moves_meta ext key fe' c :
  wf c -> owned ext c -> pages fe' = pages_of_file (file key c) -> ndirty fe' = ndirty_of (file key c) -> moves ext c ext (set_file key (Some fe') c).
Proof.
  intros HW HO Hp Hn. apply moves_same; [done|done| | |done|done|done]; [by eapply (wf_meta key fe' c)|]. intros f. by eapply (total_meta _ key fe' c); [apply HW|..].
Qed.

Lemma moves_with_file ext key g c :
  wf c -> owned ext c -> (forall fe, pages (g fe) = pages fe /\ ndirty (g fe) = ndirty fe) -> moves ext c ext (with_file key g c).
Proof.
  intros HW HO Hg. unfold with_file. destruct (file key c) as [fe|] eqn:E; [|by apply moves_refl]. apply moves_meta; [done|done|..]; rewrite E; cbn; apply Hg.
Qed.

Lemma moves_default ext key g c :
  wf c -> owned ext c -> (forall fe, pages (g fe) = pages fe /\ ndirty (g fe) = ndirty fe) ->
  moves ext c ext (set_file key (Some (g (default new_file (file key c)))) c).
Proof. intros HW HO Hg. destruct (file key c) as [fe|] eqn:E; cbn; (apply moves_meta; [done|done|..]); rewrite E; apply Hg. Qed.

Lemma moves_set_size ext key sz c : wf c -> owned ext c -> moves ext c ext (set_size key sz c).
Proof. intros HW HO. unfold set_size. destruct (key =? 0); [by apply moves_refl|]. by apply (moves_default ext key (fun fe => set_known true (set_file_size sz fe))). Qed.

Lemma moves_note_size ext key sz c : wf c -> owned ext c -> moves ext c ext (note_size key sz c).
Proof. intros HW HO. apply moves_with_file; [done|done|]. intros fe. by destruct (size_known fe). Qed.

Lemma moves_key_get ext key c : wf c -> owned ext c -> moves ext c ext (key_get key c).
Proof. intros HW HO. unfold key_get. destruct (key =? 0); [by apply moves_refl|]. by apply (moves_default ext key (fun fe => set_users (wrap32 (users fe + 1)) fe)). Qed.

Lemma moves_ra_window ext key pgoff req mx c : wf c -> owned ext c -> moves ext c ext (ra_window key pgoff req mx c).2.
Proof. intros HW HO. unfold ra_window. destruct (file key c) as [fe|] eqn:E; [|by apply moves_refl]. by apply moves_meta; [done|done|..]; rewrite E. Qed.

(** ** Frames of entries *)
Lemma holds_entry key pg c p : wf c -> page_of key pg c = Some p -> published p = true -> 1 <= holds (phys p) c.
Proof.
  intros HW (fe & Hf & Hb)%page_of_Some Hp. unfold holds, total.
  transitivity (tally (w_holds (phys p)) (pages fe)).
  - transitivity (w_holds (phys p) p); [unfold w_holds; by rewrite Hp, Z.eqb_refl|]. eapply tally_le_entry; [|exact Hb]. intros q. apply b2z_range.
  - apply (tally_le_entry (fun fe => tally (w_holds (phys p)) (pages fe)) (files c) key fe); [|done]. intros g. apply tally_ge. intros q. apply b2z_range.
Qed.

Lemma entry_owned ext key pg c p : wf c -> page_of key pg c = Some p -> published p = true -> ~ unowned ext c (phys p).
Proof. intros HW Hp Hb [H0 _]. pose proof (holds_entry key pg c p HW Hp Hb). lia. Qed.

(** Every frame can take [n] more references. *)
Definition room (n : nat) (c : t) : Prop := forall f, PageRef.get f (frame_refs c) + Z.of_nat n <= U32_MAX.

Lemma w_mapped_pub p : published p = true -> w_mapped p = Z.b2z (on (flags p) F_MAPPED).
Proof. intros H. unfold w_mapped, mapped. by rewrite H. Qed.

(** ** Mappings *)
Lemma moves_lookup ext key pg exec c : wf c -> owned ext c -> room 1 c ->
  moves ext c (plus ext (option_list (lookup key pg exec c).1)) (lookup key pg exec c).2
  /\ forall p, (lookup key pg exec c).1 = Some p -> p <> 0 /\ exists q, page_of key pg c = Some q /\ published q = true /\ phys q = p.
Proof.
  intros HW HO Hr. assert (moves ext c (plus ext []) c) as Hid by (eapply moves_ext; [|by apply moves_refl]; intros f; unfold plus; cbn; lia).
  unfold lookup. destruct (key =? 0); [done|]. destruct (page_of key pg c) as [p|] eqn:Ep; [|done]. destruct (published p) eqn:Eb; cbn [negb]; [|done].
  cbn [fst snd]. split; [|intros q [= <-]; split; [by apply published_nonzero|by exists p]].
  set (f := raise (if exec then F_EXEC else 0) (raise F_MAPPED (raise F_REF (flags p)))). set (c1 := if on (flags p) F_MAPPED then c else set_MAPPED (MAPPED c + 1) c).
  assert (on f F_MAPPED = true /\ on f F_DIRTY = on (flags p) F_DIRTY) as [Hm Hd].
  { unfold f. rewrite !on_raise. destruct exec, (on (flags p) F_MAPPED), (on (flags p) F_DIRTY); done. }
  assert (moves ext c ext (set_page key pg (Some (Cache.set_flags f p)) c1)) as M.
  { eapply (moves_flags ext key pg p f c); [done|done|done|by left|done|]. rewrite !w_mapped_pub by done. cbn [flags Cache.set_flags]. rewrite Hm. unfold c1.
    destruct (on (flags p) F_MAPPED); cbn; [|by replace (MAPPED c - 0 + 1) with (MAPPED c + 1) by lia]. replace (MAPPED c - 1 + 1) with (MAPPED c) by lia. by destruct c. }
  set (c2 := set_page key pg (Some (Cache.set_flags f p)) c1) in *. assert (frame_refs c2 = frame_refs c) as Er.
  { unfold c2, c1, set_page. destruct (file key _), (on (flags p) F_MAPPED); done. }
  eapply moves_trans; [exact M|]. apply (moves_pin ext c2 [phys p]); [apply M|apply M| |].
  - constructor; [|done]. split; [by apply published_nonzero|]. intros Hu. apply (entry_owned ext key pg c2 (Cache.set_flags f p)); [apply M| |done|done].
    pose proof (wf_ordered c HW) as Hix. unfold c2. rewrite page_of_set_page; [by rewrite decide_True|by unfold c1; destruct (on (flags p) F_MAPPED)|].
    apply page_of_Some in Ep as (fe & Hf & _). exists fe. unfold c1. by destruct (on (flags p) F_MAPPED).
  - intros g _. rewrite Er. apply Hr.
Qed.

Lemma moves_mark_dirty ext key pg ph c : wf c -> owned ext c -> ph <> 0 ->
  moves ext c ext (mark_dirty key pg ph c).2
  /\ (mark_dirty key pg ph c).1 = match page_of key pg c with Some p => published p && (phys p =? ph) | None => false end.
Proof.
  intros HW HO Hnz. pose proof (moves_refl ext c HW HO) as Hid. unfold mark_dirty. destruct (page_of key pg c) as [p|] eqn:Ep; [|by destruct (file key c)].
  pose proof Ep as (fe & Hf & Hb)%page_of_Some. rewrite Hf. destruct (state p =? ST_UPTODATE) eqn:Es; cbn [negb orb]; [|by split; [|unfold published; rewrite Es]].
  destruct (Z.eqb_spec (phys p) ph) as [Eph|Eph]; cbn [negb]; [|by split; [|unfold published; rewrite Es; cbn; rewrite andb_false_r]].
  assert (published p = true) as Hpub by (unfold published; rewrite Es; cbn; apply negb_true_iff, Z.eqb_neq; congruence). rewrite Hpub.
  destruct (on (flags p) F_DIRTY) eqn:Ed; [done|]. split; [|done]. cbn [snd]. set (p' := Cache.set_flags (raise F_DIRTY (flags p)) p).
  assert (w_dirty p = 0 /\ w_dirty p' = 1) as [D1 D2].
  { unfold w_dirty, dirty, p'. rewrite published_flags, Hpub, Ed. cbn [flags Cache.set_flags]. rewrite on_raise, Ed. done. }
  assert (w_mapped p' = w_mapped p) as Dm by (unfold p'; apply w_mapped_flags; rewrite on_raise; by rewrite orb_false_r).
  pose proof (set_page_ndirty key pg (Some p') c (Some p) (ndirty fe + 1) (fun fe => ndirty fe + 1) (wf_sorted c HW)) as HE.
  assert (DIRTY (set_page key pg (Some p') c) = DIRTY c) as -> by (unfold set_page; by rewrite Hf).
  set (c1 := with_file key (fun fe => set_ndirty (ndirty fe + 1) fe) (set_page key pg (Some p') c)) in *.
  assert (edited key pg (Some p) (Some p') c (set_DIRTY (DIRTY c + 1) c1)) as HE'.
  { destruct HE as [HE HU]; [exists fe; cbn; rewrite D1, D2; split_and!; try done; lia|]. by split. }
  assert (CACHED c1 = CACHED c /\ DIRTY c1 = DIRTY c /\ FILLING c1 = FILLING c /\ MAPPED c1 = MAPPED c /\ frame_refs c1 = frame_refs c /\ released c1 = released c) as (E1 & E2 & E3 & E4 & E5 & E6).
  { unfold c1, with_file, set_page. rewrite Hf. rewrite file_set_file, decide_True by (done || apply HW). done. }
  eapply moves_edit; [done|done|exact HE'| |done|done|apply HO|by intros].
  eapply wf_edit; [done|exact HE'| |..]; [apply page_ok_flags; [by eapply page_of_ok|by left]|..]; cbn; rewrite ?E1, ?E2, ?E3, ?E4, ?Dm; change (w_pub p') with (w_pub p); change (w_fill p') with (w_fill p); lia.
Qed.

(** ** Flags of many entries *)
Definition keeps (g : Page -> Z) : Prop := forall p, on (g p) F_DIRTY = on (flags p) F_DIRTY /\ on (g p) F_MAPPED = on (flags p) F_MAPPED.

Lemma keeps_raise b : on b F_DIRTY = false -> on b F_MAPPED = false -> keeps (fun p => raise b (flags p)).
Proof. intros H1 H2 p. by rewrite !on_raise, H1, H2, !orb_false_r. Qed.

Lemma set_MAPPED_id c : set_MAPPED (MAPPED c) c = c.
Proof. by destruct c. Qed.

Lemma moves_flags_kept ext key pg p g c : wf c -> owned ext c -> page_of key pg c = Some p -> keeps g -> moves ext c ext (set_page key pg (Some (Cache.set_flags (g p) p)) c).
Proof.
  intros HW HO Hp Hg. destruct (Hg p) as [G1 G2]. eapply (moves_flags ext key pg p (g p) c); [done|done|done|by right|done|].
  rewrite w_mapped_flags by done. replace (MAPPED c - w_mapped p + w_mapped p) with (MAPPED c) by lia. by rewrite set_MAPPED_id.
Qed.

Lemma holds_flags_kept key pg p g c f : wf c -> page_of key pg c = Some p -> keeps g -> holds f (set_page key pg (Some (Cache.set_flags (g p) p)) c) = holds f c.
Proof.
  intros HW (fe & Hf & Hb)%page_of_Some Hg. unfold holds. destruct (Hg p) as [G1 _].
  rewrite (total_edit _ key pg (Some p) (Some (Cache.set_flags (g p) p)) c); [cbn; rewrite w_holds_flags; lia|done|].
  apply set_page_edited; [by exists fe|]. cbn. by apply w_dirty_flags.
Qed.

Lemma set_page_refs key pg o c : frame_refs (set_page key pg o c) = frame_refs c.
Proof. unfold set_page. by destruct (file key c). Qed.

Lemma set_page_same key pg o c :
  CACHED (set_page key pg o c) = CACHED c /\ DIRTY (set_page key pg o c) = DIRTY c /\ FILLING (set_page key pg o c) = FILLING c
  /\ MAPPED (set_page key pg o c) = MAPPED c /\ frame_refs (set_page key pg o c) = frame_refs c /\ released (set_page key pg o c) = released c.
Proof. unfold set_page. by destruct (file key c). Qed.

Definition flag_all (key : Z) (g : Page -> Z) (c : t) (ps : list (Z * Page)) : t :=
  foldl (fun c e => set_page key e.1 (Some (Cache.set_flags (g e.2) e.2)) c) c ps.

Lemma flag_all_spec ext key g ps c :
  wf c -> owned ext c -> keeps g -> NoDup ps.*1 -> (forall e, e ∈ ps -> page_of key e.1 c = Some e.2) ->
  moves ext c ext (flag_all key g c ps) /\ frame_refs (flag_all key g c ps) = frame_refs c /\ (forall f, holds f (flag_all key g c ps) = holds f c) /\
  forall k pg, page_of k pg (flag_all key g c ps)
    = if decide (k = key /\ pg ∈ ps.*1) then (fun p => Cache.set_flags (g p) p) <$> page_of key pg c else page_of k pg c.
Proof.
  intros HW HO Hg. revert c HW HO. induction ps as [|[pg p] ps IH]; intros c HW HO HN Hps.
  - split; [by apply moves_refl|]. split; [done|]. split; [done|]. intros k j. rewrite decide_False; [done|]. intros [_ Hj]. by apply not_elem_of_nil in Hj.
  - apply NoDup_cons in HN as [Hn HN]. pose proof (Hps (pg, p) ltac:(left)) as Hp. cbn in Hp, Hn. cbn [flag_all foldl].
    set (c1 := set_page key pg (Some (Cache.set_flags (g p) p)) c). assert (is_Some (file key c)) as Hfs by (apply page_of_Some in Hp as (fe & Hf & _); by exists fe).
    assert (moves ext c ext c1) as M by (by apply moves_flags_kept). assert (forall k j, page_of k j c1 = if decide (k = key /\ j = pg) then Some (Cache.set_flags (g p) p) else page_of k j c) as Hc1.
    { intros k j. by apply page_of_set_page; [apply wf_ordered|]. }
    destruct (IH c1 (mv_wf _ _ _ _ M) (mv_owned _ _ _ _ M) HN) as (I1 & I2 & I4 & I3).
    { intros [j q] He. rewrite Hc1, decide_False; [apply (Hps (j, q)); by right|]. intros [_ E]. cbn in E. subst j. apply Hn. apply list_elem_of_fmap. by exists (pg, q). }
    split; [by eapply moves_trans|]. split; [etrans; [exact I2|apply set_page_refs]|]. split; [intros f; etrans; [exact (I4 f)|by apply holds_flags_kept]|]. intros k j. unfold flag_all in I3. rewrite I3. cbn [fmap list_fmap fst].
    destruct (decide (k = key /\ j ∈ ps.*1)) as [[-> Hj]|Hj].
    + rewrite decide_True by (split; [done|by right]). rewrite Hc1, decide_False; [done|]. intros [_ ->]. done.
    + rewrite Hc1. destruct (decide (k = key /\ j = pg)) as [[-> ->]|Hne]; [rewrite decide_True by (split; [done|left]); by rewrite Hp|].
      rewrite decide_False; [done|]. intros [-> [->|]%elem_of_cons]; [by apply Hne|by apply Hj].
Qed.

(** A part of a file's entries, visited in order. *)
Definition part_of (key : Z) (ps : list (Z * Page)) (c : t) : Prop :=
  NoDup ps.*1 /\ forall e, e ∈ ps -> page_of key e.1 c = Some e.2.

Lemma part_of_pages key fe c : wf c -> file key c = Some fe -> part_of key (pages fe) c.
Proof.
  intros HW Hf. destruct (wf_files c HW key fe Hf) as [F1 _ _]. split; [by apply sorted_keys_nodup|]. intros [j p] He. apply page_of_Some. exists fe. split; [done|]. by apply bget_elem.
Qed.

Lemma nodup_filter_fst (g : Z * Page -> bool) ps : NoDup ps.*1 -> NoDup (List.filter g ps).*1.
Proof.
  induction ps as [|e ps IH]; [done|]. cbn. intros [Hn HN]%NoDup_cons. destruct (g e); [|auto]. cbn. constructor; [|auto].
  intros (x & Ex & Hx)%list_elem_of_fmap. apply Hn. apply list_elem_of_fmap. exists x. split; [done|]. by apply list_elem_of_In, filter_In in Hx as [Hx%list_elem_of_In _].
Qed.

Lemma part_of_filter key g ps c : part_of key ps c -> part_of key (List.filter g ps) c.
Proof.
  intros [HN Hps]. split; [by apply nodup_filter_fst|]. intros e He. apply Hps. by apply list_elem_of_In, filter_In in He as [He%list_elem_of_In _].
Qed.

Lemma part_of_range key lo fe c : wf c -> file key c = Some fe -> part_of key (range lo (pages fe)) c.
Proof. intros HW Hf. apply part_of_filter. by apply part_of_pages. Qed.

(** ** Reads *)
Lemma run_part key pgoff len ps c : part_of key ps c -> part_of key (run pgoff len ps) c /\ Forall (fun e => published e.2 = true) (run pgoff len ps).
Proof.
  assert (forall ps pgoff len, incl (run pgoff len ps) ps /\ (NoDup ps.*1 -> NoDup (run pgoff len ps).*1) /\ Forall (fun e => published e.2 = true) (run pgoff len ps)) as H.
  { clear. induction ps as [|[pg p] ps IH]; intros pgoff [|len]; cbn; try (split; [done|by split]); try (split; [apply incl_nil_l|by split; [constructor|]]).
    destruct ((pg =? pgoff) && published p) eqn:E; [|split; [apply incl_nil_l|by split; [constructor|]]]. apply andb_true_iff in E as [_ Ep].
    destruct (IH (pgoff + 1) len) as (I1 & I2 & I3). split; [|split].
    - intros x [<-|Hx]; [by left|right; by apply I1].
    - intros [Hn HN]%NoDup_cons. cbn. constructor; [|auto]. intros (x & Ex & Hx)%list_elem_of_fmap. apply Hn, list_elem_of_fmap. exists x. split; [done|]. by apply list_elem_of_In, I1, list_elem_of_In.
    - by constructor. }
  intros [HN Hps]. destruct (H ps pgoff len) as (I1 & I2 & I3). split; [|done]. split; [auto|]. intros e He. by apply Hps, list_elem_of_In, I1, list_elem_of_In.
Qed.

Definition pinned_frames (r : Run) : list Z := match r with Hit l => l | _ => [] end.

Lemma plus_nil ext f : ext f = plus ext [] f.
Proof. unfold plus. cbn. lia. Qed.

Lemma owned_part ext key ps c : wf c -> part_of key ps c -> Forall (fun e => published e.2 = true) ps -> Forall (fun f => f <> 0 /\ ~ unowned ext c f) (phys <$> ps.*2).
Proof.
  intros HW [_ Hps] Hpub. apply Forall_forall. intros f (p & -> & (e & -> & He)%list_elem_of_fmap)%list_elem_of_fmap.
  rewrite Forall_forall in Hpub. split; [by apply published_nonzero, Hpub|]. eapply entry_owned; [done|by apply Hps|by apply Hpub].
Qed.

Lemma unowned_files ext c c' f : files c' = files c -> unowned ext c' f <-> unowned ext c f.
Proof. intros E. unfold unowned, holds. by rewrite (total_same _ _ _ E). Qed.

Lemma run_length pgoff len ps : (length (run pgoff len ps) <= len)%nat.
Proof. revert pgoff len. induction ps as [|[pg p] ps IH]; intros pgoff [|len]; cbn; try lia. destruct (_ && _); cbn; [specialize (IH (pgoff + 1) len)|]; lia. Qed.

(** Pinning entries whose flags have just changed. *)
Lemma moves_pin_after ext c c1 l :
  wf c -> moves ext c ext c1 -> frame_refs c1 = frame_refs c -> (forall f, holds f c1 = holds f c) ->
  Forall (fun f => f <> 0 /\ ~ unowned ext c f) l -> room (length l) c -> moves ext c (plus ext l) (pin l c1).
Proof.
  intros HW M Er Eh Hl Hr. eapply moves_trans; [exact M|]. apply moves_pin; [apply M|apply M| |].
  - eapply Forall_impl; [exact Hl|]. cbn. unfold unowned. intros f. by rewrite Eh.
  - intros f _. rewrite Er. apply Hr.
Qed.

Lemma room_le n m c : (n <= m)%nat -> room m c -> room n c.
Proof. intros H Hr f. specialize (Hr f). lia. Qed.

Lemma moves_pin_run ext key pgoff len c : wf c -> owned ext c -> room len c -> moves ext c (plus ext (pinned_frames (pin_run key pgoff len c).1)) (pin_run key pgoff len c).2.
Proof.
  intros HW HO Hr. assert (moves ext c (plus ext []) c) as Hid by (eapply moves_ext; [apply plus_nil|by apply moves_refl]).
  unfold pin_run. destruct (file key c) as [fe|] eqn:Hf; [|done].
  destruct (run_part key pgoff len (range pgoff (pages fe)) c (part_of_range key pgoff fe c HW Hf)) as [Hpart Hpub].
  pose proof (run_length pgoff len (range pgoff (pages fe))) as Hlen.
  destruct (run pgoff len (range pgoff (pages fe))) as [|e0 ps0] eqn:Erun; [destruct len, (range pgoff (pages fe)) as [|[] ?]; cbn; try case_match; done|].
  rewrite <- Erun in *. set (ps := run pgoff len (range pgoff (pages fe))) in *. cbn [fst snd pinned_frames].
  destruct (flag_all_spec ext key (fun p => raise F_REF (flags p)) ps c HW HO ltac:(by apply keeps_raise) (proj1 Hpart) (proj2 Hpart)) as (M & Er & Eh & _).
  apply (moves_pin_after ext c); [done|exact M|exact Er|exact Eh|by eapply owned_part|]. eapply room_le; [|exact Hr]. by rewrite !length_fmap.
Qed.

(** ** Fills

    The loops of a fill update [FILLING] and [CACHED] once, at the end: the
    invariant holds of the state with that update made early. *)
Definition bump (x y : Z) (c : t) : t := set_FILLING (FILLING c + x) (set_CACHED (CACHED c + y) c).

Definition placeholder (tok : Z) : Page := mkPage 0 tok ST_FILLING 0.

Lemma absent_weights o w : absent o = true -> (forall p, state p = ST_UPTODATE -> phys p = 0 -> w p = 0) -> opt w o = 0.
Proof. destruct o as [p|]; [|done]. cbn. rewrite andb_true_iff, !Z.eqb_eq. intros [H1 H2] Hw. auto. Qed.

Lemma fill_one ext key pg tok c m :
  wf (bump m 0 c) -> owned ext c -> is_Some (file key c) -> absent (page_of key pg c) = true ->
  moves ext (bump m 0 c) ext (bump (m + 1) 0 (set_page key pg (Some (placeholder tok)) c)).
Proof.
  intros HW HO [fe Hf] Ha. set (c' := set_page key pg (Some (placeholder tok)) c).
  assert (forall w, (forall p, state p = ST_UPTODATE -> phys p = 0 -> w p = 0) -> opt w (page_of key pg c) = 0) as Hw0 by (intros; by apply absent_weights).
  assert (forall (b : Page -> bool) p, phys p = 0 -> Z.b2z (published p && b p) = 0) as Hp0 by (intros b p Hp; unfold published; by rewrite Hp, andb_false_r).
  assert (edited key pg (page_of key pg c) (Some (placeholder tok)) (bump m 0 c) (bump (m + 1) 0 c')) as HE.
  { assert (page_of key pg c = bget pg (pages fe)) as Epo by (unfold page_of; by rewrite Hf).
    destruct (set_page_edited key pg (Some (placeholder tok)) c (page_of key pg c)) as [HE HU]; [by exists fe|rewrite Hw0; [done|]; intros p _ H0; by apply (Hp0 (fun p => on (flags p) F_DIRTY))|].
    by split. }
  destruct (set_page_same key pg (Some (placeholder tok)) c) as (E1 & E2 & E3 & E4 & E5 & E6).
  eapply moves_edit; [done|exact HO|exact HE| |exact E5|exact E6|apply HO|].
  - eapply wf_edit; [done|exact HE|left; done|..]; cbn [CACHED DIRTY FILLING MAPPED bump set_FILLING set_CACHED]; unfold c'; rewrite ?E1, ?E2, ?E3, ?E4.
    + rewrite (Hw0 w_pub); [cbn; lia|]. intros p _ H0. unfold w_pub. rewrite <- (andb_true_r (published p)). by apply (Hp0 (fun _ => true)).
    + rewrite (Hw0 w_dirty); [cbn; lia|]. intros p _ H0. by apply (Hp0 (fun p => on (flags p) F_DIRTY)).
    + rewrite (Hw0 w_fill); [cbn; lia|]. intros p H0 _. unfold w_fill, filling. by rewrite H0.
    + rewrite (Hw0 w_mapped); [cbn; lia|]. intros p _ H0. by apply (Hp0 (fun p => on (flags p) F_MAPPED)).
  - intros f _. rewrite (Hw0 (w_holds f)); [cbn; lia|]. intros p _ H0. by apply (Hp0 (fun p => phys p =? f)).
Qed.

Lemma ordered_set_page key pg o c : ordered c -> ordered (set_page key pg o c).
Proof.
  intros [HS HP]. unfold set_page. destruct (file key c) as [fe|] eqn:Hf; [|done]. split; [by apply bset_sorted|]. intros k g. rewrite file_set_file by done.
  case_decide; [|apply HP]. intros [= <-]. by apply bset_sorted, (HP key fe).
Qed.

Lemma file_set_page_some key pg o c : is_Some (file key c) -> ordered c -> is_Some (file key (set_page key pg o c)).
Proof. intros [fe Hf] [HS _]. rewrite file_set_page, decide_True by done. rewrite Hf. by eexists. Qed.

Lemma fill_loop_spec ext key last tok want pg c m :
  wf (bump m 0 c) -> owned ext c -> is_Some (file key c) ->
  let '(n, c') := fill_loop want key pg last tok c in
  (n <= want)%nat /\ moves ext (bump m 0 c) ext (bump (m + Z.of_nat n) 0 c') /\ next_token c' = next_token c /\
  (forall k j, page_of k j c' = if decide (k = key /\ pg <= j < pg + Z.of_nat n) then Some (placeholder tok) else page_of k j c) /\
  (forall j, pg <= j < pg + Z.of_nat n -> j <= last /\ absent (page_of key j c) = true).
Proof.
  revert pg c m. induction want as [|want IH]; intros pg c m HW HO Hfs; cbn [fill_loop].
  - split; [done|]. split; [by replace (m + Z.of_nat 0) with m by lia; apply moves_refl|]. split; [done|]. split; [|lia]. intros k j. by rewrite decide_False by lia.
  - destruct ((pg <=? last) && absent (page_of key pg c)) eqn:E.
    2: { split; [lia|]. split; [by replace (m + Z.of_nat 0) with m by lia; apply moves_refl|]. split; [done|]. split; [|lia]. intros k j. by rewrite decide_False by lia. }
    apply andb_true_iff in E as [El Ea]. apply Z.leb_le in El. pose proof (fill_one ext key pg tok c m HW HO Hfs Ea) as M. set (c1 := set_page key pg (Some (placeholder tok)) c) in *.
    assert (ordered c) as Hix by exact (wf_ordered _ HW).
    specialize (IH (pg + 1) c1 (m + 1) (mv_wf _ _ _ _ M) (mv_owned _ _ _ _ M) (file_set_page_some _ _ _ _ Hfs Hix)). change (mkPage 0 tok ST_FILLING 0) with (placeholder tok). fold c1.
    destruct (fill_loop want key (pg + 1) last tok c1) as [n c'] eqn:El2. destruct IH as (I1 & I2 & I3 & I4 & I5).
    assert (forall k j, page_of k j c1 = if decide (k = key /\ j = pg) then Some (placeholder tok) else page_of k j c) as Hc1 by (intros; by apply page_of_set_page).
    split; [lia|]. split; [|split; [|split]].
    + replace (m + Z.of_nat (S n)) with (m + 1 + Z.of_nat n) by lia. by eapply moves_trans.
    + rewrite I3. unfold c1, set_page. by destruct (file key c).
    + intros k j. rewrite I4, Hc1. destruct (decide (k = key /\ pg + 1 <= j < pg + 1 + Z.of_nat n)); [by rewrite decide_True by lia|].
      destruct (decide (k = key /\ j = pg)); [by rewrite decide_True by lia|by rewrite decide_False by lia].
    + intros j Hj. destruct (decide (j = pg)) as [->|]; [done|]. destruct (I5 j ltac:(lia)) as [J1 J2]. split; [done|]. by rewrite Hc1, decide_False in J2 by tauto.
Qed.

(** [begin_fill] puts placeholders on the first [n] pages, all of them absent
    before and inside the file, and changes no other entry. *)
Lemma begin_fill_spec ext key pgoff want c : wf c -> owned ext c ->
  let '(o, c') := begin_fill key pgoff want c in
  moves ext c ext c' /\ next_token c' = Z.max (wrap32 (next_token c + 1)) 1 /\
  match o with
  | None => forall k j, page_of k j c' = page_of k j c
  | Some (tok, n) => tok = next_token c /\ (0 < n <= want)%nat /\
      (forall k j, page_of k j c' = if decide (k = key /\ pgoff <= j < pgoff + Z.of_nat n) then Some (placeholder tok) else page_of k j c) /\
      (forall j, pgoff <= j < pgoff + Z.of_nat n -> absent (page_of key j c) = true)
  end.
Proof.
  intros HW HO. unfold begin_fill. set (c1 := set_next_token _ c). assert (moves ext c ext c1) as M1 by (apply moves_same; [done|done|by eapply wf_same|done..]).
  change (file key c1) with (file key c). destruct (file key c) as [fe|] eqn:Hf; [|done]. destruct (negb (size_known fe) || (size fe =? 0)); [done|].
  assert (bump 0 0 c1 = c1) as Eb by (unfold bump; rewrite !Z.add_0_r; by destruct c).
  pose proof (fill_loop_spec ext key ((size fe - 1) / PAGE_SIZE) (next_token c) want pgoff c1 0) as L. rewrite Eb in L.
  specialize (L (mv_wf _ _ _ _ M1) (mv_owned _ _ _ _ M1) ltac:(by exists fe)). destruct (fill_loop _ _ _ _ _ c1) as [n c2]. destruct L as (L1 & L2 & L3 & L4 & L5).
  assert (set_FILLING (FILLING c2 + Z.of_nat n) c2 = bump (0 + Z.of_nat n) 0 c2) as E2 by (unfold bump; rewrite Z.add_0_l, Z.add_0_r; by destruct c2).
  destruct (Nat.eqb_spec n 0) as [->|Hn].
  - split; [|split; [done|]].
    + eapply moves_trans; [exact M1|]. replace (bump (0 + Z.of_nat 0) 0 c2) with c2 in L2; [done|]. unfold bump. rewrite !Z.add_0_r. by destruct c2.
    + intros k j. rewrite L4. by rewrite decide_False by lia.
  - split; [rewrite E2; by eapply moves_trans|]. split; [done|]. split; [done|]. split; [lia|]. split; [exact L4|]. intros j Hj. by apply L5.
Qed.

(** The entry of a page after the fill [tok] has offered the frame [fr] for it. *)
Definition after_fill (tok fr : Z) (past : bool) (o : option Page) : option Page :=
  if ours tok o then
    match o with
    | Some p => if on (flags p) F_STALE || past then None else Some (mkPage fr (token p) ST_UPTODATE F_REF)
    | None => None
    end
  else o.

Lemma filling_weights p : page_ok p -> filling p = true ->
  published p = false /\ w_pub p = 0 /\ w_dirty p = 0 /\ w_fill p = 1 /\ w_mapped p = 0 /\ forall f, w_holds f p = 0.
Proof.
  intros _ Hf. assert (published p = false) as Hp by (unfold published, filling in *; apply Z.eqb_eq in Hf; by rewrite Hf).
  unfold w_pub, w_dirty, w_fill, w_mapped, w_holds, dirty, mapped. rewrite Hp, Hf. done.
Qed.

Lemma publish_one ext key tok pg fr past c m :
  wf (bump 0 m c) -> owned ext c -> fr <> 0 -> 0 < ext fr ->
  let '(o, c') := publish key tok pg fr past c in
  moves ext (bump 0 m c) (fun f => ext f - occ f [fr] + occ f (option_list o)) (bump 0 (m + 1 - Z.of_nat (length (option_list o))) c')
  /\ frame_refs c' = frame_refs c /\ (o = None \/ o = Some fr) /\ (is_Some (file key c) -> is_Some (file key c'))
  /\ forall k j, page_of k j c' = if decide (k = key /\ j = pg) then after_fill tok fr past (page_of key pg c) else page_of k j c.
Proof.
  intros HW HO Hnz Hx.
  assert (after_fill tok fr past (page_of key pg c) = page_of key pg c ->
    moves ext (bump 0 m c) (fun f => ext f - occ f [fr] + occ f [fr]) (bump 0 (m + 1 - 1) c)
    /\ frame_refs c = frame_refs c /\ (Some fr = None \/ Some fr = Some fr) /\ (is_Some (file key c) -> is_Some (file key c))
    /\ forall k j, page_of k j c = if decide (k = key /\ j = pg) then after_fill tok fr past (page_of key pg c) else page_of k j c) as Hskip.
  { intros E. split_and!; [|done|by right|done|].
    - replace (m + 1 - 1) with m by lia. eapply moves_ext; [|by apply moves_refl]. intros f. lia.
    - intros k j. case_decide as Ek; [|done]. destruct Ek as [-> ->]. by rewrite E. }
  unfold publish. destruct (page_of key pg c) as [p|] eqn:Ep; [|apply Hskip; done].
  unfold after_fill in *. cbn [ours] in *. destruct (filling p && (token p =? tok)) eqn:Eo; [|apply Hskip; done]. clear Hskip.
  apply andb_true_iff in Eo as [Ef Et]. pose proof Ep as (fe & Hf & Hb)%page_of_Some. assert (page_ok p) as Hok by exact (page_of_ok key pg (bump 0 m c) p HW Ep).
  destruct (filling_weights p Hok Ef) as (W0 & W1 & W2 & W3 & W4 & W5). assert (ordered c) as Hix by exact (wf_ordered _ HW).
  set (c1 := set_FILLING (FILLING c - 1) c).
  assert (forall o d, opt w_dirty o = 0 -> opt w_pub o = d -> opt w_mapped o = 0 -> opt w_fill o = 0 -> page_opt_ok o -> edited key pg (Some p) o (bump 0 m c) (bump 0 (m + d) (set_page key pg o c1))
    /\ wf (bump 0 (m + d) (set_page key pg o c1))) as Hed.
  { intros o d D1 D2 D3 D4 D5. destruct (set_page_same key pg o c1) as (E1 & E2 & E3 & E4 & E5 & E6).
    assert (edited key pg (Some p) o (bump 0 m c) (bump 0 (m + d) (set_page key pg o c1))) as HE.
    { destruct (set_page_edited key pg o c1 (Some p)) as [HE HU]; [by exists fe|cbn; lia|]. by split. }
    split; [done|]. eapply wf_edit; [done|exact HE|done|..]; cbn [CACHED DIRTY FILLING MAPPED bump set_FILLING set_CACHED]; rewrite ?E1, ?E2, ?E3, ?E4, ?D1, ?D2, ?D3, ?D4; cbn; lia. }
  assert (forall o k j, page_of k j (set_page key pg o c1) = if decide (k = key /\ j = pg) then o else page_of k j c) as Hpo.
  { intros o k j. rewrite page_of_set_page by (done || by exists fe). done. }
  destruct (on (flags p) F_STALE || past).
  - destruct (Hed None 0) as [HE HW']; [done..|]. split_and!; [| | | |apply Hpo].
    + replace (m + 1 - Z.of_nat (length (option_list (Some fr)))) with (m + 0) by (cbn; lia).
      eapply moves_edit; [done|exact HO|exact HE|done|apply (set_page_same key pg None c1)|apply (set_page_same key pg None c1)| |].
      * intros f. cbn. destruct HO as (_ & H2 & _). specialize (H2 f). lia.
      * intros f _. cbn. rewrite W5. lia.
    + apply (set_page_same key pg None c1).
    + by right.
    + intros _. by apply file_set_page_some; [exists fe|].
  - set (q := mkPage fr (token p) ST_UPTODATE F_REF). assert (published q = true) as Hpq by (unfold published; cbn; apply negb_true_iff; by apply Z.eqb_neq).
    destruct (Hed (Some q) 1) as [HE HW'].
    { cbn. unfold w_dirty, dirty. by rewrite Hpq. } { cbn. unfold w_pub. by rewrite Hpq. } { cbn. unfold w_mapped, mapped. by rewrite Hpq. } { done. }
    { right. split; [done|]. by intros H0. }
    split_and!; [| | | |apply Hpo].
    + replace (m + 1 - Z.of_nat (length (option_list (@None Z)))) with (m + 1) by (cbn; lia).
      eapply moves_edit; [done|exact HO|exact HE|done|apply (set_page_same key pg (Some q) c1)|apply (set_page_same key pg (Some q) c1)| |].
      * intros f. cbn. destruct HO as (_ & H2 & _). specialize (H2 f). destruct (Z.eqb_spec fr f); cbn; subst; lia.
      * intros f _. cbn. rewrite W5. unfold w_holds. rewrite Hpq. cbn. lia.
    + apply (set_page_same key pg (Some q) c1).
    + by left.
    + intros _. by apply file_set_page_some; [exists fe|].
Qed.

Lemma publish_loop_spec ext key tok pgoff valid frames i c m :
  wf (bump 0 m c) -> owned ext c -> Forall (fun f => f <> 0) frames -> (forall f, occ f frames <= ext f) ->
  let '(freed, c') := publish_loop key tok pgoff valid i frames c in
  moves ext (bump 0 m c) (fun f => ext f - occ f frames + occ f freed) (bump 0 (m + Z.of_nat (length frames) - Z.of_nat (length freed)) c')
  /\ frame_refs c' = frame_refs c /\ (length freed <= length frames)%nat /\ (forall f, f ∈ freed -> f ∈ frames)
  /\ forall k j, page_of k j c' = if decide (k = key /\ pgoff + Z.of_nat i <= j < pgoff + Z.of_nat i + Z.of_nat (length frames))
       then after_fill tok (nth (Z.to_nat (j - pgoff) - i) frames 0) (valid <=? (j - pgoff) * PAGE_SIZE) (page_of key j c) else page_of k j c.
Proof.
  revert ext i c m. induction frames as [|fr frames IH]; intros ext i c m HW HO Hnz Hle; cbn [publish_loop].
  - split_and!; [|done|done|done|intros k j; rewrite decide_False; [done|]; cbn; lia].
    replace (m + Z.of_nat (length (@nil Z)) - Z.of_nat (length (@nil Z))) with m by (cbn; lia). eapply moves_ext; [|by apply moves_refl]. intros f. cbn. lia.
  - apply Forall_cons in Hnz as [Hf Hnz]. pose proof (Hle fr) as Hlf. cbn in Hlf. rewrite Z.eqb_refl in Hlf. cbn in Hlf. pose proof (occ_ge fr frames).
    pose proof (publish_one ext key tok (pgoff + Z.of_nat i) fr (valid <=? Z.of_nat i * PAGE_SIZE) c m HW HO Hf ltac:(lia)) as P.
    destruct (publish _ _ _ _ _ c) as [o c1]. destruct P as (P1 & P2 & P3 & P4 & P5). set (ext1 := fun f => ext f - occ f [fr] + occ f (option_list o)) in P1.
    assert (forall f, occ f (option_list o) <= occ f [fr]) as Hof by (intros f; destruct P3 as [-> | ->]; cbn; pose proof (b2z_range (fr =? f)); lia).
    pose proof (IH ext1 (S i) c1 (m + 1 - Z.of_nat (length (option_list o))) (mv_wf _ _ _ _ P1) (mv_owned _ _ _ _ P1) Hnz) as I.
    assert (forall f, occ f frames <= ext1 f) as Hle1.
    { intros f. specialize (Hle f). unfold ext1. cbn in *. pose proof (occ_ge f (option_list o)). lia. }
    specialize (I Hle1). destruct (publish_loop key tok pgoff valid (S i) frames c1) as [gone c2]. destruct I as (I1 & I2 & I3 & I4 & I5).
    assert (length (option_list o) <= 1)%nat as Hlo by (destruct o; cbn; lia). rewrite length_app. split_and!.
    + eapply moves_ext; [|eapply moves_trans; [exact P1|]].
      2: { replace (m + Z.of_nat (length (fr :: frames)) - Z.of_nat (length (option_list o) + length gone)) with (m + 1 - Z.of_nat (length (option_list o)) + Z.of_nat (length frames) - Z.of_nat (length gone)) by (cbn [length]; lia). exact I1. }
      intros f. unfold ext1. rewrite occ_app. cbn. lia.
    + by rewrite I2.
    + cbn. lia.
    + intros f [Hin|Hin]%elem_of_app; [|right; auto]. destruct P3 as [-> | ->]; [by apply not_elem_of_nil in Hin|]. apply list_elem_of_singleton in Hin as ->. left.
    + intros k j. rewrite I5, !P5. cbn [length]. destruct (decide (k = key /\ pgoff + Z.of_nat (S i) <= j < pgoff + Z.of_nat (S i) + Z.of_nat (length frames))) as [[-> Hj]|Hj].
      * rewrite (decide_True (P := key = key /\ _ <= j < _)) by lia. rewrite (decide_False (P := key = key /\ j = pgoff + Z.of_nat i)) by lia.
        replace (Z.to_nat (j - pgoff) - i)%nat with (S (Z.to_nat (j - pgoff) - S i)) by lia. done.
      * destruct (decide (k = key /\ j = pgoff + Z.of_nat i)) as [[-> ->]|Hne].
        { rewrite decide_True by lia. replace (pgoff + Z.of_nat i - pgoff) with (Z.of_nat i) by lia. rewrite Nat2Z.id, Nat.sub_diag. done. }
        rewrite decide_False by lia. done.
Qed.

Lemma moves_free_all ext c l :
  wf c -> owned ext c -> Forall (fun f => f <> 0) l -> (forall f, occ f l <= ext f) -> (forall f, f ∈ l -> PageRef.get f (frame_refs c) = 1) ->
  moves ext c (minus ext l) (foldl (fun c p => buddy_free p c) c l).
Proof.
  revert ext c. induction l as [|f l IH]; intros ext c HW HO Hnz Hle H1.
  - eapply moves_ext; [|by apply moves_refl]. intros g. unfold minus. cbn. lia.
  - apply Forall_cons in Hnz as [Hf Hnz]. pose proof (Hle f) as Hlf. cbn in Hlf. rewrite Z.eqb_refl in Hlf. cbn in Hlf. pose proof (occ_ge f l).
    assert (moves ext c (minus ext [f]) (buddy_free f c)) as M by (apply moves_free; [done|done|done|lia|apply H1; left]).
    eapply moves_ext; [exact (minus_cons ext f l)|]. eapply moves_trans; [exact M|]. apply IH; [apply M|apply M|done| |].
    + intros g. specialize (Hle g). unfold minus. cbn in *. lia.
    + intros g Hg. apply H1. by right.
Qed.

Lemma free_all_files l c : files (foldl (fun c p => buddy_free p c) c l) = files c /\ next_token (foldl (fun c p => buddy_free p c) c l) = next_token c.
Proof. revert c. induction l as [|f l IH]; intros c; [done|]. cbn. destruct (IH (buddy_free f c)) as [-> ->]. done. Qed.

Lemma page_of_files c c' k j : files c' = files c -> page_of k j c' = page_of k j c.
Proof. intros E. unfold page_of, file. by rewrite E. Qed.

(** Adding to [CACHED] what was published earlier. *)
Lemma wf_count n c : wf (count_published n c) <-> wf c.
Proof.
  assert (forall c c', files c' = files c -> DIRTY c' = DIRTY c -> FILLING c' = FILLING c -> MAPPED c' = MAPPED c ->
    CACHED c' + uncounted c' = CACHED c + uncounted c -> wf c -> wf c') as H.
  { intros d d' E1 E2 E3 E4 E5 []. split; unfold total, file in *; rewrite ?E1, ?E2, ?E3, ?E4, ?E5; done. }
  split; apply H; try done; cbn; lia.
Qed.

(** The locked section of [end_fill] gives each page of the fill its frame, unless
    its placeholder is gone, doomed or past the data; every frame the caller
    brought is now the cache's or still the caller's. *)
Lemma end_fill_locked_spec ext key tok pgoff frames valid c :
  wf c -> owned ext c -> Forall (fun f => f <> 0) frames -> (forall f, occ f frames <= ext f) ->
  let '(freed, c') := end_fill_locked key tok pgoff frames valid c in
  moves ext c (plus (minus ext frames) freed) (count_published (Z.of_nat (length frames - length freed)) c')
  /\ frame_refs c' = frame_refs c /\ (forall f, f ∈ freed -> f ∈ frames)
  /\ forall k j, page_of k j c' = if decide (k = key /\ pgoff <= j < pgoff + Z.of_nat (length frames))
       then after_fill tok (nth (Z.to_nat (j - pgoff)) frames 0) (valid <=? (j - pgoff) * PAGE_SIZE) (page_of key j c) else page_of k j c.
Proof.
  intros HW HO Hnz Hle. unfold end_fill_locked. assert (forall n d, count_published n (set_uncounted (uncounted d + n) d) = bump 0 n d) as Ec.
  { intros n d. unfold count_published, bump. cbn. rewrite Z.add_0_r. replace (uncounted d + n - n) with (uncounted d) by lia. by destruct d. }
  assert (bump 0 0 c = c) as Eb by (unfold bump; rewrite !Z.add_0_r; by destruct c). destruct (file key c) as [fe|] eqn:Hf.
  - pose proof (publish_loop_spec ext key tok pgoff valid frames 0 c 0) as L. rewrite Eb in L. specialize (L HW HO Hnz Hle).
    destruct (publish_loop key tok pgoff valid 0 frames c) as [freed c1]. destruct L as (L1 & L2 & L3 & L4 & L5). rewrite Ec. split_and!; [|exact L2|exact L4|].
    + replace (Z.of_nat (length frames - length freed)) with (0 + Z.of_nat (length frames) - Z.of_nat (length freed)) by lia. exact L1.
    + intros k j. change (page_of k j (set_uncounted _ c1)) with (page_of k j c1). rewrite L5. replace (pgoff + Z.of_nat 0) with pgoff by lia. by rewrite Nat.sub_0_r.
  - rewrite Nat.sub_diag. change (Z.of_nat 0) with 0. rewrite Ec, Eb. split_and!; [|done|done|].
    + eapply moves_ext; [|by apply moves_refl]. intros f. unfold plus, minus. lia.
    + intros k j. change (page_of k j (set_uncounted _ c)) with (page_of k j c). case_decide as E; [|done]. destruct E as [-> _]. unfold page_of. by rewrite Hf.
Qed.

(** [end_fill] run to its end: what the locked section leaves to the caller is back
    with the buddy allocator. *)
Lemma end_fill_spec ext key tok pgoff frames valid c :
  wf c -> owned ext c -> Forall (fun f => f <> 0) frames -> (forall f, occ f frames <= ext f) ->
  (forall f, f ∈ frames -> PageRef.get f (frame_refs c) = 1) ->
  moves ext c (minus ext frames) (end_fill key tok pgoff frames valid c).2 /\
  forall k j, page_of k j (end_fill key tok pgoff frames valid c).2 = if decide (k = key /\ pgoff <= j < pgoff + Z.of_nat (length frames))
       then after_fill tok (nth (Z.to_nat (j - pgoff)) frames 0) (valid <=? (j - pgoff) * PAGE_SIZE) (page_of key j c) else page_of k j c.
Proof.
  intros HW HO Hnz Hle H1. unfold end_fill. pose proof (end_fill_locked_spec ext key tok pgoff frames valid c HW HO Hnz Hle) as L.
  destruct (end_fill_locked key tok pgoff frames valid c) as [freed c1]. destruct L as (L1 & L2 & L3 & L4). cbn [snd]. set (c2 := count_published _ c1) in *. split.
  - eapply moves_ext; [|eapply moves_trans; [exact L1|apply (moves_free_all _ c2 freed); [apply L1|apply L1| | |]]].
    + intros f. unfold minus, plus. lia.
    + apply Forall_forall. intros f Hin. rewrite Forall_forall in Hnz. auto.
    + intros f. specialize (Hle f). unfold plus, minus. lia.
    + intros f Hin. change (frame_refs c2) with (frame_refs c1). rewrite L2. auto.
  - intros k j. rewrite (page_of_files c2) by apply free_all_files. apply L4.
Qed.

(** ** Removing entries that hold no frame *)
Lemma moves_drop_filling ext key pg p c : wf c -> owned ext c -> page_of key pg c = Some p -> filling p = true ->
  moves ext c ext (set_FILLING (FILLING c - 1) (set_page key pg None c)).
Proof.
  intros HW HO Hp Hfl. pose proof Hp as (fe & Hf & Hb)%page_of_Some. destruct (filling_weights p (page_of_ok _ _ _ _ HW Hp) Hfl) as (W0 & W1 & W2 & W3 & W4 & W5).
  destruct (set_page_same key pg None c) as (E1 & E2 & E3 & E4 & E5 & E6).
  assert (edited key pg (Some p) None c (set_FILLING (FILLING c - 1) (set_page key pg None c))) as HE.
  { destruct (set_page_edited key pg None c (Some p)) as [HE HU]; [by exists fe|cbn; lia|]. by split. }
  eapply moves_edit; [done|exact HO|exact HE| |exact E5|exact E6|apply HO|intros f _; cbn; rewrite W5; lia].
  eapply wf_edit; [done|exact HE|done|..]; cbn [CACHED DIRTY FILLING MAPPED set_FILLING]; rewrite ?E1, ?E2, ?E3, ?E4; cbn; lia.
Qed.

Lemma moves_drop_hole ext key pg p c : wf c -> owned ext c -> page_of key pg c = Some p -> filling p = false -> phys p = 0 -> moves ext c ext (set_page key pg None c).
Proof.
  intros HW HO Hp Hfl H0. pose proof Hp as (fe & Hf & Hb)%page_of_Some. assert (published p = false) as Hpub by (unfold published; by rewrite H0, andb_false_r).
  assert (w_pub p = 0 /\ w_dirty p = 0 /\ w_fill p = 0 /\ w_mapped p = 0 /\ forall f, w_holds f p = 0) as (W1 & W2 & W3 & W4 & W5).
  { unfold w_pub, w_dirty, w_fill, w_mapped, w_holds, dirty, mapped. rewrite Hpub, Hfl. done. }
  destruct (set_page_same key pg None c) as (E1 & E2 & E3 & E4 & E5 & E6).
  assert (edited key pg (Some p) None c (set_page key pg None c)) as HE by (apply set_page_edited; [by exists fe|cbn; lia]).
  eapply moves_edit; [done|exact HO|exact HE| |exact E5|exact E6|apply HO|intros f _; cbn; rewrite W5; lia].
  eapply wf_edit; [done|exact HE|done|..]; rewrite ?E1, ?E2, ?E3, ?E4; cbn; lia.
Qed.

Lemma moves_abort_fill ext key tok pgoff n c : wf c -> owned ext c -> moves ext c ext (abort_fill key tok pgoff n c).
Proof.
  intros HW HO. unfold abort_fill. generalize (seq 0 n). intros l. revert c HW HO. induction l as [|i l IH]; intros c HW HO; [by apply moves_refl|]. cbn [foldl].
  destruct (page_of key (pgoff + Z.of_nat i) c) as [p|] eqn:Ep; cbn [ours]; [|by apply IH].
  destruct (filling p && (token p =? tok)) eqn:Eo; [|by apply IH]. apply andb_true_iff in Eo as [Ef _].
  pose proof (moves_drop_filling ext key _ p c HW HO Ep Ef) as M.
  eapply moves_trans; [exact M|]. apply IH; apply M.
Qed.
