(* ===== verification/PageCacheWrite.v ===== *)
(** * The page cache: write-back, writes, truncation and dropped files *)
From S2P Require Import Prelude BTree PageSites PageRef PageCache PageCacheInv PageCacheOps.
#[local] Open Scope Z_scope.
Import Cache.

(** ** Write-back *)

(** A loop that only appends: what it adds, each element with its source. *)
Definition appends {A B} (mx : nat) (step : list B -> A -> list B) (src : A -> B -> Prop) : Prop :=
  forall out x, exists l, step out x = out ++ l /\ (length out <= mx -> length (out ++ l) <= mx)%nat /\ Forall (src x) l.

Lemma appends_foldl {A B} mx (step : list B -> A -> list B) src xs : appends mx step src ->
  forall out, exists l, foldl step out xs = out ++ l /\ (length out <= mx -> length (out ++ l) <= mx)%nat /\ Forall (fun b => exists x, x ∈ xs /\ src x b) l.
Proof.
  intros Hs. induction xs as [|x xs IH]; intros out; [exists []; rewrite app_nil_r; split_and!; try done; lia|]. cbn [foldl].
  destruct (Hs out x) as (l1 & E1 & L1 & F1). destruct (IH (step out x)) as (l2 & E2 & L2 & F2). exists (l1 ++ l2).
  rewrite E2, E1, app_assoc. rewrite E1 in L2. split; [done|]. split; [auto|]. apply Forall_app. split.
  - eapply Forall_impl; [exact F1|]. cbn. intros b Hb. exists x. split; [left|done].
  - eapply Forall_impl; [exact F2|]. cbn. intros b (y & Hy & Hb). exists y. split; [by right|done].
Qed.

Lemma appends_nothing {B} mx (P : B -> Prop) (out : list B) : exists l, out = out ++ l /\ (length out <= mx -> length (out ++ l) <= mx)%nat /\ Forall P l.
Proof. exists []. rewrite app_nil_r. by split_and!. Qed.

Lemma take_page_appends mt mx r key : appends mx (take_page mt mx r key) (fun e d => d = mkDirtyPage key e.1 (phys e.2) /\ dirty e.2 = true).
Proof.
  intros out e. unfold take_page. destruct (Nat.leb_spec mx (length out)); [apply appends_nothing|].
  destruct (negb (published e.2) || negb (on (flags e.2) F_DIRTY)) eqn:E; [apply appends_nothing|]. destruct (_ && _); [apply appends_nothing|].
  rewrite orb_false_iff, !negb_false_iff in E. destruct E as [E1 E2]. eexists. split; [done|]. split; [rewrite length_app; cbn; lia|].
  constructor; [|done]. split; [done|]. unfold dirty. by rewrite E1, E2.
Qed.

Lemma take_file_appends mt mx r : appends mx (take_file mt mx r) (fun f d => exists e, e ∈ pages f.2 /\ d = mkDirtyPage f.1 e.1 (phys e.2) /\ dirty e.2 = true).
Proof. intros out f. unfold take_file. destruct (_ || _); [apply appends_nothing|]. apply appends_foldl, take_page_appends. Qed.

Lemma in_files key fe c : wf c -> (key, fe) ∈ files c -> file key c = Some fe.
Proof. intros HW Hin. unfold file. apply bget_elem; [apply HW|done]. Qed.

Lemma entry_page_of key fe e c : wf c -> file key c = Some fe -> e ∈ pages fe -> page_of key e.1 c = Some e.2.
Proof. intros HW Hf He. by apply (part_of_pages key fe c HW Hf). Qed.

(** [take_dirty] pins dirty published pages only, each at its place in the index. *)
Lemma take_dirty_spec ext lo hi mt mx out c : wf c -> owned ext c -> room mx c -> (length out <= mx)%nat ->
  exists l, (take_dirty lo hi mt mx out c).1 = out ++ l /\ (length (out ++ l) <= mx)%nat /\
  moves ext c (plus ext (d_phys <$> l)) (take_dirty lo hi mt mx out c).2 /\
  forall d, d ∈ l -> exists p, page_of (d_key d) (d_pgoff d) c = Some p /\ phys p = d_phys d /\ dirty p = true.
Proof.
  intros HW HO Hr Hlen. unfold take_dirty. destruct (DIRTY c =? 0).
  { exists []. rewrite app_nil_r. split_and!; [done|done| |by intros d Hd%not_elem_of_nil]. eapply moves_ext; [apply plus_nil|by apply moves_refl]. }
  destruct (appends_foldl mx _ _ (List.filter (fun e => e.1 <=? hi) (range lo (files c))) (take_file_appends mt mx (frame_refs c)) out) as (l & E & L & F).
  cbn [fst snd]. exists l. rewrite E, drop_app_length. split; [done|]. specialize (L Hlen). split; [done|].
  assert (forall d, d ∈ l -> exists p, page_of (d_key d) (d_pgoff d) c = Some p /\ phys p = d_phys d /\ dirty p = true) as Hl.
  { intros d Hd. rewrite Forall_forall in F. destruct (F d Hd) as ([k fe] & H1 & e & H2 & -> & H3). exists e.2. split; [|done]. cbn.
    apply list_elem_of_In, filter_In in H1 as [H1%list_elem_of_In _]. apply range_entry in H1 as [H1 _]. by apply (entry_page_of k fe); [|apply in_files|]. }
  split; [|done]. apply moves_pin; [done|done| |].
  - apply Forall_forall. intros f (d & -> & Hd)%list_elem_of_fmap. destruct (Hl d Hd) as (p & Hp & <- & Hdt). apply andb_true_iff in Hdt as [Hpub _].
    split; [by apply published_nonzero|by eapply entry_owned].
  - intros f _. specialize (Hr f). rewrite length_fmap. rewrite length_app in L. lia.
Qed.

Lemma tally_dirty_pos key pg p fe c : wf c -> file key c = Some fe -> bget pg (pages fe) = Some p -> dirty p = true -> 1 <= ndirty fe.
Proof.
  intros HW Hf Hb Hd. rewrite (fo_ndirty fe (wf_files c HW key fe Hf)). transitivity (w_dirty p); [unfold w_dirty; by rewrite Hd|].
  eapply tally_le_entry; [|exact Hb]. intros q. apply b2z_range.
Qed.

(** [writeback_done] drops the pin, and cleans the page only when the cache and
    the pin are all that refer to it. *)
Lemma moves_writeback ext d ok c : wf c -> owned ext c -> d_phys d <> 0 -> moves ext c ext (writeback_locked d ok c).
Proof.
  intros HW HO Hnz. unfold writeback_locked. destruct (page_of (d_key d) (d_pgoff d) c) as [p|] eqn:Ep; [|by apply moves_refl].
  destruct (ok && (phys p =? d_phys d) && on (flags p) F_DIRTY && _) eqn:E; [|by apply moves_refl].
  rewrite !andb_true_iff in E. destruct E as [[[_ Eph%Z.eqb_eq] Ed] _]. pose proof (page_of_ok _ _ _ _ HW Ep) as Hok. set (key := d_key d) in *. set (pg := d_pgoff d) in *.
  assert (published p = true) as Hpub.
  { unfold published. destruct Hok as [(_ & H0 & _)|(-> & _)]; [congruence|]. cbn. apply negb_true_iff, Z.eqb_neq. congruence. }
  pose proof Ep as (fe & Hf & Hb)%page_of_Some. set (p' := Cache.set_flags (clear F_DIRTY (flags p)) p).
  assert (w_dirty p = 1 /\ w_dirty p' = 0) as [D1 D2] by (unfold w_dirty, dirty, p'; rewrite published_flags, Hpub, Ed; cbn [flags Cache.set_flags]; by rewrite on_clear).
  assert (w_mapped p' = w_mapped p) as Dm by (unfold p'; apply w_mapped_flags; by rewrite on_clear_other).
  assert (1 <= ndirty fe) as Hnd by (eapply tally_dirty_pos; [done..|]; unfold dirty; by rewrite Hpub, Ed).
  pose proof (set_page_ndirty key pg (Some p') c (Some p) (ndirty fe - 1) (fun fe => Z.max 0 (ndirty fe - 1)) (wf_sorted c HW)) as HE.
  destruct (set_page_same key pg (Some p') c) as (S1 & S2 & S3 & S4 & S5 & S6).
  set (c1 := with_file key (fun fe => set_ndirty (Z.max 0 (ndirty fe - 1)) fe) (set_page key pg (Some p') c)) in *. set (c2 := set_DIRTY (DIRTY c - 1) c1).
  assert (edited key pg (Some p) (Some p') c c2) as HE'.
  { destruct HE as [HE HU]; [exists fe; cbn; rewrite D1, D2; split_and!; try done; lia|]. by split. }
  assert (CACHED c1 = CACHED c /\ FILLING c1 = FILLING c /\ MAPPED c1 = MAPPED c /\ frame_refs c1 = frame_refs c /\ released c1 = released c) as (E1 & E3 & E4 & E5 & E6).
  { unfold c1, with_file, set_page. rewrite Hf. rewrite file_set_file, decide_True by (done || apply HW). done. }
  eapply moves_edit; [done|done|exact HE'| |done|done|apply HO|by intros].
  eapply wf_edit; [done|exact HE'| |..]; [apply page_ok_flags; [done|by left]|..]; cbn; rewrite ?E1, ?E3, ?E4, ?Dm; change (w_pub p') with (w_pub p); change (w_fill p') with (w_fill p); lia.
Qed.

Lemma moves_writeback_done ext d ok c : wf c -> owned ext c -> d_phys d <> 0 -> 0 < ext (d_phys d) ->
  moves ext c (minus ext [d_phys d]) (writeback_done d ok c).
Proof. intros HW HO Hnz Hx. pose proof (moves_writeback ext d ok c HW HO Hnz) as M. eapply moves_trans; [exact M|]. apply moves_unref; [apply M|apply M|done|done]. Qed.

(** ** Writes *)
Lemma foldl_filter {A B} (g : B -> bool) (h : A -> B -> A) l a : foldl (fun a b => if g b then h a b else a) a l = foldl h a (List.filter g l).
Proof. revert a. induction l as [|b l IH]; intros a; [done|]. cbn. rewrite IH. by destruct (g b). Qed.

Definition stale (p : Page) : Page := Cache.set_flags (raise F_STALE (flags p)) p.
(** What a change of the file's data does to an entry. *)
Definition doomed (p : Page) : Page := if filling p then stale p else p.

Lemma keeps_stale : keeps (fun p => raise F_STALE (flags p)).
Proof. by apply keeps_raise. Qed.

Lemma doom_all_spec ext key ps c : wf c -> owned ext c -> part_of key ps c ->
  moves ext c ext (doom_all key ps c) /\ frame_refs (doom_all key ps c) = frame_refs c /\ (forall f, holds f (doom_all key ps c) = holds f c) /\
  forall k pg, page_of k pg (doom_all key ps c) = if decide (k = key /\ pg ∈ ps.*1) then doomed <$> page_of key pg c else page_of k pg c.
Proof.
  intros HW HO HP. unfold doom_all. rewrite (foldl_filter (fun e => filling e.2) (fun c e => doom key e.1 e.2 c)).
  pose proof (part_of_filter key (fun e => filling e.2) ps c HP) as [HN Hps]. destruct (flag_all_spec ext key _ _ c HW HO keeps_stale HN Hps) as (M & E1 & E2 & E3).
  split; [exact M|]. split; [exact E1|]. split; [exact E2|]. intros k pg. change (page_of k pg (flag_all key (fun p => raise F_STALE (flags p)) c (List.filter (fun e => filling e.2) ps)) = if decide (k = key /\ pg ∈ ps.*1) then doomed <$> page_of key pg c else page_of k pg c).
  rewrite E3. destruct (decide (k = key /\ pg ∈ ps.*1)) as [[-> Hin]|Hn].
  - apply list_elem_of_fmap in Hin as ([pg' p] & -> & Hin). cbn [fst]. pose proof (proj2 HP _ Hin) as Hp. cbn in Hp. rewrite Hp. cbn [fmap option_fmap option_map].
    unfold doomed. destruct (filling p) eqn:Ef.
    + rewrite decide_True; [done|]. split; [done|]. apply list_elem_of_fmap. exists (pg', p). split; [done|]. apply list_elem_of_In, filter_In. split; [by apply list_elem_of_In|done].
    + rewrite decide_False; [done|]. intros [_ ([j q] & E & Hq)%list_elem_of_fmap]. cbn in E. subst j. apply list_elem_of_In, filter_In in Hq as [Hq%list_elem_of_In Hf].
      pose proof (proj2 HP _ Hq) as Hp'. cbn in Hp'. rewrite Hp in Hp'. injection Hp' as <-. cbn in Hf. congruence.
  - rewrite decide_False; [done|]. intros [-> ([j q] & -> & Hq)%list_elem_of_fmap]. apply Hn. split; [done|]. apply list_elem_of_fmap. exists (j, q). split; [done|].
    by apply list_elem_of_In, filter_In in Hq as [Hq%list_elem_of_In _].
Qed.

Lemma between_part key lo hi fe c : wf c -> file key c = Some fe -> part_of key (between lo hi (pages fe)) c.
Proof. intros HW Hf. by apply part_of_filter, part_of_range. Qed.

Lemma between_keys key lo hi fe c pg : wf c -> file key c = Some fe -> pg ∈ (between lo hi (pages fe)).*1 <-> lo <= pg <= hi /\ is_Some (page_of key pg c).
Proof.
  intros HW Hf. unfold between. rewrite list_elem_of_fmap. split.
  - intros ([j p] & -> & Hin). apply list_elem_of_In, filter_In in Hin as [Hin%list_elem_of_In Hle%Z.leb_le]. apply range_entry in Hin as [Hin Hlo]. cbn in *.
    split; [lia|]. exists p. apply (entry_page_of key fe (j, p)); done.
  - intros [Hle [p Hp]]. exists (pg, p). split; [done|]. apply list_elem_of_In, filter_In. rewrite <- list_elem_of_In, range_entry. split; [split; [|cbn; lia]|cbn; apply Z.leb_le; lia].
    apply page_of_Some in Hp as (g & Hg & Hb). rewrite Hf in Hg. injection Hg as <-. apply bget_elem; [|done]. apply (wf_files c HW key fe Hf).
Qed.

Lemma with_file_page_of key g c k j : ordered c -> (forall fe, pages (g fe) = pages fe) -> page_of k j (with_file key g c) = page_of k j c.
Proof.
  intros [HS _] Hg. unfold page_of, with_file. destruct (file key c) as [fe|] eqn:E; [|done]. rewrite file_set_file by done. case_decide; [|done]. subst. rewrite E. cbn. by rewrite Hg.
Qed.

Lemma published_iff p : page_ok p -> published p = negb (filling p) && negb (phys p =? 0).
Proof. unfold published, filling. intros [(-> & _)|(-> & _)]; done. Qed.

(** The pages a write of [len] bytes at [pos] touches. *)
Definition touches (pos len pg : Z) : Prop := pos / PAGE_SIZE <= pg <= (pos + len - 1) / PAGE_SIZE.

(** [wt_pin] pins exactly the published pages the write touches and dooms the
    fills of the others. *)
Lemma wt_pin_spec ext key pos len c : wf c -> owned ext c -> 0 <= pos -> 0 < len -> pos + len <= 2 ^ 64 ->
  (forall fe, file key c = Some fe -> room (length (pages fe)) c) ->
  moves ext c (plus ext (n_phys <$> (wt_pin key pos len c).1)) (wt_pin key pos len c).2 /\
  (forall k pg, page_of k pg (wt_pin key pos len c).2 = if decide (k = key /\ touches pos len pg) then doomed <$> page_of key pg c else page_of k pg c) /\
  (forall pg p, page_of key pg c = Some p -> touches pos len pg -> published p = true -> mkPinned pg (phys p) (on (flags p) F_EXEC) ∈ (wt_pin key pos len c).1) /\
  (forall n, n ∈ (wt_pin key pos len c).1 -> exists p, page_of key (n_pgoff n) c = Some p /\ touches pos len (n_pgoff n) /\ published p = true /\ phys p = n_phys n).
Proof.
  intros HW HO Hpos Hlen Hmax Hroom. unfold wt_pin. rewrite (proj2 (Z.eqb_neq len 0)) by lia.
  assert (wrap64 (pos + len - 1) = pos + len - 1) as -> by (unfold wrap64; apply Z.mod_small; lia). destruct (file key c) as [fe|] eqn:Hf.
  2: { cbn [fst snd]. assert (forall pg, page_of key pg c = None) as Hn by (intros pg; unfold page_of; by rewrite Hf). split_and!.
    - eapply moves_ext; [apply plus_nil|by apply moves_refl].
    - intros k pg. case_decide as E; [|done]. destruct E as [-> _]. by rewrite Hn.
    - intros pg p Hp. by rewrite Hn in Hp.
    - by intros n Hn'%not_elem_of_nil. }
  cbn [fst snd]. set (ps := between _ _ (pages fe)). set (c1 := with_file key (set_atime_ok 0) c).
  assert (moves ext c ext c1) as M1 by (by apply moves_with_file). assert (forall k j, page_of k j c1 = page_of k j c) as Hc1 by (intros; apply with_file_page_of; [by apply wf_ordered|done]).
  assert (forall f, holds f c1 = holds f c) as Hh1.
  { intros f. unfold holds, c1, with_file. rewrite Hf. eapply (total_meta _ key); [apply HW|done|]. by rewrite Hf. }
  assert (frame_refs c1 = frame_refs c) as Hr1 by (unfold c1, with_file; by rewrite Hf).
  pose proof (between_part key (pos / PAGE_SIZE) ((pos + len - 1) / PAGE_SIZE) fe c HW Hf) as HP. fold ps in HP.
  assert (part_of key ps c1) as HP1 by (split; [apply HP|]; intros e He; rewrite Hc1; by apply HP).
  destruct (doom_all_spec ext key ps c1 (mv_wf _ _ _ _ M1) (mv_owned _ _ _ _ M1) HP1) as (M2 & R2 & H2 & P2).
  assert (forall e, e ∈ ps -> published e.2 = negb (filling e.2) && negb (phys e.2 =? 0)) as Hpub.
  { intros e He. apply published_iff. eapply page_of_ok; [exact HW|]. by apply HP. }
  assert (forall e, e ∈ List.filter (fun e => negb (filling e.2) && negb (phys e.2 =? 0)) ps <-> e ∈ ps /\ published e.2 = true) as Hfil.
  { intros e. rewrite list_elem_of_In, filter_In, <- list_elem_of_In. split; intros [H1 H3]; (split; [done|]); [by rewrite Hpub|by rewrite <- Hpub]. }
  assert (forall pg, pg ∈ ps.*1 <-> touches pos len pg /\ is_Some (page_of key pg c)) as Hkeys by (intros pg; by apply between_keys).
  split; [|split; [|split]].
  - eapply (moves_pin_after ext c); [done|by eapply moves_trans|by rewrite R2|intros f; by rewrite H2| |].
    + unfold pinned_of. rewrite <- list_fmap_compose. apply Forall_forall. intros f (e & -> & He)%list_elem_of_fmap. apply Hfil in He as [He Hp]. cbn.
      split; [by apply published_nonzero|]. eapply entry_owned; [done|by apply HP|done].
    + eapply room_le; [|by apply (Hroom fe)]. unfold pinned_of. rewrite !length_fmap. etrans; [apply List.filter_length_le|]. unfold ps, between. etrans; [apply List.filter_length_le|]. apply List.filter_length_le.
  - intros k pg. change (page_of k pg (pin _ _)) with (page_of k pg (doom_all key ps c1)). rewrite P2. rewrite !Hc1. destruct (decide (k = key /\ touches pos len pg)) as [[-> Ht]|Hn].
    + destruct (page_of key pg c) as [p|] eqn:Ep; [rewrite decide_True; [done|]; split; [done|]; apply Hkeys; by split|by case_decide].
    + rewrite decide_False; [done|]. intros [-> [? _]%Hkeys]. tauto.
  - intros pg p Hp Ht Hpb. assert (pg ∈ ps.*1) as ([j q] & -> & Hin)%list_elem_of_fmap by (apply Hkeys; split; [done|by exists p]). cbn in *.
    pose proof (proj2 HP _ Hin) as Hq. cbn in Hq. rewrite Hp in Hq. injection Hq as <-. apply list_elem_of_fmap. exists (j, p). split; [done|]. by apply Hfil.
  - intros n (e & -> & [He Hp]%Hfil)%list_elem_of_fmap. exists e.2. cbn. split; [by apply HP|]. split; [|done]. apply Hkeys. apply list_elem_of_fmap. by exists e.
Qed.

Lemma moves_zero ext c p off len : wf c -> owned ext c -> moves ext c ext (zero_range p off len c).
Proof. intros HW HO. apply moves_same; [done|done|by eapply wf_same|done..]. Qed.

Lemma moves_doom ext key pg p c : wf c -> owned ext c -> page_of key pg c = Some p -> moves ext c ext (doom key pg p c).
Proof. intros HW HO Hp. apply (moves_flags_kept ext key pg p _ c HW HO Hp keeps_stale). Qed.

(** [extend] zeroes nothing but the cached bytes of the old last page past the
    old end, and dooms a fill of that page. *)
Lemma extend_spec ext key from upto c : wf c -> owned ext c -> 0 <= from ->
  moves ext c ext (extend key from upto c) /\
  forall k pg, page_of k pg (extend key from upto c)
    = if decide (k = key /\ pg = from / PAGE_SIZE /\ from < upto /\ from mod PAGE_SIZE <> 0) then doomed <$> page_of key pg c else page_of k pg c.
Proof.
  intros HW HO Hf0. assert (forall c', (forall k pg, page_of k pg c' = page_of k pg c) ->
    (~ (from < upto /\ from mod PAGE_SIZE <> 0) \/ (forall p, page_of key (from / PAGE_SIZE) c = Some p -> filling p = false)) ->
    forall k pg, page_of k pg c' = if decide (k = key /\ pg = from / PAGE_SIZE /\ from < upto /\ from mod PAGE_SIZE <> 0) then doomed <$> page_of key pg c else page_of k pg c) as Hsame.
  { intros c' E Hor k pg. rewrite E. case_decide as Ek; [|done]. destruct Ek as (-> & -> & Hr). destruct Hor as [Hn|Hfl]; [tauto|].
    destruct (page_of key (from / PAGE_SIZE) c) as [p|]; [|done]. cbn. unfold doomed. by rewrite Hfl. }
  unfold extend. destruct (Z.leb_spec upto from); [split; [by apply moves_refl|apply Hsame; [done|left; lia]]|].
  destruct (Z.eqb_spec (from mod PAGE_SIZE) 0); [split; [by apply moves_refl|apply Hsame; [done|left; tauto]]|].
  set (c1 := with_file key (set_atime_ok 0) c). assert (moves ext c ext c1) as M1 by (by apply moves_with_file).
  assert (forall k j, page_of k j c1 = page_of k j c) as Hc1 by (intros; apply with_file_page_of; [by apply wf_ordered|done]).
  rewrite Hc1. destruct (page_of key (from / PAGE_SIZE) c) as [p|] eqn:Ep; [|split; [done|apply Hsame; [done|by right]]].
  destruct (filling p) eqn:Efl.
  - split; [eapply moves_trans; [exact M1|]; apply moves_doom; [apply M1|apply M1|by rewrite Hc1]|]. intros k pg. unfold doom. rewrite page_of_set_page.
    + destruct (decide (k = key /\ pg = from / PAGE_SIZE)) as [[-> ->]|Hn]; [|rewrite decide_False by tauto; apply Hc1].
      rewrite decide_True by tauto. rewrite Ep. cbn. unfold doomed. by rewrite Efl.
    + apply wf_ordered, M1.
    + rewrite <- Hc1 in Ep. apply page_of_Some in Ep as (fe & Hf & _). by exists fe.
  - assert (forall q, Some p = Some q -> filling q = false) as Hq by (by intros q [= <-]).
    destruct (_ || _); (split; [|apply Hsame; [intros; apply Hc1|by right]]); [done|]. eapply moves_trans; [exact M1|]. apply moves_zero; apply M1.
Qed.

(** ** Entries that leave the index *)
Lemma published_weights p : published p = true ->
  w_pub p = 1 /\ w_fill p = 0 /\ w_dirty p = Z.b2z (on (flags p) F_DIRTY) /\ w_mapped p = Z.b2z (on (flags p) F_MAPPED) /\ forall f, w_holds f p = Z.b2z (phys p =? f).
Proof.
  intros Hp. unfold w_pub, w_fill, w_dirty, w_mapped, w_holds, dirty, mapped. rewrite Hp. split_and!; try done.
  unfold published, filling in *. apply andb_true_iff in Hp as [Hs%Z.eqb_eq _]. by rewrite Hs.
Qed.

Lemma note_gone_spec p fe c : let '(fe', c') := note_gone p fe c in
  fe' = set_ndirty (if dirty p then Z.max 0 (ndirty fe - 1) else ndirty fe) fe /\
  c' = set_MAPPED (MAPPED c - w_mapped p) (set_FILLING (FILLING c - w_fill p) (set_DIRTY (DIRTY c - w_dirty p) (set_CACHED (CACHED c - w_pub p) c))).
Proof.
  unfold note_gone. destruct (published p) eqn:Hp.
  - destruct (published_weights p Hp) as (W1 & W2 & W3 & W4 & _). unfold dirty. rewrite W1, W2, W3, W4, Hp. cbn [andb].
    destruct (on (flags p) F_DIRTY), (on (flags p) F_MAPPED); cbn; rewrite ?Z.sub_0_r; split; destruct c, fe; done.
  - assert (w_pub p = 0 /\ w_dirty p = 0 /\ w_mapped p = 0) as (W1 & W2 & W3) by (unfold w_pub, w_dirty, w_mapped, dirty, mapped; by rewrite Hp).
    unfold dirty. rewrite Hp, W1, W2, W3. cbn [andb]. unfold w_fill. destruct (filling p); cbn; rewrite ?Z.sub_0_r; split; destruct c, fe; done.
Qed.

(** The frame an entry of the index holds. *)
Definition frame_list (p : Page) : list Z := if negb (filling p) && negb (phys p =? 0) then [phys p] else [].

Lemma frame_list_holds p f : page_ok p -> occ f (frame_list p) = w_holds f p.
Proof. intros Hok. unfold frame_list, w_holds. rewrite <- published_iff by done. destruct (published p); cbn; [lia|done]. Qed.

Lemma truncate_page_spec ext key c e : wf c -> owned ext c -> page_of key e.1 c = Some e.2 ->
  moves ext c (plus ext (frame_list e.2)) (truncate_page key c e) /\
  forall k pg, page_of k pg (truncate_page key c e) = if decide (k = key /\ pg = e.1) then (if filling e.2 then Some (stale e.2) else None) else page_of k pg c.
Proof.
  intros HW HO Hp. destruct e as [pg p]. cbn [fst snd] in *. pose proof Hp as (fe & Hf & Hb)%page_of_Some. pose proof (page_of_ok _ _ _ _ HW Hp) as Hok.
  unfold truncate_page. cbn [fst snd]. destruct (filling p) eqn:Efl.
  - split; [|intros k j; apply page_of_set_page; [by apply wf_ordered|by exists fe]]. unfold frame_list. rewrite Efl. eapply moves_ext; [apply plus_nil|]. by apply moves_doom.
  - assert (file key (set_page key pg None c) = Some (set_pages (bset pg None (pages fe)) fe)) as Hf1 by (rewrite file_set_page by apply HW; rewrite decide_True by done; by rewrite Hf).
    rewrite Hf1. pose proof (note_gone_spec p (set_pages (bset pg None (pages fe)) fe) (set_page key pg None c)) as N. destruct (note_gone p _ _) as [fe' c'] eqn:En. destruct N as [-> ->].
    destruct (set_page_same key pg None c) as (S1 & S2 & S3 & S4 & S5 & S6). set (fe1 := set_pages (bset pg None (pages fe)) fe) in *.
    set (fe2 := set_ndirty (if dirty p then Z.max 0 (ndirty fe1 - 1) else ndirty fe1) fe1). set (c1 := set_MAPPED _ _).
    assert (files c1 = bset key (Some fe1) (files c)) as Hc1 by (unfold c1; cbn; unfold set_page; by rewrite Hf).
    assert (files (set_file key (Some fe2) c1) = bset key (Some fe2) (files c)) as Hc2 by (change (files (set_file key (Some fe2) c1)) with (bset key (Some fe2) (files c1)); rewrite Hc1; apply bset_bset, HW).
    assert (edited key pg (Some p) None c (set_file key (Some fe2) c1)) as HE.
    { split; [|cbn; unfold set_page; by rewrite Hf]. exists fe, fe2. split_and!; [done|done|done|done|]. cbn. unfold w_dirty. destruct (dirty p) eqn:Ed; cbn; [|lia]. pose proof (tally_dirty_pos key pg p fe c HW Hf Hb Ed). lia. }
    split.
    + eapply moves_edit; [done|exact HO|exact HE| |exact S5|exact S6| |].
      * eapply wf_edit; [done|exact HE|done|..]; cbn; rewrite ?S1, ?S2, ?S3, ?S4; lia.
      * intros f. unfold plus. pose proof (occ_ge f (frame_list p)). destruct HO as (_ & H2 & _). specialize (H2 f). lia.
      * intros f _. cbn. unfold plus. rewrite frame_list_holds by done. lia.
    + intros k j. unfold page_of, file. rewrite Hc2, bget_bset by apply HW. destruct (decide (k = key)) as [->|]; [|by rewrite decide_False by tauto].
      cbn. rewrite bget_bset by apply (wf_files c HW key fe Hf). change (bget key (files c)) with (file key c). rewrite Hf. cbn. destruct (decide (j = pg)); [by rewrite decide_True|by rewrite decide_False by tauto].
Qed.

Lemma plus_app ext l1 l2 f : plus (plus ext l1) l2 f = plus ext (l1 ++ l2) f.
Proof. unfold plus. rewrite occ_app. lia. Qed.

Lemma truncate_fold ext key ps c : wf c -> owned ext c -> part_of key ps c ->
  moves ext c (plus ext (p ← ps.*2; frame_list p)) (foldl (truncate_page key) c ps) /\
  forall k pg, page_of k pg (foldl (truncate_page key) c ps)
    = if decide (k = key /\ pg ∈ ps.*1) then (p ← page_of key pg c; if filling p then Some (stale p) else None) else page_of k pg c.
Proof.
  intros HW HO. revert ext c HW HO. induction ps as [|e ps IH]; intros ext c HW HO [HN Hps].
  - split; [eapply moves_ext; [apply plus_nil|by apply moves_refl]|]. intros k pg. rewrite decide_False; [done|]. intros [_ H]. by apply not_elem_of_nil in H.
  - apply NoDup_cons in HN as [Hn HN]. cbn [foldl]. destruct (truncate_page_spec ext key c e HW HO (Hps e ltac:(left))) as (M & P).
    destruct (IH (plus ext (frame_list e.2)) (truncate_page key c e) (mv_wf _ _ _ _ M) (mv_owned _ _ _ _ M)) as (I1 & I2).
    { split; [done|]. intros e' He'. rewrite P, decide_False; [apply Hps; by right|]. intros [_ E]. apply Hn. rewrite <- E. by apply list_elem_of_fmap_2. }
    split; [eapply moves_ext; [|by eapply moves_trans]; intros f; cbn; apply plus_app|]. intros k pg. rewrite I2, !P. cbn [fmap list_fmap].
    destruct (decide (k = key /\ pg ∈ ps.*1)) as [[-> Hin]|Hnot].
    + rewrite (decide_True (P := key = key /\ pg ∈ _ :: _)) by (split; [done|by right]). rewrite decide_False; [done|]. intros [_ ->]. done.
    + destruct (decide (k = key /\ pg = e.1)) as [[-> ->]|Hne].
      * rewrite decide_True by (split; [done|left]). by rewrite (Hps e ltac:(left)).
      * rewrite decide_False; [done|]. intros [-> [->|]%elem_of_cons]; tauto.
Qed.

Lemma frame_list_filter l : (p ← l; frame_list p) = phys <$> List.filter (fun p => negb (filling p) && negb (phys p =? 0)) l.
Proof. induction l as [|p l IH]; [done|]. cbn. unfold frame_list at 1. change (mbind frame_list l) with (p ← l; frame_list p). rewrite IH. by destruct (_ && _). Qed.

Lemma unref_all_files l c : files (unref_all l c) = files c /\ next_token (unref_all l c) = next_token c /\ zeroed (unref_all l c) = zeroed c.
Proof.
  revert c. induction l as [|f l IH]; intros c; [done|]. cbn. destruct (IH (unref f c)) as (E1 & E2 & E3). unfold unref_all in *. rewrite E1, E2, E3. unfold unref.
  destruct (unref_or_free f (frame_refs c)) as [[] r]; done.
Qed.

Lemma minus_plus ext l f : minus (plus ext l) l f = ext f.
Proof. unfold minus, plus. lia. Qed.

(** First page wholly past the end of a file of [sz] bytes. *)
Definition first_past (sz : Z) : Z := (sz + PAGE_SIZE - 1) / PAGE_SIZE.

(** What truncation to [sz] bytes leaves of the entry of page [pg]. *)
Definition cut_page (sz pg : Z) (o : option Page) : option Page :=
  if decide (first_past sz <= pg) then p ← o; if filling p then Some (stale p) else None
  else if decide (pg = sz / PAGE_SIZE) then doomed <$> o else o.

(** The published page that holds the new end, if the end is inside a page. *)
Definition end_page (key sz : Z) (c : t) : option Page :=
  if sz mod PAGE_SIZE =? 0 then None else p ← page_of key (sz / PAGE_SIZE) c; if published p then Some p else None.

Lemma partial_page sz : 0 <= sz -> sz mod PAGE_SIZE <> 0 -> sz / PAGE_SIZE < first_past sz.
Proof.
  intros H0 Hm. unfold first_past. pose proof (Z.div_mod sz PAGE_SIZE ltac:(done)). pose proof (Z.mod_pos_bound sz PAGE_SIZE ltac:(done)).
  assert (sz / PAGE_SIZE + 1 <= (sz + PAGE_SIZE - 1) / PAGE_SIZE); [|lia]. apply Z.div_le_lower_bound; [done|]. unfold PAGE_SIZE in *. lia.
Qed.

Lemma whole_page sz : 0 <= sz -> sz mod PAGE_SIZE = 0 -> first_past sz <= sz / PAGE_SIZE.
Proof.
  intros H0 Hm. unfold first_past. pose proof (Z.div_mod sz PAGE_SIZE ltac:(done)).
  assert ((sz + PAGE_SIZE - 1) / PAGE_SIZE < sz / PAGE_SIZE + 1); [|lia]. apply Z.div_lt_upper_bound; [done|]. unfold PAGE_SIZE in *. lia.
Qed.

Lemma trim_last_spec ext key sz c : wf c -> owned ext c ->
  moves ext c ext (trim_last key sz c) /\
  (forall k pg, page_of k pg (trim_last key sz c) = if decide (k = key /\ pg = sz / PAGE_SIZE /\ sz mod PAGE_SIZE <> 0) then doomed <$> page_of key pg c else page_of k pg c) /\
  zeroed (trim_last key sz c) = zeroed c ++ match end_page key sz c with Some p => [(phys p, sz mod PAGE_SIZE, PAGE_SIZE - sz mod PAGE_SIZE)] | None => [] end.
Proof.
  intros HW HO. unfold trim_last, end_page. destruct (Z.eqb_spec (sz mod PAGE_SIZE) 0) as [Hm|Hm].
  { split; [by apply moves_refl|]. split; [|by rewrite app_nil_r]. intros k pg. by rewrite decide_False by tauto. }
  destruct (page_of key (sz / PAGE_SIZE) c) as [p|] eqn:Ep; cbn [mbind option_bind].
  2: { split; [by apply moves_refl|]. split; [|by rewrite app_nil_r]. intros k pg. case_decide as E; [|done]. destruct E as (-> & -> & _). by rewrite Ep. }
  pose proof (published_iff p (page_of_ok _ _ _ _ HW Ep)) as Hpub. destruct (filling p) eqn:Efl; cbn [negb andb] in Hpub; rewrite Hpub.
  - split; [by apply moves_doom|]. split; [|rewrite app_nil_r; unfold doom, set_page; by destruct (file key c)]. intros k pg. unfold doom.
    rewrite page_of_set_page; [|by apply wf_ordered|apply page_of_Some in Ep as (g & Hg & _); by exists g].
    destruct (decide (k = key /\ pg = sz / PAGE_SIZE)) as [[-> ->]|]; [|by rewrite decide_False by tauto]. rewrite decide_True by tauto. rewrite Ep. cbn. unfold doomed. by rewrite Efl.
  - assert (forall k pg, page_of k pg c = if decide (k = key /\ pg = sz / PAGE_SIZE /\ sz mod PAGE_SIZE <> 0) then doomed <$> page_of key pg c else page_of k pg c) as Hsame.
    { intros k pg. case_decide as E; [|done]. destruct E as (-> & -> & _). rewrite Ep. cbn. unfold doomed. by rewrite Efl. }
    destruct (phys p =? 0); cbn [negb]; [split; [by apply moves_refl|by rewrite app_nil_r]|]. split; [by apply moves_zero|]. split; [exact Hsame|done].
Qed.

Lemma truncate_page_zeroed key ps c : zeroed (foldl (truncate_page key) c ps) = zeroed c.
Proof.
  revert c. induction ps as [|e ps IH]; intros c; [done|]. cbn. rewrite IH. unfold truncate_page, doom.
  assert (forall o, zeroed (set_page key e.1 o c) = zeroed c) as Hz by (intros o; unfold set_page; by destruct (file key c)).
  destruct (filling e.2); [apply Hz|]. destruct (file key _) as [f|]; [|apply Hz].
  pose proof (note_gone_spec e.2 f (set_page key e.1 None c)) as N. destruct (note_gone e.2 f (set_page key e.1 None c)) as [f' c']. destruct N as [_ ->]. apply Hz.
Qed.

Lemma range_keys key lo fe c pg : wf c -> file key c = Some fe -> pg ∈ (range lo (pages fe)).*1 <-> lo <= pg /\ is_Some (page_of key pg c).
Proof.
  intros HW Hf. rewrite list_elem_of_fmap. split.
  - intros ([j p] & -> & [Hin Hlo]%range_entry). split; [done|]. exists p. by apply (entry_page_of key fe (j, p)).
  - intros [Hlo [p Hp]]. exists (pg, p). split; [done|]. apply range_entry. split; [|done]. apply page_of_Some in Hp as (g & Hg & Hb). rewrite Hf in Hg. injection Hg as <-.
    apply bget_elem; [apply (wf_files c HW key fe Hf)|done].
Qed.

(** Taking frames out of the index, under the lock. *)
Definition takes_out (ext : Z -> Z) (c : t) (frames : list Z) (c' : t) : Prop := moves ext c (plus ext frames) c' /\ Forall (fun f => f <> 0) frames.

Lemma frames_nonzero ps : Forall (fun f => f <> 0) (phys <$> List.filter (fun p => negb (filling p) && negb (phys p =? 0)) ps).
Proof.
  apply Forall_forall. intros f (p & -> & Hp)%list_elem_of_fmap. apply list_elem_of_In, filter_In in Hp as [_ Hp]. rewrite andb_true_iff, !negb_true_iff, Z.eqb_neq in Hp. apply Hp.
Qed.

Lemma takes_nothing ext c : wf c -> owned ext c -> takes_out ext c [] c.
Proof. intros HW HO. split; [|done]. eapply moves_ext; [apply plus_nil|by apply moves_refl]. Qed.

(** Dropping their references after it. *)
Lemma moves_drop_frames ext c c' frames : owned ext c -> takes_out ext c frames c' -> moves ext c ext (unref_all frames c').
Proof.
  intros HO [M Hnz]. eapply moves_ext; [apply (minus_plus ext frames)|]. eapply moves_trans; [exact M|]. apply moves_unref_all; [apply M|apply M| |done].
  intros f. unfold plus. destruct HO as (_ & H2 & _). specialize (H2 f). lia.
Qed.

Lemma truncate_cut key sz c : 0 <= sz -> (forall pg, page_of key pg c = None) -> forall k pg, page_of k pg c = if decide (k = key) then cut_page sz pg (page_of key pg c) else page_of k pg c.
Proof. intros H0 Hn k pg. case_decide; [|done]. subst. rewrite Hn. unfold cut_page. by repeat case_decide. Qed.

Lemma truncate_locked_spec ext key sz c : wf c -> owned ext c -> 0 <= sz -> sz + PAGE_SIZE <= 2 ^ 64 ->
  let '(gone, c') := truncate_locked key sz c in
  takes_out ext c gone c' /\ (forall k pg, page_of k pg c' = if decide (k = key) then cut_page sz pg (page_of key pg c) else page_of k pg c) /\
  zeroed c' = zeroed c ++ match end_page key sz c with Some p => [(phys p, sz mod PAGE_SIZE, PAGE_SIZE - sz mod PAGE_SIZE)] | None => [] end.
Proof.
  intros HW HO H0 Hmax. unfold truncate_locked. destruct (file key c) as [fe|] eqn:Hf.
  2: { assert (forall pg, page_of key pg c = None) as Hn by (intros pg; unfold page_of; by rewrite Hf). split; [by apply takes_nothing|]. split; [by apply truncate_cut|].
       unfold end_page. rewrite Hn. destruct (_ =? _); cbn; by rewrite app_nil_r. }
  assert (wrap64 (sz + PAGE_SIZE - 1) / PAGE_SIZE = first_past sz) as -> by (unfold wrap64, first_past; rewrite Z.mod_small; [done|unfold PAGE_SIZE in *; lia]).
  set (c1 := with_file key _ c). assert (moves ext c ext c1) as M1 by (apply moves_with_file; [done|done|]; intros g; by destruct (size_known g)).
  assert (forall k j, page_of k j c1 = page_of k j c) as Hc1 by (intros; apply with_file_page_of; [by apply wf_ordered|]; intros g; by destruct (size_known g)).
  assert (zeroed c1 = zeroed c) as Hz1 by (unfold c1, with_file; by rewrite Hf).
  set (ps := range (first_past sz) (pages fe)). assert (part_of key ps c1) as HP by (destruct (part_of_range key (first_past sz) fe c HW Hf) as [HN HPs]; split; [done|]; intros e He; rewrite Hc1; auto).
  destruct (truncate_fold ext key ps c1 (mv_wf _ _ _ _ M1) (mv_owned _ _ _ _ M1) HP) as (M2 & P2). set (c2 := foldl (truncate_page key) c1 ps) in *.
  assert (forall k pg, page_of k pg c2 = if decide (k = key) then (if decide (first_past sz <= pg) then p ← page_of key pg c; if filling p then Some (stale p) else None else page_of key pg c) else page_of k pg c) as Hc2.
  { intros k pg. rewrite P2, !Hc1. destruct (decide (k = key)) as [->|]; [|by rewrite decide_False by tauto]. destruct (decide (first_past sz <= pg)) as [Hge|Hlt].
    - destruct (page_of key pg c) as [p|] eqn:Ep; [rewrite decide_True; [done|]; split; [done|]; apply (range_keys key _ fe c); [done|done|]; split; [done|by exists p]|by case_decide].
    - rewrite decide_False; [done|]. intros [_ Hin]. apply (range_keys key _ fe c) in Hin as [? _]; [lia|done|done]. }
  rewrite frame_list_filter in M2. destruct (trim_last_spec _ key sz c2 (mv_wf _ _ _ _ M2) (mv_owned _ _ _ _ M2)) as (M3 & P3 & Z3). set (frames := phys <$> List.filter _ (ps.*2)) in *.
  split; [|split].
  - split; [|apply frames_nonzero]. eapply moves_trans; [exact M1|]. by eapply moves_trans.
  - intros k pg. rewrite P3, !Hc2, (decide_True (P := key = key)) by done. unfold cut_page. destruct (decide (k = key)) as [->|]; [|by rewrite decide_False by tauto].
    destruct (decide (sz mod PAGE_SIZE = 0)) as [Hm|Hm]; [pose proof (whole_page sz H0 Hm)|pose proof (partial_page sz H0 Hm)].
    + rewrite (decide_False (P := key = key /\ pg = sz / PAGE_SIZE /\ sz mod PAGE_SIZE <> 0)) by tauto. destruct (decide (first_past sz <= pg)); [done|]. by rewrite decide_False by lia.
    + destruct (decide (pg = sz / PAGE_SIZE)) as [->|]; [rewrite decide_True by tauto; by rewrite !decide_False by lia|rewrite decide_False by tauto; by case_decide].
  - rewrite Z3. unfold c2. rewrite truncate_page_zeroed, Hz1. do 2 f_equal. fold c2. unfold end_page. destruct (Z.eqb_spec (sz mod PAGE_SIZE) 0) as [|Hm]; [done|].
    pose proof (partial_page sz H0 Hm). rewrite Hc2, decide_True by done. by rewrite decide_False by lia.
Qed.

Lemma truncate_moves ext key sz c : wf c -> owned ext c -> 0 <= sz -> sz + PAGE_SIZE <= 2 ^ 64 ->
  moves ext c ext (truncate key sz c) /\
  (forall k pg, page_of k pg (truncate key sz c) = if decide (k = key) then cut_page sz pg (page_of key pg c) else page_of k pg c) /\
  zeroed (truncate key sz c) = zeroed c ++ match end_page key sz c with Some p => [(phys p, sz mod PAGE_SIZE, PAGE_SIZE - sz mod PAGE_SIZE)] | None => [] end.
Proof.
  intros HW HO H0 Hmax. unfold truncate. pose proof (truncate_locked_spec ext key sz c HW HO H0 Hmax) as T. destruct (truncate_locked key sz c) as [gone c']. destruct T as (T1 & T2 & T3).
  destruct (unref_all_files gone c') as (U1 & _ & U3). split; [by apply moves_drop_frames|]. split; [|by rewrite U3]. intros k pg. by rewrite (page_of_files c').
Qed.

(** ** Dropped files *)
Lemma note_gone_all ps fe c : let '(fe', c') := foldl (fun '(fe, c) e => note_gone e.2 fe c) (fe, c) ps in
  c' = set_MAPPED (MAPPED c - tally w_mapped ps) (set_FILLING (FILLING c - tally w_fill ps) (set_DIRTY (DIRTY c - tally w_dirty ps) (set_CACHED (CACHED c - tally w_pub ps) c))).
Proof.
  revert fe c. induction ps as [|[pg p] ps IH]; intros fe c; [cbn; rewrite !Z.sub_0_r; by destruct c|]. cbn [foldl snd].
  pose proof (note_gone_spec p fe c) as N. destruct (note_gone p fe c) as [fe1 c1]. destruct N as [-> ->]. specialize (IH (set_ndirty (if dirty p then Z.max 0 (ndirty fe - 1) else ndirty fe) fe)
    (set_MAPPED (MAPPED c - w_mapped p) (set_FILLING (FILLING c - w_fill p) (set_DIRTY (DIRTY c - w_dirty p) (set_CACHED (CACHED c - w_pub p) c))))).
  destruct (foldl _ _ ps) as [fe2 c2]. rewrite IH. cbn. rewrite !Z.sub_add_distr. by destruct c.
Qed.

Lemma tally_frames f ps : (forall e, e ∈ ps -> page_ok e.2) -> occ f (phys <$> List.filter (fun p => negb (filling p) && negb (phys p =? 0)) ps.*2) = tally (w_holds f) ps.
Proof.
  rewrite <- frame_list_filter. induction ps as [|[pg p] ps IH]; intros Hok; [done|]. cbn. rewrite occ_app, frame_list_holds by exact (Hok (pg, p) ltac:(left)).
  change (mbind frame_list ps.*2) with (p ← ps.*2; frame_list p). rewrite IH; [done|]. intros e He. apply Hok. by right.
Qed.

(** [drop_file] forgets the file; its frames lose the cache's reference, and
    those nobody maps go back to the buddy allocator. *)
Lemma drop_file_locked_spec ext key c : wf c -> owned ext c ->
  let '(gone, c') := drop_file_locked key c in
  takes_out ext c gone c' /\ (forall k, file k c' = if decide (k = key /\ key <> 0) then None else file k c).
Proof.
  intros HW HO. unfold drop_file_locked. destruct (Z.eqb_spec key 0) as [->|Hk]; [split; [by apply takes_nothing|]; intros k; by rewrite decide_False by tauto|].
  destruct (file key c) as [fe|] eqn:Hf; [|split; [by apply takes_nothing|]; intros k; case_decide; [naive_solver|done]].
  set (c1 := set_file key None c). pose proof (note_gone_all (pages fe) (set_pages [] fe) c1) as N. destruct (foldl _ _ (pages fe)) as [fe' c2] eqn:Efold. destruct (wf_files c HW key fe Hf) as [F1 F2 F3].
  assert (forall e, e ∈ pages fe -> page_ok e.2) as Hoks by (intros [j p] He; eapply F2; by apply bget_elem).
  assert (List.filter published (pages fe).*2 = List.filter (fun p => negb (filling p) && negb (phys p =? 0)) (pages fe).*2) as ->.
  { clear -Hoks. induction (pages fe) as [|e ps IH]; [done|]. cbn. rewrite (published_iff e.2) by (apply Hoks; left). rewrite IH; [done|]. intros e' He. apply Hoks. by right. }
  assert (files c2 = bset key None (files c)) as Hfiles by (by rewrite N).
  assert (forall w, total w c2 = total w c - tally w (pages fe)) as Htot by (intros w; rewrite (total_bset w key None c c2) by (done || apply HW); rewrite Hf; cbn; lia).
  assert (wf c2) as HW2.
  { split; [rewrite Hfiles; apply bset_sorted, HW| |..]; rewrite ?Htot.
    - intros k g. unfold file. rewrite Hfiles, bget_bset by apply HW. case_decide; [done|apply HW].
    - rewrite N, <- (wf_CACHED c HW). cbn. lia.
    - rewrite N. cbn. by rewrite (wf_DIRTY c HW).
    - rewrite N. cbn. by rewrite (wf_FILLING c HW).
    - rewrite N. cbn. by rewrite (wf_MAPPED c HW). }
  split.
  - split; [|apply frames_nonzero]. apply moves_sum; [done|done|by rewrite N|by rewrite N|by rewrite N| |].
    + intros f. unfold plus. destruct HO as (_ & H2 & _). specialize (H2 f). pose proof (occ_ge f (phys <$> List.filter (fun p => negb (filling p) && negb (phys p =? 0)) (pages fe).*2)). lia.
    + intros f _. unfold holds, plus. rewrite Htot, tally_frames by done. lia.
  - intros k. unfold file. rewrite Hfiles, bget_bset by apply HW. destruct (decide (k = key)); [by rewrite decide_True|by rewrite decide_False by tauto].
Qed.

Lemma drop_file_moves ext key c : wf c -> owned ext c ->
  moves ext c ext (drop_file key c) /\
  (forall k, file k (drop_file key c) = if decide (k = key /\ key <> 0) then None else file k c).
Proof.
  intros HW HO. unfold drop_file. pose proof (drop_file_locked_spec ext key c HW HO) as D. destruct (drop_file_locked key c) as [gone c']. destruct D as [D1 D2].
  split; [by apply moves_drop_frames|]. intros k. unfold file. rewrite (proj1 (unref_all_files gone c')). apply D2.
Qed.

Lemma moves_key_put_locked ext key c : wf c -> owned ext c -> moves ext c ext (key_put_locked key c).2.
Proof. intros HW HO. unfold key_put_locked. destruct (file key c) as [fe|] eqn:Hf; [|by apply moves_refl]. apply moves_meta; [done|done|..]; by rewrite Hf. Qed.

Lemma moves_key_put ext key c : wf c -> owned ext c -> moves ext c ext (key_put key c).
Proof.
  intros HW HO. unfold key_put. destruct (key =? 0); [by apply moves_refl|]. pose proof (moves_key_put_locked ext key c HW HO) as M.
  destruct (key_put_locked key c) as [last c1]. cbn [snd] in M. destruct (_ && _); [|done]. eapply moves_trans; [exact M|]. apply drop_file_moves; apply M.
Qed.

(** ** Emptied entries *)
Lemma set_page_absent key pg c : ordered c -> page_of key pg c = None -> set_page key pg None c = c.
Proof.
  intros [HS HP] Hn. unfold set_page. destruct (file key c) as [fe|] eqn:Hf; [|done]. assert (bget pg (pages fe) = None) as Hb by (unfold page_of in Hn; by rewrite Hf in Hn).
  rewrite (bset_id pg None (pages fe)) by (done || by eapply HP). unfold set_file. rewrite bset_id; [by destruct c|done|]. unfold file in Hf. rewrite Hf. by destruct fe.
Qed.

Lemma moves_holes ext n c : wf c -> owned ext c -> moves ext c ext (set_HOLES n c).
Proof. intros HW HO. apply moves_same; [done|done|by eapply wf_same|done..]. Qed.

Lemma moves_purge_locked ext c1 : wf c1 -> owned ext c1 -> moves ext c1 ext (purge_locked c1).
Proof.
  intros HW1 HO1. unfold purge_locked. set (keys := mbind _ _). assert (forall v p, v ∈ keys -> page_of v.1 v.2 c1 = Some p -> filling p = false /\ phys p = 0) as Hk.
  { intros v p Hv Hp. unfold keys in Hv. apply list_elem_of_bind in Hv as ([k fe] & ([j q] & -> & Hq)%list_elem_of_fmap & Hin). cbn [fst snd] in Hp, Hq.
    apply list_elem_of_In, filter_In in Hq as [Hq%list_elem_of_In Hb]. cbn [fst snd] in Hb. rewrite andb_true_iff, !Z.eqb_eq in Hb. destruct Hb as [Hs H0].
    assert (page_of k j c1 = Some q) as Hpq by (apply (entry_page_of k fe (j, q) c1); [done|by apply in_files|done]).
    rewrite Hpq in Hp. injection Hp as <-. split; [|done]. unfold filling. by rewrite Hs. }
  clearbody keys. revert c1 HW1 HO1 Hk. induction keys as [|v vs IH]; intros c1 HW1 HO1 Hk; [by apply moves_refl|]. cbn [foldl].
  destruct (page_of v.1 v.2 c1) as [p|] eqn:Ep.
  - destruct (Hk v p ltac:(left) Ep) as [Hfl H0]. pose proof (moves_drop_hole ext v.1 v.2 p c1 HW1 HO1 Ep Hfl H0) as M. eapply moves_trans; [exact M|]. apply IH; [apply M|apply M|].
    intros v' p' Hv' Hp'. rewrite page_of_set_page in Hp'; [|by apply wf_ordered|apply page_of_Some in Ep as (g & Hg & _); by exists g]. case_decide; [done|]. apply (Hk v'); [by right|done].
  - rewrite set_page_absent by (done || by apply wf_ordered). apply IH; [done|done|]. intros v' p' Hv'. apply Hk. by right.
Qed.

Lemma moves_purge ext c : wf c -> owned ext c -> moves ext c ext (purge c).
Proof.
  intros HW HO. unfold purge. pose proof (moves_holes ext 0 c HW HO) as M. destruct (_ =? _); [exact M|]. eapply moves_trans; [exact M|]. apply moves_purge_locked; apply M.
Qed.
