(* ===== verification/PageCacheReclaim.v ===== *)
(** * The page cache: reclaim

    The clock of [reclaim_pages] and the sweeps of [emergency_reclaim].  Both give
    back only frames of clean published pages that the cache alone refers to; every
    other page keeps its frame, and its flags except the two hints the clock
    maintains ([F_REF] and [F_MAPPED]).  The loops end by the code's own exits:
    the hand wraps once, and every round uses up some of the budget. *)
From S2P Require Import Prelude BTree PageSites PageRef PageCache PageCacheInv PageCacheOps PageCacheWrite.
#[local] Open Scope Z_scope.
Import Cache.

(** Same page up to the clock's hints. *)
Record hinted (p p' : Page) : Prop := {
  hi_phys : phys p' = phys p;
  hi_token : token p' = token p;
  hi_state : state p' = state p;
  hi_flags : forall b, Z.land b (Z.lor F_REF F_MAPPED) = 0 -> on (flags p') b = on (flags p) b }.

Lemma hinted_refl p : hinted p p.
Proof. by split. Qed.

Lemma hinted_trans p q r : hinted p q -> hinted q r -> hinted p r.
Proof. intros [A1 A2 A3 A4] [B1 B2 B3 B4]. split; [congruence..|]. intros b Hb. rewrite B4, A4 by done. done. Qed.

Lemma hinted_dirty p p' : hinted p p' -> on (flags p') F_DIRTY = on (flags p) F_DIRTY.
Proof. intros H. by apply (hi_flags p p' H). Qed.

Lemma hinted_published p p' : hinted p p' -> published p' = published p.
Proof. intros [H1 _ H3 _]. unfold published. by rewrite H1, H3. Qed.

Lemma hinted_raise b p : b = F_REF \/ b = F_MAPPED -> hinted p (Cache.set_flags (raise b (flags p)) p).
Proof.
  intros Hb. split; [done..|]. intros b' H0. cbn. rewrite on_raise. assert (on b b' = false) as ->; [|by rewrite orb_false_r].
  unfold on. apply negb_false_iff, Z.eqb_eq. rewrite Z.land_lor_distr_r in H0. apply Z.lor_eq_0_iff in H0 as [H1 H2]. rewrite Z.land_comm. by destruct Hb as [-> | ->].
Qed.

Lemma hinted_clear b p : b = F_REF \/ b = F_MAPPED -> hinted p (Cache.set_flags (clear b (flags p)) p).
Proof.
  intros Hb. split; [done..|]. intros b' H0. cbn. apply on_clear_other. rewrite Z.land_lor_distr_r in H0. apply Z.lor_eq_0_iff in H0 as [H1 H2].
  rewrite Z.land_comm. by destruct Hb as [-> | ->].
Qed.

(** An entry the clock may take out: clean, not believed mapped, and with no
    frame or one the cache alone refers to. *)
Definition evictable (r : refs) (p : Page) : Prop :=
  state p = ST_UPTODATE /\ on (flags p) F_DIRTY = false /\ on (flags p) F_MAPPED = false /\ (phys p = 0 \/ PageRef.get (phys p) r <= 1).

Lemma evictable_hinted r p p' : hinted p p' -> on (flags p') F_MAPPED = false -> evictable r p -> evictable r p'.
Proof. intros H Hm (E1 & E2 & _ & E3). unfold evictable. by rewrite (hi_state _ _ H), (hinted_dirty _ _ H), (hi_phys _ _ H). Qed.

(** A visit changes hints only, accounts for [MAPPED], and chooses evictable pages. *)
Record visited (r : refs) (p p' : Page) (v : bool) (d : Z) : Prop := {
  vi_hinted : hinted p p';
  vi_mapped : d = w_mapped p' - w_mapped p;
  vi_ok : page_ok p';
  vi_victim : v = true -> evictable r p';
  vi_stays : evictable r p -> evictable r p' }.

Lemma visited_same r p v : page_ok p -> (v = true -> evictable r p) -> visited r p p v 0.
Proof. intros Hok Hv. split; [apply hinted_refl|lia|done|done|done]. Qed.

Lemma visit_spec r orphaned p : page_ok p -> let '(p', v, d) := visit r orphaned p in visited r p p' v d.
Proof.
  intros Hok. unfold visit. destruct (Z.eqb_spec (state p) ST_UPTODATE) as [Hs|Hs]; cbn [negb]; [|by apply visited_same].
  destruct (Z.eqb_spec (phys p) 0) as [H0|H0].
  { apply visited_same; [done|]. intros _. destruct Hok as [(Hc & _)|(_ & Hh)]; [by rewrite Hs in Hc|]. destruct (Hh H0). split_and!; try done. by left. }
  assert (published p = true) as Hpub by (unfold published; rewrite Hs; cbn; by apply negb_true_iff, Z.eqb_neq).
  assert (forall f, page_ok (Cache.set_flags f p)) as Hokf by (intros f; apply page_ok_flags; [done|by left]).
  destruct (on (flags p) F_DIRTY) eqn:Ed; [by apply visited_same|]. destruct (Z.ltb_spec 1 (PageRef.get (phys p) r)) as [Hr|Hr].
  { destruct (on (flags p) F_MAPPED) eqn:Em; [by apply visited_same|]. split; [apply hinted_raise; by right| |done|done|intros (_ & _ & _ & [?|?]); [done|lia]].
    rewrite !w_mapped_pub by done. cbn [flags Cache.set_flags]. by rewrite on_raise, Em. }
  set (q := if on (flags p) F_MAPPED then Cache.set_flags (clear F_MAPPED (flags p)) p else p).
  assert ((if on (flags p) F_MAPPED then (Cache.set_flags (clear F_MAPPED (flags p)) p, -1) else (p, 0)) = (q, w_mapped q - w_mapped p)) as ->.
  { unfold q. destruct (on (flags p) F_MAPPED) eqn:Em; f_equal; [|lia]. rewrite !w_mapped_pub by done. cbn [flags Cache.set_flags]. by rewrite on_clear, Em. }
  assert (hinted p q /\ page_ok q /\ on (flags q) F_MAPPED = false) as (Hq & Hokq & Hmq).
  { unfold q. destruct (on (flags p) F_MAPPED) eqn:Em; [|by split_and!; [apply hinted_refl|..]]. split_and!; [apply hinted_clear; by right|done|apply on_clear]. }
  assert (evictable r q) as Hev.
  { unfold evictable. rewrite (hi_state _ _ Hq), (hinted_dirty _ _ Hq), (hi_phys _ _ Hq). split_and!; try done. by right. }
  destruct (on (flags q) F_REF && negb orphaned); [|by split]. assert (published q = true) as Hpq by (by rewrite (hinted_published p)).
  assert (hinted q (Cache.set_flags (clear F_REF (flags q)) q)) as Hq2 by (apply hinted_clear; by left).
  split; [by eapply hinted_trans| |apply page_ok_flags; [done|by left]|done|].
  - f_equal. symmetry. apply w_mapped_flags. by apply on_clear_other.
  - intros _. apply (evictable_hinted r q); [done| |done]. cbn. by rewrite on_clear_other.
Qed.

(** ** States of the scan *)

(** The index keeps its entries; their flags may change in the hints. *)
Definition hinted_index (c c' : t) : Prop := forall k pg,
  match page_of k pg c, page_of k pg c' with Some p, Some p' => hinted p p' | None, None => True | _, _ => False end.

Lemma hinted_index_refl c : hinted_index c c.
Proof. intros k pg. destruct (page_of k pg c); [apply hinted_refl|done]. Qed.

Lemma hinted_index_trans c1 c2 c3 : hinted_index c1 c2 -> hinted_index c2 c3 -> hinted_index c1 c3.
Proof.
  intros H1 H2 k pg. specialize (H1 k pg). specialize (H2 k pg). destruct (page_of k pg c1), (page_of k pg c2), (page_of k pg c3); try done. by eapply hinted_trans.
Qed.

(** What a step of the scan keeps. *)
Record scans (ext : Z -> Z) (c c' : t) : Prop := {
  sn_moves : moves ext c ext c';
  sn_refs : frame_refs c' = frame_refs c;
  sn_released : released c' = released c;
  sn_free : free_pages c' = free_pages c;
  sn_holds : forall f, holds f c' = holds f c;
  sn_keys : (files c').*1 = (files c).*1;
  sn_index : hinted_index c c' }.

Lemma scans_refl ext c : wf c -> owned ext c -> scans ext c c.
Proof. intros HW HO. split; try done; [by apply moves_refl|apply hinted_index_refl]. Qed.

Lemma scans_trans ext c1 c2 c3 : scans ext c1 c2 -> scans ext c2 c3 -> scans ext c1 c3.
Proof.
  intros [] []. split; [by eapply moves_trans|congruence|congruence|congruence|intros f; congruence|congruence|by eapply hinted_index_trans].
Qed.

Lemma bset_keys {V} k (v : V) l : sorted l -> is_Some (bget k l) -> (bset k (Some v) l).*1 = l.*1.
Proof.
  induction l as [|[k' v'] l IH]; intros HS [w Hw]; [done|]. cbn in *. destruct (Z.eqb_spec k k') as [->|]; [done|]. destruct (k <? k'); [done|].
  cbn. f_equal. apply IH; [apply HS|by exists w].
Qed.

(** One visit of the hand. *)
Lemma scans_visit ext key pg p p' d c :
  wf c -> owned ext c -> page_of key pg c = Some p -> hinted p p' -> d = w_mapped p' - w_mapped p -> page_ok p' ->
  scans ext c (set_page key pg (Some p') (set_MAPPED (MAPPED c + d) c)).
Proof.
  intros HW HO Hp Hh Hd Hok. pose proof Hp as (fe & Hf & Hb)%page_of_Some. set (c1 := set_MAPPED (MAPPED c + d) c).
  destruct (set_page_same key pg (Some p') c1) as (E1 & E2 & E3 & E4 & E5 & E6). pose proof (hinted_published p p' Hh) as Hpub.
  assert (w_pub p' = w_pub p /\ w_dirty p' = w_dirty p /\ w_fill p' = w_fill p /\ forall f, w_holds f p' = w_holds f p) as (W1 & W2 & W3 & W4).
  { unfold w_pub, w_dirty, w_fill, w_holds, dirty, filling. rewrite Hpub, (hinted_dirty p p' Hh), (hi_state p p' Hh), (hi_phys p p' Hh). done. }
  assert (edited key pg (Some p) (Some p') c (set_page key pg (Some p') c1)) as HE.
  { destruct (set_page_edited key pg (Some p') c1 (Some p)) as [HE HU]; [by exists fe|cbn; lia|]. by split. }
  assert (moves ext c ext (set_page key pg (Some p') c1)) as M.
  { eapply moves_edit; [done|done|exact HE| |done|done|apply HO|intros f _; cbn; rewrite W4; lia].
    eapply wf_edit; [done|exact HE|done|..]; cbn; rewrite ?E1, ?E2, ?E3, ?E4; cbn; lia. }
  split; [done|done|done| | | |].
  - unfold set_page. by destruct (file key c1).
  - intros f. unfold holds. rewrite (total_edit _ _ _ _ _ _ _ HW HE). cbn. rewrite W4. lia.
  - unfold set_page. change (file key c1) with (file key c). rewrite Hf. cbn. apply bset_keys; [apply HW|by exists fe].
  - intros k j. rewrite page_of_set_page; [|by apply (wf_ordered c)|by exists fe]. change (page_of k j c1) with (page_of k j c).
    case_decide as E; [destruct E as [-> ->]; by rewrite Hp|]. destruct (page_of k j c); [apply hinted_refl|done].
Qed.

(** The victims chosen so far are in the index and evictable. *)
Definition victims_ok (s : scan) : Prop :=
  Forall (fun v => exists p, page_of v.1 v.2 (sc s) = Some p /\ evictable (frame_refs (sc s)) p) (victims s).

Lemma scan_pages_spec ext need key orphaned ps s :
  wf (sc s) -> owned ext (sc s) -> part_of key ps (sc s) -> victims_ok s ->
  let '(o, s') := scan_pages need key orphaned ps s in
  scans ext (sc s) (sc s') /\ victims_ok s' /\ (length (victims s') <= Nat.max need (length (victims s)))%nat /\ (scanned s <= scanned s')%nat.
Proof.
  revert s. induction ps as [|[pg p] ps IH]; intros s HW HO HP HV; cbn [scan_pages]; [by split; [apply scans_refl|split; [done|split; [lia|done]]]|].
  destruct ((BATCH <=? scanned s)%nat || (need <=? length (victims s))%nat) eqn:Efull; [by split; [apply scans_refl|split; [done|split; [lia|done]]]|].
  apply orb_false_iff in Efull as [_ Hneed%Nat.leb_gt]. destruct HP as [HN Hps]. pose proof (Hps (pg, p) ltac:(left)) as Hp. cbn [fst snd] in Hp.
  pose proof (visit_spec (frame_refs (sc s)) orphaned p (page_of_ok _ _ _ _ HW Hp)) as V. destruct (visit _ _ p) as [[p' v] d]. destruct V as [V1 V2 V3 V4 V5].
  pose proof (scans_visit ext key pg p p' d (sc s) HW HO Hp V1 V2 V3) as SV. set (c1 := set_page key pg (Some p') (set_MAPPED (MAPPED (sc s) + d) (sc s))) in *.
  assert (forall k j, page_of k j c1 = if decide (k = key /\ j = pg) then Some p' else page_of k j (sc s)) as Hc1.
  { intros k j. pose proof Hp as (fe & Hf & _)%page_of_Some. unfold c1. rewrite page_of_set_page by (by apply (wf_ordered (sc s)) || by exists fe). done. }
  set (s1 := mkScan c1 (S (scanned s)) (victims s ++ if v then [(key, pg)] else [])).
  assert (part_of key ps c1) as HP1.
  { apply NoDup_cons in HN as [Hn HN]. split; [done|]. intros e He. rewrite Hc1, decide_False; [apply Hps; by right|]. intros [_ E]. apply Hn. cbn. rewrite <- E. by apply list_elem_of_fmap_2. }
  assert (victims_ok s1) as HV1.
  { unfold victims_ok. cbn [sc victims s1]. rewrite (sn_refs _ _ _ SV). apply Forall_app. split.
    - eapply Forall_impl; [exact HV|]. cbn. intros u (q & Hq & He). rewrite Hc1. case_decide as E; [|by exists q]. destruct E as [E1 E2]. rewrite E1, E2, Hp in Hq. injection Hq as <-. exists p'. auto.
    - destruct v; [|done]. constructor; [|done]. exists p'. cbn [fst snd]. rewrite Hc1, decide_True by done. auto. }
  destruct SV as [M R1 R2 R3 R4 R5 R6]. specialize (IH s1 (mv_wf _ _ _ _ M) (mv_owned _ _ _ _ M) HP1 HV1). destruct (scan_pages need key orphaned ps s1) as [o s']. destruct IH as (I1 & I2 & I3 & I4).
  split; [eapply scans_trans; [|exact I1]; by split|]. split; [done|]. cbn [victims scanned s1] in I3, I4. rewrite length_app in I3. split; [|lia].
  assert (length (if v then [(key, pg)] else []) <= 1)%nat by (destruct v; cbn; lia). lia.
Qed.

Lemma scan_files_spec ext need fuel wraps hk hp s :
  wf (sc s) -> owned ext (sc s) -> victims_ok s ->
  let '(_, _, s') := scan_files fuel need wraps hk hp s in
  scans ext (sc s) (sc s') /\ victims_ok s' /\ (length (victims s') <= Nat.max need (length (victims s)))%nat.
Proof.
  revert wraps hk hp s. induction fuel as [|f IH]; intros wraps hk hp s HW HO HV; cbn [scan_files]; [by split; [apply scans_refl|split; [done|lia]]|].
  assert (scans ext (sc s) (sc s) /\ victims_ok s /\ (length (victims s) <= Nat.max need (length (victims s)))%nat) as Hid by (split; [by apply scans_refl|split; [done|lia]]).
  destruct (range hk (files (sc s))) as [|[k fe] rest] eqn:Er; [destruct (0 <? wraps)%nat; [done|by apply IH]|].
  assert (file k (sc s) = Some fe) as Hf.
  { apply in_files; [done|]. assert ((k, fe) ∈ range hk (files (sc s))) as [? _]%range_entry by (rewrite Er; left). done. }
  pose proof (scan_pages_spec ext need k (orphan fe) (range (if k =? hk then hp else 0) (pages fe)) s HW HO (part_of_range k _ fe _ HW Hf) HV) as SP.
  destruct (scan_pages _ _ _ _ s) as [[pg|] s1]; destruct SP as (S1 & S2 & S3 & _); [done|].
  pose proof S1 as [M _ _ _ _ _ _].
  assert (forall w h1 h2, let '(_, _, s') := scan_files f need w h1 h2 s1 in scans ext (sc s) (sc s') /\ victims_ok s' /\ (length (victims s') <= Nat.max need (length (victims s)))%nat) as Hrec.
  { intros w h1 h2. specialize (IH w h1 h2 s1 (mv_wf _ _ _ _ M) (mv_owned _ _ _ _ M) S2). destruct (scan_files f need w h1 h2 s1) as [[? ?] s']. destruct IH as (I1 & I2 & I3).
    split; [by eapply scans_trans|]. split; [done|lia]. }
  destruct (k =? U64_MAX); [destruct (_ || _); [done|apply Hrec]|]. destruct (_ || _); [done|apply Hrec].
Qed.

(** ** Taking victims out *)
Lemma moves_drop_empty ext key fe c : wf c -> owned ext c -> file key c = Some fe -> pages fe = [] ->
  moves ext c ext (set_file key None c) /\ forall k pg, page_of k pg (set_file key None c) = page_of k pg c.
Proof.
  intros HW HO Hf He. assert (forall w, total w (set_file key None c) = total w c) as Ht.
  { intros w. rewrite (total_bset w key None c) by (done || apply HW). rewrite Hf. cbn. rewrite He. cbn. lia. }
  split.
  - apply moves_same; [done|done| |intros f; apply Ht|done|done|done]. split; rewrite ?Ht; try apply HW; [apply bset_sorted, HW|].
    intros k g. rewrite file_set_file by apply HW. case_decide; [done|apply HW].
  - intros k pg. unfold page_of. rewrite file_set_file by apply HW. case_decide; [|done]. subst. rewrite Hf. cbn. by rewrite He.
Qed.

(** Ownership of an evictable frame passes to the caller. *)
Lemma moves_take_frame ext key pg p c : wf c -> owned ext c -> page_of key pg c = Some p -> evictable (frame_refs c) p -> phys p <> 0 ->
  moves ext c (plus ext [phys p]) (set_CACHED (CACHED c - 1) (set_page key pg None c)).
Proof.
  intros HW HO Hp (Hs & Hd & Hm & _) Hnz. pose proof Hp as (fe & Hf & Hb)%page_of_Some. destruct (set_page_same key pg None c) as (E1 & E2 & E3 & E4 & E5 & E6).
  assert (published p = true) as Hpub by (unfold published; rewrite Hs; cbn; by apply negb_true_iff, Z.eqb_neq).
  destruct (published_weights p Hpub) as (W1 & W2 & W3 & W4 & W5). rewrite Hd in W3. rewrite Hm in W4. cbn in W3, W4.
  assert (edited key pg (Some p) None c (set_CACHED (CACHED c - 1) (set_page key pg None c))) as HE.
  { destruct (set_page_edited key pg None c (Some p)) as [HE HU]; [by exists fe|cbn; lia|]. by split. }
  eapply moves_edit; [done|exact HO|exact HE| |exact E5|exact E6| |].
  - eapply wf_edit; [done|exact HE|done|..]; cbn [CACHED DIRTY FILLING MAPPED set_CACHED]; rewrite ?E1, ?E2, ?E3, ?E4; cbn; lia.
  - intros f. unfold plus. pose proof (occ_ge f [phys p]). destruct HO as (_ & H2 & _). specialize (H2 f). lia.
  - intros f _. cbn. rewrite W5. unfold plus. cbn. lia.
Qed.

(** A page is as before, or an evictable one is gone. *)
Definition thinned (r : refs) (c c' : t) : Prop := forall k pg,
  page_of k pg c' = page_of k pg c \/ page_of k pg c' = None /\ exists p, page_of k pg c = Some p /\ evictable r p.

(** What taking out a victim does. *)
Record evicted (ext : Z -> Z) (v : Z * Z) (c : t) (l : list Z) (c' : t) : Prop := {
  ev_len : (length l <= 1)%nat;
  ev_moves : moves ext c (plus ext l) c';
  ev_refs : frame_refs c' = frame_refs c;
  ev_released : released c' = released c;
  ev_free : free_pages c' = free_pages c;
  ev_frames : Forall (fun f => f <> 0 /\ PageRef.get f (frame_refs c) = 1 /\ exists p, page_of v.1 v.2 c = Some p /\ phys p = f) l;
  ev_index : thinned (frame_refs c) c c' }.

Lemma evicted_nothing ext v c : wf c -> owned ext c -> evicted ext v c [] c.
Proof. intros HW HO. split; [cbn; lia|eapply moves_ext; [apply plus_nil|by apply moves_refl]|done..|]. by intros k j; left. Qed.

Lemma evict_page_spec ext key pg frames c :
  wf c -> owned ext c -> is_Some (file key c) -> (forall p, page_of key pg c = Some p -> evictable (frame_refs c) p) ->
  let '(frames', c') := evict_page key pg frames c in exists l, frames' = frames ++ l /\ evicted ext (key, pg) c l c'.
Proof.
  intros HW HO [fe Hf] Hev. unfold evict_page. destruct (page_of key pg c) as [p|] eqn:Ep; [|exists []; rewrite app_nil_r; split; [done|by apply evicted_nothing]].
  specialize (Hev p eq_refl). destruct (set_page_same key pg None c) as (S1 & _ & _ & _ & S5 & S6). assert (free_pages (set_page key pg None c) = free_pages c) as S7 by (unfold set_page; by rewrite Hf).
  assert (forall c', files c' = files (set_page key pg None c) -> thinned (frame_refs c) c c') as Hth.
  { intros c' Ec k j. rewrite (page_of_files (set_page key pg None c)) by done. rewrite page_of_set_page by (by apply wf_ordered || by exists fe).
    case_decide as E; [|by left]. destruct E as [-> ->]. right. split; [done|]. by exists p. }
  destruct (Z.eqb_spec (phys p) 0) as [H0|H0].
  - exists []. rewrite app_nil_r. split; [done|]. split; [cbn; lia| |done|done|done|done|by apply Hth]. eapply moves_ext; [apply plus_nil|]. eapply moves_drop_hole; [done|done|exact Ep| |done].
    destruct Hev as (Hs & _). unfold filling. by rewrite Hs.
  - exists [phys p]. split; [done|]. split; [done|rewrite S1; by apply moves_take_frame|done|done|done| |by apply Hth].
    constructor; [|done]. destruct Hev as (Hs & _ & _ & [?|Hg]); [done|]. split; [done|]. split; [|by exists p]. destruct HO as (Hsh & _). pose proof (get_pos (frame_refs c) (phys p) Hsh). lia.
Qed.

Lemma evict_spec ext v frames c :
  wf c -> owned ext c -> (forall p, page_of v.1 v.2 c = Some p -> evictable (frame_refs c) p) ->
  let '(frames', c') := evict (frames, c) v in exists l, frames' = frames ++ l /\ evicted ext v c l c'.
Proof.
  intros HW HO Hev. destruct v as [key pg]. cbn [fst snd] in *. unfold evict. cbn [fst snd].
  destruct (file key c) as [fe|] eqn:Hf; [|exists []; rewrite app_nil_r; split; [done|by apply evicted_nothing]].
  pose proof (evict_page_spec ext key pg frames c HW HO ltac:(by exists fe) Hev) as E. destruct (evict_page key pg frames c) as [frames1 c1]. destruct E as (l & -> & E).
  destruct (file key c1) as [fe1|] eqn:Hf1; [|by exists l]. destruct (_ && _) eqn:Eb; [|by exists l]. apply andb_true_iff in Eb as [Eb _]. assert (pages fe1 = []) as He1 by (by destruct (pages fe1)).
  destruct E as [L1 L2 L3 L4 L5 L6 L7]. destruct (moves_drop_empty (plus ext l) key fe1 c1 (mv_wf _ _ _ _ L2) (mv_owned _ _ _ _ L2) Hf1 He1) as [M2 P2].
  exists l. split; [done|]. split; [done|by eapply moves_trans|done|done|done|done|]. intros k j. rewrite P2. apply L7.
Qed.

Lemma thinned_trans r c1 c2 c3 : thinned r c1 c2 -> thinned r c2 c3 -> thinned r c1 c3.
Proof.
  intros H1 H2 k pg. destruct (H1 k pg) as [E1|[E1 Hp]], (H2 k pg) as [E2|[E2 (q & Hq & He)]].
  - left. congruence.
  - right. split; [done|]. exists q. split; [congruence|done].
  - right. split; [congruence|done].
  - congruence.
Qed.

Lemma evict_all_spec ext vs frames c :
  wf c -> owned (plus ext frames) c -> Forall (fun v => forall p, page_of v.1 v.2 c = Some p -> evictable (frame_refs c) p) vs ->
  let '(frames', c') := foldl evict (frames, c) vs in
  exists l, frames' = frames ++ l /\ (length l <= length vs)%nat /\ moves (plus ext frames) c (plus ext frames') c' /\ frame_refs c' = frame_refs c /\ released c' = released c /\ free_pages c' = free_pages c
    /\ Forall (fun f => f <> 0 /\ PageRef.get f (frame_refs c) = 1 /\ exists k pg p, page_of k pg c = Some p /\ evictable (frame_refs c) p /\ phys p = f) l /\ thinned (frame_refs c) c c'.
Proof.
  revert frames c. induction vs as [|v vs IH]; intros frames c HW HO HV.
  - exists []. rewrite app_nil_r. split_and!; try done; [by apply moves_refl|]. by intros k pg; left.
  - apply Forall_cons in HV as [Hv HV]. cbn [foldl]. pose proof (evict_spec (plus ext frames) v frames c HW HO Hv) as E. destruct (evict (frames, c) v) as [f1 c1]. destruct E as (l1 & -> & [L1 L2 L3 L4 L5 L6 L7]).
    assert (moves (plus ext frames) c (plus ext (frames ++ l1)) c1) as M1 by (eapply moves_ext; [|exact L2]; intros f; apply plus_app).
    specialize (IH (frames ++ l1) c1 (mv_wf _ _ _ _ M1) (mv_owned _ _ _ _ M1)). rewrite L3 in IH.
    assert (Forall (fun v => forall p, page_of v.1 v.2 c1 = Some p -> evictable (frame_refs c) p) vs) as HV1.
    { eapply Forall_impl; [exact HV|]. cbn. intros u Hu p Hp. apply Hu. destruct (L7 u.1 u.2) as [E|[E _]]; congruence. }
    specialize (IH HV1). destruct (foldl evict (frames ++ l1, c1) vs) as [f2 c2]. destruct IH as (l2 & -> & I1 & I2 & I3 & I4 & I5 & I6 & I7).
    exists (l1 ++ l2). rewrite app_assoc, length_app. split_and!; try done; [cbn; lia|by eapply moves_trans|congruence|congruence| |by eapply thinned_trans].
    apply Forall_app. split.
    + eapply Forall_impl; [exact L6|]. cbn. intros f (H1 & H2 & p & H3 & H4). split; [done|]. split; [done|]. exists v.1, v.2, p. split; [done|]. split; [auto|done].
    + eapply Forall_impl; [exact I6|]. cbn. intros f (H1 & H2 & k & pg & p & H3 & H4 & H5). split; [done|]. split; [done|]. exists k, pg, p. split; [|done]. destruct (L7 k pg) as [E|[E _]]; congruence.
Qed.

(** ** Rounds *)

(** Clean, and with no frame or one the cache alone refers to. *)
Definition takeable (r : refs) (p : Page) : Prop :=
  state p = ST_UPTODATE /\ on (flags p) F_DIRTY = false /\ (phys p = 0 \/ PageRef.get (phys p) r <= 1).

(** Every page is still there up to hints, except for takeable ones. *)
Definition reclaimed (r : refs) (c c' : t) : Prop := forall k pg,
  match page_of k pg c with
  | None => page_of k pg c' = None
  | Some p => match page_of k pg c' with Some p' => hinted p p' | None => takeable r p end
  end.

Lemma takeable_hinted r p p' : hinted p p' -> takeable r p' -> takeable r p.
Proof. intros H. unfold takeable. by rewrite (hi_state _ _ H), (hinted_dirty _ _ H), (hi_phys _ _ H). Qed.

Lemma evictable_takeable r p : evictable r p -> takeable r p.
Proof. intros (H1 & H2 & _ & H3). by split_and!. Qed.

Lemma reclaimed_refl r c : reclaimed r c c.
Proof. intros k pg. destruct (page_of k pg c); [apply hinted_refl|done]. Qed.

Lemma reclaimed_trans r c1 c2 c3 : reclaimed r c1 c2 -> reclaimed r c2 c3 -> reclaimed r c1 c3.
Proof.
  intros H1 H2 k pg. specialize (H1 k pg). specialize (H2 k pg). destruct (page_of k pg c1) as [p1|]; [|by rewrite H1 in H2].
  destruct (page_of k pg c2) as [p2|]; [|by rewrite H2]. destruct (page_of k pg c3) as [p3|]; [by eapply hinted_trans|by eapply takeable_hinted].
Qed.

Lemma reclaimed_round r c c1 c2 : hinted_index c c1 -> thinned r c1 c2 -> reclaimed r c c2.
Proof.
  intros H1 H2 k pg. specialize (H1 k pg). specialize (H2 k pg). destruct (page_of k pg c) as [p|], (page_of k pg c1) as [p1|]; try done.
  - destruct H2 as [->|[-> (q & [= <-] & He)]]; [done|]. eapply takeable_hinted; [exact H1|]. by apply evictable_takeable.
  - by destruct H2 as [->|[-> _]].
Qed.

Lemma free_all_released l c : released (foldl (fun c p => buddy_free p c) c l) = released c ++ l
  /\ free_pages (foldl (fun c p => buddy_free p c) c l) = free_pages c + Z.of_nat (length l) /\ frame_refs (foldl (fun c p => buddy_free p c) c l) = frame_refs c.
Proof.
  revert c. induction l as [|f l IH]; intros c; [cbn; rewrite app_nil_r; split_and!; [done|lia|done]|]. cbn [foldl length]. destruct (IH (buddy_free f c)) as (-> & -> & ->).
  cbn. rewrite <- app_assoc. split_and!; [done|lia|done].
Qed.

(** A frame that was the cache's alone, of a clean page. *)
Definition was_clean (c : t) (f : Z) : Prop :=
  f <> 0 /\ PageRef.get f (frame_refs c) = 1 /\ exists k pg p, page_of k pg c = Some p /\ published p = true /\ on (flags p) F_DIRTY = false /\ phys p = f.

(** What a call of reclaim does. *)
Record reclaims (ext : Z -> Z) (c : t) (n : nat) (c' : t) : Prop := {
  rc_moves : moves ext c ext c';
  rc_refs : frame_refs c' = frame_refs c;
  rc_index : reclaimed (frame_refs c) c c';
  rc_free : free_pages c' = free_pages c + Z.of_nat n;
  rc_frames : exists rel, released c' = released c ++ rel /\ length rel = n /\ Forall (was_clean c) rel }.

Lemma reclaims_refl ext c : wf c -> owned ext c -> reclaims ext c 0 c.
Proof. intros HW HO. split; [by apply moves_refl|done|apply reclaimed_refl|lia|]. exists []. by rewrite app_nil_r. Qed.

Lemma was_clean_before r c c' f : r = frame_refs c -> frame_refs c' = r -> reclaimed r c c' -> was_clean c' f -> was_clean c f.
Proof.
  intros -> Er Hi (H1 & H2 & k & pg & p & H3 & H4 & H5 & H6). split; [done|]. split; [by rewrite <- Er|]. specialize (Hi k pg). rewrite H3 in Hi. destruct (page_of k pg c) as [q|] eqn:Eq; [|done].
  exists k, pg, q. split; [done|]. rewrite <- (hinted_published _ _ Hi), <- (hinted_dirty _ _ Hi), <- (hi_phys _ _ Hi). done.
Qed.

Lemma reclaims_trans ext c1 n c2 m c3 : reclaims ext c1 n c2 -> reclaims ext c2 m c3 -> reclaims ext c1 (n + m) c3.
Proof.
  intros [A1 A2 A3 A4 (r1 & A5 & A6 & A7)] [B1 B2 B3 B4 (r2 & B5 & B6 & B7)]. rewrite A2 in *. split; [by eapply moves_trans|done|by eapply reclaimed_trans|lia|].
  exists (r1 ++ r2). rewrite B5, A5, <- app_assoc, length_app. split; [done|]. split; [lia|]. apply Forall_app. split; [done|]. eapply Forall_impl; [exact B7|]. cbn. intros f. by apply (was_clean_before (frame_refs c1)).
Qed.

(** A round under the lock: the frames taken out are the caller's. *)
Lemma reclaim_round_locked ext need c : wf c -> owned ext c -> (0 < need)%nat ->
  let '(frames, n, c') := reclaim_round need c in
  (length frames <= need)%nat /\ moves ext c (plus ext frames) c' /\ frame_refs c' = frame_refs c /\ reclaimed (frame_refs c) c c' /\
  free_pages c' = free_pages c /\ released c' = released c /\ Forall (was_clean c) frames.
Proof.
  intros HW HO Hneed. unfold reclaim_round. pose proof (scan_files_spec ext need (2 * length (files c) + 3) 0 (hand c).1 (hand c).2 (mkScan c 0 []) HW HO ltac:(by constructor)) as SF.
  destruct (scan_files _ _ _ _ _ _) as [[hk hp] s]. destruct SF as (S1 & S2 & S3). cbn [sc victims length] in S1, S3. set (c1 := set_hand (hk, hp) (sc s)).
  assert (scans ext c c1) as S1'.
  { eapply scans_trans; [exact S1|]. pose proof S1 as [M _ _ _ _ _ _]. split; try done; [|exact (hinted_index_refl (sc s))]. apply moves_same; [apply M|apply M|by eapply wf_same; [apply M|..]|done..]. }
  destruct S1' as [M R1 R2 R3 _ _ R6]. assert (owned (plus ext []) c1) as HO1 by (eapply owned_ext; [apply plus_nil|apply M]).
  pose proof (evict_all_spec ext (victims s) [] c1 (mv_wf _ _ _ _ M) HO1) as E. destruct (foldl evict ([], c1) (victims s)) as [frames c2].
  destruct E as (l & -> & L1 & L2 & L3 & L4 & L5 & L6 & L7).
  { eapply Forall_impl; [exact S2|]. cbn. intros v (p & Hp & He) q Hq. change (page_of v.1 v.2 (sc s) = Some q) in Hq. rewrite Hp in Hq. by injection Hq as <-. }
  rewrite app_nil_l in *. split; [lia|]. split; [|split; [by rewrite L3|split; [|split; [by rewrite L5, R3|split; [by rewrite L4, R2|]]]]].
  - eapply moves_trans; [exact M|]. eapply moves_trans; [|exact L2]. eapply moves_ext; [apply plus_nil|]. apply moves_refl; apply M.
  - rewrite R1 in L7. by apply (reclaimed_round (frame_refs c) c c1 c2).
  - eapply Forall_impl; [exact L6|]. cbv beta. intros f (H1 & H2 & k & pg & p & H3 & (H4 & H5 & _) & H6). split; [done|]. split; [by rewrite <- R1|].
    specialize (R6 k pg). rewrite H3 in R6. destruct (page_of k pg c) as [q|] eqn:Eq; [|done]. exists k, pg, q. split; [done|]. rewrite <- (hinted_published _ _ R6), <- (hinted_dirty _ _ R6), <- (hi_phys _ _ R6).
    split; [|done]. unfold published. rewrite H4, H6. cbn. by apply negb_true_iff, Z.eqb_neq.
Qed.

Lemma reclaim_round_spec ext need c : wf c -> owned ext c -> (0 < need)%nat ->
  let '(frames, n, c') := reclaim_round need c in
  (length frames <= need)%nat /\ reclaims ext c (length frames) (foldl (fun c p => buddy_free p c) c' frames).
Proof.
  intros HW HO Hneed. pose proof (reclaim_round_locked ext need c HW HO Hneed) as R. destruct (reclaim_round need c) as [[l n] c2]. destruct R as (Hn & M2 & R1 & R2 & R3 & R4 & R5). split; [done|].
  assert (forall f, f ∈ l -> was_clean c f) as Hl by (by apply Forall_forall).
  destruct (free_all_released l c2) as (F1 & F2 & F3). destruct (free_all_files l c2) as [F4 _]. split.
  - eapply moves_ext; [apply (minus_plus ext l)|]. eapply moves_trans; [exact M2|]. apply moves_free_all; [apply M2|apply M2| | |intros f Hf; rewrite R1; by apply Hl].
    + apply Forall_forall. intros f Hf. by apply Hl.
    + intros f. unfold plus. destruct HO as (_ & H2 & _). specialize (H2 f). lia.
  - by rewrite F3.
  - intros k pg. rewrite (page_of_files c2 (foldl (fun c p => buddy_free p c) c2 l) k pg F4). apply R2.
  - by rewrite F2, R3.
  - exists l. by rewrite F1, R4.
Qed.

Lemma reclaim_loop_spec ext fuel want freed budget c : wf c -> owned ext c -> (freed <= want)%nat ->
  let '(n, c') := reclaim_loop fuel want freed budget c in (freed <= n <= want)%nat /\ reclaims ext c (n - freed) c'.
Proof.
  revert freed budget c. induction fuel as [|f IH]; intros freed budget c HW HO Hle; cbn [reclaim_loop].
  - split; [lia|]. rewrite Nat.sub_diag. by apply reclaims_refl.
  - assert ((freed <= freed <= want)%nat /\ reclaims ext c (freed - freed) c) as Hid by (split; [lia|]; rewrite Nat.sub_diag; by apply reclaims_refl).
    destruct ((freed <? want)%nat && (0 <? budget)) eqn:Eb; [|done]. apply andb_true_iff in Eb as [Hlt%Nat.ltb_lt _].
    destruct (files c) as [|e0 fs]; [done|]. pose proof (reclaim_round_spec ext (Nat.min (want - freed) BATCH) c HW HO ltac:(unfold BATCH; lia)) as R.
    destruct (reclaim_round _ c) as [[frames n] c1]. destruct R as [R1 R2]. set (c2 := foldl (fun c p => buddy_free p c) c1 frames) in *.
    destruct (n =? 0)%nat; [split; [lia|]; by replace (freed + length frames - freed)%nat with (length frames) by lia|].
    pose proof R2 as [M _ _ _ _]. specialize (IH (freed + length frames)%nat (Z.max 0 (budget - Z.max (Z.of_nat n) 1)) c2 (mv_wf _ _ _ _ M) (mv_owned _ _ _ _ M) ltac:(lia)).
    destruct (reclaim_loop f want _ _ c2) as [m c3]. destruct IH as [I1 I2]. split; [lia|]. replace (m - freed)%nat with (length frames + (m - (freed + length frames)))%nat by lia. by eapply reclaims_trans.
Qed.

(** ** The loops end by themselves *)
Lemma reclaim_loop_fuel f f' want freed budget c : (Z.to_nat budget <= f)%nat -> (Z.to_nat budget <= f')%nat ->
  reclaim_loop f want freed budget c = reclaim_loop f' want freed budget c.
Proof.
  revert f' freed budget c. induction f as [|f IH]; intros f' freed budget c H1 H2.
  - destruct f' as [|f']; [done|]. cbn [reclaim_loop]. rewrite (proj2 (Z.ltb_ge 0 budget)), andb_false_r by lia. done.
  - destruct f' as [|f']; cbn [reclaim_loop]; [rewrite (proj2 (Z.ltb_ge 0 budget)), andb_false_r by lia; done|].
    destruct ((freed <? want)%nat && (0 <? budget)) eqn:Eb; [|done]. apply andb_true_iff in Eb as [_ Hb%Z.ltb_lt]. destruct (files c); [done|].
    destruct (reclaim_round _ c) as [[frames n] c1]. destruct (n =? 0)%nat; [done|]. apply IH; lia.
Qed.

(** Files the hand has not reached. *)
Definition left_of (hk : Z) (c : t) : nat := length (range hk (files c)).

Lemma left_of_keys hk c c' : (files c').*1 = (files c).*1 -> left_of hk c' = left_of hk c.
Proof.
  unfold left_of, range. generalize (files c) (files c'). clear. intros l. induction l as [|[k v] l IH]; intros [|[k' v'] l'] E; try done. injection E as E1 E2. cbn. rewrite E1.
  destruct (hk <=? k); cbn; auto.
Qed.

Lemma left_of_next hk c k fe rest : wf c -> range hk (files c) = (k, fe) :: rest -> (left_of (k + 1) c < left_of hk c)%nat.
Proof.
  intros HW E. unfold left_of. rewrite E. assert (range (k + 1) (files c) = rest) as ->; [|cbn; lia].
  assert (sorted ((k, fe) :: rest)) as [HF _] by (rewrite <- E; apply range_sorted, HW). assert (hk <= k) as Hle by (assert ((k, fe) ∈ range hk (files c)) as [_ ?]%range_entry by (rewrite E; left); done).
  transitivity (range (k + 1) (range hk (files c))).
  - unfold range. clear -Hle. induction (files c) as [|e l IH]; [done|]. cbn. destruct (Z.leb_spec hk e.1); cbn; [by rewrite IH|]. rewrite (proj2 (Z.leb_gt (k + 1) e.1)) by lia. done.
  - rewrite E. unfold range. cbn. rewrite (proj2 (Z.leb_gt (k + 1) k)) by lia. clear -HF. induction rest as [|e l IH]; [done|]. apply Forall_cons in HF as [H1 H2]. cbn in *.
    rewrite (proj2 (Z.leb_le (k + 1) e.1)) by lia. f_equal. auto.
Qed.

Lemma left_of_le hk c : (left_of hk c <= length (files c))%nat.
Proof. apply List.filter_length_le. Qed.

Lemma length_keys c c' : (files c').*1 = (files c).*1 -> length (files c') = length (files c).
Proof. intros E. by rewrite <- (length_fmap fst (files c')), E, length_fmap. Qed.

(** Steps left in the walk of the hand. *)
Definition walk_left (wraps : nat) (hk : Z) (c : t) : nat := (left_of hk c + 1 + if (0 <? wraps)%nat then 0 else length (files c) + 1)%nat.

Lemma scan_files_fuel ext need f f' wraps hk hp s :
  wf (sc s) -> owned ext (sc s) -> victims_ok s -> (walk_left wraps hk (sc s) <= f)%nat -> (walk_left wraps hk (sc s) <= f')%nat ->
  scan_files f need wraps hk hp s = scan_files f' need wraps hk hp s.
Proof.
  revert f' wraps hk hp s. induction f as [|f IH]; intros f' wraps hk hp s HW HO HV H1 H2; [unfold walk_left in H1; lia|]. destruct f' as [|f']; [unfold walk_left in H2; lia|].
  cbn [scan_files]. destruct (range hk (files (sc s))) as [|[k fe] rest] eqn:Er.
  - destruct (Nat.ltb_spec 0 wraps) as [|Hw]; [done|]. assert (wraps = 0)%nat as -> by lia. pose proof (left_of_le 0 (sc s)). unfold walk_left in *. cbn in *. apply IH; try done; cbn; lia.
  - assert (file k (sc s) = Some fe) as Hf by (apply in_files; [done|]; assert ((k, fe) ∈ range hk (files (sc s))) as [? _]%range_entry by (rewrite Er; left); done).
    pose proof (scan_pages_spec ext need k (orphan fe) (range (if k =? hk then hp else 0) (pages fe)) s HW HO (part_of_range k _ fe _ HW Hf) HV) as SP.
    destruct (scan_pages _ _ _ _ s) as [[pg|] s1]; [done|]. destruct SP as (S1 & S2 & _). pose proof (sn_keys _ _ _ S1) as Hk. pose proof (sn_moves _ _ _ S1) as M.
    pose proof (left_of_next hk (sc s) k fe rest HW Er) as Hn. assert (forall h, left_of h (sc s1) = left_of h (sc s)) as Hl by (intros h; by apply left_of_keys).
    pose proof (length_keys _ _ Hk) as Hlen. unfold walk_left in H1, H2.
    destruct (k =? U64_MAX).
    + destruct (Nat.ltb_spec 0 wraps) as [|Hw]; [done|]. cbn [orb]. assert (wraps = 0)%nat as -> by lia. destruct (_ || _); [done|]. apply IH; try done; try apply M; unfold walk_left; cbn in *; rewrite Hl; pose proof (left_of_le 0 (sc s)); lia.
    + destruct (_ || _); [done|]. apply IH; try done; try apply M; unfold walk_left; rewrite Hl, Hlen; destruct (0 <? wraps)%nat; lia.
Qed.

(** The fuel of [reclaim_round] is enough for the walk. *)
Lemma walk_left_start c : (walk_left 0 (hand c).1 c <= 2 * length (files c) + 3)%nat.
Proof. unfold walk_left. cbn. pose proof (left_of_le (hand c).1 c). lia. Qed.

(** C28: [reclaim_pages] gives back only frames of clean published pages that nobody
    but the cache refers to, at most as many as asked, and returns their number.
    Every dirty page, every page with another reference and every fill in
    progress stays in the index with its frame.  The counters follow (what
    an unfinished [end_fill] has yet to add to [CACHED] stays the same), ownership
    stays exact, and no frame given back is owned by anyone.  More fuel changes
    nothing: the loop stops by its budget. *)
Theorem reclaim_pages_spec ext want c : wf c -> owned ext c ->
  let '(n, c') := reclaim_pages want c in
  (n <= want)%nat /\ reclaims ext c n c' /\
  forall fuel, (Z.to_nat (scan_budget c) <= fuel)%nat -> reclaim_loop fuel want 0 (scan_budget c) c = (n, c').
Proof.
  intros HW HO. unfold reclaim_pages. set (b := scan_budget c).
  pose proof (reclaim_loop_spec ext (Z.to_nat b) want 0 b c HW HO ltac:(lia)) as R. destruct (reclaim_loop (Z.to_nat b) want 0 b c) as [n c'] eqn:E. destruct R as [R1 R2].
  rewrite Nat.sub_0_r in R2. split; [lia|]. split; [done|]. intros fuel Hf. rewrite <- E. by apply reclaim_loop_fuel.
Qed.

(** ** The emergency sweeps *)

(** Every page is as it was, or a takeable one has been emptied. *)
Definition swept (r : refs) (c c' : t) : Prop := forall k pg,
  match page_of k pg c, page_of k pg c' with
  | Some p, Some p' => p' = p \/ takeable r p /\ phys p' = 0 /\ state p' = ST_UPTODATE
  | None, None => True
  | _, _ => False
  end.

Record sweeps (ext : Z -> Z) (c : t) (n : nat) (c' : t) : Prop := {
  sp_moves : moves ext c ext c';
  sp_refs : frame_refs c' = frame_refs c;
  sp_index : swept (frame_refs c) c c';
  sp_free : free_pages c' = free_pages c + Z.of_nat n;
  sp_frames : exists rel, released c' = released c ++ rel /\ length rel = n /\ Forall (was_clean c) rel }.

Lemma swept_refl r c : swept r c c.
Proof. intros k pg. destruct (page_of k pg c); [by left|done]. Qed.

Lemma sweeps_refl ext c : wf c -> owned ext c -> sweeps ext c 0 c.
Proof. intros HW HO. split; [by apply moves_refl|done|apply swept_refl|lia|]. exists []. by rewrite app_nil_r. Qed.

Lemma sweeps_trans ext c1 n c2 m c3 : sweeps ext c1 n c2 -> sweeps ext c2 m c3 -> sweeps ext c1 (n + m) c3.
Proof.
  intros [A1 A2 A3 A4 (r1 & A5 & A6 & A7)] [B1 B2 B3 B4 (r2 & B5 & B6 & B7)]. rewrite A2 in *. split; [by eapply moves_trans|done| |lia|].
  - intros k pg. specialize (A3 k pg). specialize (B3 k pg). destruct (page_of k pg c1) as [p1|], (page_of k pg c2) as [p2|], (page_of k pg c3) as [p3|]; try done.
    destruct A3 as [->|(A & H0 & Hs)]; [done|]. right. split; [done|]. by destruct B3 as [->|(_ & ?)].
  - exists (r1 ++ r2). rewrite B5, A5, <- app_assoc, length_app. split; [done|]. split; [lia|]. apply Forall_app. split; [done|]. eapply Forall_impl; [exact B7|]. cbn.
    intros f (H1 & H2 & k & pg & p & H3 & H4 & H5 & H6). split; [done|]. rewrite A2 in H2. split; [done|]. specialize (A3 k pg). rewrite H3 in A3. destruct (page_of k pg c1) as [q|] eqn:Eq; [|done].
    exists k, pg, q. split; [done|]. destruct A3 as [->|(_ & H0 & _)]; [done|]. by apply published_nonzero in H4.
Qed.

(** Emptying a clean entry the cache alone refers to. *)
Lemma empty_entry ext key pg p fl c m : wf c -> owned ext c -> page_of key pg c = Some p -> published p = true -> on (flags p) F_DIRTY = false -> PageRef.get (phys p) (frame_refs c) = 1 ->
  on fl F_DIRTY = false -> on fl F_MAPPED = false -> m = MAPPED c - w_mapped p ->
  sweeps ext c 1 (buddy_free (phys p) (set_CACHED (CACHED c - 1) (set_page key pg (Some (mkPage 0 (token p) (state p) fl)) (set_MAPPED m c)))).
Proof.
  intros HW HO Hp Hpub Hd Hr Fd Fm ->. pose proof Hp as (fe & Hf & Hb)%page_of_Some. set (c1 := set_MAPPED (MAPPED c - w_mapped p) c). set (q := mkPage 0 (token p) (state p) fl).
  destruct (set_page_same key pg (Some q) c1) as (E1 & E2 & E3 & E4 & E5 & E6). destruct (published_weights p Hpub) as (W1 & W2 & W3 & W4 & W5). rewrite Hd in W3. cbn in W3.
  assert (state p = ST_UPTODATE) as Hs by (unfold published in Hpub; apply andb_true_iff in Hpub as [Hs%Z.eqb_eq _]; done).
  assert (published q = false) as Hq by (unfold published; cbn; by rewrite andb_false_r). assert (w_pub q = 0 /\ w_dirty q = 0 /\ w_fill q = 0 /\ w_mapped q = 0 /\ forall f, w_holds f q = 0) as (Q1 & Q2 & Q3 & Q4 & Q5).
  { unfold w_pub, w_dirty, w_fill, w_mapped, w_holds, dirty, mapped, filling. rewrite Hq. cbn. rewrite Hs. done. }
  set (c2 := set_CACHED (CACHED c - 1) (set_page key pg (Some q) c1)).
  assert (edited key pg (Some p) (Some q) c c2) as HE by (destruct (set_page_edited key pg (Some q) c1 (Some p)) as [HE HU]; [by exists fe|cbn; lia|]; by split).
  assert (moves ext c (plus ext [phys p]) c2) as M.
  { eapply moves_edit; [done|exact HO|exact HE| |exact E5|exact E6| |].
    - eapply wf_edit; [done|exact HE|right; done|..]; cbn [CACHED DIRTY FILLING MAPPED set_CACHED c2]; rewrite ?E2, ?E3, ?E4; cbn; lia.
    - intros f. unfold plus. pose proof (occ_ge f [phys p]). destruct HO as (_ & H2 & _). specialize (H2 f). lia.
    - intros f _. cbn. rewrite W5, Q5. unfold plus. cbn. lia. }
  pose proof (published_nonzero p Hpub) as Hnz. split.
  - eapply moves_ext; [apply (minus_plus ext [phys p])|]. eapply moves_trans; [exact M|]. apply moves_free; [apply M|apply M|done| |].
    + unfold plus. cbn. rewrite Z.eqb_refl. cbn. destruct HO as (_ & H2 & _). specialize (H2 (phys p)). lia.
    + cbn. by rewrite E5.
  - exact E5.
  - intros k j. change (page_of k j (buddy_free (phys p) c2)) with (page_of k j (set_page key pg (Some q) c1)). rewrite page_of_set_page by (by apply (wf_ordered c) || by exists fe).
    change (page_of k j c1) with (page_of k j c). case_decide as E; [|destruct (page_of k j c); [by left|done]]. destruct E as [-> ->]. rewrite Hp. right. split; [|done]. split; [done|]. split; [done|right; lia].
  - cbn. unfold set_page. destruct (file key c1); cbn; lia.
  - exists [phys p]. split; [cbn; by rewrite E6|]. split; [done|]. constructor; [|done]. split; [done|]. split; [done|]. by exists key, pg, p.
Qed.

Lemma sweep_page_spec ext rf want spare key s e : wf (sw s) -> owned ext (sw s) -> page_of key e.1 (sw s) = Some e.2 -> (sw_freed s <= want)%nat ->
  let s' := sweep_page rf want spare key s e in
  sweeps ext (sw s) (sw_freed s' - sw_freed s) (sw s') /\ (sw_freed s <= sw_freed s' <= want)%nat /\ (files (sw s')).*1 = (files (sw s)).*1 /\
  forall k pg, (k, pg) <> (key, e.1) -> page_of k pg (sw s') = page_of k pg (sw s).
Proof.
  intros HW HO Hp Hw s'. unfold s', sweep_page. clear s'. destruct s as [c fr sn]. cbn [sw sw_freed sw_scanned] in *.
  assert (sweeps ext c (fr - fr) c /\ (fr <= fr <= want)%nat /\ (files c).*1 = (files c).*1 /\ forall k pg, (k, pg) <> (key, e.1) -> page_of k pg c = page_of k pg c) as Hid by (rewrite Nat.sub_diag; split; [by apply sweeps_refl|split; [lia|done]]).
  destruct ((want <=? fr)%nat || _) eqn:Ew; [exact Hid|]. apply orb_false_iff in Ew as [Ew%Nat.leb_gt _].
  destruct (negb (published e.2) || on (flags e.2) F_DIRTY) eqn:E1; [exact Hid|]. apply orb_false_iff in E1 as [Hpub%negb_false_iff Hd]. destruct (spare && _); [exact Hid|].
  destruct (negb rf || negb (PageRef.get (phys e.2) (frame_refs c) =? 1)) eqn:E2; [exact Hid|]. apply orb_false_iff in E2 as [_ Hr%negb_false_iff%Z.eqb_eq].
  set (fl := if on (flags e.2) F_MAPPED then clear F_MAPPED (flags e.2) else flags e.2).
  assert ((if on (flags e.2) F_MAPPED then (clear F_MAPPED (flags e.2), set_MAPPED (MAPPED c - 1) c) else (flags e.2, c)) = (fl, set_MAPPED (MAPPED c - w_mapped e.2) c)) as ->.
  { unfold fl. rewrite w_mapped_pub by done. destruct (on (flags e.2) F_MAPPED); [done|]. cbn. by rewrite Z.sub_0_r, set_MAPPED_id. }
  assert (on fl F_DIRTY = false /\ on fl F_MAPPED = false) as [Fd Fm].
  { unfold fl. destruct (on (flags e.2) F_MAPPED) eqn:Em; [|done]. split; [by rewrite on_clear_other|apply on_clear]. }
  set (c1 := set_MAPPED _ c). destruct (set_page_same key e.1 (Some (mkPage 0 (token e.2) (state e.2) fl)) c1) as (S1 & _). cbn [sw sw_freed]. rewrite S1. split; [|split; [lia|]].
  - replace (S fr - fr)%nat with 1%nat by lia. exact (empty_entry ext key e.1 e.2 fl c _ HW HO Hp Hpub Hd Hr Fd Fm eq_refl).
  - pose proof Hp as (fe & Hf & _)%page_of_Some. split.
    + cbn. unfold set_page. change (file key c1) with (file key c). rewrite Hf. cbn. apply bset_keys; [apply HW|by exists fe].
    + intros k pg Hne. etrans; [apply (page_of_files (set_page key e.1 (Some (mkPage 0 (token e.2) (state e.2) fl)) c1)); done|].
      rewrite page_of_set_page by (by apply (wf_ordered c) || by exists fe). rewrite decide_False; [done|]. intros [-> ->]. done.
Qed.

(** A fold of steps that each sweep. *)
Lemma sweep_fold {A} ext want (f : sweep -> A -> sweep) (ok : sweep -> A -> Prop) (l : list A) s :
  (forall s x, wf (sw s) -> owned ext (sw s) -> (sw_freed s <= want)%nat -> ok s x ->
     sweeps ext (sw s) (sw_freed (f s x) - sw_freed s) (sw (f s x)) /\ (sw_freed s <= sw_freed (f s x) <= want)%nat) ->
  (forall s x y, wf (sw s) -> owned ext (sw s) -> (sw_freed s <= want)%nat -> ok s x -> ok s y -> x <> y -> ok (f s x) y) -> NoDup l ->
  wf (sw s) -> owned ext (sw s) -> (sw_freed s <= want)%nat -> Forall (ok s) l ->
  sweeps ext (sw s) (sw_freed (foldl f s l) - sw_freed s) (sw (foldl f s l)) /\ (sw_freed s <= sw_freed (foldl f s l) <= want)%nat.
Proof.
  intros Hf Hok. revert s. induction l as [|x l IH]; intros s HN HW HO Hw Hl; cbn [foldl].
  - rewrite Nat.sub_diag. split; [by apply sweeps_refl|lia].
  - apply NoDup_cons in HN as [Hx HN]. apply Forall_cons in Hl as [H1 Hl]. destruct (Hf s x HW HO Hw H1) as [S1 S2]. pose proof (sp_moves _ _ _ _ S1) as M.
    destruct (IH (f s x) HN (mv_wf _ _ _ _ M) (mv_owned _ _ _ _ M) ltac:(lia)) as [I1 I2].
    { rewrite Forall_forall in Hl |- *. intros y Hy. apply Hok; [done|done|done|done|auto|]. intros ->. done. }
    split; [|lia]. replace (sw_freed (foldl f (f s x) l) - sw_freed s)%nat with ((sw_freed (f s x) - sw_freed s) + (sw_freed (foldl f (f s x) l) - sw_freed (f s x)))%nat by lia. by eapply sweeps_trans.
Qed.

Lemma sweep_file_spec ext rf want spare s key : wf (sw s) -> owned ext (sw s) -> (sw_freed s <= want)%nat ->
  let s' := sweep_file rf want spare s key in
  sweeps ext (sw s) (sw_freed s' - sw_freed s) (sw s') /\ (sw_freed s <= sw_freed s' <= want)%nat.
Proof.
  intros HW HO Hw s'. unfold s', sweep_file. assert (sweeps ext (sw s) (sw_freed s - sw_freed s) (sw s) /\ (sw_freed s <= sw_freed s <= want)%nat) as Hid by (rewrite Nat.sub_diag; split; [by apply sweeps_refl|lia]).
  destruct (want <=? sw_freed s)%nat; [done|]. destruct (file key (sw s)) as [fe|] eqn:Hf; [|done]. destruct (part_of_pages key fe (sw s) HW Hf) as [HN Hps].
  apply (sweep_fold ext want _ (fun s e => page_of key e.1 (sw s) = Some e.2)); [| |by eapply NoDup_fmap_1|done|done|done|by apply Forall_forall].
  - intros s0 e HW0 HO0 Hw0 He. destruct (sweep_page_spec ext rf want spare key s0 e HW0 HO0 He Hw0) as (H1 & H2 & _). done.
  - intros s0 e e' HW0 HO0 Hw0 He He' Hne. destruct (sweep_page_spec ext rf want spare key s0 e HW0 HO0 He Hw0) as (_ & _ & _ & H4). rewrite H4; [done|].
    intros [= E]. apply Hne. destruct e as [a b], e' as [a' b']. cbn in *. subst a'. rewrite He in He'. by injection He' as ->.
Qed.

Lemma sweep_pass_spec ext rf want skip s pass : wf (sw s) -> owned ext (sw s) -> (sw_freed s <= want)%nat ->
  let s' := sweep_pass rf want skip s pass in
  sweeps ext (sw s) (sw_freed s' - sw_freed s) (sw s') /\ (sw_freed s <= sw_freed s' <= want)%nat.
Proof.
  intros HW HO Hw s'. unfold s', sweep_pass. destruct (want <=? sw_freed s)%nat; [rewrite Nat.sub_diag; split; [by apply sweeps_refl|lia]|].
  apply (sweep_fold ext want _ (fun _ _ => True)); [|done| |done|done|done|by apply Forall_forall].
  - intros s0 key HW0 HO0 Hw0 _. by apply sweep_file_spec.
  - assert (NoDup (take skip (files (sw s)).*1 ++ drop skip (files (sw s)).*1)) as (H1 & _ & H2)%NoDup_app by (rewrite take_drop; apply sorted_keys_nodup, HW). by destruct (Nat.even pass).
Qed.

Lemma foldl_invariant {A B} (P : A -> Prop) (f : A -> B -> A) l a : P a -> (forall a b, P a -> P (f a b)) -> P (foldl f a l).
Proof. intros Ha Hf. revert a Ha. induction l as [|b l IH]; intros a Ha; [done|]. cbn. auto. Qed.

(** With the table of references held elsewhere nothing is freed. *)
Lemma sweep_pass_busy want skip s pass : sw_freed (sweep_pass false want skip s pass) = sw_freed s.
Proof.
  unfold sweep_pass. destruct (_ <=? _)%nat; [done|]. apply (foldl_invariant (fun s' => sw_freed s' = sw_freed s)); [done|]. intros s1 key H1. unfold sweep_file.
  destruct (_ <=? _)%nat; [done|]. destruct (file key (sw s1)) as [fe|]; [|done]. apply (foldl_invariant (fun s' => sw_freed s' = sw_freed s)); [done|]. intros s2 e H2. unfold sweep_page.
  destruct (_ || _); [done|]. destruct (_ || _); [done|]. destruct (_ && _); done.
Qed.

Lemma emergency_locked_spec ext refs_free want c : wf c -> owned ext c ->
  let '(n, c') := emergency_locked refs_free want c in (n <= want)%nat /\ sweeps ext c n c' /\ (refs_free = false -> n = 0%nat).
Proof.
  intros HW HO. unfold emergency_locked. set (skip := Z.to_nat _). set (c1 := set_EMERGENCY_HAND _ c).
  assert (sweeps ext c 0 c1) as S0.
  { split; [apply moves_same; [done|done|by eapply wf_same|done..]|done|exact (swept_refl _ c)|cbn; lia|]. exists []. by rewrite app_nil_r. }
  destruct (sweep_fold ext want (sweep_pass refs_free want skip) (fun _ _ => True) (seq 0 4) (mkSweep c1 0 0)) as [S1 S2];
    [intros s x HW1 HO1 Hw1 _; by apply sweep_pass_spec|done|apply NoDup_seq|apply S0|apply S0|cbn; lia|by apply Forall_forall|].
  set (s := foldl _ _ _) in *. cbn [sw sw_freed] in S1, S2. rewrite Nat.sub_0_r in S1. split; [lia|]. split.
  - exact (sweeps_trans _ _ _ _ _ _ S0 S1).
  - intros ->. apply (foldl_invariant (fun s => sw_freed s = 0%nat)); [done|]. intros s0 pass Hs0. by rewrite sweep_pass_busy.
Qed.

Lemma emergency_sweeps ext cache_free refs_free want c : wf c -> owned ext c ->
  let '(n, c') := emergency_reclaim cache_free refs_free want c in
  (n <= want)%nat /\ sweeps ext c n c' /\ (cache_free && refs_free = false -> n = 0%nat).
Proof.
  intros HW HO. unfold emergency_reclaim. destruct (cached_pages c =? 0); [split; [lia|split; [by apply sweeps_refl|done]]|].
  destruct cache_free; cbn [negb andb]; [|split; [lia|split; [by apply sweeps_refl|done]]]. pose proof (emergency_locked_spec ext refs_free want c HW HO) as E.
  destruct (emergency_locked refs_free want c) as [n c']. destruct E as (E1 & [M R1 R2 R3 R4] & E3). split; [done|]. split; [|done].
  split; [|done|exact R2|done|done]. eapply moves_trans; [exact M|]. apply moves_holes; apply M.
Qed.

(** [emergency_reclaim], the allocator's last resort, frees at most as many
    frames as asked, all of them of clean pages the cache alone refers to; it
    touches no other page, removes no entry, and keeps counters and ownership exact.
    With a lock it needs held elsewhere it frees nothing. *)
Theorem emergency_reclaim_spec ext cache_free refs_free want c : wf c -> owned ext c ->
  let '(n, c') := emergency_reclaim cache_free refs_free want c in
  (n <= want)%nat /\ sweeps ext c n c' /\ (cache_free && refs_free = false -> n = 0%nat).
Proof. apply emergency_sweeps. Qed.
