(* ===== verification/PageCacheSteps.v ===== *)
(** * The page cache as a transition system

    A [step] is a call of the cache's interface by any caller, with the frames the
    callers own beside the cache; [step_alloc] is the buddy allocator handing a
    frame to a caller.  A call that does more than its one section under the lock
    is also given section by section (the second group of constructors): whatever
    other callers do may come in between.  By induction over the steps: what the
    counters are in every reachable state, and that a frame is given back only when
    nobody owns it. *)
From S2P Require Import Prelude BTree PageSites PageRef PageCache PageCacheInv PageCacheOps PageCacheWrite PageCacheReclaim.
#[local] Open Scope Z_scope.
Import Cache.

(** A system that has not cached anything. *)
Definition init (total free : Z) : t := mkCache [] (0, 0) 1 0 0 0 0 0 0 0 true 0 total ∅ free [] [].

Inductive step : (Z -> Z) * t -> (Z -> Z) * t -> Prop :=
  | step_alloc ext c f : f <> 0 -> unowned ext c f -> PageRef.get f (frame_refs c) = 1 -> step (ext, c) (plus ext [f], c)
  | step_configure ext c b mb : step (ext, c) (ext, configure b mb c)
  | step_set_size ext c key sz : step (ext, c) (ext, set_size key sz c)
  | step_note_size ext c key sz : step (ext, c) (ext, note_size key sz c)
  | step_note_ctime ext c key : step (ext, c) (ext, note_ctime key c)
  | step_atime_checked ext c key now : step (ext, c) (ext, atime_checked key now c)
  | step_set_orphan ext c key : step (ext, c) (ext, set_orphan key c)
  | step_drop_file ext c key : step (ext, c) (ext, drop_file key c)
  | step_key_get ext c key : step (ext, c) (ext, key_get key c)
  | step_key_put ext c key : step (ext, c) (ext, key_put key c)
  | step_pin_run ext c key pg len : room len c -> step (ext, c) (plus ext (pinned_frames (pin_run key pg len c).1), (pin_run key pg len c).2)
  | step_unpin ext c l : (forall f, occ f l <= ext f) -> Forall (fun f => f <> 0) l -> step (ext, c) (minus ext l, unpin l c)
  | step_ra_window ext c key pg req mx : step (ext, c) (ext, (ra_window key pg req mx c).2)
  | step_begin_fill ext c key pg want : step (ext, c) (ext, (begin_fill key pg want c).2)
  | step_end_fill ext c key tok pg frames valid : Forall (fun f => f <> 0) frames -> (forall f, occ f frames <= ext f) ->
      (forall f, f ∈ frames -> PageRef.get f (frame_refs c) = 1) -> step (ext, c) (minus ext frames, (end_fill key tok pg frames valid c).2)
  | step_abort_fill ext c key tok pg n : step (ext, c) (ext, abort_fill key tok pg n c)
  | step_lookup ext c key pg exec : room 1 c -> step (ext, c) (plus ext (option_list (lookup key pg exec c).1), (lookup key pg exec c).2)
  | step_mark_dirty ext c key pg ph : ph <> 0 -> step (ext, c) (ext, (mark_dirty key pg ph c).2)
  | step_take_dirty ext c lo hi mt mx l : room mx c -> (take_dirty lo hi mt mx [] c).1 = l -> step (ext, c) (plus ext (d_phys <$> l), (take_dirty lo hi mt mx [] c).2)
  | step_writeback ext c d ok : d_phys d <> 0 -> 0 < ext (d_phys d) -> step (ext, c) (minus ext [d_phys d], writeback_done d ok c)
  | step_wt_pin ext c key pos len : 0 <= pos -> 0 < len -> pos + len <= 2 ^ 64 -> (forall fe, file key c = Some fe -> room (length (pages fe)) c) ->
      step (ext, c) (plus ext (n_phys <$> (wt_pin key pos len c).1), (wt_pin key pos len c).2)
  | step_wt_done ext c pins : (forall f, occ f (n_phys <$> pins) <= ext f) -> Forall (fun f => f <> 0) (n_phys <$> pins) -> step (ext, c) (minus ext (n_phys <$> pins), wt_done pins c)
  | step_extend ext c key from upto : 0 <= from -> step (ext, c) (ext, extend key from upto c)
  | step_truncate ext c key sz : 0 <= sz -> sz + PAGE_SIZE <= 2 ^ 64 -> step (ext, c) (ext, truncate key sz c)
  | step_make_room ext c n ok : step (ext, c) (ext, (make_room n ok c).2)
  | step_maybe_reclaim ext c : step (ext, c) (ext, maybe_reclaim c)
  | step_reclaim ext c want : step (ext, c) (ext, (reclaim_pages want c).2)
  | step_emergency ext c cf rf want : step (ext, c) (ext, (emergency_reclaim cf rf want c).2)
  | step_purge ext c : step (ext, c) (ext, purge c)
  (* the sections of the calls that release the lock before they are done *)
  | step_end_fill_locked ext c key tok pg frames valid : Forall (fun f => f <> 0) frames -> (forall f, occ f frames <= ext f) ->
      step (ext, c) (plus (minus ext frames) (end_fill_locked key tok pg frames valid c).1, (end_fill_locked key tok pg frames valid c).2)
  | step_count_published ext c n : 0 <= n <= uncounted c -> step (ext, c) (ext, count_published n c)
  | step_free ext c f : f <> 0 -> 0 < ext f -> PageRef.get f (frame_refs c) = 1 -> step (ext, c) (minus ext [f], buddy_free f c)
  | step_reclaim_round ext c need frames n c' : (0 < need)%nat -> reclaim_round need c = (frames, n, c') -> step (ext, c) (plus ext frames, c')
  | step_sweep ext c rf want : step (ext, c) (ext, (emergency_locked rf want c).2)
  | step_drop_file_locked ext c key : step (ext, c) (plus ext (drop_file_locked key c).1, (drop_file_locked key c).2)
  | step_truncate_locked ext c key sz : 0 <= sz -> sz + PAGE_SIZE <= 2 ^ 64 -> step (ext, c) (plus ext (truncate_locked key sz c).1, (truncate_locked key sz c).2)
  | step_key_put_locked ext c key : step (ext, c) (ext, (key_put_locked key c).2)
  | step_writeback_locked ext c d ok : d_phys d <> 0 -> step (ext, c) (ext, writeback_locked d ok c)
  | step_holes ext c n : step (ext, c) (ext, set_HOLES n c)
  | step_purge_locked ext c : step (ext, c) (ext, purge_locked c).

Definition good (s : (Z -> Z) * t) : Prop := wf s.2 /\ owned s.1 s.2.

(** ** Reclaim as one move *)
Lemma reclaims_pages ext want c : wf c -> owned ext c -> reclaims ext c (reclaim_pages want c).1 (reclaim_pages want c).2.
Proof.
  intros HW HO. unfold reclaim_pages. pose proof (reclaim_loop_spec ext (Z.to_nat (scan_budget c)) want 0 (scan_budget c) c HW HO ltac:(lia)) as R.
  destruct (reclaim_loop _ _ _ _ c) as [n c']. destruct R as [_ R]. by rewrite Nat.sub_0_r in R.
Qed.

(** [make_room] and [maybe_reclaim] do nothing to the index but reclaim. *)
Lemma reclaims_make_room ext n ok c : wf c -> owned ext c -> exists k, reclaims ext c k (make_room n ok c).2.
Proof.
  intros HW HO. assert (forall (b : bool) want c, wf c -> owned ext c -> exists k, reclaims ext c k (if b then (reclaim_pages want c).2 else c)) as Hr.
  { intros [] want c0 HW0 HO0; [eexists; by apply reclaims_pages|exists 0%nat; by apply reclaims_refl]. }
  unfold make_room. set (cached := wrap64 (cached_pages c + FILLING c)). destruct (Hr (cap_pages c <? wrap64 (cached + n)) (Z.to_nat (wrap64 (cached + n - cap_pages c + 64))) c HW HO) as [k1 R1].
  set (c1 := if cap_pages c <? wrap64 (cached + n) then (reclaim_pages (Z.to_nat (wrap64 (cached + n - cap_pages c + 64))) c).2 else c) in *.
  pose proof (rc_moves _ _ _ _ R1) as M1. cbn [watermarks]. set (want2 := Z.to_nat (Z.max 0 (total_pages c1 / 6 + n - free_pages c1))).
  destruct (Hr (free_pages c1 <? total_pages c1 / 8 + n) want2 c1 (mv_wf _ _ _ _ M1) (mv_owned _ _ _ _ M1)) as [k2 R2]. pose proof (reclaims_trans _ _ _ _ _ _ R1 R2) as R.
  set (c2 := if free_pages c1 <? total_pages c1 / 8 + n then (reclaim_pages want2 c1).2 else c1) in *. exists (k1 + k2)%nat. destruct ok; [exact R|]. destruct (free_pages c2 <? hard_floor c2 + n); exact R.
Qed.

Lemma reclaims_maybe ext c : wf c -> owned ext c -> exists k, reclaims ext c k (maybe_reclaim c).
Proof.
  intros HW HO. unfold maybe_reclaim. cbn [watermarks]. destruct (cached_pages c =? 0); [exists 0%nat; by apply reclaims_refl|]. 
  destruct (_ =? 0); [exists 0%nat; by apply reclaims_refl|]. eexists. by apply reclaims_pages.
Qed.

(** ** Every step *)
Lemma alloc_owned ext c f : owned ext c -> unowned ext c f -> PageRef.get f (frame_refs c) = 1 -> owned (plus ext [f]) c.
Proof.
  intros (H1 & H2 & H3) [U1 U2] Hg. split; [done|]. unfold plus. cbn. split.
  - intros g. specialize (H2 g). pose proof (b2z_range (f =? g)). lia.
  - intros g Hg0. specialize (H3 g Hg0). destruct (Z.eqb_spec f g) as [<-|]; cbn; lia.
Qed.

(** What a step leaves: the invariant, and released frames nobody owns. *)
Record advance (s s' : (Z -> Z) * t) : Prop := {
  ad_good : good s';
  ad_uncounted : 0 <= uncounted s.2 -> 0 <= uncounted s'.2;
  ad_rel : exists rel, released s'.2 = released s.2 ++ rel /\ Forall (fun f => f <> 0 /\ unowned s'.1 s'.2 f) rel }.

Lemma moves_advance ext c ext' c' : moves ext c ext' c' -> advance (ext, c) (ext', c').
Proof. intros [H1 H2 H3 _ H5]. split; [by split|cbn; lia|exact H5]. Qed.

Lemma kept_advance ext c ext' c' : wf c' -> owned ext' c' -> (0 <= uncounted c -> 0 <= uncounted c') -> released c' = released c -> advance (ext, c) (ext', c').
Proof. intros H1 H2 H3 H4. split; [by split|done|]. exists []. cbn. by rewrite H4, app_nil_r. Qed.

(** The section of [end_fill] under the lock. *)
Lemma end_fill_locked_advance ext key tok pg frames valid c : wf c -> owned ext c -> Forall (fun f => f <> 0) frames -> (forall f, occ f frames <= ext f) ->
  advance (ext, c) (plus (minus ext frames) (end_fill_locked key tok pg frames valid c).1, (end_fill_locked key tok pg frames valid c).2).
Proof.
  intros HW HO H1 H2. pose proof (end_fill_locked_spec ext key tok pg frames valid c HW HO H1 H2) as L.
  destruct (end_fill_locked key tok pg frames valid c) as [freed c']. cbn [fst snd]. destruct L as ([L1 L2 L3 _ (rel & L4 & L5)] & _). split.
  - split; [by apply wf_count in L1|exact L2].
  - cbn in *. lia.
  - exists rel. split; [exact L4|exact L5].
Qed.

Lemma count_advance ext n c : wf c -> owned ext c -> 0 <= n <= uncounted c -> advance (ext, c) (ext, count_published n c).
Proof. intros HW HO Hn. apply kept_advance; [by apply wf_count|exact HO|cbn; lia|done]. Qed.

Lemma step_advance s s' : step s s' -> good s -> advance s s'.
Proof.
  intros [] [HW HO]; cbn [fst snd] in *; [apply kept_advance; [done|by apply alloc_owned|done|done]|
    try (by apply end_fill_locked_advance); try (by apply count_advance); apply moves_advance..].
  - unfold configure. destruct mb; (apply moves_same; [done|done|by eapply wf_same|done..]).
  - by apply moves_set_size.
  - by apply moves_note_size.
  - by apply moves_with_file.
  - by apply moves_with_file.
  - by apply moves_with_file.
  - by apply drop_file_moves.
  - by apply moves_key_get.
  - by apply moves_key_put.
  - by apply moves_pin_run.
  - by apply moves_unref_all.
  - by apply moves_ra_window.
  - pose proof (begin_fill_spec ext key pg want c HW HO) as B. destruct (begin_fill key pg want c). apply B.
  - by apply end_fill_spec.
  - by apply moves_abort_fill.
  - by apply moves_lookup.
  - by apply moves_mark_dirty.
  - destruct (take_dirty_spec ext lo hi mt mx [] c HW HO H ltac:(cbn; lia)) as (l' & E & _ & M & _). rewrite app_nil_l in E. congruence.
  - by apply moves_writeback_done.
  - by apply wt_pin_spec.
  - by apply moves_unref_all.
  - by apply extend_spec.
  - by apply truncate_moves.
  - destruct (reclaims_make_room ext n ok c HW HO) as [k R]. apply R.
  - destruct (reclaims_maybe ext c HW HO) as [k R]. apply R.
  - by eapply rc_moves, reclaims_pages.
  - pose proof (emergency_sweeps ext cf rf want c HW HO) as S. destruct (emergency_reclaim cf rf want c). apply S.
  - by apply moves_purge.
  - by apply moves_free.
  - pose proof (reclaim_round_locked ext need c HW HO H) as R. rewrite H0 in R. apply R.
  - pose proof (emergency_locked_spec ext rf want c HW HO) as S. destruct (emergency_locked rf want c). apply S.
  - pose proof (drop_file_locked_spec ext key c HW HO) as D. destruct (drop_file_locked key c). apply D.
  - pose proof (truncate_locked_spec ext key sz c HW HO H H0) as T. destruct (truncate_locked key sz c). apply T.
  - by apply moves_key_put_locked.
  - by apply moves_writeback.
  - by apply moves_holes.
  - by apply moves_purge_locked.
Qed.

Lemma init_good total free : good (fun _ => 0, init total free).
Proof.
  split; [by split|]. split; [apply map_Forall_empty|]. split; [done|]. intros f _. cbn. unfold PageRef.get. rewrite lookup_empty. cbn. lia.
Qed.

Lemma step_good s s' : step s s' -> good s -> good s'.
Proof. intros Hs Hg. by apply (step_advance s s'). Qed.

Lemma steps_good s s' : rtc step s s' -> good s -> 0 <= uncounted s.2 -> good s' /\ 0 <= uncounted s'.2.
Proof. induction 1 as [|s s1 s' Hs _ IH]; [done|]. intros Hg Hu. destruct (step_advance s s1 Hs Hg) as [A1 A2 _]. auto. Qed.

(** C26: Whatever calls are made, in whatever order and with whatever others running
    where a call has released the lock, the counters of the page cache are these.
    [DIRTY], [FILLING] and [MAPPED] are the numbers of dirty, filling and mapped
    entries, so they never go below zero.  [CACHED] is the number of published
    entries less the pages that calls of [end_fill] have published and not yet
    added, modulo 2^64: it is exact when no such call is unfinished, and only then
    sure not to have wrapped.  Every frame has at least as many references as
    owners, and a step returns to the buddy allocator only frames that nobody owns
    after it. *)
Theorem cache_reachable total_pages free s s' :
  rtc step (fun _ => 0, init total_pages free) s -> step s s' ->
  DIRTY s.2 = total w_dirty s.2 /\ FILLING s.2 = total w_fill s.2 /\ MAPPED s.2 = total w_mapped s.2 /\
  0 <= uncounted s.2 /\ cached_pages s.2 = (total w_pub s.2 - uncounted s.2) mod 2 ^ 64 /\
  (uncounted s.2 = 0 -> total w_pub s.2 < 2 ^ 64 -> cached_pages s.2 = total w_pub s.2) /\
  wf s.2 /\ owned s.1 s.2 /\ exists rel, released s'.2 = released s.2 ++ rel /\ Forall (fun f => f <> 0 /\ unowned s'.1 s'.2 f) rel.
Proof.
  intros Hr Hs. destruct (steps_good _ _ Hr (init_good total_pages free) ltac:(done)) as [[HW HO] Hu]. pose proof (wf_CACHED _ HW) as HC.
  split_and!; [apply HW..|done| | |done|done|by apply (step_advance s s' Hs)].
  - unfold cached_pages, wrap64. f_equal. lia.
  - intros H0 Hlt. unfold cached_pages, wrap64. rewrite Z.mod_small; [lia|]. pose proof (total_ge w_pub s.2 ltac:(intros p; apply b2z_range)). lia.
Qed.
