(* ===== verification/PageCacheFill.v ===== *)
(** * The page cache: fills and writes that cross

    A fill reads the file with no lock held between [begin_fill] and [end_fill].
    A write, truncation, extension or drop of the file in between dooms the
    placeholders it meets.  The theorem follows a placeholder through any calls
    made meanwhile: once doomed, the fill can only discard the page. *)
From S2P Require Import Prelude BTree PageSites PageRef PageCache PageCacheInv PageCacheOps PageCacheWrite PageCacheReclaim PageCacheSteps.
#[local] Open Scope Z_scope.
Import Cache.

(** A placeholder of [tok] in [c'] was one in [c], and is doomed if it was. *)
Definition fill_mono (tok : Z) (c c' : t) : Prop := forall k pg p',
  page_of k pg c' = Some p' -> filling p' = true -> token p' = tok ->
  exists p, page_of k pg c = Some p /\ filling p = true /\ token p = tok /\ (on (flags p) F_STALE = true -> on (flags p') F_STALE = true).

(** The fill [tok] will not publish page [pg]. *)
Definition dead (tok key pg : Z) (c : t) : Prop := forall p,
  page_of key pg c = Some p -> filling p = true -> token p = tok -> on (flags p) F_STALE = true.

Lemma dead_mono tok key pg c c' : fill_mono tok c c' -> dead tok key pg c -> dead tok key pg c'.
Proof. intros HM HD p' H1 H2 H3. destruct (HM key pg p' H1 H2 H3) as (p & P1 & P2 & P3 & P4). apply P4, (HD p); done. Qed.

Lemma fill_mono_trans tok c1 c2 c3 : fill_mono tok c1 c2 -> fill_mono tok c2 c3 -> fill_mono tok c1 c3.
Proof.
  intros H1 H2 k pg p' A1 A2 A3. destruct (H2 k pg p' A1 A2 A3) as (p & B1 & B2 & B3 & B4). destruct (H1 k pg p B1 B2 B3) as (q & C1 & C2 & C3 & C4). exists q. split_and!; auto.
Qed.

(** An entry's successor, for one entry. *)
Definition succeeds (tok : Z) (o o' : option Page) : Prop := forall p',
  o' = Some p' -> filling p' = true -> token p' = tok -> exists p, o = Some p /\ filling p = true /\ token p = tok /\ (on (flags p) F_STALE = true -> on (flags p') F_STALE = true).

Lemma succeeds_refl tok o : succeeds tok o o.
Proof. intros p' -> H1 H2. by exists p'. Qed.

Lemma succeeds_none tok o : succeeds tok o None.
Proof. by intros p'. Qed.

Lemma succeeds_settled tok o p : filling p = false -> succeeds tok o (Some p).
Proof. intros H p' [= <-] H'. congruence. Qed.

Lemma succeeds_doomed tok o : succeeds tok o (doomed <$> o).
Proof.
  destruct o as [p|]; [|by intros ?]. intros p' [= <-] H1 H2. unfold doomed in *. exists p. destruct (filling p) eqn:E; [|congruence]. split_and!; try done.
  intros _. cbn. rewrite on_raise. by rewrite orb_true_r.
Qed.

Lemma succeeds_hinted tok p p' : hinted p p' -> succeeds tok (Some p) (Some p').
Proof.
  intros H q [= <-] H1 H2. exists p. unfold filling in *. rewrite (hi_state _ _ H) in H1. rewrite (hi_token _ _ H) in H2. split_and!; try done. rewrite (hi_flags _ _ H) by done. done.
Qed.

Lemma mono_of tok c c' : (forall k pg, succeeds tok (page_of k pg c) (page_of k pg c')) -> fill_mono tok c c'.
Proof. intros H k pg p' H1 H2 H3. by apply (H k pg p'). Qed.

Lemma mono_eq tok c c' : (forall k pg, page_of k pg c' = page_of k pg c) -> fill_mono tok c c'.
Proof. intros H. apply mono_of. intros k pg. rewrite H. apply succeeds_refl. Qed.

Lemma mono_files tok c c' : files c' = files c -> fill_mono tok c c'.
Proof. intros H. apply mono_eq. intros k pg. by apply page_of_files. Qed.

Lemma mono_set_page tok key pg o c : ordered c -> succeeds tok (page_of key pg c) o -> fill_mono tok c (set_page key pg o c).
Proof.
  intros Hix Ho. apply mono_of. intros k j. destruct (file key c) as [fe|] eqn:Hf.
  - rewrite page_of_set_page by (done || by exists fe). case_decide as E; [destruct E as [-> ->]; done|apply succeeds_refl].
  - unfold set_page. rewrite Hf. apply succeeds_refl.
Qed.

Lemma mono_meta tok key fe' c : ordered c -> pages fe' = pages_of_file (file key c) -> fill_mono tok c (set_file key (Some fe') c).
Proof.
  intros [HS _] Hp. apply mono_eq. intros k pg. unfold page_of. rewrite file_set_file by done. case_decide; [|done]. subst k. cbn. rewrite Hp. by destruct (file key c).
Qed.

Lemma mono_with_file tok key g c : ordered c -> (forall fe, pages (g fe) = pages fe) -> fill_mono tok c (with_file key g c).
Proof. intros Hix Hg. apply mono_eq. intros k pg. by apply with_file_page_of. Qed.

Lemma mono_default tok key g c : ordered c -> (forall fe, pages (g fe) = pages fe) -> fill_mono tok c (set_file key (Some (g (default new_file (file key c)))) c).
Proof. intros Hix Hg. apply mono_meta; [done|]. rewrite Hg. by destruct (file key c). Qed.

Lemma mono_reclaimed tok r c c' : reclaimed r c c' -> fill_mono tok c c'.
Proof.
  intros H. apply mono_of. intros k pg. specialize (H k pg). destruct (page_of k pg c) as [p|]; [|rewrite H; apply succeeds_none].
  destruct (page_of k pg c') as [p'|]; [by apply succeeds_hinted|apply succeeds_none].
Qed.

Lemma mono_swept tok r c c' : swept r c c' -> fill_mono tok c c'.
Proof.
  intros H. apply mono_of. intros k pg. specialize (H k pg). destruct (page_of k pg c) as [p|], (page_of k pg c') as [p'|]; try done; try apply succeeds_none.
  destruct H as [->|(_ & _ & Hs)]; [apply succeeds_refl|]. apply succeeds_settled. unfold filling. by rewrite Hs.
Qed.

Lemma published_settled p f : published p = true -> filling (Cache.set_flags f p) = false.
Proof. unfold published, filling. cbn. rewrite andb_true_iff, Z.eqb_eq. by intros [-> _]. Qed.

(** ** One lemma per kind of call *)
Lemma mono_unref_all tok l c c' : fill_mono tok c c' -> fill_mono tok c (unref_all l c').
Proof. intros H. eapply fill_mono_trans; [exact H|]. apply mono_files, unref_all_files. Qed.

Lemma mono_drop_file_locked tok ext key c : wf c -> owned ext c -> fill_mono tok c (drop_file_locked key c).2.
Proof.
  intros HW HO. pose proof (drop_file_locked_spec ext key c HW HO) as D. destruct (drop_file_locked key c) as [gone c']. destruct D as [_ H].
  apply mono_of. intros k pg. unfold page_of. cbn [snd]. rewrite H. destruct (decide (k = key /\ key <> 0)); [apply succeeds_none|apply succeeds_refl].
Qed.

Lemma mono_drop_file tok ext key c : wf c -> owned ext c -> fill_mono tok c (drop_file key c).
Proof. intros HW HO. unfold drop_file. pose proof (mono_drop_file_locked tok ext key c HW HO) as H. destruct (drop_file_locked key c). by apply mono_unref_all. Qed.

Lemma mono_key_put_locked tok key c : wf c -> fill_mono tok c (key_put_locked key c).2.
Proof. intros HW. unfold key_put_locked. destruct (file key c) as [fe|] eqn:Hf; [|by apply mono_files]. apply mono_meta; [by apply wf_ordered|by rewrite Hf]. Qed.

Lemma mono_key_put tok ext key c : wf c -> owned ext c -> fill_mono tok c (key_put key c).
Proof.
  intros HW HO. unfold key_put. destruct (key =? 0); [by apply mono_files|]. pose proof (mono_key_put_locked tok key c HW) as H1. pose proof (moves_key_put_locked ext key c HW HO) as M.
  destruct (key_put_locked key c) as [last c1]. cbn [snd] in *. destruct (_ && _); [|done]. eapply fill_mono_trans; [exact H1|]. eapply mono_drop_file; apply M.
Qed.

Lemma mono_pin_run tok ext key pgoff len c : wf c -> owned ext c -> fill_mono tok c (pin_run key pgoff len c).2.
Proof.
  intros HW HO. unfold pin_run. destruct (file key c) as [fe|] eqn:Hf; [|by apply mono_files].
  destruct (run_part key pgoff len (range pgoff (pages fe)) c (part_of_range key pgoff fe c HW Hf)) as [Hpart _].
  destruct (run pgoff len (range pgoff (pages fe))) as [|e0 ps0] eqn:Erun; [by apply mono_files|]. rewrite <- Erun in *.
  destruct (flag_all_spec ext key (fun p => raise F_REF (flags p)) _ c HW HO ltac:(by apply keeps_raise) (proj1 Hpart) (proj2 Hpart)) as (_ & _ & _ & Hpo).
  apply mono_of. intros k pg. cbn [snd]. match goal with |- succeeds _ _ (page_of k pg (pin _ ?x)) => change (page_of k pg (pin _ x)) with (page_of k pg x) end.
  unfold flag_all in Hpo. rewrite Hpo. case_decide as E; [destruct E as [-> _]|apply succeeds_refl].
  destruct (page_of key pg c) as [p|]; [|apply succeeds_none]. apply succeeds_hinted, hinted_raise. by left.
Qed.

Lemma mono_begin_fill tok ext key pgoff want c : wf c -> owned ext c -> next_token c <> tok -> fill_mono tok c (begin_fill key pgoff want c).2.
Proof.
  intros HW HO Ht. pose proof (begin_fill_spec ext key pgoff want c HW HO) as B. destruct (begin_fill key pgoff want c) as [[[tok' n]|] c']; cbn [snd]; [|by apply mono_eq, B].
  destruct B as (_ & _ & -> & _ & B & _). apply mono_of. intros k pg. rewrite B. case_decide; [|apply succeeds_refl]. intros p' [= <-] _ E. done.
Qed.

Lemma mono_end_fill_locked tok ext key tok' pgoff frames valid c : wf c -> owned ext c -> Forall (fun f => f <> 0) frames -> (forall f, occ f frames <= ext f) ->
  fill_mono tok c (end_fill_locked key tok' pgoff frames valid c).2.
Proof.
  intros HW HO H1 H2. pose proof (end_fill_locked_spec ext key tok' pgoff frames valid c HW HO H1 H2) as L. destruct (end_fill_locked key tok' pgoff frames valid c) as [freed c'].
  destruct L as (_ & _ & _ & B). apply mono_of. intros k pg. cbn [snd]. rewrite B. case_decide as E; [destruct E as [-> _]|apply succeeds_refl].
  unfold after_fill. destruct (ours _ _); [|apply succeeds_refl]. destruct (page_of key pg c) as [p|]; [|apply succeeds_none]. destruct (_ || _); [apply succeeds_none|by apply succeeds_settled].
Qed.

Lemma mono_end_fill tok ext key tok' pgoff frames valid c : wf c -> owned ext c -> Forall (fun f => f <> 0) frames -> (forall f, occ f frames <= ext f) ->
  fill_mono tok c (end_fill key tok' pgoff frames valid c).2.
Proof.
  intros HW HO H1 H2. unfold end_fill. pose proof (mono_end_fill_locked tok ext key tok' pgoff frames valid c HW HO H1 H2) as H. destruct (end_fill_locked key tok' pgoff frames valid c) as [freed c'].
  eapply fill_mono_trans; [exact H|]. apply mono_files. cbn [snd]. by rewrite (proj1 (free_all_files freed _)).
Qed.

Lemma mono_abort_fill tok ext key tok' pgoff n c : wf c -> owned ext c -> fill_mono tok c (abort_fill key tok' pgoff n c).
Proof.
  intros HW HO. unfold abort_fill. generalize (seq 0 n). intros l. revert c HW HO. induction l as [|i l IH]; intros c HW HO; [by apply mono_files|]. cbn [foldl].
  destruct (page_of key (pgoff + Z.of_nat i) c) as [p|] eqn:Ep; cbn [ours]; [|by apply IH]. destruct (filling p && (token p =? tok')) eqn:Eo; [|by apply IH]. apply andb_true_iff in Eo as [Ef _].
  pose proof (moves_drop_filling ext key _ p c HW HO Ep Ef) as M. eapply fill_mono_trans; [|apply IH; apply M].
  apply (fill_mono_trans _ _ (set_page key (pgoff + Z.of_nat i) None c)); [|by apply mono_files]. apply mono_set_page; [by apply wf_ordered|apply succeeds_none].
Qed.

Lemma mono_lookup tok key pg exec c : wf c -> fill_mono tok c (lookup key pg exec c).2.
Proof.
  intros HW. unfold lookup. destruct (key =? 0); [by apply mono_files|]. destruct (page_of key pg c) as [p|] eqn:Ep; [|by apply mono_files]. destruct (published p) eqn:Eb; cbn [negb]; [|by apply mono_files].
  cbn [snd]. set (c1 := if on (flags p) F_MAPPED then c else _). apply (fill_mono_trans _ _ c1); [apply mono_files; unfold c1; by destruct (on (flags p) F_MAPPED)|].
  set (c2 := set_page key pg _ c1). apply (fill_mono_trans _ _ c2); [|by apply mono_files]. apply mono_set_page; [unfold c1; destruct (on (flags p) F_MAPPED); by apply (wf_ordered c)|].
  by apply succeeds_settled, published_settled.
Qed.

(** The page changes in its flags only, and is not a placeholder; [ndirty] may change after it. *)
Lemma mono_flag_dirty tok key pg p f g c c' : wf c -> page_of key pg c = Some p -> filling p = false ->
  files c' = files (with_file key g (set_page key pg (Some (Cache.set_flags f p)) c)) -> (forall fe, pages (g fe) = pages fe) -> fill_mono tok c c'.
Proof.
  intros HW Hp Hf E Hg. apply (fill_mono_trans _ _ (set_page key pg (Some (Cache.set_flags f p)) c)).
  - apply mono_set_page; [by apply wf_ordered|]. by apply succeeds_settled.
  - eapply fill_mono_trans; [apply (mono_with_file tok key g)|by apply mono_files]; [by apply ordered_set_page, wf_ordered|done].
Qed.

Lemma mono_mark_dirty tok key pg ph c : wf c -> fill_mono tok c (mark_dirty key pg ph c).2.
Proof.
  intros HW. unfold mark_dirty. destruct (page_of key pg c) as [p|] eqn:Ep; [|destruct (file key c); by apply mono_files]. pose proof Ep as (fe & Hf & _)%page_of_Some. rewrite Hf.
  destruct (Z.eqb_spec (state p) ST_UPTODATE) as [Hs|]; cbn [negb orb]; [|by apply mono_files]. destruct (phys p =? ph); cbn [negb]; [|by apply mono_files].
  destruct (on (flags p) F_DIRTY); [by apply mono_files|]. cbn [snd]. eapply (mono_flag_dirty tok key pg p); [done|done|unfold filling; by rewrite Hs|done|done].
Qed.

Lemma mono_writeback tok d ok c : wf c -> d_phys d <> 0 -> fill_mono tok c (writeback_locked d ok c).
Proof.
  intros HW Hnz. unfold writeback_locked. destruct (page_of (d_key d) (d_pgoff d) c) as [p|] eqn:Ep; [|by apply mono_files]. destruct (_ && _) eqn:E; [|by apply mono_files].
  rewrite !andb_true_iff in E. destruct E as [[[_ Eph%Z.eqb_eq] _] _]. eapply (mono_flag_dirty tok (d_key d) (d_pgoff d) p); [done|done| |done|done].
  pose proof (page_of_ok _ _ _ _ HW Ep) as [(_ & H0 & _)|(Hs & _)]; [congruence|]. unfold filling. by rewrite Hs.
Qed.

Lemma cut_page_succeeds tok sz pg o : succeeds tok o (cut_page sz pg o).
Proof.
  unfold cut_page. destruct (decide _).
  - destruct o as [p|]; [|apply succeeds_none]. cbn. destruct (filling p) eqn:E; [|apply succeeds_none]. pose proof (succeeds_doomed tok (Some p)) as H. cbn in H. unfold doomed in H. by rewrite E in H.
  - destruct (decide _); [apply succeeds_doomed|apply succeeds_refl].
Qed.

Lemma mono_truncate tok ext key sz c : wf c -> owned ext c -> 0 <= sz -> sz + PAGE_SIZE <= 2 ^ 64 -> fill_mono tok c (truncate_locked key sz c).2.
Proof.
  intros HW HO H1 H2. pose proof (truncate_locked_spec ext key sz c HW HO H1 H2) as T. destruct (truncate_locked key sz c) as [gone c']. destruct T as (_ & B & _).
  apply mono_of. intros k pg. cbn [snd]. rewrite B. case_decide; [subst; apply cut_page_succeeds|apply succeeds_refl].
Qed.

Lemma mono_purge tok c : wf c -> fill_mono tok c (purge_locked c).
Proof.
  intros HW. unfold purge_locked. set (keys := mbind _ _). generalize keys. clear keys. intros keys. assert (ordered c) as Hix by exact (wf_ordered c HW). clear HW. revert c Hix. induction keys as [|v vs IH]; intros c Hix; [by apply mono_files|].
  cbn [foldl]. eapply fill_mono_trans; [|apply IH; by apply ordered_set_page]. apply mono_set_page; [done|apply succeeds_none].
Qed.

Lemma step_mono tok s s' : step s s' -> good s -> next_token s.2 <> tok -> fill_mono tok s.2 s'.2.
Proof.
  intros [] [HW HO] Ht; cbn [fst snd] in *.
  - by apply mono_files.
  - apply mono_files. by destruct mb.
  - unfold set_size. destruct (key =? 0); [by apply mono_files|]. by apply (mono_default tok key (fun fe => set_known true (set_file_size sz fe))); [apply wf_ordered|].
  - apply mono_with_file; [by apply wf_ordered|]. intros fe. by destruct (size_known fe).
  - by apply mono_with_file; [apply wf_ordered|].
  - by apply mono_with_file; [apply wf_ordered|].
  - by apply mono_with_file; [apply wf_ordered|].
  - by eapply mono_drop_file.
  - unfold key_get. destruct (key =? 0); [by apply mono_files|]. by apply (mono_default tok key (fun fe => set_users (wrap32 (users fe + 1)) fe)); [apply wf_ordered|].
  - by eapply mono_key_put.
  - by eapply mono_pin_run.
  - apply mono_files, unref_all_files.
  - unfold ra_window. destruct (file key c) as [fe|] eqn:E; [|by apply mono_files]. apply mono_meta; [by apply wf_ordered|]. by rewrite E.
  - by eapply mono_begin_fill.
  - by eapply mono_end_fill.
  - by eapply mono_abort_fill.
  - by apply mono_lookup.
  - by apply mono_mark_dirty.
  - apply mono_files. unfold take_dirty. by destruct (DIRTY c =? 0).
  - eapply fill_mono_trans; [by apply mono_writeback|]. apply (mono_unref_all tok [d_phys d]). by apply mono_files.
  - destruct (wt_pin_spec ext key pos len c HW HO) as (_ & B & _); [done..|]. apply mono_of. intros k pg. rewrite B. case_decide as E; [destruct E as [-> _]; apply succeeds_doomed|apply succeeds_refl].
  - apply mono_files, unref_all_files.
  - destruct (extend_spec ext key from upto c HW HO) as [_ B]; [done|]. apply mono_of. intros k pg. rewrite B.
    destruct (decide (k = key /\ pg = from / PAGE_SIZE /\ from < upto /\ from mod PAGE_SIZE <> 0)) as [[-> _]|]; [apply succeeds_doomed|apply succeeds_refl].
  - unfold truncate. pose proof (mono_truncate tok ext key sz c HW HO H H0) as T. destruct (truncate_locked key sz c). by apply mono_unref_all.
  - destruct (reclaims_make_room ext n ok c HW HO) as [k R]. eapply mono_reclaimed, R.
  - destruct (reclaims_maybe ext c HW HO) as [k R]. eapply mono_reclaimed, R.
  - eapply mono_reclaimed, (reclaims_pages ext want c HW HO).
  - pose proof (emergency_sweeps ext cf rf want c HW HO) as S. destruct (emergency_reclaim cf rf want c). eapply mono_swept, S.
  - unfold purge. destruct (_ =? _); [by apply mono_files|]. eapply fill_mono_trans; [|apply mono_purge, (moves_holes ext 0 c HW HO)]. by apply mono_files.
  - by eapply mono_end_fill_locked.
  - by apply mono_files.
  - by apply mono_files.
  - pose proof (reclaim_round_locked ext need c HW HO H) as R. rewrite H0 in R. eapply mono_reclaimed, R.
  - pose proof (emergency_locked_spec ext rf want c HW HO) as S. destruct (emergency_locked rf want c). eapply mono_swept, S.
  - by eapply mono_drop_file_locked.
  - by eapply mono_truncate.
  - by apply mono_key_put_locked.
  - by apply mono_writeback.
  - by apply mono_files.
  - by apply mono_purge.
Qed.

(** Calls that change the data of a page of a file. *)
Inductive changes (key pg : Z) (c : t) : t -> Prop :=
  | changes_write pos len : 0 <= pos -> 0 < len -> pos + len <= 2 ^ 64 -> (forall fe, file key c = Some fe -> room (length (pages fe)) c) ->
      touches pos len pg -> changes key pg c (wt_pin key pos len c).2
  | changes_truncate sz : 0 <= sz -> sz + PAGE_SIZE <= 2 ^ 64 -> sz < (pg + 1) * PAGE_SIZE -> changes key pg c (truncate key sz c)
  | changes_extend from upto : 0 <= from -> from < upto -> from mod PAGE_SIZE <> 0 -> pg = from / PAGE_SIZE -> changes key pg c (extend key from upto c)
  | changes_drop : key <> 0 -> changes key pg c (drop_file key c)
  | changes_truncate_locked sz : 0 <= sz -> sz + PAGE_SIZE <= 2 ^ 64 -> sz < (pg + 1) * PAGE_SIZE -> changes key pg c (truncate_locked key sz c).2
  | changes_drop_locked : key <> 0 -> changes key pg c (drop_file_locked key c).2.

Lemma dead_doomed tok key pg c c' : page_of key pg c' = doomed <$> page_of key pg c -> dead tok key pg c'.
Proof.
  intros E p Hp Hf _. rewrite E in Hp. destruct (page_of key pg c) as [q|]; [|done]. injection Hp as <-. unfold doomed in *. destruct (filling q) eqn:Eq; [|congruence].
  cbn. rewrite on_raise. apply orb_true_r.
Qed.

Lemma cut_page_dead sz pg o p : 0 <= sz -> sz < (pg + 1) * PAGE_SIZE -> cut_page sz pg o = Some p -> filling p = true -> on (flags p) F_STALE = true.
Proof.
  intros H0 Hs. unfold cut_page. destruct (decide (first_past sz <= pg)) as [|Hlt].
  - destruct o as [q|]; [|done]. cbn. destruct (filling q); [|done]. intros [= <-] _. cbn. rewrite on_raise. apply orb_true_r.
  - rewrite decide_True.
    + destruct o as [q|]; [|done]. cbn. intros [= <-]. unfold doomed. destruct (filling q) eqn:E; [|congruence]. intros _. cbn. rewrite on_raise. apply orb_true_r.
    + unfold first_past in Hlt. pose proof (Z.div_lt_upper_bound sz PAGE_SIZE (pg + 1) ltac:(done) ltac:(lia)). assert (pg <= sz / PAGE_SIZE); [|lia].
      assert (pg < (sz + PAGE_SIZE - 1) / PAGE_SIZE) as Hx by lia. apply Z.div_le_lower_bound; [done|]. assert (PAGE_SIZE * (pg + 1) <= sz + PAGE_SIZE - 1); [|unfold PAGE_SIZE in *; lia].
      etrans; [apply Z.mul_le_mono_nonneg_l; [done|apply Z.le_succ_l in Hx; exact Hx]|]. apply Z.mul_div_le. done.
Qed.

Lemma changes_dead tok ext key pg c c' : wf c -> owned ext c -> changes key pg c c' -> dead tok key pg c'.
Proof.
  intros HW HO [pos len H1 H2 H3 H4 H5|sz H1 H2 H3|from upto H1 H2 H3 ->|H1|sz H1 H2 H3|H1].
  - apply (dead_doomed _ _ _ c). destruct (wt_pin_spec ext key pos len c HW HO H1 H2 H3 H4) as (_ & B & _). rewrite B. by rewrite decide_True.
  - destruct (truncate_moves ext key sz c HW HO H1 H2) as (_ & B & _). intros p Hp Hf _. rewrite B, decide_True in Hp by done. by eapply cut_page_dead.
  - apply (dead_doomed _ _ _ c). destruct (extend_spec ext key from upto c HW HO H1) as [_ B]. rewrite B. by rewrite decide_True.
  - destruct (drop_file_moves ext key c HW HO) as [_ B]. intros p Hp. unfold page_of in Hp. by rewrite B, decide_True in Hp.
  - pose proof (truncate_locked_spec ext key sz c HW HO H1 H2) as T. destruct (truncate_locked key sz c) as [gone c2]. destruct T as (_ & B & _). intros p Hp Hf _. cbn [snd] in Hp.
    rewrite B, decide_True in Hp by done. by eapply cut_page_dead.
  - pose proof (drop_file_locked_spec ext key c HW HO) as D. destruct (drop_file_locked key c) as [gone c2]. destruct D as [_ B]. intros p Hp. unfold page_of in Hp. cbn [snd] in Hp. by rewrite B, decide_True in Hp.
Qed.

(** A call made while the next fill gets another token: within 2^32 - 1 fills
    after the one that got [tok]. *)
Definition step_other (tok : Z) (s s' : (Z -> Z) * t) : Prop := step s s' /\ next_token s.2 <> tok.

Lemma steps_other_dead tok key pg s s' : rtc (step_other tok) s s' -> good s -> dead tok key pg s.2 -> good s' /\ dead tok key pg s'.2.
Proof.
  induction 1 as [|s s1 s' [Hs Ht] _ IH]; [done|]. intros Hg Hd. apply IH; [by eapply step_good|]. eapply dead_mono; [|exact Hd]. by apply step_mono.
Qed.

(** C27: A fill never publishes data that a write has overtaken.  If the page was
    written, truncated, extended or dropped after the fill [tok] began, then
    whatever calls follow, by anyone, the fill's [end_fill] publishes nothing
    for that page: a page published there afterwards was published before.  The
    calls are those made while the next fill would not get [tok] again: the 32-bit
    tokens come round after 2^32 - 1 fills. *)
Theorem stale_fill_discarded tok key pg ext1 c ext2 c1 s2 pgoff frames valid :
  good (ext1, c) -> changes key pg c c1 -> good (ext2, c1) -> rtc (step_other tok) (ext2, c1) s2 ->
  Forall (fun f => f <> 0) frames -> (forall f, occ f frames <= s2.1 f) -> (forall f, f ∈ frames -> PageRef.get f (frame_refs s2.2) = 1) ->
  forall p, page_of key pg (end_fill key tok pgoff frames valid s2.2).2 = Some p -> published p = true -> page_of key pg s2.2 = Some p.
Proof.
  intros [HW HO] Hc Hg1 Hr H1 H2 H3 p Hp Hpub. destruct (steps_other_dead tok key pg _ _ Hr Hg1 (changes_dead tok ext1 key pg c c1 HW HO Hc)) as [[HW2 HO2] Hd].
  destruct (end_fill_spec s2.1 key tok pgoff frames valid s2.2 HW2 HO2 H1 H2 H3) as [_ B]. rewrite B in Hp. case_decide; [|done].
  unfold after_fill in Hp. destruct (page_of key pg s2.2) as [q|] eqn:Eq; cbn [ours] in Hp; [|done]. destruct (filling q && (token q =? tok)) eqn:Eo; [|done].
  apply andb_true_iff in Eo as [Ef Et%Z.eqb_eq]. by rewrite (Hd q Eq Ef Et) in Hp.
Qed.

(** What a fill reads is what the next fault or read finds: after [begin_fill]
    answered a token and a page count, [end_fill] with that token and as many
    frames publishes frame [i] at page [pgoff + i], where [lookup] returns it with
    a reference taken for the caller; the entries of all other pages stay. *)
Theorem fill_roundtrip ext key pgoff want c tok n c1 frames :
  good (ext, c) -> key <> 0 -> begin_fill key pgoff want c = (Some (tok, n), c1) -> length frames = n ->
  Forall (fun f => f <> 0) frames -> (forall f, occ f frames <= ext f) -> (forall f, f ∈ frames -> PageRef.get f (frame_refs c) = 1) ->
  let c2 := (end_fill key tok pgoff frames (Z.of_nat n * PAGE_SIZE) c1).2 in
  (forall i f exec, frames !! i = Some f -> (lookup key (pgoff + Z.of_nat i) exec c2).1 = Some f /\ absent (page_of key (pgoff + Z.of_nat i) c) = true) /\
  (forall k pg, ~ (k = key /\ pgoff <= pg < pgoff + Z.of_nat n) -> page_of k pg c2 = page_of k pg c).
Proof.
  intros [HW HO] Hk Hb Hlen H1 H2 H3 c2. pose proof (begin_fill_spec ext key pgoff want c HW HO) as B. rewrite Hb in B. destruct B as (M & _ & -> & Hn & B1 & B2).
  assert (frame_refs c1 = frame_refs c) as Er.
  { assert (forall want key pg last tok c, frame_refs (fill_loop want key pg last tok c).2 = frame_refs c) as Hl.
    { clear. induction want as [|w IH]; intros key pg last tok c; [done|]. cbn [fill_loop]. destruct (_ && _); [|done]. specialize (IH key (pg + 1) last tok (set_page key pg (Some (mkPage 0 tok ST_FILLING 0)) c)).
      destruct (fill_loop w _ _ _ _ _) as [m c']. cbn [snd] in *. rewrite IH. apply set_page_refs. }
    unfold begin_fill in Hb. destruct (file key _) as [fe|]; [|done]. destruct (_ || _); [done|]. match type of Hb with context [fill_loop ?a ?b ?d ?e ?f ?g] => pose proof (Hl a b d e f g) as Hg; destruct (fill_loop a b d e f g) as [m c'] end.
    destruct (m =? 0)%nat; [done|]. injection Hb as _ <-. exact Hg. }
  destruct (end_fill_spec ext key (next_token c) pgoff frames (Z.of_nat n * PAGE_SIZE) c1 (mv_wf _ _ _ _ M) (mv_owned _ _ _ _ M) H1 H2 ltac:(by rewrite Er)) as [_ E]. fold c2 in E. split.
  - intros i f exec Hi. pose proof (lookup_lt_Some _ _ _ Hi) as Hlt. split; [|apply B2; lia]. assert (page_of key (pgoff + Z.of_nat i) c2 = Some (mkPage f (next_token c) ST_UPTODATE F_REF)) as Ep.
    { rewrite E, decide_True by lia. replace (pgoff + Z.of_nat i - pgoff) with (Z.of_nat i) by lia. rewrite Nat2Z.id, (nth_lookup_Some _ _ _ _ Hi), B1, decide_True by lia. unfold after_fill. cbn [ours].
      unfold filling, placeholder. cbn. rewrite Z.eqb_refl. cbn. rewrite (proj2 (Z.leb_gt _ _)); [done|]. unfold PAGE_SIZE. lia. }
    unfold lookup. rewrite (proj2 (Z.eqb_neq key 0)) by done. rewrite Ep. assert (f <> 0) as Hf by (rewrite Forall_forall in H1; apply H1; by eapply list_elem_of_lookup_2).
    unfold published. cbn. by rewrite (proj2 (Z.eqb_neq f 0)).
  - intros k pg Hne. rewrite E, decide_False by (rewrite Hlen; lia). rewrite B1. by rewrite decide_False by lia.
Qed.

(** ** A trace: one file of three pages *)
Definition demo0 : t := set_size 7 10000 (init 1000 500).
Definition demo_frames : list Z := [20480; 24576; 28672].
Definition demo_ext : Z -> Z := plus (fun _ => 0) demo_frames.
Definition demo1 : t := (begin_fill 7 0 3 demo0).2.
Definition demo2 : t := (end_fill 7 1 0 demo_frames 12288 demo1).2.

Lemma demo0_good : good (demo_ext, demo0).
Proof.
  pose proof (init_good 1000 500) as [HW HO]. pose proof (moves_set_size (fun _ => 0) 7 10000 _ HW HO) as M. split; [apply M|].
  assert (forall f, holds f demo0 = 0) as Hh by (intros f; reflexivity). split; [apply M|]. split.
  - intros f. apply (occ_ge f demo_frames).
  - intros f _. cbn [snd fst]. rewrite Hh. unfold demo_ext, plus, demo_frames. cbn [occ]. change (frame_refs demo0) with (∅ : refs). unfold PageRef.get. rewrite lookup_empty. cbn [default from_option id].
    destruct (Z.eqb_spec 20480 f), (Z.eqb_spec 24576 f), (Z.eqb_spec 28672 f); cbn; lia.
Qed.

Lemma demo_frames_fresh : Forall (fun f => f <> 0) demo_frames /\ (forall f, occ f demo_frames <= demo_ext f).
Proof. split; [by repeat constructor|]. intros f. unfold demo_ext, plus. lia. Qed.

Lemma fill_roundtrip_witness : (lookup 7 1 false demo2).1 = Some 24576 /\ begin_fill 7 0 3 demo0 = (Some (1, 3%nat), demo1).
Proof.
  assert (begin_fill 7 0 3 demo0 = (Some (1, 3%nat), demo1)) as E by reflexivity. split; [|exact E]. destruct demo_frames_fresh as [F1 F2].
  destruct (fill_roundtrip demo_ext 7 0 3 demo0 1 3 demo1 demo_frames demo0_good) as [H _]; [done|exact E|done|done|done| |].
  - intros f _. change (frame_refs demo0) with (∅ : refs). unfold PageRef.get. by rewrite lookup_empty.
  - by apply (H 1%nat).
Defined.

Lemma stale_fill_discarded_witness :
  let c1 := (wt_pin 7 5000 10 demo1).2 in let c2 := (end_fill 7 1 0 demo_frames 12288 c1).2 in
  (published <$> page_of 7 0 c2) = Some true /\ page_of 7 1 c2 = None /\ (forall p, page_of 7 1 c2 = Some p -> published p = true -> page_of 7 1 c1 = Some p).
Proof.
  intros c1 c2. split; [reflexivity|]. split; [reflexivity|]. pose proof demo0_good as G0. destruct demo_frames_fresh as [F1 F2].
  assert (good (demo_ext, demo1)) as G1 by (eapply step_good; [apply (step_begin_fill demo_ext demo0 7 0 3)|done]).
  assert (forall fe, file 7 demo1 = Some fe -> room (length (pages fe)) demo1) as Hr.
  { intros fe E. injection E as <-. intros f. change (frame_refs demo1) with (∅ : refs). unfold PageRef.get. rewrite lookup_empty. cbn. unfold U32_MAX. lia. }
  assert (good (plus demo_ext (n_phys <$> (wt_pin 7 5000 10 demo1).1), c1)) as G2 by (eapply step_good; [apply (step_wt_pin demo_ext demo1 7 5000 10); [lia|lia|lia|exact Hr]|done]).
  apply (stale_fill_discarded 1 7 1 demo_ext demo1 (plus demo_ext (n_phys <$> (wt_pin 7 5000 10 demo1).1)) c1 (plus demo_ext (n_phys <$> (wt_pin 7 5000 10 demo1).1), c1) 0 demo_frames 12288 G1).
  - apply (changes_write 7 1 demo1 5000 10); [lia|lia|lia|exact Hr|]. unfold touches. vm_compute. split; discriminate.
  - exact G2.
  - apply rtc_refl.
  - exact F1.
  - intros f. cbn [fst]. change (n_phys <$> (wt_pin 7 5000 10 demo1).1) with (@nil Z). unfold plus at 1. cbn. specialize (F2 f). unfold occ in F2 at 1. cbn in F2. cbn. lia.
  - intros f _. cbn [snd]. assert (frame_refs c1 = ∅) as -> by reflexivity. unfold PageRef.get. by rewrite lookup_empty.
Defined.

Lemma demo2_good : good (minus demo_ext demo_frames, demo2).
Proof.
  destruct demo_frames_fresh as [F1 F2]. apply (step_good (demo_ext, demo1)).
  - apply (step_end_fill demo_ext demo1 7 1 0 demo_frames 12288); [done|done|]. intros f _. assert (frame_refs demo1 = ∅) as -> by reflexivity. unfold PageRef.get. by rewrite lookup_empty.
  - eapply step_good; [apply (step_begin_fill demo_ext demo0 7 0 3)|apply demo0_good].
Qed.

(** Comparisons look at the trace last. *)
#[local] Strategy 1000 [demo2].

Lemma demo2_wf : wf demo2 /\ owned (minus demo_ext demo_frames) demo2.
Proof. destruct demo2_good as [HW HO]. cbn [fst snd] in HW, HO. split; [exact HW|exact HO]. Qed.

Lemma reclaim_pages_spec_witness :
  (reclaim_pages 2 demo2).1 = 2%nat /\ released (reclaim_pages 2 demo2).2 = [20480; 24576] /\ reclaims (minus demo_ext demo_frames) demo2 2 (reclaim_pages 2 demo2).2.
Proof.
  destruct demo2_wf as [HW HO]. pose proof (reclaim_pages_spec (minus demo_ext demo_frames) 2 demo2 HW HO) as R.
  assert ((reclaim_pages 2 demo2).1 = 2%nat) as E1 by (vm_compute; reflexivity). assert (released (reclaim_pages 2 demo2).2 = [20480; 24576]) as E2 by (vm_compute; reflexivity).
  destruct (reclaim_pages 2 demo2) as [n c']. cbn in E1, E2. subst n. destruct R as (_ & R & _). split; [done|]. split; [exact E2|exact R].
Defined.

Lemma emergency_reclaim_spec_witness :
  (emergency_reclaim true true 1 demo2).1 = 1%nat /\ sweeps (minus demo_ext demo_frames) demo2 1 (emergency_reclaim true true 1 demo2).2.
Proof.
  destruct demo2_wf as [HW HO]. pose proof (emergency_reclaim_spec (minus demo_ext demo_frames) true true 1 demo2 HW HO) as R.
  assert ((emergency_reclaim true true 1 demo2).1 = 1%nat) as E1 by (vm_compute; reflexivity).
  destruct (emergency_reclaim true true 1 demo2) as [n c']. cbn in E1. subst n. destruct R as (_ & R & _). split; [done|exact R].
Defined.

(** The file is truncated after [end_fill] has published its one page and before it
    adds to [CACHED]: the counter is 2^64 - 1 until it does. *)
Lemma cache_reachable_witness :
  exists s s', rtc step (fun _ => 0, init 1000 500) s /\ step s s' /\ wf s.2 /\ released s.2 = [20480] /\
    uncounted s.2 = 1 /\ cached_pages s.2 = 2 ^ 64 - 1 /\ uncounted s'.2 = 0 /\ cached_pages s'.2 = 0.
Proof.
  set (e1 := plus (fun _ => 0) [20480]). set (c1 := (begin_fill 7 0 1 demo0).2). set (l2 := end_fill_locked 7 1 0 [20480] 4096 c1). set (c3 := truncate 7 0 l2.2).
  set (e2 := plus (minus e1 [20480]) l2.1).
  assert (rtc step (fun _ => 0, init 1000 500) (e2, c3)) as R.
  { apply (rtc_l _ _ (fun _ => 0, demo0)); [apply (step_set_size (fun _ => 0) (init 1000 500) 7 10000)|].
    apply (rtc_l _ _ (e1, demo0)); [apply step_alloc; [done|done|]; assert (frame_refs demo0 = ∅) as -> by reflexivity; unfold PageRef.get; by rewrite lookup_empty|].
    apply (rtc_l _ _ (e1, c1)); [apply (step_begin_fill e1 demo0 7 0 1)|].
    apply (rtc_l _ _ (e2, l2.2)); [apply (step_end_fill_locked e1 c1 7 1 0 [20480] 4096); [by constructor|intros f; unfold e1, plus; lia]|].
    apply rtc_once. apply (step_truncate e2 l2.2 7 0); [lia|unfold PAGE_SIZE; lia]. }
  assert (step (e2, c3) (e2, count_published 1 c3)) as S by (apply step_count_published; split; [lia|]; vm_compute; discriminate).
  exists (e2, c3), (e2, count_published 1 c3). split; [exact R|]. split; [exact S|]. split; [apply (cache_reachable 1000 500 _ _ R S)|]. split_and!; vm_compute; reflexivity.
Defined.
