(* ===== verification/VmmFault.v ===== *)
(** * Address spaces: page faults

    The fault path of [src/mm/src/vmm.rs]: what a touch of an absent page, a
    write to a copy-on-write or clean file page, and a kernel access to user
    memory do.  The operations run under the address space's own lock; a file
    read happens between [plan_user_page_fault] and [install_file_fault] with that
    lock released, so the second half takes whatever state it finds.

    The page cache is reached through the interface [FrameCache]; the answers of
    [buddy_alloc], of the file's read hook and of the key hook are arguments.
    Copies between frames and into user memory are calls in the log. *)
From S2P Require Import Prelude KLib PageSites PageRef PageVec BTree PageCache Vmm.
#[local] Open Scope Z_scope.

(** ** The page cache, as the fault path uses it

    [fc_frame c k pg] is the frame cached for page [pg] of file [k]. *)
Class FrameCache (C : Type) := {
  fc_lookup : Z -> Z -> bool -> refs -> C -> option Z * refs * C;
  fc_mark_dirty : Z -> Z -> Z -> C -> bool * C;
  fc_frame : C -> Z -> Z -> option Z;
  fc_ok : C -> Prop;
  fc_lookup_spec k pg x r c : fc_ok c ->
    let '(o, r', c') := fc_lookup k pg x r c in
    fc_ok c' /\ (forall j n, fc_frame c' j n = fc_frame c j n) /\
    match o with Some p => fc_frame c k pg = Some p /\ p <> 0 /\ r' = inc p r | None => r' = r end;
  fc_dirty_frame k pg p c : fc_ok c -> fc_ok (fc_mark_dirty k pg p c).2 /\ forall j n, fc_frame (fc_mark_dirty k pg p c).2 j n = fc_frame c j n }.

Definition FAULT_AROUND_PAGES : nat := 16.

Inductive Fault := Handled | Segv | Bus.

Record FileFault := mkFF { cap : Z; page_va : Z; pos : Z; len : Z; window : nat; eof_sigbus : bool; key : Z; write : bool }.

Inductive FaultPlan := Done (f : Fault) | Read (p : FileFault).

(** ** Region helpers *)
Definition cache_pgoff (r : VmaRegion) (idx : nat) : option Z :=
  if negb (lazy r) || negb (is_file_backed (file_cap r)) then None
  else if (if has (map_flags r) MAP_EOF_SIGBUS then file_len r <=? Z.of_nat idx * PAGE_SIZE
           else file_len r <? (Z.of_nat idx + 1) * PAGE_SIZE) then None
  else Cache.pgoff_of (wrap64 (file_off r + Z.of_nat idx * PAGE_SIZE)).

(** [if lazy_pages.len() < n { lazy_pages.resize(n, 0) }] *)
Definition grow_to (n : nat) (r : VmaRegion) : VmaRegion :=
  if (PageVec.len (lazy_pages r) <? n)%nat then set_lazy_pages (PageVec.resize n (lazy_pages r)) r else r.

(** [lazy_pages[idx] = p], and [lazy_count += 1] for a page that was absent *)
Definition put_frame (idx : nat) (p : Z) (r : VmaRegion) : option VmaRegion :=
  pv ← PageVec.index_mut idx p (lazy_pages r); Some (set_lazy_pages pv r).
Definition add_frame (idx : nat) (p : Z) (r : VmaRegion) : option VmaRegion :=
  r ← put_frame idx p r; Some (set_lazy_count (lazy_count r + 1) r).

Definition covering (va : Z) (o : option VmaRegion) : bool := match o with Some r => covers va r | None => false end.
Definition region_at (a : AddressSpace) (va : Z) : option (nat * VmaRegion) :=
  idx ← position (covering va) (regions a); r ← mjoin (regions a !! idx); Some (idx, r).

Section fault.
Context {T : Type} `{PageTable T} {C : Type} `{FrameCache C}.
Notation world := (world T).

(** An address space, the rest of memory management, and the page cache. *)
Record sys := mkSys { asp : AddressSpace; wld : world; fc : C }.

Definition set_page_refs (rf : refs) (w : world) : world := mkWorld (pt w) rf (last_fail w) (log w).
Definition set_asp (a : AddressSpace) (s : sys) : sys := mkSys a (wld s) (fc s).
Definition set_wld (w : world) (s : sys) : sys := mkSys (asp s) w (fc s).
Definition put_region (slot : nat) (r : VmaRegion) (s : sys) : sys := set_asp (set_regions (<[slot := Some r]> (regions (asp s))) (asp s)) s.
Definition map_at (va p fl : Z) (w : world) : bool * world := let '(ok, t) := map_page va p fl (pt w) in (ok, set_pt t w).

(** [if !map_page(..) { .. } else { lazy_pages[idx] = p; lazy_count += 1 }]: an entry
    for an absent page, and the frame it has now *)
Definition map_frame (idx : nat) (p fl : Z) (r : VmaRegion) (w : world) : option (bool * VmaRegion * world) :=
  let '(ok, w) := map_at (va_of (start r) idx) p fl w in
  if negb ok then Some (false, r, w)
  else r ← add_frame idx p r; Some (true, r, w).

(** [install_cached]: the frame of the page cache at an absent page *)
Definition install_cached (idx : nat) (p : Z) (written : bool) (r : VmaRegion) (w : world) : option (bool * VmaRegion * world) :=
  let r := grow_to (Nat.min (idx + 1) (Z.to_nat (pages r))) r in
  let r := set_written idx written r in
  let fl := if written then flags r else Z.land (install_flags r idx (flags r)) (not64 WRITABLE) in
  map_frame idx p fl r w.

(** ** A page that is there *)

(** Give this address space its own copy, or the frame itself when it is the
    only owner. *)
Definition promote (block : option Z) (va : Z) (slot : nat) (r : VmaRegion) (idx : nat) (p : Z) (s : sys) : option (FaultPlan * sys) :=
  let w := wld s in
  if PageRef.get p (page_refs w) <=? 1 then
    match map_at va p (flags r) w with
    | (false, w) => Some (Done Segv, set_wld w s)
    | (true, w) => Some (Done Handled, put_region slot (set_written idx true r) (set_wld (emit [TlbFlushLocal va] w) s))
    end
  else
    match block with
    | None => Some (Done Segv, s)
    | Some q =>
        let w := emit [CopyPage p q] w in
        let w := emit [TlbFlush va 1] (set_pt (unmap_page va (pt w)) w) in
        match map_at va q (flags r) w with
        | (false, w) => Some (Done Segv, set_wld (emit [BuddyFree q 0] w) s)
        | (true, w) =>
            r ← put_frame idx q r;
            let r := set_written idx true r in
            let w := set_page_refs (PageRef.dec p (page_refs w)) w in
            Some (Done Handled, put_region slot r (set_wld w s))
        end
    end.

Definition present_fault (fk : Z -> Z) (block : option Z) (va : Z) (is_write : bool) (slot : nat) (r : VmaRegion) (idx : nat) (p : Z) (s : sys)
  : option (FaultPlan * sys) :=
  if is_write && has (map_flags r) MAP_SHARED && is_file_backed (file_cap r) && contains (flags r) WRITABLE && clean_file_page r idx then
    let c := match cache_pgoff r idx with Some pg => (fc_mark_dirty (fk (file_cap r)) pg p (fc s)).2 | None => fc s end in
    match map_at va p (flags r) (wld s) with
    | (false, w) => Some (Done Segv, mkSys (asp s) w c)
    | (true, w) => Some (Done Handled, put_region slot (set_written idx true r) (mkSys (asp s) (emit [TlbFlushLocal va] w) c))
    end
  else
    let clean_write := is_write && contains (flags r) WRITABLE && clean_file_page r idx in
    if negb (is_write && (cow r || clean_write)) then
      Some (Done (if negb is_write || has (prot r) PROT_WRITE then Handled else Segv), s)
    else promote block va slot r idx p s.

(** ** An absent page *)

(** The cached pages that follow the faulting one. *)
Fixpoint around_loop (fuel i : nat) (k : Z) (exec : bool) (idx : nat) (r : VmaRegion) (w : world) (c : C) : option (VmaRegion * world * C) :=
  match fuel with
  | O => Some (r, w, c)
  | S f =>
      if (Z.of_nat (idx + i) <? pages r) && (frame_at r (idx + i) =? 0) then
        match cache_pgoff r (idx + i) with
        | None => Some (r, w, c)
        | Some pg =>
            match fc_lookup k pg exec (page_refs w) c with
            | (None, rf, c) => Some (r, set_page_refs rf w, c)
            | (Some p, rf, c) =>
                match install_cached (idx + i) p false r (set_page_refs rf w) with
                | Some (true, r, w) => around_loop f (S i) k exec idx r w c
                | Some (false, r, w) => Some (r, free_frame p w, c)
                | None => None
                end
            end
        end
      else Some (r, w, c)
  end.

(** Absent pages from [idx] on, the faulting one included, up to the window. *)
Fixpoint window_loop (fuel n idx : nat) (r : VmaRegion) : nat :=
  match fuel with
  | O => n
  | S f => if (Z.of_nat (idx + n) <? pages r) && (frame_at r (idx + n) =? 0) then window_loop f (S n) idx r else n
  end.

Definition read_plan (va : Z) (is_write : bool) (r : VmaRegion) (idx : nat) (k : Z) : FileFault :=
  let n := window_loop (FAULT_AROUND_PAGES - 1) 1 idx r in
  let win_off := Z.of_nat idx * PAGE_SIZE in
  let l := if win_off <? file_len r then Z.min (file_len r - win_off) (Z.of_nat n * PAGE_SIZE) else 0 in
  mkFF (file_cap r) va (wrap64 (file_off r + win_off)) l n (has (map_flags r) MAP_EOF_SIGBUS) k is_write.

(** The cached frame [p], and the cached pages that follow it. *)
Definition cached_fault (k pg p : Z) (is_write : bool) (slot : nat) (r : VmaRegion) (idx : nat) (s : sys) : option (FaultPlan * sys) :=
  let shared_w := is_write && has (map_flags r) MAP_SHARED && contains (flags r) WRITABLE in
  let c := if shared_w then (fc_mark_dirty k pg p (fc s)).2 else fc s in
  match install_cached idx p shared_w r (wld s) with
  | Some (false, r, w) => Some (Done Segv, put_region slot r (mkSys (asp s) (free_frame p w) c))
  | Some (true, r, w) =>
      match around_loop (FAULT_AROUND_PAGES - 1) 1 k (contains (flags r) EXECUTE) idx r w c with
      | Some (r, w, c) => Some (Done Handled, put_region slot r (mkSys (asp s) w c))
      | None => None
      end
  | None => None
  end.

Definition file_fault (fk : Z -> Z) (va : Z) (is_write : bool) (slot : nat) (r : VmaRegion) (idx : nat) (s : sys) : option (FaultPlan * sys) :=
  let k := match cache_pgoff r idx with Some _ => fk (file_cap r) | None => 0 end in
  let read := Read (read_plan va is_write r idx k) in
  match (if k =? 0 then None else cache_pgoff r idx) with
  | None => Some (read, s)
  | Some pg =>
      match fc_lookup k pg (contains (flags r) EXECUTE) (page_refs (wld s)) (fc s) with
      | (Some p, rf, c) => cached_fault k pg p is_write slot r idx (mkSys (asp s) (set_page_refs rf (wld s)) c)
      | (None, rf, c) => Some (read, mkSys (asp s) (set_page_refs rf (wld s)) c)
      end
  end.

Definition anon_fault (block : option Z) (va : Z) (is_write : bool) (slot : nat) (r : VmaRegion) (idx : nat) (s : sys) : option (FaultPlan * sys) :=
  if is_write && negb (has (prot r) PROT_WRITE) && negb (contains (flags r) WRITABLE) then Some (Done Segv, s)
  else
    match block with
    | None => Some (Done Segv, s)
    | Some p =>
        match map_at va p (flags r) (emit [Zero p PAGE_SIZE] (wld s)) with
        | (false, w) => Some (Done Segv, set_wld (emit [BuddyFree p 0] w) s)
        | (true, w) =>
            r ← add_frame idx p (grow_to (idx + 1) r);
            Some (Done Handled, put_region slot r (set_wld w s))
        end
    end.

Definition plan_user_page_fault (fk : Z -> Z) (block : option Z) (fault_va : Z) (is_write : bool) (s : sys) : option (FaultPlan * sys) :=
  let va := page_down fault_va in
  match region_at (asp s) fault_va with
  | None => Some (Done Segv, s)
  | Some (slot, r) =>
      if negb (lazy r) then Some (Done Segv, s)
      else if Z.land (prot r) PROT_ACCESS =? 0 then Some (Done Segv, s)
      else
        let idx := Z.to_nat ((va - start r) / PAGE_SIZE) in
        let p := frame_at r idx in
        if negb (p =? 0) then present_fault fk block va is_write slot r idx p s
        else if is_file_backed (file_cap r) then file_fault fk va is_write slot r idx s
        else anon_fault block va is_write slot r idx s
  end.

(** ** The second half: what was read *)

(** One page of the window; [answer] is an early return. *)
Definition install_one (p : FileFault) (data : list Z) (valid : Z) (page_idx : nat) (alloc : nat -> option Z) (i : nat)
  (r : VmaRegion) (w : world) (c : C) : option (option Fault * VmaRegion * world * C) :=
  let idx := (page_idx + i)%nat in
  let stop := if (0 <? i)%nat then Handled else Segv in
  let shared := has (map_flags r) MAP_SHARED in
  let copy_start := Z.of_nat i * PAGE_SIZE in
  let cacheable := (copy_start + PAGE_SIZE <=? valid) || (eof_sigbus p && (copy_start <? valid)) in
  let pgoff := if negb (key p =? 0) && cacheable then cache_pgoff r idx else None in
  let hit := match pgoff with
             | Some pg => fc_lookup (key p) pg (contains (flags r) EXECUTE) (page_refs w) c
             | None => (None : option Z, page_refs w, c)
             end in
  match hit with
  | (Some ph, rf, c) =>
      let shared_w := shared && (i =? 0)%nat && write p && contains (flags r) WRITABLE in
      let c := match pgoff with Some pg => if shared_w then (fc_mark_dirty (key p) pg ph c).2 else c | None => c end in
      match install_cached idx ph shared_w r (set_page_refs rf w) with
      | Some (true, r, w) => Some (None, r, w, c)
      | Some (false, r, w) => Some (Some stop, r, free_frame ph w, c)
      | None => None
      end
  | (None, rf, c) =>
      let w := set_page_refs rf w in
      if shared && negb (key p =? 0) then Some (if (i =? 0)%nat then Some Handled else None, r, w, c)
      else
        match alloc i with
        | None => Some (Some stop, r, w, c)
        | Some ph =>
            let n := Z.min (valid - copy_start) PAGE_SIZE in
            let w := emit [Zero ph PAGE_SIZE] w in
            let w := if copy_start <? valid then emit [Store ph (take (Z.to_nat n) (drop (Z.to_nat copy_start) data))] w else w in
            let r := set_written idx false r in
            match map_frame idx ph (install_flags r idx (flags r)) r w with
            | Some (false, r, w) => Some (Some stop, r, free_frame ph w, c)
            | Some (true, r, w) => Some (None, r, w, c)
            | None => None
            end
        end
  end.

Fixpoint install_loop (p : FileFault) (data : list Z) (valid : Z) (page_idx : nat) (alloc : nat -> option Z) (ks : list nat)
  (r : VmaRegion) (w : world) (c : C) : option (Fault * VmaRegion * world * C) :=
  match ks with
  | [] => Some (Handled, r, w, c)
  | i :: ks =>
      let idx := (page_idx + i)%nat in
      if pages r <=? Z.of_nat idx then Some (Handled, r, w, c)
      else
        q ← PageVec.index (lazy_pages r) idx;
        if negb (q =? 0) then install_loop p data valid page_idx alloc ks r w c
        else
          match install_one p data valid page_idx alloc i r w c with
          | Some (Some f, r, w, c) => Some (f, r, w, c)
          | Some (None, r, w, c) => install_loop p data valid page_idx alloc ks r w c
          | None => None
          end
  end.

(** The bytes that are valid and the pages to populate, or the answer. *)
Definition read_result (p : FileFault) (data : list Z) (got : Z) : result (Z * nat) Fault :=
  let n := Z.of_nat (length data) in
  if eof_sigbus p then
    if got <? 0 then Err Bus
    else
      let valid := Z.min (Z.min got (len p)) n in
      if valid =? 0 then Err Bus else Ok (valid, Nat.min (Z.to_nat ((valid + PAGE_SIZE - 1) / PAGE_SIZE)) (window p))
  else if negb (len p =? 0) && negb (got =? len p) then Err Segv
  else Ok (Z.min (len p) n, window p).

Definition install_file_fault (p : FileFault) (data : list Z) (got : Z) (alloc : nat -> option Z) (s : sys) : option (Fault * sys) :=
  match region_at (asp s) (page_va p) with
  | None => Some (Handled, s)
  | Some (slot, r) =>
      let page_idx := Z.to_nat ((page_va p - start r) / PAGE_SIZE) in
      if negb (lazy r) || negb (file_cap r =? cap p) || negb (wrap64 (file_off r + Z.of_nat page_idx * PAGE_SIZE) =? pos p)
         || negb (Bool.eqb (has (map_flags r) MAP_EOF_SIGBUS) (eof_sigbus p)) then Some (Handled, s)
      else if negb (frame_at r page_idx =? 0) then Some (Handled, s)
      else
        match read_result p data got with
        | Err f => Some (f, s)
        | Ok (valid, n) =>
            let r := grow_to (Nat.min (page_idx + n) (Z.to_nat (pages r))) r in
            match install_loop p data valid page_idx alloc (seq 0 n) r (wld s) (fc s) with
            | Some (f, r, w, c) => Some (f, put_region slot r (mkSys (asp s) w c))
            | None => None
            end
        end
  end.

(** ** Faults taken with the address space held *)

(** What the outside world answers to one fault: a frame for the page, the
    frames for a window, and the bytes the file gives. *)
Record oracle := mkOracle { o_block : option Z; o_alloc : nat -> option Z; o_read : Z -> Z -> Z -> list Z * Z }.

Definition user_page_fault (fk : Z -> Z) (o : oracle) (fault_va : Z) (is_write : bool) (s : sys) : option (Fault * sys) :=
  '(plan, s) ← plan_user_page_fault fk (o_block o) fault_va is_write s;
  match plan with
  | Done f => Some (f, s)
  | Read p =>
      let '(data, got) := if len p =? 0 then ([], 0) else o_read o (cap p) (pos p) (len p) in
      install_file_fault p data got (o_alloc o) s
  end.
Definition handle_user_page_fault (fk : Z -> Z) (o : oracle) (fault_va : Z) (is_write : bool) (s : sys) : option (bool * sys) :=
  '(f, s) ← user_page_fault fk o fault_va is_write s; Some (match f with Handled => true | _ => false end, s).

Definition find_at (s : sys) (va : Z) : option VmaRegion := find (asp s) va.
Definition idx_at (r : VmaRegion) (va : Z) : nat := Z.to_nat ((va - start r) / PAGE_SIZE).

Definition is_clean_writable_file_page (s : sys) (va : Z) : bool :=
  match find_at s va with
  | Some r => contains (flags r) WRITABLE && negb (frame_at r (idx_at r va) =? 0) && clean_file_page r (idx_at r va)
  | None => false
  end.
Definition is_shared_readonly_file_page (s : sys) (va : Z) : bool :=
  match find_at s va with
  | Some r => lazy r && is_file_backed (file_cap r) && negb (contains (flags r) WRITABLE) && negb (frame_at r (idx_at r va) =? 0)
                && (1 <? PageRef.get (frame_at r (idx_at r va)) (page_refs (wld s)))
  | None => false
  end.
Definition is_absent_file_page (s : sys) (va : Z) : bool :=
  match find_at s va with
  | Some r => lazy r && is_file_backed (file_cap r) && (frame_at r (idx_at r va) =? 0)
  | None => false
  end.

Definition unshare_cow_page (fk : Z -> Z) (o : oracle) (va : Z) (only_writable : bool) (s : sys) : option (bool * sys) :=
  let shared := match find_at s va with
                | Some r =>
                    if lazy r && cow r && (negb only_writable || contains (flags r) WRITABLE) then
                      let p := frame_at r (Z.to_nat ((page_down va - start r) / PAGE_SIZE)) in
                      negb (p =? 0) && (1 <? PageRef.get p (page_refs (wld s)))
                    else false
                | None => false
                end in
  if shared then handle_user_page_fault fk o va true s else Some (true, s).

(** The loop over the pages of a buffer; [oracles va] answers the fault at [va].
    The result is the page whose file must be read first, if any. *)
Fixpoint prefault_loop (fuel : nat) (write_too : bool) (fk : Z -> Z) (oracles : Z -> oracle) (va e : Z) (s : sys) : option (option Z * sys) :=
  match fuel with
  | O => Some (None, s)
  | S f =>
      if va <? e then
        match virt_to_phys (asp s) va with
        | None =>
            if is_absent_file_page s va then Some (Some va, s)
            else '(_, s) ← handle_user_page_fault fk (oracles va) va false s; prefault_loop f write_too fk oracles (va + PAGE_SIZE) e s
        | Some _ =>
            '(_, s) ← (if write_too then unshare_cow_page fk (oracles va) va true s else Some (true, s));
            '(_, s) ← (if write_too && is_clean_writable_file_page s va then handle_user_page_fault fk (oracles va) va true s else Some (true, s));
            prefault_loop f write_too fk oracles (va + PAGE_SIZE) e s
        end
      else Some (None, s)
  end.
Definition prefault_with (write_too : bool) (fk : Z -> Z) (oracles : Z -> oracle) (addr l : Z) (s : sys) : option (option Z * sys) :=
  if l =? 0 then Some (None, s)
  else
    let first := page_down addr in
    let e := page_up (wrap64 (addr + l)) in
    prefault_loop (Z.to_nat ((e - first) / PAGE_SIZE)) write_too fk oracles first e s.
Definition prefault_range := prefault_with true.
Definition prefault_range_ro := prefault_with false.

(** ** The kernel's own accesses, through the direct map *)

(** Bytes of physical memory. *)
Fixpoint read_loop (fuel : nat) (mem : Z -> Z) (a : AddressSpace) (va : Z) (left_ : nat) (acc : list Z) : option (list Z) :=
  match fuel with
  | O => Some acc
  | S f =>
      if (left_ =? 0)%nat then Some acc
      else
        ph ← virt_to_phys a va;
        let chunk := Nat.min (Z.to_nat (PAGE_SIZE - va mod PAGE_SIZE)) left_ in
        read_loop f mem a (va + Z.of_nat chunk) (left_ - chunk) (acc ++ ((fun i => mem (ph + Z.of_nat i)) <$> seq 0 chunk))
  end.
(** [None] is the answer [false]. *)
Definition read_user_buf (mem : Z -> Z) (a : AddressSpace) (user_va : Z) (n : nat) : option (list Z) := read_loop n mem a user_va n [].

Fixpoint write_loop (fuel : nat) (fk : Z -> Z) (oracles : Z -> oracle) (va : Z) (src : list Z) (s : sys) : option (bool * sys) :=
  match fuel with
  | O => Some (true, s)
  | S f =>
      match src with
      | [] => Some (true, s)
      | _ =>
          '(ok, s) ← unshare_cow_page fk (oracles va) va false s;
          if negb ok then Some (false, s)
          else if is_shared_readonly_file_page s va then Some (false, s)
          else
            '(_, s) ← (if is_clean_writable_file_page s va then handle_user_page_fault fk (oracles va) va true s else Some (true, s));
            match virt_to_phys (asp s) va with
            | None => Some (false, s)
            | Some ph =>
                let chunk := Nat.min (Z.to_nat (PAGE_SIZE - va mod PAGE_SIZE)) (length src) in
                write_loop f fk oracles (va + Z.of_nat chunk) (drop chunk src) (set_wld (emit [Store ph (take chunk src)] (wld s)) s)
            end
      end
  end.
Definition write_user_buf (fk : Z -> Z) (oracles : Z -> oracle) (user_va : Z) (src : list Z) (s : sys) : option (bool * sys) :=
  write_loop (length src) fk oracles user_va src s.

(** ** Queries of the system calls *)
Definition shared_file_keys (fk : Z -> Z) (addr l : Z) (a : AddressSpace) : option (list Z) :=
  e ← checked_add addr (page_up l);
  let '(keys, covered) := foldl (fun '(keys, covered) r =>
      if (end_ r <=? addr) || (e <=? start r) then (keys, covered)
      else
        let covered := wrap64 (covered + (Z.min (end_ r) e - Z.max (start r) addr)) in
        if lazy r && has (map_flags r) MAP_SHARED && is_file_backed (file_cap r) then
          let k := fk (file_cap r) in
          (if negb (k =? 0) && negb (existsb (Z.eqb k) keys) then keys ++ [k] else keys, covered)
        else (keys, covered)) ([], 0) (live (regions a)) in
  if covered <? e - addr then None else Some keys.

(** The walk of one region, below the best page found so far. *)
Fixpoint absent_loop (fuel : nat) (r : VmaRegion) (va stop : Z) (best : option Z) : option Z :=
  match fuel with
  | O => best
  | S f =>
      if (va <? stop) && (match best with Some b => va <? b | None => true end) then
        if frame_at r (idx_at r va) =? 0 then Some va else absent_loop f r (va + PAGE_SIZE) stop best
      else best
  end.
Definition first_absent_file_page (from_ e : Z) (a : AddressSpace) : option Z :=
  let from_ := page_down from_ in
  foldl (fun best r =>
      if negb (lazy r) || negb (is_file_backed (file_cap r)) || (end_ r <=? from_) || (e <=? start r) then best
      else absent_loop (Z.to_nat (pages r)) r (Z.max from_ (start r)) (Z.min e (end_ r)) best) None (live (regions a)).

End fault.
