(* ===== verification/VmmCache.v ===== *)
(** * The page cache behind the fault path

    The cache of [PageCache] provides the interface [FrameCache] that the fault
    path of [VmmFault] relies on.  The reference counts are one table: a call hands
    it over and takes it back. *)
From S2P Require Import Prelude BTree PageRef PageCache PageCacheInv PageCacheOps Vmm VmmFault.
#[local] Open Scope Z_scope.

Definition frame_of_page (k g : Z) (c : Cache.t) : option Z := p ← Cache.page_of k g c; if Cache.published p then Some (Cache.phys p) else None.

Definition lookup_frame_in (k g : Z) (x : bool) (r : refs) (c : Cache.t) : option Z * refs * Cache.t :=
  let '(o, c') := Cache.lookup k g x (Cache.set_refs r c) in (o, Cache.frame_refs c', c').

Lemma ordered_files c c' : Cache.files c' = Cache.files c -> ordered c -> ordered c'.
Proof. unfold ordered, Cache.file. by intros ->. Qed.

Lemma page_of_same_files c c' k g : Cache.files c' = Cache.files c -> Cache.page_of k g c' = Cache.page_of k g c.
Proof. unfold Cache.page_of, Cache.file. by intros ->. Qed.

(** An entry whose flags change keeps its frame. *)
Lemma flags_keep_frames k g p f c : ordered c -> Cache.page_of k g c = Some p ->
  let c' := Cache.set_page k g (Some (Cache.set_flags f p)) c in
  ordered c' /\ forall j n, frame_of_page j n c' = frame_of_page j n c.
Proof.
  intros Ho Hp c'. split; [by apply ordered_set_page|]. intros j n. unfold frame_of_page, c'. rewrite page_of_set_page; [|done|].
  - case_decide as E; [|done]. destruct E as [-> ->]. by rewrite Hp.
  - apply page_of_Some in Hp as (fe & Hf & _). by eexists.
Qed.

Lemma lookup_frame_spec k g x r c : ordered c ->
  let '(o, r', c') := lookup_frame_in k g x r c in
  ordered c' /\ (forall j n, frame_of_page j n c' = frame_of_page j n c) /\
  match o with Some p => frame_of_page k g c = Some p /\ p <> 0 /\ r' = inc p r | None => r' = r end.
Proof.
  intros Ho. unfold lookup_frame_in, Cache.lookup. destruct (k =? 0); [done|]. change (Cache.page_of k g (Cache.set_refs r c)) with (Cache.page_of k g c).
  destruct (Cache.page_of k g c) as [p|] eqn:Ep; [|done]. destruct (Cache.published p) eqn:Epub; cbn [negb]; [|done].
  set (c1 := if Cache.on _ _ then _ else _). assert (Cache.files c1 = Cache.files c /\ Cache.frame_refs c1 = r) as [E1 E2] by (unfold c1; by destruct (Cache.on _ _)).
  set (f := Cache.raise _ _). destruct (flags_keep_frames k g p f c1) as [G1 G2]; [by eapply ordered_files|by rewrite (page_of_same_files c)|].
  split; [exact G1|]. split; [|split; [|split]].
  - intros j n. unfold frame_of_page at 1. change (frame_of_page j n (Cache.set_page k g (Some (Cache.set_flags f p)) c1) = frame_of_page j n c). rewrite G2.
    unfold frame_of_page. by rewrite (page_of_same_files c).
  - unfold frame_of_page. rewrite Ep. cbn. by rewrite Epub.
  - by apply published_nonzero.
  - cbn [Cache.pin Cache.frame_refs Cache.set_refs]. by rewrite PageCacheOps.set_page_refs, E2.
Qed.

Lemma mark_dirty_frames k g p c : ordered c ->
  ordered (Cache.mark_dirty k g p c).2 /\ forall j n, frame_of_page j n (Cache.mark_dirty k g p c).2 = frame_of_page j n c.
Proof.
  intros Ho. unfold Cache.mark_dirty. destruct (Cache.file k c) as [fe|] eqn:Ef; [|done]. destruct (Cache.page_of k g c) as [q|] eqn:Eq; [|done].
  destruct (_ || _); [done|]. destruct (Cache.on _ _); [done|]. cbn [snd]. set (f := Cache.raise _ _).
  destruct (flags_keep_frames k g q f c Ho Eq) as [G1 G2]. set (c1 := Cache.set_page _ _ _ _) in *.
  assert (is_Some (Cache.file k c1)) as [fe1 Hf1] by (apply file_set_page_some; [by eexists|done]).
  unfold Cache.with_file. rewrite Hf1. destruct G1 as [S1 S2]. split.
  - split; [by apply bset_sorted|]. intros j fj. change (Cache.file j (Cache.set_file k (Some (Cache.set_ndirty (Cache.ndirty fe1 + 1) fe1)) c1) = Some fj -> sorted (Cache.pages fj)).
    rewrite file_set_file by done. case_decide; [|apply S2]. intros [= <-]. exact (S2 k fe1 Hf1).
  - intros j n. rewrite <- G2. unfold frame_of_page. f_equal. unfold Cache.page_of. change (Cache.file j (Cache.set_DIRTY _ ?c)) with (Cache.file j c).
    rewrite file_set_file by done. case_decide; [|done]. subst j. by rewrite Hf1.
Qed.

#[global] Instance cache_frames : FrameCache Cache.t := {
  fc_lookup := lookup_frame_in; fc_mark_dirty := Cache.mark_dirty; fc_frame c k g := frame_of_page k g c; fc_ok := ordered;
  fc_lookup_spec := lookup_frame_spec; fc_dirty_frame := mark_dirty_frames }.

Definition empty_cache : Cache.t := Cache.mkCache [] (0, 0) 1 0 0 0 0 0 0 0 true 0 1000 ∅ 500 [] [].

Lemma empty_cache_ok : ordered empty_cache.
Proof. split; [constructor|]. intros k fe Hf. done. Qed.
