(* ===== verification/VmmTouch.v ===== *)
(** * Address spaces: faults keep the invariant

    Proofs about the first half of a page fault, [plan_user_page_fault] of
    [VmmFault], against the view of [VmmView]. *)
From S2P Require Import Prelude KLib PageSites PageRef PageVec BTree PageCache Vmm VmmView VmmMap VmmOps VmmBrk VmmFault.
#[local] Open Scope Z_scope.

(** ** Regions that differ in their pages only *)
Definition same_attrs (r r' : VmaRegion) : Prop :=
  set_words (written r) (set_lazy_count (lazy_count r) (set_lazy_pages (lazy_pages r) r')) = r.

Lemma same_attrs_refl r : same_attrs r r.
Proof. by destruct r. Qed.

Lemma same_attrs_trans r1 r2 r3 : same_attrs r1 r2 -> same_attrs r2 r3 -> same_attrs r1 r3.
Proof. unfold same_attrs. destruct r1, r2, r3. cbn. intros H1 H2. injection H1. injection H2. intros. by subst. Qed.

(** Projections of the shared attributes. *)
Ltac attrs E :=
  pose proof (f_equal start E); pose proof (f_equal end_ E); pose proof (f_equal phys E); pose proof (f_equal flags E);
  pose proof (f_equal lazy E); pose proof (f_equal prot E); pose proof (f_equal map_flags E); pose proof (f_equal file_cap E);
  pose proof (f_equal file_off E); pose proof (f_equal file_len E); pose proof (f_equal cow E);
  cbn [set_words set_lazy_count set_lazy_pages start end_ phys flags lazy prot map_flags file_cap file_off file_len cow] in *.

(** Closes a goal in which the attributes of one region stand for the other's. *)
Ltac same E := attrs E; repeat match goal with H : _ = _ |- _ => first [rewrite H; clear H | clear H] end; try done.

(** [r'] is [r] with the given frames and written bits. *)
Record revised (r r' : VmaRegion) (fr : nat -> Z) (wr : nat -> bool) : Prop := {
  rv_same : same_attrs r r';
  rv_ok : region_ok r';
  rv_frame : forall i, frame_at r' i = fr i;
  rv_written : forall i, is_written r' i = wr i }.

Lemma grow_to_spec n r : region_ok r -> lazy r = true -> Z.of_nat n <= pages r ->
  revised r (grow_to n r) (frame_at r) (is_written r) /\ (n <= PageVec.len (lazy_pages (grow_to n r)))%nat.
Proof.
  intros R Hl Hn. unfold grow_to. destruct (Nat.ltb_spec (PageVec.len (lazy_pages r)) n) as [Hlt|Hge].
  2: { split; [|done]. split; [apply same_attrs_refl|done..]. }
  destruct (resize_spec n (lazy_pages r) (ro_pv r R)) as (W & L & _). split; [|cbn; lia].
  assert (forall i, frame_at (set_lazy_pages (PageVec.resize n (lazy_pages r)) r) i = frame_at r i) as Hf.
  { intros i. rewrite !frame_at_list by (done || apply R). cbn [set_lazy_pages lazy_pages]. rewrite resize_list by apply R.
    rewrite take_ge by (rewrite length_to_list; lia). rewrite lookup_app. destruct (to_list (lazy_pages r) !! i); [done|]. cbn.
    destruct (replicate _ 0 !! _) as [x|] eqn:Er; [|done]. by apply lookup_replicate in Er as [-> _]. }
  split; [by destruct r| |done|done]. split; try apply R; try done.
  - intros _ i Hi. rewrite Hf. by apply (ro_len r R).
  - intros _. cbn [set_lazy_pages lazy_pages lazy_count]. rewrite count_present_spec, resize_list by (done || apply R).
    rewrite take_ge by (rewrite length_to_list; lia). rewrite countb_app, countb_replicate, Z.add_0_r by done.
    rewrite <- count_present_spec by apply R. by apply (ro_count r R).
Qed.

Lemma lookup_frame r i : PageVec.wf (lazy_pages r) -> (i < PageVec.len (lazy_pages r))%nat -> to_list (lazy_pages r) !! i = Some (frame_at r i).
Proof.
  intros W Hi. rewrite frame_at_list by done. destruct (lookup_lt_is_Some_2 (to_list (lazy_pages r)) i) as [p Hp]; [by rewrite length_to_list|].
  by rewrite Hp.
Qed.

(** A frame in place of another, or of none. *)
Lemma put_frame_spec i p r : region_ok r -> lazy r = true -> p <> 0 -> Z.of_nat i < pages r -> (i < PageVec.len (lazy_pages r))%nat ->
  exists r', (if frame_at r i =? 0 then add_frame i p r else put_frame i p r) = Some r' /\
    revised r r' (fun j => if decide (j = i) then p else frame_at r j) (is_written r).
Proof.
  intros R Hl Hp Hi Hlen. pose proof (index_mut_list i p (lazy_pages r) (ro_pv r R)) as HI. rewrite decide_True in HI by done.
  destruct HI as (pv & E & W & L). unfold add_frame, put_frame. rewrite E. cbn [mbind option_bind].
  pose proof (lookup_frame r i (ro_pv r R) Hlen) as Hfi.
  assert (forall r', lazy_pages r' = pv -> forall j, frame_at r' j = if decide (j = i) then p else frame_at r j) as Hf.
  { intros r' Hr' j. rewrite !frame_at_list by (rewrite ?Hr'; done || apply R). rewrite Hr', L. case_decide as Ej; [subst; by rewrite list_lookup_insert_eq by by apply lookup_lt_Some in Hfi|].
    by rewrite list_lookup_insert_ne. }
  assert (Z.of_nat (PageVec.count_present pv) = lazy_count r + (if frame_at r i =? 0 then 1 else 0)) as Hc.
  { rewrite count_present_spec, L, (countb_insert _ _ i p _ Hfi), <- count_present_spec, <- (ro_count r R Hl) by (done || apply R).
    rewrite (proj2 (Z.eqb_neq p 0) Hp). cbn. destruct (frame_at r i =? 0); cbn; lia. }
  assert (forall r', same_attrs r r' -> lazy_pages r' = pv -> written r' = written r -> lazy_count r' = Z.of_nat (PageVec.count_present pv) ->
    revised r r' (fun j => if decide (j = i) then p else frame_at r j) (is_written r)) as Hgoal.
  { intros r' S1 Hpv Hw Hct. split; [done| |by apply Hf|intros j; unfold is_written; by rewrite Hw]. pose proof (Hf r' Hpv) as Hfr. destruct (pages_ok r R) as [Hpg _]. attrs S1.
    destruct R. split; rewrite ?Hpv, ?Hct; try congruence.
    - intros _ j Hj. replace (end_ r' - start r') with (end_ r - start r) in Hj by congruence. rewrite Hfr, decide_False; [by apply ro_len|]. intros ->. lia. }
  destruct (frame_at r i =? 0); eexists; (split; [done|]); apply Hgoal; try done; try (by destruct r); cbn [set_lazy_count set_lazy_pages lazy_count]; lia.
Qed.

Lemma revised_trans r r1 r2 f1 w1 f2 w2 : revised r r1 f1 w1 -> revised r1 r2 f2 w2 -> revised r r2 f2 w2.
Proof. intros [A1 _ _ _] [B1 B2 B3 B4]. split; [by eapply same_attrs_trans|done..]. Qed.

Lemma revised_ext r r' f f' w w' : revised r r' f w -> (forall i, f i = f' i) -> (forall i, w i = w' i) -> revised r r' f' w'.
Proof. intros [A1 A2 A3 A4] Hf Hw. split; [done|done|intros i; by rewrite A3|intros i; by rewrite A4]. Qed.

Lemma region_ok_words ws r : region_ok r -> region_ok (set_words ws r).
Proof. intros R. destruct R. split; try done. Qed.

Lemma set_written_spec i on r : region_ok r ->
  revised r (set_written i on r) (frame_at r)
    (fun j => if on then (j =? i)%nat && tracks_written r && (Z.of_nat i <? file_pages r) || is_written r j else is_written r j && negb (j =? i)%nat).
Proof.
  intros R. assert (forall ws, same_attrs r (set_words ws r)) as Hs by (intros ws; by destruct r).
  destruct on; cbn [set_written].
  - destruct (tracks_written r) eqn:Et; cbn [negb orb].
    2: { split; [apply same_attrs_refl|done|done|]. intros j. by rewrite andb_false_r. }
    destruct (Z.leb_spec (file_pages r) (Z.of_nat i)) as [Hle|Hlt].
    + split; [apply same_attrs_refl|done|done|]. intros j. rewrite (proj2 (Z.ltb_ge _ _)) by lia. by rewrite andb_false_r.
    + split; [done|by apply region_ok_words|done|]. intros j. rewrite (proj2 (Z.ltb_lt _ _)), !andb_true_r by lia. apply set_bit_spec.
  - split; [done|by apply region_ok_words|done|]. intros j. apply clear_bit_spec.
Qed.

(** A page that was just marked written is not clean. *)
Lemma written_not_clean i r : region_ok r -> lazy r = true -> clean (page_no (set_written i true r) i) = false.
Proof.
  intros R Hl. pose proof (set_written_spec i true r R) as [S1 R' _ W]. pose proof (clean_page _ i R') as E. attrs S1.
  replace (lazy (set_written i true r)) with true in E by congruence. rewrite andb_true_l in E. rewrite <- E. unfold clean_file_page. rewrite W, Nat.eqb_refl.
  unfold tracks_written, file_pages in *. replace (lazy (set_written i true r)) with (lazy r) by congruence.
  replace (file_cap (set_written i true r)) with (file_cap r) by congruence. replace (file_len (set_written i true r)) with (file_len r) by congruence.
  destruct (lazy r && is_file_backed (file_cap r)); [|done]. cbn [andb]. destruct (_ <? _); done.
Qed.

(** ** Pages *)
Definition frame_opt (p : Z) : option Z := if p =? 0 then None else Some p.
Definition with_page (o : option Z) (b : bool) (pg : page) : page :=
  mkPage o (p_flags pg) (p_prot pg) (p_map pg) (p_cap pg) (p_pos pg) (p_bytes pg) (p_cow pg) b.

Lemma page_revised r r' fr wr i : lazy r = true -> revised r r' fr wr -> page_no r' i = with_page (frame_opt (fr i)) (wr i) (page_no r i).
Proof.
  intros Hl [S1 _ F W]. unfold page_no, with_page, frame_of, bytes_of. cbn [p_flags p_prot p_map p_cap p_pos p_bytes p_cow]. rewrite F, W.
  unfold frame_opt. same S1.
Qed.

Lemma page_frame_lazy r i : lazy r = true -> p_frame (page_no r i) = frame_opt (frame_at r i).
Proof. intros Hl. unfold page_no, frame_of. cbn [p_frame]. by rewrite Hl. Qed.

Lemma with_page_same pg : with_page (p_frame pg) (p_written pg) pg = pg.
Proof. by destruct pg. Qed.

(** An absent page, with or without a frame now. *)
Definition settles (pg pg' : page) : Prop := p_frame pg = None /\ exists o b, pg' = with_page o b pg.

(** Pages change only by gaining a frame. *)
Definition only_fills (l l' : list VmaRegion) : Prop :=
  forall va, view l' va = view l va \/ exists pg pg', view l va = Some pg /\ view l' va = Some pg' /\ settles pg pg'.

Lemma only_fills_refl l : only_fills l l.
Proof. intros va. by left. Qed.

Lemma only_fills_trans l1 l2 l3 : only_fills l1 l2 -> only_fills l2 l3 -> only_fills l1 l3.
Proof.
  intros H1 H2 va. destruct (H1 va) as [E1|(pg & pg' & V1 & V2 & S1)], (H2 va) as [E2|(qg & qg' & W1 & W2 & T1)].
  - left. congruence.
  - right. exists qg, qg'. split; [congruence|done].
  - right. exists pg, pg'. split; [done|]. split; [congruence|done].
  - right. rewrite V2 in W1. injection W1 as <-. exists pg, qg'. split_and!; try done. destruct S1 as [F1 (o & b & ->)], T1 as [F2 (o' & b' & ->)].
    split; [done|]. by exists o', b'.
Qed.

(** ** Touching one page *)

(** No frame that backs a copy-on-write page and had one owner has more now. *)
Definition refs_safe (l : list VmaRegion) (rf rf' : refs) : Prop :=
  forall q, 1 < PageRef.get q rf' -> 1 < PageRef.get q rf \/ forall va pg, view l va = Some pg -> p_cow pg = true -> p_frame pg <> Some q.

Lemma refs_safe_refl l rf : refs_safe l rf rf.
Proof. intros q. by left. Qed.

Lemma refs_safe_le l rf rf' : (forall q, PageRef.get q rf' <= PageRef.get q rf) -> refs_safe l rf rf'.
Proof. intros H q Hq. left. specialize (H q). lia. Qed.

Lemma may_write_refs l rf rf' pg p va : refs_safe l rf rf' -> view l va = Some pg -> p_frame pg = Some p -> may_write rf pg p = true -> may_write rf' pg p = true.
Proof.
  intros Hs Hv Hf. unfold may_write. rewrite !andb_true_iff, !negb_true_iff. intros [[H1 H2] H3]. split_and!; try done.
  destruct (p_cow pg) eqn:Ec; cbn [andb] in *; [|done]. rewrite Z.ltb_ge in *. destruct (Z.le_gt_cases (PageRef.get p rf') 1) as [|Hgt]; [done|].
  destruct (Hs p ltac:(lia)) as [|Hn]; [lia|]. by destruct (Hn va pg Hv).
Qed.

Lemma same_page r va i : region_ok r -> (PAGE_SIZE | va) -> covers va r = true -> idx_of r va = i <-> va = va_of (start r) i.
Proof.
  intros R Hd Hc%covers_spec. split; [intros <-; apply idx_va; [done|done|lia]|intros ->; apply va_idx].
Qed.

Section touch.
Context {T : Type} `{PageTable T}.
Implicit Types (t : T) (w : world T).

Lemma touch_page a w w' slot r r' i p wr e :
  vm_ok a w -> regions a !! slot = Some (Some r) -> lazy r = true -> Z.of_nat i < pages r ->
  revised r r' (fun j => if decide (j = i) then p else frame_at r j) wr -> (forall j, j <> i -> wr j = is_written r j) ->
  (forall va, pte (pt w') va = if decide (va = va_of (start r) i) then e else pte (pt w) va) ->
  (forall q f, e = Some (q, f) -> q = p /\ p <> 0 /\ (contains f WRITABLE = true -> may_write (page_refs w') (page_no r' i) p = true)) ->
  shared_only (page_refs w') -> refs_safe (live (regions a)) (page_refs w) (page_refs w') ->
  let a' := set_regions (<[slot := Some r']> (regions a)) a in
  vm_ok a' w' /\ forall va, view (live (regions a')) va =
    if covers va r && (idx_of r va =? i)%nat then Some (page_no r' i) else view (live (regions a)) va.
Proof.
  intros HV Hr Hl Hi Rv Hwr Ht He HR' Hsafe a'. pose proof HV as (HS & HN & HR). pose proof HS as [HF HP].
  assert (r ∈ live (regions a)) as Hin by (apply live_elem; by eapply list_elem_of_lookup_2). rewrite Forall_forall in HF. pose proof (HF r Hin) as R.
  pose proof Rv as [S1 R' F W]. destruct (live_at _ _ _ Hr) as (rest & Hlv & Hins). specialize (Hins (Some r')).
  change (option_list (Some r) ++ rest) with (r :: rest) in Hlv. change (option_list (Some r') ++ rest) with (r' :: rest) in Hins.
  pose proof (space_ok_perm _ _ Hlv HS) as HS1. apply space_ok_cons in HS1 as (_ & Hr1 & HS1).
  assert (start r' = start r /\ end_ r' = end_ r) as [Es Ee] by (attrs S1; done).
  assert (forall va, covers va r' = covers va r) as Ec by (intros va; unfold covers; by rewrite Es, Ee).
  assert (forall va, idx_of r' va = idx_of r va) as Eidx by (intros va; by apply idx_start).
  assert (space_ok (r' :: rest)) as HS2.
  { apply space_ok_cons. split_and!; [done| |done]. eapply Forall_impl; [exact Hr1|]. unfold apart. by rewrite Es, Ee. }
  assert (pairwise (live (regions a'))) as HP' by (eapply pairwise_perm; [symmetry; exact Hins|apply HS2]).
  assert (forall va, covers va r = true -> view (live (regions a)) va = Some (page_no r (idx_of r va))) as Hold by (intros va Hc; by apply view_elem).
  assert (forall va, view (live (regions a')) va = if covers va r && (idx_of r va =? i)%nat then Some (page_no r' i) else view (live (regions a)) va) as Hv.
  { intros va. etrans; [apply (view_perm _ _ va Hins HP')|]. rewrite view_cons, Ec, Eidx. destruct (covers va r) eqn:Ecv; cbn [andb].
    - destruct (Nat.eqb_spec (idx_of r va) i) as [->|Hne]; [done|]. rewrite Hold by done. f_equal. rewrite (page_revised r r' _ _ _ Hl Rv), decide_False, Hwr by done.
      rewrite <- (page_frame_lazy r _ Hl). apply (with_page_same (page_no r (idx_of r va))).
    - rewrite (view_perm _ _ va Hlv HP), view_cons, Ecv. done. }
  split; [|exact Hv]. split; [eapply space_ok_perm; [symmetry; exact Hins|done]|]. split; [|done].
  intros va q f Hq. rewrite Ht in Hq. rewrite Hv. destruct (decide (va = va_of (start r) i)) as [->|Hne].
  - destruct (He q f Hq) as (-> & Hp & Hw). split; [by apply va_aligned|]. rewrite (proj2 (covers_va r i R) Hi), va_idx, Nat.eqb_refl. cbn [andb].
    exists (page_no r' i). split; [done|]. split; [|done]. rewrite (page_revised r r' _ _ i Hl Rv), decide_True by done. cbn. unfold frame_opt. by rewrite (proj2 (Z.eqb_neq p 0) Hp).
  - destruct (HN va q f Hq) as (Hd & pg & Hvw & Hf & Hw). split; [done|]. exists pg.
    destruct (covers va r) eqn:Ecv; cbn [andb].
    + destruct (Nat.eqb_spec (idx_of r va) i) as [Ei|_]; [destruct Hne; by apply same_page|]. split_and!; try done. intros Hx. eapply may_write_refs; eauto.
    + split_and!; try done. intros Hx. eapply may_write_refs; eauto.
Qed.

(** No entry leads to an absent page. *)
Lemma absent_pte a w slot r i : vm_ok a w -> regions a !! slot = Some (Some r) -> lazy r = true -> frame_at r i = 0 -> Z.of_nat i < pages r ->
  pte (pt w) (va_of (start r) i) = None.
Proof.
  intros (HS & HN & _) Hr Hl Hf Hi. destruct HS as [HF HP]. assert (r ∈ live (regions a)) as Hin by (apply live_elem; by eapply list_elem_of_lookup_2).
  rewrite Forall_forall in HF. pose proof (HF r Hin) as R. destruct (pte (pt w) _) as [[p f]|] eqn:E; [|done].
  destruct (HN _ _ _ E) as (_ & pg & Hv & Hp & _). rewrite (view_elem _ _ r) in Hv by (done || by apply covers_va).
  injection Hv as <-. rewrite va_idx, page_frame_lazy, Hf in Hp by done. done.
Qed.

Lemma slot_region a w slot r : vm_ok a w -> regions a !! slot = Some (Some r) -> region_ok r /\ r ∈ live (regions a).
Proof.
  intros ([HF _] & _) Hr. assert (r ∈ live (regions a)) as Hin by (apply live_elem; by eapply list_elem_of_lookup_2).
  split; [|done]. rewrite Forall_forall in HF. by apply HF.
Qed.

Lemma clean_with o pg : clean (with_page o (p_written pg) pg) = clean pg.
Proof. done. Qed.

(** The page of a region that gains a frame. *)
Lemma fill_region i p b r : region_ok r -> lazy r = true -> frame_at r i = 0 -> p <> 0 -> Z.of_nat i < pages r -> (i < PageVec.len (lazy_pages r))%nat ->
  exists wr r2, add_frame i p (set_written i b r) = Some r2 /\ revised r (set_written i b r) (frame_at r) wr
    /\ revised r r2 (fun j => if decide (j = i) then p else frame_at r j) wr /\ (forall j, j <> i -> wr j = is_written r j)
    /\ clean (page_no r2 i) = clean_file_page (set_written i b r) i.
Proof.
  intros R Hl Hf Hp Hi Hlen. pose proof (set_written_spec i b r R) as Rv. set (r1 := set_written i b r) in *. set (wr := fun j => if b then _ else _) in Rv.
  pose proof Rv as [S1 R1 F1 W1]. assert (lazy_pages r1 = lazy_pages r) as Hpv.
  { unfold r1, set_written. destruct b; [|done]. by destruct (_ || _). }
  assert (lazy r1 = true /\ pages r1 = pages r) as [Hl1 Hp1] by (unfold pages; attrs S1; split; congruence).
  destruct (put_frame_spec i p r1 R1 Hl1 Hp) as (r2 & E & Rv2); [by rewrite Hp1|by rewrite Hpv|]. rewrite F1, Hf in E. cbn in E.
  assert (revised r r2 (fun j => if decide (j = i) then p else frame_at r j) wr) as Rv2'.
  { eapply revised_ext; [by eapply revised_trans; [exact Rv|exact Rv2]| |done]. intros j. cbn. by rewrite F1. }
  exists wr, r2. split_and!; try done.
  - intros j Hj. unfold wr. rewrite (proj2 (Nat.eqb_neq j i) Hj). cbn. destruct b; [done|]. by rewrite andb_true_r.
  - rewrite (page_revised r1 r2 _ _ i Hl1 Rv2). change (is_written r1 i) with (p_written (page_no r1 i)). rewrite clean_with, (clean_page r1 i R1), Hl1. done.
Qed.

Definition with_region (slot : nat) (r : VmaRegion) (a : AddressSpace) : AddressSpace := set_regions (<[slot := Some r]> (regions a)) a.

(** What becomes of a region's pages when page [i] gets frame [p] ([0]: none). *)
Definition fills (r r' : VmaRegion) (i : nat) (p : Z) : Prop := forall j, frame_at r' j = if decide (j = i) then p else frame_at r j.

Lemma fills_view l l' r r' i p wr : pairwise l -> r ∈ l -> lazy r = true -> frame_at r i = 0 ->
  revised r r' (fun j => if decide (j = i) then p else frame_at r j) wr ->
  (forall va, view l' va = if covers va r && (idx_of r va =? i)%nat then Some (page_no r' i) else view l va) -> only_fills l l'.
Proof.
  intros HP Hr Hl Hf Rv Hv va. rewrite Hv.
  destruct (covers va r) eqn:Ec; [|by left]. destruct (Nat.eqb_spec (idx_of r va) i) as [Ei|]; [|by left].
  right. exists (page_no r i), (page_no r' i). cbn [andb]. rewrite (view_elem l va r) by done. rewrite Ei. split_and!; try done.
  split; [by rewrite page_frame_lazy, Hf by done|]. exists (frame_opt p), (wr i). rewrite (page_revised r r' _ _ i Hl Rv), decide_True by done. done.
Qed.

Lemma map_frame_spec a w0 w slot r rg i p b fl :
  vm_ok a w0 -> regions a !! slot = Some (Some r) -> lazy r = true -> Z.of_nat i < pages r -> frame_at r i = 0 -> p <> 0 ->
  revised r rg (frame_at r) (is_written r) -> (i < PageVec.len (lazy_pages rg))%nat ->
  pt w = pt w0 -> shared_only (page_refs w) -> refs_safe (live (regions a)) (page_refs w0) (page_refs w) ->
  (contains fl WRITABLE = true -> contains (flags r) WRITABLE = true /\ (cow r = true -> PageRef.get p (page_refs w) <= 1)
     /\ clean_file_page (set_written i b rg) i = false) ->
  exists ok r' w', map_frame i p fl (set_written i b rg) w = Some (ok, r', w') /\ same_attrs r r' /\ fills r r' i (if ok then p else 0)
    /\ page_refs w' = page_refs w /\ log w' = log w /\ last_fail w' = last_fail w
    /\ vm_ok (with_region slot r' a) w' /\ only_fills (live (regions a)) (live (regions (with_region slot r' a)))
    /\ (forall va, pte (pt w') va = if decide (va = va_of (start r) i) then (if ok then Some (p, fl) else None) else pte (pt w0) va)
    /\ (ok = false -> (map_page (va_of (start r) i) p fl (pt w0)).1 = false).
Proof.
  intros HV Hr Hl Hi Hf Hp Rg Hlen Hpt HR Hsafe Hw. destruct (slot_region a w0 slot r HV Hr) as [R Hin]. pose proof Rg as [S0 Rok F0 W0].
  assert (lazy rg = true /\ pages rg = pages r /\ start rg = start r) as (Hlg & Hpg & Hsg) by (unfold pages; attrs S0; split_and!; congruence).
  destruct (fill_region i p b rg Rok Hlg) as (wr & r2 & E2 & Rv1 & Rv2 & Hwr & Hcl); [by rewrite F0|done|by rewrite Hpg|done|].
  set (r1 := set_written i b rg) in *. assert (start r1 = start r) as Hs1 by (destruct Rv1 as [S1 _ _ _]; attrs S1; congruence).
  assert (revised r r1 (fun j => if decide (j = i) then 0 else frame_at r j) wr) as G1.
  { eapply revised_ext; [by eapply revised_trans; [exact Rg|exact Rv1]| |done]. intros j. cbn. rewrite F0. case_decide; congruence. }
  assert (revised r r2 (fun j => if decide (j = i) then p else frame_at r j) wr) as G2.
  { eapply revised_ext; [by eapply revised_trans; [exact Rg|exact Rv2]| |done]. intros j. cbn. by rewrite F0. }
  assert (forall j, j <> i -> wr j = is_written r j) as Hwr' by (intros j Hj; by rewrite Hwr, W0).
  unfold map_frame, map_at. rewrite Hs1. destruct (map_page (va_of (start r) i) p fl (pt w)) as [ok t'] eqn:Em. destruct ok; cbn [negb].
  - rewrite E2. cbn [mbind option_bind]. exists true, r2, (set_pt t' w). pose proof (pte_map _ _ _ _ _ Em) as Ht. rewrite Hpt in Ht.
    destruct (touch_page a w0 (set_pt t' w) slot r r2 i p wr (Some (p, fl)) HV Hr Hl Hi G2 Hwr' Ht) as [V1 V2]; [|done|done|].
    { intros q f [= <- <-]. split_and!; try done. intros Hc. destruct (Hw Hc) as (H1 & H2 & H3). unfold may_write.
      rewrite (page_revised r r2 _ _ i Hl G2) at 1 2. cbn [with_page p_flags p_cow page_no]. rewrite H1, Hcl, H3. cbn. destruct (cow r); [|done].
      cbn. rewrite (proj2 (Z.ltb_ge _ _) (H2 eq_refl)). done. }
    split; [done|]. split; [apply G2|]. split; [exact (rv_frame _ _ _ _ G2)|]. 
    pose proof (fills_view _ _ _ _ _ _ _ (proj2 (proj1 HV)) Hin Hl Hf G2 V2). by split_and!.
  - exists false, r1, (set_pt t' w). pose proof (pte_map_fail _ _ _ _ _ Em) as Ht. rewrite Hpt in Ht.
    assert (forall va, pte t' va = if decide (va = va_of (start r) i) then None else pte (pt w0) va) as Ht'.
    { intros va. rewrite Ht. case_decide; [subst; by apply (absent_pte a w0 slot)|done]. }
    destruct (touch_page a w0 (set_pt t' w) slot r r1 i 0 wr None HV Hr Hl Hi G1 Hwr' Ht') as [V1 V2]; [done|done|done|].
    split; [done|]. split; [apply G1|]. split; [exact (rv_frame _ _ _ _ G1)|]. 
    pose proof (fills_view _ _ _ _ _ _ _ (proj2 (proj1 HV)) Hin Hl Hf G1 V2). split_and!; try done. intros _. by rewrite <- Hpt, Em.
Qed.
End touch.

(** Taking away write permission leaves the user's. *)
Lemma contains_user f : contains f USER = true -> contains (Z.land f (not64 WRITABLE)) USER = true.
Proof. unfold contains. rewrite !Z.eqb_eq, <- Z.land_assoc. by change (Z.land (not64 WRITABLE) USER) with USER. Qed.
Lemma install_flags_user r i f : contains f USER = true -> contains (install_flags r i f) USER = true.
Proof. unfold install_flags. destruct (_ && _); [apply contains_user|done]. Qed.

Lemma install_flags_ok r i : contains (install_flags r i (flags r)) WRITABLE = true -> contains (flags r) WRITABLE = true /\ clean_file_page r i = false.
Proof.
  unfold install_flags. destruct (contains (flags r) WRITABLE) eqn:Ew; cbn [andb]; [|by rewrite Ew]. destruct (clean_file_page r i); [by rewrite contains_cleared|done].
Qed.

(** ** Counting the pages behind a frame *)
Definition uses (p : Z) (r : VmaRegion) : Z := if lazy r then countb (fun i => frame_at r i =? p) (seq 0 (Z.to_nat (pages r))) else 0.
Fixpoint mapped_count (p : Z) (l : list VmaRegion) : Z := match l with [] => 0 | r :: l => uses p r + mapped_count p l end.

Definition b2z (P : Prop) `{Decision P} : Z := if decide P then 1 else 0.

Lemma uses_nonneg p r : 0 <= uses p r.
Proof. unfold uses. destruct (lazy r); [|done]. apply countb_bounds. Qed.

Lemma mapped_nonneg p l : 0 <= mapped_count p l.
Proof. induction l as [|r l IH]; cbn; [done|]. pose proof (uses_nonneg p r). lia. Qed.

Lemma mapped_perm p l l' : l ≡ₚ l' -> mapped_count p l = mapped_count p l'.
Proof. induction 1; cbn; lia. Qed.

Lemma uses_pos p r i : lazy r = true -> Z.of_nat i < pages r -> frame_at r i = p -> 1 <= uses p r.
Proof.
  intros Hl Hi Hf. unfold uses. rewrite Hl. assert (i ∈ seq 0 (Z.to_nat (pages r))) as Hin by (apply elem_of_seq; lia).
  apply list_elem_of_split in Hin as (l1 & l2 & ->). rewrite countb_app. cbn [countb]. rewrite Hf, Z.eqb_refl.
  pose proof (countb_bounds (fun i => frame_at r i =? p) l1). pose proof (countb_bounds (fun i => frame_at r i =? p) l2). lia.
Qed.

Lemma mapped_pos p l r i : r ∈ l -> lazy r = true -> Z.of_nat i < pages r -> frame_at r i = p -> 1 <= mapped_count p l.
Proof.
  intros Hr Hl Hi Hf. apply list_elem_of_split in Hr as (l1 & l2 & ->). rewrite (mapped_perm p _ (r :: l1 ++ l2)) by by rewrite Permutation_middle.
  cbn. pose proof (uses_pos p r i Hl Hi Hf). pose proof (mapped_nonneg p (l1 ++ l2)). lia.
Qed.

Lemma countb_update f g n i (x p : Z) : (i < n)%nat -> (forall j, g j = if decide (j = i) then x else f j) ->
  countb (fun j => g j =? p) (seq 0 n) = countb (fun j => f j =? p) (seq 0 n) + b2z (p = x) - b2z (p = f i).
Proof.
  intros Hi Hg. replace n with (i + S (n - S i))%nat by lia. rewrite seq_app, !countb_app. cbn [seq countb].
  assert (forall l, i ∉ l -> countb (fun j => g j =? p) l = countb (fun j => f j =? p) l) as Hext.
  { induction l as [|j l IH]; intros Hn; [done|]. cbn [countb]. rewrite IH, Hg, decide_False by set_solver. done. }
  rewrite !Hext by (rewrite elem_of_seq; lia). rewrite Hg, decide_True by done. unfold b2z.
  destruct (Z.eqb_spec x p), (Z.eqb_spec (f (0 + i)%nat) p); repeat case_decide; try lia; subst; cbn in *; congruence || lia.
Qed.

Lemma uses_fills q p r r' i : lazy r = true -> Z.of_nat i < pages r -> same_attrs r r' -> fills r r' i p ->
  uses q r' = uses q r + b2z (q = p) - b2z (q = frame_at r i).
Proof.
  intros Hl Hi S1 F. unfold uses. assert (lazy r' = true /\ pages r' = pages r) as [-> ->] by (unfold pages; attrs S1; split; congruence).
  rewrite Hl. by rewrite (countb_update (frame_at r) (frame_at r') _ i p q) by (lia || done).
Qed.

Lemma mapped_fills q p slot r r' i a : regions a !! slot = Some (Some r) -> lazy r = true -> Z.of_nat i < pages r -> same_attrs r r' -> fills r r' i p ->
  mapped_count q (live (regions (with_region slot r' a))) = mapped_count q (live (regions a)) + b2z (q = p) - b2z (q = frame_at r i).
Proof.
  intros Hr Hl Hi S1 F. destruct (live_at _ _ _ Hr) as (rest & Hlv & Hins). specialize (Hins (Some r')). cbn [regions with_region set_regions].
  rewrite (mapped_perm _ _ _ Hlv), (mapped_perm _ _ _ Hins). cbn. rewrite (uses_fills q p r r' i) by done. lia.
Qed.

(** ** The system around a fault *)
Definition shared_plain (l : list VmaRegion) : Prop := Forall (fun r => has (map_flags r) MAP_SHARED = true -> cow r = false) l.

Section sys.
Context {T : Type} `{PageTable T} {C : Type} `{FrameCache C}.
Implicit Types (w : world T) (c : C) (s : sys (T := T) (C := C)).

(** Every resident page of a demand-paged mapping owns a reference of its frame, and the cache one more. *)
Definition cached (c : C) (p : Z) : Prop := exists k n, fc_frame c k n = Some p.
Definition owned (l : list VmaRegion) (rf : refs) (c : C) : Prop :=
  forall p, p <> 0 -> mapped_count p l <= PageRef.get p rf /\ (cached c p -> mapped_count p l + 1 <= PageRef.get p rf).

(** [n] more references fit in every counter. *)
Record sys_ok (n : nat) (s : sys (T := T) (C := C)) : Prop := {
  so_vm : vm_ok (asp s) (wld s);
  so_fc : fc_ok (fc s);
  so_owned : owned (live (regions (asp s))) (page_refs (wld s)) (fc s);
  so_plain : shared_plain (live (regions (asp s)));
  so_room : forall p, PageRef.get p (page_refs (wld s)) + Z.of_nat n <= U32_MAX }.

Lemma shared_plain_with slot r r' a : regions a !! slot = Some (Some r) -> same_attrs r r' ->
  shared_plain (live (regions a)) -> shared_plain (live (regions (with_region slot r' a))).
Proof.
  intros Hr S1 HP. destruct (live_at _ _ _ Hr) as (rest & Hl & Hins). specialize (Hins (Some r')). unfold shared_plain in *. cbn [regions with_region set_regions].
  rewrite Hins. rewrite Hl in HP. cbn [option_list app] in *. apply Forall_cons in HP as [HP1 HP2]. apply Forall_cons. split; [|done].
  attrs S1. replace (map_flags r') with (map_flags r) by congruence. replace (cow r') with (cow r) by congruence. done.
Qed.

Lemma with_region_lookup slot r r' a : regions a !! slot = Some (Some r) -> regions (with_region slot r' a) !! slot = Some (Some r').
Proof. intros Hr. cbn. apply list_lookup_insert_eq. by apply lookup_lt_Some in Hr. Qed.

Lemma with_region_twice slot r r' a : with_region slot r' (with_region slot r a) = with_region slot r' a.
Proof. unfold with_region. cbn. by rewrite list_insert_insert_eq. Qed.

Lemma with_region_same slot r a : regions a !! slot = Some (Some r) -> with_region slot r a = a.
Proof. intros Hr. unfold with_region. rewrite list_insert_id by done. by destruct a. Qed.

Lemma set_region_as slot r s : put_region slot r s = mkSys (with_region slot r (asp s)) (wld s) (fc s).
Proof. done. Qed.

(** Copy-on-write pages belong to demand-paged mappings. *)
Lemma cow_lazy l va pg p : space_ok l -> view l va = Some pg -> p_cow pg = true -> p_frame pg = Some p -> p <> 0 /\ 1 <= mapped_count p l.
Proof.
  intros [HF _] (r & Hr & Hc & ->)%view_inv Hcow Hf. rewrite Forall_forall in HF. pose proof (HF r Hr) as R. cbn in Hcow.
  destruct (lazy r) eqn:Hl; [|by destruct (ro_eager r R Hl) as (_ & _ & ?); congruence]. rewrite page_frame_lazy in Hf by done. unfold frame_opt in Hf.
  destruct (Z.eqb_spec (frame_at r (idx_of r va)) 0) as [|Hne]; [done|]. injection Hf as <-. split; [done|]. eapply mapped_pos; [exact Hr|done| |done]. by apply idx_bound.
Qed.

Lemma inc_safe l rf c p : owned l rf c -> space_ok l -> shared_only rf -> PageRef.get p rf < U32_MAX -> cached c p -> refs_safe l rf (inc p rf).
Proof.
  intros HC HS HR Hm Hfr q Hq. destruct (inc_spec p rf HR Hm) as [_ Hg]. rewrite Hg in Hq. destruct (decide (q = p)) as [->|]; [|left; lia].
  destruct (Z.lt_ge_cases 1 (PageRef.get p rf)) as [|Hle]; [by left|right]. intros va pg Hv Hcow Hf. destruct (cow_lazy l va pg p HS Hv Hcow Hf) as [Hp Hm1].
  destruct (HC p Hp) as [_ Hx]. specialize (Hx Hfr). lia.
Qed.

(** A reference taken and given back. *)
Lemma inc_free p rf w : shared_only rf -> PageRef.get p rf < U32_MAX -> page_refs w = inc p rf ->
  shared_only (page_refs (free_frame p w)) /\ (forall q, PageRef.get q (page_refs (free_frame p w)) = PageRef.get q rf)
  /\ pt (free_frame p w) = pt w /\ log (free_frame p w) = log w.
Proof.
  intros HR Hm E. destruct (inc_spec p rf HR Hm) as [HR1 Hg]. pose proof (unref_spec p (inc p rf) HR1) as (U1 & U2 & U3).
  pose proof (get_pos _ p HR). unfold free_frame. rewrite E. destruct (unref_or_free p (inc p rf)) as [b rf']. cbn [fst snd page_refs pt log] in *.
  rewrite Hg, decide_True in U1 by done. rewrite (proj2 (Z.eqb_neq _ _)) in U1 by lia. subst b. split_and!; try done; [|by rewrite app_nil_r].
  intros q. rewrite U3, !Hg. destruct (decide (q = p)) as [->|]; [rewrite decide_True by done|]; lia.
Qed.

Lemma vm_ok_refs a w w' : vm_ok a w -> pt w' = pt w -> shared_only (page_refs w') ->
  (forall q, PageRef.get q (page_refs w') <= PageRef.get q (page_refs w)) -> vm_ok a w'.
Proof. intros (HS & HN & HR) Ht HR' Hle. split; [done|]. split; [|done]. rewrite Ht. by eapply no_stale_refs. Qed.

Lemma grown_for_page i r : region_ok r -> lazy r = true -> Z.of_nat i < pages r ->
  let rg := grow_to (Nat.min (i + 1) (Z.to_nat (pages r))) r in
  revised r rg (frame_at r) (is_written r) /\ (i < PageVec.len (lazy_pages rg))%nat.
Proof.
  intros R Hl Hi rg. destruct (grow_to_spec (Nat.min (i + 1) (Z.to_nat (pages r))) r R Hl) as [G1 G2]; [lia|]. split; [done|]. unfold rg. lia.
Qed.

Lemma written_file_page i r rg : lazy r = true -> revised r rg (frame_at r) (is_written r) -> clean_file_page (set_written i true rg) i = false.
Proof.
  intros Hl Rg. rewrite (clean_page _ i) by apply (set_written_spec i true rg (rv_ok _ _ _ _ Rg)). rewrite written_not_clean, andb_false_r; [done|apply Rg|].
  pose proof (rv_same _ _ _ _ Rg) as S0. attrs S0. congruence.
Qed.

(** One page of the cache enters the mapping, or the reference goes back. *)
Lemma cached_step n s slot r i p k g b :
  sys_ok (S n) s -> regions (asp s) !! slot = Some (Some r) -> lazy r = true -> Z.of_nat i < pages r -> frame_at r i = 0 ->
  fc_frame (fc s) k g = Some p -> p <> 0 ->
  (b = true -> has (map_flags r) MAP_SHARED = true /\ contains (flags r) WRITABLE = true) ->
  exists ok r' w', install_cached i p b r (set_page_refs (inc p (page_refs (wld s))) (wld s)) = Some (ok, r', w')
    /\ same_attrs r r' /\ fills r r' i (if ok then p else 0)
    /\ let s' := mkSys (with_region slot r' (asp s)) (if ok then w' else free_frame p w') (fc s) in
       sys_ok n s' /\ only_fills (live (regions (asp s))) (live (regions (asp s'))) /\ log (wld s') = log (wld s)
       /\ (forall x, x <> (if ok then p else 0) -> PageRef.get x (page_refs (wld s')) = PageRef.get x (page_refs (wld s)))
       /\ exists f, (b = true -> f = flags r) /\ (contains (flags r) USER = true -> contains f USER = true) /\
          (forall va, pte (pt (wld s')) va = if decide (va = va_of (start r) i) then (if ok then Some (p, f) else None) else pte (pt (wld s)) va)
          /\ (ok = false -> (map_page (va_of (start r) i) p f (pt (wld s))).1 = false).
Proof.
  intros [HV Hfc HC HP Hroom] Hr Hl Hi Hf Hfr Hp Hb. destruct (slot_region _ _ _ _ HV Hr) as [R Hin]. pose proof HV as (_ & _ & HR).
  assert (PageRef.get p (page_refs (wld s)) < U32_MAX) as Hm by (specialize (Hroom p); lia). destruct (inc_spec p _ HR Hm) as [HR1 Hg].
  destruct (grown_for_page i r R Hl Hi) as [Rg Hlen]. unfold install_cached. set (rg := grow_to _ r) in *.
  assert (b = true -> clean_file_page (set_written i b rg) i = false) as Hcl by (intros ->; by apply (written_file_page i r)). set (r1 := set_written i b rg) in *.
  set (f := if b then flags r1 else _). set (w := set_page_refs _ _).
  assert (flags r1 = flags r /\ start r1 = start r) as [Ef1 Es1].
  { pose proof (rv_same _ _ _ _ (revised_trans _ _ _ _ _ _ _ Rg (set_written_spec i b rg (rv_ok _ _ _ _ Rg)))) as S1. attrs S1. done. }
  destruct (map_frame_spec (asp s) (wld s) w slot r rg i p b f HV Hr Hl Hi Hf Hp Rg Hlen) as (ok & r' & w' & E & S1 & F & Erf & Elog & _ & V & O & Hpte & Href);
    [done|done|eapply inc_safe; [exact HC|apply HV|done|done|by exists k, g]| |].
  { unfold f. intros Hc. destruct b; [|by rewrite contains_cleared in Hc]. destruct (Hb eq_refl) as [Hs Hw]. split; [done|]. split.
    - unfold shared_plain in HP. rewrite Forall_forall in HP. by rewrite (HP r Hin Hs).
    - by apply Hcl. }
  exists ok, r', w'. split; [done|]. split; [done|]. split; [done|]. change (page_refs w) with (inc p (page_refs (wld s))) in Erf.
  destruct (inc_free p _ w' HR Hm Erf) as (F1 & F2 & F3 & F4). cbn [asp wld fc]. split; [|split; [done|split; [|split]]].
  - split; cbn [asp wld fc]; [|done| |by eapply shared_plain_with|].
    + destruct ok; [done|]. apply (vm_ok_refs _ w'); [done|done|done|]. intros q. rewrite F2, Erf, Hg. destruct (decide _); lia.
    + intros q Hq. rewrite (mapped_fills q (if ok then p else 0) slot r r' i) by done. rewrite Hf. destruct (HC q Hq) as [H1 H2].
      assert (b2z (q = 0) = 0) as -> by (unfold b2z; by rewrite decide_False). unfold b2z.
      assert (PageRef.get q (page_refs (if ok then w' else free_frame p w')) = PageRef.get q (page_refs (wld s)) + (if decide (q = if ok then p else 0) then 1 else 0)) as ->.
      { destruct ok; [by rewrite Erf, Hg|]. rewrite F2, decide_False by done. lia. }
      split; [lia|]. intros Hx. specialize (H2 Hx). lia.
    + intros q. specialize (Hroom q). destruct ok; [rewrite Erf, Hg; destruct (decide _); lia|rewrite F2; lia].
  - destruct ok; [done|by rewrite F4].
  - intros x Hx. destruct ok; [rewrite Erf, Hg, decide_False by done; lia|by rewrite F2].
  - exists f. split; [intros ->; done|]. split; [unfold f; rewrite Ef1; intros Hu; destruct b; [done|]; by apply contains_user, install_flags_user|]. split; [|done]. intros va. destruct ok; [done|]. rewrite F3. apply Hpte.
Qed.

Lemma sys_ok_cache n s c : sys_ok n s -> fc_ok c -> (forall k g, fc_frame c k g = fc_frame (fc s) k g) -> sys_ok n (mkSys (asp s) (wld s) c).
Proof. intros [HV Hfc HC HP Hroom] Hc Hfr. split; cbn; try done. intros p Hp. destruct (HC p Hp) as [H1 H2]. split; [done|]. intros (k & g & Hx). apply H2. exists k, g. by rewrite <- Hfr. Qed.

Lemma sys_ok_le n m s : (m <= n)%nat -> sys_ok n s -> sys_ok m s.
Proof. intros Hle [HV Hfc HC HP Hroom]. split; try done. intros p. specialize (Hroom p). lia. Qed.

(** How a system relates to the one a fault started from: resident pages of the
    mapping keep their frames, entries stay, and pages change only by gaining a frame. *)
Record progressed (slot : nat) (r r' : VmaRegion) (s s' : sys (T := T) (C := C)) : Prop := {
  pr_slot : regions (asp s') !! slot = Some (Some r');
  pr_same : same_attrs r r';
  pr_frames : forall j, frame_at r j <> 0 -> frame_at r' j = frame_at r j;
  pr_fills : only_fills (live (regions (asp s))) (live (regions (asp s')));
  pr_pte : forall va e, pte (pt (wld s)) va = Some e -> pte (pt (wld s')) va = Some e }.

Lemma progressed_refl slot r s : regions (asp s) !! slot = Some (Some r) -> progressed slot r r s s.
Proof. intros Hr. split; try done; [apply same_attrs_refl|apply only_fills_refl]. Qed.

Lemma progressed_trans slot r1 r2 r3 s1 s2 s3 : progressed slot r1 r2 s1 s2 -> progressed slot r2 r3 s2 s3 -> progressed slot r1 r3 s1 s3.
Proof.
  intros [A1 A2 A3 A4 A5] [B1 B2 B3 B4 B5]. split; [done|by eapply same_attrs_trans| |by eapply only_fills_trans|auto].
  intros j Hj. rewrite B3; [by apply A3|]. by rewrite A3.
Qed.

Lemma progressed_cache slot r r' s s' c c' : progressed slot r r' s s' -> progressed slot r r' (mkSys (asp s) (wld s) c) (mkSys (asp s') (wld s') c').
Proof. by intros []. Qed.

(** A step at an absent page progresses. *)
Lemma filled_progress slot r r' s s' i p e : vm_ok (asp s) (wld s) -> regions (asp s) !! slot = Some (Some r) -> lazy r = true -> frame_at r i = 0 -> Z.of_nat i < pages r ->
  same_attrs r r' -> fills r r' i p -> asp s' = with_region slot r' (asp s) -> only_fills (live (regions (asp s))) (live (regions (asp s'))) ->
  (forall va, pte (pt (wld s')) va = if decide (va = va_of (start r) i) then e else pte (pt (wld s)) va) -> progressed slot r r' s s'.
Proof.
  intros HV Hr Hl Hf Hi S1 F Ea O Ht. split; [rewrite Ea; by eapply with_region_lookup|done| |done|].
  - intros j Hj. rewrite F, decide_False; [done|]. by intros ->.
  - intros va x Hx. rewrite Ht, decide_False; [done|]. intros ->. by rewrite (absent_pte (asp s) (wld s) slot) in Hx.
Qed.

Lemma set_page_refs_id w : set_page_refs (page_refs w) w = w.
Proof. by destruct w. Qed.

Lemma loop_stop n slot r s : sys_ok n s -> regions (asp s) !! slot = Some (Some r) ->
  exists r' w' c', Some (r, wld s, fc s) = Some (r', w', c')
    /\ let s' := mkSys (with_region slot r' (asp s)) w' c' in sys_ok n s' /\ progressed slot r r' s s' /\ log w' = log (wld s).
Proof.
  intros HO Hr. exists r, (wld s), (fc s). rewrite with_region_same by done. destruct s as [a w c]. cbn [asp wld fc]. split_and!; try done. by apply progressed_refl.
Qed.

Lemma around_loop_spec fuel n i k exec idx slot r s :
  sys_ok (fuel + n) s -> regions (asp s) !! slot = Some (Some r) -> lazy r = true ->
  exists r' w' c', around_loop fuel i k exec idx r (wld s) (fc s) = Some (r', w', c')
    /\ let s' := mkSys (with_region slot r' (asp s)) w' c' in sys_ok n s' /\ progressed slot r r' s s' /\ log w' = log (wld s).
Proof.
  revert i r s. induction fuel as [|fuel IH]; intros i r s HO Hr Hl; cbn [around_loop].
  { by apply loop_stop. }
  assert (sys_ok n s) as HO0 by (eapply sys_ok_le; [|exact HO]; lia).
  pose proof (loop_stop n slot r s HO0 Hr) as Hstop.
  destruct (Z.ltb_spec (Z.of_nat (idx + i)) (pages r)) as [Hi|]; cbn [andb]; [|done]. destruct (Z.eqb_spec (frame_at r (idx + i)) 0) as [Hf|]; [|done].
  destruct (cache_pgoff r (idx + i)) as [pg|]; [|done]. pose proof (fc_lookup_spec k pg exec (page_refs (wld s)) (fc s) (so_fc _ _ HO)) as HL.
  destruct (fc_lookup k pg exec (page_refs (wld s)) (fc s)) as [[o rf] c1]. destruct HL as (Hc1 & Hfr & HL). destruct o as [p|].
  2: { subst rf. exists r, (wld s), c1. rewrite set_page_refs_id, with_region_same by done. split; [done|]. split; [by apply sys_ok_cache|]. split; [|done].
       destruct s as [a w c]. apply (progressed_cache slot r r _ _ c c1 (progressed_refl slot r _ Hr)). }
  destruct HL as (Hp & Hp0 & ->). set (s1 := mkSys (asp s) (wld s) c1).
  assert (sys_ok (S (fuel + n)) s1) as HO1 by by apply sys_ok_cache.
  destruct (cached_step (fuel + n) s1 slot r (idx + i) p k pg false HO1 Hr Hl Hi Hf) as (ok & r' & w' & E & S1 & F & HO2 & O2 & L2 & _ & f & _ & _ & Ht & _); [cbn; by rewrite Hfr|done|done|].
  cbn [s1 wld asp fc] in *. rewrite E. set (s2 := mkSys (with_region slot r' (asp s)) (if ok then w' else free_frame p w') c1) in *.
  assert (progressed slot r r' s1 s2) as P2.
  { apply (filled_progress slot r r' s1 s2 (idx + i) (if ok then p else 0) (if ok then Some (p, f) else None)); try done. apply HO1. }
  destruct ok.
  - destruct (IH (S i) r' s2 HO2) as (r3 & w3 & c3 & E3 & HO3 & P3 & L3); [by apply P2|pose proof S1 as S1'; attrs S1'; congruence|].
    cbn [s2 wld fc asp] in *. rewrite with_region_twice in HO3, P3. exists r3, w3, c3. split; [done|]. split; [done|]. split; [|congruence].
    pose proof (progressed_trans _ _ _ _ _ _ _ P2 P3) as P. by destruct P.
  - exists r', (free_frame p w'), c1. split; [done|]. split; [by eapply sys_ok_le; [|exact HO2]; lia|]. split; [|done]. by destruct P2.
Qed.

Lemma mark_dirty_ok n s k pg p (b : bool) : sys_ok n s -> sys_ok n (mkSys (asp s) (wld s) (if b then (fc_mark_dirty k pg p (fc s)).2 else fc s)).
Proof. intros HO. destruct (fc_dirty_frame k pg p (fc s) (so_fc _ _ HO)) as [H1 H2]. destruct b; [by apply sys_ok_cache|]. by destruct s. Qed.

Lemma dirty_frames k pg p c (b : bool) : fc_ok c -> forall j g, fc_frame (if b then (fc_mark_dirty k pg p c).2 else c) j g = fc_frame c j g.
Proof. intros Hc. destruct (fc_dirty_frame k pg p c Hc) as [_ H2]. by destruct b. Qed.

(** What a fault at an absent file page comes to. *)
Definition file_outcome (n : nat) (fk : Z -> Z) (va : Z) (is_write : bool) (slot : nat) (r : VmaRegion) (idx : nat) (s : sys (T := T) (C := C)) (plan : FaultPlan) (s' : sys (T := T) (C := C)) : Prop :=
  exists r', sys_ok n s' /\ log (wld s') = log (wld s) /\ progressed slot r r' s s' /\
    match plan with
    | Done Handled => frame_at r' idx <> 0 /\ (exists pg, cache_pgoff r idx = Some pg /\ fc_frame (fc s) (fk (file_cap r)) pg = Some (frame_at r' idx))
         /\ exists f, pte (pt (wld s')) (va_of (start r) idx) = Some (frame_at r' idx, f)
         /\ (is_write = true -> has (map_flags r) MAP_SHARED = true -> contains (flags r) WRITABLE = true -> f = flags r)
    | Done Segv => frame_at r' idx = 0 /\ (forall x, x <> 0 -> PageRef.get x (page_refs (wld s')) = PageRef.get x (page_refs (wld s)))
         /\ (forall a, pte (pt (wld s')) a = if decide (a = va_of (start r) idx) then None else pte (pt (wld s)) a)
         /\ exists p f, (map_page (va_of (start r) idx) p f (pt (wld s))).1 = false
    | Done Bus => False
    | Read p => asp s' = asp s /\ wld s' = wld s /\ exists k, p = read_plan va is_write r idx k
    end.

Lemma file_miss n fk va is_write slot r idx s k c :
  sys_ok n s -> regions (asp s) !! slot = Some (Some r) -> fc_ok c -> (forall j g, fc_frame c j g = fc_frame (fc s) j g) ->
  file_outcome n fk va is_write slot r idx s (Read (read_plan va is_write r idx k)) (mkSys (asp s) (wld s) c).
Proof.
  intros HO Hr Hc Hfr. exists r. split; [by apply sys_ok_cache|]. split; [done|]. split; [|by eauto].
  destruct s as [a w c0]. apply (progressed_cache slot r r _ _ c0 c (progressed_refl slot r _ Hr)).
Qed.

Lemma file_hit n fk va is_write slot r idx s k pg p :
  sys_ok (16 + n) s -> regions (asp s) !! slot = Some (Some r) -> lazy r = true -> Z.of_nat idx < pages r -> frame_at r idx = 0 ->
  fc_frame (fc s) k pg = Some p -> p <> 0 -> cache_pgoff r idx = Some pg -> k = fk (file_cap r) ->
  exists plan s', cached_fault k pg p is_write slot r idx (mkSys (asp s) (set_page_refs (inc p (page_refs (wld s))) (wld s)) (fc s)) = Some (plan, s')
    /\ file_outcome n fk va is_write slot r idx s plan s'.
Proof.
  intros HO Hr Hl Hi Hf Hp Hp0 Hpg Hk. unfold cached_fault. set (sw := is_write && _ && _). cbn [fc wld asp]. set (c2 := if sw then _ else fc s). set (s1 := mkSys (asp s) (wld s) c2).
  assert (sys_ok (16 + n) s1) as HO1 by (by apply mark_dirty_ok).
  destruct (cached_step (15 + n) s1 slot r idx p k pg sw HO1 Hr Hl Hi Hf) as (ok & r' & w' & E & S1 & F & HO2 & O2 & L2 & Hrf & f & Hff & _ & Ht & Href); [|done| |].
  { cbn. unfold c2. by rewrite dirty_frames by apply HO. }
  { unfold sw. intros Hb. bool_to_prop. done. }
  cbn [s1 wld asp fc] in *. rewrite E. set (s2 := mkSys (with_region slot r' (asp s)) (if ok then w' else free_frame p w') c2) in *.
  assert (progressed slot r r' s s2) as P2.
  { assert (progressed slot r r' s1 s2) as [] by (apply (filled_progress slot r r' s1 s2 idx (if ok then p else 0) (if ok then Some (p, f) else None)); try done; apply HO1). done. }
  assert (lazy r' = true) as Hl' by (attrs S1; congruence). destruct ok.
  - destruct (around_loop_spec (FAULT_AROUND_PAGES - 1) n 1 k (contains (flags r') EXECUTE) idx slot r' s2) as (r3 & w3 & c3 & E3 & HO3 & P3 & L3); [exact HO2|apply P2|done|].
    cbn [s2 wld asp fc] in *. rewrite E3. rewrite with_region_twice in HO3, P3. eexists _, _. split; [done|]. exists r3.
    split; [exact HO3|]. split; [cbn; congruence|]. split; [exact (progressed_trans _ _ _ _ _ _ _ P2 P3)|].
    assert (frame_at r' idx = p) as Ep by by rewrite F, decide_True. rewrite (pr_frames _ _ _ _ _ P3 idx) by by rewrite Ep. rewrite Ep. split; [done|]. split; [exists pg; by rewrite <- Hk|]. exists f.
    split; [apply (pr_pte _ _ _ _ _ P3); cbn; by rewrite Ht, decide_True|]. intros -> H1 H2. apply Hff. unfold sw. by rewrite H1, H2.
  - eexists _, _. split; [done|]. exists r'. split; [by eapply sys_ok_le; [|exact HO2]; lia|]. split; [exact L2|]. split; [exact P2|]. cbn [wld] in *.
    split; [by rewrite F, decide_True|]. split; [exact Hrf|]. split; [exact Ht|]. exists p, f. by apply Href.
Qed.

(** A fault at an absent file page: the cached frame and those that follow it, or a read to perform. *)
Lemma file_fault_spec n fk va is_write slot r idx s :
  sys_ok (16 + n) s -> regions (asp s) !! slot = Some (Some r) -> lazy r = true -> Z.of_nat idx < pages r -> frame_at r idx = 0 ->
  exists plan s', file_fault fk va is_write slot r idx s = Some (plan, s') /\ file_outcome n fk va is_write slot r idx s plan s'.
Proof.
  intros HO Hr Hl Hi Hf. assert (sys_ok n s) as HO0 by (eapply sys_ok_le; [|exact HO]; lia). unfold file_fault.
  set (k := match cache_pgoff r idx with Some _ => _ | None => 0 end). destruct (if k =? 0 then None else cache_pgoff r idx) as [pg|] eqn:Epg.
  2: { eexists _, _. split; [done|]. destruct s as [a w c]. apply (file_miss n fk va is_write slot r idx (mkSys a w c) k c); [done|done|apply HO|done]. }
  pose proof (fc_lookup_spec k pg (contains (flags r) EXECUTE) (page_refs (wld s)) (fc s) (so_fc _ _ HO)) as HL.
  destruct (fc_lookup k pg _ (page_refs (wld s)) (fc s)) as [[o rf] c1]. destruct HL as (Hc1 & Hfr & HL). destruct o as [p|].
  - destruct HL as (Hp & Hp0 & ->). assert (sys_ok (16 + n) (mkSys (asp s) (wld s) c1)) as HO1 by by apply sys_ok_cache.
    assert (cache_pgoff r idx = Some pg /\ k = fk (file_cap r)) as [Epg' Ek] by (unfold k in *; destruct (cache_pgoff r idx); [destruct (_ =? _); by simplify_eq|by destruct (_ =? _)]).
    destruct (file_hit n fk va is_write slot r idx _ k pg p HO1 Hr Hl Hi Hf) as (plan & s' & E & r' & H1 & H2 & [] & H4); [cbn; by rewrite Hfr|done|done|done|].
    cbn [asp wld fc] in E, H4. rewrite E. exists plan, s'. split; [done|]. exists r'. split_and!; try done. destruct plan as [[]|]; try done.
    destruct H4 as (H4 & (g & Hg1 & Hg2) & H5). split_and!; try done. exists g. by rewrite <- Hfr.
  - subst rf. rewrite set_page_refs_id. eexists _, _. split; [done|]. by apply file_miss.
Qed.

(** A block the buddy allocator hands out: no page, cached page or reference has it. *)
Definition fresh (s : sys (T := T) (C := C)) (q : Z) : Prop :=
  q <> 0 /\ PageRef.get q (page_refs (wld s)) <= 1 /\ mapped_count q (live (regions (asp s))) = 0 /\ ~ cached (fc s) q.

(** One page gets the fresh frame [q] for good; [old] is the frame it had ([0]: none), one
    of whose references is dropped. *)
Lemma fresh_owned s slot r r' i q rf' : sys_ok 0 s -> fresh s q -> regions (asp s) !! slot = Some (Some r) -> lazy r = true -> Z.of_nat i < pages r ->
  same_attrs r r' -> fills r r' i q ->
  (forall p, PageRef.get p rf' = if decide (p = frame_at r i /\ p <> 0) then PageRef.get p (page_refs (wld s)) - 1 else PageRef.get p (page_refs (wld s))) ->
  owned (live (regions (with_region slot r' (asp s)))) rf' (fc s).
Proof.
  intros HO (Hq0 & Hq1 & Hq2 & Hq3) Hr Hl Hi S1 F Hg p Hp. rewrite (mapped_fills p q slot r r' i) by done. destruct (so_owned _ _ HO p Hp) as [H1 H2].
  pose proof (get_pos (page_refs (wld s)) q (proj2 (proj2 (so_vm _ _ HO)))) as Hge.
  destruct (slot_region _ _ _ _ (so_vm _ _ HO) Hr) as [R Hin]. assert (frame_at r i <> q) as Hne.
  { intros <-. pose proof (mapped_pos _ _ r i Hin Hl Hi eq_refl). lia. }
  rewrite Hg. unfold b2z. destruct (decide (p = q)) as [->|Hpq].
  - rewrite (decide_False (P := q = frame_at r i)) by congruence. rewrite decide_False by (intros [? _]; congruence). split; [lia|done].
  - destruct (decide (p = frame_at r i)) as [->|Hpf]; [rewrite decide_True by done|rewrite decide_False by by intros []]; (split; [lia|]); intros Hc; specialize (H2 Hc); lia.
Qed.

(** An absent anonymous page: a zeroed frame of its own. *)
Lemma anon_fault_spec n block is_write slot r idx s :
  sys_ok n s -> regions (asp s) !! slot = Some (Some r) -> lazy r = true -> is_file_backed (file_cap r) = false -> Z.of_nat idx < pages r -> frame_at r idx = 0 ->
  (forall q, block = Some q -> fresh s q) ->
  exists f s' r', anon_fault block (va_of (start r) idx) is_write slot r idx s = Some (Done f, s') /\ sys_ok n s' /\ progressed slot r r' s s' /\
    match f with
    | Handled => exists q, block = Some q /\ frame_at r' idx = q /\ pte (pt (wld s')) (va_of (start r) idx) = Some (q, flags r) /\ log (wld s') = log (wld s) ++ [Zero q PAGE_SIZE]
    | Segv => (forall va, view (live (regions (asp s'))) va = view (live (regions (asp s))) va)
         /\ (s' = s /\ is_write = true /\ has (prot r) PROT_WRITE = false /\ contains (flags r) WRITABLE = false
             \/ s' = s /\ block = None
             \/ exists q, block = Some q /\ (map_page (va_of (start r) idx) q (flags r) (pt (wld s))).1 = false
                /\ (forall a, pte (pt (wld s')) a = pte (pt (wld s)) a) /\ page_refs (wld s') = page_refs (wld s)
                /\ log (wld s') = log (wld s) ++ [Zero q PAGE_SIZE; BuddyFree q 0])
    | Bus => False
    end.
Proof.
  intros HO Hr Hl Hnf Hi Hf Hq. unfold anon_fault. pose proof (so_vm _ _ HO) as HV. destruct (slot_region _ _ _ _ HV Hr) as [R Hin].
  destruct (is_write && _ && _) eqn:Ero.
  { exists Segv, s, r. split_and!; try done; [by apply progressed_refl|]. left. rewrite !andb_true_iff, !negb_true_iff in Ero. tauto. }
  destruct block as [q|]. 2: { exists Segv, s, r. split_and!; try done; [by apply progressed_refl|]. right. by left. }
  pose proof (Hq q eq_refl) as Hfresh. pose proof Hfresh as (Hq0 & Hq1 & _). set (w1 := emit _ _). unfold map_at. destruct (map_page (va_of (start r) idx) q (flags r) (pt w1)) as [ok t'] eqn:Em. destruct ok.
  - destruct (grow_to_spec (idx + 1) r R Hl ltac:(lia)) as [Rg Hlen]. pose proof Rg as [S0 Rok F0 W0].
    assert (lazy (grow_to (idx + 1) r) = true /\ pages (grow_to (idx + 1) r) = pages r) as [Hlg Hpg] by (unfold pages; attrs S0; split; congruence).
    destruct (put_frame_spec idx q _ Rok Hlg Hq0) as (r' & E & Rv); [by rewrite Hpg|lia|]. rewrite F0, Hf in E. cbn in E. rewrite E. cbn [mbind option_bind].
    assert (revised r r' (fun j => if decide (j = idx) then q else frame_at r j) (is_written r)) as G.
    { eapply revised_ext; [by eapply revised_trans; [exact Rg|exact Rv]|intros j; cbn; by rewrite F0|done]. }
    destruct (touch_page (asp s) (wld s) (set_pt t' w1) slot r r' idx q (is_written r) (Some (q, flags r)) HV Hr Hl Hi G) as [V1 V2]; [done|apply (pte_map _ _ _ _ _ Em)| |apply HV|apply refs_safe_refl|].
    { intros q' f [= <- <-]. split_and!; try done. intros Hc. unfold may_write. rewrite (page_revised r r' _ _ idx Hl G). unfold clean. cbn. rewrite Hc, Hnf. cbn.
      rewrite (proj2 (Z.ltb_ge _ _) Hq1). by rewrite andb_false_r. }
    set (s' := put_region _ _ _). pose proof (fills_view _ _ _ _ _ _ _ (proj2 (proj1 HV)) Hin Hl Hf G V2) as O.
    assert (progressed slot r r' s s') as P.
    { apply (filled_progress slot r r' s s' idx q (Some (q, flags r))); try done; [apply G|exact (rv_frame _ _ _ _ G)|]. apply (pte_map _ _ _ _ _ Em). }
    exists Handled, s', r'. split; [done|]. split; [|split; [done|]].
    + unfold s', put_region, set_asp, set_wld. split; cbn [asp wld fc]; [exact V1|exact (so_fc _ _ HO)| |eapply shared_plain_with; [exact Hr|apply G|apply HO]|exact (so_room _ _ HO)].
      eapply fresh_owned; [by eapply sys_ok_le; [|exact HO]; lia|done|exact Hr|done|done|apply G|exact (rv_frame _ _ _ _ G)|].
      intros p. rewrite Hf, decide_False; [done|]. intros [-> []]. done.
    + exists q. split; [done|]. rewrite (rv_frame _ _ _ _ G), decide_True by done. split; [done|]. split; [|done]. cbn. rewrite (pte_map _ _ _ _ _ Em). by rewrite decide_True.
  - pose proof (pte_map_fail _ _ _ _ _ Em) as Ht. eexists Segv, _, r. split; [done|]. cbn [asp wld fc set_wld]. split; [|split].
    + destruct HO as [HV' Hfc HC HP Hroom]. split; cbn [asp wld fc]; try done. destruct HV as (HS & HN & HR). split; [done|]. split; [|done]. cbn. intros va p f Hp. rewrite Ht in Hp. by apply HN.
    + split; cbn [asp wld]; [done|apply same_attrs_refl|done|apply only_fills_refl|]. intros va e He. cbn. by rewrite Ht.
    + split; [done|]. right. right. exists q. split; [done|]. split; [exact (f_equal fst Em)|]. split; [exact Ht|]. split; [done|]. cbn. by rewrite <- app_assoc.
Qed.

(** Only page [i] of the mapping, and its entry, may differ. *)
Definition at_page (r : VmaRegion) (i : nat) (va : Z) : bool := covers va r && (idx_of r va =? i)%nat.
Record only_page (slot : nat) (r r' : VmaRegion) (i : nat) (s s' : sys (T := T) (C := C)) : Prop := {
  op_slot : regions (asp s') !! slot = Some (Some r');
  op_same : same_attrs r r';
  op_view : forall va, view (live (regions (asp s'))) va = if at_page r i va then Some (page_no r' i) else view (live (regions (asp s))) va;
  op_pte : forall va, va <> va_of (start r) i -> pte (pt (wld s')) va = pte (pt (wld s)) va }.

(** [touch_page], for a system. *)
Lemma repage n s s' slot r r' i p wr e :
  sys_ok n s -> regions (asp s) !! slot = Some (Some r) -> lazy r = true -> Z.of_nat i < pages r ->
  revised r r' (fun j => if decide (j = i) then p else frame_at r j) wr -> (forall j, j <> i -> wr j = is_written r j) ->
  (forall va, pte (pt (wld s')) va = if decide (va = va_of (start r) i) then e else pte (pt (wld s)) va) ->
  (forall q f, e = Some (q, f) -> q = p /\ p <> 0 /\ (contains f WRITABLE = true -> may_write (page_refs (wld s')) (page_no r' i) p = true)) ->
  shared_only (page_refs (wld s')) -> (forall q, PageRef.get q (page_refs (wld s')) <= PageRef.get q (page_refs (wld s))) ->
  asp s' = with_region slot r' (asp s) -> fc_ok (fc s') -> owned (live (regions (asp s'))) (page_refs (wld s')) (fc s') ->
  sys_ok n s' /\ only_page slot r r' i s s'.
Proof.
  intros HO Hr Hl Hi Rv Hwr Ht He HR Hle Ea Hfc HC. destruct (touch_page (asp s) (wld s) (wld s') slot r r' i p wr e (so_vm _ _ HO) Hr Hl Hi Rv Hwr Ht He HR (refs_safe_le _ _ _ Hle)) as [V1 V2].
  split; [|split].
  - split; try done; rewrite ?Ea; [done|eapply shared_plain_with; [exact Hr|apply Rv|apply HO]|]. intros q. pose proof (so_room _ _ HO q). specialize (Hle q). lia.
  - rewrite Ea. by eapply with_region_lookup.
  - apply Rv.
  - rewrite Ea. exact V2.
  - intros va Hva. by rewrite Ht, decide_False.
Qed.

Lemma revised_refl r i : region_ok r -> revised r r (fun j => if decide (j = i) then frame_at r i else frame_at r j) (is_written r).
Proof. intros R. split; [apply same_attrs_refl|done| |done]. intros j. by case_decide; subst. Qed.

Lemma set_written_page i r : region_ok r ->
  exists wr, revised r (set_written i true r) (fun j => if decide (j = i) then frame_at r i else frame_at r j) wr /\ forall j, j <> i -> wr j = is_written r j.
Proof.
  intros R. eexists. split; [eapply revised_ext; [exact (set_written_spec i true r R)| |intros j; reflexivity]|].
  - intros j. cbn. by case_decide; subst.
  - intros j Hj. cbn. by rewrite (proj2 (Nat.eqb_neq j i) Hj).
Qed.

Lemma owned_same s slot r r' i rf' c : owned (live (regions (asp s))) (page_refs (wld s)) (fc s) -> regions (asp s) !! slot = Some (Some r) -> lazy r = true -> Z.of_nat i < pages r ->
  same_attrs r r' -> fills r r' i (frame_at r i) -> (forall p, PageRef.get p rf' = PageRef.get p (page_refs (wld s))) -> (forall k g, fc_frame c k g = fc_frame (fc s) k g) ->
  owned (live (regions (with_region slot r' (asp s)))) rf' c.
Proof.
  intros HC Hr Hl Hi S1 F Hg Hfr p Hp. rewrite (mapped_fills p (frame_at r i) slot r r' i), Hg by done. destruct (HC p Hp) as [H1 H2].
  split; [lia|]. intros (k & g & Hx). rewrite Hfr in Hx. assert (cached (fc s) p) as Hy by (by exists k, g). specialize (H2 Hy). lia.
Qed.

(** The frame stays; this mapping may write it from now on. *)
Lemma upgrade_spec n s s' slot r i f t' :
  sys_ok n s -> regions (asp s) !! slot = Some (Some r) -> lazy r = true -> Z.of_nat i < pages r -> frame_at r i <> 0 ->
  (cow r = true -> PageRef.get (frame_at r i) (page_refs (wld s)) <= 1) ->
  map_page (va_of (start r) i) (frame_at r i) (flags r) (pt (wld s)) = (true, t') ->
  asp s' = with_region slot (set_written i true r) (asp s) -> pt (wld s') = t' -> page_refs (wld s') = page_refs (wld s) ->
  fc_ok (fc s') -> (forall k g, fc_frame (fc s') k g = fc_frame (fc s) k g) -> f = frame_at r i ->
  sys_ok n s' /\ only_page slot r (set_written i true r) i s s' /\ frame_at (set_written i true r) i = f /\ clean (page_no (set_written i true r) i) = false
  /\ pte (pt (wld s')) (va_of (start r) i) = Some (f, flags r).
Proof.
  intros HO Hr Hl Hi Hp Hone Em Ea Et Erf Hfc Hfr ->. destruct (slot_region _ _ _ _ (so_vm _ _ HO) Hr) as [R Hin].
  destruct (set_written_page i r R) as (wr & Rv & Hwr). pose proof (pte_map _ _ _ _ _ Em) as Ht. rewrite <- Et in Ht.
  pose proof (written_not_clean i r R Hl) as Hcl.
  destruct (repage n s s' slot r _ i _ wr (Some (frame_at r i, flags r)) HO Hr Hl Hi Rv Hwr Ht) as [G1 G2].
  - intros q f [= <- <-]. split_and!; try done. intros Hc. unfold may_write. rewrite Hcl. rewrite (page_revised r _ _ _ i Hl Rv). cbn. rewrite Hc, Erf. cbn.
    destruct (cow r); [|done]. cbn. by rewrite (proj2 (Z.ltb_ge _ _) (Hone eq_refl)).
  - rewrite Erf. apply HO.
  - intros q. by rewrite Erf.
  - done.
  - done.
  - rewrite Ea, Erf. eapply owned_same; [apply HO|exact Hr|done|done|apply Rv|exact (rv_frame _ _ _ _ Rv)|done|done].
  - split_and!; try done; [|by rewrite Ht, decide_True]. by rewrite (rv_frame _ _ _ _ Rv), decide_True.
Qed.
End sys.
