(* ===== verification/VmmPlan.v ===== *)
(** * Address spaces: what a page fault does

    Theorems about [plan_user_page_fault] of [VmmFault], and about the kernel's own
    accesses that go through it. *)
From S2P Require Import Prelude KLib PageSites PageRef PageVec BTree PageCache Vmm VmmView VmmMap VmmOps VmmBrk VmmFault VmmCache VmmTouch.
#[local] Open Scope Z_scope.

Lemma and_more (P Q R : Prop) : P /\ Q -> R -> P /\ Q /\ R.
Proof. by intros []. Qed.

Section plan.
Context {T : Type} `{PageTable T} {C : Type} `{FrameCache C}.
Notation sys := (sys (T := T) (C := C)).
Implicit Types (w : world T) (c : C) (s : sys).

(** ** Promotion *)

(** The page has its own copy now. *)
Definition copied (slot : nat) (r r' : VmaRegion) (i : nat) (q : Z) (s s' : sys) : Prop :=
  let p := frame_at r i in
  frame_at r' i = q /\ 1 < PageRef.get p (page_refs (wld s)) /\ PageRef.get p (page_refs (wld s')) = PageRef.get p (page_refs (wld s)) - 1
  /\ log (wld s') = log (wld s) ++ [CopyPage p q; TlbFlush (va_of (start r) i) 1].

(** The page keeps its frame, which nothing else refers to. *)
Definition upgraded (r r' : VmaRegion) (i : nat) (s s' : sys) : Prop :=
  frame_at r' i = frame_at r i /\ page_refs (wld s') = page_refs (wld s) /\ log (wld s') = log (wld s) ++ [TlbFlushLocal (va_of (start r) i)].

Lemma promote_copy n s slot r i q t1 t' r2 :
  sys_ok n s -> regions (asp s) !! slot = Some (Some r) -> lazy r = true -> Z.of_nat i < pages r -> frame_at r i <> 0 ->
  1 < PageRef.get (frame_at r i) (page_refs (wld s)) -> fresh s q -> (i < PageVec.len (lazy_pages r))%nat ->
  t1 = unmap_page (va_of (start r) i) (pt (wld s)) -> map_page (va_of (start r) i) q (flags r) t1 = (true, t') -> put_frame i q r = Some r2 ->
  let r' := set_written i true r2 in
  let s' := mkSys (with_region slot r' (asp s)) (mkWorld t' (PageRef.dec (frame_at r i) (page_refs (wld s))) (last_fail (wld s))
              (log (wld s) ++ [CopyPage (frame_at r i) q; TlbFlush (va_of (start r) i) 1])) (fc s) in
  sys_ok n s' /\ only_page slot r r' i s s' /\ clean (page_no r' i) = false /\ copied slot r r' i q s s'
  /\ pte (pt (wld s')) (va_of (start r) i) = Some (q, flags r).
Proof.
  intros HO Hr Hl Hi Hp Hgt Hfresh Hlen -> Em Ep r' s'. pose proof (so_vm _ _ HO) as HV. destruct (slot_region _ _ _ _ HV Hr) as [R Hin]. pose proof Hfresh as (Hq0 & Hq1 & _).
  destruct (put_frame_spec i q r R Hl Hq0 Hi Hlen) as (r2' & E & Rv2). rewrite (proj2 (Z.eqb_neq _ _) Hp), Ep in E. injection E as <-.
  pose proof Rv2 as [S2 R2 F2 W2]. assert (lazy r2 = true) as Hl2 by (attrs S2; congruence). destruct (set_written_page i r2 R2) as (wr & Rv3 & Hwr).
  assert (revised r r' (fun j => if decide (j = i) then q else frame_at r j) wr) as Rv.
  { eapply revised_ext; [by eapply revised_trans; [exact Rv2|exact Rv3]| |done]. intros j. cbn. rewrite !F2, (decide_True (P := i = i)) by done. by case_decide. }
  pose proof (written_not_clean i r2 R2 Hl2) as Hcl. fold r' in Hcl. pose proof HV as (_ & _ & HR). pose proof (dec_spec (frame_at r i) _ HR) as Hdec. destruct (unref_spec (frame_at r i) _ HR) as (_ & U2 & U3).
  assert (forall p, PageRef.get p (page_refs (wld s')) = if decide (p = frame_at r i /\ p <> 0) then PageRef.get p (page_refs (wld s)) - 1 else PageRef.get p (page_refs (wld s))) as Hg.
  { intros p. cbn. rewrite Hdec, U3. destruct (decide (p = frame_at r i)) as [->|]; [rewrite decide_True by done; lia|]. by rewrite decide_False by by intros []. }
  assert (frame_at r i <> q) as Hne. { intros E. pose proof (mapped_pos _ _ r i Hin Hl Hi E). destruct Hfresh as (_ & _ & Hm & _). lia. }
  assert (forall va, pte t' va = if decide (va = va_of (start r) i) then Some (q, flags r) else pte (pt (wld s)) va) as Ht.
  { intros va. rewrite (pte_map _ _ _ _ _ Em), pte_unmap. by case_decide. }
  destruct (repage n s s' slot r r' i q wr (Some (q, flags r)) HO Hr Hl Hi Rv) as [G1 G2]; try done.
  - intros j Hj. by rewrite Hwr, W2.
  - intros q' f [= <- <-]. split_and!; try done. intros Hc. unfold may_write. rewrite Hcl. rewrite (page_revised r r' _ _ i Hl Rv). cbn [with_page p_flags p_cow page_no].
    rewrite Hc, Hg, decide_False by (intros [? _]; congruence). rewrite (proj2 (Z.ltb_ge _ _) Hq1). by rewrite andb_false_r.
  - cbn. by rewrite Hdec.
  - intros p. rewrite Hg. destruct (decide _); lia.
  - exact (so_fc _ _ HO).
  - apply (fresh_owned s slot r r' i q _ ltac:(eapply sys_ok_le; [|exact HO]; lia) Hfresh Hr Hl Hi (rv_same _ _ _ _ Rv) (rv_frame _ _ _ _ Rv) Hg).
  - split; [done|]. split; [done|]. split; [done|]. split; [|cbn; by rewrite Ht, decide_True]. split_and!; try done.
    + by rewrite (rv_frame _ _ _ _ Rv), decide_True.
    + by rewrite Hg, decide_True.
Qed.

(** What a promotion comes to: an own copy while the frame is shared, the frame itself otherwise. *)
Definition promoted (n : nat) (block : option Z) (slot : nat) (r : VmaRegion) (i : nat) (s : sys) (f : Fault) (s' : sys) : Prop :=
  exists r', sys_ok n s' /\ only_page slot r r' i s s' /\
  match f with
  | Handled => clean (page_no r' i) = false /\ pte (pt (wld s')) (va_of (start r) i) = Some (frame_at r' i, flags r)
       /\ (if PageRef.get (frame_at r i) (page_refs (wld s)) <=? 1 then upgraded r r' i s s' else exists q, block = Some q /\ copied slot r r' i q s s')
  | Segv => r' = r /\ page_refs (wld s') = page_refs (wld s)
       /\ (s' = s /\ block = None /\ 1 < PageRef.get (frame_at r i) (page_refs (wld s))
           \/ exists q t, (map_page (va_of (start r) i) q (flags r) t).1 = false /\ (forall a, a <> va_of (start r) i -> pte t a = pte (pt (wld s)) a)
              /\ (forall a, pte (pt (wld s')) a = pte t a)
              /\ (q = frame_at r i /\ t = pt (wld s) \/ block = Some q /\ t = unmap_page (va_of (start r) i) (pt (wld s))))
  | Bus => False
  end.

Lemma only_page_same n slot r i s s' e : sys_ok n s -> regions (asp s) !! slot = Some (Some r) -> lazy r = true -> Z.of_nat i < pages r ->
  asp s' = asp s -> (forall va, pte (pt (wld s')) va = if decide (va = va_of (start r) i) then e else pte (pt (wld s)) va) -> e = None \/ e = pte (pt (wld s)) (va_of (start r) i) ->
  page_refs (wld s') = page_refs (wld s) -> fc s' = fc s -> sys_ok n s' /\ only_page slot r r i s s'.
Proof.
  intros HO Hr Hl Hi Ea Ht He Erf Efc. pose proof (so_vm _ _ HO) as (HS & HN & HR). assert (forall va p f, pte (pt (wld s')) va = Some (p, f) -> pte (pt (wld s)) va = Some (p, f)) as Hsub.
  { intros va p f Hp. rewrite Ht in Hp. case_decide; [|done]. destruct He as [-> | ->]; [done|]. by subst. }
  split; [|split].
  - destruct HO. split; rewrite ?Ea, ?Erf, ?Efc; try done. split; [done|]. rewrite Erf. split; [|done]. intros va p f Hp. apply HN. by apply Hsub.
  - by rewrite Ea.
  - apply same_attrs_refl.
  - intros va. rewrite Ea. destruct (at_page r i va) eqn:Eat; [|done]. unfold at_page in Eat. apply andb_true_iff in Eat as [Hc <-%Nat.eqb_eq].
    destruct (slot_region _ _ _ _ (so_vm _ _ HO) Hr) as [R Hin]. by rewrite (view_elem _ va r (proj2 HS) Hin Hc).
  - intros va Hva. by rewrite Ht, decide_False.
Qed.

Lemma promote_spec n block slot r i s :
  sys_ok n s -> regions (asp s) !! slot = Some (Some r) -> lazy r = true -> Z.of_nat i < pages r -> frame_at r i <> 0 ->
  (forall q, block = Some q -> fresh s q) ->
  exists f s', promote block (va_of (start r) i) slot r i (frame_at r i) s = Some (Done f, s') /\ promoted n block slot r i s f s'.
Proof.
  intros HO Hr Hl Hi Hp Hq. unfold promote, promoted. set (va := va_of (start r) i). set (p := frame_at r i) in *. unfold map_at.
  assert (forall w', pt w' = pt (wld s) -> page_refs w' = page_refs (wld s) -> sys_ok n (set_wld w' s) /\ only_page slot r r i s (set_wld w' s)) as Hsame.
  { intros w' E1 E2. apply (only_page_same n slot r i s _ (pte (pt (wld s)) va) HO Hr Hl Hi); try done; [|by right]. intros v. cbn. rewrite E1. by case_decide; subst. }
  destruct (Z.leb_spec (PageRef.get p (page_refs (wld s))) 1) as [Hle|Hgt].
  - destruct (map_page va p (flags r) (pt (wld s))) as [[] t'] eqn:Em.
    + set (s' := put_region _ _ _). destruct (upgrade_spec n s s' slot r i p t' HO Hr Hl Hi Hp) as (G1 & G2 & G3 & G4 & G5); try done; [apply HO|].
      exists Handled, s'. split; [done|]. exists (set_written i true r). split; [done|]. split; [done|]. split; [done|]. split; [by rewrite G3|]. by split_and!.
    + pose proof (pte_map_fail _ _ _ _ _ Em) as Ht. eexists Segv, _. split; [done|]. exists r. apply and_more.
      * apply (only_page_same n slot r i s _ (pte (pt (wld s)) va) HO Hr Hl Hi); try done; [|by right]. intros v. cbn. rewrite Ht. by case_decide; subst.
      * split_and!; try done. right. exists p, (pt (wld s)). split; [exact (f_equal fst Em)|]. split; [done|]. split; [exact Ht|]. by left.
  - destruct block as [q|]; [|eexists Segv, _; split; [done|]; exists r; apply and_more; [destruct s as [a w c]; by apply Hsame|by split_and!; [..|left]]].
    cbn [emit set_pt pt]. destruct (map_page va q (flags r) (unmap_page va (pt (wld s)))) as [[] t'] eqn:Em.
    + destruct (slot_region _ _ _ _ (so_vm _ _ HO) Hr) as [R Hin]. assert (i < PageVec.len (lazy_pages r))%nat as Hlen.
      { destruct (decide (i < PageVec.len (lazy_pages r))%nat) as [|Hge]; [done|]. destruct Hp. unfold p. rewrite frame_at_list by apply R. by rewrite lookup_ge_None_2 by (rewrite length_to_list; lia). }
      destruct (put_frame_spec i q r R Hl (proj1 (Hq q eq_refl)) Hi Hlen) as (r2 & E & _). fold p in E. rewrite (proj2 (Z.eqb_neq p 0) Hp) in E. rewrite E. cbn [mbind option_bind].
      destruct (promote_copy n s slot r i q _ t' r2 HO Hr Hl Hi Hp Hgt (Hq q eq_refl) Hlen eq_refl Em E) as (G1 & G2 & G3 & G4 & G5).
      eexists Handled, _. split; [|exists (set_written i true r2); split; [exact G1|]; split; [exact G2|]; split; [done|]].
      * unfold put_region, set_asp, set_wld, set_page_refs, set_pt, emit. cbn [asp wld fc pt page_refs last_fail log]. by rewrite <- app_assoc.
      * destruct G4 as (F1 & F2 & F3 & F4). rewrite F1. split; [exact G5|]. exists q. by split.
    + pose proof (pte_map_fail _ _ _ _ _ Em) as Ht. eexists Segv, _. split; [done|]. exists r. apply and_more.
      * apply (only_page_same n slot r i s _ None HO Hr Hl Hi); try done; [|by left]. intros v. cbn. by rewrite Ht, pte_unmap.
      * split_and!; try done. right. exists q, (unmap_page va (pt (wld s))). split; [exact (f_equal fst Em)|]. split; [intros a Ha; by rewrite pte_unmap, decide_False|].
        split; [exact Ht|]. by right.
Qed.

(** ** The whole first half *)
Lemma region_at_spec a va : 
  match region_at a va with
  | Some (slot, r) => regions a !! slot = Some (Some r) /\ covers va r = true
  | None => view (live (regions a)) va = None
  end.
Proof.
  unfold region_at. destruct (position (covering va) (regions a)) as [slot|] eqn:E; cbn [mbind option_bind].
  - apply position_Some in E as (o & Ho & Hc). destruct o as [r|]; [|done]. rewrite Ho. done.
  - apply position_None in E. rewrite Forall_forall in E. apply view_none. intros r Hr%live_elem. exact (E (Some r) Hr).
Qed.

Lemma page_down_idx r va : region_ok r -> covers va r = true -> page_down va = va_of (start r) (idx_of r va).
Proof.
  intros R Hc%covers_spec. pose proof (ro_range r R). pose proof (ro_top r R). destruct (page_down_spec va ltac:(unfold is_u64; lia)) as (Hd & B1 & B2).
  destruct (ro_start r R) as [a Ha]. destruct Hd as [b Hb]. assert (start r <= page_down va) as Hle by (unfold PAGE_SIZE in *; lia).
  unfold va_of, idx_of. pose proof (Z.div_mod (va - start r) PAGE_SIZE). pose proof (Z.mod_pos_bound (va - start r) PAGE_SIZE).
  rewrite Z2Nat.id by (apply Z.div_pos; [lia|done]). unfold PAGE_SIZE in *. lia.
Qed.

Lemma at_page_down r va va' : region_ok r -> covers va r = true -> at_page r (idx_of r va) va' = true -> page_down va' = page_down va.
Proof.
  intros R Hc [Hc' E%Nat.eqb_eq]%andb_true_iff. by rewrite !(page_down_idx r) by done; rewrite E.
Qed.

(** A page that is as it was, or gained a frame. *)
Definition page_kept (s s' : sys) (va : Z) : Prop :=
  view (live (regions (asp s'))) va = view (live (regions (asp s))) va
  \/ exists pg pg', view (live (regions (asp s))) va = Some pg /\ view (live (regions (asp s'))) va = Some pg' /\ settles pg pg'.

(** How the page at [va], with attributes [pg], came to have frame [p]. *)
Inductive resolved (fk : Z -> Z) (block : option Z) (va : Z) (is_write : bool) (pg : page) (s s' : sys) (p : Z) : Prop :=
  | ByOther : s' = s -> p_frame pg = Some p ->
      (is_write = true -> has (p_prot pg) PROT_WRITE = true /\ p_cow pg = false /\ contains (p_flags pg) WRITABLE && clean pg = false) ->
      resolved fk block va is_write pg s s' p
  | ByUpgrade : is_write = true -> p_frame pg = Some p -> pte (pt (wld s')) va = Some (p, p_flags pg) ->
      has (p_map pg) MAP_SHARED = true /\ clean pg = true \/ PageRef.get p (page_refs (wld s)) <= 1 -> log (wld s') = log (wld s) ++ [TlbFlushLocal va] ->
      resolved fk block va is_write pg s s' p
  | ByCopy p0 : is_write = true -> p_frame pg = Some p0 -> 1 < PageRef.get p0 (page_refs (wld s)) -> block = Some p ->
      pte (pt (wld s')) va = Some (p, p_flags pg) -> PageRef.get p0 (page_refs (wld s')) = PageRef.get p0 (page_refs (wld s)) - 1 ->
      log (wld s') = log (wld s) ++ [CopyPage p0 p; TlbFlush va 1] -> resolved fk block va is_write pg s s' p
  | ByZero : p_frame pg = None -> is_file_backed (p_cap pg) = false -> block = Some p -> pte (pt (wld s')) va = Some (p, p_flags pg) ->
      log (wld s') = log (wld s) ++ [Zero p PAGE_SIZE] -> resolved fk block va is_write pg s s' p
  | ByCache f : p_frame pg = None -> is_file_backed (p_cap pg) = true -> fc_frame (fc s) (fk (p_cap pg)) (p_pos pg / PAGE_SIZE) = Some p ->
      pte (pt (wld s')) va = Some (p, f) ->
      (is_write = true -> has (p_map pg) MAP_SHARED = true -> contains (p_flags pg) WRITABLE = true -> f = p_flags pg) -> log (wld s') = log (wld s) ->
      resolved fk block va is_write pg s s' p.

(** Why a fault at [va] was refused, and what the refusal left.  All but the last
    change nothing; the last is a page table that refused an entry, after which
    the page has the frame it had and at most its own entry is gone. *)
Inductive denied (block : option Z) (va : Z) (is_write : bool) (pg : page) (s s' : sys) : Prop :=
  | Eager r : s' = s -> r ∈ live (regions (asp s)) -> covers va r = true -> lazy r = false -> denied block va is_write pg s s'
  | NoAccess : s' = s -> Z.land (p_prot pg) PROT_ACCESS = 0 -> denied block va is_write pg s s'
  | ReadOnly : s' = s -> is_write = true -> has (p_prot pg) PROT_WRITE = false -> is_file_backed (p_cap pg) = false \/ p_frame pg <> None -> denied block va is_write pg s s'
  | NoBlock : s' = s -> block = None ->
      match p_frame pg with
      | Some p => is_write = true /\ 1 < PageRef.get p (page_refs (wld s))
      | None => is_file_backed (p_cap pg) = false
      end -> denied block va is_write pg s s'
  | NoEntry q f t b : (map_page (page_down va) q f t).1 = false -> t = pt (wld s) \/ t = unmap_page (page_down va) (pt (wld s)) ->
      view (live (regions (asp s'))) va = Some (with_page (p_frame pg) b pg) ->
      (forall a, a <> page_down va -> pte (pt (wld s')) a = pte (pt (wld s)) a) ->
      pte (pt (wld s')) (page_down va) = None \/ pte (pt (wld s')) (page_down va) = pte (pt (wld s)) (page_down va) ->
      (forall x, x <> 0 -> PageRef.get x (page_refs (wld s')) = PageRef.get x (page_refs (wld s))) -> denied block va is_write pg s s'.

(** What the first half of a fault at [va] on a page with attributes [pg] comes to. *)
Definition fault_outcome (fk : Z -> Z) (block : option Z) (va : Z) (is_write : bool) (pg : page) (s : sys) (plan : FaultPlan) (s' : sys) : Prop :=
  match plan with
  | Done Handled => exists p b, view (live (regions (asp s'))) va = Some (with_page (Some p) b pg) /\ resolved fk block (page_down va) is_write pg s s' p
  | Done Segv => denied block va is_write pg s s'
  | Done Bus => False
  | Read f => asp s' = asp s /\ wld s' = wld s /\ p_frame pg = None /\ is_file_backed (p_cap pg) = true
      /\ cap f = p_cap pg /\ page_va f = page_down va /\ pos f = p_pos pg /\ (1 <= window f <= 16)%nat /\ write f = is_write
  end.

Lemma window_loop_bounds fuel n idx r : (n <= window_loop fuel n idx r <= n + fuel)%nat.
Proof. revert n. induction fuel as [|fuel IH]; intros n; cbn; [lia|]. destruct (_ && _); [specialize (IH (S n))|]; lia. Qed.

Lemma cache_pgoff_pos r idx pg : cache_pgoff r idx = Some pg -> is_file_backed (file_cap r) = true /\ pg = p_pos (page_no r idx) / PAGE_SIZE.
Proof.
  unfold cache_pgoff. destruct (lazy r), (is_file_backed (file_cap r)) eqn:Ef; cbn [negb orb]; try done. destruct (if has _ _ then _ else _); [done|].
  unfold Cache.pgoff_of. cbn [page_no p_pos]. rewrite Ef. destruct (_ =? 0); [|done]. by intros [= <-].
Qed.

Lemma progressed_kept slot r r' s s' va : progressed slot r r' s s' -> page_kept s s' va.
Proof. intros [_ _ _ O _]. exact (O va). Qed.

Lemma progressed_view slot r r' s s' va : vm_ok (asp s') (wld s') -> lazy r = true -> progressed slot r r' s s' -> covers va r = true ->
  view (live (regions (asp s'))) va = Some (with_page (frame_opt (frame_at r' (idx_of r va))) (is_written r' (idx_of r va)) (page_no r (idx_of r va))).
Proof.
  intros HV Hl [P1 P2 _ _ _] Hc. destruct (slot_region _ _ _ _ HV P1) as [R' Hin']. assert (start r' = start r /\ end_ r' = end_ r) as [Es Ee] by (attrs P2; done).
  rewrite (view_elem _ va r' (proj2 (proj1 HV)) Hin') by (unfold covers in *; by rewrite Es, Ee). rewrite (idx_start r' r va Es). f_equal.
  apply page_revised; [done|]. by split.
Qed.

(** A fault on a resident page. *)
Lemma present_spec n fk block fault_va is_write slot r s :
  let i := idx_of r fault_va in
  sys_ok n s -> regions (asp s) !! slot = Some (Some r) -> lazy r = true -> covers fault_va r = true -> frame_at r i <> 0 ->
  (forall q, block = Some q -> fresh s q) ->
  exists f s', present_fault fk block (page_down fault_va) is_write slot r i (frame_at r i) s = Some (Done f, s') /\ sys_ok n s'
    /\ (forall va, page_down va <> page_down fault_va -> page_kept s s' va) /\ fault_outcome fk block fault_va is_write (page_no r i) s (Done f) s'.
Proof.
  intros i HO Hr Hl Hc Hp Hq. destruct (slot_region _ _ _ _ (so_vm _ _ HO) Hr) as [R Hin]. pose proof (idx_bound r fault_va R Hc) as Hi. fold i in Hi.
  assert (p_frame (page_no r i) = Some (frame_at r i)) as Hfr by (rewrite page_frame_lazy by done; unfold frame_opt; by rewrite (proj2 (Z.eqb_neq _ _) Hp)).
  assert (view (live (regions (asp s))) fault_va = Some (page_no r i)) as Hview by (apply view_elem; [apply HO|done|done]).
  assert (forall r' s', only_page slot r r' i s s' -> (forall va, page_down va <> page_down fault_va -> page_kept s s' va) /\ view (live (regions (asp s'))) fault_va = Some (page_no r' i)) as Hop.
  { intros r' s' [_ _ V _]. split.
    - intros va Hne. left. rewrite V. destruct (at_page r i va) eqn:Ea; [|done]. destruct Hne. by apply (at_page_down r).
    - rewrite V. unfold at_page. by rewrite Hc, Nat.eqb_refl. }
  assert (forall r', same_attrs r r' -> frame_at r' i <> 0 -> region_ok r' -> page_no r' i = with_page (Some (frame_at r' i)) (is_written r' i) (page_no r i)) as Hwith.
  { intros r' S1 Hne R'. rewrite (page_revised r r' (frame_at r') (is_written r') i Hl) by by split. unfold frame_opt. by rewrite (proj2 (Z.eqb_neq _ _) Hne). }
  rewrite (page_down_idx r fault_va R Hc) in Hop |- *. fold i in Hop |- *.
  assert (forall s', sys_ok n s' -> asp s' = asp s -> denied block fault_va is_write (page_no r i) s s' ->
    exists f s'', Some (Done Segv, s') = Some (Done f, s'') /\ sys_ok n s'' /\ (forall va, page_down va <> va_of (start r) i -> page_kept s s'' va)
    /\ fault_outcome fk block fault_va is_write (page_no r i) s (Done f) s'') as Hsegv.
  { intros s' G Ea Hd. exists Segv, s'. split; [done|]. split; [done|]. split; [intros va _; left; by rewrite Ea|done]. }
  pose proof (clean_page r i R) as Ecl. rewrite Hl, andb_true_l in Ecl.
  assert (page_no r i = with_page (p_frame (page_no r i)) (is_written r i) (page_no r i)) as Hself by (rewrite Hfr; apply (Hwith r); [apply same_attrs_refl|done|done]).
  unfold present_fault. destruct (is_write && has _ _ && _ && _ && _) eqn:Esh.
  - rewrite !andb_true_iff in Esh. destruct Esh as ((((-> & Hsh) & Hfb) & Hw) & Hcl). set (c := match cache_pgoff r i with Some _ => _ | None => _ end).
    assert (fc_ok c /\ forall k g, fc_frame c k g = fc_frame (fc s) k g) as [Hc1 Hc2].
    { unfold c. destruct (cache_pgoff r i) as [pg|]; [apply fc_dirty_frame, HO|]. split; [apply HO|done]. }
    unfold map_at. destruct (map_page _ _ (flags r) (pt (wld s))) as [[] t'] eqn:Em.
    + set (s' := put_region _ _ _). destruct (upgrade_spec n s s' slot r i (frame_at r i) t' HO Hr Hl Hi Hp) as (G1 & G2 & G3 & G4 & G5); try done.
      { intros Hcow. pose proof (so_plain _ _ HO) as HP. unfold shared_plain in HP. rewrite Forall_forall in HP. by rewrite (HP r Hin Hsh) in Hcow. }
      destruct (Hop _ _ G2) as [K1 K2]. exists Handled, s'. split; [done|]. split; [done|]. split; [done|]. exists (frame_at r i), (is_written (set_written i true r) i).
      rewrite K2, (Hwith (set_written i true r)), G3; [|apply (op_same _ _ _ _ _ _ G2)|by rewrite G3|apply (set_written_spec i true r R)]. split; [done|].
      rewrite (page_down_idx r) by done. apply ByUpgrade; [done..| |done]. left. by rewrite <- Ecl.
    + apply Hsegv; [|done|].
      2: { eapply (NoEntry _ _ _ _ _ _ (frame_at r i) (flags r) (pt (wld s)) (is_written r i)); rewrite ?(page_down_idx r) by done; fold i.
           - exact (f_equal fst Em).
           - by left.
           - cbn [asp]. by rewrite Hview, <- Hself.
           - intros a _. exact (pte_map_fail _ _ _ _ _ Em a).
           - right. exact (pte_map_fail _ _ _ _ _ Em _).
           - done. }
      destruct (only_page_same n slot r i s (mkSys (asp s) (set_pt t' (wld s)) (fc s)) (pte (pt (wld s)) (va_of (start r) i)) HO Hr Hl Hi) as [G _]; try done; [|by right|].
      { intros va. cbn. rewrite (pte_map_fail _ _ _ _ _ Em). by case_decide; subst. }
      apply (sys_ok_cache n _ c G Hc1 Hc2).
  - destruct (negb _) eqn:Epm.
    + destruct (negb is_write || _) eqn:Eok; [|apply Hsegv; [done|done|]; apply orb_false_iff in Eok as [Ew Ep]; apply negb_false_iff in Ew; apply ReadOnly; [done|done|done|right; by rewrite Hfr]]. exists Handled, s. split; [done|]. split; [done|]. split; [intros va _; by left|].
      exists (frame_at r i), (is_written r i). split; [rewrite Hview; f_equal; apply (Hwith r); [apply same_attrs_refl|done|done]|]. apply ByOther; [done|done|]. intros ->. cbn in Eok, Epm. change (p_cow (page_no r i)) with (cow r). change (p_flags (page_no r i)) with (flags r).
      split; [done|]. rewrite <- Ecl. by destruct (cow r), (contains (flags r) WRITABLE && clean_file_page r i).
    + destruct (promote_spec n block slot r i s HO Hr Hl Hi Hp Hq) as (f & s' & E & r' & G1 & G2 & G3). rewrite E. destruct (Hop _ _ G2) as [K1 K2]. exists f, s'. split; [done|]. split; [done|]. split; [done|].
      apply negb_false_iff, andb_true_iff in Epm as [-> _]. destruct f; [| |done].
      2: { destruct G3 as (-> & Erf & [(-> & Eb & Hgt)|(q & t & Em & Ht & Hpte & Hwhat)]); [apply NoBlock; [done|done|by rewrite Hfr]|].
           eapply (NoEntry _ _ _ _ _ _ q (flags r) t (is_written r i)); rewrite ?(page_down_idx r) by done; fold i.
           - done.
           - destruct Hwhat as [[_ ->]|[_ ->]]; auto.
           - by rewrite K2, <- Hself.
           - intros a Ha. by rewrite Hpte, Ht.
           - destruct Hwhat as [[_ ->]|[_ ->]]; [right; by rewrite Hpte|left; by rewrite Hpte, pte_unmap, decide_True].
           - intros x _. by rewrite Erf. }
      destruct G3 as (Hcl & Hpte & Hhow). pose proof (op_same _ _ _ _ _ _ G2) as S1.
      destruct (slot_region _ _ _ _ (so_vm _ _ G1) (op_slot _ _ _ _ _ _ G2)) as [R' _].
      destruct (Z.leb_spec (PageRef.get (frame_at r i) (page_refs (wld s))) 1) as [Hle|Hgt].
      * destruct Hhow as (U1 & U2 & U3). exists (frame_at r i), (is_written r' i). rewrite U1 in Hpte. rewrite K2, (Hwith r'), U1 by (done || by rewrite U1). split; [done|].
        rewrite (page_down_idx r) by done. by apply ByUpgrade; [..|right|].
      * destruct Hhow as (q & -> & U1 & U2 & U3 & U4). exists q, (is_written r' i). destruct (Hq q eq_refl) as [Hq0 _]. rewrite U1 in Hpte. rewrite K2, (Hwith r'), U1 by (done || by rewrite U1).
        split; [done|]. rewrite (page_down_idx r) by done. by apply (ByCopy _ _ _ _ _ _ _ _ (frame_at r i)).
Qed.

(** A fault on an absent page. *)
Lemma absent_file_spec n fk block fault_va is_write slot r s :
  let i := idx_of r fault_va in
  sys_ok (16 + n) s -> regions (asp s) !! slot = Some (Some r) -> lazy r = true -> covers fault_va r = true -> frame_at r i = 0 -> is_file_backed (file_cap r) = true ->
  exists plan s', file_fault fk (page_down fault_va) is_write slot r i s = Some (plan, s') /\ sys_ok n s'
    /\ (forall va, page_kept s s' va) /\ fault_outcome fk block fault_va is_write (page_no r i) s plan s'.
Proof.
  intros i HO Hr Hl Hc Hf Hfb. destruct (slot_region _ _ _ _ (so_vm _ _ HO) Hr) as [R Hin]. pose proof (idx_bound r fault_va R Hc) as Hi.
  assert (p_frame (page_no r i) = None) as Hnone by by rewrite page_frame_lazy, Hf by done.
  destruct (file_fault_spec n fk (page_down fault_va) is_write slot r i s HO Hr Hl Hi Hf) as (plan & s' & E & r' & G1 & G2 & P & G3).
  exists plan, s'. split; [done|]. split; [done|]. assert (forall va, page_kept s s' va) as HK by (intros va; by eapply progressed_kept). split; [done|].
  destruct plan as [[]|f]; [| |done|].
  2: { destruct G3 as (Hz & Hrf & Hpte & p & f & Em). eapply (NoEntry _ _ _ _ _ _ p f (pt (wld s)) (is_written r' i)); rewrite ?(page_down_idx r) by done; fold i.
       - done.
       - by left.
       - rewrite (progressed_view slot r r' s s' fault_va (so_vm _ _ G1) Hl P Hc). fold i. by rewrite Hz, Hnone.
       - intros a Ha. by rewrite Hpte, decide_False.
       - left. by rewrite Hpte, decide_True.
       - done. }
  - destruct G3 as (Hne & (pg & Hpg & Hfr) & f & Hpte & Hfl). exists (frame_at r' i), (is_written r' i). split.
    + rewrite (progressed_view slot r r' s s' fault_va (so_vm _ _ G1) Hl P Hc). fold i. unfold frame_opt. by rewrite (proj2 (Z.eqb_neq _ _) Hne).
    + rewrite (page_down_idx r) by done. fold i. destruct (cache_pgoff_pos r i pg Hpg) as [_ ->]. by apply (ByCache _ _ _ _ _ _ _ _ f).
  - destruct G3 as (E1 & E2 & k & ->). unfold fault_outcome, read_plan. cbn [cap page_va pos window write page_no p_cap p_pos]. rewrite Hfb.
    split_and!; try done; pose proof (window_loop_bounds (FAULT_AROUND_PAGES - 1) 1 i r) as Hb; cbn [FAULT_AROUND_PAGES] in *; unfold FAULT_AROUND_PAGES in *; lia.
Qed.

Lemma absent_anon_spec n fk block fault_va is_write slot r s :
  let i := idx_of r fault_va in
  sys_ok n s -> regions (asp s) !! slot = Some (Some r) -> lazy r = true -> covers fault_va r = true -> frame_at r i = 0 -> is_file_backed (file_cap r) = false ->
  (forall q, block = Some q -> fresh s q) ->
  exists plan s', anon_fault block (page_down fault_va) is_write slot r i s = Some (plan, s') /\ sys_ok n s'
    /\ (forall va, page_kept s s' va) /\ fault_outcome fk block fault_va is_write (page_no r i) s plan s'.
Proof.
  intros i HO Hr Hl Hc Hf Hfb Hq. destruct (slot_region _ _ _ _ (so_vm _ _ HO) Hr) as [R Hin]. pose proof (idx_bound r fault_va R Hc) as Hi.
  assert (p_frame (page_no r i) = None) as Hnone by by rewrite page_frame_lazy, Hf by done. rewrite (page_down_idx r) by done.
  destruct (anon_fault_spec n block is_write slot r i s HO Hr Hl Hfb Hi Hf Hq) as (f & s' & r' & E & G1 & P & G3).
  exists (Done f), s'. split; [done|]. split; [done|]. assert (forall va, page_kept s s' va) as HK by (intros va; by eapply progressed_kept). split; [done|].
  destruct f; [| |done].
  2: { destruct G3 as [Hv [(-> & -> & H1 & H2)|[[-> ->]|(q & Eq & Em & Hpte & Erf & _)]]]; [apply ReadOnly; try done; by left|apply NoBlock; [done..|by rewrite Hnone]|].
       eapply (NoEntry _ _ _ _ _ _ q (flags r) (pt (wld s)) (is_written r i)); rewrite ?(page_down_idx r) by done; fold i.
       - done.
       - by left.
       - rewrite Hv, (view_elem _ fault_va r (proj2 (proj1 (so_vm _ _ HO))) Hin Hc). fold i. by rewrite Hnone at 1; f_equal; unfold with_page; cbn; rewrite <- Hnone at 1.
       - intros a _. apply Hpte.
       - right. apply Hpte.
       - intros x _. by rewrite Erf. }
  destruct G3 as (q & Eq & Hfr & Hpte & Hlog). destruct (Hq q Eq) as [Hq0 _]. exists q, (is_written r' i). split.
  - rewrite (progressed_view slot r r' s s' fault_va (so_vm _ _ G1) Hl P Hc). fold i. rewrite Hfr. unfold frame_opt. by rewrite (proj2 (Z.eqb_neq _ _) Hq0).
  - rewrite (page_down_idx r) by done. fold i. by apply ByZero.
Qed.

End plan.

(** ** Systems to evaluate *)

(** A mapping of two pages, the first with frame 20480. *)
Definition demo_region (fl pr mf cap : Z) (cw : bool) : VmaRegion :=
  mkVma 65536 73728 0 fl true (default PageVec.new (PageVec.from [20480])) 1 pr mf cap 0 (if cap =? 0 then 0 else 8192) cw [].
Definition demo_on {T} (t : T) (r : VmaRegion) (rf : refs) (c : Cache.t) : sys (T := T) (C := Cache.t) :=
  mkSys (mkAs [Some r] 0 0 0 0 0) (mkWorld t rf 0 []) c.
Definition demo_table (f : Z) : gmap Z (Z * Z) := <[65536 := (20480, f)]> ∅.
Definition demo_sys (r : VmaRegion) (rf : refs) (f : Z) (c : Cache.t) : sys := demo_on (demo_table f) r rf c.

Section demo.
Variables (fl pr mf cap : Z) (cw : bool).
Notation r := (demo_region fl pr mf cap cw).

Lemma demo_frames i : frame_at r i = if decide (i = 0%nat) then 20480 else 0.
Proof.
  assert (PageVec.wf (lazy_pages r) /\ to_list (lazy_pages r) = [20480]) as [W L].
  { cbn [demo_region lazy_pages]. destruct (from_spec [20480]) as (v & -> & W & L). done. }
  rewrite frame_at_list, L by done. by destruct i.
Qed.

Lemma demo_region_ok : region_ok r.
Proof.
  split; try done.
  - by exists 16.
  - by exists 18.
  - cbn [demo_region lazy_pages]. by destruct (from_spec [20480]) as (v & -> & W & L).
  - intros _ i Hge. change ((end_ r - start r) / PAGE_SIZE) with 2 in Hge. rewrite demo_frames, decide_False by lia. done.
  - cbn. by destruct (cap =? 0).
Qed.

Lemma demo_on_ok {T} `{PageTable T} (t : T) rf c n : shared_only rf -> (forall p, PageRef.get p rf + Z.of_nat n <= U32_MAX) -> fc_ok c ->
  (forall k g p, fc_frame c k g = Some p -> p = 20480 /\ 1 < PageRef.get p rf) -> (has mf MAP_SHARED = true -> cw = false) ->
  (forall va p f, pte t va = Some (p, f) -> va = 65536 /\ p = 20480 /\ (contains f WRITABLE = true -> may_write rf (page_no r 0) 20480 = true)) -> sys_ok n (demo_on t r rf c).
Proof.
  intros HR Hroom Hc Hcached Hsh Hf. split; try done.
  - split; [split; [constructor; [apply demo_region_ok|done]|done]|]. split; [|done]. intros va p g Hp. destruct (Hf va p g Hp) as (-> & -> & Hw). split; [by exists 16|]. by exists (page_no r 0).
  - intros p Hp. assert (mapped_count p (live (regions (asp (demo_on t r rf c)))) <= 1) as Hm.
    { cbn [asp demo_on regions live omap list_omap mapped_count id uses lazy]. unfold uses. change (lazy r) with true. change (Z.to_nat (pages r)) with 2%nat.
      cbn [seq countb]. rewrite !demo_frames, decide_True, decide_False by done. rewrite (proj2 (Z.eqb_neq 0 p)) by done. destruct (20480 =? p); lia. }
    pose proof (get_pos rf p HR). cbn [page_refs wld demo_on fc]. split; [lia|]. intros (k & g & Hx). destruct (Hcached k g p Hx) as [-> Hg]. lia.
  - constructor; [done|constructor].
Qed.

Lemma demo_sys_ok rf f c n : shared_only rf -> (forall p, PageRef.get p rf + Z.of_nat n <= U32_MAX) -> fc_ok c ->
  (forall k g p, fc_frame c k g = Some p -> p = 20480 /\ 1 < PageRef.get p rf) -> (has mf MAP_SHARED = true -> cw = false) ->
  (contains f WRITABLE = true -> may_write rf (page_no r 0) 20480 = true) -> sys_ok n (demo_sys r rf f c).
Proof.
  intros HR Hroom Hc Hcached Hsh Hf. apply demo_on_ok; try done. intros va p g Hp. cbn in Hp. unfold demo_table in Hp.
  apply lookup_insert_Some in Hp as [[<- [= <- <-]]|[_ Hp]]; [done|by rewrite lookup_empty in Hp].
Qed.
End demo.

Lemma one_shared n : n <= 1000 -> shared_only {[20480 := 2]} /\ forall p, PageRef.get p {[20480 := 2]} + n <= U32_MAX.
Proof.
  intros Hn. split; [apply map_Forall_singleton; unfold U32_MAX; lia|]. intros p. unfold PageRef.get.
  destruct (decide (p = 20480)) as [->|]; [rewrite lookup_singleton_eq|rewrite lookup_singleton_ne by done]; cbn; unfold U32_MAX; lia.
Qed.

(** A page shared copy-on-write by two address spaces. *)
Definition shared_demo : sys := demo_sys (demo_region 7 3 34 0 true) {[20480 := 2]} 5 empty_cache.

Lemma shared_demo_ok : sys_ok 16 shared_demo.
Proof. destruct (one_shared 16 ltac:(lia)) as [G1 G2]. apply demo_sys_ok; done. Qed.

Lemma shared_demo_fresh : fresh shared_demo 28672.
Proof. split; [done|]. split; [vm_compute; done|]. split; [vm_compute; done|]. intros (k & g & Hx). done. Qed.

