(* ===== verification/VmmAccess.v ===== *)
(** * Address spaces: accesses that the fault path answers wrongly

    Two consequences of the fault path of [VmmFault]: what a store to a read-only
    copy-on-write page leads to, and where the kernel's own store to a file page
    lands when memory is short. *)
From S2P Require Import Prelude KLib PageSites PageRef PageVec BTree PageCache Vmm VmmView VmmMap VmmOps VmmBrk VmmFault VmmCache VmmTouch VmmPlan.
#[local] Open Scope Z_scope.

Section access.
Context {T : Type} `{PageTable T} {C : Type} `{FrameCache C}.
Notation sys := (sys (T := T) (C := C)).
Implicit Types (w : world T) (c : C) (s : sys).

Lemma region_at_unique s va slot r : vm_ok (asp s) (wld s) -> regions (asp s) !! slot = Some (Some r) -> covers va r = true ->
  exists slot', region_at (asp s) va = Some (slot', r) /\ regions (asp s) !! slot' = Some (Some r).
Proof.
  intros HV Hr Hc. destruct (slot_region _ _ _ _ HV Hr) as [R Hin]. pose proof (find_unique _ va r (proj2 (proj1 HV)) Hin Hc) as Hf.
  pose proof (region_at_spec (asp s) va) as HA. destruct (region_at (asp s) va) as [[slot' r']|]; [|unfold view in HA; by rewrite Hf in HA].
  destruct HA as [Hr' Hc']. destruct (slot_region _ _ _ _ HV Hr') as [_ Hin']. rewrite (find_unique _ va r' (proj2 (proj1 HV)) Hin' Hc') in Hf. injection Hf as ->. by exists slot'.
Qed.

Lemma plan_present fk block fault_va is_write s slot r : vm_ok (asp s) (wld s) -> regions (asp s) !! slot = Some (Some r) -> covers fault_va r = true ->
  lazy r = true -> Z.land (prot r) PROT_ACCESS <> 0 -> frame_at r (idx_of r fault_va) <> 0 ->
  exists slot', regions (asp s) !! slot' = Some (Some r) /\ plan_user_page_fault fk block fault_va is_write s
    = present_fault fk block (va_of (start r) (idx_of r fault_va)) is_write slot' r (idx_of r fault_va) (frame_at r (idx_of r fault_va)) s.
Proof.
  intros HV Hr Hc Hl Hacc Hf. destruct (slot_region _ _ _ _ HV Hr) as [R _]. destruct (region_at_unique s fault_va slot r HV Hr Hc) as (slot' & E & Hr').
  exists slot'. split; [done|]. unfold plan_user_page_fault. rewrite E, Hl, (proj2 (Z.eqb_neq _ _) Hacc). cbn [negb]. rewrite (page_down_idx r) by done.
  change (Z.to_nat ((va_of (start r) (idx_of r fault_va) - start r) / PAGE_SIZE)) with (idx_of r (va_of (start r) (idx_of r fault_va))).
  rewrite va_idx, (proj2 (Z.eqb_neq _ _) Hf). done.
Qed.

(** ** Retrying a store *)

(** [k] attempts of an access, each answered by its fault; [None] when one of them is refused. *)
Fixpoint attempts (k : nat) (fk : Z -> Z) (block : nat -> option Z) (va : Z) (is_write : bool) (s : sys) : option sys :=
  match k with
  | O => Some s
  | S k =>
      match plan_user_page_fault fk (block k) va is_write s with
      | Some (Done Handled, s) => attempts k fk block va is_write s
      | _ => None
      end
  end.

(** A resident page of a mapping the program may read but not write, shared
    copy-on-write before and owned by this address space alone. *)
Definition readonly_cow (va : Z) (s : sys) (r : VmaRegion) : Prop :=
  (exists slot, regions (asp s) !! slot = Some (Some r)) /\ covers va r = true /\ lazy r = true /\ cow r = true
  /\ contains (flags r) WRITABLE = false /\ has (prot r) PROT_WRITE = false /\ Z.land (prot r) PROT_ACCESS <> 0
  /\ frame_at r (idx_of r va) <> 0 /\ PageRef.get (frame_at r (idx_of r va)) (page_refs (wld s)) <= 1 /\ is_Some (pte (pt (wld s)) (page_down va)).

(** One attempt. *)
Lemma readonly_cow_step n fk block va s r : sys_ok n s -> readonly_cow va s r ->
  exists s' r', plan_user_page_fault fk block va true s = Some (Done Handled, s') /\ sys_ok n s' /\ readonly_cow va s' r'
    /\ pte (pt (wld s')) (page_down va) = Some (frame_at r (idx_of r va), flags r) /\ flags r' = flags r /\ frame_at r' (idx_of r' va) = frame_at r (idx_of r va).
Proof.
  intros HO ((slot & Hr) & Hc & Hl & Hcow & Hw & Hpw & Hacc & Hf & Hg & Hpte). pose proof (so_vm _ _ HO) as HV. destruct (slot_region _ _ _ _ HV Hr) as [R Hin].
  pose proof (idx_bound r va R Hc) as Hi. destruct (plan_present fk block va true s slot r HV Hr Hc Hl Hacc Hf) as (slot' & Hr' & E).
  rewrite (page_down_idx r va R Hc) in Hpte |- *. set (i := idx_of r va) in *. rewrite E.
  unfold present_fault. rewrite Hw, !andb_false_r. rewrite Hcow. cbn [andb orb negb]. unfold promote. rewrite (proj2 (Z.leb_le _ _) Hg). unfold map_at.
  pose proof (pte_remap (va_of (start r) i) (frame_at r i) (flags r) (pt (wld s)) Hpte) as Hok. destruct (map_page _ _ (flags r) (pt (wld s))) as [ok t'] eqn:Em. cbn in Hok. subst ok.
  set (s' := put_region _ _ _). destruct (upgrade_spec n s s' slot' r i (frame_at r i) t' HO Hr' Hl Hi Hf) as (G1 & G2 & G3 & G4 & G5); try done; [apply HO|].
  pose proof (op_same _ _ _ _ _ _ G2) as S1. exists s', (set_written i true r). split; [done|]. split; [done|].
  assert (idx_of (set_written i true r) va = i) as Hidx by (unfold i; apply idx_start; attrs S1; done).
  split; [|split; [done|split; [attrs S1; done|by rewrite Hidx]]].
  split; [by exists slot'; apply G2|]. rewrite Hidx, G3, (page_down_idx r va R Hc). fold i. rewrite G5. unfold covers in *. attrs S1.
  repeat match goal with E : _ (set_written _ _ _) = _ |- _ => rewrite E; clear E end. by split_and!.
Qed.

(** C29: a store to a read-only page that was once shared copy-on-write is never
    refused: the fault is answered as handled, the entry is reinstalled without
    write access, and the retried store faults again, however often.  The
    program is neither stopped nor does it get on. *)
Theorem readonly_cow_write_loops n fk block va s r k :
  sys_ok n s -> readonly_cow va s r ->
  exists s', attempts k fk block va true s = Some s' /\ sys_ok n s'
    /\ (k <> 0%nat -> exists f, pte (pt (wld s')) (page_down va) = Some (frame_at r (idx_of r va), f) /\ contains f WRITABLE = false).
Proof.
  intros HO. revert s r HO. induction k as [|k IH]; intros s r HO HL; cbn [attempts]; [by exists s|].
  destruct (readonly_cow_step n fk (block k) va s r HO HL) as (s1 & r1 & E & HO1 & HL1 & Hp & Hfl & Hfr). rewrite E.
  destruct (IH s1 r1 HO1 HL1) as (s' & E' & HO' & Hk). exists s'. split_and!; try done. intros _. rewrite <- Hfr. destruct k as [|k]; [|by apply Hk].
  injection E' as <-. exists (flags r). rewrite Hfr. split; [done|]. apply HL.
Qed.

(** ** The kernel's store to a clean file page *)

(** A resident page of a private file mapping the program may write, not written
    yet: its frame is still the file's, and others refer to it. *)
Definition clean_private (va : Z) (s : sys) (r : VmaRegion) : Prop :=
  (exists slot, regions (asp s) !! slot = Some (Some r)) /\ covers va r = true /\ lazy r = true /\ cow r = false
  /\ contains (flags r) WRITABLE = true /\ has (map_flags r) MAP_SHARED = false /\ Z.land (prot r) PROT_ACCESS <> 0
  /\ frame_at r (idx_of r va) <> 0 /\ clean_file_page r (idx_of r va) = true /\ 1 < PageRef.get (frame_at r (idx_of r va)) (page_refs (wld s)).

Lemma find_region s va slot r : vm_ok (asp s) (wld s) -> regions (asp s) !! slot = Some (Some r) -> covers va r = true -> find (asp s) va = Some r.
Proof. intros HV Hr Hc. destruct (slot_region _ _ _ _ HV Hr) as [R Hin]. by apply find_unique; [apply HV|..]. Qed.

(** The promotion such a page needs, with no memory for the copy. *)
Lemma clean_private_refused n fk o va s r : sys_ok n s -> clean_private va s r -> o_block o = None -> handle_user_page_fault fk o va true s = Some (false, s).
Proof.
  intros HO ((slot & Hr) & Hc & Hl & Hcow & Hw & Hsh & Hacc & Hf & Hcl & Hg) Ho.
  destruct (plan_present fk (o_block o) va true s slot r (so_vm _ _ HO) Hr Hc Hl Hacc Hf) as (slot' & Hr' & E).
  unfold handle_user_page_fault, user_page_fault. rewrite E. unfold present_fault. rewrite Hw, Hsh, Hcl, Hcow. cbn [andb orb negb].
  unfold promote. rewrite (proj2 (Z.leb_gt _ _) Hg), Ho. done.
Qed.

(** C30: [write_user_buf] ignores that a clean private file page could not be given
    its own copy: when the allocator has no page it stores the bytes all the same,
    into the frame the page shares with the page cache and with every other
    mapping of the file, and reports success.  Nothing marks the page as written
    either. *)
Theorem write_user_buf_oom n fk oracles va src s r :
  sys_ok n s -> clean_private va s r -> o_block (oracles va) = None ->
  src <> [] -> Z.of_nat (length src) <= PAGE_SIZE - va mod PAGE_SIZE ->
  let p := frame_at r (idx_of r va) in
  exists s', write_user_buf fk oracles va src s = Some (true, s') /\ asp s' = asp s /\ page_refs (wld s') = page_refs (wld s) /\ fc s' = fc s
    /\ log (wld s') = log (wld s) ++ [Store (wrap64 (p + (va - start r) mod PAGE_SIZE)) src] /\ 1 < PageRef.get p (page_refs (wld s'))
    /\ clean_private va s' r.
Proof.
  intros HO HC Ho Hsrc Hlen p. pose proof HC as ((slot & Hr) & Hc & Hl & Hcow & Hw & Hsh & Hacc & Hf & Hcl & Hg). fold p in Hf, Hg.
  pose proof (find_region s va slot r (so_vm _ _ HO) Hr Hc) as Hfind. unfold write_user_buf. destruct src as [|b src]; [done|]. cbn [write_loop length].
  assert (unshare_cow_page fk (oracles va) va false s = Some (true, s)) as -> by (unfold unshare_cow_page, find_at; rewrite Hfind, Hcow, andb_false_r; done). cbn [mbind option_bind negb].
  assert (is_shared_readonly_file_page s va = false) as -> by (unfold is_shared_readonly_file_page, find_at; rewrite Hfind, Hw; by rewrite andb_false_r).
  assert (is_clean_writable_file_page s va = true) as ->.
  { unfold is_clean_writable_file_page, find_at. rewrite Hfind. change (idx_at r va) with (idx_of r va). fold p. by rewrite Hw, Hcl, (proj2 (Z.eqb_neq p 0) Hf). }
  rewrite (clean_private_refused n fk (oracles va) va s r HO HC Ho). cbn [mbind option_bind].
  assert (virt_to_phys (asp s) va = Some (wrap64 (p + (va - start r) mod PAGE_SIZE))) as ->.
  { unfold virt_to_phys. rewrite Hfind. cbn [mbind option_bind]. rewrite Hl. change (Z.to_nat ((va - start r) / PAGE_SIZE)) with (idx_of r va). fold p. by rewrite (proj2 (Z.eqb_neq p 0) Hf). }
  replace (Nat.min (Z.to_nat (PAGE_SIZE - va mod PAGE_SIZE)) (S (length src))) with (length (b :: src)) by (cbn [length] in *; lia).
  rewrite drop_all, firstn_all. exists (set_wld (emit [Store (wrap64 (p + (va - start r) mod PAGE_SIZE)) (b :: src)] (wld s)) s). split; [by destruct (length src)|].
  by split_and!.
Qed.
End access.

(** ** Systems to evaluate *)

Definition readonly_demo : sys := demo_sys (demo_region 5 1 34 0 true) ∅ 5 empty_cache.

Lemma readonly_cow_write_loops_witness :
  exists s', attempts 1000 (fun _ => 0) (fun _ => None) 65600 true readonly_demo = Some s'
    /\ exists f, pte (pt (wld s')) 65536 = Some (20480, f) /\ contains f WRITABLE = false.
Proof.
  destruct (readonly_cow_write_loops 0 (fun _ => 0) (fun _ => None) 65600 readonly_demo (demo_region 5 1 34 0 true) 1000) as (s' & E & _ & G).
  - by apply demo_sys_ok.
  - split; [by exists 0%nat|]. split_and!; try (vm_compute; done). by eexists.
  - exists s'. split; [exact E|]. destruct (G ltac:(lia)) as (f & Hp & Hw). exists f. split; [exact Hp|exact Hw].
Defined.

(** File 3, whose page 0 is cached in frame 20480, mapped privately. *)
Definition file_cache : Cache.t :=
  Cache.mkCache [(3, Cache.set_pages [(0, Cache.mkPage 20480 0 Cache.ST_UPTODATE Cache.F_MAPPED)] Cache.new_file)] (0, 0) 1 1 0 0 0 1 0 0 true 0 1000 ∅ 500 [] [].
Definition file_demo : sys := demo_sys (demo_region 7 3 (Z.lor MAP_PRIVATE MAP_EOF_SIGBUS) 3 false) {[20480 := 2]} 5 file_cache.


Lemma file_cache_frames k g p : frame_of_page k g file_cache = Some p -> p = 20480.
Proof.
  unfold frame_of_page, Cache.page_of, Cache.file. cbn [file_cache Cache.files bget]. destruct (k =? 3); [|by destruct (k <? 3)].
  cbn [mbind option_bind Cache.pages Cache.set_pages bget]. destruct (g =? 0); [|by destruct (g <? 0)]. by intros [= <-].
Qed.

Lemma file_demo_ok : sys_ok 0 file_demo.
Proof.
  destruct (one_shared 0 ltac:(lia)) as [G1 G2]. apply demo_sys_ok; try done.
  - split; [repeat constructor|]. intros k fe. unfold Cache.file. cbn [file_cache Cache.files bget]. destruct (k =? 3); [|by destruct (k <? 3)]. intros [= <-]. repeat constructor.
  - intros k g p ->%file_cache_frames. done.
Qed.

Lemma write_user_buf_oom_witness :
  exists s', write_user_buf (fun c => c) (fun _ => mkOracle None (fun _ => None) (fun _ _ _ => ([], 0))) 65600 [72; 105] file_demo = Some (true, s')
    /\ log (wld s') = [Store 20544 [72; 105]] /\ frame_of_page 3 0 (fc s') = Some 20480.
Proof.
  destruct (write_user_buf_oom 0 (fun c => c) (fun _ => mkOracle None (fun _ => None) (fun _ _ _ => ([], 0))) 65600 [72; 105] file_demo (demo_region 7 3 (Z.lor MAP_PRIVATE MAP_EOF_SIGBUS) 3 false))
    as (s' & E & _ & _ & Ec & El & _); [exact file_demo_ok| |done|done|vm_compute; done|].
  - split; [by exists 0%nat|]. split_and!; try (vm_compute; done).
  - exists s'. split; [exact E|]. split; [exact El|]. rewrite Ec. reflexivity.
Defined.
