(* ===== verification/VmmInstall.v ===== *)
(** * Address spaces: installing what a fault read

    Proofs about [install_file_fault] of [VmmFault], the half of a file fault that runs
    after the read.  The address space was unlocked meanwhile: the theorem asks
    nothing of the state it finds but the invariant.  The protection of the page is not
    among what is re-checked; [install_into_prot_none] shows what follows. *)
From S2P Require Import Prelude KLib PageSites PageRef PageVec BTree PageCache Vmm VmmView VmmMap VmmOps VmmBrk VmmFault VmmCache VmmTouch VmmPlan VmmAccess.
#[local] Open Scope Z_scope.

(** The bytes of page [i] of what was read, and the calls that put them in frame [q]. *)
Definition page_bytes (data : list Z) (valid : Z) (i : nat) : list Z :=
  take (Z.to_nat (Z.min (valid - Z.of_nat i * PAGE_SIZE) PAGE_SIZE)) (drop (Z.to_nat (Z.of_nat i * PAGE_SIZE)) data).
Definition fill_calls (data : list Z) (valid : Z) (i : nat) (q : Z) : list call :=
  Zero q PAGE_SIZE :: (if Z.of_nat i * PAGE_SIZE <? valid then [Store q (page_bytes data valid i)] else []).

(** [l2] has all of [l1] in a row. *)
Definition within (l1 l2 : list call) : Prop := exists pre post, l2 = pre ++ l1 ++ post.

Lemma within_app l1 l2 l3 : within l1 l2 -> within l1 (l2 ++ l3).
Proof. intros (pre & post & ->). exists pre, (post ++ l3). by rewrite <- !app_assoc. Qed.

Lemma index_mut_len i p v v' : PageVec.index_mut i p v = Some v' -> PageVec.len v' = PageVec.len v.
Proof. unfold PageVec.index_mut. destruct (_ <=? _)%nat; [done|]. destruct (chunks v !! _); [|done]. cbn. by intros [= <-]. Qed.

Lemma set_written_pages i b r : lazy_pages (set_written i b r) = lazy_pages r.
Proof. unfold set_written. destruct b; [|done]. by destruct (_ || _). Qed.

Lemma grow_to_len n r : PageVec.wf (lazy_pages r) -> (PageVec.len (lazy_pages r) <= PageVec.len (lazy_pages (grow_to n r)))%nat.
Proof.
  intros W. unfold grow_to. destruct (Nat.ltb_spec (PageVec.len (lazy_pages r)) n); [|done]. cbn [set_lazy_pages lazy_pages].
  destruct (resize_spec n (lazy_pages r) W) as (_ & -> & _). lia.
Qed.

Section install.
Context {T : Type} `{PageTable T} {C : Type} `{FrameCache C}.
Notation sys := (sys (T := T) (C := C)).
Implicit Types (w : world T) (c : C) (s : sys).

Lemma map_frame_len i p fl r w ok r' w' : map_frame i p fl r w = Some (ok, r', w') -> PageVec.len (lazy_pages r') = PageVec.len (lazy_pages r).
Proof.
  unfold map_frame, map_at. destruct (map_page _ _ _ _) as [[] t']; cbn [negb]; [|by intros [= _ <- _]]. unfold add_frame, put_frame.
  destruct (PageVec.index_mut i p (lazy_pages r)) as [pv|] eqn:E; [|done]. cbn. intros [= _ <- _]. cbn. by eapply index_mut_len.
Qed.

Lemma install_cached_len i p b r w ok r' w' : PageVec.wf (lazy_pages r) -> install_cached i p b r w = Some (ok, r', w') ->
  (PageVec.len (lazy_pages r) <= PageVec.len (lazy_pages r'))%nat.
Proof. intros W E. unfold install_cached in E. apply map_frame_len in E. rewrite set_written_pages in E. rewrite E. by apply grow_to_len. Qed.

(** A frame that stays fresh while page [i] of the mapping gets another one. *)
Lemma fresh_kept s s' slot r r' i p q : fresh s q -> regions (asp s) !! slot = Some (Some r) -> lazy r = true -> Z.of_nat i < pages r -> frame_at r i = 0 ->
  same_attrs r r' -> fills r r' i p -> asp s' = with_region slot r' (asp s) -> (forall k g, fc_frame (fc s') k g = fc_frame (fc s) k g) ->
  q <> p -> (forall x, x <> p -> PageRef.get x (page_refs (wld s')) = PageRef.get x (page_refs (wld s))) -> fresh s' q.
Proof.
  intros (Q0 & Q1 & Q2 & Q3) Hr Hl Hi Hf S1 F Ea Hfr Hne Hg. split; [done|]. split; [by rewrite Hg|]. split.
  - rewrite Ea, (mapped_fills q p slot r r' i) by done. rewrite Q2, Hf. unfold b2z. by rewrite !decide_False.
  - intros (k & g & Hx). apply Q3. exists k, g. by rewrite <- Hfr.
Qed.

(** Where frame [q] of page [idx] comes from: the cached page of its file position, or
    a fresh frame that was zeroed and given the bytes read for it. *)
Definition source (p : FileFault) (data : list Z) (valid : Z) (page_idx : nat) (alloc : nat -> option Z) (r : VmaRegion) (c : C) (lg : list call) (idx : nat) (q : Z) : Prop :=
  (exists pg, key p <> 0 /\ cache_pgoff r idx = Some pg /\ fc_frame c (key p) pg = Some q)
  \/ exists i, idx = (page_idx + i)%nat /\ alloc i = Some q /\ within (fill_calls data valid i q) lg.

Section loop.
Variables (p : FileFault) (data : list Z) (valid : Z) (page_idx : nat) (alloc : nat -> option Z).

(** The effect of populating page [i] of the window, or of leaving it absent. *)
Record fill_step (i : nat) (slot : nat) (r r' : VmaRegion) (s s' : sys) : Prop := {
  fs_prog : progressed slot r r' s s';
  fs_len : (PageVec.len (lazy_pages r) <= PageVec.len (lazy_pages r'))%nat;
  fs_other : forall j, j <> (page_idx + i)%nat -> frame_at r' j = frame_at r j;
  fs_from : frame_at r' (page_idx + i) <> 0 -> source p data valid page_idx alloc r (fc s) (log (wld s')) (page_idx + i) (frame_at r' (page_idx + i));
  fs_log : exists es, log (wld s') = log (wld s) ++ es;
  fs_fc : forall k g, fc_frame (fc s') k g = fc_frame (fc s) k g;
  fs_fresh : forall q, fresh s q -> alloc i <> Some q -> fresh s' q }.

(** Page [i] of the window has a frame and an entry for it, which the user can
    use if the region's flags say so. *)
Definition installed (i : nat) (r r' : VmaRegion) (s' : sys) : Prop :=
  let idx := (page_idx + i)%nat in
  frame_at r' idx <> 0 /\ exists fl, pte (pt (wld s')) (va_of (start r) idx) = Some (frame_at r' idx, fl) /\ (contains (flags r) USER = true -> contains fl USER = true).
(** The page table refuses an entry for it. *)
Definition refused (i : nat) (r : VmaRegion) (s : sys) : Prop := exists q fl, (map_page (va_of (start r) (page_idx + i)) q fl (pt (wld s))).1 = false.
(** The page is the cache's business alone. *)
Definition cache_only (r : VmaRegion) : Prop := has (map_flags r) MAP_SHARED = true /\ key p <> 0.

(** Nothing but the cache's bookkeeping. *)
Lemma fill_step_none n i slot r s c : sys_ok n s -> regions (asp s) !! slot = Some (Some r) -> frame_at r (page_idx + i) = 0 ->
  fc_ok c -> (forall k g, fc_frame c k g = fc_frame (fc s) k g) -> sys_ok n (mkSys (asp s) (wld s) c) /\ fill_step i slot r r s (mkSys (asp s) (wld s) c).
Proof.
  intros HO Hr Hf Hc Hfr. split; [by apply sys_ok_cache|]. split; try done.
  - destruct s as [a w c0]. apply (progressed_cache slot r r _ _ c0 c (progressed_refl slot r _ Hr)).
  - exists []. by rewrite app_nil_r.
  - intros q (Q0 & Q1 & Q2 & Q3) _. split_and!; try done. intros (k & g & Hx). apply Q3. exists k, g. by rewrite <- Hfr.
Qed.

(** The cached frame. *)
Lemma fill_step_cached n i slot r s ph pg b :
  let idx := (page_idx + i)%nat in
  sys_ok (S n) s -> regions (asp s) !! slot = Some (Some r) -> lazy r = true -> Z.of_nat idx < pages r -> frame_at r idx = 0 ->
  key p <> 0 -> cache_pgoff r idx = Some pg -> fc_frame (fc s) (key p) pg = Some ph -> ph <> 0 ->
  (b = true -> has (map_flags r) MAP_SHARED = true /\ contains (flags r) WRITABLE = true) ->
  exists ok r' w', install_cached idx ph b r (set_page_refs (inc ph (page_refs (wld s))) (wld s)) = Some (ok, r', w') /\
    let s' := mkSys (with_region slot r' (asp s)) (if ok then w' else free_frame ph w') (fc s) in
    sys_ok n s' /\ fill_step i slot r r' s s' /\ if ok then installed i r r' s' else refused i r s.
Proof.
  intros idx HO Hr Hl Hi Hf Hk Hpg Hph Hph0 Hb. destruct (slot_region _ _ _ _ (so_vm _ _ HO) Hr) as [R Hin].
  destruct (cached_step n s slot r idx ph (key p) pg b HO Hr Hl Hi Hf Hph Hph0 Hb) as (ok & r' & w' & E & S1 & F & HO' & O & L & Hg & f & _ & Hus & Ht & Href).
  exists ok, r', w'. split; [done|]. set (s' := mkSys _ _ _) in *. split; [done|]. split; [|].
  2: { destruct ok; [|exists ph, f; by apply Href]. split; fold idx; rewrite F, decide_True by done; [done|]. exists f. split; [|done]. by rewrite Ht, decide_True. }
  split.
  - apply (filled_progress slot r r' s s' idx (if ok then ph else 0) (if ok then Some (ph, f) else None)); try done. apply HO.
  - by eapply install_cached_len; [apply R|exact E].
  - intros j Hj. by rewrite F, decide_False.
  - fold idx. rewrite F, decide_True by done. destruct ok; [|done]. intros _. left. by exists pg.
  - exists []. by rewrite app_nil_r, L.
  - done.
  - intros q Hq _. eapply (fresh_kept s s' slot r r' idx (if ok then ph else 0)); try done. destruct ok; [|apply Hq]. intros ->. destruct Hq as (_ & _ & _ & Hn). apply Hn. by exists (key p), pg.
Qed.

(** A frame given back that nothing else refers to. *)
Lemma free_fresh q w : shared_only (page_refs w) -> PageRef.get q (page_refs w) <= 1 ->
  shared_only (page_refs (free_frame q w)) /\ (forall x, PageRef.get x (page_refs (free_frame q w)) = PageRef.get x (page_refs w))
  /\ pt (free_frame q w) = pt w /\ log (free_frame q w) = log w ++ [BuddyFree q 0].
Proof.
  intros HR Hq. pose proof (get_pos _ q HR). pose proof (unref_spec q (page_refs w) HR) as (U1 & U2 & U3). unfold free_frame.
  destruct (unref_or_free q (page_refs w)) as [b rf']. cbn [fst snd page_refs pt log] in *. rewrite (proj2 (Z.eqb_eq _ _)) in U1 by lia. subst b. split_and!; try done.
  intros x. rewrite U3. destruct (decide (x = q)); [subst; lia|done].
Qed.

(** A private frame with the bytes that were read. *)
Lemma fill_step_private n i slot r s q w :
  let idx := (page_idx + i)%nat in
  sys_ok n s -> regions (asp s) !! slot = Some (Some r) -> lazy r = true -> Z.of_nat idx < pages r -> frame_at r idx = 0 -> (idx < PageVec.len (lazy_pages r))%nat ->
  alloc i = Some q -> fresh s q -> pt w = pt (wld s) -> page_refs w = page_refs (wld s) -> log w = log (wld s) ++ fill_calls data valid i q ->
  let r1 := set_written idx false r in
  exists ok r' w', map_frame idx q (install_flags r1 idx (flags r1)) r1 w = Some (ok, r', w') /\
    let s' := mkSys (with_region slot r' (asp s)) (if ok then w' else free_frame q w') (fc s) in
    sys_ok n s' /\ fill_step i slot r r' s s' /\ if ok then installed i r r' s' else refused i r s.
Proof.
  intros idx HO Hr Hl Hi Hf Hlen Ha Hq Ept Erf Elog r1. pose proof (so_vm _ _ HO) as HV. destruct (slot_region _ _ _ _ HV Hr) as [R Hin]. pose proof Hq as (Hq0 & Hq1 & _).
  assert (revised r r (frame_at r) (is_written r)) as Rr by (split; [apply same_attrs_refl|done..]).
  assert (flags r1 = flags r) as Efl by (pose proof (rv_same _ _ _ _ (set_written_spec idx false r R)) as S1; attrs S1; done).
  destruct (map_frame_spec (asp s) (wld s) w slot r r idx q false (install_flags r1 idx (flags r1)) HV Hr Hl Hi Hf Hq0 Rr Hlen) as (ok & r' & w' & E & S1 & F & Erf' & Elog' & _ & V & O & Ht & Href);
    [done|rewrite Erf; apply HV|rewrite Erf; apply refs_safe_refl| |].
  { intros Hw%install_flags_ok. rewrite Efl in Hw. rewrite Erf. destruct Hw as [W1 W2]. by split_and!. }
  exists ok, r', w'. split; [exact E|]. set (s' := mkSys _ _ _). rewrite Erf in Erf'. rewrite Elog in Elog'.
  assert (shared_only (page_refs w')) as HR' by (rewrite Erf'; apply HV). destruct (free_fresh q w' HR') as (U1 & U2 & U3 & U4); [by rewrite Erf'|]. rewrite Erf' in U2.
  assert (forall x, PageRef.get x (page_refs (wld s')) = PageRef.get x (page_refs (wld s))) as Hg by (intros x; unfold s'; destruct ok; cbn; [by rewrite Erf'|done]).
  assert (forall va, pte (pt (wld s')) va = if decide (va = va_of (start r) idx) then (if ok then Some (q, install_flags r1 idx (flags r1)) else None) else pte (pt (wld s)) va) as Ht'
    by (intros va; unfold s'; destruct ok; cbn; [done|by rewrite U3]).
  split; [|split; [split|]].
  - split; cbn [asp wld fc s']; [|exact (so_fc _ _ HO)| |eapply shared_plain_with; [exact Hr|done|apply HO]|intros x; pose proof (so_room _ _ HO x); specialize (Hg x); cbn [wld s'] in Hg; lia].
    + destruct ok; [done|]. apply (vm_ok_refs _ w'); try done. intros x. by rewrite U2, Erf'.
    + destruct ok.
      * apply (fresh_owned s slot r r' idx q _ ltac:(eapply sys_ok_le; [|exact HO]; lia) Hq Hr Hl Hi S1 F). intros x. rewrite decide_False; [apply Hg|]. rewrite Hf. by intros [-> []].
      * eapply owned_same; [apply HO|exact Hr|done|exact Hi|done| |exact Hg|done]. by rewrite Hf.
  - apply (filled_progress slot r r' s s' idx (if ok then q else 0) (if ok then Some (q, install_flags r1 idx (flags r1)) else None)); try done.
  - apply map_frame_len in E. unfold r1 in E. rewrite set_written_pages in E. lia.
  - intros j Hj. by rewrite F, decide_False.
  - fold idx. rewrite F, decide_True by done. destruct ok; [|done]. intros _. right. exists i. split; [done|]. split; [done|]. exists (log (wld s)), []. cbn. by rewrite app_nil_r, Elog'.
  - unfold s'. destruct ok; cbn [wld]; [by exists (fill_calls data valid i q)|]. exists (fill_calls data valid i q ++ [BuddyFree q 0]). by rewrite U4, Elog', app_assoc.
  - done.
  - intros x Hx Hxa. eapply (fresh_kept s s' slot r r' idx (if ok then q else 0)); try done. destruct ok; [|apply Hx]. intros ->. done.
  - destruct ok; [|exists q, (install_flags r1 idx (flags r1)); by apply Href]. split; fold idx; rewrite F, decide_True by done; [done|].
    exists (install_flags r1 idx (flags r1)). split; [by rewrite Ht', decide_True|]. rewrite Efl. apply install_flags_user.
Qed.

Lemma fresh_cache s c q : (forall k g, fc_frame c k g = fc_frame (fc s) k g) -> fresh s q -> fresh (mkSys (asp s) (wld s) c) q.
Proof. intros Hfr (Q0 & Q1 & Q2 & Q3). split_and!; try done. intros (k & g & Hx). apply Q3. exists k, g. by rewrite <- Hfr. Qed.

Lemma fill_step_cache i slot r r' s s' c : (forall k g, fc_frame c k g = fc_frame (fc s) k g) ->
  fill_step i slot r r' (mkSys (asp s) (wld s) c) s' -> fill_step i slot r r' s s'.
Proof.
  intros Hfr [[] L O Fm Lg Fc Fr]. split; try done.
  - intros Hne. destruct (Fm Hne) as [(pg & H1 & H2 & H3)|Hp]; [left|by right]. exists pg. cbn in H3. by rewrite Hfr in H3.
  - intros k g. rewrite Fc. cbn. apply Hfr.
  - intros q Hq. apply Fr. by apply fresh_cache.
Qed.

(** What became of page [i]: only the faulting page, page 0, is refused with Segv,
    and then for want of a frame or an entry. *)
Definition answer_ok (i : nat) (r r' : VmaRegion) (s s' : sys) (o : option Fault) : Prop :=
  match o with
  | None => installed i r r' s' \/ (0 < i)%nat
  | Some Handled => (0 < i)%nat \/ cache_only r
  | Some Segv => i = 0%nat /\ (alloc i = None \/ refused i r s)
  | Some Bus => False
  end.

Lemma stop_ok i r r' s s' : alloc i = None \/ refused i r s -> answer_ok i r r' s s' (Some (if (0 <? i)%nat then Handled else Segv)).
Proof. intros Hw. destruct (Nat.ltb_spec 0 i); [by left|]. split; [lia|done]. Qed.

Lemma private_calls i q w : let w1 := emit [Zero q PAGE_SIZE] w in
  let w2 := if Z.of_nat i * PAGE_SIZE <? valid then emit [Store q (page_bytes data valid i)] w1 else w1 in
  pt w2 = pt w /\ page_refs w2 = page_refs w /\ log w2 = log w ++ fill_calls data valid i q.
Proof. unfold fill_calls. cbn zeta. destruct (_ <? _); cbn; [rewrite <- app_assoc|]; done. Qed.

(** A page the cache does not give: absent still, or private. *)
Lemma install_private n i slot r s :
  let idx := (page_idx + i)%nat in
  let stop := if (0 <? i)%nat then Handled else Segv in
  sys_ok n s -> regions (asp s) !! slot = Some (Some r) -> lazy r = true -> Z.of_nat idx < pages r -> frame_at r idx = 0 -> (idx < PageVec.len (lazy_pages r))%nat ->
  (forall q, alloc i = Some q -> fresh s q) ->
  exists o r' w',
    match alloc i with
    | None => Some (Some stop, r, wld s, fc s)
    | Some ph =>
        let w := emit [Zero ph PAGE_SIZE] (wld s) in
        let w := if Z.of_nat i * PAGE_SIZE <? valid then emit [Store ph (page_bytes data valid i)] w else w in
        match map_frame idx ph (install_flags (set_written idx false r) idx (flags (set_written idx false r))) (set_written idx false r) w with
        | Some (true, r, w) => Some (None, r, w, fc s)
        | Some (false, r, w) => Some (Some stop, r, free_frame ph w, fc s)
        | None => None
        end
    end = Some (o, r', w', fc s)
    /\ let s' := mkSys (with_region slot r' (asp s)) w' (fc s) in sys_ok n s' /\ fill_step i slot r r' s s' /\ answer_ok i r r' s s' o.
Proof.
  intros idx stop HO Hr Hl Hi Hf Hlen Hq. destruct (alloc i) as [q|] eqn:Ea.
  - destruct (private_calls i q (wld s)) as (E1 & E2 & E3). cbn zeta in E1, E2, E3. cbn zeta.
    destruct (fill_step_private n i slot r s q _ HO Hr Hl Hi Hf Hlen Ea (Hq q eq_refl) E1 E2 E3) as (ok & r' & w' & E & HO' & FS & Hin). fold idx in E. rewrite E.
    destruct ok; eexists _, r', _; (split; [done|]); (split; [exact HO'|]); (split; [exact FS|]); [by left|apply stop_ok; by right].
  - destruct (fill_step_none n i slot r s (fc s) HO Hr Hf (so_fc _ _ HO) ltac:(done)) as [G1 G2]. eexists _, r, (wld s). split; [done|].
    rewrite with_region_same by done. split; [exact G1|]. split; [exact G2|apply stop_ok; by left].
Qed.

Lemma install_one_spec n i slot r s :
  let idx := (page_idx + i)%nat in
  sys_ok (S n) s -> regions (asp s) !! slot = Some (Some r) -> lazy r = true -> Z.of_nat idx < pages r -> frame_at r idx = 0 -> (idx < PageVec.len (lazy_pages r))%nat ->
  (forall q, alloc i = Some q -> fresh s q) ->
  exists o r' w' c', install_one p data valid page_idx alloc i r (wld s) (fc s) = Some (o, r', w', c')
    /\ let s' := mkSys (with_region slot r' (asp s)) w' c' in sys_ok n s' /\ fill_step i slot r r' s s' /\ answer_ok i r r' s s' o.
Proof.
  intros idx HO Hr Hl Hi Hf Hlen Hq. unfold install_one. fold idx. set (pgo := if negb (key p =? 0) && _ then cache_pgoff r idx else None).
  set (hit := match pgo with Some _ => _ | None => _ end). set (stop := if (0 <? i)%nat then Handled else Segv). set (sh := has (map_flags r) MAP_SHARED).
  assert (exists o c1, hit = (o, match o with Some ph => inc ph (page_refs (wld s)) | None => page_refs (wld s) end, c1) /\ fc_ok c1 /\ (forall k g, fc_frame c1 k g = fc_frame (fc s) k g)
    /\ forall ph, o = Some ph -> exists pg, pgo = Some pg /\ key p <> 0 /\ cache_pgoff r idx = Some pg /\ fc_frame (fc s) (key p) pg = Some ph /\ ph <> 0) as (o & c1 & -> & Hc1 & Hfr & Hhit).
  { unfold hit. destruct pgo as [pg|] eqn:Epgo; [|exists None, (fc s); split_and!; try done; apply HO].
    pose proof (fc_lookup_spec (key p) pg (contains (flags r) EXECUTE) (page_refs (wld s)) (fc s) (so_fc _ _ HO)) as HL.
    destruct (fc_lookup (key p) pg _ _ _) as [[o rf] c1]. destruct HL as (H1 & H2 & H3). exists o, c1. split; [destruct o; [by destruct H3 as (_ & _ & ->)|by rewrite H3]|]. split_and!; try done.
    intros ph ->. exists pg. destruct H3 as (H3 & H4 & _). unfold pgo in Epgo. destruct (Z.eqb_spec (key p) 0); [done|]. cbn [negb andb] in Epgo. destruct (_ || _); [|done]. done. }
  assert (sys_ok (S n) (mkSys (asp s) (wld s) c1)) as HO1 by by apply sys_ok_cache. destruct o as [ph|].
  - destruct (Hhit ph eq_refl) as (pg & -> & Hk & Hpg & Hph & Hph0). set (sw := sh && _ && _ && _). set (c2 := if sw then _ else c1).
    assert (forall k g, fc_frame c2 k g = fc_frame (fc s) k g) as Hfr2 by (intros k g; unfold c2; by rewrite dirty_frames).
    assert (sys_ok (S n) (mkSys (asp s) (wld s) c2)) as HO2 by apply (mark_dirty_ok (S n) _ _ _ _ sw HO1).
    destruct (fill_step_cached n i slot r (mkSys (asp s) (wld s) c2) ph pg sw HO2 Hr Hl Hi Hf Hk Hpg) as (ok & r' & w' & E & HO' & FS & Hins); [cbn; by rewrite Hfr2|done| |].
    { unfold sw. rewrite !andb_true_iff. tauto. }
    cbn [asp wld fc] in *. fold idx in E. rewrite E. apply (fill_step_cache i slot r r' s _ c2 Hfr2) in FS.
    destruct ok; eexists _, r', _, c2; (split; [done|]); (split; [exact HO'|]); (split; [exact FS|]); [by left|apply stop_ok; by right].
  - rewrite set_page_refs_id. destruct (sh && negb (key p =? 0)) eqn:Esk.
    + destruct (fill_step_none (S n) i slot r s c1 HO Hr Hf Hc1 Hfr) as [G1 G2]. eexists _, r, (wld s), c1. split; [done|]. rewrite with_region_same by done.
      split; [by eapply sys_ok_le; [|exact G1]; lia|]. split; [exact G2|]. destruct (Nat.eqb_spec i 0); [right|right; lia].
      apply andb_true_iff in Esk as [H1 H2]. by apply negb_true_iff, Z.eqb_neq in H2.
    + destruct (install_private n i slot r (mkSys (asp s) (wld s) c1)) as (o & r' & w' & E & HO' & FS & A); try done; [by eapply sys_ok_le; [|exact HO1]; lia|intros q Hqa; by apply fresh_cache, Hq|].
      cbn [asp wld fc] in *. exists o, r', w', c1. split; [exact E|]. split; [exact HO'|]. split; [by apply (fill_step_cache i slot r r' s _ c1 Hfr)|done].
Qed.

Lemma cache_pgoff_same r r' idx : same_attrs r r' -> cache_pgoff r' idx = cache_pgoff r idx.
Proof. intros S1. unfold cache_pgoff. same S1. Qed.

Lemma source_mono r r' c c' lg es j q : same_attrs r r' -> (forall k g, fc_frame c' k g = fc_frame c k g) ->
  source p data valid page_idx alloc r' c' lg j q -> source p data valid page_idx alloc r c (lg ++ es) j q.
Proof.
  intros S1 Hfr [(pg & H1 & H2 & H3)|(i & H1 & H2 & H3)]; [left; exists pg|right; exists i].
  - rewrite (cache_pgoff_same r r' j S1) in H2. by rewrite <- Hfr.
  - split_and!; try done. by apply within_app.
Qed.

(** What the loop over the window's pages [ks] comes to. *)
Record filled_from (ks : list nat) (slot : nat) (r r' : VmaRegion) (s s' : sys) : Prop := {
  ff_prog : progressed slot r r' s s';
  ff_fc : forall k g, fc_frame (fc s') k g = fc_frame (fc s) k g;
  ff_log : exists es, log (wld s') = log (wld s) ++ es;
  ff_from : forall j, frame_at r j = 0 -> frame_at r' j <> 0 -> (exists i, i ∈ ks /\ j = (page_idx + i)%nat) /\ source p data valid page_idx alloc r (fc s) (log (wld s')) j (frame_at r' j) }.

Lemma filled_from_nil ks slot r s : regions (asp s) !! slot = Some (Some r) -> filled_from ks slot r r s s.
Proof. intros Hr. split; try done; [by apply progressed_refl|]. exists []. by rewrite app_nil_r. Qed.

Lemma filled_from_skip i ks slot r r' s s' : filled_from ks slot r r' s s' -> filled_from (i :: ks) slot r r' s s'.
Proof. intros [A1 A2 A3 A4]. split; try done. intros j H1 H2. destruct (A4 j H1 H2) as [(i' & Hi & ->) Hs]. split; [|done]. exists i'. split; [by right|done]. Qed.

Lemma filled_from_one i ks slot r r' s s' : fill_step i slot r r' s s' -> filled_from (i :: ks) slot r r' s s'.
Proof.
  intros [P L O Fm Lg Fc _]. split; try done. intros j H1 H2. destruct (decide (j = (page_idx + i)%nat)) as [->|Hne]; [|by rewrite O in H2].
  split; [exists i; split; [left|done]|by apply Fm].
Qed.

Lemma filled_from_cons i ks slot r1 r2 r3 s1 s2 s3 : fill_step i slot r1 r2 s1 s2 -> filled_from ks slot r2 r3 s2 s3 -> filled_from (i :: ks) slot r1 r3 s1 s3.
Proof.
  intros [P L O Fm Lg Fc _] [A1 A2 A3 A4]. pose proof (pr_same _ _ _ _ _ P) as S1. split.
  - by eapply progressed_trans.
  - intros k g. by rewrite A2.
  - destruct Lg as [e1 E1], A3 as [e2 E2]. exists (e1 ++ e2). by rewrite E2, E1, app_assoc.
  - intros j H1 H2. destruct (decide (frame_at r2 j = 0)) as [Hz|Hz].
    + destruct (A4 j Hz H2) as [(i' & Hi & ->) Hs]. split; [exists i'; split; [by right|done]|]. rewrite <- (app_nil_r (log (wld s3))). by eapply source_mono; [exact S1|exact Fc|].
    + rewrite (pr_frames _ _ _ _ _ A1 j Hz). destruct (decide (j = (page_idx + i)%nat)) as [->|Hne]; [|by rewrite O in Hz]. split; [exists i; split; [left|done]|].
      destruct A3 as [e2 ->]. apply (source_mono r1 r1 (fc s1) (fc s1)); [apply same_attrs_refl|done|by apply Fm].
Qed.

(** The answer to the fault, by what became of the faulting page. *)
Definition first_answer (r r' : VmaRegion) (s s' : sys) (f : Fault) : Prop :=
  match f with
  | Handled => installed 0 r r' s' \/ cache_only r
  | Segv => alloc 0%nat = None \/ refused 0 r s
  | Bus => False
  end.

Lemma installed_mono i slot r r1 r' s1 s' : progressed slot r1 r' s1 s' -> installed i r r1 s1 -> installed i r r' s'.
Proof.
  intros P [H1 (fl & H2 & H3)]. split; rewrite (pr_frames _ _ _ _ _ P) by done; [done|]. exists fl. split; [|done]. by apply (pr_pte _ _ _ _ _ P).
Qed.

Lemma install_loop_spec ks n slot r s :
  NoDup ks -> sys_ok (length ks + n) s -> regions (asp s) !! slot = Some (Some r) -> lazy r = true ->
  (forall i, i ∈ ks -> Z.of_nat (page_idx + i) < pages r -> (page_idx + i < PageVec.len (lazy_pages r))%nat) ->
  (forall i q, i ∈ ks -> alloc i = Some q -> fresh s q) -> (forall i j q, i ∈ ks -> j ∈ ks -> alloc i = Some q -> alloc j = Some q -> i = j) ->
  exists f r' w' c', install_loop p data valid page_idx alloc ks r (wld s) (fc s) = Some (f, r', w', c')
    /\ let s' := mkSys (with_region slot r' (asp s)) w' c' in sys_ok n s' /\ filled_from ks slot r r' s s'
       /\ (f = Handled \/ f = Segv /\ 0%nat ∈ ks) /\ (head ks = Some 0%nat -> frame_at r page_idx = 0 -> Z.of_nat page_idx < pages r -> first_answer r r' s s' f).
Proof.
  revert r s. induction ks as [|i ks IH]; intros r s HN HO Hr Hl Hlen Hq Hinj; cbn [install_loop].
  { exists Handled, r, (wld s), (fc s). split; [done|]. rewrite with_region_same by done. destruct s as [a w c]. cbn [asp wld fc] in *.
    split; [done|]. split; [by apply filled_from_nil|]. split; [by left|done]. }
  apply NoDup_cons in HN as [Hni HN]. destruct (slot_region _ _ _ _ (so_vm _ _ HO) Hr) as [R Hin].
  assert (sys_ok n s) as HO0 by (eapply sys_ok_le; [|exact HO]; lia).
  destruct (Z.leb_spec (pages r) (Z.of_nat (page_idx + i))) as [Hge|Hlt].
  { exists Handled, r, (wld s), (fc s). split; [done|]. rewrite with_region_same by done. destruct s as [a w c]. cbn [asp wld fc] in *. split; [done|]. split; [by apply filled_from_nil|]. split; [by left|]. intros [= ->]. rewrite Nat.add_0_r in Hge. lia. }
  pose proof (Hlen i ltac:(left) Hlt) as Hli. unfold PageVec.index. rewrite slot_get, (lookup_frame r _ (ro_pv r R) Hli) by apply R. cbn [mbind option_bind].
  destruct (Z.eqb_spec (frame_at r (page_idx + i)) 0) as [Hf|Hf]; cbn [negb].
  2: { destruct (IH r s) as (f & r' & w' & c' & E & G1 & G2 & G3 & _); try done; [by eapply sys_ok_le; [|exact HO]; cbn; lia|set_solver..|].
       exists f, r', w', c'. split; [done|]. split; [done|]. split; [by apply filled_from_skip|]. split; [set_solver|]. intros [= ->]. by rewrite Nat.add_0_r in Hf. }
  destruct (install_one_spec (length ks + n) i slot r s HO Hr Hl Hlt Hf Hli) as (o & r1 & w1 & c1 & E1 & HO1 & FS & A); [intros q; apply Hq; left|]. rewrite E1. destruct o as [f|].
  - exists f, r1, w1, c1. split; [done|]. split; [by eapply sys_ok_le; [|exact HO1]; lia|]. split; [by apply filled_from_one|]. destruct f; [| |done]; cbn in A.
    + split; [by left|]. intros [= ->] _ _. right. destruct A as [|]; [lia|done].
    + destruct A as [-> A]. split; [right; split; [done|left]|done].
  - set (s1 := mkSys (with_region slot r1 (asp s)) w1 c1) in *. pose proof (pr_same _ _ _ _ _ (fs_prog _ _ _ _ _ _ FS)) as S1.
    assert (lazy r1 = true /\ pages r1 = pages r) as [Hl1 Hp1] by (unfold pages; attrs S1; split; congruence).
    destruct (IH r1 s1) as (f & r' & w' & c' & E & G1 & G2 & G3 & _); try done; [apply (fs_prog _ _ _ _ _ _ FS)| | |set_solver|].
    + intros j Hj. rewrite Hp1. intros Hjp. pose proof (Hlen j ltac:(by right) Hjp). pose proof (fs_len _ _ _ _ _ _ FS). lia.
    + intros j q Hj Haj. apply (fs_fresh _ _ _ _ _ _ FS); [apply (Hq j q ltac:(by right) Haj)|]. intros Hai. rewrite (Hinj i j q) in Hni by (done || by left || by right). done.
    + cbn [s1 asp wld fc] in *. rewrite with_region_twice in G1, G2. exists f, r', w', c'. split; [exact E|]. split; [exact G1|]. split; [by eapply filled_from_cons|]. split; [set_solver|].
      intros [= ->] _ _. destruct G3 as [->|[_ Hin0]]; [|done]. left. destruct A as [A|]; [|lia]. exact (installed_mono 0 slot r r1 r' s1 _ (ff_prog _ _ _ _ _ _ G2) A).
Qed.
End loop.

(** The page still shows the bytes that were read. *)
Definition same_file (p : FileFault) (pg : page) : bool :=
  (p_cap pg =? cap p) && (p_pos pg =? pos p) && Bool.eqb (has (p_map pg) MAP_EOF_SIGBUS) (eof_sigbus p).

Lemma same_file_region p r : region_ok r -> is_file_backed (cap p) = true ->
  negb (lazy r) || negb (file_cap r =? cap p) || negb (wrap64 (file_off r + Z.of_nat (idx_of r (page_va p)) * PAGE_SIZE) =? pos p)
    || negb (Bool.eqb (has (map_flags r) MAP_EOF_SIGBUS) (eof_sigbus p)) = negb (same_file p (page_no r (idx_of r (page_va p)))).
Proof.
  intros R Hc. unfold same_file. cbn [page_no p_cap p_pos p_map]. destruct (Z.eqb_spec (file_cap r) (cap p)) as [E|]; [|by rewrite orb_true_r]. rewrite E, Hc.
  destruct (lazy r) eqn:Hl; cbn [negb orb andb]; [by rewrite <- negb_andb|]. destruct (ro_eager r R Hl) as (_ & Hx & _). congruence.
Qed.

Lemma read_result_window p data got valid k : read_result p data got = Ok (valid, k) -> (k <= window p)%nat.
Proof.
  unfold read_result. destruct (eof_sigbus p).
  - destruct (got <? 0); [done|]. destruct (_ =? 0); [done|]. intros [= _ <-]. lia.
  - destruct (_ && _); [done|]. by intros [= _ <-].
Qed.

(** The pages the window gained, as the view shows them. *)
Lemma filled_view p data valid page_idx alloc ks slot r r' s s' : sys_ok 0 s -> sys_ok 0 s' -> regions (asp s) !! slot = Some (Some r) -> lazy r = true ->
  filled_from p data valid page_idx alloc ks slot r r' s s' ->
  forall va pg q, view (live (regions (asp s))) va = Some pg -> p_frame pg = None -> p_frame <$> view (live (regions (asp s'))) va = Some (Some q) ->
    covers va r = true -> exists i, i ∈ ks /\ idx_of r va = (page_idx + i)%nat /\
      ((key p <> 0 /\ fc_frame (fc s) (key p) (p_pos pg / PAGE_SIZE) = Some q) \/ (alloc i = Some q /\ within (fill_calls data valid i q) (log (wld s')))).
Proof.
  intros HO HO' Hr Hl [P Fc Lg Fm] va pg q Hv Hn Hq Hc. destruct (slot_region _ _ _ _ (so_vm _ _ HO) Hr) as [R Hin].
  rewrite (view_elem _ va r (proj2 (proj1 (so_vm _ _ HO))) Hin Hc) in Hv. injection Hv as <-. rewrite page_frame_lazy in Hn by done.
  rewrite (progressed_view slot r r' s s' va (so_vm _ _ HO') Hl P Hc) in Hq. cbn in Hq. injection Hq as Hq. unfold frame_opt in *.
  destruct (Z.eqb_spec (frame_at r (idx_of r va)) 0) as [Hz|]; [|done]. destruct (Z.eqb_spec (frame_at r' (idx_of r va)) 0) as [|Hnz]; [done|]. injection Hq as Hq.
  destruct (Fm _ Hz Hnz) as [(i & Hi & Ei) Hs]. exists i. split; [done|]. split; [done|]. rewrite Hq in Hs. destruct Hs as [(pg & H1 & H2 & H3)|(j & H1 & H2 & H3)]; [left|right].
  - destruct (cache_pgoff_pos r _ pg H2) as [_ ->]. done.
  - assert (j = i) as -> by lia. done.
Qed.

(** Pages outside the mapping are as they were. *)
Lemma progressed_outside slot r r' s s' va : vm_ok (asp s) (wld s) -> vm_ok (asp s') (wld s') -> regions (asp s) !! slot = Some (Some r) -> asp s' = with_region slot r' (asp s) ->
  same_attrs r r' -> covers va r = false -> view (live (regions (asp s'))) va = view (live (regions (asp s))) va.
Proof.
  intros HV HV' Hr Ea S1 Hc. destruct (live_at _ _ _ Hr) as (rest & Hl & Hins). specialize (Hins (Some r')). change (option_list (Some r) ++ rest) with (r :: rest) in Hl. change (option_list (Some r') ++ rest) with (r' :: rest) in Hins.
  assert (covers va r' = false) as Hc' by (unfold covers in *; attrs S1; congruence).
  rewrite (view_perm _ _ va Hl (proj2 (proj1 HV))), Ea. cbn [regions with_region set_regions]. rewrite Ea in HV'. rewrite (view_perm _ _ va Hins (proj2 (proj1 HV'))), !view_cons, Hc, Hc'. done.
Qed.

(** A longer frame table shows the same pages. *)
Lemma grown_system n s slot r rg i : sys_ok n s -> regions (asp s) !! slot = Some (Some r) -> lazy r = true -> Z.of_nat i < pages r -> frame_at r i = 0 ->
  revised r rg (frame_at r) (is_written r) ->
  let s1 := mkSys (with_region slot rg (asp s)) (wld s) (fc s) in
  sys_ok n s1 /\ (forall va, view (live (regions (asp s1))) va = view (live (regions (asp s))) va) /\ (forall q, fresh s q -> fresh s1 q).
Proof.
  intros HO Hr Hl Hi Hz Rg s1. destruct (slot_region _ _ _ _ (so_vm _ _ HO) Hr) as [R Hin]. pose proof Rg as [S1 _ F W].
  assert (revised r rg (fun j => if decide (j = i) then 0 else frame_at r j) (is_written r)) as Rg'.
  { eapply revised_ext; [exact Rg| |done]. intros j. cbn. case_decide; [subst; done|done]. }
  destruct (repage n s s1 slot r rg i 0 (is_written r) None HO Hr Hl Hi Rg') as [G1 [_ _ V _]]; try done.
  - intros va. case_decide; [subst; by apply (absent_pte (asp s) (wld s) slot r i (so_vm _ _ HO))|done].
  - apply HO.
  - exact (so_fc _ _ HO).
  - eapply owned_same; [apply HO|exact Hr|done|exact Hi|done| |done|done]. rewrite Hz. exact (rv_frame _ _ _ _ Rg').
  - split; [done|]. split.
    + intros va. rewrite V. destruct (at_page r i va) eqn:Ea; [|done]. unfold at_page in Ea. apply andb_true_iff in Ea as [Hc Ei%Nat.eqb_eq].
      rewrite (view_elem _ va r (proj2 (proj1 (so_vm _ _ HO))) Hin Hc), Ei. f_equal. rewrite (page_revised r rg _ _ i Hl Rg). rewrite <- (page_frame_lazy r i Hl). apply (with_page_same (page_no r i)).
    + intros q Hq. eapply (fresh_kept s s1 slot r rg i 0); try done; [exact (rv_frame _ _ _ _ Rg')|apply Hq].
Qed.

(** What installing a read comes to. *)
Definition install_outcome (p : FileFault) (data : list Z) (got : Z) (alloc : nat -> option Z) (s : sys) (f : Fault) (s' : sys) : Prop :=
  only_fills (live (regions (asp s))) (live (regions (asp s')))
  /\ match view (live (regions (asp s))) (page_va p), read_result p data got with
     | Some pg, res =>
         if same_file p pg && negb (bool_decide (is_Some (p_frame pg))) then
           match res with
           | Err e => f = e /\ s' = s
           | Ok (valid, k) =>
               (forall va pg q, view (live (regions (asp s))) va = Some pg -> p_frame pg = None -> p_frame <$> view (live (regions (asp s'))) va = Some (Some q) ->
                  exists i, (i < k)%nat /\ page_down va = va_of (page_va p) i /\
                    ((key p <> 0 /\ fc_frame (fc s) (key p) (p_pos pg / PAGE_SIZE) = Some q) \/ (alloc i = Some q /\ within (fill_calls data valid i q) (log (wld s')))))
               /\ ((0 < k)%nat ->
                   match f with
                   | Handled => (exists q b fl, view (live (regions (asp s'))) (page_va p) = Some (with_page (Some q) b pg) /\ pte (pt (wld s')) (page_va p) = Some (q, fl)
                                   /\ (contains (p_flags pg) USER = true -> contains fl USER = true))
                                \/ (has (p_map pg) MAP_SHARED = true /\ key p <> 0)
                   | Segv => alloc 0%nat = None \/ exists q fl, (map_page (page_va p) q fl (pt (wld s))).1 = false
                   | Bus => False
                   end)
           end
         else f = Handled /\ s' = s
     | None, _ => f = Handled /\ s' = s
     end.

Lemma install_outcome_ok n p data got alloc s :
  sys_ok (window p + n) s -> is_file_backed (cap p) = true -> (PAGE_SIZE | page_va p) ->
  (forall i q, (i < window p)%nat -> alloc i = Some q -> fresh s q) ->
  (forall i j q, (i < window p)%nat -> (j < window p)%nat -> alloc i = Some q -> alloc j = Some q -> i = j) ->
  exists f s', install_file_fault p data got alloc s = Some (f, s') /\ sys_ok n s' /\ install_outcome p data got alloc s f s'.
Proof.
  intros HO Hcap Hal Hq Hinj. assert (sys_ok n s) as HO0 by (eapply sys_ok_le; [|exact HO]; lia). unfold install_file_fault, install_outcome.
  pose proof (region_at_spec (asp s) (page_va p)) as HA. destruct (region_at (asp s) (page_va p)) as [[slot r]|].
  2: { rewrite HA. exists Handled, s. split_and!; try done. apply only_fills_refl. }
  destruct HA as [Hr Hc]. destruct (slot_region _ _ _ _ (so_vm _ _ HO) Hr) as [R Hin]. rewrite (view_elem _ _ r (proj2 (proj1 (so_vm _ _ HO))) Hin Hc).
  change (Z.to_nat ((page_va p - start r) / PAGE_SIZE)) with (idx_of r (page_va p)). rewrite (same_file_region p r R Hcap). set (i0 := idx_of r (page_va p)).
  destruct (same_file p (page_no r i0)) eqn:Esf; cbn [negb andb]; [|exists Handled, s; split_and!; try done; apply only_fills_refl].
  assert (lazy r = true) as Hl. { unfold same_file in Esf. bool_to_prop. destruct (lazy r) eqn:El; [done|]. destruct (ro_eager r R El) as (_ & Hx & _). cbn in *. congruence. }
  rewrite page_frame_lazy by done. unfold frame_opt. destruct (Z.eqb_spec (frame_at r i0) 0) as [Hz|Hz]; cbn [negb].
  2: { rewrite bool_decide_eq_true_2 by by eexists. exists Handled, s. split_and!; try done. apply only_fills_refl. }
  rewrite bool_decide_eq_false_2 by by intros []. cbn [negb]. destruct (read_result p data got) as [[valid k]|e] eqn:Er.
  2: { exists e, s. split_and!; try done. apply only_fills_refl. }
  apply read_result_window in Er. pose proof (idx_bound r _ R Hc) as Hi0. fold i0 in Hi0.
  destruct (grow_to_spec (Nat.min (i0 + k) (Z.to_nat (pages r))) r R Hl ltac:(lia)) as [Rg Hlen]. set (rg := grow_to _ r) in *. pose proof (rv_same _ _ _ _ Rg) as Sg.
  destruct (grown_system (window p + n) s slot r rg i0 HO Hr Hl Hi0 Hz Rg) as (HO1 & V1 & Fr1). set (s1 := mkSys _ _ _) in *.
  assert (lazy rg = true /\ pages rg = pages r /\ start rg = start r /\ end_ rg = end_ r) as (Hlg & Hpg & Hsg & Heg) by (unfold pages; attrs Sg; split_and!; congruence).
  assert (regions (asp s1) !! slot = Some (Some rg)) as Hr1 by by eapply with_region_lookup.
  destruct (install_loop_spec p data valid i0 alloc (seq 0 k) n slot rg s1) as (f & r' & w' & c' & E & HO2 & FF & Hf & Hfirst); [apply NoDup_seq|by eapply sys_ok_le; [|exact HO1]; rewrite length_seq; lia|done|done| | | |].
  - intros i Hi%elem_of_seq. rewrite Hpg. lia.
  - intros i q Hi%elem_of_seq Ha. apply Fr1, (Hq i q); [lia|done].
  - intros i j q Hi%elem_of_seq Hj%elem_of_seq. apply Hinj; lia.
  - cbn [s1 asp wld fc] in E, HO2, FF. rewrite with_region_twice in HO2, FF. rewrite E. set (s' := mkSys _ w' c') in *. exists f, s'. split; [done|]. split; [done|]. split.
    { intros va. destruct (pr_fills _ _ _ _ _ (ff_prog _ _ _ _ _ _ _ _ _ _ _ FF) va) as [Hx|Hx]; cbn [asp] in Hx; fold s1 in Hx; rewrite V1 in Hx; [by left|by right]. }
    split.
    2: { intros Hk. assert (va_of (start r) i0 = page_va p) as Epv.
         { pose proof (idx_va r (page_va p) R Hal ltac:(apply covers_spec in Hc; lia)) as Ep. fold i0 in Ep. unfold va_of in *. lia. }
         assert (head (seq 0 k) = Some 0%nat) as Hh by (by destruct k; [lia|]). specialize (Hfirst Hh).
         rewrite (rv_frame _ _ _ _ Rg), Hpg in Hfirst. specialize (Hfirst Hz Hi0). unfold first_answer, installed, refused, cache_only in Hfirst. rewrite Nat.add_0_r, Hsg, Epv in Hfirst.
         assert (map_flags rg = map_flags r /\ flags rg = flags r) as [Em Ef] by (attrs Sg; split; congruence). rewrite Em, Ef in Hfirst.
         destruct f; [|done|done]. destruct Hfirst as [[Hnz (fl & Hpte & Hus)]|Hco]; [left|by right]. exists (frame_at r' i0), (is_written r' i0), fl. split; [|done].
         pose proof (progressed_view slot rg r' s1 s' (page_va p) (so_vm _ _ HO2) Hlg (ff_prog _ _ _ _ _ _ _ _ _ _ _ FF)) as Hv.
         rewrite Hv by (unfold covers in *; by rewrite Hsg, Heg). rewrite (idx_start rg r (page_va p) Hsg). fold i0. unfold frame_opt. rewrite (proj2 (Z.eqb_neq _ _) Hnz).
         f_equal. rewrite (page_revised r rg _ _ i0 Hl Rg). done. }
    intros va pg q Hv Hn Hx. destruct (covers va r) eqn:Ec.
    + destruct (filled_view p data valid i0 alloc (seq 0 k) slot rg r' s1 s') with (va := va) (pg := pg) (q := q) as (i & Hi & Ei & Hs); try done;
        [by eapply sys_ok_le; [|exact HO1]; lia|by eapply sys_ok_le; [|exact HO2]; lia|by rewrite V1|unfold covers in *; by rewrite Hsg, Heg|].
      apply elem_of_seq in Hi. exists i. split; [lia|]. split; [|done]. rewrite (idx_start rg r va Hsg) in Ei. rewrite (page_down_idx r va R Ec), Ei.
      pose proof (idx_va r (page_va p) R Hal ltac:(apply covers_spec in Hc; lia)) as Ep. fold i0 in Ep. unfold va_of in *. lia.
    + exfalso. rewrite (progressed_outside slot r r' s s' va (so_vm _ _ HO) (so_vm _ _ HO2) Hr) in Hx; [|done| |done].
      * rewrite Hv in Hx. cbn in Hx. congruence.
      * eapply same_attrs_trans; [exact Sg|]. apply (ff_prog _ _ _ _ _ _ _ _ _ _ _ FF).
Qed.


(** An [mprotect] to PROT_NONE during the read is overtaken by the fault it
    should stop.  Whenever the page found after the read allows no access at all
    but is otherwise the one that was planned, a read that succeeded, a frame and an
    accepting page table give it an entry: in every private mapping, and in every
    mapping whose file has no cache key.  The page's attributes still say
    PROT_NONE, so a region that allows no access has an entry, and if its flags have
    USER (those of [mprotect] always do) user code reads the page through it. *)
Theorem install_into_prot_none n p data got alloc s pg q valid k :
  sys_ok (window p + n) s -> is_file_backed (cap p) = true -> (PAGE_SIZE | page_va p) ->
  (forall i q, (i < window p)%nat -> alloc i = Some q -> fresh s q) ->
  (forall i j q, (i < window p)%nat -> (j < window p)%nat -> alloc i = Some q -> alloc j = Some q -> i = j) ->
  view (live (regions (asp s))) (page_va p) = Some pg -> same_file p pg = true -> p_frame pg = None ->
  Z.land (p_prot pg) PROT_ACCESS = 0 -> has (p_map pg) MAP_SHARED = false \/ key p = 0 ->
  read_result p data got = Ok (valid, k) -> (0 < k)%nat -> alloc 0%nat = Some q -> (forall x fl t, (map_page (page_va p) x fl t).1 = true) ->
  exists s' pg' x fl, install_file_fault p data got alloc s = Some (Handled, s')
    /\ view (live (regions (asp s'))) (page_va p) = Some pg' /\ Z.land (p_prot pg') PROT_ACCESS = 0 /\ p_frame pg' = Some x
    /\ pte (pt (wld s')) (page_va p) = Some (x, fl) /\ (contains (p_flags pg) USER = true -> contains fl USER = true).
Proof.
  intros HO Hcap Hal Hq Hinj Hv Hsf Hn Hna Hpriv Hr Hk Ha Hacc.
  destruct (install_outcome_ok n p data got alloc s HO Hcap Hal Hq Hinj) as (f & s' & E & _ & _ & HX). rewrite Hv, Hsf, Hn, Hr in HX.
  rewrite bool_decide_eq_false_2 in HX by by intros []. cbn [andb negb] in HX. destruct HX as [_ HX]. specialize (HX Hk).
  destruct f; [|destruct HX as [|(x & fl & Hm)]; [congruence|by rewrite Hacc in Hm]|done].
  destruct HX as [(x & b & fl & V & P & U)|[H1 H2]]; [|destruct Hpriv; congruence]. exists s', (with_page (Some x) b pg), x, fl. done.
Qed.
End install.

(** The second page of the private file mapping, of which the file has two bytes. *)
Definition tail_fault : FileFault := mkFF 3 69632 4096 4096 1 true 3 false.


(** A read fault at the second page of that mapping, whose file has no cache key;
    the process forbids all access to the mapping during the read. *)
Definition raced_fault : FileFault := mkFF 3 69632 4096 4096 1 true 0 false.
Definition raced_demo : sys := demo_on (delete 65536 (demo_table 5)) (demo_region (flags_of_prot 0) 0 (Z.lor MAP_PRIVATE MAP_EOF_SIGBUS) 3 false) {[20480 := 2]} file_cache.

Lemma raced_demo_ok : sys_ok 1 raced_demo.
Proof.
  destruct (one_shared 1 ltac:(lia)) as [G1 G2]. apply demo_on_ok; try done.
  - apply (so_fc _ _ file_demo_ok).
  - intros k g p ->%file_cache_frames. done.
Qed.

Lemma install_into_prot_none_witness :
  plan_user_page_fault (fun _ => 0) None 70000 false file_demo = Some (Read raced_fault, file_demo)
  /\ (exists w', mprotect 65536 8192 0 (asp file_demo) (wld file_demo) = Some (true, asp raced_demo, w') /\ pt w' = pt (wld raced_demo) /\ page_refs w' = page_refs (wld raced_demo))
  /\ exists s' fl, install_file_fault raced_fault [72; 105] 2 (fun _ => Some 28672) raced_demo = Some (Handled, s')
     /\ pte (pt (wld s')) 69632 = Some (28672, fl) /\ contains fl USER = true /\ p_prot <$> view (live (regions (asp s'))) 69632 = Some 0.
Proof.
  split; [vm_compute; reflexivity|]. split; [eexists; split_and!; vm_compute; reflexivity|].
  assert (fresh raced_demo 28672) as Hfresh.
  { split; [done|]. split; [vm_compute; done|]. split; [vm_compute; done|]. intros (k & g & Hx%file_cache_frames). done. }
  destruct (install_into_prot_none 0 raced_fault [72; 105] 2 (fun _ => Some 28672) raced_demo
    (page_no (demo_region (flags_of_prot 0) 0 (Z.lor MAP_PRIVATE MAP_EOF_SIGBUS) 3 false) 1) 28672 2 1) as (s' & pg' & x & fl & E & V & _ & F & P & U).
  - exact raced_demo_ok.
  - done.
  - by exists 17.
  - intros i q _ [= <-]. exact Hfresh.
  - intros i j q Hi Hj _ _. cbn in Hi, Hj. lia.
  - vm_compute. reflexivity.
  - vm_compute. reflexivity.
  - vm_compute. reflexivity.
  - vm_compute. reflexivity.
  - left. vm_compute. reflexivity.
  - vm_compute. reflexivity.
  - lia.
  - reflexivity.
  - intros x fl t. reflexivity.
  - exists s', fl. assert (exists s1, install_file_fault raced_fault [72; 105] 2 (fun _ => Some 28672) raced_demo = Some (Handled, s1)
      /\ p_frame <$> view (live (regions (asp s1))) 69632 = Some (Some 28672) /\ p_prot <$> view (live (regions (asp s1))) 69632 = Some 0) as (s1 & E1 & V1 & V2).
    { eexists. split; [vm_compute; reflexivity|]. split; vm_compute; reflexivity. }
    rewrite E1 in E. injection E as <-. change (page_va raced_fault) with 69632 in V, P. rewrite V in V1. cbn in V1. rewrite F in V1. injection V1 as ->. split_and!; [exact E1|exact P|apply U; vm_compute; reflexivity|exact V2].
Defined.
