(* ===== verification/VmmFork.v ===== *)
(** * Address spaces: fork

    Models [clone_as] of [src/mm/src/cow.rs] and proves what a fork promises.  Parent
    and child have a page table each; the reference counts are shared.  The results
    of [map_page] are ignored, as in the source; [clone_missing_entry_loops] shows what
    comes of it.  The advisory page counters are left
    out. *)
From S2P Require Import Prelude KLib PageSites PageRef PageVec BTree PageCache Vmm VmmView VmmMap VmmOps VmmBrk VmmFault VmmCache VmmTouch VmmPlan VmmAccess.
#[local] Open Scope Z_scope.

(** ** The model *)
Section model.
Context {T : Type} `{PageTable T}.

(** Both page tables, the reference counts, and the calls made. *)
Record fork := mkFork { src_pt : T; dst_pt : T; f_refs : refs; f_log : list call }.

Definition map_src (va p fl : Z) (x : fork) : fork := mkFork (remap va p fl (src_pt x)) (dst_pt x) (f_refs x) (f_log x).
Definition map_dst (va p fl : Z) (x : fork) : fork := mkFork (src_pt x) (remap va p fl (dst_pt x)) (f_refs x) (f_log x).
Definition share (p : Z) (x : fork) : fork := mkFork (src_pt x) (dst_pt x) (inc p (f_refs x)) (f_log x).
Definition f_emit (es : list call) (x : fork) : fork := mkFork (src_pt x) (dst_pt x) (f_refs x) (f_log x ++ es).

Definition is_shared (r : VmaRegion) : bool := has (map_flags r) MAP_SHARED.
Definition is_device (r : VmaRegion) : bool := negb (lazy r) && (file_cap r =? U64_MAX).
Definition no_access (r : VmaRegion) : bool := Z.land (prot r) PROT_ACCESS =? 0.
Definition downgraded (r : VmaRegion) : Z := Z.land (flags r) (not64 WRITABLE).

(** The flags page [i] is mapped with. *)
Definition clone_flags (r : VmaRegion) (i : nat) : Z :=
  if negb (is_shared r) then downgraded r
  else if lazy r && is_file_backed (file_cap r) then install_flags r i (flags r) else flags r.

(** One resident page: a reference, the child's table of frames, both entries.
    A shared demand-paged mapping leaves the parent's entry alone. *)
Definition clone_page (r : VmaRegion) (i : nat) (p : Z) (pv : PageVec) (n : Z) (x : fork) : option (PageVec * Z * fork) :=
  let x := share p x in
  pv ← PageVec.index_mut i p (if (PageVec.len pv <=? i)%nat then PageVec.resize (i + 1) pv else pv);
  let va := va_of (start r) i in
  let x := if no_access r then x else map_dst va p (clone_flags r i) x in
  let x := if no_access r || (lazy r && is_shared r) then x else map_src va p (clone_flags r i) x in
  Some (pv, n + 1, x).

Fixpoint clone_pages (r : VmaRegion) (ps : list (nat * Z)) (pv : PageVec) (n : Z) (x : fork) : option (PageVec * Z * fork) :=
  match ps with
  | [] => Some (pv, n, x)
  | (i, p) :: ps =>
      match clone_page r i p pv n x with
      | Some (pv, n, x) => clone_pages r ps pv n x
      | None => None
      end
  end.

Definition clone_device (r : VmaRegion) (x : fork) : VmaRegion * fork :=
  (mkVma (start r) (end_ r) (phys r) (flags r) false PageVec.new 0 (prot r) (map_flags r) (file_cap r) (file_off r) (file_len r) false [],
   foldl (fun x i => map_dst (va_of (start r) i) (wrap64 (va_of (phys r) i)) (flags r) x) x (seq 0 (Z.to_nat (pages r)))).

(** The parent's region afterwards, the child's, and what was done. *)
Definition clone_region (r : VmaRegion) (x : fork) : option (VmaRegion * VmaRegion * fork) :=
  if is_device r then let '(q, x) := clone_device r x in Some (r, q, x)
  else
    let n := Z.to_nat (pages r) in
    let ps := if lazy r then present (lazy_pages r) else (fun i => (i, wrap64 (va_of (phys r) i))) <$> seq 0 n in
    match clone_pages r ps (if lazy r then PageVec.new else PageVec.resize n PageVec.new) 0 x with
    | None => None
    | Some (pv, k, x) =>
        let x := if lazy r then x else f_emit (block_calls (eager_tail (phys r) (pages r))) x in
        let r' := if lazy r then mkVma (start r) (end_ r) (phys r) (flags r) true (lazy_pages r) (lazy_count r) (prot r) (map_flags r) (file_cap r) (file_off r) (file_len r) (if is_shared r then cow r else true) (written r)
                  else mkVma (start r) (end_ r) 0 (flags r) true pv k (prot r) (map_flags r) (file_cap r) (file_off r) (file_len r) (negb (is_shared r)) (written r) in
        let x := if is_file_backed (file_cap r) then f_emit [FileRetain (file_cap r)] x else x in
        Some (r', mkVma (start r) (end_ r) 0 (flags r) true pv k (prot r) (map_flags r) (file_cap r) (file_off r) (file_len r) (negb (is_shared r)) (written r), x)
    end.

Fixpoint clone_slots (rs : list (option VmaRegion)) (x : fork) : option (list (option VmaRegion) * list (option VmaRegion) * fork) :=
  match rs with
  | [] => Some ([], [], x)
  | None :: rs => '(s, d, x) ← clone_slots rs x; Some (None :: s, None :: d, x)
  | Some r :: rs =>
      match clone_region r x with
      | Some (r', q, x) => '(s, d, x) ← clone_slots rs x; Some (Some r' :: s, Some q :: d, x)
      | None => None
      end
  end.

(** [clone_as]; [td] is the child's page table. *)
Definition clone_as (a : AddressSpace) (w : world T) (td : T) : option (AddressSpace * world T * AddressSpace * T) :=
  '(s, d, x) ← clone_slots (regions a) (mkFork (pt w) td (page_refs w) (log w));
  Some (set_regions s a, mkWorld (src_pt x) (f_refs x) (last_fail w) (f_log x ++ [TlbFlushAll]),
        mkAs d (heap_start a) (heap_end a) (stack_top a) 0 0, dst_pt x).
End model.

(** ** One region *)
Definition fr (v : PageVec) (j : nat) : Z := default 0 (PageVec.get v j).

Lemma fr_list v j : PageVec.wf v -> fr v j = default 0 (to_list v !! j).
Proof. intros W. unfold fr. by rewrite slot_get. Qed.

Lemma grow_write i p v : PageVec.wf v ->
  exists v', PageVec.index_mut i p (if (PageVec.len v <=? i)%nat then PageVec.resize (i + 1) v else v) = Some v' /\ PageVec.wf v'
    /\ forall j, fr v' j = if decide (j = i) then p else fr v j.
Proof.
  intros W. set (v1 := if (PageVec.len v <=? i)%nat then _ else v).
  assert (PageVec.wf v1 /\ (i < PageVec.len v1)%nat /\ forall j, fr v1 j = fr v j) as (W1 & L1 & F1).
  { unfold v1. destruct (Nat.leb_spec (PageVec.len v) i) as [Hle|Hlt]; [|done]. destruct (resize_spec (i + 1) v W) as (Wr & Lr & _). split; [done|]. split; [lia|].
    intros j. rewrite !fr_list, resize_list, take_ge by (done || rewrite length_to_list; lia). rewrite lookup_app. destruct (to_list v !! j); [done|]. cbn.
    destruct (replicate _ 0 !! _) as [y|] eqn:Er; [|done]. by apply lookup_replicate in Er as [-> _]. }
  pose proof (index_mut_list i p v1 W1) as HI. rewrite decide_True in HI by done. destruct HI as (v' & E & W' & L'). exists v'. split_and!; try done.
  intros j. rewrite <- F1, !fr_list, L' by done. case_decide as Ej; [subst; by rewrite list_lookup_insert_eq by by rewrite length_to_list|by rewrite list_lookup_insert_ne].
Qed.

Section region.
Context {T : Type} `{PageTable T}.
Implicit Types (x : fork (T := T)).

Lemma remap_pte va p f (t : T) a e : pte (remap va p f t) a = Some e -> if decide (a = va) then e = (p, f) else pte t a = Some e.
Proof.
  unfold remap. destruct (map_page va p f t) as [[] t'] eqn:E; cbn.
  - rewrite (pte_map _ _ _ _ _ E). case_decide; [by intros [= <-]|done].
  - rewrite (pte_map_fail _ _ _ _ _ E). case_decide; [|done]. subst. intros Ha. pose proof (pte_remap va p f t ltac:(by eexists)) as Hx. by rewrite E in Hx.
Qed.

(** A page table after calls of [map_page], and one that refuses an entry at [va]
    whatever else is mapped: there is no memory for its nodes. *)
Definition remap_all (calls : list (Z * Z * Z)) (t : T) : T := foldl (fun t '(v, p, f) => remap v p f t) t calls.
Definition remaps (t t' : T) : Prop := exists calls, t' = remap_all calls t.
Definition refuses (va : Z) (t : T) : Prop := forall calls p f, (map_page va p f (remap_all calls t)).1 = false.

Lemma remaps_refl t : remaps t t.
Proof. by exists []. Qed.
Lemma remaps_one va p f t : remaps t (remap va p f t).
Proof. by exists [(va, p, f)]. Qed.
Lemma remaps_trans t1 t2 t3 : remaps t1 t2 -> remaps t2 t3 -> remaps t1 t3.
Proof. intros [c1 ->] [c2 ->]. exists (c1 ++ c2). unfold remap_all. by rewrite foldl_app. Qed.

Lemma refuses_pte va t t' : refuses va t -> remaps t t' -> pte t' va = pte t va.
Proof.
  intros Hr [calls ->]. induction calls as [|[[v p] f] calls IH] using rev_ind; [done|]. specialize (Hr calls p f). unfold remap_all in *. rewrite foldl_app. cbn.
  rewrite <- IH. clear IH. set (t' := foldl _ t calls) in *. clearbody t'. unfold remap. destruct (map_page v p f t') as [[] t2] eqn:E; cbn.
  - rewrite (pte_map _ _ _ _ _ E). case_decide as D; [|done]. subst v. by rewrite E in Hr.
  - apply (pte_map_fail _ _ _ _ _ E).
Qed.

Definition refs_of (q : Z) (ps : list (nat * Z)) : Z := countb (fun ip => ip.2 =? q) ps.

(** The parent's entries that the clone rewrites. *)
Definition touches (r : VmaRegion) : bool := negb (no_access r || (lazy r && is_shared r)).

Record pages_cloned (r : VmaRegion) (ps : list (nat * Z)) (pv pv' : PageVec) (x x' : fork (T := T)) : Prop := {
  pc_wf : PageVec.wf pv';
  pc_frames : forall j, fr pv' j = match List.find (fun ip => (ip.1 =? j)%nat) ps with Some ip => ip.2 | None => fr pv j end;
  pc_refs : shared_only (f_refs x') /\ forall q, PageRef.get q (f_refs x') = PageRef.get q (f_refs x) + refs_of q ps;
  pc_log : f_log x' = f_log x;
  pc_src : forall va e, pte (src_pt x') va = Some e -> (exists i p, (i, p) ∈ ps /\ va = va_of (start r) i /\ e = (p, clone_flags r i))
             \/ pte (src_pt x) va = Some e /\ (touches r = true -> va ∉ (fun ip => va_of (start r) ip.1) <$> ps);
  pc_dst : forall va e, pte (dst_pt x') va = Some e -> (exists i p, (i, p) ∈ ps /\ va = va_of (start r) i /\ e = (p, clone_flags r i)) \/ pte (dst_pt x) va = Some e;
  pc_maps : remaps (dst_pt x) (dst_pt x') }.

Lemma clone_page_spec r i p pv n x : PageVec.wf pv -> shared_only (f_refs x) -> PageRef.get p (f_refs x) < U32_MAX ->
  exists pv' x', clone_page r i p pv n x = Some (pv', n + 1, x') /\ pages_cloned r [(i, p)] pv pv' x x'.
Proof.
  intros W HR Hm. destruct (grow_write i p pv W) as (pv' & E & W' & F). unfold clone_page. rewrite E. cbn [mbind option_bind]. eexists pv', _. split; [done|].
  destruct (inc_spec p (f_refs x) HR Hm) as [HR1 Hg]. split.
  - done.
  - intros j. rewrite F. cbn. destruct (Nat.eqb_spec i j) as [->|]; [by rewrite decide_True|by rewrite decide_False].
  - destruct (no_access r); cbn [orb]; [|destruct (lazy r && is_shared r)]; cbn; (split; [done|]); intros q; rewrite Hg; unfold refs_of; cbn; destruct (Z.eqb_spec p q), (decide (q = p)); try lia; congruence.
  - destruct (no_access r); cbn [orb]; [|destruct (lazy r && is_shared r)]; done.
  - intros va e. unfold touches. destruct (no_access r); cbn [orb negb]; [by right|]. destruct (lazy r && is_shared r); cbn [map_src map_dst share src_pt dst_pt]; [by right|]. intros He%remap_pte.
    case_decide as D; [left; exists i, p; split; [left|by split]|]. right. split; [done|]. intros _ Hin%list_elem_of_singleton. done.
  - intros va e. destruct (no_access r); cbn [orb negb]; [by right|]. assert (pte (remap (va_of (start r) i) p (clone_flags r i) (dst_pt x)) va = Some e ->
      (exists i0 p0, (i0, p0) ∈ [(i, p)] /\ va = va_of (start r) i0 /\ e = (p0, clone_flags r i0)) \/ pte (dst_pt x) va = Some e) as Hd.
    { intros He%remap_pte. case_decide as D; [left; exists i, p; split; [left|by split]|by right]. }
    by destruct (lazy r && is_shared r).
  - destruct (no_access r); cbn [orb negb]; [apply remaps_refl|]. destruct (lazy r && is_shared r); apply remaps_one.
Qed.

Lemma clone_pages_spec r ps pv n x : PageVec.wf pv -> NoDup ps.*1 -> shared_only (f_refs x) ->
  (forall q, PageRef.get q (f_refs x) + refs_of q ps <= U32_MAX) ->
  exists pv' x', clone_pages r ps pv n x = Some (pv', n + Z.of_nat (length ps), x') /\ pages_cloned r ps pv pv' x x'.
Proof.
  revert pv n x. induction ps as [|[i p] ps IH]; intros pv n x W HN HR Hroom; cbn [clone_pages].
  - exists pv, x. split; [by rewrite Z.add_0_r|]. split; try done; [split; [done|]; intros q; unfold refs_of; cbn; lia|intros va e He; right; split; [done|]; intros _; apply not_elem_of_nil|intros va e He; by right|apply remaps_refl].
  - cbn [fmap list_fmap fst] in HN. apply NoDup_cons in HN as [Hni HN]. assert (forall q, refs_of q ((i, p) :: ps) = refs_of q [(i, p)] + refs_of q ps) as Hsum by (intros q; unfold refs_of; cbn; lia).
    assert (forall q, 0 <= refs_of q ps) as Hnn by (intros q; apply countb_bounds).
    destruct (clone_page_spec r i p pv n x W HR) as (pv1 & x1 & E1 & [P1 P2 [P3 P3'] P4 P5 P6 P7]).
    { pose proof (Hroom p) as Hp. pose proof (Hnn p). rewrite Hsum in Hp. unfold refs_of at 1 in Hp. cbn in Hp. rewrite Z.eqb_refl in Hp. lia. }
    rewrite E1. destruct (IH pv1 (n + 1) x1 P1 HN P3) as (pv' & x' & E & [Q1 Q2 [Q3 Q3'] Q4 Q5 Q6 Q7]).
    { intros q. specialize (Hroom q). rewrite Hsum in Hroom. rewrite P3'. lia. }
    exists pv', x'. split; [rewrite E; cbn [length]; do 3 f_equal; lia|]. split; [done| | |congruence| | |by eapply remaps_trans].
    + intros j. rewrite Q2. cbn [List.find fst]. rewrite P2. cbn. destruct (Nat.eqb_spec i j) as [->|]; [|done]. destruct (List.find _ ps) as [[j' q]|] eqn:Ef; [|done].
      apply find_some in Ef as [Hin Ej%Nat.eqb_eq]. cbn in Ej. subst j'. destruct Hni. apply list_elem_of_fmap. exists (j, q). split; [done|]. by apply list_elem_of_In.
    + split; [done|]. intros q. rewrite Q3', P3', Hsum. lia.
    + intros va e He. destruct (Q5 va e He) as [(j & q & Hj & Hx)|[Hold Hnot]]; [left; exists j, q; split; [by right|done]|].
      destruct (P5 va e Hold) as [(j & q & Hj%list_elem_of_singleton & Hx)|[Hold' Hnot']]; [injection Hj as -> ->; left; exists i, p; split; [left|done]|].
      right. split; [done|]. intros Ht. cbn [fmap list_fmap fst]. rewrite elem_of_cons. intros [Hva|Hva]; [apply (Hnot' Ht); by apply list_elem_of_singleton|by apply (Hnot Ht)].
    + intros va e He. destruct (Q6 va e He) as [(j & q & Hj & Hx)|Hold]; [left; exists j, q; split; [by right|done]|].
      destruct (P6 va e Hold) as [(j & q & Hj%list_elem_of_singleton & Hx)|Hold']; [injection Hj as -> ->; left; exists i, p; split; [left|done]|by right].
Qed.

(** The resident pages of a region and their frames, device mappings apart. *)
Definition resident (r : VmaRegion) : list (nat * Z) :=
  if is_device r then [] else if lazy r then present (lazy_pages r) else (fun i => (i, wrap64 (va_of (phys r) i))) <$> seq 0 (Z.to_nat (pages r)).

Lemma resident_spec r i p : region_ok r -> is_device r = false -> (i, p) ∈ resident r <-> Z.of_nat i < pages r /\ frame_of r i = Some p.
Proof.
  intros R Hd. unfold resident, frame_of. rewrite Hd. destruct (lazy r) eqn:Hl.
  - rewrite (present_frame r i p (ro_pv r R)). split.
    + intros [Hf Hp]. split; [eapply (present_idx r i p R Hl); by apply present_frame; [apply R|]|]. rewrite Hf. by rewrite (proj2 (Z.eqb_neq p 0) Hp).
    + intros [_ Hf]. destruct (Z.eqb_spec (frame_at r i) 0); [done|]. injection Hf as <-. done.
  - rewrite list_elem_of_fmap. split.
    + intros (j & [= -> ->] & Hj%elem_of_seq). split; [lia|done].
    + intros [Hi [= <-]]. exists i. split; [done|]. apply elem_of_seq. lia.
Qed.

Lemma resident_nodup r : region_ok r -> NoDup (resident r).*1.
Proof.
  intros R. unfold resident. destruct (is_device r); [constructor|]. destruct (lazy r); [apply sorted_keys, present_sorted, R|].
  rewrite <- list_fmap_compose. assert (fst ∘ (fun i => (i, wrap64 (va_of (phys r) i))) <$> seq 0 (Z.to_nat (pages r)) = seq 0 (Z.to_nat (pages r))) as -> by (apply list_fmap_id). apply NoDup_seq.
Qed.

Lemma resident_nonzero r i p : region_ok r -> is_device r = false -> (i, p) ∈ resident r -> p <> 0.
Proof.
  intros R Hd Hin. pose proof (proj1 (resident_spec r i p R Hd) Hin) as [Hi Hf]. unfold frame_of in Hf. destruct (lazy r) eqn:Hl.
  - destruct (Z.eqb_spec (frame_at r i) 0); [done|]. by injection Hf as <-.
  - injection Hf as <-. apply eager_frame; try done. unfold is_device in Hd. rewrite Hl in Hd. cbn in Hd. by apply Z.eqb_neq.
Qed.

(** A table that holds exactly the resident frames. *)
Lemma find_key (ps : list (nat * Z)) j : NoDup ps.*1 -> forall p, (j, p) ∈ ps -> List.find (fun ip => (ip.1 =? j)%nat) ps = Some (j, p).
Proof.
  induction ps as [|[i q] ps IH]; intros HN p Hin; [by apply not_elem_of_nil in Hin|]. cbn [fmap list_fmap fst] in HN. apply NoDup_cons in HN as [Hni HN]. cbn [List.find fst].
  apply elem_of_cons in Hin as [[= -> ->]|Hin]; [by rewrite Nat.eqb_refl|]. destruct (Nat.eqb_spec i j) as [->|]; [|by apply IH]. destruct Hni. apply list_elem_of_fmap. by exists (j, p).
Qed.

Lemma cloned_frames r pv pv' x x' : region_ok r -> is_device r = false -> (forall j, fr pv j = 0) -> pages_cloned r (resident r) pv pv' x x' ->
  (forall j, Z.of_nat j < pages r -> frame_opt (fr pv' j) = frame_of r j) /\ (forall j, pages r <= Z.of_nat j -> fr pv' j = 0)
  /\ PageVec.count_present pv' = length (resident r).
Proof.
  intros R Hd H0 [W F _ _ _ _ _]. pose proof (resident_nodup r R) as HN.
  assert (forall j p, p <> 0 -> fr pv' j = p <-> (j, p) ∈ resident r) as Hin.
  { intros j p Hp. rewrite F. split.
    - destruct (List.find _ (resident r)) as [[j' q]|] eqn:E; [|intros <-; by rewrite H0 in Hp]. apply find_some in E as [Hj Ej%Nat.eqb_eq]. cbn in Ej. subst. intros <-. by apply list_elem_of_In.
    - intros Hj. by rewrite (find_key _ j HN p Hj). }
  split; [|split].
  - intros j Hj. unfold frame_opt. destruct (Z.eqb_spec (fr pv' j) 0) as [Hz|Hz].
    + destruct (frame_of r j) as [p|] eqn:Ef; [|done]. assert ((j, p) ∈ resident r) as Hjp by by apply resident_spec. pose proof (resident_nonzero r j p R Hd Hjp) as Hp. apply Hin in Hjp; [congruence|done].
    + symmetry. pose proof (proj1 (Hin j _ Hz) eq_refl) as Hjp. by apply resident_spec in Hjp as [_ Hf].
  - intros j Hj. destruct (decide (fr pv' j = 0)) as [|Hz]; [done|]. pose proof (proj1 (Hin j _ Hz) eq_refl) as Hjp. apply resident_spec in Hjp as [Hi _]; [lia|done|done].
  - unfold PageVec.count_present. apply Permutation_length, NoDup_Permutation.
    + apply sorted_nodup, present_sorted, W.
    + by apply NoDup_fmap_1 in HN.
    + intros [j p]. rewrite present_frames, frames_In by done. split.
      * intros [Hl Hp]. apply Hin; [done|]. by rewrite fr_list, Hl.
      * intros Hj. pose proof (resident_nonzero r j p R Hd Hj) as Hp. split; [|done]. apply Hin in Hj; [|done]. rewrite fr_list in Hj by done. destruct (to_list pv' !! j); cbn in Hj; congruence.
Qed.

(** A page after the fork: a private one is copy-on-write from now on. *)
Definition forked (pg : page) : page :=
  if has (p_map pg) MAP_SHARED then pg
  else mkPage (p_frame pg) (p_flags pg) (p_prot pg) (p_map pg) (p_cap pg) (p_pos pg) (p_bytes pg) true (p_written pg).

(** Shared mappings are not copy-on-write, device mappings are shared and track nothing. *)
Definition fork_ready (r : VmaRegion) : Prop :=
  (is_shared r = true -> cow r = false) /\ (is_device r = true -> is_shared r = true /\ written r = []).

Definition mapped_by (r : VmaRegion) (va : Z) (e : Z * Z) : Prop :=
  exists i, Z.of_nat i < pages r /\ va = va_of (start r) i /\ frame_of r i = Some e.1 /\ e.2 = clone_flags r i.

Record region_cloned (r r1 r2 : VmaRegion) (x x' : fork (T := T)) : Prop := {
  rc_range : start r1 = start r /\ end_ r1 = end_ r /\ start r2 = start r /\ end_ r2 = end_ r;
  rc_ok : region_ok r1 /\ region_ok r2;
  rc_page : forall i, Z.of_nat i < pages r -> page_no r1 i = forked (page_no r i) /\ page_no r2 i = forked (page_no r i);
  rc_refs : shared_only (f_refs x') /\ forall q, PageRef.get q (f_refs x') = PageRef.get q (f_refs x) + refs_of q (resident r);
  rc_src : forall va e, pte (src_pt x') va = Some e -> mapped_by r va e \/
     pte (src_pt x) va = Some e /\ (touches r = true -> is_device r = false -> forall i, Z.of_nat i < pages r -> is_Some (frame_of r i) -> va <> va_of (start r) i);
  rc_dst : forall va e, pte (dst_pt x') va = Some e -> mapped_by r va e \/ pte (dst_pt x) va = Some e;
  rc_lazy : lazy r2 = true \/ is_shared r2 = true;
  rc_maps : remaps (dst_pt x) (dst_pt x') }.

Lemma device_loop r ks x : 
  let x' := foldl (fun x i => map_dst (va_of (start r) i) (wrap64 (va_of (phys r) i)) (flags r) x) x ks in
  remaps (dst_pt x) (dst_pt x') /\ src_pt x' = src_pt x /\ f_refs x' = f_refs x /\ f_log x' = f_log x /\
  forall va e, pte (dst_pt x') va = Some e -> (exists i, i ∈ ks /\ va = va_of (start r) i /\ e = (wrap64 (va_of (phys r) i), flags r)) \/ pte (dst_pt x) va = Some e.
Proof.
  revert x. induction ks as [|i ks IH]; intros x; cbn [foldl]; [split_and!; try done; [apply remaps_refl|intros va e He; by right]|]. destruct (IH (map_dst (va_of (start r) i) (wrap64 (va_of (phys r) i)) (flags r) x)) as (I0 & I1 & I2 & I3 & I4).
  split_and!; try done; [eapply remaps_trans; [apply remaps_one|exact I0]|]. intros va e He. destruct (I4 va e He) as [(j & Hj & Hx)|Hold]; [left; exists j; split; [by right|done]|]. cbn in Hold. apply remap_pte in Hold.
  destruct (decide (va = va_of (start r) i)) as [->|]; [left|by right]. exists i. split; [left|by rewrite Hold].
Qed.

Lemma clone_device_spec r x : region_ok r -> fork_ready r -> is_device r = true -> shared_only (f_refs x) ->
  exists q x', clone_region r x = Some (r, q, x') /\ region_cloned r r q x x'.
Proof.
  intros R [F1 F2] Hd HR. destruct (F2 Hd) as [Hsh Hw]. unfold clone_region. rewrite Hd. unfold clone_device. eexists _, _. split; [done|].
  pose proof Hd as [Hl Hcap]%andb_true_iff. apply negb_true_iff in Hl. pose proof (device_loop r (seq 0 (Z.to_nat (pages r))) x) as (D0 & D1 & D2 & D3 & D4).
  split; [done| | | | | |by right|exact D0].
  - split; [done|]. destruct R. split; try done; cbn; intros _; [by destruct (ro_eager Hl) as (E1 & E2 & E3)|by apply ro_block].
  - intros i Hi. assert (forked (page_no r i) = page_no r i) as -> by (unfold forked; cbn [page_no p_map]; unfold is_shared in Hsh; by rewrite Hsh). split; [done|].
    unfold page_no, frame_of. cbn [lazy flags prot map_flags file_cap file_off cow phys]. rewrite Hl, (F1 Hsh). unfold is_written. by rewrite Hw.
  - rewrite D2. split; [done|]. intros q. unfold resident. rewrite Hd. unfold refs_of. cbn. lia.
  - intros va e He. right. rewrite D1 in He. split; [done|]. intros _ Hx. congruence.
  - intros va e He. destruct (D4 va e He) as [(i & Hi%elem_of_seq & -> & ->)|Hold]; [left|by right]. exists i. split; [lia|]. split; [done|]. cbn [fst snd]. unfold frame_of, clone_flags. rewrite Hl, Hsh. done.
Qed.

Lemma clone_memory_spec r x : region_ok r -> fork_ready r -> is_device r = false -> shared_only (f_refs x) ->
  (forall q, PageRef.get q (f_refs x) + refs_of q (resident r) <= U32_MAX) ->
  exists r1 r2 x', clone_region r x = Some (r1, r2, x') /\ region_cloned r r1 r2 x x'.
Proof.
  intros R [F1 _] Hd HR Hroom. unfold clone_region. rewrite Hd. set (ps := if lazy r then _ else _). assert (ps = resident r) as -> by (unfold ps, resident; by rewrite Hd).
  set (pv0 := if lazy r then _ else _). assert (PageVec.wf pv0 /\ forall j, fr pv0 j = 0) as [W0 Z0].
  { unfold pv0. destruct (lazy r); [split; [apply new_wf|done]|]. destruct (fresh_spec (Z.to_nat (pages r))) as (Wf & Lf & Sf). split; [done|].
    intros j. rewrite fr_list, to_list_lookup by done. destruct (_ <? _)%nat; [apply Sf|done]. }
  destruct (clone_pages_spec r (resident r) pv0 0 x W0 (resident_nodup r R) HR Hroom) as (pv & x1 & E & PC). rewrite E. clear E.
  destruct (cloned_frames r pv0 pv x x1 R Hd Z0 PC) as (C1 & C2 & C3). destruct PC as [P1 _ [P3 P3'] _ P5 P6 P7]. eexists _, _, _. split; [done|].
  set (x2 := if lazy r then x1 else _). set (x3 := if is_file_backed (file_cap r) then _ else x2).
  assert (src_pt x3 = src_pt x1 /\ dst_pt x3 = dst_pt x1 /\ f_refs x3 = f_refs x1) as (X1 & X2 & X3) by (unfold x3, x2; destruct (is_file_backed _), (lazy r); done).
  assert (forall ph cw, region_ok (mkVma (start r) (end_ r) ph (flags r) true pv (0 + Z.of_nat (length (resident r))) (prot r) (map_flags r) (file_cap r) (file_off r) (file_len r) cw (written r))) as Hok.
  { intros ph cw. pose proof (proj1 (pages_ok r R)) as Hpg. destruct R. split; try done.
    - intros _ i Hi. unfold frame_at. cbn in *. apply C2. lia.
    - intros _. cbn. lia. }
  assert (forall ph cw i, Z.of_nat i < pages r -> cw = negb (is_shared r) -> page_no (mkVma (start r) (end_ r) ph (flags r) true pv (0 + Z.of_nat (length (resident r))) (prot r) (map_flags r) (file_cap r) (file_off r) (file_len r) cw (written r)) i = forked (page_no r i)) as Hpage.
  { intros ph cw i Hi ->. unfold forked, is_shared in *. unfold page_no, frame_of at 1. cbn [lazy flags prot map_flags file_cap file_off cow phys p_frame p_flags p_prot p_map p_cap p_pos p_bytes p_cow p_written].
    change (frame_at (mkVma (start r) (end_ r) ph (flags r) true pv _ (prot r) (map_flags r) (file_cap r) (file_off r) (file_len r) _ (written r)) i) with (fr pv i).
    rewrite <- (C1 i Hi). unfold frame_opt. destruct (has (map_flags r) MAP_SHARED) eqn:Esh; [|done]. by rewrite (F1 eq_refl). }
  split.
  - by destruct (lazy r).
  - split; [|apply Hok]. destruct (lazy r) eqn:Hl; [|apply Hok]. destruct R. split; try done; intros _; [exact (ro_len Hl)|exact (ro_count Hl)].
  - intros i Hi. split; [|by apply Hpage]. destruct (lazy r) eqn:Hl; [|by apply Hpage]. unfold forked, is_shared, page_no, frame_of. rewrite Hl.
    cbn [lazy flags prot map_flags file_cap file_off cow phys p_map p_frame p_flags p_prot p_cap p_pos p_bytes p_cow p_written]. by destruct (has (map_flags r) MAP_SHARED).
  - rewrite X3. done.
  - intros va e. rewrite X1. intros He. destruct (P5 va e He) as [(i & p & Hin & -> & ->)|[Hold Hn]].
    + left. apply resident_spec in Hin as [Hi Hf]; [|done|done]. by exists i.
    + right. split; [done|]. intros Ht _ i Hi [p Hf] ->. apply (Hn Ht), list_elem_of_fmap. exists (i, p). split; [done|]. by apply resident_spec.
  - intros va e. rewrite X2. intros He. destruct (P6 va e He) as [(i & p & Hin & -> & ->)|Hold]; [left|by right]. apply resident_spec in Hin as [Hi Hf]; [|done|done]. by exists i.
  - by left.
  - by rewrite X2.
Qed.

Lemma clone_region_spec r x : region_ok r -> fork_ready r -> shared_only (f_refs x) -> (forall q, PageRef.get q (f_refs x) + refs_of q (resident r) <= U32_MAX) ->
  exists r1 r2 x', clone_region r x = Some (r1, r2, x') /\ region_cloned r r1 r2 x x'.
Proof.
  intros R Hr HR Hroom. destruct (is_device r) eqn:Hd; [|by apply clone_memory_spec]. destruct (clone_device_spec r x R Hr Hd HR) as (q & x' & E & G). by exists r, q, x'.
Qed.

(** ** All regions *)
Fixpoint fork_refs (q : Z) (l : list VmaRegion) : Z := match l with [] => 0 | r :: l => refs_of q (resident r) + fork_refs q l end.

Lemma fork_refs_nonneg q l : 0 <= fork_refs q l.
Proof. induction l as [|r l IH]; cbn; [done|]. pose proof (countb_bounds (fun ip : nat * Z => ip.2 =? q) (resident r)). unfold refs_of. lia. Qed.

Definition same_range (r r' : VmaRegion) : Prop := start r' = start r /\ end_ r' = end_ r.

Lemma apart_ranges r r' l l' : same_range r r' -> Forall2 same_range l l' -> Forall (apart r) l -> Forall (apart r') l'.
Proof.
  intros [E1 E2] HF. induction HF as [|q q' l l' [Q1 Q2] HF IH]; intros HA; [done|]. apply Forall_cons in HA as [HA1 HA]. constructor; [|by apply IH]. unfold apart in *. lia.
Qed.

Record slots_cloned (l l1 l2 : list VmaRegion) (x x' : fork (T := T)) : Prop := {
  sc_range : Forall2 same_range l l1 /\ Forall2 same_range l l2;
  sc_ok : space_ok l1 /\ space_ok l2;
  sc_view : forall va, view l1 va = forked <$> view l va /\ view l2 va = forked <$> view l va;
  sc_refs : shared_only (f_refs x') /\ forall q, PageRef.get q (f_refs x') = PageRef.get q (f_refs x) + fork_refs q l;
  sc_src : forall va e, pte (src_pt x') va = Some e -> (exists r, r ∈ l /\ mapped_by r va e) \/
     pte (src_pt x) va = Some e /\ forall r, r ∈ l -> touches r = true -> is_device r = false -> forall i, Z.of_nat i < pages r -> is_Some (frame_of r i) -> va <> va_of (start r) i;
  sc_dst : forall va e, pte (dst_pt x') va = Some e -> (exists r, r ∈ l /\ mapped_by r va e) \/ pte (dst_pt x) va = Some e;
  sc_lazy : Forall (fun r => lazy r = true \/ is_shared r = true) l2;
  sc_maps : remaps (dst_pt x) (dst_pt x') }.

Lemma cloned_view r r' l l' va : region_ok r -> same_range r r' -> (forall i, Z.of_nat i < pages r -> page_no r' i = forked (page_no r i)) ->
  view l' va = forked <$> view l va -> view (r' :: l') va = forked <$> view (r :: l) va.
Proof.
  intros R [E1 E2] Hp Hv. rewrite !view_cons. assert (covers va r' = covers va r) as -> by (unfold covers; by rewrite E1, E2). destruct (covers va r) eqn:Ec; [|done]. cbn.
  rewrite (idx_start r' r va E1), Hp; [done|]. by apply idx_bound.
Qed.

Lemma slots_cons r r1 r2 l l1 l2 x x1 x' : region_ok r -> Forall (apart r) l -> region_cloned r r1 r2 x x1 -> slots_cloned l l1 l2 x1 x' -> slots_cloned (r :: l) (r1 :: l1) (r2 :: l2) x x'.
Proof.
  intros R HA [(A1 & A2 & A3 & A4) [B1 B2] Pg [R1 R2] S1 D1 L1 M1] [[C1 C2] [K1 K2] V [Q1 Q2] S2 D2 L2 M2]. split.
  - by split; constructor.
  - split; apply space_ok_cons; split_and!; try done; by eapply apart_ranges.
  - intros va. destruct (V va) as [V1 V2]. split; apply cloned_view; try done; intros i Hi; by apply Pg.
  - split; [done|]. intros q. rewrite Q2, R2. cbn. lia.
  - intros va e He. destruct (S2 va e He) as [(q & Hq & Hm)|[Hold Hn]]; [left; exists q; split; [by right|done]|].
    destruct (S1 va e Hold) as [Hm|[Hold' Hn']]; [left; exists r; split; [left|done]|]. right. split; [done|]. intros q [->|Hq]%elem_of_cons; [by apply Hn'|by apply Hn].
  - intros va e He. destruct (D2 va e He) as [(q & Hq & Hm)|Hold]; [left; exists q; split; [by right|done]|].
    destruct (D1 va e Hold) as [Hm|Hold']; [left; exists r; split; [left|done]|by right].
  - by constructor.
  - by eapply remaps_trans.
Qed.

Lemma clone_slots_spec rs x : space_ok (live rs) -> Forall fork_ready (live rs) -> shared_only (f_refs x) ->
  (forall q, PageRef.get q (f_refs x) + fork_refs q (live rs) <= U32_MAX) ->
  exists s d x', clone_slots rs x = Some (s, d, x') /\ slots_cloned (live rs) (live s) (live d) x x'.
Proof.
  revert x. induction rs as [|[r|] rs IH]; intros x HS HR Hsh Hroom; cbn [clone_slots].
  - exists [], [], x. split; [done|]. split; try done; [split; [done|]; intros q; cbn; lia| | |apply remaps_refl]; intros va e He; right; [|done]. split; [done|]. intros r Hr. by apply not_elem_of_nil in Hr.
  - change (live (Some r :: rs)) with (r :: live rs) in *. apply space_ok_cons in HS as (R & HA & HS). apply Forall_cons in HR as [Hr HR].
    destruct (clone_region_spec r x R Hr Hsh) as (r1 & r2 & x1 & E1 & G1). { intros q. specialize (Hroom q). cbn in Hroom. pose proof (fork_refs_nonneg q (live rs)). lia. }
    rewrite E1. destruct (IH x1 HS HR) as (s & d & x' & E & G).
    + apply G1.
    + intros q. specialize (Hroom q). cbn in Hroom. destruct (rc_refs _ _ _ _ _ G1) as [_ Hg]. rewrite Hg. lia.
    + rewrite E. cbn [mbind option_bind]. exists (Some r1 :: s), (Some r2 :: d), x'. split; [done|]. by eapply slots_cons.
  - change (live (None :: rs)) with (live rs) in *. destruct (IH x HS HR Hsh Hroom) as (s & d & x' & E & G). rewrite E. exists (None :: s), (None :: d), x'. done.
Qed.

(** ** The fork *)

(** No entry leads to a page the program may not access, which [cow.rs] takes for
    granted: [mprotect] removes such entries, and the one known way to a new one is a
    file fault that [mprotect] overtakes ([install_into_prot_none] of [VmmInstall]). *)
Definition prot_none_unmapped (l : list VmaRegion) (t : T) : Prop :=
  forall va e pg, pte t va = Some e -> view l va = Some pg -> Z.land (p_prot pg) PROT_ACCESS <> 0.

Lemma mapped_by_view l r va e : space_ok l -> r ∈ l -> mapped_by r va e ->
  (PAGE_SIZE | va) /\ exists i, view l va = Some (page_no r i) /\ p_frame (page_no r i) = Some e.1 /\ e.2 = clone_flags r i.
Proof.
  intros [HF HP] Hr (i & Hi & -> & Hf & He). rewrite Forall_forall in HF. pose proof (HF r Hr) as R. split; [by apply va_aligned|]. exists i.
  rewrite (view_elem l _ r HP Hr) by by apply covers_va. by rewrite va_idx.
Qed.

(** What the clone maps is writable only in shared mappings, and there as before. *)
Lemma clone_flags_ok r i p rf : region_ok r -> fork_ready r -> contains (clone_flags r i) WRITABLE = true -> may_write rf (forked (page_no r i)) p = true.
Proof.
  intros R [F1 _]. unfold clone_flags, forked, may_write. cbn [page_no p_map]. unfold is_shared in *. destruct (has (map_flags r) MAP_SHARED) eqn:Esh; cbn [negb]; [|by unfold downgraded; rewrite contains_cleared].
  cbn [page_no p_flags p_cow]. rewrite (F1 eq_refl). cbn [andb negb]. destruct (lazy r && is_file_backed (file_cap r)) eqn:Elf.
  - intros [H1 H2]%install_flags_ok. rewrite H1. cbn. rewrite (clean_page r i R) in H2. apply andb_true_iff in Elf as [El _]. rewrite El in H2. cbn in H2. by rewrite H2.
  - intros H1. rewrite H1. cbn. unfold clean. cbn [page_no p_cap]. destruct (is_file_backed (file_cap r)) eqn:Ef; [|done]. rewrite andb_true_r in Elf.
    destruct (ro_eager r R Elf) as (_ & Hx & _). congruence.
Qed.

Lemma parent_entry l l1 l2 x x' va e : space_ok l -> Forall fork_ready l -> prot_none_unmapped l (src_pt x) -> no_stale l (src_pt x) (f_refs x) ->
  slots_cloned l l1 l2 x x' -> pte (src_pt x') va = Some e ->
  (exists r, r ∈ l /\ mapped_by r va e) \/ pte (src_pt x) va = Some e /\ forall pg, view l va = Some pg -> has (p_map pg) MAP_SHARED = true /\ p_cow pg = false.
Proof.
  intros HS HR Hnone HN SC He. destruct (sc_src _ _ _ _ _ SC va e He) as [Hm|[Hold Hnot]]; [by left|right]. split; [done|]. intros pg Hv. destruct e as [p f].
  destruct (HN va p f Hold) as (Hd & pg' & Hv' & Hf & _). rewrite Hv in Hv'. injection Hv' as <-. pose proof (Hnone va (p, f) pg Hold Hv) as Hacc.
  apply view_inv in Hv as (r & Hr & Hc & ->). rewrite Forall_forall in HR. destruct (HR r Hr) as [F1 F2]. cbn [page_no p_map p_cow p_prot] in *.
  destruct (is_shared r) eqn:Hsh; [split; [exact Hsh|by apply F1]|]. exfalso. destruct HS as [HF _]. rewrite Forall_forall in HF. pose proof (HF r Hr) as R.
  refine (Hnot r Hr _ _ (idx_of r va) (idx_bound r va R Hc) _ (idx_va r va R Hd _)).
  - unfold touches, no_access. rewrite Hsh, andb_false_r, (proj2 (Z.eqb_neq _ _) Hacc). done.
  - destruct (is_device r); [|done]. by destruct (F2 eq_refl).
  - exists p. exact Hf.
  - apply covers_spec in Hc. lia.
Qed.

Lemma forked_shared pg : has (p_map (forked pg)) MAP_SHARED = has (p_map pg) MAP_SHARED.
Proof. unfold forked. by destruct (has (p_map pg) MAP_SHARED) eqn:E. Qed.

Lemma forked_frame pg : p_frame (forked pg) = p_frame pg.
Proof. unfold forked. by destruct (has (p_map pg) MAP_SHARED). Qed.

(** Entries the clone made or kept agree with the forked view. *)
Lemma forked_stale l l1 (t : T) rf : space_ok l -> Forall fork_ready l -> (forall va, view l1 va = forked <$> view l va) ->
  (forall va e, pte t va = Some e -> (exists r, r ∈ l /\ mapped_by r va e) \/
     (PAGE_SIZE | va) /\ exists pg rf0, view l va = Some pg /\ p_frame pg = Some e.1 /\ (contains e.2 WRITABLE = true -> may_write rf0 pg e.1 = true) /\ has (p_map pg) MAP_SHARED = true /\ p_cow pg = false) ->
  no_stale l1 t rf.
Proof.
  intros HS HR Hv Ht va p f He. destruct (Ht va _ He) as [(r & Hr & Hm)|(Hd & pg & rf0 & H1 & H2 & H3 & H4 & H5)].
  - destruct (mapped_by_view l r va _ HS Hr Hm) as (Hd & i & H1 & H2 & H3). split; [done|]. exists (forked (page_no r i)). rewrite Hv, H1, forked_frame. split; [done|]. split; [done|].
    cbn in H3. rewrite H3. destruct HS as [HF _]. rewrite Forall_forall in HF, HR. intros Hw. by apply clone_flags_ok; [apply HF|apply HR|].
  - split; [done|]. exists (forked pg). rewrite Hv, H1, forked_frame. split; [done|]. split; [done|]. intros Hw. specialize (H3 Hw). unfold forked. rewrite H4.
    unfold may_write in *. rewrite H5 in *. done.
Qed.

(** The child satisfies the invariant. *)
Lemma child_ok l l1 d x x' lf lg : space_ok l -> Forall fork_ready l -> (forall va, pte (dst_pt x) va = None) -> slots_cloned l l1 (live (regions d)) x x' ->
  vm_ok d (mkWorld (dst_pt x') (f_refs x') lf lg).
Proof.
  intros HS HR Htd SC. pose proof SC as [_ [_ O2] V [R1 _] _ D _ _]. split; [done|]. split; [|done]. apply (forked_stale l); [done|done|intros va; apply V|].
  intros va e He. destruct (D va e He) as [|Hx]; [by left|]. by rewrite Htd in Hx.
Qed.

(** C22: [clone_as] gives the child the parent's view: every page is at the same
    address with the same frame and attributes, and private pages are
    copy-on-write on both sides.  Both address spaces satisfy the invariant: no
    entry of either is stale, and no private page is writable through either
    table, so the first store on either side faults and takes a copy.  Every
    frame gains one reference for each page of memory that shows it, and the
    parent's stale translations are flushed last. *)
Theorem clone_as_spec a w td :
  vm_ok a w -> Forall fork_ready (live (regions a)) -> prot_none_unmapped (live (regions a)) (pt w) -> (forall va, pte td va = None) ->
  (forall q, PageRef.get q (page_refs w) + fork_refs q (live (regions a)) <= U32_MAX) ->
  exists a' w' d td', clone_as a w td = Some (a', w', d, td')
    /\ vm_ok a' w' /\ vm_ok d (mkWorld td' (page_refs w') 0 [])
    /\ (forall va, view (live (regions a')) va = forked <$> view (live (regions a)) va /\ view (live (regions d)) va = view (live (regions a')) va)
    /\ (forall va pg e, view (live (regions a)) va = Some pg -> has (p_map pg) MAP_SHARED = false -> pte (pt w') va = Some e \/ pte td' va = Some e -> contains e.2 WRITABLE = false)
    /\ (forall q, PageRef.get q (page_refs w') = PageRef.get q (page_refs w) + fork_refs q (live (regions a)))
    /\ last (log w') = Some TlbFlushAll.
Proof.
  intros (HS & HN & HR) Hr Hnone Htd Hroom. unfold clone_as. set (x := mkFork _ _ _ _).
  destruct (clone_slots_spec (regions a) x HS Hr HR Hroom) as (s & d & x' & E & SC). rewrite E. cbn [mbind option_bind]. eexists _, _, _, _. split; [done|].
  pose proof SC as [_ [O1 O2] V [R1 R2] _ D _ _]. cbn [regions set_regions pt page_refs log].
  assert (forall va e, pte (dst_pt x') va = Some e -> exists r, r ∈ live (regions a) /\ mapped_by r va e) as Hdst.
  { intros va e He. destruct (D va e He) as [|Hx]; [done|]. cbn in Hx. by rewrite Htd in Hx. }
  assert (forall va e, pte (src_pt x') va = Some e -> (exists r, r ∈ live (regions a) /\ mapped_by r va e) \/ pte (pt w) va = Some e /\ forall pg, view (live (regions a)) va = Some pg -> has (p_map pg) MAP_SHARED = true /\ p_cow pg = false) as Hsrc.
  { intros va e. by apply (parent_entry _ (live s) (live d) x x'). }
  split; [|split; [|split; [|split; [|split]]]].
  - split; [done|]. split; [|done]. apply (forked_stale (live (regions a))); [done|done|intros va; apply V|]. intros va e He. destruct (Hsrc va e He) as [|[Hold Hsh]]; [by left|right].
    destruct e as [p f]. destruct (HN va p f Hold) as (Hd & pg & H1 & H2 & H3). split; [done|]. exists pg, (page_refs w). destruct (Hsh pg H1). done.
  - by apply (child_ok (live (regions a)) (live s) (mkAs d (heap_start a) (heap_end a) (stack_top a) 0 0) x).
  - intros va. destruct (V va) as [V1 V2]. split; [exact V1|congruence].
  - intros va pg e Hv Hsh He. assert (exists r, r ∈ live (regions a) /\ mapped_by r va e) as (r & Hin & Hm).
    { destruct He as [He|He]; [|by apply Hdst]. destruct (Hsrc va e He) as [|[_ Hx]]; [done|]. destruct (Hx pg Hv). congruence. }
    destruct (mapped_by_view _ r va e HS Hin Hm) as (_ & i & H1 & _ & H3). rewrite Hv in H1. injection H1 as ->. cbn in Hsh. rewrite H3. unfold clone_flags, is_shared. rewrite Hsh. cbn. apply contains_cleared.
  - exact R2.
  - apply last_snoc.
Qed.
End region.

(** ** A page without an entry *)
Section missing.
Context {T : Type} `{PageTable T} {C : Type} `{FrameCache C}.
Notation sys := (sys (T := T) (C := C)).

(** C31: [clone_as] ignores that [map_page] failed, and the child is stuck on the
    page.  If the child's page table has no memory for the entry of a private page
    the parent has resident and may access, the clone still succeeds and the child
    owns the frame without an entry; then every read of the page by the child is
    answered as handled, by reference to a sibling that must have installed the
    entry, and nothing changes, however often the access is retried and whatever
    the allocator and the page cache offer. *)
Theorem clone_missing_entry_loops a (w : world T) td va pg p :
  vm_ok a w -> Forall fork_ready (live (regions a)) -> (forall v, pte td v = None) ->
  (forall q, PageRef.get q (page_refs w) + fork_refs q (live (regions a)) <= U32_MAX) -> refuses (page_down va) td ->
  view (live (regions a)) va = Some pg -> p_frame pg = Some p -> p <> 0 -> has (p_map pg) MAP_SHARED = false -> Z.land (p_prot pg) PROT_ACCESS <> 0 ->
  exists a' w' d td', clone_as a w td = Some (a', w', d, td')
    /\ view (live (regions d)) va = Some (forked pg) /\ pte td' (page_down va) = None
    /\ forall fk block (c : C) k, let s := mkSys d (mkWorld td' (page_refs w') 0 []) c in attempts k fk block va false s = Some s.
Proof.
  intros (HS & HN & HR) Hr Htd Hroom Href Hv Hp Hp0 Hsh Hacc. unfold clone_as. set (x := mkFork _ _ _ _).
  destruct (clone_slots_spec (regions a) x HS Hr HR Hroom) as (s & d & x' & E & SC). rewrite E. cbn [mbind option_bind]. eexists _, _, _, _. split; [done|].
  set (da := mkAs d _ _ _ _ _). pose proof (child_ok (live (regions a)) (live s) da x x' 0 [] HS Hr Htd SC) as HV. cbn [page_refs].
  destruct (sc_view _ _ _ _ _ SC va) as [_ V2]. rewrite Hv in V2. split; [exact V2|].
  assert (pte (dst_pt x') (page_down va) = None) as Hnone by (rewrite (refuses_pte _ _ _ Href (sc_maps _ _ _ _ _ SC)); apply Htd). split; [exact Hnone|].
  apply view_inv in V2 as (r2 & Hr2 & Hc & Epg). assert (prot r2 = p_prot pg /\ has (map_flags r2) MAP_SHARED = false /\ frame_of r2 (idx_of r2 va) = Some p) as (Epr & Esh & Ef).
  { unfold forked in Epg. rewrite Hsh in Epg. rewrite <- Hp, <- Hsh. split; [exact (eq_sym (f_equal p_prot Epg))|].
    split; [exact (eq_sym (f_equal (fun g => has (p_map g) MAP_SHARED) Epg))|exact (eq_sym (f_equal p_frame Epg))]. }
  pose proof (sc_lazy _ _ _ _ _ SC) as HL. rewrite Forall_forall in HL. assert (lazy r2 = true) as Hl by (destruct (HL r2 Hr2) as [|Hx]; [done|]; unfold is_shared in Hx; congruence).
  assert (frame_at r2 (idx_of r2 va) <> 0) as Hf by (unfold frame_of in Ef; rewrite Hl in Ef; destruct (Z.eqb_spec (frame_at r2 (idx_of r2 va)) 0); [done|done]).
  apply live_elem in Hr2. apply list_elem_of_lookup in Hr2 as [slot Hslot].
  intros fk block c k. set (s0 := mkSys da _ c). induction k as [|k IH]; [done|]. cbn [attempts].
  destruct (plan_present fk (block k) va false s0 slot r2 HV Hslot Hc Hl ltac:(by rewrite Epr) Hf) as (slot' & _ & ->). unfold present_fault. cbn [andb negb orb]. exact IH.
Qed.
End missing.

(** ** Systems to evaluate *)

(** A page table that may have no memory left for its nodes. *)
Inductive table := Table (m : gmap Z (Z * Z)) | Starved.
Definition table_pte (t : table) (va : Z) : option (Z * Z) := match t with Table m => m !! va | Starved => None end.
#[local] Program Instance table_ops : PageTable table := {
  map_page va p f t := match t with Table m => (true, Table (<[va := (p, f)]> m)) | Starved => (false, Starved) end;
  unmap_page va t := match t with Table m => Table (delete va m) | Starved => Starved end;
  pte := table_pte }.
Next Obligation.
  intros v p f [m|] t' [= <-] a. cbn. case_decide; [subst; by rewrite lookup_insert_eq|by rewrite lookup_insert_ne].
Qed.
Next Obligation. by intros v p f [m|] t' [= <-] a. Qed.
Next Obligation. by intros v p f [m|] [e He]. Qed.
Next Obligation. intros v [m|] a; cbn; [|by case_decide]. case_decide; [subst; by rewrite lookup_delete_eq|by rewrite lookup_delete_ne]. Qed.

(** A program with one writable page, about to fork. *)
Definition forking : AddressSpace := mkAs [Some (demo_region 7 3 34 0 false)] 0 0 0 0 0.
Definition forking_world : world table := mkWorld (Table (<[65536 := (20480, 7)]> ∅)) ∅ 0 [].

Lemma forking_ok : vm_ok forking forking_world /\ Forall fork_ready (live (regions forking)) /\ prot_none_unmapped (live (regions forking)) (pt forking_world)
  /\ forall q, PageRef.get q (page_refs forking_world) + fork_refs q (live (regions forking)) <= U32_MAX.
Proof.
  split; [|split; [|split]].
  - split; [split; [constructor; [apply demo_region_ok|done]|done]|]. split; [|apply map_Forall_empty]. intros va p g Hp. cbn in Hp.
    apply lookup_insert_Some in Hp as [[<- [= <- <-]]|[_ Hp]]; [|by rewrite lookup_empty in Hp]. split; [by exists 16|]. by exists (page_no (demo_region 7 3 34 0 false) 0).
  - constructor; [done|constructor].
  - intros va e pg _ (r & Hr%list_elem_of_singleton & _ & ->)%view_inv. by subst r.
  - intros q. change (live (regions forking)) with [demo_region 7 3 34 0 false]. cbn [fork_refs]. change (resident (demo_region 7 3 34 0 false)) with [(0%nat, 20480)].
    unfold refs_of, PageRef.get. cbn [page_refs forking_world]. rewrite lookup_empty. cbn [countb snd default from_option]. destruct (20480 =? q); cbn; unfold U32_MAX; lia.
Qed.

Lemma clone_as_spec_witness :
  exists a' w' d td', clone_as forking forking_world (Table ∅) = Some (a', w', d, td') /\ vm_ok d (mkWorld td' (page_refs w') 0 [])
    /\ PageRef.get 20480 (page_refs w') = 2 /\ pte (pt w') 65536 = Some (20480, 5) /\ pte td' 65536 = Some (20480, 5).
Proof.
  destruct forking_ok as (G1 & G2 & G3 & G4). destruct (clone_as_spec forking forking_world (Table ∅) G1 G2 G3 (fun va => lookup_empty va) G4) as (a' & w' & d & td' & E & _ & V & _).
  assert (exists a1 w1 d1 t1, clone_as forking forking_world (Table ∅) = Some (a1, w1, d1, t1) /\ PageRef.get 20480 (page_refs w1) = 2
    /\ pte (pt w1) 65536 = Some (20480, 5) /\ pte t1 65536 = Some (20480, 5)) as (a1 & w1 & d1 & t1 & E1 & H1 & H2 & H3) by (do 4 eexists; split; [vm_compute; reflexivity|]; split_and!; vm_compute; reflexivity).
  rewrite E1 in E. injection E as <- <- <- <-. exists a1, w1, d1, t1. by split_and!.
Defined.

(** The child's tables could not be built. *)
Lemma starved_refuses va : refuses va Starved.
Proof.
  intros calls p f. assert (remap_all calls Starved = Starved) as ->; [|done]. induction calls as [|[[v q] g] calls IH]; [done|]. exact IH.
Qed.

Lemma clone_missing_entry_loops_witness :
  exists a' w' d td', clone_as forking forking_world Starved = Some (a', w', d, td') /\ p_frame <$> view (live (regions d)) 65600 = Some (Some 20480) /\ pte td' 65536 = None
    /\ let s := mkSys d (mkWorld td' (page_refs w') 0 []) empty_cache in attempts 1000 (fun _ => 0) (fun _ => None) 65600 false s = Some s.
Proof.
  destruct forking_ok as (G1 & G2 & _ & G4).
  destruct (clone_missing_entry_loops (C := Cache.t) forking forking_world Starved 65600 (page_no (demo_region 7 3 34 0 false) 0) 20480 G1 G2) as (a' & w' & d & td' & E & V & P & A).
  - reflexivity.
  - exact G4.
  - apply starved_refuses.
  - reflexivity.
  - vm_compute. reflexivity.
  - lia.
  - reflexivity.
  - vm_compute. discriminate.
  - exists a', w', d, td'. split; [exact E|]. split; [rewrite V; vm_compute; reflexivity|]. split; [exact P|]. exact (A (fun _ => 0) (fun _ => None) empty_cache 1000%nat).
Defined.
