(* ===== verification/SyncObj.v ===== *)
(** * DRM sync objects, sync files and implicit fences

    Models [src/drivers/src/syncobj_core.rs] and
    [src/drivers/src/sync_file_core.rs], whole files of pure code: a sync
    object's payload is a chain of timeline points, each waiting for fences; a
    reservation object is what the users of a shared buffer wait for.  Whether
    a fence has signalled is asked through an oracle, here the argument [done];
    fences only ever go from pending to signalled, so a later oracle is a
    superset ([later]).

    The theorems show that the fence taken out of a timeline for a point
    signals exactly when the timeline reaches that point, that collecting the
    signalled prefix changes no answer, and that a sync file exported from a
    buffer waits for exactly the conflicting users. *)
From stdpp Require Import sorting.
From S2P Require Import Prelude.
#[local] Open Scope Z_scope.

Definition FenceId : Type := Z.

Inductive Fence :=
  | Signaled
  | One (f : FenceId)
  | All (v : list FenceId).

Definition is_done (done : FenceId -> bool) (x : Fence) : bool :=
  match x with
  | Signaled => true
  | One f => done f
  | All v => forallb done v
  end.

Definition pending (done : FenceId -> bool) (x : Fence) : list FenceId :=
  match x with
  | Signaled => []
  | One f => if done f then [] else [f]
  | All v => List.filter (fun f => negb (done f)) v
  end.

(** [Vec::dedup]: consecutive equal elements. *)
Fixpoint dedup (l : list Z) : list Z :=
  match l with
  | x :: (y :: _) as t => if x =? y then dedup t else x :: dedup t
  | _ => l
  end.

Definition from_ids (ids : list FenceId) : Fence :=
  let ids := List.filter (fun f => negb (f =? 0)) ids in
  let ids := merge_sort Z.le ids in
  let ids := dedup ids in
  match ids with
  | [] => Signaled
  | [f] => One f
  | _ => All ids
  end.

Definition as_single (done : FenceId -> bool) (x : Fence) : FenceId :=
  match x with
  | Signaled => 0
  | One f => f
  | All v =>
      match List.filter (fun f => negb (done f)) v with
      | [] => 0
      | f :: l => foldl Z.max f l
      end
  end.

Record Point := mkPoint { point : Z; fence : Fence }.

Inductive Lookup :=
  | NotSubmitted
  | Ready (f : Fence).

Inductive WaitState := WSignaled | WPending | WInvalid.

Definition WAIT_ALL : Z := Z.shiftl 1 0.
Definition WAIT_FOR_SUBMIT : Z := Z.shiftl 1 1.
Definition WAIT_AVAILABLE : Z := Z.shiftl 1 2.

Record Payload := mkPayload { chain : list Point; base : Z }.

Definition null : Payload := mkPayload [] 0.
Definition signaled : Payload := mkPayload [mkPoint 0 Signaled] 0.
Definition is_null (p : Payload) : bool := bool_decide (length (chain p) = 0%nat) && (base p =? 0).
Definition replace (f : Fence) (p : Payload) : Payload := mkPayload [mkPoint 0 f] 0.
Definition reset (p : Payload) : Payload := mkPayload [] 0.

Definition head (p : Payload) : option Fence :=
  match last (chain p) with
  | Some q => Some (fence q)
  | None => if 0 <? base p then Some Signaled else None
  end.

(** [binary_search_by] on a chain in ascending order: the index of the point,
    or the index where it belongs. *)
Fixpoint search (pt : Z) (l : list Point) : result nat nat :=
  match l with
  | [] => Err O
  | q :: l =>
      if point q =? pt then Ok O
      else if pt <? point q then Err O
      else match search pt l with Ok i => Ok (S i) | Err i => Err (S i) end
  end.

Definition add_point (pt : Z) (f : Fence) (p : Payload) : Payload :=
  match search pt (chain p) with
  | Ok i => mkPayload (alter (fun q => mkPoint (point q) f) i (chain p)) (base p)
  | Err i => mkPayload (take i (chain p) ++ mkPoint pt f :: drop i (chain p)) (base p)
  end.

Definition last_point (p : Payload) : Z :=
  match last (chain p) with
  | Some q => Z.max (point q) (base p)
  | None => base p
  end.

Fixpoint query_from (done : FenceId -> bool) (v : Z) (l : list Point) : Z :=
  match l with
  | [] => v
  | q :: l => if negb (is_done done (fence q)) then v else query_from done (Z.max v (point q)) l
  end.
Definition query (done : FenceId -> bool) (p : Payload) : Z := query_from done (base p) (chain p).

Fixpoint position (pt : Z) (l : list Point) : option nat :=
  match l with
  | [] => None
  | q :: l => if pt <=? point q then Some O else S <$> position pt l
  end.

Definition lookup (done : FenceId -> bool) (pt : Z) (p : Payload) : Lookup :=
  if pt =? 0 then match head p with Some f => Ready f | None => NotSubmitted end
  else if pt <=? base p then Ready Signaled
  else
    match position pt (chain p) with
    | None => NotSubmitted
    | Some i => Ready (from_ids (flat_map (fun q => pending done (fence q)) (take (S i) (chain p))))
    end.

Definition wait_state (done : FenceId -> bool) (pt flags : Z) (p : Payload) : WaitState :=
  match lookup done pt p with
  | NotSubmitted =>
      if negb (Z.land flags (Z.lor WAIT_FOR_SUBMIT WAIT_AVAILABLE) =? 0) then WPending else WInvalid
  | Ready f =>
      if negb (Z.land flags WAIT_AVAILABLE =? 0) then WSignaled
      else if is_done done f then WSignaled else WPending
  end.

(** The loop of [gc] and the [drain] after it. *)
Fixpoint gc_loop (done : FenceId -> bool) (b : Z) (l : list Point) : Payload :=
  match l with
  | q :: l' =>
      if (0 <? point q) && is_done done (fence q) then gc_loop done (Z.max b (point q)) l'
      else mkPayload l b
  | [] => mkPayload [] b
  end.
Definition gc (done : FenceId -> bool) (p : Payload) : Payload := gc_loop done (base p) (chain p).

(** ** Reservation objects ([sync_file_core.rs]) *)
Definition DMA_BUF_SYNC_READ : Z := Z.shiftl 1 0.
Definition DMA_BUF_SYNC_WRITE : Z := Z.shiftl 2 0.
Definition DMA_BUF_SYNC_RW : Z := Z.lor DMA_BUF_SYNC_READ DMA_BUF_SYNC_WRITE.

Definition not32 (x : Z) : Z := Z.lxor x U32_MAX.
Definition resv_flags_valid (flags : Z) : bool :=
  (Z.land flags (not32 DMA_BUF_SYNC_RW) =? 0) && negb (Z.land flags DMA_BUF_SYNC_RW =? 0).

Record Resv := mkResv { write : list FenceId; read : list FenceId }.
Definition resv_new : Resv := mkResv [] [].

Definition contains (l : list FenceId) (f : FenceId) : bool := existsb (Z.eqb f) l.
(** [for f in ids { if !v.contains(&f) { v.push(f); } }] *)
Definition push_new (v ids : list FenceId) : list FenceId :=
  foldl (fun v f => if negb (contains v f) then v ++ [f] else v) v ids.

Definition is_writer (flags : Z) : bool := negb (Z.land flags DMA_BUF_SYNC_WRITE =? 0).

Definition resv_add (done : FenceId -> bool) (f : Fence) (flags : Z) (r : Resv) : Resv :=
  let ids := pending done f in
  if is_writer flags then mkResv (push_new (write r) ids) (read r)
  else mkResv (write r) (push_new (read r) ids).

Definition resv_export (done : FenceId -> bool) (flags : Z) (r : Resv) : Fence :=
  let ids := List.filter (fun f => negb (done f)) (write r) in
  let ids := if is_writer flags then ids ++ List.filter (fun f => negb (done f)) (read r) else ids in
  from_ids ids.

Definition resv_gc (done : FenceId -> bool) (r : Resv) : Resv :=
  mkResv (List.filter (fun f => negb (done f)) (write r)) (List.filter (fun f => negb (done f)) (read r)).

Definition resv_is_empty (r : Resv) : bool :=
  bool_decide (length (write r) = 0%nat) && bool_decide (length (read r) = 0%nat).

Definition merge (done : FenceId -> bool) (a b : Fence) : Fence := from_ids (pending done a ++ pending done b).

Definition syncobj_export (done : FenceId -> bool) (links : list Point) (b : Z) : option Fence :=
  if bool_decide (length links = 0%nat) && (b =? 0) then None
  else Some (from_ids (flat_map (fun q => pending done (fence q)) links)).

(** ** Fences as sets of ids *)
Definition ids_of (x : Fence) : list FenceId :=
  match x with Signaled => [] | One f => [f] | All v => v end.

(** 0 never names a fence. *)
Definition real (ids : list FenceId) : Prop := Forall (fun f => f <> 0) ids.
Definition real_fence (x : Fence) : Prop := real (ids_of x).

(** Fences are never taken back. *)
Definition later (done done' : FenceId -> bool) : Prop := forall f, done f = true -> done' f = true.

#[export] Instance later_preorder : PreOrder later.
Proof. split; [by intros d f|]. intros a b c H1 H2 f Hf. by apply H2, H1. Qed.

Lemma is_done_ids done x : is_done done x = forallb done (ids_of x).
Proof. destruct x; cbn; by rewrite ?andb_true_r. Qed.

Lemma pending_ids done x : pending done x = List.filter (fun f => negb (done f)) (ids_of x).
Proof. destruct x; cbn; [done| |done]. by destruct (done f). Qed.

Lemma forallb_In (d : Z -> bool) l : forallb d l = true <-> forall f, f ∈ l -> d f = true.
Proof. rewrite forallb_forall. by setoid_rewrite list_elem_of_In. Qed.

Lemma forallb_ext_In (d : Z -> bool) l l' : (forall f, f ∈ l <-> f ∈ l') -> forallb d l = forallb d l'.
Proof. intros H. apply eq_true_iff_eq. rewrite !forallb_In. by setoid_rewrite H. Qed.

(** Waiting for what is pending now is waiting for everything. *)
Lemma forallb_pending done done' l :
  later done done' -> forallb done' (List.filter (fun f => negb (done f)) l) = forallb done' l.
Proof.
  intros H. induction l as [|f l IH]; [done|]. cbn. destruct (done f) eqn:E; cbn.
  - by rewrite (H f E), IH.
  - by rewrite IH.
Qed.

Lemma done_pending done done' x : later done done' -> forallb done' (pending done x) = is_done done' x.
Proof. intros H. by rewrite pending_ids, forallb_pending, is_done_ids. Qed.

Lemma is_done_later done done' x : later done done' -> is_done done x = true -> is_done done' x = true.
Proof. intros H. rewrite !is_done_ids, !forallb_In. eauto. Qed.

Lemma dedup_In l f : f ∈ dedup l <-> f ∈ l.
Proof.
  induction l as [|x [|y l] IH]; [done|done|]. cbn [dedup] in *. destruct (Z.eqb_spec x y) as [->|Hne].
  - rewrite IH. set_solver.
  - rewrite elem_of_cons, IH. set_solver.
Qed.

Lemma ids_from ids : exists l, ids_of (from_ids ids) = l /\ forall f, f ∈ l <-> f ∈ ids /\ f <> 0.
Proof.
  unfold from_ids. set (l := dedup _).
  assert (forall f, f ∈ l <-> f ∈ ids /\ f <> 0) as Hl.
  { intros f. unfold l. rewrite dedup_In, merge_sort_Permutation, list_elem_of_In, filter_In, <- list_elem_of_In.
    by rewrite negb_true_iff, Z.eqb_neq. }
  exists l. split; [|done]. destruct l as [|x [|y l']]; done.
Qed.

(** [from_ids] is the conjunction of its fences. *)
Lemma done_from done ids : real ids -> is_done done (from_ids ids) = forallb done ids.
Proof.
  intros Hr. rewrite is_done_ids. destruct (ids_from ids) as (l & -> & Hl). apply forallb_ext_In. intros f. rewrite Hl.
  unfold real in Hr. rewrite Forall_forall in Hr. naive_solver.
Qed.

Lemma real_from ids : real_fence (from_ids ids).
Proof. unfold real_fence, real. destruct (ids_from ids) as (l & -> & Hl). apply Forall_forall. intros f Hf. by apply Hl. Qed.

Lemma real_pending done x : real_fence x -> real (pending done x).
Proof.
  unfold real_fence, real. rewrite pending_ids, !Forall_forall. intros H f Hf.
  rewrite list_elem_of_In, filter_In, <- list_elem_of_In in Hf. naive_solver.
Qed.

(** A normalised fence lists every id once, in ascending order. *)
Lemma dedup_hd x y l : x < y -> Sorted Z.le (y :: l) -> HdRel Z.lt x (dedup (y :: l)).
Proof.
  intros Hxy. revert y Hxy. induction l as [|w l IH]; intros y Hxy Hs; [by repeat constructor|]. cbn [dedup].
  destruct (Z.eqb_spec y w) as [<-|]; [|by constructor]. apply IH; [done|]. by inversion Hs.
Qed.

Lemma dedup_sorted l : Sorted Z.le l -> Sorted Z.lt (dedup l).
Proof.
  induction l as [|x [|y l] IH]; intros H; [constructor|by repeat constructor|]. inversion H as [|? ? Hs Hx]; subst.
  cbn [dedup]. destruct (Z.eqb_spec x y) as [->|Hne]; [by apply IH|]. constructor; [by apply IH|].
  inversion Hx; subst. apply dedup_hd; [lia|done].
Qed.

(** ** Chains *)
Definition before (p q : Point) : Prop := point p < point q.

Record wf (p : Payload) : Prop := {
  wf_sorted : StronglySorted before (chain p);
  wf_base : 0 <= base p;
  wf_points : Forall (fun q => 0 <= point q) (chain p);
  wf_real : Forall (fun q => real_fence (fence q)) (chain p) }.

Lemma query_from_max done v l : v <= query_from done v l.
Proof.
  revert v. induction l as [|q l IH]; intros v; cbn; [lia|]. destruct (is_done _ _); cbn; [|lia].
  specialize (IH (Z.max v (point q))). lia.
Qed.

(** The links before the looked-up one have smaller points. *)
Lemma point_position_spec pt l i :
  position pt l = Some i ->
  exists l1 q l2, l = l1 ++ q :: l2 /\ length l1 = i /\ pt <= point q /\ Forall (fun p => point p < pt) l1.
Proof.
  revert i. induction l as [|q l IH]; intros i; cbn; [done|]. destruct (Z.leb_spec pt (point q)) as [H|H].
  - intros [= <-]. by exists [], q, l.
  - intros (j & Hj & ->)%fmap_Some. destruct (IH j Hj) as (l1 & q' & l2 & -> & <- & H1 & H2).
    exists (q :: l1), q', l2. split; [done|]. split; [done|]. split; [done|by constructor].
Qed.

Lemma position_none pt l : position pt l = None -> Forall (fun p => point p < pt) l.
Proof.
  induction l as [|q l IH]; cbn; [constructor|]. destruct (Z.leb_spec pt (point q)); [done|].
  intros Hn%fmap_None. constructor; [done|by apply IH].
Qed.

(** The timeline has reached [pt] exactly when every link up to the first one
    at or after [pt] has signalled. *)
Lemma query_reaches done v l1 q l2 pt :
  v < pt -> Forall (fun p => point p < pt) l1 -> pt <= point q ->
  (pt <=? query_from done v (l1 ++ q :: l2)) = forallb (fun p => is_done done (fence p)) (l1 ++ [q]).
Proof.
  revert v. induction l1 as [|p l1 IH]; intros v Hv Hl Hq; cbn.
  - rewrite andb_true_r. destruct (is_done done (fence q)); cbn.
    + apply Z.leb_le. pose proof (query_from_max done (Z.max v (point q)) l2). lia.
    + apply Z.leb_gt. lia.
  - apply Forall_cons in Hl as [Hp Hl]. destruct (is_done done (fence p)); cbn; [|apply Z.leb_gt; lia].
    apply IH; [lia|done|done].
Qed.

Lemma forallb_flat (done' : FenceId -> bool) (g : Point -> list FenceId) l :
  forallb done' (flat_map g l) = forallb (fun q => forallb done' (g q)) l.
Proof. induction l as [|q l IH]; [done|]. cbn. by rewrite forallb_app, IH. Qed.

Lemma forallb_eq {A} (f g : A -> bool) l : (forall x, f x = g x) -> forallb f l = forallb g l.
Proof. intros H. induction l as [|x l IH]; [done|]. cbn. by rewrite H, IH. Qed.

Lemma real_flat done l :
  Forall (fun q => real_fence (fence q)) l -> real (flat_map (fun q => pending done (fence q)) l).
Proof.
  induction 1 as [|q l Hq Hl IH]; [constructor|]. cbn. unfold real. rewrite Forall_app. split; [by apply real_pending|done].
Qed.

(** The fences of a run of links, taken together. *)
Lemma done_links done done' l :
  later done done' -> Forall (fun q => real_fence (fence q)) l ->
  is_done done' (from_ids (flat_map (fun q => pending done (fence q)) l)) = forallb (fun q => is_done done' (fence q)) l.
Proof.
  intros Hl Hr. rewrite done_from by by apply real_flat. rewrite forallb_flat. apply forallb_eq. intros q. by apply done_pending.
Qed.

Lemma sorted_last p q : wf p -> q ∈ chain p -> point q <= last_point p.
Proof.
  intros [Hs Hb _ _] Hq. unfold last_point. destruct (last (chain p)) as [z|] eqn:E.
  - apply last_Some in E as [l El]. rewrite El in Hs, Hq. apply elem_of_app in Hq as [Hq|Hq].
    + assert (before q z) by (eapply (StronglySorted_app_1_elem_of before); [exact Hs|done|left]). unfold before in *. lia.
    + apply list_elem_of_singleton in Hq as ->. lia.
  - apply last_None in E. rewrite E in Hq. by apply elem_of_nil in Hq.
Qed.

(** The lookup of a timeline point. *)
Lemma lookup_timeline done done' pt p :
  wf p -> 0 < pt -> later done done' ->
  match lookup done pt p with
  | NotSubmitted => last_point p < pt
  | Ready f => pt <= last_point p /\ is_done done' f = (pt <=? query done' p)
  end.
Proof.
  intros Hwf Hpt Hl. unfold lookup. rewrite (proj2 (Z.eqb_neq pt 0)) by lia.
  destruct (Z.leb_spec pt (base p)) as [Hb|Hb].
  - split.
    + unfold last_point. destruct (last (chain p)); lia.
    + symmetry. apply Z.leb_le. pose proof (query_from_max done' (base p) (chain p)). unfold query. lia.
  - destruct (position pt (chain p)) as [i|] eqn:E.
    + apply point_position_spec in E as (l1 & q & l2 & E & Hi & Hq & H1). split.
      * assert (point q <= last_point p); [|lia]. apply sorted_last; [done|]. rewrite E. set_solver.
      * unfold query. rewrite E, query_reaches by done.
        assert (take (S i) (l1 ++ q :: l2) = l1 ++ [q]) as ->.
        { rewrite <- Hi. replace (l1 ++ q :: l2) with ((l1 ++ [q]) ++ l2) by (by rewrite <- app_assoc).
          apply take_app_length'. rewrite length_app. cbn. lia. }
        apply done_links; [done|]. pose proof (wf_real p Hwf) as Hr. rewrite E in Hr.
        apply Forall_app in Hr as [Hr1 [Hr2 _]%Forall_cons]. apply Forall_app. split; [done|by constructor].
    + apply position_none in E. unfold last_point. destruct (last (chain p)) as [z|] eqn:El; [|lia].
      apply last_Some in El as [l El]. rewrite El, Forall_app in E. destruct E as [_ [E _]%Forall_cons]. lia.
Qed.

(** What a wait for a timeline point answers. *)
Definition timeline_answer (pt flags last reached : Z) : WaitState :=
  if last <? pt then (if negb (Z.land flags (Z.lor WAIT_FOR_SUBMIT WAIT_AVAILABLE) =? 0) then WPending else WInvalid)
  else if negb (Z.land flags WAIT_AVAILABLE =? 0) then WSignaled
  else if pt <=? reached then WSignaled else WPending.

Lemma wait_timeline done pt flags p :
  wf p -> 0 < pt -> wait_state done pt flags p = timeline_answer pt flags (last_point p) (query done p).
Proof.
  intros Hwf Hpt. pose proof (lookup_timeline done done pt p Hwf Hpt (reflexivity done)) as H.
  unfold wait_state, timeline_answer. destruct (lookup done pt p) as [|f].
  - by rewrite (proj2 (Z.ltb_lt _ _) H).
  - destruct H as [H1 H2]. by rewrite (proj2 (Z.ltb_ge _ _) H1), H2.
Qed.

(** Timelines only move forward. *)
Lemma query_mono done done' p : later done done' -> query done p <= query done' p.
Proof.
  intros H. unfold query. generalize (base p). induction (chain p) as [|q l IH]; intros v; cbn; [lia|].
  destruct (is_done done (fence q)) eqn:E; cbn.
  - rewrite (is_done_later done done' _ H E). cbn. apply IH.
  - destruct (is_done done' (fence q)); cbn; [|lia]. pose proof (query_from_max done' (Z.max v (point q)) l). lia.
Qed.

Lemma query_from_bound done v m l : v <= m -> (forall q, q ∈ l -> point q <= m) -> query_from done v l <= m.
Proof.
  revert v. induction l as [|q l IH]; intros v Hb Hq; cbn; [done|].
  destruct (is_done done (fence q)); cbn; [|done]. apply IH; [|intros; apply Hq; by right]. pose proof (Hq q ltac:(left)). lia.
Qed.

Lemma query_last done p : wf p -> query done p <= last_point p.
Proof.
  intros Hwf. apply query_from_bound; [|intros q; by apply sorted_last].
  unfold last_point. destruct (last (chain p)); lia.
Qed.

(** A wait on a timeline point answers as the timeline stands: EINVAL (or
    pending, if the caller waits for submission) when no submitted point
    reaches it, otherwise signalled exactly when every link up to it has
    signalled.  The fence that [lookup] takes out of the timeline, whenever it
    was taken, signals at exactly the moment the timeline reaches the point,
    and timelines never move back. *)
Theorem syncobj_wait_spec done done' pt flags p :
  wf p -> 0 < pt -> later done done' ->
  wait_state done' pt flags p = timeline_answer pt flags (last_point p) (query done' p)
  /\ query done p <= query done' p <= last_point p
  /\ match lookup done pt p with
     | NotSubmitted => last_point p < pt
     | Ready f => pt <= last_point p /\ is_done done' f = (pt <=? query done' p)
     end.
Proof.
  intros Hwf Hpt Hl. split; [by apply wait_timeline|]. split; [|by apply lookup_timeline].
  split; [by apply query_mono|by apply query_last].
Qed.

(** Points 1 and 5 of a timeline, fence 7 signalled and fence 9 not yet. *)
Definition demo_line : Payload := mkPayload [mkPoint 1 (One 7); mkPoint 5 (All [7; 9])] 0.
Definition demo_done (f : FenceId) : bool := f =? 7.

Lemma demo_line_wf : wf demo_line.
Proof. split; repeat constructor; cbn; try done; lia. Qed.

Lemma syncobj_wait_spec_witness :
  wait_state (fun _ => true) 3 0 demo_line = timeline_answer 3 0 (last_point demo_line) (query (fun _ => true) demo_line)
  /\ query demo_done demo_line <= query (fun _ => true) demo_line <= last_point demo_line
  /\ match lookup demo_done 3 demo_line with
     | NotSubmitted => last_point demo_line < 3
     | Ready f => 3 <= last_point demo_line /\ is_done (fun _ => true) f = (3 <=? query (fun _ => true) demo_line)
     end.
Proof. apply (syncobj_wait_spec demo_done (fun _ => true) 3 0 demo_line); [exact demo_line_wf|lia|done]. Defined.

Example demo_wait : (query demo_done demo_line, wait_state demo_done 3 0 demo_line, lookup demo_done 3 demo_line)
  = (1, WPending, Ready (One 9)).
Proof. vm_compute. reflexivity. Qed.

(** ** Collecting the signalled prefix *)
Lemma gc_loop_split done b l :
  exists l1 l2, l = l1 ++ l2 /\ chain (gc_loop done b l) = l2
    /\ Forall (fun q => 0 < point q /\ is_done done (fence q) = true) l1
    /\ base (gc_loop done b l) = foldl (fun b q => Z.max b (point q)) b l1
    /\ match l2 with [] => True | q :: _ => point q <= 0 \/ is_done done (fence q) = false end.
Proof.
  revert b. induction l as [|q l IH]; intros b; cbn [gc_loop]; [by exists [], []|].
  destruct (Z.ltb_spec 0 (point q)) as [Hp|Hp]; cbn [andb].
  - destruct (is_done done (fence q)) eqn:E.
    + destruct (IH (Z.max b (point q))) as (l1 & l2 & -> & H1 & H2 & H3 & H4). exists (q :: l1), l2. split; [done|]. split; [done|].
      split; [by constructor|done].
    + exists [], (q :: l). repeat (split; [done|]). by right.
  - exists [], (q :: l). repeat (split; [done|]). by left.
Qed.

Lemma query_gc done done' b l :
  later done done' -> query_from done' (base (gc_loop done b l)) (chain (gc_loop done b l)) = query_from done' b l.
Proof.
  intros H. revert b. induction l as [|q l IH]; intros b; [done|]. cbn [gc_loop].
  destruct ((0 <? point q) && is_done done (fence q)) eqn:E; [|done]. apply andb_true_iff in E as [_ E].
  rewrite IH. cbn [query_from]. by rewrite (is_done_later done done' _ H E).
Qed.

Lemma foldl_max_app b l1 q : foldl (fun b p => Z.max b (point p)) b (l1 ++ [q]) = Z.max (foldl (fun b p => Z.max b (point p)) b l1) (point q).
Proof. by rewrite foldl_app. Qed.

Lemma foldl_max_sorted b l1 z :
  Forall (fun p => point p < z) l1 -> b <= foldl (fun b p => Z.max b (point p)) b l1 <= Z.max b z.
Proof. intros H. revert b. induction H as [|q l Hq Hl IH]; intros b; cbn; [lia|]. specialize (IH (Z.max b (point q))). lia. Qed.

Lemma last_point_gc done p : wf p -> last_point (gc done p) = last_point p.
Proof.
  intros [Hs _ _ _]. unfold gc, last_point. destruct (gc_loop_split done (base p) (chain p)) as (l1 & l2 & E & -> & H1 & -> & _).
  rewrite E in Hs |- *. destruct l2 as [|q l2] using rev_ind.
  - rewrite app_nil_r in *. cbn [last]. destruct l1 as [|q l1 _] using rev_ind; [done|].
    rewrite last_snoc, foldl_max_app. apply StronglySorted_app in Hs as (Hs & _ & _).
    assert (Forall (fun p => point p < point q) l1) as Hf by (apply Forall_forall; intros x Hx; apply (Hs x q Hx); left).
    pose proof (foldl_max_sorted (base p) l1 (point q) Hf). lia.
  - rewrite app_assoc, !last_snoc. apply StronglySorted_app in Hs as (Hs & _ & _).
    assert (Forall (fun p => point p < point q) l1) as Hf by (apply Forall_forall; intros x Hx; apply (Hs x q Hx); set_solver).
    pose proof (foldl_max_sorted (base p) l1 (point q) Hf). lia.
Qed.

Lemma gc_wf done p : wf p -> wf (gc done p).
Proof.
  intros [Hs Hb Hp Hr]. unfold gc. destruct (gc_loop_split done (base p) (chain p)) as (l1 & l2 & E & H1 & H2 & H3 & _).
  rewrite E in Hs, Hp, Hr. apply StronglySorted_app in Hs as (_ & _ & Hs). apply Forall_app in Hp as [_ Hp]. apply Forall_app in Hr as [_ Hr].
  split; rewrite ?H1, ?H3; try done. clear -Hb. revert Hb. generalize (base p). induction l1 as [|q l IH]; intros b Hb; cbn; [done|].
  apply IH. lia.
Qed.

(** The binary view of a payload, before and after a collection. *)
Lemma head_gc done done' flags p : wf p -> later done done' -> wait_state done' 0 flags (gc done p) = wait_state done' 0 flags p.
Proof.
  intros Hwf Hl. unfold wait_state, lookup, head. cbn [Z.eqb]. unfold gc.
  destruct (gc_loop_split done (base p) (chain p)) as (l1 & l2 & -> & -> & H1 & -> & _).
  destruct l2 as [|q l2 _] using rev_ind; [|by rewrite app_assoc, !last_snoc].
  rewrite app_nil_r. cbn [last]. destruct l1 as [|q l1 _] using rev_ind; [done|].
  rewrite last_snoc, foldl_max_app. apply Forall_app in H1 as [_ [[Hq Hd] _]%Forall_cons].
  rewrite (proj2 (Z.ltb_lt 0 _)) by lia. cbn [is_done]. by rewrite (is_done_later done done' _ Hl Hd).
Qed.

(** Collecting the signalled prefix of a timeline changes no answer: now and
    at any later moment every wait (binary or for a point, with any flags), the
    point reached and the last point submitted are what they would have been,
    and the payload stays well formed.  A collected chain starts with a link that
    still matters: a pending one, or a point-0 link. *)
Theorem syncobj_gc_spec done done' pt flags p :
  wf p -> 0 <= pt -> later done done' ->
  wf (gc done p) /\ wait_state done' pt flags (gc done p) = wait_state done' pt flags p
  /\ query done' (gc done p) = query done' p /\ last_point (gc done p) = last_point p
  /\ match chain (gc done p) with [] => True | q :: _ => point q = 0 \/ is_done done (fence q) = false end.
Proof.
  intros Hwf Hpt Hl. pose proof (gc_wf done p Hwf) as Hg. split; [done|].
  assert (query done' (gc done p) = query done' p) as Hq by by apply query_gc.
  split; [|split; [done|split; [by apply last_point_gc|]]].
  - destruct (decide (pt = 0)) as [->|Hne]; [by apply head_gc|]. rewrite !wait_timeline by (done || lia).
    by rewrite Hq, last_point_gc.
  - pose proof (wf_points _ Hg) as Hp. unfold gc in *.
    destruct (gc_loop_split done (base p) (chain p)) as (l1 & l2 & _ & E & _ & _ & H). rewrite E in *.
    destruct l2 as [|q l2]; [done|]. apply Forall_cons in Hp as [Hp _]. destruct H; [left; lia|by right].
Qed.

Lemma syncobj_gc_spec_witness :
  wf (gc demo_done demo_line) /\ wait_state (fun _ => true) 5 0 (gc demo_done demo_line) = wait_state (fun _ => true) 5 0 demo_line
  /\ query (fun _ => true) (gc demo_done demo_line) = query (fun _ => true) demo_line
  /\ last_point (gc demo_done demo_line) = last_point demo_line
  /\ match chain (gc demo_done demo_line) with [] => True | q :: _ => point q = 0 \/ is_done demo_done (fence q) = false end.
Proof. apply (syncobj_gc_spec demo_done (fun _ => true) 5 0 demo_line); [exact demo_line_wf|lia|done]. Defined.

(** ** Adding points *)
Fixpoint put (pt : Z) (f : Fence) (l : list Point) : list Point :=
  match l with
  | [] => [mkPoint pt f]
  | q :: l =>
      if point q =? pt then mkPoint pt f :: l
      else if pt <? point q then mkPoint pt f :: q :: l
      else q :: put pt f l
  end.

Lemma add_point_put pt f p : add_point pt f p = mkPayload (put pt f (chain p)) (base p).
Proof.
  assert (forall l, match search pt l with
                    | Ok i => alter (fun q => mkPoint (point q) f) i l = put pt f l
                    | Err i => take i l ++ mkPoint pt f :: drop i l = put pt f l
                    end) as H.
  { induction l as [|q l IH]; [done|]. cbn [search put]. destruct (Z.eqb_spec (point q) pt) as [E|E]; [cbn; by rewrite E|].
    destruct (pt <? point q); [done|]. destruct (search pt l) as [i|i]; cbn; by rewrite <- IH. }
  unfold add_point. specialize (H (chain p)). destruct (search pt (chain p)); by rewrite H.
Qed.

Lemma put_In pt f l q : StronglySorted before l -> q ∈ put pt f l <-> q = mkPoint pt f \/ (q ∈ l /\ point q <> pt).
Proof.
  induction l as [|x l IH]; intros Hs; cbn [put]; [set_solver|]. apply StronglySorted_cons in Hs as [Hx Hs].
  rewrite Forall_forall in Hx. unfold before in Hx. rewrite elem_of_cons. destruct (Z.eqb_spec (point x) pt) as [E|E].
  - rewrite elem_of_cons. split; [|naive_solver]. intros [->|H]; [by left|right]. specialize (Hx q H). split; [by right|lia].
  - destruct (Z.ltb_spec pt (point x)) as [Hl|Hl]; rewrite !elem_of_cons.
    + split; [|naive_solver]. intros [->|[->|H]]; [by left|right; split; [by left|done]|right]. specialize (Hx q H). split; [by right|lia].
    + rewrite IH by done. split; [|naive_solver]. intros [->|[H|H]]; [right; split; [by left|done]|by left|right]. split; [right; apply H|apply H].
Qed.

Lemma put_sorted pt f l : StronglySorted before l -> StronglySorted before (put pt f l).
Proof.
  induction l as [|x l IH]; intros Hs; cbn [put]; [by repeat constructor|].
  pose proof Hs as Hs'. apply StronglySorted_cons in Hs as [Hx Hs]. unfold before in *. rewrite Forall_forall in Hx.
  destruct (Z.eqb_spec (point x) pt) as [E|E].
  - apply StronglySorted_cons. split; [|done]. apply Forall_forall. intros q Hq. cbn. specialize (Hx q Hq). lia.
  - destruct (Z.ltb_spec pt (point x)) as [Hl|Hl]; apply StronglySorted_cons; (split; [|done || by apply IH]); apply Forall_forall; intros q Hq.
    + cbn. apply elem_of_cons in Hq as [->|Hq]; [done|]. specialize (Hx q Hq). lia.
    + apply put_In in Hq as [->|[Hq _]]; [cbn; lia|by apply Hx|done].
Qed.

Lemma add_point_wf pt f p : wf p -> 0 <= pt -> real_fence f -> wf (add_point pt f p).
Proof.
  intros [Hs Hb Hp Hr] Hpt Hf. rewrite add_point_put. split; cbn; [by apply put_sorted|done| |];
    apply Forall_forall; intros q Hq; apply (put_In pt f _ _ Hs) in Hq as [->|[Hq _]]; try done.
  - rewrite Forall_forall in Hp. by apply Hp.
  - rewrite Forall_forall in Hr. by apply Hr.
Qed.

(** A point submitted in order goes to the end of the chain. *)
Lemma put_end pt f l : Forall (fun q => point q < pt) l -> put pt f l = l ++ [mkPoint pt f].
Proof.
  induction 1 as [|q l Hq Hl IH]; [done|]. cbn [put]. rewrite (proj2 (Z.eqb_neq (point q) pt)), (proj2 (Z.ltb_ge pt (point q))) by lia.
  by rewrite IH.
Qed.

Lemma chain_below p pt : wf p -> last_point p < pt -> Forall (fun q => point q < pt) (chain p).
Proof. intros Hwf Hl. apply Forall_forall. intros q Hq. pose proof (sorted_last p q Hwf Hq). lia. Qed.

Lemma query_app done v l q :
  query_from done v (l ++ [q])
  = if forallb (fun p => is_done done (fence p)) (l ++ [q]) then Z.max (query_from done v l) (point q) else query_from done v l.
Proof.
  revert v. induction l as [|x l IH]; intros v; cbn; [rewrite andb_true_r; by destruct (is_done _ _)|].
  destruct (is_done done (fence x)); cbn; [apply IH|done].
Qed.

Lemma query_all done p : wf p -> forallb (fun q => is_done done (fence q)) (chain p) = true -> query done p = last_point p.
Proof.
  intros Hwf. pose proof (query_last done p Hwf). pose proof (query_from_max done (base p) (chain p)). unfold query, last_point in *.
  destruct (chain p) as [|q l _] using rev_ind; [done|]. rewrite last_snoc in *. rewrite query_app in *. intros Ha. rewrite Ha in *.
  lia.
Qed.

(** Submitting the next point of a timeline leaves every earlier answer
    alone: waits for points up to the old last point answer as before, the new
    point becomes the last one, and it is reached exactly when every link
    before it and its own fence have signalled.  Points in any order keep the
    chain sorted and free of duplicates; a point submitted twice takes the new
    fence. *)
Theorem syncobj_add_spec done pt f flags p :
  wf p -> 0 < pt -> real_fence f ->
  wf (add_point pt f p)
  /\ (forall q, q ∈ chain (add_point pt f p) <-> q = mkPoint pt f \/ (q ∈ chain p /\ point q <> pt))
  /\ (last_point p < pt ->
      last_point (add_point pt f p) = pt
      /\ (forall k, 0 < k <= last_point p -> wait_state done k flags (add_point pt f p) = wait_state done k flags p)
      /\ (pt <=? query done (add_point pt f p))
         = forallb (fun q => is_done done (fence q)) (chain p) && is_done done f).
Proof.
  intros Hwf Hpt Hf. pose proof (add_point_wf pt f p Hwf ltac:(lia) Hf) as Hwf'. split; [done|].
  split; [intros q; rewrite add_point_put; apply put_In, Hwf|]. intros Hl.
  pose proof (chain_below p pt Hwf Hl) as Hb. rewrite add_point_put, put_end in * by done.
  assert (query done p <= last_point p) as Hq by by apply query_last.
  assert (last_point (mkPayload (chain p ++ [mkPoint pt f]) (base p)) = pt) as Hlast.
  { unfold last_point in Hl |- *. cbn. rewrite last_snoc. cbn. destruct (last (chain p)); lia. }
  assert (query done (mkPayload (chain p ++ [mkPoint pt f]) (base p))
    = if forallb (fun q => is_done done (fence q)) (chain p) && is_done done f then pt else query done p) as Hqa.
  { unfold query in *. cbn [chain base]. rewrite query_app, forallb_app. cbn. rewrite andb_true_r. destruct (_ && _); [|done]. lia. }
  split; [done|]. split.
  - intros k Hk. rewrite !wait_timeline by (done || lia). rewrite Hlast, Hqa. unfold timeline_answer.
    destruct (Z.ltb_spec pt k); [lia|]. destruct (Z.ltb_spec (last_point p) k); [lia|].
    destruct (forallb _ _ && _) eqn:Ea; [|done]. apply andb_true_iff in Ea as [Ea _].
    rewrite (query_all done p Hwf Ea). destruct (Z.leb_spec k pt); [|lia].
    by rewrite (proj2 (Z.leb_le k (last_point p))) by lia.
  - rewrite Hqa. destruct (_ && _); [apply Z.leb_refl|]. apply Z.leb_gt. lia.
Qed.

Lemma syncobj_add_spec_witness :
  wf (add_point 9 (One 3) demo_line)
  /\ (forall q, q ∈ chain (add_point 9 (One 3) demo_line) <-> q = mkPoint 9 (One 3) \/ (q ∈ chain demo_line /\ point q <> 9))
  /\ (last_point demo_line < 9 ->
      last_point (add_point 9 (One 3) demo_line) = 9
      /\ (forall k, 0 < k <= last_point demo_line -> wait_state demo_done k 0 (add_point 9 (One 3) demo_line) = wait_state demo_done k 0 demo_line)
      /\ (9 <=? query demo_done (add_point 9 (One 3) demo_line))
         = forallb (fun q => is_done demo_done (fence q)) (chain demo_line) && is_done demo_done (One 3)).
Proof. apply (syncobj_add_spec demo_done 9 (One 3) 0 demo_line); [exact demo_line_wf|lia|]. by repeat constructor. Defined.

(** *** A timeline that began as a binary payload *)
Lemma gc_stops done p q l : chain p = q :: l -> point q = 0 -> gc done p = p.
Proof. intros E Hq. destruct p as [c b]. cbn in E. subst c. unfold gc. cbn. by rewrite Hq. Qed.

(** The timeline signal path of the driver: add a signalled point, collect. *)
Definition signal_points (n : nat) (p : Payload) : Payload :=
  foldl (fun p k => gc (fun _ => true) (add_point (Z.of_nat k) Signaled p)) p (seq 1 n).

Lemma signal_points_chain n :
  signal_points n signaled = mkPayload (mkPoint 0 Signaled :: map (fun k => mkPoint (Z.of_nat k) Signaled) (seq 1 n)) 0.
Proof.
  induction n as [|n IH]; [done|]. unfold signal_points in *. rewrite seq_S, foldl_app, IH, map_app. cbn [foldl map].
  rewrite add_point_put. cbn [chain base]. rewrite put_end.
  - by rewrite (gc_stops _ _ (mkPoint 0 Signaled) (map (fun k => mkPoint (Z.of_nat k) Signaled) (seq 1 n) ++ [mkPoint (Z.of_nat (1 + n)) Signaled])).
  - constructor; [cbn; lia|]. apply Forall_forall. intros q Hq. apply list_elem_of_In, in_map_iff in Hq as (k & <- & Hk). cbn.
    apply in_seq in Hk. lia.
Qed.

Lemma stub_In m n q : q ∈ map (fun k => mkPoint (Z.of_nat k) Signaled) (seq m n) -> Z.of_nat m <= point q /\ fence q = Signaled.
Proof. intros Hq. apply list_elem_of_In, in_map_iff in Hq as (k & <- & Hk). apply in_seq in Hk. cbn. split; [lia|done]. Qed.

Lemma stubs_sorted m n : StronglySorted before (map (fun k => mkPoint (Z.of_nat k) Signaled) (seq m n)).
Proof.
  revert m. induction n as [|n IH]; intros m; [constructor|]. cbn. apply StronglySorted_cons. split; [|apply IH].
  apply Forall_forall. intros q [Hq _]%stub_In. unfold before. cbn. lia.
Qed.

Lemma signal_points_wf n : wf (signal_points n signaled).
Proof.
  rewrite signal_points_chain. split; cbn; [|done| |].
  - apply StronglySorted_cons. split; [|apply stubs_sorted]. apply Forall_forall. intros q [Hq _]%stub_In. unfold before. cbn. lia.
  - constructor; [done|]. apply Forall_forall. intros q [Hq _]%stub_In. lia.
  - constructor; [constructor|]. apply Forall_forall. intros q [_ Hq]%stub_In. rewrite Hq. constructor.
Qed.

(** C40: A sync object created signalled and then driven as a timeline is never
    collected: the point-0 link at the front of its chain stops [gc], so after
    [n] signalled points it still holds all [n + 1] links, however many have
    been reached. *)
Theorem binary_start_never_collected n :
  length (chain (gc (fun _ => true) (signal_points n signaled))) = S n
  /\ query (fun _ => true) (signal_points n signaled) = last_point (signal_points n signaled).
Proof.
  split; [|apply query_all; [apply signal_points_wf|]]; rewrite signal_points_chain.
  - rewrite (gc_stops _ (mkPayload (mkPoint 0 Signaled :: map (fun k => mkPoint (Z.of_nat k) Signaled) (seq 1 n)) 0) _ _ eq_refl eq_refl).
    cbn. by rewrite length_map, length_seq.
  - cbn. apply forallb_forall. intros q Hq. apply list_elem_of_In, stub_In in Hq as [_ Hq]. by rewrite Hq.
Qed.

(** ** Reservation objects *)
Lemma push_new_In v ids f : f ∈ push_new v ids <-> f ∈ v \/ f ∈ ids.
Proof.
  revert v. induction ids as [|x ids IH]; intros v; cbn [push_new foldl]; [set_solver|]. fold (push_new (if negb (contains v x) then v ++ [x] else v) ids).
  rewrite IH. destruct (contains v x) eqn:E; cbn [negb].
  - apply existsb_exists in E as (y & Hy & Ey). apply Z.eqb_eq in Ey as <-. apply list_elem_of_In in Hy. set_solver.
  - set_solver.
Qed.

Lemma forallb_push (d : FenceId -> bool) v ids : forallb d (push_new v ids) = forallb d v && forallb d ids.
Proof. rewrite <- forallb_app. apply forallb_ext_In. intros f. rewrite push_new_In. set_solver. Qed.

Definition resv_real (r : Resv) : Prop := real (write r) /\ real (read r).

Lemma real_push v ids : real v -> real ids -> real (push_new v ids).
Proof. unfold real. rewrite !Forall_forall. intros H1 H2 f [H|H]%push_new_In; auto. Qed.

Lemma real_filter (g : FenceId -> bool) l : real l -> real (List.filter g l).
Proof. unfold real. rewrite !Forall_forall. intros H f Hf. rewrite list_elem_of_In, filter_In, <- list_elem_of_In in Hf. naive_solver. Qed.

(** What a user of kind [flags] waits for. *)
Definition waits_for (d : FenceId -> bool) (flags : Z) (r : Resv) : bool :=
  forallb d (write r) && (if is_writer flags then forallb d (read r) else true).

Lemma export_waits done done' flags r :
  resv_real r -> later done done' -> is_done done' (resv_export done flags r) = waits_for done' flags r.
Proof.
  intros [Hw Hr] Hl. unfold resv_export, waits_for. destruct (is_writer flags).
  - rewrite done_from by (apply Forall_app; split; by apply real_filter). by rewrite forallb_app, !forallb_pending.
  - rewrite done_from by by apply real_filter. by rewrite forallb_pending, andb_true_r.
Qed.

Lemma resv_add_real done f flags r : resv_real r -> real_fence f -> resv_real (resv_add done f flags r).
Proof.
  intros [Hw Hr] Hf. pose proof (real_pending done f Hf). unfold resv_add. destruct (is_writer flags); split; cbn; try done; by apply real_push.
Qed.

(** Implicit synchronisation of a shared buffer: a sync file exported for a
    user of one kind signals, then or later, exactly when all the writers have
    (and, for a writer, all the readers too).  Importing a fence makes exactly
    the conflicting later users wait for it as well: everybody for a write
    fence, only writers for a read fence.  Collecting signalled fences changes
    no answer, and merging two fences waits for both. *)
Theorem resv_sync_spec done done' f g flags flags' r :
  resv_real r -> real_fence f -> real_fence g -> later done done' ->
  is_done done' (resv_export done flags r) = waits_for done' flags r
  /\ waits_for done' flags (resv_add done f flags' r)
     = waits_for done' flags r && (if is_writer flags' || is_writer flags then is_done done' f else true)
  /\ waits_for done' flags (resv_gc done r) = waits_for done' flags r
  /\ is_done done' (merge done f g) = is_done done' f && is_done done' g.
Proof.
  intros Hr Hf Hg Hl. split; [by apply export_waits|]. split; [|split].
  - unfold waits_for, resv_add. rewrite <- (done_pending done done' f Hl).
    destruct (is_writer flags'), (is_writer flags); cbn; rewrite ?forallb_push, ?andb_true_r;
      repeat match goal with |- context [forallb ?d ?l] => destruct (forallb d l) end; done.
  - unfold waits_for, resv_gc. cbn. by rewrite !forallb_pending.
  - unfold merge. rewrite done_from by (apply Forall_app; split; by apply real_pending). by rewrite forallb_app, !done_pending.
Qed.

Lemma resv_sync_spec_witness :
  is_done (fun _ => true) (resv_export demo_done 1 (mkResv [4] [7; 8])) = waits_for (fun _ => true) 1 (mkResv [4] [7; 8])
  /\ waits_for (fun _ => true) 1 (resv_add demo_done (One 9) 2 (mkResv [4] [7; 8]))
     = waits_for (fun _ => true) 1 (mkResv [4] [7; 8]) && (if is_writer 2 || is_writer 1 then is_done (fun _ => true) (One 9) else true)
  /\ waits_for (fun _ => true) 1 (resv_gc demo_done (mkResv [4] [7; 8])) = waits_for (fun _ => true) 1 (mkResv [4] [7; 8])
  /\ is_done (fun _ => true) (merge demo_done (One 9) (All [7; 8])) = is_done (fun _ => true) (One 9) && is_done (fun _ => true) (All [7; 8]).
Proof. apply (resv_sync_spec demo_done (fun _ => true) (One 9) (All [7; 8]) 1 2 (mkResv [4] [7; 8])); try done; repeat constructor; done. Defined.

(** A sync object exports nothing exactly when it is the NULL fence, and
    otherwise the conjunction of its links. *)
Theorem syncobj_export_spec done done' p :
  wf p -> later done done' ->
  match syncobj_export done (chain p) (base p) with
  | None => is_null p = true
  | Some f => is_null p = false /\ is_done done' f = forallb (fun q => is_done done' (fence q)) (chain p)
  end.
Proof.
  intros Hwf Hl. unfold syncobj_export, is_null. destruct (_ && _); [done|]. split; [done|]. apply done_links; [done|apply Hwf].
Qed.
