(* ===== verification/Ofd.v ===== *)
(** * Open file descriptions

    Models [src/servers/vfs/src/ofd.rs]: the table of reference-counted
    descriptions that file descriptors and epoll interests name by id.  An id
    is a slot number with a generation, so that a stale id does not match the
    slot's next user.  Whether the vector can grow is the allocator's answer,
    the argument [reserve_ok]; the release hook is the value that [put] returns
    (the id to hand to it).  The one-time report of a full table is left out.

    The table implements a finite map from ids to reference counts ([count]); the
    theorems state every operation against it. *)
From S2P Require Import Prelude.

Definition IDX_BITS : Z := 20.
Definition MAX_OFDS : Z := Z.shiftl 1 IDX_BITS.
Definition IDX_MASK : Z := Z.shiftl 1 IDX_BITS - 1.
Definition GEN_MASK : Z := Z.shiftl 1 (32 - IDX_BITS) - 1.
Definition OFD_GROW : Z := 1024.

Record Slot := mkSlot { refs : Z; gen : Z; watched : bool }.
Record Table := mkTable { s : list Slot; cursor : nat; live_count : Z }.

Definition new : Table := mkTable [] 0 0.

Definition split (id : Z) : option (nat * Z) :=
  let idx := Z.to_nat (Z.land id IDX_MASK) in
  if (id =? 0) || (idx =? 0)%nat then None else Some (idx, Z.shiftr id IDX_BITS).

Definition free_slot : Slot := mkSlot 0 0 false.

(** Slot 0 is made busy forever, and the table grows when all its slots are. *)
Definition ensure_first (reserve_ok : nat -> bool) (t : Table) : option Table :=
  if (length (s t) =? 0)%nat then
    if negb (reserve_ok O) then None
    else Some (mkTable [mkSlot U32_MAX 0 false] (cursor t) (live_count t))
  else Some t.
Definition grow (reserve_ok : nat -> bool) (t : Table) : Table :=
  let n := Z.of_nat (length (s t)) in
  if (n <=? live_count t + 1) && (n <? MAX_OFDS) && reserve_ok (length (s t)) then
    let m := Z.min (n + OFD_GROW) MAX_OFDS in
    mkTable (s t ++ replicate (Z.to_nat (m - n)) free_slot) (cursor t) (live_count t)
  else t.

Definition bump (n i : nat) : nat := if (n <=? i + 1)%nat then 1%nat else (i + 1)%nat.

(** The next-fit scan; it comes back to [start] after at most [n] slots. *)
Fixpoint scan (fuel : nat) (sl : list Slot) (n start i : nat) : option nat :=
  match fuel with
  | O => None
  | S f =>
      match sl !! i with
      | None => None
      | Some e =>
          if refs e =? 0 then Some i
          else let i := bump n i in if (i =? start)%nat then None else scan f sl n start i
      end
  end.

Definition make_id (i : nat) (g : Z) : Z := Z.lor (Z.shiftl g IDX_BITS) (Z.of_nat i).

Definition alloc (reserve_ok : nat -> bool) (t : Table) : Z * Table :=
  match ensure_first reserve_ok t with
  | None => (0, t)
  | Some t =>
      let t := grow reserve_ok t in
      let n := length (s t) in
      if (1 <? n)%nat then
        let start := if (1 <=? cursor t)%nat && (cursor t <? n)%nat then cursor t else 1%nat in
        match scan n (s t) n start start with
        | Some i =>
            let g := default 0 (gen <$> s t !! i) in
            (make_id i g,
             mkTable (alter (fun e => mkSlot 1 (gen e) false) i (s t)) (bump n i) (live_count t + 1))
        | None => (0, t)
        end
      else (0, t)
  end.

(** The live slot an id names. *)
Definition named (t : Table) (id : Z) : option (nat * Slot) :=
  '(i, g) ← split id;
  e ← s t !! i;
  if (gen e =? g) && negb (refs e =? 0) then Some (i, e) else None.

Definition get (id : Z) (t : Table) : Table :=
  match named t id with
  | Some (i, e) => mkTable (<[i := mkSlot (wrap32 (refs e + 1)) (gen e) (watched e)]> (s t)) (cursor t) (live_count t)
  | None => t
  end.

Definition put_deferred (id : Z) (t : Table) : (bool * bool) * Table :=
  match split id with
  | None => ((true, false), t)
  | Some _ =>
      match named t id with
      | None => ((false, false), t)
      | Some (i, e) =>
          if negb (refs e - 1 =? 0)
          then ((false, false), mkTable (<[i := mkSlot (refs e - 1) (gen e) (watched e)]> (s t)) (cursor t) (live_count t))
          else ((true, watched e),
                mkTable (<[i := mkSlot 0 (Z.land (gen e + 1) GEN_MASK) false]> (s t)) (cursor t) (live_count t - 1))
      end
  end.

(** [put]: the id to release, if the last reference of a watched description
    went. *)
Definition put (id : Z) (t : Table) : option Z * Table :=
  let '((_, w), t) := put_deferred id t in (if w then Some id else None, t).

Definition shared (id : Z) (t : Table) : bool :=
  match split id with
  | Some (i, g) => match s t !! i with Some e => (gen e =? g) && (1 <? refs e) | None => false end
  | None => false
  end.
Definition live (id : Z) (t : Table) : bool :=
  match split id with
  | Some (i, g) => match s t !! i with Some e => (gen e =? g) && negb (refs e =? 0) | None => false end
  | None => false
  end.

Definition mark_watched (id : Z) (t : Table) : bool * Table :=
  match named t id with
  | Some (i, e) => (true, mkTable (<[i := mkSlot (refs e) (gen e) true]> (s t)) (cursor t) (live_count t))
  | None => (false, t)
  end.

Definition census (t : Table) : Z * nat := (live_count t, length (s t)).

(** ** Ids *)
Lemma lor_disjoint g i : 0 <= i < 2 ^ 20 -> Z.lor (Z.shiftl g 20) i = g * 2 ^ 20 + i.
Proof.
  intros Hi. rewrite <- Z.shiftl_mul_pow2 by lia. rewrite Z.add_nocarry_lxor, <- Z.lxor_lor; [done| |];
    apply Z.bits_inj'; intros n Hn; rewrite Z.land_spec, Z.bits_0;
    (destruct (Z.lt_ge_cases n 20); [by rewrite Z.shiftl_spec_low|]);
    rewrite (Z.bits_above_log2 i), andb_false_r; try lia;
    (destruct (Z.eq_dec i 0) as [->|]; [cbn; lia|]; pose proof (Z.log2_lt_pow2 i 20); lia).
Qed.

Lemma make_id_sum i g : Z.of_nat i < 2 ^ 20 -> make_id i g = g * 2 ^ 20 + Z.of_nat i.
Proof. intros Hi. apply lor_disjoint. lia. Qed.

Lemma split_make i g : (0 < i)%nat -> Z.of_nat i < 2 ^ 20 -> 0 <= g -> split (make_id i g) = Some (i, g).
Proof.
  intros Hi Hlt Hg. rewrite make_id_sum by done. unfold split. change IDX_MASK with (Z.ones 20). rewrite Z.land_ones by lia.
  rewrite Z.add_comm, Z.mod_add, Z.mod_small by lia. unfold IDX_BITS. rewrite Z.shiftr_div_pow2, Z.div_add, Z.div_small by lia.
  destruct (Z.eqb_spec (Z.of_nat i + g * 2 ^ 20) 0); [lia|]. rewrite Nat2Z.id. destruct (Nat.eqb_spec i 0); [lia|]. done.
Qed.

Lemma split_inv id i g : 0 <= id -> split id = Some (i, g) -> (0 < i)%nat /\ Z.of_nat i < 2 ^ 20 /\ 0 <= g /\ id = make_id i g.
Proof.
  intros Hid. unfold split. change IDX_MASK with (Z.ones 20). unfold IDX_BITS. rewrite Z.land_ones, Z.shiftr_div_pow2 by lia.
  pose proof (Z.mod_pos_bound id (2 ^ 20) ltac:(lia)). pose proof (Z.div_mod id (2 ^ 20) ltac:(lia)).
  pose proof (Z.div_pos id (2 ^ 20) Hid ltac:(lia)).
  destruct (id =? 0); cbn [orb]; [done|]. destruct (Nat.eqb_spec (Z.to_nat (id mod 2 ^ 20)) 0); [done|]. intros [= <- <-].
  split; [lia|]. split; [lia|]. split; [done|]. rewrite make_id_sum; lia.
Qed.

(** ** The map the table implements *)
Definition count (t : Table) (id : Z) : option (Z * bool) := (fun '(_, e) => (refs e, watched e)) <$> named t id.

Definition busy (e : Slot) : bool := negb (refs e =? 0).

Record wf (t : Table) : Prop := {
  wf_slots : Forall (fun e => 0 <= refs e <= U32_MAX /\ 0 <= gen e < 2 ^ 12) (s t);
  wf_len : Z.of_nat (length (s t)) <= MAX_OFDS;
  wf_first : forall e, s t !! 0%nat = Some e -> busy e = true;
  wf_live : countb busy (s t) = if bool_decide (s t = []) then 0 else live_count t + 1;
  wf_zero : s t = [] -> live_count t = 0 }.

Lemma named_spec t id i e :
  0 <= id -> named t id = Some (i, e) <->
  s t !! i = Some e /\ busy e = true /\ (0 < i)%nat /\ Z.of_nat i < 2 ^ 20 /\ 0 <= gen e /\ id = make_id i (gen e).
Proof.
  intros Hid. unfold named. split.
  - intros H. apply bind_Some in H as ([j g] & Hs & H). apply bind_Some in H as (e' & He & H).
    destruct (_ && _) eqn:E; [|done]. injection H as -> ->. apply andb_true_iff in E as [E1 E2]. apply Z.eqb_eq in E1 as <-.
    apply split_inv in Hs as (H1 & H2 & H3 & H4); done.
  - intros (He & Hb & Hi & Hlt & Hg & ->). rewrite split_make by done. cbn. rewrite He. cbn. rewrite Z.eqb_refl. unfold busy in Hb. by rewrite Hb.
Qed.

(** Writing one slot moves only the ids of that slot. *)
Lemma count_other t t' i id :
  0 <= id -> (forall j, j <> i -> s t' !! j = s t !! j) ->
  (forall e, s t !! i = Some e -> busy e = true -> id <> make_id i (gen e)) ->
  (forall e, s t' !! i = Some e -> busy e = true -> id <> make_id i (gen e)) ->
  count t' id = count t id.
Proof.
  intros Hid Hs Hn Hn'. unfold count. f_equal. apply option_eq. intros [j e]. rewrite !named_spec by done.
  destruct (decide (j = i)) as [->|Hj].
  - split; intros (H1 & H2 & _ & _ & _ & H3); [by destruct (Hn' e H1 H2)|by destruct (Hn e H1 H2)].
  - by rewrite (Hs j Hj).
Qed.

Lemma count_at t i e : s t !! i = Some e -> busy e = true -> (0 < i)%nat -> Z.of_nat i < 2 ^ 20 -> 0 <= gen e ->
  count t (make_id i (gen e)) = Some (refs e, watched e).
Proof.
  intros He Hb Hi Hlt Hg. assert (0 <= make_id i (gen e)) as Hid by (rewrite make_id_sum by done; lia).
  unfold count. by rewrite (proj2 (named_spec t (make_id i (gen e)) i e Hid)).
Qed.

Lemma make_id_inj i j g h : Z.of_nat i < 2 ^ 20 -> Z.of_nat j < 2 ^ 20 -> make_id i g = make_id j h -> i = j /\ g = h.
Proof. intros Hi Hj. rewrite !make_id_sum by done. lia. Qed.

Section slots.
Context (t : Table) (W : wf t).

Lemma slot_at i e : s t !! i = Some e -> 0 <= refs e <= U32_MAX /\ 0 <= gen e < 2 ^ 12 /\ Z.of_nat i < 2 ^ 20.
Proof.
  intros H. pose proof (proj1 (Forall_lookup _ _) (wf_slots t W) i e H) as [H1 H2]. split; [done|]. split; [done|].
  apply lookup_lt_Some in H. pose proof (wf_len t W) as Hl. change MAX_OFDS with (2 ^ 20) in Hl. lia.
Qed.

Lemma nonempty i e : s t !! i = Some e -> s t <> [].
Proof. intros H E. by rewrite E in H. Qed.

(** A write to a slot other than the first keeps the table well formed. *)
Lemma wf_write i e e' c n :
  s t !! i = Some e -> (0 < i)%nat -> 0 <= refs e' <= U32_MAX -> 0 <= gen e' < 2 ^ 12 ->
  n = live_count t + (if busy e' then 1 else 0) - (if busy e then 1 else 0) ->
  wf (mkTable (<[i := e']> (s t)) c n).
Proof.
  intros He Hi Hr Hg ->. pose proof (nonempty i e He) as Hne. split; cbn.
  - apply Forall_insert; [apply W|done].
  - rewrite length_insert. apply W.
  - intros x Hx. rewrite list_lookup_insert_ne in Hx by lia. by apply (wf_first t W).
  - rewrite (countb_insert _ _ _ _ e He), (wf_live t W). rewrite bool_decide_eq_false_2 by done.
    rewrite bool_decide_eq_false_2; [lia|]. intros E. apply (f_equal length) in E. rewrite length_insert in E. by destruct (s t).
  - intros E. apply (f_equal length) in E. rewrite length_insert in E. by destruct (s t).
Qed.
End slots.

(** The other ids after a write to slot [i]. *)
Lemma count_write t i e e' c n id :
  s t !! i = Some e -> 0 <= id -> (busy e = true -> id <> make_id i (gen e)) -> (busy e' = true -> id <> make_id i (gen e')) ->
  count (mkTable (<[i := e']> (s t)) c n) id = count t id.
Proof.
  intros He Hid H1 H2. apply (count_other _ _ i); [done| | |].
  - intros j Hj. cbn. by rewrite list_lookup_insert_ne.
  - intros e0 H0. rewrite He in H0. injection H0 as <-. done.
  - intros e0 H0. cbn in H0. rewrite list_lookup_insert_eq in H0 by by apply lookup_lt_Some in He. injection H0 as <-. done.
Qed.

Lemma count_written t i e e' c n :
  s t !! i = Some e -> (0 < i)%nat -> Z.of_nat i < 2 ^ 20 -> 0 <= gen e' -> busy e' = true ->
  count (mkTable (<[i := e']> (s t)) c n) (make_id i (gen e')) = Some (refs e', watched e').
Proof.
  intros He Hi Hlt Hg Hb. apply count_at; try done. cbn. apply list_lookup_insert_eq. by apply lookup_lt_Some in He.
Qed.

Lemma count_dead t i e e' c n :
  s t !! i = Some e -> (0 < i)%nat -> Z.of_nat i < 2 ^ 20 -> 0 <= gen e -> busy e' = false ->
  count (mkTable (<[i := e']> (s t)) c n) (make_id i (gen e)) = None.
Proof.
  intros He Hi Hlt Hg Hb. unfold count. destruct (named _ _) as [[j x]|] eqn:En; [|done].
  apply named_spec in En as (Hx & Hbx & _ & Hj & _ & Eid); [|rewrite make_id_sum by done; lia].
  apply make_id_inj in Eid as [Eij _]; [|done|done]. subst j. cbn in Hx.
  rewrite list_lookup_insert_eq in Hx by by apply lookup_lt_Some in He. congruence.
Qed.

(** ** References *)
Lemma land_gen g : 0 <= g < 2 ^ 12 -> Z.land (g + 1) GEN_MASK = (g + 1) mod 2 ^ 12.
Proof. intros Hg. change GEN_MASK with (Z.ones 12). by rewrite Z.land_ones by lia. Qed.

(** One more holder. *)
Lemma get_spec t id r w :
  wf t -> 0 <= id -> count t id = Some (r, w) -> r < U32_MAX ->
  wf (get id t) /\ count (get id t) id = Some (r + 1, w) /\ forall x, 0 <= x -> x <> id -> count (get id t) x = count t x.
Proof.
  intros W Hid Hc Hr. unfold count in Hc. apply fmap_Some in Hc as ([i e] & Hn & [= -> ->]).
  pose proof Hn as Hn'. apply named_spec in Hn' as (He & Hb & Hi & Hlt & Hg & ->); [|done].
  destruct (slot_at t W i e He) as (H1 & H2 & _). unfold get. rewrite Hn.
  assert (wrap32 (refs e + 1) = refs e + 1) as -> by (unfold wrap32, U32_MAX in *; apply Z.mod_small; lia).
  set (e' := mkSlot _ _ _). assert (busy e' = true) as Hb' by (unfold busy, e'; cbn; rewrite negb_true_iff, Z.eqb_neq; lia).
  split; [|split].
  - apply (wf_write t W i e); [done|done|unfold e', U32_MAX in *; cbn; lia|done|]. rewrite Hb, Hb'. lia.
  - by rewrite (count_written t i e e').
  - intros x Hx Hne. by apply (count_write t i e).
Qed.

(** One holder less: the last one ends the description. *)
Lemma put_spec t id r w :
  wf t -> 0 <= id -> count t id = Some (r, w) ->
  let '(res, t') := put_deferred id t in
  wf t' /\ res = (r =? 1, (r =? 1) && w)
  /\ count t' id = (if r =? 1 then None else Some (r - 1, w))
  /\ forall x, 0 <= x -> x <> id -> count t' x = count t x.
Proof.
  intros W Hid Hc. unfold count in Hc. apply fmap_Some in Hc as ([i e] & Hn & [= -> ->]).
  pose proof Hn as Hn'. apply named_spec in Hn' as (He & Hb & Hi & Hlt & Hg & ->); [|done].
  destruct (slot_at t W i e He) as (H1 & H2 & _). pose proof (lookup_lt_Some _ _ _ He) as Hlen. unfold put_deferred. rewrite split_make, Hn by done.
  assert (refs e <> 0) as Hr0 by (unfold busy in Hb; rewrite negb_true_iff, Z.eqb_neq in Hb; done).
  destruct (Z.eqb_spec (refs e - 1) 0) as [E0|E0]; cbn [negb].
  - set (e' := mkSlot _ _ _). rewrite (proj2 (Z.eqb_eq (refs e) 1)) by lia. assert (busy e' = false) as Hb' by done. split; [|split; [done|split]].
    + apply (wf_write t W i e); [done|done|cbn; unfold U32_MAX in *; lia| |rewrite Hb, Hb'; lia]. unfold e'. cbn. rewrite land_gen by done.
      apply Z.mod_pos_bound. lia.
    + by apply count_dead.
    + intros x Hx Hne. by apply (count_write t i e).
  - set (e' := mkSlot _ _ _). rewrite (proj2 (Z.eqb_neq (refs e) 1)) by lia.
    assert (busy e' = true) as Hb' by (unfold busy, e'; cbn; rewrite negb_true_iff, Z.eqb_neq; lia). split; [|split; [done|split]].
    + apply (wf_write t W i e); [done|done|cbn; lia|done|rewrite Hb, Hb'; lia].
    + by rewrite (count_written t i e e').
    + intros x Hx Hne. by apply (count_write t i e).
Qed.

(** A stale or null id changes nothing. *)
Lemma stale_spec t id :
  count t id = None ->
  get id t = t /\ put_deferred id t = ((bool_decide (split id = None), false), t) /\ mark_watched id t = (false, t).
Proof.
  intros H. unfold count in H. apply fmap_None in H. unfold get, put_deferred, mark_watched. rewrite H.
  destruct (split id); [by rewrite bool_decide_eq_false_2|by rewrite bool_decide_eq_true_2].
Qed.

Lemma mark_spec t id r w :
  wf t -> 0 <= id -> count t id = Some (r, w) ->
  let '(b, t') := mark_watched id t in
  b = true /\ wf t' /\ count t' id = Some (r, true) /\ forall x, 0 <= x -> x <> id -> count t' x = count t x.
Proof.
  intros W Hid Hc. unfold count in Hc. apply fmap_Some in Hc as ([i e] & Hn & [= -> ->]).
  pose proof Hn as Hn'. apply named_spec in Hn' as (He & Hb & Hi & Hlt & Hg & ->); [|done].
  destruct (slot_at t W i e He) as (H1 & H2 & _). unfold mark_watched. rewrite Hn. set (e' := mkSlot _ _ _).
  split; [done|]. split; [|split].
  - apply (wf_write t W i e); [done|done|done|done|]. change (busy e') with (busy e). lia.
  - by rewrite (count_written t i e e').
  - intros x Hx Hne. by apply (count_write t i e).
Qed.

Lemma live_count_of t id : live id t = bool_decide (is_Some (count t id)).
Proof.
  unfold live, count, named. destruct (split id) as [[i g]|]; [|done]. cbn. destruct (s t !! i) as [e|]; [|done]. cbn.
  by destruct (_ && _).
Qed.

(** ** Allocation *)
Section scan.
Context (sl : list Slot) (n start : nat) (Hn : length sl = n) (Hs : (1 <= start < n)%nat).

Definition visited (i j : nat) : Prop :=
  if (start <=? i)%nat then (start <= j < i)%nat else (start <= j < n)%nat \/ (1 <= j < i)%nat.
Definition ahead (i : nat) : nat := if (start <=? i)%nat then (n - i + start - 1)%nat else (start - i)%nat.

Lemma scan_some fuel i k : scan fuel sl n start i = Some k -> (1 <= i < n)%nat -> (1 <= k < n)%nat /\ exists e, sl !! k = Some e /\ busy e = false.
Proof.
  revert i. induction fuel as [|fuel IH]; intros i H Hi; [done|]. cbn [scan] in H. destruct (sl !! i) as [e|] eqn:Ee; [|done].
  destruct (refs e =? 0) eqn:Er; [injection H as <-; split; [done|]; exists e; split; [done|]; unfold busy; by rewrite Er|].
  destruct (bump n i =? start)%nat; [done|]. apply (IH _ H). unfold bump. destruct (Nat.leb_spec n (i + 1)); lia.
Qed.

Lemma scan_none fuel i :
  scan fuel sl n start i = None -> (1 <= i < n)%nat -> (ahead i <= fuel)%nat ->
  (forall j e, visited i j -> sl !! j = Some e -> busy e = true) ->
  forall j e, (1 <= j < n)%nat -> sl !! j = Some e -> busy e = true.
Proof.
  revert i. induction fuel as [|fuel IH]; intros i H Hi Hf Hv j e Hj He; unfold ahead, visited in *.
  { destruct (Nat.leb_spec start i); lia. }
  cbn [scan] in H. destruct (lookup_lt_is_Some_2 sl i) as [x Hx]; [lia|]. rewrite Hx in H.
  destruct (refs x =? 0) eqn:Er; [done|]. assert (busy x = true) as Hbx by (unfold busy; by rewrite Er).
  unfold bump in H. destruct (Nat.leb_spec n (i + 1)) as [Hw|Hw].
  - destruct (Nat.eqb_spec 1 start) as [E1|E1].
    + destruct (decide (j = i)) as [->|]; [congruence|]. apply (Hv j e); [|done]. destruct (Nat.leb_spec start i); lia.
    + apply (IH 1%nat H) with j; [lia| |intros k y Hk Hy|lia|done].
      * destruct (Nat.leb_spec start 1); [lia|]. destruct (Nat.leb_spec start i); lia.
      * destruct (decide (k = i)) as [->|]; [congruence|]. apply (Hv k y); [|done].
        destruct (Nat.leb_spec start 1); [lia|]. destruct (Nat.leb_spec start i); lia.
  - destruct (Nat.eqb_spec (i + 1) start) as [E1|E1].
    + destruct (decide (j = i)) as [->|]; [congruence|]. apply (Hv j e); [|done]. destruct (Nat.leb_spec start i); lia.
    + apply (IH (i + 1)%nat H) with j; [lia| |intros k y Hk Hy|lia|done].
      * destruct (Nat.leb_spec start (i + 1)), (Nat.leb_spec start i); lia.
      * destruct (decide (k = i)) as [->|]; [congruence|]. apply (Hv k y); [|done].
        destruct (Nat.leb_spec start (i + 1)), (Nat.leb_spec start i); lia.
Qed.

Lemma scan_full : scan n sl n start start = None -> forall j e, (1 <= j < n)%nat -> sl !! j = Some e -> busy e = true.
Proof.
  intros H. apply (scan_none n start H Hs).
  - unfold ahead. rewrite (proj2 (Nat.leb_le start start)) by lia. lia.
  - intros j e Hv. unfold visited in Hv. rewrite (proj2 (Nat.leb_le start start)) in Hv by lia. lia.
Qed.
End scan.

(** Appending free slots. *)
Lemma count_grow t k id : 0 <= id -> count (mkTable (s t ++ replicate k free_slot) (cursor t) (live_count t)) id = count t id.
Proof.
  intros Hid. unfold count. f_equal. apply option_eq. intros [j e]. rewrite !named_spec by done. cbn [s].
  assert (busy e = true -> (s t ++ replicate k free_slot) !! j = Some e <-> s t !! j = Some e) as H.
  { intros Hb. rewrite lookup_app. destruct (s t !! j) as [x|] eqn:E; [done|]. split; [|done].
    intros Hr. apply lookup_replicate in Hr as [-> _]. done. }
  naive_solver.
Qed.

Lemma ensure_first_spec ok t t' :
  wf t -> ensure_first ok t = Some t' -> wf t' /\ s t' <> [] /\ forall x, 0 <= x -> count t' x = count t x.
Proof.
  intros W. unfold ensure_first. destruct (Nat.eqb_spec (length (s t)) 0) as [E|E].
  - apply length_zero_iff_nil in E. destruct (ok O); [|done]. intros [= <-]. split; [|split; [done|]].
    + split; cbn; try done; [by repeat constructor|intros e [= <-]; done|]. rewrite (wf_zero t W E). done.
    + intros x Hx. unfold count. f_equal. apply option_eq. intros [j e]. rewrite !named_spec by done. rewrite E. cbn.
      split; intros (H1 & _ & H3 & _); destruct j; [lia|done|done|done].
  - intros [= <-]. split; [done|]. split; [|done]. by destruct (s t).
Qed.

Lemma grow_spec ok t :
  wf t -> s t <> [] ->
  wf (grow ok t) /\ s (grow ok t) <> [] /\ (forall x, 0 <= x -> count (grow ok t) x = count t x)
  /\ (countb busy (s (grow ok t)) = Z.of_nat (length (s (grow ok t))) ->
      Z.of_nat (length (s (grow ok t))) = MAX_OFDS \/ ok (length (s (grow ok t))) = false).
Proof.
  intros W Hne. pose proof (wf_live t W) as Hl. rewrite bool_decide_eq_false_2 in Hl by done. pose proof (wf_len t W) as Hlen.
  unfold grow. destruct (_ && _) eqn:E.
  - apply andb_true_iff in E as [E E3]. apply andb_true_iff in E as [E1 E2]. bool_to_prop. set (k := Z.to_nat _).
    assert (0 < k)%nat as Hk by (unfold k, OFD_GROW; lia).
    assert (Z.of_nat (length (s t)) + Z.of_nat k <= MAX_OFDS) as Hkm by (unfold k, OFD_GROW; lia).
    assert (s t ++ replicate k free_slot <> []) as Hne' by by destruct (s t).
    split; [split; cbn|split; [done|split; [intros x Hx; by apply count_grow|]]].
    + apply Forall_app. split; [apply W|]. apply Forall_replicate. cbn. unfold U32_MAX. lia.
    + rewrite length_app, length_replicate. lia.
    + intros e He. rewrite lookup_app_l in He by (destruct (s t); [done|cbn; lia]). by apply (wf_first t W).
    + rewrite bool_decide_eq_false_2 by done. rewrite countb_app, countb_replicate by done. lia.
    + done.
    + cbn. rewrite countb_app, countb_replicate, length_app, length_replicate by done. pose proof (countb_bounds busy (s t)). lia.
  - split; [done|]. split; [done|]. split; [done|]. intros Hall.
    destruct (Z.leb_spec (Z.of_nat (length (s t))) (live_count t + 1)); [|lia]. cbn [andb] in E.
    destruct (Z.ltb_spec (Z.of_nat (length (s t))) MAX_OFDS); [by right|left; lia].
Qed.

(** Taking a free slot. *)
Lemma take_spec t i e c :
  wf t -> s t !! i = Some e -> busy e = false -> (0 < i)%nat ->
  let t' := mkTable (<[i := mkSlot 1 (gen e) false]> (s t)) c (live_count t + 1) in
  let id := make_id i (gen e) in
  wf t' /\ 0 < id < 2 ^ 32 /\ count t id = None /\ count t' id = Some (1, false)
  /\ forall x, 0 <= x -> x <> id -> count t' x = count t x.
Proof.
  intros W He Hb Hi t' id. destruct (slot_at t W i e He) as (H1 & H2 & H3).
  assert (0 < id < 2 ^ 32) as Hid by (unfold id; rewrite make_id_sum by done; lia). split; [|split; [done|split; [|split]]].
  - apply (wf_write t W i e); [done|done|cbn; unfold U32_MAX; lia|cbn; lia|]. rewrite Hb. cbn. lia.
  - unfold count. destruct (named t id) as [[j x]|] eqn:En; [|done]. apply named_spec in En as (Hx & Hbx & _ & Hj & _ & Eid); [|lia].
    apply make_id_inj in Eid as [<- _]; [|done|done]. congruence.
  - apply (count_written t i e (mkSlot 1 (gen e) false)); cbn; done || lia.
  - intros x Hx Hne. by apply (count_write t i e).
Qed.

(** [alloc] hands out an id that named no live description, with one
    reference and no epoll interest, and disturbs no other id; it answers 0
    only when every slot is taken and the table is at its ceiling or memory
    refused to grow it, and then no id is disturbed either. *)
Theorem ofd_alloc_spec ok t :
  wf t ->
  let '(id, t') := alloc ok t in
  wf t' /\ 0 <= id < 2 ^ 32
  /\ (id <> 0 -> count t id = None /\ count t' id = Some (1, false))
  /\ (forall x, 0 <= x -> x <> id -> count t' x = count t x)
  /\ (id = 0 -> Forall (fun e => busy e = true) (s t')
      /\ (Z.of_nat (length (s t')) = MAX_OFDS \/ ok (length (s t')) = false)).
Proof.
  intros W. unfold alloc. destruct (ensure_first ok t) as [t1|] eqn:E1.
  2: { unfold ensure_first in E1. destruct (Nat.eqb_spec (length (s t)) 0) as [E|E]; [|done]. destruct (ok O) eqn:Eo; [done|].
       rewrite E. apply length_zero_iff_nil in E. rewrite E. split; [done|]. split; [lia|]. split; [done|]. split; [done|]. intros _. split; [constructor|by right]. }
  destruct (ensure_first_spec ok t t1 W E1) as (W1 & Hne1 & C1).
  destruct (grow_spec ok t1 W1 Hne1) as (W2 & Hne2 & C2 & Hfull). set (t2 := grow ok t1) in *. set (n := length (s t2)).
  assert (Forall (fun e => busy e = true) (s t2) -> wf t2 /\ 0 <= 0 < 2 ^ 32
    /\ (0 <> 0 -> count t 0 = None /\ count t2 0 = Some (1, false)) /\ (forall x, 0 <= x -> x <> 0 -> count t2 x = count t x)
    /\ (0 = 0 -> Forall (fun e => busy e = true) (s t2) /\ (Z.of_nat (length (s t2)) = MAX_OFDS \/ ok (length (s t2)) = false))) as Hzero.
  { intros Hall. split; [done|]. split; [lia|]. split; [done|]. split; [intros x Hx _; by rewrite C2, C1|]. intros _. split; [done|].
    by apply Hfull, countb_all. }
  assert (forall e, s t2 !! 0%nat = Some e -> busy e = true) as H0 by apply W2.
  destruct (Nat.ltb_spec 1 n) as [Hn|Hn].
  2: { apply Hzero. apply Forall_lookup. intros [|j] e He; [by apply H0|]. apply lookup_lt_Some in He. unfold n in Hn. lia. }
  set (start := if (1 <=? cursor t2)%nat && (cursor t2 <? n)%nat then cursor t2 else 1%nat). assert (1 <= start < n)%nat as Hs.
  { unfold start. destruct (Nat.leb_spec 1 (cursor t2)), (Nat.ltb_spec (cursor t2) n); cbn [andb]; lia. }
  destruct (scan n (s t2) n start start) as [i|] eqn:Es.
  - destruct (scan_some (s t2) n start eq_refl Hs n start i Es Hs) as (Hi & e & He & Hb). rewrite He. cbn [fmap option_fmap option_map default].
    destruct (take_spec t2 i e (bump n i) W2 He Hb ltac:(lia)) as (T1 & T2 & T3 & T4 & T5).
    assert (alter (fun e => mkSlot 1 (gen e) false) i (s t2) = <[i := mkSlot 1 (gen e) false]> (s t2)) as ->.
    { apply list_eq. intros j. destruct (decide (i = j)) as [<-|Hj].
      - rewrite list_lookup_alter_eq, list_lookup_insert_eq by by apply lookup_lt_Some in He. by rewrite He.
      - by rewrite list_lookup_alter_ne, list_lookup_insert_ne. }
    cbn [from_option id]. split; [exact T1|]. split; [lia|]. split; [intros _; rewrite <- (C1 (make_id i (gen e))), <- C2 by lia; done|].
    split; [intros x Hx Hne; rewrite T5, C2, C1 by done; done|lia].
  - apply Hzero. apply Forall_lookup. intros [|j] e He; [by apply H0|].
    apply (scan_full (s t2) n start eq_refl Hs Es (S j) e); [|done]. apply lookup_lt_Some in He. unfold n. lia.
Qed.

(** One description, two ids of the same slot. *)
Definition demo_ofd : Table := mkTable [mkSlot U32_MAX 0 false; mkSlot 2 5 true; mkSlot 0 4095 false] 1 1.
Lemma demo_ofd_wf : wf demo_ofd.
Proof.
  split; try done.
  - repeat (apply Forall_cons; split; [cbn; unfold U32_MAX; lia|]). constructor.
  - intros e [= <-]. done.
Qed.

Lemma ofd_alloc_spec_witness :
  let '(id, t') := alloc (fun _ => true) demo_ofd in
  wf t' /\ 0 <= id < 2 ^ 32
  /\ (id <> 0 -> count demo_ofd id = None /\ count t' id = Some (1, false))
  /\ (forall x, 0 <= x -> x <> id -> count t' x = count demo_ofd x)
  /\ (id = 0 -> Forall (fun e => busy e = true) (s t')
      /\ (Z.of_nat (length (s t')) = MAX_OFDS \/ true = false)).
Proof. apply (ofd_alloc_spec (fun _ => true) demo_ofd demo_ofd_wf). Defined.

Lemma iter_get t id r w (k : nat) :
  wf t -> 0 <= id -> count t id = Some (r, w) -> r + Z.of_nat k <= U32_MAX ->
  let t1 := Nat.iter k (get id) t in
  wf t1 /\ count t1 id = Some (r + Z.of_nat k, w) /\ forall x, 0 <= x -> x <> id -> count t1 x = count t x.
Proof.
  intros W Hid Hc. induction k as [|k IH]; intros Hk t1; [by rewrite Z.add_0_r|].
  destruct IH as (H1 & H2 & H3); [lia|]. destruct (get_spec _ id _ w H1 Hid H2 ltac:(lia)) as (G1 & G2 & G3).
  split; [done|]. split; [etrans; [exact G2|]; do 2 f_equal; lia|]. intros x Hx Hne. etrans; [by apply G3|by apply H3].
Qed.

Lemma iter_put t id r w (j : nat) :
  wf t -> 0 <= id -> count t id = Some (r, w) -> Z.of_nat j <= r ->
  let t2 := Nat.iter j (fun t => (put_deferred id t).2) t in
  wf t2 /\ count t2 id = (if Z.of_nat j =? r then None else Some (r - Z.of_nat j, w))
  /\ forall x, 0 <= x -> x <> id -> count t2 x = count t x.
Proof.
  intros W Hid Hc. induction j as [|j IH]; intros Hj t2.
  { split; [done|]. split; [|done]. change (count t id = if 0 =? r then None else Some (r - 0, w)). rewrite Hc. unfold count in Hc.
    apply fmap_Some in Hc as ([i e] & Hn & [= -> ->]). apply named_spec in Hn as (_ & Hb & _); [|done].
    unfold busy in Hb. rewrite negb_true_iff in Hb. by rewrite Z.eqb_sym, Hb, Z.sub_0_r. }
  destruct IH as (H1 & H2 & H3); [lia|]. rewrite (proj2 (Z.eqb_neq (Z.of_nat j) r)) in H2 by lia.
  pose proof (put_spec _ id _ w H1 Hid H2) as P. change t2 with ((put_deferred id (Nat.iter j (fun t => (put_deferred id t).2) t)).2).
  destruct (put_deferred id _) as [res t3].
  destruct P as (P1 & _ & P3 & P4). cbn [snd]. split; [done|]. split; [|intros x Hx Hne; by rewrite P4, H3].
  rewrite P3. destruct (Z.eqb_spec (r - Z.of_nat j) 1), (Z.eqb_spec (Z.of_nat (S j)) r); try lia; [done|]. do 2 f_equal. lia.
Qed.

(** What [shared] reads of the map. *)
Lemma shared_count t id : shared id t = match count t id with Some (r, _) => 1 <? r | None => false end.
Proof.
  unfold shared, count, named. destruct (split id) as [[i g]|]; [|done]. cbn. destruct (s t !! i) as [e|]; [|done]. cbn.
  destruct (gen e =? g); [|done]. cbn. destruct (Z.eqb_spec (refs e) 0) as [->|]; done.
Qed.

(** A slot that existed before [alloc] is handed out under its own generation. *)
Lemma alloc_gen ok t i g e :
  wf t -> (alloc ok t).1 = make_id i g -> (0 < i)%nat -> Z.of_nat i < 2 ^ 20 -> 0 <= g -> s t !! i = Some e -> gen e = g.
Proof.
  intros W Ha Hi Hlt Hg He. assert (0 <> make_id i g) as Hz by (rewrite make_id_sum by done; lia).
  assert (ensure_first ok t = Some t) as E1.
  { unfold ensure_first. apply lookup_lt_Some in He. destruct (Nat.eqb_spec (length (s t)) 0); [lia|done]. }
  unfold alloc in Ha. rewrite E1 in Ha.
  assert (s (grow ok t) !! i = Some e) as He2.
  { unfold grow. destruct (_ && _ && _); [|done]. cbn [s]. by apply lookup_app_l_Some. }
  destruct (grow_spec ok t W (nonempty t i e He)) as (W2 & _). set (t2 := grow ok t) in *.
  destruct (Nat.ltb_spec 1 (length (s t2))) as [Hn|]; [|done].
  set (start := if _ : bool then _ else _) in Ha. assert (1 <= start < length (s t2))%nat as Hs.
  { unfold start. destruct (Nat.leb_spec 1 (cursor t2)), (Nat.ltb_spec (cursor t2) (length (s t2))); cbn [andb]; lia. }
  destruct (scan _ _ _ _ _) as [j|] eqn:Es; [|done].
  destruct (scan_some (s t2) _ start eq_refl Hs _ start j Es Hs) as (Hj & x & Hx & _). rewrite Hx in Ha. cbn in Ha.
  destruct (slot_at t2 W2 j x Hx) as (_ & _ & Hj2). apply make_id_inj in Ha as [<- Hgx]; [|done|done]. congruence.
Qed.

(** The last drop moves the slot's generation on. *)
Lemma last_put_gen t id w i g :
  wf t -> 0 <= id -> count t id = Some (1, w) -> split id = Some (i, g) ->
  exists e, s (put_deferred id t).2 !! i = Some e /\ gen e <> g.
Proof.
  intros W Hid Hc Hs. unfold count in Hc. apply fmap_Some in Hc as ([j e] & Hn & Er). injection Er as Er _.
  unfold put_deferred. rewrite Hs, Hn. rewrite <- Er. cbn [Z.sub Z.add Z.opp Z.pos_sub Z.eqb negb snd].
  apply named_spec in Hn as (He & _ & Hj & Hlt & Hg & ->); [|done]. rewrite split_make in Hs by done. injection Hs as <- <-.
  eexists. split; [cbn [s]; apply list_lookup_insert_eq; by apply lookup_lt_Some in He|]. cbn [gen].
  destruct (slot_at t W j e He) as (_ & H2 & _). rewrite land_gen by done.
  destruct (Z.eq_dec (gen e) (2 ^ 12 - 1)) as [->|]; [done|]. rewrite Z.mod_small; lia.
Qed.

(** C33: A description lives exactly as long as its references.  After [k] more
    copies of an id, every drop but the last leaves it live, one reference
    poorer, and reports nothing; the drop of the last reference ends it and is
    the one that reports the epoll interest.  The table is then well formed,
    every other id has the count and the mark it had at the start, and the id is
    stale: [get], [put], [put_deferred] and [mark_watched] on it leave the table
    as it is and report nothing, [live] and [shared] answer no, and the next
    [alloc] does not hand it out again, even from the same slot. *)
Theorem ofd_lifecycle t id r w (k : nat) :
  wf t -> 0 <= id -> count t id = Some (r, w) -> r + Z.of_nat k <= U32_MAX ->
  let t1 := Nat.iter k (get id) t in
  count t1 id = Some (r + Z.of_nat k, w)
  /\ (forall j, (Z.of_nat j < r + Z.of_nat k) -> let t2 := Nat.iter j (fun t => (put_deferred id t).2) t1 in
       count t2 id = Some (r + Z.of_nat k - Z.of_nat j, w)
       /\ (put_deferred id t2).1 = (r + Z.of_nat k - Z.of_nat j =? 1, (r + Z.of_nat k - Z.of_nat j =? 1) && w)
       /\ forall x, 0 <= x -> x <> id -> count t2 x = count t x)
  /\ let dead := Nat.iter (Z.to_nat (r + Z.of_nat k)) (fun t => (put_deferred id t).2) t1 in
     wf dead /\ count dead id = None
     /\ (forall x, 0 <= x -> x <> id -> count dead x = count t x /\ live x dead = live x t /\ shared x dead = shared x t)
     /\ get id dead = dead /\ put_deferred id dead = ((false, false), dead) /\ put id dead = (None, dead)
     /\ mark_watched id dead = (false, dead) /\ live id dead = false /\ shared id dead = false
     /\ forall ok, (alloc ok dead).1 <> id.
Proof.
  intros W Hid Hc Hk t1. destruct (iter_get t id r w k W Hid Hc Hk) as (W1 & C1 & X1). fold t1 in W1, C1, X1.
  assert (0 < r /\ exists i g, split id = Some (i, g)) as [Hr (i & g & Hs)].
  { unfold count in Hc. apply fmap_Some in Hc as ([i e] & Hn & [= -> ->]). apply named_spec in Hn as (He & Hb & Hi & Hlt & Hg & ->); [|done].
    destruct (slot_at t W i e He) as (H1 & _). unfold busy in Hb. rewrite negb_true_iff, Z.eqb_neq in Hb.
    split; [lia|]. rewrite split_make by done. eauto. }
  split; [done|]. split.
  - intros j Hj t2. destruct (iter_put t1 id _ w j W1 Hid C1 ltac:(lia)) as (W2 & C2 & X2). fold t2 in W2, C2, X2.
    rewrite (proj2 (Z.eqb_neq (Z.of_nat j) (r + Z.of_nat k))) in C2 by lia. split; [done|].
    pose proof (put_spec t2 id _ w W2 Hid C2) as P. destruct (put_deferred id t2) as [res t3]. destruct P as (_ & -> & _).
    split; [done|]. intros x Hx Hne. by rewrite X2, X1.
  - intros dead. destruct (iter_put t1 id _ w (Z.to_nat (r + Z.of_nat k)) W1 Hid C1 ltac:(lia)) as (W2 & C2 & X2). fold dead in W2, C2, X2.
    rewrite (proj2 (Z.eqb_eq (Z.of_nat (Z.to_nat (r + Z.of_nat k))) (r + Z.of_nat k))) in C2 by lia.
    destruct (stale_spec dead id C2) as (S1 & S2 & S3). rewrite Hs, bool_decide_eq_false_2 in S2 by done.
    split; [done|]. split; [done|]. split.
    { intros x Hx Hne. assert (count dead x = count t x) as E by by rewrite X2, X1. by rewrite !live_count_of, !shared_count, E. }
    split; [done|]. split; [done|]. split; [unfold put; by rewrite S2|]. split; [done|]. rewrite live_count_of, shared_count, C2.
    split; [done|]. split; [done|]. intros ok Ha.
    destruct (split_inv id i g Hid Hs) as (Hi & Hlt & Hg & Eid).
    destruct (iter_put t1 id _ w (Z.to_nat (r + Z.of_nat k - 1)) W1 Hid C1 ltac:(lia)) as (W3 & C3 & _).
    rewrite (proj2 (Z.eqb_neq _ _)) in C3 by lia.
    assert (dead = (put_deferred id (Nat.iter (Z.to_nat (r + Z.of_nat k - 1)) (fun t => (put_deferred id t).2) t1)).2) as Ed.
    { unfold dead. replace (Z.to_nat (r + Z.of_nat k)) with (S (Z.to_nat (r + Z.of_nat k - 1))) by lia. done. }
    destruct (last_put_gen _ id w i g W3 Hid) as (e & He & Hge); [rewrite C3; do 2 f_equal; lia|done|].
    rewrite <- Ed in He. apply Hge, (alloc_gen ok dead i g e W2); [by rewrite Ha|done..].
Qed.

Lemma ofd_lifecycle_witness :
  let t1 := Nat.iter 3 (get (make_id 1 5)) demo_ofd in
  count t1 (make_id 1 5) = Some (2 + Z.of_nat 3, true)
  /\ (forall j, (Z.of_nat j < 2 + Z.of_nat 3) -> let t2 := Nat.iter j (fun t => (put_deferred (make_id 1 5) t).2) t1 in
       count t2 (make_id 1 5) = Some (2 + Z.of_nat 3 - Z.of_nat j, true)
       /\ (put_deferred (make_id 1 5) t2).1 = (2 + Z.of_nat 3 - Z.of_nat j =? 1, (2 + Z.of_nat 3 - Z.of_nat j =? 1) && true)
       /\ forall x, 0 <= x -> x <> make_id 1 5 -> count t2 x = count demo_ofd x)
  /\ let dead := Nat.iter (Z.to_nat (2 + Z.of_nat 3)) (fun t => (put_deferred (make_id 1 5) t).2) t1 in
     wf dead /\ count dead (make_id 1 5) = None
     /\ (forall x, 0 <= x -> x <> make_id 1 5 ->
          count dead x = count demo_ofd x /\ live x dead = live x demo_ofd /\ shared x dead = shared x demo_ofd)
     /\ get (make_id 1 5) dead = dead /\ put_deferred (make_id 1 5) dead = ((false, false), dead)
     /\ put (make_id 1 5) dead = (None, dead)
     /\ mark_watched (make_id 1 5) dead = (false, dead) /\ live (make_id 1 5) dead = false /\ shared (make_id 1 5) dead = false
     /\ forall ok, (alloc ok dead).1 <> make_id 1 5.
Proof. apply (ofd_lifecycle demo_ofd (make_id 1 5) 2 true 3 demo_ofd_wf); [done|done|unfold U32_MAX; lia]. Defined.
