(* ===== verification/HrTimer.v ===== *)
(** * High-resolution timers

    Models [src/sched/src/hrtimer.rs].  Timers live in a store indexed by their
    address; [active] is the array of armed timers under the [ACTIVE] lock and
    [next] the published earliest expiry.  The part of [service] that runs under
    the lock is [collect]; what follows it, the callbacks, is [dispatch], with
    the callback and the work queue as arguments.  The hardware one-shot is the
    value handed to [arch_timer_arm_deadline], which every operation returns.
    Waiting for a running callback ([cancel_sync]) is left out.

    The theorems show that the armed timers and the array agree, that [next] is
    always the exact earliest expiry, so the early return of [service] misses
    nothing, and that a service pass runs each due timer at most once, leaves
    none behind while it has room for them, and re-arms periodic timers in the
    future without bursts. *)
From S2P Require Import Prelude.

Inductive TimerMode := Irq | Worker.

Definition MAX_ACTIVE : nat := 128.
Definition MAX_DUE : nat := 32.

Record timer := mkTimer {
  mode : TimerMode; expires : Z; period : Z; armed : bool; running : bool; fired : Z }.

Record state := mkState { timers : nat -> timer; active : list nat; next : Z }.

Definition sat_add (x y : Z) : Z := Z.min (x + y) U64_MAX.

Definition timer_new (m : TimerMode) : timer := mkTimer m U64_MAX 0 false false 0.

(** Updates of one timer. *)
Definition update (id : nat) (f : timer -> timer) (ts : nat -> timer) : nat -> timer :=
  fun k => if (k =? id)%nat then f (ts k) else ts k.
Definition set_expires (e : Z) (t : timer) : timer := mkTimer (mode t) e (period t) (armed t) (running t) (fired t).
Definition set_period (p : Z) (t : timer) : timer := mkTimer (mode t) (expires t) p (armed t) (running t) (fired t).
Definition set_armed (b : bool) (t : timer) : timer := mkTimer (mode t) (expires t) (period t) b (running t) (fired t).
Definition set_running (b : bool) (t : timer) : timer := mkTimer (mode t) (expires t) (period t) (armed t) b (fired t).
Definition inc_fired (t : timer) : timer := mkTimer (mode t) (expires t) (period t) (armed t) (running t) (wrap64 (fired t + 1)).

Definition recompute (ts : nat -> timer) (a : list nat) : Z :=
  foldl (fun m id => if expires (ts id) <? m then expires (ts id) else m) U64_MAX a.

(** [a.t[i] = a.t[n - 1]; a.n -= 1] *)
Definition swap_out (i : nat) (a : list nat) : list nat :=
  match last a with
  | None => a
  | Some l => take (length a - 1) (<[i := l]> a)
  end.

Definition start_at (id : nat) (expires_ns period_ns : Z) (st : state) : (bool * option Z) * state :=
  let ts := update id (set_period period_ns) (timers st) in
  let ts := update id (set_expires expires_ns) ts in
  if negb (armed (ts id)) then
    if (length (active st) =? MAX_ACTIVE)%nat then ((false, None), mkState ts (active st) (next st))
    else
      let a := active st ++ [id] in
      let ts := update id (set_armed true) ts in
      ((true, Some expires_ns), mkState ts a (recompute ts a))
  else ((true, Some expires_ns), mkState ts (active st) (recompute ts (active st))).

Definition start (now : Z) (id : nat) (delay_ns period_ns : Z) (st : state) : (bool * option Z) * state :=
  start_at id (sat_add now delay_ns) period_ns st.

Fixpoint find_index (id : nat) (a : list nat) : option nat :=
  match a with
  | [] => None
  | x :: a => if (x =? id)%nat then Some O else S <$> find_index id a
  end.

Definition cancel (id : nat) (st : state) : bool * state :=
  let was := armed (timers st id) in
  let ts := update id (set_armed false) (timers st) in
  if was then
    let a := match find_index id (active st) with Some i => swap_out i (active st) | None => active st end in
    (true, mkState ts a (recompute ts a))
  else (false, mkState ts (active st) (next st)).

(** The loop of [service]; an iteration moves [i] on or shortens the array. *)
Fixpoint collect (fuel : nat) (now : Z) (i : nat) (due : list nat) (ts : nat -> timer) (a : list nat)
    : list nat * (nat -> timer) * list nat :=
  match fuel with
  | O => (due, ts, a)
  | S f =>
      if (length due <? MAX_DUE)%nat then
        match a !! i with
        | None => (due, ts, a)
        | Some id =>
            let t := ts id in
            if now <? expires t then collect f now (S i) due ts a
            else if running t then
              if negb (period t =? 0)
              then collect f now (S i) due (update id (set_expires (sat_add now (period t))) ts) a
              else collect f now (S i) due ts a
            else
              let ts := update id (fun t => inc_fired (set_running true t)) ts in
              let due := due ++ [id] in
              let p := period t in
              if negb (p =? 0) then
                let e := sat_add (expires t) p in
                let e := if e <=? now then sat_add now p else e in
                collect f now (S i) due (update id (set_expires e) ts) a
              else collect f now i due (update id (set_armed false) ts) (swap_out i a)
        end
      else (due, ts, a)
  end.

(** The callbacks, run outside the lock in the order they were collected. *)
Section dispatch.
Context (callback : nat -> state -> state) (queue_raw : nat -> bool).

Definition dispatch_one (st : state) (id : nat) : state :=
  match mode (timers st id) with
  | Irq => let st := callback id st in mkState (update id (set_running false) (timers st)) (active st) (next st)
  | Worker => if negb (queue_raw id) then mkState (update id (set_running false) (timers st)) (active st) (next st) else st
  end.

(** The value of [service] and the deadline armed at the end.  [contended] says
    that another CPU holds the lock. *)
Definition service (contended : bool) (now : Z) (st : state) : (Z * option Z) * state :=
  if now <? next st then ((next st, None), st)
  else if contended then ((sat_add now 50000, None), st)
  else
    let '(due, ts, a) := collect (length (active st)) now 0 [] (timers st) (active st) in
    let n := recompute ts a in
    let st := foldl dispatch_one (mkState ts a n) due in
    ((n, if negb (length due =? 0)%nat && negb (n =? U64_MAX) then Some n else None), st).
End dispatch.

(** ** The invariant *)
Record wf (st : state) : Prop := {
  wf_nodup : NoDup (active st);
  wf_armed : forall id, armed (timers st id) = true <-> id ∈ active st;
  wf_cap : (length (active st) <= MAX_ACTIVE)%nat;
  wf_next : next st = recompute (timers st) (active st) }.

Lemma update_eq id f ts : update id f ts id = f (ts id).
Proof. unfold update. by rewrite Nat.eqb_refl. Qed.
Lemma update_ne id f ts k : k <> id -> update id f ts k = ts k.
Proof. intros H. unfold update. by destruct (Nat.eqb_spec k id). Qed.

(** [recompute] is the minimum of the armed expiries and of "none". *)
Lemma recompute_min_from (ts : nat -> timer) (a : list nat) (m : Z) :
  let r := foldl (fun m id => if expires (ts id) <? m then expires (ts id) else m) m a in
  r <= m /\ (forall id, id ∈ a -> r <= expires (ts id)) /\ (r = m \/ exists id, id ∈ a /\ r = expires (ts id)).
Proof.
  revert m. induction a as [|x a IH]; intros m; cbn [foldl].
  - split; [lia|]. split; [intros id H; by apply elem_of_nil in H|by left].
  - destruct (Z.ltb_spec (expires (ts x)) m) as [Hl|Hl].
    + destruct (IH (expires (ts x))) as (H1 & H2 & H3). split; [lia|]. split.
      * intros id [->|H]%elem_of_cons; [done|by apply H2].
      * right. destruct H3 as [H3|(id & Hid & H3)]; [exists x; split; [left|done]|exists id; split; [by right|done]].
    + destruct (IH m) as (H1 & H2 & H3). split; [done|]. split.
      * intros id [->|H]%elem_of_cons; [lia|by apply H2].
      * destruct H3 as [H3|(id & Hid & H3)]; [by left|right; exists id; split; [by right|done]].
Qed.

Lemma recompute_le ts a id : id ∈ a -> recompute ts a <= expires (ts id).
Proof. apply (recompute_min_from ts a U64_MAX). Qed.

Lemma recompute_reached ts a : recompute ts a = U64_MAX \/ exists id, id ∈ a /\ recompute ts a = expires (ts id).
Proof. apply (recompute_min_from ts a U64_MAX). Qed.

Lemma recompute_ext ts ts' a : (forall id, id ∈ a -> expires (ts' id) = expires (ts id)) -> recompute ts' a = recompute ts a.
Proof.
  intros H. unfold recompute. generalize U64_MAX. induction a as [|x a IH]; intros m; [done|]. cbn [foldl].
  rewrite (H x) by left. apply IH. intros id Hid. apply H. by right.
Qed.

(** Removal by swapping the last element in. *)
Lemma swap_out_spec a i id :
  a !! i = Some id -> NoDup a ->
  NoDup (swap_out i a) /\ length (swap_out i a) = (length a - 1)%nat
  /\ (forall x, x ∈ swap_out i a <-> x ∈ a /\ x <> id) /\ (forall k, (k < i)%nat -> swap_out i a !! k = a !! k).
Proof.
  intros Hi Hnd. unfold swap_out. destruct a as [|l a _] using rev_ind; [done|]. rewrite last_snoc, length_app. cbn [length].
  replace (length a + 1 - 1)%nat with (length a) by lia. apply NoDup_app in Hnd as (Hnd & Hd & _).
  assert (l ∉ a) as Hla by (intros H; apply (Hd l H); left).
  destruct (decide (i = length a)) as [->|Hne].
  - rewrite lookup_app_r, Nat.sub_diag in Hi by lia. injection Hi as ->.
    rewrite insert_app_r_alt, Nat.sub_diag, take_app_length by lia. cbn.
    split; [done|]. split; [done|]. split; [set_solver|]. intros k Hk. by rewrite lookup_app_l.
  - assert (i < length a)%nat as Hlt by (apply lookup_lt_Some in Hi; rewrite length_app in Hi; cbn in Hi; lia).
    rewrite lookup_app_l in Hi by done. rewrite insert_app_l by done.
    rewrite take_app_length' by by rewrite length_insert.
    destruct (list_elem_of_split_length a i id Hi) as (l1 & l2 & -> & ->). rewrite insert_app_r_alt, Nat.sub_diag by lia. cbn.
    apply NoDup_app in Hnd as (N1 & D & N2). apply NoDup_cons in N2 as [Nid N2].
    split; [|split; [rewrite !length_app; done|split]].
    + apply NoDup_app. split; [done|]. split; [|constructor; [set_solver|done]]. intros x Hx [->|H2]%elem_of_cons; [set_solver|].
      apply (D x Hx). by right.
    + set_solver.
    + intros k Hk. rewrite !lookup_app_l by (rewrite ?length_app; cbn; lia). done.
Qed.

(** ** Arming and cancelling *)
Lemma find_index_spec id a : match find_index id a with Some i => a !! i = Some id | None => id ∉ a end.
Proof.
  induction a as [|x a IH]; cbn [find_index]; [apply not_elem_of_nil|]. destruct (Nat.eqb_spec x id) as [->|Hne]; [done|].
  destruct (find_index id a); cbn; [done|set_solver].
Qed.

Lemma start_at_spec id e p st :
  wf st ->
  let '((ok, _), st') := start_at id e p st in
  wf st' /\ ok = armed (timers st id) || negb (length (active st) =? MAX_ACTIVE)%nat
  /\ armed (timers st' id) = ok
  /\ (ok = true -> expires (timers st' id) = e /\ period (timers st' id) = p)
  /\ forall k, k <> id -> timers st' k = timers st k.
Proof.
  intros [N A C X]. unfold start_at. set (ts := update id (set_expires e) _).
  assert (ts id = set_expires e (set_period p (timers st id))) as Et by (unfold ts; by rewrite !update_eq).
  assert (forall k, k <> id -> ts k = timers st k) as Ek by (intros k Hk; unfold ts; by rewrite !update_ne).
  assert (forall k, armed (ts k) = armed (timers st k)) as Ea.
  { intros k. destruct (decide (k = id)) as [->|Hk]; [by rewrite Et|by rewrite Ek]. }
  rewrite Ea. destruct (armed (timers st id)) eqn:Ear; cbn [negb orb].
  - split; [split; cbn; try done; intros k; rewrite Ea; apply A|]. cbn. rewrite Ea, Et. done.
  - assert (id ∉ active st) as Hni by (rewrite <- A; congruence).
    destruct (Nat.eqb_spec (length (active st)) MAX_ACTIVE) as [Ef|Ef]; cbn [negb timers].
    + split; [split; cbn; [done|intros k; rewrite Ea; apply A|done|]|by rewrite Ea]. rewrite X. symmetry. apply recompute_ext.
      intros k Hk. rewrite Ek; [done|]. by intros ->.
    + split; [split; cbn|].
      * apply NoDup_app. split; [done|]. split; [set_solver|]. apply NoDup_singleton.
      * intros k. rewrite elem_of_app, list_elem_of_singleton. destruct (decide (k = id)) as [->|Hk]; [rewrite update_eq; cbn; tauto|].
        rewrite update_ne, Ea, A by done. tauto.
      * rewrite length_app. cbn. lia.
      * done.
      * rewrite update_eq, Et. cbn. split; [done|]. split; [done|]. split; [done|]. intros k Hk. by rewrite update_ne, Ek.
Qed.

Lemma cancel_spec id st :
  wf st ->
  let '(was, st') := cancel id st in
  wf st' /\ was = armed (timers st id) /\ armed (timers st' id) = false /\ forall k, k <> id -> timers st' k = timers st k.
Proof.
  intros [N A C X]. unfold cancel. set (ts := update id (set_armed false) _).
  assert (forall k, k <> id -> ts k = timers st k) as Ek by (intros k Hk; unfold ts; by rewrite update_ne).
  assert (armed (ts id) = false) as Ei by (unfold ts; by rewrite update_eq).
  destruct (armed (timers st id)) eqn:Ear.
  - assert (id ∈ active st) as Hin by by apply A. pose proof (find_index_spec id (active st)) as Hf.
    destruct (find_index id (active st)) as [i|]; [|done]. destruct (swap_out_spec _ i id Hf N) as (S1 & S2 & S3 & _).
    split; [split; cbn; [done| |lia|done]|done]. intros k. rewrite S3. destruct (decide (k = id)) as [->|Hk]; [rewrite Ei; naive_solver|].
    rewrite Ek, A by done. tauto.
  - split; [split; cbn; [done| |done|]|done].
    + intros k. destruct (decide (k = id)) as [->|Hk]; [rewrite Ei; rewrite <- A; rewrite Ear; done|by rewrite Ek].
    + rewrite X. symmetry. apply recompute_ext. intros k Hk. destruct (decide (k = id)) as [->|Hne]; [|by rewrite Ek]. unfold ts. by rewrite update_eq.
Qed.

(** Arming and cancelling keep the timer table exact: [start_at] fails only
    for an unarmed timer with all 128 slots taken (and then arms nothing),
    otherwise the timer is armed for that instant and period; [cancel] reports
    whether the timer was armed and leaves it disarmed; no other timer changes;
    and the published next expiry is always the earliest one that is armed. *)
Theorem hrtimer_arm_spec id e p st :
  wf st ->
  (let '((ok, _), st') := start_at id e p st in
   wf st' /\ ok = armed (timers st id) || negb (length (active st) =? MAX_ACTIVE)%nat
   /\ armed (timers st' id) = ok
   /\ (ok = true -> expires (timers st' id) = e /\ period (timers st' id) = p)
   /\ forall k, k <> id -> timers st' k = timers st k)
  /\ (let '(was, st') := cancel id st in
      wf st' /\ was = armed (timers st id) /\ armed (timers st' id) = false /\ forall k, k <> id -> timers st' k = timers st k).
Proof. intros W. split; [by apply start_at_spec|by apply cancel_spec]. Qed.

Definition demo_state : state := mkState (fun k => mkTimer Irq (100 * Z.of_nat k) 30 ((k =? 1) || (k =? 2))%nat false 0) [2%nat; 1%nat] 100.
Lemma demo_state_wf : wf demo_state.
Proof.
  split; [|intros id|cbn; unfold MAX_ACTIVE; lia|done].
  - apply NoDup_cons. split; [set_solver|apply NoDup_singleton].
  - cbn. rewrite orb_true_iff, !Nat.eqb_eq. set_solver.
Qed.

Lemma hrtimer_arm_spec_witness :
  (let '((ok, _), st') := start_at 3 500 0 demo_state in
   wf st' /\ ok = armed (timers demo_state 3) || negb (length (active demo_state) =? MAX_ACTIVE)%nat
   /\ armed (timers st' 3) = ok
   /\ (ok = true -> expires (timers st' 3) = 500 /\ period (timers st' 3) = 0)
   /\ forall k, k <> 3%nat -> timers st' k = timers demo_state k)
  /\ (let '(was, st') := cancel 3 demo_state in
      wf st' /\ was = armed (timers demo_state 3) /\ armed (timers st' 3) = false /\ forall k, k <> 3%nat -> timers st' k = timers demo_state k).
Proof. apply (hrtimer_arm_spec 3 500 0 demo_state demo_state_wf). Defined.

(** ** A service pass *)
(** A timer that fired in this pass. *)
Definition was_due (now : Z) (t t' : timer) : Prop :=
  armed t = true /\ expires t <= now /\ running t = false
  /\ running t' = true /\ fired t' = wrap64 (fired t + 1) /\ period t' = period t
  /\ (if period t =? 0 then armed t' = false else armed t' = true /\ now < expires t' <= Z.max (expires t + period t) (now + period t)).

(** A timer that did not fire: unchanged, or a periodic one whose callback still
    runs, moved to its next period. *)
Definition was_left (now : Z) (t t' : timer) : Prop :=
  t' = t \/ (armed t = true /\ running t = true /\ period t <> 0 /\ expires t <= now /\ t' = set_expires (sat_add now (period t)) t).

(** An armed timer the pass is done with. *)
Definition settled (now : Z) (t : timer) : Prop := now < expires t \/ (running t = true /\ period t = 0).

Section pass.
Context (now : Z) (ts0 : nat -> timer).

Record loop_inv (i : nat) (due : list nat) (ts : nat -> timer) (a : list nat) : Prop := {
  li_nodup : NoDup a;
  li_armed : forall id, armed (ts id) = true <-> id ∈ a;
  li_due : NoDup due;
  li_cap : (length due <= MAX_DUE)%nat;
  li_rest : forall k id, (i <= k)%nat -> a !! k = Some id -> id ∉ due /\ ts id = ts0 id;
  li_settled : forall k id, (k < i)%nat -> a !! k = Some id -> settled now (ts id);
  li_fired : forall id, id ∈ due -> was_due now (ts0 id) (ts id);
  li_left : forall id, id ∉ due -> was_left now (ts0 id) (ts id) }.

Section step.
Context (i : nat) (due : list nat) (ts : nat -> timer) (a : list nat) (I : loop_inv i due ts a).
Context (id : nat) (Hid : a !! i = Some id).

Lemma other_pos k x : (k <> i)%nat -> a !! k = Some x -> x <> id.
Proof. intros Hk Hx ->. apply Hk. by apply (NoDup_lookup a k i id (li_nodup _ _ _ _ I)). Qed.

Lemma here : id ∉ due /\ ts id = ts0 id.
Proof. by apply (li_rest _ _ _ _ I i). Qed.

(** The current timer is settled as it is. *)
Lemma step_skip : settled now (ts id) -> loop_inv (S i) due ts a.
Proof.
  intros Hs. destruct I as [N A D C R S F U]. split; try done.
  - intros k x Hk Hx. apply (R k); [lia|done].
  - intros k x Hk Hx. destruct (decide (k = i)) as [->|]; [rewrite Hid in Hx; by injection Hx as <-|]. apply (S k); [lia|done].
Qed.

(** A change to the current timer only, which stays armed. *)
Lemma step_update f :
  armed (f (ts id)) = true -> settled now (f (ts id)) -> was_left now (ts0 id) (f (ts id)) ->
  loop_inv (S i) due (update id f ts) a.
Proof.
  intros Ha Hs Hl. destruct I as [N A D C R S F U]. destruct here as [Hnd Et]. split; try done.
  - intros k. destruct (decide (k = id)) as [->|Hk]; [|by rewrite update_ne]. rewrite update_eq, Ha. split; [|done].
    intros _. by apply list_elem_of_lookup_2 in Hid.
  - intros k x Hk Hx. rewrite update_ne by (apply (other_pos k); [lia|done]). apply (R k); [lia|done].
  - intros k x Hk Hx. destruct (decide (k = i)) as [->|Hne].
    + rewrite Hid in Hx. injection Hx as <-. by rewrite update_eq.
    + rewrite update_ne by by apply (other_pos k). apply (S k); [lia|done].
  - intros x Hx. rewrite update_ne by (by intros ->). by apply F.
  - intros x Hx. destruct (decide (x = id)) as [->|Hne]; [by rewrite update_eq|]. rewrite update_ne by done. by apply U.
Qed.

(** The current timer fires and stays armed. *)
Lemma step_fire_periodic f :
  (length due < MAX_DUE)%nat -> armed (f (ts id)) = true -> settled now (f (ts id)) -> was_due now (ts0 id) (f (ts id)) ->
  loop_inv (S i) (due ++ [id]) (update id f ts) a.
Proof.
  intros Hcap Ha Hs Hl. destruct I as [N A D C R S F U]. destruct here as [Hnd Et]. split; try done.
  - intros k. destruct (decide (k = id)) as [->|Hk]; [|by rewrite update_ne]. rewrite update_eq, Ha. split; [|done].
    intros _. by apply list_elem_of_lookup_2 in Hid.
  - apply NoDup_app. split; [done|]. split; [set_solver|apply NoDup_singleton].
  - rewrite length_app. cbn. lia.
  - intros k x Hk Hx. assert (x <> id) by (apply (other_pos k); [lia|done]). rewrite update_ne by done.
    destruct (R k x ltac:(lia) Hx). set_solver.
  - intros k x Hk Hx. destruct (decide (k = i)) as [->|Hne].
    + rewrite Hid in Hx. injection Hx as <-. by rewrite update_eq.
    + rewrite update_ne by by apply (other_pos k). apply (S k); [lia|done].
  - intros x [Hx|Hx%list_elem_of_singleton]%elem_of_app; [rewrite update_ne by (by intros ->); by apply F|subst; by rewrite update_eq].
  - intros x Hx. rewrite update_ne by set_solver. apply U. set_solver.
Qed.

(** The current timer fires and is taken off the array. *)
Lemma step_fire_once f :
  (length due < MAX_DUE)%nat -> armed (f (ts id)) = false -> was_due now (ts0 id) (f (ts id)) ->
  loop_inv i (due ++ [id]) (update id f ts) (swap_out i a).
Proof.
  intros Hcap Ha Hl. destruct I as [N A D C R S F U]. destruct here as [Hnd Et].
  destruct (swap_out_spec a i id Hid N) as (S1 & S2 & S3 & S4). split; try done.
  - intros k. rewrite S3. destruct (decide (k = id)) as [->|Hk]; [rewrite update_eq, Ha; naive_solver|]. rewrite update_ne, A by done. tauto.
  - apply NoDup_app. split; [done|]. split; [set_solver|apply NoDup_singleton].
  - rewrite length_app. cbn. lia.
  - intros k x Hk Hx. pose proof (list_elem_of_lookup_2 _ _ _ Hx) as Hin. apply S3 in Hin as [Hin Hne].
    apply list_elem_of_lookup in Hin as [k' Hk']. rewrite update_ne by done.
    assert (i <= k')%nat as Hge.
    { destruct (decide (k' < i)%nat) as [Hlt|]; [|lia]. rewrite <- (S4 k' Hlt) in Hk'. pose proof (NoDup_lookup _ _ _ _ S1 Hk' Hx). lia. }
    destruct (R k' x Hge Hk'). set_solver.
  - intros k x Hk Hx. rewrite (S4 k Hk) in Hx. rewrite update_ne by (apply (other_pos k); [lia|done]). by apply (S k).
  - intros x [Hx|Hx%list_elem_of_singleton]%elem_of_app; [rewrite update_ne by (by intros ->); by apply F|subst; by rewrite update_eq].
  - intros x Hx. rewrite update_ne by set_solver. apply U. set_solver.
Qed.
End step.
End pass.

Lemma update_update id f g ts k : update id g (update id f ts) k = update id (fun t => g (f t)) ts k.
Proof. unfold update. by destruct (k =? id)%nat. Qed.

Lemma loop_inv_ext now ts0 i due ts ts' a : (forall k, ts' k = ts k) -> loop_inv now ts0 i due ts a -> loop_inv now ts0 i due ts' a.
Proof.
  intros H [N A D C R S F U]. split; try done; intros *; rewrite ?H; eauto.
Qed.

(** The next expiry of a fired periodic timer is the first period after now. *)
Definition next_period (now e p : Z) : Z := let e := sat_add e p in if e <=? now then sat_add now p else e.

Lemma next_period_spec now e p :
  0 <= now < U64_MAX -> 0 < p -> e <= now -> now < next_period now e p <= Z.max (e + p) (now + p).
Proof. intros Hn Hp He. unfold next_period, sat_add. destruct (Z.leb_spec (Z.min (e + p) U64_MAX) now); lia. Qed.

Lemma collect_spec now ts0 fuel i due ts a :
  0 <= now < U64_MAX -> (forall id, 0 <= period (ts0 id)) -> loop_inv now ts0 i due ts a -> (length a - i <= fuel)%nat ->
  let '(due', ts', a') := collect fuel now i due ts a in
  exists i', loop_inv now ts0 i' due' ts' a' /\ (length a' <= length a)%nat /\ (length due' = MAX_DUE \/ (length a' <= i')%nat).
Proof.
  intros Hnow Hper. revert i due ts a. induction fuel as [|fuel IH]; intros i due ts a I Hf; cbn [collect].
  { exists i. split; [done|]. split; [done|]. right. lia. }
  destruct (Nat.ltb_spec (length due) MAX_DUE) as [Hcap|Hcap].
  2: { exists i. split; [done|]. split; [done|]. left. pose proof (li_cap _ _ _ _ _ _ I). lia. }
  destruct (a !! i) as [id|] eqn:Hid.
  2: { exists i. split; [done|]. split; [done|]. right. by apply lookup_ge_None in Hid. }
  pose proof (lookup_lt_Some _ _ _ Hid) as Hlt. destruct (here now ts0 i due ts a I id Hid) as [Hnd Et].
  assert (armed (ts id) = true) as Har by (apply (li_armed _ _ _ _ _ _ I); by apply list_elem_of_lookup_2 in Hid).
  specialize (Hper id). destruct (Z.ltb_spec now (expires (ts id))) as [He|He].
  { apply IH; [|lia]. apply (step_skip now ts0 i due ts a I id Hid). by left. }
  destruct (running (ts id)) eqn:Er.
  - destruct (Z.eqb_spec (period (ts id)) 0) as [Ep|Ep]; cbn [negb].
    + apply IH; [|lia]. apply (step_skip now ts0 i due ts a I id Hid). by right.
    + apply IH; [|lia]. rewrite Et in *. apply (step_update now ts0 i due ts a I id Hid).
      * by rewrite Et.
      * rewrite Et. left. cbn. unfold sat_add. lia.
      * rewrite Et. right. done.
  - destruct (Z.eqb_spec (period (ts id)) 0) as [Ep|Ep]; cbn [negb].
    + assert (loop_inv now ts0 i (due ++ [id]) (update id (fun t => set_armed false (inc_fired (set_running true t))) ts) (swap_out i a)) as I'.
      { apply (step_fire_once now ts0 i due ts a I id Hid); [done|done|]. rewrite Et in *. repeat split; try done. by rewrite Ep. }
      destruct (swap_out_spec a i id Hid (li_nodup _ _ _ _ _ _ I)) as (_ & S2 & _).
      specialize (IH i (due ++ [id]) _ (swap_out i a) (loop_inv_ext _ _ _ _ _ _ _ (update_update id _ _ ts) I') ltac:(lia)).
      destruct (collect fuel now i _ _ _) as [[due' ts'] a']. destruct IH as (i' & H1 & H2 & H3). exists i'. split; [done|]. split; [lia|done].
    + change (if sat_add (expires (ts id)) (period (ts id)) <=? now then _ else _) with (next_period now (expires (ts id)) (period (ts id))).
      set (e := next_period _ _ _). assert (now < e <= Z.max (expires (ts id) + period (ts id)) (now + period (ts id))) as Hne.
      { apply next_period_spec; [done| |done]. rewrite Et in *. lia. }
      assert (loop_inv now ts0 (S i) (due ++ [id]) (update id (fun t => set_expires e (inc_fired (set_running true t))) ts) a) as I'.
      { apply (step_fire_periodic now ts0 i due ts a I id Hid); [done|done|left; cbn; lia|]. clearbody e. rewrite Et in *. repeat split; try done.
        rewrite (proj2 (Z.eqb_neq _ _) Ep). done. }
      apply (IH (S i)); [|lia]. by apply (loop_inv_ext _ _ _ _ _ _ _ (update_update id _ _ ts) I').
Qed.

(** A service pass at time [now] that gets the lock.  If the published next
    expiry is later than [now] nothing is due and nothing happens.  Otherwise
    every timer fires at most once, and only if it was armed, due and idle; a
    one-shot is then disarmed, a periodic one re-armed at the first instant after
    [now] of its schedule (or one period from now, so missed periods do not
    burst); unless 32 timers fired, no armed idle timer is left with an expiry
    that has passed.  The table stays exact and the value published is the
    earliest armed expiry. *)
Theorem hrtimer_service_spec now st :
  wf st -> 0 <= now < U64_MAX -> (forall id, 0 <= period (timers st id)) ->
  (now < next st -> forall id, id ∈ active st -> now < expires (timers st id))
  /\ let '(due, ts, a) := collect (length (active st)) now 0 [] (timers st) (active st) in
     wf (mkState ts a (recompute ts a)) /\ NoDup due
     /\ (forall id, id ∈ due -> was_due now (timers st id) (ts id))
     /\ (forall id, id ∉ due -> was_left now (timers st id) (ts id))
     /\ (length due = MAX_DUE \/ forall id, id ∈ a -> settled now (ts id)).
Proof.
  intros [N A C X] Hnow Hper. split.
  { intros Hn id Hid. pose proof (recompute_le (timers st) (active st) id Hid). rewrite <- X in *. lia. }
  assert (loop_inv now (timers st) 0 [] (timers st) (active st)) as I0.
  { split; try done.
    - apply NoDup_nil_2.
    - cbn. unfold MAX_DUE. lia.
    - intros k id _ _. split; [apply not_elem_of_nil|done].
    - intros k id Hk. lia.
    - intros id Hid. by apply elem_of_nil in Hid.
    - intros id _. by left. }
  pose proof (collect_spec now (timers st) (length (active st)) 0 [] (timers st) (active st) Hnow Hper I0 ltac:(lia)) as H.
  destruct (collect _ _ _ _ _ _) as [[due ts] a]. destruct H as (i & [N' A' D' C' R' S' F' U'] & Hl & Hd).
  split; [split; cbn; try done; lia|]. split; [done|]. split; [done|]. split; [done|]. destruct Hd as [Hd|Hd]; [by left|right].
  intros id Hid. apply list_elem_of_lookup in Hid as [k Hk]. apply (S' k); [|done]. apply lookup_lt_Some in Hk. lia.
Qed.

Lemma hrtimer_service_spec_witness :
  (150 < next demo_state -> forall id, id ∈ active demo_state -> 150 < expires (timers demo_state id))
  /\ let '(due, ts, a) := collect (length (active demo_state)) 150 0 [] (timers demo_state) (active demo_state) in
     wf (mkState ts a (recompute ts a)) /\ NoDup due
     /\ (forall id, id ∈ due -> was_due 150 (timers demo_state id) (ts id))
     /\ (forall id, id ∉ due -> was_left 150 (timers demo_state id) (ts id))
     /\ (length due = MAX_DUE \/ forall id, id ∈ a -> settled 150 (ts id)).
Proof. apply (hrtimer_service_spec 150 demo_state demo_state_wf); [unfold U64_MAX; lia|]. cbn. lia. Defined.

Example demo_service : (service (fun _ st => st) (fun _ => true) false 150 demo_state).1 = (180, Some 180).
Proof. vm_compute. reflexivity. Qed.
