(* ===== verification/FutexTable.v ===== *)
(** * The futex waiter table

    Models [FutexTable] of [src/sched/src/futex.rs]: the waiter slots, the
    doubly linked chain of each address bucket threaded through the [next] and
    [prev] arrays, and the occupancy bitmap.  An array access out of range
    panics in the source; [ft_ok] keeps every index of the model in range.

    The abstract table is one list of (slot, waiter) pairs in arrival order:
    hashing, links and the bitmap disappear.  [repr t L] relates the two, and
    the operations are proved to be append, delete and delete-then-append on
    [L]. *)
From S2P Require Import Prelude KLib PidMap Task.

(** ** State *)
Record FutexWaiter := mkWaiter {
  w_pid : Z; w_uaddr : Z; w_tgid : Z; w_private : bool; w_woken : bool }.

Definition MAX_FUTEX_WAITERS : nat := MAX_TASKS.
Definition NIL : Z := 65535.
Definition FUTEX_BUCKETS : nat := 256.
Definition USED_WORDS : nat := 64.

Record FutexTable := mkTable {
  ft_slot : list (option FutexWaiter);
  ft_next : list Z;
  ft_prev : list Z;
  ft_head : list Z;
  ft_tail : list Z;
  ft_used : list Z }.

Definition bucket (uaddr : Z) : nat :=
  Z.to_nat (Z.land (Z.shiftr (wrap64 (Z.shiftr uaddr 2 * 0x9E3779B97F4A7C15)) 56) 255).

Definition new_table : FutexTable :=
  mkTable (replicate MAX_FUTEX_WAITERS None) (replicate MAX_FUTEX_WAITERS NIL)
    (replicate MAX_FUTEX_WAITERS NIL) (replicate FUTEX_BUCKETS NIL)
    (replicate FUTEX_BUCKETS NIL) (replicate USED_WORDS 0).

(** [self.slot[i]]. *)
Definition waiter (t : FutexTable) (i : nat) : option FutexWaiter := mjoin (ft_slot t !! i).
(** [bucket(self.slot[i].map_or(0, |w| w.uaddr))]. *)
Definition slot_bucket (t : FutexTable) (i : nat) : nat :=
  bucket (match waiter t i with Some w => w_uaddr w | None => 0 end).

Definition link_tail (i : nat) (t : FutexTable) : FutexTable :=
  let b := slot_bucket t i in
  let tl := word_at (ft_tail t) b in
  let prev := <[i := tl]> (ft_prev t) in
  let next := <[i := NIL]> (ft_next t) in
  let '(head, next) :=
    if tl =? NIL then (<[b := Z.of_nat i]> (ft_head t), next)
    else (ft_head t, <[Z.to_nat tl := Z.of_nat i]> next) in
  mkTable (ft_slot t) next prev head (<[b := Z.of_nat i]> (ft_tail t)) (ft_used t).

Definition unlink (i : nat) (t : FutexTable) : FutexTable :=
  let b := slot_bucket t i in
  let p := word_at (ft_prev t) i in
  let n := word_at (ft_next t) i in
  let '(head, next) :=
    if p =? NIL then (<[b := n]> (ft_head t), ft_next t)
    else (ft_head t, <[Z.to_nat p := n]> (ft_next t)) in
  let '(tail, prev) :=
    if n =? NIL then (<[b := p]> (ft_tail t), ft_prev t)
    else (ft_tail t, <[Z.to_nat n := p]> (ft_prev t)) in
  mkTable (ft_slot t) (<[i := NIL]> next) (<[i := NIL]> prev) head tail (ft_used t).

Definition set_slot (i : nat) (o : option FutexWaiter) (t : FutexTable) : FutexTable :=
  mkTable (<[i := o]> (ft_slot t)) (ft_next t) (ft_prev t) (ft_head t) (ft_tail t) (ft_used t).
Definition set_used (u : list Z) (t : FutexTable) : FutexTable :=
  mkTable (ft_slot t) (ft_next t) (ft_prev t) (ft_head t) (ft_tail t) u.

Definition insert_waiter (w : FutexWaiter) (t : FutexTable) : option nat * FutexTable :=
  match Bitmap.first_clear (ft_used t) with
  | None => (None, t)
  | Some i =>
      let t := set_used (Bitmap.set (ft_used t) i) t in
      let t := set_slot i (Some w) t in
      (Some i, link_tail i t)
  end.

Definition free_waiter (i : nat) (t : FutexTable) : FutexTable :=
  match waiter t i with
  | None => t
  | Some _ =>
      let t := set_slot i None (unlink i t) in
      set_used (Bitmap.clear (ft_used t) i) t
  end.

Definition with_uaddr (u : Z) (w : FutexWaiter) : FutexWaiter :=
  mkWaiter (w_pid w) u (w_tgid w) (w_private w) (w_woken w).
Definition with_woken (w : FutexWaiter) : FutexWaiter :=
  mkWaiter (w_pid w) (w_uaddr w) (w_tgid w) (w_private w) true.

(** [if let Some(w) = self.slot[i].as_mut() { .. }] *)
Definition update_waiter (i : nat) (f : FutexWaiter -> FutexWaiter) (t : FutexTable) : FutexTable :=
  match waiter t i with Some w => set_slot i (Some (f w)) t | None => t end.

Definition rekey (i : nat) (uaddr2 : Z) (t : FutexTable) : FutexTable :=
  link_tail i (update_waiter i (with_uaddr uaddr2) (unlink i t)).

(** Release slot [idx] if it is still [pid]'s registration. *)
Definition clear_slot (idx : nat) (pid : Z) (t : FutexTable) : FutexTable :=
  match waiter t idx with
  | Some w => if w_pid w =? pid then free_waiter idx t else t
  | None => t
  end.

Definition remove_visit (pid : Z) (t : FutexTable) (i : nat) : FutexTable :=
  match waiter t i with
  | Some w => if w_pid w =? pid then free_waiter i t else t
  | None => t
  end.
Definition remove_waiter (pid : Z) (t : FutexTable) : FutexTable :=
  scan_words (fun t k => word_at (ft_used t) k) (remove_visit pid) USED_WORDS t.

(** ** The abstract table *)
Notation entry := (nat * FutexWaiter)%type.
Definition in_bucket (b : nat) (e : entry) : bool := Nat.eqb (bucket (w_uaddr e.2)) b.
Definition chain (L : list entry) (b : nat) : list nat := (List.filter (in_bucket b) L).*1.

Definition a_free (i : nat) (L : list entry) : list entry :=
  List.filter (fun e => negb (Nat.eqb e.1 i)) L.
Definition a_update (i : nat) (f : FutexWaiter -> FutexWaiter) (L : list entry) : list entry :=
  (fun e => if Nat.eqb e.1 i then (i, f e.2) else e) <$> L.

(** Links: the first of [l], or [d]; the last of [l], or [d]. *)
Definition first_link (l : list nat) (d : Z) : Z :=
  match l with [] => d | i :: _ => Z.of_nat i end.
Definition last_link (d : Z) (l : list nat) : Z := from_option Z.of_nat d (last l).

(** [l] is linked: [p] comes before it and [n] after it. *)
Fixpoint dseg (nx pv : list Z) (p : Z) (l : list nat) (n : Z) : Prop :=
  match l with
  | [] => True
  | i :: l' =>
      word_at pv i = p /\ word_at nx i = first_link l' n /\ dseg nx pv (Z.of_nat i) l' n
  end.

Record linked (t : FutexTable) (b : nat) (l : list nat) : Prop := {
  lk_head : word_at (ft_head t) b = first_link l NIL;
  lk_tail : word_at (ft_tail t) b = last_link NIL l;
  lk_seg : dseg (ft_next t) (ft_prev t) NIL l NIL }.

(** What does not depend on the links. *)
Record ft_shape (t : FutexTable) : Prop := {
  fs_slot : length (ft_slot t) = MAX_FUTEX_WAITERS;
  fs_next : length (ft_next t) = MAX_FUTEX_WAITERS;
  fs_prev : length (ft_prev t) = MAX_FUTEX_WAITERS;
  fs_head : length (ft_head t) = FUTEX_BUCKETS;
  fs_tail : length (ft_tail t) = FUTEX_BUCKETS;
  fs_used : Bitmap.wf USED_WORDS (ft_used t) }.

Record repr (t : FutexTable) (L : list entry) : Prop := {
  r_shape : ft_shape t;
  r_used : forall i, Bitmap.get (ft_used t) i = bool_decide (is_Some (waiter t i));
  r_nodup : NoDup L.*1;
  r_slot : forall i w, waiter t i = Some w <-> (i, w) ∈ L;
  r_chain : forall b, (b < FUTEX_BUCKETS)%nat -> linked t b (chain L b) }.
Definition ft_ok (t : FutexTable) : Prop := exists L, repr t L.

(** ** Doubly linked segments *)
Lemma last_link_cons d i l : last_link d (i :: l) = last_link (Z.of_nat i) l.
Proof. unfold last_link. destruct l as [|j l]; [done|]. rewrite last_cons. by destruct (last (j :: l)) eqn:E; [|apply last_None in E]. Qed.
Lemma last_link_app d l i : last_link d (l ++ [i]) = Z.of_nat i.
Proof. unfold last_link. by rewrite last_snoc. Qed.
Lemma first_link_app l1 l2 n : first_link (l1 ++ l2) n = first_link l1 (first_link l2 n).
Proof. by destruct l1. Qed.

Lemma dseg_app nx pv p l1 l2 n :
  dseg nx pv p (l1 ++ l2) n <->
  dseg nx pv p l1 (first_link l2 n) /\ dseg nx pv (last_link p l1) l2 n.
Proof.
  revert p. induction l1 as [|i l1 IH]; intros p; [cbn; naive_solver|].
  cbn [app dseg]. rewrite IH, first_link_app, last_link_cons. naive_solver.
Qed.

(** Writes outside a segment do not touch it. *)
Lemma dseg_frame nx pv nx' pv' p l n :
  (forall i, i ∈ l -> word_at nx' i = word_at nx i) ->
  (forall i, i ∈ l -> word_at pv' i = word_at pv i) ->
  dseg nx pv p l n -> dseg nx' pv' p l n.
Proof.
  revert p. induction l as [|i l IH]; intros p Hn Hp; [done|]. cbn. intros (H1 & H2 & H3).
  rewrite Hn, Hp by (by left). split_and!; [done..|].
  apply IH; [intros j Hj; apply Hn|intros j Hj; apply Hp|done]; by right.
Qed.

Lemma dseg_frame_next nx pv i x p l n :
  i ∉ l -> dseg nx pv p l n -> dseg (<[i := x]> nx) pv p l n.
Proof.
  intros Hi. apply dseg_frame; [|done]. intros j Hj. apply word_at_insert_ne. set_solver.
Qed.
Lemma dseg_frame_prev nx pv i x p l n :
  i ∉ l -> dseg nx pv p l n -> dseg nx (<[i := x]> pv) p l n.
Proof.
  intros Hi. apply dseg_frame; [done|]. intros j Hj. apply word_at_insert_ne. set_solver.
Qed.

(** Redirecting the last [next] link of a segment to [n']. *)
Lemma dseg_set_last nx pv p l k n n' :
  NoDup (l ++ [k]) -> (k < length nx)%nat ->
  dseg nx pv p (l ++ [k]) n -> dseg (<[k := n']> nx) pv p (l ++ [k]) n'.
Proof.
  intros [_ [Hnk _]]%NoDup_app Hk. rewrite !dseg_app. cbn [dseg first_link].
  intros (H1 & H2 & H3 & _). assert (k ∉ l) as Hkl by (intros ?; eapply Hnk; [done|by left]).
  split; [by apply dseg_frame_next|]. by rewrite word_at_insert_eq.
Qed.

(** Redirecting the first [prev] link of a segment to [p']. *)
Lemma dseg_set_first nx pv p k l n p' :
  NoDup (k :: l) -> (k < length pv)%nat ->
  dseg nx pv p (k :: l) n -> dseg nx (<[k := p']> pv) p' (k :: l) n.
Proof.
  intros [Hk Hn]%NoDup_cons Hl (H1 & H2 & H3). cbn. rewrite word_at_insert_eq by done.
  split_and!; [done..|]. by apply dseg_frame_prev.
Qed.

(** ** The abstract list *)
Lemma chain_elem L b i : i ∈ chain L b <-> exists w, (i, w) ∈ L /\ bucket (w_uaddr w) = b.
Proof.
  unfold chain. rewrite list_elem_of_fmap. split.
  - intros ([j w] & -> & Hin). apply list_elem_of_In, List.filter_In in Hin as [Hin Hb].
    apply Nat.eqb_eq in Hb. apply list_elem_of_In in Hin. eauto.
  - intros (w & Hin & Hb). exists (i, w). split; [done|]. apply list_elem_of_In, List.filter_In.
    split; [by apply list_elem_of_In|]. by apply Nat.eqb_eq.
Qed.

Lemma chain_app L1 L2 b : chain (L1 ++ L2) b = chain L1 b ++ chain L2 b.
Proof. unfold chain. by rewrite List.filter_app, fmap_app. Qed.

Lemma chain_sub L b : chain L b `sublist_of` L.*1.
Proof.
  unfold chain. induction L as [|e L IH]; [constructor|]. cbn [List.filter].
  destruct (in_bucket b e); cbn; by constructor.
Qed.

Lemma chain_nodup L b : NoDup L.*1 -> NoDup (chain L b).
Proof. intros H. eapply sublist_NoDup; [|apply chain_sub]. done. Qed.

Lemma a_free_elem i L j w : (j, w) ∈ a_free i L <-> j <> i /\ (j, w) ∈ L.
Proof.
  unfold a_free. rewrite !list_elem_of_In, List.filter_In. cbn.
  rewrite negb_true_iff, Nat.eqb_neq. naive_solver.
Qed.

Lemma filter_keep {A} (f : A -> bool) l : (forall x, x ∈ l -> f x = true) -> List.filter f l = l.
Proof.
  induction l as [|x l IH]; intros H; [done|]. cbn. rewrite H by (by left). f_equal. apply IH.
  intros y Hy. apply H. by right.
Qed.

Lemma a_free_absent i L : i ∉ L.*1 -> a_free i L = L.
Proof.
  unfold a_free. induction L as [|e L IH]; [done|]. cbn. rewrite not_elem_of_cons. intros [H1 H2].
  destruct (Nat.eqb_spec e.1 i); [congruence|]. cbn. by rewrite IH.
Qed.

(** A registered slot splits the list in one way. *)
Lemma a_split i w L :
  NoDup L.*1 -> (i, w) ∈ L ->
  exists L1 L2, L = L1 ++ (i, w) :: L2 /\ i ∉ L1.*1 /\ i ∉ L2.*1 /\ a_free i L = L1 ++ L2.
Proof.
  intros Hn (L1 & L2 & ->)%list_elem_of_split. rewrite fmap_app, fmap_cons in Hn. cbn in Hn.
  apply NoDup_app in Hn as (H1 & H2 & [H3 H4]%NoDup_cons).
  assert (i ∉ L1.*1) as Hi by (intros Hi; apply (H2 i Hi); by left).
  exists L1, L2. split_and!; [done..|]. unfold a_free. rewrite List.filter_app. cbn.
  rewrite Nat.eqb_refl. cbn. f_equal; by apply a_free_absent.
Qed.

Lemma a_free_nodup i L : NoDup L.*1 -> NoDup (a_free i L).*1.
Proof.
  intros H. eapply sublist_NoDup; [exact H|]. clear H. unfold a_free. induction L as [|e L IH]; [constructor|]. cbn.
  destruct (negb _); cbn; by constructor.
Qed.

(** ** Links of one bucket *)
Definition in_range (l : list nat) : Prop := forall i, i ∈ l -> (i < MAX_FUTEX_WAITERS)%nat.

Lemma in_range_app l1 l2 : in_range (l1 ++ l2) -> in_range l1 /\ in_range l2.
Proof. intros H. split; intros i Hi; apply H, elem_of_app; auto. Qed.

Lemma idx_not_nil i : (i < MAX_FUTEX_WAITERS)%nat -> (Z.of_nat i =? NIL) = false.
Proof. intros H. apply Z.eqb_neq. unfold MAX_FUTEX_WAITERS, MAX_TASKS, NIL in *. lia. Qed.

Lemma first_link_nil l : in_range l -> (first_link l NIL =? NIL) = bool_decide (l = []).
Proof.
  intros H. destruct l as [|i l]; [done|]. rewrite bool_decide_eq_false_2 by done.
  apply idx_not_nil, H. by left.
Qed.
Lemma last_link_nil l : in_range l -> (last_link NIL l =? NIL) = bool_decide (l = []).
Proof.
  intros H. destruct l as [|k l' _] using rev_ind; [done|].
  rewrite bool_decide_eq_false_2 by (by destruct l'). rewrite last_link_app.
  apply idx_not_nil, H, elem_of_app. right. by left.
Qed.

(** The two updates an unlink performs on its neighbours. *)
Definition relink_next (nx : list Z) (l : list nat) (y : Z) : list Z :=
  if bool_decide (l = []) then nx else <[Z.to_nat (last_link NIL l) := y]> nx.
Definition relink_prev (pv : list Z) (l : list nat) (y : Z) : list Z :=
  if bool_decide (l = []) then pv else <[Z.to_nat (first_link l NIL) := y]> pv.

Lemma relink_next_length nx l y : length (relink_next nx l y) = length nx.
Proof. unfold relink_next. destruct (bool_decide _); [done|]. apply length_insert. Qed.
Lemma relink_prev_length pv l y : length (relink_prev pv l y) = length pv.
Proof. unfold relink_prev. destruct (bool_decide _); [done|]. apply length_insert. Qed.

Lemma relink_next_ne nx l y j : j ∉ l -> word_at (relink_next nx l y) j = word_at nx j.
Proof.
  intros Hj. unfold relink_next. destruct l as [|k l _] using rev_ind; [done|].
  rewrite bool_decide_eq_false_2 by (by destruct l). rewrite last_link_app, Nat2Z.id.
  apply word_at_insert_ne. set_solver.
Qed.
Lemma relink_prev_ne pv l y j : j ∉ l -> word_at (relink_prev pv l y) j = word_at pv j.
Proof.
  intros Hj. unfold relink_prev. destruct l as [|k l]; [done|].
  rewrite bool_decide_eq_false_2 by done. cbn [first_link]. rewrite Nat2Z.id.
  apply word_at_insert_ne. set_solver.
Qed.

Lemma dseg_relink_next nx pv l x y :
  NoDup l -> in_range l -> length nx = MAX_FUTEX_WAITERS ->
  dseg nx pv NIL l x -> dseg (relink_next nx l y) pv NIL l y.
Proof.
  intros Hn Hr Hl. unfold relink_next. destruct l as [|k l _] using rev_ind; [done|].
  rewrite bool_decide_eq_false_2 by (by destruct l). rewrite last_link_app, Nat2Z.id.
  apply dseg_set_last; [done|]. rewrite Hl. apply Hr, elem_of_app. right. by left.
Qed.
Lemma dseg_relink_prev nx pv l x y :
  NoDup l -> in_range l -> length pv = MAX_FUTEX_WAITERS ->
  dseg nx pv x l NIL -> dseg nx (relink_prev pv l y) y l NIL.
Proof.
  intros Hn Hr Hl. unfold relink_prev. destruct l as [|k l]; [done|].
  rewrite bool_decide_eq_false_2 by done. cbn [first_link]. rewrite Nat2Z.id.
  apply dseg_set_first; [done|]. rewrite Hl. apply Hr. by left.
Qed.

Section links.
Context (t : FutexTable) (Hs : ft_shape t).

(** [unlink] in terms of the two parts of the chain around slot [i]. *)
Lemma futex_unlink_eq i b l1 l2 :
  slot_bucket t i = b -> in_range (l1 ++ i :: l2) -> linked t b (l1 ++ i :: l2) ->
  unlink i t =
    mkTable (ft_slot t) (<[i := NIL]> (relink_next (ft_next t) l1 (first_link l2 NIL)))
      (<[i := NIL]> (relink_prev (ft_prev t) l2 (last_link NIL l1)))
      (if bool_decide (l1 = []) then <[b := first_link l2 NIL]> (ft_head t) else ft_head t)
      (if bool_decide (l2 = []) then <[b := last_link NIL l1]> (ft_tail t) else ft_tail t)
      (ft_used t).
Proof.
  intros <- Hr [_ _ Hseg]. apply in_range_app in Hr as [Hr1 Hr2].
  assert (in_range l2) as Hr3 by (intros j Hj; apply Hr2; by right).
  apply dseg_app in Hseg as [_ (Hp & Hx & _)]. unfold unlink. cbv zeta. rewrite Hp, Hx.
  rewrite last_link_nil, first_link_nil by done. unfold relink_next, relink_prev.
  by destruct (bool_decide (l1 = [])), (bool_decide (l2 = [])).
Qed.

Lemma linked_unlink i b l1 l2 :
  slot_bucket t i = b -> (b < FUTEX_BUCKETS)%nat ->
  NoDup (l1 ++ i :: l2) -> in_range (l1 ++ i :: l2) ->
  linked t b (l1 ++ i :: l2) -> linked (unlink i t) b (l1 ++ l2).
Proof.
  intros Hib Hb Hn Hr Hl. rewrite (futex_unlink_eq i b l1 l2) by done. destruct Hl as [Hh Ht Hseg].
  apply in_range_app in Hr as [Hr1 Hr2].
  assert (in_range l2) as Hr3 by (intros j Hj; apply Hr2; by right).
  apply dseg_app in Hseg as [Hs1 (Hp & Hx & Hs2)]. cbn [first_link] in Hs1.
  apply NoDup_app in Hn as (Hn1 & Hd & [Hi2 Hn2]%NoDup_cons).
  assert (i ∉ l1) as Hi1 by (intros H; eapply Hd; [done|by left]).
  destruct Hs as [_ S2 S3 S4 S5 _]. split; cbn [ft_head ft_tail ft_next ft_prev].
  - rewrite first_link_app in *. destruct l1 as [|k l1].
    + rewrite bool_decide_eq_true_2 by done. by rewrite word_at_insert_eq by lia.
    + by rewrite bool_decide_eq_false_2.
  - destruct l2 as [|k l2].
    + rewrite bool_decide_eq_true_2, app_nil_r by done. by rewrite word_at_insert_eq by lia.
    + rewrite bool_decide_eq_false_2 by done. rewrite Ht. unfold last_link.
      by rewrite !last_app_cons, last_cons_cons.
  - apply dseg_app. split; apply dseg_frame_next, dseg_frame_prev; try done.
    + eapply dseg_frame; [done| |by apply (dseg_relink_next _ _ _ (Z.of_nat i))].
      intros j Hj. apply relink_prev_ne. intros ?. eapply Hd; [done|by right].
    + eapply dseg_frame; [|done|by apply (dseg_relink_prev _ _ _ (Z.of_nat i))].
      intros j Hj. apply relink_next_ne. intros ?. eapply Hd; [done|by right].
Qed.

Lemma linked_unlink_other i b l1 l2 b' l :
  slot_bucket t i = b -> in_range (l1 ++ i :: l2) -> linked t b (l1 ++ i :: l2) ->
  b' <> b -> (forall j, j ∈ l -> j ∉ l1 ++ i :: l2) -> linked t b' l -> linked (unlink i t) b' l.
Proof.
  intros Hib Hr Hl Hne Hd [Hh Ht Hseg]. rewrite (futex_unlink_eq i b l1 l2) by done.
  split; cbn [ft_head ft_tail ft_next ft_prev].
  - destruct (bool_decide _); [|done]. by rewrite word_at_insert_ne.
  - destruct (bool_decide _); [|done]. by rewrite word_at_insert_ne.
  - assert (i ∉ l) by (intros H; apply (Hd i H); set_solver).
    apply dseg_frame_next, dseg_frame_prev; try done. revert Hseg. apply dseg_frame.
    + intros j Hj. apply relink_next_ne. specialize (Hd j Hj). set_solver.
    + intros j Hj. apply relink_prev_ne. specialize (Hd j Hj). set_solver.
Qed.

Lemma link_tail_eq i b l :
  slot_bucket t i = b -> in_range l -> linked t b l ->
  link_tail i t =
    mkTable (ft_slot t) (relink_next (<[i := NIL]> (ft_next t)) l (Z.of_nat i))
      (<[i := last_link NIL l]> (ft_prev t))
      (if bool_decide (l = []) then <[b := Z.of_nat i]> (ft_head t) else ft_head t)
      (<[b := Z.of_nat i]> (ft_tail t)) (ft_used t).
Proof.
  intros <- Hr [_ Ht _]. unfold link_tail. cbv zeta. rewrite Ht, last_link_nil by done.
  unfold relink_next. by destruct (bool_decide _).
Qed.

Lemma linked_link_tail i b l :
  slot_bucket t i = b -> (b < FUTEX_BUCKETS)%nat -> (i < MAX_FUTEX_WAITERS)%nat ->
  NoDup l -> in_range l -> i ∉ l -> linked t b l -> linked (link_tail i t) b (l ++ [i]).
Proof.
  intros Hib Hb Hi Hn Hr Hil Hl. rewrite (link_tail_eq i b l) by done.
  destruct Hl as [Hh Ht Hseg], Hs as [_ S2 S3 S4 S5 _]. split; cbn [ft_head ft_tail ft_next ft_prev].
  - rewrite first_link_app. destruct l as [|k l].
    + rewrite bool_decide_eq_true_2 by done. by rewrite word_at_insert_eq by lia.
    + by rewrite bool_decide_eq_false_2.
  - rewrite last_link_app. by rewrite word_at_insert_eq by lia.
  - apply dseg_app. cbn [first_link dseg]. split_and!.
    + apply dseg_frame_prev; [done|]. apply (dseg_relink_next _ _ _ NIL); [done..| |].
      * by rewrite length_insert.
      * by apply dseg_frame_next.
    + rewrite word_at_insert_eq by lia. done.
    + rewrite relink_next_ne by done. by rewrite word_at_insert_eq by lia.
    + done.
Qed.

Lemma linked_link_tail_other i b l b' l' :
  slot_bucket t i = b -> in_range l -> linked t b l -> b' <> b -> i ∉ l' ->
  (forall j, j ∈ l' -> j ∉ l) -> linked t b' l' -> linked (link_tail i t) b' l'.
Proof.
  intros Hib Hr Hl Hne Hi Hd [Hh Ht Hseg]. rewrite (link_tail_eq i b l) by done.
  split; cbn [ft_head ft_tail ft_next ft_prev].
  - destruct (bool_decide _); [|done]. by rewrite word_at_insert_ne.
  - by rewrite word_at_insert_ne.
  - apply dseg_frame_prev; [done|]. apply (dseg_frame_next _ _ i NIL) in Hseg; [|done].
    revert Hseg. apply dseg_frame; [|done]. intros j Hj. by apply relink_next_ne, Hd.
Qed.

End links.

(** ** All buckets *)
Lemma bucket_lt u : (bucket u < FUTEX_BUCKETS)%nat.
Proof.
  unfold bucket, FUTEX_BUCKETS. change 255 with (Z.ones 8). rewrite Z.land_ones by lia.
  pose proof (Z.mod_pos_bound (Z.shiftr (wrap64 (Z.shiftr u 2 * 0x9E3779B97F4A7C15)) 56) (2 ^ 8)). lia.
Qed.

Definition chains (t : FutexTable) (L : list entry) : Prop :=
  forall b, (b < FUTEX_BUCKETS)%nat -> linked t b (chain L b).

Lemma slot_bucket_some t i w : waiter t i = Some w -> slot_bucket t i = bucket (w_uaddr w).
Proof. unfold slot_bucket. by intros ->. Qed.

Lemma chain_range L b : in_range L.*1 -> in_range (chain L b).
Proof. intros H i Hi. apply H. eapply elem_of_sublist; [exact Hi|apply chain_sub]. Qed.

Lemma chain_disjoint L b b' i : NoDup L.*1 -> i ∈ chain L b -> i ∈ chain L b' -> b = b'.
Proof.
  intros Hn (w & H1 & <-)%chain_elem (w' & H2 & <-)%chain_elem.
  apply list_elem_of_lookup in H1 as [k1 H1], H2 as [k2 H2].
  assert (k1 = k2) as ->; [|congruence].
  eapply (NoDup_lookup L.*1 k1 k2 i Hn); by rewrite list_lookup_fmap, ?H1, ?H2.
Qed.

Lemma chain_self i w L1 L2 :
  chain (L1 ++ (i, w) :: L2) (bucket (w_uaddr w)) =
  chain L1 (bucket (w_uaddr w)) ++ i :: chain L2 (bucket (w_uaddr w)).
Proof. rewrite chain_app. f_equal. unfold chain. cbn. unfold in_bucket. cbn. by rewrite Nat.eqb_refl. Qed.
Lemma chain_other i w L1 L2 b :
  b <> bucket (w_uaddr w) -> chain (L1 ++ (i, w) :: L2) b = chain (L1 ++ L2) b.
Proof.
  intros Hb. rewrite !chain_app. f_equal. unfold chain. cbn. unfold in_bucket. cbn.
  by destruct (Nat.eqb_spec (bucket (w_uaddr w)) b).
Qed.

Lemma chains_unlink t L i w :
  ft_shape t -> chains t L -> NoDup L.*1 -> in_range L.*1 ->
  waiter t i = Some w -> (i, w) ∈ L -> chains (unlink i t) (a_free i L).
Proof.
  intros Hs Hc Hn Hr Hw Hin b Hb. pose proof (bucket_lt (w_uaddr w)) as Hbw.
  pose proof (Hc _ Hbw) as Hl. pose proof (chain_range L (bucket (w_uaddr w)) Hr) as Hcr.
  pose proof (chain_nodup L (bucket (w_uaddr w)) Hn) as Hcn.
  destruct (a_split i w L Hn Hin) as (L1 & L2 & HL & _ & _ & ->).
  assert (forall b' j, b' <> bucket (w_uaddr w) -> j ∈ chain L b' -> j ∉ chain L (bucket (w_uaddr w))) as Hd.
  { intros b' j Hne H1 H2. apply Hne. exact (chain_disjoint L _ _ j Hn H1 H2). }
  specialize (Hd b). specialize (Hc b Hb). subst L. rewrite chain_self in *. apply slot_bucket_some in Hw.
  destruct (decide (b = bucket (w_uaddr w))) as [->|Hne].
  - rewrite chain_app. by apply linked_unlink.
  - rewrite chain_other in * by done. apply (linked_unlink_other t Hs i (bucket (w_uaddr w)) (chain L1 (bucket (w_uaddr w)))
      (chain L2 (bucket (w_uaddr w)))); try done. intros j Hj. by apply Hd.
Qed.

Lemma chains_link t L i w :
  ft_shape t -> chains t L -> NoDup L.*1 -> in_range L.*1 -> (i < MAX_FUTEX_WAITERS)%nat ->
  waiter t i = Some w -> i ∉ L.*1 -> chains (link_tail i t) (L ++ [(i, w)]).
Proof.
  intros Hs Hc Hn Hr Hi Hw Hin b Hb. pose proof (bucket_lt (w_uaddr w)) as Hbw.
  assert (forall b', i ∉ chain L b') as Hni by (intros b' H; apply Hin; eapply elem_of_sublist; [done|apply chain_sub]).
  apply slot_bucket_some in Hw. destruct (decide (b = bucket (w_uaddr w))) as [->|Hne].
  - rewrite chain_self. apply linked_link_tail; auto using chain_nodup, chain_range.
  - rewrite chain_other, app_nil_r by done.
    apply (linked_link_tail_other t i (bucket (w_uaddr w)) (chain L (bucket (w_uaddr w))));
      auto using chain_range. intros j H1 H2. destruct Hne. exact (chain_disjoint L _ _ j Hn H1 H2).
Qed.

Lemma chains_same t t' L :
  ft_next t' = ft_next t -> ft_prev t' = ft_prev t -> ft_head t' = ft_head t -> ft_tail t' = ft_tail t ->
  chains t L -> chains t' L.
Proof. intros E1 E2 E3 E4 Hc b Hb. destruct (Hc b Hb). split; by rewrite ?E1, ?E2, ?E3, ?E4. Qed.

Lemma a_update_absent i f L : i ∉ L.*1 -> a_update i f L = L.
Proof.
  unfold a_update. induction L as [|e L IH]; [done|]. cbn. rewrite not_elem_of_cons. intros [H1 H2].
  rewrite IH by done. by destruct (Nat.eqb_spec e.1 i).
Qed.
Lemma a_update_mid i f w L1 L2 :
  i ∉ L1.*1 -> i ∉ L2.*1 -> a_update i f (L1 ++ (i, w) :: L2) = L1 ++ (i, f w) :: L2.
Proof.
  intros H1 H2. unfold a_update. rewrite fmap_app, fmap_cons. cbn. rewrite Nat.eqb_refl.
  fold (a_update i f L1) (a_update i f L2). by rewrite !a_update_absent.
Qed.
Lemma a_update_fst i f L : (a_update i f L).*1 = L.*1.
Proof.
  unfold a_update. rewrite <- list_fmap_compose. apply list_fmap_ext. intros k e _. cbn.
  destruct (Nat.eqb_spec e.1 i); cbn; congruence.
Qed.
Lemma a_update_chain i f L b :
  (forall w, w_uaddr (f w) = w_uaddr w) -> chain (a_update i f L) b = chain L b.
Proof.
  intros Hf. unfold chain, a_update. induction L as [|[j w] L IH]; [done|]. cbn.
  assert (in_bucket b (i, f w) = in_bucket b (i, w)) as Hb by (unfold in_bucket; cbn; by rewrite Hf).
  destruct (Nat.eqb_spec j i) as [->|]; rewrite ?Hb; clear Hb;
    (destruct (in_bucket b _); [cbn; f_equal|]; exact IH).
Qed.

(** ** Slots *)
Lemma waiter_set_slot t i o j :
  length (ft_slot t) = MAX_FUTEX_WAITERS -> (i < MAX_FUTEX_WAITERS)%nat ->
  waiter (set_slot i o t) j = if decide (i = j) then o else waiter t j.
Proof.
  intros Hl Hi. unfold waiter. cbn. destruct (decide (i = j)) as [->|].
  - by rewrite list_lookup_insert_eq by lia.
  - by rewrite list_lookup_insert_ne.
Qed.

Lemma waiter_lt t i w : length (ft_slot t) = MAX_FUTEX_WAITERS -> waiter t i = Some w -> (i < MAX_FUTEX_WAITERS)%nat.
Proof.
  unfold waiter. intros Hl H. destruct (ft_slot t !! i) eqn:E; [|done]. rewrite <- Hl. by eapply lookup_lt_Some.
Qed.

Lemma link_tail_slot i t : ft_slot (link_tail i t) = ft_slot t /\ ft_used (link_tail i t) = ft_used t.
Proof. unfold link_tail. cbv zeta. by destruct (_ =? _). Qed.
Lemma unlink_slot i t : ft_slot (unlink i t) = ft_slot t /\ ft_used (unlink i t) = ft_used t.
Proof. unfold unlink. cbv zeta. by do 2 destruct (_ =? _). Qed.

Lemma link_tail_shape i t : ft_shape t -> ft_shape (link_tail i t).
Proof.
  intros [H1 H2 H3 H4 H5 H6]. unfold link_tail. cbv zeta.
  destruct (_ =? _); split; cbn; rewrite ?length_insert; done.
Qed.
Lemma unlink_shape i t : ft_shape t -> ft_shape (unlink i t).
Proof.
  intros [H1 H2 H3 H4 H5 H6]. unfold unlink. cbv zeta.
  do 2 destruct (_ =? _); split; cbn; rewrite ?length_insert; done.
Qed.
Lemma set_slot_shape i o t : ft_shape t -> ft_shape (set_slot i o t).
Proof. intros [H1 H2 H3 H4 H5 H6]. split; cbn; rewrite ?length_insert; done. Qed.

Lemma repr_range t L : repr t L -> in_range L.*1.
Proof.
  intros HR i Hi. apply list_elem_of_fmap in Hi as ([j w] & -> & Hin). cbn.
  eapply waiter_lt; [apply HR|]. by apply HR.
Qed.

(** The bit, slot and chain of the waiters agree in the initial table. *)
Lemma new_table_repr : repr new_table [].
Proof.
  split.
  - split; try apply length_replicate. apply Bitmap.wf_new.
  - intros i. cbn [ft_used new_table]. rewrite (Bitmap.get_new USED_WORDS).
    symmetry. apply bool_decide_eq_false_2. unfold waiter. cbn [ft_slot new_table].
    intros [w Hw]. destruct (replicate _ _ !! i) as [o|] eqn:E; [|done].
    apply lookup_replicate in E as [-> _]. done.
  - constructor.
  - intros i w. split; [|by intros ?%elem_of_nil]. unfold waiter. cbn [ft_slot new_table].
    destruct (replicate _ _ !! i) as [o|] eqn:E; [|done]. by apply lookup_replicate in E as [-> _].
  - intros b Hb. split; [..|done]; unfold word_at; cbn [ft_head ft_tail new_table];
      by rewrite lookup_replicate_2.
Qed.

(** ** Operations *)
Lemma get_waiter t L i : repr t L -> Bitmap.get (ft_used t) i = false <-> waiter t i = None.
Proof.
  intros HR. rewrite (r_used _ _ HR). rewrite bool_decide_eq_false, <- eq_None_not_Some. done.
Qed.

Lemma waiter_none_absent t L i : repr t L -> waiter t i = None -> i ∉ L.*1.
Proof.
  intros HR Hw Hi. apply list_elem_of_fmap in Hi as ([j w] & -> & Hin). cbn in Hw.
  apply (r_slot _ _ HR) in Hin. congruence.
Qed.

Lemma full_length t L :
  repr t L -> (forall j, (j < MAX_FUTEX_WAITERS)%nat -> is_Some (waiter t j)) -> length L = MAX_FUTEX_WAITERS.
Proof.
  intros HR Hall. transitivity (length (seq 0 MAX_FUTEX_WAITERS)); [|apply length_seq].
  transitivity (length L.*1); [by rewrite length_fmap|].
  apply Permutation_length, NoDup_Permutation; [apply HR|apply NoDup_seq|].
  intros i. rewrite elem_of_seq. split.
  - intros Hi. apply (repr_range t L HR) in Hi. lia.
  - intros [_ Hi]. destruct (Hall i) as [w Hw]; [lia|]. apply (r_slot _ _ HR) in Hw.
    apply list_elem_of_fmap. by exists (i, w).
Qed.

Lemma insert_repr t L w :
  repr t L ->
  match insert_waiter w t with
  | (Some i, t') => waiter t i = None /\ (i < MAX_FUTEX_WAITERS)%nat
                    /\ (forall j, (j < i)%nat -> is_Some (waiter t j)) /\ repr t' (L ++ [(i, w)])
  | (None, t') => t' = t /\ length L = MAX_FUTEX_WAITERS
  end.
Proof.
  intros HR. pose proof (r_shape _ _ HR) as Hs. unfold insert_waiter.
  pose proof (Bitmap.first_clear_spec USED_WORDS (ft_used t) (fs_used t Hs)) as Hc.
  destruct (Bitmap.first_clear (ft_used t)) as [i|].
  2:{ split; [done|]. eapply full_length; [done|]. intros j Hj. specialize (Hc j Hj).
      rewrite (r_used _ _ HR) in Hc. by apply bool_decide_eq_true in Hc. }
  destruct Hc as (Hi & Hg & Hlow). change (USED_WORDS * 64)%nat with MAX_FUTEX_WAITERS in Hi.
  assert (waiter t i = None) as Hw by by apply (get_waiter t L).
  split; [done|]. split; [done|]. split.
  { intros j Hj. specialize (Hlow j Hj). rewrite (r_used _ _ HR) in Hlow. by apply bool_decide_eq_true in Hlow. }
  set (t1 := set_slot i (Some w) _).
  assert (forall j, waiter t1 j = if decide (i = j) then Some w else waiter t j) as Hw1.
  { intros j. exact (waiter_set_slot (set_used _ t) i (Some w) j (fs_slot t Hs) Hi). }
  assert (ft_shape t1) as Hs1.
  { destruct Hs as [S1 S2 S3 S4 S5 S6]. apply set_slot_shape. split; try done. by apply Bitmap.wf_set. }
  pose proof (waiter_none_absent t L i HR Hw) as Hni.
  destruct (link_tail_slot i t1) as [E1 E2].
  split.
  - by apply link_tail_shape.
  - intros j. unfold waiter. rewrite E1, E2. change (mjoin (ft_slot t1 !! j)) with (waiter t1 j). rewrite Hw1.
    change (ft_used t1) with (Bitmap.set (ft_used t) i).
    rewrite (Bitmap.get_set USED_WORDS) by (apply Hs || done). rewrite (r_used _ _ HR).
    destruct (decide (i = j)) as [->|Hne]; [by rewrite !bool_decide_eq_true_2 by eauto|].
    by rewrite (bool_decide_eq_false_2 (i = j)).
  - rewrite fmap_app. apply NoDup_app. split; [apply HR|]. split; [set_solver|apply NoDup_singleton].
  - intros j v. unfold waiter. rewrite E1. change (mjoin (ft_slot t1 !! j)) with (waiter t1 j). rewrite Hw1.
    rewrite elem_of_app, list_elem_of_singleton, <- (r_slot _ _ HR). destruct (decide (i = j)) as [<-|]; naive_solver.
  - apply chains_link; [done|exact (chains_same t t1 L eq_refl eq_refl eq_refl eq_refl (r_chain _ _ HR))|apply HR|by eapply repr_range|done| |done].
    rewrite Hw1. by rewrite decide_True.
Qed.

(** Writing a slot that stays occupied, with the same address. *)
Lemma update_repr t L i f :
  repr t L -> (forall w, w_uaddr (f w) = w_uaddr w) -> repr (update_waiter i f t) (a_update i f L).
Proof.
  intros HR Hf. unfold update_waiter. destruct (waiter t i) as [w|] eqn:Hw.
  2:{ pose proof (waiter_none_absent t L i HR Hw) as Hni. by rewrite a_update_absent. }
  pose proof (r_shape _ _ HR) as Hs. assert (i < MAX_FUTEX_WAITERS)%nat as Hi by (eapply waiter_lt; [apply Hs|done]).
  assert (forall j, waiter (set_slot i (Some (f w)) t) j = if decide (i = j) then Some (f w) else waiter t j) as Hw1.
  { intros j. apply waiter_set_slot; [apply Hs|done]. }
  split.
  - by apply set_slot_shape.
  - intros j. rewrite Hw1. cbn [ft_used set_slot]. rewrite (r_used _ _ HR).
    destruct (decide (i = j)) as [<-|]; [|done]. rewrite Hw. by rewrite !bool_decide_eq_true_2 by eauto.
  - rewrite a_update_fst. apply HR.
  - intros j v. rewrite Hw1. destruct (a_split i w L (r_nodup _ _ HR)) as (L1 & L2 & HL & H1 & H2 & _); [by apply HR|].
    rewrite HL, a_update_mid by done. rewrite elem_of_app, elem_of_cons.
    destruct (decide (i = j)) as [<-|Hne].
    + assert (forall v, (i, v) ∉ L1) by (intros v' Hv; apply H1, list_elem_of_fmap; by exists (i, v')).
      assert (forall v, (i, v) ∉ L2) by (intros v' Hv; apply H2, list_elem_of_fmap; by exists (i, v')).
      naive_solver.
    + rewrite (r_slot _ _ HR), HL, elem_of_app, elem_of_cons. naive_solver.
  - intros b Hb. rewrite a_update_chain by done. exact (chains_same t (set_slot i _ t) L eq_refl eq_refl eq_refl eq_refl (r_chain _ _ HR) b Hb).
Qed.

Lemma free_repr t L i : repr t L -> repr (free_waiter i t) (a_free i L).
Proof.
  intros HR. unfold free_waiter. destruct (waiter t i) as [w|] eqn:Hw.
  2:{ by rewrite a_free_absent by by eapply waiter_none_absent. }
  pose proof (r_shape _ _ HR) as Hs. assert (i < MAX_FUTEX_WAITERS)%nat as Hi by (eapply waiter_lt; [apply Hs|done]).
  destruct (unlink_slot i t) as [E1 E2]. pose proof (unlink_shape i t Hs) as Hs1. cbv zeta.
  set (t1 := set_slot i None (unlink i t)).
  assert (forall j, waiter t1 j = if decide (i = j) then None else waiter t j) as Hw1.
  { intros j. unfold t1. rewrite waiter_set_slot by (apply Hs1 || done). unfold waiter. by rewrite E1. }
  assert (ft_used t1 = ft_used t) as E3 by exact E2. split.
  - destruct (set_slot_shape i None _ Hs1) as [S1 S2 S3 S4 S5 S6]. split; try done.
    apply Bitmap.wf_clear, S6.
  - intros j. change (waiter _ j) with (waiter t1 j). rewrite Hw1. cbn [ft_used set_used]. rewrite E3.
    rewrite (Bitmap.get_clear USED_WORDS) by (apply Hs || done). rewrite (r_used _ _ HR).
    destruct (decide (i = j)) as [->|].
    + by rewrite bool_decide_eq_true_2.
    + by rewrite (bool_decide_eq_false_2 (i = j)).
  - apply a_free_nodup, HR.
  - intros j v. change (waiter _ j) with (waiter t1 j). rewrite Hw1, a_free_elem, <- (r_slot _ _ HR).
    destruct (decide (i = j)); naive_solver.
  - apply (chains_same (unlink i t)); try done. eapply chains_unlink; [done|exact (r_chain _ _ HR)|apply HR| |done|by apply HR].
    by eapply repr_range.
Qed.

Lemma rekey_repr t L i w u :
  repr t L -> waiter t i = Some w -> repr (rekey i u t) (a_free i L ++ [(i, with_uaddr u w)]).
Proof.
  intros HR Hw. pose proof (r_shape _ _ HR) as Hs.
  assert (i < MAX_FUTEX_WAITERS)%nat as Hi by (eapply waiter_lt; [apply Hs|done]).
  destruct (unlink_slot i t) as [E1 E2]. pose proof (unlink_shape i t Hs) as Hs1.
  unfold rekey, update_waiter. unfold waiter at 1. rewrite E1. change (mjoin _) with (waiter t i). rewrite Hw.
  set (t1 := set_slot i (Some (with_uaddr u w)) (unlink i t)).
  assert (forall j, waiter t1 j = if decide (i = j) then Some (with_uaddr u w) else waiter t j) as Hw1.
  { intros j. unfold t1. rewrite waiter_set_slot by (apply Hs1 || done). unfold waiter. by rewrite E1. }
  assert (ft_shape t1) as Hs2 by by apply set_slot_shape.
  destruct (link_tail_slot i t1) as [E3 E4].
  assert (forall j, waiter (link_tail i t1) j = waiter t1 j) as Hw2 by (intros j; unfold waiter; by rewrite E3).
  assert (i ∉ (a_free i L).*1) as Hni.
  { intros H. apply list_elem_of_fmap in H as ([j v] & -> & H). by apply a_free_elem in H as []. }
  assert (NoDup (a_free i L).*1) as Hn by apply a_free_nodup, HR.
  assert (chains t1 (a_free i L)) as Hc.
  { apply (chains_same (unlink i t)); try done. eapply chains_unlink; [done|exact (r_chain _ _ HR)|apply HR| |done|by apply HR].
    by eapply repr_range. }
  split.
  - by apply link_tail_shape.
  - intros j. rewrite Hw2, Hw1, E4. change (ft_used t1) with (ft_used (unlink i t)). rewrite E2, (r_used _ _ HR).
    destruct (decide (i = j)) as [<-|]; [|done]. rewrite Hw. by rewrite !bool_decide_eq_true_2 by eauto.
  - rewrite fmap_app. apply NoDup_app. split; [done|]. split; [set_solver|apply NoDup_singleton].
  - intros j v. rewrite Hw2, Hw1, elem_of_app, list_elem_of_singleton, a_free_elem, <- (r_slot _ _ HR).
    destruct (decide (i = j)) as [<-|]; naive_solver.
  - apply chains_link; try done.
    + intros j Hj. apply (repr_range t L HR). apply list_elem_of_fmap in Hj as ([k v] & -> & H).
      apply a_free_elem in H as [_ H]. apply list_elem_of_fmap. by exists (k, v).
    + rewrite Hw1. by rewrite decide_True.
Qed.

Lemma clear_slot_repr t L i p :
  repr t L ->
  repr (clear_slot i p t) (List.filter (fun e => negb (Nat.eqb e.1 i && (w_pid e.2 =? p))) L).
Proof.
  intros HR. unfold clear_slot. destruct (waiter t i) as [w|] eqn:Hw.
  - apply (r_slot _ _ HR) in Hw as Hin.
    replace (List.filter _ L) with (if w_pid w =? p then a_free i L else L); [destruct (w_pid w =? p)|].
    + by apply free_repr.
    + done.
    + destruct (a_split i w L (r_nodup _ _ HR) Hin) as (L1 & L2 & -> & H1 & H2 & ->).
      rewrite List.filter_app. cbn [List.filter fst snd]. rewrite Nat.eqb_refl. cbn [andb].
      rewrite !filter_keep; [by destruct (w_pid w =? p)|..]; intros [j v] Hj; cbn;
        (destruct (Nat.eqb_spec j i) as [->|]; [|done]); exfalso; [apply H2|apply H1];
        apply list_elem_of_fmap; by exists (i, v).
  - rewrite filter_keep; [done|]. intros [j v] Hj. cbn. destruct (Nat.eqb_spec j i) as [->|]; [|done].
    apply (r_slot _ _ HR) in Hj. congruence.
Qed.

(** [remove_waiter] visits every used slot. *)
Lemma remove_fold p l t L :
  repr t L ->
  repr (foldl (remove_visit p) t l)
    (List.filter (fun e => negb (bool_decide (e.1 ∈ l) && (w_pid e.2 =? p))) L).
Proof.
  revert t L. induction l as [|i l IH]; intros t L HR; cbn [foldl].
  { rewrite filter_keep; [done|]. intros e _. by rewrite bool_decide_eq_false_2 by apply not_elem_of_nil. }
  replace (List.filter _ L) with (List.filter (fun e => negb (bool_decide (e.1 ∈ l) && (w_pid e.2 =? p)))
    (List.filter (fun e => negb (Nat.eqb e.1 i && (w_pid e.2 =? p))) L)).
  { apply IH. exact (clear_slot_repr t L i p HR). }
  clear IH HR. induction L as [|e L IH]; [done|]. cbn. rewrite <- IH.
  assert (bool_decide (e.1 ∈ i :: l) = Nat.eqb e.1 i || bool_decide (e.1 ∈ l)) as ->.
  { destruct (Nat.eqb_spec e.1 i); cbn.
    - apply bool_decide_eq_true_2. subst. by left.
    - apply bool_decide_ext. rewrite elem_of_cons. naive_solver. }
  destruct (Nat.eqb e.1 i), (bool_decide (e.1 ∈ l)) eqn:E, (w_pid e.2 =? p) eqn:E'; cbn; rewrite ?E, ?E'; done.
Qed.

Lemma remove_bits p t i w :
  w <> (i / 64)%nat -> word_at (ft_used (remove_visit p t i)) w = word_at (ft_used t) w.
Proof.
  intros Hw. unfold remove_visit, free_waiter. destruct (waiter t i); [|done]. destruct (_ =? _); [|done].
  cbn [ft_used set_used set_slot]. rewrite (proj2 (unlink_slot i t)). by apply word_at_insert_ne.
Qed.

Lemma remove_repr t L p :
  repr t L -> repr (remove_waiter p t) (List.filter (fun e => negb (w_pid e.2 =? p)) L).
Proof.
  intros HR. unfold remove_waiter. rewrite (scan_words_snapshot ft_ok).
  - replace (List.filter _ L) with (List.filter (fun e => negb
      (bool_decide (e.1 ∈ words_slots (fun k => word_at (ft_used t) k) USED_WORDS) && (w_pid e.2 =? p))) L);
      [by apply remove_fold|].
    apply List.filter_ext_in. intros [i w] Hin%list_elem_of_In. cbn [fst snd]. rewrite bool_decide_eq_true_2; [done|].
    rewrite <- (proj1 (fs_used t (r_shape _ _ HR))).
    apply (Bitmap.elem_of_slots USED_WORDS); [apply HR|]. rewrite (r_used _ _ HR).
    apply bool_decide_eq_true_2. apply (r_slot _ _ HR) in Hin. by rewrite Hin.
  - intros s i w. apply remove_bits.
  - intros s i [L' HR']. eexists. exact (clear_slot_repr s L' i p HR').
  - intros s w [L' HR'] _. eapply Bitmap.wf_word_any, HR'.
  - by exists L.
Qed.

(** ** Property *)
(** C8: the table of linked chains refines the list of registrations in arrival
    order.  The empty table is the empty list; registering appends at the
    lowest free slot and fails, changing nothing, only when all
    [MAX_FUTEX_WAITERS] slots are taken; freeing deletes; re-keying moves the
    waiter to the end; [clear_slot] and [remove_waiter] delete exactly the
    registrations they name.  Each keeps the bitmap, the slots and every
    bucket's doubly linked chain in step. *)
Theorem futex_table_spec :
  repr new_table []
  /\ forall t L, repr t L ->
     (forall w, match insert_waiter w t with
                | (Some i, t') => waiter t i = None /\ (i < MAX_FUTEX_WAITERS)%nat
                    /\ (forall j, (j < i)%nat -> is_Some (waiter t j)) /\ repr t' (L ++ [(i, w)])
                | (None, t') => t' = t /\ length L = MAX_FUTEX_WAITERS
                end)
     /\ (forall i, repr (free_waiter i t) (a_free i L))
     /\ (forall i w u, waiter t i = Some w -> repr (rekey i u t) (a_free i L ++ [(i, with_uaddr u w)]))
     /\ (forall i p, repr (clear_slot i p t)
           (List.filter (fun e => negb (Nat.eqb e.1 i && (w_pid e.2 =? p))) L))
     /\ (forall p, repr (remove_waiter p t) (List.filter (fun e => negb (w_pid e.2 =? p)) L)).
Proof.
  split; [apply new_table_repr|]. intros t L HR.
  split; [intros w; exact (insert_repr t L w HR)|]. split; [intros i; exact (free_repr t L i HR)|].
  split; [intros i w u; exact (rekey_repr t L i w u HR)|].
  split; [intros i p; exact (clear_slot_repr t L i p HR)|intros p; exact (remove_repr t L p HR)].
Qed.
