(* ===== verification/Futex.v ===== *)
(** * Futex wait, wake and requeue

    Models [src/sched/src/futex.rs] over the waiter table of [FutexTable] and
    the run queue of [RunQueue], and [has_deliverable_signal_locked] of
    [src/sched/src/signal.rs].  [FUTEX_TABLE] and [RUN_QUEUE] are both held
    while one of these functions works on them, so each is a function on the
    pair.  [current_tgid()], the user word that was read and [monotonic_ns()]
    are arguments.  The IPI to an idle CPU and the deadline hint
    ([register_poll_deadline]) only make the scheduler look earlier; the
    [resched] flag that asks for the first is kept.

    A walk of a bucket's chain has fuel [MAX_FUTEX_WAITERS]; the theorems show
    that it is enough, as they give the result. *)
From S2P Require Import Prelude KLib PidMap Task RunQueue Wake Signals FutexTable.

(** ** Pending signals that would be delivered *)
Definition SIGDFL_IGNORE : Z :=
  Z.lor (Z.lor (Z.lor (Z.shiftl 1 16) (Z.shiftl 1 17)) (Z.shiftl 1 22)) (Z.shiftl 1 27).

(** The bits of [unmasked] are taken from the lowest up. *)
Definition bit_delivers (leader : option Task) (bit : nat) : bool :=
  let action := match leader with
                | Some l => nth bit (signal_actions l) DEFAULT_SIGACTION
                | None => DEFAULT_SIGACTION
                end in
  if handler action =? 0 then Z.land SIGDFL_IGNORE (Z.shiftl 1 (Z.of_nat bit)) =? 0
  else negb (handler action =? 1).

Definition has_deliverable_signal_locked (q : RunQueue) (p : Z) : bool :=
  match find_pid q p with
  | None => false
  | Some t =>
      let leader := find_pid q (tgid t) in
      let shared := match leader with Some l => shared_signal_pending l | None => 0 end in
      let unmasked := drop_bits (Z.lor (signal_pending t) shared) (signal_mask t) in
      existsb (bit_delivers leader) (bit_slots unmasked)
  end.

(** ** Keys *)
Definition key_matches (w : FutexWaiter) (uaddr tgid : Z) (private : bool) : bool :=
  if negb (w_uaddr w =? uaddr) then false
  else (w_tgid w =? tgid) || (negb (w_private w) && negb private).

(** ** Waking *)
Record WalkState := mkWalk {
  wk_tbl : FutexTable; wk_rq : RunQueue; wk_woken : Z; wk_requeued : Z; wk_resched : bool }.

(** The writes on a [Blocked] target. *)
Definition release (min_vr : Z) (t : Task) : Task :=
  if state_eqb (state t) Blocked
  then place min_vr (set_poll_deadline U64_MAX (set_blocked_futex 0 (set_state Ready t)))
  else t.

Definition is_blocked (q : RunQueue) (p : Z) : bool :=
  match find_pid q p with Some t => state_eqb (state t) Blocked | None => false end.

(** Claim the waiter of slot [cur], or drop it if its task is gone. *)
Definition claim (min_vr : Z) (cur : nat) (w : FutexWaiter) (s : WalkState) : WalkState :=
  match find_pid_idx (wk_rq s) (w_pid w) with
  | None => mkWalk (free_waiter cur (wk_tbl s)) (wk_rq s) (wk_woken s) (wk_requeued s) (wk_resched s)
  | Some idx =>
      mkWalk (update_waiter cur with_woken (wk_tbl s)) (modify idx (release min_vr) (wk_rq s))
        (wk_woken s + 1) (wk_requeued s) (wk_resched s || is_blocked (wk_rq s) (w_pid w))
  end.

Section walk.
Context (uaddr tgid : Z) (private : bool) (min_vr : Z).

Definition eligible (w : FutexWaiter) : bool := negb (w_woken w) && key_matches w uaddr tgid private.

Definition wake_visit (s : WalkState) (cur : nat) : WalkState :=
  match waiter (wk_tbl s) cur with
  | None => s
  | Some w => if eligible w then claim min_vr cur w s else s
  end.

Fixpoint wake_loop (fuel : nat) (n : Z) (i : Z) (s : WalkState) : option WalkState :=
  if i =? NIL then Some s
  else if n <=? wk_woken s then Some s
  else match fuel with
       | O => None
       | S fuel =>
           let cur := Z.to_nat i in
           let i := word_at (ft_next (wk_tbl s)) cur in
           wake_loop fuel n i (wake_visit s cur)
       end.

(** Move the parked waiter of slot [cur] to [uaddr2]. *)
Definition requeue_one (uaddr2 : Z) (cur : nat) (w : FutexWaiter) (s : WalkState) : WalkState :=
  match find_pid_idx (wk_rq s) (w_pid w) with
  | None => s
  | Some idx =>
      if is_blocked (wk_rq s) (w_pid w)
      then mkWalk (rekey cur uaddr2 (wk_tbl s)) (modify idx (set_blocked_futex uaddr2) (wk_rq s))
             (wk_woken s) (wk_requeued s + 1) (wk_resched s)
      else mkWalk (wk_tbl s) (touch idx (wk_rq s)) (wk_woken s) (wk_requeued s) (wk_resched s)
  end.

Definition requeue_visit (uaddr2 val limit : Z) (s : WalkState) (cur : nat) : WalkState :=
  match waiter (wk_tbl s) cur with
  | None => s
  | Some w =>
      if negb (eligible w) then s
      else if wk_woken s <? val then claim min_vr cur w s
      else if wk_requeued s <? limit then requeue_one uaddr2 cur w s
      else s
  end.

Fixpoint requeue_loop (fuel : nat) (uaddr2 val limit : Z) (last : Z) (i : Z) (s : WalkState)
    : option WalkState :=
  if i =? NIL then Some s
  else match fuel with
       | O => None
       | S fuel =>
           let cur := Z.to_nat i in
           let i := if i =? last then NIL else word_at (ft_next (wk_tbl s)) cur in
           requeue_loop fuel uaddr2 val limit last i (requeue_visit uaddr2 val limit s cur)
       end.

(** [futex_has_waiters]'s walk. *)
Fixpoint waiters_loop (fuel : nat) (except : Z) (t : FutexTable) (i : Z) : option bool :=
  if i =? NIL then Some false
  else match fuel with
       | O => None
       | S fuel =>
           if match waiter t (Z.to_nat i) with
              | Some w => negb (w_woken w) && negb (w_pid w =? except) && key_matches w uaddr tgid private
              | None => false
              end
           then Some true
           else waiters_loop fuel except t (word_at (ft_next t) (Z.to_nat i))
       end.
End walk.

(** The result is the count, and whether a task became runnable. *)
Definition futex_wake_keyed (uaddr n : Z) (private : bool) (tgid : Z) (t : FutexTable) (q : RunQueue)
    : option (Z * bool * FutexTable * RunQueue) :=
  s ← wake_loop uaddr tgid private (min_vruntime q) MAX_FUTEX_WAITERS n
        (word_at (ft_head t) (bucket uaddr)) (mkWalk t q 0 0 false);
  Some (wk_woken s, wk_resched s, wk_tbl s, wk_rq s).

Definition futex_requeue_keyed (uaddr uaddr2 val limit : Z) (private : bool) (tgid : Z)
    (t : FutexTable) (q : RunQueue) : option (Z * bool * FutexTable * RunQueue) :=
  let b := bucket uaddr in
  s ← requeue_loop uaddr tgid private (min_vruntime q) MAX_FUTEX_WAITERS uaddr2 val limit
        (word_at (ft_tail t) b) (word_at (ft_head t) b) (mkWalk t q 0 0 false);
  Some (wk_woken s + wk_requeued s, wk_resched s, wk_tbl s, wk_rq s).

Definition futex_has_waiters (uaddr : Z) (private : bool) (except tgid : Z) (t : FutexTable) : option bool :=
  waiters_loop uaddr tgid private MAX_FUTEX_WAITERS except t (word_at (ft_head t) (bucket uaddr)).

(** ** Waiting *)
Definition FUTEX_INTERRUPTED : Z := -512.
Definition ETIMEDOUT : Z := -110.

Definition wait_prepare (p uaddr tgid : Z) (private : bool) (t : FutexTable) : option nat * FutexTable :=
  insert_waiter (mkWaiter p uaddr tgid private false) t.

(** Was our slot claimed, or reclaimed by [remove_waiter]? *)
Definition slot_claimed (idx : nat) (p : Z) (t : FutexTable) : bool :=
  match waiter t idx with
  | Some w => if w_pid w =? p then w_woken w else true
  | None => true
  end.

Definition park_on_futex (uaddr : Z) (deadline : option Z) (t : Task) : Task :=
  set_poll_deadline (default U64_MAX deadline)
    (set_blocked_on None (set_blocked_futex uaddr (set_state Blocked t))).

(** [Some r] returns [r]; [None] parks. *)
Definition wait_commit (p uaddr expected current : Z) (deadline : option Z) (idx : nat)
    (t : FutexTable) (q : RunQueue) : option Z * FutexTable * RunQueue :=
  if slot_claimed idx p t then (Some 0, clear_slot idx p t, q)
  else if negb (current =? expected) then (Some EAGAIN, clear_slot idx p t, q)
  else if has_deliverable_signal_locked q p then (Some FUTEX_INTERRUPTED, clear_slot idx p t, q)
  else
    let q := modify_pid p (park_on_futex uaddr deadline) q in
    let q := match deadline with Some _ => note_timed_wait p q | None => q end in
    (None, t, q).

Definition unpark_futex (t : Task) : Task := set_poll_deadline U64_MAX (set_blocked_futex 0 t).

(** [Some r] returns [r]; [None] goes round the loop again. *)
Definition wait_resume (p : Z) (deadline : option Z) (now : Z) (idx : nat)
    (t : FutexTable) (q : RunQueue) : option Z * FutexTable * RunQueue :=
  let claimed := slot_claimed idx p t in
  let t := clear_slot idx p t in
  let q := modify_pid p unpark_futex q in
  let signalled := negb claimed && has_deliverable_signal_locked q p in
  let r :=
    if claimed then Some 0
    else match deadline with
         | Some dl => if dl <=? now then Some ETIMEDOUT
                      else if signalled then Some FUTEX_INTERRUPTED else None
         | None => if signalled then Some FUTEX_INTERRUPTED else None
         end in
  (r, t, q).

(** [futex_wait_keyed]'s view of the result. *)
Definition spurious (r : Z) : Z := if r =? FUTEX_INTERRUPTED then 0 else r.

(** ** The abstract walk

    One pass over the waiters in arrival order: the first [val] eligible ones
    whose task exists are claimed, eligible ones without a task met before
    that are dropped, and of the eligible ones that follow the first [limit]
    blocked ones are taken out, to be appended under their new address. *)
Record Walk := mkAWalk { kept : list entry; moved : list entry; claimed : list Z }.
Definition keep_entry (e : entry) (r : Walk) : Walk := mkAWalk (e :: kept r) (moved r) (claimed r).

Section abstract.
Context (ok : FutexWaiter -> bool) (alive blocked : Z -> bool) (uaddr2 : Z).

Fixpoint a_walk (val limit : Z) (L : list entry) : Walk :=
  match L with
  | [] => mkAWalk [] [] []
  | e :: L =>
      let p := w_pid e.2 in
      if negb (ok e.2) then keep_entry e (a_walk val limit L)
      else if 0 <? val then
        if alive p then
          let r := a_walk (val - 1) limit L in
          mkAWalk ((e.1, with_woken e.2) :: kept r) (moved r) (p :: claimed r)
        else a_walk val limit L
      else if (0 <? limit) && blocked p then
        let r := a_walk val (limit - 1) L in
        mkAWalk (kept r) ((e.1, with_uaddr uaddr2 e.2) :: moved r) (claimed r)
      else keep_entry e (a_walk val limit L)
  end.
End abstract.

Definition pids (L : list entry) : list Z := w_pid <$> L.*2.
Definition exists_task (q : RunQueue) (p : Z) : bool := bool_decide (is_Some (find_pid q p)).

(** What a walk does to a task: the claimed ones are released, then the moved
    ones get their new address. *)
Definition at_pids (ps : list Z) (f : Task -> Task) (t : Task) : Task :=
  if bool_decide (pid t ∈ ps) then f t else t.
Definition walk_effect (min_vr uaddr2 : Z) (r : Walk) (t : Task) : Task :=
  at_pids (pids (moved r)) (set_blocked_futex uaddr2) (at_pids (claimed r) (release min_vr) t).

(** The registrations a walk works on: one per task, of real tasks. *)
Record waiters_ok (L : list entry) : Prop := {
  wo_pids : NoDup (pids L);
  wo_nonzero : forall e, e ∈ L -> w_pid e.2 <> 0 }.

(** ** Effects on the run queue *)
Record maps_to (f : Task -> Task) (q q' : RunQueue) : Prop := {
  mt_ok : rq_ok q';
  mt_slot : forall j, slot q' j = f <$> slot q j }.

Lemma find_maps f q q' p :
  rq_ok q -> maps_to f q q' -> (forall t, pid (f t) = pid t) -> p <> 0 -> find_pid q' p = f <$> find_pid q p.
Proof. intros Hq [Hq' Hs] Hf Hp. apply find_pid_map; try done; [apply Hq|apply Hq']. Qed.

Lemma maps_id q : rq_ok q -> maps_to id q q.
Proof. intros Hq. split; [done|]. intros j. by destruct (slot q j). Qed.

Lemma maps_compose f g h q q1 q2 :
  maps_to f q q1 -> maps_to g q1 q2 -> (forall t, h t = g (f t)) -> maps_to h q q2.
Proof.
  intros [H1 H2] [H3 H4] Hh. split; [done|]. intros j. rewrite H4, H2. destruct (slot q j); [|done].
  cbn. by rewrite Hh.
Qed.

(** Changing one task, found by its pid. *)
Lemma maps_modify q p f t :
  rq_ok q -> p <> 0 -> find_pid q p = Some t ->
  pid (f t) = pid t -> tgid (f t) = tgid t -> (task_ok t -> task_ok (f t)) ->
  (wake_scannable (f t) = true -> wake_scannable t = true) ->
  maps_to (at_pids [p] f) q (modify_pid p f q).
Proof.
  intros Hq Hp Ht Hfp Hft Hfo Hfs. pose proof (find_pid_slot q p t (proj1 Hq) Ht) as (i & Hi & Hpt).
  assert (find_pid_idx q p = Some i) as Hidx.
  { rewrite <- Hpt. apply find_pid_idx_slot; [apply Hq|done|congruence]. }
  unfold modify_pid. rewrite Hidx. unfold modify. change (slot (touch i q) i) with (slot q i). rewrite Hi. split.
  - eapply ok_write; [done..| |].
    + apply Hfo. by apply (rq_task q (proj1 Hq) i).
    + intros Hw. by apply (proj2 (proj2 Hq i) t Hi), Hfs.
  - intros j. rewrite (slot_wake q i t) by done. unfold at_pids. destruct (decide (i = j)) as [<-|Hne].
    + rewrite Hi. cbn. rewrite bool_decide_eq_true_2; [done|]. rewrite Hpt. by left.
    + destruct (slot q j) as [u|] eqn:Hj; [|done]. cbn. rewrite bool_decide_eq_false_2; [done|].
      rewrite list_elem_of_singleton. intros Hu. apply Hne.
      eapply (pids_distinct q); [apply Hq|done..|congruence|congruence].
Qed.

Lemma release_fields mv t : pid (release mv t) = pid t /\ tgid (release mv t) = tgid t /\ state (release mv t) <> Blocked.
Proof.
  unfold release. destruct (state_eqb (state t) Blocked) eqn:E.
  - destruct (place_fields mv (set_poll_deadline U64_MAX (set_blocked_futex 0 (set_state Ready t)))) as (E1 & E2 & E3 & _).
    rewrite E1, E2, E3. done.
  - split_and!; [done..|]. by apply bool_decide_eq_false in E.
Qed.

Lemma release_twice mv t : release mv (release mv t) = release mv t.
Proof.
  unfold release at 1. unfold state_eqb. rewrite bool_decide_eq_false_2; [done|]. apply release_fields.
Qed.

Lemma release_task_ok mv t : is_u64 mv -> task_ok t -> task_ok (release mv t).
Proof.
  intros Hm [H1 H2 H3 H4 H5]. unfold release. destruct (state_eqb _ _); [|by split]. apply place_ok; [done|by split].
Qed.

Lemma at_pids_pid ps f t : (forall u, pid (f u) = pid u) -> pid (at_pids ps f t) = pid t.
Proof. intros Hf. unfold at_pids. by destruct (bool_decide _). Qed.
Lemma at_pids_nil f t : at_pids [] f t = t.
Proof. unfold at_pids. by rewrite bool_decide_eq_false_2 by apply not_elem_of_nil. Qed.
Lemma walk_effect_pid mv u r t : pid (walk_effect mv u r t) = pid t.
Proof. unfold walk_effect. rewrite !at_pids_pid; [done|apply release_fields|done]. Qed.

(** Tasks of other pids are not touched. *)
Lemma at_pids_other p ps f q q' :
  rq_ok q -> maps_to (at_pids ps f) q q' -> (forall u, pid (f u) = pid u) -> p <> 0 -> p ∉ ps ->
  find_pid q' p = find_pid q p.
Proof.
  intros Hq Hm Hf Hp Hn. rewrite (find_maps _ q q' p Hq Hm) by (done || intros; by apply at_pids_pid).
  destruct (find_pid q p) as [t|] eqn:E; [|done]. cbn. f_equal. unfold at_pids.
  apply find_pid_slot in E as (i & _ & E); [|apply Hq]. by rewrite bool_decide_eq_false_2 by congruence.
Qed.

(** Composing the effect of one visit with that of the rest of the walk. *)
Lemma effect_claim mv u p r t :
  walk_effect mv u (mkAWalk (kept r) (moved r) (p :: claimed r)) t =
  walk_effect mv u r (at_pids [p] (release mv) t).
Proof.
  unfold walk_effect. cbn [moved claimed]. f_equal. unfold at_pids.
  destruct (release_fields mv t) as (E & _ & _).
  destruct (decide (pid t = p)) as [<-|Hne].
  - rewrite (bool_decide_eq_true_2 (pid t ∈ pid t :: _)), (bool_decide_eq_true_2 (pid t ∈ [pid t])), E by (by left).
    destruct (bool_decide _); [by rewrite release_twice|done].
  - rewrite (bool_decide_eq_false_2 (pid t ∈ [p])) by (by rewrite list_elem_of_singleton).
    rewrite (bool_decide_ext (pid t ∈ p :: claimed r) (pid t ∈ claimed r)); [done|].
    rewrite elem_of_cons. naive_solver.
Qed.

Lemma a_walk_no_val ok alive blocked u2 val limit L :
  val <= 0 -> claimed (a_walk ok alive blocked u2 val limit L) = [].
Proof.
  intros Hv. revert limit. induction L as [|e L IH]; intros limit; [done|]. cbn [a_walk].
  destruct (negb _); [apply IH|]. destruct (Z.ltb_spec 0 val); [lia|].
  destruct (_ && _); apply IH.
Qed.

Lemma a_walk_no_limit ok alive blocked u2 val L : moved (a_walk ok alive blocked u2 val 0 L) = [].
Proof.
  revert val. induction L as [|e L IH]; intros val; [done|]. cbn [a_walk].
  destruct (negb _); [apply IH|]. destruct (0 <? val); [|apply IH]. destruct (alive _); apply IH.
Qed.

Lemma effect_move mv u2 p w i r t :
  claimed r = [] -> w_pid w = p ->
  walk_effect mv u2 (mkAWalk (kept r) ((i, w) :: moved r) (claimed r)) t =
  walk_effect mv u2 r (at_pids [p] (set_blocked_futex u2) t).
Proof.
  intros Hc <-. unfold walk_effect. cbn [moved claimed]. rewrite Hc, !at_pids_nil.
  unfold pids. rewrite !fmap_cons. cbn [snd]. fold (pids (moved r)). unfold at_pids.
  destruct (decide (pid t = w_pid w)) as [->|Hne].
  - rewrite !(bool_decide_eq_true_2 (w_pid w ∈ w_pid w :: _)) by (by left). cbn [pid set_blocked_futex].
    destruct (bool_decide _); done.
  - rewrite (bool_decide_eq_false_2 (pid t ∈ [w_pid w])) by (by rewrite list_elem_of_singleton).
    rewrite (bool_decide_ext (pid t ∈ w_pid w :: pids (moved r)) (pid t ∈ pids (moved r))); [done|].
    rewrite elem_of_cons. naive_solver.
Qed.

(** ** One visit *)
Lemma find_idx_none q p : rq_ok q -> find_pid_idx q p = None <-> find_pid q p = None.
Proof.
  intros Hq. unfold find_pid. pose proof (find_pid_idx_lookup q p (proj1 Hq)) as H.
  destruct (find_pid_idx q p) as [i|]; [|done]. destruct H as (t & Hi & _). cbn. by rewrite Hi.
Qed.

Lemma mid_slot t L1 i w L2 : repr t (L1 ++ (i, w) :: L2) -> waiter t i = Some w.
Proof. intros HR. apply (r_slot _ _ HR), elem_of_app. right. by left. Qed.

Lemma mid_absent t L1 i w L2 : repr t (L1 ++ (i, w) :: L2) -> i ∉ L1.*1 /\ i ∉ L2.*1.
Proof.
  intros HR. pose proof (r_nodup _ _ HR) as Hn. rewrite fmap_app, fmap_cons in Hn. cbn in Hn.
  apply NoDup_app in Hn as (H1 & H2 & [H3 H4]%NoDup_cons). split; [|done]. intros Hi. apply (H2 i Hi). by left.
Qed.

Lemma a_free_mid L1 i w L2 : i ∉ L1.*1 -> i ∉ L2.*1 -> a_free i (L1 ++ (i, w) :: L2) = L1 ++ L2.
Proof.
  intros H1 H2. unfold a_free. rewrite List.filter_app. cbn. rewrite Nat.eqb_refl. cbn.
  f_equal; by apply a_free_absent.
Qed.

Section visits.
Context (mv : Z) (Hmv : is_u64 mv).

Lemma claim_dead s i w L1 L2 :
  repr (wk_tbl s) (L1 ++ (i, w) :: L2) -> rq_ok (wk_rq s) -> find_pid (wk_rq s) (w_pid w) = None ->
  exists t', claim mv i w s = mkWalk t' (wk_rq s) (wk_woken s) (wk_requeued s) (wk_resched s)
    /\ repr t' (L1 ++ L2).
Proof.
  intros HR Hq Hp. apply find_idx_none in Hp; [|done]. unfold claim. rewrite Hp. eexists. split; [done|].
  destruct (mid_absent _ _ _ _ _ HR). rewrite <- (a_free_mid L1 i w L2) by done. by apply free_repr.
Qed.

Lemma claim_alive s i w L1 L2 u :
  repr (wk_tbl s) (L1 ++ (i, w) :: L2) -> rq_ok (wk_rq s) -> w_pid w <> 0 ->
  find_pid (wk_rq s) (w_pid w) = Some u ->
  exists t' q', claim mv i w s =
      mkWalk t' q' (wk_woken s + 1) (wk_requeued s) (wk_resched s || is_blocked (wk_rq s) (w_pid w))
    /\ repr t' (L1 ++ (i, with_woken w) :: L2) /\ maps_to (at_pids [w_pid w] (release mv)) (wk_rq s) q'.
Proof.
  intros HR Hq Hp Hu.
  pose proof (maps_modify (wk_rq s) (w_pid w) (release mv) u Hq Hp Hu) as Hm.
  destruct (release_fields mv u) as (E1 & E2 & E3). unfold claim. unfold modify_pid in Hm.
  destruct (find_pid_idx (wk_rq s) (w_pid w)) as [idx|] eqn:E.
  2:{ apply find_idx_none in E; [congruence|done]. }
  eexists _, _. split; [done|]. split.
  - destruct (mid_absent _ _ _ _ _ HR). rewrite <- (a_update_mid i with_woken w) by done. by apply update_repr.
  - apply Hm; try done; [by apply release_task_ok|]. intros Hw. by rewrite not_scannable_state in Hw.
Qed.

(** A blocked task that a requeue may move: parked on a futex, or on a channel. *)
Definition moveable (q : RunQueue) (p : Z) : Prop :=
  forall t, find_pid q p = Some t -> state t = Blocked -> blocked_futex t <> 0 \/ is_Some (blocked_on t).

Lemma scannable_move u2 t :
  state t = Blocked -> (blocked_futex t <> 0 \/ is_Some (blocked_on t)) ->
  wake_scannable (set_blocked_futex u2 t) = true -> wake_scannable t = true.
Proof.
  intros Hs Hm. unfold wake_scannable. cbn [state set_blocked_futex blocked_on blocked_futex poll_deadline].
  unfold state_eqb. rewrite Hs, bool_decide_eq_true_2 by done. cbn [andb].
  destruct Hm as [Hm|Hm]; [|by rewrite bool_decide_eq_true_2].
  destruct (Z.eqb_spec (blocked_futex t) 0); [done|]. cbn [negb andb].
  destruct (bool_decide _); [done|]. by intros [_ H]%andb_prop.
Qed.

Lemma requeue_blocked s i w L1 L2 u2 :
  repr (wk_tbl s) (L1 ++ (i, w) :: L2) -> rq_ok (wk_rq s) -> w_pid w <> 0 ->
  moveable (wk_rq s) (w_pid w) -> is_blocked (wk_rq s) (w_pid w) = true ->
  exists t' q', requeue_one u2 i w s =
      mkWalk t' q' (wk_woken s) (wk_requeued s + 1) (wk_resched s)
    /\ repr t' (L1 ++ L2 ++ [(i, with_uaddr u2 w)])
    /\ maps_to (at_pids [w_pid w] (set_blocked_futex u2)) (wk_rq s) q'.
Proof.
  intros HR Hq Hp Hmv' Hb. unfold is_blocked in Hb.
  destruct (find_pid (wk_rq s) (w_pid w)) as [u|] eqn:Hu; [|done]. apply bool_decide_eq_true in Hb as Hs.
  pose proof (maps_modify (wk_rq s) (w_pid w) (set_blocked_futex u2) u Hq Hp Hu) as Hm.
  unfold requeue_one. unfold modify_pid in Hm.
  destruct (find_pid_idx (wk_rq s) (w_pid w)) as [idx|] eqn:E.
  2:{ apply find_idx_none in E; [congruence|done]. }
  unfold is_blocked. rewrite Hu, Hb. eexists _, _. split; [done|]. split.
  - destruct (mid_absent _ _ _ _ _ HR). rewrite app_assoc, <- (a_free_mid L1 i w L2) by done.
    apply rekey_repr; [done|]. by eapply mid_slot.
  - apply Hm; try done; [by intros []; split|]. by apply scannable_move, Hmv'.
Qed.

Lemma requeue_idle s i w u2 :
  rq_ok (wk_rq s) -> is_blocked (wk_rq s) (w_pid w) = false ->
  exists q', requeue_one u2 i w s = mkWalk (wk_tbl s) q' (wk_woken s) (wk_requeued s) (wk_resched s)
    /\ maps_to id (wk_rq s) q'.
Proof.
  intros Hq Hb. unfold requeue_one. pose proof (find_pid_idx_lookup (wk_rq s) (w_pid w) (proj1 Hq)) as Hl.
  destruct (find_pid_idx (wk_rq s) (w_pid w)) as [idx|] eqn:E.
  - rewrite Hb. eexists. split; [done|]. destruct Hl as (u & Hi & _).
    split; [|intros j; change (slot (touch idx (wk_rq s)) j) with (slot (wk_rq s) j); by destruct (slot _ j)].
    apply ok_touch; [done|]. eapply slot_lt; [apply Hq|done].
  - exists (wk_rq s). split; [by destruct s|by apply maps_id].
Qed.
End visits.

(** ** A whole walk *)
Lemma a_walk_ext ok a b a' b' u2 val limit L :
  (forall p, p ∈ pids L -> a p = a' p /\ b p = b' p) ->
  a_walk ok a b u2 val limit L = a_walk ok a' b' u2 val limit L.
Proof.
  revert val limit. induction L as [|e L IH]; intros val limit H; [done|]. cbn [a_walk].
  destruct (H (w_pid e.2)) as [-> ->]; [by left|].
  by rewrite !IH by (intros p Hp; apply H; by right).
Qed.

Lemma a_walk_claimed ok a b u2 val limit L p :
  p ∈ claimed (a_walk ok a b u2 val limit L) -> p ∈ pids L.
Proof.
  revert val limit. induction L as [|e L IH]; intros val limit; [done|]. cbn [a_walk]. unfold pids.
  rewrite !fmap_cons, elem_of_cons. fold (pids L). destruct (negb _); [intros H; right; exact (IH _ _ H)|].
  destruct (0 <? val); [destruct (a _)|destruct (_ && _)]; try (intros H; right; exact (IH _ _ H)).
  cbn [claimed]. rewrite elem_of_cons. intros [->|H]; [by left|right; exact (IH _ _ H)].
Qed.

Section loops.
Context (uaddr tgid : Z) (private : bool) (mv uaddr2 : Z) (Hmv : is_u64 mv).
Notation ok := (eligible uaddr tgid private).

Definition walk_of (q : RunQueue) : Z -> Z -> list entry -> Walk :=
  a_walk ok (exists_task q) (is_blocked q) uaddr2.

Record winv (limit : Z) (s : WalkState) (L1 L2 M : list entry) : Prop := {
  wi_repr : repr (wk_tbl s) (L1 ++ L2 ++ M);
  wi_rq : rq_ok (wk_rq s);
  wi_wait : waiters_ok L2;
  wi_move : wk_requeued s < limit -> forall p, p ∈ pids L2 -> moveable (wk_rq s) p }.

Record walked (r : Walk) (L1 M : list entry) (s s' : WalkState) : Prop := {
  wd_repr : repr (wk_tbl s') (L1 ++ kept r ++ M ++ moved r);
  wd_rq : maps_to (walk_effect mv uaddr2 r) (wk_rq s) (wk_rq s');
  wd_woken : wk_woken s' = wk_woken s + Z.of_nat (length (claimed r));
  wd_requeued : wk_requeued s' = wk_requeued s + Z.of_nat (length (moved r));
  wd_resched : wk_resched s' = wk_resched s || existsb (is_blocked (wk_rq s)) (claimed r) }.

Lemma waiters_cons e L : waiters_ok (e :: L) -> waiters_ok L /\ w_pid e.2 ∉ pids L /\ w_pid e.2 <> 0.
Proof.
  intros [Hn Hz]. unfold pids in Hn. rewrite !fmap_cons in Hn. apply NoDup_cons in Hn as [H1 H2].
  split; [split; [done|intros e' He; apply Hz; by right]|]. split; [done|]. apply Hz. by left.
Qed.

Lemma waiters_nonzero L p : waiters_ok L -> p ∈ pids L -> p <> 0.
Proof.
  intros HL Hp. apply list_elem_of_fmap in Hp as (w & -> & Hw). apply list_elem_of_fmap in Hw as ([i w'] & -> & Hin).
  by apply (wo_nonzero L HL (i, w')).
Qed.

(** The rest of the walk reads only the tasks of the waiters it has left. *)
Definition same_tasks (L : list entry) (q q' : RunQueue) : Prop :=
  forall p, p ∈ pids L -> find_pid q' p = find_pid q p.

Lemma same_at p f q q' L :
  rq_ok q -> maps_to (at_pids [p] f) q q' -> (forall u, pid (f u) = pid u) ->
  waiters_ok L -> p ∉ pids L -> same_tasks L q q'.
Proof.
  intros Hq Hm Hf HL Hp p' Hp'. eapply at_pids_other; [done..|by eapply waiters_nonzero|].
  rewrite list_elem_of_singleton. by intros ->.
Qed.

Lemma same_id q q' L : rq_ok q -> maps_to id q q' -> waiters_ok L -> same_tasks L q q'.
Proof.
  intros Hq Hm HL p Hp. rewrite (find_maps id q q' p Hq Hm) by (done || by eapply waiters_nonzero).
  by destruct (find_pid q p).
Qed.

Lemma same_walk q q' L val limit :
  same_tasks L q q' -> walk_of q' val limit L = walk_of q val limit L.
Proof. intros H. apply a_walk_ext. intros p Hp. unfold exists_task, is_blocked. by rewrite H. Qed.

Lemma same_resched q q' L ps :
  same_tasks L q q' -> (forall p, p ∈ ps -> p ∈ pids L) -> existsb (is_blocked q') ps = existsb (is_blocked q) ps.
Proof.
  intros H. induction ps as [|p ps IH]; intros Hps; [done|]. cbn. f_equal.
  - unfold is_blocked. by rewrite H by (apply Hps; by left).
  - apply IH. intros p' Hp'. apply Hps. by right.
Qed.

Lemma same_moveable q q' L p : same_tasks L q q' -> p ∈ pids L -> moveable q p -> moveable q' p.
Proof. intros H Hp Hm t. rewrite H by done. apply Hm. Qed.

(** The invariant carries over to the rest of the list. *)
Lemma winv_next limit s L1 e L2 M s1 L1' M' :
  winv limit s L1 (e :: L2) M -> repr (wk_tbl s1) (L1' ++ L2 ++ M') -> rq_ok (wk_rq s1) ->
  same_tasks L2 (wk_rq s) (wk_rq s1) -> wk_requeued s <= wk_requeued s1 -> winv limit s1 L1' L2 M'.
Proof.
  intros [H1 H2 H3 H4] HR Hq Hs Hle. apply waiters_cons in H3 as (H3 & _ & _). split; [done..|].
  intros Hlt p Hp. eapply same_moveable; [done..|]. apply H4; [lia|]. by right.
Qed.

Lemma visit_keep limit val s s1 L1 e L2 M :
  winv limit s L1 (e :: L2) M -> wk_tbl s1 = wk_tbl s -> maps_to id (wk_rq s) (wk_rq s1) ->
  wk_woken s1 = wk_woken s -> wk_requeued s1 = wk_requeued s -> wk_resched s1 = wk_resched s ->
  winv limit s1 (L1 ++ [e]) L2 M
  /\ forall s', walked (walk_of (wk_rq s1) val (limit - wk_requeued s1) L2) (L1 ++ [e]) M s1 s' ->
       walked (keep_entry e (walk_of (wk_rq s) val (limit - wk_requeued s) L2)) L1 M s s'.
Proof.
  intros Hw E1 Hid E2 E3 E4. pose proof (waiters_cons _ _ (wi_wait _ _ _ _ _ Hw)) as (HL & _ & _).
  pose proof (same_id _ _ _ (wi_rq _ _ _ _ _ Hw) Hid HL) as Hs. split.
  - eapply winv_next; [done|..|done|lia].
    + rewrite E1, <- app_assoc. apply Hw.
    + apply Hid.
  - intros s' [R1 R2 R3 R4 R5]. rewrite (same_walk _ _ _ _ _ Hs), E3 in *. split; cbn [kept moved claimed keep_entry].
    + by rewrite <- app_assoc in R1.
    + eapply maps_compose; [exact Hid|exact R2|done].
    + by rewrite E2 in R3.
    + exact R4.
    + rewrite R5, E4. f_equal. eapply same_resched; [done|]. intros p. apply a_walk_claimed.
Qed.

Lemma visit_dead limit val s i w L1 L2 M :
  winv limit s L1 ((i, w) :: L2) M -> find_pid (wk_rq s) (w_pid w) = None ->
  let s1 := claim mv i w s in
  winv limit s1 L1 L2 M
  /\ forall s', walked (walk_of (wk_rq s1) (val - wk_woken s1) (limit - wk_requeued s1) L2) L1 M s1 s' ->
       walked (walk_of (wk_rq s) (val - wk_woken s) (limit - wk_requeued s) L2) L1 M s s'.
Proof.
  intros Hw Hp. cbv zeta. destruct (claim_dead mv s i w L1 (L2 ++ M)) as (t' & -> & HR); [apply Hw..|done|].
  split; [|by intros s' [R1 R2 R3 R4 R5]]. eapply winv_next; [done|done|apply Hw|done|done].
Qed.

Lemma visit_claim limit val s i w L1 L2 M u :
  winv limit s L1 ((i, w) :: L2) M -> find_pid (wk_rq s) (w_pid w) = Some u ->
  let s1 := claim mv i w s in
  winv limit s1 (L1 ++ [(i, with_woken w)]) L2 M
  /\ forall s', walked (walk_of (wk_rq s1) (val - wk_woken s1) (limit - wk_requeued s1) L2)
                  (L1 ++ [(i, with_woken w)]) M s1 s' ->
       let r := walk_of (wk_rq s) (val - wk_woken s - 1) (limit - wk_requeued s) L2 in
       walked (mkAWalk ((i, with_woken w) :: kept r) (moved r) (w_pid w :: claimed r)) L1 M s s'.
Proof.
  intros Hw Hu. cbv zeta. pose proof (waiters_cons _ _ (wi_wait _ _ _ _ _ Hw)) as (HL & Hn & Hz). cbn [snd] in *.
  destruct (claim_alive mv Hmv s i w L1 (L2 ++ M) u) as (t' & q' & -> & HR & Hm); [apply Hw..|done|done|].
  pose proof (same_at _ _ _ _ _ (wi_rq _ _ _ _ _ Hw) Hm (fun u => proj1 (release_fields mv u)) HL Hn) as Hs. split.
  - eapply winv_next; [done|..|done|cbn; lia]; cbn [wk_tbl wk_rq]; [by rewrite <- app_assoc|apply Hm].
  - intros s' [R1 R2 R3 R4 R5]. cbn [wk_tbl wk_rq wk_woken wk_requeued wk_resched] in *.
    rewrite (same_walk _ _ _ _ _ Hs) in *.
    replace (val - (wk_woken s + 1)) with (val - wk_woken s - 1) in * by lia.
    set (r := walk_of _ _ _ _) in *. split; cbn [kept moved claimed length].
    + by rewrite <- app_assoc in R1.
    + eapply maps_compose; [exact Hm|exact R2|]. intros t. apply (effect_claim mv uaddr2 (w_pid w) r t).
    + lia.
    + done.
    + rewrite R5. cbn [existsb]. rewrite (same_resched _ q' L2) by (done || intros p; apply a_walk_claimed).
      by rewrite orb_assoc.
Qed.

Lemma visit_move limit val s i w L1 L2 M :
  winv limit s L1 ((i, w) :: L2) M -> wk_requeued s < limit -> val <= wk_woken s ->
  is_blocked (wk_rq s) (w_pid w) = true ->
  let s1 := requeue_one uaddr2 i w s in
  winv limit s1 L1 L2 (M ++ [(i, with_uaddr uaddr2 w)])
  /\ forall s', walked (walk_of (wk_rq s1) (val - wk_woken s1) (limit - wk_requeued s1) L2)
                  L1 (M ++ [(i, with_uaddr uaddr2 w)]) s1 s' ->
       let r := walk_of (wk_rq s) (val - wk_woken s) (limit - wk_requeued s - 1) L2 in
       walked (mkAWalk (kept r) ((i, with_uaddr uaddr2 w) :: moved r) (claimed r)) L1 M s s'.
Proof.
  intros Hw Hlt Hv Hb. cbv zeta. pose proof (waiters_cons _ _ (wi_wait _ _ _ _ _ Hw)) as (HL & Hn & Hz). cbn [snd] in *.
  destruct (requeue_blocked s i w L1 (L2 ++ M) uaddr2) as (t' & q' & -> & HR & Hm);
    [apply Hw..|done|apply Hw; [done|by left]|done|].
  pose proof (same_at _ _ _ _ _ (wi_rq _ _ _ _ _ Hw) Hm (fun u => eq_refl) HL Hn) as Hs. split.
  - eapply winv_next; [done|..|done|cbn; lia]; cbn [wk_tbl wk_rq]; [by rewrite <- app_assoc in HR|apply Hm].
  - intros s' [R1 R2 R3 R4 R5]. cbn [wk_tbl wk_rq wk_woken wk_requeued wk_resched] in *.
    rewrite (same_walk _ _ _ _ _ Hs) in *.
    replace (limit - (wk_requeued s + 1)) with (limit - wk_requeued s - 1) in * by lia.
    assert (claimed (walk_of (wk_rq s) (val - wk_woken s) (limit - wk_requeued s - 1) L2) = []) as Hc
      by (apply a_walk_no_val; lia).
    set (r := walk_of _ _ _ _) in *. split; cbn [kept moved claimed length].
    + by rewrite <- app_assoc in R1.
    + eapply maps_compose; [exact Hm|exact R2|]. intros t. by apply (effect_move mv uaddr2 (w_pid w)).
    + done.
    + lia.
    + rewrite R5. f_equal. eapply same_resched; [done|]. intros p. apply a_walk_claimed.
Qed.

Lemma claim_requeued i w s : wk_requeued (claim mv i w s) = wk_requeued s.
Proof. unfold claim. by destruct (find_pid_idx _ _). Qed.

Lemma visit_ok val limit s i w L1 L2 M :
  winv limit s L1 ((i, w) :: L2) M ->
  let s1 := requeue_visit uaddr tgid private mv uaddr2 val limit s i in
  exists L1' M', winv limit s1 L1' L2 M'
    /\ (forall s', walked (walk_of (wk_rq s1) (val - wk_woken s1) (limit - wk_requeued s1) L2) L1' M' s1 s' ->
         walked (walk_of (wk_rq s) (val - wk_woken s) (limit - wk_requeued s) ((i, w) :: L2)) L1 M s s')
    /\ (limit <= wk_requeued s -> M' = M /\ wk_requeued s1 = wk_requeued s).
Proof.
  intros Hw. cbv zeta. unfold requeue_visit. rewrite (mid_slot _ _ _ _ _ (wi_repr _ _ _ _ _ Hw)).
  pose proof (maps_id _ (wi_rq _ _ _ _ _ Hw)) as Hid.
  unfold walk_of at 2. cbn [a_walk fst snd]. destruct (negb (ok w)).
  { exists (L1 ++ [(i, w)]), M. apply and_assoc. split; [by apply visit_keep|done]. }
  destruct (Z.ltb_spec (wk_woken s) val) as [Hv|Hv], (Z.ltb_spec 0 (val - wk_woken s)); try lia.
  { destruct (find_pid (wk_rq s) (w_pid w)) as [u|] eqn:Hu; unfold exists_task; rewrite Hu.
    - rewrite bool_decide_eq_true_2 by eauto. eexists _, _. apply and_assoc.
      split; [by eapply visit_claim|]. by rewrite claim_requeued.
    - rewrite bool_decide_eq_false_2 by (by intros []). eexists _, _. apply and_assoc.
      split; [by apply visit_dead|]. by rewrite claim_requeued. }
  destruct (Z.ltb_spec (wk_requeued s) limit), (Z.ltb_spec 0 (limit - wk_requeued s)); try lia; cbn [andb].
  2:{ exists (L1 ++ [(i, w)]), M. apply and_assoc. split; [by apply visit_keep|done]. }
  destruct (is_blocked (wk_rq s) (w_pid w)) eqn:Hb.
  - eexists _, _. apply and_assoc. split; [by apply visit_move|lia].
  - destruct (requeue_idle s i w uaddr2 (wi_rq _ _ _ _ _ Hw) Hb) as (q' & -> & Hq').
    exists (L1 ++ [(i, w)]), M. apply and_assoc. split; [by apply visit_keep|done].
Qed.

(** Entries of other buckets are never eligible. *)
Lemma other_bucket w : bucket (w_uaddr w) <> bucket uaddr -> ok w = false.
Proof.
  intros Hb. unfold eligible, key_matches. destruct (Z.eqb_spec (w_uaddr w) uaddr) as [E|]; [congruence|].
  by rewrite andb_false_r.
Qed.

Notation b := (bucket uaddr).
Lemma chain_cons_in i w L : bucket (w_uaddr w) = b -> chain ((i, w) :: L) b = i :: chain L b.
Proof. intros <-. exact (chain_self i w [] L). Qed.
Lemma chain_cons_out i w L : bucket (w_uaddr w) <> b -> chain ((i, w) :: L) b = chain L b.
Proof. intros Hb. apply (chain_other i w [] L). congruence. Qed.

(** The [next] link of a visited slot leads to the rest of its bucket. *)
Lemma next_link t L1 i w L2 :
  repr t (L1 ++ (i, w) :: L2) -> bucket (w_uaddr w) = b ->
  word_at (ft_next t) i = first_link (chain L2 b) NIL.
Proof.
  intros HR Hb. destruct (r_chain _ _ HR b (bucket_lt uaddr)) as [_ _ Hs].
  rewrite chain_app, chain_cons_in in Hs by done. apply dseg_app in Hs as [_ (_ & H & _)]. done.
Qed.

Lemma visit_skip val limit s i w L1 L2 M :
  winv limit s L1 ((i, w) :: L2) M -> ok w = false ->
  winv limit s (L1 ++ [(i, w)]) L2 M
  /\ forall s', walked (walk_of (wk_rq s) (val - wk_woken s) (limit - wk_requeued s) L2) (L1 ++ [(i, w)]) M s s' ->
       walked (walk_of (wk_rq s) (val - wk_woken s) (limit - wk_requeued s) ((i, w) :: L2)) L1 M s s'.
Proof.
  intros Hw Hok. unfold walk_of at 2. cbn [a_walk fst snd]. rewrite Hok. cbn [negb].
  apply visit_keep; try done. apply maps_id, Hw.
Qed.

Lemma walked_nil val limit limit' s L1 M :
  winv limit s L1 [] M -> walked (walk_of (wk_rq s) val limit' []) L1 M s s.
Proof.
  intros [H1 H2 H3 H4]. split; cbn; [by rewrite app_nil_r|..|lia|lia|by rewrite orb_false_r].
  split; [done|]. intros j. destruct (slot _ j); [|done]. cbn. unfold walk_effect. cbn. by rewrite !at_pids_nil.
Qed.

Lemma requeue_loop_ok val limit L2 : forall fuel s L1 M last,
  winv limit s L1 L2 M -> (length L2 <= fuel)%nat ->
  (chain L2 b <> [] -> last = last_link NIL (chain L2 b)) ->
  exists s', requeue_loop uaddr tgid private mv fuel uaddr2 val limit last (first_link (chain L2 b) NIL) s = Some s'
    /\ walked (walk_of (wk_rq s) (val - wk_woken s) (limit - wk_requeued s) L2) L1 M s s'.
Proof.
  induction L2 as [|[i w] L2 IH]; intros fuel s L1 M last Hw Hf Hlast.
  { exists s. split; [by destruct fuel|by eapply walked_nil]. }
  destruct (decide (bucket (w_uaddr w) = b)) as [Hb|Hb].
  2:{ rewrite chain_cons_out in * by done. destruct (visit_skip val limit s i w L1 L2 M Hw (other_bucket w Hb)) as [Hw1 Hc].
      destruct (IH fuel s (L1 ++ [(i, w)]) M last Hw1) as (s' & E & Hs'); [cbn in Hf; lia|done|]. exists s'. auto. }
  destruct fuel as [|fuel]; [cbn in Hf; lia|]. pose proof (wi_repr _ _ _ _ _ Hw) as HR.
  assert (in_range (i :: chain L2 b)) as Hr.
  { rewrite <- (chain_cons_in i w) by done. intros j Hj. apply (repr_range _ _ HR).
    assert (j ∈ ((i, w) :: L2).*1) by (eapply elem_of_sublist; [exact Hj|apply chain_sub]).
    rewrite !fmap_app, !elem_of_app. by right; left. }
  assert (NoDup (i :: chain L2 b)) as Hnd.
  { rewrite <- (chain_cons_in i w) by done. apply chain_nodup. pose proof (r_nodup _ _ HR) as Hn.
    rewrite !fmap_app in Hn. by apply NoDup_app in Hn as (_ & _ & (Hn & _)%NoDup_app). }
  rewrite chain_cons_in in * by done. cbn [first_link requeue_loop]. rewrite idx_not_nil by (apply Hr; by left).
  rewrite Nat2Z.id. destruct (visit_ok val limit s i w L1 L2 M Hw) as (L1' & M' & Hw1 & Hc & _).
  set (s1 := requeue_visit _ _ _ _ _ _ _ s i) in *.
  replace (if Z.of_nat i =? last then NIL else word_at (ft_next (wk_tbl s)) i) with (first_link (chain L2 b) NIL).
  { destruct (IH fuel s1 L1' M' last Hw1) as (s' & E & Hs'); [cbn in Hf; lia| |exists s'; auto].
    intros Hne. rewrite Hlast by done. destruct (chain L2 b) as [|j l]; [done|].
    by rewrite !last_link_cons. }
  rewrite Hlast, last_link_cons by done. destruct (chain L2 b) as [|j l] eqn:Ec.
  { cbn. by rewrite Z.eqb_refl. }
  rewrite last_link_cons. destruct (Z.eqb_spec (Z.of_nat i) (last_link (Z.of_nat j) l)) as [E|].
  - exfalso. apply NoDup_cons in Hnd as [Hni _]. apply Hni. clear -E. revert j E.
    induction l as [|k l IHl]; intros j E; [cbn in E; apply Nat2Z.inj in E; subst; by left|].
    rewrite last_link_cons in E. right. by apply IHl.
  - rewrite (next_link _ L1 i w (L2 ++ M)) by done. by rewrite chain_app, Ec.
Qed.

Lemma walk_none q val limit L : val <= 0 -> limit <= 0 -> walk_of q val limit L = mkAWalk L [] [].
Proof.
  intros Hv Hl. unfold walk_of. induction L as [|e L IH]; [done|]. cbn [a_walk]. rewrite IH.
  destruct (Z.ltb_spec 0 val); [lia|]. destruct (Z.ltb_spec 0 limit); [lia|]. by destruct (negb _).
Qed.

Lemma walked_none s L1 L2 M :
  winv 0 s L1 L2 M -> walked (mkAWalk L2 [] []) L1 M s s.
Proof.
  intros [H1 H2 H3 H4]. split; cbn; [by rewrite app_nil_r|..|lia|lia|by rewrite orb_false_r].
  split; [done|]. intros j. destruct (slot _ j); [|done]. cbn. unfold walk_effect. cbn. by rewrite !at_pids_nil.
Qed.

Lemma wake_visit_eq n s i :
  wk_woken s < n -> wake_visit uaddr tgid private mv s i = requeue_visit uaddr tgid private mv uaddr2 n 0 s i.
Proof.
  intros Hn. unfold wake_visit, requeue_visit. destruct (waiter _ _) as [w|]; [|done].
  destruct (ok w); [|done]. cbn [negb]. by destruct (Z.ltb_spec (wk_woken s) n); [|lia].
Qed.

Lemma wake_loop_ok n L2 : forall fuel s L1 M,
  winv 0 s L1 L2 M -> (length L2 <= fuel)%nat -> chain M b = [] ->
  0 <= wk_requeued s ->
  exists s', wake_loop uaddr tgid private mv fuel n (first_link (chain L2 b) NIL) s = Some s'
    /\ walked (walk_of (wk_rq s) (n - wk_woken s) (0 - wk_requeued s) L2) L1 M s s'.
Proof.
  induction L2 as [|[i w] L2 IH]; intros fuel s L1 M Hw Hf HM Hre.
  { exists s. split; [by destruct fuel|by eapply walked_nil]. }
  destruct (decide (bucket (w_uaddr w) = b)) as [Hb|Hb].
  2:{ rewrite chain_cons_out in * by done. destruct (visit_skip n 0 s i w L1 L2 M Hw (other_bucket w Hb)) as [Hw1 Hc].
      destruct (IH fuel s (L1 ++ [(i, w)]) M Hw1) as (s' & E & Hs'); [cbn in Hf; lia|done..|]. exists s'. auto. }
  destruct fuel as [|fuel]; [cbn in Hf; lia|]. pose proof (wi_repr _ _ _ _ _ Hw) as HR.
  rewrite chain_cons_in by done. cbn [first_link wake_loop].
  rewrite idx_not_nil by (eapply waiter_lt; [apply HR|by eapply (mid_slot _ L1 i w)]). rewrite Nat2Z.id.
  destruct (Z.leb_spec n (wk_woken s)) as [Hn|Hn].
  { exists s. split; [done|]. rewrite walk_none by lia. by apply walked_none. }
  rewrite (wake_visit_eq n) by done. destruct (visit_ok n 0 s i w L1 L2 M Hw) as (L1' & M' & Hw1 & Hc & Hz).
  rewrite (next_link _ L1 i w (L2 ++ M)), chain_app, HM, app_nil_r by done.
  set (s1 := requeue_visit _ _ _ _ _ _ _ s i) in *. destruct (Hz Hre) as [-> Hs1].
  destruct (IH fuel s1 L1' M Hw1) as (s' & E & Hs'); [cbn in Hf; lia|done|lia|exists s'; auto].
Qed.

Lemma waiters_loop_ok except t L2 : forall fuel L1,
  repr t (L1 ++ L2) -> (length L2 <= fuel)%nat ->
  waiters_loop uaddr tgid private fuel except t (first_link (chain L2 b) NIL)
  = Some (existsb (fun e => ok e.2 && negb (w_pid e.2 =? except)) L2).
Proof.
  induction L2 as [|[i w] L2 IH]; intros fuel L1 HR Hf; [by destruct fuel|].
  assert (repr t ((L1 ++ [(i, w)]) ++ L2)) as HR' by (by rewrite <- app_assoc). cbn [existsb snd].
  destruct (decide (bucket (w_uaddr w) = b)) as [Hb|Hb].
  2:{ rewrite chain_cons_out, other_bucket by done. cbn. eapply IH; [done|]. cbn in Hf. lia. }
  destruct fuel as [|fuel]; [cbn in Hf; lia|].
  rewrite chain_cons_in by done. cbn [first_link waiters_loop].
  rewrite idx_not_nil by (eapply waiter_lt; [apply HR|by eapply (mid_slot _ L1 i w)]). rewrite Nat2Z.id.
  rewrite (mid_slot _ _ _ _ _ HR), (next_link _ L1 i w L2) by done.
  rewrite (IH fuel _ HR') by (cbn in Hf; lia). unfold eligible.
  by destruct (w_woken w), (w_pid w =? except), (key_matches w uaddr tgid private).
Qed.
End loops.

(** The claimed waiters are the first [val] eligible ones with a task. *)
Lemma claimed_first ok a b u2 val limit L :
  claimed (a_walk ok a b u2 val limit L)
  = take (Z.to_nat val) (pids (List.filter (fun e => ok e.2 && a (w_pid e.2)) L)).
Proof.
  revert val limit. induction L as [|e L IH]; intros val limit; [by destruct (Z.to_nat val)|]. cbn [a_walk List.filter].
  destruct (ok e.2); cbn [negb andb]; [|apply IH].
  destruct (Z.ltb_spec 0 val) as [Hv|Hv].
  - destruct (a (w_pid e.2)); [|apply IH]. cbn [claimed]. rewrite IH. unfold pids. rewrite !fmap_cons.
    replace (Z.to_nat val) with (S (Z.to_nat (val - 1))) by lia. done.
  - replace (Z.to_nat val) with 0%nat by lia. rewrite take_0.
    destruct (_ && _); cbn [claimed keep_entry]; rewrite IH; replace (Z.to_nat val) with 0%nat by lia; apply take_0.
Qed.

Lemma repr_length t L : repr t L -> (length L <= MAX_FUTEX_WAITERS)%nat.
Proof.
  intros HR. rewrite <- (length_fmap fst). rewrite <- (length_seq MAX_FUTEX_WAITERS 0).
  apply NoDup_incl_length; [apply NoDup_ListNoDup, HR|]. intros i Hi%list_elem_of_In.
  apply (repr_range t L HR) in Hi. apply in_seq. lia.
Qed.

Section specs.
Context (t : FutexTable) (q : RunQueue) (L : list entry).
Context (HR : repr t L) (HL : waiters_ok L) (Hq : rq_ok q).
Context (uaddr tgid : Z) (private : bool).
Notation ok := (eligible uaddr tgid private).
Notation mv := (min_vruntime q).

Lemma start_inv limit : (0 < limit -> forall p, p ∈ pids L -> moveable q p) ->
  winv limit (mkWalk t q 0 0 false) [] L [].
Proof. intros Hm. split; cbn; [by rewrite app_nil_r|done..]. Qed.

Lemma mv_u64 : is_u64 mv.
Proof. by destruct (min_vruntime_bound q Hq). Qed.

Lemma head_link : word_at (ft_head t) (bucket uaddr) = first_link (chain L (bucket uaddr)) NIL.
Proof. apply (r_chain _ _ HR), bucket_lt. Qed.
Lemma tail_link : word_at (ft_tail t) (bucket uaddr) = last_link NIL (chain L (bucket uaddr)).
Proof. apply (r_chain _ _ HR), bucket_lt. Qed.

Lemma wake_result n :
  let r := a_walk ok (exists_task q) (is_blocked q) 0 n 0 L in
  exists t' q',
    futex_wake_keyed uaddr n private tgid t q =
      Some (Z.of_nat (length (claimed r)), existsb (is_blocked q) (claimed r), t', q')
    /\ repr t' (kept r) /\ maps_to (at_pids (claimed r) (release mv)) q q'.
Proof.
  cbv zeta. unfold futex_wake_keyed. rewrite head_link.
  destruct (wake_loop_ok uaddr tgid private mv 0 mv_u64 n L MAX_FUTEX_WAITERS _ [] []
    (start_inv 0 ltac:(lia)) (repr_length t L HR) eq_refl ltac:(done)) as (s' & -> & Hs).
  destruct Hs as [R1 R2 R3 _ R5]. cbn [mbind option_bind wk_woken wk_rq wk_requeued wk_resched wk_tbl] in *.
  rewrite Z.sub_0_r in *. unfold walk_of in *. change (0 - 0) with 0 in *.
  pose proof (a_walk_no_limit ok (exists_task q) (is_blocked q) 0 n L) as Hm.
  set (r := a_walk _ _ _ _ _ _ L) in *. exists (wk_tbl s'), (wk_rq s').
  split_and!; [by rewrite R3, R5| |].
  - rewrite Hm, !app_nil_r in R1. exact R1.
  - destruct R2 as [M1 M2]. split; [done|]. intros j. rewrite M2. destruct (slot q j); [|done]. cbn. f_equal.
    unfold walk_effect. rewrite Hm. apply at_pids_nil.
Qed.

Lemma requeue_result uaddr2 val limit :
  (0 < limit -> forall p, p ∈ pids L -> moveable q p) ->
  let r := a_walk ok (exists_task q) (is_blocked q) uaddr2 val limit L in
  exists t' q',
    futex_requeue_keyed uaddr uaddr2 val limit private tgid t q =
      Some (Z.of_nat (length (claimed r)) + Z.of_nat (length (moved r)),
            existsb (is_blocked q) (claimed r), t', q')
    /\ repr t' (kept r ++ moved r) /\ maps_to (walk_effect mv uaddr2 r) q q'.
Proof.
  intros Hm. cbv zeta. unfold futex_requeue_keyed. rewrite head_link, tail_link.
  destruct (requeue_loop_ok uaddr tgid private mv uaddr2 mv_u64 val limit L MAX_FUTEX_WAITERS _ [] [] _
    (start_inv limit Hm) (repr_length t L HR) (fun _ => eq_refl)) as (s' & -> & Hs).
  destruct Hs as [R1 R2 R3 R4 R5]. cbn [mbind option_bind wk_woken wk_rq wk_requeued wk_resched wk_tbl] in *.
  rewrite !Z.sub_0_r in *. unfold walk_of in *.
  exists (wk_tbl s'), (wk_rq s'). split_and!; [by rewrite R3, R4, R5|exact R1|exact R2].
Qed.

Lemma has_waiters_result except :
  futex_has_waiters uaddr private except tgid t = Some (existsb (fun e => ok e.2 && negb (w_pid e.2 =? except)) L).
Proof.
  unfold futex_has_waiters. rewrite head_link.
  apply (waiters_loop_ok uaddr tgid private except t L MAX_FUTEX_WAITERS []); [done|by eapply repr_length].
Qed.
End specs.

(** ** Properties *)
(** C9: a wake ends, claims exactly the first [n] waiters in arrival order that
    no wake has claimed, whose key matches and whose task exists, and returns
    how many that are; the tasks of those that are blocked become ready and no
    other task changes.  The waiters it leaves are the ones of the abstract
    walk: only eligible waiters without a task were dropped. *)
Theorem futex_wake_spec t q L uaddr n private tgid :
  repr t L -> waiters_ok L -> rq_ok q -> 0 <= n ->
  let target := List.filter (fun e => eligible uaddr tgid private e.2 && exists_task q (w_pid e.2)) L in
  let ps := take (Z.to_nat n) (pids target) in
  exists t' q' L',
    futex_wake_keyed uaddr n private tgid t q
      = Some (Z.min n (Z.of_nat (length target)), existsb (is_blocked q) ps, t', q')
    /\ repr t' L'
    /\ L' = kept (a_walk (eligible uaddr tgid private) (exists_task q) (is_blocked q) 0 n 0 L)
    /\ rq_ok q'
    /\ forall j, slot q' j = (fun u => if bool_decide (pid u ∈ ps) then release (min_vruntime q) u else u) <$> slot q j.
Proof.
  intros HR HL Hq Hn. cbv zeta. destruct (wake_result t q L HR HL Hq uaddr tgid private n) as (t' & q' & E & R1 & [R2 R3]).
  rewrite claimed_first in E, R3. eexists t', q', _. split_and!; [|done..].
  rewrite E, length_take. unfold pids at 1. rewrite !length_fmap. repeat f_equal. lia.
Qed.

(** The queue of two kernel tasks with pid 9 blocked on a futex. *)
Definition demo_waiter : FutexWaiter := mkWaiter 9 4096 9 true false.
Definition demo_table : FutexTable := (insert_waiter demo_waiter new_table).2.
Definition demo_entry : entry := (0%nat, demo_waiter).

Lemma demo_repr : repr demo_table [demo_entry].
Proof.
  destruct (insert_repr new_table [] demo_waiter new_table_repr) as (_ & _ & _ & H). exact H.
Qed.
Lemma demo_waiters_ok : waiters_ok [demo_entry].
Proof. split; [apply NoDup_singleton|]. by intros e ->%list_elem_of_singleton. Qed.

Lemma futex_wake_spec_witness :
  exists t' q', futex_wake_keyed 4096 1 true 9 demo_table demo = Some (1, false, t', q').
Proof.
  destruct (futex_wake_spec demo_table demo [demo_entry] 4096 1 true 9 demo_repr demo_waiters_ok demo_ok)
    as (t' & q' & L' & E & _); [lia|]. exists t', q'. rewrite E. vm_compute. reflexivity.
Defined.

(** a requeue ends and does what the abstract walk says: the first [val]
    eligible waiters with a task are claimed (and released if blocked), of the
    ones that follow the first [limit] blocked ones are appended, in order,
    under the new address, everything else keeps its place, and the result
    counts both groups.  No waiter is visited twice, also when both addresses
    share a bucket. *)
Theorem futex_requeue_spec t q L uaddr uaddr2 val limit private tgid :
  repr t L -> waiters_ok L -> rq_ok q -> (0 < limit -> forall p, p ∈ pids L -> moveable q p) ->
  let r := a_walk (eligible uaddr tgid private) (exists_task q) (is_blocked q) uaddr2 val limit L in
  exists t' q',
    futex_requeue_keyed uaddr uaddr2 val limit private tgid t q =
      Some (Z.of_nat (length (claimed r) + length (moved r)), existsb (is_blocked q) (claimed r), t', q')
    /\ repr t' (kept r ++ moved r)
    /\ rq_ok q'
    /\ forall j, slot q' j = walk_effect (min_vruntime q) uaddr2 r <$> slot q j.
Proof.
  intros HR HL Hq Hm. cbv zeta.
  destruct (requeue_result t q L HR HL Hq uaddr tgid private uaddr2 val limit Hm) as (t' & q' & E & R1 & [R2 R3]).
  exists t', q'. rewrite E, Nat2Z.inj_add. by split_and!.
Qed.

Lemma futex_requeue_spec_witness :
  exists t' q', futex_requeue_keyed 4096 8192 0 1 true 9 demo_table demo_kwait = Some (1, false, t', q')
    /\ repr t' [(0%nat, mkWaiter 9 8192 9 true false)].
Proof.
  destruct (futex_requeue_spec demo_table demo_kwait [demo_entry] 4096 8192 0 1 true 9 demo_repr demo_waiters_ok)
    as (t' & q' & E & R & _).
  - apply (block_ok demo 9 KWAIT_CHANNEL U64_MAX POLL_TAG_ALL 1 demo_9); [apply demo_ok|done|apply demo_slot1|done].
  - intros _ p Hp%list_elem_of_singleton t Ht Hb. right. subst p. vm_compute in Ht. injection Ht as <-. by eexists.
  - exists t', q'. split; [rewrite E; vm_compute; reflexivity|]. vm_compute in R. exact R.
Defined.
