(* ===== verification/FutexProto.v ===== *)
(** * Futex wait as a protocol between tasks

    The three phases of [futex_wait_intr] ([src/sched/src/futex.rs]) as steps
    of a system of tasks that wait, wake and requeue concurrently.  Each hold of
    [FUTEX_TABLE] is one step ([wait_prepare], [wait_commit], [wait_resume],
    [futex_wake_keyed], [futex_requeue_keyed], [remove_waiter] of [Futex]); the
    read of the user word is a step of its own, as it happens with no lock
    held, and so are writes of user memory.  The scheduler, signal delivery and
    the deadline tick are an environment step that replaces the run queue: it
    may release tasks at any time and may block a task that is not parked (a
    page fault in the read parks it on a channel), but only a task itself parks
    on a futex. *)
From S2P Require Import Prelude KLib PidMap Task RunQueue Wake Signals FutexTable Futex.

(** ** States *)
(** Where a call of [futex_wait_intr] stands: at the loop head, registered,
    past the read of the word, parked, or done. *)
Inductive Pc : Set :=
  | Start
  | Registered (idx : nat)
  | Checked (idx : nat) (current : Z)
  | Parked (idx : nat)
  | Returned (r : Z).

Record Call := mkCall {
  c_uaddr : Z; c_expected : Z; c_deadline : option Z; c_private : bool; c_tgid : Z; c_pc : Pc }.
Definition at_pc (pc : Pc) (c : Call) : Call :=
  mkCall (c_uaddr c) (c_expected c) (c_deadline c) (c_private c) (c_tgid c) pc.

(** User memory is per thread group. *)
Record Sys := mkSys {
  tbl : FutexTable; rq : RunQueue; mem : Z -> Z -> Z; calls : gmap Z Call }.

Definition pc_slot (pc : Pc) : option nat :=
  match pc with
  | Registered i | Checked i _ | Parked i => Some i
  | Start | Returned _ => None
  end.
Definition after (r : option Z) (pc : Pc) : Pc := match r with Some r => Returned r | None => pc end.
Definition write_mem (tg a v : Z) (m : Z -> Z -> Z) : Z -> Z -> Z :=
  fun tg' a' => if (tg' =? tg) && (a' =? a) then v else m tg' a'.

(** ** Steps *)
Inductive label : Set :=
  | Internal
  | Write (tg a v : Z)
  | Wake (uaddr n tgid : Z) (woken : Z)
  | Requeue (uaddr uaddr2 : Z).

(** What the rest of the kernel may do to the run queue. *)
Record env_ok (s : Sys) (q' : RunQueue) : Prop := {
  env_rq : rq_ok q';
  env_parked : forall p c i t', calls s !! p = Some c -> c_pc c = Parked i ->
    find_pid q' p = Some t' -> state t' = Blocked ->
    exists t, find_pid (rq s) p = Some t /\ state t = Blocked
      /\ blocked_futex t' = blocked_futex t /\ blocked_on t' = blocked_on t;
  env_other : forall p c t', calls s !! p = Some c -> (forall i, c_pc c <> Parked i) ->
    find_pid q' p = Some t' -> state t' = Blocked -> is_Some (blocked_on t') }.

Inductive step (s : Sys) : label -> Sys -> Prop :=
  | step_call p c :
      (forall c', calls s !! p = Some c' -> exists r, c_pc c' = Returned r) ->
      p <> 0 -> c_uaddr c <> 0 -> c_pc c = Start ->
      (forall t, find_pid (rq s) p = Some t -> state t <> Blocked) ->
      step s Internal (mkSys (tbl s) (rq s) (mem s) (<[p := c]> (calls s)))
  | step_prepare p c :
      calls s !! p = Some c -> c_pc c = Start ->
      let r := wait_prepare p (c_uaddr c) (c_tgid c) (c_private c) (tbl s) in
      let pc := match r.1 with Some i => Registered i | None => Returned EAGAIN end in
      step s Internal (mkSys r.2 (rq s) (mem s) (<[p := at_pc pc c]> (calls s)))
  | step_check p c i :
      calls s !! p = Some c -> c_pc c = Registered i ->
      step s Internal (mkSys (tbl s) (rq s) (mem s)
        (<[p := at_pc (Checked i (mem s (c_tgid c) (c_uaddr c))) c]> (calls s)))
  | step_commit p c i cur :
      calls s !! p = Some c -> c_pc c = Checked i cur -> is_Some (find_pid (rq s) p) ->
      let r := wait_commit p (c_uaddr c) (c_expected c) cur (c_deadline c) i (tbl s) (rq s) in
      step s Internal (mkSys r.1.2 r.2 (mem s) (<[p := at_pc (after r.1.1 (Parked i)) c]> (calls s)))
  | step_resume p c i now t :
      calls s !! p = Some c -> c_pc c = Parked i ->
      find_pid (rq s) p = Some t -> state t <> Blocked ->
      let r := wait_resume p (c_deadline c) now i (tbl s) (rq s) in
      step s Internal (mkSys r.1.2 r.2 (mem s) (<[p := at_pc (after r.1.1 Start) c]> (calls s)))
  | step_remove p :
      step s Internal (mkSys (remove_waiter p (tbl s)) (rq s) (mem s) (delete p (calls s)))
  | step_env q' :
      env_ok s q' -> step s Internal (mkSys (tbl s) q' (mem s) (calls s))
  | step_write tg a v :
      step s (Write tg a v) (mkSys (tbl s) (rq s) (write_mem tg a v (mem s)) (calls s))
  | step_wake uaddr n private tgid woken resched t' q' :
      0 <= n ->
      futex_wake_keyed uaddr n private tgid (tbl s) (rq s) = Some (woken, resched, t', q') ->
      step s (Wake uaddr n tgid woken) (mkSys t' q' (mem s) (calls s))
  | step_requeue uaddr uaddr2 val limit private tgid r resched t' q' :
      uaddr2 <> 0 ->
      futex_requeue_keyed uaddr uaddr2 val limit private tgid (tbl s) (rq s) = Some (r, resched, t', q') ->
      step s (Requeue uaddr uaddr2) (mkSys t' q' (mem s) (calls s)).

(** Runs all of whose labels satisfy [P]. *)
Definition steps (P : label -> Prop) : relation Sys := rtc (fun s s' => exists l, P l /\ step s l s').

Definition init : Sys := mkSys new_table RunQueue.new (fun _ _ => 0) ∅.

(** ** Invariant *)
(** A registration belongs to a call in progress. *)
Definition owns (cs : gmap Z Call) (e : entry) : Prop :=
  exists c, cs !! w_pid e.2 = Some c /\ pc_slot (c_pc c) = Some e.1
    /\ w_tgid e.2 = c_tgid c /\ w_private e.2 = c_private c /\ w_pid e.2 <> 0.

(** A task asleep in a futex wait is registered and no wake has claimed it. *)
Definition awaited (s : Sys) : Prop :=
  forall p c i t, calls s !! p = Some c -> c_pc c = Parked i ->
    find_pid (rq s) p = Some t -> state t = Blocked ->
    exists w, waiter (tbl s) i = Some w /\ w_pid w = p /\ w_woken w = false.

Record inv (s : Sys) : Prop := {
  i_rq : rq_ok (rq s);
  i_tbl : exists L, repr (tbl s) L /\ forall e, e ∈ L -> owns (calls s) e;
  i_calls : forall p c, calls s !! p = Some c -> p <> 0 /\ c_uaddr c <> 0;
  i_move : forall p c, calls s !! p = Some c -> moveable (rq s) p;
  i_awaited : awaited s }.

(** ** Registrations across an operation *)
Definition same_owner (w w' : FutexWaiter) : Prop :=
  w_pid w' = w_pid w /\ w_tgid w' = w_tgid w /\ w_private w' = w_private w
  /\ (w_woken w = true -> w_woken w' = true).

Lemma same_owner_refl w : same_owner w w.
Proof. by split_and!. Qed.

Lemma a_walk_from ok a b u2 val limit L e' :
  let r := a_walk ok a b u2 val limit L in
  e' ∈ kept r ++ moved r ->
  exists w, (e'.1, w) ∈ L /\ same_owner w e'.2 /\ (w_uaddr e'.2 = w_uaddr w \/ e' ∈ moved r /\ w_uaddr e'.2 = u2).
Proof.
  cbv zeta. revert val limit. induction L as [|e L IH]; intros val limit; [by intros ?%elem_of_nil|].
  assert (forall r, (e' ∈ kept r ++ moved r -> exists w, (e'.1, w) ∈ L /\ same_owner w e'.2
      /\ (w_uaddr e'.2 = w_uaddr w \/ e' ∈ moved r /\ w_uaddr e'.2 = u2)) ->
    e' ∈ kept r ++ moved r -> exists w, (e'.1, w) ∈ e :: L /\ same_owner w e'.2
      /\ (w_uaddr e'.2 = w_uaddr w \/ e' ∈ moved r /\ w_uaddr e'.2 = u2)) as Hrest.
  { intros r Hr Hin. destruct (Hr Hin) as (w & H1 & H2). exists w. split; [by right|done]. }
  assert (forall w', same_owner e.2 w' -> w_uaddr w' = w_uaddr e.2 -> forall M : list entry, e' = (e.1, w') ->
    exists w, (e'.1, w) ∈ e :: L /\ same_owner w e'.2 /\ (w_uaddr e'.2 = w_uaddr w \/ e' ∈ M /\ w_uaddr e'.2 = u2)) as Hhd.
  { intros w' H1 H2 M ->. exists e.2. destruct e as [i w]. split; [by left|]. split; [done|by left]. }
  cbn [a_walk]. destruct (negb _).
  { cbn [kept moved keep_entry]. rewrite <- app_comm_cons. intros [->|Hin]%elem_of_cons; [|eauto].
    apply (Hhd e.2); [apply same_owner_refl|done|by destruct e]. }
  destruct (0 <? val); [destruct (a _)|destruct (_ && _)].
  - cbn [kept moved]. rewrite <- app_comm_cons. intros [->|Hin]%elem_of_cons; [|eauto].
    by apply (Hhd (with_woken e.2)).
  - eauto.
  - cbn [kept moved]. set (r := a_walk _ _ _ _ _ _ L) in *. intros Hin.
    assert (e' = (e.1, with_uaddr u2 e.2) \/ e' ∈ kept r ++ moved r) as [->|Hin'].
    { rewrite elem_of_app, elem_of_cons in *. naive_solver. }
    + exists e.2. destruct e as [i w]. split; [by left|]. split; [done|]. right. split; [by left|done].
    + destruct (Hrest r (IH _ _) Hin') as (w & H1 & H2 & H3). exists w. split_and!; [done..|].
      destruct H3 as [|[H3 H4]]; [by left|right; split; [by right|done]].
  - cbn [kept moved keep_entry]. rewrite <- app_comm_cons. intros [->|Hin]%elem_of_cons; [|eauto].
    apply (Hhd e.2); [apply same_owner_refl|done|by destruct e].
Qed.

(** A waiter that is not claimed and has a task keeps its slot. *)
Lemma a_walk_survives ok a b u2 val limit L i w :
  let r := a_walk ok a b u2 val limit L in
  (i, w) ∈ L -> w_pid w ∉ claimed r -> a (w_pid w) = true ->
  exists w', (i, w') ∈ kept r ++ moved r /\ w_pid w' = w_pid w /\ w_woken w' = w_woken w.
Proof.
  cbv zeta. revert val limit. induction L as [|e L IH]; intros val limit; [by intros ?%elem_of_nil|].
  intros [<-|Hin]%elem_of_cons; cbn [a_walk fst snd].
  - intros Hc Ha. destruct (negb _); [exists w; split; [by left|done]|].
    destruct (0 <? val); [rewrite Ha in *; by destruct Hc; left|].
    destruct (_ && _); [|exists w; split; [by left|done]].
    exists (with_uaddr u2 w). split; [|done]. rewrite elem_of_app. right. by left.
  - assert (forall r r', (forall x, x ∈ kept r ++ moved r -> x ∈ kept r' ++ moved r') ->
      (exists w', (i, w') ∈ kept r ++ moved r /\ w_pid w' = w_pid w /\ w_woken w' = w_woken w) ->
      exists w', (i, w') ∈ kept r' ++ moved r' /\ w_pid w' = w_pid w /\ w_woken w' = w_woken w) as Hsub
      by naive_solver.
    destruct (negb _); [|destruct (0 <? val); [destruct (a (w_pid e.2))|destruct (_ && _)]]; intros Hc Ha.
    + eapply Hsub; [|by eapply (IH val limit)]. cbn. intros x. by right.
    + eapply Hsub; [|eapply (IH (val - 1) limit); [done| |done]]; [cbn; intros x; by right|].
      intros H. apply Hc. by right.
    + eapply (IH val limit); done.
    + eapply Hsub; [|by eapply (IH val (limit - 1))]. cbn. intros x. rewrite !elem_of_app, elem_of_cons. naive_solver.
    + eapply Hsub; [|by eapply (IH val limit)]. cbn. intros x. by right.
Qed.

Lemma owned_waiters t L cs : repr t L -> (forall e, e ∈ L -> owns cs e) -> waiters_ok L.
Proof.
  intros HR Ho. split; [|intros e He; by destruct (Ho e He) as (c & _ & _ & _ & _ & ?)].
  unfold pids. rewrite <- list_fmap_compose. apply NoDup_fmap_2_strong.
  - intros [i w] [j w'] H1 H2 E. cbn in E. destruct (Ho _ H1) as (c & C1 & C2 & _), (Ho _ H2) as (c' & C3 & C4 & _).
    cbn in *. rewrite E in C1. assert (i = j) as -> by congruence.
    apply (r_slot _ _ HR) in H1, H2. congruence.
  - eapply NoDup_fmap_1, HR.
Qed.

(** ** Preservation *)
Lemma effect_blocked mv u2 r t :
  state (walk_effect mv u2 r t) = Blocked ->
  state t = Blocked /\ (pid t ∉ claimed r) /\ blocked_on (walk_effect mv u2 r t) = blocked_on t
  /\ (blocked_futex (walk_effect mv u2 r t) = blocked_futex t
      \/ moved r <> [] /\ blocked_futex (walk_effect mv u2 r t) = u2).
Proof.
  unfold walk_effect, at_pids. destruct (bool_decide_reflect (pid t ∈ claimed r)) as [Hin|Hin].
  - destruct (release_fields mv t) as (E & _ & Hb). destruct (bool_decide _); intros H; by destruct (Hb H).
  - destruct (bool_decide_reflect (pid t ∈ pids (moved r))) as [Hm|]; [|intros H; repeat (split; [done|]); by left].
    intros H. repeat (split; [done|]). right. split; [|done]. intros E. rewrite E in Hm. by apply elem_of_nil in Hm.
Qed.

Lemma walk_inv s q0 mv u2 r t' q' ok val limit :
  inv s -> q0 = rq s -> (moved r <> [] -> u2 <> 0) ->
  (exists L, repr (tbl s) L /\ (forall e, e ∈ L -> owns (calls s) e)
     /\ r = a_walk ok (exists_task q0) (is_blocked q0) u2 val limit L) ->
  repr t' (kept r ++ moved r) -> maps_to (walk_effect mv u2 r) (rq s) q' ->
  inv (mkSys t' q' (mem s) (calls s)).
Proof.
  intros [I1 I2 I3 I4 I5] -> Hu2 (L & HR & Ho & Hr) HR' Hm.
  assert (forall p t, p <> 0 -> find_pid q' p = Some t -> exists t0, find_pid (rq s) p = Some t0
    /\ t = walk_effect mv u2 r t0 /\ pid t0 = p) as Hf.
  { intros p t Hp. rewrite (find_maps _ _ _ p I1 Hm) by (done || intros; by apply walk_effect_pid).
    intros (t0 & H0 & ->)%fmap_Some. exists t0. split_and!; [done..|].
    by apply find_pid_slot in H0 as (? & _ & ?); [|apply I1]. }
  split; cbn [tbl rq calls].
  - apply Hm.
  - eexists. split; [done|]. intros e He. rewrite Hr in He. apply a_walk_from in He as (w & Hin & (E1 & E2 & E3 & _) & _).
    destruct (Ho _ Hin) as (c & C1 & C2 & C3 & C4 & C5). exists c. cbn in *. rewrite E1, E2, E3. by split_and!.
  - done.
  - intros p c Hc t Ht Hb. destruct (I3 p c Hc) as [Hp _]. destruct (Hf p t Hp Ht) as (t0 & H0 & -> & Hpid).
    apply effect_blocked in Hb as (B1 & _ & B3 & B4). rewrite B3. destruct (I4 p c Hc t0 H0 B1) as [H|H]; [|by right].
    left. destruct B4 as [->|[Hne ->]]; [done|]. by apply Hu2.
  - intros p c i t Hc Hpc Ht Hb. destruct (I3 p c Hc) as [Hp _]. destruct (Hf p t Hp Ht) as (t0 & H0 & -> & Hpid).
    apply effect_blocked in Hb as (B1 & B2 & _). destruct (I5 p c i t0 Hc Hpc H0 B1) as (w & W1 & W2 & W3).
    apply (r_slot _ _ HR) in W1. destruct (a_walk_survives ok (exists_task (rq s)) (is_blocked (rq s)) u2 val limit L i w)
      as (w' & W4 & W5 & W6); [done|by rewrite <- Hr, W2, <- Hpid| |].
    { unfold exists_task. apply bool_decide_eq_true_2. rewrite W2, H0. by eexists. }
    rewrite <- Hr in W4. apply (r_slot _ _ HR') in W4. exists w'. rewrite W5, W6. by split_and!.
Qed.

(** What a wake or a requeue of a reachable state walks over. *)
Lemma wake_walk s uaddr n private tgid woken resched t' q' :
  inv s -> futex_wake_keyed uaddr n private tgid (tbl s) (rq s) = Some (woken, resched, t', q') ->
  exists L, repr (tbl s) L /\ (forall e, e ∈ L -> owns (calls s) e) /\
    let r := a_walk (eligible uaddr tgid private) (exists_task (rq s)) (is_blocked (rq s)) 0 n 0 L in
    moved r = [] /\ repr t' (kept r ++ moved r) /\ maps_to (walk_effect (min_vruntime (rq s)) 0 r) (rq s) q'.
Proof.
  intros Hi E. destruct (i_tbl s Hi) as (L & HR & Ho). exists L. split; [done|]. split; [done|].
  destruct (wake_result (tbl s) (rq s) L HR (owned_waiters _ _ _ HR Ho) (i_rq s Hi) uaddr tgid private n)
    as (t1 & q1 & E1 & R1 & [R2 R3]).
  rewrite E1 in E. injection E as _ _ <- <-. cbv zeta.
  pose proof (a_walk_no_limit (eligible uaddr tgid private) (exists_task (rq s)) (is_blocked (rq s)) 0 n L) as Hm.
  split; [done|]. split; [by rewrite Hm, app_nil_r|].
  split; [done|]. intros j. rewrite R3. destruct (slot _ j); [|done]. cbn. f_equal.
  unfold walk_effect. by rewrite Hm, at_pids_nil.
Qed.

Lemma requeue_walk s uaddr uaddr2 val limit private tgid n resched t' q' :
  inv s -> futex_requeue_keyed uaddr uaddr2 val limit private tgid (tbl s) (rq s) = Some (n, resched, t', q') ->
  exists L, repr (tbl s) L /\ (forall e, e ∈ L -> owns (calls s) e) /\
    let r := a_walk (eligible uaddr tgid private) (exists_task (rq s)) (is_blocked (rq s)) uaddr2 val limit L in
    repr t' (kept r ++ moved r) /\ maps_to (walk_effect (min_vruntime (rq s)) uaddr2 r) (rq s) q'.
Proof.
  intros Hi E. destruct (i_tbl s Hi) as (L & HR & Ho). exists L. split; [done|]. split; [done|].
  destruct (requeue_result (tbl s) (rq s) L HR (owned_waiters _ _ _ HR Ho) (i_rq s Hi) uaddr tgid private uaddr2 val limit)
    as (t1 & q1 & E1 & R1 & R2).
  { intros _ p Hp. apply list_elem_of_fmap in Hp as (w & -> & Hw). apply list_elem_of_fmap in Hw as (e & -> & He).
    destruct (Ho e He) as (c & Hc & _). by eapply i_move. }
  rewrite E1 in E. by injection E as _ _ <- <-.
Qed.

Lemma wake_inv s uaddr n private tgid woken resched t' q' :
  inv s -> futex_wake_keyed uaddr n private tgid (tbl s) (rq s) = Some (woken, resched, t', q') ->
  inv (mkSys t' q' (mem s) (calls s)).
Proof.
  intros Hi E. destruct (wake_walk _ _ _ _ _ _ _ _ _ Hi E) as (L & HR & Ho & Hm & R1 & R2).
  eapply (walk_inv s (rq s) (min_vruntime (rq s)) 0); [done|done|by rewrite Hm|by exists L|done|done].
Qed.

Lemma requeue_inv s uaddr uaddr2 val limit private tgid r resched t' q' :
  inv s -> uaddr2 <> 0 ->
  futex_requeue_keyed uaddr uaddr2 val limit private tgid (tbl s) (rq s) = Some (r, resched, t', q') ->
  inv (mkSys t' q' (mem s) (calls s)).
Proof.
  intros Hi Hu E. destruct (requeue_walk _ _ _ _ _ _ _ _ _ _ _ Hi E) as (L & HR & Ho & R1 & R2).
  by eapply (walk_inv s (rq s) (min_vruntime (rq s)) uaddr2); [..|exists L|done|done].
Qed.

(** A step of one call: the other calls keep their registrations and tasks. *)
Lemma update_inv s p c pc t' q' :
  inv s -> calls s !! p = Some c -> rq_ok q' ->
  (exists L', repr t' L' /\ forall e, e ∈ L' -> (w_pid e.2 <> p /\ owns (calls s) e)
     \/ (w_pid e.2 = p /\ pc_slot pc = Some e.1 /\ w_tgid e.2 = c_tgid c /\ w_private e.2 = c_private c)) ->
  (forall p', p' <> p -> p' <> 0 -> find_pid q' p' = find_pid (rq s) p') ->
  moveable q' p ->
  (forall i w, waiter (tbl s) i = Some w -> w_pid w <> p -> waiter t' i = Some w) ->
  (forall i t, pc = Parked i -> find_pid q' p = Some t -> state t = Blocked ->
     exists w, waiter t' i = Some w /\ w_pid w = p /\ w_woken w = false) ->
  inv (mkSys t' q' (mem s) (<[p := at_pc pc c]> (calls s))).
Proof.
  intros [I1 I2 I3 I4 I5] Hc Hq (L' & HR & Ho) Hf Hm Hw Hp. split; [..|unfold awaited]; cbn [tbl rq calls].
  - done.
  - exists L'. split; [done|]. intros e He. destruct (Ho e He) as [[Hne (c' & C)]|(E & H1 & H2 & H3)].
    + exists c'. by rewrite lookup_insert_ne.
    + exists (at_pc pc c). rewrite E, lookup_insert_eq. split_and!; try done. by apply (I3 p c).
  - intros p' c' [[<- <-]|[Hne Hc']]%lookup_insert_Some; [by apply (I3 p c)|by apply (I3 p' c')].
  - intros p' c' [[<- _]|[Hne Hc']]%lookup_insert_Some; [done|].
    intros t. rewrite Hf by (done || by apply (I3 p' c')). by apply (I4 p' c').
  - intros p' c' i t [[<- <-]|[Hne Hc']]%lookup_insert_Some; [by apply Hp|].
    intros Hpc. rewrite Hf by (done || by apply (I3 p' c')). intros Ht Hb.
    destruct (I5 p' c' i t Hc' Hpc Ht Hb) as (w & W1 & W2 & W3). exists w. split_and!; [|done..].
    apply Hw; [done|congruence].
Qed.

(** The registrations of [p], if any, are at the slot of its call. *)
Lemma owned_slot s p c (L : list entry) e :
  (forall e, e ∈ L -> owns (calls s) e) -> calls s !! p = Some c -> e ∈ L -> w_pid e.2 = p ->
  pc_slot (c_pc c) = Some e.1 /\ w_tgid e.2 = c_tgid c /\ w_private e.2 = c_private c.
Proof. intros Ho Hc He Hp. destruct (Ho e He) as (c' & C1 & C2 & C3 & C4 & _). rewrite Hp, Hc in C1. by simplify_eq. Qed.

Lemma same_slot_list s p c pc t :
  inv s -> calls s !! p = Some c -> pc_slot pc = pc_slot (c_pc c) -> t = tbl s ->
  exists L', repr t L' /\ forall e, e ∈ L' -> (w_pid e.2 <> p /\ owns (calls s) e)
     \/ (w_pid e.2 = p /\ pc_slot pc = Some e.1 /\ w_tgid e.2 = c_tgid c /\ w_private e.2 = c_private c).
Proof.
  intros Hi Hc Hpc ->. destruct (i_tbl s Hi) as (L & HR & Ho). exists L. split; [done|]. intros e He.
  destruct (decide (w_pid e.2 = p)) as [E|E]; [right|left; auto].
  rewrite Hpc. split; [done|]. by eapply owned_slot.
Qed.

Lemma cleared_list s p c i pc :
  inv s -> calls s !! p = Some c -> pc_slot (c_pc c) = Some i ->
  exists L', repr (clear_slot i p (tbl s)) L' /\ forall e, e ∈ L' -> (w_pid e.2 <> p /\ owns (calls s) e)
     \/ (w_pid e.2 = p /\ pc_slot pc = Some e.1 /\ w_tgid e.2 = c_tgid c /\ w_private e.2 = c_private c).
Proof.
  intros Hi Hc Hpc. destruct (i_tbl s Hi) as (L & HR & Ho). eexists. split; [by apply clear_slot_repr|].
  intros e He. apply list_elem_of_In, List.filter_In in He as [He%list_elem_of_In Hf]. left. split; [|auto].
  intros E. destruct (owned_slot s p c L e Ho Hc He E) as [H _]. rewrite Hpc in H. injection H as ->.
  by rewrite Nat.eqb_refl, E, Z.eqb_refl in Hf.
Qed.

Lemma clear_keeps t i p j w :
  ft_ok t -> waiter t j = Some w -> w_pid w <> p -> waiter (clear_slot i p t) j = Some w.
Proof.
  intros [L HR] Hw Hp. apply (r_slot _ _ (clear_slot_repr t L i p HR)). apply list_elem_of_In, List.filter_In.
  split; [by apply list_elem_of_In, HR|]. cbn. destruct (Z.eqb_spec (w_pid w) p); [done|]. by rewrite andb_false_r.
Qed.

Lemma inv_ft s : inv s -> ft_ok (tbl s).
Proof. intros Hi. destruct (i_tbl s Hi) as (L & HR & _). by exists L. Qed.

(** ** Parking and resuming *)
Lemma park_maps q p u dl t :
  rq_ok q -> p <> 0 -> find_pid q p = Some t ->
  let q1 := modify_pid p (park_on_futex u dl) q in
  maps_to (at_pids [p] (park_on_futex u dl)) q
    (match dl with Some _ => note_timed_wait p q1 | None => q1 end).
Proof.
  intros Hq Hp Ht. cbv zeta. destruct dl as [d|].
  2:{ apply maps_modify with t; try done; [by intros []; split|].
      unfold wake_scannable, park_on_futex. cbn. by rewrite andb_false_r. }
  pose proof (find_pid_slot q p t (proj1 Hq) Ht) as (i & Hi & Hpt).
  assert (i < MAX_TASKS)%nat as Hlt by (eapply slot_lt; [apply Hq|done]).
  assert (find_pid_idx q p = Some i) as Hidx.
  { rewrite <- Hpt. apply find_pid_idx_slot; [apply Hq|done|congruence]. }
  set (f := park_on_futex u (Some d)). unfold modify_pid. rewrite Hidx. unfold modify.
  change (slot (touch i q) i) with (slot q i). rewrite Hi.
  assert (rq_base (write_task i (f t) (touch i q))) as Hb.
  { apply (base_write i t); [apply base_touch, Hq|exact Hi|done|done|].
    destruct (rq_task q (proj1 Hq) i t Hi). by split. }
  assert (slot (write_task i (f t) (touch i q)) i = Some (f t)) as Hi'.
  { rewrite (slot_wake q i t) by done. by rewrite decide_True. }
  unfold note_timed_wait. pose proof (find_pid_idx_slot _ i (f t) Hb Hi') as Hx.
  change (pid (f t)) with (pid t) in Hx. rewrite Hpt in Hx. rewrite Hx by done.
  change (park i (write_task i (f t) (touch i q))) with (write_task i (f t) (touch i (park i q))). split.
  - eapply ok_write; [by apply ok_park|exact Hi|done|done| |].
    + destruct (rq_task q (proj1 Hq) i t Hi). by split.
    + intros _. rewrite get_park by (done || apply Hq). by rewrite bool_decide_eq_true_2.
  - intros j. etrans; [exact (slot_write (touch i (park i q)) i t (f t) j Hi)|]. unfold at_pids.
    destruct (decide (i = j)) as [<-|Hne].
    + rewrite Hi. cbn. rewrite bool_decide_eq_true_2; [done|]. rewrite Hpt. by left.
    + change (slot (touch i (park i q)) j) with (slot q j). destruct (slot q j) as [u'|] eqn:Hj; [|done].
      cbn. rewrite bool_decide_eq_false_2; [done|]. rewrite list_elem_of_singleton. intros Hu. apply Hne.
      eapply (pids_distinct q); [apply Hq|done..|congruence|congruence].
Qed.

Lemma resume_maps q p t :
  rq_ok q -> p <> 0 -> find_pid q p = Some t -> maps_to (at_pids [p] unpark_futex) q (modify_pid p unpark_futex q).
Proof.
  intros Hq Hp Ht. apply maps_modify with t; try done; [by intros []; split|].
  unfold wake_scannable. cbn [state unpark_futex set_poll_deadline set_blocked_futex blocked_on blocked_futex poll_deadline].
  cbn [Z.eqb negb andb]. rewrite orb_false_r. intros [-> ->]%andb_prop. done.
Qed.

Lemma find_at p f q q' :
  rq_ok q -> p <> 0 -> maps_to (at_pids [p] f) q q' -> (forall u, pid (f u) = pid u) ->
  find_pid q' p = f <$> find_pid q p.
Proof.
  intros Hq Hp Hm Hf. rewrite (find_maps _ q q' p Hq Hm) by (done || intros; by apply at_pids_pid).
  destruct (find_pid q p) as [t|] eqn:E; [|done]. cbn. f_equal. unfold at_pids.
  apply find_pid_slot in E as (i & _ & E); [|apply Hq]. rewrite bool_decide_eq_true_2; [done|]. rewrite E. by left.
Qed.

Lemma moveable_same q q' p : find_pid q' p = find_pid q p -> moveable q p -> moveable q' p.
Proof. intros E Hm t. rewrite E. apply Hm. Qed.

Lemma prepare_inv s p c :
  inv s -> calls s !! p = Some c -> c_pc c = Start ->
  let r := wait_prepare p (c_uaddr c) (c_tgid c) (c_private c) (tbl s) in
  let pc := match r.1 with Some i => Registered i | None => Returned EAGAIN end in
  inv (mkSys r.2 (rq s) (mem s) (<[p := at_pc pc c]> (calls s))).
Proof.
  intros Hi Hc Hpc. cbv zeta. unfold wait_prepare. destruct (i_tbl s Hi) as (L & HR & Ho).
  assert (forall e, e ∈ L -> w_pid e.2 <> p) as Hnone.
  { intros e He E. destruct (owned_slot s p c L e Ho Hc He E) as [H _]. by rewrite Hpc in H. }
  set (w := mkWaiter _ _ _ _ _). pose proof (insert_repr (tbl s) L w HR) as Hins.
  destruct (insert_waiter w (tbl s)) as [[i|] t'].
  - destruct Hins as (Hi0 & _ & _ & HR'). apply update_inv; try done; [apply Hi| |by eapply i_move|].
    + exists (L ++ [(i, w)]). split; [done|]. intros e [He| ->%list_elem_of_singleton]%elem_of_app; [left|right; done]. auto.
    + intros j w' Hw' _. apply (r_slot _ _ HR'), elem_of_app. left. by apply HR.
  - destruct Hins as [-> _]. apply update_inv; try done; [apply Hi| |by eapply i_move].
    exists L. split; [done|]. intros e He. left. auto.
Qed.

Lemma check_inv s p c i v :
  inv s -> calls s !! p = Some c -> c_pc c = Registered i ->
  inv (mkSys (tbl s) (rq s) (mem s) (<[p := at_pc (Checked i v) c]> (calls s))).
Proof.
  intros Hi Hc Hpc. apply update_inv; try done; [apply Hi| |by eapply i_move].
  eapply same_slot_list; [done..| |done]. by rewrite Hpc.
Qed.

Lemma leave_inv s p c i r :
  inv s -> calls s !! p = Some c -> pc_slot (c_pc c) = Some i ->
  inv (mkSys (clear_slot i p (tbl s)) (rq s) (mem s) (<[p := at_pc (Returned r) c]> (calls s))).
Proof.
  intros Hi Hc Hpc. apply update_inv; try done; [apply Hi|by eapply cleared_list|by eapply i_move|].
  intros j w. apply clear_keeps. by apply inv_ft.
Qed.

Lemma commit_inv s p c i cur :
  inv s -> calls s !! p = Some c -> c_pc c = Checked i cur -> is_Some (find_pid (rq s) p) ->
  let r := wait_commit p (c_uaddr c) (c_expected c) cur (c_deadline c) i (tbl s) (rq s) in
  inv (mkSys r.1.2 r.2 (mem s) (<[p := at_pc (after r.1.1 (Parked i)) c]> (calls s))).
Proof.
  intros Hi Hc Hpc [t Ht]. cbv zeta. unfold wait_commit.
  assert (pc_slot (c_pc c) = Some i) as Hs by by rewrite Hpc.
  destruct (slot_claimed i p (tbl s)) eqn:Hcl; [by apply leave_inv|].
  destruct (negb _); [by apply leave_inv|]. destruct (has_deliverable_signal_locked _ _); [by apply leave_inv|].
  cbn [fst snd after]. destruct (i_calls s Hi p c Hc) as [Hp Hu].
  pose proof (park_maps (rq s) p (c_uaddr c) (c_deadline c) t (i_rq s Hi) Hp Ht) as Hm. cbv zeta in Hm.
  set (q' := match c_deadline c with Some _ => _ | None => _ end) in *.
  apply update_inv; try done.
  - apply Hm.
  - eapply same_slot_list; [done..| |done]. by rewrite Hs.
  - intros p' Hne Hp'. eapply at_pids_other; [apply Hi|exact Hm|done|done|by rewrite list_elem_of_singleton].
  - intros t' Ht'. rewrite (find_at p _ _ _ (i_rq s Hi) Hp Hm), Ht in Ht' by done. injection Ht' as <-. by left.
  - intros j t' [= <-] _ _. unfold slot_claimed in Hcl. destruct (waiter (tbl s) i) as [w|]; [|done]. exists w.
    destruct (Z.eqb_spec (w_pid w) p); [|done]. by split_and!.
Qed.

Lemma resume_inv s p c i now t :
  inv s -> calls s !! p = Some c -> c_pc c = Parked i -> find_pid (rq s) p = Some t -> state t <> Blocked ->
  let r := wait_resume p (c_deadline c) now i (tbl s) (rq s) in
  inv (mkSys r.1.2 r.2 (mem s) (<[p := at_pc (after r.1.1 Start) c]> (calls s))).
Proof.
  intros Hi Hc Hpc Ht Hb. cbv zeta. unfold wait_resume. cbn [fst snd]. destruct (i_calls s Hi p c Hc) as [Hp _].
  pose proof (resume_maps (rq s) p t (i_rq s Hi) Hp Ht) as Hm. match goal with |- context [after ?x Start] => set (r := x) end.
  assert (forall j, after r Start <> Parked j) as Hr by by destruct r.
  apply update_inv; try done.
  - apply Hm.
  - eapply cleared_list; [done..|]. by rewrite Hpc.
  - intros p' Hne Hp'. eapply at_pids_other; [apply Hi|exact Hm|done|done|by rewrite list_elem_of_singleton].
  - intros t' Ht'. rewrite (find_at p _ _ _ (i_rq s Hi) Hp Hm), Ht in Ht' by done. injection Ht' as <-. done.
  - intros j w. apply clear_keeps. by apply inv_ft.
  - intros j t' E. by destruct (Hr j).
Qed.

Lemma call_inv s p c :
  inv s -> (forall c', calls s !! p = Some c' -> exists r, c_pc c' = Returned r) ->
  p <> 0 -> c_uaddr c <> 0 -> c_pc c = Start ->
  (forall t, find_pid (rq s) p = Some t -> state t <> Blocked) ->
  inv (mkSys (tbl s) (rq s) (mem s) (<[p := c]> (calls s))).
Proof.
  intros [I1 (L & HR & Ho) I3 I4 I5] Hret Hp Hu Hpc Hrun. split; [..|unfold awaited]; cbn [tbl rq calls].
  - done.
  - exists L. split; [done|]. intros e He. destruct (Ho e He) as (c' & C1 & C2 & C3). exists c'.
    rewrite lookup_insert_ne; [done|]. intros ->. destruct (Hret c' C1) as [r Hr]. by rewrite Hr in C2.
  - intros p' c' [[<- <-]|[_ Hc']]%lookup_insert_Some; [done|by apply (I3 p' c')].
  - intros p' c' [[<- _]|[_ Hc']]%lookup_insert_Some; [|by apply (I4 p' c')]. intros t Ht Hb. by destruct (Hrun t Ht).
  - intros p' c' i t [[<- <-]|[_ Hc']]%lookup_insert_Some; [by rewrite Hpc|by apply I5].
Qed.

Lemma remove_inv s p :
  inv s -> inv (mkSys (remove_waiter p (tbl s)) (rq s) (mem s) (delete p (calls s))).
Proof.
  intros [I1 (L & HR & Ho) I3 I4 I5]. pose proof (remove_repr (tbl s) L p HR) as HR'.
  split; [..|unfold awaited]; cbn [tbl rq calls].
  - done.
  - eexists. split; [done|]. intros e He. apply list_elem_of_In, List.filter_In in He as [He%list_elem_of_In Hf].
    destruct (Ho e He) as (c' & C1 & C2). exists c'. rewrite lookup_delete_ne; [done|].
    intros E. by rewrite <- E, Z.eqb_refl in Hf.
  - intros p' c' [_ Hc']%lookup_delete_Some. by apply (I3 p' c').
  - intros p' c' [_ Hc']%lookup_delete_Some. by apply (I4 p' c').
  - intros p' c' i t [Hne Hc']%lookup_delete_Some Hpc Ht Hb.
    destruct (I5 p' c' i t Hc' Hpc Ht Hb) as (w & W1 & W2 & W3). exists w. split_and!; [|done..].
    apply (r_slot _ _ HR'), list_elem_of_In, List.filter_In. split; [by apply list_elem_of_In, HR|].
    cbn. rewrite W2. by destruct (Z.eqb_spec p' p).
Qed.

Lemma env_inv s q' : inv s -> env_ok s q' -> inv (mkSys (tbl s) q' (mem s) (calls s)).
Proof.
  intros [I1 I2 I3 I4 I5] [E1 E2 E3]. split; [..|unfold awaited]; cbn [tbl rq calls]; try done.
  - intros p c Hc t Ht Hb.
    assert ((exists i, c_pc c = Parked i) \/ forall i, c_pc c <> Parked i) as [[i Hpc]|Hpc]
      by (destruct (c_pc c); eauto).
    + destruct (E2 p c i t Hc Hpc Ht Hb) as (t0 & H0 & B0 & -> & ->). by apply (I4 p c Hc t0).
    + right. by eapply E3.
  - intros p c i t Hc Hpc Ht Hb. destruct (E2 p c i t Hc Hpc Ht Hb) as (t0 & H0 & B0 & _). by eapply I5.
Qed.

Lemma step_inv s l s' : inv s -> step s l s' -> inv s'.
Proof.
  intros Hi Hst. destruct Hst as [p c H1 H2 H3 H4 H5|p c H1 H2|p c i H1 H2|p c i cur H1 H2 H3|
    p c i now t H1 H2 H3 H4|p|q' H1|tg a v|ua n pr tg wk rs t' q' H1 H2|ua u2 vl lm pr tg r rs t' q' H1 H2].
  - by apply call_inv.
  - by apply prepare_inv.
  - by apply check_inv.
  - by apply commit_inv.
  - by eapply resume_inv.
  - by apply remove_inv.
  - by apply env_inv.
  - destruct Hi as [I1 I2 I3 I4 I5]. by split.
  - by eapply wake_inv.
  - by eapply requeue_inv.
Qed.

Lemma init_inv : inv init.
Proof.
  split; [apply new_ok|exists []|..|unfold awaited]; cbn [tbl calls init].
  - split; [apply new_table_repr|by intros e ?%elem_of_nil].
  - by intros p c ?%lookup_empty_Some.
  - by intros p c ?%lookup_empty_Some.
  - by intros p c i t ?%lookup_empty_Some.
Qed.

Lemma steps_inv P s s' : inv s -> steps P s s' -> inv s'.
Proof. intros Hi Hs. induction Hs as [|s s1 s' (l & _ & Hst) _ IH]; [done|]. by eapply IH, step_inv. Qed.

(** ** No wake-up is lost *)
(** [p]'s registration at slot [i] is claimed, gone, or not keyed by [u]. *)
Definition released (p : Z) (i : nat) (u : Z) (t : FutexTable) : Prop :=
  forall w, waiter t i = Some w -> w_pid w = p -> w_woken w = true \/ w_uaddr w <> u.

(** Every registration of [t'] continues one of [t], and none was moved to [u]. *)
Definition evolves (u : Z) (t t' : FutexTable) : Prop :=
  forall i w', waiter t' i = Some w' ->
    exists w, waiter t i = Some w /\ same_owner w w' /\ (w_uaddr w' = w_uaddr w \/ w_uaddr w' <> u).

Lemma evolves_released u t t' p i : evolves u t t' -> released p i u t -> released p i u t'.
Proof.
  intros He Hr w' Hw' Hp. destruct (He i w' Hw') as (w & Hw & (E1 & _ & _ & E4) & Hu).
  destruct (Hr w Hw) as [H|H]; [congruence|auto|right]. destruct Hu as [-> |]; done.
Qed.

Lemma evolves_sub u t t' L L' : repr t L -> repr t' L' -> (forall e, e ∈ L' -> e ∈ L) -> evolves u t t'.
Proof.
  intros HR HR' Hsub i w Hw. exists w. split; [|split; [apply same_owner_refl|by left]].
  by apply HR, Hsub, HR'.
Qed.

Lemma evolves_filter u t t' L f : repr t L -> repr t' (List.filter f L) -> evolves u t t'.
Proof.
  intros HR HR'. eapply evolves_sub; [done..|]. intros e He.
  apply list_elem_of_In, List.filter_In in He as [He _]. by apply list_elem_of_In.
Qed.

Lemma evolves_walk u t t' L ok a b u2 val limit :
  repr t L -> (moved (a_walk ok a b u2 val limit L) <> [] -> u2 <> u) ->
  repr t' (kept (a_walk ok a b u2 val limit L) ++ moved (a_walk ok a b u2 val limit L)) -> evolves u t t'.
Proof.
  intros HR Hu HR' i w' Hw'. apply (r_slot _ _ HR') in Hw'.
  apply a_walk_from in Hw' as (w & Hin & Ho & Hk). exists w. split; [by apply HR|]. split; [done|].
  destruct Hk as [|[Hm E]]; [by left|right]. cbn in *. rewrite E. apply Hu. intros E'. rewrite E' in Hm.
  by apply elem_of_nil in Hm.
Qed.

Lemma wake_evolves s uaddr n private tgid woken resched t' q' u :
  inv s -> futex_wake_keyed uaddr n private tgid (tbl s) (rq s) = Some (woken, resched, t', q') ->
  evolves u (tbl s) t'.
Proof.
  intros Hi E. destruct (wake_walk _ _ _ _ _ _ _ _ _ Hi E) as (L & HR & Ho & Hm & R1 & R2).
  eapply evolves_walk; [done|by rewrite Hm|done].
Qed.

Lemma requeue_evolves s uaddr uaddr2 val limit private tgid r resched t' q' u :
  inv s -> uaddr2 <> u ->
  futex_requeue_keyed uaddr uaddr2 val limit private tgid (tbl s) (rq s) = Some (r, resched, t', q') ->
  evolves u (tbl s) t'.
Proof.
  intros Hi Hu E. destruct (requeue_walk _ _ _ _ _ _ _ _ _ _ _ Hi E) as (L & HR & Ho & R1 & R2).
  by eapply evolves_walk.
Qed.

(** The word at [u] of group [tg] holds [v], and no call that expects another
    value is asleep, or about to sleep, unclaimed on [u]. *)
Definition settled (tg u v : Z) (s : Sys) : Prop :=
  mem s tg u = v /\
  forall p c i, calls s !! p = Some c -> c_tgid c = tg -> c_uaddr c = u -> c_expected c <> v ->
    c_pc c = Checked i (c_expected c) \/ c_pc c = Parked i -> released p i u (tbl s).

(** Labels that neither write the word nor move waiters onto it. *)
Definition leaves (tg u : Z) (l : label) : Prop :=
  match l with
  | Write tg' a _ => ~ (tg' = tg /\ a = u)
  | Requeue _ u2 => u2 <> u
  | _ => True
  end.

(** A call of another task, with the table evolving. *)
Lemma settled_evolves tg u v s t' q' :
  settled tg u v s -> evolves u (tbl s) t' -> settled tg u v (mkSys t' q' (mem s) (calls s)).
Proof. intros [Hm Hr] He. split; [done|]. intros p c i H1 H2 H3 H4 H5. by eapply evolves_released, Hr. Qed.

Lemma settled_call tg u v s t' q' p c :
  settled tg u v s ->
  (forall p' i, p' <> p -> released p' i u (tbl s) -> released p' i u t') ->
  (forall i, c_tgid c = tg -> c_uaddr c = u -> c_expected c <> v ->
     c_pc c = Checked i (c_expected c) \/ c_pc c = Parked i -> released p i u t') ->
  settled tg u v (mkSys t' q' (mem s) (<[p := c]> (calls s))).
Proof.
  intros [Hm Hr] Ho Hp. split; [done|]. cbn [tbl calls].
  intros p' c' i [[<- <-]|[Hne Hc']]%lookup_insert_Some H2 H3 H4 H5; [by apply Hp|]. apply Ho; [done|by eapply Hr].
Qed.

Lemma settled_prepare tg u v s p c :
  ft_ok (tbl s) -> settled tg u v s ->
  let r := wait_prepare p (c_uaddr c) (c_tgid c) (c_private c) (tbl s) in
  let pc := match r.1 with Some i => Registered i | None => Returned EAGAIN end in
  settled tg u v (mkSys r.2 (rq s) (mem s) (<[p := at_pc pc c]> (calls s))).
Proof.
  intros [L HR] Hs. cbv zeta. apply settled_call; [done| |by intros i _ _ _ []; destruct (fst _)].
  intros p' i Hne Hre w Hw Hp'. set (w0 := mkWaiter p (c_uaddr c) (c_tgid c) (c_private c) false).
  pose proof (insert_repr (tbl s) L w0 HR) as Hins. unfold wait_prepare in Hw. fold w0 in Hw.
  destruct (insert_waiter w0 (tbl s)) as [[j|] t'].
  - destruct Hins as (_ & _ & _ & HR'). apply (r_slot _ _ HR') in Hw.
    apply elem_of_app in Hw as [Hw|Hw]; [by apply Hre; [apply HR|]|].
    apply list_elem_of_singleton in Hw as [= _ ->]. by destruct Hne.
  - destruct Hins as [-> _]. by apply Hre.
Qed.

Lemma clear_evolves u i p t : ft_ok t -> evolves u t (clear_slot i p t).
Proof. intros [L HR]. eapply evolves_filter; [done|by apply clear_slot_repr]. Qed.

Lemma settled_leave tg u v s p c i q' pc :
  ft_ok (tbl s) -> settled tg u v s -> pc_slot pc = None ->
  settled tg u v (mkSys (clear_slot i p (tbl s)) q' (mem s) (<[p := at_pc pc c]> (calls s))).
Proof.
  intros Hft Hs Hpc. apply settled_call; [done| |cbn].
  - intros p' j _. by apply evolves_released, clear_evolves.
  - intros j _ _ _ [->| ->]; done.
Qed.

Lemma settled_commit tg u v s p c i cur :
  ft_ok (tbl s) -> settled tg u v s -> calls s !! p = Some c -> c_pc c = Checked i cur ->
  let r := wait_commit p (c_uaddr c) (c_expected c) cur (c_deadline c) i (tbl s) (rq s) in
  settled tg u v (mkSys r.1.2 r.2 (mem s) (<[p := at_pc (after r.1.1 (Parked i)) c]> (calls s))).
Proof.
  intros Hft Hs Hc Hpc. cbv zeta. unfold wait_commit. destruct (slot_claimed _ _ _); [by apply settled_leave|].
  destruct (Z.eqb_spec cur (c_expected c)) as [->|]; [|by apply settled_leave].
  destruct (has_deliverable_signal_locked _ _); [by apply settled_leave|]. cbn [fst snd negb after].
  apply settled_call; [done..|]. cbn. intros j E1 E2 E3 [|[= <-]]; [done|]. by eapply Hs; eauto.
Qed.

Lemma settled_resume tg u v s p c i now :
  ft_ok (tbl s) -> settled tg u v s ->
  let r := wait_resume p (c_deadline c) now i (tbl s) (rq s) in
  settled tg u v (mkSys r.1.2 r.2 (mem s) (<[p := at_pc (after r.1.1 Start) c]> (calls s))).
Proof.
  intros Hft Hs. cbv zeta. unfold wait_resume. cbn [fst snd]. apply settled_leave; [done..|].
  match goal with |- context [after ?x Start] => by destruct x end.
Qed.

Lemma settled_step tg u v s l s' : inv s -> settled tg u v s -> step s l s' -> leaves tg u l -> settled tg u v s'.
Proof.
  intros Hi Hs Hst Hl. pose proof (inv_ft s Hi) as Hft.
  destruct Hst as [p c H1 H2 H3 H4 H5|p c H1 H2|p c i H1 H2|p c i cur H1 H2 H3|
    p c i now t H1 H2 H3 H4|p|q' H1|tg' a w|ua n pr tg' wk rs t' q' H1 H2|ua u2 vl lm pr tg' r rs t' q' H1 H2].
  - apply settled_call; [done..|]. rewrite H4. by intros i _ _ _ [].
  - by apply settled_prepare.
  - apply settled_call; [done..|]. cbn. intros j E1 E2 Hne [[= _ E]|]; [|done].
    rewrite E1, E2, (proj1 Hs) in E. done.
  - by apply settled_commit.
  - by apply settled_resume.
  - destruct Hs as [Hm Hr], Hft as [L HR]. split; [done|]. cbn [tbl calls].
    intros p' c i [_ Hc]%lookup_delete_Some E1 E2 E3 E4. eapply evolves_released; [|by eapply Hr].
    eapply evolves_filter; [done|by apply remove_repr].
  - by destruct Hs.
  - destruct Hs as [Hm Hr]. split; [|done]. cbn. unfold write_mem.
    destruct (Z.eqb_spec tg tg'), (Z.eqb_spec u a); cbn; try done. by destruct Hl; subst.
  - eapply settled_evolves; [done|by eapply wake_evolves].
  - eapply settled_evolves; [done|by eapply requeue_evolves].
Qed.

(** A wake of every waiter on [u] by its own group settles [u]. *)
Lemma a_walk_all ok a b u2 val limit L e :
  (forall w, ok (with_woken w) = false) -> Z.of_nat (length L) <= val ->
  e ∈ kept (a_walk ok a b u2 val limit L) -> ok e.2 = false.
Proof.
  intros Hok. revert val. induction L as [|[i w] L IH]; intros val Hv; [by intros ?%elem_of_nil|].
  cbn [a_walk fst snd]. destruct (ok w) eqn:E; cbn [negb].
  - destruct (Z.ltb_spec 0 val); [|cbn in Hv; lia]. destruct (a (w_pid w)).
    + cbn [kept]. intros [->|H']%elem_of_cons; [apply Hok|]. eapply (IH (val - 1)); [cbn in Hv; lia|done].
    + apply IH. cbn in Hv. lia.
  - cbn [kept keep_entry]. intros [->|H']%elem_of_cons; [done|]. eapply IH; [|done]. cbn in Hv. lia.
Qed.

Lemma wake_settles tg u v s n private woken resched t' q' :
  inv s -> mem s tg u = v -> Z.of_nat MAX_FUTEX_WAITERS <= n ->
  futex_wake_keyed u n private tg (tbl s) (rq s) = Some (woken, resched, t', q') ->
  settled tg u v (mkSys t' q' (mem s) (calls s)).
Proof.
  intros Hi Hm Hn E. destruct (wake_walk _ _ _ _ _ _ _ _ _ Hi E) as (L & HR & Ho & Hmv & R1 & R2).
  rewrite Hmv, app_nil_r in R1. pose proof (repr_length _ _ HR) as Hlen.
  split; [done|]. cbn [tbl calls]. intros p c i Hc Htg Hu He Hpc w Hw Hp. apply (r_slot _ _ R1) in Hw.
  assert (w_tgid w = tg) as Hwt.
  { destruct (i_tbl _ (wake_inv _ _ _ _ _ _ _ _ _ Hi E)) as (L' & HR' & Ho'). cbn [tbl calls] in *.
    apply (r_slot _ _ R1), (r_slot _ _ HR') in Hw.
    destruct (owned_slot (mkSys t' q' (mem s) (calls s)) p c L' (i, w) Ho' Hc Hw Hp) as (_ & Hg & _).
    cbn in Hg. congruence. }
  apply a_walk_all in Hw; [|intros w'; unfold eligible; done|lia]. cbn in Hw.
  destruct (w_woken w) eqn:Ew; [by left|right]. intros Eu.
  unfold eligible, key_matches in Hw. by rewrite Ew, Eu, Hwt, !Z.eqb_refl in Hw.
Qed.

(** ** Properties of every run *)
Definition any_label (l : label) : Prop := True.

(** C7: in every reachable state a task that sleeps in a futex wait is
    registered at the slot it holds, and no wake has claimed it: a claimed
    waiter is never left asleep.  A wake of that key, for as many waiters as
    the table has, by the waiter's thread group ends, releases the task and
    claims its slot. *)
Theorem futex_sleepers_reachable s p c i t :
  steps any_label init s ->
  calls s !! p = Some c -> c_pc c = Parked i -> find_pid (rq s) p = Some t -> state t = Blocked ->
  exists w, waiter (tbl s) i = Some w /\ w_pid w = p /\ w_woken w = false
    /\ forall n private, Z.of_nat MAX_FUTEX_WAITERS <= n ->
         exists woken t' q',
           futex_wake_keyed (w_uaddr w) n private (w_tgid w) (tbl s) (rq s) = Some (woken, true, t', q')
           /\ 1 <= woken /\ is_blocked q' p = false /\ slot_claimed i p t' = true.
Proof.
  intros Hst Hc Hpc Ht Hb. pose proof (steps_inv _ _ _ init_inv Hst) as Hi.
  destruct (i_awaited s Hi p c i t Hc Hpc Ht Hb) as (w & W1 & W2 & W3). exists w. split_and!; [done..|].
  intros n private Hn. destruct (i_tbl s Hi) as (L & HR & Ho). pose proof (i_calls s Hi p c Hc) as [Hp _].
  destruct (wake_result (tbl s) (rq s) L HR (owned_waiters _ _ _ HR Ho) (i_rq s Hi) (w_uaddr w) (w_tgid w) private n)
    as (t' & q' & E & R1 & R2).
  set (r := a_walk _ _ _ _ _ _ L) in *.
  assert (p ∈ claimed r) as Hcl.
  { unfold r. rewrite claimed_first. rewrite take_ge.
    - apply list_elem_of_fmap. exists w. split; [done|]. apply list_elem_of_fmap. exists (i, w). split; [done|].
      apply list_elem_of_In, List.filter_In. split; [by apply list_elem_of_In, HR|]. cbn.
      unfold eligible, key_matches, exists_task. by rewrite W3, !Z.eqb_refl, W2, Ht.
    - unfold pids. rewrite !length_fmap. pose proof (repr_length _ _ HR).
      pose proof (filter_length_le (fun e : entry => eligible (w_uaddr w) (w_tgid w) private e.2 && exists_task (rq s) (w_pid e.2)) L).
      lia. }
  assert (existsb (is_blocked (rq s)) (claimed r) = true) as Hex.
  { apply existsb_exists. exists p. split; [by apply list_elem_of_In|]. unfold is_blocked. rewrite Ht.
    by apply bool_decide_eq_true_2. }
  exists (Z.of_nat (length (claimed r))), t', q'. rewrite E, Hex. split; [done|]. split.
  { destruct (claimed r); [by apply elem_of_nil in Hcl|]. cbn. lia. }
  split.
  - unfold is_blocked. rewrite (find_maps _ _ _ p (i_rq s Hi) R2), Ht; [|intros; apply at_pids_pid; apply release_fields|done].
    cbn. unfold at_pids. pose proof (find_pid_slot _ _ _ (proj1 (i_rq s Hi)) Ht) as (? & _ & ->).
    rewrite bool_decide_eq_true_2 by done. apply bool_decide_eq_false_2, release_fields.
  - unfold slot_claimed. destruct (waiter t' i) as [w'|] eqn:Hw'; [|done].
    destruct (Z.eqb_spec (w_pid w') p); [|done]. apply (r_slot _ _ R1) in Hw'.
    assert ((i, w') ∈ kept r ++ moved r) as Hk by (apply elem_of_app; by left).
    apply a_walk_from in Hk as (w0 & H0 & (_ & E2 & _) & Eu). cbn [fst snd] in H0, E2, Eu. apply (r_slot _ _ HR) in H0.
    assert (w0 = w) as -> by congruence.
    destruct Eu as [Eu|[Hmv _]]; [|by rewrite a_walk_no_limit in Hmv; apply elem_of_nil in Hmv].
    apply a_walk_all in Hw'; [|intros w0; unfold eligible; done|pose proof (repr_length _ _ HR); lia]. cbn [snd] in Hw'.
    unfold eligible, key_matches in Hw'. rewrite Eu, E2, !Z.eqb_refl in Hw'. by destruct (w_woken w').
Qed.

(** C6: no wake-up is lost.  Once the word at [u] of a thread group holds [v]
    and the group has woken all waiters on [u], then, as long as the word is not
    written and no requeue moves waiters onto [u], no call that waits on [u]
    for another value is asleep under that key: however registration, the read
    of the word, the commit, wakes, signals and time-outs interleave, such a
    call was claimed, fails with [EAGAIN], or was moved to another address. *)
Theorem futex_no_lost_wakeup s tg u v n woken s1 s2 p c i t :
  steps any_label init s -> mem s tg u = v ->
  Z.of_nat MAX_FUTEX_WAITERS <= n -> step s (Wake u n tg woken) s1 ->
  steps (leaves tg u) s1 s2 ->
  calls s2 !! p = Some c -> c_tgid c = tg -> c_uaddr c = u -> c_expected c <> v ->
  c_pc c = Parked i -> find_pid (rq s2) p = Some t -> state t = Blocked ->
  exists w, waiter (tbl s2) i = Some w /\ w_pid w = p /\ w_uaddr w <> u.
Proof.
  intros Hst Hm Hn Hw Hst2 Hc Htg Hu He Hpc Ht Hb. pose proof (steps_inv _ _ _ init_inv Hst) as Hi.
  assert (settled tg u v s1) as Hs by (inversion Hw; subst; by eapply wake_settles).
  pose proof (step_inv _ _ _ Hi Hw) as Hi1. pose proof (steps_inv _ _ _ Hi1 Hst2) as Hi2.
  assert (settled tg u v s2) as [_ Hs2].
  { clear -Hst2 Hs Hi1. induction Hst2 as [|s1 s3 s2 (l & Hl & Hst) _ IH]; [done|].
    apply IH; [by eapply settled_step|by eapply step_inv]. }
  destruct (i_awaited s2 Hi2 p c i t Hc Hpc Ht Hb) as (w & W1 & W2 & W3). exists w. split_and!; [done..|].
  destruct (Hs2 p c i Hc Htg Hu He (or_intror Hpc) w W1 W2); [congruence|done].
Qed.

(** ** Example runs *)
Lemma steps_snoc (P : label -> Prop) s s' s'' l : steps P s s' -> P l -> step s' l s'' -> steps P s s''.
Proof. intros H HP Hst. eapply rtc_r; [exact H|]. by exists l. Qed.

(** Task 9 waits on the word at 4096, without a time-out, while it is 0. *)
Definition demo_call : Call := mkCall 4096 0 None true 9 Start.
Definition demo_calls (pc : Pc) : gmap Z Call := <[9 := at_pc pc demo_call]> ∅.
Definition demo_sys (t : FutexTable) (q : RunQueue) (pc : Pc) : Sys :=
  mkSys t q (fun _ _ => 0) (demo_calls pc).
Definition park_demo : RunQueue := modify_pid 9 (park_on_futex 4096 None) demo.
Definition run_registered : Sys := demo_sys demo_table demo (Registered 0).
Definition run_parked : Sys := demo_sys demo_table park_demo (Parked 0).

Lemma demo_calls_insert pc pc' : <[9 := at_pc pc' (at_pc pc demo_call)]> (demo_calls pc) = demo_calls pc'.
Proof. unfold demo_calls. by rewrite insert_insert_eq. Qed.
Lemma demo_calls_lookup pc : demo_calls pc !! 9 = Some (at_pc pc demo_call).
Proof. apply lookup_insert_eq. Qed.

Lemma demo_runs t : find_pid demo 9 = Some t -> state t <> Blocked.
Proof. intros Ht. vm_compute in Ht. by injection Ht as <-. Qed.

Lemma reach_call : steps any_label init (demo_sys new_table demo Start).
Proof.
  eapply steps_snoc; [eapply steps_snoc; [apply rtc_refl|exact I|]|exact I|].
  - apply (step_env init demo). split; [apply demo_ok|..]; cbn [calls init];
      [by intros p c i t ?%lookup_empty_Some|by intros p c t ?%lookup_empty_Some].
  - apply (step_call (mkSys new_table demo (fun _ _ => 0) ∅) 9 (at_pc Start demo_call)).
    + cbn [calls]. by intros c' ?%lookup_empty_Some.
    + lia.
    + discriminate.
    + reflexivity.
    + exact demo_runs.
Qed.

Lemma reach_registered : steps any_label init run_registered.
Proof.
  eapply steps_snoc; [apply reach_call|exact I|]. unfold run_registered, demo_sys.
  rewrite <- (demo_calls_insert Start). exact (step_prepare (demo_sys new_table demo Start) 9 _ (demo_calls_lookup Start) eq_refl).
Qed.

Lemma demo_commit : wait_commit 9 4096 0 0 None 0 demo_table demo = (None, demo_table, park_demo).
Proof.
  unfold wait_commit. replace (slot_claimed 0 9 demo_table) with false by (vm_compute; reflexivity).
  replace (has_deliverable_signal_locked demo 9) with false by (vm_compute; reflexivity). reflexivity.
Qed.

Lemma reach_parked : steps any_label init run_parked.
Proof.
  assert (step run_registered Internal (demo_sys demo_table demo (Checked 0 0))) as H1.
  { unfold demo_sys. rewrite <- (demo_calls_insert (Registered 0)).
    exact (step_check run_registered 9 _ 0 (demo_calls_lookup _) eq_refl). }
  eapply steps_snoc; [eapply steps_snoc; [apply reach_registered|exact I|exact H1]|exact I|].
  unfold run_parked, demo_sys. rewrite <- (demo_calls_insert (Checked 0 0)).
  assert (is_Some (find_pid demo 9)) as Hf by (vm_compute; by eexists).
  pose proof (step_commit (demo_sys demo_table demo (Checked 0 0)) 9 _ 0 0 (demo_calls_lookup (Checked 0 0)) eq_refl Hf) as Hst.
  cbv zeta in Hst. cbn [c_uaddr c_expected c_deadline at_pc demo_call tbl rq demo_sys] in Hst.
  rewrite demo_commit in Hst. exact Hst.
Qed.

Definition parked_9 : Task := default demo_9 (find_pid park_demo 9).
Lemma parked_9_found : find_pid park_demo 9 = Some parked_9 /\ state parked_9 = Blocked.
Proof. vm_compute. done. Qed.

Lemma futex_sleepers_reachable_witness :
  exists w, waiter (tbl run_parked) 0 = Some w /\ w_pid w = 9 /\ w_woken w = false.
Proof.
  destruct (futex_sleepers_reachable run_parked 9 (at_pc (Parked 0) demo_call) 0 parked_9
    reach_parked eq_refl eq_refl (proj1 parked_9_found) (proj2 parked_9_found)) as (w & H1 & H2 & H3 & _).
  exists w. auto.
Defined.

(** Task 9, keyed by 8192 after a requeue, with the queue [q]. *)
Definition moved_table : FutexTable := rekey 0 8192 demo_table.
Definition set_demo (v : Z) : Z -> Z -> Z := write_mem 9 4096 v (fun _ _ => 0).
Definition moved_demo (q : RunQueue) : RunQueue := modify_pid 9 (set_blocked_futex 8192) q.

Lemma requeue_demo q :
  q = park_demo \/ q = demo_kwait ->
  futex_requeue_keyed 4096 8192 0 1 true 9 demo_table q = Some (1, false, moved_table, moved_demo q).
Proof. intros [-> | ->]; vm_compute; reflexivity. Qed.

Lemma wake_demo q : futex_wake_keyed 4096 U32_MAX true 9 moved_table q = Some (0, false, moved_table, q).
Proof.
  unfold futex_wake_keyed. replace (word_at (ft_head moved_table) (bucket 4096)) with NIL by (vm_compute; reflexivity).
  reflexivity.
Qed.

(** Task 9 parks and is requeued, then the word changes. *)
Definition run_moved (v : Z) : Sys :=
  mkSys moved_table (moved_demo park_demo) (set_demo v) (demo_calls (Parked 0)).

Lemma reach_moved : steps any_label init (run_moved 1).
Proof.
  eapply steps_snoc; [eapply steps_snoc; [apply reach_parked|exact I|]|exact I|].
  - eapply (step_requeue run_parked 4096 8192 0 1 true 9); [lia|exact (requeue_demo park_demo (or_introl eq_refl))].
  - exact (step_write (mkSys moved_table (moved_demo park_demo) (fun _ _ => 0) (demo_calls (Parked 0))) 9 4096 1).
Qed.

Definition moved_9 : Task := default demo_9 (find_pid (moved_demo park_demo) 9).
Lemma moved_9_found : find_pid (moved_demo park_demo) 9 = Some moved_9 /\ state moved_9 = Blocked.
Proof. vm_compute. done. Qed.

Lemma futex_no_lost_wakeup_witness :
  exists w, waiter moved_table 0 = Some w /\ w_pid w = 9 /\ w_uaddr w <> 4096.
Proof.
  apply (futex_no_lost_wakeup (run_moved 1) 9 4096 1 U32_MAX 0 (run_moved 1) (run_moved 1) 9
    (at_pc (Parked 0) demo_call) 0 moved_9).
  - apply reach_moved.
  - reflexivity.
  - apply Z.leb_le. vm_compute. reflexivity.
  - apply (step_wake (run_moved 1) 4096 U32_MAX true 9 0 false); [done|apply wake_demo].
  - apply rtc_refl.
  - apply demo_calls_lookup.
  - reflexivity.
  - reflexivity.
  - discriminate.
  - reflexivity.
  - apply moved_9_found.
  - apply moved_9_found.
Defined.

(** ** A waiter that has not parked is moved *)
(** Task 9 blocked on a kernel lock, inside the page fault of its read. *)
Definition run_faulting : Sys := demo_sys demo_table demo_kwait (Registered 0).
Definition run_taken : Sys := demo_sys moved_table (moved_demo demo_kwait) (Registered 0).
Definition run_asleep (v : Z) : Sys := mkSys moved_table park_demo (set_demo v) (demo_calls (Parked 0)).

Lemma demo_kwait_ok : rq_ok demo_kwait.
Proof.
  apply (block_ok demo 9 KWAIT_CHANNEL U64_MAX POLL_TAG_ALL 1 demo_9); [apply demo_ok|lia|apply demo_slot1|reflexivity].
Qed.

Lemma demo_calls_at pc p c : demo_calls pc !! p = Some c -> p = 9 /\ c_pc c = pc.
Proof. unfold demo_calls. by intros [[<- <-]|[_ ?%lookup_empty_Some]]%lookup_insert_Some. Qed.

Lemma reach_faulting : steps any_label init run_faulting.
Proof.
  eapply steps_snoc; [apply reach_registered|exact I|]. apply (step_env run_registered demo_kwait).
  split; [apply demo_kwait_ok|..]; cbn [calls run_registered demo_sys].
  - intros p c i t [-> E]%demo_calls_at Hpc. rewrite E in Hpc. discriminate Hpc.
  - intros p c t [-> _]%demo_calls_at _ Ht _. vm_compute in Ht. injection Ht as <-. by eexists.
Qed.

Lemma demo_commit_moved : wait_commit 9 4096 0 0 None 0 moved_table demo = (None, moved_table, park_demo).
Proof.
  unfold wait_commit. replace (slot_claimed 0 9 moved_table) with false by (vm_compute; reflexivity).
  replace (has_deliverable_signal_locked demo 9) with false by (vm_compute; reflexivity). reflexivity.
Qed.

(** The fault ends, the word still has the expected value, the task parks, and
    then the word changes. *)
Lemma taken_asleep : steps any_label run_taken (run_asleep 1).
Proof.
  assert (step run_taken Internal (demo_sys moved_table demo (Registered 0))) as H1.
  { apply (step_env run_taken demo). split; [apply demo_ok|..]; cbn [calls run_taken demo_sys].
    - intros p c i t [-> E]%demo_calls_at Hpc. rewrite E in Hpc. discriminate Hpc.
    - intros p c t [-> _]%demo_calls_at _ Ht Hb. by destruct (demo_runs t Ht). }
  assert (step (demo_sys moved_table demo (Registered 0)) Internal (demo_sys moved_table demo (Checked 0 0))) as H2.
  { unfold demo_sys at 2. rewrite <- (demo_calls_insert (Registered 0)).
    exact (step_check (demo_sys moved_table demo (Registered 0)) 9 _ 0 (demo_calls_lookup _) eq_refl). }
  assert (step (demo_sys moved_table demo (Checked 0 0)) Internal (demo_sys moved_table park_demo (Parked 0))) as H3.
  { assert (is_Some (find_pid demo 9)) as Hf by (vm_compute; by eexists).
    unfold demo_sys at 2. rewrite <- (demo_calls_insert (Checked 0 0)).
    pose proof (step_commit (demo_sys moved_table demo (Checked 0 0)) 9 _ 0 0 (demo_calls_lookup (Checked 0 0)) eq_refl Hf) as Hst.
    cbv zeta in Hst. cbn [c_uaddr c_expected c_deadline at_pc demo_call tbl rq demo_sys] in Hst.
    rewrite demo_commit_moved in Hst. exact Hst. }
  eapply steps_snoc; [eapply steps_snoc; [eapply steps_snoc; [eapply steps_snoc; [apply rtc_refl|exact I|exact H1]|exact I|exact H2]|exact I|exact H3]|exact I|].
  exact (step_write (demo_sys moved_table park_demo (Parked 0)) 9 4096 1).
Qed.

(** C10: [futex_requeue_keyed] means to move parked waiters only, but it tests
    the state [Blocked], which a task inside the page fault of the re-check
    read also has.  Such a waiter is moved to the other address before it has
    compared the word; it then finds the expected value and parks under the
    address it never named.  When the word of its own address changes and all
    waiters on it are woken, the wake finds nobody and the task sleeps on. *)
Theorem requeue_takes_unparked_waiter :
  exists s s1 s2 s3 c c' t,
    steps any_label init s /\ calls s !! 9 = Some c /\ c_pc c = Registered 0 /\ c_uaddr c = 4096
    /\ step s (Requeue 4096 8192) s1 /\ calls s1 !! 9 = Some c
    /\ steps any_label s1 s2 /\ mem s2 9 4096 <> c_expected c
    /\ step s2 (Wake 4096 U32_MAX 9 0) s3
    /\ calls s3 !! 9 = Some c' /\ c_pc c' = Parked 0 /\ c_uaddr c' = 4096
    /\ find_pid (rq s3) 9 = Some t /\ state t = Blocked.
Proof.
  exists run_faulting, run_taken, (run_asleep 1), (run_asleep 1), (at_pc (Registered 0) demo_call),
    (at_pc (Parked 0) demo_call), parked_9.
  split; [apply reach_faulting|]. split; [apply demo_calls_lookup|]. split; [reflexivity|]. split; [reflexivity|].
  split.
  { eapply (step_requeue run_faulting 4096 8192 0 1 true 9); [lia|exact (requeue_demo demo_kwait (or_intror eq_refl))]. }
  split; [apply demo_calls_lookup|]. split; [apply taken_asleep|]. split; [discriminate|]. split.
  { apply (step_wake (run_asleep 1) 4096 U32_MAX true 9 0 false); [done|apply wake_demo]. }
  split; [apply demo_calls_lookup|]. split; [reflexivity|]. split; [reflexivity|]. apply parked_9_found.
Qed.
