(* ===== verification/Elf.v ===== *)
(** * The ELF loader

    Models [src/elf/src/lib.rs]: the parser of the ELF and program headers, the
    demand-paged loader [load_lazy] over the file mappings of [Vmm], and the
    eager loader [load] over its lazy mappings and the fault path of
    [VmmFault].  The file image is a list of bytes; what [e_machine] must be
    depends on the target and is the argument [em].  A failing loader has
    already changed the address space, so an error carries the state it leaves
    (the caller drops it).  Copies into memory are [Store] calls in the log;
    instruction-cache maintenance is left out.  [usize] is 64 bits and its
    arithmetic wraps, as in the release profile. *)
From S2P Require Import Prelude Bytes KLib PageSites PageRef PageVec Vmm VmmView VmmMap VmmFault VmmCache.
#[local] Open Scope Z_scope.

Inductive ElfError : Set :=
  TooShort | BadMagic | NotElf64 | NotLittleEndian | NotExecutable | UnsupportedArch
  | BadProgramHeader | MappingFailed | SegmentOverflow.

Definition ELF_MAGIC : list Z := [0x7f; 0x45; 0x4c; 0x46].
Definition ELFCLASS64 : Z := 2.
Definition ELFDATA2LSB : Z := 1.
Definition ET_EXEC : Z := 2.
Definition ET_DYN : Z := 3.
Definition PT_LOAD : Z := 1.
Definition PT_INTERP : Z := 3.
Definition PF_X : Z := 1.
Definition PF_W : Z := 2.

(** ** Field reads *)
Definition blen (b : list Z) : Z := Z.of_nat (length b).
Definition read_le (n : nat) (b : list Z) (off : Z) : option Z :=
  if blen b <? wrap64 (off + Z.of_nat n) then None
  else Some (from_le (slice (Z.to_nat off) n b)).
Definition r16 : list Z -> Z -> option Z := read_le 2.
Definition r32 : list Z -> Z -> option Z := read_le 4.
Definition r64 : list Z -> Z -> option Z := read_le 8.
(** [b[i]] *)
Definition byte_at (b : list Z) (i : nat) : Z := default 0 (b !! i).

(** ** Headers *)
Record Ehdr := mkEhdr {
  e_type : Z; e_machine : Z; e_entry : Z; e_phoff : Z; e_phentsize : Z; e_phnum : Z }.

Definition parse_ehdr (em : Z) (b : list Z) : result Ehdr ElfError :=
  if blen b <? 64 then Err TooShort
  else if negb (bool_decide (take 4 b = ELF_MAGIC)) then Err BadMagic
  else if negb (byte_at b 4 =? ELFCLASS64) then Err NotElf64
  else if negb (byte_at b 5 =? ELFDATA2LSB) then Err NotLittleEndian
  else
    let? ty := ok_or (r16 b 16) TooShort in
    let? mach := ok_or (r16 b 18) TooShort in
    let? entry := ok_or (r64 b 24) TooShort in
    let? phoff := ok_or (r64 b 32) TooShort in
    let? phentsize := ok_or (r16 b 54) TooShort in
    let? phnum := ok_or (r16 b 56) TooShort in
    if negb (ty =? ET_EXEC) && negb (ty =? ET_DYN) then Err NotExecutable
    else if negb (mach =? em) then Err UnsupportedArch
    else Ok (mkEhdr ty mach entry phoff phentsize phnum).

Record Phdr := mkPhdr {
  p_type : Z; p_flags : Z; p_offset : Z; p_vaddr : Z; p_filesz : Z; p_memsz : Z }.

Definition parse_phdr (b : list Z) (off : Z) : result Phdr ElfError :=
  let? ty := ok_or (r32 b off) BadProgramHeader in
  let? fl := ok_or (r32 b (off + 4)) BadProgramHeader in
  let? offset := ok_or (r64 b (off + 8)) BadProgramHeader in
  let? vaddr := ok_or (r64 b (off + 16)) BadProgramHeader in
  let? filesz := ok_or (r64 b (off + 32)) BadProgramHeader in
  let? memsz := ok_or (r64 b (off + 40)) BadProgramHeader in
  Ok (mkPhdr ty fl offset vaddr filesz memsz).

(** The header and the check that its program-header table is inside [b]
    ([phentsize * phnum] of two 16-bit numbers does not overflow). *)
Definition parse_tables (em : Z) (b : list Z) : result Ehdr ElfError :=
  let? eh := parse_ehdr em b in
  let? table_end := ok_or (checked_add (e_phoff eh) (e_phentsize eh * e_phnum eh)) BadProgramHeader in
  if blen b <? table_end then Err BadProgramHeader else Ok eh.

Record ElfInfo := mkInfo {
  entry : Z; phdr_va : Z; phentsize : Z; phnum : Z; info_type : Z; interp : option (Z * Z) }.

(** ** Segments *)
Definition seg_vaddr (bias : Z) (ph : Phdr) : Z := wrap64 (p_vaddr ph + bias).
(** Write and execute permission exclude each other: execute wins. *)
Definition seg_flags (ph : Phdr) : Z :=
  let fl := Z.lor PRESENT USER in
  let fl := if has (p_flags ph) PF_W && negb (has (p_flags ph) PF_X) then Z.lor fl WRITABLE else fl in
  if has (p_flags ph) PF_X then Z.lor fl EXECUTE else fl.
Definition page_offset (bias : Z) (ph : Phdr) : Z := seg_vaddr bias ph - page_down (seg_vaddr bias ph).
Definition map_size (bias : Z) (ph : Phdr) : Z := wrap64 (p_memsz ph + page_offset bias ph).
Definition is_load (ph : Phdr) : bool := (p_type ph =? PT_LOAD) && negb (p_memsz ph =? 0).

(** The locals of the loop. *)
Record Scan := mkScan { highest : Z; load_base : Z; first_load : bool; interp_at : option (Z * Z) }.
Definition note_interp (ph : Phdr) (l : Scan) : Scan :=
  if p_type ph =? PT_INTERP
  then mkScan (highest l) (load_base l) (first_load l) (Some (p_offset ph, p_filesz ph)) else l.
Definition note_first (bias : Z) (ph : Phdr) (l : Scan) : Scan :=
  if first_load l
  then mkScan (highest l) (wrap64 (seg_vaddr bias ph - p_offset ph)) false (interp_at l) else l.
Definition note_end (seg_end : Z) (l : Scan) : Scan :=
  if highest l <? seg_end
  then mkScan seg_end (load_base l) (first_load l) (interp_at l) else l.

(** The heap starts one guard page after the highest segment. *)
Definition place_heap (l : Scan) (a : AddressSpace) : AddressSpace :=
  if 0 <? highest l then
    let heap_page := Z.land (wrap64 (highest l + PAGE_SIZE - 1)) (not64 (PAGE_SIZE - 1)) in
    let h := wrap64 (heap_page + PAGE_SIZE) in
    mkAs (regions a) h h (stack_top a) (hiwater_rss a) (hiwater_vm a)
  else a.

Definition info_of (bias : Z) (eh : Ehdr) (l : Scan) : ElfInfo :=
  mkInfo (wrap64 (e_entry eh + bias)) (wrap64 (load_base l + e_phoff eh)) (e_phentsize eh) (e_phnum eh)
    (e_type eh) (interp_at l).

Section loader.
Context {T : Type} `{PageTable T}.
Notation world := (world T).

(** ** Demand paging *)
Definition fails (E : Type) : Type := (E * AddressSpace * world)%type.

Definition load_seg_lazy (cap bias : Z) (ph : Phdr) (l : Scan) (a : AddressSpace) (w : world)
    : result (Scan * AddressSpace * world) (fails ElfError) :=
  let l := note_first bias ph l in
  if p_offset ph <? page_offset bias ph then Err (BadProgramHeader, a, w)
  else
    let file_off := p_offset ph - page_offset bias ph in
    let file_len := wrap64 (p_filesz ph + page_offset bias ph) in
    match map_lazy_file (page_down (seg_vaddr bias ph)) (map_size bias ph) (seg_flags ph) cap file_off file_len a w with
    | (false, a, w) => Err (MappingFailed, a, w)
    | (true, a, w) =>
        match checked_add (seg_vaddr bias ph) (p_memsz ph) with
        | None => Err (SegmentOverflow, a, w)
        | Some e => Ok (note_end e l, a, w)
        end
    end.

Fixpoint load_loop_lazy (b : list Z) (cap bias : Z) (eh : Ehdr) (ks : list nat) (l : Scan) (a : AddressSpace) (w : world)
    : result (Scan * AddressSpace * world) (fails ElfError) :=
  match ks with
  | [] => Ok (l, a, w)
  | i :: ks =>
      match parse_phdr b (e_phoff eh + Z.of_nat i * e_phentsize eh) with
      | Err e => Err (e, a, w)
      | Ok ph =>
          let l := note_interp ph l in
          if negb (is_load ph) then load_loop_lazy b cap bias eh ks l a w
          else let? (l, a, w) := load_seg_lazy cap bias ph l a w in
               load_loop_lazy b cap bias eh ks l a w
      end
  end.

Definition start_scan : Scan := mkScan 0 0 true None.

Definition load_lazy (em : Z) (header : list Z) (cap bias : Z) (a : AddressSpace) (w : world)
    : result ElfInfo ElfError * AddressSpace * world :=
  match parse_tables em header with
  | Err e => (Err e, a, w)
  | Ok eh =>
      match load_loop_lazy header cap bias eh (seq 0 (Z.to_nat (e_phnum eh))) start_scan a w with
      | Err (e, a, w) => (Err e, a, w)
      | Ok (l, a, w) =>
          if first_load l then (Err BadProgramHeader, a, w)
          else (Ok (info_of bias eh l), place_heap l a, w)
      end
  end.
End loader.

(** ** Eager loading *)
Section eager.
Context {T : Type} `{PageTable T} {C : Type} `{FrameCache C}.
Notation sys := (sys (T := T) (C := C)).
Context (fk : Z -> Z) (o : Z -> oracle).

Definition emit_sys (es : list call) (s : sys) : sys := set_wld (emit es (wld s)) s.

(** The copy of a segment's bytes, a page at a time: each step moves at least
    one byte and ends at a page boundary, so [2 + filesz / PAGE_SIZE] steps are
    enough. *)
Fixpoint copy_loop (fuel : nat) (b : list Z) (src dst remaining : Z) (s : sys) : option (bool * sys) :=
  if remaining =? 0 then Some (true, s)
  else match fuel with
  | O => None
  | S fuel =>
      '(ok, s) ← handle_user_page_fault fk (o dst) dst false s;
      if negb ok then Some (false, s)
      else match virt_to_phys (asp s) dst with
      | None => Some (false, s)
      | Some ph =>
          let page_off := Z.land dst (PAGE_SIZE - 1) in
          let chunk := Z.min (PAGE_SIZE - page_off) remaining in
          let s := emit_sys [Store ph (take (Z.to_nat chunk) (drop (Z.to_nat src) b))] s in
          copy_loop fuel b (src + chunk) (wrap64 (dst + chunk)) (remaining - chunk) s
      end
  end.
Definition copy_fuel (filesz : Z) : nat := Z.to_nat (2 + filesz / PAGE_SIZE).

(** [None] is a panic of the fault path. *)
Definition load_seg (b : list Z) (bias : Z) (ph : Phdr) (l : Scan) (s : sys)
    : option (result (Scan * sys) (ElfError * sys)) :=
  let l := note_first bias ph l in
  match checked_add (p_offset ph) (p_filesz ph) with
  | None => Some (Err (SegmentOverflow, s))
  | Some fend =>
      if blen b <? fend then Some (Err (BadProgramHeader, s))
      else
        let '(ok, a, w) := map_lazy (page_down (seg_vaddr bias ph)) (map_size bias ph) (seg_flags ph) false (asp s) (wld s) in
        let s := mkSys a w (fc s) in
        if negb ok then Some (Err (MappingFailed, s))
        else
          '(ok, s) ← copy_loop (copy_fuel (p_filesz ph)) b (p_offset ph) (seg_vaddr bias ph) (p_filesz ph) s;
          if negb ok then Some (Err (MappingFailed, s))
          else Some (match checked_add (seg_vaddr bias ph) (p_memsz ph) with
                     | None => Err (SegmentOverflow, s)
                     | Some e => Ok (note_end e l, s)
                     end)
  end.

Fixpoint load_loop (b : list Z) (bias : Z) (eh : Ehdr) (ks : list nat) (l : Scan) (s : sys)
    : option (result (Scan * sys) (ElfError * sys)) :=
  match ks with
  | [] => Some (Ok (l, s))
  | i :: ks =>
      match parse_phdr b (e_phoff eh + Z.of_nat i * e_phentsize eh) with
      | Err e => Some (Err (e, s))
      | Ok ph =>
          let l := note_interp ph l in
          if negb (is_load ph) then load_loop b bias eh ks l s
          else r ← load_seg b bias ph l s;
               match r with
               | Err e => Some (Err e)
               | Ok (l, s) => load_loop b bias eh ks l s
               end
      end
  end.

Definition load (em : Z) (b : list Z) (bias : Z) (s : sys) : option (result ElfInfo ElfError * sys) :=
  match parse_tables em b with
  | Err e => Some (Err e, s)
  | Ok eh =>
      r ← load_loop b bias eh (seq 0 (Z.to_nat (e_phnum eh))) start_scan s;
      Some (match r with
            | Err (e, s) => (Err e, s)
            | Ok (l, s) => (Ok (info_of bias eh l), set_asp (place_heap l (asp s)) s)
            end)
  end.
End eager.

(** ** Bytes and fields *)
Lemma read_le_bound n b off v : bytes_ok b -> read_le n b off = Some v -> 0 <= v < 256 ^ Z.of_nat n.
Proof. unfold read_le. intros Hb. destruct (_ <? _); [done|]. intros [= <-]. by apply slice_bound. Qed.

Lemma r64_u64 b off v : bytes_ok b -> r64 b off = Some v -> is_u64 v.
Proof. intros Hb Hv. exact (read_le_bound 8 b off v Hb Hv). Qed.

(** The fields of a parsed program header are words. *)
Record phdr_ok (ph : Phdr) : Prop := {
  po_offset : is_u64 (p_offset ph);
  po_vaddr : is_u64 (p_vaddr ph);
  po_filesz : is_u64 (p_filesz ph);
  po_memsz : is_u64 (p_memsz ph) }.

Lemma ok_or_Ok {A E} (x : option A) (e : E) a : ok_or x e = Ok a -> x = Some a.
Proof. destruct x; cbn; congruence. Qed.

Lemma parse_phdr_ok b off ph : bytes_ok b -> parse_phdr b off = Ok ph -> phdr_ok ph.
Proof.
  intros Hb. unfold parse_phdr.
  destruct (ok_or (r32 b off) _) eqn:E1; [|done]. destruct (ok_or (r32 b (off + 4)) _) eqn:E2; [|done].
  destruct (ok_or (r64 b (off + 8)) _) eqn:E3; [|done]. destruct (ok_or (r64 b (off + 16)) _) eqn:E4; [|done].
  destruct (ok_or (r64 b (off + 32)) _) eqn:E5; [|done]. destruct (ok_or (r64 b (off + 40)) _) eqn:E6; [|done].
  intros [= <-]. apply ok_or_Ok in E3, E4, E5, E6. split; cbn; eauto using r64_u64.
Qed.

(** ** One segment *)
(** The region a segment becomes. *)
Definition seg_region (cap bias : Z) (ph : Phdr) : VmaRegion :=
  let v := page_down (seg_vaddr bias ph) in
  fresh_vma v (v + pages_of (map_size bias ph) * PAGE_SIZE) 0 (seg_flags ph) true PageVec.new 0
    (prot_of (seg_flags ph)) MAP_PRIVATE cap (p_offset ph - page_offset bias ph)
    (wrap64 (p_filesz ph + page_offset bias ph)).

(** Sizes whose rounding to pages does not wrap. *)
Definition sane (ph : Phdr) : Prop :=
  p_memsz ph + 2 * PAGE_SIZE <= 2 ^ 64 /\ p_filesz ph + 2 * PAGE_SIZE <= 2 ^ 64.

Lemma seg_vaddr_u64 bias ph : is_u64 (seg_vaddr bias ph).
Proof. unfold seg_vaddr, wrap64, is_u64. apply Z.mod_pos_bound. lia. Qed.

Lemma page_offset_bound bias ph : 0 <= page_offset bias ph < PAGE_SIZE.
Proof.
  unfold page_offset. destruct (page_down_spec _ (seg_vaddr_u64 bias ph)) as (_ & H1 & H2). lia.
Qed.

Lemma map_size_eq bias ph : phdr_ok ph -> sane ph -> map_size bias ph = p_memsz ph + page_offset bias ph.
Proof.
  intros [_ _ _ Hm] [Hs _]. unfold map_size, wrap64. pose proof (page_offset_bound bias ph).
  unfold is_u64, PAGE_SIZE in *. apply Z.mod_small. lia.
Qed.

Lemma page_down_seg bias ph : page_down (page_down (seg_vaddr bias ph)) = page_down (seg_vaddr bias ph).
Proof. apply page_down_idem, seg_vaddr_u64. Qed.

(** Mapping calls leave the break alone. *)
Lemma map_lazy_file_heap {T} `{PageTable T} v sz fl cap off len a (w : world T) :
  let '(_, a', _) := map_lazy_file v sz fl cap off len a w in
  heap_start a' = heap_start a /\ heap_end a' = heap_end a.
Proof.
  unfold map_lazy_file, map_lazy_file_with. destruct (_ =? _); [done|]. destruct (negb _); [done|].
  destruct (slot_for _) as [slot rs]. destruct (place _ _ _) as [[? ?]|]; done.
Qed.

(** Execute permission excludes write permission. *)
Lemma seg_flags_wx ph : has (seg_flags ph) WRITABLE && has (seg_flags ph) EXECUTE = false.
Proof. unfold seg_flags. destruct (has (p_flags ph) PF_W), (has (p_flags ph) PF_X); reflexivity. Qed.

Lemma seg_len_eq bias ph : phdr_ok ph -> sane ph ->
  wrap64 (p_filesz ph + page_offset bias ph) = p_filesz ph + page_offset bias ph.
Proof.
  intros Hph [_ Hs]. pose proof (po_filesz ph Hph). pose proof (page_offset_bound bias ph). unfold wrap64, is_u64, PAGE_SIZE in *.
  apply Z.mod_small. lia.
Qed.

Lemma seg_fits bias ph : phdr_ok ph -> sane ph -> p_memsz ph <> 0 -> fits (map_size bias ph).
Proof.
  intros Hph Hs Hm. rewrite map_size_eq by done. pose proof (po_memsz ph Hph). pose proof (page_offset_bound bias ph). destruct Hs.
  unfold fits, is_u64, PAGE_SIZE in *. lia.
Qed.

Lemma seg_covers cap bias ph k : phdr_ok ph -> sane ph -> 0 <= k < p_memsz ph ->
  covers (seg_vaddr bias ph + k) (seg_region cap bias ph) = true.
Proof.
  intros Hph Hs Hk. apply covers_spec. cbn [seg_region start end_ fresh_vma].
  destruct (pages_of_spec _ (seg_fits bias ph Hph Hs ltac:(lia))) as [_ Hp]. rewrite map_size_eq in Hp by done.
  destruct (page_down_spec _ (seg_vaddr_u64 bias ph)) as (_ & Hd & _). unfold page_offset in *. rewrite (map_size_eq bias ph) by done.
  unfold page_offset. lia.
Qed.

(** Where the byte at offset [k] of a segment comes from: the file position
    [p_offset + k] while [k] is below [p_filesz], zeros after it. *)
Lemma seg_byte cap bias ph k : is_file_backed cap = true -> phdr_ok ph -> sane ph -> 0 <= k < p_memsz ph ->
  let va := seg_vaddr bias ph + k in
  let p := page_no (seg_region cap bias ph) (idx_of (seg_region cap bias ph) va) in
  p_pos p = wrap64 (p_offset ph + k - va mod PAGE_SIZE) /\ (va mod PAGE_SIZE < p_bytes p <-> k < p_filesz ph).
Proof.
  intros Hc Hph Hs Hk. cbn zeta. unfold page_no, bytes_of. cbn [seg_region file_cap file_off file_len fresh_vma p_pos p_bytes].
  rewrite Hc, seg_len_eq by done. unfold idx_of. cbn [start seg_region fresh_vma].
  pose proof (page_offset_bound bias ph) as Ho. destruct (page_down_spec _ (seg_vaddr_u64 bias ph)) as ([q Hq] & Hd & _).
  assert (seg_vaddr bias ph = q * PAGE_SIZE + page_offset bias ph) as Ev by (unfold page_offset; lia). rewrite Hq, Ev.
  replace (q * PAGE_SIZE + page_offset bias ph + k - q * PAGE_SIZE) with (page_offset bias ph + k) by ring.
  replace (q * PAGE_SIZE + page_offset bias ph + k) with (page_offset bias ph + k + q * PAGE_SIZE) by ring.
  rewrite Z_mod_plus_full, Z2Nat.id by (apply Z.div_pos; unfold PAGE_SIZE; lia).
  pose proof (Z.div_mod (page_offset bias ph + k) PAGE_SIZE ltac:(done)) as Edm.
  pose proof (Z.mod_pos_bound (page_offset bias ph + k) PAGE_SIZE ltac:(done)). split; [f_equal; lia|]. lia.
Qed.

(** The end of the region is the end of the segment, rounded up to a page. *)
Lemma seg_end_eq cap bias ph : phdr_ok ph -> sane ph -> p_memsz ph <> 0 -> seg_vaddr bias ph + p_memsz ph + 2 * PAGE_SIZE <= 2 ^ 64 ->
  end_ (seg_region cap bias ph) = page_up (seg_vaddr bias ph + p_memsz ph).
Proof.
  intros Hph Hs Hm He. pose proof (po_memsz ph Hph). pose proof (seg_vaddr_u64 bias ph). unfold is_u64 in *.
  assert (fits (seg_vaddr bias ph + p_memsz ph)) as Hf by (unfold fits, PAGE_SIZE in *; lia).
  rewrite page_up_spec by done. destruct (pages_of_spec _ Hf) as [_ Hp].
  destruct (pages_of_spec _ (seg_fits bias ph Hph Hs Hm)) as [_ Hq]. cbn [seg_region end_ fresh_vma].
  destruct (page_down_spec _ (seg_vaddr_u64 bias ph)) as ([q Hd] & _ & _). rewrite (map_size_eq bias ph) in * by done.
  unfold page_offset in *. rewrite Hd in *. unfold PAGE_SIZE in *. lia.
Qed.

Section lazy_specs.
Context {T : Type} `{PageTable T} (cap bias : Z) (Hcap : is_file_backed cap = true).
Notation seg := (seg_region cap bias).
Notation seen a := (view (live (regions a))).

(** What a loader step leaves alone. *)
Definition frame_kept (a : AddressSpace) (w : world T) (a' : AddressSpace) (w' : world T) : Prop :=
  pt w' = pt w /\ page_refs w' = page_refs w /\ heap_start a' = heap_start a /\ heap_end a' = heap_end a.

Lemma frame_kept_trans a w a1 w1 a2 w2 : frame_kept a w a1 w1 -> frame_kept a1 w1 a2 w2 -> frame_kept a w a2 w2.
Proof. unfold frame_kept. intuition congruence. Qed.

Lemma map_seg_spec ph a (w : world T) :
  vm_ok a w -> phdr_ok ph -> sane ph -> p_memsz ph <> 0 ->
  let '(ok, a', w') := map_lazy_file (page_down (seg_vaddr bias ph)) (map_size bias ph) (seg_flags ph) cap
       (p_offset ph - page_offset bias ph) (wrap64 (p_filesz ph + page_offset bias ph)) a w in
  vm_ok a' w' /\ recorded (seg ph) a a' ok /\ frame_kept a w a' w'
  /\ log w' = log w ++ if ok then [FileRetain cap] else [].
Proof.
  intros HV Hph Hs Hm. pose proof (page_offset_bound bias ph) as Ho. pose proof (po_memsz ph Hph). pose proof (po_filesz ph Hph).
  unfold is_u64 in *.
  assert (is_u64 (page_down (seg_vaddr bias ph))) as Hv.
  { destruct (page_down_spec _ (seg_vaddr_u64 bias ph)) as (_ & Hd1 & _). pose proof (seg_vaddr_u64 bias ph). unfold is_u64 in *. lia. }
  pose proof (seg_fits bias ph Hph Hs Hm) as Hf. pose proof (seg_len_eq bias ph Hph Hs) as El.
  destruct (map_lazy_spec (page_down (seg_vaddr bias ph)) (map_size bias ph) (seg_flags ph) false cap
    (p_offset ph - page_offset bias ph) (wrap64 (p_filesz ph + page_offset bias ph)) MAP_PRIVATE a w HV Hv Hf Hcap) as [_ Hmap];
    [destruct Hs; rewrite El; unfold PAGE_SIZE in *; lia|].
  pose proof (map_lazy_file_heap (page_down (seg_vaddr bias ph)) (map_size bias ph) (seg_flags ph) cap
    (p_offset ph - page_offset bias ph) (wrap64 (p_filesz ph + page_offset bias ph)) a w) as Hheap.
  destruct Hmap as (ok & a' & w' & E & G1 & G2 & G3 & G4 & G5). unfold map_lazy_file in *. rewrite E in *.
  rewrite page_down_seg in G2. by split_and!.
Qed.

(** A segment loaded into a state. *)
Record seg_loaded (ph : Phdr) (a : AddressSpace) (w : world T) (a' : AddressSpace) (w' : world T) : Prop := {
  sl_offset : page_offset bias ph <= p_offset ph;
  sl_end : seg_vaddr bias ph + p_memsz ph < 2 ^ 64;
  sl_free : range_free (live (regions a)) (start (seg ph)) (end_ (seg ph)) = true;
  sl_view : forall va, seen a' va = if covers va (seg ph) then Some (page_no (seg ph) (idx_of (seg ph) va)) else seen a va;
  sl_log : log w' = log w ++ [FileRetain cap] }.

Lemma load_seg_lazy_spec ph l a (w : world T) :
  vm_ok a w -> phdr_ok ph -> sane ph -> p_memsz ph <> 0 ->
  match load_seg_lazy cap bias ph l a w with
  | Ok (l', a', w') => l' = note_end (seg_vaddr bias ph + p_memsz ph) (note_first bias ph l)
      /\ seg_loaded ph a w a' w' /\ vm_ok a' w' /\ frame_kept a w a' w'
  | Err (_, a', w') => vm_ok a' w' /\ frame_kept a w a' w'
  end.
Proof.
  intros HV Hph Hs Hm. unfold load_seg_lazy. destruct (Z.ltb_spec (p_offset ph) (page_offset bias ph)) as [|Hoff].
  { by split; [|split_and!]. }
  pose proof (map_seg_spec ph a w HV Hph Hs Hm) as Hseg.
  destruct (map_lazy_file _ _ _ _ _ _ a w) as [[[|] a'] w']; destruct Hseg as (G1 & [G2 G3] & G4 & G5); [|done].
  unfold checked_add. destruct (Z.ltb_spec (seg_vaddr bias ph + p_memsz ph) (2 ^ 64)) as [He|]; [|done].
  split; [done|]. split; [|done]. symmetry in G2. apply andb_prop in G2 as [_ G2]. by split.
Qed.

(** ** The loop *)
Definition scan_step (l : Scan) (ph : Phdr) : Scan :=
  let l := note_interp ph l in
  if is_load ph then note_end (seg_vaddr bias ph + p_memsz ph) (note_first bias ph l) else l.

(** The program headers of the table. *)
Definition phdr_at (b : list Z) (eh : Ehdr) (i : nat) : result Phdr ElfError :=
  parse_phdr b (e_phoff eh + Z.of_nat i * e_phentsize eh).
Definition to_option {A E} (r : result A E) : option A := match r with Ok a => Some a | Err _ => None end.
Definition phdrs (b : list Z) (eh : Ehdr) (ks : list nat) : list Phdr := omap (fun i => to_option (phdr_at b eh i)) ks.
Definition segments (b : list Z) (eh : Ehdr) (ks : list nat) : list Phdr := List.filter is_load (phdrs b eh ks).

Record image_loaded (segs : list Phdr) (a : AddressSpace) (w : world T) (a' : AddressSpace) (w' : world T) : Prop := {
  il_segs : Forall (fun ph => page_offset bias ph <= p_offset ph /\ seg_vaddr bias ph + p_memsz ph < 2 ^ 64) segs;
  il_pages : forall ph va, ph ∈ segs -> covers va (seg ph) = true ->
    seen a' va = Some (page_no (seg ph) (idx_of (seg ph) va)) /\ seen a va = None;
  il_other : forall va, (forall ph, ph ∈ segs -> covers va (seg ph) = false) -> seen a' va = seen a va;
  il_log : log w' = log w ++ replicate (length segs) (FileRetain cap) }.

Lemma free_not_covered a (r : VmaRegion) va :
  range_free (live (regions a)) (start r) (end_ r) = true -> seen a va <> None -> covers va r = false.
Proof.
  intros Hf Hv. destruct (covers va r) eqn:E; [|done]. apply covers_spec in E. by rewrite (free_view _ _ _ va Hf E) in Hv.
Qed.

Lemma image_cons ph segs a w a1 w1 a' w' :
  seg_loaded ph a w a1 w1 -> image_loaded segs a1 w1 a' w' -> image_loaded (ph :: segs) a w a' w'.
Proof.
  intros [S1 S2 S3 S4 S5] [I1 I2 I3 I4]. split.
  - by constructor.
  - intros ph' va [->|Hin]%elem_of_cons Hc.
    + assert (seen a1 va = Some (page_no (seg ph) (idx_of (seg ph) va))) as E1 by by rewrite S4, Hc.
      assert (seen a va = None) as E2 by (apply covers_spec in Hc; by apply (free_view _ _ _ va S3)).
      split; [|done]. rewrite I3; [done|]. intros ph' Hin. destruct (covers va (seg ph')) eqn:E; [|done].
      destruct (I2 ph' va Hin E) as [_ E3]. congruence.
    + destruct (I2 ph' va Hin Hc) as [E1 E2]. split; [done|]. rewrite S4 in E2. by destruct (covers va (seg ph)).
  - intros va Hn. rewrite I3 by (intros ph' Hin; apply Hn; by right). rewrite S4.
    by rewrite (Hn ph) by (by left).
  - rewrite I4, S5, <- app_assoc. done.
Qed.

Lemma load_loop_lazy_spec b eh ks : forall l a (w : world T),
  bytes_ok b -> vm_ok a w -> Forall sane (segments b eh ks) ->
  match load_loop_lazy b cap bias eh ks l a w with
  | Ok (l', a', w') => Forall (fun i => is_ok (phdr_at b eh i)) ks /\ l' = foldl scan_step l (phdrs b eh ks)
      /\ image_loaded (segments b eh ks) a w a' w' /\ vm_ok a' w' /\ frame_kept a w a' w'
  | Err (_, a', w') => vm_ok a' w' /\ frame_kept a w a' w'
  end.
Proof.
  induction ks as [|i ks IH]; intros l a w Hb HV Hs.
  { cbn. split_and!; try done. split; [constructor|by intros ph va ?%elem_of_nil|done|by rewrite app_nil_r]. }
  cbn [load_loop_lazy]. fold (phdr_at b eh i). unfold segments, phdrs in *. cbn [omap list_omap] in *.
  destruct (phdr_at b eh i) as [ph|e] eqn:Ep; [|done]. cbn [to_option foldl List.filter] in *.
  unfold scan_step at 2. destruct (is_load ph) eqn:El; cbn [negb].
  - apply Forall_cons in Hs as [Hs0 Hs]. pose proof (parse_phdr_ok b _ ph Hb Ep) as Hph.
    assert (p_memsz ph <> 0) as Hm by (apply andb_prop in El as [_ El]; by apply negb_true_iff, Z.eqb_neq in El).
    pose proof (load_seg_lazy_spec ph (note_interp ph l) a w HV Hph Hs0 Hm) as Hseg.
    destruct (load_seg_lazy cap bias ph (note_interp ph l) a w) as [[[l1 a1] w1]|[[e a1] w1]]; [|done].
    destruct Hseg as (-> & Hl & HV1 & Hk). specialize (IH (note_end (seg_vaddr bias ph + p_memsz ph) (note_first bias ph (note_interp ph l))) a1 w1 Hb HV1 Hs).
    destruct (load_loop_lazy b cap bias eh ks _ a1 w1) as [[[l' a'] w']|[[e a'] w']].
    + destruct IH as (J1 & J2 & J3 & J4 & J5). split_and!; try done; [|by eapply image_cons|by eapply frame_kept_trans].
      constructor; [|done]. by rewrite Ep.
    + destruct IH as [J1 J2]. split; [done|]. by eapply frame_kept_trans.
  - specialize (IH (note_interp ph l) a w Hb HV Hs). destruct (load_loop_lazy b cap bias eh ks _ a w) as [[[l' a'] w']|[[e a'] w']]; [|done].
    destruct IH as (J1 & J2 & J3 & J4 & J5). split_and!; try done. constructor; [|done]. by rewrite Ep.
Qed.

(** ** What the scan remembers *)
Notation ends := (fun ph => seg_vaddr bias ph + p_memsz ph).

Lemma scan_highest phs : forall l, highest (foldl scan_step l phs) = foldl Z.max (highest l) (ends <$> List.filter is_load phs).
Proof.
  induction phs as [|ph phs IH]; intros l; [done|]. cbn [foldl List.filter]. rewrite IH. unfold scan_step.
  assert (highest (note_interp ph l) = highest l) as Ei by (unfold note_interp; by destruct (_ =? _)).
  destruct (is_load ph); [|by rewrite Ei]. cbn [fmap list_fmap foldl]. f_equal.
  assert (highest (note_first bias ph (note_interp ph l)) = highest l) as <- by (unfold note_first; by destruct (first_load _)).
  unfold note_end. destruct (Z.ltb_spec (highest (note_first bias ph (note_interp ph l))) (seg_vaddr bias ph + p_memsz ph)); cbn; lia.
Qed.

Lemma scan_first phs : forall l, first_load l = true -> let l' := foldl scan_step l phs in
  match List.filter is_load phs with
  | [] => first_load l' = true
  | ph :: _ => first_load l' = false /\ load_base l' = wrap64 (seg_vaddr bias ph - p_offset ph)
  end.
Proof.
  assert (forall phs l, first_load l = false -> first_load (foldl scan_step l phs) = false /\ load_base (foldl scan_step l phs) = load_base l) as Hkeep.
  { clear phs. induction phs as [|ph phs IH]; intros l Hl; [done|]. cbn [foldl].
    assert (first_load (scan_step l ph) = false /\ load_base (scan_step l ph) = load_base l) as [E1 E2].
    { destruct l as [h lb fl it]. cbn in Hl. subst fl. unfold scan_step, note_interp, note_end, note_first. by repeat (case_match; cbn in * ). }
    rewrite <- E2. by apply IH. }
  induction phs as [|ph phs IH]; intros l Hl; [done|]. cbn [foldl List.filter]. cbn zeta in *.
  destruct (is_load ph) eqn:El.
  - assert (first_load (scan_step l ph) = false /\ load_base (scan_step l ph) = wrap64 (seg_vaddr bias ph - p_offset ph)) as [E1 E2].
    { destruct l as [h lb fl it]. cbn in Hl. subst fl. unfold scan_step. rewrite El. unfold note_interp, note_end, note_first. by repeat (case_match; cbn in * ). }
    rewrite <- E2. by apply Hkeep.
  - apply IH. unfold scan_step. rewrite El. cbn zeta. unfold note_interp. destruct (p_type ph =? PT_INTERP); exact Hl.
Qed.

(** The interpreter is the last one named. *)
Lemma scan_interp phs : forall l, interp_at (foldl scan_step l phs) =
  foldl (fun o ph => if p_type ph =? PT_INTERP then Some (p_offset ph, p_filesz ph) else o) (interp_at l) phs.
Proof.
  induction phs as [|ph phs IH]; intros l; [done|]. cbn [foldl]. rewrite IH. f_equal.
  unfold scan_step, note_end, note_first, note_interp. repeat (case_match; cbn in *); congruence.
Qed.

Lemma foldl_max_spec (xs : list Z) : forall m, Forall (fun x => x <= foldl Z.max m xs) (m :: xs) /\ foldl Z.max m xs ∈ m :: xs.
Proof.
  induction xs as [|x xs IH]; intros m; cbn [foldl]; [split; [by constructor|by left]|].
  destruct (IH (Z.max m x)) as [[E1 E2]%Forall_cons [E3|E3]%elem_of_cons].
  - split; [repeat constructor; [lia|lia|done]|]. rewrite E3. destruct (Z.max_spec m x) as [[_ ->]|[_ ->]]; [by right; left|by left].
  - split; [repeat constructor; [lia|lia|done]|by do 2 right].
Qed.

(** ** The loaded image *)
Definition all_phdrs (header : list Z) (eh : Ehdr) : list nat := seq 0 (Z.to_nat (e_phnum eh)).
Definition image (header : list Z) (eh : Ehdr) : list Phdr := segments header eh (all_phdrs header eh).

(** The break sits one guard page above the image (while that is below the end
    of the address space). *)
Definition heap_above (segs : list Phdr) (a' : AddressSpace) : Prop :=
  heap_end a' = heap_start a' /\
  (Forall (fun ph => ends ph + 2 * PAGE_SIZE <= 2 ^ 64) segs ->
   exists top, top ∈ segs /\ heap_start a' = end_ (seg top) + PAGE_SIZE /\ Forall (fun ph => end_ (seg ph) <= end_ (seg top)) segs).

(** What a program sees of its segments: every byte of the file part comes from
    its file position, the bytes after it are zeros, and no page is both
    writable and executable. *)
Record segment_seen (a' : AddressSpace) (ph : Phdr) : Prop := {
  ss_bytes : forall k, 0 <= k < p_memsz ph -> let va := ends ph - p_memsz ph + k in
    exists p, seen a' va = Some p /\ p_frame p = None /\ p_cap p = cap
      /\ p_pos p = wrap64 (p_offset ph + k - va mod PAGE_SIZE) /\ (va mod PAGE_SIZE < p_bytes p <-> k < p_filesz ph);
  ss_access : forall va p, covers va (seg ph) = true -> seen a' va = Some p ->
    VmmView.p_flags p = seg_flags ph /\ has (VmmView.p_flags p) WRITABLE && has (VmmView.p_flags p) EXECUTE = false }.

Definition info_spec (eh : Ehdr) (phs : list Phdr) (first : Phdr) : ElfInfo :=
  mkInfo (wrap64 (e_entry eh + bias)) (wrap64 (wrap64 (seg_vaddr bias first - p_offset first) + e_phoff eh))
    (e_phentsize eh) (e_phnum eh) (e_type eh)
    (foldl (fun o ph => if p_type ph =? PT_INTERP then Some (p_offset ph, p_filesz ph) else o) None phs).

Lemma segments_ok b eh ks : bytes_ok b -> Forall (fun ph => phdr_ok ph /\ p_memsz ph <> 0) (segments b eh ks).
Proof.
  intros Hb. apply Forall_forall. intros ph [Hin El]%list_elem_of_In%filter_In. split.
  - apply list_elem_of_In, list_elem_of_omap in Hin as (i & _ & Hi). unfold phdr_at in Hi.
    destruct (parse_phdr b _) eqn:Ep; [|done]. injection Hi as <-. by eapply parse_phdr_ok.
  - apply andb_prop in El as [_ El]. by apply negb_true_iff, Z.eqb_neq in El.
Qed.

Lemma image_seen segs a w a' w' : Forall (fun ph => phdr_ok ph /\ p_memsz ph <> 0) segs -> Forall sane segs ->
  image_loaded segs a w a' w' -> Forall (segment_seen a') segs.
Proof.
  intros Hok Hs [_ I2 _ _]. rewrite Forall_forall in *. intros ph Hin. destruct (Hok ph Hin) as [Hph Hm]. split.
  - intros k Hk. cbn zeta. replace (seg_vaddr bias ph + p_memsz ph - p_memsz ph + k) with (seg_vaddr bias ph + k) by ring.
    destruct (seg_byte cap bias ph k Hcap Hph (Hs ph Hin) Hk) as [E1 E2].
    destruct (I2 ph _ Hin (seg_covers cap bias ph k Hph (Hs ph Hin) Hk)) as [E3 _]. eexists. split; [exact E3|]. split_and!; try done.
  - intros va p Hc Hp. destruct (I2 ph va Hin Hc) as [E _]. rewrite E in Hp. injection Hp as <-. split; [done|apply seg_flags_wx].
Qed.

Lemma page_up_mono x y : fits x -> fits y -> x <= y -> page_up x <= page_up y.
Proof.
  intros Hx Hy Hxy. rewrite !page_up_spec by done. destruct (pages_of_spec x Hx), (pages_of_spec y Hy). unfold PAGE_SIZE in *. lia.
Qed.

Lemma heap_above_image segs l a' : segs <> [] -> Forall (fun ph => phdr_ok ph /\ p_memsz ph <> 0) segs -> Forall sane segs ->
  highest l = foldl Z.max 0 (ends <$> segs) -> heap_above segs (place_heap l a').
Proof.
  intros Hne Hok Hs Hl. destruct (foldl_max_spec (ends <$> segs) 0) as [[_ Hmax]%Forall_cons Hin]. rewrite <- Hl in *.
  rewrite Forall_fmap in Hmax. rewrite Forall_forall in *.
  assert (0 < highest l) as Hpos.
  { destruct segs as [|ph segs]; [done|]. pose proof (Hmax ph ltac:(by left)) as Hp. destruct (Hok ph ltac:(by left)) as [Hph Hm].
    pose proof (po_memsz ph Hph). pose proof (seg_vaddr_u64 bias ph). unfold is_u64 in *. cbn in Hp. lia. }
  apply elem_of_cons in Hin as [Hz|Hin]; [lia|]. apply list_elem_of_fmap in Hin as (top & Etop & Hin).
  unfold place_heap. rewrite (proj2 (Z.ltb_lt 0 (highest l)) Hpos). split; [done|]. intros Hroom. rewrite Forall_forall in Hroom. exists top. split; [done|].
  assert (forall ph, ph ∈ segs -> end_ (seg ph) = page_up (ends ph) /\ fits (ends ph)) as Hend.
  { intros ph Hp. destruct (Hok ph Hp) as [Hph Hm]. split; [apply seg_end_eq; [done|by apply Hs|done|by apply Hroom]|]. pose proof (Hroom ph Hp) as Hr.
    pose proof (po_memsz ph Hph). pose proof (seg_vaddr_u64 bias ph). unfold fits, is_u64, PAGE_SIZE in *. lia. }
  destruct (Hend top Hin) as [E1 E2]. split.
  - cbn [heap_start]. fold (Align.align_up (highest l) PAGE_SIZE). fold (page_up (highest l)). rewrite Etop, E1.
    pose proof (page_up_spec _ E2) as Eu. destruct (pages_of_spec _ E2). pose proof (Hroom top Hin).
    unfold wrap64. apply Z.mod_small. unfold fits, PAGE_SIZE in *. lia.
  - apply Forall_forall. intros ph Hp. destruct (Hend ph Hp) as [E3 E4]. rewrite E1, E3. apply page_up_mono; try done.
    rewrite <- Etop. by apply Hmax.
Qed.

Lemma place_heap_kept segs l a w a' w' : image_loaded segs a w a' w' -> vm_ok a' w' ->
  image_loaded segs a w (place_heap l a') w' /\ vm_ok (place_heap l a') w'.
Proof. intros [I1 I2 I3 I4] HV. unfold place_heap. by destruct (0 <? highest l); split; try done; split. Qed.

(** C13: Demand-paged loading maps the image of an executable and nothing else.
    From a consistent address space, for a header whose segment sizes do not
    wrap when rounded to pages: on success every program header was read, there
    is at least one segment, the segments' pages were free and are now exactly
    the pages added to the view, every byte below [p_filesz] is backed by its
    file position and the rest up to [p_memsz] reads as zeros, no page is both
    writable and executable, the file is retained once per segment, the break
    sits one guard page above the image, and the entry point, the address of the
    program headers and the interpreter are the header's.  A refused image
    leaves page table, reference counts and break as they were, and the address
    space consistent. *)
Theorem load_lazy_spec em header a (w : world T) :
  bytes_ok header -> vm_ok a w -> (forall eh, parse_tables em header = Ok eh -> Forall sane (image header eh)) ->
  match load_lazy em header cap bias a w with
  | (Ok info, a', w') => exists eh first rest, parse_tables em header = Ok eh
      /\ Forall (fun i => is_ok (phdr_at header eh i)) (all_phdrs header eh)
      /\ image header eh = first :: rest /\ image_loaded (image header eh) a w a' w'
      /\ Forall (segment_seen a') (image header eh) /\ heap_above (image header eh) a'
      /\ info = info_spec eh (phdrs header eh (all_phdrs header eh)) first
      /\ vm_ok a' w' /\ pt w' = pt w /\ page_refs w' = page_refs w
  | (Err _, a', w') => vm_ok a' w' /\ frame_kept a w a' w'
  end.
Proof.
  intros Hb HV Hsane. unfold load_lazy. destruct (parse_tables em header) as [eh|e] eqn:Ep; [|by split; [|split_and!]].
  specialize (Hsane eh eq_refl). pose proof (load_loop_lazy_spec header eh (all_phdrs header eh) start_scan a w Hb HV Hsane) as Hloop.
  unfold all_phdrs at 1 in Hloop. destruct (load_loop_lazy header cap bias eh _ start_scan a w) as [[[l a'] w']|[[e a'] w']]; [|done].
  destruct Hloop as (L1 & -> & L3 & L4 & L5). pose proof (scan_first (phdrs header eh (all_phdrs header eh)) start_scan eq_refl) as Hfst.
  pose proof (segments_ok header eh (all_phdrs header eh) Hb) as Hok. fold (image header eh) in *.
  cbn zeta in Hfst. fold (segments header eh (all_phdrs header eh)) in Hfst. fold (image header eh) in Hfst.
  destruct (image header eh) as [|first rest] eqn:Eim; [by rewrite Hfst|]. destruct Hfst as [F1 F2]. rewrite F1.
  destruct (place_heap_kept _ (foldl scan_step start_scan (phdrs header eh (all_phdrs header eh))) _ _ _ _ L3 L4) as [M1 M2].
  destruct L5 as (L5 & L6 & _ & _). exists eh, first, rest. rewrite Eim. split_and!; try done.
  - by apply (image_seen (first :: rest) a w _ w').
  - apply heap_above_image; try done. rewrite scan_highest. fold (segments header eh (all_phdrs header eh)).
    fold (image header eh). by rewrite Eim.
  - unfold info_of, info_spec. by rewrite F2, scan_interp.
Qed.
End lazy_specs.

(** ** The eager copy ends *)
Section copying.
Context {T : Type} `{PageTable T} {C : Type} `{FrameCache C} (fk : Z -> Z) (o : Z -> oracle).

Lemma in_page dst : Z.land dst (PAGE_SIZE - 1) = dst mod PAGE_SIZE.
Proof. change (PAGE_SIZE - 1) with (Z.ones 12). by rewrite Z.land_ones. Qed.

Lemma copy_loop_enough k b : forall fuel src dst remaining (s : sys (T := T) (C := C)),
  0 <= remaining -> dst mod PAGE_SIZE + remaining <= Z.of_nat fuel * PAGE_SIZE ->
  copy_loop fk o (fuel + k) b src dst remaining s = copy_loop fk o fuel b src dst remaining s.
Proof.
  induction fuel as [|fuel IH]; intros src dst rem s Hr Hf.
  { pose proof (Z.mod_pos_bound dst PAGE_SIZE ltac:(done)). assert (rem = 0) as -> by lia. by destruct k. }
  cbn [Nat.add copy_loop]. destruct (Z.eqb_spec rem 0) as [|Hne]; [done|].
  destruct (handle_user_page_fault fk (o dst) dst false s) as [[[|] s1]|]; [|done|done]. cbn [mbind option_bind negb].
  destruct (virt_to_phys (asp s1) dst) as [ph|]; [|done]. cbn zeta. rewrite in_page. pose proof (Z.mod_pos_bound dst PAGE_SIZE ltac:(done)) as Hm.
  destruct (Z.min_spec (PAGE_SIZE - dst mod PAGE_SIZE) rem) as [[Hlt ->]|[Hle ->]].
  - apply IH; [lia|]. assert (wrap64 (dst + (PAGE_SIZE - dst mod PAGE_SIZE)) mod PAGE_SIZE = 0) as ->; [|lia].
    unfold wrap64. rewrite <- (Znumtheory.Zmod_div_mod PAGE_SIZE (2 ^ 64)) by (try done; by exists (2 ^ 52)).
    replace (dst + _) with ((1 + dst / PAGE_SIZE) * PAGE_SIZE); [by apply Z_mod_mult|].
    pose proof (Z.div_mod dst PAGE_SIZE ltac:(done)). lia.
  - rewrite Z.sub_diag. by destruct fuel, k.
Qed.

(** [copy_fuel] is enough for a segment: more fuel changes nothing, so the copy
    fails to return only where the fault path panics. *)
Lemma copy_fuel_enough k b src dst filesz (s : sys (T := T) (C := C)) : 0 <= filesz ->
  copy_loop fk o (copy_fuel filesz + k) b src dst filesz s = copy_loop fk o (copy_fuel filesz) b src dst filesz s.
Proof.
  intros Hf. apply copy_loop_enough; [done|]. unfold copy_fuel. pose proof (Z.div_mod filesz PAGE_SIZE ltac:(done)).
  pose proof (Z.mod_pos_bound filesz PAGE_SIZE ltac:(done)). pose proof (Z.mod_pos_bound dst PAGE_SIZE ltac:(done)).
  pose proof (Z.div_pos filesz PAGE_SIZE Hf ltac:(done)). rewrite Z2Nat.id by lia. unfold PAGE_SIZE in *. lia.
Qed.
End copying.

(** ** Reading back what was written *)
(** A header as a linker writes it. *)
Definition phdr_fields (ph : Phdr) : list (nat * Z) :=
  [(4%nat, p_type ph); (4%nat, p_flags ph); (8%nat, p_offset ph); (8%nat, p_vaddr ph); (8%nat, p_vaddr ph); (8%nat, p_filesz ph); (8%nat, p_memsz ph); (8%nat, PAGE_SIZE)].
Definition ehdr_fields (eh : Ehdr) : list (nat * Z) :=
  [(1%nat, 0x7f); (1%nat, 0x45); (1%nat, 0x4c); (1%nat, 0x46); (1%nat, ELFCLASS64); (1%nat, ELFDATA2LSB); (10%nat, 1);
   (2%nat, e_type eh); (2%nat, e_machine eh); (4%nat, 1); (8%nat, e_entry eh); (8%nat, e_phoff eh); (8%nat, 0); (4%nat, 0); (2%nat, 64);
   (2%nat, e_phentsize eh); (2%nat, e_phnum eh); (6%nat, 0)].
Definition write_image (eh : Ehdr) (phs : list Phdr) : list Z := encode (ehdr_fields eh) ++ encode (flat_map phdr_fields phs).

Lemma read_field fs i n v off : fs !! i = Some (n, v) -> in_range (n, v) -> Z.of_nat (width fs) < 2 ^ 64 -> off = Z.of_nat (width (take i fs)) ->
  read_le n (encode fs) off = Some v.
Proof.
  intros Hi Hr Hw ->. pose proof (width_split fs i n v Hi). unfold read_le, blen. rewrite encode_length.
  unfold wrap64. rewrite Z.mod_small by lia. rewrite (proj2 (Z.ltb_ge _ _)) by lia. rewrite Nat2Z.id, <- (app_nil_r (encode fs)).
  by rewrite (read_back fs i n v).
Qed.

(** The fields of an executable header for machine [em], with its program
    headers right after it. *)
Record ehdr_ok (em : Z) (eh : Ehdr) (n : nat) : Prop := {
  eo_type : e_type eh = ET_EXEC \/ e_type eh = ET_DYN;
  eo_machine : e_machine eh = em;
  eo_em : 0 <= em < 2 ^ 16;
  eo_entry : is_u64 (e_entry eh);
  eo_phoff : e_phoff eh = 64;
  eo_phentsize : e_phentsize eh = 56;
  eo_phnum : e_phnum eh = Z.of_nat n /\ e_phnum eh < 2 ^ 16 }.
Definition phdr_words (ph : Phdr) : Prop := phdr_ok ph /\ 0 <= p_type ph < 2 ^ 32 /\ 0 <= p_flags ph < 2 ^ 32.

Lemma phdrs_width phs : width (flat_map phdr_fields phs) = (56 * length phs)%nat.
Proof. induction phs as [|ph phs IH]; [done|]. cbn [flat_map]. unfold width in *. rewrite sum_list_with_app, IH. cbn [phdr_fields sum_list_with fst length]. lia. Qed.

Lemma read_phdr_field fs phs i ph j n v off : phs !! i = Some ph -> phdr_fields ph !! j = Some (n, v) -> in_range (n, v) ->
  width fs = 64%nat -> Z.of_nat (length phs) < 65536 -> off = 64 + Z.of_nat i * 56 + Z.of_nat (width (take j (phdr_fields ph))) ->
  read_le n (encode (fs ++ flat_map phdr_fields phs)) off = Some v.
Proof.
  intros Hi Hj Hr Hf Hn ->. pose proof (take_drop_middle phs i _ Hi) as Ep. pose proof (lookup_lt_Some _ _ _ Hi) as Hlt.
  pose proof (lookup_lt_Some _ _ _ Hj) as Hjlt.
  assert (flat_map phdr_fields phs = flat_map phdr_fields (take i phs) ++ phdr_fields ph ++ flat_map phdr_fields (drop (S i) phs)) as Ef.
  { rewrite <- Ep at 1. by rewrite flat_map_app. }
  apply (read_field _ (length fs + length (flat_map phdr_fields (take i phs)) + j)); [|done| |].
  - rewrite Ef, lookup_app_r by lia. rewrite lookup_app_r by lia. rewrite lookup_app_l by lia. rewrite <- Hj. f_equal. lia.
  - unfold width. rewrite sum_list_with_app. fold (width fs) (width (flat_map phdr_fields phs)). rewrite phdrs_width, Hf. lia.
  - rewrite Ef, take_app_ge by lia. rewrite take_app_ge by lia. rewrite take_app_le by lia. replace (_ - _ - _)%nat with j by lia.
    unfold width. rewrite !sum_list_with_app. fold (width fs) (width (flat_map phdr_fields (take i phs))) (width (take j (phdr_fields ph))).
    rewrite phdrs_width, Hf, length_take. lia.
Qed.

Lemma ehdr_roundtrip em eh phs : ehdr_ok em eh (length phs) -> parse_tables em (write_image eh phs) = Ok eh.
Proof.
  intros [Hty Hm He Hen Hoff Hes [Hn Hn']].
  assert (forall j n v off, ehdr_fields eh !! j = Some (n, v) -> in_range (n, v) -> off = Z.of_nat (width (take j (ehdr_fields eh))) ->
    read_le n (write_image eh phs) off = Some v) as Hread.
  { intros j n v off Hj Hr Eo. unfold write_image. rewrite <- encode_app. pose proof (lookup_lt_Some _ _ _ Hj). apply (read_field _ j); [|done| |].
    - by rewrite lookup_app_l.
    - unfold width. rewrite sum_list_with_app. fold (width (flat_map phdr_fields phs)). rewrite phdrs_width. cbn [sum_list_with ehdr_fields fst]. lia.
    - rewrite take_app_le by lia. done. }
  assert (blen (write_image eh phs) = 64 + 56 * e_phnum eh) as El.
  { unfold blen, write_image. rewrite length_app, !encode_length, phdrs_width, Hn. change (width (ehdr_fields eh)) with 64%nat. lia. }
  unfold parse_tables, parse_ehdr, r16, r64. rewrite El, (proj2 (Z.ltb_ge _ _)) by lia.
  rewrite bool_decide_true by reflexivity. change (byte_at (write_image eh phs) 4) with ELFCLASS64. change (byte_at (write_image eh phs) 5) with ELFDATA2LSB.
  cbn [negb Z.eqb ELFCLASS64 ELFDATA2LSB Pos.eqb].
  unfold is_u64, ET_EXEC, ET_DYN in *.
  rewrite (Hread 7%nat 2%nat (e_type eh)); [|done|unfold in_range; cbn; lia|done].
  rewrite (Hread 8%nat 2%nat (e_machine eh)); [|done|unfold in_range; cbn; lia|done].
  rewrite (Hread 10%nat 8%nat (e_entry eh)); [|done|done|done].
  rewrite (Hread 11%nat 8%nat (e_phoff eh)); [|done|unfold in_range; cbn; lia|done].
  rewrite (Hread 15%nat 2%nat (e_phentsize eh)); [|done|unfold in_range; cbn; lia|done].
  rewrite (Hread 16%nat 2%nat (e_phnum eh)); [|done|unfold in_range; cbn; lia|done].
  cbn [ok_or].
  assert (negb (e_type eh =? 2) && negb (e_type eh =? 3) = false) as -> by (destruct Hty as [-> | ->]; done).
  rewrite Hm, Z.eqb_refl. cbn [negb e_phoff e_phentsize e_phnum]. rewrite Hoff, Hes. unfold checked_add.
  rewrite (proj2 (Z.ltb_lt _ _)) by lia. cbn [ok_or]. rewrite (proj2 (Z.ltb_ge _ _)) by lia.
  destruct eh; cbn in *; congruence.
Qed.

Lemma phdr_roundtrip em eh phs i ph : ehdr_ok em eh (length phs) -> phdr_words ph -> phs !! i = Some ph ->
  phdr_at (write_image eh phs) eh i = Ok ph.
Proof.
  intros [_ _ _ _ Hoff Hes [Hn Hn']] Hph Hi. unfold phdr_at, parse_phdr, write_image. rewrite <- encode_app, Hoff, Hes.
  destruct Hph as ([P1 P2 P3 P4] & P5 & P6).
  assert (forall j n v off, phdr_fields ph !! j = Some (n, v) -> in_range (n, v) -> off = 64 + Z.of_nat i * 56 + Z.of_nat (width (take j (phdr_fields ph))) ->
    read_le n (encode (ehdr_fields eh ++ flat_map phdr_fields phs)) off = Some v) as Hread.
  { intros j n v off Hj Hr Eo. eapply read_phdr_field; try done. lia. }
  unfold r32, r64.
  rewrite (Hread 0%nat 4%nat (p_type ph)); [|done|done|cbn; lia]. rewrite (Hread 1%nat 4%nat (p_flags ph)); [|done|done|cbn; lia].
  rewrite (Hread 2%nat 8%nat (p_offset ph)); [|done|done|cbn; lia]. rewrite (Hread 3%nat 8%nat (p_vaddr ph)); [|done|done|cbn; lia].
  rewrite (Hread 5%nat 8%nat (p_filesz ph)); [|done|done|cbn; lia]. rewrite (Hread 6%nat 8%nat (p_memsz ph)); [|done|done|cbn; lia].
  by destruct ph.
Qed.

(** C14: Parsing inverts the ELF64 layout: of an image written with a header for
    the target machine and its program headers right after it, the loader reads
    back every field of the header it uses and, for every index, the program
    header with that index. *)
Theorem parse_image_roundtrip em eh phs :
  ehdr_ok em eh (length phs) -> Forall phdr_words phs ->
  parse_tables em (write_image eh phs) = Ok eh /\
  forall i ph, phs !! i = Some ph -> phdr_at (write_image eh phs) eh i = Ok ph.
Proof.
  intros He Hph. split; [by apply (ehdr_roundtrip em)|]. intros i ph Hi. apply (phdr_roundtrip em); try done.
  exact (proj1 (Forall_lookup _ _) Hph i ph Hi).
Qed.

(** ** A small executable *)
Definition EM_X86_64 : Z := 62.
Definition text_seg : Phdr := mkPhdr PT_LOAD 5 4096 0x400000 5000 5000.
Definition data_seg : Phdr := mkPhdr PT_LOAD 6 12300 0x40300c 100 9000.
Definition interp_seg : Phdr := mkPhdr PT_INTERP 4 4100 0x400004 20 20.
Definition demo_elf : list Z := write_image (mkEhdr ET_EXEC EM_X86_64 0x400010 64 56 3) [interp_seg; text_seg; data_seg].
Definition empty_space : AddressSpace := mkAs [] 0 0 0 0 0.
Definition empty_world : world (gmap Z (Z * Z)) := mkWorld ∅ ∅ 0 [].

Lemma empty_space_ok : vm_ok empty_space empty_world.
Proof. split; [by split; constructor|]. split; [|apply map_Forall_empty]. intros va p f Hp. change (pte (pt empty_world) va) with ((∅ : gmap Z (Z * Z)) !! va) in Hp. by rewrite lookup_empty in Hp. Qed.

Lemma load_lazy_spec_witness :
  exists a' w', load_lazy EM_X86_64 demo_elf 9 0 empty_space empty_world =
      (Ok (mkInfo 0x400010 0x3ff040 56 3 ET_EXEC (Some (4100, 20))), a', w')
    /\ heap_start a' = 0x407000 /\ log w' = [FileRetain 9; FileRetain 9]
    /\ (exists p, view (live (regions a')) (0x40300c + 50) = Some p /\ p_pos p = 12288 /\ VmmView.p_flags p = 7)
    /\ vm_ok a' w'.
Proof.
  assert (bytes_ok demo_elf) as Hb.
  { apply Forall_forall. intros x Hx. assert (forallb (fun x => (0 <=? x) && (x <? 256)) demo_elf = true) as Hf by (vm_compute; reflexivity).
    rewrite forallb_forall in Hf. apply list_elem_of_In, Hf in Hx. lia. }
  pose proof (load_lazy_spec 9 0 eq_refl EM_X86_64 demo_elf empty_space empty_world Hb empty_space_ok) as Hspec.
  assert (parse_tables EM_X86_64 demo_elf = Ok (mkEhdr 2 62 0x400010 64 56 3)) as Ep by (vm_compute; reflexivity).
  assert (image demo_elf (mkEhdr 2 62 0x400010 64 56 3) = [text_seg; data_seg]) as Ei by (vm_compute; reflexivity).
  specialize (Hspec ltac:(intros eh Heh; rewrite Ep in Heh; injection Heh as <-; rewrite Ei; repeat constructor; unfold PAGE_SIZE; cbn; lia)).
  destruct (load_lazy EM_X86_64 demo_elf 9 0 empty_space empty_world) as [[[info|e] a'] w'] eqn:El;
    [|exfalso; assert (is_ok (load_lazy EM_X86_64 demo_elf 9 0 empty_space empty_world).1.1 = true) as Hx by (vm_compute; reflexivity);
      rewrite El in Hx; discriminate Hx].
  destruct Hspec as (eh & first & rest & Ep' & _ & Ei' & [_ _ _ Il] & Is & [Hh Hh'] & -> & HV & _).
  rewrite Ep in Ep'. injection Ep' as <-. rewrite Ei in *. injection Ei' as <- <-.
  exists a', w'. split; [vm_compute; reflexivity|]. apply Forall_cons in Is as [_ [[Sb Sa] _]%Forall_cons].
  split_and!; [|exact Il| |exact HV].
  - destruct Hh' as (top & [->|[->|[]%elem_of_nil]%elem_of_cons]%elem_of_cons & -> & Hf);
      [repeat constructor; vm_compute; discriminate|apply Forall_cons in Hf as [_ [Hf _]%Forall_cons]; exfalso; revert Hf; vm_compute; tauto|vm_compute; reflexivity].
  - destruct (Sb 50 ltac:(vm_compute; split; [discriminate|reflexivity])) as (p & Ev & _ & _ & Epos & _). exists p. split; [exact Ev|].
    split; [rewrite Epos; vm_compute; reflexivity|]. refine (proj1 (Sa _ p _ Ev)). vm_compute. reflexivity.
Defined.

Lemma parse_image_roundtrip_witness : phdr_at demo_elf (mkEhdr ET_EXEC EM_X86_64 0x400010 64 56 3) 2 = Ok data_seg.
Proof.
  refine (proj2 (parse_image_roundtrip EM_X86_64 (mkEhdr ET_EXEC EM_X86_64 0x400010 64 56 3) [interp_seg; text_seg; data_seg] _ _) 2%nat data_seg eq_refl).
  - split; cbn; unfold is_u64, EM_X86_64; try done; by left.
  - repeat constructor; cbn; unfold is_u64, PT_INTERP, PT_LOAD; lia.
Defined.

(** The eager loader copies the bytes of a segment to the frame behind it. *)
Definition eager_seg : Phdr := mkPhdr PT_LOAD 5 120 0x400078 5 10.
Definition eager_elf : list Z := write_image (mkEhdr ET_EXEC EM_X86_64 0x400078 64 56 1) [eager_seg] ++ [10; 20; 30; 40; 50].
Definition one_frame (frame : Z) : oracle := mkOracle (Some frame) (fun _ => Some frame) (fun _ _ _ => ([], 0)).

Example eager_load : exists s', load (fun _ => 0) (fun _ => one_frame 28672) EM_X86_64 eager_elf 0 (mkSys empty_space empty_world empty_cache)
    = Some (Ok (mkInfo 0x400078 0x400040 56 1 ET_EXEC None), s')
  /\ log (wld s') = [Zero 28672 PAGE_SIZE; Store 28792 [10; 20; 30; 40; 50]] /\ heap_start (asp s') = 0x402000.
Proof. eexists. split; [vm_compute; reflexivity|]. split; vm_compute; reflexivity. Qed.

(** ** An image over the kernel half *)
Definition USER_SPACE_END : Z := 0x800000000000.
Definition kernel_seg : Phdr := mkPhdr PT_LOAD 6 0 0xffff800000000000 0 4096.
Definition kernel_elf : list Z := write_image (mkEhdr ET_EXEC EM_X86_64 0x400010 64 56 1) [kernel_seg].

(** The loader compares no segment with the end of user space: a segment in the
    kernel half becomes a region of the space like any other. *)
Example kernel_half_accepted : exists info a w, load_lazy EM_X86_64 kernel_elf 9 0 empty_space empty_world = (Ok info, a, w)
  /\ USER_SPACE_END <= p_vaddr kernel_seg /\ (VmmView.p_flags <$> view (live (regions a)) (p_vaddr kernel_seg)) = Some (Z.lor (Z.lor PRESENT USER) WRITABLE).
Proof. eexists _, _, _. split; [vm_compute; reflexivity|]. split; [discriminate|]. vm_compute. reflexivity. Qed.

(** A memory size close to 2^64 wraps to no pages: the image is accepted, maps
    nothing, and puts the break at the bottom of the address space. *)
Definition huge_elf : list Z := write_image (mkEhdr ET_EXEC EM_X86_64 0x400010 64 56 1) [mkPhdr PT_LOAD 6 0 0 0 (2 ^ 64 - 1)].
Example huge_segment_accepted : exists info a w, load_lazy EM_X86_64 huge_elf 9 0 empty_space empty_world = (Ok info, a, w)
  /\ heap_start a = 4096 /\ view (live (regions a)) 0 = None /\ ~ vm_ok a w.
Proof.
  eexists _, _, _. split; [vm_compute; reflexivity|]. split; [reflexivity|]. split; [reflexivity|].
  intros [[Hr _] _]. apply Forall_cons in Hr as [Hr _]. destruct Hr. cbn in *. lia.
Qed.
