(* ===== verification/Kva.v ===== *)
(** * Kernel address ranges for device mappings

    Models [src/mm/src/kva.rs]: the window of kernel addresses behind
    [ioremap], [vmap] and [iounmap].  [State] is the content of [STATE]; the
    kernel page table is the interface [PageTable] of [Vmm], and flushes are
    calls in the log of its [world] (the x86-64 form: a shootdown of everything).
    The iterator of frames is a function from the position to the frame; the
    frame [buddy::alloc] gives the probe of [init] is an argument.  The C entry
    points only convert pointers and are left out.

    The invariant counts pages: the pages of live mappings (each with its guard
    page) and of freed ranges are all different, lie below the cursor, and only
    the mapped pages of live mappings have page-table entries. *)
From S2P Require Import Prelude KLib PageSites PageRef PageVec Vmm VmmView VmmMap.
#[local] Open Scope Z_scope.

Definition KVA_BASE : Z := 0xfffff00000000000.
Definition KVA_SIZE : Z := Z.shiftl 256 30.
Definition MMIO : Z := Z.shiftl 1 5.
Definition NOCACHE : Z := Z.shiftl 1 4.
Definition WRITECOMBINE : Z := Z.shiftl 1 6.

Inductive CacheMode : Set := Uncached | WriteCombining | WriteBack.
Definition mode_flags (m : CacheMode) : Z :=
  let base := Z.lor PRESENT WRITABLE in
  match m with
  | Uncached => Z.lor (Z.lor base MMIO) NOCACHE
  | WriteCombining => Z.lor base WRITECOMBINE
  | WriteBack => base
  end.
Definition from_u32 (v : Z) : CacheMode := if v =? 1 then WriteCombining else if v =? 2 then WriteBack else Uncached.

Record Region := mkRegion { va : Z; r_pages : Z }.
Record State := mkState { ready : bool; cursor : Z; live : list Region; free : list (Z * Z); mapped_pages : Z }.
Definition boot_state : State := mkState false 0 [] [] 0.

Definition set_free (f : list (Z * Z)) (st : State) : State := mkState (ready st) (cursor st) (live st) f (mapped_pages st).
Definition set_live (l : list Region) (n : Z) (st : State) : State := mkState (ready st) (cursor st) l (free st) n.

(** [Vec::swap_remove]: the last element takes the place of the removed one. *)
Definition swap_remove {A} (i : nat) (l : list A) : list A :=
  match last l with Some x => take (length l - 1) (<[i := x]> l) | None => l end.
(** [iter().position(p)] *)
Fixpoint position {A} (p : A -> bool) (l : list A) : option nat :=
  match l with [] => None | x :: l => if p x then Some O else S <$> position p l end.

(** ** Allocation of a range *)
Definition alloc_range (pages : Z) (st : State) : option Z * State :=
  let need := pages + 1 in
  if cursor st / PAGE_SIZE + need <=? KVA_SIZE / PAGE_SIZE then
    (Some (KVA_BASE + cursor st), mkState (ready st) (cursor st + need * PAGE_SIZE) (live st) (free st) (mapped_pages st))
  else
    match position (fun f => need <=? f.2) (free st) with
    | None => (None, st)
    | Some i =>
        match free st !! i with
        | None => (None, st)
        | Some (off, n) =>
            (Some (KVA_BASE + off),
             set_free (if n =? need then swap_remove i (free st) else <[i := (off + need * PAGE_SIZE, n - need)]> (free st)) st)
        end
    end.

Section kva.
Context {T : Type} `{PageTable T}.
Notation world := (world T).

Definition unmap_range (v : Z) (n : nat) (w : world) : world :=
  emit [TlbFlushAll] (set_pt (unmap_pages v (seq 0 n) (pt w)) w).

(** How the loop over the frames ends: mapped, the iterator is empty at page
    [i], or page [i] could not be mapped. *)
Inductive ended : Set := Mapped | NoFrame (i : nat) | NoEntry (i : nat).
Fixpoint map_loop (frames : nat -> option Z) (v fl : Z) (ks : list nat) (t : T) : ended * T :=
  match ks with
  | [] => (Mapped, t)
  | i :: ks =>
      match frames i with
      | None => (NoFrame i, t)
      | Some pa =>
          let '(ok, t) := map_page (va_of v i) (page_down pa) fl t in
          if ok then map_loop frames v fl ks t else (NoEntry i, t)
      end
  end.

Definition map_frames (frames : nat -> option Z) (pages : Z) (mode : CacheMode) (st : State) (w : world) : option Z * State * world :=
  if pages =? 0 then (None, st, w)
  else if negb (ready st) then (None, st, w)
  else
    match alloc_range pages st with
    | (None, st) => (None, st, w)
    | (Some v, st) =>
        match map_loop frames v (mode_flags mode) (seq 0 (Z.to_nat pages)) (pt w) with
        | (NoFrame i, t) => (None, st, unmap_range v i (set_pt t w))
        | (NoEntry i, t) => (None, set_free (free st ++ [(v - KVA_BASE, pages + 1)]) st, unmap_range v i (set_pt t w))
        | (Mapped, t) => (Some v, set_live (live st ++ [mkRegion v pages]) (mapped_pages st + pages) st, set_pt t w)
        end
    end.

(** ** The interface *)
Definition init (probe : option Z) (st : State) (w : world) : bool * State * world :=
  match probe with
  | None => (false, st, w)
  | Some p =>
      let '(ok, t) := map_page KVA_BASE p (Z.lor PRESENT WRITABLE) (pt w) in
      let w := set_pt t w in
      let w := if ok then emit [TlbFlushLocal KVA_BASE] (set_pt (unmap_page KVA_BASE (pt w)) w) else w in
      (ok, mkState ok PAGE_SIZE (live st) (free st) (mapped_pages st), emit [BuddyFree p 0] w)
  end.

Definition ioremap (phys len : Z) (mode : CacheMode) (st : State) (w : world) : option Z * State * world :=
  if len =? 0 then (None, st, w)
  else
    let start := page_down phys in
    match e ← checked_add phys len; checked_add e (PAGE_SIZE - 1) with
    | None => (None, st, w)
    | Some e =>
        let pages := (page_down e - start) / PAGE_SIZE in
        let '(r, st, w) := map_frames (fun i => if Z.of_nat i <? pages then Some (start + Z.of_nat i * PAGE_SIZE) else None) pages mode st w in
        (option_map (fun v => v + (phys - start)) r, st, w)
    end.

Definition vmap (pages : list Z) (mode : CacheMode) (st : State) (w : world) : option Z * State * world :=
  map_frames (fun i => pages !! i) (Z.of_nat (length pages)) mode st w.

Definition inside (v : Z) (r : Region) : bool := (va r <=? v) && (v <? va r + r_pages r * PAGE_SIZE).
Definition iounmap (v : Z) (st : State) (w : world) : bool * State * world :=
  match position (inside v) (live st) with
  | None => (false, st, w)
  | Some i =>
      match live st !! i with
      | None => (false, st, w)
      | Some r =>
          let st := set_live (swap_remove i (live st)) (mapped_pages st - r_pages r) st in
          (true, set_free (free st ++ [(va r - KVA_BASE, r_pages r + 1)]) st, unmap_range (va r) (Z.to_nat (r_pages r)) w)
      end
  end.
Definition vunmap (v : Z) (st : State) (w : world) : bool * State * world := iounmap v st w.
End kva.

Definition in_window (v : Z) : bool := (KVA_BASE <=? v) && (v <? KVA_BASE + KVA_SIZE).
Definition stats (st : State) : Z * Z * Z := (Z.of_nat (length (live st)), mapped_pages st, cursor st).

(** ** Vectors *)
Lemma swap_remove_perm {A} i (l : list A) x : l !! i = Some x -> l ≡ₚ x :: swap_remove i l.
Proof.
  intros Hi. unfold swap_remove. destruct (last l) as [y|] eqn:El; [|apply last_None in El; by subst].
  apply last_Some in El as [l' ->]. rewrite length_app. cbn [length]. rewrite Nat.add_sub.
  destruct (decide (i < length l')%nat) as [Hlt|Hge].
  - rewrite lookup_app_l in Hi by done. rewrite insert_app_l, take_app_length' by (rewrite ?length_insert; done).
    rewrite insert_take_drop by done. rewrite <- (take_drop_middle l' i x Hi) at 1. rewrite <- app_assoc. cbn.
    rewrite <- !Permutation_middle. constructor. by rewrite ?app_nil_r.
  - pose proof (lookup_lt_Some _ _ _ Hi) as Hl. rewrite length_app in Hl. cbn in Hl. assert (i = length l') as -> by lia.
    rewrite lookup_app_r, Nat.sub_diag in Hi by done. injection Hi as ->. rewrite insert_app_r_alt by done.
    rewrite take_app_length. symmetry. apply Permutation_cons_append.
Qed.

Lemma first_position_spec {A} (p : A -> bool) l : match position p l with
  | Some i => exists x, l !! i = Some x /\ p x = true
  | None => Forall (fun x => p x = false) l end.
Proof.
  induction l as [|x l IH]; cbn; [done|]. destruct (p x) eqn:E; [by exists x|]. destruct (position p l); [exact IH|by constructor].
Qed.

(** ** The layout of the window *)
Definition span_pages (f : Z * Z) : list Z := seqZ (f.1 / PAGE_SIZE) f.2.
Definition owned (l : list (Z * Z)) : list Z := flat_map span_pages l.
(** A mapping owns its pages and the guard page behind them. *)
Definition span_of (r : Region) : Z * Z := (va r - KVA_BASE, r_pages r + 1).
Definition spans (st : State) : list (Z * Z) := (span_of <$> live st) ++ free st.

Record layout (c : Z) (l : list (Z * Z)) : Prop := {
  lo_cursor : (PAGE_SIZE | c) /\ PAGE_SIZE <= c <= KVA_SIZE;
  lo_aligned : Forall (fun f => (PAGE_SIZE | f.1) /\ 0 < f.2) l;
  lo_nodup : NoDup (owned l);
  lo_bound : Forall (fun p => 1 <= p < c / PAGE_SIZE) (owned l) }.

Lemma layout_perm c l l' : l ≡ₚ l' -> layout c l -> layout c l'.
Proof.
  intros HP [L1 L2 L3 L4]. assert (owned l ≡ₚ owned l') as HO by by apply Permutation_flat_map.
  split; [done|by rewrite <- HP|by rewrite <- HO|by rewrite <- HO].
Qed.

Lemma layout_bump c l n : layout c l -> 0 < n -> c / PAGE_SIZE + n <= KVA_SIZE / PAGE_SIZE -> layout (c + n * PAGE_SIZE) ((c, n) :: l).
Proof.
  intros [[Hd Hc] L2 L3 L4] Hn Hfit. assert ((c + n * PAGE_SIZE) / PAGE_SIZE = c / PAGE_SIZE + n) as E by (by rewrite Z.div_add).
  destruct Hd as [q ->]. rewrite Z.div_mul in * by done. split.
  - split; [apply Z.divide_add_r; [by exists q|by exists n]|]. change (KVA_SIZE / PAGE_SIZE) with (2 ^ 26) in Hfit.
    change KVA_SIZE with (2 ^ 26 * PAGE_SIZE) in *. unfold PAGE_SIZE in *. lia.
  - constructor; [|done]. split; [by exists q|done].
  - change (NoDup (seqZ (q * PAGE_SIZE / PAGE_SIZE) n ++ owned l)). rewrite Z.div_mul by done. apply NoDup_app. split; [apply NoDup_seqZ|]. split; [|done].
    intros p [Hp _]%elem_of_seqZ Hin. rewrite Forall_forall in L4. apply L4 in Hin. lia.
  - change (Forall (fun p => 1 <= p < (q * PAGE_SIZE + n * PAGE_SIZE) / PAGE_SIZE) (seqZ (q * PAGE_SIZE / PAGE_SIZE) n ++ owned l)).
    rewrite E, Z.div_mul by done. apply Forall_app. split.
    + apply Forall_forall. intros p Hp%elem_of_seqZ. unfold PAGE_SIZE in *. lia.
    + eapply Forall_impl; [exact L4|]. cbn. lia.
Qed.

Lemma layout_split c off n need l : layout c ((off, n) :: l) -> 0 < need < n ->
  layout c ((off, need) :: (off + need * PAGE_SIZE, n - need) :: l).
Proof.
  intros [L1 [[Hd _] L2]%Forall_cons L3 L4] Hn. cbn in Hd.
  assert (owned ((off, need) :: (off + need * PAGE_SIZE, n - need) :: l) = owned ((off, n) :: l)) as E.
  { cbn [owned flat_map]. rewrite app_assoc. f_equal. unfold span_pages. cbn [fst snd]. rewrite Z.div_add by done.
    replace n with (need + (n - need)) at 2 by ring. rewrite seqZ_app by lia. done. }
  split; [done| |by rewrite E|by rewrite E]. repeat constructor; cbn; try done; try lia. apply Z.divide_add_r; [done|by exists need].
Qed.

Lemma alloc_range_spec pages st : layout (cursor st) (spans st) -> 0 < pages ->
  match alloc_range pages st with
  | (None, st') => st' = st
  | (Some v, st') => live st' = live st /\ mapped_pages st' = mapped_pages st /\ ready st' = ready st
      /\ layout (cursor st') ((v - KVA_BASE, pages + 1) :: spans st')
  end.
Proof.
  intros HL Hp. unfold alloc_range. destruct (Z.leb_spec (cursor st / PAGE_SIZE + (pages + 1)) (KVA_SIZE / PAGE_SIZE)) as [Hfit|_].
  - split_and!; try done. replace (KVA_BASE + cursor st - KVA_BASE) with (cursor st) by ring. apply layout_bump; try done. lia.
  - pose proof (first_position_spec (fun f => pages + 1 <=? f.2) (free st)) as Hpos.
    destruct (position _ (free st)) as [i|]; [|done]. destruct Hpos as ([off n] & Hi & Hn%Z.leb_le). rewrite Hi. cbn in Hn.
    split_and!; try done. replace (KVA_BASE + off - KVA_BASE) with off by ring. unfold spans in *. cbn [live free set_free cursor].
    destruct (Z.eqb_spec n (pages + 1)) as [->|Hne].
    + eapply layout_perm; [|exact HL]. rewrite (swap_remove_perm i (free st) _ Hi) at 1. by rewrite Permutation_middle.
    + pose proof (take_drop_middle (free st) i _ Hi) as Ef. rewrite insert_take_drop by (by eapply lookup_lt_Some).
      eapply layout_perm; [|apply (layout_split _ off n (pages + 1) ((span_of <$> live st) ++ take i (free st) ++ drop (S i) (free st))); [|lia]].
      * constructor. rewrite (app_assoc _ (take i (free st)) (_ :: _)), <- Permutation_middle, <- app_assoc. done.
      * eapply layout_perm; [|exact HL]. rewrite <- Ef at 1. rewrite !app_assoc. by rewrite <- Permutation_middle.
Qed.

(** ** The invariant *)
Section invariant.
Context {T : Type} `{PageTable T}.
Notation world := (world T).

(** The address is page [i] of the mapping. *)
Definition page_of (r : Region) (a : Z) : Prop := exists i, (Z.of_nat i < r_pages r) /\ a = va_of (va r) i.

Record kva_ok (st : State) (t : T) : Prop := {
  ko_layout : layout (cursor st) (spans st);
  ko_live : Forall (fun r => 0 < r_pages r) (live st);
  ko_entries : forall a, in_window a = true -> (pte t a <> None <-> exists r, r ∈ live st /\ page_of r a);
  ko_mapped : mapped_pages st = foldr Z.add 0 (r_pages <$> live st) }.

(** The page number of an address of a span. *)
Lemma span_page v n i : (PAGE_SIZE | v - KVA_BASE) -> Z.of_nat i < n -> (va_of v i - KVA_BASE) / PAGE_SIZE ∈ span_pages (v - KVA_BASE, n).
Proof.
  intros [q Hq] Hi. apply elem_of_seqZ. cbn [fst snd]. unfold va_of.
  replace (v + Z.of_nat i * PAGE_SIZE - KVA_BASE) with ((v - KVA_BASE) + Z.of_nat i * PAGE_SIZE) by ring. rewrite Z.div_add by done. lia.
Qed.

Lemma owned_elem p f l : f ∈ l -> p ∈ span_pages f -> p ∈ owned l.
Proof. intros Hf Hp. apply list_elem_of_In, in_flat_map. exists f. by rewrite <- !list_elem_of_In. Qed.

Lemma owned_in_window c l a : layout c l -> (a - KVA_BASE) / PAGE_SIZE ∈ owned l -> in_window a = true.
Proof.
  intros [[_ Hc] _ _ HB] Hp. rewrite Forall_forall in HB. apply HB in Hp. unfold in_window.
  pose proof (Z.div_mod (a - KVA_BASE) PAGE_SIZE ltac:(done)). pose proof (Z.mod_pos_bound (a - KVA_BASE) PAGE_SIZE ltac:(done)).
  pose proof (Z.mul_div_le c PAGE_SIZE ltac:(done)). unfold PAGE_SIZE in *. lia.
Qed.

(** Two spans of a layout share no page. *)
Lemma layout_apart c f g l p : layout c (f :: l) -> g ∈ l -> p ∈ span_pages f -> p ∈ span_pages g -> False.
Proof. intros [_ _ HN _] Hg Hp Hq. apply NoDup_app in HN as (_ & HN & _). apply (HN p Hp). by eapply owned_elem. Qed.

Lemma span_live st r : r ∈ live st -> span_of r ∈ spans st.
Proof. intros Hr. apply elem_of_app. left. by apply list_elem_of_fmap_2. Qed.

Lemma span_aligned c l v n : layout c l -> (v - KVA_BASE, n) ∈ l -> (PAGE_SIZE | v - KVA_BASE).
Proof. intros [_ HA _ _] Hin. rewrite Forall_forall in HA. by apply HA in Hin as [Hd _]. Qed.

Lemma page_in_span r a : (PAGE_SIZE | va r - KVA_BASE) -> page_of r a -> (a - KVA_BASE) / PAGE_SIZE ∈ span_pages (span_of r).
Proof. intros Hd (i & Hi & ->). apply span_page; [done|]. lia. Qed.

(** A range that is nobody's has no entries. *)
Lemma fresh_range st t st' v n i : kva_ok st t -> live st' = live st -> layout (cursor st') ((v - KVA_BASE, n) :: spans st') -> Z.of_nat i < n ->
  in_window (va_of v i) = true /\ pte t (va_of v i) = None.
Proof.
  intros Hok Hlive HL Hi. pose proof (span_aligned _ _ v n HL ltac:(by left)) as Hd. pose proof (span_page v n i Hd Hi) as Hp.
  assert (in_window (va_of v i) = true) as Hw by (eapply owned_in_window; [exact HL|]; eapply owned_elem; [by left|exact Hp]).
  split; [done|]. destruct (pte t (va_of v i)) as [e|] eqn:Ee; [|done]. exfalso.
  destruct (proj1 (ko_entries st t Hok _ Hw)) as (r & Hr & j & Hj & Ea); [by rewrite Ee|].
  assert (span_of r ∈ spans st') as Hs by (apply span_live; by rewrite Hlive).
  assert (span_of r ∈ (v - KVA_BASE, n) :: spans st') as Hs' by by right.
  eapply layout_apart; [exact HL|exact Hs|exact Hp|]. rewrite Ea. apply page_in_span; [by eapply span_aligned|]. by exists j.
Qed.
(** ** Mapping *)
Lemma map_loop_total frames f v fl ks t : (forall i, i ∈ ks -> frames i = Some (f i)) ->
  map_loop frames v fl ks t = let '(o, t) := map_pages (fun i => page_down (f i)) v fl ks t in
    (match o with None => Mapped | Some i => NoEntry i end, t).
Proof.
  revert t. induction ks as [|i ks IH]; intros t Hf; [done|]. cbn [map_loop map_pages]. rewrite (Hf i) by (by left).
  destruct (map_page (va_of v i) (page_down (f i)) fl t) as [[|] t1]; [|done]. apply IH. intros j Hj. apply Hf. by right.
Qed.

Lemma page_of_seq r a : page_of r a <-> a ∈ va_of (va r) <$> seq 0 (Z.to_nat (r_pages r)).
Proof.
  rewrite list_elem_of_fmap. split; [intros (i & Hi & ->)|intros (i & -> & Hi%elem_of_seq)]; exists i; [rewrite elem_of_seq|]; split; try done; lia.
Qed.

(** A new mapping among the old ones. *)
Definition mapped_at (v pages : Z) (f : nat -> Z) (fl : Z) (t t' : T) : Prop :=
  (forall i, Z.of_nat i < pages -> pte t (va_of v i) = None /\ pte t' (va_of v i) = Some (page_down (f i), fl))
  /\ (forall i, Z.of_nat i <= pages -> in_window (va_of v i) = true) /\ pte t' (va_of v (Z.to_nat pages)) = None
  /\ forall a, ~ page_of (mkRegion v pages) a -> pte t' a = pte t a.

Lemma install_range st st' f v pages fl (w : world) : kva_ok st (pt w) -> live st' = live st -> 0 < pages ->
  layout (cursor st') ((v - KVA_BASE, pages + 1) :: spans st') ->
  exists ok t', install (fun i => page_down (f i)) v fl (Z.to_nat pages) w = (ok, set_pt t' w) /\
    if ok then mapped_at v pages f fl (pt w) t' else forall a, pte t' a = pte (pt w) a.
Proof.
  intros Hok Hlive Hp HL. assert (forall i, Z.of_nat i < pages + 1 -> in_window (va_of v i) = true /\ pte (pt w) (va_of v i) = None) as Hf.
  { intros i Hi. by apply (fresh_range st (pt w) st' v (pages + 1)). }
  destruct (install_spec (fun i => page_down (f i)) v fl (Z.to_nat pages) w) as (ok & t' & E & Hpte); [intros i Hi; apply Hf; lia|].
  exists ok, t'. split; [done|]. destruct ok; [|done].
  pose proof (page_of_seq (mkRegion v pages)) as Hpg. cbn [va r_pages] in Hpg.
  split_and!.
  - intros i Hi. split; [apply Hf; lia|]. rewrite Hpte, decide_True by (apply Hpg; by exists i).
    destruct (List.find _ (seq 0 (Z.to_nat pages))) as [j|] eqn:Ej; [by apply find_some in Ej as [_ ->%Z.eqb_eq%va_of_inj]|].
    eapply find_none in Ej; [|apply in_seq; split; [apply Nat.le_0_l|instantiate (1 := i); lia]]. by rewrite Z.eqb_refl in Ej.
  - intros i Hi. apply Hf. lia.
  - rewrite Hpte, decide_False; [apply Hf; lia|]. intros (i & Hi & Ei%va_of_inj)%Hpg. cbn in Hi. lia.
  - intros a Ha. rewrite Hpte, decide_False; [done|]. by rewrite <- Hpg.
Qed.
#[local] Instance page_of_dec r a : Decision (page_of r a).
Proof. destruct (decide (a ∈ va_of (va r) <$> seq 0 (Z.to_nat (r_pages r)))) as [Hin|Hn]; [left|right]; by rewrite page_of_seq. Defined.

Lemma kva_ok_mapped st st' v pages f fl t t' : kva_ok st t -> live st' = live st -> mapped_pages st' = mapped_pages st -> 0 < pages ->
  layout (cursor st') ((v - KVA_BASE, pages + 1) :: spans st') -> mapped_at v pages f fl t t' ->
  kva_ok (set_live (live st' ++ [mkRegion v pages]) (mapped_pages st' + pages) st') t'.
Proof.
  intros [_ K2 K3 K4] Hlive Hmp Hp HL (M1 & _ & _ & M2). split; cbn [live free cursor mapped_pages set_live].
  - eapply layout_perm; [|exact HL]. unfold spans. cbn [live free set_live]. rewrite fmap_app, <- app_assoc. cbn [fmap list_fmap app].
    by rewrite <- Permutation_middle.
  - rewrite Hlive. apply Forall_app. split; [done|]. by constructor.
  - intros a Ha. destruct (decide (page_of (mkRegion v pages) a)) as [Hn|Hn].
    + split; intros _; [exists (mkRegion v pages); split; [set_solver|done]|].
      destruct Hn as (i & Hi & ->). cbn [va r_pages] in *. by destruct (M1 i Hi) as [_ ->].
    + rewrite M2, K3, Hlive by done. split; intros (r & Hr & Hra); exists r; (split; [|done]); [set_solver|].
      apply elem_of_app in Hr as [Hr|Hr]; [done|]. apply list_elem_of_singleton in Hr. by subst.
  - rewrite Hmp, Hlive, K4, fmap_app, foldr_app. cbn. clear. induction (live st) as [|r l IH]; cbn; lia.
Qed.

Lemma kva_ok_freed st st' v pages t t' : kva_ok st t -> live st' = live st -> mapped_pages st' = mapped_pages st ->
  layout (cursor st') ((v - KVA_BASE, pages + 1) :: spans st') -> (forall a, pte t' a = pte t a) ->
  kva_ok (set_free (free st' ++ [(v - KVA_BASE, pages + 1)]) st') t'.
Proof.
  intros [_ K2 K3 K4] Hlive Hmp HL Hpt. split; cbn [live free cursor mapped_pages set_free]; rewrite ?Hlive, ?Hmp; try done.
  - eapply layout_perm; [|exact HL]. unfold spans. cbn [live free set_free]. rewrite app_assoc. by rewrite <- Permutation_cons_append.
  - intros a Ha. by rewrite Hpt, K3.
Qed.

Lemma map_frames_spec frames f pages mode st (w : world) :
  kva_ok st (pt w) -> 0 <= pages -> (forall i, Z.of_nat i < pages -> frames i = Some (f i)) ->
  let '(r, st', w') := map_frames frames pages mode st w in
  kva_ok st' (pt w') /\
  match r with
  | Some v => live st' = live st ++ [mkRegion v pages] /\ 0 < pages /\ mapped_at v pages f (mode_flags mode) (pt w) (pt w')
  | None => live st' = live st /\ forall a, pte (pt w') a = pte (pt w) a
  end.
Proof.
  intros Hok Hp Hf. unfold map_frames. destruct (Z.eqb_spec pages 0) as [|Hne]; [done|]. destruct (negb (ready st)); [done|].
  pose proof (alloc_range_spec pages st (ko_layout _ _ Hok) ltac:(lia)) as HA. destruct (alloc_range pages st) as [[v|] st']; [|by subst].
  destruct HA as (A1 & A2 & _ & A3). destruct (install_range st st' f v pages (mode_flags mode) w Hok A1 ltac:(lia) A3) as (ok & t' & E & Hres).
  rewrite (map_loop_total frames f) by (intros i Hi%elem_of_seq; apply Hf; lia). unfold install in E.
  destruct (map_pages _ v (mode_flags mode) (seq 0 (Z.to_nat pages)) (pt w)) as [[i|] t1]; injection E as <- Et; cbn [set_pt pt] in Et.
  - subst t'. unfold unmap_range. cbn [emit set_pt pt]. split; [by apply (kva_ok_freed st st' v pages (pt w))|done].
  - subst t'. cbn [set_pt pt]. split; [eapply kva_ok_mapped; try done; lia|]. cbn [live set_live]. rewrite A1. split_and!; try done. lia.
Qed.

(** ** Unmapping *)
Lemma iounmap_spec v st (w : world) : kva_ok st (pt w) ->
  let '(ok, st', w') := iounmap v st w in
  kva_ok st' (pt w') /\
  if ok then exists r, live st ≡ₚ r :: live st' /\ inside v r = true /\
      forall a, pte (pt w') a = if decide (page_of r a) then None else pte (pt w) a
  else st' = st /\ w' = w /\ Forall (fun r => inside v r = false) (live st).
Proof.
  intros Hok. unfold iounmap. pose proof (first_position_spec (inside v) (live st)) as Hpos.
  destruct (position (inside v) (live st)) as [i|]; [|done]. destruct Hpos as (r & Hi & Hin). rewrite Hi.
  pose proof (swap_remove_perm i _ r Hi) as HP. set (l' := swap_remove i (live st)) in *. cbn [set_free set_live live free].
  assert (forall a, pte (unmap_pages (va r) (seq 0 (Z.to_nat (r_pages r))) (pt w)) a = if decide (page_of r a) then None else pte (pt w) a) as Hpt.
  { intros a. rewrite unmap_pages_pte. destruct (decide (page_of r a)) as [D|D]; rewrite page_of_seq in D; by case_decide. }
  split; [|by exists r]. unfold unmap_range. cbn [emit set_pt pt]. destruct Hok as [K1 K2 K3 K4].
  split; cbn [live free cursor mapped_pages set_free set_live].
  - eapply layout_perm; [|exact K1]. unfold spans. cbn [live free]. rewrite HP at 1. unfold l'. simpl. rewrite app_assoc. apply Permutation_cons_append.
  - rewrite HP in K2. by apply Forall_cons in K2 as [_ K2].
  - intros a Ha. rewrite Hpt. assert (layout (cursor st) (span_of r :: (span_of <$> l') ++ free st)) as HL.
    { eapply layout_perm; [|exact K1]. unfold spans. by rewrite HP at 1. }
    destruct (decide (page_of r a)) as [D|D].
    + split; [done|]. intros (r' & Hr' & Hpa). exfalso.
      assert (span_of r' ∈ (span_of <$> l') ++ free st) as Hs by (apply elem_of_app; left; by apply list_elem_of_fmap_2).
      eapply (layout_apart _ _ _ _ ((a - KVA_BASE) / PAGE_SIZE) HL Hs).
      * apply page_in_span; [|done]. eapply span_aligned; [exact HL|by left].
      * apply page_in_span; [|done]. eapply span_aligned; [exact HL|by right].
    + rewrite K3 by done. split; intros (r' & Hr' & Hpa); exists r'; (split; [|done]); [|rewrite HP; by right].
      rewrite HP in Hr'. by apply elem_of_cons in Hr' as [->|Hr'].
  - rewrite K4. assert (forall l k : list Region, l ≡ₚ k -> foldr Z.add 0 (r_pages <$> l) = foldr Z.add 0 (r_pages <$> k)) as Hsum.
    { clear. induction 1; cbn; lia. }
    rewrite (Hsum _ _ HP). cbn. lia.
Qed.

(** ** Device mappings *)
Lemma inside_page x r : (PAGE_SIZE | va r) -> inside x r = true -> is_u64 x -> page_of r (page_down x).
Proof.
  intros [q Hq] Hin Hx. unfold inside in Hin. destruct (page_down_spec x Hx) as ([p Hp] & Hd & Hd').
  exists (Z.to_nat (p - q)). unfold va_of. unfold PAGE_SIZE in *. lia.
Qed.

Lemma live_aligned st t r : kva_ok st t -> r ∈ live st -> (PAGE_SIZE | va r).
Proof.
  intros Hok Hr. pose proof (span_aligned _ _ _ _ (ko_layout _ _ Hok) (span_live st r Hr)) as [q Hq].
  exists (q + KVA_BASE / PAGE_SIZE). change KVA_BASE with (KVA_BASE / PAGE_SIZE * PAGE_SIZE) in Hq at 1. lia.
Qed.

Lemma inside_unique st t x r r' : kva_ok st t -> is_u64 x -> r ∈ live st -> r' ∈ live st -> inside x r = true -> inside x r' = true -> r = r'.
Proof.
  intros Hok Hx Hr Hr' Hi Hi'. assert (r = r' \/ exists l', live st ≡ₚ r :: l' /\ r' ∈ l') as [?|(l' & HP & Hin)]; [|done|].
  { apply list_elem_of_split in Hr as (l1 & l2 & E). rewrite E in Hr'.
    assert (r = r' \/ r' ∈ l1 ++ l2) as [?|Hin] by set_solver; [by left|right]. exists (l1 ++ l2). split; [|done]. rewrite E. by rewrite Permutation_middle. }
  exfalso. pose proof (layout_perm (cursor st) (spans st) (span_of r :: (span_of <$> l') ++ free st) ltac:(unfold spans; by rewrite HP at 1) (ko_layout _ _ Hok)) as HL.
  eapply (layout_apart _ _ (span_of r') _ ((page_down x - KVA_BASE) / PAGE_SIZE) HL); [apply elem_of_app; left; by apply list_elem_of_fmap_2| |].
  - apply page_in_span; [by eapply span_aligned; [exact (ko_layout _ _ Hok)|apply span_live]|]. apply inside_page; [by eapply live_aligned|done|done].
  - apply page_in_span; [by eapply span_aligned; [exact (ko_layout _ _ Hok)|apply span_live]|]. apply inside_page; [by eapply live_aligned|done|done].
Qed.

Lemma page_down_in x p : is_u64 x -> p * PAGE_SIZE <= x < p * PAGE_SIZE + PAGE_SIZE -> page_down x = p * PAGE_SIZE.
Proof. intros Hx Hp. destruct (page_down_spec x Hx) as ([q Hq] & Hd & Hd'). unfold PAGE_SIZE in *. lia. Qed.

(** The byte [k] of a device range is at the same offset of its page. *)
Lemma device_byte v phys pages fl (t t' : T) k : mapped_at v pages (fun i => page_down phys + Z.of_nat i * PAGE_SIZE) fl t t' ->
  (PAGE_SIZE | v) -> is_u64 phys -> 0 <= k -> phys + k < 2 ^ 64 -> phys - page_down phys + k < pages * PAGE_SIZE ->
  pte t' (page_down (v + (phys - page_down phys) + k)) = Some (page_down (phys + k), fl) /\ is_u64 (v + (phys - page_down phys) + k).
Proof.
  intros (M1 & Hw & _ & _) [q ->] Hphys Hk Hku Hp. destruct (page_down_spec phys Hphys) as ([b Hb] & Hb1 & Hb2). rewrite Hb in *.
  set (o := phys - b * PAGE_SIZE + k) in *. set (i := Z.to_nat (o / PAGE_SIZE)).
  pose proof (Z.div_mod o PAGE_SIZE ltac:(done)) as Ed. pose proof (Z.mod_pos_bound o PAGE_SIZE ltac:(done)) as Em.
  assert (Z.of_nat i = o / PAGE_SIZE) as Ei by (unfold i; rewrite Z2Nat.id; [done|apply Z.div_pos; [lia|done]]). rewrite <- Ei in Ed.
  assert (Z.of_nat i < pages) as Hi by (unfold PAGE_SIZE in *; lia). unfold is_u64 in *.
  pose proof (Hw i ltac:(lia)) as Hwi. unfold in_window, va_of, KVA_BASE in Hwi. change KVA_SIZE with (2 ^ 38) in Hwi.
  destruct (M1 i Hi) as [_ Mi]. unfold va_of in Mi.
  assert (0 <= q * PAGE_SIZE + (phys - b * PAGE_SIZE) + k < 2 ^ 64) as Hx by (unfold PAGE_SIZE in *; lia). split; [|done].
  rewrite (page_down_in _ (q + Z.of_nat i)) by (unfold is_u64, PAGE_SIZE in *; lia).
  replace ((q + Z.of_nat i) * PAGE_SIZE) with (q * PAGE_SIZE + Z.of_nat i * PAGE_SIZE) by ring. rewrite Mi.
  rewrite (page_down_in (phys + k) (b + Z.of_nat i)) by (unfold is_u64, PAGE_SIZE in *; lia).
  rewrite (page_down_in (b * PAGE_SIZE + _) (b + Z.of_nat i)) by (unfold is_u64, PAGE_SIZE in *; lia). done.
Qed.

Lemma device_pages phys len : is_u64 phys -> 0 < len -> phys + len + (PAGE_SIZE - 1) < 2 ^ 64 ->
  let pages := (page_down (phys + len + (PAGE_SIZE - 1)) - page_down phys) / PAGE_SIZE in
  0 < pages /\ phys + len <= page_down phys + pages * PAGE_SIZE.
Proof.
  intros Hphys Hlen He. cbn zeta. destruct (page_down_spec phys Hphys) as ([b Hb] & Hb1 & Hb2).
  destruct (page_down_spec (phys + len + (PAGE_SIZE - 1))) as ([p Hp] & Hp1 & Hp2); [unfold is_u64, PAGE_SIZE in *; lia|].
  rewrite Hb, Hp in *. replace (p * PAGE_SIZE - b * PAGE_SIZE) with ((p - b) * PAGE_SIZE) by ring. rewrite Z.div_mul by done.
  unfold PAGE_SIZE in *. lia.
Qed.

(** Removing the newest mapping leaves the entries there were before it. *)
Lemma unmap_newest v pages f fl st st' x (w w' : world) :
  kva_ok st' (pt w') -> live st' = live st ++ [mkRegion v pages] -> mapped_at v pages f fl (pt w) (pt w') -> is_u64 x -> inside x (mkRegion v pages) = true ->
  exists st'' w'', iounmap x st' w' = (true, st'', w'') /\ kva_ok st'' (pt w'') /\ live st'' ≡ₚ live st /\ forall a, pte (pt w'') a = pte (pt w) a.
Proof.
  intros Hok Hlive (M1 & _ & _ & M2) Hx Hin. pose proof (iounmap_spec x st' w' Hok) as Hs.
  destruct (iounmap x st' w') as [[[|] st''] w'']; destruct Hs as [Hok' Hs].
  - destruct Hs as (r & HP & Hr & Hpt). assert (r = mkRegion v pages) as ->.
    { eapply (inside_unique st' (pt w') x); try done; [rewrite HP; by left|rewrite Hlive; set_solver]. }
    exists st'', w''. split_and!; try done.
    + rewrite Hlive, <- Permutation_cons_append in HP. by apply Permutation_cons_inv in HP.
    + intros a. rewrite Hpt. destruct (decide _) as [D|D]; [|by apply M2]. destruct D as (i & Hi & ->). cbn [va r_pages] in *. by destruct (M1 i Hi) as [-> _].
  - destruct Hs as (_ & _ & Hs). rewrite Hlive, Forall_app in Hs. destruct Hs as [_ [Hs _]%Forall_cons]. congruence.
Qed.


(** ** Every history *)
Inductive op := OpIoremap (phys len : Z) (mode : CacheMode) | OpVmap (frames : list Z) (mode : CacheMode) | OpIounmap (v : Z).
Definition op_ok (o : op) : Prop := match o with OpIoremap phys len _ => is_u64 phys /\ is_u64 len | _ => True end.
Definition run_op (s : State * world) (o : op) : State * world :=
  match o with
  | OpIoremap phys len mode => let '(_, st, w) := ioremap phys len mode s.1 s.2 in (st, w)
  | OpVmap frames mode => let '(_, st, w) := vmap frames mode s.1 s.2 in (st, w)
  | OpIounmap v => let '(_, st, w) := iounmap v s.1 s.2 in (st, w)
  end.

(** What a state keeps, and what no operation touches. *)
Definition good (w0 : world) (s : State * world) : Prop :=
  kva_ok s.1 (pt s.2) /\ forall a, in_window a = false -> pte (pt s.2) a = pte (pt w0) a.

Lemma map_frames_good w0 frames f pages mode st w : good w0 (st, w) -> 0 <= pages -> (forall i, Z.of_nat i < pages -> frames i = Some (f i)) ->
  let '(_, st', w') := map_frames frames pages mode st w in good w0 (st', w').
Proof.
  intros [Hok Hout] Hp Hf. pose proof (map_frames_spec frames f pages mode st w Hok Hp Hf) as Hm. cbn [fst snd] in *.
  destruct (map_frames frames pages mode st w) as [[[v|] st'] w']; destruct Hm as [Hok' Hm]; (split; [done|]); intros a Ha; cbn [fst snd].
  - destruct Hm as (_ & _ & _ & Hw & _ & Hm). rewrite Hm; [by apply Hout|]. intros (i & Hi & ->). cbn [va r_pages] in *. by rewrite Hw in Ha by lia.
  - destruct Hm as [_ Hm]. rewrite Hm. by apply Hout.
Qed.

Lemma run_op_good w0 s o : op_ok o -> good w0 s -> good w0 (run_op s o).
Proof.
  destruct s as [st w]. intros Ho Hg. destruct o as [phys len mode|frames mode|v]; cbn [run_op fst snd].
  - destruct Ho as [H1' H2']. unfold ioremap. destruct (Z.eqb_spec len 0) as [|Hne]; [done|]. unfold checked_add.
    destruct (Z.ltb_spec (phys + len) (2 ^ 64)) as [Hl|]; [|done]. cbn [mbind option_bind].
    destruct (Z.ltb_spec (phys + len + (PAGE_SIZE - 1)) (2 ^ 64)) as [He|]; [|done].
    destruct (device_pages phys len H1' ltac:(unfold is_u64 in *; lia) He) as [Hp _]. set (pages := _ / PAGE_SIZE) in *.
    pose proof (map_frames_good w0 (fun i => if Z.of_nat i <? pages then Some (page_down phys + Z.of_nat i * PAGE_SIZE) else None)
      (fun i => page_down phys + Z.of_nat i * PAGE_SIZE) pages mode st w Hg ltac:(lia)) as Hm.
    specialize (Hm ltac:(intros i Hi; cbn; by rewrite (proj2 (Z.ltb_lt _ _) Hi))). by destruct (map_frames _ pages mode st w) as [[r st'] w'].
  - unfold vmap. pose proof (map_frames_good w0 (fun i => frames !! i) (fun i => default 0 (frames !! i)) (Z.of_nat (length frames)) mode st w Hg ltac:(lia)) as Hm.
    specialize (Hm ltac:(intros i Hi; destruct (lookup_lt_is_Some_2 frames i) as [x ->]; [lia|done])). by destruct (map_frames _ _ mode st w) as [[r st'] w'].
  - destruct Hg as [Hok Hout]. cbn [fst snd] in *. pose proof (iounmap_spec v st w Hok) as Hs.
    destruct (iounmap v st w) as [[[|] st'] w']; destruct Hs as [Hok' Hs]; (split; [done|]); intros a Ha; cbn [fst snd].
    + destruct Hs as (r & HP & _ & Hpt). rewrite Hpt. destruct (decide _) as [D|D]; [|by apply Hout]. rewrite <- Hout by done.
      destruct (pte (pt w) a) eqn:Ea; [|done]. assert (in_window a = true); [|congruence]. eapply owned_in_window; [exact (ko_layout _ _ Hok)|].
      eapply owned_elem; [apply span_live; rewrite HP; by left|]. apply page_in_span; [|done].
      eapply span_aligned; [exact (ko_layout _ _ Hok)|]. apply span_live. rewrite HP. by left.
    + destruct Hs as (-> & -> & _). by apply Hout.
Qed.

Lemma spans_apart c f g l : layout c (f :: l) -> g ∈ l -> f.1 + f.2 * PAGE_SIZE <= g.1 \/ g.1 + g.2 * PAGE_SIZE <= f.1.
Proof.
  intros HL Hg. pose proof (lo_aligned _ _ HL) as [[[p Hp] Hf] HA]%Forall_cons. rewrite Forall_forall in HA. destruct (HA g Hg) as [[q Hq] Hn].
  destruct (Z.le_gt_cases (p + f.2) q); [left; unfold PAGE_SIZE in *; lia|]. destruct (Z.le_gt_cases (q + g.2) p); [right; unfold PAGE_SIZE in *; lia|].
  exfalso. apply (layout_apart c f g l (Z.max p q) HL Hg); apply elem_of_seqZ; rewrite ?Hp, ?Hq, Z.div_mul by done; lia.
Qed.

Lemma kva_init_good probe (w : world) st0 w0 : (forall a, in_window a = true -> pte (pt w) a = None) ->
  init probe boot_state w = (true, st0, w0) -> good w (st0, w0).
Proof.
  intros Hempty Hinit. unfold init in Hinit. destruct probe as [p|]; [|done]. destruct (map_page KVA_BASE p _ (pt w)) as [ok t] eqn:Em. destruct ok; [|done].
  injection Hinit as <- <-. pose proof (pte_map _ _ _ _ _ Em) as Hpm.
  assert (forall a, pte (unmap_page KVA_BASE t) a = pte (pt w) a) as Hu.
  { intros a. rewrite pte_unmap, Hpm. destruct (decide (a = KVA_BASE)) as [->|]; [by rewrite Hempty|done]. }
  split; [|intros a Ha; apply Hu]. split; cbn [live free cursor mapped_pages fst snd].
  - split; [split; [by exists 1|done]|constructor|constructor|constructor].
  - constructor.
  - intros a Ha. cbn [emit set_pt pt]. rewrite Hu, Hempty by done. split; [done|]. by intros (r & ?%elem_of_nil & _).
  - done.
Qed.

(** C15: The window of device mappings is sound in every history.  After any
    sequence of [ioremap], [vmap] and [iounmap] calls on an initialised, empty
    window: an address of the window has a page-table entry exactly if it is a
    page of a live mapping, two live mappings are always separated by an
    unmapped guard page, the count of mapped pages is exact, and no entry
    outside the window has changed. *)
Theorem kva_reachable probe (w : world) st0 w0 ops :
  (forall a, in_window a = true -> pte (pt w) a = None) -> init probe boot_state w = (true, st0, w0) -> Forall op_ok ops ->
  let '(st, w') := foldl run_op (st0, w0) ops in
  (forall a, in_window a = true -> (pte (pt w') a <> None <-> exists r, r ∈ live st /\ page_of r a))
  /\ (forall i j r r', i <> j -> live st !! i = Some r -> live st !! j = Some r' ->
        va r + (r_pages r + 1) * PAGE_SIZE <= va r' \/ va r' + (r_pages r' + 1) * PAGE_SIZE <= va r)
  /\ mapped_pages st = foldr Z.add 0 (r_pages <$> live st)
  /\ forall a, in_window a = false -> pte (pt w') a = pte (pt w) a.
Proof.
  intros Hempty Hinit Hops. pose proof (kva_init_good probe w st0 w0 Hempty Hinit) as Hg.
  assert (good w (foldl run_op (st0, w0) ops)) as Hg'.
  { clear Hinit. revert st0 w0 Hg. induction Hops as [|o ops Ho _ IH]; intros st0 w0 Hg; [done|]. cbn [foldl].
    destruct (run_op (st0, w0) o) as [st1 w1] eqn:E. apply IH. rewrite <- E. by apply run_op_good. }
  destruct (foldl run_op (st0, w0) ops) as [st w']. destruct Hg' as [[K1 K2 K3 K4] Hout]. cbn [fst snd] in *. split_and!; try done.
  intros i j r r' Hij Hi Hj. pose proof (delete_Permutation _ _ _ Hi) as HP. 
  assert (layout (cursor st) (span_of r :: (span_of <$> delete i (live st)) ++ free st)) as HL.
  { eapply layout_perm; [|exact K1]. unfold spans. by rewrite HP at 1. }
  assert (r' ∈ delete i (live st)) as Hin.
  { destruct (decide (j < i)%nat) as [|Hge].
    - apply (list_elem_of_lookup_2 _ j). by rewrite list_lookup_delete_lt.
    - apply (list_elem_of_lookup_2 _ (j - 1)). rewrite list_lookup_delete_ge by lia. by replace (S (j - 1)) with j by lia. }
  destruct (spans_apart _ _ (span_of r') _ HL) as [Ha|Ha]; [apply elem_of_app; left; by apply list_elem_of_fmap_2|left|right]; cbn in Ha; lia.
Qed.
End invariant.

(** ** Two devices *)
Definition kva_world : world (gmap Z (Z * Z)) := mkWorld ∅ ∅ 0 [].
Definition kva_start : bool * State * world (gmap Z (Z * Z)) := init (Some 4096) boot_state kva_world.
Definition kva_ops : list op := [OpIoremap 0xfee00010 5000 Uncached; OpVmap [8192; 4096] WriteBack; OpIounmap (KVA_BASE + 8000)].

Lemma kva_world_empty a : in_window a = true -> pte (pt kva_world) a = None.
Proof. intros _. change ((∅ : gmap Z (Z * Z)) !! a = None). by rewrite lookup_empty. Qed.

Lemma kva_reachable_witness : exists st w', foldl run_op (kva_start.1.2, kva_start.2) kva_ops = (st, w')
  /\ live st = [mkRegion (KVA_BASE + 16384) 2] /\ pte (pt w') (KVA_BASE + 16384) <> None /\ pte (pt w') (KVA_BASE + 8192) = None.
Proof.
  pose proof (kva_reachable (Some 4096) kva_world kva_start.1.2 kva_start.2 kva_ops kva_world_empty ltac:(vm_compute; reflexivity)) as Hk.
  specialize (Hk ltac:(repeat constructor; unfold is_u64; cbn; lia)).
  destruct (foldl run_op (kva_start.1.2, kva_start.2) kva_ops) as [st w'] eqn:E. exists st, w'. split; [reflexivity|].
  assert (live st = [mkRegion (KVA_BASE + 16384) 2]) as El by (change (live (st, w').1 = [mkRegion (KVA_BASE + 16384) 2]); rewrite <- E; vm_compute; reflexivity).
  destruct Hk as (Hk & _). split; [exact El|]. split.
  - apply Hk; [vm_compute; reflexivity|]. rewrite El. exists (mkRegion (KVA_BASE + 16384) 2). split; [by left|]. exists O. split; [cbn; lia|reflexivity].
  - destruct (pte (pt w') (KVA_BASE + 8192)) eqn:Ep; [|reflexivity]. exfalso. destruct (proj1 (Hk (KVA_BASE + 8192) ltac:(vm_compute; reflexivity))) as (r & Hr & i & Hi & Ea); [by rewrite Ep|].
    rewrite El in Hr. apply list_elem_of_singleton in Hr. subst r. unfold va_of, PAGE_SIZE in Ea. cbn [va] in Ea. lia.
Defined.

Lemma kva_start_ok : kva_ok kva_start.1.2 (pt kva_start.2).
Proof. refine (proj1 (kva_init_good (Some 4096) kva_world kva_start.1.2 kva_start.2 kva_world_empty _)). vm_compute. reflexivity. Qed.

