(* ===== verification/PartScan.v ===== *)
(** * Partition tables

    Models [src/drivers/src/partscan.rs], which reads MBR and GPT partition
    tables through a sector-read callback.  The callback is the argument [read]:
    [read lba n] is the [n] bytes at sector [lba], or [None] for an I/O error.
    GUIDs are their 16 bytes in disk order.  Every access is inside its buffer,
    whose length the callback is given, so nothing here can panic. *)
From Stdlib Require Import Sorting.Sorted.
From S2P Require Import Prelude Bytes.
#[local] Open Scope Z_scope.

Definition LINUX_FS_GUID : list Z := [0xAF; 0x3D; 0xC6; 0x0F; 0x83; 0x84; 0x72; 0x47; 0x8E; 0x79; 0x3D; 0x69; 0xD8; 0x47; 0x7D; 0xE4].
Definition LOG_GPT_GUID : list Z := [0x70; 0x74; 0x2B; 0x04; 0x02; 0x13; 0x61; 0x4E; 0x93; 0x47; 0xA0; 0x13; 0x0B; 0x27; 0x67; 0x54].
Definition MBR_LINUX : Z := 0x83.
Definition MBR_LOG : Z := 0xDA.
Definition MBR_PROTECTIVE : Z := 0xEE.
Definition GPT_MAX_ENTRIES : Z := 1024.

Inductive Table := NoTable | MbrTable (disk_sig : Z) | GptTable (disk_guid : list Z) (backup : bool).
Inductive PartType := TypeMbr (t : Z) | TypeGpt (g : list Z).
Inductive PartUuid := UuidMbr (disk_sig pno : Z) | UuidGpt (g : list Z).
Record Partition := mkPart { pno : Z; start_lba : Z; num_lbas : Z; ptype : PartType; uuid : PartUuid }.
Record ScanResult := mkResult { table : Table; parts : list Partition }.
Definition none : ScanResult := mkResult NoTable [].

Definition is_log (t : PartType) : bool := match t with TypeMbr t => t =? MBR_LOG | TypeGpt g => bool_decide (g = LOG_GPT_GUID) end.
Definition is_linux_fs (t : PartType) : bool := match t with TypeMbr t => t =? MBR_LINUX | TypeGpt g => bool_decide (g = LINUX_FS_GUID) end.
Definition aligned_4k (sector_size : Z) (p : Partition) : bool := wrap64 (start_lba p * sector_size) mod 4096 =? 0.

(** ** The text of a partition's identity *)
Definition hex (v : Z) : Z := if v <? 10 then 48 + v else 97 + v - 10.
Definition hex_byte (b : Z) : list Z := [hex (Z.shiftr b 4); hex (Z.land b 0xF)].
Definition ORDER : list nat := [3; 2; 1; 0; 5; 4; 7; 6; 8; 9; 10; 11; 12; 13; 14; 15]%nat.
Definition dash_before (i : nat) : list Z := if (i =? 4)%nat || (i =? 6)%nat || (i =? 8)%nat || (i =? 10)%nat then [45] else [].
Definition format (u : PartUuid) : list Z :=
  match u with
  | UuidMbr disk_sig pno =>
      List.map (fun i => hex (Z.land (Z.shiftr disk_sig (Z.of_nat i * 4)) 0xF)) (rev (seq 0 8)) ++ [45] ++ hex_byte (Z.land pno 0xFF)
  | UuidGpt g => flat_map (fun '(i, bi) => dash_before i ++ hex_byte (default 0 (g !! bi))) (zip (seq 0 16) ORDER)
  end.
Definition to_ascii_lowercase (a : Z) : Z := if (65 <=? a) && (a <=? 90) then a + 32 else a.
Definition matches (u : PartUuid) (s : list Z) : bool :=
  (length s =? length (format u))%nat && forallb (fun '(a, b) => to_ascii_lowercase a =? b) (zip s (format u)).

(** ** CRC-32 *)
Definition crc_bit (crc : Z) : Z :=
  let mask := wrap32 (- Z.land crc 1) in Z.lxor (Z.shiftr crc 1) (Z.land 0xEDB88320 mask).
Definition crc_byte (crc b : Z) : Z := Nat.iter 8 crc_bit (Z.lxor crc b).
Definition crc32 (data : list Z) : Z := Z.lxor 0xFFFFFFFF (foldl crc_byte 0xFFFFFFFF data).

(** ** Scanning *)
Definition le32 (b : list Z) (o : nat) : Z := from_le (slice o 4 b).
Definition le64 (b : list Z) (o : nat) : Z := from_le (slice o 8 b).
Definition byte (b : list Z) (i : nat) : Z := default 0 (b !! i).
Definition is_power_of_two (x : Z) : bool := (0 <? x) && (Z.land x (x - 1) =? 0).
(** [hc[16..20].fill(0)] *)
Definition clear_crc (h : list Z) : list Z := take 16 h ++ replicate 4 0 ++ drop 20 h.
Definition EFI_PART : list Z := [0x45; 0x46; 0x49; 0x20; 0x50; 0x41; 0x52; 0x54].

Section scan.
Context (read : Z -> Z -> option (list Z)).

Definition gpt_entry (arr : list Z) (esize first_usable last_usable : Z) (i : nat) : option Partition :=
  let e := slice (Z.to_nat (Z.of_nat i * esize)) 128 arr in
  let tguid := slice 0 16 e in
  if bool_decide (tguid = replicate 16 0) then None
  else
    let first := le64 e 32 in
    let last := le64 e 40 in
    if (last <? first) || (first <? first_usable) || (last_usable <? last) then None
    else Some (mkPart (Z.of_nat i + 1) first (wrap64 (last - first + 1)) (TypeGpt tguid) (UuidGpt (slice 16 16 e))).

Definition gpt_at (lba ss capacity : Z) (backup : bool) : option ScanResult :=
  h ← read lba ss;
  if negb (bool_decide (slice 0 8 h = EFI_PART)) then None
  else
    let hsize := le32 h 12 in
    if (hsize <? 92) || (ss <? hsize) then None
    else if negb (crc32 (clear_crc (take (Z.to_nat hsize) h)) =? le32 h 16) then None
    else if negb (le64 h 24 =? lba) then None
    else
      let first_usable := le64 h 40 in
      let last_usable := le64 h 48 in
      let disk_guid := slice 56 16 h in
      let entry_lba := le64 h 72 in
      let nent := le32 h 80 in
      let esize := le32 h 84 in
      let ecrc := le32 h 88 in
      if (nent =? 0) || (GPT_MAX_ENTRIES <? nent) then None
      else if (esize <? 128) || (4096 <? esize) || negb (is_power_of_two esize) then None
      else if last_usable <? first_usable then None
      else if negb (capacity =? 0) && ((capacity <=? last_usable) || (capacity <=? entry_lba)) then None
      else
        let bytes := nent * esize in
        let nsec := (bytes + ss - 1) / ss in
        arr ← read entry_lba (nsec * ss);
        if negb (crc32 (take (Z.to_nat bytes) arr) =? ecrc) then None
        else Some (mkResult (GptTable disk_guid backup)
                     (omap (gpt_entry arr esize first_usable last_usable) (seq 0 (Z.to_nat nent)))).

Definition mbr_entry (s0 : list Z) (capacity disk_sig : Z) (i : nat) : option Partition :=
  let o := (446 + 16 * i)%nat in
  let ptype := byte s0 (o + 4) in
  let start := le32 s0 (o + 8) in
  let num := le32 s0 (o + 12) in
  if (ptype =? 0) || (num =? 0) || (start =? 0) then None
  else if (ptype =? 0x05) || (ptype =? 0x0F) || (ptype =? 0x85) then None
  else if negb (capacity =? 0) && (capacity <? start + num) then None
  else Some (mkPart (Z.of_nat i + 1) start num (TypeMbr ptype) (UuidMbr disk_sig (Z.of_nat i + 1))).

Definition boot_indicators_ok (s0 : list Z) : bool :=
  forallb (fun i => let b := byte s0 (446 + 16 * i) in (b =? 0x00) || (b =? 0x80)) (seq 0 4).
Definition is_protective (s0 : list Z) : bool := existsb (fun i => byte s0 (446 + 16 * i + 4) =? MBR_PROTECTIVE) (seq 0 4).

Definition scan (sector_size capacity : Z) : ScanResult :=
  let ss := sector_size in
  if (ss <? 512) || (4096 <? ss) || negb (is_power_of_two ss) then none
  else
    match read 0 ss with
    | None => none
    | Some s0 =>
        if negb (byte s0 510 =? 0x55) || negb (byte s0 511 =? 0xAA) then none
        else if negb (boot_indicators_ok s0) then none
        else if is_protective s0 then
          match gpt_at 1 ss capacity false with
          | Some r => r
          | None =>
              if 1 <? capacity then match gpt_at (capacity - 1) ss capacity true with Some r => r | None => none end
              else none
          end
        else
          let disk_sig := le32 s0 440 in
          mkResult (MbrTable disk_sig) (omap (mbr_entry s0 capacity disk_sig) (seq 0 4))
    end.
End scan.

Example crc_check : crc32 [49; 50; 51; 52; 53; 54; 55; 56; 57] = 0xCBF43926.
Proof. reflexivity. Qed.

(** ** What a scan reports *)
(** A partition of a disk of [capacity] sectors, as its table describes it. *)
Definition described (t : Table) (p : Partition) : Prop :=
  match t with
  | NoTable => False
  | MbrTable sig => 0 < start_lba p /\ uuid p = UuidMbr sig (pno p) /\ pno p <= 4 /\
      exists ty, ptype p = TypeMbr ty /\ ty ∉ [0; 0x05; 0x0F; 0x85; MBR_PROTECTIVE]
  | GptTable _ _ => (exists g, ptype p = TypeGpt g /\ length g = 16%nat /\ g <> replicate 16 0)
      /\ exists u, uuid p = UuidGpt u /\ length u = 16%nat
  end.
Record part_ok (capacity : Z) (t : Table) (p : Partition) : Prop := {
  po_number : 1 <= pno p <= GPT_MAX_ENTRIES;
  po_start : 0 <= start_lba p;
  po_size : 1 <= num_lbas p;
  po_end : start_lba p + num_lbas p <= capacity;
  po_described : described t p }.

Lemma numbered_sorted (f : nat -> option Partition) n : (forall i p, f i = Some p -> pno p = Z.of_nat i + 1) ->
  forall k, StronglySorted Z.lt (pno <$> omap f (seq k n)).
Proof.
  intros Hf. induction n as [|n IH]; intros k; cbn [seq]; [constructor|]. cbn [omap list_omap].
  destruct (f k) as [p|] eqn:E; [|apply IH]. cbn [fmap list_fmap]. constructor; [apply IH|]. rewrite (Hf _ _ E).
  apply Forall_fmap, Forall_forall. intros q Hq. apply list_elem_of_omap in Hq as (j & Hj%elem_of_seq & Ej). cbn. rewrite (Hf _ _ Ej). lia.
Qed.

Lemma omap_Forall {A B} (P : B -> Prop) (f : A -> option B) l : (forall x y, x ∈ l -> f x = Some y -> P y) -> Forall P (omap f l).
Proof. intros Hf. apply Forall_forall. intros y (x & Hx & Hy)%list_elem_of_omap. by eapply Hf. Qed.

Definition disk_ok (read : Z -> Z -> option (list Z)) : Prop := forall lba n b, read lba n = Some b -> bytes_ok b /\ Z.of_nat (length b) = n.

Section reports.
Context (read : Z -> Z -> option (list Z)) (Hdisk : disk_ok read) (capacity : Z) (Hcap : 0 < capacity < 2 ^ 64).

Definition report_ok (r : ScanResult) : Prop :=
  Forall (part_ok capacity (table r)) (parts r) /\ StronglySorted Z.lt (pno <$> parts r).

Lemma none_ok : report_ok none.
Proof. split; constructor. Qed.

Lemma le64_u64 b o : bytes_ok b -> 0 <= le64 b o < 2 ^ 64.
Proof. intros Hb. exact (slice_bound o 8 b Hb). Qed.
Lemma le32_u32 b o : bytes_ok b -> 0 <= le32 b o < 2 ^ 32.
Proof. intros Hb. exact (slice_bound o 4 b Hb). Qed.

Lemma gpt_entry_ok arr esize fu lu i p t g b : bytes_ok arr -> 128 <= esize -> (Z.of_nat i + 1) * esize <= Z.of_nat (length arr) ->
  lu < capacity -> Z.of_nat i < GPT_MAX_ENTRIES -> t = GptTable g b ->
  gpt_entry arr esize fu lu i = Some p -> part_ok capacity t p.
Proof.
  intros Hb Hes Hin Hlu Hi -> E. unfold gpt_entry in E. set (e := slice (Z.to_nat (Z.of_nat i * esize)) 128 arr) in *.
  assert (length e = 128%nat) as He by (unfold e, slice; rewrite length_take, length_drop; lia).
  assert (bytes_ok e) as Hbe by by apply slice_bytes. case_bool_decide as Ht; [done|].
  pose proof (le64_u64 e 32 Hbe). pose proof (le64_u64 e 40 Hbe).
  destruct (Z.ltb_spec (le64 e 40) (le64 e 32)); [done|]. destruct (Z.ltb_spec (le64 e 32) fu); [done|]. destruct (Z.ltb_spec lu (le64 e 40)); [done|].
  injection E as <-. unfold wrap64. rewrite Z.mod_small by lia.
  split; cbn [pno start_lba num_lbas ptype uuid described]; try lia.
  split; eexists; (split; [done|]); unfold slice; by rewrite length_take, length_drop, He.
Qed.

Lemma gpt_entry_number arr esize fu lu i p : gpt_entry arr esize fu lu i = Some p -> pno p = Z.of_nat i + 1.
Proof. unfold gpt_entry. case_bool_decide; [done|]. destruct (_ || _); [done|]. by intros [= <-]. Qed.

Lemma gpt_at_ok lba ss backup r : 0 < ss -> gpt_at read lba ss capacity backup = Some r -> report_ok r.
Proof.
  intros Hss. unfold gpt_at. destruct (read lba ss) as [h|] eqn:Eh; [|done]. cbn [mbind option_bind]. destruct (Hdisk _ _ _ Eh) as [Hbh _].
  destruct (negb _); [done|]. destruct (_ || _); [done|]. destruct (negb _); [done|]. destruct (negb _); [done|].
  destruct ((le32 h 80 =? 0) || _) eqn:En; [done|]. destruct ((le32 h 84 <? 128) || _ || _) eqn:Ees; [done|].
  destruct (le64 h 48 <? le64 h 40); [done|]. destruct (negb (capacity =? 0) && _) eqn:Ec; [done|].
  set (nsec := (_ + ss - 1) / ss). destruct (read (le64 h 72) (nsec * ss)) as [arr|] eqn:Ea; [|done]. cbn [mbind option_bind].
  destruct (crc32 _ =? _); cbn [negb]; [|discriminate]. intros [= <-]. destruct (Hdisk _ _ _ Ea) as [Hba Hla].
  pose proof (Z.div_mod (le32 h 80 * le32 h 84 + ss - 1) ss ltac:(lia)) as Hdm. pose proof (Z.mod_pos_bound (le32 h 80 * le32 h 84 + ss - 1) ss Hss).
  assert (forall i p, i ∈ seq 0 (Z.to_nat (le32 h 80)) -> gpt_entry arr (le32 h 84) (le64 h 40) (le64 h 48) i = Some p ->
    part_ok capacity (GptTable (slice 56 16 h) backup) p) as Hent.
  { intros i p Hi%elem_of_seq Hp. rewrite !orb_false_iff, !Z.ltb_ge in Ees. rewrite orb_false_iff, Z.ltb_ge in En. destruct Ees as [[Ees _] _], En as [_ En].
    eapply (gpt_entry_ok arr (le32 h 84) (le64 h 40) (le64 h 48) i p); [done|done| | |lia|reflexivity|exact Hp].
    - rewrite Hla. fold nsec in Hdm. nia.
    - rewrite (proj2 (Z.eqb_neq capacity 0)) in Ec by lia. cbn [negb andb] in Ec. lia. }
  split; cbn [table parts].
  - apply omap_Forall. intros i p Hi Hp. by apply (Hent i p).
  - apply numbered_sorted. intros i p. apply gpt_entry_number.
Qed.
Lemma mbr_entry_ok s0 sig i p : bytes_ok s0 -> (i < 4)%nat -> is_protective s0 = false ->
  mbr_entry s0 capacity sig i = Some p -> part_ok capacity (MbrTable sig) p.
Proof.
  intros Hb Hi Hprot E. unfold mbr_entry in E. set (ty := byte s0 (446 + 16 * i + 4)) in *.
  assert (ty <> MBR_PROTECTIVE) as Hty.
  { intros Heq. unfold is_protective in Hprot. rewrite <- not_true_iff_false, existsb_exists in Hprot. apply Hprot.
    exists i. split; [apply in_seq; lia|by apply Z.eqb_eq]. }
  pose proof (le32_u32 s0 (446 + 16 * i + 8) Hb) as Hs. pose proof (le32_u32 s0 (446 + 16 * i + 12) Hb) as Hn.
  set (st := le32 s0 (446 + 16 * i + 8)) in *. set (nm := le32 s0 (446 + 16 * i + 12)) in *. clearbody st nm ty.
  destruct (_ || _) eqn:E1 in E; [done|]. destruct (_ || _) eqn:E2 in E; [done|]. destruct (_ && _) eqn:E3 in E; [done|]. injection E as <-.
  rewrite !orb_false_iff, !Z.eqb_neq in E1. rewrite !orb_false_iff, !Z.eqb_neq in E2.
  rewrite (proj2 (Z.eqb_neq capacity 0)) in E3 by lia. cbn [negb andb] in E3. unfold MBR_PROTECTIVE in *.
  split; cbn [pno start_lba num_lbas ptype uuid described]; unfold GPT_MAX_ENTRIES; [lia|lia|lia|lia|].
  split_and!; [lia|done|lia|]. exists ty. split; [done|]. rewrite !not_elem_of_cons. split_and!; first [apply not_elem_of_nil|unfold MBR_PROTECTIVE; lia].
Qed.

(** C18: A scan of a disk of known size reports only partitions that are on the
    disk.  Whatever the sectors hold, every reported partition has at least one
    sector and ends at or before the end of the disk, the numbers are strictly
    increasing, an MBR partition is neither empty, extended nor protective and
    has the identity of its disk and number, a GPT partition has a type, and a
    disk without a valid table reports nothing. *)
Theorem scan_reports sector_size : report_ok (scan read sector_size capacity).
Proof.
  unfold scan. destruct (_ || _ || _) eqn:Ess; [apply none_ok|]. rewrite !orb_false_iff, !Z.ltb_ge in Ess. destruct Ess as [[Hss _] _].
  destruct (read 0 sector_size) as [s0|] eqn:E0; [|apply none_ok].
  destruct (Hdisk _ _ _ E0) as [Hb _].
  destruct (negb (byte s0 510 =? 85) || _); [apply none_ok|]. destruct (negb (boot_indicators_ok s0)); [apply none_ok|].
  destruct (is_protective s0) eqn:Ep.
  - destruct (gpt_at read 1 _ _ _) as [r|] eqn:E1; [eapply gpt_at_ok; [|exact E1]; lia|].
    destruct (1 <? capacity); [|apply none_ok]. destruct (gpt_at read (capacity - 1) _ _ _) as [r|] eqn:E2; [|apply none_ok].
    apply (gpt_at_ok (capacity - 1) sector_size true r); [lia|exact E2].
  - split; cbn [table parts].
    + apply omap_Forall. intros i p Hi%elem_of_seq Hp. apply (mbr_entry_ok s0 _ i p); [exact Hb|lia|exact Ep|exact Hp].
    + apply numbered_sorted. intros i p. unfold mbr_entry. repeat (case_match; [done|]). by intros [= <-].
Qed.
End reports.

(** ** CRC-32 detects a changed byte *)
Definition is_u32 (x : Z) : Prop := 0 <= x < 2 ^ 32.
Definition POLY : Z := 0xEDB88320.

Lemma lxor_u32 a b : is_u32 a -> is_u32 b -> is_u32 (Z.lxor a b).
Proof.
  unfold is_u32. intros Ha Hb. assert (Z.lxor a b = Z.lxor a b mod 2 ^ 32) as ->; [|by apply Z.mod_pos_bound].
  rewrite <- Z.land_ones by lia. apply Z.bits_inj'. intros n Hn. rewrite Z.land_spec, Z.lxor_spec.
  destruct (Z.ltb_spec n 32); [rewrite Z.ones_spec_low by lia; by rewrite andb_true_r|].
  rewrite Z.ones_spec_high, <- (Z.mod_small a (2 ^ 32)), <- (Z.mod_small b (2 ^ 32)), !Z.mod_pow2_bits_high by lia. done.
Qed.

Lemma crc_bit_eq x : is_u32 x -> crc_bit x = if Z.odd x then Z.lxor (Z.shiftr x 1) POLY else Z.shiftr x 1.
Proof.
  intros _. unfold crc_bit. change 1 with (Z.ones 1) at 2. rewrite Z.land_ones, Z.pow_1_r, Zmod_odd by lia.
  destruct (Z.odd x); [done|]. apply Z.lxor_0_r.
Qed.

Lemma shiftr1_u32 x : is_u32 x -> is_u32 (Z.shiftr x 1) /\ Z.testbit (Z.shiftr x 1) 31 = false.
Proof.
  unfold is_u32. intros Hx. rewrite Z.shiftr_div_pow2, Z.pow_1_r by lia. split; [split; [apply Z.div_pos; lia|apply Z.div_lt_upper_bound; lia]|].
  rewrite Z.testbit_false, Z.div_div by lia. rewrite Z.div_small by lia. done.
Qed.

Lemma crc_bit_u32 x : is_u32 x -> is_u32 (crc_bit x).
Proof. intros Hx. rewrite crc_bit_eq by done. destruct (Z.odd x); [apply lxor_u32; [by apply shiftr1_u32|done]|by apply shiftr1_u32]. Qed.

Lemma crc_bit_inj x y : is_u32 x -> is_u32 y -> crc_bit x = crc_bit y -> x = y.
Proof.
  intros Hx Hy. rewrite !crc_bit_eq by done. destruct (shiftr1_u32 x Hx) as [_ Bx], (shiftr1_u32 y Hy) as [_ By].
  assert (forall z, z = 2 * Z.shiftr z 1 + Z.b2z (Z.odd z)) as Hz.
  { intros z. rewrite Z.shiftr_div_pow2, Z.pow_1_r by lia. rewrite (Z.div_mod z 2) at 1 by lia. rewrite Zmod_odd. by destruct (Z.odd z). }
  pose proof (Hz x) as Ex. pose proof (Hz y) as Ey. destruct (Z.odd x), (Z.odd y); intros E.
  - apply (f_equal (fun v => Z.lxor v POLY)) in E. rewrite !Z.lxor_assoc, !Z.lxor_nilpotent, !Z.lxor_0_r in E. lia.
  - apply (f_equal (fun v => Z.testbit v 31)) in E. rewrite Z.lxor_spec, Bx, By in E. done.
  - apply (f_equal (fun v => Z.testbit v 31)) in E. rewrite Z.lxor_spec, Bx, By in E. done.
  - lia.
Qed.

Lemma byte_u32 b : 0 <= b < 256 -> is_u32 b.
Proof. unfold is_u32. lia. Qed.

Lemma crc_bits_u32 n x : is_u32 x -> is_u32 (Nat.iter n crc_bit x).
Proof. intros Hx. induction n; [done|]. by apply crc_bit_u32. Qed.

Lemma crc_bits_inj n x y : is_u32 x -> is_u32 y -> Nat.iter n crc_bit x = Nat.iter n crc_bit y -> x = y.
Proof.
  intros Hx Hy. induction n as [|n IH]; [done|]. cbn [Nat.iter]. intros E. apply IH. apply crc_bit_inj; [by apply crc_bits_u32..|done].
Qed.

Lemma crc_byte_u32 c b : is_u32 c -> 0 <= b < 256 -> is_u32 (crc_byte c b).
Proof. intros Hc Hb. unfold crc_byte. apply crc_bits_u32, lxor_u32; [exact Hc|by apply byte_u32]. Qed.

Lemma crc_byte_inj c d a b : is_u32 c -> is_u32 d -> 0 <= a < 256 -> 0 <= b < 256 -> crc_byte c a = crc_byte d b -> Z.lxor c a = Z.lxor d b.
Proof. intros Hc Hd Ha Hb. unfold crc_byte. apply crc_bits_inj; apply lxor_u32; auto using byte_u32. Qed.

Lemma crc_fold_u32 data : bytes_ok data -> forall c, is_u32 c -> is_u32 (foldl crc_byte c data).
Proof. induction 1 as [|b data Hb _ IH]; intros c Hc; [exact Hc|]. cbn [foldl]. apply IH. by apply crc_byte_u32. Qed.

Lemma crc_fold_inj data : bytes_ok data -> forall c d, is_u32 c -> is_u32 d -> foldl crc_byte c data = foldl crc_byte d data -> c = d.
Proof.
  induction 1 as [|b data Hb _ IH]; intros c d Hc Hd E; [exact E|]. cbn [foldl] in E.
  pose proof (IH _ _ (crc_byte_u32 c b Hc Hb) (crc_byte_u32 d b Hd Hb) E) as E1. apply crc_byte_inj in E1; [|assumption..].
  apply (f_equal (fun v => Z.lxor v b)) in E1. by rewrite !Z.lxor_assoc, Z.lxor_nilpotent, !Z.lxor_0_r in E1.
Qed.

Lemma crc32_u32 data : bytes_ok data -> is_u32 (crc32 data).
Proof. intros Hd. unfold crc32. apply lxor_u32; [done|]. apply crc_fold_u32; [exact Hd|done]. Qed.

(** Two messages that differ in one byte have different checksums. *)
Lemma crc32_one_byte pre a b post : bytes_ok (pre ++ a :: post) -> 0 <= b < 256 -> crc32 (pre ++ a :: post) = crc32 (pre ++ b :: post) -> a = b.
Proof.
  intros [Hpre [Ha Hpost]%Forall_cons]%Forall_app Hb E. unfold crc32 in E.
  apply (f_equal (Z.lxor 0xFFFFFFFF)) in E. rewrite <- !Z.lxor_assoc, Z.lxor_nilpotent, !Z.lxor_0_l, !foldl_app in E. cbn [foldl] in E.
  pose proof (crc_fold_u32 pre Hpre 0xFFFFFFFF ltac:(done)) as Hc. set (c := foldl crc_byte 0xFFFFFFFF pre) in *. clearbody c.
  pose proof (crc_fold_inj post Hpost _ _ (crc_byte_u32 c a Hc Ha) (crc_byte_u32 c b Hc Hb) E) as E1. apply crc_byte_inj in E1; [|assumption..].
  apply (f_equal (Z.lxor c)) in E1. by rewrite <- !Z.lxor_assoc, Z.lxor_nilpotent, !Z.lxor_0_l in E1.
Qed.

(** ** A GPT as a partitioning tool writes it *)
Record Gpt := mkGpt { g_alt : Z; g_first : Z; g_last : Z; g_guid : list Z; g_entries : Z }.
Record Slot := mkSlot { s_type : list Z; s_uuid : list Z; s_first : Z; s_last : Z; s_rest : Z }.
Definition slot_fields (s : Slot) : list (nat * Z) :=
  [(16%nat, from_le (s_type s)); (16%nat, from_le (s_uuid s)); (8%nat, s_first s); (8%nat, s_last s); (80%nat, s_rest s)].
Definition write_entries (slots : list Slot) : list Z := encode (flat_map slot_fields slots).
Definition header_fields (lba : Z) (g : Gpt) (slots : list Slot) (crc : Z) : list (nat * Z) :=
  [(8%nat, from_le EFI_PART); (4%nat, 0x10000); (4%nat, 92); (4%nat, crc); (4%nat, 0); (8%nat, lba); (8%nat, g_alt g);
   (8%nat, g_first g); (8%nat, g_last g); (16%nat, from_le (g_guid g)); (8%nat, g_entries g); (4%nat, Z.of_nat (length slots)); (4%nat, 128);
   (4%nat, crc32 (write_entries slots))].
Definition header_crc (lba : Z) (g : Gpt) (slots : list Slot) : Z := crc32 (encode (header_fields lba g slots 0)).
(** The header and the rest of its sector. *)
Definition write_header (lba : Z) (g : Gpt) (slots : list Slot) (rest : list Z) : list Z :=
  encode (header_fields lba g slots (header_crc lba g slots)) ++ rest.

Definition u64 (x : Z) : Prop := 0 <= x < 2 ^ 64.
Record slot_ok (s : Slot) : Prop := {
  sk_type : bytes_ok (s_type s) /\ length (s_type s) = 16%nat;
  sk_uuid : bytes_ok (s_uuid s) /\ length (s_uuid s) = 16%nat;
  sk_first : u64 (s_first s);
  sk_last : u64 (s_last s) }.
Record gpt_ok (capacity : Z) (g : Gpt) (slots : list Slot) : Prop := {
  gk_slots : Forall slot_ok slots;
  gk_count : (0 < length slots)%nat /\ Z.of_nat (length slots) <= GPT_MAX_ENTRIES;
  gk_first : 0 <= g_first g <= g_last g;
  gk_last : g_last g < capacity;
  gk_guid : bytes_ok (g_guid g) /\ length (g_guid g) = 16%nat;
  gk_entries : 0 <= g_entries g < capacity }.

(** What a slot stands for: nothing if its type is zero or it leaves the usable
    sectors, else the partition numbered by the slot. *)
Definition slot_part (g : Gpt) (i : nat) (s : Slot) : option Partition :=
  if bool_decide (s_type s = replicate 16 0) then None
  else if (s_last s <? s_first s) || (s_first s <? g_first g) || (g_last g <? s_last s) then None
  else Some (mkPart (Z.of_nat i + 1) (s_first s) (wrap64 (s_last s - s_first s + 1)) (TypeGpt (s_type s)) (UuidGpt (s_uuid s))).
Definition listed (g : Gpt) (slots : list Slot) (backup : bool) : ScanResult :=
  mkResult (GptTable (g_guid g) backup) (omap (fun i => slots !! i ≫= slot_part g i) (seq 0 (length slots))).

Lemma guid_back n bs rest : bytes_ok bs /\ length bs = n -> forall fs i, fs !! i = Some (n, from_le bs) ->
  slice (width (take i fs)) n (encode fs ++ rest) = bs.
Proof. intros [Hb <-] fs i Hi. rewrite (field_at fs i _ _ _ Hi). by apply to_from_le. Qed.

Lemma slots_width slots : width (flat_map slot_fields slots) = (128 * length slots)%nat.
Proof. induction slots as [|s slots IH]; [done|]. cbn [flat_map]. unfold width in *. rewrite sum_list_with_app, IH. cbn [slot_fields sum_list_with fst length]. lia. Qed.

Lemma slot_bytes slots i s rest : slots !! i = Some s -> slice (128 * i) 128 (write_entries slots ++ rest) = encode (slot_fields s).
Proof.
  intros Hi. unfold write_entries, slice. rewrite <- (take_drop_middle slots i s Hi) at 1. rewrite flat_map_app. cbn [flat_map].
  rewrite !encode_app, <- !app_assoc. pose proof (lookup_lt_Some _ _ _ Hi).
  rewrite drop_app_length' by (rewrite encode_length, slots_width, length_take; lia).
  by rewrite take_app_length' by (rewrite encode_length; done).
Qed.

Lemma gpt_entry_slot slots i s rest g : slots !! i = Some s -> slot_ok s ->
  gpt_entry (write_entries slots ++ rest) 128 (g_first g) (g_last g) i = slot_part g i s.
Proof.
  intros Hi [S1 S2 S3 S4]. unfold gpt_entry. replace (Z.to_nat (Z.of_nat i * 128)) with (128 * i)%nat by lia. rewrite (slot_bytes slots i s rest Hi).
  rewrite <- (app_nil_r (encode (slot_fields s))). unfold le64.
  rewrite (read_back (slot_fields s) 2 8 (s_first s) [] 32 eq_refl S3 eq_refl), (read_back (slot_fields s) 3 8 (s_last s) [] 40 eq_refl S4 eq_refl).
  pose proof (guid_back 16 (s_type s) [] S1 (slot_fields s) 0 eq_refl) as E1. pose proof (guid_back 16 (s_uuid s) [] S2 (slot_fields s) 1 eq_refl) as E2.
  change (width (take 0 (slot_fields s))) with 0%nat in E1. change (width (take 1 (slot_fields s))) with 16%nat in E2. by rewrite E1, E2.
Qed.

(** ** Reading it back *)
Lemma header_cleared lba g slots c rest : clear_crc (take 92 (encode (header_fields lba g slots c) ++ rest)) = encode (header_fields lba g slots 0).
Proof.
  rewrite take_app_length' by (rewrite encode_length; done). reflexivity.
Qed.

Lemma header_checksum lba g slots c rest : crc32 (clear_crc (take 92 (encode (header_fields lba g slots c) ++ rest))) = header_crc lba g slots.
Proof. unfold header_crc. by rewrite header_cleared. Qed.

Lemma entries_bytes slots : bytes_ok (write_entries slots).
Proof. apply encode_bytes. Qed.

Section roundtrip.
Context (read : Z -> Z -> option (list Z)) (ss capacity : Z) (g : Gpt) (slots : list Slot).
Context (Hss : 512 <= ss <= 4096) (Hcap : 0 < capacity < 2 ^ 64) (Hg : gpt_ok capacity g slots).

Definition array_len : Z := (Z.of_nat (length slots) * 128 + ss - 1) / ss * ss.
(** The entry array is on the disk, padded to whole sectors. *)
Definition holds_entries : Prop := exists pad, read (g_entries g) array_len = Some (write_entries slots ++ pad).
Definition holds_header (lba : Z) : Prop := exists rest, read lba ss = Some (write_header lba g slots rest).

Lemma gpt_at_written lba backup : u64 lba -> holds_entries -> holds_header lba -> gpt_at read lba ss capacity backup = Some (listed g slots backup).
Proof.
  intros Hlba [pad Ha] [rest Hh]. destruct Hg as [G1 [G2 G3] [G4 G4'] G5 G6 [G7 G7']]. unfold gpt_at. rewrite Hh. cbn [mbind option_bind].
  set (crc := header_crc lba g slots). assert (is_u32 crc) as Hcrc by apply crc32_u32, encode_bytes.
  assert (is_u32 (crc32 (write_entries slots))) as Hecrc by apply crc32_u32, entries_bytes.
  set (hf := header_fields lba g slots crc). unfold write_header. fold crc. fold hf.
  pose proof (read_back hf) as Hr. unfold le32, le64.
  rewrite (guid_back 8 EFI_PART rest ltac:(split; [repeat constructor; done|done]) hf 0 eq_refl : slice 0 8 (encode hf ++ rest) = EFI_PART).
  rewrite bool_decide_true by done. cbn [negb].
  rewrite (Hr 2%nat 4%nat 92 rest 12%nat eq_refl ltac:(done) eq_refl). rewrite (Hr 3%nat 4%nat crc rest 16%nat eq_refl Hcrc eq_refl).
  rewrite (Hr 5%nat 8%nat lba rest 24%nat eq_refl Hlba eq_refl).
  rewrite (Hr 7%nat 8%nat (g_first g) rest 40%nat eq_refl ltac:(unfold in_range; cbn; lia) eq_refl).
  rewrite (Hr 8%nat 8%nat (g_last g) rest 48%nat eq_refl ltac:(unfold in_range; cbn; lia) eq_refl).
  rewrite (guid_back 16 (g_guid g) rest G6 hf 9 eq_refl : slice 56 16 (encode hf ++ rest) = g_guid g).
  rewrite (Hr 10%nat 8%nat (g_entries g) rest 72%nat eq_refl ltac:(unfold in_range; cbn; lia) eq_refl).
  rewrite (Hr 11%nat 4%nat (Z.of_nat (length slots)) rest 80%nat eq_refl ltac:(unfold in_range, GPT_MAX_ENTRIES in *; cbn; lia) eq_refl).
  rewrite (Hr 12%nat 4%nat 128 rest 84%nat eq_refl ltac:(done) eq_refl). rewrite (Hr 13%nat 4%nat _ rest 88%nat eq_refl Hecrc eq_refl).
  cbn [Z.ltb Z.compare Pos.compare Pos.compare_cont orb]. rewrite (proj2 (Z.ltb_ge ss 92)) by lia.
  unfold hf at 1. change (Z.to_nat 92) with 92%nat. rewrite header_checksum. change (header_crc lba g slots) with crc. rewrite !Z.eqb_refl. cbn [negb].
  rewrite (proj2 (Z.eqb_neq _ 0)), (proj2 (Z.ltb_ge GPT_MAX_ENTRIES _)) by lia. cbn [orb]. change (negb (is_power_of_two 128)) with false. cbn iota.
  rewrite (proj2 (Z.ltb_ge (g_last g) _)), (proj2 (Z.leb_gt capacity (g_last g))), (proj2 (Z.leb_gt capacity (g_entries g))) by lia.
  rewrite andb_false_r. fold array_len. rewrite Ha. cbn [mbind option_bind]. rewrite Nat2Z.id.
  rewrite take_app_length' by (unfold write_entries; rewrite encode_length, slots_width; lia). rewrite Z.eqb_refl. cbn [negb].
  unfold listed. do 2 f_equal. apply omap_ext_in. intros i Hi%elem_of_seq. destruct (lookup_lt_is_Some_2 slots i) as [sl Hsl]; [lia|].
  rewrite Hsl. cbn [mbind option_bind]. apply gpt_entry_slot; [done|]. by eapply Forall_lookup_1.
Qed.

(** ** A damaged primary header *)
Lemma clear_crc_insert k b h : (k < 16 \/ 20 <= k < 92)%nat -> (92 <= length h)%nat -> clear_crc (take 92 (<[k := b]> h)) = <[k := b]> (clear_crc (take 92 h)).
Proof.
  intros Hk Hl. unfold clear_crc. rewrite take_insert_lt by lia. set (m := take 92 h). assert (length m = 92%nat) as Hm by (unfold m; rewrite length_take; lia).
  destruct Hk as [Hk|Hk].
  - rewrite take_insert_lt, drop_insert_lt by lia. by rewrite insert_app_l by (rewrite length_take; lia).
  - rewrite take_insert_ge by lia. rewrite drop_insert_ge by lia. rewrite insert_app_r_alt by (rewrite length_take; lia).
    rewrite insert_app_r_alt by (rewrite length_take, length_replicate; lia). do 3 f_equal. rewrite length_take, length_replicate. lia.
Qed.

Lemma clear_crc_same k b h : (16 <= k < 20)%nat -> clear_crc (take 92 (<[k := b]> h)) = clear_crc (take 92 h).
Proof. intros Hk. unfold clear_crc. rewrite take_insert_lt, take_insert_ge, drop_insert_lt by lia. done. Qed.

Lemma slice_insert off n k b h : (off + n <= k \/ k < off)%nat -> slice off n (<[k := b]> h) = slice off n h.
Proof.
  intros Hk. unfold slice. destruct (decide (k < off)%nat); [by rewrite drop_insert_lt by lia|].
  rewrite drop_insert_ge by lia. by rewrite take_insert_ge by lia.
Qed.

Lemma slice_insert_in off n k b h : (off <= k < off + n)%nat -> slice off n (<[k := b]> h) = <[(k - off)%nat := b]> (slice off n h).
Proof. intros Hk. unfold slice. rewrite drop_insert_ge by lia. by rewrite take_insert_lt by lia. Qed.

(** A byte changed inside a slice changes it. *)
Lemma slice_damaged off n k b h : (off <= k < off + n)%nat -> (off + n <= length h)%nat -> byte h k <> b -> slice off n (<[k := b]> h) <> slice off n h.
Proof.
  intros Hk Hl Hne E. apply (f_equal (fun l => l !! (k - off)%nat)) in E. unfold slice in E.
  rewrite !lookup_take_lt, !lookup_drop in E by lia. replace (off + (k - off))%nat with k in E by lia.
  rewrite list_lookup_insert_eq in E by lia. unfold byte in Hne. rewrite <- E in Hne. done.
Qed.

Lemma crc32_insert k b m : bytes_ok m -> 0 <= b < 256 -> (k < length m)%nat -> byte m k <> b -> crc32 (<[k := b]> m) <> crc32 m.
Proof.
  intros Hm Hb Hk Hne E. destruct (lookup_lt_is_Some_2 m k Hk) as [a Ha]. unfold byte in Hne. rewrite Ha in Hne. cbn in Hne.
  rewrite insert_take_drop in E by done. rewrite <- (take_drop_middle m k a Ha) in E at 3. symmetry in E.
  apply crc32_one_byte in E; [done| |done]. by rewrite take_drop_middle.
Qed.

(** Outside the checksum field, clearing it keeps the bytes. *)
Lemma clear_crc_byte k h : (k < 16 \/ 20 <= k < 92)%nat -> (92 <= length h)%nat -> byte (clear_crc (take 92 h)) k = byte h k.
Proof.
  intros Hk Hl. unfold byte, clear_crc. f_equal. destruct Hk as [Hk|Hk].
  - by rewrite lookup_app_l, !lookup_take_lt by (rewrite ?length_take; lia).
  - rewrite lookup_app_r, lookup_app_r, lookup_drop by (rewrite ?length_replicate, ?length_take, ?length_take; lia).
    rewrite length_take, length_replicate, length_take. rewrite lookup_take_lt by lia. f_equal. lia.
Qed.

(** The bytes of the header that are not its length. *)
Definition protected (k : nat) : Prop := (k < 92)%nat /\ ~ (12 <= k < 16)%nat.

(** A sector that holds a header with a true checksum. *)
Record sealed (h : list Z) : Prop := {
  sl_len : (92 <= length h)%nat;
  sl_sig : slice 0 8 h = EFI_PART;
  sl_size : le32 h 12 = 92;
  sl_field : bytes_ok (slice 16 4 h);
  sl_bytes : bytes_ok (clear_crc (take 92 h));
  sl_crc : le32 h 16 = crc32 (clear_crc (take 92 h)) }.

Lemma write_header_sealed lba rest : sealed (write_header lba g slots rest).
Proof.
  assert (is_u32 (header_crc lba g slots)) as Hcrc by apply crc32_u32, encode_bytes.
  pose proof (header_checksum lba g slots (header_crc lba g slots) rest) as Hck. unfold write_header. set (crc := header_crc lba g slots) in *. clearbody crc.
  pose proof (header_cleared lba g slots crc rest) as Hcl. split.
  - rewrite length_app, encode_length. change (width _) with 92%nat. lia.
  - exact (guid_back 8 EFI_PART rest ltac:(split; [repeat constructor; done|done]) (header_fields lba g slots crc) 0 eq_refl).
  - exact (read_back (header_fields lba g slots crc) 2 4 92 rest 12 eq_refl ltac:(split; [discriminate|reflexivity]) eq_refl).
  - rewrite (field_at (header_fields lba g slots crc) 3 4 crc rest eq_refl : slice 16 4 (encode (header_fields lba g slots crc) ++ rest) = _). apply to_le_bytes.
  - rewrite Hcl. apply encode_bytes.
  - rewrite Hck. exact (read_back (header_fields lba g slots crc) 3 4 crc rest 16 eq_refl Hcrc eq_refl).
Qed.

(** Damage to the checksum or to a byte under it makes the two differ. *)
Lemma damaged_crc h k b : sealed h -> protected k -> (8 <= k)%nat -> 0 <= b < 256 -> byte h k <> b ->
  crc32 (clear_crc (take 92 (<[k := b]> h))) <> le32 (<[k := b]> h) 16.
Proof.
  intros [L _ _ Hf Hm Ec] [Hk Hk'] H8 Hb Hne. unfold le32 in *. destruct (decide (16 <= k < 20)%nat) as [Hc|Hc].
  - rewrite clear_crc_same, <- Ec by done. intros E. symmetry in E. apply from_le_inj in E; [|rewrite slice_insert_in by lia; by apply Forall_insert|done|].
    + exact (slice_damaged 16 4 k b h Hc ltac:(lia) Hne E).
    + unfold slice. by rewrite !length_take, !length_drop, length_insert.
  - rewrite clear_crc_insert, slice_insert, Ec by lia. apply crc32_insert; [done|done| |by rewrite clear_crc_byte by lia].
    unfold clear_crc. rewrite !length_app, length_replicate, length_drop, !length_take. lia.
Qed.

(** A damaged signature is not recognised, nor is any other damaged byte. *)
Lemma damaged_header h lba k b backup : sealed h -> protected k -> 0 <= b < 256 -> byte h k <> b ->
  read lba ss = Some (<[k := b]> h) -> gpt_at read lba ss capacity backup = None.
Proof.
  intros S Hk Hb Hne Hh. unfold gpt_at. rewrite Hh. cbn [mbind option_bind]. pose proof (sl_len h S) as Hl.
  destruct (decide (k < 8)%nat) as [Hs|Hs].
  { rewrite bool_decide_false; [done|]. rewrite <- (sl_sig h S). apply slice_damaged; [lia|lia|done]. }
  destruct (bool_decide _); [|done]. cbn [negb]. assert (le32 (<[k := b]> h) 12 = 92) as ->.
  { unfold le32. rewrite slice_insert by (destruct Hk; lia). apply S. }
  destruct (_ || _); [done|]. rewrite (proj2 (Z.eqb_neq _ _)); [reflexivity|]. apply damaged_crc; [done|done|lia|done|done].
Qed.
End roundtrip.

(** A boot sector with a protective entry. *)
Definition protects (s0 : list Z) : bool := (byte s0 510 =? 0x55) && (byte s0 511 =? 0xAA) && boot_indicators_ok s0 && is_protective s0.

Lemma scan_protected read ss capacity s0 : 512 <= ss <= 4096 -> is_power_of_two ss = true -> read 0 ss = Some s0 -> protects s0 = true ->
  scan read ss capacity = match gpt_at read 1 ss capacity false with
    | Some r => r
    | None => if 1 <? capacity then match gpt_at read (capacity - 1) ss capacity true with Some r => r | None => none end else none
    end.
Proof.
  intros Hss Hp Hr Hs. unfold scan. rewrite (proj2 (Z.ltb_ge ss 512)), (proj2 (Z.ltb_ge 4096 ss)), Hp, Hr by lia. cbn [orb negb].
  unfold protects in Hs. rewrite !andb_true_iff in Hs. destruct Hs as [[[-> ->] ->] ->]. reflexivity.
Qed.

(** C17: A GPT disk is read back as it was written, also when its primary header
    is damaged.  On a disk with a protective boot sector, a table written with
    its entry array and primary header is reported exactly: the disk's GUID, and
    for every slot with a type and a range inside the usable sectors the
    partition numbered by the slot, with its first sector, length, type and
    identity.  If one byte of the 92-byte primary header other than the four that
    hold its length (bytes 12 to 15) is changed, to anything, the table of the
    backup header in the last sector is reported instead.  The length is left
    out because it decides how much of the sector is checksummed. *)
Theorem gpt_roundtrip read ss capacity s0 g slots :
  512 <= ss <= 4096 -> is_power_of_two ss = true -> 1 < capacity < 2 ^ 64 -> gpt_ok capacity g slots ->
  read 0 ss = Some s0 -> protects s0 = true -> holds_entries read ss g slots ->
  (holds_header read ss g slots 1 -> scan read ss capacity = listed g slots false) /\
  (holds_header read ss g slots (capacity - 1) ->
   forall g1 slots1 rest k b, protected k -> 0 <= b < 256 -> byte (write_header 1 g1 slots1 rest) k <> b ->
     read 1 ss = Some (<[k := b]> (write_header 1 g1 slots1 rest)) -> scan read ss capacity = listed g slots true).
Proof.
  intros Hss Hp Hcap Hg H0 Hs He. rewrite (scan_protected read ss capacity s0) by done. split.
  - intros Hh. by rewrite (gpt_at_written read ss capacity g slots Hss ltac:(lia) Hg 1 false) by done.
  - intros Hh g1 slots1 rest k b Hk Hb Hne H1. rewrite (damaged_header read ss capacity (write_header 1 g1 slots1 rest) 1 k b false (write_header_sealed g1 slots1 1 rest) Hk Hb Hne H1).
    rewrite (proj2 (Z.ltb_lt 1 capacity)) by lia. rewrite (gpt_at_written read ss capacity g slots Hss ltac:(lia) Hg (capacity - 1) true); [reflexivity| |done|done].
    unfold u64. lia.
Qed.

(** ** A small disk *)
Definition demo_mbr : list Z := encode [(446%nat, 0); (4%nat, 0); (1%nat, MBR_PROTECTIVE); (3%nat, 0); (4%nat, 1); (4%nat, 39); (48%nat, 0); (2%nat, 0xAA55)].
Definition demo_gpt : Gpt := mkGpt 39 5 30 (replicate 16 7) 2.
Definition demo_slots : list Slot :=
  [mkSlot LINUX_FS_GUID (replicate 16 1) 10 19 0; mkSlot (replicate 16 0) (replicate 16 0) 0 0 0; mkSlot LOG_GPT_GUID (replicate 16 2) 20 24 0].
Definition demo_header (lba : Z) : list Z := write_header lba demo_gpt demo_slots (replicate 420 0).
Definition demo_disk (primary : list Z) (lba n : Z) : option (list Z) :=
  if negb (n =? 512) then None
  else if lba =? 0 then Some demo_mbr
  else if lba =? 1 then Some primary
  else if lba =? 2 then Some (write_entries demo_slots ++ replicate 128 0)
  else if lba =? 39 then Some (demo_header 39)
  else None.
Definition demo_parts : list Partition :=
  [mkPart 1 10 10 (TypeGpt LINUX_FS_GUID) (UuidGpt (replicate 16 1)); mkPart 3 20 5 (TypeGpt LOG_GPT_GUID) (UuidGpt (replicate 16 2))].

Lemma demo_gpt_ok : gpt_ok 40 demo_gpt demo_slots.
Proof.
  split; [|split; [cbn; lia|vm_compute; discriminate]|cbn; lia|cbn; lia| |cbn; lia].
  - repeat constructor; cbn; try lia; try reflexivity; repeat constructor; cbn; lia.
  - split; [repeat constructor; cbn; lia|reflexivity].
Qed.

Lemma gpt_roundtrip_witness :
  scan (demo_disk (demo_header 1)) 512 40 = mkResult (GptTable (replicate 16 7) false) demo_parts /\
  scan (demo_disk (<[40%nat := 6]> (demo_header 1))) 512 40 = mkResult (GptTable (replicate 16 7) true) demo_parts.
Proof.
  assert (forall p, holds_entries (demo_disk p) 512 demo_gpt demo_slots) as He by (intros p; exists (replicate 128 0); reflexivity).
  split.
  - etransitivity; [apply (gpt_roundtrip (demo_disk (demo_header 1)) 512 40 demo_mbr demo_gpt demo_slots ltac:(lia) eq_refl ltac:(lia) demo_gpt_ok eq_refl ltac:(vm_compute; reflexivity) (He _))|vm_compute; reflexivity].
    exists (replicate 420 0). reflexivity.
  - etransitivity; [|].
    + refine (proj2 (gpt_roundtrip (demo_disk (<[40%nat := 6]> (demo_header 1))) 512 40 demo_mbr demo_gpt demo_slots ltac:(lia) eq_refl ltac:(lia) demo_gpt_ok eq_refl ltac:(vm_compute; reflexivity) (He _))
        _ demo_gpt demo_slots (replicate 420 0) 40%nat 6 ltac:(unfold protected; lia) ltac:(lia) _ eq_refl).
      * exists (replicate 420 0). reflexivity.
      * vm_compute. discriminate.
    + vm_compute. reflexivity.
Defined.

Lemma demo_disk_ok : disk_ok (demo_disk (demo_header 1)).
Proof.
  intros lba n b. unfold demo_disk. destruct (Z.eqb_spec n 512) as [->|]; [|discriminate]. cbn [negb].
  assert (forall fs k, length (encode fs ++ replicate k 0) = 512%nat -> bytes_ok (encode fs ++ replicate k 0) /\ Z.of_nat (length (encode fs ++ replicate k 0)) = 512) as Hok.
  { intros fs k Hl. split; [apply Forall_app; split; [apply encode_bytes|by apply Forall_replicate]|by rewrite Hl]. }
  destruct (lba =? 0); [intros E%(inj Some); subst b; split; [apply encode_bytes|vm_compute; reflexivity]|].
  destruct (lba =? 1); [intros E%(inj Some); subst b; apply Hok; vm_compute; reflexivity|].
  destruct (lba =? 2); [intros E%(inj Some); subst b; apply Hok; vm_compute; reflexivity|].
  destruct (lba =? 39); [intros E%(inj Some); subst b; apply Hok; vm_compute; reflexivity|discriminate].
Qed.

Lemma scan_reports_witness : Forall (fun p => start_lba p + num_lbas p <= 40) demo_parts.
Proof.
  destruct (scan_reports (demo_disk (demo_header 1)) demo_disk_ok 40 ltac:(lia) 512) as [Hp _].
  assert (parts (scan (demo_disk (demo_header 1)) 512 40) = demo_parts) as E by (vm_compute; reflexivity). rewrite E in Hp.
  eapply Forall_impl; [exact Hp|]. intros p [_ _ _ He _]. exact He.
Defined.

(** ** A PARTUUID names one partition *)
Definition uuid_ok (u : PartUuid) : Prop :=
  match u with UuidMbr sig n => is_u32 sig /\ 0 <= n < 256 | UuidGpt g => bytes_ok g /\ length g = 16%nat end.

Lemma hex_inj a b : 0 <= a < 16 -> 0 <= b < 16 -> hex a = hex b -> a = b.
Proof. unfold hex. intros Ha Hb. destruct (Z.ltb_spec a 10), (Z.ltb_spec b 10); lia. Qed.

Lemma nibble_range x k : 0 <= Z.land (Z.shiftr x k) 0xF < 16.
Proof. change 15 with (Z.ones 4). rewrite Z.land_ones by lia. by apply Z.mod_pos_bound. Qed.

Lemma hex_byte_inj a b : 0 <= a < 256 -> 0 <= b < 256 -> hex_byte a = hex_byte b -> a = b.
Proof.
  intros Ha Hb [= E1 E2]. change 15 with (Z.ones 4) in E2. rewrite !Z.land_ones in E2 by lia. rewrite !Z.shiftr_div_pow2 in E1 by lia.
  apply hex_inj in E1, E2; [|apply Z.mod_pos_bound; lia|apply Z.mod_pos_bound; lia|split; [apply Z.div_pos; lia|apply Z.div_lt_upper_bound; lia]..].
  change (2 ^ 4) with 16 in *. pose proof (Z.div_mod a 16 ltac:(lia)). pose proof (Z.div_mod b 16 ltac:(lia)). lia.
Qed.

Lemma nibbles_inj x y : is_u32 x -> is_u32 y ->
  (forall i, (i < 8)%nat -> Z.land (Z.shiftr x (Z.of_nat i * 4)) 0xF = Z.land (Z.shiftr y (Z.of_nat i * 4)) 0xF) -> x = y.
Proof.
  unfold is_u32. intros Hx Hy Hn. apply Z.bits_inj'. intros n Hn0. destruct (Z.le_gt_cases 32 n).
  { rewrite <- (Z.mod_small x (2 ^ 32)), <- (Z.mod_small y (2 ^ 32)), !Z.mod_pow2_bits_high by lia. done. }
  specialize (Hn (Z.to_nat (n / 4)) ltac:(pose proof (Z.div_lt_upper_bound n 4 8); lia)). rewrite Z2Nat.id in Hn by (apply Z.div_pos; lia).
  apply (f_equal (fun v => Z.testbit v (n mod 4))) in Hn. pose proof (Z.mod_pos_bound n 4 ltac:(lia)). pose proof (Z.div_mod n 4 ltac:(lia)).
  change 15 with (Z.ones 4) in Hn. rewrite !Z.land_spec, !Z.ones_spec_low, !andb_true_r, !Z.shiftr_spec in Hn by lia.
  by replace (n mod 4 + n / 4 * 4) with n in Hn by lia.
Qed.

Lemma flat_map_agree {A B} (f f' : A -> list B) l : (forall x, length (f x) = length (f' x)) -> flat_map f l = flat_map f' l -> Forall (fun x => f x = f' x) l.
Proof.
  intros Hl. induction l as [|x l IH]; [constructor|]. cbn [flat_map]. intros [E1 E2]%app_inj_1; [|done]. constructor; [done|by apply IH].
Qed.

Lemma format_inj u v : uuid_ok u -> uuid_ok v -> format u = format v -> u = v.
Proof.
  destruct u as [sig n|g], v as [sig' n'|g']; intros Hu Hv E.
  - destruct Hu as [Hs Hn], Hv as [Hs' Hn']. apply app_inj_1 in E as [E1 E2]; [|by rewrite !length_map].
    f_equal.
    + apply nibbles_inj; [done|done|]. intros i Hi. cbn [rev seq app List.map] in E1. apply hex_inj; [apply nibble_range..|].
      injection E1 as ? ? ? ? ? ? ? ?. do 8 (destruct i as [|i]; [done|]). lia.
    + apply app_inj_1 in E2 as [_ E2]; [|done]. apply hex_byte_inj in E2; [|split; [apply Z.land_nonneg; lia|]..].
      * change 255 with (Z.ones 8) in E2. rewrite !Z.land_ones, !Z.mod_small in E2 by lia. done.
      * change 255 with (Z.ones 8). rewrite Z.land_ones by lia. by apply Z.mod_pos_bound.
      * change 255 with (Z.ones 8). rewrite Z.land_ones by lia. by apply Z.mod_pos_bound.
  - apply (f_equal length) in E. done.
  - apply (f_equal length) in E. done.
  - destruct Hu as [Hb Hl], Hv as [Hb' Hl']. f_equal. cbn [format] in E.
    apply flat_map_agree in E; [|intros [i bi]; by rewrite !length_app]. rewrite Forall_forall in E.
    assert (forall i, (i < 16)%nat -> exists k, (k, i) ∈ zip (seq 0 16) ORDER) as Hin.
    { intros i Hi. exists (default 0%nat (ORDER !! i)). assert (i ∈ seq 0 16) as Hs by (apply elem_of_seq; lia). revert i Hi Hs.
      assert (Forall (fun i => (default 0%nat (ORDER !! i), i) ∈ zip (seq 0 16) ORDER) (seq 0 16)) as HF by (apply (bool_decide_unpack _); vm_compute; exact I).
      intros i _ Hs. rewrite Forall_forall in HF. by apply HF. }
    apply (list_eq_same_length _ _ 16); [done|done|]. intros i x y Hi Hx Hy. destruct (Hin i Hi) as [k Hk]. specialize (E _ Hk). cbn in E.
    apply app_inj_1 in E as [_ E]; [|done]. rewrite Hx, Hy in E. cbn [default] in E.
    apply hex_byte_inj; [exact (Forall_lookup_1 _ _ _ _ Hb Hx)|exact (Forall_lookup_1 _ _ _ _ Hb' Hy)|exact E].
Qed.

(** Two identities that both match a text are the same. *)
Lemma matches_text u s : matches u s = true <-> to_ascii_lowercase <$> s = format u.
Proof.
  unfold matches. generalize (format u). intros f. rewrite andb_true_iff, Nat.eqb_eq. revert f.
  induction s as [|a s IH]; intros [|b f]; cbn; [done|by split; [intros [? _]|]|by split; [intros [? _]|]|].
  rewrite andb_true_iff, Z.eqb_eq. specialize (IH f). split.
  - intros ([= Hl] & -> & Hf). f_equal. apply IH. by split.
  - intros [= <- E]. apply IH in E as [-> E]. by split.
Qed.

Lemma partuuid_unique u v s : uuid_ok u -> uuid_ok v -> matches u s = true -> matches v s = true -> u = v.
Proof. rewrite !matches_text. intros Hu Hv E1 E2. apply format_inj; [done|done|congruence]. Qed.
