(* ===== verification/JobCtl.v ===== *)
(** * Terminal job control

    Models [src/servers/tty/src/jobctl.rs], the rule a terminal applies before a
    read, a write or a [tcsetpgrp], with the parts of [src/sched/src/signal.rs]
    and [lib.rs] it is built from.  [me] is the calling task (0: none) and
    [alloc] the outcome of the allocation inside [kill_pgrp].  A stop parks the
    caller; the state is the one at that point, as in [Signals]. *)
From S2P Require Import Prelude Task RunQueue Wake Signals.
#[local] Open Scope Z_scope.

Inductive Verdict : Set := Proceed | Eio | Eintr | Retry.
Definition SIGTTIN : Z := 21.
Definition SIGTTOU : Z := 22.
Definition SigInfo_KERNEL : SigInfo := mkSigInfo SI_KERNEL 0 0 0 0 0.

Definition current_sid_pgid (me : Z) (q : RunQueue) : Z * Z :=
  match find_pid q me with
  | None => (0, 0)
  | Some t => match find_pid q (tgid t) with Some l => (sid l, pgid l) | None => (0, 0) end
  end.

(** [l.signal_actions[(sig - 1) as usize].handler] *)
Definition handler_of (sig : Z) (l : Task) : Z := handler (nth (Z.to_nat (sig - 1)) (signal_actions l) DEFAULT_SIGACTION).

Definition signal_ignored_or_blocked (me sig : Z) (q : RunQueue) : bool :=
  if (sig =? 0) || (64 <? sig) then true
  else if me =? 0 then true
  else match find_pid q me with
  | None => true
  | Some t =>
      if has_bits (signal_mask t) (sig_bit sig) then true
      else match find_pid q (tgid t) with Some l => handler_of sig l =? 1 | None => true end
  end.

Definition fatal_signal_pending (me : Z) (q : RunQueue) : bool :=
  if me =? 0 then false
  else match find_pid q me with
  | None => false
  | Some t =>
      match find_pid q (tgid t) with
      | None => true
      | Some l =>
          if has_bits (shared_signal_pending l) (sig_bit SIGKILL) || negb (group_exit_owner l =? 0) then true
          else any_live (fun u => (tgid u =? tgid t) && has_bits (signal_pending u) (sig_bit SIGKILL)) q
      end
  end.

(** The pending bit is claimed from the threads and from the leader's
    process-level set. *)
Definition claim_thread (tg sig : Z) (t : Task) : Task :=
  if (tgid t =? tg) && has_bits (signal_pending t) (sig_bit sig)
  then set_signal_pending (drop_bits (signal_pending t) (sig_bit sig)) t else t.
Definition claim_leader (sig : Z) (l : Task) : Task :=
  if has_bits (shared_signal_pending l) (sig_bit sig)
  then set_shared_signal_pending (drop_bits (shared_signal_pending l) (sig_bit sig)) l else l.
Definition park_stopped (t : Task) : Task := if stop_pending t then clear_block_fields (set_state Stopped t) else t.

Definition stop_now_if_pending (me sig : Z) (q : RunQueue) : bool * RunQueue :=
  if (sig =? 0) || (64 <? sig) || negb (has_bits SIGDFL_STOP (sig_bit sig)) then (false, q)
  else if me =? 0 then (false, q)
  else match find_pid q me with
  | None => (false, q)
  | Some t =>
      let tg := tgid t in
      let h := match find_pid q tg with Some l => handler_of sig l | None => 0 end in
      if negb (h =? 0) then (false, q)
      else
        let on_thread := any_live (fun u => (tgid u =? tg) && has_bits (signal_pending u) (sig_bit sig)) q in
        let q := for_live (claim_thread tg sig) q in
        let on_leader := match find_pid q tg with Some l => has_bits (shared_signal_pending l) (sig_bit sig) | None => false end in
        let q := modify_pid tg (claim_leader sig) q in
        if on_thread || on_leader then (true, do_signal_stop me sig q)
        else (true, modify_pid me park_stopped q)
  end.

Definition check (alloc : bool) (me term_sid term_pgrp sig : Z) (q : RunQueue) : Verdict * RunQueue :=
  if (term_sid =? 0) || (term_pgrp =? 0) then (Proceed, q)
  else
    let '(my_sid, my_pgid) := current_sid_pgid me q in
    if negb (my_sid =? term_sid) || (my_pgid =? 0) || (my_pgid =? term_pgrp) then (Proceed, q)
    else if signal_ignored_or_blocked me sig q then (if sig =? SIGTTIN then Eio else Proceed, q)
    else if pgrp_is_orphaned my_pgid q then (Eio, q)
    else if fatal_signal_pending me q then (Eintr, q)
    else
      let q := (kill_pgrp alloc my_pgid sig SigInfo_KERNEL q).2 in
      let '(stopped, q) := stop_now_if_pending me sig q in
      (if stopped then Retry else Eintr, q).

Definition check_write (alloc : bool) (me term_sid term_pgrp : Z) (tostop : bool) (q : RunQueue) : Verdict * RunQueue :=
  if negb tostop then (Proceed, q) else check alloc me term_sid term_pgrp SIGTTOU q.
Definition errno (v : Verdict) : Z := match v with Proceed | Retry => 0 | Eio => -5 | Eintr => -4 end.

(** ** A kill is seen *)
(** What waking pollers and posting to a group leave of a task. *)
Definition kin (t t' : Task) : Prop := pid t' = pid t /\ tgid t' = tgid t /\ (state t <> Zombie -> state t' <> Zombie).
Definition same_bits (t t' : Task) : Prop := kin t t' /\ signal_pending t' = signal_pending t /\ shared_signal_pending t' = shared_signal_pending t.

#[local] Instance kin_preorder : PreOrder kin.
Proof. split; [done|]. intros t1 t2 t3 (A1 & A2 & A3) (B1 & B2 & B3). split_and!; [congruence..|auto]. Qed.

Lemma wake_poll_bits q : rq_ok q -> rq_ok (wake_poll q) /\ exists f, (forall t, same_bits t (f t)) /\ forall j, slot (wake_poll q) j = f <$> slot q j.
Proof.
  intros Hq. unfold wake_poll, wake_poll_tagged. destruct (unblock_scan POLL_WAIT_CHANNEL POLL_TAG_ALL q Hq) as (H1 & _ & H3). split; [done|].
  eexists. split; [|exact H1]. intros t. unfold unblock_map. destruct (unblocks _ _ t); [|done]. unfold wake_task, place, same_bits, kin. by destruct (_ <? _).
Qed.

Lemma gen_map_kin tg signo mv t : kin t (gen_map tg signo mv t).
Proof.
  destruct (gen_map_fields tg signo mv t) as (E1 & E2 & _). split_and!; [done..|]. intros Hz. unfold gen_map. destruct (is_resume signo).
  - destruct (resume_thread_fields tg signo mv t) as (_ & _ & _ & _ & R5). cbv zeta. set (v := resume_thread tg signo mv t) in *.
    assert (state v <> Zombie) as Hv.
    { destruct (Z.eq_dec (tgid t) tg) as [E|E]; [destruct (R5 E) as (_ & _ & ->); by destruct (state_eqb _ _)|].
      unfold v, resume_thread. by rewrite (proj2 (Z.eqb_neq _ _) E). }
    destruct (resume_leader_fields signo v) as (_ & _ & L3 & _). by destruct (pid v =? tg); rewrite ?L3.
  - destruct (has_bits _ _); [|done]. by destruct (tgid t =? tg), (pid _ =? tg).
Qed.

Lemma post_slots tg signo info q j t : rq_ok q -> tg <> 0 -> slot q j = Some t ->
  exists t', slot (post_signal_process tg signo info q).2 j = Some t' /\ kin t t'.
Proof.
  intros Hq Htg Hj. pose proof (post_process_cases tg signo info q Hq Htg) as H. pose proof (generated_scan tg signo q Hq Htg) as [_ Hg].
  destruct (post_signal_process tg signo info q) as [[[ret woke] rs] q']. cbv zeta in *. cbn [snd].
  pose proof (gen_map_kin tg signo (min_vruntime q) t) as Hk. set (t1 := gen_map tg signo (min_vruntime q) t) in *.
  assert (slot (on_signal_generated tg signo q).2 j = Some t1) as Hj1 by (rewrite Hg, Hj; done).
  set (q1 := (on_signal_generated tg signo q).2) in *. clearbody q1 t1.
  destruct H as [_ [(_ & i & u & mv & Hi & _ & _ & Hsl & _)|[(_ & _ & i & u & Hi & _ & Hsl)|(_ & -> & _)]]]; [| |by exists t1].
  - rewrite Hsl. destruct (decide (i = j)) as [<-|]; [|by exists t1]. rewrite Hi in Hj1. injection Hj1 as ->.
    destruct (queue_on_thread_fields signo info mv t1) as (F1 & F2 & _ & _ & _ & _ & F7). eexists. split; [done|]. etrans; [exact Hk|].
    split_and!; [done..|]. rewrite F7. by destruct (state_eqb _ _).
  - rewrite Hsl. destruct (decide (i = j)) as [<-|]; [|by exists t1]. rewrite Hi in Hj1. injection Hj1 as ->.
    eexists. split; [done|]. etrans; [exact Hk|]. unfold park_on_leader, kin. by destruct (negb _).
Qed.

Lemma kin_find q q' me t : rq_ok q -> rq_ok q' -> me <> 0 -> find_pid q me = Some t ->
  (forall j u, slot q j = Some u -> exists u', slot q' j = Some u' /\ kin u u') -> exists t', find_pid q' me = Some t' /\ kin t t'.
Proof.
  intros Hq Hq' Hme Hf Hs. apply find_pid_slot in Hf as (j & Hj & <-); [|apply Hq]. destruct (Hs j t Hj) as (t' & Hj' & Hk).
  exists t'. split; [|done]. destruct Hk as (Ep & _). rewrite <- Ep. apply (slot_find_pid _ j); [apply Hq'|done|congruence].
Qed.

Lemma post_find tg signo info q me t : rq_ok q -> tg <> 0 -> me <> 0 -> find_pid q me = Some t ->
  rq_ok (post_signal_process tg signo info q).2 /\ exists t', find_pid (post_signal_process tg signo info q).2 me = Some t' /\ kin t t'.
Proof.
  intros Hq Htg Hme Hf. assert (rq_ok (post_signal_process tg signo info q).2) as Hq'.
  { pose proof (post_process_cases tg signo info q Hq Htg) as H. destruct (post_signal_process tg signo info q) as [[[ret woke] rs] q']. apply H. }
  split; [done|]. apply (kin_find q); [done..|]. intros j u Hj. by apply post_slots.
Qed.

(** Delivering a signal other than SIGCONT is posting it and waking the pollers. *)
Lemma deliver_posts tg signo info q : 1 <= signo <= 64 -> signo <> SIGCONT ->
  (deliver_signal_process tg signo info q).2 = wake_poll (post_signal_process tg signo info q).2.
Proof.
  intros Hs Hc. unfold deliver_signal_process. rewrite (deliver_not_cont 1 0) by done. cbn [deliver_signal_process_fuel].
  rewrite (proj2 (Z.eqb_neq signo 0)), (proj2 (Z.ltb_ge 64 signo)) by lia. cbn [orb].
  destruct (post_signal_process tg signo info q) as [[[ret woke] rs] q1]. by destruct rs.
Qed.

Lemma has_bits_true x m : Z.land x m <> 0 -> has_bits x m = true.
Proof. intros Hx. unfold has_bits. by rewrite (proj2 (Z.eqb_neq _ _) Hx). Qed.

(** Once SIGKILL was delivered to a process, all its threads know. *)
Lemma kill_seen info q me t : rq_ok q -> me <> 0 -> find_pid q me = Some t -> tgid t <> 0 ->
  fatal_signal_pending me (deliver_signal_process (tgid t) SIGKILL info q).2 = true.
Proof.
  intros Hq Hme Hf Hg. rewrite deliver_posts by (unfold SIGKILL, SIGCONT; lia).
  pose proof (post_signal_process_spec (tgid t) SIGKILL info q Hq Hg ltac:(unfold SIGKILL; lia)) as Hp.
  destruct (post_find (tgid t) SIGKILL info q me t Hq Hg Hme Hf) as (_ & t1 & Hf1 & _ & Eg & _).
  destruct (post_signal_process (tgid t) SIGKILL info q) as [[[ret woke] rs] q1]. cbn [snd] in *. destruct Hp as [Hq1 Hp].
  destruct (wake_poll_bits q1 Hq1) as (Hq2 & f & Hsame & Hsl). set (q2 := wake_poll q1) in *. clearbody q2.
  assert (forall p, p <> 0 -> find_pid q2 p = f <$> find_pid q1 p) as Hfind.
  { intros p Hp0. apply find_pid_map; [apply Hq1|apply Hq2|done|intros u; apply Hsame|done]. }
  unfold fatal_signal_pending. rewrite (proj2 (Z.eqb_neq me 0)), Hfind, Hf1 by done. cbn [fmap option_fmap option_map].
  destruct (Hsame t1) as ((_ & Et & _) & _). rewrite Et, Eg, Hfind by done.
  destruct (find_pid q1 (tgid t)) as [l|] eqn:El; [|done]. cbn [fmap option_fmap option_map]. destruct (Hsame l) as (_ & _ & Es). rewrite Es.
  destruct Hp as [(_ & i & u & (Hu & Hug & Hup) & _)|[(_ & _ & l' & Hl & Hb)|(_ & Hl & _)]]; [| |done].
  - destruct (_ || _); [done|]. apply any_live_spec; [apply Hq2|]. exists i, (f u). rewrite Hsl, Hu. split; [done|].
    destruct (Hsame u) as ((_ & E2 & _) & E3 & _). rewrite E2, E3, Hug, Z.eqb_refl. by apply has_bits_true.
  - injection Hl as <-. by rewrite (has_bits_true _ _ Hb).
Qed.

Lemma keeps_claim_thread tg sig : keeps (claim_thread tg sig).
Proof. apply (keeps_cond (fun t => (tgid t =? tg) && has_bits (signal_pending t) (sig_bit sig)) (fun t => set_signal_pending (drop_bits (signal_pending t) (sig_bit sig)) t)), keeps_pending. Qed.
Lemma keeps_claim_leader sig : keeps (claim_leader sig).
Proof. apply (keeps_cond (fun t => has_bits (shared_signal_pending t) (sig_bit sig)) (fun t => set_shared_signal_pending (drop_bits (shared_signal_pending t) (sig_bit sig)) t)), keeps_shared. Qed.
Lemma keeps_park_stopped : keeps park_stopped.
Proof.
  apply (keeps_cond stop_pending). intros t Ht. split; [done|]. split; [done|]. split; [by apply (task_ok_intro t _ Ht)|]. by rewrite not_scannable_state.
Qed.

(** ** What posting a job-control signal does *)
Section carry.
Context (sig : Z) (Hsig : sig = SIGTTIN \/ sig = SIGTTOU).

(** A [sig] that is pending for process [p] stays pending. *)
Definition carries (p : Z) (u u' : Task) : Prop :=
  pid u' = pid u /\ tgid u' = tgid u
  /\ (tgid u = p -> has_bits (signal_pending u) (sig_bit sig) = true -> has_bits (signal_pending u') (sig_bit sig) = true)
  /\ (pid u = p -> has_bits (shared_signal_pending u) (sig_bit sig) = true -> has_bits (shared_signal_pending u') (sig_bit sig) = true).
(** A task that was at most woken. *)
Definition alike (u u' : Task) : Prop :=
  (forall p, carries p u u') /\ signal_actions u' = signal_actions u /\ on_cpu u' = on_cpu u
  /\ (state u' = state u \/ state u = Blocked /\ state u' = Ready).
Definition lifted (R : Task -> Task -> Prop) (q q' : RunQueue) : Prop :=
  rq_ok q' /\ forall j u, slot q j = Some u -> exists u', slot q' j = Some u' /\ R u u'.
(** The signal is pending for process [p]: on a thread or process-wide. *)
Definition signalled (p : Z) (q : RunQueue) : Prop :=
  (exists j u, slot q j = Some u /\ tgid u = p /\ has_bits (signal_pending u) (sig_bit sig) = true)
  \/ exists l, find_pid q p = Some l /\ has_bits (shared_signal_pending l) (sig_bit sig) = true.

#[local] Instance carries_preorder p : PreOrder (carries p).
Proof. split; [done|]. intros u v w (A1 & A2 & A3 & A4) (B1 & B2 & B3 & B4). unfold carries. rewrite B1, A1, B2, A2. naive_solver congruence. Qed.
#[local] Instance alike_preorder : PreOrder alike.
Proof.
  split; [split; [done|]; auto|]. intros u v w (A1 & A2 & A3 & A4) (B1 & B2 & B3 & B4).
  split; [intros p; etrans; [apply A1|apply B1]|]. split; [congruence|]. split; [congruence|]. destruct A4 as [E|[? E]]; [by rewrite <- E|]. right. split; [done|].
  destruct B4 as [->|[? _]]; congruence.
Qed.

Lemma lifted_refl R `{!Reflexive R} q : rq_ok q -> lifted R q q.
Proof. intros Hq. split; [done|]. intros j u Hj. by exists u. Qed.
Lemma lifted_trans R `{!Transitive R} q1 q2 q3 : lifted R q1 q2 -> lifted R q2 q3 -> lifted R q1 q3.
Proof.
  intros [_ A] [B1 B]. split; [done|]. intros j u Hj. destruct (A j u Hj) as (v & Hv & Huv). destruct (B j v Hv) as (w & Hw & Hvw).
  exists w. split; [done|]. by etrans.
Qed.
Lemma lifted_map R f q q' : rq_ok q' -> (forall j, slot q' j = f <$> slot q j) -> (forall u, R u (f u)) -> lifted R q q'.
Proof. intros Hq Hs Hf. split; [done|]. intros j u Hj. rewrite Hs, Hj. by exists (f u). Qed.
Lemma lifted_weaken R R' q q' : (forall u u', R u u' -> R' u u') -> lifted R q q' -> lifted R' q q'.
Proof. intros HR [A B]. split; [done|]. intros j u Hj. destruct (B j u Hj) as (u' & ? & ?). eauto. Qed.

Lemma lifted_find R q q' p t :
  (forall u u', R u u' -> pid u' = pid u) -> rq_ok q -> lifted R q q' -> p <> 0 -> find_pid q p = Some t -> exists t', find_pid q' p = Some t' /\ R t t'.
Proof.
  intros HR Hq [Hq' HL] Hp Hf. apply find_pid_slot in Hf as (j & Hj & <-); [|apply Hq]. destruct (HL j t Hj) as (t' & Hj' & Ht).
  exists t'. split; [|done]. rewrite <- (HR t t' Ht). apply (slot_find_pid _ j); [apply Hq'|done|by rewrite (HR t t' Ht)].
Qed.

Lemma signalled_mono p q q' : rq_ok q -> p <> 0 -> lifted (carries p) q q' -> signalled p q -> signalled p q'.
Proof.
  intros Hq Hp HL [(j & u & Hj & Hu & Hb)|(l & Hl & Hb)].
  - left. destruct HL as [_ HL]. destruct (HL j u Hj) as (u' & Hj' & _ & E2 & E3 & _). exists j, u'. split; [done|]. split; [congruence|auto].
  - right. destruct (lifted_find (carries p) q q' p l) as (l' & Hl' & _ & _ & _ & E4); [by intros ? ? (? & _)|done..|].
    exists l'. split; [done|]. apply find_pid_slot in Hl as (_ & _ & <-); [|apply Hq]. auto.
Qed.

Lemma alike_carries p u u' : alike u u' -> carries p u u'.
Proof. intros [H _]. apply H. Qed.

(** *** The bit survives *)
Lemma has_bits_or x y m : has_bits x m = true -> has_bits (Z.lor x y) m = true.
Proof.
  unfold has_bits. rewrite !negb_true_iff, !Z.eqb_neq, Z.land_lor_distr_l. intros H E. by apply Z.lor_eq_0_iff in E as [E _].
Qed.
Lemma has_bits_drop_cont x : has_bits x (sig_bit sig) = true -> has_bits (drop_bits x (sig_bit SIGCONT)) (sig_bit sig) = true.
Proof.
  unfold has_bits, drop_bits. rewrite <- Z.land_assoc. assert (Z.land (not64 (sig_bit SIGCONT)) (sig_bit sig) = sig_bit sig) as ->; [|done].
  destruct Hsig as [-> | ->]; vm_compute; reflexivity.
Qed.

Lemma queue_alike s info mv u : alike u (queue_on_thread s info mv u).
Proof.
  destruct (queue_on_thread_fields s info mv u) as (E1 & E2 & E3 & _ & E5 & _ & E7). split; [|split; [|split]].
  - intros p. split_and!; [done|done|rewrite E3; intros _; apply has_bits_or|by rewrite E5].
  - unfold queue_on_thread, place. by repeat case_match.
  - unfold queue_on_thread, place. by repeat case_match.
  - rewrite E7. destruct (state_eqb (state u) Blocked) eqn:E; [right|by left]. by apply state_eqb_true in E.
Qed.
Lemma park_alike s info u : alike u (park_on_leader s info u).
Proof.
  unfold park_on_leader. split; [|by destruct (negb _); auto]. intros p.
  destruct (negb _); split_and!; try done; intros _; cbn; apply has_bits_or.
Qed.
Lemma gen_alike tg s mv u : is_resume s = false -> alike u (gen_map tg s mv u).
Proof.
  intros Hr. unfold gen_map. rewrite Hr. destruct (has_bits SIGDFL_STOP _); [|done].
  assert (alike u (if tgid u =? tg then set_signal_pending (drop_bits (signal_pending u) (sig_bit SIGCONT)) u else u)) as H1.
  { destruct (tgid u =? tg); [|done]. split; [|by auto]. intros p. split_and!; try done. intros _. apply has_bits_drop_cont. }
  cbv zeta. set (v := if tgid u =? tg then _ else u) in *. clearbody v. etrans; [exact H1|]. destruct (pid v =? tg); [|done].
  split; [|by auto]. intros p. split_and!; try done. intros _. apply has_bits_drop_cont.
Qed.

Lemma lifted_write q q' i t f : rq_ok q' -> slot q i = Some t -> (forall j, slot q' j = if decide (i = j) then Some (f t) else slot q j) ->
  (forall u, alike u (f u)) -> lifted alike q q'.
Proof.
  intros Hq Hi Hs Hf. split; [done|]. intros j u Hj. rewrite Hs. destruct (decide (i = j)) as [<-|]; [|by exists u].
  rewrite Hi in Hj. injection Hj as <-. eauto.
Qed.

Lemma post_alike tg s info q : rq_ok q -> tg <> 0 -> is_resume s = false -> lifted alike q (post_signal_process tg s info q).2.
Proof.
  intros Hq Htg Hr. pose proof (post_process_cases tg s info q Hq Htg) as H. pose proof (generated_scan tg s q Hq Htg) as [Hq1 Hg].
  destruct (post_signal_process tg s info q) as [[[ret woke] rs] q']. cbv zeta in *. cbn [snd].
  assert (lifted alike q (on_signal_generated tg s q).2) as HL by (eapply lifted_map; [done|exact Hg|intros u; by apply gen_alike]).
  set (q1 := (on_signal_generated tg s q).2) in *. clearbody q1. refine (lifted_trans _ _ _ _ HL _).
  destruct H as [Hq' [(_ & i & u & mv & Hi & _ & _ & Hsl & _)|[(_ & _ & i & u & Hi & _ & Hsl)|(_ & -> & _)]]]; [| |by apply lifted_refl; [apply _|]].
  - eapply (lifted_write _ _ i u (queue_on_thread s info mv)); [done..|]. intros w. apply queue_alike.
  - eapply (lifted_write _ _ i u (park_on_leader s info)); [done..|]. intros w. apply park_alike.
Qed.

Lemma wake_poll_alike q : rq_ok q -> lifted alike q (wake_poll q).
Proof.
  intros Hq. unfold wake_poll, wake_poll_tagged. destruct (unblock_scan POLL_WAIT_CHANNEL POLL_TAG_ALL q Hq) as (H1 & _ & H3).
  eapply lifted_map; [done|exact H1|]. intros t. unfold unblock_map. destruct (unblocks _ _ t) eqn:E; [|done].
  unfold wake_task. match goal with |- context [place ?mv ?x] => destruct (place_frame mv x) as (vr & vd & -> & _) end.
  split; [done|]. split; [done|]. split; [done|]. right. split; [|done]. unfold unblocks in E. bool_to_prop. by apply state_eqb_true.
Qed.

Lemma deliver_alike tg s info q : rq_ok q -> tg <> 0 -> 1 <= s <= 64 -> is_resume s = false -> lifted alike q (deliver_signal_process tg s info q).2.
Proof.
  intros Hq Htg Hs Hr. rewrite deliver_posts by (unfold is_resume in Hr; bool_to_prop; lia).
  pose proof (post_alike tg s info q Hq Htg Hr) as HL. refine (lifted_trans _ _ _ _ HL _). apply wake_poll_alike, HL.
Qed.

Lemma sig_range : 1 <= sig <= 64 /\ is_resume sig = false /\ has_bits SIGDFL_STOP (sig_bit sig) = true.
Proof. destruct Hsig as [-> | ->]; vm_compute; split_and!; congruence. Qed.

Lemma deliver_signals p info q l : rq_ok q -> p <> 0 -> find_pid q p = Some l -> signalled p (deliver_signal_process p sig info q).2.
Proof.
  intros Hq Hp Hl. destruct sig_range as (Hs & Hr & _). rewrite deliver_posts by (unfold is_resume in Hr; bool_to_prop; lia).
  pose proof (post_alike p sig info q Hq Hp Hr) as HL. pose proof (post_signal_process_spec p sig info q Hq Hp Hs) as HP.
  destruct (lifted_find alike q _ p l ltac:(by intros ? ? [H _]; apply (H 0)) Hq HL Hp Hl) as (l' & Hl' & _).
  destruct (post_signal_process p sig info q) as [[[ret woke] rs] q1]. cbn [snd] in *. destruct HP as [Hq1 HP].
  apply (signalled_mono p q1); [done|done|eapply lifted_weaken; [apply (alike_carries p)|by apply wake_poll_alike]|].
  destruct HP as [(_ & i & u & (Hu & Hug & Hup) & _)|[(_ & _ & x & Hx & Hb)|(_ & Hn & _)]]; [| |congruence].
  - left. exists i, u. split; [done|]. split; [done|]. by apply has_bits_true.
  - right. exists x. split; [done|]. by apply has_bits_true.
Qed.

Lemma deliver_all info ps : forall q, rq_ok q -> Forall (fun p => p <> 0) ps ->
  let q' := foldl (fun q p => (deliver_signal_process p sig info q).2) q ps in
  lifted alike q q' /\ forall p l, p ∈ ps -> find_pid q p = Some l -> signalled p q'.
Proof.
  destruct sig_range as (Hs & Hr & _). induction ps as [|p ps IH]; intros q Hq Hps; [by split; [apply lifted_refl; [apply _|]|intros ? ? ?%elem_of_nil]|].
  apply Forall_cons in Hps as [Hp Hps]. cbn [foldl]. pose proof (deliver_alike p sig info q Hq Hp Hs Hr) as HL.
  destruct (IH _ (proj1 HL) Hps) as [IH1 IH2]. split; [exact (lifted_trans _ _ _ _ HL IH1)|]. intros x l Hx Hl.
  assert (exists l', find_pid (deliver_signal_process p sig info q).2 x = Some l') as (l' & Hl').
  { destruct (lifted_find alike q _ x l ltac:(by intros ? ? [H _]; apply (H 0)) Hq HL) as (l' & ? & _); eauto.
    apply elem_of_cons in Hx as [->|Hx]; [done|]. by rewrite Forall_forall in Hps; apply Hps. }
  apply elem_of_cons in Hx as [->|Hx]; [|by eapply IH2].
  eapply signalled_mono; [apply HL|done| |by eapply deliver_signals]. eapply lifted_weaken; [apply (alike_carries p)|exact IH1].
Qed.

(** The whole process group is signalled. *)
Lemma kill_pgrp_signals alloc pg info q :
  rq_ok q -> (forall j u, slot q j = Some u -> pid u <> 0) ->
  let q' := (kill_pgrp alloc pg sig info q).2 in
  lifted alike q q' /\ (alloc = true -> forall j u, slot q j = Some u -> pgid u = pg -> pid u = tgid u -> signalled (pid u) q').
Proof.
  intros Hq Hnz. cbv zeta. unfold kill_pgrp. destruct alloc; cbn [negb]; [|by split; [apply lifted_refl; [apply _|]|]].
  assert (Forall (fun p => p <> 0) (pgrp_leaders pg q)) as Hl.
  { apply Forall_forall. intros p (i & _ & Hi)%list_elem_of_omap. destruct (slot q i) as [u|] eqn:Eu; [|done].
    destruct (_ && _); [|done]. injection Hi as <-. by eapply Hnz. }
  assert (forall j u, slot q j = Some u -> pgid u = pg -> pid u = tgid u -> pid u ∈ pgrp_leaders pg q) as Hin.
  { intros j u Hj Hg Ht. apply list_elem_of_omap. exists j. split; [apply elem_live_slots; [apply Hq|by exists u]|].
    by rewrite Hj, Hg, Ht, !Z.eqb_refl. }
  destruct (deliver_all info (pgrp_leaders pg q) q Hq Hl) as [D1 D2].
  destruct (pgrp_leaders pg q) as [|p0 ps0] eqn:E.
  { split; [by apply lifted_refl; [apply _|]|]. intros _ j u Hj Hg Ht. by specialize (Hin j u Hj Hg Ht) as ?%elem_of_nil. }
  rewrite (proj2 (Z.eqb_neq sig 0)) by (pose proof sig_range; lia). cbn [snd]. split; [done|]. intros _ j u Hj Hg Ht.
  apply (D2 _ u); [by eapply Hin|]. apply (slot_find_pid q j); [apply Hq|done|by eapply Hnz].
Qed.

(** *** The default stop action *)
Lemma notify_carries p tg pp info q : rq_ok q -> lifted (carries p) q (notify_parent_state_change deliver_signal_process tg pp info q).
Proof.
  intros Hq. apply (lifted_weaken alike _ _ _ (alike_carries p)). unfold notify_parent_state_change.
  destruct ((tg =? 0) || (pp =? 0)); [by apply lifted_refl; [apply _|]|].
  set (sup := match find_pid q _ with Some _ => _ | None => _ end). destruct sup; [by apply wake_poll_alike|].
  rewrite deliver_posts by (unfold SIGCHLD, SIGCONT; lia). set (g := tgid_of pp q). destruct (post_sigchld_cases g info q Hq) as [H1 H2].
  refine (lifted_trans _ _ _ _ _ (wake_poll_alike _ H1)). destruct H2 as [->|(i & t & f & Hi & Hf & Hs)]; [by apply lifted_refl; [apply _|]|].
  apply (lifted_write _ _ i t f H1 Hi Hs). destruct Hf as [-> | ->]; intros u; [apply queue_alike|apply park_alike].
Qed.

Lemma stop_carries p me s q t : rq_ok q -> find_pid q me = Some t -> tgid t <> 0 -> lifted (carries p) q (do_signal_stop me s q).
Proof.
  intros Hq Hf Hg. unfold do_signal_stop. rewrite Hf. cbv zeta.
  destruct (modify_pid_ok (tgid t) (stop_leader s) q Hq (keeps_stop_leader s) Hg) as [A1 A2].
  eapply (lifted_trans _ _ (modify_pid (tgid t) (stop_leader s) q)); [eapply lifted_map; [exact A1|exact A2|]|].
  { intros u. cbv beta. unfold stop_leader. by destruct (pid u =? tgid t), (stop_signal u =? 0). }
  set (qa := modify_pid (tgid t) (stop_leader s) q) in *. clearbody qa.
  destruct (for_live_ok (stop_thread me (tgid t)) qa A1 (keeps_stop_thread me (tgid t))) as [B1 B2].
  eapply (lifted_trans _ _ (for_live (stop_thread me (tgid t)) qa)); [eapply lifted_map; [exact B1|exact B2|]|by apply notify_carries].
  intros u. assert (forall v, signal_pending v = drop_bits (signal_pending u) (sig_bit SIGCONT) -> shared_signal_pending v = shared_signal_pending u ->
    pid v = pid u -> tgid v = tgid u -> carries p u v) as Hc.
  { intros v E1 E2 E3 E4. split_and!; [done|done|rewrite E1; intros _; apply has_bits_drop_cont|by rewrite E2]. }
  unfold stop_thread. destruct (_ || _); [done|]. repeat case_match; by apply Hc.
Qed.

(** With the default action the call stops the caller: at once, if the signal is
    pending for its process, with all its threads that are off CPU; otherwise if
    a stop was under way. *)
Lemma stop_now_default me q t :
  rq_ok q -> me <> 0 -> find_pid q me = Some t -> tgid t <> 0 -> state t <> Zombie ->
  match find_pid q (tgid t) with Some l => handler_of sig l = 0 | None => True end ->
  let '(stopped, q') := stop_now_if_pending me sig q in
  stopped = true /\ (forall p, p <> tgid t -> lifted (carries p) q q')
  /\ (exists t', find_pid q' me = Some t' /\ (state t' = Stopped \/ stop_pending t' = false))
  /\ (signalled (tgid t) q -> forall j u, slot q j = Some u -> tgid u = tgid t -> state u <> Zombie ->
        pid u = me \/ (on_cpu u = None /\ state u <> Running) -> exists u', slot q' j = Some u' /\ state u' = Stopped).
Proof.
  intros Hq Hme Hf Hg Hz Hh. destruct sig_range as (Hs & _ & Hst). unfold stop_now_if_pending.
  rewrite (proj2 (Z.eqb_neq sig 0)), (proj2 (Z.ltb_ge 64 sig)), Hst, (proj2 (Z.eqb_neq me 0) Hme), Hf by lia. cbn [negb orb]. cbv zeta.
  assert (match find_pid q (tgid t) with Some l => handler_of sig l | None => 0 end = 0) as -> by (by destruct (find_pid q (tgid t))). cbn [negb Z.eqb].
  set (claim := fun u => let v := claim_thread (tgid t) sig u in if pid v =? tgid t then claim_leader sig v else v).
  destruct (for_live_ok (claim_thread (tgid t) sig) q Hq (keeps_claim_thread _ _)) as [A1 A2].
  destruct (modify_pid_ok (tgid t) (claim_leader sig) _ A1 (keeps_claim_leader sig) Hg) as [B1 B2].
  set (on_thread := any_live _ q). set (qa := for_live _ q) in *. set (on_leader := match find_pid qa (tgid t) with Some l => _ | None => _ end).
  assert (signalled (tgid t) q -> on_thread || on_leader = true) as Hsg.
  { intros [(j & u & Hj & Hu & Hb)|(l & Hl & Hb)].
    - apply orb_true_iff. left. apply any_live_spec; [apply Hq|]. exists j, u. by rewrite Hu, Z.eqb_refl, Hb.
    - apply orb_true_iff. right. unfold on_leader.
      rewrite (find_pid_map q qa (claim_thread (tgid t) sig) (tgid t) (proj1 Hq) (proj1 A1) Hg), Hl; [|intros u; unfold claim_thread; by destruct (_ && _)|done].
      cbn [fmap option_fmap option_map]. unfold claim_thread. by destruct (_ && _). }
  clearbody on_thread on_leader. set (qb := modify_pid (tgid t) _ qa) in *.
  assert (forall j, slot qb j = claim <$> slot q j) as Hsl by (intros j; rewrite B2, A2; by destruct (slot q j)). clearbody qa qb.
  assert (forall u, pid (claim u) = pid u /\ tgid (claim u) = tgid u /\ state (claim u) = state u /\ on_cpu (claim u) = on_cpu u) as Hcl.
  { intros u. unfold claim, claim_thread, claim_leader. cbv zeta. by repeat case_match. }
  assert (forall p, p <> tgid t -> lifted (carries p) q qb) as Hcar.
  { intros p Hp. eapply lifted_map; [done|exact Hsl|]. intros u. destruct (Hcl u) as (C1 & C2 & _). split; [done|]. split; [done|].
    unfold claim, claim_thread, claim_leader. split.
    - intros Hu. rewrite (proj2 (Z.eqb_neq (tgid u) (tgid t))) by congruence. cbn [andb]. by repeat case_match.
    - intros Hu. destruct (_ && _); cbn [pid set_signal_pending]; rewrite (proj2 (Z.eqb_neq (pid u) (tgid t))) by congruence; done. }
  assert (find_pid qb me = Some (claim t)) as Fb.
  { rewrite (find_pid_map q qb claim me (proj1 Hq) (proj1 B1) Hme); [by rewrite Hf|intros u; apply Hcl|done]. }
  destruct (Hcl t) as (C1 & C2 & C3 & C4). clearbody claim. pose proof Fb as Fb'. apply find_pid_slot in Fb' as (j0 & Hj0 & Hp0); [|apply B1].
  destruct (on_thread || on_leader).
  - destruct (do_stop_slots me sig qb (claim t) B1 Fb ltac:(by rewrite C2)) as [D1 D2]. split; [done|]. split; [|split].
    + intros p Hp. refine (lifted_trans _ _ _ _ (Hcar p Hp) (stop_carries p me sig qb (claim t) B1 Fb _)). by rewrite C2.
    + destruct (D2 j0 (claim t) Hj0) as (tc & Hjc & E1 & _ & E3). exists tc.
      pose proof (slot_find_pid _ j0 tc (proj1 D1) Hjc ltac:(congruence)) as Hx. rewrite E1, Hp0 in Hx.
      split; [done|]. left. apply E3; [done|by rewrite C3|by left].
    + intros _ j u Hj Hu Hnz Hc. destruct (Hcl u) as (U1 & U2 & U3 & U4). destruct (D2 j (claim u)) as (u' & Hu' & _ & _ & E3); [by rewrite Hsl, Hj|].
      exists u'. split; [done|]. apply E3; rewrite ?U1, ?U2, ?U3, ?U4, ?C2; done.
  - destruct (modify_pid_ok me park_stopped qb B1 keeps_park_stopped Hme) as [D1 D2]. split; [done|]. split; [|split].
    + intros p Hp. refine (lifted_trans _ _ _ _ (Hcar p Hp) _). eapply lifted_map; [exact D1|exact D2|].
      intros u. cbv beta. unfold park_stopped. by destruct (pid u =? me), (stop_pending u).
    + pose proof (find_pid_map qb _ (fun u => if pid u =? me then park_stopped u else u) me (proj1 B1) (proj1 D1) Hme) as Hm.
      rewrite Hm, Fb; [|intros u; unfold park_stopped; by destruct (pid u =? me), (stop_pending u)|exact D2]. cbn [fmap option_fmap option_map].
      eexists. split; [done|]. rewrite Hp0, Z.eqb_refl. unfold park_stopped. destruct (stop_pending (claim t)) eqn:E; [by left|by right].
    + intros Hn%Hsg. done.
Qed.

Lemma stop_now_caught me q t l : find_pid q me = Some t -> find_pid q (tgid t) = Some l -> handler_of sig l <> 0 -> stop_now_if_pending me sig q = (false, q).
Proof.
  intros Hf Hl Hh. unfold stop_now_if_pending. destruct (_ || _ || _); [done|]. destruct (me =? 0); [done|]. rewrite Hf. cbv zeta.
  by rewrite Hl, (proj2 (Z.eqb_neq _ _) Hh).
Qed.
End carry.


(** C11: A killed task is not kept by its terminal.  Once SIGKILL has been
    delivered to a process, the job-control rule lets each of its threads go:
    it never asks for another retry, and it stops and signals nobody. *)
Theorem killed_task_leaves alloc me term_sid term_pgrp sig info q t :
  rq_ok q -> me <> 0 -> find_pid q me = Some t -> tgid t <> 0 ->
  let q' := (deliver_signal_process (tgid t) SIGKILL info q).2 in
  (check alloc me term_sid term_pgrp sig q').1 <> Retry /\ (check alloc me term_sid term_pgrp sig q').2 = q'.
Proof.
  intros Hq Hme Hf Hg. cbv zeta. pose proof (kill_seen info q me t Hq Hme Hf Hg) as Hk. set (q' := (deliver_signal_process _ _ _ _).2) in *. clearbody q'.
  unfold check. destruct (_ || _); [done|]. destruct (current_sid_pgid me q') as [s g]. destruct (_ || _ || _); [done|].
  destruct (signal_ignored_or_blocked me sig q'); [by destruct (sig =? SIGTTIN)|]. destruct (pgrp_is_orphaned g q'); [done|]. by rewrite Hk.
Qed.

(** ** A background job *)
(** Pid 9 as a child of pid 7 in the same session, in a group of its own. *)
Definition set_ppid : Z -> Task -> Task := ltac:(setter Task_eta ppid).
Definition set_sid : Z -> Task -> Task := ltac:(setter Task_eta sid).
Definition demo_job : RunQueue := modify 1 (fun t => set_ppid 7 (set_sid 7 t)) demo.

Lemma demo_job_ok : rq_ok demo_job.
Proof.
  apply modify_ok; [apply demo_ok| |unfold MAX_TASKS; lia]. intros t Ht. split; [done|]. split; [done|]. split; [by apply (task_ok_intro t)|done].
Qed.

Definition demo_caller : Task := default (new_kernel 0) (find_pid demo_job 9).

Lemma demo_pids j u : slot demo_job j = Some u -> pid u <> 0.
Proof.
  intros Hj. assert (forallb (fun o => match o with Some u => negb (pid u =? 0) | None => true end) (tasks demo_job) = true) as Hall by (vm_compute; reflexivity).
  rewrite forallb_forall in Hall. apply slot_tasks, list_elem_of_lookup_2, list_elem_of_In in Hj. apply Hall in Hj. by apply negb_true_iff, Z.eqb_neq in Hj.
Qed.


Lemma killed_task_leaves_witness :
  tgid demo_caller = 9 /\ (check true 9 7 7 SIGTTIN demo_job).1 = Retry
  /\ (check true 9 7 7 SIGTTIN (deliver_signal_process (tgid demo_caller) SIGKILL SigInfo_NONE demo_job).2).1 <> Retry.
Proof.
  split; [vm_compute; reflexivity|]. split; [vm_compute; reflexivity|].
  exact (proj1 (killed_task_leaves true 9 7 7 SIGTTIN SigInfo_NONE demo_job demo_caller demo_job_ok ltac:(lia) ltac:(vm_compute; reflexivity) ltac:(vm_compute; discriminate))).
Defined.
